(* ===== verification/_CoqProject ===== *)
-Q . S2P
Prelude.v
CMem.v
Lit.v
Unicode.v
Wctype.v
Ctype.v
Futex.v
Semaphore.v
Mutex.v
Rwlock.v
Locks.v
Barrier.v
MemFns.v
StrFns.v
Strtol.v
Multibyte.v
Qsort.v
Uchar.v
Search.v
Tsearch.v
Timeconv.v
Timefmt.v
Tz.v
Sha2.v
Random.v
Getopt.v
Env.v
Fnmatch.v
Iconv.v
Regcomp.v
Regcode.v
Regtype.v
Regexec.v
Regmatch.v
Regpike.v
Fpround.v
Bigint.v
Strtod.v
Strtodround.v
Strtodspec.v
Stdio.v
Stdioout.v
Stdioopen.v
Printf.v
Printfout.v
Printfdec.v
Printffloat.v
Printfeq.v
Printfsafe.v
Scanf.v
Scanfspec.v
Scanfback.v
Scanfsafe.v
Inet.v
