(* ===== verification/Prelude.v ===== *)
(** * A verification development for Citadel libc

    Citadel is a C library for x86-64 Linux. This development models its
    self-contained components as Rocq functions, one file per component, and
    proves that they do what ISO C, POSIX and the comments of the source say.
    Source paths below are relative to the repository (src/string.c is the
    file of that name in its src directory).

    ** How the code is modelled

    Machine integers are [Z] with their conversions written out ([u32],
    [s64] and so on, this file). Code that works on memory is a function over
    a finite map of bytes (CMem.v) in the monad [res] of this file: an access
    to an unmapped address, a failed check, an undefined operation or the
    bound of a loop is a trap, and the theorems state that the result is
    [Ok]: the code returns. Loops take as fuel a number that is never reached
    (the number of mapped bytes for a scan, the length of the format or
    pattern for a parser); the theorems on them are equations with [Ok] or
    with the result, so they include termination. Code that only reads
    strings works on lists of bytes without the terminator, where reading at
    the end gives 0 or traps past it. Shared objects (the environment, argv,
    the mapped semaphores) are explicit state. Threads are step functions on
    a shared state and a local state, one step for every access to shared
    memory, and the theorems quantify over all interleavings of any number of
    threads (Futex.v).

    What lies outside the source is a parameter or an argument: the kernel's
    answers (random bytes, files, futex results, clock), the success of
    malloc, the comparison functions of the callers.

    ** The parts of the library and where they are

    - Memory and strings: MemFns.v and StrFns.v (src/string.c), Ctype.v
      (src/ctype.c), Strtol.v (src/strtol.c). Word-at-a-time scans equal the
      byte-wise definition and never leave the mapped words; moves are right
      for every overlap; bounded copies stay inside the destination;
      conversions saturate and report errors exactly. malloc enters StrFns.v
      as a class of its documented behaviour.
    - Floating-point parsing (src/strtod.c): Fpround.v holds the formats, the
      meaning of rounding to nearest and round_to, Bigint.v the big integers,
      Strtod.v the conversion and the parser, Strtodround.v the proof that
      each path of decimal rounds correctly, Strtodspec.v what a string
      denotes and the theorem for the entry points. The operations of the
      floating-point unit are the exact ones, rounded. Strings are bounded by
      10^7 bytes, so that an exponent cut off after 10^8 cannot be made up
      for by digits.
    - Characters: Multibyte.v (src/multibyte.c), Uchar.v (src/uchar.c),
      Iconv.v (src/iconv.c). UTF-8 decoding accepts exactly the well-formed
      sequences, in one call or many; encoding and decoding are inverse, also
      between all character sets of iconv. Unicode.v has the tables of
      src/unicode_tables.h, Wctype.v the functions of src/wctype.c over them.
    - Sorting and searching: Qsort.v (src/qsort.c), Search.v and Tsearch.v
      (src/search.c). introsort sorts for every element width; the hash table
      and the AVL tree keep their invariants and find what was inserted.
    - Time: Timeconv.v and Timefmt.v (src/timeconv.c), Tz.v (src/tz.c). The
      calendar is the Gregorian one, conversions are inverse, strptime reads
      what strftime prints, strftime stays in its buffer; whatever the zone
      file holds, the lookup stays in bounds and follows the file and the
      POSIX rule. Timeconv.v sees the zones only through the lookup function,
      which Tz.v implements.
    - Hashing and random numbers: Sha2.v (src/sha2.c), Random.v
      (src/random.c). Digests do not depend on how the data is cut up;
      arc4random hands out the generator's stream once and erases it.
    - Program environment: Getopt.v (src/getopt.c), Env.v (src/env.c). Option
      scanning refines a grammar; the environment never keeps or frees the
      wrong string.
    - Pattern matching: Fnmatch.v (src/fnmatch.c): the loop with one
      backtracking point decides the declarative meaning of the pattern.
    - Regular expressions (src/regex.c): Regcomp.v is the parser and the code
      generator, Regcode.v and Regtype.v show that the parser stays in the
      pattern and terminates and that the programs are well formed, Regexec.v
      has the two matchers, Regmatch.v the declarative meaning of a parse
      tree, Regpike.v the proof that the Pike machine reports the leftmost
      and longest match.
    - Synchronisation: Futex.v and Locks.v (src/runtime.c, parts of
      src/pthread_sync.c and src/pthread.c), Semaphore.v (src/semaphore.c),
      Mutex.v, Rwlock.v, Barrier.v (src/pthread_sync.c). In every
      interleaving: mutual exclusion, counts that agree with the history, and
      no lost wake-up: a thread sleeps only while another is bound to wake
      it.
    - Lit.v holds C string literals; this file the shared notions.

    In each file the definitions come first, then the lemmas, then the
    properties with their witnesses: instances of a property at concrete
    values where its hypotheses hold.

    ** What is not modelled

    The memory allocator and the dynamic linker (their state is the address
    space of the process), the mathematical functions, formatted and
    standard I/O, the resolver and the wrappers of system calls. The search
    for patterns with back-references (bt_run) is modelled but only its
    programs are verified. Weak memory is not modelled: interleaving is justified by
    the acquire and release orders the source uses on x86-64. Undefined
    overflow of an int in the time formatting code for absurd field values is
    computed without the wrap. *)
From stdpp Require Export base tactics numbers list gmap option sorting.
From Stdlib Require Export ZArith Lia.

#[export] Set Warnings "-clear-no-such-hyp".
#[global] Open Scope Z_scope.
#[global] Coercion Z.of_nat : nat >-> Z.

#[global] Arguments Z.eqb : simpl never.
#[global] Arguments Z.ltb : simpl never.
#[global] Arguments Z.leb : simpl never.

(** ** Machine integers *)

(** Conversion to the unsigned type of [w] bits, and to the signed one. *)
Definition uwrap (w x : Z) : Z := x mod 2 ^ w.
Definition swrap (w x : Z) : Z := (x + 2 ^ (w - 1)) mod 2 ^ w - 2 ^ (w - 1).

Abbreviation u8 := (uwrap 8).
Abbreviation u16 := (uwrap 16).
Abbreviation u32 := (uwrap 32).
Abbreviation u64 := (uwrap 64).
Abbreviation s8 := (swrap 8).
Abbreviation s32 := (swrap 32).
Abbreviation s64 := (swrap 64).

Definition is_byte (b : Z) : Prop := 0 <= b < 256.

#[export] Instance is_byte_dec b : Decision (is_byte b).
Proof. unfold is_byte. apply _. Defined.

(** ** Computations that may trap

    [Ok] is a normal return. [Segv] is an access to an unmapped address,
    [Abrt] a call of __chk_fail, [Ub] another undefined behaviour, [Fuel]
    the bound of a loop: the theorems show that no loop reaches its bound. *)

Inductive trap := Segv | Abrt | Ub | Fuel.

Inductive res (A : Type) := Ok (a : A) | Trap (t : trap).
Arguments Ok {A} a.
Arguments Trap {A} t.

#[export] Instance res_ret : MRet res := λ A a, Ok a.
#[export] Instance res_bind : MBind res := λ A B f c,
  match c with Ok a => f a | Trap t => Trap t end.

#[export] Instance trap_eq_dec : EqDecision trap.
Proof. solve_decision. Defined.

(** A C loop: the body continues with a new state or leaves with a result. *)
Inductive ctl (S R : Type) := Cont (s : S) | Brk (r : R).
Arguments Cont {S R} s.
Arguments Brk {S R} r.

Fixpoint loop {S R} (fuel : nat) (body : S → res (ctl S R)) (s : S) : res R :=
  match fuel with
  | O => Trap Fuel
  | Datatypes.S f =>
      match body s with
      | Ok (Cont s') => loop f body s'
      | Ok (Brk r) => Ok r
      | Trap t => Trap t
      end
  end.

(** [wp c Q]: [c] returns normally, with a result that satisfies [Q]. *)
Definition wp {A} (c : res A) (Q : A → Prop) : Prop := ∃ a, c = Ok a ∧ Q a.

Lemma wp_ok {A} (a : A) Q : Q a → wp (Ok a) Q.
Proof. intros. by exists a. Qed.

Lemma wp_ret {A} (a : A) Q : Q a → wp (mret a) Q.
Proof. apply wp_ok. Qed.

Lemma wp_bind {A B} (c : res A) (k : A → res B) Q :
  wp c (λ a, wp (k a) Q) → wp (mbind k c) Q.
Proof. intros (a & -> & b & Hk & HQ). exists b. split; [exact Hk | done]. Qed.

Lemma wp_mono {A} (c : res A) (P Q : A → Prop) :
  wp c P → (∀ a, P a → Q a) → wp c Q.
Proof. intros (a & Ha & HP) HPQ. exists a. eauto. Qed.

Lemma wp_eq {A} (c : res A) a : wp c (eq a) ↔ c = Ok a.
Proof. split; [by intros (? & ? & ->) | intros ->; by exists a]. Qed.

Lemma wp_eq_r {A} (c : res A) a : wp c (λ x, x = a) ↔ c = Ok a.
Proof. split; [by intros (? & ? & ->) | intros ->; by exists a]. Qed.

Lemma wp_of_eq {A} (c : res A) a (Q : A → Prop) : c = Ok a → Q a → wp c Q.
Proof. intros. by exists a. Qed.

(** Total correctness of a loop: an invariant and a measure bounded by the
    fuel. *)
Lemma wp_loop {S R} (I : S → Prop) (μ : S → nat) (body : S → res (ctl S R))
    (Q : R → Prop) fuel s :
  (∀ s, I s → wp (body s) (λ r, match r with
     | Cont s' => I s' ∧ (μ s' < μ s)%nat
     | Brk x => Q x end)) →
  I s → (μ s < fuel)%nat → wp (loop fuel body s) Q.
Proof.
  intros Hb. revert s. induction fuel as [|fuel IH]; intros s HI Hm; [lia|].
  cbn [loop]. destruct (Hb s HI) as (r & -> & Hr). destruct r as [s'|x].
  - destruct Hr. apply IH; [done | lia].
  - by apply wp_ok.
Qed.

#[global] Arguments loop : simpl never.

Lemma loop_S {S R} f (body : S → res (ctl S R)) s :
  loop (Datatypes.S f) body s =
  match body s with
  | Ok (Cont s') => loop f body s' | Ok (Brk r) => Ok r | Trap t => Trap t
  end.
Proof. reflexivity. Qed.

Create HintDb wp.
#[export] Hint Resolve wp_ok wp_ret : wp.

(** Proof steps of the weakest-precondition calculus. *)
Ltac wp_pure :=
  repeat lazymatch goal with
  | |- wp (mret _) _ => apply wp_ret
  | |- wp (Ok _) _ => apply wp_ok
  | |- wp (mbind _ _) _ => apply wp_bind
  | |- wp (match (_, _) with pair _ _ => _ end) _ => cbv beta iota
  | |- wp (if 0 =? 0 then _ else _) _ => change (0 =? 0) with true; cbv iota
  end.

Ltac wp_use H := eapply wp_of_eq; [apply H|].

(** Case split on the boolean tests of the goal, as arithmetic facts. *)
Ltac zcases :=
  repeat match goal with
  | |- context [Z.eqb ?a ?b] => destruct (Z.eqb_spec a b)
  | |- context [Z.ltb ?a ?b] => destruct (Z.ltb_spec a b)
  | |- context [Z.leb ?a ?b] => destruct (Z.leb_spec a b)
  end.

Ltac zbool := rewrite ?Z.eqb_eq, ?Z.eqb_neq, ?Z.ltb_lt, ?Z.ltb_ge, ?Z.leb_le, ?Z.leb_gt in *.

(** Linear arithmetic with division and modulo by constants. *)
Ltac zdiv := Z.to_euclidean_division_equations; lia.

(** ** Facts on machine integers *)

Lemma uwrap_small w x : 0 <= x < 2 ^ w → uwrap w x = x.
Proof. apply Z.mod_small. Qed.

Lemma uwrap_range w x : 0 <= w → 0 <= uwrap w x < 2 ^ w.
Proof. intros. apply Z.mod_pos_bound. by apply Z.pow_pos_nonneg. Qed.

Lemma u8_byte x : is_byte (u8 x).
Proof. apply (uwrap_range 8 x). lia. Qed.

Lemma u8_id x : is_byte x → u8 x = x.
Proof. intros. by apply uwrap_small. Qed.

Lemma swrap_small w x : 0 < w → - 2 ^ (w - 1) <= x < 2 ^ (w - 1) → swrap w x = x.
Proof.
  intros Hw Hx. unfold swrap.
  assert (2 ^ w = 2 * 2 ^ (w - 1)) as Hp.
  { rewrite <- Z.pow_succ_r by lia. f_equal. lia. }
  rewrite Z.mod_small; lia.
Qed.

#[export] Hint Resolve u8_byte : wp.

(** A property of every byte, by evaluation. *)
Lemma byte_forall (P : Z → bool) :
  forallb P (seqZ 0 256) = true → ∀ b, is_byte b → P b = true.
Proof.
  intros H b Hb. rewrite forallb_forall in H. apply H.
  apply list_elem_of_In, elem_of_seqZ. unfold is_byte in Hb. lia.
Qed.

(** ** Bitwise operations stay in range *)

Lemma bits_range w x :
  0 <= w → (∀ i, w <= i → Z.testbit x i = false) → 0 <= x < 2 ^ w.
Proof.
  intros Hw Hb. replace x with (x mod 2 ^ w).
  - apply Z.mod_pos_bound. by apply Z.pow_pos_nonneg.
  - apply Z.bits_inj'. intros i Hi. destruct (decide (i < w)).
    + by apply Z.mod_pow2_bits_low.
    + rewrite Z.mod_pow2_bits_high by lia. rewrite Hb by lia. done.
Qed.

Lemma range_bits w x i : 0 <= x < 2 ^ w → w <= i → Z.testbit x i = false.
Proof.
  intros Hx Hi. destruct (decide (0 <= w)).
  - rewrite <- (Z.mod_small x (2 ^ w)) by done. apply Z.mod_pow2_bits_high. lia.
  - rewrite Z.pow_neg_r in Hx by lia. lia.
Qed.

(** Or-ing the low [k] bits into a multiple of 2^k adds them. *)
Lemma lor_add a b k : 0 <= k → 0 <= b < 2 ^ k → Z.lor (a * 2 ^ k) b = a * 2 ^ k + b.
Proof.
  intros Hk Hb. rewrite <- Z.lxor_lor, <- Z.add_nocarry_lxor; [done|..];
    apply Z.bits_inj'; intros i Hi; rewrite Z.land_spec, Z.bits_0;
    (destruct (decide (i < k)); [by rewrite Z.mul_pow2_bits_low|]);
    rewrite (range_bits k b i) by lia; by rewrite andb_false_r.
Qed.

Lemma lor_const p b k : 0 <= k → p mod 2 ^ k = 0 → 0 <= b < 2 ^ k → Z.lor p b = p + b.
Proof.
  intros Hk Hp Hb. rewrite (Z.div_mod p (2 ^ k)) by (apply Z.pow_nonzero; lia).
  rewrite Hp, Z.add_0_r, Z.mul_comm. by apply lor_add.
Qed.

Section BitRange.
Context (w a b : Z) (Hw : 0 <= w) (Ha : 0 <= a < 2 ^ w) (Hb : 0 <= b < 2 ^ w).

Lemma land_range : 0 <= Z.land a b < 2 ^ w.
Proof using All.
  apply bits_range; [done|]. intros i Hi. rewrite Z.land_spec.
  by rewrite (range_bits w a), (range_bits w b).
Qed.

Lemma lor_range : 0 <= Z.lor a b < 2 ^ w.
Proof using All.
  apply bits_range; [done|]. intros i Hi. rewrite Z.lor_spec.
  by rewrite (range_bits w a), (range_bits w b).
Qed.

Lemma lxor_range : 0 <= Z.lxor a b < 2 ^ w.
Proof using All.
  apply bits_range; [done|]. intros i Hi. rewrite Z.lxor_spec.
  by rewrite (range_bits w a), (range_bits w b).
Qed.
End BitRange.

Lemma byte_land a b : is_byte a → is_byte b → is_byte (Z.land a b).
Proof. apply (land_range 8); lia. Qed.

Lemma byte_lor a b : is_byte a → is_byte b → is_byte (Z.lor a b).
Proof. apply (lor_range 8); lia. Qed.

Lemma byte_lxor a b : is_byte a → is_byte b → is_byte (Z.lxor a b).
Proof. apply (lxor_range 8); lia. Qed.

#[export] Hint Resolve byte_land byte_lor byte_lxor : wp.
