(* ===== verification/CMem.v ===== *)
(** * Byte-addressed memory

    The memory of a process as a finite map from addresses to bytes; an
    address that is not in the map is not mapped and an access to it traps.
    [bytes], [mapped] and [write] are the vocabulary of the specifications,
    [loadb], [storeb] and the 8-byte [load64], [store64] the operations the
    models of the C functions use. *)
From S2P Require Import Prelude.

Abbreviation mem := (gmap Z Z).

(** ** Operations *)

(** [*(unsigned char * )p] as an rvalue and as an lvalue. *)
Definition loadb (m : mem) (p : Z) : res Z :=
  match m !! p with Some v => Ok v | None => Trap Segv end.

Definition storeb (m : mem) (p v : Z) : res mem :=
  match m !! p with Some _ => Ok (<[p := u8 v]> m) | None => Trap Segv end.

(** Little-endian words. *)
Fixpoint le_word (l : list Z) : Z :=
  match l with [] => 0 | b :: l => b + 256 * le_word l end.

Fixpoint le_split (n : nat) (w : Z) : list Z :=
  match n with O => [] | S n => w mod 256 :: le_split n (w / 256) end.

Fixpoint load_list (m : mem) (p : Z) (n : nat) : res (list Z) :=
  match n with
  | O => Ok []
  | S n => b ← loadb m p; l ← load_list m (p + 1) n; Ok (b :: l)
  end.

Fixpoint store_list (m : mem) (p : Z) (l : list Z) : res mem :=
  match l with
  | [] => Ok m
  | b :: l => m ← storeb m p b; store_list m (p + 1) l
  end.

(** [*(word * )p]. *)
Definition load64 (m : mem) (p : Z) : res Z :=
  l ← load_list m p 8; Ok (le_word l).

Definition store64 (m : mem) (p w : Z) : res mem :=
  store_list m p (le_split 8 w).

(** A loop that touches a new address on every turn stops within [fuel m]
    turns: it has returned or trapped by then. *)
Definition fuel (m : mem) : nat := S (size m).
#[global] Arguments fuel : simpl never.

(** memcpy (buf + i, p, k) on an array [buf] held as a list, with [k] the
    length of [p]. *)
Definition put_at (buf : list Z) (i : nat) (p : list Z) : list Z :=
  take i buf ++ p ++ drop (i + length p) buf.

(** ** Specification vocabulary *)

(** The bytes [l] are at [p]. *)
Definition bytes (m : mem) (p : Z) (l : list Z) : Prop :=
  ∀ i x, l !! i = Some x → m !! (p + Z.of_nat i) = Some x.

(** Every address of [p, p + n) is mapped. *)
Definition mapped (m : mem) (p n : Z) : Prop :=
  ∀ a, p <= a < p + n → is_Some (m !! a).

(** The memory after the bytes [l] have been written at [p]. *)
Fixpoint write (m : mem) (p : Z) (l : list Z) : mem :=
  match l with [] => m | b :: l => write (<[p := b]> m) (p + 1) l end.

(** A NUL-terminated string whose bytes before the NUL are [l]. *)
Definition cstr (m : mem) (p : Z) (l : list Z) : Prop :=
  bytes m p (l ++ [0]) ∧ Forall (λ b, 0 < b < 256) l.

(** A memory that can exist: addresses and bytes are in range, the null
    pointer is not mapped, and mapping goes by aligned words (in fact by
    pages), which is what makes an aligned word read that covers one mapped
    byte safe. *)
Record mem_ok (m : mem) : Prop := {
  mem_addr : ∀ a v, m !! a = Some v → 0 < a < 2 ^ 64;
  mem_byte : ∀ a v, m !! a = Some v → is_byte v;
  mem_word : ∀ a, is_Some (m !! a) → mapped m (8 * (a / 8)) 8;
}.

(** ** Lemmas *)

Lemma bytes_nil m p : bytes m p [].
Proof. intros i x. by rewrite lookup_nil. Qed.

Lemma bytes_cons m p b l : bytes m p (b :: l) ↔ m !! p = Some b ∧ bytes m (p + 1) l.
Proof.
  split.
  - intros H. split; [by rewrite <- (Z.add_0_r p); apply (H 0%nat)|].
    intros i x Hx. replace (p + 1 + i) with (p + S i) by lia. by apply H.
  - intros [H1 H2] [|i] x Hx; simpl in Hx; simplify_eq.
    + by rewrite Z.add_0_r.
    + replace (p + S i) with (p + 1 + i) by lia. by apply H2.
Qed.

Lemma bytes_app m p l1 l2 :
  bytes m p (l1 ++ l2) ↔ bytes m p l1 ∧ bytes m (p + length l1) l2.
Proof.
  revert p. induction l1 as [|b l1 IH]; intros p; cbn [app length].
  - rewrite Z.add_0_r. split; [|by intros []]. split; [apply bytes_nil | done].
  - rewrite !bytes_cons, IH. replace (p + 1 + length l1) with (p + S (length l1)) by lia.
    tauto.
Qed.

Lemma bytes_lookup m p l i x : bytes m p l → l !! i = Some x → m !! (p + Z.of_nat i) = Some x.
Proof. intros H. apply H. Qed.

Lemma bytes_inj m p l1 l2 :
  bytes m p l1 → bytes m p l2 → length l1 = length l2 → l1 = l2.
Proof.
  revert p l2. induction l1 as [|b l1 IH]; intros p [|b' l2]; try done.
  rewrite !bytes_cons. intros [? ?] [? ?] [= ?]. simplify_eq. f_equal. eauto.
Qed.

Lemma mapped_mono m p n p' n' :
  mapped m p n → p <= p' → p' + n' <= p + n → mapped m p' n'.
Proof. intros H ?? a Ha. apply H. lia. Qed.

Lemma mapped_bytes m p n :
  0 <= n → mapped m p n → ∃ l, bytes m p l ∧ Z.of_nat (length l) = n.
Proof.
  intros Hn. revert p. pattern n. apply natlike_ind; [..|done].
  - intros p _. exists []. split; [apply bytes_nil | done].
  - intros k Hk IH p Hm. destruct (Hm p) as [b Hb]; [lia|].
    destruct (IH (p + 1)) as (l & Hl & Hlen).
    { eapply mapped_mono; [done | lia | lia]. }
    exists (b :: l). rewrite bytes_cons. split; [done | simpl; lia].
Qed.

Lemma bytes_mapped m p l : bytes m p l → mapped m p (length l).
Proof.
  intros H a Ha. destruct (lookup_lt_is_Some_2 l (Z.to_nat (a - p))) as [x Hx]; [lia|].
  apply H in Hx. replace (p + Z.to_nat (a - p)) with a in Hx by lia. eauto.
Qed.

(** A mapped range has at most [size m] addresses. *)
Lemma mapped_size m p n : mapped m p n → n <= size m.
Proof.
  intros H. destruct (decide (0 <= n)); [|lia].
  assert (list_to_set (seqZ p n) ⊆ dom m) as Hs.
  { intros a Ha. apply elem_of_list_to_set, elem_of_seqZ in Ha.
    apply elem_of_dom, H. lia. }
  apply subseteq_size in Hs. rewrite size_list_to_set in Hs by apply NoDup_seqZ.
  rewrite length_seqZ, size_dom in Hs. lia.
Qed.

Lemma bytes_size m p l : bytes m p l → (length l <= size m)%nat.
Proof. intros H%bytes_mapped%mapped_size. lia. Qed.

(** *** Loads *)

Lemma loadb_ok m p v : m !! p = Some v → loadb m p = Ok v.
Proof. unfold loadb. by intros ->. Qed.

Lemma wp_loadb m p v (Q : Z → Prop) : m !! p = Some v → Q v → wp (loadb m p) Q.
Proof. intros H ?. rewrite (loadb_ok _ _ _ H). by apply wp_ok. Qed.

Lemma load_list_ok m p l : bytes m p l → load_list m p (length l) = Ok l.
Proof.
  revert p. induction l as [|b l IH]; intros p H; [done|].
  apply bytes_cons in H as [H1 H2]. cbn [length load_list].
  rewrite (loadb_ok _ _ _ H1). simpl. by rewrite (IH _ H2).
Qed.

Lemma load64_ok m p l : bytes m p l → length l = 8%nat → load64 m p = Ok (le_word l).
Proof.
  intros H Hl. unfold load64. pose proof (load_list_ok _ _ _ H) as Hr.
  rewrite Hl in Hr. by rewrite Hr.
Qed.

(** *** Stores and [write] *)

Lemma storeb_ok m p b v : m !! p = Some v → is_byte b → storeb m p b = Ok (<[p := b]> m).
Proof. unfold storeb. intros -> Hb. by rewrite u8_id. Qed.

Lemma wp_storeb m p b (Q : mem → Prop) :
  is_Some (m !! p) → Q (<[p := u8 b]> m) → wp (storeb m p b) Q.
Proof. intros [v H] ?. unfold storeb. rewrite H. by apply wp_ok. Qed.

Lemma lookup_write m p l a :
  write m p l !! a =
  if decide (p <= a < p + length l) then l !! Z.to_nat (a - p) else m !! a.
Proof.
  revert m p. induction l as [|b l IH]; intros m p; cbn [write length].
  - rewrite decide_False by lia. done.
  - rewrite IH. destruct (decide (a = p)) as [->|Hne].
    + rewrite decide_False by lia. rewrite decide_True by lia.
      rewrite lookup_insert_eq, Z.sub_diag. done.
    + destruct (decide (p + 1 <= a < p + 1 + length l)).
      * rewrite decide_True by lia. replace (Z.to_nat (a - p)) with (S (Z.to_nat (a - (p + 1)))) by lia.
        done.
      * rewrite decide_False by lia. by rewrite lookup_insert_ne.
Qed.

Lemma write_out m p l a : ¬ (p <= a < p + length l) → write m p l !! a = m !! a.
Proof. intros. rewrite lookup_write. by rewrite decide_False. Qed.

Lemma bytes_write m p l : bytes (write m p l) p l.
Proof.
  intros i x Hx. pose proof (lookup_lt_Some _ _ _ Hx). rewrite lookup_write.
  rewrite decide_True by lia. by replace (Z.to_nat (p + i - p)) with i by lia.
Qed.

Lemma bytes_write_out m p l q l' :
  q + length l' <= p ∨ p + length l <= q → bytes m q l' → bytes (write m p l) q l'.
Proof.
  intros Hd H i x Hx. pose proof (lookup_lt_Some _ _ _ Hx).
  rewrite write_out by lia. by apply H.
Qed.

Lemma mem_write_eq (m1 m2 : mem) p l :
  bytes m2 p l → (∀ a, ¬ (p <= a < p + length l) → m2 !! a = m1 !! a) → m2 = write m1 p l.
Proof.
  intros Hb Ho. apply map_eq. intros a. rewrite lookup_write. case_decide; [|by apply Ho].
  destruct (lookup_lt_is_Some_2 l (Z.to_nat (a - p))) as [x Hx]; [lia|].
  rewrite Hx. apply Hb in Hx. by replace (p + Z.to_nat (a - p)) with a in Hx by lia.
Qed.

Lemma write_app m p l1 l2 : write m p (l1 ++ l2) = write (write m p l1) (p + length l1) l2.
Proof.
  revert m p. induction l1 as [|b l1 IH]; intros m p; cbn [app write length].
  - by rewrite Z.add_0_r.
  - rewrite IH. f_equal. lia.
Qed.

Lemma write_write m p l1 l2 :
  length l1 = length l2 → write (write m p l1) p l2 = write m p l2.
Proof.
  intros Hl. apply map_eq. intros a. rewrite !lookup_write, Hl. by case_decide.
Qed.

Lemma write_self m p l : bytes m p l → write m p l = m.
Proof. intros H. symmetry. by apply mem_write_eq. Qed.

(** [write] keeps the set of mapped addresses when it stays inside it. *)
Lemma mapped_write m p l q n :
  mapped m q n → mapped (write m p l) q n.
Proof.
  intros H a Ha. rewrite lookup_write. case_decide; [|by apply H].
  apply lookup_lt_is_Some_2. lia.
Qed.

Lemma size_write m p l : mapped m p (length l) → size (write m p l) = size m.
Proof.
  intros H. rewrite <- !size_dom. f_equal. apply leibniz_equiv. intros a.
  rewrite !elem_of_dom, lookup_write. case_decide; [|done].
  split; [intros _; by apply H | intros _; apply lookup_lt_is_Some_2; lia].
Qed.

Lemma fuel_write m p l : mapped m p (length l) → fuel (write m p l) = fuel m.
Proof. intros. unfold fuel. by rewrite size_write. Qed.

Lemma store_list_ok m p l :
  mapped m p (length l) → Forall is_byte l → store_list m p l = Ok (write m p l).
Proof.
  revert m p. induction l as [|b l IH]; intros m p Hm Hl; [done|].
  apply Forall_cons in Hl as [Hb Hl]. cbn [store_list write].
  destruct (Hm p) as [v Hv]; [simpl; lia|]. rewrite (storeb_ok _ _ _ _ Hv Hb). simpl.
  apply IH; [|done]. intros a Ha. destruct (decide (a = p)) as [->|].
  - by rewrite lookup_insert_eq.
  - rewrite lookup_insert_ne by done. apply Hm. simpl. lia.
Qed.

Lemma mem_ok_write m p l :
  mem_ok m → mapped m p (length l) → Forall is_byte l → mem_ok (write m p l).
Proof.
  intros Hok Hm Hl.
  assert (∀ a, is_Some (write m p l !! a) → is_Some (m !! a)) as Hd.
  { intros a. rewrite lookup_write. case_decide; [intros _; by apply Hm | done]. }
  split.
  - intros a v Hv. destruct (Hd a) as [v' ?]; [eauto|]. by eapply mem_addr.
  - intros a v. rewrite lookup_write. case_decide; [|by apply mem_byte].
    intros Hv. by eapply Forall_lookup_1 in Hl.
  - intros a Ha. apply mapped_write. by apply mem_word, Hd.
Qed.

(** *** Little-endian words *)

Lemma le_split_length n w : length (le_split n w) = n.
Proof. revert w. induction n; intros; simpl; [done | by rewrite IHn]. Qed.

Lemma le_split_bytes n w : Forall is_byte (le_split n w).
Proof.
  revert w. induction n; intros; simpl; constructor; [|done].
  unfold is_byte. by apply Z.mod_pos_bound.
Qed.

Lemma le_split_word l : Forall is_byte l → le_split (length l) (le_word l) = l.
Proof.
  induction 1 as [|b l Hb Hl IH]; [done|]. cbn [length le_split le_word].
  unfold is_byte in Hb. f_equal.
  - rewrite Z.mul_comm, Z.mod_add, Z.mod_small by lia. done.
  - rewrite Z.mul_comm, Z.div_add, Z.div_small by lia. by rewrite Z.add_0_l.
Qed.

Lemma le_word_app l1 l2 : le_word (l1 ++ l2) = le_word l1 + 256 ^ length l1 * le_word l2.
Proof.
  induction l1 as [|b l1 IH]; cbn [app le_word length]; [rewrite Z.pow_0_r; lia|].
  rewrite IH, Nat2Z.inj_succ, Z.pow_succ_r by lia. lia.
Qed.

Lemma le_word_range l : Forall is_byte l → 0 <= le_word l < 256 ^ length l.
Proof.
  induction 1 as [|b l Hb Hl IH]; [done|]. cbn [le_word length].
  rewrite Nat2Z.inj_succ, Z.pow_succ_r by lia. unfold is_byte in Hb. lia.
Qed.

(** *** C strings *)

Lemma cstr_cons m p b l :
  cstr m p (b :: l) ↔ m !! p = Some b ∧ 0 < b < 256 ∧ cstr m (p + 1) l.
Proof. unfold cstr. cbn [app]. rewrite bytes_cons, Forall_cons. tauto. Qed.

Lemma cstr_nil m p : cstr m p [] ↔ m !! p = Some 0.
Proof.
  unfold cstr. cbn [app]. rewrite bytes_cons. split; [tauto|].
  intros; repeat split; auto using bytes_nil.
Qed.

Lemma cstr_size m p l : cstr m p l → (length l < size m)%nat.
Proof. intros [H%bytes_size _]. rewrite length_app in H. simpl in H. lia. Qed.

Lemma cstr_inj m p l1 l2 : cstr m p l1 → cstr m p l2 → l1 = l2.
Proof.
  revert p l2. induction l1 as [|b l1 IH]; intros p [|b' l2];
    rewrite ?cstr_cons, ?cstr_nil; intros; destruct_and?; simplify_eq; try lia; [done|].
  f_equal. eauto.
Qed.

Lemma cstr_drop m p l i :
  (i <= length l)%nat → cstr m p l → cstr m (p + i) (drop i l).
Proof.
  revert p l. induction i as [|i IH]; intros p l Hi H; [by rewrite Z.add_0_r|].
  destruct l as [|b l]; simpl in Hi; [lia|]. apply cstr_cons in H as (_ & _ & H).
  replace (p + S i) with (p + 1 + i) by lia. apply IH; [lia | done].
Qed.

(** The byte of a string at an index, its NUL included. *)
Definition sget (l : list Z) (i : nat) : Z := default 0 (l !! i).

Lemma cstr_get m p l i : (i <= length l)%nat → cstr m p l → m !! (p + i) = Some (sget l i).
Proof.
  intros Hi [H _]. apply H. unfold sget. destruct (decide (i < length l)%nat) as [?|?].
  - rewrite lookup_app_l by done. by destruct (lookup_lt_is_Some_2 l i) as [x ->].
  - rewrite (lookup_ge_None_2 l) by lia. rewrite lookup_app_r by lia.
    by replace (i - length l)%nat with 0%nat by lia.
Qed.

Lemma cstr_bytes m p l : cstr m p l → bytes m p l.
Proof. intros [H _]. by apply bytes_app in H as [? _]. Qed.

Lemma cstr_nul m p l : cstr m p l → m !! (p + length l) = Some 0.
Proof. intros [H _]. apply bytes_app in H as [_ H]. by apply bytes_cons in H as [? _]. Qed.

Lemma cstr_is_byte m p l : cstr m p l → Forall is_byte l.
Proof. intros [_ H]. eapply Forall_impl; [done|]. unfold is_byte. simpl. lia. Qed.

#[export] Hint Resolve bytes_nil cstr_bytes cstr_nul cstr_is_byte mapped_write bytes_write : wp.

(** ** Concrete memories *)

(** Facts on a concrete memory, by evaluation. *)
Lemma load_list_bytes m p l : load_list m p (length l) = Ok l → bytes m p l.
Proof.
  revert p. induction l as [|b l IH]; intros p H; [apply bytes_nil|].
  cbn [length load_list] in H. unfold loadb in H. destruct (m !! p) as [v|] eqn:E; [|done].
  simpl in H. destruct (load_list m (p + 1) (length l)) as [l'|] eqn:E2; [|done].
  simpl in H. simplify_eq. apply bytes_cons. auto.
Qed.

Lemma load_list_length m p n l : load_list m p n = Ok l → length l = n.
Proof.
  revert p l. induction n as [|n IH]; intros p l H; [by injection H as <-|].
  cbn [load_list] in H. destruct (loadb m p); [|done]. simpl in H.
  destruct (load_list m (p + 1) n) eqn:E; [|done]. simpl in H. simplify_eq. simpl. eauto.
Qed.

Lemma mapped_eval m p (n : nat) :
  (if load_list m p n is Ok _ then true else false) = true → mapped m p n.
Proof.
  destruct (load_list m p n) as [l|] eqn:E; [|done]. intros _.
  pose proof (load_list_length _ _ _ _ E) as Hl. rewrite <- Hl in E |- *.
  by apply bytes_mapped, load_list_bytes.
Qed.

Lemma cstr_eval m p l :
  load_list m p (length (l ++ [0])) = Ok (l ++ [0]) →
  forallb (λ b, (0 <? b) && (b <? 256)) l = true → cstr m p l.
Proof.
  intros H Hl. split; [by apply load_list_bytes|]. rewrite forallb_forall in Hl.
  apply Forall_forall. intros x Hx%list_elem_of_In%Hl. lia.
Qed.

(** One block of whole words. *)
Lemma mem_ok_block p l :
  0 < p → p mod 8 = 0 → p + length l <= 2 ^ 64 → Z.of_nat (length l) mod 8 = 0 →
  forallb (λ b, (0 <=? b) && (b <? 256)) l = true → mem_ok (write ∅ p l).
Proof.
  intros Hp Hal Hend Hlen Hl. rewrite forallb_forall in Hl.
  assert (∀ a v, write ∅ p l !! a = Some v → p <= a < p + length l ∧ is_byte v) as Hin.
  { intros a v. rewrite lookup_write. case_decide; [|done]. intros Hv. split; [done|].
    apply list_elem_of_lookup_2, list_elem_of_In, Hl in Hv. unfold is_byte. lia. }
  split.
  - intros a v [? _]%Hin. lia.
  - intros a v [_ ?]%Hin. done.
  - intros a [v [Ha _]%Hin] b Hb. rewrite lookup_write, decide_True by zdiv.
    apply lookup_lt_is_Some_2. zdiv.
Qed.

(** ** Arrays as lists *)

Lemma put_at_take buf i p :
  (i + length p <= length buf)%nat → take (i + length p) (put_at buf i p) = take i buf ++ p.
Proof.
  intros H. unfold put_at. rewrite app_assoc, take_app_le.
  - apply firstn_all2. rewrite length_app, length_take. lia.
  - rewrite length_app, length_take. lia.
Qed.

Lemma put_at_length buf i p : (i + length p <= length buf)%nat → length (put_at buf i p) = length buf.
Proof. intros H. unfold put_at. rewrite !length_app, length_take, length_drop. lia. Qed.
