(* ===== verification/Lit.v ===== *)
(** * String literals

    The bytes of a C string literal, without the terminator. *)
From Stdlib Require Strings.String Strings.Ascii.
From S2P Require Import Prelude.
Export String.StringSyntax.

Definition lit (s : String.string) : list Z := (λ a, Z.of_nat (Ascii.nat_of_ascii a)) <$> String.list_ascii_of_string s.
Arguments lit s%_string_scope.

Lemma lit_byte s : Forall is_byte (lit s).
Proof.
  unfold lit. apply Forall_fmap, Forall_forall. intros a _. simpl. unfold is_byte.
  pose proof (Ascii.nat_ascii_bounded a). lia.
Qed.
