(* ===== verification/Wctype.v ===== *)
(** * Wide character classes (src/src/wctype.c)

    wint_t is unsigned: a subtraction wraps modulo 2^32. The tables are those
    of Unicode.v; the binary search reads them by index. *)
From S2P Require Import Prelude Lit Unicode.

(** ** Operations *)

(** The loop of [in] and [map] on an interval of indices: the index of the
    range that holds [c]. The interval shrinks in every turn, so the size of
    the table is enough fuel. *)
Fixpoint search {A} (start end_ : A → Z) (tab : list A) (fuel : nat) (lo hi : nat) (c : Z) : option A :=
  match fuel with
  | O => None
  | S fuel =>
      if (lo <? hi)%nat then
        let mid := Nat.div2 (lo + hi) in
        match tab !! mid with
        | None => None
        | Some r =>
            if c <? start r then search start end_ tab fuel lo mid c
            else if end_ r <? c then search start end_ tab fuel (S mid) hi c
            else Some r
        end
      else None
  end.

Definition in_ (tab : list (Z * Z)) (c : Z) : bool :=
  match search fst snd tab (S (length tab)) 0 (length tab) c with Some _ => true | None => false end.

Definition iswalpha (c : Z) : bool := if c <? 0x80 then u32 (Z.lor c 32 - 97) <? 26 else in_ u_alpha c.
Definition iswdigit (c : Z) : bool := u32 (c - 48) <? 10.
Definition iswalnum (c : Z) : bool := iswdigit c || iswalpha c.
Definition iswupper (c : Z) : bool := if c <? 0x80 then u32 (c - 65) <? 26 else in_ u_upper c.
Definition iswlower (c : Z) : bool := if c <? 0x80 then u32 (c - 97) <? 26 else in_ u_lower c.
Definition iswspace (c : Z) : bool := in_ u_space c.
Definition iswblank (c : Z) : bool := in_ u_blank c.
Definition iswcntrl (c : Z) : bool := in_ u_cntrl c.
Definition iswpunct (c : Z) : bool := if c <? 0x80 then (u32 (c - 0x21) <? 0x5e) && negb (iswalnum c) else in_ u_punct c.
Definition iswgraph (c : Z) : bool := if c <? 0x80 then u32 (c - 0x21) <? 0x5e else in_ u_graph c.
Definition iswprint (c : Z) : bool := if c <? 0x80 then u32 (c - 0x20) <? 0x5f else in_ u_print c.
Definition iswxdigit (c : Z) : bool := (u32 (c - 48) <? 10) || (u32 (Z.lor c 32 - 97) <? 6).

Definition map_ (c : Z) (tab : list crange) : Z :=
  match search cr_start cr_end tab (S (length tab)) 0 (length tab) c with
  | Some r => if u32 (c - cr_start r) mod cr_step r =? 0 then u32 (s32 c + cr_delta r) else c
  | None => c
  end.

Definition towlower (c : Z) : Z :=
  if c <? 0x80 then if u32 (c - 65) <? 26 then Z.lor c 32 else c else map_ c u_tolower.
Definition towupper (c : Z) : Z :=
  if c <? 0x80 then if u32 (c - 97) <? 26 then Z.land c 0x5f else c else map_ c u_toupper.

Definition classes : list (list Z) :=
  [lit "alnum"; lit "alpha"; lit "blank"; lit "cntrl"; lit "digit"; lit "graph"; lit "lower"; lit "print"; lit "punct"; lit "space"; lit "upper"; lit "xdigit"].
Definition class_fn : list (Z → bool) :=
  [iswalnum; iswalpha; iswblank; iswcntrl; iswdigit; iswgraph; iswlower; iswprint; iswpunct; iswspace; iswupper; iswxdigit].

Fixpoint find_class (name : list Z) (l : list (list Z)) (i : Z) : Z :=
  match l with
  | [] => 0
  | n :: l => if bool_decide (name = n) then i + 1 else find_class name l (i + 1)
  end.
Definition wctype (name : list Z) : Z := find_class name classes 0.

Definition iswctype (c t : Z) : bool :=
  if (t =? 0) || (length classes <? t) then false else nth (Z.to_nat (t - 1)) class_fn (λ _, false) c.

Definition wcwidth (wc : Z) : Z :=
  let c := u32 wc in
  if u32 (c - 0x20) <? 0x5f then 1
  else if (0x110000 <=? c) || in_ u_nonprint c then (if c =? 0 then 0 else -1)
  else if in_ u_width0 c then 0
  else if in_ u_width2 c then 2 else 1.

Definition INT_MAX : Z := 2147483647.

Fixpoint wcs_loop (s : list Z) (n : nat) (w : Z) : Z :=
  match n, s with
  | S n, c :: s =>
      let k := wcwidth c in
      if k <? 0 then -1 else if INT_MAX - k <? w then -1 else wcs_loop s n (w + k)
  | _, _ => w
  end.
Definition wcswidth (s : list Z) (n : nat) : Z := wcs_loop s n 0.

Definition wctrans (name : list Z) : Z :=
  if bool_decide (name = lit "tolower") then 1 else if bool_decide (name = lit "toupper") then 2 else 0.
Definition towctrans (c t : Z) : Z := if t =? 1 then towlower c else if t =? 2 then towupper c else c.

(** ** The search *)

(** Ranges in order, none overlapping the next. *)
Fixpoint ordered {A} (start end_ : A → Z) (tab : list A) : bool :=
  match tab with
  | [] => true
  | r :: tab => (start r <=? end_ r) && match tab with [] => true | r' :: _ => end_ r <? start r' end && ordered start end_ tab
  end.

Section Search.
Context {A : Type} (start end_ : A → Z) (tab : list A) (Hord : ordered start end_ tab = true).

Lemma ordered_lt i j r r' : tab !! i = Some r → tab !! j = Some r' → (i < j)%nat → end_ r < start r'.
Proof using Hord.
  revert i j r r'. clear - Hord. induction tab as [|a l IH]; intros i j r r' Hi Hj Hij; [done|]. cbn in Hord. rewrite !andb_true_iff in Hord. destruct Hord as [[H1 H2] H3].
  destruct j as [|j]; [lia|]. cbn in Hj. destruct i as [|i].
  - injection Hi as <-. destruct l as [|b l]; [done|]. apply Z.ltb_lt in H2. destruct j as [|j]; [by injection Hj as <-|].
    assert (end_ b < start r') by (apply (IH H3 0%nat (S j) b r'); [done | done | lia]). cbn in H3. rewrite !andb_true_iff, Z.leb_le in H3. lia.
  - cbn in Hi. apply (IH H3 i j r r'); done || lia.
Qed.

Lemma ordered_le i r : tab !! i = Some r → start r <= end_ r.
Proof using Hord.
  revert i. clear - Hord. induction tab as [|a l IH]; intros i Hi; [done|]. cbn in Hord. rewrite !andb_true_iff, Z.leb_le in Hord. destruct Hord as [[H1 H2] H3].
  destruct i; [by injection Hi as <- | by apply (IH H3 i)].
Qed.

(** The search finds the range that holds [c], when there is one. *)
Lemma search_ok fuel lo hi c :
  (hi <= length tab)%nat → (hi - lo < fuel)%nat →
  (∀ i r, tab !! i = Some r → start r <= c <= end_ r → (lo <= i < hi)%nat) →
  match search start end_ tab fuel lo hi c with
  | Some r => r ∈ tab ∧ start r <= c <= end_ r
  | None => ∀ r, r ∈ tab → ¬ (start r <= c <= end_ r)
  end.
Proof using Hord.
  revert lo hi. induction fuel as [|fuel IH]; intros lo hi Hh Hf Hin; [lia|]. cbn [search]. destruct (Nat.ltb_spec lo hi) as [Hlt|Hge].
  - set (mid := Nat.div2 (lo + hi)). assert (lo <= mid < hi)%nat as Hm by (unfold mid; rewrite Nat.div2_div; split; [apply Nat.div_le_lower_bound; lia | apply Nat.Div0.div_lt_upper_bound; lia]).
    destruct (lookup_lt_is_Some_2 tab mid) as [r Hr]; [lia|]. rewrite Hr. destruct (Z.ltb_spec c (start r)) as [Hc|Hc].
    + apply IH; [lia | lia|]. intros i r' Hi Hr'. specialize (Hin i r' Hi Hr'). destruct (decide (i < mid)%nat); [lia|].
      destruct (decide (i = mid)) as [->|]; [simplify_eq; lia|]. pose proof (ordered_lt mid i r r' Hr Hi ltac:(lia)). pose proof (ordered_le mid r Hr). lia.
    + destruct (Z.ltb_spec (end_ r) c) as [He|He].
      * apply IH; [lia | lia|]. intros i r' Hi Hr'. specialize (Hin i r' Hi Hr'). destruct (decide (mid < i)%nat); [lia|].
        destruct (decide (i = mid)) as [->|]; [simplify_eq; lia|]. pose proof (ordered_lt i mid r' r Hi Hr ltac:(lia)). pose proof (ordered_le mid r Hr). lia.
      * split; [by eapply list_elem_of_lookup_2 | lia].
  - intros r [i Hi]%list_elem_of_lookup Hr. specialize (Hin i r Hi Hr). lia.
Qed.

Lemma search_all c :
  match search start end_ tab (S (length tab)) 0 (length tab) c with
  | Some r => r ∈ tab ∧ start r <= c <= end_ r
  | None => ∀ r, r ∈ tab → ¬ (start r <= c <= end_ r)
  end.
Proof using Hord.
  apply search_ok; [lia | lia|]. intros i r Hi _. apply lookup_lt_Some in Hi. lia.
Qed.
End Search.

(** Membership in a table, and the search for it. *)
Definition mem_tab (tab : list (Z * Z)) (c : Z) : Prop := ∃ r, r ∈ tab ∧ r.1 <= c <= r.2.

Lemma in_iff tab c : ordered fst snd tab = true → in_ tab c = true ↔ mem_tab tab c.
Proof.
  intros Ho. unfold in_. pose proof (search_all fst snd tab Ho c) as H. destruct (search _ _ _ _ _ _ _) as [r|].
  - split; [|done]. intros _. by exists r.
  - split; [done|]. intros (r & Hr & Hc). by destruct (H r Hr).
Qed.

Definition tables : list (list (Z * Z)) :=
  [u_alpha; u_upper; u_lower; u_punct; u_cntrl; u_graph; u_print; u_space; u_blank; u_width0; u_width2; u_nonprint].

Lemma tables_ordered : forallb (ordered fst snd) tables = true.
Proof. vm_compute. done. Qed.

Lemma wtable_ok tab c : tab ∈ tables → in_ tab c = true ↔ mem_tab tab c.
Proof.
  intros Ht%list_elem_of_In. apply in_iff. pose proof tables_ordered as H. rewrite forallb_forall in H. by apply H.
Qed.

(** ** Relations between the tables *)

Definition sub (a b : list (Z * Z)) : bool :=
  forallb (λ x : Z * Z, existsb (λ y : Z * Z, (y.1 <=? x.1) && (x.2 <=? y.2)) b) a.
Definition disj (a b : list (Z * Z)) : bool :=
  forallb (λ x : Z * Z, forallb (λ y : Z * Z, (x.2 <? y.1) || (y.2 <? x.1)) b) a.

(** The interval is covered by ranges of the list, one after the other. *)
Fixpoint covered (l : list (Z * Z)) (fuel : nat) (lo hi : Z) : bool :=
  if hi <? lo then true else
  match fuel with
  | O => false
  | S fuel => match find (λ y : Z * Z, (y.1 <=? lo) && (lo <=? y.2)) l with Some y => covered l fuel (y.2 + 1) hi | None => false end
  end.
Definition cover (a b : list (Z * Z)) : bool := forallb (λ x : Z * Z, covered b (length b) x.1 x.2) a.

Lemma sub_ok a b c : sub a b = true → mem_tab a c → mem_tab b c.
Proof.
  unfold sub. rewrite forallb_forall. intros H (x & Hx & Hc). apply list_elem_of_In in Hx. specialize (H x Hx).
  apply existsb_exists in H as (y & Hy & Hxy). apply andb_true_iff in Hxy as [H1 H2]. zbool. exists y. split; [by apply list_elem_of_In | lia].
Qed.

Lemma disj_ok a b c : disj a b = true → mem_tab a c → mem_tab b c → False.
Proof.
  unfold disj. rewrite forallb_forall. intros H (x & Hx & Hc) (y & Hy & Hd). apply list_elem_of_In in Hx, Hy. specialize (H x Hx).
  rewrite forallb_forall in H. specialize (H y Hy). apply orb_true_iff in H as [H|H]; zbool; lia.
Qed.

Lemma covered_ok l fuel lo hi c : covered l fuel lo hi = true → lo <= c <= hi → mem_tab l c.
Proof.
  revert lo. induction fuel as [|fuel IH]; intros lo H Hc; cbn [covered] in H; (destruct (Z.ltb_spec hi lo); [lia|]); [done|].
  destruct (find _ l) as [y|] eqn:E; [|done]. apply List.find_some in E as [Hy Hb]. apply andb_true_iff in Hb as [H1 H2]. zbool.
  destruct (decide (c <= y.2)); [exists y; split; [by apply list_elem_of_In | lia]|]. apply (IH (y.2 + 1)); [done | lia].
Qed.

Lemma cover_ok a b c : cover a b = true → mem_tab a c → mem_tab b c.
Proof.
  unfold cover. rewrite forallb_forall. intros H (x & Hx & Hc). apply list_elem_of_In in Hx. by apply (covered_ok b (length b) x.1 x.2 c (H x Hx)).
Qed.

Lemma mem_app a b c : mem_tab (a ++ b) c ↔ mem_tab a c ∨ mem_tab b c.
Proof. unfold mem_tab. setoid_rewrite elem_of_app. naive_solver. Qed.

Definition all_code_points : list (Z * Z) := [(0, 0x10ffff)].
Lemma relations_ok :
  sub u_upper u_alpha = true ∧
  sub u_lower u_alpha = true ∧
  sub u_alpha u_graph = true ∧
  sub u_graph u_print = true ∧
  disj u_graph u_space = true ∧
  cover u_print (u_graph ++ u_space) = true ∧
  sub u_punct u_graph = true ∧
  disj u_punct u_alpha = true ∧
  cover u_graph (u_punct ++ u_alpha ++ [(48, 57)]) = true ∧
  disj u_cntrl u_print = true ∧
  sub u_blank u_space = true ∧
  disj u_print u_nonprint = true ∧
  sub u_print all_code_points = true ∧
  cover [(1, 0x10ffff)] (u_print ++ u_nonprint) = true.
Proof. split_and!; vm_compute; reflexivity. Qed.

(** The case mappings on one range of their tables. *)
Definition step_ok (f : Z → Z) (from to : Z → bool) (r : crange) (c : Z) : bool :=
  if (c - cr_start r) mod cr_step r =? 0 then
    let d := c + cr_delta r in from c && to d && (f d =? d) && (0 <=? d) && (d <? 2 ^ 31)
  else true.
Definition range_ok (f : Z → Z) (from to : Z → bool) (r : crange) : bool :=
  (0 <=? cr_start r) && (cr_end r <? 2 ^ 31) && (0 <? cr_step r) &&
  forallb (step_ok f from to r) (filter (λ c, 0x80 <= c) (seqZ (cr_start r) (cr_end r - cr_start r + 1))).
Lemma lower_ranges : forallb (range_ok towlower iswupper iswlower) u_tolower = true.
Proof. vm_compute. done. Qed.
Lemma upper_ranges : forallb (range_ok towupper iswlower iswupper) u_toupper = true.
Proof. vm_compute. done. Qed.
Lemma maps_ordered : ordered cr_start cr_end u_tolower = true ∧ ordered cr_start cr_end u_toupper = true.
Proof. split; vm_compute; reflexivity. Qed.

Lemma map_case tab (f : Z → Z) from to c :
  ordered cr_start cr_end tab = true → forallb (range_ok f from to) tab = true → 0x80 <= c < 2 ^ 32 →
  let d := map_ c tab in d = c ∨ from c = true ∧ to d = true ∧ f d = d ∧ 0 <= d < 2 ^ 31.
Proof.
  intros Ho Hr Hc. cbv zeta. unfold map_. pose proof (search_all cr_start cr_end tab Ho c) as H. destruct (search _ _ _ _ _ _ _) as [r|]; [|by left].
  destruct H as [Hin Hb]. rewrite forallb_forall in Hr. apply list_elem_of_In in Hin. specialize (Hr r Hin). unfold range_ok in Hr.
  rewrite !andb_true_iff, Z.leb_le, !Z.ltb_lt, forallb_forall in Hr. destruct Hr as [[[H1 H2] H3] H4].
  rewrite (uwrap_small 32) by lia. specialize (H4 c). unfold step_ok in H4. destruct (Z.eqb_spec ((c - cr_start r) mod cr_step r) 0); [|by left].
  cbv zeta in H4. rewrite !andb_true_iff, Z.eqb_eq, Z.leb_le, Z.ltb_lt in H4.
  destruct H4 as [[[[F1 F2] F3] F4] F5]; [apply list_elem_of_In, list_elem_of_filter; split; [lia|]; apply elem_of_seqZ; lia|].
  assert (s32 c = c) as -> by (unfold swrap; rewrite Z.mod_small; lia). rewrite uwrap_small by lia. right. by split_and!.
Qed.

(** The first 128 code points, by cases. *)
Definition ascii_check (c : Z) : bool :=
  implb (iswupper c || iswlower c) (iswalpha c) && implb (iswalnum c) (iswgraph c) && eqb (iswgraph c) (iswprint c && negb (iswspace c)) &&
  eqb (iswpunct c) (iswgraph c && negb (iswalnum c)) && implb (iswcntrl c) (negb (iswprint c)) && implb (iswblank c) (iswspace c) &&
  implb (iswxdigit c) (iswalnum c) && ((towlower c =? c) || iswupper c && iswlower (towlower c)) && ((towupper c =? c) || iswlower c && iswupper (towupper c)) &&
  (towlower (towlower c) =? towlower c) && (towupper (towupper c) =? towupper c) && eqb (wcwidth c =? -1) (negb (c =? 0) && negb (iswprint c)).
Lemma ascii_all : forallb ascii_check (seqZ 0 128) = true.
Proof. vm_compute. done. Qed.

(** From here on the tables are names. *)
#[local] Opaque u_alpha u_upper u_lower u_punct u_cntrl u_graph u_print u_space u_blank u_width0 u_width2 u_nonprint u_tolower u_toupper.

Lemma ascii_ok c : 0 <= c < 0x80 → ascii_check c = true.
Proof. intros Hc. pose proof ascii_all as H. rewrite forallb_forall in H. apply H, list_elem_of_In, elem_of_seqZ. lia. Qed.

Lemma land_32 c : Z.land c 32 = 0 ∨ Z.land c 32 = 32.
Proof.
  assert (Z.land c 32 = if Z.testbit c 5 then 32 else 0) as ->; [|destruct (Z.testbit c 5); auto]. apply Z.bits_inj'. intros n Hn.
  rewrite Z.land_spec. change 32 with (2 ^ 5). rewrite Z.pow2_bits_eqb by lia. destruct (Z.eqb_spec 5 n) as [<-|Hne].
  - destruct (Z.testbit c 5); [by rewrite Z.pow2_bits_eqb by lia | by rewrite Z.bits_0].
  - rewrite andb_false_r. destruct (Z.testbit c 5); [|by rewrite Z.bits_0]. rewrite Z.pow2_bits_eqb by lia. symmetry. by apply Z.eqb_neq.
Qed.

(** Past ASCII the classes are the tables. *)
Lemma high_classes c :
  0x80 <= c < 2 ^ 32 →
  (iswalpha c = true ↔ mem_tab u_alpha c) ∧ (iswupper c = true ↔ mem_tab u_upper c) ∧ (iswlower c = true ↔ mem_tab u_lower c) ∧
  (iswpunct c = true ↔ mem_tab u_punct c) ∧ (iswgraph c = true ↔ mem_tab u_graph c) ∧ (iswprint c = true ↔ mem_tab u_print c) ∧
  iswdigit c = false ∧ iswxdigit c = false.
Proof.
  intros Hc. unfold iswalpha, iswupper, iswlower, iswpunct, iswgraph, iswprint, iswdigit, iswxdigit. rewrite !(proj2 (Z.ltb_ge c 0x80)) by lia.
  assert (∀ t, t ∈ tables → in_ t c = true ↔ mem_tab t c) as H by (intros; by apply wtable_ok).
  assert ((u32 (c - 48) <? 10) = false) as ->. { rewrite uwrap_small by lia. apply Z.ltb_ge. lia. }
  assert ((u32 (Z.lor c 32 - 97) <? 6) = false) as ->.
  { pose proof (Z.add_lor_land c 32). pose proof (land_32 c). rewrite uwrap_small by lia. apply Z.ltb_ge. lia. }
  split_and!; [| | | | | | reflexivity | reflexivity].
  - apply H, (list_elem_of_lookup_2 tables 0). reflexivity.
  - apply H, (list_elem_of_lookup_2 tables 1). reflexivity.
  - apply H, (list_elem_of_lookup_2 tables 2). reflexivity.
  - apply H, (list_elem_of_lookup_2 tables 3). reflexivity.
  - apply H, (list_elem_of_lookup_2 tables 5). reflexivity.
  - apply H, (list_elem_of_lookup_2 tables 6). reflexivity.
Qed.

(** What the classes have to do with each other. *)
Definition consistent (c : Z) : Prop :=
  (iswupper c || iswlower c = true → iswalpha c = true) ∧ (iswalnum c = true → iswgraph c = true) ∧
  iswgraph c = iswprint c && negb (iswspace c) ∧ iswpunct c = iswgraph c && negb (iswalnum c) ∧
  (iswcntrl c = true → iswprint c = false) ∧ (iswblank c = true → iswspace c = true) ∧ (iswxdigit c = true → iswalnum c = true) ∧
  (towlower c ≠ c → iswupper c = true ∧ iswlower (towlower c) = true) ∧
  (towupper c ≠ c → iswlower c = true ∧ iswupper (towupper c) = true) ∧
  towlower (towlower c) = towlower c ∧ towupper (towupper c) = towupper c ∧
  (wcwidth c = -1 ↔ c ≠ 0 ∧ iswprint c = false).

Lemma consistent_low c : 0 <= c < 0x80 → consistent c.
Proof.
  intros Hc. pose proof (ascii_ok c Hc) as H. unfold ascii_check in H. unfold consistent.
  generalize dependent (iswupper (towupper c)). generalize dependent (iswlower (towlower c)). generalize dependent (towlower (towlower c)). generalize dependent (towupper (towupper c)).
  intros u2 l2 tl tu H. rewrite !andb_true_iff in H. destruct H as [[[[[[[[[[[H1 H2] H3] H4] H5] H6] H7] H8] H9] H10] H11] H12].
  apply eqb_prop in H3, H4, H12. rewrite !Z.eqb_eq in H10, H11. split_and!; try done.
  - by destruct (iswupper c || iswlower c), (iswalpha c).
  - by destruct (iswalnum c), (iswgraph c).
  - by destruct (iswcntrl c), (iswprint c).
  - by destruct (iswblank c), (iswspace c).
  - by destruct (iswxdigit c), (iswalnum c).
  - intros Hn. apply orb_true_iff in H8 as [H8|H8]; [by apply Z.eqb_eq in H8 | by apply andb_true_iff in H8].
  - intros Hn. apply orb_true_iff in H9 as [H9|H9]; [by apply Z.eqb_eq in H9 | by apply andb_true_iff in H9].
  - rewrite <- Z.eqb_eq, H12, andb_true_iff, !negb_true_iff, Z.eqb_neq. done.
Qed.

Lemma towlower_high c : 0x80 <= c → towlower c = map_ c u_tolower.
Proof. intros H. unfold towlower. rewrite (proj2 (Z.ltb_ge c 0x80) H). reflexivity. Qed.
Lemma towupper_high c : 0x80 <= c → towupper c = map_ c u_toupper.
Proof. intros H. unfold towupper. rewrite (proj2 (Z.ltb_ge c 0x80) H). reflexivity. Qed.

Lemma consistent_high c : 0x80 <= c < 2 ^ 32 → consistent c.
Proof.
  intros Hc. destruct (high_classes c Hc) as (Ha & Hu & Hl & Hp & Hg & Hpr & Hd & Hx).
  assert (iswspace c = true ↔ mem_tab u_space c) as Hs by (apply wtable_ok, (list_elem_of_lookup_2 tables 7); reflexivity).
  assert (iswblank c = true ↔ mem_tab u_blank c) as Hb by (apply wtable_ok, (list_elem_of_lookup_2 tables 8); reflexivity).
  assert (iswcntrl c = true ↔ mem_tab u_cntrl c) as Hcn by (apply wtable_ok, (list_elem_of_lookup_2 tables 4); reflexivity).
  assert (in_ u_nonprint c = true ↔ mem_tab u_nonprint c) as Hnp by (apply wtable_ok, (list_elem_of_lookup_2 tables 11); reflexivity).
  destruct relations_ok as (R1 & R2 & R3 & R4 & R5 & R6 & R7 & R8 & R9 & R10 & R11 & R12 & R13 & R14).
  pose proof (sub_ok _ _ c R1) as S1. pose proof (sub_ok _ _ c R2) as S2. pose proof (sub_ok _ _ c R3) as S3. pose proof (sub_ok _ _ c R4) as S4.
  pose proof (disj_ok _ _ c R5) as S5. pose proof (sub_ok _ _ c R7) as S7. pose proof (disj_ok _ _ c R8) as S8. pose proof (disj_ok _ _ c R10) as S10.
  pose proof (sub_ok _ _ c R11) as S11. pose proof (disj_ok _ _ c R12) as S12. pose proof (sub_ok _ _ c R13) as S13.
  assert (mem_tab u_print c → mem_tab u_graph c ∨ mem_tab u_space c) as C6 by (intros H; by apply mem_app, (cover_ok _ _ c R6)).
  assert (mem_tab u_graph c → mem_tab u_punct c ∨ mem_tab u_alpha c) as C9.
  { intros H. apply (cover_ok _ _ c R9), mem_app in H as [H|H]; [by left|]. apply mem_app in H as [H|(y & Hy & Hyc)]; [by right|].
    apply list_elem_of_singleton in Hy as ->. cbn in Hyc. lia. }
  assert (c < 0x110000 → mem_tab u_print c ∨ mem_tab u_nonprint c) as C14.
  { intros H. apply mem_app, (cover_ok _ _ c R14). exists (1, 0x10ffff). split; [by left | cbn; lia]. }
  assert (mem_tab u_print c → c < 0x110000) as C13.
  { intros (y & Hy & Hyc)%S13. apply list_elem_of_singleton in Hy as ->. cbn in Hyc. lia. }
  clear R1 R2 R3 R4 R5 R6 R7 R8 R9 R10 R11 R12 R13 R14 S13.
  pose proof (map_case u_tolower towlower iswupper iswlower c (proj1 maps_ordered) lower_ranges Hc) as Ml.
  pose proof (map_case u_toupper towupper iswlower iswupper c (proj2 maps_ordered) upper_ranges Hc) as Mu.
  cbv zeta in Ml, Mu. rewrite <- (towlower_high c) in Ml by lia. rewrite <- (towupper_high c) in Mu by lia.
  unfold consistent, iswalnum. rewrite Hd, Hx. cbn [orb].
  generalize dependent (mem_tab u_alpha c). generalize dependent (mem_tab u_upper c). generalize dependent (mem_tab u_lower c).
  generalize dependent (mem_tab u_punct c). generalize dependent (mem_tab u_graph c). generalize dependent (mem_tab u_print c).
  generalize dependent (mem_tab u_space c). generalize dependent (mem_tab u_blank c). generalize dependent (mem_tab u_cntrl c).
  generalize dependent (mem_tab u_nonprint c). intros. split_and!.
  - rewrite orb_true_iff, Hu, Hl, Ha. intros [H|H]; auto.
  - rewrite Ha, Hg. exact S3.
  - apply eq_true_iff_eq. rewrite andb_true_iff, negb_true_iff, <- not_true_iff_false, Hg, Hpr, Hs. clear -S4 S5 C6. tauto.
  - apply eq_true_iff_eq. rewrite andb_true_iff, negb_true_iff, <- not_true_iff_false, Hp, Hg, Ha. clear -S7 S8 C9. tauto.
  - rewrite Hcn, <- not_true_iff_false, Hpr. exact S10.
  - rewrite Hb, Hs. exact S11.
  - discriminate.
  - intros Hn. destruct Ml as [?|(? & ? & _)]; [contradiction | by split].
  - intros Hn. destruct Mu as [?|(? & ? & _)]; [contradiction | by split].
  - destruct Ml as [E|(_ & _ & E & _)]; [by rewrite !E | assumption].
  - destruct Mu as [E|(_ & _ & E & _)]; [by rewrite !E | assumption].
  - unfold wcwidth. rewrite (uwrap_small 32 c) by lia. rewrite (uwrap_small 32 (c - 0x20)) by lia. rewrite (proj2 (Z.ltb_ge (c - 0x20) 0x5f)) by lia.
    rewrite <- not_true_iff_false, Hpr. rewrite (proj2 (Z.eqb_neq c 0)) by lia.
    destruct ((0x110000 <=? c) || in_ u_nonprint c) eqn:E.
    + split; [|done]. intros _. split; [lia|]. apply orb_true_iff in E as [E|E].
      * apply Z.leb_le in E. intros H. apply C13 in H. lia.
      * rewrite Hnp in E. intros H. by apply S12.
    + apply orb_false_iff in E as [E1 E2]. apply Z.leb_gt in E1. rewrite <- not_true_iff_false, Hnp in E2.
      split; [destruct (in_ u_width0 c), (in_ u_width2 c); discriminate|]. intros [_ H]. exfalso.
      by destruct (C14 E1).
Qed.

(** ** Properties *)

(** C20: the wide character classes are consistent, for every value of
    wint_t. The binary search is membership in the table, for every table.
    Letters in a case are letters, letters and digits are graphic, the
    graphic characters are the printing ones that are not white space, and
    punctuation is what is graphic and neither letter nor digit; control
    characters do not print, blanks are white space. The case mappings change
    only letters of the other case, give letters of the case asked for, and
    are idempotent. wcwidth is negative exactly for the characters that do
    not print (the null character has width 0). *)
Theorem wctype_spec c :
  0 <= c < 2 ^ 32 →
  (∀ t, t ∈ tables → in_ t c = true ↔ mem_tab t c) ∧ consistent c.
Proof.
  intros Hc. split; [intros; by apply wtable_ok|]. destruct (Z.ltb_spec c 0x80); [apply consistent_low | apply consistent_high]; lia.
Qed.

(** At the letter sharp s, which has no upper form, and at a title-case letter. *)
Lemma wctype_spec_witness :
  consistent 0xdf ∧ iswlower 0xdf = true ∧ towupper 0xdf = 0xdf ∧ consistent 0x1c5 ∧ towlower 0x1c5 = 0x1c6.
Proof.
  split; [apply (wctype_spec 0xdf); lia|]. split; [vm_compute; reflexivity|]. split; [vm_compute; reflexivity|].
  split; [apply (wctype_spec 0x1c5); lia | vm_compute; reflexivity].
Defined.
