(* ===== verification/Ctype.v ===== *)
(** * Character classification (src/src/ctype.c)

    The functions take an [int]; [(unsigned)c] is the conversion to 32 bits,
    and a comparison after a subtraction is done modulo 2^32. *)
From S2P Require Import Prelude.

Definition isalpha (c : Z) : bool := u32 (Z.lor (u32 c) 32 - 97) <? 26.
Definition isdigit (c : Z) : bool := u32 (u32 c - 48) <? 10.
Definition isalnum (c : Z) : bool := isalpha c || isdigit c.
Definition isblank (c : Z) : bool := (c =? 32) || (c =? 9).
Definition iscntrl (c : Z) : bool := (u32 c <? 32) || (c =? 127).
Definition isgraph (c : Z) : bool := u32 (u32 c - 33) <? 94.
Definition islower (c : Z) : bool := u32 (u32 c - 97) <? 26.
Definition isprint (c : Z) : bool := u32 (u32 c - 32) <? 95.
Definition ispunct (c : Z) : bool := isgraph c && negb (isalnum c).
Definition isspace (c : Z) : bool := (c =? 32) || (u32 (u32 c - 9) <? 5).
Definition isupper (c : Z) : bool := u32 (u32 c - 65) <? 26.
Definition isxdigit (c : Z) : bool := isdigit c || (u32 (Z.lor (u32 c) 32 - 97) <? 6).
Definition isascii (c : Z) : bool := Z.land c (Z.lnot 127) =? 0.
Definition toascii (c : Z) : Z := Z.land c 127.
Definition tolower (c : Z) : Z := if isupper c then Z.lor c 32 else c.
Definition toupper (c : Z) : Z := if islower c then Z.land c 95 else c.

(** A test [(unsigned)c - lo < n] is a range test, for every [int]. *)
Lemma urange_spec c lo n :
  - 2 ^ 31 <= c < 2 ^ 31 → 0 <= lo → 0 <= n → lo + n <= 2 ^ 31 →
  (u32 (u32 c - lo) <? n) = (lo <=? c) && (c <? lo + n).
Proof.
  intros Hc Hlo Hn Hb. unfold uwrap. rewrite Zminus_mod_idemp_l.
  change (2 ^ 32) with 4294967296 in *. change (2 ^ 31) with 2147483648 in *.
  destruct (Z.leb_spec lo c); simpl.
  - rewrite Z.mod_small by lia. apply eq_true_iff_eq. rewrite !Z.ltb_lt. lia.
  - replace ((c - lo) mod 4294967296) with (c - lo + 4294967296).
    + apply Z.ltb_ge. lia.
    + apply Z.mod_unique with (-1); lia.
Qed.

Lemma isdigit_spec c : - 2 ^ 31 <= c < 2 ^ 31 → isdigit c = (48 <=? c) && (c <? 58).
Proof. intros. unfold isdigit. rewrite urange_spec by lia. done. Qed.

Lemma isupper_spec c : - 2 ^ 31 <= c < 2 ^ 31 → isupper c = (65 <=? c) && (c <? 91).
Proof. intros. unfold isupper. rewrite urange_spec by lia. done. Qed.

Lemma islower_spec c : - 2 ^ 31 <= c < 2 ^ 31 → islower c = (97 <=? c) && (c <? 123).
Proof. intros. unfold islower. rewrite urange_spec by lia. done. Qed.

Lemma isspace_spec c :
  - 2 ^ 31 <= c < 2 ^ 31 → isspace c = (c =? 32) || ((9 <=? c) && (c <? 14)).
Proof. intros. unfold isspace. rewrite urange_spec by lia. done. Qed.

(** [tolower] keeps bytes, is idempotent and agrees with [toupper] on letters. *)
Lemma tolower_byte c : is_byte c → is_byte (tolower c).
Proof.
  intros H. apply (bool_decide_eq_true_1 (is_byte (tolower c))).
  revert c H. apply (byte_forall (λ c, bool_decide (is_byte (tolower c)))). vm_compute. done.
Qed.

Lemma tolower_idem c : is_byte c → tolower (tolower c) = tolower c.
Proof.
  intros H. apply Z.eqb_eq. revert c H.
  apply (byte_forall (λ c, tolower (tolower c) =? tolower c)). vm_compute. done.
Qed.

Lemma tolower_zero c : is_byte c → tolower c = 0 ↔ c = 0.
Proof.
  intros H. rewrite <- !Z.eqb_eq.
  assert (eqb (tolower c =? 0) (c =? 0) = true) as ->%eqb_prop; [|done].
  revert c H. apply (byte_forall (λ c, eqb (tolower c =? 0) (c =? 0))). vm_compute. done.
Qed.

(** The classes of a byte partition as ISO C requires in the C locale. *)
Definition class_laws (c : Z) : bool :=
  eqb (isalnum c) (isalpha c || isdigit c) &&
  eqb (isalpha c) (isupper c || islower c) &&
  negb (isupper c && islower c) &&
  negb (isalpha c && isdigit c) &&
  eqb (isgraph c) (isalnum c || ispunct c) &&
  eqb (isprint c) (isgraph c || (c =? 32)) &&
  negb (iscntrl c && isprint c) &&
  negb (ispunct c && isalnum c) &&
  eqb (isascii c) (iscntrl c || isprint c) &&
  eqb (isxdigit c) (isdigit c || ((65 <=? c) && (c <=? 70)) || ((97 <=? c) && (c <=? 102))) &&
  eqb (isblank c) (isspace c && negb ((10 <=? c) && (c <=? 13))) &&
  (toupper (tolower c) =? toupper c) && (tolower (toupper c) =? tolower c) &&
  eqb (isupper c) (negb (tolower c =? c)) && eqb (islower c) (negb (toupper c =? c)) &&
  (toascii c =? c mod 128).

Lemma class_laws_byte c : is_byte c → class_laws c = true.
Proof. revert c. apply byte_forall. vm_compute. done. Qed.
