(* ===== verification/Futex.v ===== *)
(** * Threads and futexes (src/src/runtime.c)

    Threads run by interleaving: a step of the system is a step of one
    thread on the shared state. The memory orders of the source are at least
    acquire and release on x86-64, where the read-modify-write operations are
    sequentially consistent; interleaving is the model of that. A futex wait
    is the kernel's: it compares the word and goes to sleep in one step, and
    answers EAGAIN when the value differs; a sleeping thread is woken by a
    wake on its word, or leaves by a timeout, a signal or without a reason.
    The program of a thread is a function from its local state; what is not
    determined (the answer of the kernel, the next call) is an argument. *)
From S2P Require Import Prelude.

Definition b2z (b : bool) : Z := if b then 1 else 0.

(** What __futex_timedwait returns after sleeping or instead of it:
    0, -ETIMEDOUT, -EINTR, -EAGAIN. Any other error becomes 0. *)
Inductive fres := FOk | FTimedOut | FIntr | FAgain.

#[export] Instance fres_eq_dec : EqDecision fres.
Proof. solve_decision. Defined.

Definition ETIMEDOUT : Z := 110.
Definition EINTR : Z := 4.
Definition EAGAIN : Z := 11.
Definition EINVAL : Z := 22.
Definition CLOCK_REALTIME : Z := 0.
Definition CLOCK_MONOTONIC : Z := 1.

Record timespec := TS { tv_sec : Z; tv_nsec : Z }.

(** The kernel's return value [r] of SYS_futex, as __futex_timedwait maps it. *)
Definition __futex_timedwait (r : Z) : fres :=
  if r =? - ETIMEDOUT then FTimedOut else if r =? - EINTR then FIntr else if r =? - EAGAIN then FAgain else FOk.

(** Time-outs: the check of the nanoseconds, the kernel's check of the
    seconds, and how a sleep may end besides a wake. *)
Definition ns_bad (ts : option timespec) : bool :=
  match ts with Some t => (tv_nsec t <? 0) || (1000000000 <=? tv_nsec t) | None => false end.

(** The kernel refuses a time before the epoch. *)
Definition sec_bad (ts : option timespec) : bool :=
  match ts with Some t => tv_sec t <? 0 | None => false end.

(** The kernel may end a sleep by the time-out, by a signal, or with 0. *)
Definition may_end (ts : option timespec) (r : Z) : bool :=
  (r =? 0) || (r =? - EINTR) || ((r =? - ETIMEDOUT) && bool_decide (is_Some ts)).

(** ** Counting threads *)

Section Count.
Context {L : Type}.

Fixpoint cnt (P : L → bool) (ts : list L) : Z :=
  match ts with [] => 0 | l :: ts => b2z (P l) + cnt P ts end.

Lemma cnt_nonneg P ts : 0 <= cnt P ts.
Proof. induction ts as [|l ts IH]; simpl; [lia|]. destruct (P l); simpl; lia. Qed.

Lemma cnt_insert P ts i l l' :
  ts !! i = Some l → cnt P (<[i := l']> ts) = cnt P ts - b2z (P l) + b2z (P l').
Proof.
  revert i. induction ts as [|x ts IH]; intros [|i] H; simpl in *; try done.
  - injection H as ->. lia.
  - rewrite (IH _ H). lia.
Qed.

(** The sum of a quantity over the threads. *)
Fixpoint tot (f : L → Z) (ts : list L) : Z :=
  match ts with [] => 0 | l :: ts => f l + tot f ts end.

Lemma tot_insert f ts i l l' :
  ts !! i = Some l → tot f (<[i := l']> ts) = tot f ts - f l + f l'.
Proof.
  revert i. induction ts as [|x ts IH]; intros [|i] H; simpl in *; try done.
  - injection H as ->. lia.
  - rewrite (IH _ H). lia.
Qed.

Lemma tot_nonneg f ts : (∀ j l, ts !! j = Some l → 0 <= f l) → 0 <= tot f ts.
Proof.
  induction ts as [|x ts IH]; intros Hf; simpl; [lia|]. pose proof (Hf 0%nat x eq_refl).
  assert (0 <= tot f ts) by (apply IH; intros j; apply (Hf (S j))). lia.
Qed.

Lemma tot_ge f ts i l : (∀ j l, ts !! j = Some l → 0 <= f l) → ts !! i = Some l → f l <= tot f ts.
Proof.
  intros Hf H. assert (0 <= tot f (<[i := l]> ts) - f l) as H0; [|rewrite list_insert_id in H0 by done; lia].
  revert i Hf H. induction ts as [|x ts IH]; intros [|i] Hf H; simpl in *; try done.
  - injection H as ->. assert (0 <= tot f ts) by (apply tot_nonneg; intros j; apply (Hf (S j))). lia.
  - pose proof (Hf 0%nat x eq_refl). specialize (IH i (λ j, Hf (S j)) H). lia.
Qed.

Lemma tot_pos_inv f ts : 1 <= tot f ts → ∃ i l, ts !! i = Some l ∧ 1 <= f l.
Proof.
  induction ts as [|x ts IH]; simpl; [lia|]. intros H. destruct (decide (1 <= f x)).
  - by exists 0%nat, x.
  - destruct IH as (i & l & Hi & Hl); [lia|]. by exists (S i), l.
Qed.

Lemma tot_replicate f n l : f l = 0 → tot f (replicate n l) = 0.
Proof. intros H. induction n; simpl; lia. Qed.

Lemma cnt_le P Q ts : (∀ l, l ∈ ts → P l = true → Q l = true) → cnt P ts <= cnt Q ts.
Proof.
  induction ts as [|l ts IH]; intros H; simpl; [lia|].
  assert (cnt P ts <= cnt Q ts) by (apply IH; intros; apply H; [by right | done]).
  destruct (P l) eqn:E; [rewrite (H l); [simpl; lia | by left | done]|]. destruct (Q l); simpl; lia.
Qed.

Lemma cnt_pos P ts i l : ts !! i = Some l → P l = true → 1 <= cnt P ts.
Proof.
  revert i. induction ts as [|x ts IH]; intros [|i] H HP; simpl in *; try done.
  - injection H as ->. rewrite HP. pose proof (cnt_nonneg P ts). simpl. lia.
  - specialize (IH i H HP). destruct (P x); simpl; lia.
Qed.

Lemma cnt_pos_inv P ts : 1 <= cnt P ts → ∃ i l, ts !! i = Some l ∧ P l = true.
Proof.
  induction ts as [|x ts IH]; simpl; [lia|]. destruct (P x) eqn:E; simpl; intros H.
  - by exists 0%nat, x.
  - destruct IH as (i & l & Hi & Hl); [lia|]. by exists (S i), l.
Qed.

(** Two threads that satisfy [P] are the same one when at most one does. *)
Lemma cnt_unique P ts i j l l' :
  cnt P ts <= 1 → ts !! i = Some l → ts !! j = Some l' → P l = true → P l' = true → i = j.
Proof.
  revert i j. induction ts as [|x ts IH]; intros [|i] [|j] Hc Hi Hj HP HP'; simpl in *; try done.
  - injection Hi as ->. pose proof (cnt_pos P ts j l' Hj HP'). rewrite HP in Hc. simpl in Hc. lia.
  - injection Hj as ->. pose proof (cnt_pos P ts i l Hi HP). rewrite HP' in Hc. simpl in Hc. lia.
  - f_equal. apply IH; try done. destruct (P x); simpl in Hc; lia.
Qed.

Lemma cnt_length P ts : cnt P ts <= length ts.
Proof. induction ts as [|l ts IH]; simpl; [lia|]. destruct (P l); simpl; lia. Qed.

Lemma cnt_replicate P n l : P l = false → cnt P (replicate n l) = 0.
Proof. intros H. induction n; simpl; [done|]. rewrite H. simpl. lia. Qed.
(** The discipline of contended words: while a thread sleeps, the word is
    [v] or a thread is sure to wake a sleeper or to set the word to [v]. [x]
    and [y] are the word before and after a step of one thread. *)
Lemma flight_step (v : Z) (asleep flight : L → bool) (ts : list L) i t t' x y :
  ts !! i = Some t → (0 < cnt asleep ts → x = v ∨ 0 < cnt flight ts) →
  (asleep t' = true → asleep t = true ∨ y = v) →
  y = v ∨ flight t' = true ∨ ((x = v → y = v) ∧ flight t = false) →
  0 < cnt asleep (<[i := t']> ts) → y = v ∨ 0 < cnt flight (<[i := t']> ts).
Proof.
  intros Hl H Ha Hf. rewrite !(cnt_insert _ _ _ t) by done. intros Hs.
  assert (∀ P, P t = true → 1 <= cnt P ts) as Hpos by (intros; by apply (cnt_pos _ ts i t)).
  pose proof (cnt_nonneg flight ts). pose proof (cnt_nonneg asleep ts).
  destruct Hf as [->|[Hf|[Hxy Hf]]]; [by left | right; rewrite Hf; simpl | ].
  - destruct (flight t) eqn:E; simpl; [specialize (Hpos flight E); lia | lia].
  - rewrite Hf in *. destruct (decide (0 < cnt asleep ts)) as [Hlt|].
    + destruct (H Hlt) as [E|E]; [left; auto | right; destruct (flight t'); simpl; lia].
    + destruct (asleep t') eqn:E'; [|destruct (asleep t); simpl in Hs; lia].
      destruct (Ha eq_refl) as [E|E]; [specialize (Hpos asleep E); lia | by left].
Qed.
End Count.

(** ** Systems of threads *)

(** [step c i g l]: one step of thread [i] with local state [l] on the shared
    state [g], under the choice [c]: the new states, and a futex word with
    the number of threads to wake. None: the thread cannot take that step.
    [sleeps l]: the word on which a thread in state [l] sleeps. *)
Record prog (G L A Ch : Type) := Prog {
  step : Ch → nat → G → L → option (G * L * option (A * nat));
  sleeps : L → option A;
  wakeup : L → L;
}.
Arguments Prog {G L A Ch}.
Arguments step {G L A Ch}.
Arguments sleeps {G L A Ch}.
Arguments wakeup {G L A Ch}.

Section System.
Context {G L A Ch : Type} `{!EqDecision A} (p : prog G L A Ch).

Definition cfg : Type := G * list L.

(** The threads [ws] are woken, one after the other. *)
Fixpoint wake_list (a : A) (ws : list nat) (ts : list L) : option (list L) :=
  match ws with
  | [] => Some ts
  | w :: ws =>
      l ← ts !! w;
      if decide (sleeps p l = Some a) then wake_list a ws (<[w := wakeup p l]> ts) else None
  end.

Definition sleeps_on (a : A) (l : L) : bool := bool_decide (sleeps p l = Some a).

(** __futex_wake: up to [n] threads, fewer only when no more sleep. *)
Definition __futex_wake (a : A) (n : nat) (ws : list nat) (ts : list L) : option (list L) :=
  ts' ← wake_list a ws ts;
  if (length ws <=? n)%nat && ((length ws =? n)%nat || (cnt (sleeps_on a) ts' =? 0)) then Some ts' else None.

(** One step: the thread that runs, its choice, and the threads woken. *)
Definition event : Type := nat * Ch * list nat.

Definition cstep (c : cfg) (e : event) : option cfg :=
  let '(g, ts) := c in let '(i, ch, ws) := e in
  l ← ts !! i;
  '(g', l', wk) ← step p ch i g l;
  let ts := <[i := l']> ts in
  match wk with
  | None => if decide (ws = []) then Some (g', ts) else None
  | Some (a, n) => ts' ← __futex_wake a n ws ts; Some (g', ts')
  end.

Fixpoint run (c : cfg) (es : list event) : option cfg :=
  match es with [] => Some c | e :: es => c' ← cstep c e; run c' es end.

Definition reachable (c c' : cfg) : Prop := ∃ es, run c es = Some c'.

(** Rule induction on the runs of a system. *)
Lemma reachable_inv (I : cfg → Prop) c c' :
  (∀ c e c', I c → cstep c e = Some c' → I c') → I c → reachable c c' → I c'.
Proof.
  intros Hs Hc [es He]. revert c Hc He. induction es as [|e es IH]; intros c Hc He; simpl in He; [by injection He as <-|].
  destruct (cstep c e) as [c1|] eqn:E; [|done]. simpl in He. eauto.
Qed.

(** A step is a step of one thread, then wakes. *)
Lemma cstep_inv g ts i ch ws c' :
  cstep (g, ts) (i, ch, ws) = Some c' →
  ∃ l g' l' wk ts', ts !! i = Some l ∧ step p ch i g l = Some (g', l', wk) ∧ c' = (g', ts') ∧
    match wk with
    | None => ts' = <[i := l']> ts
    | Some (a, n) => wake_list a ws (<[i := l']> ts) = Some ts' ∧ (length ws <= n)%nat ∧
                     (length ws = n ∨ cnt (sleeps_on a) ts' = 0)
    end.
Proof.
  unfold cstep. destruct (ts !! i) as [l|] eqn:El; [|done]. simpl.
  destruct (step p ch i g l) as [[[g' l'] wk]|] eqn:Es; [|done]. simpl. intros H. exists l, g', l', wk. destruct wk as [[a n]|].
  - unfold __futex_wake in H. destruct (wake_list a ws _) as [ts'|] eqn:Ew; [|done]. simpl in H.
    destruct (_ && _) eqn:B; [|done]. simpl in H. injection H as <-. exists ts'.
    apply andb_true_iff in B as [B1 B2]. apply Nat.leb_le in B1. apply orb_true_iff in B2.
    rewrite Nat.eqb_eq, Z.eqb_eq in B2. done.
  - destruct (decide _); [|done]. injection H as <-. eauto 10.
Qed.

(** Counts after a wake: every woken thread changes the count by [δ]. *)
Lemma cnt_wake P δ a ws ts ts' :
  (∀ l, sleeps p l = Some a → b2z (P (wakeup p l)) = b2z (P l) + δ) →
  wake_list a ws ts = Some ts' → cnt P ts' = cnt P ts + δ * length ws.
Proof.
  intros HP. revert ts. induction ws as [|w ws IH]; intros ts H; simpl in H; [injection H as <-; simpl; lia|].
  destruct (ts !! w) as [l|] eqn:E; [|done]. simpl in H. destruct (decide _) as [Hs|]; [|done].
  rewrite (IH _ H), (cnt_insert P ts w l) by done. rewrite (HP l Hs). simpl length. lia.
Qed.

Lemma tot_wake f a ws ts ts' :
  (∀ l, sleeps p l = Some a → f (wakeup p l) = f l) → wake_list a ws ts = Some ts' → tot f ts' = tot f ts.
Proof.
  intros Hf. revert ts. induction ws as [|w ws IH]; intros ts H; simpl in H; [by injection H as <-|].
  destruct (ts !! w) as [l|] eqn:E; [|done]. simpl in H. destruct (decide _) as [Hs|]; [|done].
  rewrite (IH _ H), (tot_insert f ts w l), (Hf l Hs) by done. lia.
Qed.

Lemma wake_length a ws ts ts' : wake_list a ws ts = Some ts' → length ts' = length ts.
Proof.
  revert ts. induction ws as [|w ws IH]; intros ts H; simpl in H; [by injection H as <-|].
  destruct (ts !! w); [|done]. simpl in H. destruct (decide _); [|done]. rewrite (IH _ H). apply length_insert.
Qed.

Lemma cstep_length g ts e g' ts' : cstep (g, ts) e = Some (g', ts') → length ts' = length ts.
Proof.
  destruct e as [[i ch] ws]. intros H. destruct (cstep_inv _ _ _ _ _ _ H) as (l & g1 & l' & wk & ts1 & _ & _ & E & Hw).
  injection E as -> ->. destruct wk as [[a n]|]; [destruct Hw as [Hw _]; rewrite (wake_length _ _ _ _ Hw) | subst ts1]; apply length_insert.
Qed.

(** What holds of every thread and is kept by a wake. *)
Lemma forall_wake (J : nat → L → Prop) a ws ts ts' :
  (∀ i l, sleeps p l = Some a → J i l → J i (wakeup p l)) →
  (∀ i l, ts !! i = Some l → J i l) → wake_list a ws ts = Some ts' → ∀ i l, ts' !! i = Some l → J i l.
Proof.
  intros HJ. revert ts. induction ws as [|w ws IH]; intros ts Hts H; simpl in H; [by injection H as <-|].
  destruct (ts !! w) as [l|] eqn:E; [|done]. simpl in H. destruct (decide _) as [Hs|]; [|done].
  refine (IH _ _ H). intros i l'. rewrite list_lookup_insert_Some. intros [(-> & <- & _)|[_ Hi]]; eauto.
Qed.

Lemma forall_insert (J : nat → L → Prop) (ts : list L) i l' :
  (∀ j l, ts !! j = Some l → J j l) → J i l' → ∀ j l, <[i := l']> ts !! j = Some l → J j l.
Proof. intros H Hi j l. rewrite list_lookup_insert_Some. intros [(-> & <- & _)|[_ Hj]]; eauto. Qed.
End System.
