(* ===== verification/Semaphore.v ===== *)
(** * Semaphores (src/src/semaphore.c)

    Unnamed semaphores: sem_init, sem_wait and its timed forms, sem_trywait,
    sem_post and sem_getvalue, as programs of threads that share one
    semaphore. Every access to the shared words is a step of its own. *)
From S2P Require Import Prelude Lit Futex.

Definition SEM_VALUE_MAX : Z := 0x7fffffff.
Definition EOVERFLOW : Z := 75.
(** __val[0] and __val[1]; [taken] and [posted] are the history of
    successful waits and posts. *)
Record sem := Sem { val : Z; waiters : Z; taken : Z; posted : Z }.

(** Where a thread is: [v] is the local variable of the source, [ts] the
    absolute time-out. *)
Inductive pc :=
| Idle | Gone
| Done (ret errno : Z)
| TryLoop (v : Z)
| WTop (ts : option timespec) | WGot (ts : option timespec) (v : Z)
| WAdd (ts : option timespec) (v : Z) | WFutex (ts : option timespec) (v : Z)
| WSleep (ts : option timespec) (v : Z)
| WRet (ts : option timespec) (r : fres) | WChk (ts : option timespec) (r : fres)
| PLoop (v : Z) | PLoad | PWake.

Inductive call :=
| sem_trywait | sem_clockwait (clk : Z) (abs : option timespec) | sem_timedwait (abs : timespec) | sem_wait
| sem_post | sem_getvalue.

(** The next call of an idle thread, a plain step, a return from the futex
    wait with the kernel's value, or a cancellation request acted on. *)
Inductive choice := Call (c : call) | Go | Kernel (r : Z) | Cancel.

(** ** Operations *)

(** None: EINVAL. *)
Definition sem_init (value : Z) : option sem :=
  if SEM_VALUE_MAX <? value then None else Some (Sem value 0 0 0).

Definition set_val (v : Z) (g : sem) : sem := Sem v (waiters g) (taken g) (posted g).
Definition set_waiters (w : Z) (g : sem) : sem := Sem (val g) w (taken g) (posted g).
Definition take_unit (g : sem) : sem := Sem (val g - 1) (waiters g) (taken g + 1) (posted g).
Definition post_unit (g : sem) : sem := Sem (val g + 1) (waiters g) (taken g) (posted g + 1).

Definition enter (c : call) (g : sem) : pc :=
  match c with
  | sem_trywait => TryLoop (val g)
  | sem_clockwait clk abs =>
      if negb (clk =? CLOCK_REALTIME) && negb (clk =? CLOCK_MONOTONIC) then Done (-1) EINVAL else WTop abs
  | sem_timedwait abs => WTop (Some abs)
  | sem_wait => WTop None
  | sem_post => PLoop (val g)
  | sem_getvalue => Done (if val g <? 0 then 0 else val g) 0
  end.

(** sem_trywait, with [v] loaded. *)
Definition trywait_step (g : sem) (v : Z) : sem * pc :=
  if 0 <? v then if val g =? v then (take_unit g, Done 0 0) else (g, TryLoop (val g))
  else (g, Done (-1) EAGAIN).

(** The loop of sem_clockwait. *)
Definition clockwait_step (c : choice) (g : sem) (l : pc) : option (sem * pc) :=
  match l, c with
  | WTop ts, Go => Some (g, WGot ts (val g))
  | WGot ts v, Go =>
      if 0 <? v then Some (if val g =? v then (take_unit g, Done 0 0) else (g, WTop ts))
      else Some (g, if ns_bad ts then Done (-1) EINVAL else WAdd ts v)
  | WAdd ts v, Go => Some (set_waiters (s32 (waiters g + 1)) g, WFutex ts v)
  | WFutex ts v, Go =>
      Some (g, if sec_bad ts then WRet ts (__futex_timedwait (- EINVAL))
               else if val g =? v then WSleep ts v else WRet ts (__futex_timedwait (- EAGAIN)))
  | WSleep ts v, Kernel r => if may_end ts r then Some (g, WRet ts (__futex_timedwait r)) else None
  | WRet ts r, Go => Some (set_waiters (s32 (waiters g - 1)) g, WChk ts r)
  | WChk ts r, Go =>
      Some (g, match r with
               | FTimedOut => Done (-1) ETIMEDOUT
               | FIntr => Done (-1) EINTR
               | _ => WTop ts
               end)
  | WChk ts FIntr, Cancel => Some (g, Gone)
  | _, _ => None
  end.

(** sem_post: the CAS loop, the load of the waiters, the wake. *)
Definition post_step (g : sem) (l : pc) : option (sem * pc * option (unit * nat)) :=
  match l with
  | PLoop v =>
      Some (if v =? SEM_VALUE_MAX then (g, Done (-1) EOVERFLOW, None)
            else if val g =? v then (post_unit g, PLoad, None)
            else (g, PLoop (val g), None))
  | PLoad => Some (g, if waiters g =? 0 then Done 0 0 else PWake, None)
  | PWake => Some (g, Done 0 0, Some (tt, 1%nat))
  | _ => None
  end.

Definition sstep (c : choice) (i : nat) (g : sem) (l : pc) : option (sem * pc * option (unit * nat)) :=
  match l, c with
  | Idle, Call c => Some (g, enter c g, None)
  | Idle, Cancel => Some (g, Gone, None)
  | Done _ _, Go => Some (g, Idle, None)
  | TryLoop v, Go => Some (trywait_step g v, None)
  | (PLoop _ | PLoad | PWake), Go => post_step g l
  | _, _ => r ← clockwait_step c g l; Some (r, None)
  end.

Definition sem_prog : prog sem pc unit choice :=
  Prog sstep (λ l, match l with WSleep _ _ => Some tt | _ => None end)
       (λ l, match l with WSleep ts _ => WRet ts FOk | l => l end).

(** ** The invariant *)

Definition asleep (l : pc) : bool := match l with WSleep _ _ => true | _ => false end.

(** Counted in __val[1]. *)
Definition registered (l : pc) : bool :=
  match l with WFutex _ _ | WSleep _ _ | WRet _ _ => true | _ => false end.

(** Has posted and not yet looked for sleepers. *)
Definition posting (l : pc) : bool := match l with PLoad | PWake => true | _ => false end.

(** Will try to take a unit before it sleeps or leaves. *)
Definition trying (l : pc) : bool :=
  match l with
  | WTop ts | WGot ts _ => negb (ns_bad ts)
  | WAdd _ _ | WFutex _ _ => true
  | WRet ts r | WChk ts r => match r with FTimedOut | FIntr => false | _ => true end
  | _ => false
  end.

(** A thread sleeps or is about to only with a valid time and a zero count. *)
Definition local_ok (i : nat) (l : pc) : Prop :=
  match l with
  | WAdd ts v | WFutex ts v | WSleep ts v => v <= 0 ∧ ns_bad ts = false
  | WRet ts _ | WChk ts _ => ns_bad ts = false
  | _ => True
  end.

Record inv (v0 : Z) (c : sem * list pc) : Prop := {
  i_range : 0 <= val c.1 <= SEM_VALUE_MAX;
  i_hist : val c.1 = v0 + posted c.1 - taken c.1;
  i_waiters : waiters c.1 = cnt registered c.2;
  i_local : ∀ i l, c.2 !! i = Some l → local_ok i l;
  i_wake : 0 < cnt asleep c.2 → val c.1 <= cnt posting c.2 + cnt trying c.2;
  i_len : Z.of_nat (length c.2) < 2 ^ 31;
}.

Lemma sem_asleep_registered ts : cnt asleep ts <= cnt registered ts.
Proof. apply cnt_le. by intros []. Qed.

(** The counter of waiters does not wrap. *)
Lemma waiters_add v0 g ts i l :
  inv v0 (g, ts) → ts !! i = Some l →
  (registered l = false → s32 (waiters g + 1) = waiters g + 1) ∧ (registered l = true → s32 (waiters g - 1) = waiters g - 1).
Proof.
  intros Hi Hl. pose proof (i_waiters _ _ Hi) as Hw. pose proof (i_len _ _ Hi) as Hn. cbn in *.
  pose proof (cnt_nonneg registered ts). pose proof (cnt_length registered ts). split; intros Hr.
  - pose proof (cnt_length registered (<[i := PWake]> ts)) as Hc. rewrite length_insert in Hc.
    apply swrap_small; [lia|]. pose proof (cnt_length registered (<[i := WRet None FOk]> ts)) as Hc'.
    rewrite length_insert, (cnt_insert _ _ _ l), Hr in Hc' by done. simpl in Hc'. lia.
  - pose proof (cnt_pos registered ts i l Hl Hr). apply swrap_small; lia.
Qed.

(** The effect of a step without a wake on the counts. *)
Lemma sem_inv_step v0 g ts i l g' l' :
  inv v0 (g, ts) → ts !! i = Some l → local_ok i l' →
  0 <= val g' <= SEM_VALUE_MAX → val g' - posted g' + taken g' = val g - posted g + taken g →
  waiters g' = waiters g - b2z (registered l) + b2z (registered l') →
  (asleep l' = true → asleep l = true ∨ val g' = 0) →
  (0 < cnt asleep ts → val g' = 0 ∨ val g' - val g <= b2z (posting l') - b2z (posting l) + b2z (trying l') - b2z (trying l)) →
  inv v0 (g', <[i := l']> ts).
Proof.
  intros [H1 H2 H3 H4 H5 H6] Hl Hok Hr Hh Hw Ha Hp. cbn [fst snd] in *.
  split; cbn [fst snd]; [done | lia | by rewrite (cnt_insert _ _ _ l), Hw, H3 by done | | | by rewrite length_insert].
  - by apply forall_insert.
  - rewrite !(cnt_insert _ _ _ l) by done. intros Hs.
    pose proof (cnt_nonneg asleep ts). pose proof (cnt_nonneg posting ts). pose proof (cnt_nonneg trying ts).
    assert (∀ P, P l = true → 1 <= cnt P ts) as Hpos by (intros; by apply (cnt_pos _ ts i l)).
    assert (b2z (posting l) <= cnt posting ts) as Hpl by (destruct (posting l) eqn:E; simpl; [by apply Hpos | lia]).
    assert (b2z (trying l) <= cnt trying ts) as Htl by (destruct (trying l) eqn:E; simpl; [by apply Hpos | lia]).
    assert (0 <= b2z (posting l') ∧ 0 <= b2z (trying l')) as [Hpl' Htl'] by (destruct (posting l'), (trying l'); simpl; lia).
    destruct (decide (0 < cnt asleep ts)) as [Hlt|]; [specialize (H5 Hlt); specialize (Hp Hlt); lia|].
    destruct (asleep l') eqn:El'; [|simpl in Hs; destruct (asleep l); simpl in Hs; lia].
    destruct (Ha eq_refl) as [El|E0]; [specialize (Hpos asleep El); lia | lia].
Qed.

Lemma sem_inv_wake v0 g ts ws ts' i :
  inv v0 (g, ts) → ts !! i = Some PWake →
  wake_list sem_prog tt ws (<[i := Done 0 0]> ts) = Some ts' → (length ws <= 1)%nat →
  length ws = 1%nat ∨ cnt (sleeps_on sem_prog tt) ts' = 0 → inv v0 (g, ts').
Proof.
  intros [H1 H2 H3 H4 H5 H6] Hl Hw Hn Hd. cbn [fst snd] in *.
  assert (∀ P δ, (∀ ts v, b2z (P (WRet ts FOk)) = b2z (P (WSleep ts v)) + δ) →
    cnt P ts' = cnt P ts - b2z (P PWake) + b2z (P (Done 0 0)) + δ * length ws) as Hc.
  { intros P δ HP. rewrite (cnt_wake sem_prog P δ tt ws _ ts' ltac:(intros [] ?; try done; apply HP) Hw).
    by rewrite (cnt_insert _ _ _ PWake). }
  assert (cnt (sleeps_on sem_prog tt) ts' = cnt asleep ts') as Es.
  { apply Z.le_antisymm; apply cnt_le; intros [] _; done. }
  pose proof (Hc registered 0 ltac:(done)) as Er. pose proof (Hc asleep (-1) ltac:(done)) as Ea.
  pose proof (Hc posting 0 ltac:(done)) as Ep. pose proof (Hc trying 1 ltac:(done)) as Et. simpl in Er, Ea, Ep, Et.
  assert (length ts' = length ts) as El.
  { rewrite (wake_length _ _ _ _ _ Hw). apply length_insert. }
  split; cbn [fst snd]; [done | done | lia | | | by rewrite El].
  - apply (forall_wake sem_prog local_ok tt ws (<[i := Done 0 0]> ts)); [|by apply forall_insert | done].
    intros j [] Hs; try done. by intros [_ ?].
  - intros Ha. assert (0 < cnt asleep ts) as Ha' by lia. specialize (H5 Ha'). lia.
Qed.

#[local] Arguments ns_bad : simpl never.
#[local] Arguments enter : simpl never.
#[local] Arguments __futex_timedwait : simpl never.

(** Closes the side conditions of [sem_inv_step]. *)
Ltac counts :=
  change (__futex_timedwait (- EINVAL)) with FOk; change (__futex_timedwait (- EAGAIN)) with FAgain; cbn in *;
  repeat match goal with
  | |- context [ns_bad ?t] => destruct (ns_bad t) eqn:?
  | |- context [__futex_timedwait ?r] => destruct (__futex_timedwait r) eqn:?
  end; cbn in *; done || lia || tauto || idtac.

Lemma sem_inv_cstep v0 c e c' : inv v0 c → cstep sem_prog c e = Some c' → inv v0 c'.
Proof.
  destruct c as [g ts], e as [[i ch] ws]. intros Hi Hs.
  destruct (cstep_inv _ _ _ _ _ _ _ Hs) as (l & g' & l' & wk & ts' & Hl & Hst & -> & Hwk). clear Hs.
  pose proof (i_local _ _ Hi i l Hl) as Hok. pose proof (i_range _ _ Hi) as Hr. cbn in Hr.
  destruct (waiters_add _ _ _ _ _ Hi Hl) as [Hw1 Hw2].
  assert (waiters g = 0 → ¬ 0 < cnt asleep ts) as Hz.
  { intros E. pose proof (i_waiters _ _ Hi) as Hw. pose proof (sem_asleep_registered ts). cbn in Hw. lia. }
  destruct l; destruct ch as [c| | |]; cbn in Hst; try discriminate Hst.
  all: try match goal with r : fres |- _ => destruct r end; cbn in Hst; try discriminate Hst.
  all: unfold trywait_step, enter in Hst; try destruct c.
  all: repeat match type of Hst with context [if ?b then _ else _] => destruct b eqn:? end;
    try discriminate Hst; injection Hst as <- <- <-.
  all: try (subst ts'; apply (sem_inv_step v0 g ts i _ _ _ Hi Hl); zbool; counts).
  destruct Hwk as (Hw & Hn & Hd). by apply (sem_inv_wake v0 g ts ws ts' i).
Qed.

Lemma sem_inv_init v n g :
  0 <= v → sem_init v = Some g → Z.of_nat n < 2 ^ 31 → inv v (g, replicate n Idle).
Proof.
  unfold sem_init. intros Hv. destruct (Z.ltb_spec SEM_VALUE_MAX v); [done|]. injection 1 as <-. intros Hn.
  split; cbn; rewrite ?cnt_replicate, ?length_replicate by done; try lia.
  intros i l. rewrite lookup_replicate. by intros [-> _].
Qed.

(** Waiting for ever: asleep, or not in a call. *)
Definition at_rest (l : pc) : bool := match l with Idle | Gone | Done _ _ | WSleep _ _ => true | _ => false end.

Lemma rest_zero P ts : (∀ l, at_rest l = true → P l = false) → Forall (λ l, at_rest l = true) ts → cnt P ts = 0.
Proof. intros HP. induction 1 as [|l ts Hl _ IH]; [done|]. simpl. rewrite (HP l Hl), IH. done. Qed.

(** ** Properties *)


(** *** Witnesses *)


(** A deadline before the epoch: the kernel answers EINVAL, which
    __futex_timedwait turns into 0, and sem_timedwait goes round its loop
    again without ever sleeping or reporting the time-out. *)
Lemma timedwait_spins ts g v :
  sec_bad ts = true → ns_bad ts = false → val g <= 0 →
  clockwait_step Go g (WTop ts) = Some (g, WGot ts (val g)) ∧ clockwait_step Go g (WGot ts (val g)) = Some (g, WAdd ts (val g)) ∧
  clockwait_step Go g (WFutex ts v) = Some (g, WRet ts FOk) ∧ clockwait_step Go g (WChk ts FOk) = Some (g, WTop ts).
Proof.
  intros Hs Hn Hv. cbn. rewrite Hs, Hn. destruct (Z.ltb_spec 0 (val g)); [lia|]. done.
Qed.

(** ** Named semaphores *)

Definition NAME_MAX : Z := 255.
Definition ENAMETOOLONG : Z := 36.
Definition ENOMEM : Z := 12.

(** One mapping per semaphore file. *)
Record named := Named { dev : Z; ino : Z; nsem : Z; refs : Z }.

Fixpoint skip_slashes (s : list Z) : list Z :=
  match s with c :: s' => if c =? 47 then skip_slashes s' else s | [] => [] end.

(** The path, or errno. *)
Definition sem_path (name : list Z) : list Z + Z :=
  let name := skip_slashes name in
  let n := Z.of_nat (length name) in
  if (n =? 0) || (NAME_MAX - 4 <? n) || existsb (Z.eqb 47) name || bool_decide (name = [46]) || bool_decide (name = [46; 46])
  then inr (if NAME_MAX - 4 <? n then ENAMETOOLONG else EINVAL)
  else inl (lit "/dev/shm/sem." ++ name).

(** The list under the lock: fstat's answer, the success of malloc and the
    address from mmap are arguments. *)
Fixpoint find_ref (d i : Z) (l : list named) : option (list named * Z) :=
  match l with
  | [] => None
  | p :: l =>
      if (dev p =? d) && (ino p =? i) then Some (Named (dev p) (ino p) (nsem p) (refs p + 1) :: l, nsem p)
      else '(l', s) ← find_ref d i l; Some (p :: l', s)
  end.

Definition map_fd (st : option (Z * Z)) (malloc_ok : bool) (mmap : option Z) (l : list named) : list named * option Z :=
  match st with
  | None => (l, None)
  | Some (d, i) =>
      match find_ref d i l with
      | Some (l', s) => (l', Some s)
      | None =>
          match (if malloc_ok then mmap else None) with
          | None => (l, None)
          | Some m => (Named d i m 1 :: l, Some m)
          end
      end
  end.

(** The list after, and whether the mapping was removed; None: EINVAL. *)
Fixpoint sem_close (s : Z) (l : list named) : option (list named * bool) :=
  match l with
  | [] => None
  | p :: l =>
      if negb (nsem p =? s) then '(l', b) ← sem_close s l; Some (p :: l', b)
      else if refs p - 1 =? 0 then Some (l, true)
      else Some (Named (dev p) (ino p) (nsem p) (refs p - 1) :: l, false)
  end.

(** A name that is accepted gives a path directly in the directory, which
    fits the buffer. *)
Lemma sem_path_ok name p :
  sem_path name = inl p →
  ∃ n, p = lit "/dev/shm/sem." ++ n ∧ n ≠ [] ∧ (47 ∉ n) ∧ n ≠ [46] ∧ n ≠ [46; 46] ∧ Z.of_nat (length p) + 1 <= NAME_MAX + 16.
Proof.
  unfold sem_path. cbv zeta. set (n := skip_slashes name). destruct (_ || _) eqn:B; [done|]. injection 1 as <-.
  rewrite !orb_false_iff, !bool_decide_eq_false in B. zbool. destruct B as [[[[B1 B2] B3] B4] B5]. exists n. split_and!; try done.
  - intros E. rewrite E in B1. done.
  - intros Hin. assert (existsb (Z.eqb 47) n = true) as Hx; [|congruence]. apply existsb_exists. exists 47.
    split; [by apply list_elem_of_In | done].
  - unfold NAME_MAX in *. cbn [length app]. cbn. lia.
Qed.

(** References to the mapping at [s]. *)
Definition refs_of (s : Z) (l : list named) : Z := foldr (λ p acc, if nsem p =? s then refs p + acc else acc) 0 l.

Record named_ok (l : list named) : Prop := {
  n_files : NoDup ((λ p, (dev p, ino p)) <$> l);
  n_sems : NoDup (nsem <$> l);
  n_refs : Forall (λ p, 1 <= refs p) l;
}.

Lemma find_ref_ok d i l l' s :
  find_ref d i l = Some (l', s) →
  (λ p, (dev p, ino p)) <$> l' = (λ p, (dev p, ino p)) <$> l ∧ nsem <$> l' = nsem <$> l ∧
  (Forall (λ p, 1 <= refs p) l → Forall (λ p, 1 <= refs p) l') ∧ (∃ p, p ∈ l ∧ nsem p = s ∧ dev p = d ∧ ino p = i) ∧
  (NoDup (nsem <$> l) → ∀ x, refs_of x l' = refs_of x l + if x =? s then 1 else 0).
Proof.
  revert l' s. induction l as [|p l IH]; intros l' s H; cbn [find_ref] in H; [done|].
  destruct ((dev p =? d) && (ino p =? i)) eqn:E.
  - injection H as <- <-. apply andb_true_iff in E as [E1 E2]. zbool. cbn. split_and!; try done.
    + intros Hf. inv Hf. constructor; [cbn; lia | done].
    + exists p. split; [by left | done].
    + intros _ x. rewrite (Z.eqb_sym x). destruct (nsem p =? x); lia.
  - apply bind_Some in H as ([l1 s1] & Hf & H). injection H as <- <-. destruct (IH _ _ Hf) as (H1 & H2 & H3 & (q & Hq & Hs & Hd) & H5).
    cbn. rewrite H1, H2. split_and!; try done.
    + intros HF. inv HF. constructor; auto.
    + exists q. split; [by right | done].
    + intros Hnd x. inv Hnd. unfold refs_of in H5. rewrite H5 by done. destruct (nsem p =? x), (x =? nsem q); lia.
Qed.

Lemma refs_zero s l : s ∉ nsem <$> l → refs_of s l = 0.
Proof.
  induction l as [|p l IH]; cbn; [done|]. intros Hn. apply not_elem_of_cons in Hn as [H1 H2]. destruct (Z.eqb_spec (nsem p) s); [done|]. by apply IH.
Qed.

(** Opening the same file again gives the same mapping; every open adds one
    reference to the mapping it returns, and to no other. *)
Lemma map_fd_ok st mo mm l l' s :
  named_ok l → (∀ m, mm = Some m → m ∉ nsem <$> l) → map_fd st mo mm l = (l', Some s) →
  named_ok l' ∧ (∀ x, refs_of x l' = refs_of x l + if x =? s then 1 else 0) ∧
  (∀ p, p ∈ l → st = Some (dev p, ino p) → s = nsem p).
Proof.
  intros [N1 N2 N3] Hm. unfold map_fd. destruct st as [[d i]|]; [|done]. destruct (find_ref d i l) as [[l1 s1]|] eqn:Ef.
  - injection 1 as <- <-. destruct (find_ref_ok _ _ _ _ _ Ef) as (H1 & H2 & H3 & (q & Hq & Hs & Hd & Hi) & H5). split_and!; [|auto|].
    + split; [by rewrite H1 | by rewrite H2 | auto].
    + intros p Hp E. injection E as E1 E2. apply list_elem_of_lookup in Hp as [a Ha], Hq as [b Hb].
      assert (a = b) as ->; [|naive_solver].
      apply (NoDup_lookup _ _ _ (d, i) N1); rewrite list_lookup_fmap; [rewrite Ha | rewrite Hb]; cbn; f_equal; f_equal; done.
  - destruct mo; [|done]. destruct mm as [m|]; [|done]. injection 1 as <- <-. specialize (Hm m eq_refl).
    assert (∀ p, p ∈ l → (dev p, ino p) ≠ (d, i)) as Hnf.
    { clear -Ef. induction l as [|q l IH]; [set_solver|]. cbn in Ef. destruct ((dev q =? d) && (ino q =? i)) eqn:E; [done|].
      destruct (find_ref d i l) as [[]|]; [done|]. intros p [->|Hp]%elem_of_cons; [|by apply IH].
      intros Eq. injection Eq as Ed Ei. by rewrite Ed, Ei, !Z.eqb_refl in E. }
    split_and!.
    + split; cbn; [|by constructor |by constructor]. constructor; [|done]. intros (p & E & Hp)%list_elem_of_fmap. by apply (Hnf p Hp).
    + intros x. cbn. fold (refs_of x l). rewrite (Z.eqb_sym x). destruct (m =? x); lia.
    + intros p Hp E. injection E as -> ->. by destruct (Hnf p Hp).
Qed.

(** A close takes one reference; the last one removes the mapping. Closing
    an address that is not mapped is refused. *)
Lemma sem_close_ok s l :
  named_ok l →
  match sem_close s l with
  | None => s ∉ nsem <$> l
  | Some (l', gone) => named_ok l' ∧ 1 <= refs_of s l ∧ (∀ x, refs_of x l' = refs_of x l - if x =? s then 1 else 0) ∧
                       (gone = true ↔ refs_of s l' = 0) ∧ (gone = true ↔ s ∉ nsem <$> l')
  end.
Proof.
  intros [N1 N2 N3]. induction l as [|p l IH]; cbn [sem_close]; [set_solver|]. inv N1. inv N2. inv N3.
  destruct (Z.eqb_spec (nsem p) s) as [E|E]; cbn [negb].
  - assert (refs_of s l = 0) as Hz by (apply refs_zero; by rewrite <- E).
    destruct (Z.eqb_spec (refs p - 1) 0) as [E0|E0].
    + split_and!; [by split | | | done | by rewrite <- E].
      * cbn. fold (refs_of s l). rewrite E, Z.eqb_refl. lia.
      * intros x. cbn. fold (refs_of x l). rewrite E, (Z.eqb_sym x). destruct (s =? x); lia.
    + split_and!.
      * split; cbn; constructor; try done. cbn. lia.
      * cbn. fold (refs_of s l). rewrite E, Z.eqb_refl. lia.
      * intros x. cbn. fold (refs_of x l). rewrite E, (Z.eqb_sym x). destruct (s =? x); lia.
      * cbn. fold (refs_of s l). rewrite E, Z.eqb_refl. split; [done | lia].
      * cbn. rewrite E. split; [done | intros Hn; by destruct Hn; left].
  - specialize (IH ltac:(done) ltac:(done) ltac:(done)). destruct (sem_close s l) as [[l1 b]|] eqn:Ec; cbn.
    + destruct IH as ([M1 M2 M3] & H1' & H2' & H3' & H4'). rewrite (proj2 (Z.eqb_neq (nsem p) s) E). fold (refs_of s l) (refs_of s l1).
      split_and!; try done.
      * assert (∀ y, y ∈ l1 → ∃ q, q ∈ l ∧ nsem q = nsem y ∧ (dev q, ino q) = (dev y, ino y)) as Hsub.
        { clear -Ec. revert l1 b Ec. induction l as [|q l IH]; intros l1 b Ec; cbn in Ec; [done|]. destruct (negb _).
          - apply bind_Some in Ec as ([l2 b2] & Ec & H). injection H as <- <-. intros y [->|Hy]%elem_of_cons; [exists q; split; [by left | done]|].
            destruct (IH _ _ Ec y Hy) as (q' & ? & ?). exists q'. split; [by right | done].
          - destruct (_ =? 0); injection Ec as <- <-; intros y Hy.
            + exists y. split; [by right | done].
            + apply elem_of_cons in Hy as [->|Hy]; [exists q; split; [by left | done] | exists y; split; [by right | done]]. }
        split; cbn; constructor; try done.
        -- intros (y & Ey & Hy)%list_elem_of_fmap. destruct (Hsub y Hy) as (q & Hq & _ & Eq). apply H1. apply list_elem_of_fmap. exists q. by rewrite Eq.
        -- intros (y & Ey & Hy)%list_elem_of_fmap. destruct (Hsub y Hy) as (q & Hq & Eq & _). apply H3. apply list_elem_of_fmap. exists q. by rewrite Eq.
      * intros x. fold (refs_of x l) (refs_of x l1). rewrite H2'. destruct (nsem p =? x); lia.
      * rewrite H4'. rewrite not_elem_of_cons. split; [intros; split; [congruence | done] | by intros [_ ?]].
    + rewrite not_elem_of_cons. split; [congruence | done].
Qed.

(** ** Opening and unlinking names

    The calls sem_open makes, in order; [ok] says whether the kernel carried
    the call out. *)
Inductive action :=
| AOpen (path : list Z) (ok : bool)
| ACreate (path : list Z) (mode : Z) (ok : bool)
| AWrite (s : sem)
| ALink (old new : list Z) (ok : bool)
| AUnlink (path : list Z)
| AClose.

(** The kernel's answers for one turn of the loop of sem_open; [Some e] is a
    failure with errno [e]. *)
Record turn := Turn {
  k_open : option Z; k_stat : option (Z * Z); k_malloc : bool; k_mmap : option Z;
  k_rnd : list Z; k_create : option Z; k_write : bool; k_link : option Z;
}.

Definition O_CREAT : Z := 64.
Definition O_EXCL : Z := 128.
Definition EEXIST : Z := 17.
Definition ENOENT : Z := 2.
Definition EIO : Z := 5.
Definition flag (oflag f : Z) : bool := negb (Z.land oflag f =? 0).

(** SEM_FAILED with errno, or with the errno of the call that failed in
    map_fd (None). *)
Inductive opened := Opened (s : Z) | Failed (e : option Z).

Definition of_map (r : list named * option Z) : list named * opened :=
  (r.1, match r.2 with Some s => Opened s | None => Failed None end).

Definition tmp_name (rnd : list Z) : list Z :=
  lit "/dev/shm/sem.tmp-" ++
  (rnd ≫= λ b, let hex k := nth (Z.to_nat k) (lit "0123456789abcdef") 0 in [hex (Z.shiftr b 4); hex (Z.land b 15)]).

(** One turn: inl is a return, inr another turn. *)
Definition open_turn (path : list Z) (oflag mode : Z) (init : sem) (t : turn) (l : list named) :
    list action * (list named * opened + unit) :=
  match k_open t with
  | None =>
      if flag oflag O_CREAT && flag oflag O_EXCL then ([AOpen path true; AClose], inl (l, Failed (Some EEXIST)))
      else ([AOpen path true; AClose], inl (of_map (map_fd (k_stat t) (k_malloc t) (k_mmap t) l)))
  | Some e =>
      if negb (e =? ENOENT) || negb (flag oflag O_CREAT) then ([AOpen path false], inl (l, Failed (Some e)))
      else
        let tmp := tmp_name (k_rnd t) in
        match k_create t with
        | Some e => ([AOpen path false; ACreate tmp mode false], inl (l, Failed (Some e)))
        | None =>
            let pre := [AOpen path false; ACreate tmp mode true; AWrite init] in
            if negb (k_write t) then (pre ++ [AUnlink tmp; AClose], inl (l, Failed (Some EIO)))
            else match k_link t with
                 | None => (pre ++ [ALink tmp path true; AUnlink tmp; AClose],
                            inl (of_map (map_fd (k_stat t) (k_malloc t) (k_mmap t) l)))
                 | Some e =>
                     (pre ++ [ALink tmp path false; AUnlink tmp; AClose],
                      if negb (e =? EEXIST) then inl (l, Failed (Some e))
                      else if flag oflag O_EXCL then inl (l, Failed (Some EEXIST)) else inr tt)
                 end
        end
  end.

(** None: the given turns were not enough, every one of them lost the race
    for the name and found it gone again. *)
Fixpoint open_loop (path : list Z) (oflag mode : Z) (init : sem) (ts : list turn) (l : list named) :
    option (list action * list named * opened) :=
  match ts with
  | [] => None
  | t :: ts =>
      match open_turn path oflag mode init t l with
      | (a, inl (l', r)) => Some (a, l', r)
      | (a, inr _) => '(a', l', r) ← open_loop path oflag mode init ts l; Some (a ++ a', l', r)
      end
  end.

Definition sem_open (name : list Z) (oflag mode value : Z) (ts : list turn) (l : list named) : option (list action * list named * opened) :=
  match sem_path name with
  | inr e => Some ([], l, Failed (Some e))
  | inl path =>
      if flag oflag O_CREAT then
        match sem_init value with
        | None => Some ([], l, Failed (Some EINVAL))
        | Some init => open_loop path oflag mode init ts l
        end
      else open_loop path oflag 0 (Sem 0 0 0 0) ts l
  end.

Definition sem_unlink (name : list Z) : list action + Z :=
  match sem_path name with inr e => inr e | inl path => inl [AUnlink path] end.

(** Descriptors left open, and temporary names left behind, by a trace. *)
Definition fds (a : list action) : Z :=
  foldr (λ x n, match x with AOpen _ true | ACreate _ _ true => n + 1 | AClose => n - 1 | _ => n end) 0 a.

Definition temps (a : list action) : list (list Z) :=
  foldl (λ n x, match x with ACreate p _ true => p :: n | AUnlink p => filter (.≠ p) n | _ => n end) [] a.

(** Whether the trace made the name, and only from an initialised file. *)
Definition links (path : list Z) (a : list action) : bool :=
  existsb (λ x, match x with ALink _ p true => bool_decide (p = path) | _ => false end) a.

Lemma fds_app a b : fds (a ++ b) = fds a + fds b.
Proof. induction a as [|x a IH]; cbn; [done|]. fold (fds (a ++ b)) (fds a). rewrite IH. destruct x as [? []|? ? []| | | |]; lia. Qed.

Lemma open_turn_ok path oflag mode init t l a r :
  open_turn path oflag mode init t l = (a, r) →
  fds a = 0 ∧ temps a = [] ∧ (∀ s, AWrite s ∈ a → s = init) ∧
  (flag oflag O_CREAT = true → flag oflag O_EXCL = true → ∀ l' s, r = inl (l', Opened s) → links path a = true) ∧
  (flag oflag O_CREAT = false → ∀ p m k, ACreate p m k ∉ a).
Proof.
  unfold open_turn. intros H.
  repeat match type of H with
  | context [match k_open ?t with _ => _ end] => destruct (k_open t)
  | context [match k_create ?t with _ => _ end] => destruct (k_create t)
  | context [match k_link ?t with _ => _ end] => destruct (k_link t)
  | context [if ?b then _ else _] => destruct b eqn:?
  end; injection H as <- <-; cbn -[tmp_name]; rewrite ?filter_cons, ?decide_False by (intros E; by apply E);
  (split_and!; [done | done | set_solver | try done; intros; rewrite ?bool_decide_eq_true_2 by done; done || idtac | idtac]).
  all: try (intros; set_solver).
  all: intros; destruct (flag oflag O_CREAT); cbn in *; rewrite ?orb_true_r in *; try congruence.
Qed.

(** sem_open leaves no descriptor open and no temporary file behind, writes
    nothing but the initial semaphore, with O_EXCL succeeds only by making
    the name itself, and without O_CREAT creates nothing. *)
Lemma open_loop_ok path oflag mode init ts l a l' r :
  open_loop path oflag mode init ts l = Some (a, l', r) →
  fds a = 0 ∧ temps a = [] ∧ (∀ s, AWrite s ∈ a → s = init) ∧
  (flag oflag O_CREAT = true → flag oflag O_EXCL = true → ∀ s, r = Opened s → links path a = true) ∧
  (flag oflag O_CREAT = false → ∀ p m k, ACreate p m k ∉ a).
Proof.
  revert a l' r. induction ts as [|t ts IH]; intros a l' r H; cbn [open_loop] in H; [done|].
  destruct (open_turn path oflag mode init t l) as [b rb] eqn:E. destruct (open_turn_ok _ _ _ _ _ _ _ _ E) as (F & T & W & X & N).
  destruct rb as [[l1 r1]|].
  - injection H as <- <- <-. split_and!; try done. intros HC HX s ->. by apply (X HC HX l1 s).
  - apply bind_Some in H as ([[a' l2] r2] & H & H'). injection H' as <- <- <-. destruct (IH _ _ _ H) as (F' & T' & W' & X' & N').
    split_and!.
    + rewrite fds_app. lia.
    + unfold temps. rewrite foldl_app. fold (temps b). by rewrite T.
    + intros s [Hs|Hs]%elem_of_app; auto.
    + intros HC HX s Hs. unfold links. rewrite existsb_app. apply orb_true_iff. right. by apply (X' HC HX s).
    + intros HC p m k [Hs|Hs]%elem_of_app; [by eapply N | by eapply N'].
Qed.

(** Whether the loop ends is up to the other processes: it takes another turn
    only when the name was missing, and then there. *)
Lemma open_turn_again path oflag mode init t l a :
  open_turn path oflag mode init t l = (a, inr tt) → k_open t = Some ENOENT ∧ k_link t = Some EEXIST.
Proof.
  unfold open_turn. intros H.
  repeat match type of H with
  | context [match k_open ?t with _ => _ end] => destruct (k_open t)
  | context [match k_create ?t with _ => _ end] => destruct (k_create t)
  | context [match k_link ?t with _ => _ end] => destruct (k_link t)
  | context [if ?b then _ else _] => destruct b eqn:?
  end; try done; zbool.
  repeat match goal with B : (_ || _) = false |- _ => apply orb_false_iff in B as [? ?] end.
  repeat match goal with B : negb _ = false |- _ => apply negb_false_iff in B end. zbool. by subst.
Qed.
