(* ===== verification/Mutex.v ===== *)
(** * Mutexes and condition variables (src/src/pthread_sync.c)

    The threads of a process that share one mutex, of any type, and one
    condition variable used with it. Each atomic operation of the source is
    a step; the plain accesses to the owner and the count are steps too. The
    local state of a thread holds where it is in the code, and two history
    variables: whether it has the lock word, and how many of its lock calls
    are not yet matched by an unlock. *)
From S2P Require Import Prelude Futex.

Definition EPERM : Z := 1.
Definition EBUSY : Z := 16.
Definition EDEADLK : Z := 35.
Definition INT_MAX : Z := 2147483647.

Inductive mtype := PTHREAD_MUTEX_NORMAL | PTHREAD_MUTEX_RECURSIVE | PTHREAD_MUTEX_ERRORCHECK.

#[export] Instance mtype_eq_dec : EqDecision mtype.
Proof. solve_decision. Defined.

(** __lock, __type, __owner, __count of the mutex, and __seq of the
    condition variable; [signals] counts the signals and broadcasts, [swept]
    is the number of the last broadcast that has woken the sleepers. *)
Record shared := Sh { lock : Z; typ : mtype; owner : Z; count : Z; seq : Z; signals : Z; swept : Z }.

(** The futex words. *)
Inductive word := Lock | Seq.

#[export] Instance word_eq_dec : EqDecision word.
Proof. solve_decision. Defined.

Inductive op := OLock | OUnlock | OWait | OSignal.

(** Where lock_common and pthread_mutex_unlock return to: the caller, or
    the places in cond_wait that call them. *)
Inductive cont :=
| KUser (o : op)
| KUnlocked (ts : option timespec) (s saved : Z)
| KRelocked (r : fres) (saved : Z).

Inductive pc :=
| Idle | Gone | Done (o : op) (r : Z)
| LCommon (ts : option timespec) (try : bool) (k : cont)
| ACas (ts : option timespec) (k : cont) | ASpin (ts : option timespec) (i : nat) (k : cont)
| AXchg (ts : option timespec) (k : cont) | AWait (ts : option timespec) (k : cont) | ASleep (ts : option timespec) (k : cont)
| Own1 (k : cont) | Own2 (k : cont)
| UCheck (k : cont) | UOwner (k : cont) | UCount (k : cont) | UXchg (k : cont) | UWake (k : cont)
| CWait (ts : option timespec) | CSeq (ts : option timespec) | CCount (ts : option timespec) (s : Z)
| CFutex (ts : option timespec) (s saved : Z) | CSleep (ts : option timespec) (s saved : Z)
| CRestore (r : fres) (saved : Z) | CEnd (r : fres)
| SAdd (all : bool) | SWake (all : bool) (b : Z).

Record thread := Thr { at_ : pc; own : bool; depth : Z }.

Inductive call :=
| CallLock | CallTrylock | CallTimedlock (abs : option timespec) | CallUnlock
| CallWait | CallTimedwait (abs : timespec) | CallClockwait (clk : Z) (abs : option timespec)
| CallSignal | CallBroadcast.

Inductive choice := Call (c : call) | Go | Kernel (r : Z) | Cancel.

(** ** Operations *)

Definition valid_ts (ts : option timespec) : bool := negb (ns_bad ts).

Definition pthread_mutex_init (t : mtype) : shared := Sh 0 t 0 0 0 0 0.

(** EBUSY while the mutex is locked. *)
Definition pthread_mutex_destroy (g : shared) : Z := if lock g =? 0 then 0 else EBUSY.

Definition pthread_mutexattr_settype (t : Z) (a : Z) : Z * Z :=
  if 2 <? u32 t then (EINVAL, a) else (0, t).

(** The result and the attribute's clock. *)
Definition pthread_condattr_setclock (c : Z) (a : Z) : Z * Z :=
  if negb (c =? CLOCK_REALTIME) && negb (c =? CLOCK_MONOTONIC) then (EINVAL, a) else (0, c).

(** The sequence number and the clock; the clock only selects the kernel's
    time base. *)
Definition pthread_cond_init (a : option Z) : Z * Z := (0, default CLOCK_REALTIME a).

Definition set_lock (v : Z) (g : shared) : shared := Sh v (typ g) (owner g) (count g) (seq g) (signals g) (swept g).
Definition set_owner (v : Z) (g : shared) : shared := Sh (lock g) (typ g) v (count g) (seq g) (signals g) (swept g).
Definition set_count (v : Z) (g : shared) : shared := Sh (lock g) (typ g) (owner g) v (seq g) (signals g) (swept g).

(** __self()->tid of thread [i]. *)
Definition tid (i : nat) : Z := Z.of_nat i + 1.

(** m->__type != PTHREAD_MUTEX_NORMAL, == PTHREAD_MUTEX_RECURSIVE,
    == PTHREAD_MUTEX_ERRORCHECK. *)
Definition not_normal (m : mtype) : bool := match m with PTHREAD_MUTEX_NORMAL => false | _ => true end.
Definition recursive (m : mtype) : bool := match m with PTHREAD_MUTEX_RECURSIVE => true | _ => false end.
Definition errorcheck (m : mtype) : bool := match m with PTHREAD_MUTEX_ERRORCHECK => true | _ => false end.

(** The return of lock_common or pthread_mutex_unlock. *)
Definition ret (k : cont) (r : Z) : pc :=
  match k with
  | KUser o => Done o r
  | KUnlocked ts s saved => CFutex ts s saved
  | KRelocked r saved => CRestore r saved
  end.

(** A thread takes the lock word: its own lock call, or the relock of
    cond_wait. *)
Definition got (k : cont) (d : Z) : Z := match k with KUser _ => 1 | _ => d end.

(** lock_common: the checks on the owner, then trylock or acquire. *)
Definition lock_common (i : nat) (g : shared) (ts : option timespec) (try : bool) (k : cont) (o : bool) (d : Z) : shared * thread :=
  if not_normal (typ g) && (owner g =? tid i) then
    if errorcheck (typ g) then (g, Thr (ret k EDEADLK) o d)
    else if count g =? INT_MAX then (g, Thr (ret k EAGAIN) o d)
    else (set_count (count g + 1) g, Thr (ret k 0) o (d + 1))
  else if try then
    if lock g =? 0 then (set_lock 1 g, Thr (Own1 k) true (got k d)) else (g, Thr (ret k EBUSY) o d)
  else (g, Thr (ACas ts k) o d).

Definition acquire (c : choice) (g : shared) (t : thread) : option (shared * thread) :=
  let o := own t in let d := depth t in
  match at_ t, c with
  | ACas ts k, Go =>
      Some (if lock g =? 0 then (set_lock 1 g, Thr (Own1 k) true (got k d))
            else (g, Thr (if valid_ts ts then ASpin ts 0 k else ret k EINVAL) o d))
  | ASpin ts j k, Go =>
      Some (g, Thr (if (j <? 100)%nat && negb (lock g =? 0) then ASpin ts (S j) k else AXchg ts k) o d)
  | AXchg ts k, Go =>
      Some (set_lock 2 g, if lock g =? 0 then Thr (Own1 k) true (got k d) else Thr (AWait ts k) o d)
  | AWait ts k, Go =>
      Some (g, Thr (if sec_bad ts then AXchg ts k else if lock g =? 2 then ASleep ts k else AXchg ts k) o d)
  | ASleep ts k, Kernel r =>
      if may_end ts r then
        Some (g, Thr (match __futex_timedwait r with FTimedOut => ret k ETIMEDOUT | _ => AXchg ts k end) o d)
      else None
  | _, _ => None
  end.

(** The end of lock_common: __owner = tid; __count = 1. *)
Definition own_step (i : nat) (g : shared) (t : thread) : option (shared * thread) :=
  match at_ t with
  | Own1 k => Some (set_owner (tid i) g, Thr (Own2 k) (own t) (depth t))
  | Own2 k => Some (set_count 1 g, Thr (ret k 0) (own t) (depth t))
  | _ => None
  end.

Definition pthread_mutex_unlock (i : nat) (g : shared) (t : thread) : option (shared * thread * option (word * nat)) :=
  let o := own t in let d := depth t in
  match at_ t with
  | UCheck k =>
      Some (if (lock g =? 0) || (not_normal (typ g) && negb (owner g =? tid i)) then (g, Thr (ret k EPERM) o d, None)
            else if recursive (typ g) then
              let g := set_count (count g - 1) g in
              if negb (count g =? 0) then (g, Thr (ret k 0) o (d - 1), None) else (g, Thr (UOwner k) o d, None)
            else (g, Thr (UOwner k) o d, None))
  | UOwner k => Some (set_owner 0 g, Thr (UCount k) o d, None)
  | UCount k => Some (set_count 0 g, Thr (UXchg k) o d, None)
  | UXchg k =>
      let d := match k with KUser _ => 0 | _ => d end in
      Some (set_lock 0 g, if lock g =? 2 then Thr (UWake k) false d else Thr (ret k 0) false d, None)
  | UWake k => Some (g, Thr (ret k 0) o d, Some (Lock, 1%nat))
  | _ => None
  end.

Definition cond_wait (c : choice) (i : nat) (g : shared) (t : thread) : option (shared * thread) :=
  let o := own t in let d := depth t in
  match at_ t, c with
  | CWait ts, Go =>
      Some (g, Thr (if negb (valid_ts ts) then Done OWait EINVAL
                    else if not_normal (typ g) && negb (owner g =? tid i) then Done OWait EPERM
                    else CSeq ts) o d)
  | CSeq ts, Cancel => Some (g, Thr Gone o d)
  | CSeq ts, Go => Some (g, Thr (CCount ts (seq g)) o d)
  | CCount ts s, Go => Some (set_count 1 g, Thr (UCheck (KUnlocked ts s (count g))) o d)
  | CFutex ts s saved, Go =>
      Some (g, Thr (if sec_bad ts then LCommon None false (KRelocked FOk saved)
                    else if seq g =? s then CSleep ts s saved
                    else LCommon None false (KRelocked FAgain saved)) o d)
  | CSleep ts s saved, Kernel r =>
      if may_end ts r then Some (g, Thr (LCommon None false (KRelocked (__futex_timedwait r) saved)) o d) else None
  | CRestore r saved, Go => Some (set_count saved g, Thr (CEnd r) o d)
  | CEnd FIntr, Cancel => Some (g, Thr Gone o d)
  | CEnd r, Go => Some (g, Thr (Done OWait (if decide (r = FTimedOut) then ETIMEDOUT else 0)) o d)
  | _, _ => None
  end.

(** pthread_cond_signal and pthread_cond_broadcast. *)
Definition pthread_cond_signal (g : shared) (n : nat) (t : thread) : option (shared * thread * option (word * nat)) :=
  match at_ t with
  | SAdd all =>
      Some (Sh (lock g) (typ g) (owner g) (count g) (s32 (seq g + 1)) (signals g + 1) (swept g),
            Thr (SWake all (signals g + 1)) (own t) (depth t), None)
  | SWake all b =>
      Some (if all then Sh (lock g) (typ g) (owner g) (count g) (seq g) (signals g) (swept g `max` b) else g,
            Thr (Done OSignal 0) (own t) (depth t), Some (Seq, if all then n else 1%nat))
  | _ => None
  end.

(** The next call of a thread. Unlocking or waiting with a normal mutex
    that the thread does not hold is undefined in POSIX. *)
Definition enter (c : call) (g : shared) (t : thread) : option pc :=
  let holds := not_normal (typ g) || own t in
  match c with
  | CallLock => Some (LCommon None false (KUser OLock))
  | CallTrylock => Some (LCommon None true (KUser OLock))
  | CallTimedlock abs =>
      Some (match abs with None => Done OLock EINVAL | Some _ => if valid_ts abs then LCommon abs false (KUser OLock) else Done OLock EINVAL end)
  | CallUnlock => if holds then Some (UCheck (KUser OUnlock)) else None
  | CallWait => if holds then Some (CWait None) else None
  | CallTimedwait abs => if holds then Some (CWait (Some abs)) else None
  | CallClockwait clk abs =>
      if holds then
        Some (if (negb (clk =? CLOCK_REALTIME) && negb (clk =? CLOCK_MONOTONIC)) || bool_decide (abs = None)
              then Done OWait EINVAL else CWait abs)
      else None
  | CallSignal => Some (SAdd false)
  | CallBroadcast => Some (SAdd true)
  end.

(** [n] is the number of threads. *)
Definition mstep (n : nat) (c : choice) (i : nat) (g : shared) (t : thread) : option (shared * thread * option (word * nat)) :=
  let quiet (r : option (shared * thread)) := x ← r; Some (x, None) in
  match at_ t, c with
  | Idle, Call c => l ← enter c g t; Some (g, Thr l (own t) (depth t), None)
  | Done _ _, Go => Some (g, Thr Idle (own t) (depth t), None)
  | LCommon ts try k, Go => Some (lock_common i g ts try k (own t) (depth t), None)
  | (ACas _ _ | ASpin _ _ _ | AXchg _ _ | AWait _ _ | ASleep _ _), _ => quiet (acquire c g t)
  | (Own1 _ | Own2 _), Go => quiet (own_step i g t)
  | (UCheck _ | UOwner _ | UCount _ | UXchg _ | UWake _), Go => pthread_mutex_unlock i g t
  | (CWait _ | CSeq _ | CCount _ _ | CFutex _ _ _ | CSleep _ _ _ | CRestore _ _ | CEnd _), _ => quiet (cond_wait c i g t)
  | (SAdd _ | SWake _ _), Go => pthread_cond_signal g n t
  | _, _ => None
  end.

Definition mutex_prog (n : nat) : prog shared thread word choice :=
  Prog (mstep n)
    (λ t, match at_ t with ASleep _ _ => Some Lock | CSleep _ _ _ => Some Seq | _ => None end)
    (λ t, Thr (match at_ t with
               | ASleep ts k => AXchg ts k
               | CSleep ts s saved => LCommon None false (KRelocked FOk saved)
               | l => l
               end) (own t) (depth t)).

(** ** The invariant *)

(** Places where the thread surely has the lock word, and where it surely
    does not. *)
Definition must_own (l : pc) : bool :=
  match l with
  | Own1 _ | Own2 _ | UOwner _ | UCount _ | UXchg _ | CSeq _ | CCount _ _ | UCheck (KUnlocked _ _ _) | CRestore _ _ | CEnd _ => true
  | Done OLock r => r =? 0
  | Done OWait r => (r =? 0) || (r =? ETIMEDOUT)
  | _ => false
  end.

Definition relocking (k : cont) : bool := match k with KRelocked _ _ => true | _ => false end.

Definition must_not (l : pc) : bool :=
  match l with
  | UWake _ | CFutex _ _ _ | CSleep _ _ _ => true
  | LCommon _ _ k | ACas _ k | ASpin _ _ k | AXchg _ k | AWait _ k | ASleep _ k => relocking k
  | _ => false
  end.

(** Where calls return to. *)
Definition lock_cont (ts : option timespec) (k : cont) : Prop :=
  match k with KUser o => o = OLock | KRelocked _ _ => ts = None | KUnlocked _ _ _ => False end.
Definition unlock_cont (k : cont) : Prop :=
  match k with KUser o => o = OUnlock | KUnlocked _ _ _ => True | KRelocked _ _ => False end.
Definition cont_ok (l : pc) : Prop :=
  match l with
  | LCommon ts try k => lock_cont ts k ∧ (relocking k = true → try = false)
  | ACas ts k | ASpin ts _ k | AXchg ts k | AWait ts k | ASleep ts k => lock_cont ts k
  | Own1 k | Own2 k => lock_cont None k
  | UCheck k | UOwner k | UCount k | UXchg k | UWake k => unlock_cont k
  | _ => True
  end.

(** The saved count of a thread inside cond_wait. *)
Definition saved_in (k : cont) : option Z :=
  match k with KUser _ => None | KUnlocked _ _ n | KRelocked _ n => Some n end.
Definition saved (l : pc) : option Z :=
  match l with
  | LCommon _ _ k | ACas _ k | ASpin _ _ k | AXchg _ k | AWait _ k | ASleep _ k | Own1 k | Own2 k
  | UCheck k | UOwner k | UCount k | UXchg k | UWake k => saved_in k
  | CFutex _ _ n | CSleep _ _ n | CRestore _ n => Some n
  | _ => None
  end.

(** Where the owner field is not the thread's, or the count not its depth,
    although it has the lock word. *)
Definition owner_off (l : pc) : bool := match l with Own1 _ | UCount _ | UXchg _ => true | _ => false end.
Definition count_off (l : pc) : bool :=
  match l with
  | Own1 _ | Own2 _ | UOwner _ | UCount _ | UXchg _ | CRestore _ _ | UCheck (KUnlocked _ _ _) => true
  | _ => false
  end.

(** Calls that a normal mutex's holder makes only, and the unlock inside
    cond_wait. *)
Definition needs_own (l : pc) : bool := match l with UCheck (KUser _) | CWait _ => true | _ => false end.
Definition owner_reset (l : pc) : bool := match l with UCount _ | UXchg _ => true | _ => false end.
Definition unlock_wait (l : pc) : bool := match l with UCheck (KUnlocked _ _ _) => true | _ => false end.

Record thread_ok (g : shared) (i : nat) (t : thread) : Prop := {
  t_own : must_own (at_ t) = true → own t = true;
  t_not : must_not (at_ t) = true → own t = false;
  t_cont : cont_ok (at_ t);
  t_normal : needs_own (at_ t) = true → not_normal (typ g) = false → own t = true;
  t_owner : own t = true → owner_off (at_ t) = false → owner g = tid i;
  t_count : own t = true → count_off (at_ t) = false → count g = depth t;
  t_one : unlock_wait (at_ t) = true → count g = 1;
  t_zero : owner_reset (at_ t) = true → owner g = 0;
  t_other : own t = false → owner g ≠ tid i;
  t_depth : 0 <= depth t <= INT_MAX ∧ (recursive (typ g) = false → depth t <= 1);
  t_held : own t = true → 1 <= depth t;
  t_free : own t = false → saved (at_ t) = None → depth t = 0;
  t_saved : ∀ n, saved (at_ t) = Some n → n = depth t ∧ 1 <= n;
  t_last : match at_ t with Own1 (KUser _) | Own2 (KUser _) | UOwner (KUser _) | UCount (KUser _) | UXchg (KUser _) => depth t = 1 | _ => True end;
}.

(** Sleeping on the mutex; sure to wake a sleeper, or to mark the word as
    contended. *)
Definition asleep (t : thread) : bool := match at_ t with ASleep _ _ => true | _ => false end.
Definition flight (t : thread) : bool := match at_ t with UWake _ | AXchg _ _ => true | _ => false end.

(** The sequence number that a waiter read; for the sleepers it is not
    older than the last broadcast that swept them. *)
Definition seq_ok (g : shared) (l : pc) : Prop :=
  match l with
  | CCount _ s | CFutex _ s _ | UCheck (KUnlocked _ s _) | UOwner (KUnlocked _ s _) | UCount (KUnlocked _ s _)
  | UXchg (KUnlocked _ s _) | UWake (KUnlocked _ s _) => s <= signals g
  | CSleep _ s _ => swept g <= s <= signals g
  | SWake _ b => b <= signals g
  | _ => True
  end.

Record inv (m : mtype) (c : shared * list thread) : Prop := {
  i_typ : typ c.1 = m;
  i_lock : 0 <= lock c.1 <= 2;
  i_own : cnt own c.2 = b2z (negb (lock c.1 =? 0));
  i_thr : ∀ i t, c.2 !! i = Some t → thread_ok c.1 i t;
  i_wake : 0 < cnt asleep c.2 → lock c.1 = 2 ∨ 0 < cnt flight c.2;
  i_seq : 0 <= signals c.1;
  i_cond : signals c.1 < 2 ^ 31 → (seq c.1 = signals c.1 ∧ swept c.1 <= signals c.1) ∧ ∀ i t, c.2 !! i = Some t → seq_ok c.1 (at_ t);
}.

Lemma own_lock m g ts i t : inv m (g, ts) → ts !! i = Some t → own t = true → lock g ≠ 0.
Proof.
  intros Hi Hl Ho E. pose proof (i_own _ _ Hi) as Hc. pose proof (cnt_pos own ts i t Hl Ho). cbn in Hc. rewrite E in Hc. simpl in Hc. lia.
Qed.

Lemma own_unique m g ts i j t t' :
  inv m (g, ts) → ts !! i = Some t → ts !! j = Some t' → own t = true → own t' = true → i = j.
Proof.
  intros Hi Hl Hl' Ho Ho'. pose proof (i_own _ _ Hi) as Hc. cbn in Hc.
  apply (cnt_unique own ts i j t t'); [destruct (negb _); simpl in Hc; lia | done..].
Qed.

(** What a step of another thread leaves of a thread's invariant. *)
Lemma mx_thread_frame g g' i j t :
  i ≠ j → own t = false ∨ owner g' = owner g ∧ count g' = count g → typ g' = typ g →
  owner g' = owner g ∨ owner g' = 0 ∨ owner g' = tid i → thread_ok g j t → thread_ok g' j t.
Proof.
  intros Hij Hf Ht Ho [H1 H2 H3 H4 H5 H6 H7 H0 H8 H9 H10 H11 H12 H13]. unfold tid in *.
  split; rewrite ?Ht; try done.
  - intros E. destruct Hf as [Hf|[-> _]]; [congruence | auto].
  - intros E. destruct Hf as [Hf|[_ ->]]; [congruence | auto].
  - intros E. destruct Hf as [Hf|[_ ->]]; [|auto]. rewrite H1 in Hf; [done|]. by destruct (at_ t) as [| | | | | | | | | | |[]| | | | | | | | | | | | |].
  - intros E. destruct Hf as [Hf|[-> _]]; [|auto]. rewrite H1 in Hf; [done|]. by destruct (at_ t).
  - intros E. specialize (H8 E). destruct Ho as [->|[->| ->]]; unfold tid; [done | lia | lia].
Qed.

Lemma seq_ok_mono g g' l : signals g <= signals g' → swept g' = swept g → seq_ok g l → seq_ok g' l.
Proof. intros H1 H2. destruct l as [| | | | | | | | | | |[]|[]|[]|[]|[]| | | | | | | | |]; simpl; rewrite ?H2; lia || done. Qed.

Lemma mx_inv_step m g ts i t g' t' :
  inv m (g, ts) → ts !! i = Some t → typ g' = typ g → 0 <= lock g' <= 2 →
  b2z (own t') - b2z (own t) = b2z (negb (lock g' =? 0)) - b2z (negb (lock g =? 0)) →
  thread_ok g' i t' →
  (own t = true ∧ (owner g' = owner g ∨ owner g' = 0 ∨ owner g' = tid i)) ∨ (owner g' = owner g ∧ count g' = count g) →
  (asleep t' = true → asleep t = true ∨ lock g' = 2) →
  lock g' = 2 ∨ flight t' = true ∨ ((lock g = 2 → lock g' = 2) ∧ flight t = false) →
  signals g <= signals g' → swept g' = swept g →
  (signals g' < 2 ^ 31 → seq g = signals g → seq g' = signals g') →
  (signals g' < 2 ^ 31 → seq g = signals g → swept g <= signals g → seq_ok g (at_ t) → seq_ok g' (at_ t')) →
  inv m (g', <[i := t']> ts).
Proof.
  intros Hi Hl Ht Hlk Ho Hok Hfr Ha Hfl Hsg Hsw Hseq Hsq.
  assert (∀ j t0, ts !! j = Some t0 → i ≠ j → own t = true → own t0 = false) as Hun.
  { intros j t0 Hj Hne Ho'. destruct (own t0) eqn:E; [|done]. by destruct (Hne (own_unique m g ts i j t t0 Hi Hl Hj Ho' E)). }
  destruct Hi as [H1 H2 H3 H4 H5 H6 H7]. cbn [fst snd] in *.
  split; cbn [fst snd]; [by rewrite Ht | done | | | | lia |].
  - rewrite (cnt_insert _ _ _ t) by done. lia.
  - intros j t0. rewrite list_lookup_insert_Some. intros [(-> & <- & _)|[Hne Hj]]; [done|].
    apply (mx_thread_frame g g' i); auto; destruct Hfr as [[Hown Hr]|[E1 E2]]; eauto.
  - by apply (flight_step 2 asleep flight ts i t t' (lock g)).
  - intros Hs. destruct H7 as [[E7 E8] H7]; [lia|]. split; [split; [auto | lia]|].
    apply (forall_insert (λ _ t, seq_ok g' (at_ t))); [|eauto]. intros j t0 Hj. eapply seq_ok_mono; eauto.
Qed.

#[local] Arguments ns_bad : simpl never.
#[local] Arguments sec_bad : simpl never.
#[local] Arguments __futex_timedwait : simpl never.
#[local] Arguments tid : simpl never.

Ltac fields H :=
  let H1 := fresh "Ho" in let H2 := fresh "Hn" in let H3 := fresh "Hk" in let H4 := fresh "Hnm" in
  let H5 := fresh "How" in let H6 := fresh "Hct" in let H7 := fresh "Hon" in let H0 := fresh "Hz" in let H8 := fresh "Hot" in
  let H9 := fresh "Hd" in let H10 := fresh "Hh" in let H11 := fresh "Hf" in let H12 := fresh "Hs" in let H13 := fresh "Hl1" in
  destruct H as [H1 H2 H3 H4 H5 H6 H7 H0 H8 H9 H10 H11 H12 H13]; cbn in H1, H2, H3, H4, H5, H6, H7, H0, H8, H9, H10, H11, H12, H13.

(** Splits the tests of a step and closes the easy side conditions. *)
Ltac tests H :=
  repeat match type of H with context [if ?b then _ else _] => destruct b eqn:? end; try discriminate H;
  injection H as <- <-; rewrite ?andb_true_iff, ?andb_false_iff, ?orb_true_iff, ?orb_false_iff, ?negb_true_iff, ?negb_false_iff in *; zbool.

Ltac side := cbn in *; try done; try lia; try tauto.

Ltac word_side := repeat match goal with
  | |- context [?a =? ?b] => destruct (Z.eqb_spec a b) end; cbn in *; done || lia || tauto || idtac.

(** The conditions on one thread, from those before the step. *)
Ltac thread_side Hok :=
  fields Hok; try match goal with H : ∀ n, Some ?x = Some n → _ |- _ => destruct (H x eq_refl) end;
  split; cbn in *; intros; try discriminate; try done; try tauto; simplify_eq; try lia; auto with lia.

Section Steps.
Context (m : mtype) (g : shared) (ts : list thread) (i : nat) (Hi : inv m (g, ts)).

Lemma lock_common_ok tm try k o d g' t' :
  ts !! i = Some (Thr (LCommon tm try k) o d) → lock_common i g tm try k o d = (g', t') → inv m (g', <[i := t']> ts).
Proof using Hi.
  intros Hl Hst. pose proof (i_thr _ _ Hi i _ Hl) as Hok. pose proof (own_lock _ _ _ _ _ Hi Hl) as Hlk.
  pose proof (i_lock _ _ Hi) as Hr. pose proof (i_typ _ _ Hi) as Ht. cbn in Hlk, Hr, Ht.
  assert (owner g = tid i → o = true) as Hto.
  { destruct o; [done|]. intros E. by destruct (t_other _ _ _ Hok eq_refl). }
  assert (o = true → relocking k = false) as Hnr.
  { intros ->. destruct (relocking k) eqn:E; [|done]. by apply (t_not _ _ _ Hok) in E. }
  assert (recursive m = false → errorcheck m = false → not_normal m = false) as Hty by by destruct m.
  unfold lock_common in Hst. destruct (t_cont _ _ _ Hok) as [Hc Htry]. rewrite Ht in *.
  destruct k as [op| |r sv]; cbn in Hc, Htry; [subst op | done | ].
  - destruct o; tests Hst.
    all: apply (mx_inv_step m g ts i _ _ _ Hi Hl); side; word_side.
    all: try (thread_side Hok).
    destruct Heqb as [E _]. specialize (Hct eq_refl eq_refl). split; [lia|]. intros R. rewrite (Hty R) in E by done. discriminate E.
  - destruct o; [by specialize (Hnr eq_refl)|]; tests Hst.
    all: apply (mx_inv_step m g ts i _ _ _ Hi Hl); side; word_side.
    all: try (thread_side Hok).
Qed.

Lemma no_timeout r : may_end None r = true → __futex_timedwait r ≠ FTimedOut.
Proof.
  unfold may_end, __futex_timedwait. rewrite !orb_true_iff, andb_true_iff. zbool. intros [[->| ->]|[_ H]]; [done | done|].
  by apply bool_decide_eq_true_1, is_Some_None in H.
Qed.

Lemma acquire_ok c l o d g' t' :
  ts !! i = Some (Thr l o d) → acquire c g (Thr l o d) = Some (g', t') → inv m (g', <[i := t']> ts).
Proof using Hi.
  intros Hl Hst. pose proof (i_thr _ _ Hi i _ Hl) as Hok. pose proof (own_lock _ _ _ _ _ Hi Hl) as Hlk.
  pose proof (i_lock _ _ Hi) as Hr. pose proof (i_typ _ _ Hi) as Ht. cbn in Hlk, Hr, Ht.
  unfold acquire in Hst. cbn [at_ own depth] in Hst. pose proof (t_cont _ _ _ Hok) as Hc. pose proof (t_not _ _ _ Hok) as Hn.
  destruct l as [| | | |tm k|tm j k|tm k|tm k|tm k| | | | | | | | | | | | | | | |], c; try discriminate Hst;
    cbn in Hc, Hn; destruct k as [op| |fr sv]; cbn in Hc, Hn; try done; subst.
  all: destruct o; [try discriminate (Hn eq_refl)|];
    try (destruct (__futex_timedwait r) eqn:Er; try (destruct (may_end None r) eqn:Em; [by destruct (no_timeout r Em)|done])); tests Hst.
  all: apply (mx_inv_step _ g ts i _ _ _ Hi Hl); side; word_side.
  all: try (thread_side Hok).
Qed.

Lemma own_step_ok l o d g' t' :
  ts !! i = Some (Thr l o d) → own_step i g (Thr l o d) = Some (g', t') → inv m (g', <[i := t']> ts).
Proof using Hi.
  intros Hl Hst. pose proof (i_thr _ _ Hi i _ Hl) as Hok. pose proof (own_lock _ _ _ _ _ Hi Hl) as Hlk.
  pose proof (i_lock _ _ Hi) as Hr. cbn in Hlk, Hr.
  pose proof (t_cont _ _ _ Hok) as Hc. pose proof (t_own _ _ _ Hok) as Ho. unfold own_step in Hst. cbn [at_ own depth] in Hst.
  destruct l as [| | | | | | | | |k|k| | | | | | | | | | | | | |]; try discriminate Hst; injection Hst as <- <-;
    cbn in Ho; specialize (Ho eq_refl); subst o; destruct k as [op| |fr sv]; cbn in Hc; try done; subst.
  all: apply (mx_inv_step _ g ts i _ _ _ Hi Hl); side; word_side.
  all: try (thread_side Hok).
Qed.

Lemma unlock_check_ok k o d g' t' :
  ts !! i = Some (Thr (UCheck k) o d) → pthread_mutex_unlock i g (Thr (UCheck k) o d) = Some (g', t', None) →
  inv m (g', <[i := t']> ts).
Proof using Hi.
  intros Hl Hst. pose proof (i_thr _ _ Hi i _ Hl) as Hok. pose proof (own_lock _ _ _ _ _ Hi Hl) as Hlk.
  pose proof (i_lock _ _ Hi) as Hr. pose proof (i_typ _ _ Hi) as Ht. cbn in Hlk, Hr, Ht.
  pose proof (t_cont _ _ _ Hok) as Hc. pose proof (t_own _ _ _ Hok) as Ho. pose proof (t_normal _ _ _ Hok) as Hn.
  pose proof (t_owner _ _ _ Hok) as How'. cbn in Hc, Ho, Hn, How'.
  unfold pthread_mutex_unlock in Hst. cbn [at_ own depth] in Hst.
  destruct (_ || _) eqn:B in Hst.
  - destruct k as [op|tm s sv|]; cbn in Hc, Ho; [subst op | | done].
    + injection Hst as <- <-. apply (mx_inv_step _ g ts i _ _ _ Hi Hl); side. thread_side Hok.
    + exfalso. specialize (Ho eq_refl). subst o. rewrite orb_true_iff, andb_true_iff, negb_true_iff in B. zbool.
      destruct B as [B|[_ B]]; [by apply Hlk | by apply B, How'].
  - assert (o = true) as ->.
    { destruct o; [done|]. rewrite orb_false_iff, andb_false_iff, negb_false_iff in B. zbool. destruct B as [_ [B|B]].
      - destruct k as [op|tm s sv|]; cbn in *; [by apply Hn | by apply Ho | done].
      - by destruct (t_other _ _ _ Hok eq_refl). }
    cbn in Hst. destruct k as [op|tm s sv|]; cbn in Hc; [subst op | | done]; tests Hst.
    all: apply (mx_inv_step _ g ts i _ _ _ Hi Hl); side; word_side.
    all: try (thread_side Hok).
    all: specialize (Hct eq_refl eq_refl); specialize (Hh eq_refl); destruct Hd as [Hd1 Hd2], (recursive (typ g));
      try discriminate; first [specialize (Hd2 eq_refl); lia | split; [lia | discriminate] | lia].
Qed.

Lemma unlock_ok l o d g' t' :
  ts !! i = Some (Thr l o d) → pthread_mutex_unlock i g (Thr l o d) = Some (g', t', None) → inv m (g', <[i := t']> ts).
Proof using Hi.
  intros Hl Hst. pose proof (i_thr _ _ Hi i _ Hl) as Hok. pose proof (own_lock _ _ _ _ _ Hi Hl) as Hlk.
  pose proof (i_lock _ _ Hi) as Hr. cbn in Hlk, Hr.
  pose proof (t_cont _ _ _ Hok) as Hc. pose proof (t_own _ _ _ Hok) as Ho.
  destruct l as [| | | | | | | | | | |k|k|k|k|k| | | | | | | | |]; try discriminate Hst; [by apply (unlock_check_ok k o d)|..];
    unfold pthread_mutex_unlock in Hst; cbn [at_ own depth] in Hst;
    cbn in Hc, Ho; destruct k as [op|tm s sv|]; cbn in Hc; try done; subst; specialize (Ho eq_refl); subst o; tests Hst.
  all: apply (mx_inv_step _ g ts i _ _ _ Hi Hl); side; word_side.
  all: try (thread_side Hok).
  all: rewrite Hz by done; unfold tid; lia.
Qed.

Lemma cond_wait_ok c l o d g' t' :
  ts !! i = Some (Thr l o d) → cond_wait c i g (Thr l o d) = Some (g', t') → inv m (g', <[i := t']> ts).
Proof using Hi.
  intros Hl Hst. pose proof (i_thr _ _ Hi i _ Hl) as Hok. pose proof (own_lock _ _ _ _ _ Hi Hl) as Hlk.
  pose proof (i_lock _ _ Hi) as Hr. pose proof (i_seq _ _ Hi) as Hsg. cbn in Hlk, Hr, Hsg.
  pose proof (t_own _ _ _ Hok) as Ho. pose proof (t_not _ _ _ Hok) as Hn. pose proof (t_normal _ _ _ Hok) as Hnm'.
  assert (owner g = tid i → o = true) as Hto.
  { destruct o; [done|]. intros E. by destruct (t_other _ _ _ Hok eq_refl). }
  unfold cond_wait in Hst. cbn [at_ own depth] in Hst.
  destruct l as [| | | | | | | | | | | | | | | |tm|tm|tm s|tm s sv|tm s sv|fr sv|fr| |], c; try discriminate Hst;
    cbn in Ho, Hn, Hnm'; try (specialize (Ho eq_refl); subst o); try (specialize (Hn eq_refl); subst o);
    try (destruct fr; try discriminate Hst; cbn in Hst); tests Hst.
  all: apply (mx_inv_step _ g ts i _ _ _ Hi Hl); side; word_side.
  all: try (thread_side Hok).
Qed.

Lemma signal_ok n l o d g' t' :
  ts !! i = Some (Thr l o d) → pthread_cond_signal g n (Thr l o d) = Some (g', t', None) → inv m (g', <[i := t']> ts).
Proof using Hi.
  intros Hl Hst. pose proof (i_thr _ _ Hi i _ Hl) as Hok. pose proof (i_lock _ _ Hi) as Hr.
  pose proof (i_seq _ _ Hi) as Hsg. cbn in Hr, Hsg.
  unfold pthread_cond_signal in Hst. cbn [at_ own depth] in Hst. destruct l; try discriminate Hst. injection Hst as <- <-.
  apply (mx_inv_step _ g ts i _ _ _ Hi Hl); side; [thread_side Hok | intros Hs ->; apply swrap_small; lia].
Qed.

Lemma enter_ok c o d l' :
  ts !! i = Some (Thr Idle o d) → enter c g (Thr Idle o d) = Some l' → inv m (g, <[i := Thr l' o d]> ts).
Proof using Hi.
  intros Hl Hst. pose proof (i_thr _ _ Hi i _ Hl) as Hok. pose proof (i_lock _ _ Hi) as Hr. cbn in Hr.
  destruct c; cbn in Hst.
  all: repeat match type of Hst with context [if ?b then _ else _] => destruct b eqn:? end; try discriminate Hst.
  all: try match type of Hst with context [match ?x with _ => _ end] => destruct x end.
  all: injection Hst as <-; apply (mx_inv_step _ g ts i _ _ _ Hi Hl); side; fields Hok; split; cbn; auto; try done.
  all: intros _ E; rewrite E in *; done.
Qed.

Lemma idle_ok op r o d : ts !! i = Some (Thr (Done op r) o d) → inv m (g, <[i := Thr Idle o d]> ts).
Proof using Hi.
  intros Hl. pose proof (i_thr _ _ Hi i _ Hl) as Hok. pose proof (i_lock _ _ Hi) as Hr. cbn in Hr.
  apply (mx_inv_step _ g ts i _ _ _ Hi Hl); side. thread_side Hok.
Qed.

Lemma mx_quiet_ok n c t g' t' :
  ts !! i = Some t → mstep n c i g t = Some (g', t', None) → inv m (g', <[i := t']> ts).
Proof using Hi.
  intros Hl Hst. destruct t as [l o d]. unfold mstep in Hst. cbn [own at_ depth] in Hst.
  assert (∀ r, (r ≫= λ x : shared * thread, Some (x, @None (word * nat))) = Some (g', t', None) → r = Some (g', t')) as Hq.
  { intros [[g0 t0]|]; [|done]. cbn. by injection 1 as <- <-. }
  destruct l; try (by apply Hq in Hst; eauto using acquire_ok, cond_wait_ok); destruct c; try discriminate Hst.
  - destruct (enter _ _ _) eqn:E; [|done]. cbn in Hst. injection Hst as <- <-. eauto using enter_ok.
  - injection Hst as <- <-. eauto using idle_ok.
  - injection Hst as E. eauto using lock_common_ok.
  - apply Hq in Hst. eauto using own_step_ok.
  - apply Hq in Hst. eauto using own_step_ok.
  - eauto using unlock_ok.
  - eauto using unlock_ok.
  - eauto using unlock_ok.
  - eauto using unlock_ok.
  - eauto using signal_ok.
Qed.
End Steps.

(** *** Wakes *)

Lemma thread_ok_eq g g' i t :
  typ g' = typ g → owner g' = owner g → count g' = count g → thread_ok g i t → thread_ok g' i t.
Proof. intros E1 E2 E3 []. split; rewrite ?E1, ?E2, ?E3; done. Qed.

Lemma mx_wakeup_ok n a g i t : sleeps (mutex_prog n) t = Some a → thread_ok g i t → thread_ok g i (wakeup (mutex_prog n) t).
Proof.
  destruct t as [l o d]. destruct l; cbn; try done; intros _ Hok; pose proof (t_not _ _ _ Hok) as Hn; cbn in Hn.
  - thread_side Hok.
  - specialize (Hn eq_refl). subst o. thread_side Hok.
Qed.

Lemma inv_wakes m n g g' ts i t t' a ws ts' :
  inv m (g, ts) → ts !! i = Some t → own t' = own t → thread_ok g i t' →
  lock g' = lock g → typ g' = typ g → owner g' = owner g → count g' = count g → seq g' = seq g → signals g' = signals g →
  (signals g < 2 ^ 31 → swept g' <= signals g') → wake_list (mutex_prog n) a ws (<[i := t']> ts) = Some ts' →
  (0 < cnt asleep ts' → lock g = 2 ∨ 0 < cnt flight ts') →
  (signals g < 2 ^ 31 → ∀ j u, ts' !! j = Some u → seq_ok g' (at_ u)) → inv m (g', ts').
Proof.
  intros [H1 H2 H3 H4 H5 H6 H7] Hl Ho Hok E1 E2 E3 E4 E5 E6 Hsw Hw Hfl Hsq. cbn [fst snd] in *.
  split; cbn [fst snd]; rewrite ?E1, ?E2, ?E5, ?E6; [done | done | | | done | lia |].
  - rewrite (cnt_wake (mutex_prog n) own 0 a ws _ _ ltac:(intros; cbn; lia) Hw), (cnt_insert _ _ _ t) by done. rewrite Ho. lia.
  - intros j u Hj. apply (thread_ok_eq g); [done..|]. revert j u Hj.
    apply (forall_wake (mutex_prog n) (thread_ok g) a ws (<[i := t']> ts)); [apply mx_wakeup_ok| |done]. by apply forall_insert.
  - intros Hs. destruct (H7 Hs) as [[-> _] _]. rewrite <- E6. split; [split; [done | by apply Hsw] | by apply Hsq].
Qed.

Lemma inv_unlock_wake m n g ts i k o d ws ts' :
  inv m (g, ts) → ts !! i = Some (Thr (UWake k) o d) →
  wake_list (mutex_prog n) Lock ws (<[i := Thr (ret k 0) o d]> ts) = Some ts' →
  (length ws <= 1)%nat → length ws = 1%nat ∨ cnt (sleeps_on (mutex_prog n) Lock) ts' = 0 → inv m (g, ts').
Proof.
  intros Hi Hl Hw Hn Hd. pose proof (i_thr _ _ Hi i _ Hl) as Hok. pose proof (t_cont _ _ _ Hok) as Hc. pose proof (t_not _ _ _ Hok) as Hnot.
  cbn in Hc, Hnot. specialize (Hnot eq_refl). subst o.
  assert (asleep (Thr (ret k 0) false d) = false ∧ flight (Thr (ret k 0) false d) = false) as [Ea Ef] by (destruct k; done).
  assert (cnt (sleeps_on (mutex_prog n) Lock) ts' = cnt asleep ts') as Es.
  { apply Z.le_antisymm; apply cnt_le; intros [[] ? ?] _; done. }
  apply (inv_wakes m n g g ts i (Thr (UWake k) false d) (Thr (ret k 0) false d) Lock ws ts'); try done.
  - destruct k; cbn in Hc; try done; subst; thread_side Hok.
  - intros Hs. apply (i_cond _ _ Hi Hs).
  - assert (cnt asleep ts' = cnt asleep ts - length ws) as E1.
    { rewrite (cnt_wake (mutex_prog n) asleep (-1) Lock ws _ _ ltac:(intros [[] ? ?]; done) Hw), (cnt_insert _ _ _ _ _ Hl), Ea. cbn. lia. }
    assert (cnt flight ts' = cnt flight ts - 1 + length ws) as E2.
    { rewrite (cnt_wake (mutex_prog n) flight 1 Lock ws _ _ ltac:(intros [[] ? ?]; done) Hw), (cnt_insert _ _ _ _ _ Hl), Ef. cbn. lia. }
    pose proof (cnt_pos flight ts i _ Hl eq_refl). pose proof (cnt_nonneg asleep ts'). lia.
  - intros Hs. destruct (i_cond _ _ Hi Hs) as [_ Hsq]. cbn in Hsq.
    apply (forall_wake (mutex_prog n) (λ _ u, seq_ok g (at_ u)) Lock ws (<[i := Thr (ret k 0) false d]> ts)); [|intros j u|done].
    + intros j [[] ? ?]; done.
    + apply (forall_insert (λ _ u, seq_ok g (at_ u)) ts i); [done|]. specialize (Hsq i _ Hl). destruct k; cbn in *; done.
Qed.

Definition parked (t : thread) : bool := match at_ t with CSleep _ _ _ => true | _ => false end.

Lemma inv_signal_wake m n g ts i (all : bool) b o d ws ts' g' :
  g' = (if all then Sh (lock g) (typ g) (owner g) (count g) (seq g) (signals g) (swept g `max` b) else g) →
  n = length ts → inv m (g, ts) → ts !! i = Some (Thr (SWake all b) o d) →
  wake_list (mutex_prog n) Seq ws (<[i := Thr (Done OSignal 0) o d]> ts) = Some ts' →
  (all = true → length ws = n ∨ cnt (sleeps_on (mutex_prog n) Seq) ts' = 0) → inv m (g', ts').
Proof.
  intros Hg Hn Hi Hl Hw Hd. pose proof (i_thr _ _ Hi i _ Hl) as Hok.
  assert (cnt (sleeps_on (mutex_prog n) Seq) ts' = cnt parked ts') as Es.
  { apply Z.le_antisymm; apply cnt_le; intros [[] ? ?] _; done. }
  assert (∀ P, (∀ t, sleeps (mutex_prog n) t = Some Seq → b2z (P (wakeup (mutex_prog n) t)) = b2z (P t) + 0) →
    P (Thr (SWake all b) o d) = P (Thr (Done OSignal 0) o d) → cnt P ts' = cnt P ts) as Hcnt.
  { intros P HP E. rewrite (cnt_wake (mutex_prog n) P 0 Seq ws _ _ HP Hw), (cnt_insert _ _ _ _ _ Hl), E. lia. }
  apply (inv_wakes m n g g' ts i (Thr (SWake all b) o d) (Thr (Done OSignal 0) o d) Seq ws ts'); try done;
    try (subst g'; by destruct all).
  - thread_side Hok.
  - intros Hsg. destruct (i_cond _ _ Hi Hsg) as [[_ Hsw] Hsq]. pose proof (Hsq i _ Hl) as Hb. cbn in Hsw, Hb.
    subst g'. destruct all; cbn; lia.
  - rewrite (Hcnt asleep), (Hcnt flight) by (done || intros [[] ? ?]; done). apply (i_wake _ _ Hi).
  - intros Hsg j u Hj. destruct (i_cond _ _ Hi Hsg) as [_ Hsq]. pose proof (Hsq i _ Hl) as Hb. cbn in Hsq, Hb. destruct all.
    + assert (parked u = false) as Hp.
      { destruct (parked u) eqn:E; [|done]. pose proof (cnt_pos parked ts' j u Hj E).
        assert (cnt parked ts' = cnt parked ts - length ws) as E1.
        { rewrite (cnt_wake (mutex_prog n) parked (-1) Seq ws _ _ ltac:(intros [[] ? ?]; done) Hw), (cnt_insert _ _ _ _ _ Hl). cbn. lia. }
        pose proof (cnt_length parked ts). destruct (Hd eq_refl); lia. }
      assert (seq_ok g (at_ u)) as Hu.
      { clear Hp. revert j u Hj. apply (forall_wake (mutex_prog n) (λ _ u, seq_ok g (at_ u)) Seq ws (<[i := Thr (Done OSignal 0) o d]> ts));
          [by intros j [[] ? ?] | by apply (forall_insert (λ _ u, seq_ok g (at_ u)) ts i) | done]. }
      subst g'. destruct u as [[| | | | | | | | | | |[]|[]|[]|[]|[]| | | | | | | | |] ? ?]; cbn in *; try done; lia.
    + subst g'. revert j u Hj. apply (forall_wake (mutex_prog n) (λ _ u, seq_ok g (at_ u)) Seq ws (<[i := Thr (Done OSignal 0) o d]> ts));
        [by intros j [[] ? ?] | by apply (forall_insert (λ _ u, seq_ok g (at_ u)) ts i) | done].
Qed.

Lemma mx_inv_cstep m n g ts e g' ts' :
  n = length ts → inv m (g, ts) → cstep (mutex_prog n) (g, ts) e = Some (g', ts') → inv m (g', ts').
Proof.
  destruct e as [[i ch] ws]. intros Hn Hi Hs.
  destruct (cstep_inv _ _ _ _ _ _ _ Hs) as (t & g1 & t' & wk & ts1 & Hl & Hst & E & Hwk). injection E as -> ->. clear Hs.
  destruct wk as [[a k]|]; [|subst; by apply (mx_quiet_ok m g ts i Hi _ _ _ _ _ Hl Hst)].
  destruct Hwk as (Hw & Hk & Hd). destruct t as [l o d]. cbn in Hst. unfold mstep in Hst. cbn [at_ own depth] in Hst.
  assert (∀ r, (r ≫= λ x : shared * thread, Some (x, @None (word * nat))) = Some (g1, t', Some (a, k)) → False) as Hq by by intros [[]|].
  destruct l; try (by destruct (Hq _ Hst)); destruct ch; try discriminate Hst; try (by destruct (Hq _ Hst)).
  - destruct (enter _ _ _); discriminate Hst.
  - cbn in Hst. repeat (case_match; try discriminate Hst).
  - cbn in Hst. injection Hst as <- <- <- <-. by apply (inv_unlock_wake m n g ts i k0 o d ws).
  - cbn in Hst. injection Hst as <- <- <- <-. apply (inv_signal_wake m n g ts i all b o d ws); try done.
    by intros ->.
Qed.

Definition fresh : thread := Thr Idle false 0.

Lemma mx_inv_init m n : inv m (pthread_mutex_init m, replicate n fresh).
Proof.
  split; cbn; rewrite ?cnt_replicate by done; try done; try lia.
  - intros i t. rewrite lookup_replicate. intros [-> _]. split; cbn; try done. unfold tid. lia.
  - intros _. split; [done|]. intros i t. rewrite lookup_replicate. by intros [-> _].
Qed.

Lemma mx_reach_inv m n g ts :
  reachable (mutex_prog n) (pthread_mutex_init m, replicate n fresh) (g, ts) → inv m (g, ts) ∧ length ts = n.
Proof.
  apply (reachable_inv _ (λ c, inv m c ∧ length c.2 = n)).
  - intros [g0 ts0] e [g1 ts1] [Hi Hl] Hs. cbn in Hl. split; [by apply (mx_inv_cstep m n g0 ts0 e) in Hs|].
    cbn. by rewrite (cstep_length _ _ _ _ _ _ Hs).
  - split; [apply mx_inv_init | cbn; apply length_replicate].
Qed.

(** Not in a call, or asleep. *)
Definition at_rest (t : thread) : bool :=
  match at_ t with Idle | Gone | Done _ _ | ASleep _ _ | CSleep _ _ _ => true | _ => false end.

(** ** Properties *)


(** *** Witnesses *)

(** Thread 0 locks, thread 1 spins and sleeps, thread 0 unlocks and wakes it,
    and thread 1 returns with the mutex. *)
Definition handover : list (event (Ch := choice)) :=
  let go i k := replicate k (i, Go, []) in
  [(0%nat, Call CallLock, [])] ++ go 0%nat 4%nat ++ [(1%nat, Call CallLock, [])] ++ go 1%nat 105%nat ++
  go 0%nat 1%nat ++ [(0%nat, Call CallUnlock, [])] ++ go 0%nat 4%nat ++ [(0%nat, Go, [1%nat])] ++ go 1%nat 3%nat.

