(* ===== verification/Rwlock.v ===== *)
(** * Reader-writer locks (src/src/pthread_sync.c)

    The threads that share one reader-writer lock. The local state holds
    the place in the code and, as history, how many read locks and whether
    the write lock the thread has. *)
From S2P Require Import Prelude Futex.

Definition EPERM : Z := 1.
Definition EBUSY : Z := 16.
Definition EDEADLK : Z := 35.
Definition INT_MAX : Z := 2147483647.

(** __lock, __writer, __wwait and __seq; [unlocks] counts the increments of
    the sequence number. *)
Record rwlock := Rw { lock : Z; writer : Z; wwait : Z; seq : Z; unlocks : Z }.

Inductive op := ORead | OWrite | OUnlock.

(** [k] is where rw_try returns to: the caller of a try function, or rw_lock
    with the sequence number it read. *)
Inductive pc :=
| Idle | Done (o : op) (r : Z)
| LCheck
| LSeq (w : bool)
| TLoad (w : bool) (k : option Z) | TCas (w : bool) (k : option Z) (s : Z) | TWriter
| LAdd (w : bool) (s : Z) | LFutex (w : bool) (s : Z) | LSleep (w : bool) (s : Z) | LSub (w : bool)
| ULoad | UWriter | UStore | USub | USeq | UWait | UWake.

Record thread := Thr { at_ : pc; rd : Z; wr : bool }.

Inductive call := Rdlock | Wrlock | Tryrdlock | Trywrlock | Unlock.

(** [Spurious]: the weak compare-exchange fails although the value is the
    expected one. *)
Inductive choice := Call (c : call) | Go | Spurious | Kernel (r : Z).

(** ** Operations *)

Definition pthread_rwlock_init : rwlock := Rw 0 0 0 0 0.

Definition pthread_rwlock_destroy (g : rwlock) : Z := if lock g =? 0 then 0 else EBUSY.

Definition tid (i : nat) : Z := Z.of_nat i + 1.

Definition set_lock (v : Z) (g : rwlock) : rwlock := Rw v (writer g) (wwait g) (seq g) (unlocks g).
Definition set_writer (v : Z) (g : rwlock) : rwlock := Rw (lock g) v (wwait g) (seq g) (unlocks g).
Definition set_wwait (v : Z) (g : rwlock) : rwlock := Rw (lock g) (writer g) v (seq g) (unlocks g).

Definition op_of (w : bool) : op := if w then OWrite else ORead.

(** The return of rw_try: rw_lock goes on waiting after EBUSY. *)
Definition try_ret (w : bool) (k : option Z) (r : Z) : pc :=
  match k with
  | None => Done (op_of w) r
  | Some s => if r =? EBUSY then LAdd w s else Done (op_of w) r
  end.

(** rw_try with [s] loaded: the test, and the weak compare-exchange. *)
Definition rw_try (spurious : bool) (g : rwlock) (t : thread) (w : bool) (k : option Z) (s : Z) : rwlock * thread :=
  if (if w then negb (s =? 0) else (s <? 0) || (s =? INT_MAX)) then
    (g, Thr (try_ret w k (if s =? INT_MAX then EAGAIN else EBUSY)) (rd t) (wr t))
  else if (lock g =? s) && negb spurious then
    if w then (set_lock (-1) g, Thr TWriter (rd t) true) else (set_lock (s + 1) g, Thr (try_ret w k 0) (rd t + 1) (wr t))
  else (g, Thr (TCas w k (lock g)) (rd t) (wr t)).

Definition rw_lock (c : choice) (i : nat) (g : rwlock) (t : thread) : option (rwlock * thread) :=
  let at_pc l := Thr l (rd t) (wr t) in
  match at_ t, c with
  | LCheck, Go => Some (g, at_pc (if (writer g =? tid i) && (lock g <? 0) then Done OWrite EDEADLK else LSeq true))
  | LSeq w, Go => Some (g, at_pc (TLoad w (Some (seq g))))
  | LAdd w s, Go => Some (set_wwait (s32 (wwait g + 1)) g, at_pc (LFutex w s))
  | LFutex w s, Go => Some (g, at_pc (if seq g =? s then LSleep w s else LSub w))
  | LSleep w s, Kernel r => if may_end None r then Some (g, at_pc (LSub w)) else None
  | LSub w, Go => Some (set_wwait (s32 (wwait g - 1)) g, at_pc (LSeq w))
  | _, _ => None
  end.

Definition pthread_rwlock_unlock (i : nat) (g : rwlock) (n : nat) (t : thread) : option (rwlock * thread * option (unit * nat)) :=
  let at_pc l := Thr l (rd t) (wr t) in
  match at_ t with
  | ULoad =>
      Some (g, at_pc (if lock g =? 0 then Done OUnlock EPERM
                      else if lock g <? 0 then (if negb (writer g =? tid i) then Done OUnlock EPERM else UWriter)
                      else USub), None)
  | UWriter => Some (set_writer 0 g, at_pc UStore, None)
  | UStore => Some (set_lock 0 g, Thr USeq (rd t) false, None)
  | USub => Some (set_lock (s32 (lock g - 1)) g, Thr (if negb (s32 (lock g - 1) =? 0) then Done OUnlock 0 else USeq) (rd t - 1) (wr t), None)
  | USeq => Some (Rw (lock g) (writer g) (wwait g) (s32 (seq g + 1)) (unlocks g + 1), at_pc UWait, None)
  | UWait => Some (g, at_pc (if wwait g =? 0 then Done OUnlock 0 else UWake), None)
  | UWake => Some (g, at_pc (Done OUnlock 0), Some (tt, n))
  | _ => None
  end.

(** The next call; unlocking a lock that the thread does not have is
    undefined in POSIX. *)
Definition enter (c : call) (t : thread) : option pc :=
  match c with
  | Rdlock => Some (LSeq false)
  | Wrlock => Some LCheck
  | Tryrdlock => Some (TLoad false None)
  | Trywrlock => Some (TLoad true None)
  | Unlock => if (0 <? rd t) || wr t then Some ULoad else None
  end.

(** [n] is the number of threads: a wake of INT_MAX threads wakes all. *)
Definition rstep (n : nat) (c : choice) (i : nat) (g : rwlock) (t : thread) : option (rwlock * thread * option (unit * nat)) :=
  match at_ t, c with
  | Idle, Call c => l ← enter c t; Some (g, Thr l (rd t) (wr t), None)
  | Done _ _, Go => Some (g, Thr Idle (rd t) (wr t), None)
  | TLoad w k, Go => Some (g, Thr (TCas w k (lock g)) (rd t) (wr t), None)
  | TCas w k s, Go => Some (rw_try false g t w k s, None)
  | TCas w k s, Spurious => Some (rw_try true g t w k s, None)
  | TWriter, Go => Some (set_writer (tid i) g, Thr (Done OWrite 0) (rd t) (wr t), None)
  | (LCheck | LSeq _ | LAdd _ _ | LFutex _ _ | LSleep _ _ | LSub _), _ => r ← rw_lock c i g t; Some (r, None)
  | (ULoad | UWriter | UStore | USub | USeq | UWait | UWake), Go => pthread_rwlock_unlock i g n t
  | _, _ => None
  end.

Definition rw_prog (n : nat) : prog rwlock thread unit choice :=
  Prog (rstep n) (λ t, match at_ t with LSleep _ _ => Some tt | _ => None end)
       (λ t, Thr (match at_ t with LSleep w _ => LSub w | l => l end) (rd t) (wr t)).

(** ** The invariant *)

Definition asleep (t : thread) : bool := match at_ t with LSleep _ _ => true | _ => false end.
(** Counted in __wwait. *)
Definition registered (t : thread) : bool := match at_ t with LFutex _ _ | LSleep _ _ | LSub _ => true | _ => false end.
(** Has released the lock and not yet incremented the sequence number; has
    incremented it and not yet woken the sleepers. *)
Definition before_seq (t : thread) : bool := match at_ t with USeq => true | _ => false end.
Definition after_seq (t : thread) : bool := match at_ t with UWait | UWake => true | _ => false end.

Record thread_ok (g : rwlock) (i : nat) (t : thread) : Prop := {
  t_rd : 0 <= rd t;
  t_wr : match at_ t with TWriter | UWriter | UStore | Done OWrite 0 => wr t = true | _ => True end;
  t_rdheld : match at_ t with USub => wr t = false ∧ 1 <= rd t | ULoad => wr t = true ∨ 1 <= rd t | Done ORead 0 => 1 <= rd t | _ => True end;
  t_writer : if wr t then (match at_ t with TWriter | UStore => True | _ => writer g = tid i end) else writer g ≠ tid i;
  t_zero : match at_ t with UStore => writer g = 0 | _ => True end;
}.

(** A waiter that read the current sequence number saw the lock busy, and
    it still is, or its releaser is about to change the number. *)
Definition seq_ok (g : rwlock) (ts : list thread) (l : pc) : Prop :=
  let busy := lock g ≠ 0 ∨ 0 < cnt before_seq ts in
  match l with
  | TLoad _ (Some s) => s <= unlocks g
  | TCas _ (Some s) v => s <= unlocks g ∧ (v ≠ 0 → s = unlocks g → busy)
  | LAdd _ s | LFutex _ s => s <= unlocks g ∧ (s = unlocks g → busy)
  | LSleep _ s => s <= unlocks g ∧ (s = unlocks g ∧ busy ∨ 0 < cnt after_seq ts)
  | _ => True
  end.

Record inv (c : rwlock * list thread) : Prop := {
  i_lock : -1 <= lock c.1 <= INT_MAX;
  i_rd : tot rd c.2 = if lock c.1 <? 0 then 0 else lock c.1;
  i_wr : cnt wr c.2 = b2z (lock c.1 <? 0);
  i_thr : ∀ i t, c.2 !! i = Some t → thread_ok c.1 i t;
  i_wait : wwait c.1 = cnt registered c.2;
  i_len : Z.of_nat (length c.2) < 2 ^ 31;
  i_unlocks : 0 <= unlocks c.1;
  i_seq : unlocks c.1 < 2 ^ 31 → seq c.1 = unlocks c.1 ∧ ∀ i t, c.2 !! i = Some t → seq_ok c.1 c.2 (at_ t);
}.

Lemma cnt_keep P (ts : list thread) i t t' :
  ts !! i = Some t → P t = false ∨ P t' = true → 0 < cnt P ts → 0 < cnt P (<[i := t']> ts).
Proof.
  intros Hl H Hp. rewrite (cnt_insert _ _ _ t) by done. pose proof (cnt_nonneg P ts).
  destruct H as [->| ->]; [destruct (P t') | destruct (P t)]; cbn; lia.
Qed.

Lemma cnt_new P (ts : list thread) i t t' : ts !! i = Some t → P t' = true → 0 < cnt P (<[i := t']> ts).
Proof.
  intros Hl H. assert (<[i := t']> ts !! i = Some t') as Hi by (apply list_lookup_insert_eq; by eapply lookup_lt_Some).
  pose proof (cnt_pos P _ i t' Hi H). lia.
Qed.

(** What a step of thread [i] leaves of the waiters' invariant. *)
Lemma seq_frame g g' ts i t t' l :
  ts !! i = Some t →
  (unlocks g' = unlocks g ∧ (lock g' ≠ 0 ∨ before_seq t' = true ∨ lock g' = lock g ∧ before_seq t = false) ∧
     (after_seq t = false ∨ after_seq t' = true ∨ cnt asleep ts = 0)) ∨
  (unlocks g' = unlocks g + 1 ∧ after_seq t' = true) →
  (∀ w s, l = LSleep w s → 0 < cnt asleep ts ∨ after_seq t = false) →
  seq_ok g ts l → seq_ok g' (<[i := t']> ts) l.
Proof.
  intros Hl Hc Ha Hok. assert (unlocks g <= unlocks g') by (destruct Hc as [[-> _]|[-> _]]; lia).
  assert (unlocks g' = unlocks g → (lock g ≠ 0 ∨ 0 < cnt before_seq ts) → lock g' ≠ 0 ∨ 0 < cnt before_seq (<[i := t']> ts)) as Hbusy.
  { intros E Hb. destruct Hc as [(_ & Hb' & _)|[E' _]]; [|lia]. destruct Hb' as [Hb'|[Hb'|[-> Hb']]]; [by left | right; by eapply cnt_new|].
    destruct Hb as [Hb|Hb]; [by left | right]. eapply cnt_keep; eauto. }
  assert (0 < cnt asleep ts ∨ after_seq t = false → 0 < cnt after_seq ts → 0 < cnt after_seq (<[i := t']> ts)) as Hafter.
  { intros Hs Hp. destruct Hc as [(_ & _ & [?|[?|?]])|[_ ?]];
      [eapply cnt_keep; eauto | by eapply cnt_new | destruct Hs; [lia | eapply cnt_keep; eauto] | by eapply cnt_new]. }
  destruct l as [| | | |? [s|]|? [s|] v| |? s|? s|w s| | | | | | | |]; cbn in *; try done; try lia.
  specialize (Ha w s eq_refl). destruct Hok as [Hs Hb]. split; [lia|]. destruct Hb as [[E Hb]|Hb]; [|right; auto].
    destruct Hc as [(E' & _)|[E' Ht]]; [left; split; [lia | auto] | right; by eapply cnt_new].
Qed.

Lemma rw_thread_frame g g' i j t :
  i ≠ j → (wr t = false ∧ (writer g' = 0 ∨ writer g' = tid i)) ∨ writer g' = writer g → thread_ok g j t → thread_ok g' j t.
Proof.
  intros Hij Hf [H1 H2 H3 H4 H5]. split; try done.
  - destruct Hf as [[-> Hf]|Hf]; [|by rewrite Hf]. unfold tid in *. destruct Hf as [->| ->]; lia.
  - destruct Hf as [[E Hf]|Hf]; [|by rewrite Hf]. destruct (at_ t); try done. congruence.
Qed.

Definition readers (l : Z) : Z := if l <? 0 then 0 else l.

Lemma rw_inv_step g ts i t g' t' :
  inv (g, ts) → ts !! i = Some t → -1 <= lock g' <= INT_MAX →
  rd t' - rd t = readers (lock g') - readers (lock g) → b2z (wr t') - b2z (wr t) = b2z (lock g' <? 0) - b2z (lock g <? 0) →
  thread_ok g' i t' → (wr t = true ∧ (writer g' = 0 ∨ writer g' = tid i)) ∨ writer g' = writer g →
  wwait g' = wwait g - b2z (registered t) + b2z (registered t') →
  (unlocks g' = unlocks g ∧ seq g' = seq g ∧ (lock g' ≠ 0 ∨ before_seq t' = true ∨ lock g' = lock g ∧ before_seq t = false) ∧
     (after_seq t = false ∨ after_seq t' = true ∨ cnt asleep ts = 0)) ∨
  (unlocks g' = unlocks g + 1 ∧ seq g' = s32 (seq g + 1) ∧ after_seq t' = true) →
  (unlocks g' < 2 ^ 31 → seq g = unlocks g → seq_ok g ts (at_ t) → seq_ok g ts (at_ t') ∧ (asleep t' = true → after_seq t = false)) →
  inv (g', <[i := t']> ts).
Proof.
  intros Hi Hl Hlk Hrd Hwr Hok Hfr Hww Hun Hsq. destruct Hi as [H1 H2 H3 H4 H5 H6 H7 H8]. cbn [fst snd] in *.
  assert (cnt wr ts <= 1) as Hone by (rewrite H3; destruct (_ <? _); cbn; lia).
  assert (unlocks g <= unlocks g') as Hmono by (destruct Hun as [(-> & _)|(-> & _)]; lia).
  split; cbn [fst snd].
  - done.
  - rewrite (tot_insert _ _ _ t) by done. unfold readers in Hrd. lia.
  - rewrite (cnt_insert _ _ _ t) by done. lia.
  - intros j u. rewrite list_lookup_insert_Some. intros [(-> & <- & _)|[Hne Hj]]; [done|].
    apply (rw_thread_frame g g' i); auto. destruct Hfr as [[Hw Hwr']|]; [left; split; [|done] | by right].
    destruct (wr u) eqn:E; [|done]. by destruct (Hne (cnt_unique wr ts i j t u Hone Hl Hj Hw E)).
  - rewrite (cnt_insert _ _ _ t) by done. lia.
  - by rewrite length_insert.
  - lia.
  - intros Hs. destruct H8 as [E8 H8]; [lia|]. split.
    + destruct Hun as [(E1 & E2 & _)|(E1 & E2 & _)]; rewrite E1, E2; [done|]. rewrite E8. apply swrap_small; lia.
    + assert ((unlocks g' = unlocks g ∧ (lock g' ≠ 0 ∨ before_seq t' = true ∨ lock g' = lock g ∧ before_seq t = false) ∧
         (after_seq t = false ∨ after_seq t' = true ∨ cnt asleep ts = 0)) ∨ (unlocks g' = unlocks g + 1 ∧ after_seq t' = true)) as Hc.
      { destruct Hun as [(? & _ & ? & ?)|(? & _ & ?)]; [left; done | right; done]. }
      intros j u. rewrite list_lookup_insert_Some. intros [(-> & <- & _)|[Hne Hj]].
      * destruct (Hsq Hs E8 (H8 _ _ Hl)) as [Ht' Ha']. eapply (seq_frame g g'); [exact Hl | exact Hc | | exact Ht'].
        intros w s E. right. apply Ha'. unfold asleep. by rewrite E.
      * eapply (seq_frame g g'); [exact Hl | exact Hc | | by apply H8 in Hj].
        intros w s E. left. enough (1 <= cnt asleep ts) by lia. apply (cnt_pos asleep ts j u Hj). unfold asleep. by rewrite E.
Qed.

Lemma wwait_add g ts i t :
  inv (g, ts) → ts !! i = Some t →
  (registered t = false → s32 (wwait g + 1) = wwait g + 1) ∧ (registered t = true → s32 (wwait g - 1) = wwait g - 1).
Proof.
  intros Hi Hl. pose proof (i_wait _ Hi) as Hw. pose proof (i_len _ Hi) as Hn. cbn in *.
  pose proof (cnt_nonneg registered ts). pose proof (cnt_length registered ts). split; intros Hr.
  - apply swrap_small; [lia|]. pose proof (cnt_length registered (<[i := Thr (LSub true) 0 false]> ts)) as Hc.
    rewrite length_insert, (cnt_insert _ _ _ t), Hr in Hc by done. simpl in Hc. lia.
  - pose proof (cnt_pos registered ts i t Hl Hr). apply swrap_small; lia.
Qed.

Lemma rw_asleep_registered (ts : list thread) : cnt asleep ts <= cnt registered ts.
Proof. apply cnt_le. by intros [[] ? ?]. Qed.

Ltac tests H :=
  repeat match type of H with context [if ?b then _ else _] => destruct b eqn:? end; try discriminate H;
  injection H as <- <-; rewrite ?andb_true_iff, ?andb_false_iff, ?orb_true_iff, ?orb_false_iff, ?negb_true_iff, ?negb_false_iff in *; zbool.

Ltac side := unfold readers; cbn in *; change (EAGAIN =? EBUSY) with false in *; change (EBUSY =? EBUSY) with true in *;
  change (0 =? EBUSY) with false in *; cbn in *; try done; try lia; try tauto.

Ltac word_side := repeat match goal with
  | |- context [?a <? ?b] => destruct (Z.ltb_spec a b) end; cbn in *; done || lia || tauto || idtac.

Lemma rw_quiet_ok n c g ts i t g' t' :
  inv (g, ts) → ts !! i = Some t → rstep n c i g t = Some (g', t', None) → inv (g', <[i := t']> ts).
Proof.
  intros Hi Hl Hst. pose proof (i_thr _ Hi i t Hl) as Hok. pose proof (i_lock _ Hi) as Hlk. pose proof (i_rd _ Hi) as Hrd.
  pose proof (i_wr _ Hi) as Hwr. destruct (wwait_add _ _ _ _ Hi Hl) as [Hw1 Hw2]. pose proof (i_unlocks _ Hi) as Hun.
  assert (wwait g = 0 → cnt asleep ts = 0) as Hz.
  { intros E. pose proof (i_wait _ Hi) as Hw. pose proof (rw_asleep_registered ts). pose proof (cnt_nonneg asleep ts). cbn in Hw. lia. }
  assert (wr t = true → lock g = -1) as Hneg.
  { intros E. pose proof (cnt_pos wr ts i t Hl E). cbn in *. destruct (Z.ltb_spec (lock g) 0); cbn in *; lia. }
  assert (rd t <= if lock g <? 0 then 0 else lock g) as Hpos.
  { cbn in Hrd. rewrite <- Hrd. apply (tot_ge rd ts i t); [intros j u Hj|done]. apply (t_rd _ _ _ (i_thr _ Hi j u Hj)). }
  cbn [fst snd] in *. destruct t as [l r w]. cbn [at_ rd wr] in *. unfold rstep in Hst. cbn [at_ rd wr] in Hst.
  assert (∀ g' t', rd t' = r → wr t' = w → lock g' = lock g → writer g' = writer g → 
    match at_ t' with TWriter | UWriter | UStore | USub | ULoad => False | Done ORead 0 => 1 <= r | Done OWrite 0 => w = true | _ => True end →
    match l with TWriter | UStore => False | _ => True end → thread_ok g' i t') as Hkeep.
  { intros g1 [l1 r1 w1] E1 E2 E3 E4 E5 E6. cbn in *. subst. destruct Hok as [K1 K2 K3 K4 K5]. split; cbn in *; try done.
    - by destruct l1 as [|[] []| | | | | | | | | | | | | | | |].
    - by destruct l1 as [|[] []| | | | | | | | | | | | | | | |].
    - rewrite E4. destruct w; [|done]. by destruct l1, l.
    - by destruct l1. }
  destruct l; destruct c as [cl| | |]; cbn -[rw_try] in Hst; try discriminate Hst.
  - (* Idle *) destruct cl; cbn in Hst; tests Hst; apply (rw_inv_step _ _ _ _ _ _ Hi Hl); side; try (by apply Hkeep).
    all: destruct Hok; split; cbn in *; try done. destruct Heqb; [right; lia | by left].
  - (* Done *) tests Hst; apply (rw_inv_step _ _ _ _ _ _ Hi Hl); side. by apply Hkeep.
  - (* LCheck *) tests Hst; apply (rw_inv_step _ _ _ _ _ _ Hi Hl); side; by apply Hkeep.
  - (* LSeq *) tests Hst; apply (rw_inv_step _ _ _ _ _ _ Hi Hl); side; by apply Hkeep.
  - (* TLoad *) tests Hst; apply (rw_inv_step _ _ _ _ _ _ Hi Hl); side; try by apply Hkeep.
    all: destruct k; side.
  - (* TCas *) unfold rw_try in Hst. cbn [rd wr at_] in Hst. destruct w0, k; tests Hst; cbn in *.
    all: apply (rw_inv_step _ _ _ _ _ _ Hi Hl); side; word_side.
    all: try (apply Hkeep; done).
    all: try (destruct w; cbn; lia).
    all: destruct Hok as [K1 K2 K3 K4 K5]; split; cbn in *; try done; lia.
  - (* TCas, spurious failure *) unfold rw_try in Hst. cbn [rd wr at_] in Hst. destruct w0, k; tests Hst; cbn in *.
    all: apply (rw_inv_step _ _ _ _ _ _ Hi Hl); side; word_side.
    all: try (apply Hkeep; done).
  - (* TWriter *) tests Hst; apply (rw_inv_step _ _ _ _ _ _ Hi Hl); side.
    + destruct Hok as [K1 K2 K3 K4 K5]; split; cbn in *; try done. by rewrite K2.
    + left. destruct Hok as [K1 K2 K3 K4 K5]. tauto.
  - (* LAdd *) tests Hst; apply (rw_inv_step _ _ _ _ _ _ Hi Hl); side. by apply Hkeep.
  - (* LFutex *) tests Hst; apply (rw_inv_step _ _ _ _ _ _ Hi Hl); side; try by apply Hkeep.
  - (* LSleep *) destruct (may_end None r0); [|done]. tests Hst; apply (rw_inv_step _ _ _ _ _ _ Hi Hl); side; try by apply Hkeep.
  - (* LSub *) tests Hst; apply (rw_inv_step _ _ _ _ _ _ Hi Hl); side; try by apply Hkeep.
  - (* ULoad *) tests Hst; apply (rw_inv_step _ _ _ _ _ _ Hi Hl); side; try by apply Hkeep.
    all: destruct Hok as [K1 K2 K3 K4 K5]; cbn in *; split; cbn in *; try done; destruct w; try done; auto with lia.
  - (* UWriter *) tests Hst; apply (rw_inv_step _ _ _ _ _ _ Hi Hl); side.
    + destruct Hok as [K1 K2 K3 K4 K5]; split; cbn in *; try done. by rewrite K2.
    + left. destruct Hok as [K1 K2 K3 K4 K5]. tauto.
  - (* UStore *) destruct Hok as [K1 K2 K3 K4 K5]. cbn in K2. subst w. specialize (Hneg eq_refl).
    tests Hst; apply (rw_inv_step _ _ _ _ _ _ Hi Hl); side; rewrite ?Hneg; side; word_side.
    split; cbn in *; try done. rewrite K5. unfold tid. lia.
  - (* USub *) destruct Hok as [K1 K2 K3 K4 K5]. cbn in K3. destruct K3 as [-> K3].
    assert (s32 (lock g - 1) = lock g - 1) as E by (destruct (Z.ltb_spec (lock g) 0); [lia | apply swrap_small; unfold INT_MAX in Hlk; lia]).
    rewrite E in Hst. destruct (Z.ltb_spec (lock g) 0); [lia|].
    tests Hst; apply (rw_inv_step _ _ _ _ _ _ Hi Hl); side; word_side.
    all: split; cbn in *; try done; lia.
  - (* USeq *) tests Hst; apply (rw_inv_step _ _ _ _ _ _ Hi Hl); side; try by apply Hkeep.
  - (* UWait *) tests Hst; apply (rw_inv_step _ _ _ _ _ _ Hi Hl); side; try by apply Hkeep.
Qed.

Lemma rw_wakeup_ok n a g i t : sleeps (rw_prog n) t = Some a → thread_ok g i t → thread_ok g i (wakeup (rw_prog n) t).
Proof. destruct t as [[] r w]; cbn; try done. intros _ [K1 K2 K3 K4 K5]. by split. Qed.

Lemma rw_inv_wake n g ts i r w ws ts' :
  n = length ts → inv (g, ts) → ts !! i = Some (Thr UWake r w) →
  wake_list (rw_prog n) tt ws (<[i := Thr (Done OUnlock 0) r w]> ts) = Some ts' →
  length ws = n ∨ cnt (sleeps_on (rw_prog n) tt) ts' = 0 → inv (g, ts').
Proof.
  intros Hn Hi Hl Hw Hd.
  assert (∀ P δ, (∀ t, sleeps (rw_prog n) t = Some tt → b2z (P (wakeup (rw_prog n) t)) = b2z (P t) + δ) →
    P (Thr UWake r w) = P (Thr (Done OUnlock 0) r w) → cnt P ts' = cnt P ts + δ * length ws) as Hcnt.
  { intros P δ HP E. rewrite (cnt_wake (rw_prog n) P δ tt ws _ _ HP Hw), (cnt_insert _ _ _ _ _ Hl), E. lia. }
  assert (cnt (sleeps_on (rw_prog n) tt) ts' = cnt asleep ts') as Es by (apply Z.le_antisymm; apply cnt_le; intros [[] ? ?] _; done).
  pose proof (Hcnt asleep (-1) ltac:(intros [[] ? ?]; done) eq_refl) as Ha.
  pose proof (cnt_length asleep ts). pose proof (cnt_nonneg asleep ts').
  assert (cnt asleep ts' = 0) as Ha0 by (destruct Hd; lia).
  assert (length ts' = length ts) as Hlen by (rewrite (wake_length _ _ _ _ _ Hw); apply length_insert).
  destruct Hi as [H1 H2 H3 H4 H5 H6 H7 H8]. cbn [fst snd] in *. split; cbn [fst snd]; try done.
  - rewrite (tot_wake (rw_prog n) rd tt ws _ _ ltac:(done) Hw), (tot_insert _ _ _ _ _ Hl). cbn. lia.
  - rewrite (Hcnt wr 0); [lia | intros; cbn; lia | done].
  - apply (forall_wake (rw_prog n) (thread_ok g) tt ws (<[i := Thr (Done OUnlock 0) r w]> ts)); [apply rw_wakeup_ok | | done].
    apply forall_insert; [done|]. destruct (H4 i _ Hl) as [K1 K2 K3 K4 K5]. by split.
  - rewrite (Hcnt registered 0); [lia | by intros [[] ? ?] | done].
  - by rewrite Hlen.
  - intros Hs. destruct (H8 Hs) as [Eq Hsq]. split; [done|]. intros j u Hj.
    assert (asleep u = false → seq_ok g ts (at_ u)) as Hu.
    { revert j u Hj. apply (forall_wake (rw_prog n) (λ _ u, asleep u = false → seq_ok g ts (at_ u)) tt ws (<[i := Thr (Done OUnlock 0) r w]> ts)).
      - intros j [[] ? ?]; cbn; done.
      - apply (forall_insert (λ _ u, asleep u = false → seq_ok g ts (at_ u))); [|done]. intros j u Hj _. by apply (Hsq j).
      - done. }
    assert (asleep u = false) as Hau by (destruct (asleep u) eqn:E; [|done]; pose proof (cnt_pos asleep ts' j u Hj E); lia).
    specialize (Hu Hau). unfold seq_ok in *. rewrite (Hcnt before_seq 0), Z.add_0_r by (done || by intros [[] ? ?]).
    destruct u as [[] ? ?]; cbn in *; try done.
Qed.

Lemma rw_inv_cstep n g ts e g' ts' :
  n = length ts → inv (g, ts) → cstep (rw_prog n) (g, ts) e = Some (g', ts') → inv (g', ts').
Proof.
  destruct e as [[i ch] ws]. intros Hn Hi Hs.
  destruct (cstep_inv _ _ _ _ _ _ _ Hs) as (t & g1 & t' & wk & ts1 & Hl & Hst & E & Hwk). injection E as -> ->. clear Hs.
  destruct wk as [[[] k]|]; [|subst ts1; by apply (rw_quiet_ok n ch g ts i t)].
  destruct Hwk as (Hw & Hk & Hd). destruct t as [l r w]. cbn in Hst. unfold rstep in Hst. cbn [at_ rd wr] in Hst.
  destruct l, ch; try discriminate Hst; try (cbn in Hst; repeat (case_match; try discriminate Hst); cbn in Hst; discriminate Hst).
  { destruct (enter _ _); discriminate Hst. }
  injection Hst as <- <- Ek. apply (rw_inv_wake n g ts i r w ws); [done..|]. by rewrite Ek.
Qed.

Definition fresh : thread := Thr Idle 0 false.

Lemma rw_reach_inv n g ts :
  Z.of_nat n < 2 ^ 31 → reachable (rw_prog n) (pthread_rwlock_init, replicate n fresh) (g, ts) → inv (g, ts).
Proof.
  intros Hn Hr. enough (inv (g, ts) ∧ length ts = n) by tauto.
  revert Hr. apply (reachable_inv _ (λ c, inv c ∧ length c.2 = n)).
  - intros [g0 ts0] e [g1 ts1] [Hi Hl] Hs. cbn in Hl. split; [by apply (rw_inv_cstep n g0 ts0 e) in Hs|].
    cbn. by rewrite (cstep_length _ _ _ _ _ _ Hs).
  - split; [|cbn; apply length_replicate].
    split; cbn; rewrite ?cnt_replicate, ?tot_replicate, ?length_replicate by done; try done; unfold INT_MAX; try lia.
    + intros i t. rewrite lookup_replicate. intros [-> _]. split; cbn; try done. unfold tid. lia.
    + intros _. split; [done|]. intros i t. rewrite lookup_replicate. by intros [-> _].
Qed.

(** Not in a call, or asleep. *)
Definition at_rest (t : thread) : bool := match at_ t with Idle | Done _ _ | LSleep _ _ => true | _ => false end.

(** ** Properties *)

(** C22: reader-writer locks under every interleaving of any number of
    threads, spurious failures of the compare-exchange included. A writer
    excludes every reader and every other writer, and the lock word counts
    the read locks; a call that returns success returns with the lock. The
    writer is recorded, so relocking for writing is refused and unlocking
    never fails for a holder. No wake-up is lost: when every thread is at
    rest and one sleeps, some thread has the lock (fewer than 2^31
    unlocks). *)
Theorem rwlock_spec n g ts :
  Z.of_nat n < 2 ^ 31 → reachable (rw_prog n) (pthread_rwlock_init, replicate n fresh) (g, ts) →
  (∀ i j t u, ts !! i = Some t → ts !! j = Some u → wr t = true → rd u = 0 ∧ (wr u = true → i = j)) ∧
  tot rd ts = readers (lock g) ∧ (0 <= lock g → cnt wr ts = 0) ∧
  (∀ i t, ts !! i = Some t →
     (at_ t = Done OWrite 0 → wr t = true ∧ writer g = tid i) ∧ (at_ t = Done ORead 0 → 1 <= rd t ∧ 1 <= lock g) ∧
     (at_ t = ULoad → ∀ g' t' wk, pthread_rwlock_unlock i g n t = Some (g', t', wk) → at_ t' ≠ Done OUnlock EPERM)) ∧
  (unlocks g < 2 ^ 31 → Forall (λ t, at_rest t = true) ts → 0 < cnt asleep ts → ∃ i t, ts !! i = Some t ∧ (wr t = true ∨ 1 <= rd t)).
Proof.
  intros Hn Hr. pose proof (rw_reach_inv n g ts Hn Hr) as Hi. pose proof (i_lock _ Hi) as H1. pose proof (i_rd _ Hi) as H2.
  pose proof (i_wr _ Hi) as H3. cbn [fst snd] in H1, H2, H3.
  assert (∀ i t, ts !! i = Some t → 0 <= rd t <= readers (lock g)) as Hrd.
  { intros i t Ht. split; [apply (t_rd _ _ _ (i_thr _ Hi i t Ht))|]. unfold readers. rewrite <- H2. apply (tot_ge rd ts i t); [|done].
    intros j u Hj. apply (t_rd _ _ _ (i_thr _ Hi j u Hj)). }
  assert (∀ i t, ts !! i = Some t → wr t = true → lock g < 0) as Hwr.
  { intros i t Ht Hw. pose proof (cnt_pos wr ts i t Ht Hw). destruct (Z.ltb_spec (lock g) 0); cbn in H3; lia. }
  split_and!.
  - intros i j t u Ht Hu Hw. specialize (Hwr i t Ht Hw). specialize (Hrd j u Hu). unfold readers in Hrd.
    destruct (Z.ltb_spec (lock g) 0); [|lia]. split; [lia|]. intros Hw'. apply (cnt_unique wr ts i j t u); try done. rewrite H3. cbn. lia.
  - exact H2.
  - intros Hl. rewrite H3. destruct (Z.ltb_spec (lock g) 0); [lia | done].
  - intros i t Ht. destruct (i_thr _ Hi i t Ht) as [K1 K2 K3 K4 K5]. specialize (Hrd i t Ht). cbn [fst] in K4. split_and!.
    + intros E. rewrite E in *. rewrite K2 in K4. done.
    + intros E. rewrite E in *. unfold readers in Hrd. destruct (Z.ltb_spec (lock g) 0); lia.
    + intros E g' t' wk Hst. rewrite E in *. unfold pthread_rwlock_unlock in Hst. rewrite E in Hst. injection Hst as <- <- <-. cbn.
      unfold readers in Hrd. destruct (wr t) eqn:Ew.
      * specialize (Hwr i t Ht Ew). rewrite K4, Z.eqb_refl. destruct (Z.eqb_spec (lock g) 0); [lia|]. destruct (Z.ltb_spec (lock g) 0); [done | lia].
      * destruct K3 as [|K3]; [done|]. destruct (Z.ltb_spec (lock g) 0); [lia|]. destruct (Z.eqb_spec (lock g) 0); [lia | done].
  - intros Hs Hrest Ha. destruct (i_seq _ Hi Hs) as [_ Hsq]. destruct (cnt_pos_inv asleep ts ltac:(lia)) as (i & t & Ht & Hat).
    rewrite Forall_lookup in Hrest.
    assert (∀ P, (∀ u, P u = true → at_rest u = false) → cnt P ts = 0) as Hz.
    { intros P HP. pose proof (cnt_nonneg P ts). destruct (decide (1 <= cnt P ts)) as [Hp|]; [|lia].
      destruct (cnt_pos_inv P ts Hp) as (j & u & Hj & Hu). specialize (HP u Hu). rewrite (Hrest j u Hj) in HP. done. }
    specialize (Hsq i t Ht). destruct t as [[] r w]; cbn in Hat; try done. cbn in Hsq.
    rewrite (Hz before_seq), (Hz after_seq) in Hsq by (by intros [[] ? ?]).
    assert (lock g ≠ 0) as Hne by lia. destruct (decide (lock g < 0)) as [Hl|Hl].
    + destruct (cnt_pos_inv wr ts) as (j & u & Hj & Hu); [|exists j, u; auto]. rewrite H3. destruct (Z.ltb_spec (lock g) 0); cbn; lia.
    + destruct (tot_pos_inv rd ts) as (j & u & Hj & Hu); [|exists j, u; auto]. rewrite H2. destruct (Z.ltb_spec (lock g) 0); lia.
Qed.

(** *** Witnesses *)

(** A reader makes a writer sleep, and wakes it when it unlocks. *)
Definition handover : list (event (Ch := choice)) :=
  let go i k := replicate k (i, Go, []) in
  [(0%nat, Call Rdlock, [])] ++ go 0%nat 4%nat ++ [(1%nat, Call Wrlock, [])] ++ go 1%nat 6%nat ++
  [(0%nat, Call Unlock, [])] ++ go 0%nat 4%nat ++ [(0%nat, Go, [1%nat])] ++ go 1%nat 5%nat.

Lemma rwlock_spec_witness :
  let g := Rw (-1) 2 0 1 1 in let ts := [Thr (Done OUnlock 0) 0 false; Thr (Done OWrite 0) 0 true] in
  reachable (rw_prog 2) (pthread_rwlock_init, replicate 2 fresh) (g, ts) ∧ writer g = tid 1.
Proof.
  intros g ts. assert (reachable (rw_prog 2) (pthread_rwlock_init, replicate 2 fresh) (g, ts)) as Hr.
  { exists handover. vm_compute. reflexivity. }
  split; [exact Hr|]. destruct (rwlock_spec 2 g ts ltac:(lia) Hr) as (_ & _ & _ & H & _).
  destruct (H 1%nat (Thr (Done OWrite 0) 0 true) eq_refl) as [Hw _]. apply Hw. reflexivity.
Defined.
