(* ===== verification/Locks.v ===== *)
(** * Internal locks, spin locks and pthread_once
    (src/src/runtime.c, src/src/pthread_sync.c, src/src/pthread.c)

    The lock behind LOCK and UNLOCK, which serialises the static data of the
    library (the time zone, the generators, the environment, the streams),
    and two small primitives, as programs of threads. *)
From S2P Require Import Prelude Futex.

(** ** __lock and __unlock *)

Module Internal.

Inductive pc :=
| Idle | Done
| LCas0 | LTest (c : Z) | LCas12 | LWait | LSleep | LRetry
| USub | UStore | UWake.

(** [own]: the thread has the lock (history). *)
Record thread := Thr { at_ : pc; own : bool }.

Inductive choice := Lock | Unlock | Go | Kernel.

(** The lock word [l]: 0 free, 1 held, 2 held with waiters. *)
Definition __lock (c : choice) (l : Z) (t : thread) : option (Z * thread) :=
  let o := own t in
  match at_ t, c with
  | LCas0, Go => Some (if l =? 0 then (1, Thr Done true) else (l, Thr (LTest l) o))
  | LTest c, Go => Some (l, Thr (if c =? 2 then LWait else LCas12) o)
  | LCas12, Go => Some (if l =? 1 then 2 else l, Thr (if negb (l =? 0) then LWait else LRetry) o)
  | LWait, Go => Some (l, Thr (if l =? 2 then LSleep else LRetry) o)
  | LSleep, Kernel => Some (l, Thr LRetry o)
  | LRetry, Go => Some (if l =? 0 then (2, Thr Done true) else (l, Thr (LTest l) o))
  | _, _ => None
  end.

Definition __unlock (l : Z) (t : thread) : option (Z * thread * option (unit * nat)) :=
  match at_ t with
  | USub => Some (if negb (l =? 1) then (s32 (l - 1), Thr UStore true, None) else (s32 (l - 1), Thr Done false, None))
  | UStore => Some (0, Thr UWake false, None)
  | UWake => Some (l, Thr Done (own t), Some (tt, 1%nat))
  | _ => None
  end.

(** Only the holder unlocks. *)
Definition lstep (c : choice) (i : nat) (l : Z) (t : thread) : option (Z * thread * option (unit * nat)) :=
  match at_ t, c with
  | Idle, Lock => Some (l, Thr LCas0 (own t), None)
  | Idle, Unlock => if own t then Some (l, Thr USub (own t), None) else None
  | Done, Go => Some (l, Thr Idle (own t), None)
  | (USub | UStore | UWake), Go => __unlock l t
  | _, _ => r ← __lock c l t; Some (r, None)
  end.

Definition lock_prog : prog Z thread unit choice :=
  Prog lstep (λ t, match at_ t with LSleep => Some tt | _ => None end)
       (λ t, Thr (match at_ t with LSleep => LRetry | p => p end) (own t)).

Definition asleep (t : thread) : bool := match at_ t with LSleep => true | _ => false end.
Definition flight (t : thread) : bool :=
  match at_ t with LTest _ | LCas12 | LWait | LRetry | UStore | UWake => true | _ => false end.

Record inv (c : Z * list thread) : Prop := {
  i_word : 0 <= c.1 <= 2;
  i_own : cnt own c.2 = b2z (negb (c.1 =? 0));
  i_unlock : ∀ i t, c.2 !! i = Some t → match at_ t with USub | UStore => own t = true | UWake => own t = false | _ => True end;
  i_wake : 0 < cnt asleep c.2 → c.1 = 2 ∨ 0 < cnt flight c.2;
}.

Lemma il_inv_step l ts i t l' t' :
  inv (l, ts) → ts !! i = Some t → 0 <= l' <= 2 →
  b2z (own t') - b2z (own t) = b2z (negb (l' =? 0)) - b2z (negb (l =? 0)) →
  match at_ t' with USub | UStore => own t' = true | UWake => own t' = false | _ => True end →
  (asleep t' = true → asleep t = true ∨ l' = 2) →
  l' = 2 ∨ flight t' = true ∨ ((l = 2 → l' = 2) ∧ flight t = false) →
  inv (l', <[i := t']> ts).
Proof.
  intros [H1 H2 H3 H4] Hl Hw Ho Hu Ha Hf. cbn [fst snd] in *. split; cbn [fst snd].
  - done.
  - rewrite (cnt_insert _ _ _ t) by done. lia.
  - apply (forall_insert (λ _ u, match at_ u with USub | UStore => own u = true | UWake => own u = false | _ => True end)); done.
  - by apply (flight_step 2 asleep flight ts i t t' l).
Qed.

Lemma il_inv_cstep c e c' : inv c → cstep lock_prog c e = Some c' → inv c'.
Proof.
  destruct c as [l ts], e as [[i ch] ws]. intros Hi Hs.
  destruct (cstep_inv _ _ _ _ _ _ _ Hs) as (t & l' & t' & wk & ts' & Hl & Hst & -> & Hwk). clear Hs.
  pose proof (i_word _ Hi) as Hr. pose proof (i_unlock _ Hi i t Hl) as Hu. pose proof (i_own _ Hi) as Ho. cbn in Hr, Ho.
  assert (own t = true → l ≠ 0) as Hlk.
  { intros E ->. pose proof (cnt_pos own ts i t Hl E). change (b2z (negb (0 =? 0))) with 0 in Ho. lia. }
  assert (s32 (l - 1) = l - 1) as E1 by (apply swrap_small; lia).
  destruct t as [p o]. unfold lstep in Hst. cbn in Hu, Hlk, Hst.
  destruct p, ch; cbn in Hst; rewrite ?E1 in Hst; try discriminate Hst.
  all: repeat match type of Hst with context [if ?b then _ else _] => destruct b eqn:? end; try discriminate Hst;
    injection Hst as <- <- <-; try subst ts'; rewrite ?negb_true_iff, ?negb_false_iff in *; zbool.
  all: try (apply (il_inv_step l ts i _ _ _ Hi Hl); cbn; try done; try lia; try tauto; destruct o; try done; specialize (Hlk eq_refl) || idtac;
    repeat match goal with |- context [?a =? ?b] => destruct (Z.eqb_spec a b) end; cbn; done || lia).
  destruct Hwk as (Hw & Hn & Hd). subst o.
  assert (∀ P δ, (b2z (P (Thr LRetry true)) = b2z (P (Thr LSleep true)) + δ) → (b2z (P (Thr LRetry false)) = b2z (P (Thr LSleep false)) + δ) →
    cnt P ts' = cnt P ts - b2z (P (Thr UWake false)) + b2z (P (Thr Done false)) + δ * length ws) as Hc.
  { intros P δ HP1 HP2. rewrite (cnt_wake lock_prog P δ tt ws _ ts' ltac:(intros [[] []] ?; done) Hw). by rewrite (cnt_insert _ _ _ _ _ Hl). }
  assert (cnt (sleeps_on lock_prog tt) ts' = cnt asleep ts') as Es by (apply Z.le_antisymm; apply cnt_le; intros [[] ?] _; done).
  pose proof (Hc own 0 eq_refl eq_refl) as Eo. pose proof (Hc asleep (-1) eq_refl eq_refl) as Ea. pose proof (Hc flight 1 eq_refl eq_refl) as Ef.
  cbn in Eo, Ea, Ef. pose proof (cnt_pos flight ts i _ Hl eq_refl). destruct Hi as [H1 H2 H3 H4]. cbn [fst snd] in *. split; cbn [fst snd].
  - done.
  - lia.
  - apply (forall_wake lock_prog (λ _ u, match at_ u with USub | UStore => own u = true | UWake => own u = false | _ => True end) tt ws (<[i := Thr Done false]> ts)).
    + by intros j [[] ?].
    + by apply (forall_insert (λ _ u, match at_ u with USub | UStore => own u = true | UWake => own u = false | _ => True end)).
    + done.
  - pose proof (cnt_nonneg asleep ts'). lia.
Qed.

Definition fresh : thread := Thr Idle false.

Lemma il_reach_inv n l ts : reachable lock_prog (0, replicate n fresh) (l, ts) → inv (l, ts).
Proof.
  apply reachable_inv; [apply il_inv_cstep|]. split; cbn; rewrite ?cnt_replicate by done; try done.
  intros i t. rewrite lookup_replicate. by intros [-> _].
Qed.

Definition at_rest (t : thread) : bool := match at_ t with Idle | Done | LSleep => true | _ => false end.
End Internal.

(** ** Spin locks *)

Module Spin.

Definition EBUSY : Z := 16.

Inductive pc := Idle | Done (r : Z) | SXchg | SLoad | TXchg | UStore.
Record thread := Thr { at_ : pc; own : bool }.
Inductive choice := Lock | Trylock | Unlock | Go.

Definition pthread_spin_lock (s : Z) (t : thread) : option (Z * thread) :=
  match at_ t with
  | SXchg => Some (1, if negb (s =? 0) then Thr SLoad (own t) else Thr (Done 0) true)
  | SLoad => Some (s, Thr (if negb (s =? 0) then SLoad else SXchg) (own t))
  | _ => None
  end.

Definition pthread_spin_trylock (s : Z) (t : thread) : Z * thread :=
  (1, if negb (s =? 0) then Thr (Done EBUSY) (own t) else Thr (Done 0) true).

Definition pthread_spin_unlock (s : Z) (t : thread) : Z * thread := (0, Thr (Done 0) false).

Definition sstep (c : choice) (i : nat) (s : Z) (t : thread) : option (Z * thread * option (unit * nat)) :=
  match at_ t, c with
  | Idle, Lock => Some (s, Thr SXchg (own t), None)
  | Idle, Trylock => Some (s, Thr TXchg (own t), None)
  | Idle, Unlock => if own t then Some (s, Thr UStore (own t), None) else None
  | Done _, Go => Some (s, Thr Idle (own t), None)
  | (SXchg | SLoad), Go => r ← pthread_spin_lock s t; Some (r, None)
  | TXchg, Go => Some (pthread_spin_trylock s t, None)
  | UStore, Go => Some (pthread_spin_unlock s t, None)
  | _, _ => None
  end.

Definition spin_prog : prog Z thread unit choice := Prog sstep (λ _, None) id.

Record inv (c : Z * list thread) : Prop := {
  i_word : 0 <= c.1 <= 1;
  i_own : cnt own c.2 = c.1;
  i_unlock : ∀ i t, c.2 !! i = Some t → match at_ t with UStore => own t = true | _ => True end;
}.

Lemma spin_inv_cstep c e c' : inv c → cstep spin_prog c e = Some c' → inv c'.
Proof.
  destruct c as [s ts], e as [[i ch] ws]. intros [H1 H2 H3] Hs. cbn [fst snd] in *.
  destruct (cstep_inv _ _ _ _ _ _ _ Hs) as (t & s' & t' & wk & ts' & Hl & Hst & -> & Hwk). clear Hs.
  pose proof (H3 i t Hl) as Hu. assert (own t = true → s = 1) as Ho.
  { intros E. pose proof (cnt_pos own ts i t Hl E). lia. }
  destruct t as [p o]. cbn in Hst, Hu, Ho.
  destruct p, ch; cbn in Hst; unfold pthread_spin_trylock in Hst; try discriminate Hst.
  all: try (destruct o; [|discriminate Hst]).
  all: injection Hst as <- <- <-; subst ts'; split; cbn [fst snd]; rewrite ?(cnt_insert _ _ _ _ _ Hl); cbn; try lia.
  all: try (apply (forall_insert (λ _ u, match at_ u with UStore => own u = true | _ => True end)); [done|]; cbn; try done;
            repeat match goal with |- context [if ?b then _ else _] => destruct b end; done).
  all: destruct (Z.eqb_spec s 0); cbn; try (destruct o; try specialize (Ho eq_refl); cbn; lia).
Qed.

Definition fresh : thread := Thr Idle false.

Lemma spin_reach_inv n s ts : reachable spin_prog (0, replicate n fresh) (s, ts) → inv (s, ts).
Proof.
  apply reachable_inv; [apply spin_inv_cstep|]. split; cbn; rewrite ?cnt_replicate by done; try done.
  intros i t. rewrite lookup_replicate. by intros [-> _].
Qed.
End Spin.

(** ** pthread_once *)

Module Once.

(** The word: 0 not run, 1 running, 2 done, 3 running with waiters;
    [started] and [finished] count the runs of the function (history). *)
Record once := On { word : Z; started : Z; finished : Z }.

Inductive pc :=
| Idle | Ret
| OLoad | OCas | ORun | OXchg | OWake
| WLoad | WCas | WFutex | WSleep.

Inductive choice := Call | Go | Kernel.

Definition set_word (w : Z) (g : once) : once := On w (started g) (finished g).

(** [n] is the number of threads: a wake of INT_MAX threads wakes all. *)
Definition pthread_once (n : nat) (c : choice) (i : nat) (g : once) (l : pc) : option (once * pc * option (unit * nat)) :=
  match l, c with
  | Idle, Call => Some (g, OLoad, None)
  | Ret, Go => Some (g, Idle, None)
  | OLoad, Go => Some (g, if word g =? 2 then Ret else OCas, None)
  | OCas, Go => Some (if word g =? 0 then (On 1 (started g + 1) (finished g), ORun, None) else (g, WLoad, None))
  | ORun, Go => Some (On (word g) (started g) (finished g + 1), OXchg, None)
  | OXchg, Go => Some (set_word 2 g, if word g =? 3 then OWake else Ret, None)
  | OWake, Go => Some (g, Ret, Some (tt, n))
  | WLoad, Go => Some (g, if word g =? 2 then Ret else if word g =? 1 then WCas else WFutex, None)
  | WCas, Go => Some (if word g =? 1 then (set_word 3 g, WFutex, None) else (g, if word g =? 2 then WLoad else WFutex, None))
  | WFutex, Go => Some (g, if word g =? 3 then WSleep else WLoad, None)
  | WSleep, Kernel => Some (g, WLoad, None)
  | _, _ => None
  end.

Definition once_prog (n : nat) : prog once pc unit choice :=
  Prog (pthread_once n) (λ l, match l with WSleep => Some tt | _ => None end) (λ l, match l with WSleep => WLoad | l => l end).

Definition asleep (l : pc) : bool := match l with WSleep => true | _ => false end.
Definition running (l : pc) : bool := match l with ORun | OXchg => true | _ => false end.
Definition waking (l : pc) : bool := match l with OWake => true | _ => false end.

Definition local_ok (g : once) (l : pc) : Prop :=
  match l with
  | ORun => finished g = 0
  | OXchg => finished g = 1
  | Ret | OWake => word g = 2
  | WLoad | WCas | WFutex | WSleep => word g ≠ 0
  | _ => True
  end.

Record inv (c : once * list pc) : Prop := {
  i_word : 0 <= word c.1 <= 3;
  i_run : cnt running c.2 = b2z ((word c.1 =? 1) || (word c.1 =? 3));
  i_start : started c.1 = b2z (negb (word c.1 =? 0));
  i_done : word c.1 = 2 → finished c.1 = 1;
  i_zero : word c.1 = 0 → finished c.1 = 0;
  i_local : ∀ i l, c.2 !! i = Some l → local_ok c.1 l;
  i_wake : 0 < cnt asleep c.2 → word c.1 = 3 ∨ 0 < cnt waking c.2;
}.

Lemma once_inv_step g ts i l g' l' :
  inv (g, ts) → ts !! i = Some l → 0 <= word g' <= 3 → (word g ≠ 0 → word g' ≠ 0) → (word g = 2 → word g' = 2) →
  b2z (running l') - b2z (running l) = b2z ((word g' =? 1) || (word g' =? 3)) - b2z ((word g =? 1) || (word g =? 3)) →
  started g' - started g = b2z (negb (word g' =? 0)) - b2z (negb (word g =? 0)) →
  (word g' = 2 → finished g' = 1) → (word g' = 0 → finished g' = 0) → local_ok g' l' →
  (running l = true ∨ finished g' = finished g) →
  (asleep l' = true → asleep l = true ∨ word g' = 3) → (word g' = 3 ∨ waking l' = true ∨ ((word g = 3 → word g' = 3) ∧ waking l = false)) →
  inv (g', <[i := l']> ts).
Proof.
  intros Hi Hl Hw Hmono H2' Hrun Hst Hd Hz Hok Hfin Ha Hf. destruct Hi as [H1 H2 H3 H4 H5 H6 H7]. cbn [fst snd] in *. split; cbn [fst snd]; try done.
  - rewrite (cnt_insert _ _ _ l) by done. lia.
  - lia.
  - intros j u. rewrite list_lookup_insert_Some. intros [(-> & <- & _)|[Hne Hj]]; [done|].
    specialize (H6 j u Hj). destruct u; cbn in *; auto.
    all: destruct Hfin as [Hfin|Hfin]; [|lia]; exfalso; apply Hne;
      eapply (cnt_unique running ts i j); [rewrite H2; destruct (_ || _); cbn; lia | exact Hl | exact Hj | done | done].
  - by apply (flight_step 3 asleep waking ts i l l' (word g)).
Qed.

Ltac words := repeat match goal with |- context [?a =? ?b] => destruct (Z.eqb_spec a b) end; cbn in *; done || lia || tauto || idtac.

Lemma inv_quiet n c g ts i l g' l' :
  inv (g, ts) → ts !! i = Some l → pthread_once n c i g l = Some (g', l', None) → inv (g', <[i := l']> ts).
Proof.
  intros Hi Hl Hst. pose proof (i_word _ Hi) as H1. pose proof (i_run _ Hi) as H2. pose proof (i_done _ Hi) as H4.
  pose proof (i_zero _ Hi) as H5. pose proof (i_local _ Hi i l Hl) as H6. cbn in H1, H2, H4, H5, H6.
  assert (running l = true → word g = 1 ∨ word g = 3) as Hrun.
  { intros E. pose proof (cnt_pos running ts i l Hl E). destruct (Z.eqb_spec (word g) 1); [by left|].
    destruct (Z.eqb_spec (word g) 3); [by right|]. cbn in H2. lia. }
  destruct l, c; cbn in Hst; try discriminate Hst; cbn in H6, Hrun; try specialize (Hrun eq_refl).
  all: repeat match type of Hst with context [if ?b then _ else _] => destruct b eqn:? end; injection Hst as <- <-; zbool.
  all: apply (once_inv_step g ts i _ _ _ Hi Hl); cbn; try done; try lia; try tauto; words.
Qed.

Lemma once_inv_wake n g ts i ws ts' :
  n = length ts → inv (g, ts) → ts !! i = Some OWake → wake_list (once_prog n) tt ws (<[i := Ret]> ts) = Some ts' →
  length ws = n ∨ cnt (sleeps_on (once_prog n) tt) ts' = 0 → inv (g, ts').
Proof.
  intros Hn Hi Hl Hw Hd.
  assert (∀ P δ, b2z (P WLoad) = b2z (P WSleep) + δ → cnt P ts' = cnt P ts - b2z (P OWake) + b2z (P Ret) + δ * length ws) as Hc.
  { intros P δ HP. rewrite (cnt_wake (once_prog n) P δ tt ws _ ts' ltac:(intros [] ?; done) Hw). by rewrite (cnt_insert _ _ _ _ _ Hl). }
  assert (cnt (sleeps_on (once_prog n) tt) ts' = cnt asleep ts') as Es by (apply Z.le_antisymm; apply cnt_le; intros [] _; done).
  pose proof (Hc running 0 eq_refl) as Er. pose proof (Hc asleep (-1) eq_refl) as Ea. cbn in Er, Ea.
  pose proof (cnt_length asleep ts). pose proof (cnt_nonneg asleep ts').
  destruct Hi as [H1 H2 H3 H4 H5 H6 H7]. cbn [fst snd] in *. split; cbn [fst snd]; try done; try lia.
  - apply (forall_wake (once_prog n) (λ _ u, local_ok g u) tt ws (<[i := Ret]> ts)); [by intros j []| |done].
    apply (forall_insert (λ _ u, local_ok g u)); [done|]. apply (H6 i _ Hl).
Qed.

Lemma once_inv_cstep n g ts e g' ts' :
  n = length ts → inv (g, ts) → cstep (once_prog n) (g, ts) e = Some (g', ts') → inv (g', ts').
Proof.
  destruct e as [[i ch] ws]. intros Hn Hi Hs.
  destruct (cstep_inv _ _ _ _ _ _ _ Hs) as (l & g1 & l' & wk & ts1 & Hl & Hst & E & Hwk). injection E as -> ->. clear Hs.
  destruct wk as [[[] k]|]; [|subst ts1; by apply (inv_quiet n ch g ts i l)].
  destruct Hwk as (Hw & Hk & Hd). destruct l, ch; cbn in Hst; try discriminate Hst; try (case_match; discriminate Hst).
  injection Hst as <- <- Ek. apply (once_inv_wake n g ts i ws); [done..|]. by rewrite Ek.
Qed.

Lemma once_reach_inv n g ts : reachable (once_prog n) (On 0 0 0, replicate n Idle) (g, ts) → inv (g, ts).
Proof.
  intros Hr. enough (inv (g, ts) ∧ length ts = n) by tauto. revert Hr. apply (reachable_inv _ (λ c, inv c ∧ length c.2 = n)).
  - intros [g0 ts0] e [g1 ts1] [Hi Hl] Hs. cbn in Hl. split; [by apply (once_inv_cstep n g0 ts0 e) in Hs|].
    cbn. by rewrite (cstep_length _ _ _ _ _ _ Hs).
  - split; [|cbn; apply length_replicate]. split; cbn; rewrite ?cnt_replicate by done; try done.
    intros i l. rewrite lookup_replicate. by intros [-> _].
Qed.
End Once.

(** ** Properties *)

