(* ===== verification/Barrier.v ===== *)
(** * Barriers (src/src/pthread_sync.c)

    pthread_barrier_wait runs its body with the barrier's mutex held and
    waits on its condition variable; the critical sections are atomic steps
    here, which the mutual exclusion of mutexes justifies. A condition wait
    releases the mutex and sleeps in one step, since the sequence number is
    read with the mutex held and every broadcast is made with it held; a
    sleeper may also wake without a reason, and takes the mutex again before
    it looks at the cycle. *)
From S2P Require Import Prelude Futex.

Definition PTHREAD_BARRIER_SERIAL_THREAD : Z := -1.
Definition EBUSY : Z := 16.

(** __count, __target and __cycle; [passes] is the number of completed
    cycles, [arrived] the number of arrivals, [serial] the number of calls
    that returned PTHREAD_BARRIER_SERIAL_THREAD (history). *)
Record barrier := Bar { count : Z; target : Z; cycle : Z; passes : Z; arrived : Z; serial : Z }.

(** [c] is the local variable cycle, [n] the number of that cycle counted
    without wrapping (history). *)
Inductive pc := Idle | Enter | Sleep (c n : Z) | Awake (c n : Z) | Ret (r n : Z).

Inductive choice := Call | Go | Spurious.

(** None: EINVAL. *)
Definition pthread_barrier_init (n : Z) : option barrier :=
  if n =? 0 then None else Some (Bar 0 n 0 0 0 0).

Definition pthread_barrier_destroy (b : barrier) : Z := if count b =? 0 then 0 else EBUSY.

(** [k] is the number of threads: the broadcast wakes all. *)
Definition pthread_barrier_wait (k : nat) (c : choice) (i : nat) (b : barrier) (l : pc) : option (barrier * pc * option (unit * nat)) :=
  match l, c with
  | Idle, Call => Some (b, Enter, None)
  | Enter, Go =>
      let cyc := cycle b in
      let cnt := u32 (count b + 1) in
      Some (if cnt =? target b then
              (Bar 0 (target b) (u32 (cyc + 1)) (passes b + 1) (arrived b + 1) (serial b + 1),
               Ret PTHREAD_BARRIER_SERIAL_THREAD (passes b), Some (tt, k))
            else (Bar cnt (target b) cyc (passes b) (arrived b + 1) (serial b), Sleep cyc (passes b), None))
  | Sleep c n, Spurious => Some (b, Awake c n, None)
  | Awake c n, Go => Some (b, if c =? cycle b then Sleep c n else Ret 0 n, None)
  | Ret _ _, Go => Some (b, Idle, None)
  | _, _ => None
  end.

Definition barrier_prog (k : nat) : prog barrier pc unit choice :=
  Prog (pthread_barrier_wait k) (λ l, match l with Sleep _ _ => Some tt | _ => None end)
       (λ l, match l with Sleep c n => Awake c n | l => l end).

(** ** The invariant *)

Definition asleep (l : pc) : bool := match l with Sleep _ _ => true | _ => false end.

(** Waits in the current cycle. *)
Definition current (p : Z) (l : pc) : bool := match l with Sleep _ n | Awake _ n => n =? p | _ => false end.

Definition local_ok (p : Z) (l : pc) : Prop :=
  match l with
  | Sleep c n | Awake c n => 0 <= n <= p ∧ c = u32 n
  | Ret r n => 0 <= n < p
  | _ => True
  end.

(** A sleeper waits in the current cycle. *)
Definition sleep_ok (p : Z) (l : pc) : Prop := match l with Sleep _ n => n = p | _ => True end.

Record inv (tgt : Z) (c : barrier * list pc) : Prop := {
  i_target : target c.1 = tgt;
  i_count : 0 <= count c.1 < tgt;
  i_waiting : cnt (current (passes c.1)) c.2 = count c.1;
  i_arrived : arrived c.1 = passes c.1 * tgt + count c.1;
  i_serial : serial c.1 = passes c.1;
  i_passes : 0 <= passes c.1;
  i_cycle : cycle c.1 = u32 (passes c.1);
  i_local : ∀ i l, c.2 !! i = Some l → local_ok (passes c.1) l;
  i_sleep : passes c.1 < 2 ^ 32 → ∀ i l, c.2 !! i = Some l → sleep_ok (passes c.1) l;
}.

Lemma cnt_none {L} (P : L → bool) ts : (∀ i l, ts !! i = Some l → P l = false) → cnt P ts = 0.
Proof.
  intros H. pose proof (cnt_nonneg P ts). destruct (decide (1 <= cnt P ts)) as [Hp|]; [|lia].
  destruct (cnt_pos_inv P ts Hp) as (i & l & Hi & Hl). by rewrite (H i l Hi) in Hl.
Qed.

Lemma u32_succ p : u32 (u32 p + 1) = u32 (p + 1).
Proof. unfold uwrap. apply Zplus_mod_idemp_l. Qed.

(** The last arrival: a new cycle begins and everyone is woken. *)
Lemma inv_pass tgt k b ts i ws ts' :
  k = length ts → inv tgt (b, ts) → ts !! i = Some Enter → count b + 1 = tgt →
  wake_list (barrier_prog k) tt ws (<[i := Ret PTHREAD_BARRIER_SERIAL_THREAD (passes b)]> ts) = Some ts' →
  length ws = k ∨ cnt (sleeps_on (barrier_prog k) tt) ts' = 0 →
  inv tgt (Bar 0 (target b) (u32 (cycle b + 1)) (passes b + 1) (arrived b + 1) (serial b + 1), ts').
Proof.
  intros Hk Hi Hl Hc Hw Hd.
  assert (cnt asleep ts' = cnt asleep ts - length ws) as Ha.
  { rewrite (cnt_wake (barrier_prog k) asleep (-1) tt ws _ ts' ltac:(intros [] ?; done) Hw), (cnt_insert _ _ _ _ _ Hl). cbn. lia. }
  assert (cnt (sleeps_on (barrier_prog k) tt) ts' = cnt asleep ts') as Es by (apply Z.le_antisymm; apply cnt_le; intros [] _; done).
  pose proof (cnt_length asleep ts). pose proof (cnt_nonneg asleep ts').
  assert (cnt asleep ts' = 0) as Ha0 by (destruct Hd; lia).
  destruct Hi as [H1 H2 H3 H4 H5 H6 H7 H8 _]. cbn [fst snd] in *.
  pose (J := λ l, match l with Sleep c n | Awake c n => 0 <= n <= passes b ∧ c = u32 n | Ret _ n => 0 <= n <= passes b | _ => True end).
  assert (∀ j l, ts' !! j = Some l → J l) as HJ.
  { apply (forall_wake (barrier_prog k) (λ _, J) tt ws (<[i := Ret PTHREAD_BARRIER_SERIAL_THREAD (passes b)]> ts)); [by intros j []| |done].
    apply (forall_insert (λ _, J)); [|cbn; lia]. intros j l Hj. specialize (H8 j l Hj). destruct l; cbn in *; try done; lia. }
  split; cbn [fst snd target count passes arrived serial cycle]; try done; try lia.
  - apply cnt_none. intros j l Hj. specialize (HJ j l Hj). destruct l; cbn in *; try done; apply Z.eqb_neq; lia.
  - rewrite H7. apply u32_succ.
  - intros j l Hj. specialize (HJ j l Hj). destruct l; cbn in *; try done; lia.
  - intros _ j l Hj. destruct l as [| |c n| |]; cbn; try done. pose proof (cnt_pos asleep ts' j _ Hj eq_refl). lia.
Qed.

Lemma inv_move tgt b ts i l l' :
  inv tgt (b, ts) → ts !! i = Some l → current (passes b) l' = current (passes b) l → local_ok (passes b) l' →
  (passes b < 2 ^ 32 → sleep_ok (passes b) l') → inv tgt (b, <[i := l']> ts).
Proof.
  intros [H1 H2 H3 H4 H5 H6 H7 H8 H9] Hl Hc Hok Hs. cbn [fst snd] in *. split; cbn [fst snd]; try done.
  - rewrite (cnt_insert _ _ _ l), Hc by done. lia.
  - by apply (forall_insert (λ _ l, local_ok (passes b) l)).
  - intros Hp. apply (forall_insert (λ _ l, sleep_ok (passes b) l)); [by apply H9 | by apply Hs].
Qed.

Lemma bar_inv_cstep tgt k b ts e b' ts' :
  0 < tgt < 2 ^ 32 → k = length ts → passes b' < 2 ^ 32 → inv tgt (b, ts) → cstep (barrier_prog k) (b, ts) e = Some (b', ts') → inv tgt (b', ts').
Proof.
  destruct e as [[i ch] ws]. intros Ht Hk Hp Hi Hs.
  destruct (cstep_inv _ _ _ _ _ _ _ Hs) as (l & b1 & l' & wk & ts1 & Hl & Hst & E & Hwk). injection E as -> ->. clear Hs.
  pose proof (i_count _ _ Hi) as Hc. pose proof (i_local _ _ Hi i l Hl) as Hok. pose proof (i_target _ _ Hi) as Htg.
  pose proof (i_cycle _ _ Hi) as Hcy. pose proof (i_passes _ _ Hi) as Hpp. cbn [fst snd] in *.
  destruct l as [| |c n|c n|r n], ch; cbn in Hst; try discriminate Hst.
  - injection Hst as <- <- <-. subst ts1. by apply (inv_move _ _ _ _ _ _ Hi Hl).
  - rewrite (uwrap_small 32 (count b + 1)) in Hst by lia. destruct (Z.eqb_spec (count b + 1) (target b)) as [Ec|Ec].
    + injection Hst as <- <- <-. destruct Hwk as (Hw & _ & Hd). apply (inv_pass tgt k b ts i ws); [done..| lia | done | done].
    + injection Hst as <- <- <-. subst ts1. destruct Hi as [H1 H2 H3 H4 H5 H6 H7 H8 H9]. cbn [fst snd] in *.
      split; cbn [fst snd target count passes arrived serial cycle]; try done; try lia.
      * rewrite (cnt_insert _ _ _ _ _ Hl). cbn. rewrite Z.eqb_refl. cbn. lia.
      * apply (forall_insert (λ _ l, local_ok (passes b) l)); [done|]. cbn. split; [lia | done].
      * intros _. apply (forall_insert (λ _ l, sleep_ok (passes b) l)); [by apply H9 | done].
  - injection Hst as <- <- <-. subst ts1. by apply (inv_move _ _ _ _ _ _ Hi Hl).
  - injection Hst as <- <- <-. subst ts1. cbn in Hok. rewrite Hcy in *. destruct Hok as [Hn ->].
    rewrite !(uwrap_small 32) by lia. destruct (Z.eqb_spec n (passes b)) as [->|Hne].
    + apply (inv_move _ _ _ _ _ _ Hi Hl); cbn; rewrite ?Z.eqb_refl; try done. split; [lia|]. by rewrite uwrap_small by lia.
    + apply (inv_move _ _ _ _ _ _ Hi Hl); cbn; try done; [|lia]. symmetry. by apply Z.eqb_neq.
  - injection Hst as <- <- <-. subst ts1. by apply (inv_move _ _ _ _ _ _ Hi Hl).
Qed.

Lemma passes_mono k b ts e b' ts' : cstep (barrier_prog k) (b, ts) e = Some (b', ts') → passes b <= passes b'.
Proof.
  destruct e as [[i ch] ws]. intros Hs. destruct (cstep_inv _ _ _ _ _ _ _ Hs) as (l & b1 & l' & wk & ts1 & _ & Hst & E & _).
  injection E as -> ->. destruct l, ch; cbn in Hst; try discriminate Hst; try (injection Hst as <- _ _; lia).
  destruct (_ =? _); injection Hst as <- _ _; cbn; lia.
Qed.

Lemma bar_reach_inv tgt k b b' ts :
  0 < tgt < 2 ^ 32 → pthread_barrier_init tgt = Some b → passes b' < 2 ^ 32 →
  reachable (barrier_prog k) (b, replicate k Idle) (b', ts) → inv tgt (b', ts).
Proof.
  intros Ht Hb Hp Hr. enough ((passes b' < 2 ^ 32 → inv tgt (b', ts)) ∧ length ts = k) by tauto. revert Hp Hr. intros _.
  apply (reachable_inv _ (λ c, (passes c.1 < 2 ^ 32 → inv tgt c) ∧ length c.2 = k)).
  - intros [b0 ts0] e [b1 ts1] [Hi Hl] Hs. cbn in *. split; [|by rewrite (cstep_length _ _ _ _ _ _ Hs)].
    intros Hp. pose proof (passes_mono _ _ _ _ _ _ Hs). by apply (bar_inv_cstep tgt k b0 ts0 e); auto with lia.
  - unfold pthread_barrier_init in Hb. destruct (Z.eqb_spec tgt 0); [lia|]. injection Hb as <-. cbn. split; [|apply length_replicate].
    intros _. split; cbn; rewrite ?cnt_replicate by done; try done; try lia.
    + intros i l. rewrite lookup_replicate. by intros [-> _].
    + intros _ i l. rewrite lookup_replicate. by intros [-> _].
Qed.

(** ** Properties *)


(** *** Witnesses *)

