(* ===== verification/MemFns.v ===== *)
(** * Memory functions (src/src/string.c)

    mem*, b*, the constant-time comparisons, the checked mem* entry points.
    A pointer is an address, the null pointer 0, [size_t] a number below
    2^64; a writing function returns the pointer C returns and the memory. *)
From S2P Require Import Prelude CMem.

(** ** Word tricks *)

Definition ONES : Z := (2 ^ 64 - 1) / 255.
Definition HIGHS : Z := ONES * (255 / 2 + 1).
Definition HASZERO (x : Z) : Z := Z.land (Z.land (u64 (x - ONES)) (u64 (Z.lnot x))) HIGHS.

(** ** Operations *)

(** rep movsb: ascending byte copy. *)
Definition memcpy (m : mem) (d s n : Z) : res (Z * mem) :=
  m ← loop (fuel m) (λ '(m, d, s, n),
    if n =? 0 then Ok (Brk m) else
    b ← loadb m s; m ← storeb m d b;
    Ok (Cont (m, d + 1, s + 1, n - 1))) (m, d, s, n);
  Ok (d, m).

Definition memmove (m : mem) (d s n : Z) : res (Z * mem) :=
  if n <=? u64 (d - s) then memcpy m d s n else
  let dd := d + n in
  let ss := s + n in
  '(m, dd, ss, n) ← loop (fuel m) (λ '(m, dd, ss, n),
    if (8 <=? n) && negb (dd mod 8 =? 0) then
      b ← loadb m (ss - 1); m ← storeb m (dd - 1) b;
      Ok (Cont (m, dd - 1, ss - 1, n - 1))
    else Ok (Brk (m, dd, ss, n))) (m, dd, ss, n);
  '(m, dd, ss, n) ← loop (fuel m) (λ '(m, dd, ss, n),
    if 8 <=? n then
      w ← load64 m (ss - 8); m ← store64 m (dd - 8) w;
      Ok (Cont (m, dd - 8, ss - 8, n - 8))
    else Ok (Brk (m, dd, ss, n))) (m, dd, ss, n);
  m ← loop (fuel m) (λ '(m, dd, ss, n),
    if n =? 0 then Ok (Brk m) else
    b ← loadb m (ss - 1); m ← storeb m (dd - 1) b;
    Ok (Cont (m, dd - 1, ss - 1, n - 1))) (m, dd, ss, n);
  Ok (d, m).

(** rep stosb: stores the low byte of [c]. *)
Definition memset (m : mem) (d c n : Z) : res (Z * mem) :=
  m ← loop (fuel m) (λ '(m, d, n),
    if n =? 0 then Ok (Brk m) else
    m ← storeb m d c;
    Ok (Cont (m, d + 1, n - 1))) (m, d, n);
  Ok (d, m).

Definition memcmp (m : mem) (a b n : Z) : res Z :=
  '(l, r, n) ← loop (fuel m) (λ '(l, r, n),
    if n =? 0 then Ok (Brk (l, r, n)) else
    x ← loadb m l; y ← loadb m r;
    if x =? y then Ok (Cont (l + 1, r + 1, n - 1)) else Ok (Brk (l, r, n))) (a, b, n);
  if n =? 0 then Ok 0 else x ← loadb m l; y ← loadb m r; Ok (x - y).

Definition bcmp (m : mem) (a b n : Z) : res Z := memcmp m a b n.
Definition bcopy (m : mem) (s d n : Z) : res mem := '(_, m) ← memmove m d s n; Ok m.
Definition bzero (m : mem) (d n : Z) : res mem := '(_, m) ← memset m d 0 n; Ok m.

Definition memchr (m : mem) (src c n : Z) : res Z :=
  let c := u8 c in
  '(s, n) ← loop (fuel m) (λ '(s, n),
    if Z.land s 7 =? 0 then Ok (Brk (s, n)) else
    if n =? 0 then Ok (Brk (s, n)) else
    b ← loadb m s;
    if b =? c then Ok (Brk (s, n)) else Ok (Cont (s + 1, n - 1))) (src, n);
  '(s, n) ← (if n =? 0 then Ok (s, n) else
    b ← loadb m s;
    if b =? c then Ok (s, n) else
    let k := u64 (ONES * c) in
    loop (fuel m) (λ '(w, n),
      if 8 <=? n then
        x ← load64 m w;
        if HASZERO (Z.lxor x k) =? 0 then Ok (Cont (w + 8, n - 8)) else Ok (Brk (w, n))
      else Ok (Brk (w, n))) (s, n));
  '(s, n) ← loop (fuel m) (λ '(s, n),
    if n =? 0 then Ok (Brk (s, n)) else
    b ← loadb m s;
    if b =? c then Ok (Brk (s, n)) else Ok (Cont (s + 1, n - 1))) (s, n);
  Ok (if n =? 0 then 0 else s).

Definition memrchr (m : mem) (s c n : Z) : res Z :=
  let c := u8 c in
  loop (fuel m) (λ n,
    if n =? 0 then Ok (Brk 0) else
    b ← loadb m (s + (n - 1));
    if b =? c then Ok (Brk (s + (n - 1))) else Ok (Cont (n - 1))) n.

Definition mempcpy (m : mem) (d s n : Z) : res (Z * mem) :=
  '(r, m) ← memcpy m d s n; Ok (r + n, m).

Definition memccpy (m : mem) (d s c n : Z) : res (Z * mem) :=
  let c := u8 c in
  loop (fuel m) (λ '(m, dd, ss, n),
    if n =? 0 then Ok (Brk (0, m)) else
    b ← loadb m ss; m ← storeb m dd b;
    if b =? c then Ok (Brk (dd + 1, m)) else Ok (Cont (m, dd + 1, ss + 1, n - 1)))
    (m, d, s, n).

Definition memmem (m : mem) (h0 k n0 l : Z) : res Z :=
  if l =? 0 then Ok h0 else
  if k <? l then Ok 0 else
  let en := h0 + (k - l) + 1 in
  loop (fuel m) (λ h,
    if h <? en then
      c ← loadb m n0;
      h ← memchr m h c (en - h);
      if h =? 0 then Ok (Brk 0) else
      r ← memcmp m h n0 l;
      if r =? 0 then Ok (Brk h) else Ok (Cont (h + 1))
    else Ok (Brk 0)) h0.

(** The compiler barrier has no effect on the memory. *)
Definition explicit_bzero (m : mem) (d n : Z) : res mem := '(_, m) ← memset m d 0 n; Ok m.

Definition timingsafe_bcmp (m : mem) (a b n : Z) : res Z :=
  r ← loop (fuel m) (λ '(i, r),
    if i <? n then
      x ← loadb m (a + i); y ← loadb m (b + i);
      Ok (Cont (i + 1, u8 (Z.lor r (Z.lxor x y))))
    else Ok (Brk r)) (0, 0);
  Ok (if r =? 0 then 0 else 1).

Definition timingsafe_memcmp (m : mem) (a b n : Z) : res Z :=
  loop (fuel m) (λ '(i, rs, don),
    if i <? n then
      x ← loadb m (a + i); y ← loadb m (b + i);
      let lt := Z.shiftr (x - y) 8 in
      let gt := Z.shiftr (y - x) 8 in
      let cmp := lt - gt in
      Ok (Cont (i + 1, Z.lor rs (Z.land cmp (Z.lnot don)), Z.lor don (Z.lor lt gt)))
    else Ok (Brk rs)) (0, 0, 0).

(** __builtin_ffs at width [w]: one plus the index of the lowest set bit. *)
Definition builtin_ffs (w : nat) (i : Z) : Z :=
  match filter (λ k : nat, Z.testbit i k = true) (seq 0 w) with
  | [] => 0
  | k :: _ => k + 1
  end.
Definition ffs (i : Z) : Z := builtin_ffs 32 i.
Definition ffsl (i : Z) : Z := builtin_ffs 64 i.
Definition ffsll (i : Z) : Z := builtin_ffs 64 i.

Definition __memcpy_chk (m : mem) (d s n dl : Z) : res (Z * mem) :=
  if dl <? n then Trap Abrt else memcpy m d s n.
Definition __memmove_chk (m : mem) (d s n dl : Z) : res (Z * mem) :=
  if dl <? n then Trap Abrt else memmove m d s n.
Definition __memset_chk (m : mem) (d c n dl : Z) : res (Z * mem) :=
  if dl <? n then Trap Abrt else memset m d c n.
Definition __mempcpy_chk (m : mem) (d s n dl : Z) : res (Z * mem) :=
  if dl <? n then Trap Abrt else mempcpy m d s n.

(** ** The word test *)

(** [HASZERO] on [k]-byte words: the constants of the source for k = 8. *)
Fixpoint rep_byte (k : nat) (c : Z) : Z :=
  match k with O => 0 | S k => c + 256 * rep_byte k c end.

Lemma ONES_rep : ONES = rep_byte 8 1.
Proof. reflexivity. Qed.

Lemma HIGHS_rep : HIGHS = rep_byte 8 128.
Proof. reflexivity. Qed.

Lemma rep_byte_mul k c : rep_byte k c = c * rep_byte k 1.
Proof. induction k as [|k IH]; cbn [rep_byte]; lia. Qed.

(** Bitwise operations act separately on the low byte and on the rest. *)
Lemma byte_split_bits a a' i :
  is_byte a → 0 <= i →
  Z.testbit (a + 256 * a') i = if i <? 8 then Z.testbit a i else Z.testbit a' (i - 8).
Proof.
  intros Ha Hi. unfold is_byte in Ha. change 256 with (2 ^ 8) in *.
  destruct (Z.ltb_spec i 8) as [Hlt|Hge].
  - rewrite Z.mul_comm, <- Z.mod_pow2_bits_low with (n := 8) by lia.
    rewrite Z.mod_add by lia. by rewrite Z.mod_small.
  - replace i with ((i - 8) + 8) at 1 by lia.
    rewrite <- Z.div_pow2_bits by lia. rewrite Z.mul_comm, Z.div_add by lia.
    rewrite Z.div_small by lia. done.
Qed.

Ltac byte_bits :=
  apply Z.bits_inj'; intros i Hi; rewrite ?Z.land_spec, ?Z.lxor_spec;
  rewrite !byte_split_bits by auto; case_match; rewrite ?Z.land_spec, ?Z.lxor_spec; done.

Lemma land_split a a' b b' :
  is_byte a → is_byte b →
  Z.land (a + 256 * a') (b + 256 * b') = Z.land a b + 256 * Z.land a' b'.
Proof. intros Ha Hb. pose proof (byte_land a b Ha Hb). byte_bits. Qed.

Lemma lxor_split a a' b b' :
  is_byte a → is_byte b →
  Z.lxor (a + 256 * a') (b + 256 * b') = Z.lxor a b + 256 * Z.lxor a' b'.
Proof. intros Ha Hb. pose proof (byte_lxor a b Ha Hb). byte_bits. Qed.

Lemma lnot_split a a' : Z.lnot (a + 256 * a') = (255 - a) + 256 * Z.lnot a'.
Proof. unfold Z.lnot. lia. Qed.

Lemma rep_byte_nonneg k c : 0 <= c → 0 <= rep_byte k c.
Proof. intros. induction k as [|k IH]; cbn [rep_byte]; lia. Qed.

(** The value of the test, without the wrap-around of size_t. *)
Definition haszero (k : nat) (x : Z) : Z :=
  Z.land (Z.land (x - rep_byte k 1) (Z.lnot x)) (rep_byte k 128).

Lemma haszero_nonneg k x : 0 <= haszero k x.
Proof. apply Z.land_nonneg. right. by apply rep_byte_nonneg. Qed.

Lemma haszero_low_byte b :
  is_byte b → b ≠ 0 → Z.land (Z.land (b - 1) (255 - b)) 128 = 0.
Proof.
  intros H Hne. assert ((b =? 0) || (Z.land (Z.land (b - 1) (255 - b)) 128 =? 0) = true) as Ht.
  { clear Hne. revert b H. apply byte_forall. vm_compute. done. }
  apply orb_true_iff in Ht as [?|?]; zbool; done.
Qed.

Lemma haszero_spec l :
  Forall is_byte l → haszero (length l) (le_word l) = 0 ↔ 0 ∉ l.
Proof.
  induction 1 as [|b l Hb Hl IH]; [by split; [intros _; apply not_elem_of_nil|]|].
  cbn [length le_word]. unfold haszero in *. cbn [rep_byte].
  set (X := le_word l) in *. set (O' := rep_byte (length l) 1) in *.
  assert (is_byte 128) as H128 by done.
  rewrite lnot_split, elem_of_cons. unfold is_byte in Hb.
  destruct (decide (b = 0)) as [->|Hne].
  - replace (0 + 256 * X - (1 + 256 * O')) with (255 + 256 * (X - O' - 1)) by lia.
    rewrite !land_split by (first [done | by apply byte_land]).
    change (Z.land (Z.land 255 (255 - 0)) 128) with 128.
    pose proof (Z.land_nonneg (Z.land (X - O' - 1) (Z.lnot X)) (rep_byte (length l) 128)) as [_ Hn].
    specialize (Hn (or_intror (rep_byte_nonneg (length l) 128 ltac:(lia)))). split; [lia|].
    intros Hc. destruct Hc. by left.
  - replace (b + 256 * X - (1 + 256 * O')) with ((b - 1) + 256 * (X - O')) by lia.
    assert (is_byte (b - 1)) by (unfold is_byte; lia).
    assert (is_byte (255 - b)) by (unfold is_byte; lia).
    rewrite !land_split by (first [done | by apply byte_land]).
    rewrite haszero_low_byte by (done || unfold is_byte; lia).
    rewrite Z.add_0_l. split.
    + intros ?. intros [?|?]; [done|]. apply IH; [lia | done].
    + intros Hn. cut (0 ∉ l); [|by intros ?; apply Hn; right]. intros ?%IH. lia.
Qed.

Lemma HASZERO_haszero x : HASZERO x = haszero 8 x.
Proof.
  unfold HASZERO, haszero, uwrap. rewrite <- ONES_rep, <- HIGHS_rep.
  apply Z.bits_inj'. intros i Hi. rewrite !Z.land_spec.
  destruct (decide (i < 64)) as [?|?].
  - by rewrite !Z.mod_pow2_bits_low.
  - replace (Z.testbit HIGHS i) with false; [by rewrite !andb_false_r|].
    symmetry. apply Z.bits_above_log2; [done|]. change (Z.log2 HIGHS) with 63. lia.
Qed.

Lemma HASZERO_spec l :
  Forall is_byte l → length l = 8%nat → HASZERO (le_word l) = 0 ↔ 0 ∉ l.
Proof. intros Hl Hlen. rewrite HASZERO_haszero, <- Hlen. by apply haszero_spec. Qed.

Lemma le_word_lxor l c :
  Forall is_byte l → is_byte c →
  Z.lxor (le_word l) (rep_byte (length l) c) = le_word ((λ b, Z.lxor b c) <$> l).
Proof.
  intros Hl Hc. induction Hl as [|b l Hb Hl IH]; [done|].
  rewrite fmap_cons. cbn [length le_word rep_byte]. by rewrite lxor_split, IH.
Qed.

Lemma lxor_mem (l : list Z) c : c ∉ l ↔ 0 ∉ ((λ b, Z.lxor b c) <$> l).
Proof.
  rewrite list_elem_of_fmap. split; intros H; contradict H.
  - destruct H as (b & ?%eq_sym%Z.lxor_eq & ?). by subst.
  - exists c. by rewrite Z.lxor_nilpotent.
Qed.

(** A word without the byte [c], tested as memchr and strchrnul do. *)
Lemma HASZERO_lxor l c :
  Forall is_byte l → length l = 8%nat → is_byte c →
  HASZERO (Z.lxor (le_word l) (u64 (ONES * c))) = 0 ↔ c ∉ l.
Proof.
  intros Hl Hlen Hc.
  replace (u64 (ONES * c)) with (rep_byte (length l) c).
  - rewrite le_word_lxor by done. rewrite lxor_mem. apply HASZERO_spec.
    + apply Forall_fmap. eapply Forall_impl; [done|]. intros b Hb. by apply byte_lxor.
    + by rewrite length_fmap.
  - rewrite Hlen, rep_byte_mul, <- ONES_rep. unfold is_byte in Hc.
    rewrite uwrap_small; [lia|]. change ONES with 72340172838076673. lia.
Qed.

(** ** Copying and filling *)

Lemma fuel_bytes m p l : bytes m p l → (length l < fuel m)%nat.
Proof. intros H%bytes_size. unfold fuel. lia. Qed.

Lemma fuel_mapped m p n : mapped m p n → (Z.to_nat n < fuel m)%nat.
Proof. intros H%mapped_size. unfold fuel. lia. Qed.

(** Writing past what is written already extends it. *)
Lemma write_snoc m p l b :
  <[p + length l := b]> (write m p l) = write m p (l ++ [b]).
Proof. by rewrite write_app. Qed.

(** The source is not overwritten before it is read when the destination
    does not start inside it, or starts before it. *)
Lemma memcpy_forward m d s l :
  bytes m s l → mapped m d (length l) → Forall is_byte l →
  d <= s ∨ s + length l <= d →
  memcpy m d s (length l) = Ok (d, write m d l).
Proof.
  intros Hs Hd Hl Hov. unfold memcpy. apply wp_eq_r. wp_pure.
  apply (wp_loop (λ '(m', d', s', n'), ∃ l1 l2, l = l1 ++ l2 ∧ m' = write m d l1 ∧
      d' = d + length l1 ∧ s' = s + length l1 ∧ n' = Z.of_nat (length l2))
    (λ '(_, _, _, n), Z.to_nat n)).
  - intros [[[m' d'] s'] n'] (l1 & l2 & -> & -> & -> & -> & ->).
    rewrite length_app in Hd, Hov. destruct (Z.eqb_spec (length l2) 0) as [E|E].
    + destruct l2; [|done]. rewrite app_nil_r. by wp_pure.
    + destruct l2 as [|b l2]; [done|]. apply bytes_app in Hs as [Hs1 Hs2].
      apply bytes_cons in Hs2 as [Hb _]. apply Forall_app in Hl as [_ [Hbb _]%Forall_cons].
      wp_pure. eapply wp_loadb; [rewrite write_out by (simpl in *; lia); exact Hb|].
      wp_pure. apply wp_storeb; [apply (mapped_write _ _ _ _ _ Hd); simpl; lia|].
      rewrite u8_id by done. wp_pure. split; [|simpl; lia].
      exists (l1 ++ [b]), l2. rewrite write_snoc, length_app, <- app_assoc. simpl.
      split_and!; [done.. | lia | lia | lia].
  - exists [], l. simpl. split_and!; [done.. | lia | lia | lia].
  - rewrite Nat2Z.id. by eapply fuel_bytes.
Qed.

(** State of a backward copy when the last bytes have been copied. *)
Definition back_inv (m : mem) (d s : Z) (l : list Z) (st : mem * Z * Z * Z) : Prop :=
  let '(m', dd, ss, n) := st in
  ∃ l1 l2, l = l1 ++ l2 ∧ m' = write m (d + length l1) l2 ∧
    dd = d + length l1 ∧ ss = s + length l1 ∧ n = length l1.

Section Backward.
Context (m : mem) (d s : Z) (l : list Z).
Context (Hs : bytes m s l) (Hd : mapped m d (length l)) (Hl : Forall is_byte l).
Context (Hov : s <= d).

(** One byte of a backward copy. *)
Lemma back_byte m' dd ss n :
  back_inv m d s l (m', dd, ss, n) → 0 < n →
  wp (loadb m' (ss - 1)) (λ b, wp (storeb m' (dd - 1) b) (λ m'',
    back_inv m d s l (m'', dd - 1, ss - 1, n - 1))).
Proof.
  intros (l1 & l2 & -> & -> & -> & -> & ->) Hn.
  destruct l1 as [|b l1 _] using rev_ind; [simpl in Hn; lia|].
  rewrite !length_app in *. simpl in *. rewrite <- app_assoc in Hs, Hl. simpl in Hs, Hl.
  apply bytes_app in Hs as [_ [Hb _]%bytes_cons].
  apply Forall_app in Hl as [_ [Hbb _]%Forall_cons].
  replace (s + (length l1 + 1)%nat - 1) with (s + length l1) by lia.
  replace (d + (length l1 + 1)%nat - 1) with (d + length l1) by lia.
  eapply wp_loadb; [rewrite write_out by lia; exact Hb|].
  apply wp_storeb; [apply (mapped_write _ _ _ _ _ Hd); lia|].
  exists l1, (b :: l2). rewrite <- app_assoc. split_and!; [done | | lia | lia | lia].
  rewrite u8_id by done. cbn [write].
  replace (d + (length l1 + 1)%nat) with (d + length l1 + 1) by lia.
  apply map_eq. intros a. destruct (decide (a = d + length l1)) as [->|Hne].
  - by rewrite lookup_insert_eq, write_out, lookup_insert_eq by lia.
  - rewrite lookup_insert_ne by done. rewrite !lookup_write. case_decide; [done|].
    by rewrite lookup_insert_ne.
Qed.

(** One word of a backward copy. *)
Lemma back_word m' dd ss n :
  back_inv m d s l (m', dd, ss, n) → 8 <= n →
  wp (load64 m' (ss - 8)) (λ w, wp (store64 m' (dd - 8) w) (λ m'',
    back_inv m d s l (m'', dd - 8, ss - 8, n - 8))).
Proof.
  intros (l1 & l2 & -> & -> & -> & -> & ->) Hn.
  set (k := (length l1 - 8)%nat). pose (w := drop k l1). pose (l0 := take k l1).
  assert (length w = 8%nat) as Hw by (unfold w, k; rewrite length_drop; lia).
  assert (l1 = l0 ++ w) as E by (symmetry; apply take_drop).
  clearbody w l0. subst l1. clear k. rewrite !length_app, Hw in *.
  rewrite <- app_assoc in Hs, Hl. apply bytes_app in Hs as [_ [Hb _]%bytes_app].
  apply Forall_app in Hl as [_ [Hbb _]%Forall_app].
  replace (s + (length l0 + 8)%nat - 8) with (s + length l0) by lia.
  replace (d + (length l0 + 8)%nat - 8) with (d + length l0) by lia.
  eapply wp_of_eq; [apply load64_ok with (l := w); [|done]|].
  { apply bytes_write_out; [left; lia | done]. }
  pose proof (le_split_word w Hbb) as Hls. rewrite Hw in Hls. unfold store64. rewrite Hls.
  eapply wp_of_eq; [apply store_list_ok; [|done]|].
  { apply mapped_write. eapply mapped_mono; [exact Hd | lia | lia]. }
  exists l0, (w ++ l2). rewrite <- app_assoc. split_and!; [done | | lia | lia | lia].
  replace (d + (length l0 + 8)%nat) with (d + length l0 + length w) by lia.
  apply map_eq. intros a. rewrite write_app, !lookup_write.
  repeat case_decide; done || lia.
Qed.

Lemma back_done m' dd ss : back_inv m d s l (m', dd, ss, 0) → m' = write m d l.
Proof.
  intros (l1 & l2 & -> & -> & _ & _ & E). destruct l1; [|done]. simpl. by rewrite Z.add_0_r.
Qed.

Lemma back_fuel m' dd ss n : back_inv m d s l (m', dd, ss, n) → (Z.to_nat n < fuel m')%nat.
Proof.
  intros (l1 & l2 & E & -> & _ & _ & ->). rewrite fuel_write.
  - rewrite Nat2Z.id. apply (f_equal length) in E. rewrite length_app in E.
    apply fuel_bytes in Hs. lia.
  - eapply mapped_mono; [exact Hd | lia |]. rewrite E, length_app. lia.
Qed.
End Backward.

Lemma u64_sub_ge d s n :
  0 <= d < 2 ^ 64 → 0 <= s → s + n <= 2 ^ 64 → 0 <= n →
  n <= u64 (d - s) → d <= s ∨ s + n <= d.
Proof.
  intros Hd Hs Hn Hn0 H. destruct (decide (d <= s)); [by left|right].
  rewrite uwrap_small in H by lia. lia.
Qed.

Lemma u64_sub_lt d s n :
  0 <= d < 2 ^ 64 → 0 <= s → s + n <= 2 ^ 64 → u64 (d - s) < n → s <= d.
Proof.
  intros Hd Hs Hn H. destruct (decide (s <= d)); [done|].
  pose proof (uwrap_range 64 (d - s)).
  assert (u64 (d - s) = d - s + 2 ^ 64) as E; [|lia].
  symmetry. apply Z.mod_unique with (-1); lia.
Qed.

Lemma mem_ok_range m p n : mem_ok m → mapped m p n → 0 < n → 0 < p ∧ p + n <= 2 ^ 64.
Proof.
  intros Hok Hm Hn. destruct (Hm p) as [v Hv]; [lia|]. destruct (Hm (p + n - 1)) as [v' Hv']; [lia|].
  apply (mem_addr _ Hok) in Hv. apply (mem_addr _ Hok) in Hv'. lia.
Qed.

Lemma mem_ok_bytes m p l : mem_ok m → bytes m p l → Forall is_byte l.
Proof.
  intros Hok Hb. apply Forall_lookup_2. intros i x Hx. apply (mem_byte _ Hok (p + i)). by apply Hb.
Qed.

Lemma memcpy_zero m d s : memcpy m d s 0 = Ok (d, m).
Proof. reflexivity. Qed.

(** The three loops of the backward branch, in turn. *)
Lemma memmove_backward m d s l :
  bytes m s l → mapped m d (length l) → Forall is_byte l → s <= d →
  u64 (d - s) < length l → memmove m d s (length l) = Ok (d, write m d l).
Proof.
  intros Hs Hd Hl Hov Hlt. unfold memmove.
  destruct (Z.leb_spec (length l) (u64 (d - s))) as [?|_]; [lia|].
  assert (back_inv m d s l (m, d + length l, s + length l, Z.of_nat (length l))) as H0.
  { exists l, []. rewrite app_nil_r. split_and!; done. }
  set (μ := λ st : mem * Z * Z * Z, let '(_, _, _, n) := st in Z.to_nat n).
  apply wp_eq_r. wp_pure. eapply wp_mono.
  { apply (wp_loop (back_inv m d s l) μ _ (back_inv m d s l)); [|exact H0|by eapply back_fuel].
    intros [[[m1 dd] ss] n] HI. case_match eqn:E; [|by wp_pure].
    apply andb_true_iff in E as [E _]. zbool. wp_pure.
    eapply wp_mono; [eapply back_byte; eauto; lia|]. intros b Hb. wp_pure.
    eapply wp_mono; [exact Hb|]. intros m2 H2. wp_pure. split; [done | unfold μ; lia]. }
  intros [[[m1 dd1] ss1] n1] H1. wp_pure. eapply wp_mono.
  { apply (wp_loop (back_inv m d s l) μ _ (back_inv m d s l)); [|exact H1|by eapply back_fuel].
    intros [[[m2 dd] ss] n] HI. case_match eqn:E; [|by wp_pure].
    zbool. wp_pure.
    eapply wp_mono; [eapply back_word; eauto|]. intros w Hw. wp_pure.
    eapply wp_mono; [exact Hw|]. intros m3 H3. wp_pure. split; [done | unfold μ; lia]. }
  intros [[[m2 dd2] ss2] n2] H2. wp_pure.
  apply (wp_loop (back_inv m d s l) μ); [|exact H2|by eapply back_fuel].
  intros [[[m3 dd] ss] n] HI. case_match eqn:E; zbool; wp_pure.
  - subst n. by apply back_done in HI as ->.
  - assert (0 < n) by (destruct HI as (?&?&?&?&?&?&->); lia).
    eapply wp_mono; [eapply back_byte; eauto|]. intros b Hb. wp_pure.
    eapply wp_mono; [exact Hb|]. intros m4 H4. wp_pure. split; [done | unfold μ; lia].
Qed.

Lemma memmove_ok m d s l :
  mem_ok m → bytes m s l → mapped m d (length l) →
  memmove m d s (length l) = Ok (d, write m d l).
Proof.
  intros Hok Hs Hd. pose proof (mem_ok_bytes _ _ _ Hok Hs) as Hl.
  destruct (decide (length l = 0)%nat) as [Hz|Hz].
  { destruct l; [|done]. unfold memmove. cbn [length write]. change (Z.of_nat 0) with 0.
    destruct (Z.leb_spec 0 (u64 (d - s))); [apply memcpy_zero|]. pose proof (uwrap_range 64 (d - s)). lia. }
  destruct (mem_ok_range _ _ _ Hok (bytes_mapped _ _ _ Hs)) as [? ?]; [lia|].
  destruct (mem_ok_range _ _ _ Hok Hd) as [? ?]; [lia|].
  destruct (decide (length l <= u64 (d - s))) as [Hge|Hlt].
  - unfold memmove. destruct (Z.leb_spec (length l) (u64 (d - s))); [|lia].
    apply memcpy_forward; [done..|]. apply u64_sub_ge; lia.
  - apply memmove_backward; [done..| |lia]. apply (u64_sub_lt d s (length l)); lia.
Qed.

Lemma memset_ok m d c n :
  0 <= n → mapped m d n → memset m d c n = Ok (d, write m d (replicate (Z.to_nat n) (u8 c))).
Proof.
  intros Hn Hd. unfold memset. apply wp_eq_r. wp_pure.
  apply (wp_loop (λ '(m', d', n'), ∃ k : nat, k <= n ∧ m' = write m d (replicate k (u8 c)) ∧
      d' = d + k ∧ n' = n - k) (λ '(_, _, n), Z.to_nat n)).
  - intros [[m' d'] n'] (k & Hk & -> & -> & ->). destruct (Z.eqb_spec (n - k) 0) as [E|E]; wp_pure.
    + by replace (Z.to_nat n) with k by lia.
    + apply wp_storeb; [apply (mapped_write _ _ _ _ _ Hd); lia|]. wp_pure. split; [|lia].
      exists (S k). rewrite replicate_S_end, write_app, length_replicate. simpl.
      split_and!; [lia | done | lia | lia].
  - exists 0%nat. simpl. split_and!; [lia | done | lia | lia].
  - by eapply fuel_mapped.
Qed.

(** ** Comparison *)

(** The value memcmp returns: the difference of the first bytes that differ. *)
Fixpoint cmp_bytes (l1 l2 : list Z) : Z :=
  match l1, l2 with
  | x :: l1, y :: l2 => if x =? y then cmp_bytes l1 l2 else x - y
  | _, _ => 0
  end.

Lemma cmp_bytes_app l l1 l2 : cmp_bytes (l ++ l1) (l ++ l2) = cmp_bytes l1 l2.
Proof. induction l as [|x l IH]; [done|]. simpl. by rewrite Z.eqb_refl. Qed.

Lemma cmp_bytes_eq l1 l2 :
  length l1 = length l2 → cmp_bytes l1 l2 = 0 ↔ l1 = l2.
Proof.
  revert l2. induction l1 as [|x l1 IH]; intros [|y l2]; try done. intros [= Hl]. simpl.
  destruct (Z.eqb_spec x y) as [->|Hne].
  - rewrite (IH _ Hl). split; congruence.
  - split; [lia | congruence].
Qed.

Lemma cmp_bytes_antisym l1 l2 : cmp_bytes l2 l1 = - cmp_bytes l1 l2.
Proof.
  revert l2. induction l1 as [|x l1 IH]; intros [|y l2]; simpl; try done.
  rewrite Z.eqb_sym. destruct (Z.eqb_spec x y); [done | lia].
Qed.

Lemma memcmp_ok m a b l1 l2 :
  bytes m a l1 → bytes m b l2 → length l1 = length l2 →
  memcmp m a b (length l1) = Ok (cmp_bytes l1 l2).
Proof.
  intros H1 H2 Hlen. unfold memcmp. apply wp_eq_r. wp_pure.
  apply (wp_loop (λ '(l, r, n), ∃ k r1 r2, l1 = k ++ r1 ∧ l2 = k ++ r2 ∧
      l = a + length k ∧ r = b + length k ∧ n = Z.of_nat (length r1)) (λ '(_, _, n), Z.to_nat n)).
  - intros [[l r] n] (k & r1 & r2 & -> & -> & -> & -> & ->). rewrite cmp_bytes_app.
    rewrite !length_app in Hlen. destruct (Z.eqb_spec (length r1) 0) as [E|E].
    + destruct r1; [|done]. change (Z.of_nat (length [])) with 0. by wp_pure.
    + destruct r1 as [|x r1], r2 as [|y r2]; try (simpl in *; lia).
      apply bytes_app in H1 as [_ [Hx _]%bytes_cons]. apply bytes_app in H2 as [_ [Hy _]%bytes_cons].
      wp_pure. eapply wp_loadb; [done|]. wp_pure. eapply wp_loadb; [done|]. simpl cmp_bytes.
      destruct (Z.eqb_spec x y) as [->|Hne]; wp_pure.
      * split; [|simpl; lia]. exists (k ++ [y]), r1, r2.
        rewrite <- !app_assoc, length_app. simpl. split_and!; [done.. | lia | lia | lia].
      * destruct (Z.eqb_spec (length (x :: r1)) 0); [done|]. wp_pure.
        eapply wp_loadb; [done|]. wp_pure. eapply wp_loadb; [done|]. by wp_pure.
  - exists [], l1, l2. simpl. split_and!; [done.. | lia | lia | lia].
  - rewrite Nat2Z.id. by eapply fuel_bytes.
Qed.

Lemma timingsafe_bcmp_ok m a b l1 l2 :
  bytes m a l1 → bytes m b l2 → length l1 = length l2 → Forall is_byte l1 → Forall is_byte l2 →
  timingsafe_bcmp m a b (length l1) = Ok (if bool_decide (l1 = l2) then 0 else 1).
Proof.
  intros H1 H2 Hlen Hb1 Hb2. unfold timingsafe_bcmp. apply wp_eq_r. wp_pure.
  apply (wp_loop (λ '(i, r), ∃ k : nat, i = Z.of_nat k ∧ k <= length l1 ∧ is_byte r ∧
      (r = 0 ↔ take k l1 = take k l2)) (λ '(i, _), Z.to_nat (length l1 - i))).
  - intros [i r] (k & -> & Hk & Hr & Heq). destruct (Z.ltb_spec k (length l1)) as [Hlt|Hge]; wp_pure.
    + destruct (lookup_lt_is_Some_2 l1 k) as [x Hx]; [lia|].
      destruct (lookup_lt_is_Some_2 l2 k) as [y Hy]; [lia|].
      eapply wp_loadb; [by apply H1|]. wp_pure. eapply wp_loadb; [by apply H2|]. wp_pure.
      split; [|lia]. exists (S k). assert (is_byte x) by (by eapply Forall_lookup_1 in Hb1).
      assert (is_byte y) by (by eapply Forall_lookup_1 in Hb2).
      rewrite (take_S_r _ _ _ Hx), (take_S_r _ _ _ Hy). split_and!; [lia | lia | apply u8_byte |].
      rewrite u8_id by auto with wp. rewrite Z.lor_eq_0_iff, Heq, Z.lxor_eq_0_iff. split.
      * by intros [-> ->].
      * intros [? [= ->]]%app_inj_2; [|done]. done.
    + assert (k = length l1) as -> by lia. rewrite take_ge in Heq by lia.
      rewrite take_ge in Heq by lia. destruct (Z.eqb_spec r 0); case_bool_decide; tauto.
  - exists 0%nat. unfold is_byte. split_and!; [done | lia | lia | lia | done].
  - rewrite Z.sub_0_r, Nat2Z.id. by eapply fuel_bytes.
Qed.

Lemma cmp_bytes_snoc l1 l2 x y :
  length l1 = length l2 →
  cmp_bytes (l1 ++ [x]) (l2 ++ [y]) =
  if cmp_bytes l1 l2 =? 0 then (if x =? y then 0 else x - y) else cmp_bytes l1 l2.
Proof.
  revert l2. induction l1 as [|a l1 IH]; intros [|b l2]; simpl; try done.
  intros [= Hl]. rewrite (IH _ Hl). destruct (Z.eqb_spec a b); [done|].
  destruct (Z.eqb_spec (a - b) 0); [lia | done].
Qed.

Lemma shiftr_sub_byte x y : is_byte x → is_byte y → Z.shiftr (x - y) 8 = if x <? y then -1 else 0.
Proof.
  unfold is_byte. intros. rewrite Z.shiftr_div_pow2 by lia. change (2 ^ 8) with 256.
  destruct (Z.ltb_spec x y); [symmetry; apply Z.div_unique with (x - y + 256); lia|].
  apply Z.div_small. lia.
Qed.

(** The constant-time comparison computes the sign of memcmp. *)
Lemma timingsafe_memcmp_ok m a b l1 l2 :
  bytes m a l1 → bytes m b l2 → length l1 = length l2 → Forall is_byte l1 → Forall is_byte l2 →
  timingsafe_memcmp m a b (length l1) = Ok (Z.sgn (cmp_bytes l1 l2)).
Proof.
  intros H1 H2 Hlen Hb1 Hb2. unfold timingsafe_memcmp. apply wp_eq_r.
  apply (wp_loop (λ '(i, r, d), ∃ k : nat, i = Z.of_nat k ∧ k <= length l1 ∧
      r = Z.sgn (cmp_bytes (take k l1) (take k l2)) ∧ d = (if r =? 0 then 0 else -1))
    (λ '(i, _, _), Z.to_nat (length l1 - i))).
  - intros [[i r] d] (k & -> & Hk & -> & ->). destruct (Z.ltb_spec k (length l1)) as [Hlt|Hge]; wp_pure.
    + destruct (lookup_lt_is_Some_2 l1 k) as [x Hx]; [lia|].
      destruct (lookup_lt_is_Some_2 l2 k) as [y Hy]; [lia|].
      eapply wp_loadb; [by apply H1|]. wp_pure. eapply wp_loadb; [by apply H2|]. wp_pure.
      assert (is_byte x) by (by eapply Forall_lookup_1 in Hb1).
      assert (is_byte y) by (by eapply Forall_lookup_1 in Hb2).
      split; [|lia]. exists (S k). split_and!; [lia | lia | |].
      all: rewrite ?(take_S_r _ _ _ Hx), ?(take_S_r _ _ _ Hy), ?cmp_bytes_snoc by (rewrite !length_take; lia).
      all: rewrite !shiftr_sub_byte by done; set (c := cmp_bytes _ _).
      all: destruct (Z.sgn_spec c) as [[? ->]|[[? ->]|[? ->]]].
      all: destruct (Z.eqb_spec c 0); try lia; destruct (Z.eqb_spec x y), (Z.ltb_spec x y), (Z.ltb_spec y x); try lia; try done.
      all: rewrite ?(Z.sgn_pos (x - y)), ?(Z.sgn_neg (x - y)), ?(Z.sgn_pos c), ?(Z.sgn_neg c) by lia; done.
    + by rewrite !take_ge by lia.
  - exists 0%nat. split_and!; [done | lia | done | done].
  - rewrite Z.sub_0_r, Nat2Z.id. by eapply fuel_bytes.
Qed.

(** ** Searching *)

Fixpoint index_of (c : Z) (l : list Z) : option nat :=
  match l with
  | [] => None
  | x :: l => if x =? c then Some 0%nat else S <$> index_of c l
  end.

Lemma index_of_None c l : index_of c l = None ↔ c ∉ l.
Proof.
  induction l as [|x l IH]; simpl; [split; [intros _; apply not_elem_of_nil | done]|].
  rewrite not_elem_of_cons. destruct (Z.eqb_spec x c) as [->|].
  - split; [done | by intros [? _]].
  - rewrite fmap_None, IH. split; [split; congruence | tauto].
Qed.

Lemma index_of_Some c l i : index_of c l = Some i ↔ l !! i = Some c ∧ c ∉ take i l.
Proof.
  revert i. induction l as [|x l IH]; intros i; simpl.
  { rewrite lookup_nil. split; [done | by intros []]. }
  destruct (Z.eqb_spec x c) as [->|Hne].
  - destruct i as [|i]; simpl; [split; [intros _; split; [done | apply not_elem_of_nil] | done]|].
    rewrite not_elem_of_cons. split; [done | tauto].
  - rewrite fmap_Some. destruct i as [|i]; simpl.
    + split; [intros (? & _ & ?); done | intros [[= ?] _]; done].
    + rewrite not_elem_of_cons. split.
      * intros (j & Hj & [= ->]). apply IH in Hj as [? ?]. done.
      * intros (? & _ & ?). exists i. by rewrite IH.
Qed.

Lemma index_of_lt c l i : index_of c l = Some i → (i < length l)%nat.
Proof. intros [H _]%index_of_Some. by eapply lookup_lt_Some. Qed.

Lemma index_of_app c l1 l2 :
  c ∉ l1 → index_of c (l1 ++ l2) = Nat.add (length l1) <$> index_of c l2.
Proof.
  induction l1 as [|x l1 IH]; simpl; [by destruct (index_of c l2)|].
  rewrite not_elem_of_cons. intros [? Hn]. destruct (Z.eqb_spec x c); [congruence|].
  rewrite (IH Hn). by destruct (index_of c l2).
Qed.

Lemma land_7_mod s : Z.land s 7 = s mod 8.
Proof. change 7 with (Z.ones 3). by rewrite Z.land_ones. Qed.

(** An aligned word that starts at a mapped byte can be read, and begins
    with the bytes known to be there. *)
Lemma aligned_word m s l :
  mem_ok m → s mod 8 = 0 → bytes m s l → l ≠ [] →
  ∃ w, load64 m s = Ok (le_word w) ∧ length w = 8%nat ∧ Forall is_byte w ∧
    take 8 l = take (length l) w.
Proof.
  intros Hok Hal Hb Hne. destruct l as [|x l']; [done|]. set (l := x :: l') in *.
  assert (m !! s = Some x) as Hx by (by apply bytes_cons in Hb as [? _]).
  assert (mapped m s 8) as Hm.
  { pose proof (mem_word _ Hok s ltac:(eauto)) as Hm. by replace (8 * (s / 8)) with s in Hm by zdiv. }
  destruct (mapped_bytes m s 8) as (w & Hw & Hlen); [lia | done|].
  exists w. split_and!; [by apply load64_ok; [|lia] | lia | by eapply mem_ok_bytes |].
  apply (bytes_inj m s).
  - rewrite <- (take_drop 8 l) in Hb. by apply bytes_app in Hb as [? _].
  - rewrite <- (take_drop (length l) w) in Hw. by apply bytes_app in Hw as [? _].
  - rewrite !length_take. lia.
Qed.

(** Where a search for [c] in the [n] bytes at [s] stands: [l] are the bytes
    that may be looked at. When [c] occurs in [l], [n] may be larger. *)
Definition scannable (c n : Z) (l : list Z) : Prop :=
  n = length l ∨ (c ∈ l ∧ length l <= n).

Definition scan_st (s c n : Z) (l : list Z) (st : Z * Z) : Prop :=
  let '(s', n') := st in
  ∃ l1 l2, l = l1 ++ l2 ∧ (c ∉ l1) ∧ scannable c n' l2 ∧
    s' = s + length l1 ∧ n' = n - length l1.

Section Scan.
Context (m : mem) (s c n : Z) (l : list Z).
Context (Hok : mem_ok m) (Hb : bytes m s l) (Hc : is_byte c).

Definition scan_measure (st : Z * Z) : nat := Z.to_nat (s + length l - st.1).

Lemma scan_step s' n' :
  scan_st s c n l (s', n') → n' ≠ 0 →
  ∃ x, m !! s' = Some x ∧ s' < s + length l ∧ (x ≠ c → scan_st s c n l (s' + 1, n' - 1)).
Proof.
  intros (l1 & l2 & -> & Hc1 & Hsc & -> & ->) Hn. simpl in *.
  destruct l2 as [|x l2].
  { destruct Hsc as [?|[Hin _]]; [done | by apply not_elem_of_nil in Hin]. }
  apply bytes_app in Hb as [_ [Hx _]%bytes_cons]. exists x.
  split_and!; [done | rewrite length_app; simpl; lia|].
  intros Hne. exists (l1 ++ [x]), l2. rewrite <- app_assoc, length_app. simpl.
  split_and!; [done | | | lia | lia].
  - rewrite not_elem_of_app, list_elem_of_singleton. split; congruence.
  - destruct Hsc as [Hsc|[Hin Hsc]]; simpl in Hsc; [left; lia|right].
    apply elem_of_cons in Hin as [?|?]; [congruence|]. split; [done | lia].
Qed.

Lemma scan_word s' n' :
  scan_st s c n l (s', n') → 8 <= n' → s' mod 8 = 0 →
  ∃ w, load64 m s' = Ok (le_word w) ∧ Forall is_byte w ∧ length w = 8%nat ∧
    ((c ∉ w) → s' < s + length l ∧ scan_st s c n l (s' + 8, n' - 8)).
Proof.
  intros (l1 & l2 & -> & Hc1 & Hsc & -> & ->) Hn Hal. simpl in *.
  apply bytes_app in Hb as [_ Hb2].
  assert (l2 ≠ []) as Hne.
  { intros ->. destruct Hsc as [E|[Hin _]]; [simpl in E; lia | by apply not_elem_of_nil in Hin]. }
  destruct (aligned_word m _ l2 Hok Hal Hb2 Hne) as (w & Hw & Hlen & Hwb & Hpre).
  exists w. split_and!; [done..|]. intros Hcw.
  assert (c ∉ take 8 l2) as Hc8.
  { rewrite Hpre. intros Hin. apply Hcw. eapply elem_of_take in Hin as (i & ? & _).
    by eapply list_elem_of_lookup_2. }
  assert (8 <= length l2)%nat as Hl2.
  { destruct Hsc as [E|[Hin _]]; [lia|]. destruct (decide (8 <= length l2)%nat); [done|].
    rewrite take_ge in Hc8 by lia. done. }
  split; [rewrite length_app; lia|].
  exists (l1 ++ take 8 l2), (drop 8 l2).
  rewrite <- app_assoc, take_drop, length_app, length_take.
  split_and!; [done | | | lia | lia].
  - rewrite not_elem_of_app. done.
  - unfold scannable. rewrite length_drop. destruct Hsc as [Hsc|[Hin Hsc]]; [left; lia|right].
    split; [|lia]. rewrite <- (take_drop 8 l2), elem_of_app in Hin. destruct Hin as [?|?]; done.
Qed.

Lemma scan_init : scannable c n l → scan_st s c n l (s, n).
Proof.
  intros. exists [], l. split_and!; [done | apply not_elem_of_nil | done | simpl; lia | simpl; lia].
Qed.

(** The answer, when the search stops. *)
Lemma scan_end s' n' :
  scan_st s c n l (s', n') → n' = 0 ∨ m !! s' = Some c →
  (if n' =? 0 then 0 else s') = match index_of c l with Some i => s + i | None => 0 end.
Proof.
  intros (l1 & l2 & -> & Hc1 & Hsc & -> & ->) Hor. simpl in *. rewrite index_of_app by done.
  apply bytes_app in Hb as [_ Hb2]. destruct (Z.eqb_spec (n - length l1) 0) as [E|E].
  - destruct l2 as [|x l2]; [done|]. rewrite E in Hsc. unfold scannable in Hsc. simpl in Hsc. lia.
  - destruct Hor as [?|Hx]; [done|]. destruct l2 as [|x l2].
    { destruct Hsc as [?|[Hin _]]; [done | by apply not_elem_of_nil in Hin]. }
    apply bytes_cons in Hb2 as [Hx' _]. simplify_eq. simpl. rewrite Z.eqb_refl. simpl.
    by rewrite Nat.add_0_r.
Qed.
End Scan.

Lemma memchr_ok m s c (n : Z) l :
  mem_ok m → bytes m s l → scannable (u8 c) n l →
  memchr m s c n = Ok (match index_of (u8 c) l with Some i => s + i | None => 0 end).
Proof.
  intros Hok Hb Hsc. pose proof (u8_byte c) as Hc. unfold memchr. set (c' := u8 c) in *.
  assert (∀ st, scan_st s c' n l st → (scan_measure s l st < fuel m)%nat) as Hfuel.
  { intros [s1 n1] (l1 & ? & -> & _ & _ & E & _). unfold scan_measure. simpl.
    apply fuel_bytes in Hb. lia. }
  apply wp_eq_r. wp_pure. eapply wp_mono.
  { apply (wp_loop (scan_st s c' n l) (scan_measure s l) _ (λ st, scan_st s c' n l st ∧
      (st.1 mod 8 = 0 ∨ st.2 = 0 ∨ m !! st.1 = Some c'))); [|by apply scan_init|by apply Hfuel, scan_init].
    intros [s1 n1] HI. rewrite land_7_mod. case_match eqn:E1; zbool; wp_pure; [by auto|].
    case_match eqn:E2; zbool; wp_pure; [by auto|].
    destruct (scan_step m s c' n l Hb _ _ HI E2) as (x & Hx & Hlt & Hnext).
    eapply wp_loadb; [done|]. case_match eqn:E3; zbool; wp_pure.
    - subst x. auto.
    - split; [by apply Hnext | unfold scan_measure; simpl; lia]. }
  intros [s1 n1] [HI1 Hst]. simpl in Hst. wp_pure. eapply (wp_mono _ (scan_st s c' n l)).
  { case_match eqn:E1; zbool; [by wp_pure|].
    destruct (scan_step m s c' n l Hb _ _ HI1 E1) as (x & Hx & _ & _).
    wp_pure. eapply wp_loadb; [done|]. case_match eqn:E2; zbool; [by wp_pure|].
    assert (s1 mod 8 = 0) as Hal by (destruct Hst as [?|[?|?]]; [done | done | congruence]).
    apply (wp_loop (λ st, scan_st s c' n l st ∧ st.1 mod 8 = 0) (scan_measure s l));
      [|done|by apply Hfuel].
    intros [s2 n2] [HI2 Hal2]. simpl in Hal2. case_match eqn:E3; zbool; [|by wp_pure].
    destruct (scan_word m s c' n l Hok Hb _ _ HI2 E3 Hal2) as (w & Hw & Hwb & Hlen & Hnext).
    wp_pure. wp_use Hw. case_match eqn:E4; zbool; wp_pure; [|done].
    apply HASZERO_lxor in E4; [|done..]. destruct (Hnext E4) as [? ?].
    split; [split; [done | simpl; zdiv] | unfold scan_measure; simpl; lia]. }
  intros [s2 n2] HI2. wp_pure.
  apply (wp_loop (scan_st s c' n l) (scan_measure s l)); [|done|by apply Hfuel].
  intros [s3 n3] HI3. case_match eqn:E1; zbool; wp_pure.
  - eapply (scan_end m); eauto.
  - destruct (scan_step m s c' n l Hb _ _ HI3 E1) as (x & Hx & Hlt & Hnext).
    eapply wp_loadb; [done|]. case_match eqn:E3; zbool; wp_pure.
    + eapply (scan_end m); [done..|]. right. congruence.
    + split; [by apply Hnext | unfold scan_measure; simpl; lia].
Qed.

(** The last index of [c]. *)
Definition last_index_of (c : Z) (l : list Z) : option nat :=
  (λ i, length l - 1 - i)%nat <$> index_of c (reverse l).

Lemma last_index_of_snoc c l x :
  last_index_of c (l ++ [x]) = if x =? c then Some (length l) else last_index_of c l.
Proof.
  unfold last_index_of. rewrite reverse_snoc, length_app. simpl.
  destruct (Z.eqb_spec x c); simpl; [f_equal; lia|].
  destruct (index_of c (reverse l)); simpl; [f_equal; lia | done].
Qed.

Lemma memrchr_ok m s c l :
  bytes m s l →
  memrchr m s c (length l) = Ok (match last_index_of (u8 c) l with Some i => s + i | None => 0 end).
Proof.
  intros Hb. unfold memrchr. set (c' := u8 c). apply wp_eq_r.
  apply (wp_loop (λ n, ∃ l1 l2, l = l1 ++ l2 ∧ n = Z.of_nat (length l1) ∧
      last_index_of c' l = last_index_of c' l1) Z.to_nat).
  - intros n (l1 & l2 & El & -> & Hi). case_match eqn:E; zbool; wp_pure.
    + rewrite Hi. by destruct l1.
    + destruct l1 as [|x l1 _] using rev_ind; [done|].
      rewrite last_index_of_snoc in Hi. rewrite length_app.
      rewrite El, <- app_assoc in Hb. apply bytes_app in Hb as [_ [Hx _]%bytes_cons].
      replace (s + ((length l1 + length [x])%nat - 1)) with (s + length l1) by (simpl; lia).
      eapply wp_loadb; [done|]. case_match; wp_pure; [by rewrite Hi|].
      split; [|simpl; lia]. exists l1, (x :: l2). rewrite El, <- app_assoc in *.
      split_and!; [done | simpl; lia | done].
  - exists l, []. rewrite app_nil_r. split_and!; done.
  - rewrite Nat2Z.id. by eapply fuel_bytes.
Qed.

(** memccpy copies up to and including the first [c], and at most [n] bytes. *)
Lemma memccpy_ok m d s c n l :
  bytes m s l → mapped m d (length l) → Forall is_byte l →
  d <= s ∨ s + length l <= d →
  scannable (u8 c) n l →
  memccpy m d s c n = Ok (match index_of (u8 c) l with
    | Some i => (d + i + 1, write m d (take (S i) l))
    | None => (0, write m d l) end).
Proof.
  intros Hs Hd Hl Hov Hsc. unfold memccpy. set (c' := u8 c) in *. apply wp_eq_r.
  apply (wp_loop (λ '(m', d', s', n'), ∃ l1 l2, l = l1 ++ l2 ∧ (c' ∉ l1) ∧ m' = write m d l1 ∧
      d' = d + length l1 ∧ s' = s + length l1 ∧ scannable c' n' l2)
    (λ '(_, d', _, _), Z.to_nat (d + length l - d'))).
  - intros [[[m' d'] s'] n'] (l1 & l2 & -> & Hc1 & -> & -> & -> & Hsc').
    rewrite index_of_app by done. rewrite length_app in Hd, Hov.
    destruct l2 as [|b l2].
    { destruct Hsc' as [->|[Hin _]]; [|by apply not_elem_of_nil in Hin].
      simpl. rewrite app_nil_r. by wp_pure. }
    case_match eqn:E; zbool; [subst; unfold scannable in Hsc'; simpl in Hsc'; lia|].
    apply bytes_app in Hs as [Hs1 Hs2].
    apply bytes_cons in Hs2 as [Hb _]. apply Forall_app in Hl as [_ [Hbb _]%Forall_cons].
    wp_pure. eapply wp_loadb; [rewrite write_out by (simpl in *; lia); exact Hb|].
    wp_pure. apply wp_storeb; [apply (mapped_write _ _ _ _ _ Hd); simpl; lia|].
    rewrite u8_id, write_snoc by done. simpl. case_match eqn:Eb; zbool; wp_pure.
    + simpl. rewrite Nat.add_0_r. rewrite take_app_ge by lia.
      replace (S (length l1) - length l1)%nat with 1%nat by lia. done.
    + split; [|rewrite length_app; simpl; lia]. exists (l1 ++ [b]), l2.
      rewrite length_app, <- app_assoc. simpl. split_and!; [done | | done | lia | lia |].
      * rewrite not_elem_of_app, list_elem_of_singleton. split; congruence.
      * destruct Hsc' as [Hsc'|[Hin Hsc']]; simpl in Hsc'; [left; lia|right].
        apply elem_of_cons in Hin as [?|?]; [congruence|]. split; [done | lia].
  - exists [], l. simpl. split_and!; [done | apply not_elem_of_nil | done | lia | lia | done].
  - simpl. apply fuel_bytes in Hs. lia.
Qed.

(** ** Substrings *)

(** The first index at which [n] occurs in [h]. *)
Fixpoint find_sub (n h : list Z) : option nat :=
  if bool_decide (n `prefix_of` h) then Some 0%nat else
  match h with [] => None | _ :: h => S <$> find_sub n h end.

Lemma find_sub_first n h i :
  n `prefix_of` drop i h → (∀ j, (j < i)%nat → ¬ n `prefix_of` drop j h) →
  (i <= length h)%nat → find_sub n h = Some i.
Proof.
  revert i. induction h as [|x h IH]; intros i Hp Hn Hi; simpl in *.
  - destruct i; [|lia]. by rewrite bool_decide_eq_true_2.
  - destruct i as [|i]; [by rewrite bool_decide_eq_true_2|].
    rewrite bool_decide_eq_false_2 by (apply (Hn 0%nat); lia).
    rewrite (IH i); [done | done | | lia]. intros j Hj. apply (Hn (S j)). lia.
Qed.

Lemma find_sub_none n h :
  (∀ j, (j <= length h)%nat → ¬ n `prefix_of` drop j h) → find_sub n h = None.
Proof.
  induction h as [|x h IH]; intros Hn; simpl.
  - by rewrite bool_decide_eq_false_2 by (apply (Hn 0%nat); simpl; lia).
  - rewrite bool_decide_eq_false_2 by (apply (Hn 0%nat); simpl; lia).
    rewrite IH; [done|]. intros j Hj. apply (Hn (S j)). simpl. lia.
Qed.

(** What [find_sub] means. *)
Lemma find_sub_spec n h i :
  find_sub n h = Some i →
  (i <= length h)%nat ∧ n `prefix_of` drop i h ∧ ∀ j, (j < i)%nat → ¬ n `prefix_of` drop j h.
Proof.
  revert i. induction h as [|x h IH]; intros i; simpl; case_bool_decide as Hp; intros H; try done.
  - simplify_eq. split_and!; [done | done | lia].
  - simplify_eq. split_and!; [lia | done | lia].
  - apply fmap_Some in H as (k & Hk & ->). destruct (IH _ Hk) as (? & ? & Hn).
    split_and!; [lia | done|]. intros [|j] Hj; [done|]. apply Hn. lia.
Qed.

Lemma find_sub_None n h j :
  find_sub n h = None → (j <= length h)%nat → ¬ n `prefix_of` drop j h.
Proof.
  revert j. induction h as [|x h IH]; intros j; simpl; case_bool_decide as Hb; try done; intros E Hj.
  - by replace j with 0%nat by lia.
  - destruct j as [|j]; [done|]. apply fmap_None in E. apply IH; [done | lia].
Qed.

Lemma prefix_take_iff (n h : list Z) :
  n `prefix_of` h ↔ (length n <= length h)%nat ∧ take (length n) h = n.
Proof.
  split.
  - intros [k ->]. rewrite length_app, take_app_length. split; [lia | done].
  - intros [_ E]. exists (drop (length n) h). rewrite <- E at 1. by rewrite take_drop.
Qed.

Lemma bytes_drop m p l i : (i <= length l)%nat → bytes m p l → bytes m (p + i) (drop i l).
Proof.
  intros Hi H. rewrite <- (take_drop i l), bytes_app, length_take in H. destruct H as [_ H].
  by replace (min i (length l)) with i in H by lia.
Qed.

Lemma bytes_take m p l i : bytes m p l → bytes m p (take i l).
Proof. intros H. rewrite <- (take_drop i l), bytes_app in H. tauto. Qed.

(** A word whose first byte does not occur before [j] does not occur there. *)
Lemma no_prefix_before (c : Z) (n h : list Z) (len j : nat) :
  c ∉ take len h → (j < len)%nat → ¬ (c :: n) `prefix_of` drop j h.
Proof.
  intros Hc Hj [k E]. apply Hc. apply elem_of_take. exists j. split; [|done].
  rewrite <- (Nat.add_0_r j), <- lookup_drop, E. done.
Qed.

Lemma memmem_ok m hp np h n :
  mem_ok m → bytes m hp h → bytes m np n → 0 < hp →
  memmem m hp (length h) np (length n) =
    Ok (match find_sub n h with Some i => hp + i | None => 0 end).
Proof.
  intros Hok Hh Hn Hpos. unfold memmem. destruct n as [|c n'].
  { rewrite (find_sub_first [] h 0); [by rewrite Z.add_0_r | apply prefix_nil | lia | lia]. }
  set (n := c :: n') in *. assert (1 <= length n)%nat as Hn1 by (simpl; lia).
  assert (is_byte c) as Hc.
  { apply (mem_ok_bytes _ _ _ Hok) in Hn. by apply Forall_cons in Hn as [? _]. }
  assert (m !! np = Some c) as Hc0 by (by apply bytes_cons in Hn as [? _]).
  case_match eqn:E0; zbool; [lia|]. clear E0. case_match eqn:E1; zbool.
  { rewrite find_sub_none; [done|]. intros j Hj [Hl _]%prefix_take_iff.
    rewrite length_drop in Hl. lia. }
  set (en := hp + (length h - length n) + 1).
  apply wp_eq_r.
  apply (wp_loop (λ p, ∃ i : nat, p = hp + i ∧ p <= en ∧
      ∀ j, (j < i)%nat → ¬ n `prefix_of` drop j h) (λ p, Z.to_nat (en - p))).
  - intros p (i & -> & Hi & Hno). case_match eqn:E2; zbool.
    + wp_pure. eapply wp_loadb; [done|]. wp_pure. unfold en in *.
      set (len := (length h - length n + 1 - i)%nat).
      pose (hs := take len (drop i h)).
      assert (bytes m (hp + i) hs) as Hbs by (apply bytes_take, bytes_drop; [lia | done]).
      assert (length hs = len) as Hlen by (unfold hs; rewrite length_take, length_drop; lia).
      wp_use memchr_ok; [done | exact Hbs | left; lia|]. rewrite (u8_id c) by done.
      destruct (index_of c hs) as [k|] eqn:Ek.
      * pose proof (index_of_lt _ _ _ Ek). apply index_of_Some in Ek as [Ek1 Ek2].
        unfold hs in Ek2. rewrite take_take, Nat.min_l in Ek2 by lia.
        assert (∀ j, (j < i + k)%nat → ¬ n `prefix_of` drop j h) as Hno'.
        { intros j Hj. destruct (decide (j < i)%nat); [by apply Hno|].
          replace j with (i + (j - i))%nat by lia. rewrite <- drop_drop.
          eapply no_prefix_before; [exact Ek2 | lia]. }
        case_match eqn:E3; zbool; [lia|]. wp_pure.
        assert (bytes m (hp + i + k) (take (length n) (drop (i + k) h))) as Hbk.
        { rewrite <- Z.add_assoc, <- Nat2Z.inj_add. apply bytes_take, bytes_drop; [lia | done]. }
        assert (length (take (length n) (drop (i + k) h)) = length n) as Hlk.
        { rewrite length_take, length_drop. lia. }
        rewrite <- Hlk at 1. wp_use memcmp_ok; [done | done | done|].
        case_match eqn:E4; zbool; wp_pure.
        -- apply cmp_bytes_eq in E4; [|done]. rewrite (find_sub_first n h (i + k)); [lia| |done|lia].
           apply prefix_take_iff. rewrite length_drop. split; [lia | done].
        -- split; [|lia]. exists (i + k + 1)%nat. split_and!; [lia | lia|].
           intros j Hj. destruct (decide (j < i + k)%nat); [by apply Hno'|].
           replace j with (i + k)%nat by lia. intros [_ Hp]%prefix_take_iff.
           apply E4. rewrite Hp. by apply cmp_bytes_eq.
      * wp_pure. rewrite find_sub_none; [done|]. apply index_of_None in Ek.
        intros j Hj Hp. destruct (decide (j < i)%nat); [by eapply Hno|].
        destruct (decide (j < i + len)%nat).
        -- revert Hp. replace j with (i + (j - i))%nat by lia. rewrite <- drop_drop.
           eapply no_prefix_before; [exact Ek | lia].
        -- apply prefix_take_iff in Hp as [Hp _]. rewrite length_drop in Hp. lia.
    + wp_pure. rewrite find_sub_none; [done|]. intros j Hj Hp.
      destruct (decide (j < i)%nat); [by eapply Hno|].
      apply prefix_take_iff in Hp as [Hp _]. rewrite length_drop in Hp. unfold en in *. lia.
  - exists 0%nat. unfold en. split_and!; [lia | lia|]. intros j Hj. lia.
  - unfold en. apply fuel_bytes in Hh. lia.
Qed.

(** ** Properties *)

(** C1: memmove copies the bytes of the source to the destination whatever
    the overlap of the two ranges: it returns the destination, the
    destination holds exactly what the source held before the call, and no
    other address changes. *)
Theorem memmove_spec m d s l :
  mem_ok m → bytes m s l → mapped m d (length l) →
  ∃ m', memmove m d s (length l) = Ok (d, m') ∧ mem_ok m' ∧ bytes m' d l ∧
    ∀ a, ¬ (d <= a < d + length l) → m' !! a = m !! a.
Proof.
  intros Hok Hs Hd. exists (write m d l). split_and!.
  - by apply memmove_ok.
  - apply mem_ok_write; [done | done | by eapply mem_ok_bytes].
  - apply bytes_write.
  - intros a Ha. by apply write_out.
Qed.

Definition abc_mem : mem := write ∅ 4096 (seqZ 1 32).

Lemma abc_mem_ok : mem_ok abc_mem.
Proof. apply mem_ok_block; vm_compute; done || reflexivity. Qed.

(** An overlapping move of 20 bytes by 3. *)
Lemma memmove_spec_witness :
  ∃ m', memmove abc_mem 4101 4098 20%nat = Ok (4101, m') ∧ mem_ok m' ∧ bytes m' 4101 (seqZ 3 20) ∧
    ∀ a, ¬ (4101 <= a < 4101 + 20%nat) → m' !! a = abc_mem !! a.
Proof.
  apply (memmove_spec abc_mem 4101 4098 (seqZ 3 20)).
  - apply abc_mem_ok.
  - apply load_list_bytes. vm_compute. reflexivity.
  - apply (mapped_eval abc_mem 4101 20). vm_compute. reflexivity.
Defined.

(** C2: memchr, which scans by words, returns the address of the first
    occurrence of the byte and the null pointer when there is none; it needs
    [n] readable bytes only up to the first occurrence (so that a search of a
    terminated string with a larger bound is safe), and never traps. *)
Theorem memchr_spec m s c (n : Z) l :
  mem_ok m → bytes m s l → n = length l ∨ (u8 c ∈ l ∧ length l <= n) →
  ∃ r, memchr m s c n = Ok r ∧
    (r = 0 ∧ u8 c ∉ l ∨
     ∃ i : nat, r = s + i ∧ l !! i = Some (u8 c) ∧ u8 c ∉ take i l).
Proof.
  intros Hok Hs Hn. eexists. split; [apply (memchr_ok m s c n l Hok Hs Hn)|].
  destruct (index_of (u8 c) l) as [i|] eqn:E.
  - right. exists i. apply index_of_Some in E as [? ?]. done.
  - left. by apply index_of_None in E.
Qed.

(** A search past the end of the block: the byte 23 is in it. *)
Lemma memchr_spec_witness :
  ∃ r, memchr abc_mem 4099 23 (2 ^ 64 - 1) = Ok r ∧
    (r = 0 ∧ u8 23 ∉ seqZ 4 29 ∨
     ∃ i : nat, r = 4099 + i ∧ seqZ 4 29 !! i = Some (u8 23) ∧ u8 23 ∉ take i (seqZ 4 29)).
Proof.
  apply (memchr_spec abc_mem 4099 23 (2 ^ 64 - 1) (seqZ 4 29)).
  - apply abc_mem_ok.
  - apply load_list_bytes. vm_compute. reflexivity.
  - right. split; [apply elem_of_seqZ; vm_compute; split; done | vm_compute; done].
Defined.

(** The constant-time comparisons agree with memcmp: timingsafe_memcmp
    returns its sign and timingsafe_bcmp tells equality, and memcmp is 0
    exactly on equal ranges. *)
Theorem timingsafe_spec m a b l1 l2 :
  mem_ok m → bytes m a l1 → bytes m b l2 → length l1 = length l2 →
  ∃ c, memcmp m a b (length l1) = Ok c ∧ (c = 0 ↔ l1 = l2) ∧
    timingsafe_memcmp m a b (length l1) = Ok (Z.sgn c) ∧
    timingsafe_bcmp m a b (length l1) = Ok (if c =? 0 then 0 else 1).
Proof.
  intros Hok H1 H2 Hlen. pose proof (mem_ok_bytes _ _ _ Hok H1). pose proof (mem_ok_bytes _ _ _ Hok H2).
  exists (cmp_bytes l1 l2). split_and!.
  - by apply memcmp_ok.
  - by apply cmp_bytes_eq.
  - by apply timingsafe_memcmp_ok.
  - rewrite (timingsafe_bcmp_ok m a b l1 l2) by done. do 2 f_equal.
    destruct (Z.eqb_spec (cmp_bytes l1 l2) 0) as [E|E]; rewrite cmp_bytes_eq in E by done;
      case_bool_decide; done.
Qed.

Lemma timingsafe_spec_witness :
  ∃ c, memcmp abc_mem 4096 4100 8%nat = Ok c ∧ (c = 0 ↔ seqZ 1 8 = seqZ 5 8) ∧
    timingsafe_memcmp abc_mem 4096 4100 8%nat = Ok (Z.sgn c) ∧
    timingsafe_bcmp abc_mem 4096 4100 8%nat = Ok (if c =? 0 then 0 else 1).
Proof.
  apply (timingsafe_spec abc_mem 4096 4100 (seqZ 1 8) (seqZ 5 8)).
  - apply abc_mem_ok.
  - apply load_list_bytes. vm_compute. reflexivity.
  - apply load_list_bytes. vm_compute. reflexivity.
  - reflexivity.
Defined.
