(* ===== verification/StrFns.v ===== *)
(** * String functions (src/src/string.c)

    The str* functions over the memory of CMem.v, with the mem* functions of
    MemFns.v they call, and the checked str* entry points. A [char **]
    argument is passed and returned by value. *)
From S2P Require Import Prelude CMem Ctype MemFns.

(** ** What the callers of malloc rely on

    malloc (src/src/omalloc) is used through its contract: it returns the
    null pointer and leaves the memory alone, or it returns a new block,
    maps it and leaves everything else alone. *)
Record block_new (m : mem) (n : Z) (p : Z) (m' : mem) : Prop := {
  bn_ok : mem_ok m → mem_ok m';
  bn_mapped : mapped m' p n;
  bn_fresh : ∀ a, p <= a < p + n → m !! a = None;
  bn_rest : ∀ a v, m !! a = Some v → m' !! a = Some v;
}.

Class Malloc (malloc : mem → Z → Z * mem) : Prop :=
  malloc_law : ∀ m n, 0 <= n →
    let '(p, m') := malloc m n in (p = 0 ∧ m' = m) ∨ (0 < p ∧ block_new m n p m').

(** ** Operations *)

Definition strlen (m : mem) (s : Z) : res Z :=
  let a := s in
  r ← loop (fuel m) (λ s,
    if s mod 8 =? 0 then Ok (Brk (inl s)) else
    b ← loadb m s;
    if b =? 0 then Ok (Brk (inr (s - a))) else Ok (Cont (s + 1))) s;
  match r with
  | inr n => Ok n
  | inl s =>
    s ← loop (fuel m) (λ w,
      x ← load64 m w;
      if HASZERO x =? 0 then Ok (Cont (w + 8)) else Ok (Brk w)) s;
    s ← loop (fuel m) (λ s,
      b ← loadb m s;
      if b =? 0 then Ok (Brk s) else Ok (Cont (s + 1))) s;
    Ok (s - a)
  end.

Definition strnlen (m : mem) (s n : Z) : res Z :=
  p ← memchr m s 0 n;
  Ok (if p =? 0 then n else p - s).

Definition stpcpy (m : mem) (d s : Z) : res (Z * mem) :=
  n ← strlen m s;
  '(_, m) ← memcpy m d s (n + 1);
  Ok (d + n, m).

Definition strcpy (m : mem) (d s : Z) : res (Z * mem) :=
  '(_, m) ← stpcpy m d s; Ok (d, m).

Definition stpncpy (m : mem) (d s n : Z) : res (Z * mem) :=
  l ← strnlen m s n;
  '(_, m) ← memcpy m d s l;
  '(_, m) ← memset m (d + l) 0 (n - l);
  Ok (d + l, m).

Definition strncpy (m : mem) (d s n : Z) : res (Z * mem) :=
  '(_, m) ← stpncpy m d s n; Ok (d, m).

Definition strcat (m : mem) (d s : Z) : res (Z * mem) :=
  n ← strlen m d;
  '(_, m) ← strcpy m (d + n) s;
  Ok (d, m).

Definition strncat (m : mem) (d s n : Z) : res (Z * mem) :=
  let a := d in
  k ← strlen m d;
  let d := d + k in
  l ← strnlen m s n;
  '(_, m) ← memcpy m d s l;
  m ← storeb m (d + l) 0;
  Ok (a, m).

Definition strlcpy (m : mem) (d s n : Z) : res (Z * mem) :=
  l ← strlen m s;
  if n =? 0 then Ok (l, m) else
  let c := if l <? n - 1 then l else n - 1 in
  '(_, m) ← memcpy m d s c;
  m ← storeb m (d + c) 0;
  Ok (l, m).

Definition strlcat (m : mem) (d s n : Z) : res (Z * mem) :=
  l ← strnlen m d n;
  if l =? n then k ← strlen m s; Ok (l + k, m) else
  '(k, m) ← strlcpy m (d + l) s (n - l);
  Ok (l + k, m).

Definition strcmp (m : mem) (l r : Z) : res Z :=
  '(l, r) ← loop (fuel m) (λ '(l, r),
    x ← loadb m l; y ← loadb m r;
    if (x =? y) && negb (x =? 0) then Ok (Cont (l + 1, r + 1)) else Ok (Brk (l, r))) (l, r);
  x ← loadb m l; y ← loadb m r; Ok (x - y).

Definition strncmp (m : mem) (l r n : Z) : res Z :=
  if n =? 0 then Ok 0 else
  '(l, r) ← loop (fuel m) (λ '(l, r, n),
    x ← loadb m l;
    if x =? 0 then Ok (Brk (l, r)) else
    y ← loadb m r;
    if y =? 0 then Ok (Brk (l, r)) else
    if n =? 0 then Ok (Brk (l, r)) else
    if x =? y then Ok (Cont (l + 1, r + 1, n - 1)) else Ok (Brk (l, r))) (l, r, n - 1);
  x ← loadb m l; y ← loadb m r; Ok (x - y).

Definition strcasecmp (m : mem) (l r : Z) : res Z :=
  '(a, b) ← loop (fuel m) (λ '(a, b),
    x ← loadb m a;
    if x =? 0 then Ok (Brk (a, b)) else
    y ← loadb m b;
    if y =? 0 then Ok (Brk (a, b)) else
    if (x =? y) || (tolower x =? tolower y) then Ok (Cont (a + 1, b + 1)) else Ok (Brk (a, b))) (l, r);
  x ← loadb m a; y ← loadb m b; Ok (tolower x - tolower y).

Definition strncasecmp (m : mem) (l r n : Z) : res Z :=
  if n =? 0 then Ok 0 else
  '(a, b) ← loop (fuel m) (λ '(a, b, n),
    x ← loadb m a;
    if x =? 0 then Ok (Brk (a, b)) else
    y ← loadb m b;
    if y =? 0 then Ok (Brk (a, b)) else
    if n =? 0 then Ok (Brk (a, b)) else
    if (x =? y) || (tolower x =? tolower y)
    then Ok (Cont (a + 1, b + 1, n - 1)) else Ok (Brk (a, b))) (l, r, n - 1);
  x ← loadb m a; y ← loadb m b; Ok (tolower x - tolower y).

Definition strcoll (m : mem) (l r : Z) : res Z := strcmp m l r.

Definition strxfrm (m : mem) (d s n : Z) : res (Z * mem) :=
  l ← strlen m s;
  if l <? n then '(_, m) ← strcpy m d s; Ok (l, m) else Ok (l, m).

Definition strchrnul (m : mem) (s c : Z) : res Z :=
  let c := u8 c in
  if c =? 0 then n ← strlen m s; Ok (s + n) else
  r ← loop (fuel m) (λ s,
    if s mod 8 =? 0 then Ok (Brk (inl s)) else
    b ← loadb m s;
    if (b =? 0) || (b =? c) then Ok (Brk (inr s)) else Ok (Cont (s + 1))) s;
  match r with
  | inr s => Ok s
  | inl s =>
    let k := u64 (ONES * c) in
    s ← loop (fuel m) (λ w,
      x ← load64 m w;
      if (HASZERO x =? 0) && (HASZERO (Z.lxor x k) =? 0) then Ok (Cont (w + 8)) else Ok (Brk w)) s;
    loop (fuel m) (λ s,
      b ← loadb m s;
      if negb (b =? 0) && negb (b =? c) then Ok (Cont (s + 1)) else Ok (Brk s)) s
  end.

Definition strchr (m : mem) (s c : Z) : res Z :=
  r ← strchrnul m s c;
  b ← loadb m r;
  Ok (if b =? u8 c then r else 0).

Definition index (m : mem) (s c : Z) : res Z := strchr m s c.

Definition strrchr (m : mem) (s c : Z) : res Z :=
  n ← strlen m s; memrchr m s c (n + 1).

Definition rindex (m : mem) (s c : Z) : res Z := strrchr m s c.

(** BITOP on the four words of a byte set: the word of [b] with its bit
    set, and the bit alone. *)
Definition bitop_or (set : list Z) (b : Z) : Z :=
  Z.lor (nth (Z.to_nat (b / 64)) set 0) (u64 (Z.shiftl 1 (b mod 64))).
Definition bitop_and (set : list Z) (b : Z) : Z :=
  Z.land (nth (Z.to_nat (b / 64)) set 0) (u64 (Z.shiftl 1 (b mod 64))).

Definition fill_byteset (m : mem) (c : Z) : res (list Z) :=
  loop (fuel m) (λ '(c, set),
    b ← loadb m c;
    if b =? 0 then Ok (Brk set) else
    let w := bitop_or set b in
    let set := <[Z.to_nat (b / 64) := w]> set in
    if w =? 0 then Ok (Brk set) else Ok (Cont (c + 1, set))) (c, replicate 4 0).

Definition strspn (m : mem) (s c : Z) : res Z :=
  let a := s in
  c0 ← loadb m c;
  if c0 =? 0 then Ok 0 else
  c1 ← loadb m (c + 1);
  if c1 =? 0 then
    s ← loop (fuel m) (λ s,
      x ← loadb m s; y ← loadb m c;
      if x =? y then Ok (Cont (s + 1)) else Ok (Brk s)) s;
    Ok (s - a)
  else
  byteset ← fill_byteset m c;
  s ← loop (fuel m) (λ s,
    x ← loadb m s;
    if x =? 0 then Ok (Brk s) else
    if bitop_and byteset x =? 0 then Ok (Brk s) else Ok (Cont (s + 1))) s;
  Ok (s - a).

Definition strcspn (m : mem) (s c : Z) : res Z :=
  let a := s in
  c0 ← loadb m c;
  single ← (if c0 =? 0 then Ok true else c1 ← loadb m (c + 1); Ok (c1 =? 0));
  if (single : bool) then p ← strchrnul m s c0; Ok (p - a) else
  byteset ← fill_byteset m c;
  s ← loop (fuel m) (λ s,
    x ← loadb m s;
    if x =? 0 then Ok (Brk s) else
    if bitop_and byteset x =? 0 then Ok (Cont (s + 1)) else Ok (Brk s)) s;
  Ok (s - a).

Definition strpbrk (m : mem) (s b : Z) : res Z :=
  n ← strcspn m s b;
  let s := s + n in
  x ← loadb m s;
  Ok (if x =? 0 then 0 else s).

Definition strstr (m : mem) (h n : Z) : res Z :=
  l ← strlen m n;
  if l =? 0 then Ok h else
  k ← strlen m h;
  memmem m h k n l.

Definition strcasestr (m : mem) (h n : Z) : res Z :=
  l ← strlen m n;
  loop (fuel m) (λ h,
    b ← loadb m h;
    if b =? 0 then Ok (Brk (if l =? 0 then h else 0)) else
    r ← strncasecmp m h n l;
    if r =? 0 then Ok (Brk h) else Ok (Cont (h + 1))) h.

(** The result, the memory and the new value of [*p]. *)
Definition strtok_r (m : mem) (s sep p : Z) : res (Z * mem * Z) :=
  let s := if s =? 0 then p else s in
  if s =? 0 then Ok (0, m, p) else
  k ← strspn m s sep;
  let s := s + k in
  b ← loadb m s;
  if b =? 0 then Ok (0, m, 0) else
  k ← strcspn m s sep;
  let p := s + k in
  e ← loadb m p;
  if e =? 0 then Ok (s, m, 0) else
  m ← storeb m p 0;
  Ok (s, m, p + 1).

(** strtok: the static pointer is part of the thread's state. *)
Definition strtok (m : mem) (p s sep : Z) : res (Z * mem * Z) := strtok_r m s sep p.

(** The result, the memory and the new value of [*str]. *)
Definition strsep (m : mem) (str sep : Z) : res (Z * mem * Z) :=
  let s := str in
  if s =? 0 then Ok (0, m, str) else
  k ← strcspn m s sep;
  let e := s + k in
  b ← loadb m e;
  if b =? 0 then Ok (s, m, 0) else
  m ← storeb m e 0;
  Ok (s, m, e + 1).

Section WithMalloc.
Context (malloc : mem → Z → Z * mem).

Definition strdup (m : mem) (s : Z) : res (Z * mem) :=
  l ← strlen m s;
  let '(d, m) := malloc m (l + 1) in
  if d =? 0 then Ok (0, m) else memcpy m d s (l + 1).

Definition strndup (m : mem) (s n : Z) : res (Z * mem) :=
  l ← strnlen m s n;
  let '(d, m) := malloc m (l + 1) in
  if d =? 0 then Ok (0, m) else
  '(_, m) ← memcpy m d s l;
  m ← storeb m (d + l) 0;
  Ok (d, m).
End WithMalloc.

Definition strverscmp (m : mem) (l r : Z) : res Z :=
  q ← loop (fuel m) (λ '(i, dp, z),
    x ← loadb m (l + i); y ← loadb m (r + i);
    if x =? y then
      if x =? 0 then Ok (Brk None) else
      if negb (isdigit x) then Ok (Cont (i + 1, i + 1, true)) else
      if negb (x =? 48) then Ok (Cont (i + 1, dp, false)) else Ok (Cont (i + 1, dp, z))
    else Ok (Brk (Some (i, dp, z)))) (0, 0, true);
  match q with
  | None => Ok 0
  | Some (i, dp, z) =>
    ld ← loadb m (l + dp); rd ← loadb m (r + dp);
    x ← loadb m (l + i); y ← loadb m (r + i);
    if (u32 (ld - 49) <? 9) && (u32 (rd - 49) <? 9) then
      e ← loop (fuel m) (λ j,
        a ← loadb m (l + j);
        if isdigit a then
          b ← loadb m (r + j);
          if isdigit b then Ok (Cont (j + 1)) else Ok (Brk 1)
        else
          b ← loadb m (r + j);
          Ok (Brk (if isdigit b then -1 else 0))) i;
      if e =? 0 then Ok (x - y) else Ok e
    else if (z : bool) && (dp <? i) && (isdigit x || isdigit y) then
      Ok (u8 (x - 48) - u8 (y - 48))
    else Ok (x - y)
  end.

(** ** _FORTIFY_SOURCE entry points *)

Definition __strcpy_chk (m : mem) (d s dl : Z) : res (Z * mem) :=
  k ← strlen m s;
  let n := u64 (k + 1) in
  if dl <? n then Trap Abrt else memcpy m d s n.

Definition __stpcpy_chk (m : mem) (d s dl : Z) : res (Z * mem) :=
  n ← strlen m s;
  if dl <? u64 (n + 1) then Trap Abrt else
  '(_, m) ← memcpy m d s (n + 1);
  Ok (d + n, m).

Definition __strncpy_chk (m : mem) (d s n dl : Z) : res (Z * mem) :=
  if dl <? n then Trap Abrt else strncpy m d s n.

Definition __stpncpy_chk (m : mem) (d s n dl : Z) : res (Z * mem) :=
  if dl <? n then Trap Abrt else stpncpy m d s n.

Definition __strcat_chk (m : mem) (d s dl : Z) : res (Z * mem) :=
  a ← strnlen m d dl;
  b ← strlen m s;
  if (a =? dl) || (dl <? u64 (a + b + 1)) then Trap Abrt else
  '(_, m) ← memcpy m (d + a) s (b + 1);
  Ok (d, m).

Definition __strncat_chk (m : mem) (d s n dl : Z) : res (Z * mem) :=
  a ← strnlen m d dl;
  b ← strnlen m s n;
  if (a =? dl) || (dl <? u64 (a + b + 1)) then Trap Abrt else
  '(_, m) ← memcpy m (d + a) s b;
  m ← storeb m (d + (a + b)) 0;
  Ok (d, m).

Definition __strlcpy_chk (m : mem) (d s n dl : Z) : res (Z * mem) :=
  if dl <? n then Trap Abrt else strlcpy m d s n.

Definition __strlcat_chk (m : mem) (d s n dl : Z) : res (Z * mem) :=
  if dl <? n then Trap Abrt else strlcat m d s n.

(** ** Scanning a string *)

Lemma sget_app l i : sget l i = default 0 ((l ++ [0]) !! i).
Proof.
  unfold sget. destruct (decide (i < length l)%nat) as [?|?].
  - by rewrite lookup_app_l.
  - rewrite (lookup_ge_None_2 l) by lia. rewrite lookup_app_r by lia.
    by destruct (i - length l)%nat as [|[|?]].
Qed.

Section Str.
Context (m : mem) (s : Z) (l : list Z).
Context (Hok : mem_ok m) (Hs : cstr m s l).

Lemma sget_byte i : is_byte (sget l i).
Proof.
  unfold sget. destruct (l !! i) as [x|] eqn:E; simpl; [|unfold is_byte; lia].
  apply cstr_is_byte in Hs. by eapply Forall_lookup_1 in Hs.
Qed.

Lemma sget_zero i : (i <= length l)%nat → sget l i = 0 ↔ i = length l.
Proof.
  intros Hi. unfold sget. destruct (l !! i) as [x|] eqn:E; simpl.
  - pose proof (lookup_lt_Some _ _ _ E). destruct Hs as [_ Hl].
    eapply Forall_lookup_1 in Hl; [|done]. simpl in Hl. lia.
  - apply lookup_ge_None_1 in E. split; [lia | done].
Qed.

Lemma str_load i (Q : Z → Prop) : (i <= length l)%nat → Q (sget l i) → wp (loadb m (s + i)) Q.
Proof. intros Hi HQ. eapply wp_loadb; [by apply cstr_get | done]. Qed.

Lemma str_fuel : (length l < fuel m)%nat.
Proof. apply cstr_size in Hs. unfold fuel. lia. Qed.

(** A word that holds no NUL lies inside the string. *)
Lemma str_word i :
  (i <= length l)%nat → (s + i) mod 8 = 0 →
  ∃ w, load64 m (s + i) = Ok (le_word w) ∧ length w = 8%nat ∧ Forall is_byte w ∧
    ((0 ∉ w) → (i + 8 <= length l)%nat ∧ w = take 8 (drop i l)).
Proof.
  intros Hi Hal. pose proof (cstr_drop _ _ _ _ Hi Hs) as [Hb _].
  destruct (aligned_word m (s + i) (drop i l ++ [0])) as (w & Hw & Hlen & Hwb & Hpre); [done..| |].
  { intros E. by apply app_nil in E as [_ ?]. }
  exists w. split_and!; [done..|]. intros H0.
  assert (8 <= length (drop i l)) as Hge.
  { destruct (decide (8 <= length (drop i l))); [done|]. destruct H0.
    rewrite take_ge in Hpre by (rewrite length_app; simpl; lia).
    assert (0 ∈ take (length (drop i l ++ [0])) w) as (j & ? & _)%elem_of_take;
      [|by eapply list_elem_of_lookup_2].
    rewrite <- Hpre. apply elem_of_app. right. by apply list_elem_of_singleton. }
  rewrite length_drop in Hge. split; [lia|].
  rewrite take_app_le in Hpre by (rewrite length_drop; lia).
  rewrite Hpre, take_ge; [done|]. rewrite length_app, length_drop. lia.
Qed.
End Str.

Lemma strlen_ok m s l : mem_ok m → cstr m s l → strlen m s = Ok (Z.of_nat (length l)).
Proof.
  intros Hok Hs. unfold strlen. pose proof (str_fuel _ _ _ Hs) as Hf.
  set (I := λ p, ∃ i : nat, p = s + i ∧ (i <= length l)%nat).
  set (μ := λ p, Z.to_nat (s + length l - p)).
  assert (∀ p, I p → (μ p < fuel m)%nat) as Hfuel by (intros p (i & -> & ?); unfold μ; lia).
  assert (I s) as H0 by (exists 0%nat; split; lia).
  apply wp_eq_r. wp_pure. eapply wp_mono.
  { apply (wp_loop I μ _ (λ r, match r with inl p => I p ∧ p mod 8 = 0 | inr n => n = Z.of_nat (length l) end));
      [|done|by apply Hfuel].
    intros p (i & -> & Hi). case_match eqn:E; zbool; wp_pure; [split; [by exists i | done]|].
    apply (str_load m s l Hs i); [done|]. case_match eqn:E2; zbool; wp_pure.
    - apply (sget_zero m s l Hs) in E2; [lia | done].
    - rewrite (sget_zero m s l Hs) in E2 by done. split; [exists (S i); split; lia | unfold μ; lia]. }
  intros [p|n]; [|intros ->; by wp_pure]. intros [H1 Hal]. wp_pure. eapply wp_mono.
  { apply (wp_loop (λ p, I p ∧ p mod 8 = 0) μ _ I); [|done|by apply Hfuel].
    intros q [(i & -> & Hi) Hal']. destruct (str_word m s l Hok Hs i) as (w & Hw & Hlen & Hb & Hin); [done..|].
    wp_pure. wp_use Hw. case_match eqn:E; zbool; wp_pure; [|by exists i].
    apply HASZERO_spec in E; [|done..]. destruct (Hin E) as [? _].
    split; [split; [exists (i + 8)%nat; split; lia | zdiv] | unfold μ; lia]. }
  intros q H2. wp_pure. apply (wp_loop I μ); [|done|by apply Hfuel].
  intros p' (i & -> & Hi). wp_pure. apply (str_load m s l Hs i); [done|].
  case_match eqn:E; zbool; wp_pure.
  - apply (sget_zero m s l Hs) in E; [lia | done].
  - rewrite (sget_zero m s l Hs) in E by done. split; [exists (S i); split; lia | unfold μ; lia].
Qed.

Lemma strlen_wp m s l (Q : Z → Prop) :
  mem_ok m → cstr m s l → Q (length l) → wp (strlen m s) Q.
Proof. intros. eapply wp_of_eq; [by eapply strlen_ok | done]. Qed.

Lemma index_of_nul l : Forall (λ b, 0 < b < 256) l → index_of 0 (l ++ [0]) = Some (length l).
Proof.
  intros Hl. rewrite index_of_app; [simpl; by rewrite Nat.add_0_r|].
  intros Hin. rewrite Forall_forall in Hl. specialize (Hl 0 Hin). lia.
Qed.

Lemma cstr_pos m s l : mem_ok m → cstr m s l → 0 < s.
Proof.
  intros Hok Hs. pose proof (cstr_get m s l 0 ltac:(lia) Hs) as Hg.
  rewrite Z.add_0_r in Hg. apply (mem_addr _ Hok) in Hg. lia.
Qed.

(** strnlen when the string ends within [n] bytes, and when it does not. *)
Lemma strnlen_ok m s l n :
  mem_ok m → cstr m s l → length l < n → strnlen m s n = Ok (Z.of_nat (length l)).
Proof.
  intros Hok Hs Hn. unfold strnlen. pose proof (cstr_pos _ _ _ Hok Hs). destruct Hs as [Hb Hl].
  rewrite (memchr_ok m s 0 n (l ++ [0])); [|done..|].
  - change (u8 0) with 0. rewrite index_of_nul by done. simpl.
    case_match eqn:E; zbool; [lia | f_equal; lia].
  - right. rewrite length_app. split; [|simpl; lia]. apply elem_of_app. right.
    by apply list_elem_of_singleton.
Qed.

Lemma strnlen_full m s l :
  mem_ok m → bytes m s l → Forall (λ b, 0 < b < 256) l → strnlen m s (length l) = Ok (Z.of_nat (length l)).
Proof.
  intros Hok Hb Hl. unfold strnlen. rewrite (memchr_ok m s 0 _ l); [|done..|by left].
  change (u8 0) with 0. assert (index_of 0 l = None) as ->; [|done].
  apply index_of_None. intros Hin. rewrite Forall_forall in Hl. specialize (Hl 0 Hin). lia.
Qed.

(** The number of bytes before the first NUL, [n] at most. *)
Lemma strnlen_min m s l n :
  mem_ok m → cstr m s l → 0 <= n → strnlen m s n = Ok (Z.min (length l) n).
Proof.
  intros Hok Hs Hn. destruct (decide (length l < n)).
  - rewrite (strnlen_ok _ _ l) by done. f_equal. lia.
  - replace (strnlen m s n) with (strnlen m s (length (take (Z.to_nat n) l))).
    + destruct Hs as [Hb Hl]. rewrite strnlen_full; [|done| |].
      * f_equal. rewrite length_take. lia.
      * apply bytes_app in Hb as [Hb _]. by apply bytes_take.
      * by apply Forall_take.
    + f_equal. rewrite length_take. lia.
Qed.

(** The index of the first [c], or of the terminator. *)
Definition chrnul (c : Z) (l : list Z) : nat := default (length l) (index_of c l).

Lemma chrnul_at c l i :
  (i <= length l)%nat → c ∉ take i l → sget l i = 0 ∨ sget l i = c →
  (sget l i = 0 → i = length l) → chrnul c l = i.
Proof.
  intros Hi Hn Hor H0. unfold chrnul. rewrite <- (take_drop i l), index_of_app by done.
  rewrite length_app, length_take. destruct (drop i l) as [|x k] eqn:E; simpl.
  - apply (f_equal length) in E. rewrite length_drop in E. simpl in E. lia.
  - assert (l !! i = Some x) as Hx.
    { rewrite <- (Nat.add_0_r i), <- lookup_drop, E. done. }
    pose proof (lookup_lt_Some _ _ _ Hx). unfold sget in *. rewrite Hx in *. simpl in *.
    destruct Hor as [-> | ->]; [specialize (H0 eq_refl); lia|]. rewrite Z.eqb_refl. simpl. lia.
Qed.

Lemma chrnul_zero l : Forall (λ b, 0 < b < 256) l → chrnul 0 l = length l.
Proof.
  intros Hl. unfold chrnul. assert (index_of 0 l = None) as ->; [|done].
  apply index_of_None. intros Hin. rewrite Forall_forall in Hl. specialize (Hl 0 Hin). lia.
Qed.

Lemma chrnul_le c l : (chrnul c l <= length l)%nat.
Proof.
  unfold chrnul. destruct (index_of c l) eqn:E; simpl; [|done]. apply index_of_lt in E. lia.
Qed.

Lemma take_S_sget l i : (i < length l)%nat → take (S i) l = take i l ++ [sget l i].
Proof.
  intros Hi. destruct (lookup_lt_is_Some_2 l i Hi) as [x Hx]. unfold sget. rewrite Hx. by apply take_S_r.
Qed.

Lemma not_elem_take_S c l i :
  (i < length l)%nat → c ∉ take i l → sget l i ≠ c → c ∉ take (S i) l.
Proof.
  intros Hi Hn Hx. rewrite take_S_sget by done.
  rewrite not_elem_of_app, list_elem_of_singleton. split; [done | congruence].
Qed.

Lemma strchrnul_ok m s l c :
  mem_ok m → cstr m s l → strchrnul m s c = Ok (s + chrnul (u8 c) l).
Proof.
  intros Hok Hs. unfold strchrnul. pose proof (u8_byte c) as Hc. set (c' := u8 c) in *.
  case_match eqn:E0; zbool.
  { rewrite (strlen_ok _ _ l) by done. rewrite E0, chrnul_zero by apply Hs. done. }
  pose proof (str_fuel _ _ _ Hs) as Hf.
  set (I := λ p, ∃ i : nat, p = s + i ∧ (i <= length l)%nat ∧ c' ∉ take i l).
  set (μ := λ p, Z.to_nat (s + length l - p)).
  assert (∀ p, I p → (μ p < fuel m)%nat) as Hfuel by (intros p (i & -> & ?); unfold μ; lia).
  assert (I s) as H0 by (exists 0%nat; split_and!; [lia | lia | apply not_elem_of_nil]).
  assert (∀ i, (i <= length l)%nat → c' ∉ take i l → sget l i = 0 ∨ sget l i = c' →
    s + i = s + chrnul c' l) as Hend.
  { intros i Hi Hn Hor. rewrite (chrnul_at c' l i); [done..|]. by apply (sget_zero m s l Hs). }
  assert (∀ i, (i <= length l)%nat → c' ∉ take i l → sget l i ≠ 0 → sget l i ≠ c' →
    I (s + i + 1) ∧ (μ (s + i + 1)%Z < μ (s + i)%Z)%nat) as Hstep.
  { intros i Hi Hn Hz Hx. rewrite (sget_zero m s l Hs) in Hz by done.
    split; [|unfold μ; lia]. exists (S i). split_and!; [lia | lia|]. apply not_elem_take_S; [lia | done..]. }
  apply wp_eq_r. wp_pure. eapply wp_mono.
  { apply (wp_loop I μ _ (λ r, match r with inl p => I p ∧ p mod 8 = 0 | inr p => p = s + chrnul c' l end));
      [|done|by apply Hfuel].
    intros p (i & -> & Hi & Hn). case_match eqn:E; zbool; wp_pure; [split; [by exists i | done]|].
    apply (str_load m s l Hs i); [done|]. destruct (Z.eqb_spec (sget l i) 0); simpl; wp_pure; [auto|].
    destruct (Z.eqb_spec (sget l i) c'); wp_pure; auto. }
  intros [p|p]; [|intros ->; by wp_pure]. intros [H1 Hal]. wp_pure. eapply wp_mono.
  { apply (wp_loop (λ p, I p ∧ p mod 8 = 0) μ _ I); [|done|by apply Hfuel].
    intros q [(i & -> & Hi & Hn) Hal'].
    destruct (str_word m s l Hok Hs i) as (w & Hw & Hlen & Hb & Hin); [done..|].
    wp_pure. wp_use Hw. case_match eqn:E; zbool; wp_pure; [|by exists i].
    apply andb_true_iff in E as [E1 E2]. zbool. apply HASZERO_spec in E1; [|done..].
    apply HASZERO_lxor in E2; [|done..]. destruct (Hin E1) as [? ->].
    split; [split; [|zdiv] | unfold μ; lia]. exists (i + 8)%nat. split_and!; [lia | lia|].
    rewrite <- take_take_drop, not_elem_of_app. done. }
  intros q H2. apply (wp_loop I μ); [|done|by apply Hfuel].
  intros p' (i & -> & Hi & Hn). wp_pure. apply (str_load m s l Hs i); [done|].
  destruct (Z.eqb_spec (sget l i) 0); simpl; wp_pure; [auto|].
  destruct (Z.eqb_spec (sget l i) c'); simpl; wp_pure; auto.
Qed.

Lemma strchr_ok m s l c :
  mem_ok m → cstr m s l →
  strchr m s c = Ok (match index_of (u8 c) (l ++ [0]) with Some i => s + i | None => 0 end).
Proof.
  intros Hok Hs. unfold strchr. rewrite (strchrnul_ok _ _ l) by done. simpl.
  rewrite (loadb_ok _ _ _ (cstr_get _ _ _ _ (chrnul_le _ _) Hs)). simpl. unfold chrnul.
  destruct (index_of (u8 c) l) as [i|] eqn:E; simpl.
  - pose proof E as [Hi Hn]%index_of_Some. unfold sget. rewrite Hi. simpl. rewrite Z.eqb_refl.
    assert (index_of (u8 c) (l ++ [0]) = Some i) as ->; [|done].
    apply index_of_Some. pose proof (lookup_lt_Some _ _ _ Hi).
    rewrite lookup_app_l, take_app_le by lia. done.
  - unfold sget. rewrite lookup_ge_None_2 by lia. rewrite index_of_app by (by apply index_of_None).
    simpl. destruct (Z.eqb_spec 0 (u8 c)); simpl; [by rewrite Nat.add_0_r | done].
Qed.

Lemma strrchr_ok m s l c :
  mem_ok m → cstr m s l →
  strrchr m s c = Ok (match last_index_of (u8 c) (l ++ [0]) with Some i => s + i | None => 0 end).
Proof.
  intros Hok Hs. unfold strrchr. rewrite (strlen_ok _ _ l) by done. simpl.
  replace (length l + 1) with (Z.of_nat (length (l ++ [0]))) by (rewrite length_app; simpl; lia).
  apply memrchr_ok. apply Hs.
Qed.

(** ** Copying strings *)

Lemma nul_bytes l : Forall is_byte l → Forall is_byte (l ++ [0]).
Proof. intros. apply Forall_app. split; [done|]. by apply Forall_singleton. Qed.

Lemma length_nul (l : list Z) : length l + 1 = length (l ++ [0]).
Proof. rewrite length_app. simpl. lia. Qed.

(** A copy of [l], with or without its terminator, into a range that does
    not start inside the source. *)
Definition no_clobber (d s n : Z) : Prop := d <= s ∨ s + n <= d.

Lemma memcpy_nul m d s l :
  mem_ok m → cstr m s l → mapped m d (length l + 1) → no_clobber d s (length l + 1) →
  memcpy m d s (length l + 1) = Ok (d, write m d (l ++ [0])).
Proof.
  intros Hok Hs Hd Hov. unfold no_clobber in Hov. rewrite length_nul in *.
  apply memcpy_forward; [apply Hs | done | | done].
  by apply nul_bytes, (cstr_is_byte m s).
Qed.

(** A copy of the first [n] bytes followed by a NUL. *)
Lemma memcpy_prefix m d s l (n : nat) :
  mem_ok m → cstr m s l → (n <= length l)%nat → mapped m d (n + 1) → no_clobber d s n →
  memcpy m d s n = Ok (d, write m d (take n l)) ∧
  storeb (write m d (take n l)) (d + n) 0 = Ok (write m d (take n l ++ [0])).
Proof.
  intros Hok Hs Hn Hd Hov. unfold no_clobber in Hov.
  assert (length (take n l) = n) as Hlen by (rewrite length_take; lia).
  split.
  - rewrite <- Hlen at 1. apply memcpy_forward.
    + apply bytes_take. by apply cstr_bytes.
    + rewrite Hlen. eapply mapped_mono; [done | lia | lia].
    + by eapply Forall_take, cstr_is_byte.
    + rewrite Hlen. done.
  - destruct (mapped_write m d (take n l) _ _ Hd (d + n)) as [v Hv]; [lia|].
    rewrite (storeb_ok _ _ _ v) by done. rewrite write_app, Hlen. done.
Qed.

Lemma stpcpy_ok m d s l :
  mem_ok m → cstr m s l → mapped m d (length l + 1) → no_clobber d s (length l + 1) →
  stpcpy m d s = Ok (d + length l, write m d (l ++ [0])).
Proof.
  intros. unfold stpcpy. rewrite (strlen_ok _ _ l) by done. simpl. by rewrite memcpy_nul.
Qed.

Lemma strcpy_ok m d s l :
  mem_ok m → cstr m s l → mapped m d (length l + 1) → no_clobber d s (length l + 1) →
  strcpy m d s = Ok (d, write m d (l ++ [0])).
Proof. intros. unfold strcpy. by rewrite (stpcpy_ok _ _ _ l). Qed.

Lemma stpncpy_ok m d s l (n : nat) :
  mem_ok m → cstr m s l → mapped m d n → no_clobber d s n →
  stpncpy m d s n =
    Ok (d + min (length l) n, write m d (take n l ++ replicate (n - length l) 0)).
Proof.
  intros Hok Hs Hd Hov. unfold stpncpy, no_clobber in *.
  rewrite (strnlen_min _ _ l) by (done || lia). simpl.
  assert (Z.min (length l) n = length (take n l)) as -> by (rewrite length_take; lia).
  rewrite memcpy_forward; [simpl| | | |].
  - rewrite memset_ok.
    + simpl. rewrite write_app. do 3 f_equal; [rewrite length_take; lia|].
      change (u8 0) with 0. f_equal. rewrite length_take. lia.
    + rewrite length_take. lia.
    + apply mapped_write. eapply mapped_mono; [done | lia |]. rewrite length_take. lia.
  - apply bytes_take. by apply cstr_bytes.
  - eapply mapped_mono; [done | lia |]. rewrite length_take. lia.
  - by eapply Forall_take, cstr_is_byte.
  - rewrite length_take. lia.
Qed.

Lemma strcat_ok m d s ld l :
  mem_ok m → cstr m d ld → cstr m s l → mapped m (d + length ld) (length l + 1) →
  no_clobber (d + length ld) s (length l + 1) →
  strcat m d s = Ok (d, write m (d + length ld) (l ++ [0])).
Proof.
  intros. unfold strcat. rewrite (strlen_ok _ _ ld) by done. simpl.
  by rewrite (strcpy_ok _ _ _ l).
Qed.

Lemma strncat_ok m d s ld l (n : nat) :
  mem_ok m → cstr m d ld → cstr m s l → mapped m (d + length ld) (min (length l) n + 1) →
  no_clobber (d + length ld) s (min (length l) n) →
  strncat m d s n = Ok (d, write m (d + length ld) (take n l ++ [0])).
Proof.
  intros Hok Hd Hs Hm Hov. unfold strncat. rewrite (strlen_ok _ _ ld) by done. simpl.
  rewrite (strnlen_min _ _ l) by (done || lia). simpl.
  rewrite <- Nat2Z.inj_min. destruct (memcpy_prefix m (d + length ld) s l (min (length l) n)) as [E1 E2];
    [done | done | lia | done | done|].
  rewrite E1. simpl. rewrite E2. simpl. do 4 f_equal.
  destruct (decide (n <= length l)%nat); [by rewrite Nat.min_r by lia|].
  rewrite Nat.min_l by lia. rewrite !take_ge by lia. done.
Qed.

Lemma strlcpy_ok m d s l (n : nat) :
  mem_ok m → cstr m s l → mapped m d (min (length l + 1) n) → no_clobber d s (min (length l) (n - 1)) →
  strlcpy m d s n =
    Ok (Z.of_nat (length l), if decide (n = 0%nat) then m else write m d (take (n - 1) l ++ [0])).
Proof.
  intros Hok Hs Hm Hov. unfold strlcpy. rewrite (strlen_ok _ _ l) by done. simpl.
  destruct (Z.eqb_spec n 0) as [E|E]; case_decide; try lia; [done|].
  assert ((if length l <? n - 1 then Z.of_nat (length l) else n - 1) = Z.of_nat (min (length l) (n - 1))) as ->.
  { destruct (Z.ltb_spec (length l) (n - 1)); lia. }
  destruct (memcpy_prefix m d s l (min (length l) (n - 1))) as [E1 E2].
  - done.
  - done.
  - lia.
  - eapply mapped_mono; [done | lia | lia].
  - done.
  - rewrite E1. simpl. rewrite E2. simpl. do 4 f_equal.
    destruct (decide (n - 1 <= length l)%nat); [by rewrite Nat.min_r by lia|].
    rewrite Nat.min_l by lia. rewrite !take_ge by lia. done.
Qed.

Lemma strlcat_ok m d s ld l (n : nat) :
  mem_ok m → cstr m d ld → (length ld < n)%nat → cstr m s l → mapped m d n →
  no_clobber (d + length ld) s (length l + 1) →
  strlcat m d s n = Ok (length ld + length l, write m (d + length ld) (take (n - length ld - 1) l ++ [0])).
Proof.
  intros Hok Hd Hn Hs Hm Hov. unfold strlcat, no_clobber in *.
  rewrite (strnlen_ok _ _ ld) by (done || lia). simpl.
  destruct (Z.eqb_spec (length ld) n); [lia|].
  rewrite <- Nat2Z.inj_sub by lia. rewrite (strlcpy_ok _ _ _ l).
  - case_decide; [lia|]. done.
  - done.
  - done.
  - eapply mapped_mono; [done | lia | lia].
  - unfold no_clobber. lia.
Qed.

(** The buffer holds no terminator: nothing is written. *)
Lemma strlcat_full m d s ld l :
  mem_ok m → bytes m d ld → Forall (λ b, 0 < b < 256) ld → cstr m s l →
  strlcat m d s (length ld) = Ok (length ld + length l, m).
Proof.
  intros. unfold strlcat. rewrite strnlen_full by done. simpl. rewrite Z.eqb_refl.
  by rewrite (strlen_ok _ _ l).
Qed.

(** The result of a copy is the string. *)
Lemma cstr_write m d l : Forall (λ b, 0 < b < 256) l → cstr (write m d (l ++ [0])) d l.
Proof. intros. split; [apply bytes_write | done]. Qed.

Lemma cstr_write_out m p k s l :
  cstr m s l → s + length l + 1 <= p ∨ p + length k <= s → cstr (write m p k) s l.
Proof.
  intros [Hb Hl] Hd. split; [|done]. apply bytes_write_out; [|done].
  rewrite length_app. simpl. lia.
Qed.

Lemma cstr_write_app m d ld l :
  cstr m d ld → Forall (λ b, 0 < b < 256) l →
  cstr (write m (d + length ld) (l ++ [0])) d (ld ++ l).
Proof.
  intros [Hb Hd] Hl. split; [|by apply Forall_app].
  rewrite <- app_assoc. apply bytes_app. split; [|apply bytes_write].
  apply bytes_write_out; [lia|]. by apply bytes_app in Hb as [? _].
Qed.

(** ** Comparing strings *)

(** Where a comparison of the first [n] bytes through [f] stops, the
    difference at hand is the result. *)
Lemma cmp_str_at (f : Z → Z) (l1 l2 : list Z) (i n : nat) :
  (i <= length l1)%nat → (i <= length l2)%nat → (i < n)%nat →
  f <$> take i l1 = f <$> take i l2 →
  (sget l1 i = 0 → i = length l1) → (sget l2 i = 0 → i = length l2) →
  (f (sget l1 i) = f (sget l2 i) → sget l1 i = 0 ↔ sget l2 i = 0) →
  f (sget l1 i) ≠ f (sget l2 i) ∨ sget l1 i = 0 ∨ sget l2 i = 0 ∨ S i = n →
  cmp_bytes (f <$> take n (l1 ++ [0])) (f <$> take n (l2 ++ [0])) = f (sget l1 i) - f (sget l2 i).
Proof.
  intros H1 H2 Hn Heq Hz1 Hz2 Hz Hstop.
  assert (∀ l : list Z, (i <= length l)%nat →
    take n (l ++ [0]) = take i l ++ sget l i :: take (n - S i) (drop (S i) (l ++ [0]))) as Hsplit.
  { intros l Hl. replace n with (i + (1 + (n - S i)))%nat at 1 by lia.
    rewrite <- take_take_drop, take_app_le by lia. f_equal.
    rewrite <- take_take_drop, drop_drop, Nat.add_1_r. simpl.
    destruct (drop i (l ++ [0])) as [|x k] eqn:E.
    - apply (f_equal length) in E. rewrite length_drop, length_app in E. simpl in E. lia.
    - simpl. f_equal. rewrite sget_app, <- (Nat.add_0_r i), <- lookup_drop, E. done. }
  rewrite (Hsplit l1), (Hsplit l2), !fmap_app, Heq, cmp_bytes_app by done. rewrite !fmap_cons. simpl.
  case_match eqn:E; zbool; [|done].
  destruct Hstop as [?|Hstop]; [done|].
  assert (sget l1 i = 0 ∧ sget l2 i = 0 ∨ S i = n) as [[E1 E2]|<-] by tauto.
  - apply Hz1 in E1. apply Hz2 in E2. rewrite !drop_ge by (rewrite length_app; simpl; lia).
    rewrite !take_nil. simpl. lia.
  - rewrite Nat.sub_diag. simpl. lia.
Qed.

(** The state of a comparison loop. *)
Definition cmp_st (f : Z → Z) (l r : Z) (l1 l2 : list Z) (i : nat) (p q : Z) : Prop :=
  p = l + i ∧ q = r + i ∧ (i <= length l1)%nat ∧ (i <= length l2)%nat ∧
  f <$> take i l1 = f <$> take i l2.

Section Compare.
Context (m : mem) (l r : Z) (l1 l2 : list Z).
Context (H1 : cstr m l l1) (H2 : cstr m r l2).
Context (f : Z → Z) (Hf : ∀ x, is_byte x → f x = 0 ↔ x = 0).

Lemma cmp_st_step i p q :
  cmp_st f l r l1 l2 i p q → sget l1 i ≠ 0 → sget l2 i ≠ 0 → f (sget l1 i) = f (sget l2 i) →
  cmp_st f l r l1 l2 (S i) (p + 1) (q + 1) ∧ (i < length l1)%nat.
Proof.
  intros (-> & -> & Hi1 & Hi2 & Heq) Hx Hy E.
  rewrite (sget_zero m l l1) in Hx by done. rewrite (sget_zero m r l2) in Hy by done.
  split; [|lia]. split_and!; [lia.. |].
  rewrite !take_S_sget by lia. rewrite !fmap_app, Heq. simpl. by rewrite E.
Qed.

Lemma cmp_st_init : cmp_st f l r l1 l2 0 l r.
Proof. split_and!; [lia.. | done]. Qed.

Lemma cmp_st_end i p q n :
  cmp_st f l r l1 l2 i p q → (i < n)%nat →
  f (sget l1 i) ≠ f (sget l2 i) ∨ sget l1 i = 0 ∨ sget l2 i = 0 ∨ S i = n →
  f (sget l1 i) - f (sget l2 i) =
  cmp_bytes (f <$> take n (l1 ++ [0])) (f <$> take n (l2 ++ [0])).
Proof.
  intros (-> & -> & Hi1 & Hi2 & Heq) Hn Hstop. symmetry. apply cmp_str_at; try done.
  - by apply (sget_zero m l l1).
  - by apply (sget_zero m r l2).
  - intros E. rewrite <- (Hf (sget l1 i)), <- (Hf (sget l2 i)), E; [done|..]; eapply sget_byte; eauto.
Qed.

Lemma cmp_load_l i p q Q : cmp_st f l r l1 l2 i p q → Q (sget l1 i) → wp (loadb m p) Q.
Proof. intros (-> & _ & ? & _) ?. by eapply str_load. Qed.

Lemma cmp_load_r i p q Q : cmp_st f l r l1 l2 i p q → Q (sget l2 i) → wp (loadb m q) Q.
Proof. intros (_ & -> & _ & ? & _) ?. by eapply str_load. Qed.

(** The two final loads, shared by the four functions. *)
Lemma cmp_finish i p q n :
  cmp_st f l r l1 l2 i p q → (i < n)%nat →
  f (sget l1 i) ≠ f (sget l2 i) ∨ sget l1 i = 0 ∨ sget l2 i = 0 ∨ S i = n →
  wp (loadb m p) (λ x, wp (y ← loadb m q; Ok (f x - f y))
    (λ z, z = cmp_bytes (f <$> take n (l1 ++ [0])) (f <$> take n (l2 ++ [0])))).
Proof.
  intros Hst Hn Hstop. eapply cmp_load_l; [exact Hst|]. wp_pure. eapply cmp_load_r; [exact Hst|].
  wp_pure. by eapply cmp_st_end.
Qed.
End Compare.

Lemma cmp_full (f : Z → Z) (l1 l2 : list Z) :
  cmp_bytes (f <$> take (S (max (length l1) (length l2))) (l1 ++ [0]))
            (f <$> take (S (max (length l1) (length l2))) (l2 ++ [0])) =
  cmp_bytes (f <$> l1 ++ [0]) (f <$> l2 ++ [0]).
Proof. rewrite !take_ge; [done|..]; rewrite length_app; simpl; lia. Qed.

Lemma strcmp_ok m l r l1 l2 :
  cstr m l l1 → cstr m r l2 → strcmp m l r = Ok (cmp_bytes (l1 ++ [0]) (l2 ++ [0])).
Proof.
  intros H1 H2. rewrite <- (list_fmap_id (l1 ++ [0])), <- (list_fmap_id (l2 ++ [0])), <- cmp_full.
  assert (∀ x, is_byte x → id x = 0 ↔ x = 0) as Hf by done.
  unfold strcmp. apply wp_eq_r. wp_pure.
  apply (wp_loop (λ '(p, q), ∃ i, cmp_st id l r l1 l2 i p q)
    (λ '(p, _), Z.to_nat (l + length l1 - p))).
  - intros [p q] [i Hst]. wp_pure. eapply cmp_load_l; [exact H1|exact Hst|]. wp_pure. eapply cmp_load_r; [exact H2|exact Hst|].
    case_match eqn:E; wp_pure.
    + apply andb_true_iff in E as [E1 E2%negb_true_iff]. zbool.
      destruct (cmp_st_step m l r l1 l2 H1 H2 id i p q) as [Hs Hlt]; [done | lia | lia | done|].
      split; [by exists (S i)|]. destruct Hst as (-> & _). lia.
    + eapply (cmp_finish m l r l1 l2 H1 H2 id Hf i); [done | destruct Hst; lia|].
      apply andb_false_iff in E as [?|?%negb_false_iff]; zbool; unfold id; auto.
  - exists 0%nat. apply cmp_st_init.
  - pose proof (str_fuel _ _ _ H1). lia.
Qed.

Lemma strncmp_ok m l r l1 l2 n :
  cstr m l l1 → cstr m r l2 → 0 <= n →
  strncmp m l r n = Ok (cmp_bytes (take (Z.to_nat n) (l1 ++ [0])) (take (Z.to_nat n) (l2 ++ [0]))).
Proof.
  intros H1 H2 Hn. rewrite <- (list_fmap_id (take _ (l1 ++ [0]))), <- (list_fmap_id (take _ (l2 ++ [0]))).
  assert (∀ x, is_byte x → id x = 0 ↔ x = 0) as Hf by done.
  unfold strncmp. case_match eqn:E0; zbool; [by subst|]. apply wp_eq_r. wp_pure.
  apply (wp_loop (λ '(p, q, k), ∃ i : nat, cmp_st id l r l1 l2 i p q ∧ k = n - 1 - i ∧ 0 <= k)
    (λ '(p, _, _), Z.to_nat (l + length l1 - p))).
  - intros [[p q] k] (i & Hst & -> & Hk). wp_pure. eapply cmp_load_l; [exact H1|exact Hst|].
    assert (i < Z.to_nat n)%nat as Hin by lia.
    case_match eqn:E; zbool; [wp_pure; eapply (cmp_finish m l r l1 l2 H1 H2 id Hf i); auto|].
    wp_pure. eapply cmp_load_r; [exact H2|exact Hst|].
    case_match eqn:E1; zbool; [wp_pure; eapply (cmp_finish m l r l1 l2 H1 H2 id Hf i); auto|].
    case_match eqn:E2; zbool.
    { wp_pure. eapply (cmp_finish m l r l1 l2 H1 H2 id Hf i); [done | done|]. right; right; right. lia. }
    case_match eqn:E3; zbool; wp_pure; [|eapply (cmp_finish m l r l1 l2 H1 H2 id Hf i); auto].
    destruct (cmp_st_step m l r l1 l2 H1 H2 id i p q) as [Hs Hlt]; [done..|].
    split; [exists (S i); split_and!; [done | lia | lia]|]. destruct Hst as (-> & _). lia.
  - exists 0%nat. split_and!; [apply cmp_st_init | lia | lia].
  - pose proof (str_fuel _ _ _ H1). lia.
Qed.

Lemma tolower_or x y : is_byte x → is_byte y →
  (x =? y) || (tolower x =? tolower y) = (tolower x =? tolower y).
Proof.
  intros. destruct (Z.eqb_spec x y) as [->|]; [by rewrite Z.eqb_refl | done].
Qed.

Lemma strcasecmp_ok m l r l1 l2 :
  cstr m l l1 → cstr m r l2 →
  strcasecmp m l r = Ok (cmp_bytes (tolower <$> l1 ++ [0]) (tolower <$> l2 ++ [0])).
Proof.
  intros H1 H2. rewrite <- cmp_full. pose proof tolower_zero as Hf.
  unfold strcasecmp. apply wp_eq_r. wp_pure.
  apply (wp_loop (λ '(p, q), ∃ i, cmp_st tolower l r l1 l2 i p q)
    (λ '(p, _), Z.to_nat (l + length l1 - p))).
  - intros [p q] [i Hst]. assert (i < S (Nat.max (length l1) (length l2)))%nat by (destruct Hst; lia).
    wp_pure. eapply cmp_load_l; [exact H1|exact Hst|].
    case_match eqn:E; zbool; [wp_pure; eapply (cmp_finish m l r l1 l2 H1 H2 tolower Hf i); auto|].
    wp_pure. eapply cmp_load_r; [exact H2|exact Hst|].
    case_match eqn:E1; zbool; [wp_pure; eapply (cmp_finish m l r l1 l2 H1 H2 tolower Hf i); auto|].
    rewrite tolower_or by (eapply sget_byte; eauto).
    case_match eqn:E3; zbool; wp_pure; [|eapply (cmp_finish m l r l1 l2 H1 H2 tolower Hf i); auto].
    destruct (cmp_st_step m l r l1 l2 H1 H2 tolower i p q) as [Hs Hlt]; [done..|].
    split; [by exists (S i)|]. destruct Hst as (-> & _). lia.
  - exists 0%nat. apply cmp_st_init.
  - pose proof (str_fuel _ _ _ H1). lia.
Qed.

Lemma strncasecmp_ok m l r l1 l2 n :
  cstr m l l1 → cstr m r l2 → 0 <= n →
  strncasecmp m l r n = Ok (cmp_bytes (tolower <$> take (Z.to_nat n) (l1 ++ [0]))
                                      (tolower <$> take (Z.to_nat n) (l2 ++ [0]))).
Proof.
  intros H1 H2 Hn. pose proof tolower_zero as Hf.
  unfold strncasecmp. case_match eqn:E0; zbool; [by subst|]. apply wp_eq_r. wp_pure.
  apply (wp_loop (λ '(p, q, k), ∃ i : nat, cmp_st tolower l r l1 l2 i p q ∧ k = n - 1 - i ∧ 0 <= k)
    (λ '(p, _, _), Z.to_nat (l + length l1 - p))).
  - intros [[p q] k] (i & Hst & -> & Hk). wp_pure. eapply cmp_load_l; [exact H1|exact Hst|].
    assert (i < Z.to_nat n)%nat as Hin by lia.
    case_match eqn:E; zbool; [wp_pure; eapply (cmp_finish m l r l1 l2 H1 H2 tolower Hf i); auto|].
    wp_pure. eapply cmp_load_r; [exact H2|exact Hst|].
    case_match eqn:E1; zbool; [wp_pure; eapply (cmp_finish m l r l1 l2 H1 H2 tolower Hf i); auto|].
    case_match eqn:E2; zbool.
    { wp_pure. eapply (cmp_finish m l r l1 l2 H1 H2 tolower Hf i); [done | done|]. right; right; right. lia. }
    rewrite tolower_or by (eapply sget_byte; eauto).
    case_match eqn:E3; zbool; wp_pure; [|eapply (cmp_finish m l r l1 l2 H1 H2 tolower Hf i); auto].
    destruct (cmp_st_step m l r l1 l2 H1 H2 tolower i p q) as [Hs Hlt]; [done..|].
    split; [exists (S i); split_and!; [done | lia | lia]|]. destruct Hst as (-> & _). lia.
  - exists 0%nat. split_and!; [apply cmp_st_init | lia | lia].
  - pose proof (str_fuel _ _ _ H1). lia.
Qed.

(** ** Byte sets *)

Definition set_has (set : list Z) (b : Z) : bool :=
  Z.testbit (nth (Z.to_nat (b / 64)) set 0) (b mod 64).

Lemma bit_mask b : u64 (Z.shiftl 1 (b mod 64)) = 2 ^ (b mod 64).
Proof.
  rewrite Z.shiftl_1_l. apply uwrap_small. pose proof (Z.mod_pos_bound b 64 ltac:(lia)).
  split; [apply Z.pow_nonneg; lia | apply Z.pow_lt_mono_r; lia].
Qed.

Lemma bitop_and_has set b : (bitop_and set b =? 0) = negb (set_has set b).
Proof.
  unfold bitop_and, set_has. rewrite bit_mask. set (w := nth _ _ _). set (k := b mod 64).
  assert (0 <= k) by (unfold k; apply Z.mod_pos_bound; lia).
  destruct (Z.testbit w k) eqn:E; simpl.
  - apply Z.eqb_neq. intros H0. apply (f_equal (λ z, Z.testbit z k)) in H0.
    rewrite Z.land_spec, E, Z.pow2_bits_true, Z.bits_0 in H0 by done. done.
  - apply Z.eqb_eq, Z.bits_inj'. intros i Hi. rewrite Z.land_spec, Z.bits_0, Z.pow2_bits_eqb by done.
    destruct (Z.eqb_spec k i) as [<-|]; [by rewrite E | by rewrite andb_false_r].
Qed.

Lemma set_has_insert set b c :
  length set = 4%nat → is_byte b → is_byte c →
  set_has (<[Z.to_nat (b / 64) := bitop_or set b]> set) c = (b =? c) || set_has set c.
Proof.
  intros Hlen Hb Hc. unfold set_has, bitop_or, is_byte in *. rewrite bit_mask.
  assert (∀ n (l : list Z), nth n l 0 = default 0 (l !! n)) as Hnth.
  { intros n l. by rewrite nth_lookup. }
  rewrite !Hnth. destruct (decide (b / 64 = c / 64)) as [E|E].
  - rewrite <- E, list_lookup_insert_eq by (rewrite Hlen; zdiv). simpl.
    rewrite Z.lor_spec, Z.pow2_bits_eqb by (apply Z.mod_pos_bound; lia).
    rewrite orb_comm. f_equal. apply eq_true_iff_eq. rewrite !Z.eqb_eq. split; [zdiv | by intros ->].
  - rewrite list_lookup_insert_ne by zdiv. destruct (Z.eqb_spec b c) as [->|]; done.
Qed.

Lemma bitop_or_nonzero set b : bitop_or set b ≠ 0.
Proof.
  unfold bitop_or. rewrite bit_mask. rewrite Z.lor_eq_0_iff. intros [_ H].
  pose proof (Z.mod_pos_bound b 64 ltac:(lia)). pose proof (Z.pow_pos_nonneg 2 (b mod 64)). lia.
Qed.

(** The set built from a string holds exactly its bytes. *)
Lemma fill_byteset_ok m c lc :
  cstr m c lc →
  wp (fill_byteset m c) (λ set, ∀ b, is_byte b → set_has set b = bool_decide (b ∈ lc)).
Proof.
  intros Hc. unfold fill_byteset.
  apply (wp_loop (λ '(p, set), ∃ i : nat, p = c + i ∧ (i <= length lc)%nat ∧ length set = 4%nat ∧
      ∀ b, is_byte b → set_has set b = bool_decide (b ∈ take i lc))
    (λ '(p, _), Z.to_nat (c + length lc - p))).
  - intros [p set] (i & -> & Hi & Hlen & Hset). wp_pure. apply (str_load m c lc Hc i); [done|].
    case_match eqn:E; zbool; wp_pure.
    + rewrite (sget_zero m c lc) in E by done. subst i. intros b Hb. rewrite Hset, take_ge by done. done.
    + case_match eqn:E2; zbool; [by apply bitop_or_nonzero in E2|]. wp_pure.
      rewrite (sget_zero m c lc) in E by done. pose proof (sget_byte m c lc Hc i) as Hx.
      split; [|lia]. exists (S i). rewrite length_insert. split_and!; [lia | lia | done|].
      intros b Hb. rewrite set_has_insert, Hset by done. rewrite take_S_sget by lia.
      apply eq_true_iff_eq. rewrite orb_true_iff, Z.eqb_eq, !bool_decide_eq_true, elem_of_app,
        list_elem_of_singleton. intuition congruence.
  - exists 0%nat. split_and!; [lia | lia | done|]. intros b Hb.
    rewrite bool_decide_eq_false_2 by apply not_elem_of_nil. unfold set_has.
    unfold is_byte in Hb. rewrite nth_lookup, lookup_replicate_2 by zdiv. apply Z.bits_0.
  - pose proof (str_fuel _ _ _ Hc). lia.
Qed.

(** The length of the longest prefix whose bytes satisfy [P]. *)
Fixpoint span_len (P : Z → bool) (l : list Z) : nat :=
  match l with [] => O | x :: l => if P x then S (span_len P l) else O end.

Lemma span_len_le P l : (span_len P l <= length l)%nat.
Proof. induction l as [|x l IH]; simpl; [done|]. destruct (P x); lia. Qed.

Lemma span_len_at P l i :
  (i <= length l)%nat → Forall (λ x, P x = true) (take i l) →
  i = length l ∨ P (sget l i) = false → span_len P l = i.
Proof.
  revert i. induction l as [|x l IH]; intros i Hi Hall Hend; simpl in *; [lia|].
  destruct i as [|i]; simpl in *.
  - destruct Hend as [?|Hx]; [done|]. unfold sget in Hx. simpl in Hx. by rewrite Hx.
  - apply Forall_cons in Hall as [-> Hall]. f_equal. apply IH; [lia | done|].
    destruct Hend as [[= ?]|?]; [by left | by right].
Qed.

Lemma span_len_ext P Q l : Forall (λ x, P x = Q x) l → span_len P l = span_len Q l.
Proof. induction 1 as [|x l H _ IH]; simpl; [done|]. by rewrite H, IH. Qed.

Lemma span_len_prefix P l : Forall (λ x, P x = true) (take (span_len P l) l).
Proof. induction l as [|x l IH]; simpl; [done|]. destruct (P x) eqn:E; simpl; auto. Qed.

Lemma span_len_stop P l x : l !! span_len P l = Some x → P x = false.
Proof.
  induction l as [|y l IH]; simpl; [done|]. destruct (P y) eqn:E; simpl; [auto|]. congruence.
Qed.

(** A loop that moves over the bytes that satisfy [P]. *)
Lemma span_loop m s l P (body : Z → res (ctl Z Z)) :
  cstr m s l →
  (∀ i, (i <= length l)%nat → body (s + i) =
    Ok (if negb (sget l i =? 0) && P (sget l i) then Cont (s + i + 1) else Brk (s + i))) →
  loop (fuel m) body s = Ok (s + span_len P l).
Proof.
  intros Hs Hb. apply wp_eq_r.
  apply (wp_loop (λ p, ∃ i : nat, p = s + i ∧ (i <= length l)%nat ∧ Forall (λ x, P x = true) (take i l))
    (λ p, Z.to_nat (s + length l - p))).
  - intros p (i & -> & Hi & Hall). rewrite Hb by done. case_match eqn:E; wp_pure.
    + apply andb_true_iff in E as [E1%negb_true_iff E2]. zbool.
      rewrite (sget_zero m s l) in E1 by done. split; [|lia]. exists (S i).
      rewrite take_S_sget by lia. split_and!; [lia | lia|]. apply Forall_app.
      split; [done|]. by apply Forall_singleton.
    + rewrite (span_len_at P l i); [done..|].
      apply andb_false_iff in E as [E%negb_false_iff|E]; [left|by right]. zbool.
      by apply (sget_zero m s l Hs).
  - exists 0%nat. split_and!; [lia | lia | done].
  - pose proof (str_fuel _ _ _ Hs). lia.
Qed.

Lemma strspn_ok m s l c lc :
  mem_ok m → cstr m s l → cstr m c lc →
  strspn m s c = Ok (Z.of_nat (span_len (λ x, bool_decide (x ∈ lc)) l)).
Proof.
  intros Hok Hs Hc. unfold strspn. pose proof (cstr_is_byte _ _ _ Hs) as Hlb.
  destruct lc as [|c0 [|c1 lc]].
  - apply cstr_nil in Hc. rewrite (loadb_ok _ _ _ Hc). simpl. rewrite ?Z.eqb_refl. do 2 f_equal.
    destruct l as [|x l]; [done|]. by destruct x.
  - apply cstr_cons in Hc as (Hc0 & Hr & Hc%cstr_nil). rewrite (loadb_ok _ _ _ Hc0). simpl.
    destruct (Z.eqb_spec c0 0); [lia|]. rewrite (loadb_ok _ _ _ Hc). simpl. rewrite ?Z.eqb_refl.
    rewrite (span_loop m s l (λ x, bool_decide (x ∈ [c0]))); [simpl; f_equal; lia | done|].
    intros i Hi. rewrite (loadb_ok _ _ _ (cstr_get _ _ _ _ Hi Hs)). simpl.
    rewrite (bool_decide_ext _ (sget l i = c0)) by (by rewrite list_elem_of_singleton).
    destruct (Z.eqb_spec (sget l i) c0) as [->|]; case_bool_decide; try done.
    + destruct (Z.eqb_spec c0 0); [lia | done].
    + by rewrite andb_false_r.
  - pose proof (fill_byteset_ok _ _ _ Hc) as (set & Hfill & Hset).
    apply cstr_cons in Hc as (Hc0 & Hr0 & Hc). apply cstr_cons in Hc as (Hc1 & Hr1 & _).
    rewrite (loadb_ok _ _ _ Hc0). simpl. destruct (Z.eqb_spec c0 0); [lia|].
    rewrite (loadb_ok _ _ _ Hc1). simpl. destruct (Z.eqb_spec c1 0); [lia|]. rewrite Hfill. simpl.
    rewrite (span_loop m s l (λ x, bool_decide (x ∈ c0 :: c1 :: lc))); [simpl; f_equal; lia | done|].
    intros i Hi. rewrite (loadb_ok _ _ _ (cstr_get _ _ _ _ Hi Hs)). simpl.
    rewrite bitop_and_has, Hset by (by eapply sget_byte).
    destruct (Z.eqb_spec (sget l i) 0); [done|]. simpl. by destruct (bool_decide _).
Qed.

Lemma chrnul_span c l :
  chrnul c l = span_len (λ x, negb (x =? c)) l.
Proof.
  unfold chrnul. induction l as [|x l IH]; simpl; [done|].
  destruct (Z.eqb_spec x c); simpl; [done|]. rewrite <- IH. by destruct (index_of c l).
Qed.

Lemma strcspn_ok m s l c lc :
  mem_ok m → cstr m s l → cstr m c lc →
  strcspn m s c = Ok (Z.of_nat (span_len (λ x, bool_decide (x ∉ lc)) l)).
Proof.
  intros Hok Hs Hc. unfold strcspn. pose proof (cstr_is_byte _ _ _ Hs) as Hlb.
  destruct lc as [|c0 [|c1 lc]].
  - apply cstr_nil in Hc. rewrite (loadb_ok _ _ _ Hc). simpl. rewrite ?Z.eqb_refl.
    rewrite (strchrnul_ok _ _ l) by done. simpl. rewrite Z.add_simpl_l. do 2 f_equal.
    change (u8 0) with 0. rewrite chrnul_span. destruct Hs as [_ Hl].
    apply span_len_ext. eapply Forall_impl; [exact Hl|]. intros x Hx. simpl in Hx.
    destruct (Z.eqb_spec x 0); [lia | done].
  - apply cstr_cons in Hc as (Hc0 & Hr & Hc%cstr_nil). rewrite (loadb_ok _ _ _ Hc0). simpl.
    destruct (Z.eqb_spec c0 0); [lia|]. rewrite (loadb_ok _ _ _ Hc). simpl. rewrite ?Z.eqb_refl.
    rewrite (strchrnul_ok _ _ l) by done. simpl. rewrite Z.add_simpl_l. do 2 f_equal.
    rewrite u8_id by (unfold is_byte; lia). rewrite chrnul_span. apply span_len_ext.
    apply Forall_forall. intros x _.
    rewrite (bool_decide_ext _ (x ≠ c0)) by (by rewrite list_elem_of_singleton).
    destruct (Z.eqb_spec x c0); case_bool_decide; done.
  - pose proof (fill_byteset_ok _ _ _ Hc) as (set & Hfill & Hset).
    apply cstr_cons in Hc as (Hc0 & Hr0 & Hc). apply cstr_cons in Hc as (Hc1 & Hr1 & _).
    rewrite (loadb_ok _ _ _ Hc0). simpl. destruct (Z.eqb_spec c0 0); [lia|].
    rewrite (loadb_ok _ _ _ Hc1). simpl. destruct (Z.eqb_spec c1 0); [lia|]. rewrite Hfill. simpl.
    rewrite (span_loop m s l (λ x, bool_decide (x ∉ c0 :: c1 :: lc))); [simpl; f_equal; lia | done|].
    intros i Hi. rewrite (loadb_ok _ _ _ (cstr_get _ _ _ _ Hi Hs)). simpl.
    rewrite bitop_and_has, Hset by (by eapply sget_byte).
    destruct (Z.eqb_spec (sget l i) 0); [done|]. simpl. rewrite bool_decide_not.
    by destruct (bool_decide _).
Qed.

Lemma strpbrk_ok m s l c lc :
  mem_ok m → cstr m s l → cstr m c lc →
  strpbrk m s c = Ok (let k := span_len (λ x, bool_decide (x ∉ lc)) l in
    if decide (k = length l) then 0 else s + k).
Proof.
  intros Hok Hs Hc. unfold strpbrk. rewrite (strcspn_ok _ _ l _ lc) by done. simpl.
  set (k := span_len _ _). pose proof (span_len_le (λ x, bool_decide (x ∉ lc)) l) as Hk.
  rewrite (loadb_ok _ _ _ (cstr_get m s l k Hk Hs)). simpl.
  destruct (Z.eqb_spec (sget l k) 0) as [E|E]; rewrite (sget_zero m s l) in E by done;
    case_decide; done.
Qed.

Lemma strstr_ok m hp np h n :
  mem_ok m → cstr m hp h → cstr m np n →
  strstr m hp np = Ok (match find_sub n h with Some i => hp + i | None => 0 end).
Proof.
  intros Hok Hh Hn. unfold strstr. rewrite (strlen_ok m np n) by done. simpl.
  case_match eqn:E; zbool.
  - destruct n; [|done]. rewrite (find_sub_first [] h 0); [by rewrite Z.add_0_r | apply prefix_nil | lia | lia].
  - rewrite (strlen_ok _ _ h) by done. simpl.
    apply memmem_ok; [done | by apply cstr_bytes | by apply cstr_bytes | by eapply cstr_pos].
Qed.

(** The first position where [n] matches without regard to case. *)
Fixpoint find_case (n h : list Z) : option nat :=
  if bool_decide ((tolower <$> n) `prefix_of` (tolower <$> h)) then Some 0%nat else
  match h with [] => None | _ :: h => S <$> find_case n h end.

Lemma cmp_prefix_case n h :
  Forall is_byte n → Forall is_byte h → Forall (λ b, 0 < b) n →
  cmp_bytes (tolower <$> take (length n) (h ++ [0])) (tolower <$> take (length n) (n ++ [0])) = 0 ↔
  (tolower <$> n) `prefix_of` (tolower <$> h).
Proof.
  intros Hn Hh Hp. rewrite (take_app_le n) by lia. rewrite (take_ge n) by lia.
  rewrite prefix_take_iff, !length_fmap, <- fmap_take.
  destruct (decide (length n <= length h)%nat) as [Hle|Hgt].
  - rewrite take_app_le by lia. rewrite cmp_bytes_eq; [tauto|]. rewrite !length_fmap, length_take. lia.
  - split; [|lia]. intros E. exfalso. rewrite take_ge in E by (rewrite length_app; simpl; lia).
    assert (∃ n1 x n2, n = n1 ++ x :: n2 ∧ length n1 = length h) as (n1 & x & n2 & -> & Hl).
    { destruct (lookup_lt_is_Some_2 n (length h)) as [x Hx]; [lia|].
      exists (take (length h) n), x, (drop (S (length h)) n). rewrite length_take.
      split; [by rewrite take_drop_middle | lia]. }
    rewrite !fmap_app, fmap_cons in E.
    assert (tolower <$> h = tolower <$> n1 ∧ tolower x = 0) as [_ Hx].
    { assert (length (tolower <$> h) = length (tolower <$> n1)) as Hlen by (rewrite !length_fmap; lia).
      revert E Hlen. generalize (tolower <$> h), (tolower <$> n1). intros u v.
      revert v. induction u as [|a u IH]; intros [|b v]; simpl; try done.
      - destruct (Z.eqb_spec (tolower 0) (tolower x)) as [<-|]; [done|]. intros; lia.
      - destruct (Z.eqb_spec a b) as [->|]; [|lia]. intros E [= Hlen].
        destruct (IH v E Hlen) as [-> ?]. done. }
    apply Forall_app in Hn as [_ [Hxb _]%Forall_cons]. apply Forall_app in Hp as [_ [Hx0 _]%Forall_cons].
    simpl in Hx0. apply (proj1 (tolower_zero x Hxb)) in Hx. lia.
Qed.

Lemma strcasestr_ok m hp np h n :
  mem_ok m → cstr m hp h → cstr m np n →
  strcasestr m hp np = Ok (match find_case n h with Some i => hp + i | None => 0 end).
Proof.
  intros Hok Hh Hn. unfold strcasestr. rewrite (strlen_ok m np n) by done. simpl.
  apply wp_eq_r.
  apply (wp_loop (λ p, ∃ i : nat, p = hp + i ∧ (i <= length h)%nat ∧
      find_case n h = Nat.add i <$> find_case n (drop i h)) (λ p, Z.to_nat (hp + length h - p))).
  - intros p (i & -> & Hi & Hf). wp_pure. apply (str_load m hp h Hh i); [done|].
    pose proof (cstr_drop _ _ _ _ Hi Hh) as Hd. case_match eqn:E; zbool; wp_pure.
    + rewrite (sget_zero m hp h) in E by done. subst i. rewrite Hf, drop_ge by lia. simpl.
      case_match eqn:E2; zbool.
      * destruct n; [|done]. simpl. by rewrite Nat.add_0_r.
      * destruct n; [done|]. rewrite bool_decide_eq_false_2; [done|].
        intros [k Hk]. done.
    + wp_use strncasecmp_ok; [done | done | lia|]. rewrite Nat2Z.id.
      rewrite (sget_zero m hp h) in E by done.
      pose proof (cmp_prefix_case n (drop i h) (cstr_is_byte _ _ _ Hn) (cstr_is_byte _ _ _ Hd)) as Hc.
      destruct (drop i h) as [|x k] eqn:Ed.
      { apply (f_equal length) in Ed. rewrite length_drop in Ed. simpl in Ed. lia. }
      simpl in Hf. assert (Forall (λ b, 0 < b) n) as Hp.
      { destruct Hn as [_ Hn]. eapply Forall_impl; [exact Hn|]. simpl. lia. }
      specialize (Hc Hp). match goal with |- context [cmp_bytes ?a ?b =? 0] =>
        destruct (Z.eqb_spec (cmp_bytes a b) 0) as [E2|E2] end; wp_pure.
      * apply Hc in E2. rewrite bool_decide_eq_true_2 in Hf by done. rewrite Hf. simpl.
        by rewrite Nat.add_0_r.
      * rewrite Hc in E2. rewrite bool_decide_eq_false_2 in Hf by done. split; [|lia].
        exists (S i). split_and!; [lia | lia|]. rewrite Hf.
        assert (h !! i = Some x) as Hx by (by rewrite <- (Nat.add_0_r i), <- lookup_drop, Ed).
        apply drop_S in Hx. rewrite Ed in Hx. injection Hx as <-.
        destruct (find_case n k); simpl; [f_equal; lia | done].
  - exists 0%nat. rewrite drop_0. split_and!; [lia | lia|]. by destruct (find_case n h).
  - pose proof (str_fuel _ _ _ Hh). lia.
Qed.

(** ** Tokens *)

(** The maximal runs of bytes that are not separators. *)
Fixpoint split_tokens (seps cur l : list Z) : list (list Z) :=
  match l with
  | [] => if cur is [] then [] else [cur]
  | x :: l =>
      if bool_decide (x ∈ seps) then
        if cur is [] then split_tokens seps [] l else cur :: split_tokens seps [] l
      else split_tokens seps (cur ++ [x]) l
  end.
Definition tokens (seps l : list Z) : list (list Z) := split_tokens seps [] l.

Definition sep_span (seps l : list Z) : nat := span_len (λ x, bool_decide (x ∈ seps)) l.
Definition tok_span (seps l : list Z) : nat := span_len (λ x, bool_decide (x ∉ seps)) l.

Lemma split_tokens_run seps cur l :
  cur ++ take (tok_span seps l) l ≠ [] →
  split_tokens seps cur l =
    (cur ++ take (tok_span seps l) l) :: tokens seps (drop (S (tok_span seps l)) l).
Proof.
  revert cur. induction l as [|x l IH]; intros cur Hne; cbn [split_tokens tok_span span_len].
  - simpl in *. rewrite app_nil_r in *. by destruct cur.
  - unfold tok_span in *. cbn [span_len] in *. rewrite bool_decide_not in *.
    destruct (bool_decide (x ∈ seps)) eqn:E; cbn [negb] in *; simpl in *.
    + rewrite app_nil_r in *. destruct cur; [done|]. by rewrite drop_0.
    + rewrite IH; [by rewrite <- app_assoc|]. destruct cur; done.
Qed.

Lemma tokens_step seps l :
  let l' := drop (sep_span seps l) l in
  tokens seps l =
    if decide (l' = []) then [] else
    take (tok_span seps l') l' :: tokens seps (drop (S (tok_span seps l')) l').
Proof.
  cbv zeta. unfold tokens, sep_span. induction l as [|x l IH]; cbn [split_tokens span_len].
  - by rewrite decide_True.
  - destruct (bool_decide (x ∈ seps)) eqn:E.
    + rewrite IH. simpl. done.
    + rewrite drop_0. rewrite decide_False by done.
      pose proof (split_tokens_run seps [] (x :: l)) as Hr. cbn [split_tokens] in Hr. rewrite E in Hr.
      apply Hr. unfold tok_span. cbn [span_len]. rewrite bool_decide_not, E. simpl. done.
Qed.

(** One call. Either nothing is left, or the call returns the first token,
    terminated in place, and the position after it. *)
Lemma strtok_r_ok m s sep p l seps :
  mem_ok m → cstr m s l → cstr m sep seps →
  let l' := drop (sep_span seps l) l in
  let k := sep_span seps l in
  let j := tok_span seps l' in
  strtok_r m s sep p =
    Ok (if decide (l' = []) then (0, m, 0) else
        if decide (j = length l') then (s + k, m, 0)
        else (s + k, write m (s + k + j) [0], s + k + j + 1)).
Proof.
  intros Hok Hs Hsep l' k j. unfold strtok_r. pose proof (cstr_pos _ _ _ Hok Hs).
  destruct (Z.eqb_spec s 0); [lia|]. destruct (Z.eqb_spec s 0); [lia|].
  rewrite (strspn_ok _ _ l _ seps) by done. simpl. fold (sep_span seps l). fold k.
  assert (k <= length l)%nat as Hk by apply span_len_le.
  pose proof (cstr_drop _ _ _ _ Hk Hs) as Hd. fold l' in Hd.
  rewrite (loadb_ok _ _ _ (cstr_get m s l k Hk Hs)). simpl.
  assert (sget l k = 0 ↔ l' = []) as Hz.
  { rewrite (sget_zero m s l) by done. unfold l'. split; [intros E0; by rewrite drop_ge by lia|].
    intros E. apply (f_equal length) in E. rewrite length_drop in E. simpl in E. lia. }
  destruct (Z.eqb_spec (sget l k) 0) as [E|E].
  { by rewrite decide_True by tauto. }
  rewrite decide_False by tauto.
  rewrite (strcspn_ok _ _ l' _ seps) by done. simpl. fold (tok_span seps l'). fold j.
  assert (j <= length l')%nat as Hj by apply span_len_le.
  rewrite (loadb_ok _ _ _ (cstr_get _ _ _ j Hj Hd)). simpl.
  destruct (Z.eqb_spec (sget l' j) 0) as [Ej|Ej]; rewrite (sget_zero _ _ l' Hd) in Ej by done;
    case_decide; try done.
  erewrite storeb_ok; [done | by eapply cstr_get | done].
Qed.

(** All tokens, the way a program collects them: one call on the string,
    then calls with a null pointer until the result is null. *)
Fixpoint strtok_iter (n : nat) (m : mem) (s sep p : Z) : res (list Z * mem) :=
  match n with
  | O => Trap Fuel
  | S n =>
      '(t, m, p) ← strtok_r m s sep p;
      if t =? 0 then Ok ([], m) else
      '(ts, m) ← strtok_iter n m 0 sep p; Ok (t :: ts, m)
  end.

Lemma strtok_iter_S n m s sep p :
  strtok_iter (S n) m s sep p =
  '(t, m, p) ← strtok_r m s sep p;
  if t =? 0 then Ok ([], m) else
  '(ts, m) ← strtok_iter n m 0 sep p; Ok (t :: ts, m).
Proof. reflexivity. Qed.
#[global] Arguments strtok_iter : simpl never.

Lemma strtok_r_null m sep p : 0 < p → strtok_r m 0 sep p = strtok_r m p sep 0.
Proof.
  intros. unfold strtok_r. rewrite Z.eqb_refl. cbv zeta iota.
  destruct (Z.eqb_spec p 0) as [?|Hp]; [lia|]. apply Z.eqb_neq in Hp. by rewrite ?Hp.
Qed.

Lemma strtok_iter_start n m s sep p p' :
  0 < s → strtok_iter n m s sep p = strtok_iter n m s sep p'.
Proof.
  intros. destruct n; [done|]. rewrite !strtok_iter_S. unfold strtok_r.
  destruct (Z.eqb_spec s 0) as [?|Hs]; [lia|]. apply Z.eqb_neq in Hs. by rewrite ?Hs.
Qed.

Lemma strtok_iter_null n m sep p :
  0 < p → strtok_iter n m 0 sep p = strtok_iter n m p sep 0.
Proof. intros. destruct n; [done|]. rewrite !strtok_iter_S. by rewrite strtok_r_null. Qed.

Lemma strtok_iter_ok n m s sep l seps :
  mem_ok m → cstr m s l → cstr m sep seps →
  s + length l + 1 <= sep ∨ sep + length seps + 1 <= s →
  (length l < n)%nat →
  ∃ ps m', strtok_iter (S n) m s sep 0 = Ok (ps, m') ∧
    Forall2 (cstr m') ps (tokens seps l) ∧
    (∀ a, ¬ (s <= a < s + length l) → m' !! a = m !! a).
Proof.
  revert m s l. induction n as [|n IH]; intros m s l Hok Hs Hsep Hdis Hn; [lia|].
  rewrite strtok_iter_S. pose proof (strtok_r_ok m s sep 0 l seps Hok Hs Hsep) as Hstep.
  rewrite (tokens_step seps l). cbv zeta in *.
  set (k := sep_span seps l) in *. set (l' := drop k l) in *. set (j := tok_span seps l') in *.
  assert (k <= length l)%nat as Hk by apply span_len_le.
  assert (length l' = length l - k)%nat as Hlen by apply length_drop.
  assert (j <= length l')%nat as Hj by apply span_len_le.
  pose proof (cstr_drop _ _ _ _ Hk Hs) as Hd. fold l' in Hd.
  pose proof (cstr_pos _ _ _ Hok Hs). rewrite Hstep. simpl.
  destruct (decide (l' = [])) as [El|El]; simpl.
  { exists [], m. split_and!; [done | constructor | done]. }
  destruct (decide (j = length l')) as [Ej|Ej]; simpl; (destruct (Z.eqb_spec (s + k) 0); [lia|]).
  - exists [s + k], m. split_and!; [| |done].
    + destruct n; reflexivity.
    + constructor; [by rewrite take_ge by lia|]. rewrite drop_ge by lia. constructor.
  - set (m1 := write m (s + k + j) [0]). change (<[s + k + j := 0]> m) with m1.
    rewrite strtok_iter_null by lia.
    assert (mem_ok m1) as Hok1.
    { apply mem_ok_write; [done | |by apply Forall_singleton]. intros a Ha. simpl in Ha.
      replace a with (s + k + j) by lia. rewrite (cstr_get _ _ _ _ Hj Hd). eauto. }
    assert (cstr m1 (s + k + j + 1) (drop (S j) l')) as Hrest.
    { apply cstr_write_out; [|simpl; lia]. replace (s + k + j + 1) with (s + k + S j) by lia.
      apply cstr_drop; [lia | done]. }
    destruct (IH m1 (s + k + j + 1) (drop (S j) l')) as (ps & m' & Hit & Hall & Hout).
    + done.
    + done.
    + apply cstr_write_out; [done | simpl; lia].
    + rewrite length_drop. lia.
    + rewrite length_drop. lia.
    + rewrite Hit. simpl. exists (s + k :: ps), m'. split_and!; [done | |].
      * constructor; [|done]. split.
        -- intros i x Hx. rewrite Hout.
           2:{ apply lookup_lt_Some in Hx. rewrite length_app, length_take in Hx. simpl in Hx. lia. }
           unfold m1. destruct (decide (i = j)) as [->|Hij].
           ++ rewrite lookup_write, decide_True by (simpl; lia).
              rewrite lookup_app_r in Hx by (rewrite length_take; lia).
              rewrite length_take, Nat.min_l, Nat.sub_diag in Hx by lia.
              by replace (Z.to_nat (s + k + j - (s + k + j))) with 0%nat by lia.
           ++ assert (i < j)%nat as Hlt.
              { apply lookup_lt_Some in Hx. rewrite length_app, length_take in Hx. simpl in Hx. lia. }
              rewrite write_out by (simpl; lia). apply (cstr_bytes _ _ _ Hd).
              rewrite lookup_app_l, lookup_take in Hx by (rewrite ?length_take; lia).
              by rewrite decide_True in Hx by lia.
        -- apply Forall_take. apply Hd.
      * intros a Ha. rewrite Hout by (rewrite length_drop; lia). apply write_out. simpl. lia.
Qed.

Lemma strsep_ok m s sep l seps :
  mem_ok m → cstr m s l → cstr m sep seps →
  let j := tok_span seps l in
  strsep m s sep = Ok (if decide (j = length l) then (s, m, 0)
                       else (s, write m (s + j) [0], s + j + 1)).
Proof.
  intros Hok Hs Hsep j. unfold strsep. pose proof (cstr_pos _ _ _ Hok Hs).
  destruct (Z.eqb_spec s 0); [lia|]. rewrite (strcspn_ok _ _ l _ seps) by done. simpl.
  fold (tok_span seps l). fold j. assert (j <= length l)%nat as Hj by apply span_len_le.
  rewrite (loadb_ok _ _ _ (cstr_get _ _ _ j Hj Hs)). simpl.
  destruct (Z.eqb_spec (sget l j) 0) as [Ej|Ej]; rewrite (sget_zero _ _ l Hs) in Ej by done;
    case_decide; try done.
  erewrite storeb_ok; [done | by eapply cstr_get | done].
Qed.

(** ** Allocated copies *)

Section Dup.
Context (malloc : mem → Z → Z * mem) `{!Malloc malloc}.

(** A string survives an allocation, and the new block is apart from it. *)
Lemma block_new_cstr m n p m' s l :
  block_new m n p m' → cstr m s l →
  cstr m' s l ∧ (n <= 0 ∨ s + length l + 1 <= p ∨ p + n <= s).
Proof.
  intros Hb [Hs Hl]. split.
  - split; [|done]. intros i x Hx. by apply (bn_rest _ _ _ _ Hb), Hs.
  - destruct (decide (n <= 0)); [by left|right].
    destruct (decide (s + length l + 1 <= p)) as [?|Hlo]; [by left|right].
    destruct (decide (p + n <= s)) as [?|Hhi]; [done|]. exfalso.
    pose (a := Z.max s p).
    destruct (bytes_mapped _ _ _ Hs a) as [v Hv]; [rewrite length_app; simpl; unfold a; lia|].
    rewrite (bn_fresh _ _ _ _ Hb) in Hv; [done | unfold a; lia].
Qed.

Lemma strndup_ok m s l (n : nat) :
  mem_ok m → cstr m s l →
  ∃ d m', strndup malloc m s n = Ok (d, m') ∧
    (d = 0 ∧ m' = m ∨
     0 < d ∧ cstr m' d (take n l) ∧ (∀ a v, m !! a = Some v → m' !! a = Some v) ∧
     ∀ a, d <= a <= d + length (take n l) → m !! a = None).
Proof.
  intros Hok Hs. unfold strndup. rewrite (strnlen_min _ _ l) by (done || lia). simpl.
  rewrite <- Nat2Z.inj_min. set (k := min (length l) n).
  assert (take k l = take n l) as Hk.
  { unfold k. destruct (decide (n <= length l)%nat); [by rewrite Nat.min_r by lia|].
    rewrite Nat.min_l by lia. by rewrite !take_ge by lia. }
  assert (length (take n l) = k) as Hlen by (rewrite <- Hk, length_take; lia).
  pose proof (malloc_law (malloc := malloc) m (k + 1) ltac:(lia)) as Hm.
  destruct (malloc m (k + 1)) as [d m1]. destruct Hm as [[-> ->]|[Hd Hb]].
  { rewrite Z.eqb_refl. exists 0, m. split; [done | by left]. }
  destruct (Z.eqb_spec d 0); [lia|]. destruct (block_new_cstr _ _ _ _ s l Hb Hs) as [Hs1 Hdis].
  destruct (memcpy_prefix m1 d s l k) as [E1 E2].
  - by apply (bn_ok _ _ _ _ Hb).
  - done.
  - lia.
  - by apply (bn_mapped _ _ _ _ Hb).
  - unfold no_clobber. lia.
  - rewrite E1. simpl. rewrite E2. simpl. eexists _, _. split; [done|right].
    rewrite Hk, Hlen. split_and!; [done | | |].
    + apply cstr_write, Forall_take, Hs.
    + intros a v Hv. rewrite write_out; [by apply (bn_rest _ _ _ _ Hb)|].
      rewrite length_app, Hlen. simpl. intros Ha. rewrite (bn_fresh _ _ _ _ Hb) in Hv; [done | lia].
    + intros a Ha. apply (bn_fresh _ _ _ _ Hb). lia.
Qed.

Lemma strdup_ok m s l :
  mem_ok m → cstr m s l →
  ∃ d m', strdup malloc m s = Ok (d, m') ∧
    (d = 0 ∧ m' = m ∨
     0 < d ∧ cstr m' d l ∧ (∀ a v, m !! a = Some v → m' !! a = Some v) ∧
     ∀ a, d <= a <= d + length l → m !! a = None).
Proof.
  intros Hok Hs. unfold strdup. rewrite (strlen_ok _ _ l) by done. simpl.
  pose proof (malloc_law (malloc := malloc) m (length l + 1) ltac:(lia)) as Hm.
  destruct (malloc m (length l + 1)) as [d m1]. destruct Hm as [[-> ->]|[Hd Hb]].
  { rewrite Z.eqb_refl. exists 0, m. split; [done | by left]. }
  destruct (Z.eqb_spec d 0); [lia|]. destruct (block_new_cstr _ _ _ _ s l Hb Hs) as [Hs1 Hdis].
  rewrite memcpy_nul; [|by apply (bn_ok _ _ _ _ Hb)|done|apply (bn_mapped _ _ _ _ Hb)|unfold no_clobber; lia].
  eexists _, _. split; [done|right]. split_and!; [done | | |].
  - apply cstr_write, Hs.
  - intros a v Hv. rewrite write_out; [by apply (bn_rest _ _ _ _ Hb)|].
    rewrite length_app. simpl. intros Ha. rewrite (bn_fresh _ _ _ _ Hb) in Hv; [done | lia].
  - intros a Ha. apply (bn_fresh _ _ _ _ Hb). lia.
Qed.
End Dup.

(** ** Version comparison *)

Lemma take_nul_eq (l1 l2 : list Z) :
  take (length l1) l1 = take (length l1) l2 → length l1 = length l2 → l1 = l2.
Proof. intros H E. rewrite E in H at 2. by rewrite !take_ge in H by lia. Qed.

(** strverscmp returns, and 0 exactly on equal strings. *)
Lemma strverscmp_ok m l r l1 l2 :
  cstr m l l1 → cstr m r l2 → wp (strverscmp m l r) (λ z, z = 0 ↔ l1 = l2).
Proof.
  intros H1 H2. unfold strverscmp. wp_pure. eapply wp_mono.
  { apply (wp_loop (λ '(i, dp, z), ∃ k d : nat, i = Z.of_nat k ∧ dp = Z.of_nat d ∧ (d <= k)%nat ∧
        (k <= length l1)%nat ∧ (k <= length l2)%nat ∧ take k l1 = take k l2)
      (λ '(i, _, _), Z.to_nat (length l1 - i)) _
      (λ q, match q with
        | None => l1 = l2
        | Some (i, dp, _) => ∃ k d : nat, i = Z.of_nat k ∧ dp = Z.of_nat d ∧ (d <= k)%nat ∧
            (k <= length l1)%nat ∧ (k <= length l2)%nat ∧ sget l1 k ≠ sget l2 k end)).
    - intros [[i dp] z] (k & d & -> & -> & Hd & Hk1 & Hk2 & Heq). wp_pure.
      apply (str_load m l l1 H1 k); [done|]. wp_pure. apply (str_load m r l2 H2 k); [done|].
      destruct (Z.eqb_spec (sget l1 k) (sget l2 k)) as [Exy|Exy]; [|wp_pure; eauto 10].
      destruct (Z.eqb_spec (sget l1 k) 0) as [E0|E0]; wp_pure.
      { pose proof E0 as E1. rewrite Exy in E1. apply (sget_zero m l l1 H1) in E0; [|done].
        apply (sget_zero m r l2 H2) in E1; [|done]. subst k. by apply take_nul_eq. }
      pose proof E0 as E1. rewrite Exy in E1. rewrite (sget_zero m l l1 H1) in E0 by done.
      rewrite (sget_zero m r l2 H2) in E1 by done.
      assert (take (S k) l1 = take (S k) l2) as Hn by (rewrite !take_S_sget, Heq, Exy by lia; done).
      repeat case_match; wp_pure; (split; [|lia]);
        [exists (S k), (S k)|exists (S k), d|exists (S k), d]; split_and!; done || lia.
    - exists 0%nat, 0%nat. split_and!; done || lia.
    - pose proof (str_fuel _ _ _ H1). lia. }
  intros [[[i dp] z]|] Hq; [|by wp_pure].
  destruct Hq as (k & d & -> & -> & Hd & Hk1 & Hk2 & Hne).
  assert (l1 ≠ l2) as Hl by (intros ->; done).
  pose proof (sget_byte m l l1 H1 k) as Hb1. pose proof (sget_byte m r l2 H2 k) as Hb2.
  wp_pure. apply (str_load m l l1 H1 d); [lia|]. wp_pure. apply (str_load m r l2 H2 d); [lia|].
  wp_pure. apply (str_load m l l1 H1 k); [done|]. wp_pure. apply (str_load m r l2 H2 k); [done|].
  case_match.
  - wp_pure. apply (wp_loop (λ j, ∃ k : nat, j = Z.of_nat k ∧ (k <= length l1)%nat ∧ (k <= length l2)%nat)
      (λ j, Z.to_nat (length l1 - j))).
    + intros j (q & -> & Hq1 & Hq2). wp_pure. apply (str_load m l l1 H1 q); [done|].
      assert (isdigit 0 = false) as Hz by reflexivity.
      case_match eqn:Ed; wp_pure; (apply (str_load m r l2 H2 q); [done|]); wp_pure.
      * case_match eqn:Ed2; wp_pure; [|zcases; [lia|]; wp_pure; split; [lia | done]].
        assert (q ≠ length l1).
        { intros E. rewrite <- (sget_zero m l l1 H1) in E by done. rewrite E in Ed. done. }
        assert (q ≠ length l2).
        { intros E. rewrite <- (sget_zero m r l2 H2) in E by done. rewrite E in Ed2. done. }
        split; [exists (S q); split_and!|]; lia.
      * case_match eqn:Ed2; wp_pure; zcases; try lia; wp_pure; split; lia || done.
    + eauto.
    + pose proof (str_fuel _ _ _ H1). lia.
  - case_match; wp_pure.
    + split; [|done]. unfold uwrap, is_byte in *. intros E. exfalso. apply Hne.
      change (2 ^ 8) with 256 in E. zdiv.
    + split; [lia | done].
Qed.

(** ** Checked copies *)

Lemma cstr_len_u64 m s l : mem_ok m → cstr m s l → s + length l + 1 <= 2 ^ 64.
Proof.
  intros Hok Hs. pose proof (cstr_nul _ _ _ Hs) as Hn. apply (mem_addr _ Hok) in Hn. lia.
Qed.

Lemma strcpy_chk_ok m d s l dl :
  mem_ok m → cstr m s l →
  (length l + 1 <= dl → mapped m d (length l + 1) → no_clobber d s (length l + 1) →
     __strcpy_chk m d s dl = Ok (d, write m d (l ++ [0]))) ∧
  (dl < length l + 1 → __strcpy_chk m d s dl = Trap Abrt).
Proof.
  intros Hok Hs. pose proof (cstr_len_u64 _ _ _ Hok Hs). pose proof (cstr_pos _ _ _ Hok Hs).
  unfold __strcpy_chk. rewrite (strlen_ok _ _ l) by done. simpl.
  rewrite uwrap_small by lia. split; intros; zcases; try lia; [|done]. by apply memcpy_nul.
Qed.

Lemma strcat_chk_ok m d s ld l dl :
  mem_ok m → cstr m d ld → cstr m s l → length ld < dl →
  length ld + length l + 1 < 2 ^ 64 →
  (length ld + length l + 1 <= dl → mapped m (d + length ld) (length l + 1) →
   no_clobber (d + length ld) s (length l + 1) →
     __strcat_chk m d s dl = Ok (d, write m (d + length ld) (l ++ [0]))) ∧
  (dl < length ld + length l + 1 → __strcat_chk m d s dl = Trap Abrt).
Proof.
  intros Hok Hd Hs Hdl Hlt. unfold __strcat_chk.
  rewrite (strnlen_ok _ _ ld) by done. simpl. rewrite (strlen_ok _ _ l) by done. simpl.
  rewrite uwrap_small by lia. split; intros; zcases; try lia; simpl; [|done].
  by rewrite memcpy_nul.
Qed.

Lemma strcat_chk_full m d s buf l :
  mem_ok m → bytes m d buf → Forall (λ b, 0 < b < 256) buf → cstr m s l →
  __strcat_chk m d s (length buf) = Trap Abrt.
Proof.
  intros Hok Hd Hb Hs. unfold __strcat_chk. rewrite strnlen_full by done. simpl.
  rewrite (strlen_ok _ _ l) by done. simpl. by rewrite Z.eqb_refl.
Qed.

(** Disjoint ranges fit in the address space together. *)
Lemma disjoint_sum m d n s k :
  mem_ok m → mapped m d n → mapped m s k → 0 < n → 0 < k → s + k <= d ∨ d + n <= s → n + k < 2 ^ 64.
Proof.
  intros Hok Hd Hs ???. pose proof (mem_ok_range _ _ _ Hok Hd). pose proof (mem_ok_range _ _ _ Hok Hs). lia.
Qed.

(** ** Properties *)

(** C4: strlen, which reads whole words, returns the length of every
    terminated string, and strnlen the smaller of it and its bound; neither
    traps, although the last word read reaches past the terminator. *)
Theorem strlen_spec m s l n :
  mem_ok m → cstr m s l → 0 <= n →
  strlen m s = Ok (Z.of_nat (length l)) ∧ strnlen m s n = Ok (Z.min (length l) n).
Proof. intros. split; [by apply strlen_ok | by apply strnlen_min]. Qed.

(** "a,b;;hello\0" followed by "ell\0" and ",;\0", in one block. *)
Definition str_block : list Z :=
  [97; 44; 98; 59; 59; 104; 101; 108; 108; 111; 0] ++ [101; 108; 108; 0] ++ [44; 59; 0] ++ replicate 14 90.
Definition str_mem : mem := write ∅ 8192 str_block.

Lemma str_mem_ok : mem_ok str_mem.
Proof. apply mem_ok_block; vm_compute; done || reflexivity. Qed.

Lemma str_mem_text : cstr str_mem 8192 [97; 44; 98; 59; 59; 104; 101; 108; 108; 111].
Proof. apply cstr_eval; vm_compute; reflexivity. Qed.

Lemma str_mem_ell : cstr str_mem 8203 [101; 108; 108].
Proof. apply cstr_eval; vm_compute; reflexivity. Qed.

Lemma str_mem_seps : cstr str_mem 8207 [44; 59].
Proof. apply cstr_eval; vm_compute; reflexivity. Qed.

Lemma strlen_spec_witness :
  strlen str_mem 8192 = Ok 10 ∧ strnlen str_mem 8192 (2 ^ 64 - 1) = Ok 10.
Proof.
  apply (strlen_spec str_mem 8192 [97; 44; 98; 59; 59; 104; 101; 108; 108; 111] (2 ^ 64 - 1)).
  - apply str_mem_ok.
  - apply str_mem_text.
  - vm_compute. done.
Defined.

(** Strstr returns the first occurrence of the needle: the bytes there
    are those of the needle and no earlier position matches; the result is
    null exactly when the needle occurs nowhere. *)
Theorem strstr_spec m hp np h n :
  mem_ok m → cstr m hp h → cstr m np n →
  ∃ r, strstr m hp np = Ok r ∧
    (r = 0 ∧ (∀ j, (j <= length h)%nat → ¬ n `prefix_of` drop j h) ∨
     ∃ i : nat, r = hp + i ∧ (i <= length h)%nat ∧ n `prefix_of` drop i h ∧
       ∀ j, (j < i)%nat → ¬ n `prefix_of` drop j h).
Proof.
  intros Hok Hh Hn. eexists. split; [by apply strstr_ok|].
  destruct (find_sub n h) as [i|] eqn:E.
  - right. exists i. apply find_sub_spec in E as (? & ? & ?). done.
  - left. split; [done|]. intros j Hj. by apply find_sub_None.
Qed.

Lemma strstr_spec_witness :
  ∃ r, strstr str_mem 8192 8203 = Ok r ∧
    (r = 0 ∧ (∀ j, (j <= 10)%nat →
       ¬ [101; 108; 108] `prefix_of` drop j [97; 44; 98; 59; 59; 104; 101; 108; 108; 111]) ∨
     ∃ i : nat, r = 8192 + i ∧ (i <= 10)%nat ∧
       [101; 108; 108] `prefix_of` drop i [97; 44; 98; 59; 59; 104; 101; 108; 108; 111] ∧
       ∀ j, (j < i)%nat →
         ¬ [101; 108; 108] `prefix_of` drop j [97; 44; 98; 59; 59; 104; 101; 108; 108; 111]).
Proof.
  apply (strstr_spec str_mem 8192 8203 [97; 44; 98; 59; 59; 104; 101; 108; 108; 111] [101; 108; 108]).
  - apply str_mem_ok.
  - apply str_mem_text.
  - apply str_mem_ell.
Defined.



(** The checked string functions stay inside the destination object of
    [dl] bytes. __strcpy_chk and __strcat_chk copy when the result with its
    terminator fits, and abort before writing anything when it does not, or
    when the destination of __strcat_chk is not terminated. *)
Theorem fortify_spec m d s l buf :
  mem_ok m → bytes m d buf → cstr m s l → s + length l + 1 <= d ∨ d + length buf <= s →
  (if decide (length l + 1 <= length buf) then
     ∃ m', __strcpy_chk m d s (length buf) = Ok (d, m') ∧ cstr m' d l ∧
       ∀ a, ¬ (d <= a < d + length buf) → m' !! a = m !! a
   else __strcpy_chk m d s (length buf) = Trap Abrt) ∧
  (∀ ld, cstr m d ld → length ld < length buf →
   if decide (length ld + length l + 1 <= length buf) then
     ∃ m', __strcat_chk m d s (length buf) = Ok (d, m') ∧ cstr m' d (ld ++ l) ∧
       ∀ a, ¬ (d <= a < d + length buf) → m' !! a = m !! a
   else __strcat_chk m d s (length buf) = Trap Abrt) ∧
  (Forall (λ b, 0 < b < 256) buf → __strcat_chk m d s (length buf) = Trap Abrt).
Proof.
  intros Hok Hb Hs Hdis. pose proof (bytes_mapped _ _ _ Hb) as Hm. split_and!.
  - destruct (strcpy_chk_ok m d s l (length buf)) as [Hfit Hbig]; [done..|].
    case_decide; [|apply Hbig; lia]. eexists. split; [apply Hfit; [done| |unfold no_clobber; lia]|].
    + eapply mapped_mono; [done | lia | lia].
    + split; [apply cstr_write, Hs|]. intros a Ha. apply write_out. rewrite length_app. simpl. lia.
  - intros ld Hd Hlt. destruct Hs as [Hsb Hsl] eqn:E. clear E.
    assert (length buf + (length l + 1) < 2 ^ 64) as Hsum.
    { apply (disjoint_sum m d _ s _ Hok); [done | | lia | lia | lia].
      rewrite length_nul. by apply bytes_mapped. }
    destruct (strcat_chk_ok m d s ld l (length buf)) as [Hfit Hbig]; [done.. | lia |].
    case_decide; [|apply Hbig; lia]. eexists. split; [apply Hfit; [done| |unfold no_clobber; lia]|].
    + eapply mapped_mono; [done | lia | lia].
    + split; [by apply cstr_write_app|]. intros a Ha. apply write_out. rewrite length_app. simpl. lia.
  - intros Hbuf. by apply (strcat_chk_full m d s buf l).
Qed.

Lemma fortify_spec_witness :
  (∃ m', __strcpy_chk str_mem 8207 8203 8%nat = Ok (8207, m') ∧ cstr m' 8207 [101; 108; 108] ∧
     ∀ a, ¬ (8207 <= a < 8207 + 8%nat) → m' !! a = str_mem !! a) ∧
  (∀ ld, cstr str_mem 8207 ld → length ld < 8%nat →
   if decide (length ld + 3%nat + 1 <= 8%nat) then
     ∃ m', __strcat_chk str_mem 8207 8203 8%nat = Ok (8207, m') ∧ cstr m' 8207 (ld ++ [101; 108; 108]) ∧
       ∀ a, ¬ (8207 <= a < 8207 + 8%nat) → m' !! a = str_mem !! a
   else __strcat_chk str_mem 8207 8203 8%nat = Trap Abrt) ∧
  (Forall (λ b, 0 < b < 256) [44; 59; 0; 90; 90; 90; 90; 90] →
   __strcat_chk str_mem 8207 8203 8%nat = Trap Abrt).
Proof.
  apply (fortify_spec str_mem 8207 8203 [101; 108; 108] [44; 59; 0; 90; 90; 90; 90; 90]).
  - apply str_mem_ok.
  - apply load_list_bytes. vm_compute. reflexivity.
  - apply str_mem_ell.
  - left. simpl. lia.
Defined.

(** Collecting tokens with strtok_r until it returns null terminates
    and yields, in order, exactly the maximal runs of non-separator bytes,
    each terminated in place; the memory outside the string is untouched. *)
Theorem strtok_spec m s sep l seps :
  mem_ok m → cstr m s l → cstr m sep seps →
  s + length l + 1 <= sep ∨ sep + length seps + 1 <= s →
  ∃ ps m', strtok_iter (length l + 2) m s sep 0 = Ok (ps, m') ∧
    Forall2 (cstr m') ps (tokens seps l) ∧
    (∀ a, ¬ (s <= a < s + length l) → m' !! a = m !! a).
Proof.
  intros. replace (length l + 2)%nat with (S (length l + 1)) by lia.
  apply strtok_iter_ok; auto with lia.
Qed.

Lemma strtok_spec_witness :
  ∃ ps m', strtok_iter 12 str_mem 8192 8207 0 = Ok (ps, m') ∧
    Forall2 (cstr m') ps [[97]; [98]; [104; 101; 108; 108; 111]] ∧
    (∀ a, ¬ (8192 <= a < 8192 + 10%nat) → m' !! a = str_mem !! a).
Proof.
  apply (strtok_spec str_mem 8192 8207 [97; 44; 98; 59; 59; 104; 101; 108; 108; 111] [44; 59]).
  - apply str_mem_ok.
  - apply str_mem_text.
  - apply str_mem_seps.
  - left. simpl. lia.
Defined.

(** strdup (and strndup) return the null pointer with the memory
    untouched, or a new block that holds the string (its first [n] bytes)
    and overlaps nothing that was mapped, whatever allocator fulfils the
    contract of malloc. *)
Theorem strdup_spec malloc `{!Malloc malloc} m s l (n : nat) :
  mem_ok m → cstr m s l →
  (∃ d m', strdup malloc m s = Ok (d, m') ∧
    (d = 0 ∧ m' = m ∨
     0 < d ∧ cstr m' d l ∧ (∀ a v, m !! a = Some v → m' !! a = Some v) ∧
     ∀ a, d <= a <= d + length l → m !! a = None)) ∧
  (∃ d m', strndup malloc m s n = Ok (d, m') ∧
    (d = 0 ∧ m' = m ∨
     0 < d ∧ cstr m' d (take n l) ∧ (∀ a v, m !! a = Some v → m' !! a = Some v) ∧
     ∀ a, d <= a <= d + length (take n l) → m !! a = None)).
Proof. intros. split; [by apply strdup_ok | by apply strndup_ok]. Qed.

(** An allocator that fulfils the contract: it always fails. *)
Definition malloc_none (m : mem) (n : Z) : Z * mem := (0, m).
#[export] Instance malloc_none_law : Malloc malloc_none.
Proof. intros m n Hn. by left. Qed.

(** One that hands out a fixed range once, zero-filled. *)
Definition malloc_once (m : mem) (n : Z) : Z * mem :=
  if (n <=? 4096) && bool_decide (map_Forall (λ a _, a < 16384) m)
  then (16384, write m 16384 (replicate 4096 0)) else (0, m).
#[export] Instance malloc_once_law : Malloc malloc_once.
Proof.
  intros m n Hn. unfold malloc_once. destruct ((n <=? 4096) && _) eqn:E; [|by left]. right.
  apply andb_true_iff in E as [En Em]. zbool. apply bool_decide_eq_true in Em.
  assert (∀ a v, m !! a = Some v → a < 16384) as Hlow by (intros a v Hv; by apply (Em a v)).
  assert (∀ a, 16384 <= a < 20480 → write m 16384 (replicate 4096 0) !! a = Some 0) as Hin.
  { intros a Ha. rewrite lookup_write, length_replicate, decide_True by lia.
    apply lookup_replicate_2. lia. }
  assert (∀ a, ¬ (16384 <= a < 20480) → write m 16384 (replicate 4096 0) !! a = m !! a) as Hout.
  { intros a Ha. apply write_out. rewrite length_replicate. lia. }
  split; [lia|]. split.
  - intros Hok. split.
    + intros a v Hv. destruct (decide (16384 <= a < 20480)); [lia|].
      rewrite Hout in Hv by done. by eapply mem_addr.
    + intros a v Hv. destruct (decide (16384 <= a < 20480)) as [Ha|Ha].
      * rewrite (Hin a Ha) in Hv. simplify_eq. done.
      * rewrite Hout in Hv by done. by eapply mem_byte.
    + intros a [v Hv] b Hb. destruct (decide (16384 <= b < 20480)) as [Hb'|Hb']; [rewrite Hin by done; eauto|].
      rewrite Hout by done. destruct (decide (16384 <= a < 20480)); [zdiv|].
      rewrite Hout in Hv by done. by apply (mem_word _ Hok a); eauto.
  - intros a Ha. rewrite Hin by lia. eauto.
  - intros a Ha. destruct (m !! a) eqn:E; [|done]. apply Hlow in E. lia.
  - intros a v Hv. pose proof (Hlow _ _ Hv). by rewrite Hout by lia.
Qed.

Lemma strdup_spec_witness :
  (∃ d m', strdup malloc_once str_mem 8203 = Ok (d, m') ∧
    (d = 0 ∧ m' = str_mem ∨
     0 < d ∧ cstr m' d [101; 108; 108] ∧ (∀ a v, str_mem !! a = Some v → m' !! a = Some v) ∧
     ∀ a, d <= a <= d + 3%nat → str_mem !! a = None)) ∧
  (∃ d m', strndup malloc_once str_mem 8203 2%nat = Ok (d, m') ∧
    (d = 0 ∧ m' = str_mem ∨
     0 < d ∧ cstr m' d [101; 108] ∧ (∀ a v, str_mem !! a = Some v → m' !! a = Some v) ∧
     ∀ a, d <= a <= d + 2%nat → str_mem !! a = None)).
Proof.
  apply (strdup_spec malloc_once str_mem 8203 [101; 108; 108] 2).
  - apply str_mem_ok.
  - apply str_mem_ell.
Defined.
