(* ===== verification/Strtol.v ===== *)
(** * Integer parsing (src/src/strtol.c)

    The strtol family, ato* and strtonum over the memory of CMem.v, and the
    integer division functions. A function that may set errno takes it and
    returns it; the value of [*end] is part of the result (a caller that
    passes a null [end] ignores it). [unsigned long long] and [size_t] are
    numbers below 2^64, [long] and [long long] 64-bit signed ones. *)
From S2P Require Import Prelude CMem Ctype MemFns StrFns.

Definition EINVAL : Z := 22.
Definition ERANGE : Z := 34.

Definition INT_MAX : Z := 2 ^ 31 - 1.
Definition INT_MIN : Z := - 2 ^ 31.
Definition LONG_MAX : Z := 2 ^ 63 - 1.
Definition LONG_MIN : Z := - 2 ^ 63.
Definition ULONG_MAX : Z := 2 ^ 64 - 1.

(** ** Operations *)

Definition digit_val (c : Z) : Z :=
  if u32 (u32 c - 48) <? 10 then c - 48 else
  let c := Z.lor c 32 in
  if u32 (u32 c - 97) <? 26 then c - 97 + 10 else 99.

(** __builtin_mul_overflow and __builtin_add_overflow at 64 bits: the
    wrapped result and whether it differs from the exact one. *)
Definition mul_overflow (a b : Z) : Z * bool := (u64 (a * b), 2 ^ 64 <=? a * b).
Definition add_overflow (a b : Z) : Z * bool := (u64 (a + b), 2 ^ 64 <=? a + b).

(** One turn of the digit loop: the accumulator and the overflow flag. *)
Definition acc_digit (base d : Z) (acc : Z) (ovf : bool) : Z * bool :=
  let '(a, o) := mul_overflow acc base in
  if (o : bool) then (a, true) else
  let '(a, o) := add_overflow a d in
  if (o : bool) then (a, true) else (a, ovf).

(** Result, [*end], errno. *)
Definition strtox (m : mem) (s0 base : Z) (is_signed : bool) (mx errno : Z) : res (Z * Z * Z) :=
  if (base <? 0) || (base =? 1) || (36 <? base) then Ok (0, s0, EINVAL) else
  s ← loop (fuel m) (λ s,
    b ← loadb m s;
    if isspace b then Ok (Cont (s + 1)) else Ok (Brk s)) s0;
  b ← loadb m s;
  let '(s, neg) := if (b =? 43) || (b =? 45) then (s + 1, b =? 45) else (s, false) in
  hex ← (if (base =? 0) || (base =? 16) then
           b0 ← loadb m s;
           if b0 =? 48 then
             b1 ← loadb m (s + 1);
             if Z.lor b1 32 =? 120 then
               b2 ← loadb m (s + 2); Ok (digit_val b2 <? 16)
             else Ok false
           else Ok false
         else Ok false);
  '(s, base) ← (if (hex : bool) then Ok (s + 2, 16) else
                if base =? 0 then
                  b ← loadb m s; Ok (s, if b =? 48 then 8 else 10)
                else Ok (s, base));
  let start := s in
  '(s, acc, ovf) ← loop (fuel m) (λ '(s, acc, ovf),
    b ← loadb m s;
    let d := digit_val b in
    if d <? base then
      let '(acc, ovf) := acc_digit base d acc ovf in
      Ok (Cont (s + 1, acc, ovf))
    else Ok (Brk (s, acc, ovf))) (s, 0, false);
  let en := if s =? start then s0 else s in
  if s =? start then Ok (0, en, errno) else
  if is_signed then
    let lim := if (neg : bool) then u64 (mx + 1) else mx in
    if (ovf : bool) || (lim <? acc) then
      Ok (if (neg : bool) then u64 (- mx - 1) else mx, en, ERANGE)
    else Ok (if (neg : bool) then u64 (- acc) else acc, en, errno)
  else if (ovf : bool) || (mx <? acc) then Ok (mx, en, ERANGE)
  else Ok (if (neg : bool) then u64 (- acc) else acc, en, errno).

Definition strtol (m : mem) (s base errno : Z) : res (Z * Z * Z) :=
  '(v, e, errno) ← strtox m s base true LONG_MAX errno; Ok (s64 v, e, errno).
Definition strtoul (m : mem) (s base errno : Z) : res (Z * Z * Z) :=
  strtox m s base false ULONG_MAX errno.
Definition strtoll (m : mem) (s base errno : Z) : res (Z * Z * Z) :=
  '(v, e, errno) ← strtox m s base true LONG_MAX errno; Ok (s64 v, e, errno).
Definition strtoull (m : mem) (s base errno : Z) : res (Z * Z * Z) :=
  strtox m s base false ULONG_MAX errno.
Definition strtoimax (m : mem) (s base errno : Z) : res (Z * Z * Z) :=
  '(v, e, errno) ← strtox m s base true LONG_MAX errno; Ok (s64 v, e, errno).
Definition strtoumax (m : mem) (s base errno : Z) : res (Z * Z * Z) :=
  strtox m s base false ULONG_MAX errno.

(** Value and errno. *)
Definition atoi (m : mem) (s errno : Z) : res (Z * Z) :=
  '(v, _, errno) ← strtol m s 10 errno;
  Ok (if INT_MAX <? v then INT_MAX else if v <? INT_MIN then INT_MIN else v, errno).
Definition atol (m : mem) (s errno : Z) : res (Z * Z) :=
  '(v, _, errno) ← strtol m s 10 errno; Ok (v, errno).
Definition atoll (m : mem) (s errno : Z) : res (Z * Z) :=
  '(v, _, errno) ← strtoll m s 10 errno; Ok (v, errno).

(** The strings strtonum reports. *)
Inductive numerr := NoError | Invalid | TooSmall | TooLarge.

(** Value, [*errstr], errno. *)
Definition strtonum (m : mem) (s minval maxval errno : Z) : res (Z * numerr * Z) :=
  let e := errno in
  '(err, v, errno) ← (
    if maxval <? minval then Ok (Invalid, 0, EINVAL) else
    '(v, en, errno) ← strtoll m s 10 0;
    bad ← (if en =? s then Ok true else b ← loadb m en; Ok (negb (b =? 0)));
    if (bad : bool) then Ok (Invalid, v, EINVAL) else
    if ((v =? LONG_MIN) && (errno =? ERANGE)) || (v <? minval) then Ok (TooSmall, v, ERANGE) else
    if ((v =? LONG_MAX) && (errno =? ERANGE)) || (maxval <? v) then Ok (TooLarge, v, ERANGE) else
    Ok (NoError, v, e));
  Ok (match err with NoError => v | _ => 0 end, err, errno).

(** Negation and division that overflow, and division by zero, are
    undefined. *)
Definition abs_at (mn a : Z) : res Z :=
  if a <? 0 then (if a =? mn then Trap Ub else Ok (- a)) else Ok a.
Definition abs (a : Z) : res Z := abs_at INT_MIN a.
Definition labs (a : Z) : res Z := abs_at LONG_MIN a.
Definition llabs (a : Z) : res Z := abs_at LONG_MIN a.
Definition imaxabs (a : Z) : res Z := abs_at LONG_MIN a.

Definition div_at (mn n d : Z) : res (Z * Z) :=
  if (d =? 0) || ((n =? mn) && (d =? -1)) then Trap Ub else Ok (Z.quot n d, Z.rem n d).
Definition div (n d : Z) : res (Z * Z) := div_at INT_MIN n d.
Definition ldiv (n d : Z) : res (Z * Z) := div_at LONG_MIN n d.
Definition lldiv (n d : Z) : res (Z * Z) := div_at LONG_MIN n d.
Definition imaxdiv (n d : Z) : res (Z * Z) := div_at LONG_MIN n d.

(** ** The syntax of a number, without machine arithmetic

    The reference the functions are compared with: a number of any size,
    read off the list of bytes. *)

(** Digits of [base] at the start of [l]: how many, and their value. *)
Definition ndigits (base : Z) (l : list Z) : nat := span_len (λ c, digit_val c <? base) l.
Definition digits_value (base : Z) (l : list Z) : Z :=
  foldl (λ a c, a * base + digit_val c) 0 l.

(** The effective base and the length of a base prefix. *)
Definition base_prefix (base : Z) (l : list Z) : Z * nat :=
  if ((base =? 0) || (base =? 16)) && (sget l 0 =? 48) && (Z.lor (sget l 1) 32 =? 120)
     && (digit_val (sget l 2) <? 16)
  then (16, 2%nat)
  else if base =? 0 then (if sget l 0 =? 48 then 8 else 10, 0%nat) else (base, 0%nat).

(** Sign, magnitude and number of bytes read, if there is a number. *)
Definition read_number (base : Z) (l : list Z) : option (bool * Z * nat) :=
  let ws := span_len isspace l in
  let c := sget l ws in
  let sg := if (c =? 43) || (c =? 45) then 1%nat else 0%nat in
  let '(b, pre) := base_prefix base (drop (ws + sg) l) in
  let body := drop (ws + sg + pre) l in
  let n := ndigits b body in
  if decide (n = 0%nat) then None
  else Some (c =? 45, digits_value b (take n body), (ws + sg + pre + n)%nat).

(** ** Lemmas *)

Lemma digits_value_snoc base l c :
  digits_value base (l ++ [c]) = digits_value base l * base + digit_val c.
Proof. unfold digits_value. by rewrite foldl_app. Qed.

Lemma digit_val_nonneg c : is_byte c → 0 <= digit_val c.
Proof.
  intros H. assert ((0 <=? digit_val c) = true) as Hd; [|by apply Z.leb_le].
  revert c H. apply byte_forall. vm_compute. done.
Qed.

Lemma digits_value_nonneg base l : 0 <= base → Forall is_byte l → 0 <= digits_value base l.
Proof.
  intros Hb Hl. induction l as [|c l IH] using rev_ind; [done|].
  apply Forall_app in Hl as [Hl [Hc _]%Forall_cons]. rewrite digits_value_snoc.
  pose proof (digit_val_nonneg c Hc). specialize (IH Hl). nia.
Qed.

(** The accumulator follows the exact value until it leaves 64 bits, and the
    flag stays set from then on. *)
Definition acc_inv (v acc : Z) (ovf : bool) : Prop :=
  if ovf then 2 ^ 64 <= v else acc = v ∧ 0 <= v < 2 ^ 64.

Lemma acc_digit_inv base d v acc ovf :
  2 <= base → 0 <= d → acc_inv v acc ovf →
  let '(acc', ovf') := acc_digit base d acc ovf in acc_inv (v * base + d) acc' ovf'.
Proof.
  intros Hb Hd. unfold acc_digit, mul_overflow, add_overflow, acc_inv.
  destruct ovf.
  - intros Hv. repeat case_match; simplify_eq; nia.
  - intros [-> Hv]. destruct (Z.leb_spec (2 ^ 64) (v * base)); [lia|].
    rewrite (uwrap_small 64 (v * base)) by nia. destruct (Z.leb_spec (2 ^ 64) (v * base + d)); [lia|].
    rewrite uwrap_small by nia. split; [done | nia].
Qed.

Lemma sget_drop l i j : sget (drop i l) j = sget l (i + j).
Proof. unfold sget. by rewrite lookup_drop. Qed.

Lemma isspace_0 : isspace 0 = false. Proof. reflexivity. Qed.
Lemma digit_val_0 : digit_val 0 = 99. Proof. reflexivity. Qed.

Section Parse.
Context (m : mem) (s : Z) (l : list Z).
Context (Hok : mem_ok m) (Hs : cstr m s l).

Lemma sget_pos i : sget l i ≠ 0 → (i < length l)%nat.
Proof.
  unfold sget. destruct (l !! i) eqn:E; [|done]. intros _. by eapply lookup_lt_Some.
Qed.

Lemma skip_space :
  loop (fuel m) (λ s, b ← loadb m s; if isspace b then Ok (Cont (s + 1)) else Ok (Brk s)) s =
  Ok (s + span_len isspace l).
Proof.
  apply (span_loop m s l); [done|]. intros i Hi.
  rewrite (loadb_ok _ _ _ (cstr_get _ _ _ _ Hi Hs)). simpl.
  destruct (Z.eqb_spec (sget l i) 0) as [E|]; [by rewrite E | by destruct (isspace _)].
Qed.

(** The digit loop, from offset [i]. *)
Lemma digit_loop i base :
  (i <= length l)%nat → 2 <= base <= 36 →
  let n := ndigits base (drop i l) in
  ∃ acc ovf,
    loop (fuel m) (λ '(s, acc, ovf),
      b ← loadb m s;
      let d := digit_val b in
      if d <? base then
        let '(acc, ovf) := acc_digit base d acc ovf in Ok (Cont (s + 1, acc, ovf))
      else Ok (Brk (s, acc, ovf))) (s + i, 0, false) = Ok (s + i + n, acc, ovf) ∧
    acc_inv (digits_value base (take n (drop i l))) acc ovf.
Proof.
  intros Hi Hbase n. set (k := drop i l) in *.
  assert (cstr m (s + i) k) as Hk by (by apply cstr_drop).
  assert (wp (loop (fuel m) (λ '(s, acc, ovf),
      b ← loadb m s;
      let d := digit_val b in
      if d <? base then
        let '(acc, ovf) := acc_digit base d acc ovf in Ok (Cont (s + 1, acc, ovf))
      else Ok (Brk (s, acc, ovf))) (s + i, 0, false))
    (λ '(p, acc, ovf), p = s + i + n ∧ acc_inv (digits_value base (take n k)) acc ovf)) as Hwp.
  { apply (wp_loop (λ '(p, acc, ovf), ∃ j : nat, p = s + i + j ∧ (j <= length k)%nat ∧
        Forall (λ c, (digit_val c <? base) = true) (take j k) ∧
        acc_inv (digits_value base (take j k)) acc ovf)
      (λ '(p, _, _), Z.to_nat (s + i + length k - p))).
    - intros [[p acc] ovf] (j & -> & Hj & Hall & Hinv). wp_pure.
      apply (str_load m (s + i) k Hk j); [done|].
      pose proof (sget_byte m (s + i) k Hk j) as Hb.
      cbv zeta. destruct (digit_val (sget k j) <? base) eqn:E.
      + destruct (acc_digit base (digit_val (sget k j)) acc ovf) as [acc' ovf'] eqn:Ea. wp_pure.
        assert (j < length k)%nat as Hlt.
        { destruct (decide (j = length k)) as [Ej|]; [|lia].
          rewrite <- (sget_zero m (s + i) k Hk) in Ej by done. rewrite Ej, digit_val_0 in E. lia. }
        split; [|lia]. exists (S j). rewrite take_S_sget by done. split_and!; [lia | lia | |].
        * apply Forall_app. split; [done | by apply Forall_singleton].
        * rewrite digits_value_snoc.
          pose proof (acc_digit_inv base (digit_val (sget k j)) _ acc ovf ltac:(lia)
            (digit_val_nonneg _ Hb) Hinv) as H. by rewrite Ea in H.
      + wp_pure. assert (n = j) as ->; [|done].
        apply span_len_at; [done | done|]. by right.
    - exists 0%nat. split_and!; [lia | lia | constructor | done].
    - pose proof (str_fuel _ _ _ Hk). lia. }
  destruct Hwp as ([[p acc] ovf] & -> & -> & Hinv). by exists acc, ovf.
Qed.
End Parse.

Definition hex_prefix (base : Z) (l : list Z) : bool :=
  ((base =? 0) || (base =? 16)) && (sget l 0 =? 48) && (Z.lor (sget l 1) 32 =? 120)
  && (digit_val (sget l 2) <? 16).

(** The loads of the prefix test stop at the terminator. *)
Lemma hex_test m p k base :
  cstr m p k →
  (if (base =? 0) || (base =? 16) then
     b0 ← loadb m p;
     if b0 =? 48 then
       b1 ← loadb m (p + 1);
       if Z.lor b1 32 =? 120 then b2 ← loadb m (p + 2); Ok (digit_val b2 <? 16) else Ok false
     else Ok false
   else Ok false) = Ok (hex_prefix base k).
Proof.
  intros Hk. unfold hex_prefix. destruct (_ || _); simpl; [|done].
  pose proof (cstr_get m p k 0 ltac:(lia) Hk) as H0. rewrite Z.add_0_r in H0.
  rewrite (loadb_ok _ _ _ H0). simpl. destruct (Z.eqb_spec (sget k 0) 48) as [E0|]; simpl; [|done].
  assert (0 < length k)%nat by (apply sget_pos; lia).
  rewrite (loadb_ok m (p + 1) (sget k 1)); [simpl|apply (cstr_get m p k 1 ltac:(lia) Hk)].
  destruct (Z.eqb_spec (Z.lor (sget k 1) 32) 120) as [E1|]; simpl; [|done].
  assert (1 < length k)%nat.
  { apply sget_pos. intros E. by rewrite E in E1. }
  rewrite (loadb_ok m (p + 2) (sget k 2)); [done | apply (cstr_get m p k 2 ltac:(lia) Hk)].
Qed.

Lemma base_prefix_hex base k :
  base_prefix base k =
  if hex_prefix base k then (16, 2%nat)
  else if base =? 0 then (if sget k 0 =? 48 then 8 else 10, 0%nat) else (base, 0%nat).
Proof. reflexivity. Qed.

Lemma base_prefix_range base k :
  (base = 0 ∨ 2 <= base <= 36) → 2 <= (base_prefix base k).1 <= 36.
Proof.
  intros. rewrite base_prefix_hex. destruct (hex_prefix base k); [simpl; lia|].
  repeat case_match; zbool; simpl; lia.
Qed.

Lemma base_prefix_len base k :
  Forall is_byte k → ((base_prefix base k).2 <= length k)%nat.
Proof.
  intros Hk. rewrite base_prefix_hex. destruct (hex_prefix base k) eqn:E; simpl; [|by repeat case_match; simpl; lia].
  unfold hex_prefix in E. rewrite !andb_true_iff in E. destruct E as [[_ E1] _]. zbool.
  assert (1 < length k)%nat; [|lia]. apply sget_pos. intros E. by rewrite E in E1.
Qed.

(** What the magnitude becomes in the result type. *)
Definition clamp (is_signed : bool) (mx : Z) (neg : bool) (mag p errno : Z) : Z * Z * Z :=
  let lim := if is_signed && neg then mx + 1 else mx in
  if lim <? mag then (if is_signed && neg then u64 (- mx - 1) else mx, p, ERANGE)
  else (if neg then u64 (- mag) else mag, p, errno).

Lemma clamp_acc is_signed mx neg mag acc ovf p errno :
  acc_inv mag acc ovf → 0 <= mx → mx + 1 < 2 ^ 64 ∨ (is_signed = false ∧ mx < 2 ^ 64) →
  (if (is_signed : bool) then
    let lim := if (neg : bool) then u64 (mx + 1) else mx in
    if (ovf : bool) || (lim <? acc) then Ok (if neg then u64 (- mx - 1) else mx, p, ERANGE)
    else Ok (if neg then u64 (- acc) else acc, p, errno)
  else if ovf || (mx <? acc) then Ok (mx, p, ERANGE)
  else Ok (if neg then u64 (- acc) else acc, p, errno)) = Ok (clamp is_signed mx neg mag p errno).
Proof.
  unfold acc_inv, clamp. intros Ha H0 Hmx. cbv zeta.
  destruct is_signed, neg; simpl.
  - destruct Hmx as [?|[? _]]; [|done]. rewrite uwrap_small by lia.
    destruct ovf; simpl; [destruct (Z.ltb_spec (mx + 1) mag); [done | lia]|].
    destruct Ha as [-> _]. by destruct (_ <? _).
  - destruct Hmx as [?|[? _]]; [|done].
    destruct ovf; simpl; [destruct (Z.ltb_spec mx mag); [done | lia]|].
    destruct Ha as [-> _]. by destruct (_ <? _).
  - destruct ovf; simpl; [destruct (Z.ltb_spec mx mag); [done | lia]|].
    destruct Ha as [-> _]. by destruct (_ <? _).
  - destruct ovf; simpl; [destruct (Z.ltb_spec mx mag); [done | lia]|].
    destruct Ha as [-> _]. by destruct (_ <? _).
Qed.

Lemma strtox_ok m s l base is_signed mx errno :
  mem_ok m → cstr m s l → base = 0 ∨ 2 <= base <= 36 → 0 <= mx →
  mx + 1 < 2 ^ 64 ∨ (is_signed = false ∧ mx < 2 ^ 64) →
  strtox m s base is_signed mx errno = Ok (match read_number base l with
    | None => (0, s, errno)
    | Some (neg, mag, k) => clamp is_signed mx neg mag (s + k) errno end).
Proof.
  intros Hok Hs Hbase H0 Hmx. unfold strtox, read_number.
  replace ((base <? 0) || (base =? 1) || (36 <? base)) with false
    by (zcases; simpl; done || lia).
  rewrite (skip_space m s l Hs). simpl. set (ws := span_len isspace l).
  assert (ws <= length l)%nat as Hws by apply span_len_le.
  rewrite (loadb_ok _ _ _ (cstr_get m s l ws Hws Hs)). simpl.
  set (c := sget l ws). set (sg := if (c =? 43) || (c =? 45) then 1%nat else 0%nat).
  assert (ws + sg <= length l)%nat as Hi1.
  { unfold sg. destruct ((c =? 43) || (c =? 45)) eqn:E; [|lia].
    assert (ws < length l)%nat; [|lia]. apply sget_pos. fold c.
    apply orb_true_iff in E as [?|?]; zbool; lia. }
  assert ((if (c =? 43) || (c =? 45) then (s + ws + 1, c =? 45) else (s + ws, false)) =
          (s + (ws + sg)%nat, c =? 45)) as ->.
  { unfold sg. destruct (Z.eqb_spec c 43), (Z.eqb_spec c 45); simpl; f_equal; lia. }
  pose proof (cstr_drop m s l _ Hi1 Hs) as Hk. set (k := drop (ws + sg) l) in *.
  rewrite (hex_test m _ k base Hk). simpl.
  pose proof (base_prefix_range base k Hbase) as Hbr.
  pose proof (base_prefix_len base k (cstr_is_byte _ _ _ Hk)) as Hpl.
  assert ((if hex_prefix base k then Ok (s + (ws + sg)%nat + 2, 16) else
           if base =? 0 then b ← loadb m (s + (ws + sg)%nat);
             Ok (s + (ws + sg)%nat, if b =? 48 then 8 else 10)
           else Ok (s + (ws + sg)%nat, base)) =
          Ok (s + (ws + sg + (base_prefix base k).2)%nat, (base_prefix base k).1)) as ->.
  { rewrite base_prefix_hex. destruct (hex_prefix base k); [simpl; do 2 f_equal; lia|].
    pose proof (cstr_get _ _ k 0 ltac:(lia) Hk) as Hg. rewrite Z.add_0_r in Hg.
    destruct (base =? 0); simpl; [rewrite (loadb_ok _ _ _ Hg)|]; simpl; do 2 f_equal; lia. }
  destruct (base_prefix base k) as [b pre]. simpl in *.
  assert (length k = length l - (ws + sg))%nat as Hkl by apply length_drop.
  destruct (digit_loop m s l Hs (ws + sg + pre) b) as (acc & ovf & Hloop & Hinv); [lia | lia|].
  cbv zeta in Hloop. rewrite Hloop. simpl. set (n := ndigits b (drop (ws + sg + pre) l)) in *.
  destruct (decide (n = 0%nat)) as [En|En].
  { rewrite En. destruct (Z.eqb_spec (s + (ws + sg + pre)%nat + 0%nat) (s + (ws + sg + pre)%nat)); [done | lia]. }
  destruct (Z.eqb_spec (s + (ws + sg + pre)%nat + n) (s + (ws + sg + pre)%nat)); [lia|].
  replace (s + (ws + sg + pre)%nat + n) with (s + (ws + sg + pre + n)%nat) by lia.
  by apply clamp_acc.
Qed.

Lemma strtox_badbase m s base is_signed mx errno :
  base < 0 ∨ base = 1 ∨ 36 < base → strtox m s base is_signed mx errno = Ok (0, s, EINVAL).
Proof.
  intros. unfold strtox. replace ((base <? 0) || (base =? 1) || (36 <? base)) with true; [done|].
  zcases; simpl; done || lia.
Qed.

(** The value in a signed type: the number, or the nearest bound. *)
Definition signed_value (neg : bool) (mag : Z) : Z := if neg then - mag else mag.
Definition saturate (v : Z) : Z := Z.max LONG_MIN (Z.min LONG_MAX v).

Lemma read_number_nonneg base l neg mag k :
  Forall is_byte l → base = 0 ∨ 2 <= base <= 36 → read_number base l = Some (neg, mag, k) → 0 <= mag.
Proof.
  intros Hl Hb. unfold read_number. set (i := (_ + _)%nat).
  pose proof (base_prefix_range base (drop i l) Hb) as Hr.
  destruct (base_prefix base (drop i l)) as [b pre]. case_decide; [done|]. intros [= _ <- _].
  apply digits_value_nonneg; [simpl in Hr; lia|]. by apply Forall_take, Forall_drop.
Qed.

Lemma strtol_ok m s l base errno :
  mem_ok m → cstr m s l → base = 0 ∨ 2 <= base <= 36 →
  strtol m s base errno = Ok (match read_number base l with
    | None => (0, s, errno)
    | Some (neg, mag, k) =>
        let v := signed_value neg mag in
        (saturate v, s + k, if decide (saturate v = v) then errno else ERANGE) end).
Proof.
  intros Hok Hs Hb. unfold strtol. rewrite (strtox_ok m s l) by (done || unfold LONG_MAX; lia).
  destruct (read_number base l) as [[[neg mag] k]|] eqn:E; [|done]. simpl.
  apply read_number_nonneg in E; [|by eapply cstr_is_byte|done].
  unfold clamp, saturate, signed_value, LONG_MIN, LONG_MAX in *.
  destruct neg; simpl.
  - destruct (Z.ltb_spec (2 ^ 63 - 1 + 1) mag); simpl.
    + rewrite Z.min_r, Z.max_l by lia. rewrite decide_False by lia. reflexivity.
    + rewrite Z.min_r, Z.max_r by lia. rewrite decide_True by done. do 3 f_equal.
      unfold swrap, uwrap. change (2 ^ 64) with (2 * 2 ^ 63). change (2 ^ (64 - 1)) with (2 ^ 63). zdiv.
  - destruct (Z.ltb_spec (2 ^ 63 - 1) mag); simpl.
    + rewrite Z.min_l, Z.max_r by lia. rewrite decide_False by lia. reflexivity.
    + rewrite Z.min_r, Z.max_r by lia. rewrite decide_True, swrap_small by (done || simpl; lia). done.
Qed.

Lemma strtoul_ok m s l base errno :
  mem_ok m → cstr m s l → base = 0 ∨ 2 <= base <= 36 →
  strtoul m s base errno = Ok (match read_number base l with
    | None => (0, s, errno)
    | Some (neg, mag, k) =>
        if decide (mag <= ULONG_MAX) then (u64 (signed_value neg mag), s + k, errno)
        else (ULONG_MAX, s + k, ERANGE) end).
Proof.
  intros Hok Hs Hb. unfold strtoul. rewrite (strtox_ok m s l) by (done || (try right); unfold ULONG_MAX; lia).
  destruct (read_number base l) as [[[neg mag] k]|] eqn:E; [|done]. f_equal.
  apply read_number_nonneg in E; [|by eapply cstr_is_byte|done].
  unfold clamp, ULONG_MAX, signed_value in *. simpl.
  destruct (Z.ltb_spec (2 ^ 64 - 1) mag); [rewrite decide_False by lia; done|].
  rewrite decide_True by lia. destruct neg; [done|]. by rewrite uwrap_small by lia.
Qed.

(** The bytes read lie inside the string, and there is at least one. *)
Lemma read_number_len base l neg mag k :
  Forall is_byte l → read_number base l = Some (neg, mag, k) → (0 < k <= length l)%nat.
Proof.
  intros Hl. unfold read_number. set (ws := span_len isspace l).
  set (c := sget l ws). set (sg := if (c =? 43) || (c =? 45) then 1%nat else 0%nat).
  destruct (base_prefix base (drop (ws + sg) l)) as [b pre] eqn:Ep. case_decide as Hn; [done|].
  intros [= _ _ <-]. fold sg. unfold ndigits in *.
  pose proof (span_len_le (λ c, digit_val c <? b) (drop (ws + sg + pre) l)) as H.
  rewrite length_drop in H. lia.
Qed.

(** atoi clamps what strtol returns into [int]. *)
Definition saturate_int (v : Z) : Z := Z.max INT_MIN (Z.min INT_MAX v).

Lemma atoi_ok m s l errno :
  mem_ok m → cstr m s l →
  ∃ e, atoi m s errno = Ok (match read_number 10 l with
    | None => 0
    | Some (neg, mag, _) => saturate_int (signed_value neg mag) end, e).
Proof.
  intros Hok Hs. unfold atoi. rewrite (strtol_ok m s l) by (done || lia).
  destruct (read_number 10 l) as [[[neg mag] k]|]; simpl; eexists; f_equal; f_equal.
  unfold saturate, saturate_int, LONG_MIN, LONG_MAX, INT_MIN, INT_MAX.
  zcases; lia.
Qed.

Lemma strtonum_ok m s l minval maxval errno :
  mem_ok m → cstr m s l → LONG_MIN <= minval <= maxval → maxval <= LONG_MAX →
  strtonum m s minval maxval errno = Ok (match read_number 10 l with
    | None => (0, Invalid, EINVAL)
    | Some (neg, mag, k) =>
        let v := signed_value neg mag in
        if decide (k ≠ length l) then (0, Invalid, EINVAL)
        else if decide (v < minval) then (0, TooSmall, ERANGE)
        else if decide (maxval < v) then (0, TooLarge, ERANGE)
        else (v, NoError, errno) end).
Proof.
  intros Hok Hs Hmin Hmax. unfold strtonum.
  destruct (Z.ltb_spec maxval minval); [lia|]. change (strtoll m s 10 0) with (strtol m s 10 0).
  rewrite (strtol_ok m s l) by (done || lia).
  destruct (read_number 10 l) as [[[neg mag] k]|] eqn:E; simpl;
    [|destruct (Z.eqb_spec s s); done].
  apply read_number_len in E as [Hk1 Hk2]; [|by eapply cstr_is_byte].
  destruct (Z.eqb_spec (s + k) s); [lia|].
  rewrite (loadb_ok _ _ _ (cstr_get m s l k Hk2 Hs)). simpl.
  set (v := signed_value neg mag).
  destruct (Z.eqb_spec (sget l k) 0) as [Ez|Ez]; simpl.
  - rewrite (decide_False (P := k ≠ length l)) by (intros Hn; apply Hn; by apply (sget_zero m s l Hs) in Ez).
    unfold saturate, LONG_MIN, LONG_MAX in *.
    assert (ERANGE ≠ 0) by done.
    repeat case_decide; zcases; simpl; try done; try lia; do 3 f_equal; lia.
  - rewrite decide_True; [done|]. intros Ek. apply Ez. by apply (sget_zero m s l Hs).
Qed.

(** ** Properties *)

(** C10: strtol reads exactly the number at the start of the string. For a
    base of 0 or 2 to 36 it never reads past the terminator, returns the
    number if it fits in [long] with errno unchanged, the nearest bound of
    [long] with ERANGE if it does not, and leaves [*end] after the last
    digit, or at the start with value 0 if there is no number. For any
    other base it returns 0 with EINVAL and does not read the string. *)
Theorem strtol_spec m s l base errno :
  mem_ok m → cstr m s l →
  strtol m s base errno =
    Ok (if decide (base = 0 ∨ 2 <= base <= 36) then
          match read_number base l with
          | None => (0, s, errno)
          | Some (neg, mag, k) =>
              let v := signed_value neg mag in
              (saturate v, s + k, if decide (saturate v = v) then errno else ERANGE)
          end
        else (0, s, EINVAL)).
Proof.
  intros Hok Hs. case_decide as Hb; [by apply strtol_ok|].
  unfold strtol. rewrite strtox_badbase by lia. reflexivity.
Qed.

(** strtoul returns the number modulo 2^64 (a leading minus negates it
    there) when its magnitude fits in 64 bits, and ULONG_MAX with ERANGE when
    it does not. *)
Theorem strtoul_spec m s l base errno :
  mem_ok m → cstr m s l → base = 0 ∨ 2 <= base <= 36 →
  strtoul m s base errno = Ok (match read_number base l with
    | None => (0, s, errno)
    | Some (neg, mag, k) =>
        if decide (mag <= ULONG_MAX) then (u64 (signed_value neg mag), s + k, errno)
        else (ULONG_MAX, s + k, ERANGE) end) ∧
  ∃ e, atoi m s errno = Ok (match read_number 10 l with
    | None => 0
    | Some (neg, mag, _) => saturate_int (signed_value neg mag) end, e).
Proof. intros. split; [by apply strtoul_ok | by apply atoi_ok]. Qed.

(** C12: strtonum accepts exactly the strings that are one decimal number in
    full and within [minval, maxval], returns that number and leaves errno;
    it reports a number below or above the range, anything else as invalid,
    each with value 0 and its errno; an empty range is always invalid. *)
Theorem strtonum_spec m s l minval maxval errno :
  mem_ok m → cstr m s l → LONG_MIN <= minval → maxval <= LONG_MAX →
  strtonum m s minval maxval errno =
    Ok (if decide (maxval < minval) then (0, Invalid, EINVAL) else
        match read_number 10 l with
        | None => (0, Invalid, EINVAL)
        | Some (neg, mag, k) =>
            let v := signed_value neg mag in
            if decide (k ≠ length l) then (0, Invalid, EINVAL)
            else if decide (v < minval) then (0, TooSmall, ERANGE)
            else if decide (maxval < v) then (0, TooLarge, ERANGE)
            else (v, NoError, errno)
        end).
Proof.
  intros. case_decide; [|apply strtonum_ok; done || lia].
  unfold strtonum. destruct (Z.ltb_spec maxval minval); [done | lia].
Qed.

(** "-42" at 4096, "0x1fz" at 4104, "99999999999999999999" at 4112. *)
Definition num_block : list Z :=
  [45; 52; 50; 0; 0; 0; 0; 0; 48; 120; 49; 102; 122; 0; 0; 0] ++ replicate 20 57 ++ replicate 4 0.
Definition num_mem : mem := write ∅ 4096 num_block.

Lemma num_mem_ok : mem_ok num_mem.
Proof. apply mem_ok_block; vm_compute; done. Qed.

Lemma num_mem_neg : cstr num_mem 4096 [45; 52; 50].
Proof. apply cstr_eval; vm_compute; done. Qed.

Lemma num_mem_hex : cstr num_mem 4104 [48; 120; 49; 102; 122].
Proof. apply cstr_eval; vm_compute; done. Qed.

Lemma num_mem_big : cstr num_mem 4112 (replicate 20 57).
Proof. apply cstr_eval; vm_compute; done. Qed.

Lemma strtol_spec_witness :
  strtol num_mem 4104 0 7 = Ok (31, 4108, 7) ∧
  strtol num_mem 4112 10 7 = Ok (2 ^ 63 - 1, 4132, ERANGE) ∧
  strtol num_mem 4096 37 7 = Ok (0, 4096, EINVAL).
Proof.
  split_and!.
  - rewrite (strtol_spec num_mem 4104 _ 0 7 num_mem_ok num_mem_hex). vm_compute. done.
  - rewrite (strtol_spec num_mem 4112 _ 10 7 num_mem_ok num_mem_big). vm_compute. done.
  - rewrite (strtol_spec num_mem 4096 _ 37 7 num_mem_ok num_mem_neg). vm_compute. done.
Defined.

Lemma strtoul_spec_witness :
  strtoul num_mem 4096 10 7 = Ok (2 ^ 64 - 42, 4099, 7) ∧
  ∃ e, atoi num_mem 4096 7 = Ok (-42, e).
Proof.
  destruct (strtoul_spec num_mem 4096 _ 10 7 num_mem_ok num_mem_neg) as [H1 H2]; [lia|].
  split; [rewrite H1; vm_compute; done | exact H2].
Defined.

Lemma strtonum_spec_witness :
  strtonum num_mem 4096 (-100) 100 7 = Ok (-42, NoError, 7) ∧
  strtonum num_mem 4096 0 100 7 = Ok (0, TooSmall, ERANGE) ∧
  strtonum num_mem 4104 0 100 7 = Ok (0, Invalid, EINVAL) ∧
  strtonum num_mem 4112 0 LONG_MAX 7 = Ok (0, TooLarge, ERANGE).
Proof.
  split_and!.
  - rewrite (strtonum_spec num_mem 4096 _ (-100) 100 7 num_mem_ok num_mem_neg) by (vm_compute; done).
    vm_compute. done.
  - rewrite (strtonum_spec num_mem 4096 _ 0 100 7 num_mem_ok num_mem_neg) by (vm_compute; done).
    vm_compute. done.
  - rewrite (strtonum_spec num_mem 4104 _ 0 100 7 num_mem_ok num_mem_hex) by (vm_compute; done).
    vm_compute. done.
  - rewrite (strtonum_spec num_mem 4112 _ 0 LONG_MAX 7 num_mem_ok num_mem_big) by (vm_compute; done).
    vm_compute. done.
Defined.
