(* ===== verification/Multibyte.v ===== *)
(** * Multibyte conversion (src/src/multibyte.c)

    UTF-8 decoding and encoding over the memory of CMem.v. An [mbstate_t] is
    passed in and returned; the static object a function falls back on when
    it is given a null pointer is one such state, chosen by the caller of the
    model. What a function stores through a [wchar_t *] argument that libc
    itself points at a local variable is part of the result; wide strings in
    memory are little-endian 4-byte words. *)
From S2P Require Import Prelude CMem Ctype MemFns StrFns Strtol.

Definition EILSEQ : Z := 84.
Definition ILSEQ : Z := 2 ^ 64 - 1.
Definition INCOMPLETE : Z := 2 ^ 64 - 2.
Definition WEOF : Z := 2 ^ 32 - 1.
Definition EOF : Z := -1.

(** [*(wchar_t * )p], unsigned. *)
Definition load32 (m : mem) (p : Z) : res Z := l ← load_list m p 4; Ok (le_word l).
Definition store32 (m : mem) (p w : Z) : res mem := store_list m p (le_split 4 w).

Record mbstate := MbState { __st : Z; __n : Z }.
Definition st0 : mbstate := MbState 0 0.

#[export] Instance mbstate_eq_dec : EqDecision mbstate.
Proof. solve_decision. Defined.

(** ** Operations *)

Definition second_ok (lead b : Z) : bool :=
  if lead =? 0xe0 then (0xa0 <=? b) && (b <=? 0xbf) else
  if lead =? 0xed then (0x80 <=? b) && (b <=? 0x9f) else
  if lead =? 0xf0 then (0x90 <=? b) && (b <=? 0xbf) else
  if lead =? 0xf4 then (0x80 <=? b) && (b <=? 0x8f) else
  (0x80 <=? b) && (b <=? 0xbf).

(** Return value, what is stored in [*wc] if [wc] is not null, the state and
    errno. *)
Definition mbres : Type := Z * option Z * mbstate * Z.

Definition ilseq : mbres := (ILSEQ, None, st0, EILSEQ).

(** The [while (need)] loop, with [i] bytes of [src] used. *)
Definition mb_tail (m : mem) (s n errno : Z) (c need lead i : Z) : res mbres :=
  loop 8 (λ '(c, need, lead, i),
    if need =? 0 then Ok (Brk (i, Some (s32 c), st0, errno)) else
    if i =? n then
      Ok (Brk (INCOMPLETE, None, MbState c (Z.lor need (u32 (Z.shiftl lead 8))), errno)) else
    b ← loadb m (s + i);
    if (if lead =? 0 then negb (Z.land b 0xc0 =? 0x80) else negb (second_ok lead b))
    then Ok (Brk ilseq)
    else Ok (Cont (Z.lor (u32 (Z.shiftl c 6)) (Z.land b 0x3f), need - 1, 0, i + 1)))
  (c, need, lead, i).

Definition mbrtowc (m : mem) (src n : Z) (st : mbstate) (errno : Z) : res mbres :=
  if src =? 0 then
    if negb (__n st =? 0) then Ok ilseq else Ok (0, None, st0, errno)
  else if n =? 0 then Ok (INCOMPLETE, None, st, errno) else
  let c := __st st in
  let need := Z.land (__n st) 7 in
  let lead := Z.shiftr (__n st) 8 in
  if need =? 0 then
    b ← loadb m src;
    if b <? 0x80 then Ok (if b =? 0 then 0 else 1, Some b, st, errno) else
    if (0xc2 <=? b) && (b <=? 0xdf) then mb_tail m src n errno (Z.land b 0x1f) 1 b 1 else
    if (0xe0 <=? b) && (b <=? 0xef) then mb_tail m src n errno (Z.land b 0x0f) 2 b 1 else
    if (0xf0 <=? b) && (b <=? 0xf4) then mb_tail m src n errno (Z.land b 0x07) 3 b 1 else
    Ok ilseq
  else mb_tail m src n errno c need lead 0.

Definition mbrlen (m : mem) (s n : Z) (st : mbstate) (errno : Z) : res (Z * mbstate * Z) :=
  '(r, _, st, errno) ← mbrtowc m s n st errno; Ok (r, st, errno).

Definition mbsinit (st : option mbstate) : bool :=
  match st with None => true | Some st => __n st =? 0 end.

(** The bytes wcrtomb stores for a code point, or none: EILSEQ. *)
Definition wc_bytes (wc : Z) : option (list Z) :=
  let c := u32 wc in
  if c <? 0x80 then Some [c] else
  if c <? 0x800 then
    Some [Z.lor 0xc0 (Z.shiftr c 6); Z.lor 0x80 (Z.land c 0x3f)] else
  if c <? 0x10000 then
    if u32 (c - 0xd800) <? 0x800 then None else
    Some [Z.lor 0xe0 (Z.shiftr c 12); Z.lor 0x80 (Z.land (Z.shiftr c 6) 0x3f);
          Z.lor 0x80 (Z.land c 0x3f)] else
  if c <? 0x110000 then
    Some [Z.lor 0xf0 (Z.shiftr c 18); Z.lor 0x80 (Z.land (Z.shiftr c 12) 0x3f);
          Z.lor 0x80 (Z.land (Z.shiftr c 6) 0x3f); Z.lor 0x80 (Z.land c 0x3f)] else
  None.

(** Return value, memory, errno. With a null [s] the bytes go to a local
    buffer. *)
Definition wcrtomb (m : mem) (s wc errno : Z) : res (Z * mem * Z) :=
  let wc := if s =? 0 then 0 else wc in
  match wc_bytes wc with
  | None => Ok (ILSEQ, m, EILSEQ)
  | Some l =>
      if s =? 0 then Ok (Z.of_nat (length l), m, errno)
      else m ← store_list m s l; Ok (Z.of_nat (length l), m, errno)
  end.

Definition mbtowc (m : mem) (s n errno : Z) : res (Z * option Z * Z) :=
  if s =? 0 then Ok (0, None, errno) else
  '(r, wc, _, errno) ← mbrtowc m s n st0 errno;
  if r =? INCOMPLETE then Ok (-1, wc, EILSEQ)
  else Ok (if r =? ILSEQ then -1 else s32 r, wc, errno).

Definition mblen (m : mem) (s n errno : Z) : res (Z * Z) :=
  '(r, _, errno) ← mbtowc m s n errno; Ok (r, errno).

Definition wctomb (m : mem) (s wc errno : Z) : res (Z * mem * Z) :=
  if s =? 0 then Ok (0, m, errno) else
  '(r, m, errno) ← wcrtomb m s wc errno;
  Ok (if r =? ILSEQ then -1 else s32 r, m, errno).

Definition btowc (c : Z) : Z := if (0 <=? c) && (c <? 0x80) then c else WEOF.
Definition wctob (c : Z) : Z := if c <? 0x80 then c else EOF.

(** Return value, memory, [*src], state, errno. *)
Definition mbsrtowcs (m : mem) (ws src n : Z) (st : mbstate) (errno : Z)
    : res (Z * mem * Z * mbstate * Z) :=
  loop (fuel m) (λ '(m, s, cnt, st, errno),
    if negb ((ws =? 0) || (cnt <? n)) then Ok (Brk (cnt, m, s, st, errno)) else
    '(r, wc, st, errno) ← mbrtowc m s 4 st errno;
    if (r =? ILSEQ) || (r =? INCOMPLETE) then
      Ok (Brk (ILSEQ, m, if ws =? 0 then src else s, st,
               if r =? INCOMPLETE then EILSEQ else errno))
    else
    c ← (match wc with Some c => Ok c | None => Trap Ub end);
    m ← (if ws =? 0 then Ok m else store32 m (ws + 4 * cnt) c);
    if c =? 0 then Ok (Brk (cnt, m, if ws =? 0 then src else 0, st, errno))
    else Ok (Cont (m, s + r, cnt + 1, st, errno)))
  (m, src, 0, st, errno).

(** Return value, memory, [*src], errno. *)
Definition wcsrtombs (m : mem) (s src n errno : Z) : res (Z * mem * Z * Z) :=
  loop (fuel m) (λ '(m, w, cnt),
    wc ← load32 m w;
    match wc_bytes wc with
    | None => Ok (Brk (ILSEQ, m, if s =? 0 then src else w, EILSEQ))
    | Some buf =>
        let r := Z.of_nat (length buf) in
        if negb (s =? 0) && (n <? u64 (cnt + r)) then Ok (Brk (cnt, m, w, errno)) else
        if wc =? 0 then
          m ← (if s =? 0 then Ok m else storeb m (s + cnt) 0);
          Ok (Brk (cnt, m, if s =? 0 then src else 0, errno))
        else
          m ← (if s =? 0 then Ok m else store_list m (s + cnt) buf);
          Ok (Cont (m, w + 4, u64 (cnt + r)))
    end)
  (m, src, 0).

Definition mbstowcs (m : mem) (ws s n errno : Z) : res (Z * mem * Z) :=
  '(r, m, _, _, errno) ← mbsrtowcs m ws s n st0 errno; Ok (r, m, errno).

Definition wcstombs (m : mem) (s ws n errno : Z) : res (Z * mem * Z) :=
  '(r, m, _, errno) ← wcsrtombs m s ws n errno; Ok (r, m, errno).

(** ** UTF-8 on lists, without machine arithmetic *)

(** Unicode scalar values: the code points that have an encoding. *)
Definition scalar (c : Z) : Prop := 0 <= c < 0x110000 ∧ ¬ (0xd800 <= c < 0xe000).

#[export] Instance scalar_dec c : Decision (scalar c).
Proof. unfold scalar. apply _. Defined.

(** The encoding form of Table 3-6 of the Unicode Standard. *)
Definition utf8 (c : Z) : list Z :=
  if c <? 0x80 then [c] else
  if c <? 0x800 then [0xc0 + c / 64; 0x80 + c mod 64] else
  if c <? 0x10000 then [0xe0 + c / 4096; 0x80 + c / 64 mod 64; 0x80 + c mod 64] else
  [0xf0 + c / 262144; 0x80 + c / 4096 mod 64; 0x80 + c / 64 mod 64; 0x80 + c mod 64].

(** A decoder between two bytes: at a character boundary, or inside a
    character with the bits so far, the number of bytes missing and the lead
    byte while the second byte is pending. *)
Inductive dstat := Start | Mid (c : Z) (need : nat) (lead : Z).

(** The outcome on a list of bytes: a character and the number of bytes it
    took (0 for the null character), the bytes end inside a character, or they are not UTF-8. *)
Inductive dout := DDone (c : Z) (k : nat) | DMore (d : dstat) | DErr.

Definition cont_ok (lead b : Z) : bool :=
  if lead =? 0 then (0x80 <=? b) && (b <=? 0xbf) else second_ok lead b.

Fixpoint dec_tail (k : nat) (c : Z) (need : nat) (lead : Z) (l : list Z) : dout :=
  match need with
  | O => DDone c k
  | S need' =>
      match l with
      | [] => DMore (Mid c need lead)
      | b :: l =>
          if cont_ok lead b then dec_tail (S k) (c * 64 + (b - 0x80)) need' 0 l else DErr
      end
  end.

Definition lead_class (b : Z) : option (Z * nat) :=
  if (0xc2 <=? b) && (b <=? 0xdf) then Some (b - 0xc0, 1%nat) else
  if (0xe0 <=? b) && (b <=? 0xef) then Some (b - 0xe0, 2%nat) else
  if (0xf0 <=? b) && (b <=? 0xf4) then Some (b - 0xf0, 3%nat) else None.

Definition dec (d : dstat) (l : list Z) : dout :=
  match d with
  | Mid c need lead => dec_tail 0 c need lead l
  | Start =>
      match l with
      | [] => DMore Start
      | b :: l =>
          if b <? 0x80 then DDone b (if b =? 0 then 0 else 1) else
          match lead_class b with
          | Some (c, need) => dec_tail 1 c need b l
          | None => DErr
          end
      end
  end.

(** The [mbstate_t] that stands for a decoder state. *)
Definition enc_state (d : dstat) : mbstate :=
  match d with Start => st0 | Mid c need lead => MbState c (Z.of_nat need + 256 * lead) end.

Definition dvalid (d : dstat) : Prop :=
  match d with
  | Start => True
  | Mid c need lead => (1 <= need <= 3)%nat ∧ 0 <= c < 2 ^ (21 - 6 * need) ∧ is_byte lead
  end.

Definition dret (o : dout) (errno : Z) : mbres :=
  match o with
  | DDone c k => (Z.of_nat k, Some c, st0, errno)
  | DMore d => (INCOMPLETE, None, enc_state d, errno)
  | DErr => ilseq
  end.

(** ** Lemmas *)

Lemma wc_bytes_utf8 c : scalar c → wc_bytes c = Some (utf8 c).
Proof.
  intros [Hc Hs]. unfold wc_bytes, utf8. rewrite (uwrap_small 32 c) by lia.
  change 0x3f with (Z.ones 6). rewrite !Z.land_ones, !Z.shiftr_div_pow2 by lia.
  change (2 ^ 6) with 64. change (2 ^ 12) with 4096. change (2 ^ 18) with 262144.
  destruct (Z.ltb_spec c 128); [done|]. destruct (Z.ltb_spec c 2048).
  { rewrite (lor_const 192 _ 5), (lor_const 128 _ 6) by (done || lia || zdiv). done. }
  destruct (Z.ltb_spec c 65536).
  { assert ((u32 (c - 55296) <? 2048) = false) as ->.
    { apply Z.ltb_ge. unfold uwrap. zdiv. }
    rewrite (lor_const 224 _ 4), !(lor_const 128 _ 6) by (done || lia || zdiv). done. }
  destruct (Z.ltb_spec c 1114112); [|lia].
  rewrite (lor_const 240 _ 3), !(lor_const 128 _ 6) by (done || lia || zdiv). done.
Qed.

Lemma wc_bytes_none wc : 0 <= wc < 2 ^ 32 → ¬ scalar wc → wc_bytes wc = None.
Proof.
  intros Hw Hs. unfold wc_bytes. rewrite (uwrap_small 32) by lia. unfold scalar in Hs.
  destruct (Z.ltb_spec wc 128); [lia|]. destruct (Z.ltb_spec wc 2048); [lia|].
  destruct (Z.ltb_spec wc 65536).
  - destruct (Z.ltb_spec (u32 (wc - 55296)) 2048) as [?|H']; [done|].
    unfold uwrap in H'. rewrite Z.mod_small in H'; lia.
  - destruct (Z.ltb_spec wc 1114112); [lia | done].
Qed.

Lemma utf8_bytes c : scalar c → Forall is_byte (utf8 c).
Proof.
  intros [Hc _]. unfold utf8. zcases; repeat constructor; unfold is_byte; zdiv.
Qed.

Lemma utf8_length c : (1 <= length (utf8 c) <= 4)%nat.
Proof. unfold utf8. zcases; simpl; lia. Qed.

(** The continuation-byte test. *)
Lemma cont_test lead b :
  is_byte b →
  (if lead =? 0 then negb (Z.land b 0xc0 =? 0x80) else negb (second_ok lead b)) =
  negb (cont_ok lead b).
Proof.
  intros Hb. unfold cont_ok. destruct (lead =? 0); [|done]. f_equal.
  apply eqb_prop. revert b Hb. apply byte_forall. vm_compute. done.
Qed.

Lemma cont_ok_range lead b : cont_ok lead b = true → 0x80 <= b <= 0xbf.
Proof.
  unfold cont_ok, second_ok. intros H. repeat case_match; apply andb_true_iff in H as [??]; zbool; lia.
Qed.

Lemma acc_bits c b : 0 <= c < 2 ^ 15 → 0x80 <= b <= 0xbf →
  Z.lor (u32 (Z.shiftl c 6)) (Z.land b 0x3f) = c * 64 + (b - 0x80).
Proof.
  intros Hc Hb. rewrite Z.shiftl_mul_pow2, uwrap_small by lia.
  change 0x3f with (Z.ones 6). rewrite Z.land_ones by lia.
  rewrite lor_add by (done || apply Z.mod_pos_bound; lia).
  change (2 ^ 6) with 64. assert (b mod 64 = b - 128) as -> by zdiv. done.
Qed.

(** More input than the decoder needs does not change what it returns. *)
Definition enough (o : dout) (l : list Z) (n : Z) : Prop :=
  match o with DMore _ => n = length l | _ => length l <= n end.

Lemma s32_small c : 0 <= c < 2 ^ 31 → s32 c = c.
Proof. intros. apply swrap_small; simpl; lia. Qed.

(** The loop of mbrtowc is [dec_tail]. *)
Lemma mb_tail_ok m s l n errno c need lead (i : nat) :
  bytes m (s + i) l → Forall is_byte l → dvalid (Mid c need lead) ∨ (need = 0%nat ∧ 0 <= c < 2 ^ 21) →
  enough (dec_tail i c need lead l) l (n - i) →
  mb_tail m s n errno c need lead i = Ok (dret (dec_tail i c need lead l) errno).
Proof.
  intros Hb Hl Hv He. unfold mb_tail. assert (need < 8)%nat as Hf by (simpl in Hv; lia).
  revert Hf. generalize 8%nat as f. intros f. revert f c need lead i Hb Hl Hv He.
  induction l as [|b l IH]; intros [|f] c need lead i Hb Hl Hv He Hf; [lia | | lia |].
  - rewrite loop_S. destruct need as [|need]; simpl in *.
    + rewrite s32_small; [done|]. destruct Hv as [[? _]|[_ ?]]; lia.
    + destruct (Z.eqb_spec (Z.pos (Pos.of_succ_nat need)) 0); [lia|].
      destruct (Z.eqb_spec i n); [|lia]. destruct Hv as [Hv|Hv]; [|lia]. destruct Hv as (?&?&Hle).
      unfold is_byte in Hle. rewrite Z.shiftl_mul_pow2, uwrap_small by lia.
      rewrite Z.lor_comm, lor_add by (change (2 ^ 8) with 256; lia).
      unfold dret. do 3 f_equal. simpl. f_equal. lia.
  - rewrite loop_S. destruct need as [|need]; cbn [dec_tail] in *.
    + simpl. rewrite s32_small; [done|]. destruct Hv as [[? _]|[_ ?]]; lia.
    + destruct Hv as [(Hn&Hc&Hle)|Hv]; [|lia].
      destruct (Z.eqb_spec (S need) 0); [lia|].
      assert (Z.of_nat i ≠ n). { unfold enough in He. simpl in He. destruct (cont_ok lead b); [destruct (dec_tail _ _ _ _ _)|]; simpl in He; lia. }
      destruct (Z.eqb_spec i n); [lia|]. apply bytes_cons in Hb as [Hb1 Hb2].
      rewrite (loadb_ok _ _ _ Hb1). apply Forall_cons in Hl as [Hbb Hl].
      change (mbind ?f (Ok b)) with (f b). cbv beta. rewrite cont_test by done.
      destruct (cont_ok lead b) eqn:Ec; cbn [negb]; [|done].
      pose proof (cont_ok_range _ _ Ec) as Hr.
      assert (2 ^ (21 - 6 * S need) <= 2 ^ 15) by (apply Z.pow_le_mono_r; lia).
      rewrite acc_bits by lia. replace (Z.of_nat (S need) - 1) with (Z.of_nat need) by lia.
      replace (i + 1) with (Z.of_nat (S i)) by lia.
      assert (2 ^ (21 - 6 * need) = 64 * 2 ^ (21 - 6 * S need)) as Hp.
      { rewrite <- (Z.pow_add_r 2 6) by lia. f_equal. lia. }
      apply IH; [by replace (s + S i) with (s + i + 1) by lia | done | | | lia].
      * destruct need; [right; split; [done|]; simpl in *; lia|]. left. split_and!; [lia | lia | lia | lia | done].
      * unfold enough in *. simpl length in He. case_match; lia.
Qed.

Lemma dec_tail_app k c need lead l1 l2 :
  dec_tail k c need lead (l1 ++ l2) =
  match dec_tail k c need lead l1 with
  | DMore (Mid c need lead) => dec_tail (k + length l1) c need lead l2
  | o => o
  end.
Proof.
  revert k c need lead. induction l1 as [|b l1 IH]; intros k c [|need] lead; simpl; try done.
  - by rewrite Nat.add_0_r.
  - case_match; [|done]. rewrite IH. repeat case_match; try done. f_equal. lia.
Qed.

Lemma dec_tail_shift j k c need lead l :
  dec_tail (j + k) c need lead l =
  match dec_tail k c need lead l with DDone c i => DDone c (j + i) | o => o end.
Proof.
  revert k c need lead. induction l as [|b l IH]; intros k c [|need] lead; simpl; try done.
  case_match; [|done]. rewrite <- IH. f_equal. lia.
Qed.

(** Decoding in two pieces. *)
Lemma dec_app d l1 l2 :
  dec d (l1 ++ l2) =
  match dec d l1 with
  | DMore d' => match dec d' l2 with DDone c k => DDone c (length l1 + k) | o => o end
  | o => o
  end.
Proof.
  destruct d as [|c need lead]; simpl.
  - destruct l1 as [|b l1]; simpl; [by destruct (match l2 with [] => _ | _ => _ end)|].
    case_match; [done|]. destruct (lead_class b) as [[c need]|]; [|done].
    rewrite dec_tail_app. destruct (dec_tail 1 c need b l1) as [|[|c' need' lead']|] eqn:E; simpl; try done.
    + exfalso. clear -E. revert E. generalize 1%nat. revert c need b.
      induction l1 as [|x l1 IH]; intros c [|need] b k; simpl; try done. case_match; [apply IH | done].
    + rewrite <- (dec_tail_shift (S (length l1)) 0). f_equal. lia.
  - rewrite dec_tail_app. destruct (dec_tail 0 c need lead l1) as [|[|c' need' lead']|] eqn:E; simpl; try done.
    + exfalso. clear -E. revert E. generalize 0%nat. revert c need lead.
      induction l1 as [|x l1 IH]; intros c [|need] b k; simpl; try done. case_match; [apply IH | done].
    + rewrite <- (dec_tail_shift (length l1) 0). f_equal. lia.
Qed.

(** The well-formed sequences of two, three and four bytes. *)
Lemma utf8_two b1 b2 :
  0xc2 <= b1 <= 0xdf → cont_ok b1 b2 = true →
  let c := (b1 - 0xc0) * 64 + (b2 - 0x80) in scalar c ∧ utf8 c = [b1; b2].
Proof.
  intros H1 H2%cont_ok_range c. split; [unfold c, scalar; lia|].
  unfold utf8. destruct (Z.ltb_spec c 128); [lia|]. destruct (Z.ltb_spec c 2048); [|lia].
  repeat f_equal; unfold c; zdiv.
Qed.

Lemma second_three b1 b2 :
  0xe0 <= b1 <= 0xef → second_ok b1 b2 = true →
  0x80 <= b2 <= 0xbf ∧ (b1 = 0xe0 → 0xa0 <= b2) ∧ (b1 = 0xed → b2 < 0xa0).
Proof.
  unfold second_ok. intros H1 H2. repeat case_match; zbool;
    apply andb_true_iff in H2 as [??]; zbool; lia.
Qed.

Lemma second_four b1 b2 :
  0xf0 <= b1 <= 0xf4 → second_ok b1 b2 = true →
  0x80 <= b2 <= 0xbf ∧ (b1 = 0xf0 → 0x90 <= b2) ∧ (b1 = 0xf4 → b2 < 0x90).
Proof.
  unfold second_ok. intros H1 H2. repeat case_match; zbool;
    apply andb_true_iff in H2 as [??]; zbool; lia.
Qed.

Lemma cont_ok_second lead b : lead ≠ 0 → cont_ok lead b = second_ok lead b.
Proof. unfold cont_ok. by destruct (Z.eqb_spec lead 0). Qed.

Lemma utf8_three b1 b2 b3 :
  0xe0 <= b1 <= 0xef → cont_ok b1 b2 = true → cont_ok 0 b3 = true →
  let c := ((b1 - 0xe0) * 64 + (b2 - 0x80)) * 64 + (b3 - 0x80) in
  scalar c ∧ utf8 c = [b1; b2; b3].
Proof.
  intros H1 H2 H3%cont_ok_range c. rewrite cont_ok_second in H2 by lia.
  apply second_three in H2 as (?&?&?); [|done].
  split; [unfold c, scalar; lia|]. unfold utf8.
  destruct (Z.ltb_spec c 128); [lia|]. destruct (Z.ltb_spec c 2048); [lia|].
  destruct (Z.ltb_spec c 65536); [|lia]. repeat f_equal; unfold c; zdiv.
Qed.

Lemma utf8_four b1 b2 b3 b4 :
  0xf0 <= b1 <= 0xf4 → cont_ok b1 b2 = true → cont_ok 0 b3 = true → cont_ok 0 b4 = true →
  let c := (((b1 - 0xf0) * 64 + (b2 - 0x80)) * 64 + (b3 - 0x80)) * 64 + (b4 - 0x80) in
  scalar c ∧ utf8 c = [b1; b2; b3; b4].
Proof.
  intros H1 H2 H3%cont_ok_range H4%cont_ok_range c. rewrite cont_ok_second in H2 by lia.
  apply second_four in H2 as (?&?&?); [|done].
  split; [unfold c, scalar; lia|]. unfold utf8.
  destruct (Z.ltb_spec c 128); [lia|]. destruct (Z.ltb_spec c 2048); [lia|].
  destruct (Z.ltb_spec c 65536); [lia|]. repeat f_equal; unfold c; zdiv.
Qed.

(** The class of a lead byte. *)
Lemma lead_class_inv b c need :
  lead_class b = Some (c, need) →
  (need = 1%nat ∧ c = b - 0xc0 ∧ 0xc2 <= b <= 0xdf) ∨
  (need = 2%nat ∧ c = b - 0xe0 ∧ 0xe0 <= b <= 0xef) ∨
  (need = 3%nat ∧ c = b - 0xf0 ∧ 0xf0 <= b <= 0xf4).
Proof.
  unfold lead_class. intros H.
  repeat (case_match; simplify_eq; try match goal with
    | E : (_ && _) = true |- _ => apply andb_true_iff in E as [??] end); zbool; lia.
Qed.

Ltac class_cases H :=
  apply lead_class_inv in H as [(-> & -> & H)|[(-> & -> & H)|(-> & -> & H)]]; simpl.

(** Only one-byte encodings are below 128. *)
Ltac utf8_ge H :=
  unfold utf8 in H; match type of H with context [?a <? 128] => destruct (Z.ltb_spec a 128) end;
  [discriminate H | lia].

(** What the functions return for a character. *)
Definition clen (c : Z) : nat := if c =? 0 then 0%nat else length (utf8 c).

(** A character the decoder accepts is a scalar value, and the bytes it took
    are the encoding of that value: nothing else decodes to it. *)
Lemma dec_done_inv l c k :
  Forall is_byte l → dec Start l = DDone c k →
  scalar c ∧ (∃ r, l = utf8 c ++ r) ∧ k = clen c.
Proof.
  intros Hl. unfold dec. destruct l as [|b l]; [done|].
  apply Forall_cons in Hl as [Hb Hl]. unfold is_byte in Hb.
  destruct (Z.ltb_spec b 128).
  { intros [= <- <-]. unfold scalar, utf8. destruct (Z.ltb_spec b 128); [|lia].
    split; [lia|]. split; [by exists l|]. unfold clen, utf8. destruct (Z.ltb_spec b 128); [done | lia]. }
  assert (∀ x, 128 <= x → clen x = length (utf8 x)) as Hcl.
  { intros x ?. unfold clen. destruct (Z.eqb_spec x 0); [lia | done]. }
  destruct (lead_class b) as [[c0 need]|] eqn:El; [|done].
  class_cases El; destruct l as [|b2 l]; try done; (destruct (cont_ok b b2) eqn:E2; [|done]).
  - intros [= <- <-]. destruct (utf8_two b b2 El E2) as [? Eu].
    split_and!; [done | exists l; by rewrite Eu | rewrite Hcl, Eu; [done|]]. utf8_ge Eu.
  - destruct l as [|b3 l]; [done|]. destruct (cont_ok 0 b3) eqn:E3; [|done].
    intros [= <- <-]. destruct (utf8_three b b2 b3 El E2 E3) as [? Eu].
    split_and!; [done | exists l; by rewrite Eu | rewrite Hcl, Eu; [done|]]. utf8_ge Eu.
  - destruct l as [|b3 l]; [done|]. destruct (cont_ok 0 b3) eqn:E3; [|done].
    destruct l as [|b4 l]; [done|]. destruct (cont_ok 0 b4) eqn:E4; [|done].
    intros [= <- <-]. destruct (utf8_four b b2 b3 b4 El E2 E3 E4) as [? Eu].
    split_and!; [done | exists l; by rewrite Eu | rewrite Hcl, Eu; [done|]]. utf8_ge Eu.
Qed.

Ltac in_range := unfold cont_ok, second_ok; zcases; try lia; done.

(** A second byte that is good for any lead byte. *)
Definition filler (lead : Z) : Z := if lead =? 0xe0 then 0xa0 else if lead =? 0xf0 then 0x90 else 0x80.

Lemma filler_ok lead : cont_ok lead (filler lead) = true.
Proof. unfold filler. in_range. Qed.

Lemma cont_80 : cont_ok 0 0x80 = true. Proof. reflexivity. Qed.

(** Bytes that end inside a character are a proper prefix of an encoding. *)
Lemma dec_more_inv l d :
  Forall is_byte l → l ≠ [] → dec Start l = DMore d →
  dvalid d ∧ ∃ c r, scalar c ∧ r ≠ [] ∧ utf8 c = l ++ r.
Proof.
  intros Hl Hne. unfold dec. destruct l as [|b l]; [done|].
  apply Forall_cons in Hl as [Hb Hl]. unfold is_byte in Hb.
  destruct (Z.ltb_spec b 128); [done|].
  destruct (lead_class b) as [[c0 need]|] eqn:El; [|done]. class_cases El.
  - destruct l as [|b2 l]; [|by destruct (cont_ok b b2)]. intros [= <-]. split; [simpl; unfold is_byte; lia|].
    destruct (utf8_two b _ El (filler_ok b)) as [? E]. eexists _, [filler b]. by split_and!; [..|exact E].
  - destruct l as [|b2 l].
    { intros [= <-]. split; [simpl; unfold is_byte; lia|].
      destruct (utf8_three b _ _ El (filler_ok b) cont_80) as [? E]. eexists _, [_; _]. by split_and!; [..|exact E]. }
    destruct (cont_ok b b2) eqn:E2; [|done].
    destruct l as [|b3 l]; [|by destruct (cont_ok 0 b3)]. intros [= <-].
    pose proof (cont_ok_range _ _ E2). split; [simpl; unfold is_byte; lia|].
    destruct (utf8_three b _ _ El E2 cont_80) as [? E]. eexists _, [_]. by split_and!; [..|exact E].
  - destruct l as [|b2 l].
    { intros [= <-]. split; [simpl; unfold is_byte; lia|].
      destruct (utf8_four b _ _ _ El (filler_ok b) cont_80 cont_80) as [? E]. eexists _, [_; _; _]. by split_and!; [..|exact E]. }
    destruct (cont_ok b b2) eqn:E2; [|done]. pose proof (cont_ok_range _ _ E2).
    destruct l as [|b3 l].
    { intros [= <-]. split; [simpl; unfold is_byte; lia|].
      destruct (utf8_four b _ _ _ El E2 cont_80 cont_80) as [? E]. eexists _, [_; _]. by split_and!; [..|exact E]. }
    destruct (cont_ok 0 b3) eqn:E3; [|done]. pose proof (cont_ok_range _ _ E3).
    destruct l as [|b4 l]; [|by destruct (cont_ok 0 b4)]. intros [= <-].
    split; [simpl; unfold is_byte; lia|].
    destruct (utf8_four b _ _ _ El E2 E3 cont_80) as [? E]. eexists _, [_]. by split_and!; [..|exact E].
Qed.

Lemma dec_tail_cons k c need lead b l :
  cont_ok lead b = true →
  dec_tail k c (S need) lead (b :: l) = dec_tail (S k) (c * 64 + (b - 0x80)) need 0 l.
Proof. simpl. by intros ->. Qed.

(** Every scalar value decodes from its encoding, whatever follows it. *)
Lemma dec_utf8 c r : scalar c → dec Start (utf8 c ++ r) = DDone c (clen c).
Proof.
  intros [Hc Hs]. unfold clen, utf8, dec.
  destruct (Z.ltb_spec c 128); simpl.
  { destruct (Z.ltb_spec c 128); [|lia]. by destruct (c =? 0). }
  destruct (Z.eqb_spec c 0); [lia|].
  destruct (Z.ltb_spec c 2048); simpl; [|destruct (Z.ltb_spec c 65536); simpl].
  - destruct (Z.ltb_spec (192 + c / 64) 128); [zdiv|].
    assert (lead_class (192 + c / 64) = Some (c / 64, 1%nat)) as ->.
    { unfold lead_class. replace (192 + c / 64 - 192) with (c / 64) by lia. zcases; simpl; done || zdiv. }
    rewrite dec_tail_cons by (unfold cont_ok, second_ok; zcases; simpl; done || zdiv).
    simpl. f_equal. zdiv.
  - destruct (Z.ltb_spec (224 + c / 4096) 128); [zdiv|].
    assert (lead_class (224 + c / 4096) = Some (c / 4096, 2%nat)) as ->.
    { unfold lead_class. replace (224 + c / 4096 - 224) with (c / 4096) by lia. zcases; simpl; done || zdiv. }
    rewrite dec_tail_cons by (unfold cont_ok, second_ok; zcases; simpl; done || zdiv).
    rewrite dec_tail_cons by (unfold cont_ok; zcases; simpl; done || zdiv).
    simpl. f_equal. zdiv.
  - destruct (Z.ltb_spec (240 + c / 262144) 128); [zdiv|].
    assert (lead_class (240 + c / 262144) = Some (c / 262144, 3%nat)) as ->.
    { unfold lead_class. replace (240 + c / 262144 - 240) with (c / 262144) by lia. zcases; simpl; done || zdiv. }
    rewrite dec_tail_cons by (unfold cont_ok, second_ok; zcases; simpl; done || zdiv).
    do 2 rewrite dec_tail_cons by (unfold cont_ok; zcases; simpl; done || zdiv).
    simpl. f_equal. zdiv.
Qed.

(** mbrtowc decodes as [dec] does. *)
Lemma mbrtowc_ok m src l n d errno :
  src ≠ 0 → bytes m src l → Forall is_byte l → dvalid d → enough (dec d l) l n → 
  mbrtowc m src n (enc_state d) errno = Ok (dret (dec d l) errno).
Proof.
  intros Hs Hb Hl Hd He. unfold mbrtowc. destruct (Z.eqb_spec src 0); [done|].
  destruct (Z.eqb_spec n 0) as [->|Hn].
  { destruct l; [|destruct (dec d (_ :: _)); simpl in He; lia]. destruct d as [|c need lead]; [done|].
    simpl in Hd. by destruct need; [lia|]. }
  destruct d as [|c need lead]; cbn [enc_state __st __n st0].
  - destruct (Z.eqb_spec (Z.land 0 7) 0) as [_|?]; [|done].
    destruct l as [|b l]; [simpl in He; lia|].
    pose proof Hb as Hb'. apply bytes_cons in Hb as [Hb1 Hb2]. apply Forall_cons in Hl as [Hbb Hl].
    rewrite (loadb_ok _ _ _ Hb1). simpl in He |- *. destruct (Z.ltb_spec b 128).
    { simpl. by destruct (b =? 0). }
    destruct (lead_class b) as [[c need]|] eqn:El.
    + assert (dvalid (Mid c need b)) as Hv.
      { clear -El Hbb. simpl. class_cases El; unfold is_byte in *; lia. }
      assert (enough (dec_tail 1 c need b l) l (n - 1%nat)) as He'.
      { unfold enough in *. case_match; simpl in He; lia. }
      pose proof (mb_tail_ok m src l n errno c need b 1 Hb2 Hl (or_introl Hv) He') as Ht.
      clear -El Ht Hbb. unfold lead_class in El.
      assert (Z.land b 31 = b mod 32 ∧ Z.land b 15 = b mod 16 ∧ Z.land b 7 = b mod 8) as (->&->&->).
      { change 31 with (Z.ones 5). change 15 with (Z.ones 4). change 7 with (Z.ones 3).
        by rewrite !Z.land_ones by lia. }
      repeat case_match; simplify_eq; rewrite ?andb_true_iff in *; destruct_and?; zbool;
        rewrite <- Ht; simpl; f_equal; zdiv.
    + clear -El. unfold lead_class in El. repeat case_match; done.
  - destruct Hd as (Hn1 & Hc & Hle). unfold is_byte in Hle.
    assert (Z.land (need + 256 * lead) 7 = need) as ->.
    { change 7 with (Z.ones 3). rewrite Z.land_ones by lia. zdiv. }
    assert (Z.shiftr (need + 256 * lead) 8 = lead) as ->.
    { rewrite Z.shiftr_div_pow2 by lia. zdiv. }
    destruct (Z.eqb_spec need 0); [lia|]. change 0 with (Z.of_nat 0).
    rewrite (mb_tail_ok m src l n); [done | by rewrite Z.add_0_r | done | by left |].
    by rewrite Z.sub_0_r.
Qed.

Lemma dvalid_step d l d' : Forall is_byte l → dvalid d → dec d l = DMore d' → dvalid d'.
Proof.
  assert (∀ l k c need lead, Forall is_byte l → dvalid (Mid c need lead) →
    dec_tail k c need lead l = DMore d' → dvalid d') as Ht.
  { clear. intros l. induction l as [|b l IH]; intros k c [|need] lead Hl Hv; simpl; try done.
    - by intros [= <-].
    - apply Forall_cons in Hl as [Hb Hl]. destruct (cont_ok lead b) eqn:E; [|done].
      apply cont_ok_range in E. destruct need as [|need]; [by destruct l|]. apply IH; [done|].
      simpl in Hv. destruct Hv as (?&?&?). split; [lia|]. split; [|unfold is_byte; lia].
      assert (2 ^ (21 - 6 * S need) = 64 * 2 ^ (21 - 6 * S (S need))) as Hp.
      { rewrite <- (Z.pow_add_r 2 6) by lia. f_equal. lia. }
      lia. }
  intros Hl Hv. destruct d as [|c need lead]; simpl; [|by apply Ht].
  destruct l as [|b l]; [by intros [= <-]|]. apply Forall_cons in Hl as [Hb Hl].
  case_match; [done|]. destruct (lead_class b) as [[c need]|] eqn:El; [|done].
  apply Ht; [done|]. simpl. class_cases El; unfold is_byte in *; lia.
Qed.

(** *** Strings *)

Definition utf8s (ws : list Z) : list Z := concat (utf8 <$> ws).
Definition words (ws : list Z) : list Z := concat (le_split 4 <$> ws).

(** A null-terminated wide string of characters. *)
Definition wstr (m : mem) (p : Z) (ws : list Z) : Prop := bytes m p (words (ws ++ [0])).
Definition chars (ws : list Z) : Prop := Forall (λ c, scalar c ∧ c ≠ 0) ws.

Lemma utf8s_app a b : utf8s (a ++ b) = utf8s a ++ utf8s b.
Proof. unfold utf8s. by rewrite fmap_app, concat_app. Qed.

Lemma words_app a b : words (a ++ b) = words a ++ words b.
Proof. unfold words. by rewrite fmap_app, concat_app. Qed.

Lemma utf8s_take_S ws i c :
  ws !! i = Some c → utf8s (take (S i) ws) = utf8s (take i ws) ++ utf8 c.
Proof. intros H. rewrite (take_S_r ws i c H), utf8s_app. unfold utf8s. simpl. by rewrite app_nil_r. Qed.

Lemma words_length ws : length (words ws) = (4 * length ws)%nat.
Proof.
  induction ws as [|w ws IH]; [done|]. change (words (w :: ws)) with (le_split 4 w ++ words ws).
  rewrite length_app, IH. simpl. lia.
Qed.

Lemma words_bytes ws : Forall is_byte (words ws).
Proof.
  induction ws as [|w ws IH]; [constructor|]. change (words (w :: ws)) with (le_split 4 w ++ words ws).
  apply Forall_app. split; [apply le_split_bytes | done].
Qed.

Lemma chars_lookup ws i c : chars ws → ws !! i = Some c → scalar c ∧ c ≠ 0.
Proof. intros H Hi. by apply (Forall_lookup_1 _ _ _ _ H Hi). Qed.

Lemma utf8s_bytes ws : chars ws → Forall is_byte (utf8s ws).
Proof.
  unfold utf8s. induction 1 as [|c ws [Hc _] H IH]; [constructor|]. simpl. apply Forall_app.
  split; [by apply utf8_bytes | done].
Qed.

Lemma utf8s_pos ws : chars ws → Forall (λ b, 0 < b < 256) (utf8s ws).
Proof.
  unfold utf8s. induction 1 as [|c ws [[Hc _] Hnz] H IH]; [constructor|]. simpl. apply Forall_app.
  split; [|done]. unfold utf8. zcases; repeat constructor; zdiv.
Qed.

Lemma utf8s_prefix ws i : (length (utf8s (take i ws)) <= length (utf8s ws))%nat.
Proof. rewrite <- (take_drop i ws) at 2. rewrite utf8s_app, length_app. lia. Qed.

Lemma utf8s_length_le ws : (length ws <= length (utf8s ws) <= 4 * length ws)%nat.
Proof.
  induction ws as [|c ws IH]; [simpl; lia|]. change (utf8s (c :: ws)) with (utf8 c ++ utf8s ws).
  rewrite length_app. pose proof (utf8_length c). cbn [length]. lia.
Qed.

Lemma le_word_split n w : le_word (le_split n w) = w mod 256 ^ n.
Proof.
  revert w. induction n as [|n IH]; intros w; [by rewrite Z.mod_1_r|].
  cbn [le_split le_word]. rewrite IH, Nat2Z.inj_succ, Z.pow_succ_r by lia.
  rewrite Z.rem_mul_r; [done | lia|]. apply Z.pow_pos_nonneg; lia.
Qed.

Lemma le_word_split4 c : 0 <= c < 2 ^ 32 → le_word (le_split 4 c) = c.
Proof. intros. rewrite le_word_split. by apply Z.mod_small. Qed.

(** The [i]-th character of a wide string, the terminator included. *)
Lemma wstr_load m p ws i :
  wstr m p ws → chars ws → (i <= length ws)%nat → load32 m (p + 4 * i) = Ok (sget ws i).
Proof.
  intros Hw Hc Hi. unfold wstr in Hw. set (c := sget ws i).
  assert (0 <= c < 2 ^ 32) as Hr.
  { unfold c, sget. destruct (ws !! i) eqn:E; simpl; [|lia].
    apply (chars_lookup _ _ _ Hc) in E as [[??] _]. lia. }
  assert ((ws ++ [0]) !! i = Some c) as Hl.
  { unfold c, sget. destruct (decide (i < length ws)%nat).
    - rewrite lookup_app_l by done. by destruct (lookup_lt_is_Some_2 ws i) as [x ->].
    - replace i with (length ws) by lia. rewrite lookup_app_r, Nat.sub_diag by done.
      by rewrite (lookup_ge_None_2 ws) by done. }
  rewrite <- (take_drop_middle _ _ _ Hl), words_app in Hw.
  apply bytes_app in Hw as [_ Hw]. rewrite words_length, length_take_le in Hw by (rewrite length_app; simpl; lia).
  change (words (?x :: ?l)) with (le_split 4 x ++ words l) in Hw. apply bytes_app in Hw as [Hw _].
  unfold load32. replace (p + 4 * i) with (p + (4 * i)%nat) by lia.
  pose proof (load_list_ok _ _ _ Hw) as Hll. rewrite le_split_length in Hll. rewrite Hll.
  change (Ok (le_word (le_split 4 c)) = Ok c). by rewrite le_word_split4.
Qed.

Lemma wstr_size m p ws : wstr m p ws → (4 * length ws + 4 <= size m)%nat.
Proof. intros H%bytes_size. rewrite words_length, length_app in H. simpl in H. lia. Qed.

Lemma wstr_write m p ws q l :
  p + 4 * (length ws + 1) <= q ∨ q + length l <= p → wstr m p ws → wstr (write m q l) p ws.
Proof.
  intros Hd. apply bytes_write_out. rewrite words_length, length_app. simpl. lia.
Qed.

(** wcsrtombs writes the longest sequence of whole characters that fits. *)
Lemma wcsrtombs_ok m s w ws n errno :
  mem_ok m → wstr m w ws → chars ws → s ≠ 0 → 0 <= n →
  mapped m s (Z.min n (length (utf8s ws) + 1)) →
  w + 4 * (length ws + 1) <= s ∨ s + Z.min n (length (utf8s ws) + 1) <= w →
  ∃ k : nat, (k <= length ws)%nat ∧ length (utf8s (take k ws)) <= n ∧
  let out := utf8s (take k ws) in
  if decide (k = length ws ∧ length out < n)
  then wcsrtombs m s w n errno = Ok (Z.of_nat (length out), write m s (out ++ [0]), 0, errno)
  else wcsrtombs m s w n errno = Ok (Z.of_nat (length out), write m s out, w + 4 * k, errno) ∧
       ((k < length ws)%nat → n < length (utf8s (take (S k) ws))).
Proof.
  intros Hok Hw Hc Hs Hn Hm Hd. set (out i := utf8s (take i ws)).
  assert (∀ i, (length (out i) <= length (utf8s ws))%nat) as Hlen by (intros; apply utf8s_prefix).
  assert (4 * length ws + 4 < 2 ^ 64) as Hbig.
  { destruct (bytes_mapped _ _ _ Hw w) as [v Hv]; [rewrite words_length, length_app; simpl; lia|].
    destruct (bytes_mapped _ _ _ Hw (w + 4 * length ws + 3)) as [v' Hv'];
      [rewrite words_length, length_app; simpl; lia|].
    apply (mem_addr _ Hok) in Hv, Hv'. lia. }
  pose proof (utf8s_length_le ws) as Hle4.
  assert (∀ i, length (out i) <= n → mapped m s (length (out i))) as Hmi.
  { intros i Hi. eapply mapped_mono; [done | lia|]. specialize (Hlen i). lia. }
  assert (wp (wcsrtombs m s w n errno) (λ r, ∃ k : nat, (k <= length ws)%nat ∧ length (out k) <= n ∧
      if decide (k = length ws ∧ length (out k) < n)
      then r = (Z.of_nat (length (out k)), write m s (out k ++ [0]), 0, errno)
      else r = (Z.of_nat (length (out k)), write m s (out k), w + 4 * k, errno) ∧
           ((k < length ws)%nat → n < length (out (S k))))) as (r & Hr & k & Hk1 & Hk2 & Hk).
  { apply (wp_loop (λ '(m', w', cnt), ∃ i : nat, (i <= length ws)%nat ∧ length (out i) <= n ∧
        m' = write m s (out i) ∧ w' = w + 4 * i ∧ cnt = Z.of_nat (length (out i)))
      (λ '(_, w', _), Z.to_nat (w + 4 * length ws - w'))).
    - intros [[m' w'] cnt] (i & Hi & Hin & -> & -> & ->).
      assert (wstr (write m s (out i)) w ws) as Hw' by (apply wstr_write; [specialize (Hlen i); lia | done]).
      wp_pure. wp_use (wstr_load _ _ _ i Hw' Hc Hi). specialize (Hlen i) as Hli.
      destruct (ws !! i) as [c|] eqn:E.
      + assert (sget ws i = c) as -> by (unfold sget; by rewrite E).
        destruct (chars_lookup _ _ _ Hc E) as [Hsc Hnz]. rewrite (wc_bytes_utf8 c Hsc).
        pose proof (utf8s_take_S _ _ _ E) as HS. fold (out i) (out (S i)) in HS.
        assert (length (out (S i)) = length (out i) + length (utf8 c))%nat as HSl by (by rewrite HS, length_app).
        specialize (Hlen (S i)). pose proof (lookup_lt_Some _ _ _ E).
        cbv beta iota zeta. rewrite uwrap_small by lia. destruct (Z.eqb_spec s 0); [done|]. cbn [negb andb].
        destruct (Z.ltb_spec n (length (out i) + length (utf8 c))).
        * wp_pure. exists i. split_and!; [lia | lia|]. rewrite decide_False by lia. split; [done | lia].
        * destruct (Z.eqb_spec c 0); [done|]. wp_pure.
          assert (mapped (write m s (out i)) (s + length (out i)) (length (utf8 c))) as Hmm.
          { apply mapped_write. eapply mapped_mono; [done | lia | lia]. }
          wp_use (store_list_ok _ _ _ Hmm (utf8_bytes c Hsc)). wp_pure.
          split; [|lia]. exists (S i). rewrite <- write_app, <- HS. split_and!; lia || done.
      + apply lookup_ge_None in E. assert (i = length ws) as -> by lia.
        assert (sget ws (length ws) = 0) as -> by (unfold sget; by rewrite lookup_ge_None_2).
        change (wc_bytes 0) with (Some [0]). cbv beta iota zeta. destruct (Z.eqb_spec s 0); [done|]. cbn [negb andb length].
        assert (out (length ws) = utf8s ws) as Eo by (unfold out; by rewrite firstn_all).
        rewrite uwrap_small by lia. destruct (Z.ltb_spec n (length (out (length ws)) + 1%nat)).
        * wp_pure. exists (length ws). split_and!; [lia | lia|]. rewrite decide_False by lia. split; [done | lia].
        * wp_pure. apply wp_storeb.
          { apply (mapped_write _ _ _ s (Z.min n (length (utf8s ws) + 1)) Hm). lia. }
          wp_pure. exists (length ws). split_and!; [lia | lia|]. rewrite decide_True by lia.
          by rewrite write_app.
    - exists 0%nat. change (out 0%nat) with (@nil Z). simpl. split_and!; lia || done.
    - pose proof (wstr_size _ _ _ Hw). unfold fuel. lia. }
  exists k. split_and!; [done | done|]. fold (out k). cbv zeta. case_decide; [by rewrite Hr, Hk|].
  destruct Hk as [-> Hk]. split; [done | exact Hk].
Qed.

Lemma words_take_S ws i c :
  ws !! i = Some c → words (take (S i) ws) = words (take i ws) ++ le_split 4 c.
Proof. intros H. rewrite (take_S_r ws i c H), words_app. unfold words. simpl. done. Qed.

(** One character of a string, at byte offset [length (utf8s (take i ws))]. *)
Lemma mbrtowc_char m s ws i errno :
  bytes m s (utf8s ws ++ [0]) → chars ws → (i <= length ws)%nat →
  s + length (utf8s (take i ws)) ≠ 0 →
  mbrtowc m (s + length (utf8s (take i ws))) 4 st0 errno =
  Ok (Z.of_nat (clen (sget ws i)), Some (sget ws i), st0, errno).
Proof.
  intros Hb Hc Hi Hs.
  assert (∃ c r, sget ws i = c ∧ scalar c ∧ utf8s ws ++ [0] = utf8s (take i ws) ++ utf8 c ++ r)
    as (c & r & -> & Hsc & E).
  { unfold sget. destruct (ws !! i) as [c|] eqn:E.
    - exists c, (utf8s (drop (S i) ws) ++ [0]). split; [done|]. split; [by apply (chars_lookup ws i)|].
      rewrite <- (take_drop_middle _ _ _ E) at 1. rewrite utf8s_app.
      change (utf8s (c :: ?l)) with (utf8 c ++ utf8s l). by rewrite <- !app_assoc.
    - apply lookup_ge_None in E. exists 0, []. split_and!; [done | unfold scalar; lia|].
      by rewrite firstn_all2 by lia. }
  rewrite E in Hb. apply bytes_app in Hb as [_ Hb]. apply bytes_app in Hb as [Hb _].
  pose proof (dec_utf8 c [] Hsc) as Hd. rewrite app_nil_r in Hd. pose proof (utf8_length c).
  change st0 with (enc_state Start).
  rewrite (mbrtowc_ok m _ (utf8 c) 4 Start errno Hs Hb); [by rewrite Hd | by apply utf8_bytes | done|].
  rewrite Hd. simpl. lia.
Qed.

(** mbsrtowcs converts back what fits, and the terminator if it does. *)
Lemma mbsrtowcs_ok m d s ws n errno :
  mem_ok m → cstr m s (utf8s ws) → chars ws → d ≠ 0 → 0 <= n →
  mapped m d (4 * Z.min n (length ws + 1)) →
  s + length (utf8s ws) + 1 <= d ∨ d + 4 * Z.min n (length ws + 1) <= s →
  mbsrtowcs m d s n st0 errno =
    Ok (if decide (length ws < n)
        then (Z.of_nat (length ws), write m d (words (ws ++ [0])), 0, st0, errno)
        else (n, write m d (words (take (Z.to_nat n) ws)),
              s + length (utf8s (take (Z.to_nat n) ws)), st0, errno)).
Proof.
  intros Hok Hs Hc Hd0 Hn Hm Hd.
  assert (∀ i, (i <= length ws)%nat → i <= n →
    mapped m d (length (words (take i ws))) ∧
    bytes (write m d (words (take i ws))) s (utf8s ws ++ [0])) as Hi.
  { intros i Hi Hin. rewrite words_length, length_take_le by done. split.
    - eapply mapped_mono; [done | lia | lia].
    - apply bytes_write_out; [|apply Hs]. rewrite words_length, length_take_le, length_app by done. simpl. lia. }
  assert (s ≠ 0 ∧ ∀ i : nat, s + i ≠ 0) as [Hs0 Hsi].
  { pose proof (cstr_get m s _ 0 ltac:(lia) Hs) as H. apply (mem_addr _ Hok) in H. split; lia. }
  apply wp_eq_r. unfold mbsrtowcs.
  apply (wp_loop (λ '(m', s', cnt, st, e), ∃ i : nat, (i <= length ws)%nat ∧ i <= n ∧
      m' = write m d (words (take i ws)) ∧ s' = s + length (utf8s (take i ws)) ∧
      cnt = Z.of_nat i ∧ st = st0 ∧ e = errno)
    (λ '(_, _, cnt, _, _), Z.to_nat (length ws - cnt))).
  - intros [[[[m' s'] cnt] st] e] (i & Hil & Hin & -> & -> & -> & -> & ->).
    destruct (Z.eqb_spec d 0); [done|]. cbn [orb negb].
    destruct (Z.ltb_spec i n); cbn [negb].
    + wp_pure. destruct (Hi i Hil ltac:(lia)) as [Hmi Hbi].
      wp_use (mbrtowc_char _ s ws i errno Hbi Hc Hil (Hsi _)). wp_pure.
      assert (clen (sget ws i) <= 4)%nat as Hcl.
      { unfold clen. case_match; [lia|]. apply utf8_length. }
      destruct (Z.eqb_spec (clen (sget ws i)) ILSEQ); [unfold ILSEQ in *; lia|].
      destruct (Z.eqb_spec (clen (sget ws i)) INCOMPLETE); [unfold INCOMPLETE in *; lia|]. cbn [orb].
      wp_pure. unfold store32.
      assert (mapped (write m d (words (take i ws))) (d + 4 * i) (length (le_split 4 (sget ws i)))) as Hst.
      { apply mapped_write. rewrite le_split_length. eapply mapped_mono; [exact Hm | lia | lia]. }
      wp_use (store_list_ok _ _ _ Hst (le_split_bytes _ _)).
      replace (d + 4 * i) with (d + length (words (take i ws)))
        by (rewrite words_length, length_take_le by done; lia).
      rewrite <- write_app. destruct (Z.eqb_spec (sget ws i) 0) as [E|E].
      * wp_pure. assert (i = length ws) as ->.
        { unfold sget in E. destruct (ws !! i) eqn:Ei; [|apply lookup_ge_None in Ei; lia].
          by apply (chars_lookup _ _ _ Hc) in Ei as [_ ?]. }
        rewrite decide_True by done. rewrite E, firstn_all, words_app. done.
      * wp_pure. assert (ws !! i = Some (sget ws i)) as Ei by (unfold sget in *; by destruct (ws !! i)).
        pose proof (lookup_lt_Some _ _ _ Ei).
        split; [|lia]. exists (S i). rewrite (words_take_S _ _ _ Ei), (utf8s_take_S _ _ _ Ei), length_app.
        unfold clen. destruct (Z.eqb_spec (sget ws i) 0); [done|]. split_and!; lia || done.
    + wp_pure. rewrite decide_False by lia. assert (n = i) as -> by lia. by rewrite Nat2Z.id.
  - exists 0%nat. simpl. change (utf8s []) with (@nil Z). simpl. split_and!; lia || done.
  - pose proof (str_fuel _ _ _ Hs). pose proof (utf8s_length_le ws). lia.
Qed.

(** ** Properties *)

(** C13: mbrtowc is an exact UTF-8 decoder. On [n] readable bytes and from
    the initial state it returns a character exactly when the bytes start
    with the encoding of a Unicode scalar value (so overlong forms,
    surrogates and values above U+10FFFF are rejected), asks for more input
    exactly when the bytes are a proper prefix of such an encoding, and fails
    with EILSEQ in every other case. *)
Theorem mbrtowc_spec m src l errno :
  src ≠ 0 → bytes m src l → Forall is_byte l →
  ∃ r, mbrtowc m src (Z.of_nat (length l)) st0 errno = Ok r ∧
  ((∃ c rest, scalar c ∧ l = utf8 c ++ rest ∧ r = (Z.of_nat (clen c), Some c, st0, errno)) ∨
   (∃ c rest st, scalar c ∧ utf8 c = l ++ rest ∧ rest ≠ [] ∧ r = (INCOMPLETE, None, st, errno)) ∨
   ((∀ c rest, scalar c → l ≠ utf8 c ++ rest ∧ utf8 c ≠ l ++ rest) ∧ r = ilseq)).
Proof.
  intros Hs Hb Hl. exists (dret (dec Start l) errno). split.
  { apply (mbrtowc_ok m src l _ Start errno Hs Hb Hl I). destruct (dec Start l); simpl; lia. }
  destruct (dec Start l) as [c k|d|] eqn:E; simpl.
  - left. destruct (dec_done_inv _ _ _ Hl E) as (Hc & [rest Hr] & ->). by exists c, rest.
  - right. left. destruct l as [|b l].
    + injection E as <-. exists 65, [65], st0. split_and!; [unfold scalar; lia | done..].
    + destruct (dec_more_inv _ _ Hl ltac:(done) E) as (_ & c & rest & Hc & Hr & Hu).
      by exists c, rest, (enc_state d).
  - right. right. split; [|done]. intros c rest Hc. pose proof (dec_utf8 c) as Hd. split; intros He.
    + by rewrite He, Hd in E.
    + specialize (Hd [] Hc). rewrite app_nil_r, He, dec_app, E in Hd. done.
Qed.

(** wcrtomb and mbrtowc are inverse. For every scalar value wcrtomb
    writes its encoding, and mbrtowc reads the value back from the bytes
    written, using exactly those bytes; every other value is rejected with
    EILSEQ and nothing is written. *)
Theorem wcrtomb_mbrtowc m s c n errno :
  s ≠ 0 → 0 <= c < 2 ^ 32 → mapped m s (length (utf8 c)) → length (utf8 c) <= n →
  if decide (scalar c) then
    ∃ m', wcrtomb m s c errno = Ok (Z.of_nat (length (utf8 c)), m', errno) ∧
          m' = write m s (utf8 c) ∧
          mbrtowc m' s n st0 errno = Ok (Z.of_nat (clen c), Some c, st0, errno)
  else wcrtomb m s c errno = Ok (ILSEQ, m, EILSEQ).
Proof.
  intros Hs Hc Hm Hn. unfold wcrtomb. destruct (Z.eqb_spec s 0); [done|]. case_decide as Hsc.
  - rewrite (wc_bytes_utf8 c Hsc), (store_list_ok m s _ Hm (utf8_bytes c Hsc)).
    eexists. split; [reflexivity|]. split; [done|].
    pose proof (dec_utf8 c [] Hsc) as Hd. rewrite app_nil_r in Hd. change st0 with (enc_state Start) at 1.
    rewrite (mbrtowc_ok _ s (utf8 c) n Start errno Hs); [by rewrite Hd | apply bytes_write | by apply utf8_bytes | done|].
    rewrite Hd. simpl. lia.
  - by rewrite (wc_bytes_none c Hc Hsc).
Qed.

(** Decoding is incremental. When mbrtowc has reported an incomplete
    character on the first part of the input, calling it again on the second
    part with the state it left gives what one call on all of the input
    gives, except that only the bytes of the second part are counted; an
    invalid sequence is found no later than in one call. *)
Theorem mbrtowc_incremental m src l1 l2 d errno st1 :
  0 < src → dvalid d → bytes m src (l1 ++ l2) → Forall is_byte (l1 ++ l2) → l1 ≠ [] →
  mbrtowc m src (Z.of_nat (length l1)) (enc_state d) errno = Ok (INCOMPLETE, None, st1, errno) →
  ∃ r wc st e,
    mbrtowc m (src + length l1) (Z.of_nat (length l2)) st1 errno = Ok (r, wc, st, e) ∧
    mbrtowc m src (Z.of_nat (length (l1 ++ l2))) (enc_state d) errno =
      Ok (match wc with Some _ => length l1 + r | None => r end, wc, st, e).
Proof.
  intros Hs Hd Hb [Hl1 Hl2]%Forall_app Hne H1. pose proof Hb as Hb0. apply bytes_app in Hb as [Hb1 Hb2].
  assert (∀ o (l : list Z), enough o l (Z.of_nat (length l))) as Hen by (intros []; simpl; lia).
  rewrite (mbrtowc_ok m src l1 _ d errno) in H1 by (done || lia). injection H1 as H1.
  destruct (dec d l1) as [c k|d'|] eqn:E; simpl in H1; try done. injection H1 as <-.
  pose proof (dvalid_step _ _ _ Hl1 Hd E) as Hd'.
  rewrite (mbrtowc_ok m (src + length l1) l2 _ d' errno) by (done || lia).
  assert (Forall is_byte (l1 ++ l2)) as Hl by (by apply Forall_app).
  rewrite (mbrtowc_ok m src (l1 ++ l2) _ d errno) by (done || lia).
  rewrite dec_app, E. destruct (dec d' l2) as [c k|d2|]; simpl; do 4 eexists; (split; [reflexivity|]); simpl;
    repeat f_equal; lia.
Qed.

(** wcstombs followed by mbstowcs restores every wide string of
    characters, when the two buffers are large enough. *)
Theorem wcs_roundtrip m s d w ws n n' errno :
  mem_ok m → wstr m w ws → chars ws → s ≠ 0 → d ≠ 0 → mapped m s n → mapped m d (4 * n') →
  length (utf8s ws) < n → length ws < n' →
  w + 4 * (length ws + 1) <= s ∨ s + n <= w → s + n <= d ∨ d + 4 * n' <= s →
  ∃ m1 m2,
    wcstombs m s w n errno = Ok (Z.of_nat (length (utf8s ws)), m1, errno) ∧
    cstr m1 s (utf8s ws) ∧
    mbstowcs m1 d s n' errno = Ok (Z.of_nat (length ws), m2, errno) ∧
    wstr m2 d ws.
Proof.
  intros Hok Hw Hc Hs Hd Hms Hmd Hn Hn' Hws Hsd.
  assert (mapped m s (length (utf8s ws ++ [0]))) as Hm1.
  { rewrite length_app. eapply mapped_mono; [exact Hms | lia | simpl; lia]. }
  assert (Forall is_byte (utf8s ws ++ [0])) as Hby.
  { apply Forall_app. split; [by apply utf8s_bytes | by repeat constructor]. }
  destruct (wcsrtombs_ok m s w ws n errno) as (k & Hk & Hkn & H); try done || lia.
  { eapply mapped_mono; [exact Hms | lia | lia]. }
  pose proof (utf8s_prefix ws (S k)).
  cbv zeta in H. destruct (decide (k = length ws ∧ _)) as [Hdec|Hdec]; [|destruct H as [_ H]; destruct (decide (k = length ws)) as [->|];
    [rewrite firstn_all in *; lia | specialize (H ltac:(lia)); lia]].
  destruct Hdec as [-> _]. rewrite firstn_all in H.
  exists (write m s (utf8s ws ++ [0])), (write (write m s (utf8s ws ++ [0])) d (words (ws ++ [0]))).
  unfold wcstombs, mbstowcs. rewrite H. split; [done|].
  assert (cstr (write m s (utf8s ws ++ [0])) s (utf8s ws)) as Hcs.
  { split; [apply bytes_write|]. apply utf8s_pos, Hc. }
  split; [done|]. rewrite (mbsrtowcs_ok _ d s ws n' errno); try done || lia.
  - rewrite decide_True by lia. split; [done|]. apply bytes_write.
  - by apply mem_ok_write.
  - apply mapped_write. eapply mapped_mono; [exact Hmd | lia | lia].
Qed.

(** "aé€😀" as a wide string at 4096, room for it in UTF-8 at 4128 and as a
    wide string at 4160. *)
Definition wtext : list Z := [97; 0xe9; 0x20ac; 0x1f600].
Definition mb_block : list Z := words (wtext ++ [0]) ++ replicate 12 0 ++ replicate 64 0.
Definition mb_mem : mem := write ∅ 4096 mb_block.

Lemma mb_mem_ok : mem_ok mb_mem.
Proof. apply mem_ok_block; vm_compute; done. Qed.

Lemma mb_mem_wstr : wstr mb_mem 4096 wtext.
Proof. apply load_list_bytes. vm_compute. reflexivity. Qed.

Lemma wtext_chars : chars wtext.
Proof. repeat constructor; unfold scalar; lia. Qed.

Definition utf_mem : mem := write ∅ 4096 [0xe2; 0x82; 0xac; 65; 0xed; 0xa0; 0x80; 0].

Lemma utf_mem_euro : bytes utf_mem 4096 [0xe2; 0x82; 0xac].
Proof. apply load_list_bytes. vm_compute. reflexivity. Qed.

Lemma utf_mem_surrogate : bytes utf_mem 4100 [0xed; 0xa0; 0x80].
Proof. apply load_list_bytes. vm_compute. reflexivity. Qed.

(** The euro sign decodes; the encoded surrogate U+D800 is rejected. *)
Lemma mbrtowc_spec_witness :
  mbrtowc utf_mem 4096 4 st0 0 = Ok (3, Some 0x20ac, st0, 0) ∧
  ∃ r, mbrtowc utf_mem 4100 3 st0 0 = Ok r ∧ r = ilseq.
Proof.
  split; [vm_compute; reflexivity|].
  destruct (mbrtowc_spec utf_mem 4100 [0xed; 0xa0; 0x80] 0 ltac:(lia) utf_mem_surrogate
    ltac:(repeat constructor; unfold is_byte; lia)) as (r & Hr & _).
  exists r. split; [exact Hr|]. vm_compute in Hr. by injection Hr as <-.
Defined.

Lemma wcrtomb_mbrtowc_witness :
  ∃ m', wcrtomb utf_mem 4096 0x1f600 0 = Ok (4, m', 0) ∧ m' = write utf_mem 4096 [0xf0; 0x9f; 0x98; 0x80] ∧
        mbrtowc m' 4096 8 st0 0 = Ok (4, Some 0x1f600, st0, 0).
Proof.
  refine (wcrtomb_mbrtowc utf_mem 4096 0x1f600 8 0 _ _ _ _); [lia | lia | | vm_compute; done].
  apply mapped_eval. vm_compute. reflexivity.
Defined.

Lemma mbrtowc_incremental_witness :
  ∃ r wc st e,
    mbrtowc utf_mem 4097 2 (MbState 2 (2 + 256 * 0xe2)) 0 = Ok (r, wc, st, e) ∧
    mbrtowc utf_mem 4096 3 st0 0 = Ok (match wc with Some _ => 1 + r | None => r end, wc, st, e).
Proof.
  refine (mbrtowc_incremental utf_mem 4096 [0xe2] [0x82; 0xac] Start 0 _ _ _ _ _ _ _);
    [lia | done | apply utf_mem_euro | repeat constructor; unfold is_byte; lia | done | vm_compute; reflexivity].
Defined.

Lemma wcs_roundtrip_witness :
  ∃ m1 m2, wcstombs mb_mem 4128 4096 16 0 = Ok (10, m1, 0) ∧ cstr m1 4128 (utf8s wtext) ∧
    mbstowcs m1 4160 4128 8 0 = Ok (4, m2, 0) ∧ wstr m2 4160 wtext.
Proof.
  apply (wcs_roundtrip mb_mem 4128 4160 4096 wtext 16 8 0 mb_mem_ok mb_mem_wstr wtext_chars);
    try (vm_compute; done); try (left; vm_compute; done).
  - change 16 with (Z.of_nat 16). apply mapped_eval. vm_compute. reflexivity.
  - change (4 * 8) with (Z.of_nat 32). apply mapped_eval. vm_compute. reflexivity.
Defined.
