(* ===== verification/Qsort.v ===== *)
(** * Sorting and searching an array (src/src/qsort.c)

    introsort over an array of [w]-byte elements in memory: element exchange
    at byte level, insertion sort, heap sort, the median-of-three partition
    and the recursion with its depth limit; binary search. The comparison
    function is a parameter: a function of the contents of two elements. *)
From S2P Require Import Prelude CMem Ctype MemFns.

(** ** Operations *)

(** struct ctx, less the [arg] the comparison function is closed over. *)
Record ctx := { c_w : Z; c_cmp : list Z → list Z → Z }.

Definition swap (m : mem) (a b w : Z) : res mem :=
  if a =? b then Ok m else
  if (w mod 8 =? 0) && (a mod 8 =? 0) && (b mod 8 =? 0) then
    loop (fuel m) (λ '(m, x, y, w),
      if w =? 0 then Ok (Brk m) else
      t ← load64 m x; u ← load64 m y;
      m ← store64 m x u; m ← store64 m y t;
      Ok (Cont (m, x + 8, y + 8, w - 8))) (m, a, b, w)
  else
    loop (fuel m) (λ '(m, a, b, w),
      if w =? 0 then Ok (Brk m) else
      let k := if w <? 256 then w else 256 in
      tmp ← load_list m a (Z.to_nat k);
      '(_, m) ← memcpy m a b k;
      m ← store_list m b tmp;
      Ok (Cont (m, a + k, b + k, w - k))) (m, a, b, w).

Definition CMP (c : ctx) (m : mem) (a b : Z) : res Z :=
  x ← load_list m a (Z.to_nat (c_w c));
  y ← load_list m b (Z.to_nat (c_w c));
  Ok (c_cmp c x y).

Definition insertion (m : mem) (base n : Z) (c : ctx) : res mem :=
  let w := c_w c in
  loop (fuel m) (λ '(m, i),
    if i <? n then
      m ← loop (fuel m) (λ '(m, j),
        if j =? 0 then Ok (Brk m) else
        r ← CMP c m (base + (j - 1) * w) (base + j * w);
        if 0 <? r then
          m ← swap m (base + (j - 1) * w) (base + j * w) w;
          Ok (Cont (m, j - 1))
        else Ok (Brk m)) (m, i);
      Ok (Cont (m, i + 1))
    else Ok (Brk m)) (m, 1).

Definition sift (m : mem) (base root n : Z) (c : ctx) : res mem :=
  let w := c_w c in
  loop (fuel m) (λ '(m, root),
    let child := 2 * root + 1 in
    if n <=? child then Ok (Brk m) else
    child ← (if child + 1 <? n then
               r ← CMP c m (base + child * w) (base + (child + 1) * w);
               Ok (if r <? 0 then child + 1 else child)
             else Ok child);
    r ← CMP c m (base + root * w) (base + child * w);
    if 0 <=? r then Ok (Brk m) else
    m ← swap m (base + root * w) (base + child * w) w;
    Ok (Cont (m, child))) (m, root).

Definition heapsort_ (m : mem) (base n : Z) (c : ctx) : res mem :=
  let w := c_w c in
  m ← loop (fuel m) (λ '(m, i),
    if 0 <? i then m ← sift m base (i - 1) n c; Ok (Cont (m, i - 1))
    else Ok (Brk m)) (m, n / 2);
  loop (fuel m) (λ '(m, en),
    if 1 <? en then
      m ← swap m base (base + (en - 1) * w) w;
      m ← sift m base 0 (en - 1) c;
      Ok (Cont (m, en - 1))
    else Ok (Brk m)) (m, n).

(** Median of three into position 0. *)
Definition median3 (m : mem) (base n : Z) (c : ctx) : res mem :=
  let w := c_w c in
  let lo := base in let mid := base + n / 2 * w in let hi := base + (n - 1) * w in
  r ← CMP c m mid lo;
  m ← (if r <? 0 then swap m mid lo w else Ok m);
  r ← CMP c m hi mid;
  m ← (if r <? 0 then
         m ← swap m hi mid w;
         r ← CMP c m mid lo;
         if r <? 0 then swap m mid lo w else Ok m
       else Ok m);
  swap m base mid w.

(** Hoare partition around [base[0]]: the final position of the pivot. *)
Definition partition (m : mem) (base n : Z) (c : ctx) : res (mem * Z) :=
  let w := c_w c in
  '(m, j) ← loop (fuel m) (λ '(m, i, j),
    i ← loop (fuel m) (λ i,
      let i := i + 1 in
      if i <? n then
        r ← CMP c m (base + i * w) base;
        if r <? 0 then Ok (Cont i) else Ok (Brk i)
      else Ok (Brk i)) i;
    j ← loop (fuel m) (λ j,
      let j := j - 1 in
      r ← CMP c m (base + j * w) base;
      if 0 <? r then Ok (Cont j) else Ok (Brk j)) j;
    if j <=? i then Ok (Brk (m, j)) else
    m ← swap m (base + i * w) (base + j * w) w;
    Ok (Cont (m, i, j))) (m, 0, n);
  m ← swap m base (base + j * w) w;
  Ok (m, j).

(** The [while] loop and the recursive call; every turn of either takes one
    from [depth], which bounds the fuel. *)
Fixpoint introsort (f : nat) (m : mem) (base n depth : Z) (c : ctx) : res mem :=
  match f with
  | O => Trap Fuel
  | S f =>
      let w := c_w c in
      if 16 <? n then
        if depth =? 0 then heapsort_ m base n c else
        let depth := depth - 1 in
        m ← median3 m base n c;
        '(m, j) ← partition m base n c;
        let left := j in let right := n - j - 1 in
        if left <? right then
          m ← introsort f m base left depth c;
          introsort f m (base + (j + 1) * w) right depth c
        else
          m ← introsort f m (base + (j + 1) * w) right depth c;
          introsort f m base left depth c
      else insertion m base n c
  end.

Definition qsort_r (m : mem) (base n w : Z) (cmp : list Z → list Z → Z) : res mem :=
  if (n <? 2) || (w =? 0) then Ok m else
  let c := {| c_w := w; c_cmp := cmp |} in
  (* 64 - __builtin_clzl(n) is the bit length of n *)
  let depth := 2 * (Z.log2 n + 1) in
  introsort (S (Z.to_nat depth)) m base n depth c.

Definition qsort (m : mem) (base n w : Z) (cmp : list Z → list Z → Z) : res mem :=
  qsort_r m base n w cmp.

(** [cmp (key, -)] is a function of the contents of an element. *)
Definition bsearch (m : mem) (base n w : Z) (cmp : list Z → Z) : res Z :=
  loop (S (Z.to_nat n)) (λ '(b, n),
    if n =? 0 then Ok (Brk 0) else
    let mid := b + n / 2 * w in
    x ← load_list m mid (Z.to_nat w);
    let r := cmp x in
    if r =? 0 then Ok (Brk mid) else
    if 0 <? r then Ok (Cont (mid + w, n - (n / 2 + 1)))
    else Ok (Cont (b, n / 2))) (base, n).

(** ** Exchanging two ranges *)

Section Exchange.
Context (m : mem) (a b : Z) (la lb : list Z).
Context (Ha : bytes m a la) (Hb : bytes m b lb) (Hlen : length la = length lb).
Context (Hd : a + length la <= b ∨ b + length la <= a).
Context (Hla : Forall is_byte la) (Hlb : Forall is_byte lb).

(** The memory when [k] bytes have been exchanged. *)
Definition xch (k : nat) : mem := write (write m a (take k lb)) b (take k la).

Lemma xch_a k c : bytes (xch k) (a + k) (take c (drop k la)).
Proof using All.
  intros i x Hx. pose proof (lookup_lt_Some _ _ _ Hx) as Hi. rewrite length_take, length_drop in Hi.
  unfold xch. rewrite write_out, write_out by (rewrite length_take; lia).
  rewrite lookup_take_lt, lookup_drop in Hx by lia. replace (a + k + i) with (a + (k + i)%nat) by lia.
  by apply Ha.
Qed.

Lemma xch_b k c : bytes (xch k) (b + k) (take c (drop k lb)).
Proof using All.
  intros i x Hx. pose proof (lookup_lt_Some _ _ _ Hx) as Hi. rewrite length_take, length_drop in Hi.
  unfold xch. rewrite write_out, write_out by (rewrite length_take; lia).
  rewrite lookup_take_lt, lookup_drop in Hx by lia. replace (b + k + i) with (b + (k + i)%nat) by lia.
  by apply Hb.
Qed.

Lemma take_drop_app {A} (l : list A) k c : take (k + c) l = take k l ++ take c (drop k l).
Proof.
  destruct (decide (k <= length l)%nat).
  - rewrite <- (take_drop k l) at 1. rewrite take_app, length_take, Nat.min_l by done.
    rewrite firstn_all2 by (rewrite length_take; lia). do 2 f_equal. lia.
  - rewrite !firstn_all2, drop_ge by lia. by rewrite take_nil, app_nil_r.
Qed.

(** [k] bytes exchanged, then the next [c]. *)
Lemma xch_add k c :
  (k + c <= length la)%nat →
  write (write (xch k) (a + k) (take c (drop k lb))) (b + k) (take c (drop k la)) = xch (k + c).
Proof using All.
  intros Hk. unfold xch. rewrite !take_drop_app, !write_app, !length_take_le by lia.
  apply map_eq. intros i. rewrite !lookup_write, !length_take, !length_drop.
  repeat case_decide; try lia; done.
Qed.

Lemma xch_mapped k p n : mapped m p n → mapped (xch k) p n.
Proof using All. intros. by apply mapped_write, mapped_write. Qed.

Lemma fuel_big : (length la < fuel m)%nat.
Proof using All. by eapply fuel_bytes. Qed.

(** One turn of the word loop. *)
Lemma xch_word k :
  (k + 8 <= length la)%nat →
  (t ← load64 (xch k) (a + k); u ← load64 (xch k) (b + k);
   m ← store64 (xch k) (a + k) u; store64 m (b + k) t) = Ok (xch (k + 8)).
Proof using All.
  intros Hk. rewrite (load64_ok _ _ _ (xch_a k 8)) by (rewrite length_take, length_drop; lia).
  rewrite (load64_ok _ _ _ (xch_b k 8)) by (rewrite length_take, length_drop; lia).
  simpl mbind. unfold store64.
  assert (∀ l, Forall is_byte l → length l = length la → le_split 8 (le_word (take 8 (drop k l))) = take 8 (drop k l)) as Hs.
  { intros l Hl Hll. rewrite <- le_split_word by (by apply Forall_take, Forall_drop). f_equal.
    rewrite length_take, length_drop. lia. }
  rewrite !Hs by done.
  rewrite store_list_ok; [simpl mbind | | by apply Forall_take, Forall_drop].
  - rewrite store_list_ok; [| |by apply Forall_take, Forall_drop]; [by rewrite xch_add by lia|].
    apply mapped_write, xch_mapped. eapply mapped_mono; [by eapply bytes_mapped | lia|].
    rewrite length_take, length_drop. lia.
  - apply xch_mapped. eapply mapped_mono; [by apply (bytes_mapped _ _ _ Ha) | lia|].
    rewrite length_take, length_drop. lia.
Qed.

(** One turn of the byte-wise loop, for [c] bytes. *)
Lemma xch_chunk k c :
  (k + c <= length la)%nat →
  (tmp ← load_list (xch k) (a + k) c; '(_, m) ← memcpy (xch k) (a + k) (b + k) (Z.of_nat c);
   store_list m (b + k) tmp) = Ok (xch (k + c)).
Proof using All.
  intros Hk.
  assert (∀ l : list Z, length l = length la → length (take c (drop k l)) = c) as Hl
    by (intros; rewrite length_take, length_drop; lia).
  pose proof (load_list_ok _ _ _ (xch_a k c)) as H1. rewrite Hl in H1 by done. rewrite H1. simpl mbind.
  pose proof (memcpy_forward (xch k) (a + k) (b + k) _ (xch_b k c)) as H2. rewrite Hl in H2 by done.
  rewrite H2; [simpl mbind | | by apply Forall_take, Forall_drop | lia].
  - rewrite store_list_ok; [by rewrite xch_add | | by apply Forall_take, Forall_drop].
    apply mapped_write, xch_mapped. rewrite Hl by done. eapply mapped_mono; [by apply (bytes_mapped _ _ _ Hb) | lia | lia].
  - apply xch_mapped. eapply mapped_mono; [by apply (bytes_mapped _ _ _ Ha) | lia | lia].
Qed.

Lemma xch_done k : k = length la → xch k = write (write m a lb) b la.
Proof using Hlen. intros ->. unfold xch. by rewrite Hlen, firstn_all, <- Hlen, firstn_all. Qed.

Lemma swap_disjoint : swap m a b (length la) = Ok (write (write m a lb) b la).
Proof using All.
  unfold swap. destruct (Z.eqb_spec a b) as [->|Hne].
  { assert (length la = 0%nat) as E by lia. destruct la, lb; done. }
  assert (xch 0 = m) as H0 by (unfold xch; by rewrite !take_0).
  destruct ((_ =? _) && _ && _) eqn:Eal; apply wp_eq_r.
  - apply andb_true_iff in Eal as [[E8 _]%andb_true_iff _]. apply Z.eqb_eq in E8.
    apply (wp_loop (λ '(m', x, y, w), ∃ k : nat, m' = xch k ∧ x = a + k ∧ y = b + k ∧
        w = length la - k ∧ (k <= length la)%nat ∧ Z.of_nat k mod 8 = 0) (λ '(_, _, _, w), Z.to_nat w)).
    + intros [[[m' x] y] w] (k & -> & -> & -> & -> & Hk & Hk8).
      destruct (Z.eqb_spec (length la - k) 0); [wp_pure; apply xch_done; lia|].
      assert (k + 8 <= length la)%nat as Hk' by zdiv.
      pose proof (xch_word k Hk') as Hw.
      destruct (load64 (xch k) (a + k)) as [t|]; [simpl in Hw |- *|done].
      destruct (load64 (xch k) (b + k)) as [u|]; [simpl in Hw |- *|done].
      destruct (store64 (xch k) (a + k) u) as [m1|]; [simpl in Hw |- *|done]. rewrite Hw. simpl.
      apply wp_ok. split; [|lia]. exists (k + 8)%nat. split_and!; lia || zdiv || done.
    + exists 0%nat. rewrite H0. split_and!; lia || done.
    + pose proof fuel_big. lia.
  - apply (wp_loop (λ '(m', x, y, w), ∃ k : nat, m' = xch k ∧ x = a + k ∧ y = b + k ∧
        w = length la - k ∧ (k <= length la)%nat) (λ '(_, _, _, w), Z.to_nat w)).
    + intros [[[m' x] y] w] (k & -> & -> & -> & -> & Hk).
      destruct (Z.eqb_spec (length la - k) 0); [wp_pure; apply xch_done; lia|]. cbv zeta.
      set (c := if length la - k <? 256 then length la - k else 256).
      assert (0 < c ∧ c <= length la - k) as Hc by (unfold c; destruct (Z.ltb_spec (length la - k) 256); lia).
      pose proof (xch_chunk k (Z.to_nat c) ltac:(lia)) as Hw. rewrite Z2Nat.id in Hw by lia.
      destruct (load_list (xch k) (a + k) (Z.to_nat c)) as [t|]; [simpl in Hw |- *|done].
      destruct (memcpy (xch k) (a + k) (b + k) c) as [[? m1]|]; [simpl in Hw |- *|done]. rewrite Hw. simpl.
      apply wp_ok. split; [|lia]. exists (k + Z.to_nat c)%nat. split_and!; lia || done.
    + exists 0%nat. rewrite H0. split_and!; lia || done.
    + pose proof fuel_big. lia.
Qed.
End Exchange.

(** ** Arrays of elements *)

Abbreviation elt := (list Z).

(** Positions [i] and [j] exchanged. *)
Definition sw (i j : nat) (xs : list elt) : list elt := <[i := xs !!! j]> (<[j := xs !!! i]> xs).

Lemma sw_length i j xs : length (sw i j xs) = length xs.
Proof. unfold sw. by rewrite !length_insert. Qed.

Lemma sw_lookup i j k xs :
  (i < length xs)%nat → (j < length xs)%nat →
  sw i j xs !!! k = if decide (k = i) then xs !!! j else if decide (k = j) then xs !!! i else xs !!! k.
Proof.
  intros. unfold sw. repeat case_decide; subst.
  - apply list_lookup_total_insert_eq. by rewrite length_insert.
  - rewrite list_lookup_total_insert_ne by done. by apply list_lookup_total_insert_eq.
  - by rewrite !list_lookup_total_insert_ne by done.
Qed.

Lemma sw_perm i j xs : (i < length xs)%nat → (j < length xs)%nat → sw i j xs ≡ₚ xs.
Proof.
  intros. apply Permutation_insert_swap; by apply list_lookup_lookup_total_lt.
Qed.

Lemma concat_length (w : nat) (xs : list elt) : Forall (λ x : elt, length x = w) xs → length (concat xs) = (w * length xs)%nat.
Proof.
  induction 1 as [|x xs Hx H IH]; [simpl; lia|]. simpl. rewrite length_app, IH, Hx. lia.
Qed.

Section Array.
Context (c : ctx) (m : mem) (base : Z) (xs0 : list elt) (w : nat).
Context (Hw : c_w c = Z.of_nat w) (Hw0 : (0 < w)%nat).
Context (Hm : mapped m base (w * length xs0)).

(** The memory [m] with the elements [xs] in the array. *)
Definition arr (xs : list elt) : mem := write m base (concat xs).

Record elts (xs : list elt) : Prop := {
  e_len : length xs = length xs0;
  e_w : Forall (λ x, length x = w) xs;
  e_byte : Forall (Forall is_byte) xs;
}.

Lemma elts_total xs i : elts xs → (i < length xs0)%nat → length (xs !!! i) = w ∧ Forall is_byte (xs !!! i).
Proof.
  intros [H1 H2 H3] Hi. rewrite <- H1 in Hi. apply list_lookup_lookup_total_lt in Hi.
  split; [by apply (Forall_lookup_1 _ _ _ _ H2 Hi) | by apply (Forall_lookup_1 _ _ _ _ H3 Hi)].
Qed.

Lemma elts_bytes xs : elts xs → Forall is_byte (concat xs).
Proof. intros [_ _ H]. induction H; [constructor|]. by apply Forall_app. Qed.

Lemma arr_mapped xs p n : mapped m p n → mapped (arr xs) p n.
Proof. apply mapped_write. Qed.

Lemma arr_fuel xs : elts xs → fuel (arr xs) = fuel m.
Proof using All. intros [E1 E2 E3]. apply fuel_write. rewrite (concat_length w), E1 by done. by rewrite Nat2Z.inj_mul. Qed.

Lemma arr_count : (length xs0 < fuel m)%nat.
Proof using All. pose proof (fuel_mapped _ _ _ Hm). nia. Qed.

(** Element [i] is at [base + i * w]. *)
Lemma arr_elt xs i : elts xs → (i < length xs0)%nat → bytes (arr xs) (base + i * w) (xs !!! i).
Proof using All.
  intros Hx Hi. pose proof (e_len _ Hx) as Hl. pose proof Hi as Hi'. rewrite <- Hl in Hi'.
  apply list_lookup_lookup_total_lt in Hi'. pose proof (bytes_write m base (concat xs)) as H.
  rewrite <- (take_drop_middle _ _ _ Hi') in H at 2. rewrite concat_app in H. simpl in H.
  apply bytes_app in H as [_ H]. apply bytes_app in H as [H _].
  rewrite (concat_length w), length_take_le in H by (lia || apply Forall_take, (e_w _ Hx)).
  by replace (base + i * w) with (base + (w * i)%nat) by lia.
Qed.

Lemma sw_elts xs i j : elts xs → (i < length xs0)%nat → (j < length xs0)%nat → elts (sw i j xs).
Proof using All.
  intros Hx Hi Hj. pose proof (e_len _ Hx).
  split; [by rewrite sw_length|..]; (rewrite sw_perm by lia; apply Hx).
Qed.

(** Writing element [i]. *)
Lemma arr_set xs i x :
  elts xs → (i < length xs0)%nat → length x = w →
  write (arr xs) (base + i * w) x = arr (<[i := x]> xs).
Proof using All.
  intros Hx Hi Hxw. pose proof (e_len _ Hx) as Hl. unfold arr.
  assert (∃ y, xs !! i = Some y) as [y Hy] by (apply lookup_lt_is_Some; lia).
  rewrite insert_take_drop by lia. rewrite <- (take_drop_middle _ _ _ Hy) at 1.
  rewrite !concat_app. simpl. rewrite !write_app.
  assert (Forall (λ x, length x = w) (take i xs)) as Ht by (apply Forall_take, (e_w _ Hx)).
  rewrite (concat_length w _ Ht), length_take_le by lia.
  pose proof (Forall_lookup_1 _ _ _ _ (e_w _ Hx) Hy) as Hyw. simpl in Hyw. rewrite Hyw, Hxw.
  replace (base + (w * i)%nat) with (base + i * w) by lia.
  apply map_eq. intros k. rewrite !lookup_write, Hyw, Hxw. repeat case_decide; done || lia.
Qed.

Lemma swap_arr xs i j :
  elts xs → (i < length xs0)%nat → (j < length xs0)%nat →
  swap (arr xs) (base + i * w) (base + j * w) w = Ok (arr (sw i j xs)).
Proof using All.
  intros Hx Hi Hj. destruct (elts_total xs i Hx Hi) as [Hli Hbi]. destruct (elts_total xs j Hx Hj) as [Hlj Hbj].
  pose proof (e_len _ Hx). destruct (decide (i = j)) as [->|Hne].
  { unfold swap. rewrite Z.eqb_refl. unfold sw. rewrite list_insert_insert_eq, list_insert_id; [done|].
    apply list_lookup_lookup_total_lt. lia. }
  rewrite <- Hli at 3. rewrite (swap_disjoint (arr xs) _ _ (xs !!! i) (xs !!! j));
    [|by apply arr_elt|by apply arr_elt|lia| |done|done].
  - f_equal. rewrite arr_set by done. unfold arr. unfold sw.
    rewrite (list_insert_insert_ne _ i j) by done.
    pose proof (arr_set (<[i := xs !!! j]> xs) j (xs !!! i)) as Hs. unfold arr in Hs. apply Hs; [|done|done].
    split; [by rewrite length_insert | by apply Forall_insert; [apply Hx|] | by apply Forall_insert; [apply Hx|]].
  - rewrite Hli. nia.
Qed.

Lemma CMP_arr xs i j :
  elts xs → (i < length xs0)%nat → (j < length xs0)%nat →
  CMP c (arr xs) (base + i * w) (base + j * w) = Ok (c_cmp c (xs !!! i) (xs !!! j)).
Proof using All.
  intros Hx Hi Hj. unfold CMP. rewrite Hw, Nat2Z.id.
  destruct (elts_total xs i Hx Hi) as [Hli _]. destruct (elts_total xs j Hx Hj) as [Hlj _].
  pose proof (load_list_ok _ _ _ (arr_elt xs i Hx Hi)) as H1. rewrite Hli in H1.
  pose proof (load_list_ok _ _ _ (arr_elt xs j Hx Hj)) as H2. rewrite Hlj in H2.
  by rewrite H1; simpl; rewrite H2.
Qed.
End Array.

(** What the C standard asks of a comparison function: it orders the
    elements consistently. *)
Class Comparator (cmp : elt → elt → Z) : Prop := {
  cmp_neg : ∀ x y, cmp x y < 0 ↔ 0 < cmp y x;
  cmp_trans : ∀ x y z, cmp x y <= 0 → cmp y z <= 0 → cmp x z <= 0;
}.

(** Indices as the C code has them. *)
Definition zat (xs : list elt) (i : Z) : elt := xs !!! Z.to_nat i.
Definition zsw (i j : Z) (xs : list elt) : list elt := sw (Z.to_nat i) (Z.to_nat j) xs.

Lemma zat_sw i j k xs :
  0 <= i < length xs → 0 <= j < length xs → 0 <= k →
  zat (zsw i j xs) k = if decide (k = i) then zat xs j else if decide (k = j) then zat xs i else zat xs k.
Proof.
  intros Hi Hj Hk. unfold zat, zsw. rewrite sw_lookup by lia.
  repeat case_decide; try lia; done.
Qed.

Definition cle (cmp : elt → elt → Z) (x y : elt) : Prop := cmp x y <= 0.

Section Order.
Context (cmp : elt → elt → Z) `{HC : !Comparator cmp}.
Local Abbreviation le := (cle cmp).

Lemma le_refl x : le x x.
Proof using HC. unfold cle. pose proof (cmp_neg x x). lia. Qed.

Lemma le_trans x y z : le x y → le y z → le x z.
Proof using HC. apply cmp_trans. Qed.

Lemma le_flip x y : 0 < cmp x y ∨ 0 <= cmp x y → le y x.
Proof using HC. unfold cle. pose proof (cmp_neg x y). pose proof (cmp_neg y x). lia. Qed.
End Order.

Section Algorithms.
Context (c : ctx) (m : mem) (base : Z) (xs0 : list elt) (w : nat).
Context (Hw : c_w c = Z.of_nat w) (Hw0 : (0 < w)%nat).
Context (Hm : mapped m base (w * length xs0)).
Context `{HC : !Comparator (c_cmp c)}.

Local Abbreviation N := (Z.of_nat (length xs0)).
Local Abbreviation A := (arr m base).
Local Abbreviation cmp := (c_cmp c).
Local Abbreviation le := (cle (c_cmp c)).

(** A rearrangement of the elements. *)
Definition rearr (ys : list elt) : Prop := elts xs0 w ys ∧ ys ≡ₚ xs0.

Lemma rearr_len ys : rearr ys → Z.of_nat (length ys) = N.
Proof. intros [[E _ _] _]. by rewrite E. Qed.

Lemma CMP_at ys i j :
  rearr ys → 0 <= i < N → 0 <= j < N →
  CMP c (A ys) (base + i * c_w c) (base + j * c_w c) = Ok (cmp (zat ys i) (zat ys j)).
Proof using Hw Hw0 Hm.
  intros [He _] Hi Hj. rewrite Hw. unfold zat. rewrite <- (CMP_arr c m base xs0 w) by (done || lia).
  by rewrite !Z2Nat.id by lia.
Qed.

Lemma swap_at ys i j :
  rearr ys → 0 <= i < N → 0 <= j < N →
  swap (A ys) (base + i * c_w c) (base + j * c_w c) (c_w c) = Ok (A (zsw i j ys)) ∧ rearr (zsw i j ys).
Proof using Hw Hw0 Hm.
  intros [He Hp] Hi Hj. pose proof (e_len _ _ _ He). rewrite Hw. unfold zsw. split.
  - rewrite <- (swap_arr c m base xs0 w) by (done || lia). by rewrite !Z2Nat.id by lia.
  - split; [eapply (sw_elts c m base); done || lia|]. rewrite sw_perm by lia. done.
Qed.

Lemma A_fuel ys : rearr ys → fuel (A ys) = fuel m.
Proof using Hw Hw0 Hm. intros [He _]. by eapply (arr_fuel c m base xs0 w). Qed.

Lemma N_fuel : N < fuel m.
Proof using Hw Hw0 Hm. pose proof (arr_count c m base xs0 w Hw Hw0 Hm). lia. Qed.

(** Elements [lo] to [hi - 1] are in order. *)
Definition sorted_range (lo hi : Z) (ys : list elt) : Prop :=
  ∀ p q, lo <= p → p < q → q < hi → le (zat ys p) (zat ys q).

(** *** Insertion sort *)

Lemma insert_inner ys i :
  rearr ys → 0 < i < N → sorted_range 0 i ys →
  wp (loop (fuel (A ys)) (λ '(m, j),
        if j =? 0 then Ok (Brk m) else
        r ← CMP c m (base + (j - 1) * c_w c) (base + j * c_w c);
        if 0 <? r then
          m ← swap m (base + (j - 1) * c_w c) (base + j * c_w c) (c_w c);
          Ok (Cont (m, j - 1))
        else Ok (Brk m)) (A ys, i))
    (λ m', ∃ zs, m' = A zs ∧ rearr zs ∧ sorted_range 0 (i + 1) zs).
Proof using All.
  intros Hr Hi Hs.
  apply (wp_loop (λ '(m', j), ∃ zs, m' = A zs ∧ rearr zs ∧ 0 <= j <= i ∧
      ∀ p q, 0 <= p → p < q → q <= i → q ≠ j → le (zat zs p) (zat zs q)) (λ '(_, j), Z.to_nat j)).
  - intros [m' j] (zs & -> & Hz & Hj & Hinv). destruct (Z.eqb_spec j 0) as [->|Hj0].
    { wp_pure. exists zs. split_and!; [done..|]. intros p q ???. apply Hinv; lia. }
    wp_pure. wp_use (CMP_at zs (j - 1) j Hz ltac:(lia) ltac:(lia)). destruct (Z.ltb_spec 0 (cmp (zat zs (j - 1)) (zat zs j))) as [Hc|Hc].
    + wp_pure. destruct (swap_at zs (j - 1) j Hz) as [E Hz']; [lia..|]. wp_use E. wp_pure.
      split; [|lia]. eexists. split_and!; [done..|lia|lia|]. intros p q Hp Hpq Hq Hqj.
      pose proof (rearr_len _ Hz). assert (le (zat zs j) (zat zs (j - 1))) by (apply (le_flip cmp); lia).
      rewrite !zat_sw by lia. repeat case_decide; subst; try lia; try done; apply Hinv; lia.
    + wp_pure. exists zs. split_and!; [done..|]. intros p q ???. destruct (decide (q = j)) as [->|].
      * destruct (decide (p = j - 1)) as [->|]; [unfold cle; lia|]. apply (le_trans cmp) with (zat zs (j - 1)); [|unfold cle; lia].
        apply Hinv; lia.
      * apply Hinv; lia.
  - exists ys. split_and!; [done..|lia|lia|]. intros p q ????. apply Hs; lia.
  - rewrite (A_fuel _ Hr). pose proof N_fuel. lia.
Qed.

Lemma insertion_ok ys :
  rearr ys → wp (insertion (A ys) base N c) (λ m', ∃ zs, m' = A zs ∧ rearr zs ∧ sorted_range 0 N zs).
Proof using All.
  intros Hr. unfold insertion.
  apply (wp_loop (λ '(m', i), ∃ zs, m' = A zs ∧ rearr zs ∧ 1 <= i ∧ sorted_range 0 i zs)
    (λ '(_, i), Z.to_nat (N - i))).
  - intros [m' i] (zs & -> & Hz & Hi & Hs). destruct (Z.ltb_spec i N).
    + wp_pure. eapply wp_mono; [by apply insert_inner; [..|lia|]|].
      intros m'' (zs' & -> & Hz' & Hs'). wp_pure. split; [|lia]. exists zs'. split_and!; done || lia.
    + wp_pure. exists zs. split_and!; [done..|]. intros p q ???. apply Hs; lia.
  - exists ys. split_and!; [done..|lia|]. intros p q ???. lia.
  - rewrite (A_fuel _ Hr). pose proof N_fuel. lia.
Qed.

(** *** Heap sort *)

Definition child_of (k ch : Z) : Prop := ch = 2 * k + 1 ∨ ch = 2 * k + 2.

(** Node [k] of the heap of [n] elements is not below its children. *)
Definition heap_at (n : Z) (ys : list elt) (k : Z) : Prop :=
  ∀ ch, child_of k ch → ch < n → le (zat ys ch) (zat ys k).

(** [zs] differs from [ys] only in the order of the elements from [r] to
    [n - 1]. *)
Definition moved (r n : Z) (ys zs : list elt) : Prop :=
  (∀ k, 0 <= k → k < r ∨ n <= k → zat zs k = zat ys k) ∧
  (∀ P : elt → Prop, (∀ k, r <= k → k < n → P (zat ys k)) → ∀ k, r <= k → k < n → P (zat zs k)).

Lemma moved_refl r n ys : moved r n ys ys.
Proof. done. Qed.

Lemma moved_trans r n ys zs us : moved r n ys zs → moved r n zs us → moved r n ys us.
Proof. intros [H1 H2] [H3 H4]. split; [|intros P HP; by apply H4, H2]. intros k ??. rewrite H3 by done. by apply H1. Qed.

Lemma moved_sw r n ys i j :
  rearr ys → 0 <= r → n <= N → r <= i < n → r <= j < n → moved r n ys (zsw i j ys).
Proof.
  intros Hr%rearr_len ????. split.
  - intros k ??. rewrite zat_sw by lia. by repeat case_decide; try lia.
  - intros P HP k ??. rewrite zat_sw by lia. repeat case_decide; apply HP; lia.
Qed.

(** The child that sift compares the root with. *)
Lemma sift_child ys root n :
  rearr ys → 0 <= root → n <= N → 2 * root + 1 < n →
  wp (if 2 * root + 1 + 1 <? n then
        r ← CMP c (A ys) (base + (2 * root + 1) * c_w c) (base + (2 * root + 1 + 1) * c_w c);
        Ok (if r <? 0 then 2 * root + 1 + 1 else 2 * root + 1)
      else Ok (2 * root + 1))
    (λ ch, child_of root ch ∧ ch < n ∧ ∀ ch', child_of root ch' → ch' < n → le (zat ys ch') (zat ys ch)).
Proof using All.
  intros Hr H0 Hn Hlt. unfold child_of. destruct (Z.ltb_spec (2 * root + 1 + 1) n).
  - wp_pure. wp_use (CMP_at ys (2 * root + 1) (2 * root + 1 + 1) Hr ltac:(lia) ltac:(lia)). wp_pure.
    set (x := zat ys (2 * root + 1)). set (y := zat ys (2 * root + 1 + 1)).
    destruct (Z.ltb_spec (cmp x y) 0); (split_and!; [lia | lia|]);
      intros ch' [-> | ->] ?; fold x; replace (2 * root + 2) with (2 * root + 1 + 1) by lia; fold y;
      try apply (le_refl cmp); [unfold cle; lia | apply (le_flip cmp); lia].
  - wp_pure. split_and!; [lia | lia|]. intros ch' [-> | ->] ?; [apply (le_refl cmp) | lia].
Qed.

Lemma sift_ok ys r n :
  rearr ys → 0 <= r → n <= N → (∀ k, r < k → heap_at n ys k) →
  wp (sift (A ys) base r n c) (λ m', ∃ zs, m' = A zs ∧ rearr zs ∧ moved r n ys zs ∧ ∀ k, r <= k → heap_at n zs k).
Proof using All.
  intros Hr H0 Hn Hh. unfold sift.
  apply (wp_loop (λ '(m', t), ∃ zs, m' = A zs ∧ rearr zs ∧ moved r n ys zs ∧ r <= t ∧
      (∀ k, r <= k → k ≠ t → heap_at n zs k) ∧
      (∀ p ch, r <= p → child_of p t → child_of t ch → ch < n → le (zat zs ch) (zat zs p)))
    (λ '(_, t), Z.to_nat (N - t))).
  - intros [m' t] (zs & -> & Hz & Hmv & Ht & Hheap & Hpar). cbv zeta. pose proof (rearr_len _ Hz).
    destruct (Z.leb_spec n (2 * t + 1)).
    { wp_pure. exists zs. split_and!; [done..|]. intros k Hk. destruct (decide (k = t)) as [->|]; [|by apply Hheap].
      intros ch [-> | ->] ?; lia. }
    apply wp_bind. eapply wp_mono; [apply sift_child; done || lia|]. intros ch (Hch & Hchn & Hmax).
    assert (t < ch) by (unfold child_of in Hch; lia).
    wp_pure. wp_use (CMP_at zs t ch Hz ltac:(lia) ltac:(lia)).
    destruct (Z.leb_spec 0 (cmp (zat zs t) (zat zs ch))) as [Hc|Hc].
    + wp_pure. exists zs. split_and!; [done..|]. intros k Hk. destruct (decide (k = t)) as [->|]; [|by apply Hheap].
      intros ch' ??. apply (le_trans cmp) with (zat zs ch); [by apply Hmax | by apply (le_flip cmp); right].
    + wp_pure. destruct (swap_at zs t ch Hz) as [E Hz']; [lia..|]. wp_use E. wp_pure.
      split; [|lia]. exists (zsw t ch zs). split_and!; [done..| | lia | |].
      * eapply moved_trans; [done | apply moved_sw; done || lia].
      * intros k Hk Hkc ch' Hch' Hn'. unfold child_of in *.
        rewrite !zat_sw by lia. repeat case_decide; subst; try lia.
        -- apply (Hpar k ch); unfold child_of; done || lia.
        -- unfold cle; lia.
        -- apply Hmax; unfold child_of; lia.
        -- apply Hheap; unfold child_of; lia.
      * intros p ch' Hp Hpc Hch' Hn'. assert (p = t) as -> by (unfold child_of in *; lia).
        assert (ch < ch') by (unfold child_of in *; lia).
        rewrite !zat_sw by lia. repeat case_decide; subst; try lia. apply Hheap; done || lia.
  - exists ys. split_and!; [done..|lia| |].
    + intros k ??. apply Hh. lia.
    + intros p ch ? Hp. unfold child_of in *. lia.
  - rewrite (A_fuel _ Hr). pose proof N_fuel. lia.
Qed.

(** The root of a heap is its greatest element. *)
Lemma heap_max ys n : (∀ k, 0 <= k → heap_at n ys k) → ∀ k, 0 <= k → k < n → le (zat ys k) (zat ys 0).
Proof using HC.
  clear Hw Hw0 Hm. intros Hh k Hk. pattern k. apply Z_lt_induction; [|done]. clear k Hk. intros k IH Hkn.
  destruct (decide (k <= 0)) as [|Hk].
  - assert (k = 0 ∨ k < 0) as [-> | ?] by lia; [apply (le_refl cmp)|].
    unfold zat. replace (Z.to_nat k) with 0%nat by lia. apply (le_refl cmp).
  - apply (le_trans cmp) with (zat ys ((k - 1) / 2)).
    + apply Hh; [zdiv | unfold child_of; zdiv | done].
    + apply IH; [zdiv | zdiv].
Qed.

Lemma heapsort_ok ys :
  rearr ys → wp (heapsort_ (A ys) base N c) (λ m', ∃ zs, m' = A zs ∧ rearr zs ∧ sorted_range 0 N zs).
Proof using All.
  intros Hr. unfold heapsort_. pose proof N_fuel. apply wp_bind.
  apply wp_mono with (λ m', ∃ zs, m' = A zs ∧ rearr zs ∧ ∀ k, 0 <= k → heap_at N zs k).
  - apply (wp_loop (λ '(m', i), ∃ zs, m' = A zs ∧ rearr zs ∧ 0 <= i ∧ ∀ k, i <= k → heap_at N zs k)
      (λ '(_, i), Z.to_nat i)).
    + intros [m' i] (zs & -> & Hz & Hi & Hh). destruct (Z.ltb_spec 0 i).
      * wp_pure. eapply wp_mono; [apply sift_ok; done || lia || (intros; apply Hh; lia)|].
        intros m'' (us & -> & Hu & _ & Hh'). wp_pure. split; [|lia]. exists us. split_and!; done || lia.
      * wp_pure. exists zs. split_and!; [done..|]. intros. apply Hh. lia.
    + exists ys. split_and!; [done..|zdiv|]. intros k ? ch ??. unfold child_of in *. zdiv.
    + rewrite (A_fuel _ Hr). zdiv.
  - intros m' (zs & -> & Hz & Hh).
    apply (wp_loop (λ '(m', e), ∃ us, m' = A us ∧ rearr us ∧ 0 <= e <= N ∧ (∀ k, 0 <= k → heap_at e us k) ∧
        sorted_range e N us ∧ (∀ k q, 0 <= k → k < e → e <= q → q < N → le (zat us k) (zat us q)))
      (λ '(_, e), Z.to_nat e)).
    + intros [m'' e] (us & -> & Hu & He & Hhe & Hs & Hle). destruct (Z.ltb_spec 1 e).
      * wp_pure. pose proof (rearr_len _ Hu).
        destruct (swap_at us 0 (e - 1) Hu) as [E Hu']; [lia..|]. rewrite Z.mul_0_l, Z.add_0_r in E. wp_use E.
        apply wp_bind. pose proof (heap_max us e Hhe) as Hmax.
        eapply wp_mono; [apply sift_ok; [done | lia | lia|]|].
        { intros k Hk ch Hch Hlt. unfold child_of in *. rewrite !zat_sw by lia.
          repeat case_decide; subst; try lia. apply Hhe; unfold child_of; lia. }
        intros m3 (vs & -> & Hv & [Hf HP] & Hh'). wp_pure. split; [|lia]. exists vs.
        assert (∀ q, e - 1 <= q → q < N → zat vs q = if decide (q = e - 1) then zat us 0 else zat us q) as Hq.
        { intros q ??. rewrite Hf, zat_sw by lia. by repeat case_decide; try lia; subst. }
        split_and!; [done | done | lia | lia | intros; apply Hh'; lia | |].
        -- intros p q ???. rewrite !Hq by lia. repeat case_decide; subst; try lia; [apply Hle; lia | apply Hs; lia].
        -- intros k q Hk1 Hk2 Hq1 Hq2. revert k Hk1 Hk2. apply (HP (λ x, le x (zat vs q))). intros k Hk1 Hk2.
           rewrite Hq, zat_sw by lia. repeat case_decide; subst; try lia; try (apply Hmax; lia); apply Hle; lia.
      * wp_pure. exists us. split_and!; [done..|]. intros p q ???. destruct (decide (e <= p)); [apply Hs; lia|].
        apply Hle; lia.
    + exists zs. split_and!; [done..|lia|lia|done| |]; intros ????; lia.
    + rewrite (A_fuel _ Hz). lia.
Qed.

(** *** Partition *)

Lemma swap0_at ys j :
  rearr ys → 0 < N → 0 <= j < N →
  swap (A ys) base (base + j * c_w c) (c_w c) = Ok (A (zsw 0 j ys)) ∧ rearr (zsw 0 j ys).
Proof using Hw Hw0 Hm.
  intros Hr ??. destruct (swap_at ys 0 j Hr) as [E HE]; [lia..|]. by rewrite Z.mul_0_l, Z.add_0_r in E.
Qed.

Lemma CMP0_at ys j :
  rearr ys → 0 < N → 0 <= j < N →
  CMP c (A ys) (base + j * c_w c) base = Ok (cmp (zat ys j) (zat ys 0)).
Proof using Hw Hw0 Hm.
  intros Hr ??. pose proof (CMP_at ys j 0 Hr) as E. rewrite Z.mul_0_l, Z.add_0_r in E. apply E; lia.
Qed.

Lemma median3_ok ys :
  rearr ys → 0 < N → wp (median3 (A ys) base N c) (λ m', ∃ zs, m' = A zs ∧ rearr zs).
Proof using All.
  intros Hr HN. unfold median3. cbv zeta.
  assert (0 <= N / 2 < N) as Hmid by zdiv. assert (0 <= N - 1 < N) as Hhi by lia.
  assert (∀ us (b : bool) i j, rearr us → 0 <= i < N → 0 <= j < N →
    wp (if b then swap (A us) (base + i * c_w c) (base + j * c_w c) (c_w c) else Ok (A us))
       (λ m', ∃ zs, m' = A zs ∧ rearr zs)) as Hcs.
  { intros us [] i j Hu Hi Hj; [|apply wp_ok; eauto].
    destruct (swap_at us i j Hu Hi Hj) as [-> ?]. apply wp_ok. eauto. }
  assert (∀ us (b : bool) i, rearr us → 0 <= i < N →
    wp (if b then swap (A us) (base + i * c_w c) base (c_w c) else Ok (A us))
       (λ m', ∃ zs, m' = A zs ∧ rearr zs)) as Hcs0.
  { intros us b i Hu Hi. pose proof (Hcs us b i 0 Hu Hi ltac:(lia)) as H. by rewrite Z.mul_0_l, Z.add_0_r in H. }
  wp_pure. wp_use (CMP0_at ys _ Hr HN Hmid). wp_pure. eapply wp_mono; [by apply Hcs0|].
  intros m1 (y1 & -> & H1). wp_pure. wp_use (CMP_at y1 _ _ H1 Hhi Hmid). wp_pure.
  eapply wp_mono with (P := λ m', ∃ zs, m' = A zs ∧ rearr zs).
  - case_match; [|apply wp_ok; eauto].
    wp_pure. destruct (swap_at y1 _ _ H1 Hhi Hmid) as [E H2]. wp_use E. wp_pure.
    wp_use (CMP0_at _ _ H2 HN Hmid). by apply Hcs0.
  - intros m2 (y2 & -> & H2). destruct (swap0_at y2 _ H2 HN Hmid) as [E H3]. wp_use E. eauto.
Qed.

Lemma scan_up ys i :
  rearr ys → 0 <= i < N →
  wp (loop (fuel (A ys)) (λ i,
        let i := i + 1 in
        if i <? N then
          r ← CMP c (A ys) (base + i * c_w c) base;
          if r <? 0 then Ok (Cont i) else Ok (Brk i)
        else Ok (Brk i)) i)
    (λ i', i < i' <= N ∧ (i' < N → le (zat ys 0) (zat ys i')) ∧
           ∀ k, i < k → k < i' → le (zat ys k) (zat ys 0)).
Proof using All.
  intros Hr Hi.
  apply (wp_loop (λ j, i <= j < N ∧ ∀ k, i < k → k <= j → le (zat ys k) (zat ys 0))
    (λ j, Z.to_nat (N - j))).
  - intros j [Hj Hall]. cbv zeta. destruct (Z.ltb_spec (j + 1) N).
    + wp_pure. wp_use (CMP0_at ys (j + 1) Hr ltac:(lia) ltac:(lia)).
      destruct (Z.ltb_spec (cmp (zat ys (j + 1)) (zat ys 0)) 0); wp_pure.
      * split; [|lia]. split; [lia|]. intros k ??. destruct (decide (k = j + 1)) as [->|]; [unfold cle; lia|].
        apply Hall; lia.
      * split_and!; [lia | lia | intros; by apply (le_flip cmp); right|]. intros k ??. apply Hall; lia.
    + wp_pure. split_and!; [lia | lia | lia|]. intros k ??. apply Hall; lia.
  - split; [lia|]. intros k ??. lia.
  - rewrite (A_fuel _ Hr). pose proof N_fuel. lia.
Qed.

(** The downward scan has no bound check: the pivot itself stops it. *)
Lemma scan_down ys j :
  rearr ys → 0 < j <= N →
  wp (loop (fuel (A ys)) (λ j,
        let j := j - 1 in
        r ← CMP c (A ys) (base + j * c_w c) base;
        if 0 <? r then Ok (Cont j) else Ok (Brk j)) j)
    (λ j', 0 <= j' < j ∧ le (zat ys j') (zat ys 0) ∧
           ∀ k, j' < k → k < j → le (zat ys 0) (zat ys k)).
Proof using All.
  intros Hr Hj.
  apply (wp_loop (λ i, 0 < i <= j ∧ ∀ k, i <= k → k < j → le (zat ys 0) (zat ys k)) (λ i, Z.to_nat i)).
  - intros i [Hi Hall]. cbv zeta. wp_pure. wp_use (CMP0_at ys (i - 1) Hr ltac:(lia) ltac:(lia)).
    destruct (Z.ltb_spec 0 (cmp (zat ys (i - 1)) (zat ys 0))); wp_pure.
    + assert (i - 1 ≠ 0).
      { intros E. rewrite E in *. pose proof (cmp_neg (zat ys 0) (zat ys 0)). lia. }
      split; [|lia]. split; [lia|]. intros k ??. destruct (decide (k = i - 1)) as [->|]; [by apply (le_flip cmp); left|].
      apply Hall; lia.
    + split_and!; [lia | lia | done|]. intros k ??. apply Hall; lia.
  - split; [lia|]. intros k ??. lia.
  - rewrite (A_fuel _ Hr). pose proof N_fuel. lia.
Qed.

Lemma partition_ok ys :
  rearr ys → 0 < N →
  wp (partition (A ys) base N c) (λ '(m', j), ∃ zs, m' = A zs ∧ rearr zs ∧ 0 <= j < N ∧
    (∀ k, 0 <= k → k < j → le (zat zs k) (zat zs j)) ∧
    (∀ k, j < k → k < N → le (zat zs j) (zat zs k))).
Proof using All.
  intros Hr HN. unfold partition. apply wp_bind.
  apply wp_mono with (λ '(m', j), ∃ zs, m' = A zs ∧ rearr zs ∧ 0 <= j < N ∧ le (zat zs j) (zat zs 0) ∧
    (∀ k, 1 <= k → k < j → le (zat zs k) (zat zs 0)) ∧ (∀ k, j < k → k < N → le (zat zs 0) (zat zs k))).
  - apply (wp_loop (λ '(m', i, j), ∃ zs, m' = A zs ∧ rearr zs ∧ 0 <= i < j ∧ j <= N ∧
        (∀ k, 1 <= k → k <= i → le (zat zs k) (zat zs 0)) ∧ (∀ k, j <= k → k < N → le (zat zs 0) (zat zs k)))
      (λ '(_, _, j), Z.to_nat j)).
    + intros [[m' i] j] (zs & -> & Hz & Hij & HjN & Hlo & Hhi). wp_pure.
      eapply wp_mono; [apply scan_up; done || lia|]. intros i' (Hi' & Hige & Hilt). wp_pure.
      eapply wp_mono; [apply scan_down; done || lia|]. intros j' (Hj' & Hjle & Hjgt).
      destruct (Z.leb_spec j' i').
      * wp_pure. exists zs. split_and!; [done | done | lia | lia | done | |].
        -- intros k ??. destruct (decide (k <= i)); [apply Hlo; lia | apply Hilt; lia].
        -- intros k ??. destruct (decide (k < j)); [apply Hjgt; lia | apply Hhi; lia].
      * wp_pure. destruct (swap_at zs i' j' Hz) as [E Hz']; [lia..|]. wp_use E. wp_pure.
        pose proof (rearr_len _ Hz). split; [|lia]. exists (zsw i' j' zs). split_and!; [done | done | lia | lia | lia | |].
        -- intros k ??. rewrite !zat_sw by lia. repeat case_decide; subst; try lia; [done|].
           destruct (decide (k <= i)); [apply Hlo; lia | apply Hilt; lia].
        -- intros k ??. rewrite !zat_sw by lia. repeat case_decide; subst; try lia; [by apply Hige; lia|].
           destruct (decide (k < j)); [apply Hjgt; lia | apply Hhi; lia].
    + exists ys. split_and!; [done | done | lia | lia | lia | |]; intros ???; lia.
    + rewrite (A_fuel _ Hr). pose proof N_fuel. lia.
  - intros [m' j] (zs & -> & Hz & Hj & Hjle & Hlo & Hhi). wp_pure.
    destruct (swap0_at zs j Hz HN Hj) as [E Hz']. wp_use E. wp_pure. pose proof (rearr_len _ Hz).
    exists (zsw 0 j zs). split_and!; [done | done | lia | lia | |].
    + intros k ??. rewrite !zat_sw by lia. repeat case_decide; subst; try lia; try done. apply Hlo; lia.
    + intros k ??. rewrite !zat_sw by lia. repeat case_decide; subst; try lia; try done; apply Hhi; lia.
Qed.
End Algorithms.

(** ** The whole sort *)

(** A list of [w]-byte elements. *)
Definition welts (w : nat) (xs : list elt) : Prop :=
  Forall (λ x, length x = w ∧ Forall is_byte x) xs.

Lemma welts_elts w xs : welts w xs → elts xs w xs.
Proof. intros [H1 H2]%Forall_and. by split. Qed.

Lemma welts_perm w xs ys : ys ≡ₚ xs → welts w xs → welts w ys.
Proof. unfold welts. by intros ->. Qed.

Lemma welts_length w xs : welts w xs → length (concat xs) = (w * length xs)%nat.
Proof. intros [H _]%Forall_and. by apply concat_length. Qed.

Lemma strongly_sorted_lookup {X} (R : X → X → Prop) l :
  (∀ i j x y, (i < j)%nat → l !! i = Some x → l !! j = Some y → R x y) → StronglySorted R l.
Proof.
  induction l as [|a l IH]; intros H; [constructor|]. apply StronglySorted_cons. split.
  - apply Forall_lookup_2. intros i x Hi. apply (H 0%nat (S i)); [lia | done | done].
  - apply IH. intros i j x y Hij Hi Hj. apply (H (S i) (S j)); [lia | done | done].
Qed.

Lemma zat_lookup xs i x : xs !! i = Some x → zat xs (Z.of_nat i) = x.
Proof. intros H. unfold zat. rewrite Nat2Z.id. by apply list_lookup_total_correct. Qed.

Lemma sorted_range_sorted c xs :
  sorted_range c 0 (length xs) xs → StronglySorted (cle (c_cmp c)) xs.
Proof.
  intros H. apply strongly_sorted_lookup. intros i j x y Hij Hi Hj.
  rewrite <- (zat_lookup _ _ _ Hi), <- (zat_lookup _ _ _ Hj).
  apply lookup_lt_Some in Hi, Hj. apply H; lia.
Qed.

(** Replacing a part of what was written. *)
Lemma write_sub m p a b b' z q :
  length b = length b' → q = p + length a →
  write (write m p (a ++ b ++ z)) q b' = write m p (a ++ b' ++ z).
Proof.
  intros Hb ->. rewrite !write_app, Hb. apply map_eq. intros i. rewrite !lookup_write, Hb.
  repeat case_decide; done || lia.
Qed.

Section Introsort.
Context (c : ctx) (w : nat) (Hw : c_w c = Z.of_nat w) (Hw0 : (0 < w)%nat).
Context `{HC : !Comparator (c_cmp c)}.

Definition sorts (M : mem) (base : Z) (xs : list elt) (M' : mem) : Prop :=
  ∃ ys, M' = write M base (concat ys) ∧ ys ≡ₚ xs ∧ StronglySorted (cle (c_cmp c)) ys.

Lemma array_ctx M base xs :
  bytes M base (concat xs) → welts w xs →
  mapped M base (w * length xs) ∧ rearr xs w xs ∧ M = arr M base xs.
Proof using Hw Hw0.
  intros Hb He. split_and!.
  - apply bytes_mapped in Hb. rewrite (welts_length w) in Hb by done. by rewrite Nat2Z.inj_mul in Hb.
  - split; [by apply welts_elts | done].
  - unfold arr. by rewrite write_self.
Qed.

(** Sorting what is left of the pivot and what is right of it sorts the
    whole. *)
Lemma sorts_join M base L p R M1 M2 :
  bytes M base (concat (L ++ p :: R)) → welts w (L ++ p :: R) →
  Forall (λ x, cle (c_cmp c) x p) L → Forall (λ x, cle (c_cmp c) p x) R →
  (sorts M base L M1 ∧ sorts M1 (base + (length L + 1) * w) R M2) ∨
  (sorts M (base + (length L + 1) * w) R M1 ∧ sorts M1 base L M2) →
  sorts M base (L ++ p :: R) M2.
Proof using All.
  intros Hb He HL HR Hs. pose proof He as HeA. apply Forall_app in HeA as [HeL [[Hpw _] HeR]%Forall_cons].
  assert (∃ L' R', L' ≡ₚ L ∧ R' ≡ₚ R ∧ StronglySorted (cle (c_cmp c)) L' ∧ StronglySorted (cle (c_cmp c)) R' ∧
    M2 = write M base (concat (L' ++ p :: R'))) as (L' & R' & HL' & HR' & HsL & HsR & ->).
  { rewrite concat_app in *. simpl in *. rewrite <- (write_self _ _ _ Hb) in Hs.
    pose proof (welts_length w L HeL) as HlL. 
    destruct Hs as [[(L' & -> & HL' & HsL) (R' & -> & HR' & HsR)]|[(R' & -> & HR' & HsR) (L' & -> & HL' & HsL)]];
      exists L', R'; (split_and!; [done..|]);
      pose proof (welts_length w L' (welts_perm _ _ _ HL' HeL)) as HlL';
      pose proof (welts_length w R' (welts_perm _ _ _ HR' HeR)) as HlR';
      pose proof (welts_length w R HeR) as HlR;
      rewrite (Permutation_length HL') in HlL'; rewrite (Permutation_length HR') in HlR';
      rewrite concat_app; simpl.
    - pose proof (write_sub M base [] (concat L) (concat L') (p ++ concat R) base) as E1. simpl in E1.
      rewrite E1 by lia. rewrite !app_assoc. rewrite <- (app_nil_r (_ ++ concat R)), <- (app_nil_r (_ ++ concat R')), <- !app_assoc.
      rewrite (app_assoc (concat L') p (concat R ++ [])), (app_assoc (concat L') p (concat R' ++ [])).
      apply write_sub; [lia|]. rewrite length_app. lia.
    - pose proof (write_sub M base (concat L ++ p) (concat R) (concat R') [] (base + (length L + 1) * w)) as E1.
      rewrite !app_nil_r, <- !app_assoc in E1. rewrite E1; [|lia|rewrite length_app; lia].
      apply (write_sub M base [] (concat L) (concat L') (p ++ concat R') base); simpl; lia. }
  exists (L' ++ p :: R'). split_and!; [done | by rewrite HL', HR'|].
  rewrite <- HL' in HL. rewrite <- HR' in HR. rewrite Forall_forall in HL, HR.
  apply StronglySorted_app_2; [|done | apply StronglySorted_cons; split; [by apply Forall_forall | done]].
  intros x y Hx [-> | Hy]%elem_of_cons; [by apply HL|]. apply cmp_trans with p; [by apply HL | by apply HR].
Qed.

(** The pivot splits the array. *)
Lemma partition_split M base xs :
  bytes M base (concat xs) → welts w xs → (0 < length xs)%nat →
  wp (partition M base (length xs) c) (λ '(M', j), ∃ L p R,
    L ++ p :: R ≡ₚ xs ∧ j = Z.of_nat (length L) ∧ M' = write M base (concat (L ++ p :: R)) ∧
    Forall (λ x, cle (c_cmp c) x p) L ∧ Forall (λ x, cle (c_cmp c) p x) R).
Proof using All.
  intros Hb He Hn. destruct (array_ctx M base xs Hb He) as (Hm & Hr & Ha). rewrite Ha at 1.
  eapply wp_mono; [by apply (partition_ok c M base xs w Hw Hw0 Hm); [|lia]|].
  intros [M' j] (zs & -> & [Hz Hp] & Hj & Hlo & Hhi). pose proof (e_len _ _ _ Hz) as Hl.
  assert (zs !! Z.to_nat j = Some (zat zs j)) as Hjz by (apply list_lookup_lookup_total_lt; lia).
  exists (take (Z.to_nat j) zs), (zat zs j), (drop (S (Z.to_nat j)) zs).
  rewrite (take_drop_middle _ _ _ Hjz). split_and!; [done | rewrite length_take_le; lia | done | |].
  - apply Forall_lookup_2. intros i x Hx. apply lookup_take_Some in Hx as [Hx Hi].
    rewrite <- (zat_lookup _ _ _ Hx). apply Hlo; lia.
  - apply Forall_lookup_2. intros i x Hx. rewrite lookup_drop in Hx.
    pose proof (lookup_lt_Some _ _ _ Hx). rewrite <- (zat_lookup _ _ _ Hx). apply Hhi; lia.
Qed.

Lemma sorts_intro M base xs zs :
  M = arr M base xs → rearr xs w zs → sorted_range c 0 (length xs) zs → sorts M base xs (arr M base zs).
Proof using.
  intros Ha [Hz Hp] Hs. exists zs. split_and!; [done | done|].
  apply sorted_range_sorted. by rewrite (e_len _ _ _ Hz).
Qed.

Lemma introsort_ok (f : nat) M base xs depth :
  0 <= depth < f → bytes M base (concat xs) → welts w xs →
  wp (introsort f M base (length xs) depth c) (sorts M base xs).
Proof using All.
  revert M base xs depth. induction f as [|f IH]; intros M base xs depth Hf Hb He; [lia|].
  destruct (array_ctx M base xs Hb He) as (Hm & Hr & Ha). cbn [introsort].
  destruct (Z.ltb_spec 16 (length xs)) as [Hn|_].
  2: { rewrite Ha at 1. eapply wp_mono; [by apply (insertion_ok c M base xs w Hw Hw0 Hm)|].
       intros M' (zs & -> & Hz & Hs). by apply sorts_intro. }
  destruct (Z.eqb_spec depth 0) as [->|Hd].
  { rewrite Ha at 1. eapply wp_mono; [by apply (heapsort_ok c M base xs w Hw Hw0 Hm)|].
    intros M' (zs & -> & Hz & Hs). by apply sorts_intro. }
  wp_pure. rewrite Ha at 1. eapply wp_mono; [by apply (median3_ok c M base xs w Hw Hw0 Hm); [|lia]|].
  intros M1 (ys & -> & [Hy Hyp]). pose proof (e_len _ _ _ Hy) as Hyl. wp_pure.
  pose proof (welts_perm _ _ _ Hyp He) as Hye. rewrite <- Hyl.
  eapply wp_mono; [apply partition_split; [apply bytes_write | done | lia]|].
  intros [M2 j] (L & p & R & Hlp & -> & -> & HL & HR). rewrite Hyl.
  set (zs := L ++ p :: R) in *.
  assert (length (concat xs) = length (concat ys) ∧ length (concat ys) = length (concat zs)) as [E1 E2].
  { assert (zs ≡ₚ xs) as Hzx by (by rewrite Hlp). 
    rewrite (welts_length w xs He), (welts_length w ys Hye), (welts_length w zs (welts_perm _ _ _ Hzx He)).
    by rewrite (Permutation_length Hzx), Hyl. }
  unfold arr. rewrite write_write by done.
  assert (welts w zs) as Hze by (eapply welts_perm; [rewrite Hlp; exact Hyp | done]).
  assert (length xs = length L + 1 + length R)%nat as Hlen.
  { rewrite <- Hyl, <- (Permutation_length Hlp). unfold zs. rewrite length_app. simpl. lia. }
  pose proof (bytes_write M base (concat zs)) as Hbz. set (M3 := write M base (concat zs)) in *.
  pose proof Hze as HeA. apply Forall_app in HeA as [HeL [[Hpw _] HeR]%Forall_cons].
  pose proof (welts_length w L HeL) as HlL.
  assert (bytes M3 base (concat L) ∧ bytes M3 (base + (length L + 1) * w) (concat R)) as [HbL HbR].
  { unfold zs in Hbz. rewrite concat_app in Hbz. simpl in Hbz. apply bytes_app in Hbz as [H1 H2].
    apply bytes_app in H2 as [_ H2]. split; [done|].
    by replace (base + (length L + 1) * w) with (base + length (concat L) + length p) by lia. }
  assert (∀ M', sorts M3 base zs M' → sorts M base xs M') as Hfin.
  { intros M' (us & -> & Hup & Hus). exists us. split_and!; [|by rewrite Hup, Hlp|done].
    apply write_write. rewrite (welts_length w zs Hze), (welts_length w us (welts_perm _ _ _ Hup Hze)).
    by rewrite (Permutation_length Hup). }
  replace (Z.of_nat (length xs) - Z.of_nat (length L) - 1) with (Z.of_nat (length R)) by lia. rewrite Hw.
  destruct (Z.ltb_spec (length L) (length R)).
  - wp_pure. eapply wp_mono; [apply (IH M3 base L); done || lia|]. intros M4 Hs1.
    eapply wp_mono; [apply (IH M4 _ R); [lia | | done]|].
    + destruct Hs1 as (L' & -> & HL' & _). apply bytes_write_out; [|done]. right.
      rewrite (welts_length w L') by (by eapply welts_perm). rewrite (Permutation_length HL'). lia.
    + intros M5 Hs2. apply Hfin. apply (sorts_join M3 base L p R M4 M5); eauto.
  - wp_pure. eapply wp_mono; [apply (IH M3 _ R); done || lia|]. intros M4 Hs1.
    eapply wp_mono; [apply (IH M4 base L); [lia | | done]|].
    + destruct Hs1 as (R' & -> & HR' & _). apply bytes_write_out; [|done]. left. lia.
    + intros M5 Hs2. apply Hfin. apply (sorts_join M3 base L p R M4 M5); eauto.
Qed.
End Introsort.

Lemma qsort_ok m base n (w : nat) cmp xs :
  Comparator cmp → bytes m base (concat xs) → welts w xs → (0 < w)%nat → n = Z.of_nat (length xs) →
  wp (qsort m base n w cmp) (λ m', ∃ ys,
    m' = write m base (concat ys) ∧ ys ≡ₚ xs ∧ StronglySorted (cle cmp) ys).
Proof.
  intros HC Hb He Hw ->. unfold qsort, qsort_r. destruct (Z.ltb_spec (length xs) 2); cbn [orb].
  - wp_pure. exists xs. split_and!; [by rewrite write_self | done|].
    destruct xs as [|x [|y xs]]; simpl in *; [constructor | by repeat constructor | lia].
  - destruct (Z.eqb_spec w 0); [lia|]. pose proof (Z.log2_nonneg (length xs)).
    apply (introsort_ok {| c_w := w; c_cmp := cmp |} w); done || lia.
Qed.

(** *** Binary search *)

(** The elements are in the order the key's comparison sees: first those
    below the key, then those equal to it, then those above it. *)
Definition key_sorted (kcmp : elt → Z) (xs : list elt) : Prop :=
  StronglySorted (λ x y, Z.sgn (kcmp y) <= Z.sgn (kcmp x)) xs.

Lemma key_sorted_lookup kcmp xs i j x y :
  key_sorted kcmp xs → xs !! i = Some x → xs !! j = Some y → (i <= j)%nat → Z.sgn (kcmp y) <= Z.sgn (kcmp x).
Proof.
  unfold key_sorted. revert i j. induction xs as [|a xs IH]; intros [|i] [|j] Hs Hi Hj Hij; simpl in *; try done; try lia.
  - by simplify_eq.
  - apply StronglySorted_cons in Hs as [Ha _]. simplify_eq.
    by apply (Forall_lookup_1 _ _ _ _ Ha Hj).
  - apply StronglySorted_cons in Hs as [_ Hs]. apply (IH i j); done || lia.
Qed.

Lemma bsearch_ok m base n (w : nat) kcmp xs :
  bytes m base (concat xs) → welts w xs → key_sorted kcmp xs → n = Z.of_nat (length xs) →
  wp (bsearch m base n w kcmp) (λ r,
    (∃ (i : nat) x, xs !! i = Some x ∧ kcmp x = 0 ∧ r = base + i * w) ∨
    (r = 0 ∧ Forall (λ x, kcmp x ≠ 0) xs)).
Proof.
  intros Hb He Hs ->. unfold bsearch.
  assert (∀ (i : nat) x, xs !! i = Some x → load_list m (base + i * w) w = Ok x) as Hld.
  { intros i x Hi. pose proof (lookup_lt_Some _ _ _ Hi). pose proof Hb as Hb'.
    rewrite <- (take_drop_middle _ _ _ Hi), concat_app in Hb'. simpl in Hb'.
    apply bytes_app in Hb' as [_ Hb']. apply bytes_app in Hb' as [Hb' _].
    rewrite (welts_length w) in Hb' by (by apply Forall_take). rewrite length_take_le in Hb' by lia.
    apply load_list_ok in Hb'. pose proof (Forall_lookup_1 _ _ _ _ He Hi) as [Hxw _]. rewrite Hxw in Hb'.
    by replace (base + i * w) with (base + (w * i)%nat) by lia. }
  apply (wp_loop (λ '(b, n), ∃ lo : nat, b = base + lo * w ∧ 0 <= n ∧ lo + n <= length xs ∧
      (∀ (i : nat) x, xs !! i = Some x → (i < lo)%nat → 0 < kcmp x) ∧
      (∀ (i : nat) x, xs !! i = Some x → lo + n <= i → kcmp x < 0)) (λ '(_, n), Z.to_nat n)).
  - intros [b n] (lo & -> & Hn & Hlen & Hlo & Hhi). destruct (Z.eqb_spec n 0) as [->|Hn0].
    { wp_pure. right. split; [done|]. apply Forall_lookup_2. intros i x Hx.
      destruct (decide (i < lo)%nat); [pose proof (Hlo i x Hx ltac:(done)); lia | pose proof (Hhi i x Hx ltac:(lia)); lia]. }
    assert (0 <= n / 2 < n) as Hm by zdiv. set (k := (lo + Z.to_nat (n / 2))%nat).
    destruct (lookup_lt_is_Some_2 xs k) as [x Hx]; [unfold k; lia|]. cbv zeta.
    replace (base + lo * w + n / 2 * w) with (base + k * w) by (unfold k; lia).
    rewrite Nat2Z.id. wp_pure. wp_use (Hld k x Hx). destruct (Z.eqb_spec (kcmp x) 0).
    { wp_pure. left. by exists k, x. }
    destruct (Z.ltb_spec 0 (kcmp x)); wp_pure; (split; [|lia]).
    + exists (S k). split_and!; [lia | lia | unfold k; lia | |].
      * intros i y Hy Hi. pose proof (key_sorted_lookup _ _ i k y x Hs Hy Hx ltac:(lia)). lia.
      * intros i y Hy Hi. apply (Hhi i y Hy). unfold k in Hi. lia.
    + exists lo. split_and!; [lia | lia | lia | done|].
      intros i y Hy Hi. pose proof (key_sorted_lookup _ _ k i x y Hs Hx Hy ltac:(unfold k; lia)). lia.
  - exists 0%nat. split_and!; [lia | lia | lia | lia|]. intros i x Hx%lookup_lt_Some. lia.
  - lia.
Qed.

(** ** Properties *)

(** C17: qsort sorts. For every array of [n] elements of [w] bytes and every
    consistent comparison function it terminates without touching memory
    outside the array, and leaves in the array a permutation of its elements
    in which each element compares less than or equal to every later one. *)
Theorem qsort_spec m base n (w : nat) cmp xs :
  Comparator cmp → bytes m base (concat xs) → welts w xs → (0 < w)%nat → n = Z.of_nat (length xs) →
  ∃ ys, qsort m base n w cmp = Ok (write m base (concat ys)) ∧
        ys ≡ₚ xs ∧ StronglySorted (λ x y, cmp x y <= 0) ys.
Proof.
  intros HC Hb He Hw Hn. destruct (qsort_ok m base n w cmp xs HC Hb He Hw Hn) as (m' & -> & ys & -> & H).
  by exists ys.
Qed.

(** bsearch finds. On an array in which the elements below the key come
    first, then those equal to it, then those above it, bsearch terminates
    and returns the address of an element equal to the key if there is one,
    and the null pointer if there is none. *)
Theorem bsearch_spec m base n (w : nat) kcmp xs :
  bytes m base (concat xs) → welts w xs → key_sorted kcmp xs → n = Z.of_nat (length xs) →
  ∃ r, bsearch m base n w kcmp = Ok r ∧
    ((∃ (i : nat) x, xs !! i = Some x ∧ kcmp x = 0 ∧ r = base + i * w) ∨
     (r = 0 ∧ Forall (λ x, kcmp x ≠ 0) xs)).
Proof. intros. by apply bsearch_ok. Qed.

(** Two-byte little-endian numbers, 20 of them in descending order. *)
Definition num_cmp (x y : elt) : Z := le_word x - le_word y.

#[export] Instance num_cmp_ok : Comparator num_cmp.
Proof. split; unfold num_cmp; intros; lia. Qed.

Definition sort_elts : list elt := (λ k, [20 - k; 0]) <$> seqZ 0 20.
Definition sort_mem : mem := write ∅ 4096 (concat sort_elts).

Lemma sort_elts_ok : welts 2 sort_elts.
Proof.
  apply Forall_fmap, Forall_forall. intros k Hk%elem_of_seqZ. simpl. split; [done|].
  repeat constructor; unfold is_byte; lia.
Qed.

Lemma qsort_spec_witness :
  ∃ ys, qsort sort_mem 4096 20 2 num_cmp = Ok (write sort_mem 4096 (concat ys)) ∧
        ys ≡ₚ sort_elts ∧ StronglySorted (λ x y, num_cmp x y <= 0) ys.
Proof.
  apply (qsort_spec sort_mem 4096 20 2 num_cmp sort_elts num_cmp_ok);
    [apply bytes_write | apply sort_elts_ok | lia | reflexivity].
Defined.

Lemma bsearch_spec_witness :
  ∃ r, bsearch sort_mem 4096 20 2 (λ x, num_cmp x [7; 0]) = Ok r ∧
    ((∃ (i : nat) x, sort_elts !! i = Some x ∧ num_cmp x [7; 0] = 0 ∧ r = 4096 + i * 2%nat) ∨
     (r = 0 ∧ Forall (λ x, num_cmp x [7; 0] ≠ 0) sort_elts)).
Proof.
  apply (bsearch_spec sort_mem 4096 20 2 (λ x, num_cmp x [7; 0]) sort_elts);
    [apply bytes_write | apply sort_elts_ok | | reflexivity].
  unfold key_sorted. repeat (constructor; [|repeat (constructor; [vm_compute; done|]); constructor]). constructor.
Defined.
