(* ===== verification/Uchar.v ===== *)
(** * UTF-16, UTF-32 and UTF-8 code units (src/src/uchar.c)

    The conversions of <uchar.h> on top of Multibyte.v. As there, a state is
    passed in and returned and what is stored through the output pointer is
    part of the result. The string literal that stands for a null input, and
    the local byte buffers handed to mbrtowc, are memories of their own. *)
From S2P Require Import Prelude CMem Ctype MemFns StrFns Strtol Multibyte.

Definition PEND_LOW : Z := 0x80000000.
Definition PEND_HIGH : Z := 0x40000000.
Definition PEND_C8OUT : Z := 0x20000000.
Definition PEND_C8IN : Z := 0x10000000.

(** (size_t)-3 *)
Definition PENDING : Z := 2 ^ 64 - 3.

(** A local buffer holding [l], at address 1. *)
Definition buf_mem (l : list Z) : mem := write ∅ 1 l.

(** ** Operations *)

(** Return value, what is stored in [*c], state, errno. *)
Definition mbrtoc32 (m : mem) (s n : Z) (st : mbstate) (errno : Z) : res mbres :=
  '(r, wc, st, errno) ← (if s =? 0 then mbrtowc (buf_mem [0]) 1 1 st errno else mbrtowc m s n st errno);
  Ok (r, if (r <=? 4) && negb (s =? 0) then wc else None, st, errno).

(** Return value, memory, state, errno. *)
Definition c32rtomb (m : mem) (s c : Z) (st : mbstate) (errno : Z) : res (Z * mem * mbstate * Z) :=
  if (0x10ffff <? c) || ((0xd800 <=? c) && (c <=? 0xdfff)) then Ok (ILSEQ, m, st, EILSEQ) else
  '(r, m, errno) ← wcrtomb m s c errno; Ok (r, m, st, errno).

(** What mbrtoc16 does with the character mbrtowc has read. *)
Definition c16_units (wc : Z) (st : mbstate) : Z * mbstate :=
  if 0x10000 <=? u32 wc then
    let v := u32 (u32 wc - 0x10000) in
    (u16 (Z.lor 0xd800 (Z.shiftr v 10)), MbState (Z.lor 0xdc00 (Z.land v 0x3ff)) PEND_LOW)
  else (u16 wc, st).

Definition mbrtoc16 (m : mem) (s n : Z) (st : mbstate) (errno : Z) : res mbres :=
  if negb (Z.land (__n st) PEND_LOW =? 0) then Ok (PENDING, Some (u16 (__st st)), st0, errno) else
  '(r, wc, st, errno) ← (if s =? 0 then mbrtowc (buf_mem [0]) 1 1 st errno else mbrtowc m s n st errno);
  if 4 <? r then Ok (r, None, st, errno) else
  match wc with
  | None => Trap Ub
  | Some wc => let '(u, st) := c16_units wc st in Ok (r, if s =? 0 then None else Some u, st, errno)
  end.

Definition c16rtomb (m : mem) (s c : Z) (st : mbstate) (errno : Z) : res (Z * mem * mbstate * Z) :=
  let c := if s =? 0 then 0 else c in
  if negb (Z.land (__n st) PEND_HIGH =? 0) then
    if (c <? 0xdc00) || (0xdfff <? c) then Ok (ILSEQ, m, st0, EILSEQ) else
    let v := u32 (0x10000 + Z.shiftl (u32 (__st st - 0xd800)) 10 + u32 (c - 0xdc00)) in
    '(r, m, errno) ← wcrtomb m s v errno; Ok (r, m, st0, errno)
  else if (0xd800 <=? c) && (c <=? 0xdbff) then Ok (0, m, MbState c PEND_HIGH, errno)
  else if (0xdc00 <=? c) && (c <=? 0xdfff) then Ok (ILSEQ, m, st, EILSEQ)
  else '(r, m, errno) ← wcrtomb m s c errno; Ok (r, m, st, errno).

(** The bytes after the first, packed with the first of them lowest. *)
Definition c8_pack (l : list Z) : Z := foldr (λ b acc, Z.lor (u32 (Z.shiftl acc 8)) b) 0 l.

Definition mbrtoc8 (m : mem) (s n : Z) (st : mbstate) (errno : Z) : res mbres :=
  if negb (Z.land (__n st) PEND_C8OUT =? 0) then
    let k := u32 (Z.land (__n st) 3 - 1) in
    Ok (PENDING, Some (Z.land (__st st) 0xff),
        MbState (if k =? 0 then 0 else Z.shiftr (__st st) 8) (if k =? 0 then 0 else Z.lor PEND_C8OUT k), errno)
  else
  '(r, wc, st, errno) ← (if s =? 0 then mbrtowc (buf_mem [0]) 1 1 st errno else mbrtowc m s n st errno);
  if 4 <? r then Ok (r, None, st, errno) else
  match wc ≫= wc_bytes with
  | Some (b0 :: bs) =>
      Ok (r, if s =? 0 then None else Some b0,
          if decide (bs = []) then st
          else MbState (c8_pack bs) (Z.lor PEND_C8OUT (Z.of_nat (length bs))), errno)
  | _ => Trap Ub
  end.

(** The bytes given to c8rtomb so far. *)
Definition c8_have (st : mbstate) : list Z :=
  let have := if Z.land (__n st) PEND_C8IN =? 0 then 0 else Z.land (__n st) 3 in
  (λ i, u8 (Z.shiftr (__st st) (8 * i))) <$> seqZ 0 have.

Definition c8rtomb (m : mem) (s c : Z) (st : mbstate) (errno : Z) : res (Z * mem * mbstate * Z) :=
  if s =? 0 then
    if negb (Z.land (__n st) PEND_C8IN =? 0) then Ok (ILSEQ, m, st0, EILSEQ) else Ok (1, m, st0, errno)
  else
  match c8_have st with
  | [] =>
      if c <? 0x80 then m ← storeb m s c; Ok (1, m, st, errno) else
      if (c <? 0xc2) || (0xf4 <? c) then Ok (ILSEQ, m, st, EILSEQ)
      else Ok (0, m, MbState c (Z.lor PEND_C8IN 1), errno)
  | b0 :: _ =>
      let have := Z.of_nat (length (c8_have st)) in
      let b := c8_have st ++ [c] in
      let need := if b0 <? 0xe0 then 2 else if b0 <? 0xf0 then 3 else 4 in
      '(r, _, _, _) ← mbrtowc (buf_mem b) 1 (have + 1) st0 errno;
      if r =? ILSEQ then Ok (ILSEQ, m, st0, EILSEQ) else
      if have + 1 <? need then
        Ok (0, m, MbState (Z.lor (__st st) (u32 (Z.shiftl c (8 * have)))) (Z.lor PEND_C8IN (have + 1)), errno)
      else
        m ← store_list m s (take (Z.to_nat need) b); Ok (need, m, st0, errno)
  end.

(** ** UTF-16 *)

(** The encoding form of Table 3-5 of the Unicode Standard. *)
Definition utf16 (c : Z) : list Z :=
  if c <? 0x10000 then [c]
  else [0xd800 + (c - 0x10000) / 1024; 0xdc00 + (c - 0x10000) mod 1024].

Lemma mbrtowc_whole m s c n errno :
  s ≠ 0 → scalar c → bytes m s (utf8 c) → length (utf8 c) <= n →
  mbrtowc m s n st0 errno = Ok (Z.of_nat (clen c), Some c, st0, errno).
Proof.
  intros Hs Hc Hb Hn. pose proof (dec_utf8 c [] Hc) as Hd. rewrite app_nil_r in Hd.
  change st0 with (enc_state Start) at 1.
  rewrite (mbrtowc_ok m s (utf8 c) n Start errno Hs Hb); [by rewrite Hd | by apply utf8_bytes | done|].
  rewrite Hd. simpl. lia.
Qed.

Lemma clen_le c : (clen c <= 4)%nat.
Proof. unfold clen. case_match; [lia|]. apply utf8_length. Qed.

Lemma wcrtomb_ok m d c errno :
  d ≠ 0 → scalar c → mapped m d (length (utf8 c)) →
  wcrtomb m d c errno = Ok (Z.of_nat (length (utf8 c)), write m d (utf8 c), errno).
Proof.
  intros Hd Hc Hm. unfold wcrtomb. destruct (Z.eqb_spec d 0); [done|].
  rewrite wc_bytes_utf8 by done. by rewrite (store_list_ok m d _ Hm (utf8_bytes c Hc)).
Qed.

Lemma mbrtoc16_ok m s c n errno :
  s ≠ 0 → scalar c → bytes m s (utf8 c) → length (utf8 c) <= n →
  if c <? 0x10000 then mbrtoc16 m s n st0 errno = Ok (Z.of_nat (clen c), Some c, st0, errno)
  else let st := MbState (0xdc00 + (c - 0x10000) mod 1024) PEND_LOW in
       mbrtoc16 m s n st0 errno = Ok (4, Some (0xd800 + (c - 0x10000) / 1024), st, errno) ∧
       mbrtoc16 m s n st errno = Ok (PENDING, Some (0xdc00 + (c - 0x10000) mod 1024), st0, errno).
Proof.
  intros Hs Hc Hb Hn. pose proof (clen_le c).
  assert (∀ r, mbrtoc16 m s n st0 errno = Ok r ↔
    (let '(u, st) := c16_units c st0 in Ok (Z.of_nat (clen c), Some u, st, errno)) = Ok r) as Heq.
  { intros r. unfold mbrtoc16. cbn [__n st0]. change (Z.land 0 PEND_LOW =? 0) with true. cbn [negb].
    destruct (Z.eqb_spec s 0); [done|]. rewrite (mbrtowc_whole m s c n errno Hs Hc Hb Hn). simpl.
    destruct (Z.ltb_spec 4 (clen c)); [lia|]. by destruct (c16_units c st0). }
  destruct Hc as [Hc1 Hc2]. unfold c16_units in Heq. rewrite (uwrap_small 32 c) in Heq by lia.
  destruct (Z.ltb_spec c 0x10000).
  - apply Heq. destruct (Z.leb_spec 65536 c); [lia|]. by rewrite uwrap_small by lia.
  - cbv zeta. split.
    + apply Heq. destruct (Z.leb_spec 65536 c); [|lia]. rewrite !(uwrap_small 32) by lia.
      rewrite Z.shiftr_div_pow2 by lia. change 0x3ff with (Z.ones 10). rewrite Z.land_ones by lia.
      rewrite (lor_const 55296 _ 10), (lor_const 56320 _ 10) by (done || lia || zdiv).
      rewrite uwrap_small by zdiv. unfold clen, utf8.
      destruct (Z.eqb_spec c 0); [lia|]. zcases; try lia. done.
    + unfold mbrtoc16. cbn [__n __st]. change (Z.land PEND_LOW PEND_LOW =? 0) with false. cbn [negb].
      by rewrite uwrap_small by zdiv.
Qed.

Lemma c16rtomb_ok m d c errno :
  d ≠ 0 → scalar c → mapped m d (length (utf8 c)) →
  let out := Ok (Z.of_nat (length (utf8 c)), write m d (utf8 c), st0, errno) in
  if c <? 0x10000 then c16rtomb m d c st0 errno = out
  else let hi := 0xd800 + (c - 0x10000) / 1024 in
       c16rtomb m d hi st0 errno = Ok (0, m, MbState hi PEND_HIGH, errno) ∧
       c16rtomb m d (0xdc00 + (c - 0x10000) mod 1024) (MbState hi PEND_HIGH) errno = out.
Proof.
  intros Hd Hsc Hm out. pose proof Hsc as [Hc1 Hc2]. unfold c16rtomb. cbn [__n __st st0].
  change (Z.land 0 PEND_HIGH =? 0) with true. change (Z.land PEND_HIGH PEND_HIGH =? 0) with false. cbn [negb].
  destruct (Z.eqb_spec d 0); [done|]. destruct (Z.ltb_spec c 0x10000).
  - assert (((55296 <=? c) && (c <=? 56319)) = false ∧ ((56320 <=? c) && (c <=? 57343)) = false) as [-> ->]
      by (split; zcases; simpl; done || lia).
    by rewrite (wcrtomb_ok m d c errno).
  - cbv zeta. set (hi := 55296 + (c - 65536) / 1024). set (lo := 56320 + (c - 65536) mod 1024).
    assert (55296 <= hi <= 56319 ∧ 56320 <= lo <= 57343) as [Hhi Hlo] by (unfold hi, lo; zdiv). split.
    + destruct (Z.leb_spec 55296 hi), (Z.leb_spec hi 56319); simpl; done || lia.
    + destruct (Z.ltb_spec lo 56320), (Z.ltb_spec 57343 lo); simpl; try lia.
      rewrite Z.shiftl_mul_pow2, !(uwrap_small 32) by (try (rewrite !(uwrap_small 32) by lia); lia).
      replace (65536 + (hi - 55296) * 2 ^ 10 + (lo - 56320)) with c by (unfold hi, lo; zdiv).
      by rewrite (wcrtomb_ok m d c errno).
Qed.

(** ** UTF-8 code units *)

Lemma shift_le_split n x : (λ i, u8 (Z.shiftr x (8 * i))) <$> seqZ 0 (Z.of_nat n) = le_split n x.
Proof.
  revert x. induction n as [|n IH]; intros x; [done|].
  rewrite seqZ_cons by lia. cbn [le_split]. rewrite fmap_cons, Z.mul_0_r, Z.shiftr_0_r. f_equal.
  rewrite <- IH. replace (Z.pred (S n)) with (Z.of_nat n) by lia.
  change (Z.succ 0) with (1 + 0). rewrite <- fmap_add_seqZ, <- list_fmap_compose.
  apply list_fmap_ext. intros j i Hi%lookup_seqZ. simpl.
  replace (8 * (1 + i)) with (8 + 8 * i) by lia. rewrite <- Z.shiftr_shiftr by lia.
  by rewrite (Z.shiftr_div_pow2 x 8) by lia.
Qed.

(** The state of c8rtomb when it has been given the bytes [l]. *)
Definition c8_state (l : list Z) : mbstate :=
  if decide (l = []) then st0 else MbState (le_word l) (Z.lor PEND_C8IN (Z.of_nat (length l))).

Lemma c8_have_state l : Forall is_byte l → (length l <= 3)%nat → c8_have (c8_state l) = l.
Proof.
  intros Hl Hn. unfold c8_have, c8_state. case_decide as E; [by subst|]. cbn [__n __st].
  assert (Z.land (Z.lor PEND_C8IN (length l)) PEND_C8IN ≠ 0 ∧ Z.land (Z.lor PEND_C8IN (length l)) 3 = length l) as [H1 ->].
  { destruct l as [|? [|? [|? [|? l]]]]; simpl in *; try lia; by vm_compute. }
  rewrite (proj2 (Z.eqb_neq _ _) H1). by rewrite shift_le_split, le_split_word.
Qed.

Lemma c8_state_snoc l b :
  l ≠ [] → Forall is_byte l → is_byte b → (length l <= 3)%nat →
  MbState (Z.lor (__st (c8_state l)) (u32 (Z.shiftl b (8 * length l)))) (Z.lor PEND_C8IN (length l + 1)) =
  c8_state (l ++ [b]).
Proof.
  intros Hne Hl Hb Hn. unfold c8_state. rewrite (decide_False (P := l = [])) by done.
  rewrite decide_False by (by destruct l). cbn [__st]. rewrite length_app. f_equal; [|do 2 f_equal; simpl; lia].
  pose proof (le_word_range l Hl) as Hr. change 256 with (2 ^ 8) in Hr. rewrite <- Z.pow_mul_r in Hr by lia.
  rewrite Z.shiftl_mul_pow2 by lia. rewrite uwrap_small.
  - rewrite Z.lor_comm, lor_add by lia. clear Hne Hn Hr. induction Hl as [|x l Hx Hl IH].
    { change (b * 2 ^ 0 + 0 = b + 256 * 0). lia. }
    cbn [app le_word length]. rewrite <- IH. rewrite Nat2Z.inj_succ.
    replace (8 * Z.succ (length l)) with (8 + 8 * length l) by lia.
    rewrite Z.pow_add_r by lia. change (2 ^ 8) with 256. lia.
  - unfold is_byte in Hb. assert (2 ^ (8 * length l) <= 2 ^ 24) by (apply Z.pow_le_mono_r; lia).
    assert (0 < 2 ^ (8 * length l)) by (by apply Z.pow_pos_nonneg; lia). nia.
Qed.

(** A proper prefix of an encoding is incomplete, not invalid. *)
Lemma dec_prefix c l r :
  scalar c → utf8 c = l ++ r → r ≠ [] → ∃ d, dec Start l = DMore d.
Proof.
  intros Hc E Hr. pose proof (dec_utf8 c [] Hc) as Hd. rewrite app_nil_r, E, dec_app in Hd.
  assert (Forall is_byte (l ++ r)) as [Hl _]%Forall_app by (rewrite <- E; by apply utf8_bytes).
  destruct (dec Start l) as [c' k|d|] eqn:El; [|by exists d|done].
  simplify_eq. destruct (dec_done_inv _ _ _ Hl El) as (_ & [r' ->] & _).
  apply (f_equal length) in E. rewrite !length_app in E. destruct r; [done|]. simpl in E. lia.
Qed.

(** The length of an encoding, from its first byte. *)
Lemma utf8_need c b r :
  scalar c → utf8 c = b :: r → r ≠ [] →
  (if b <? 0xe0 then 2 else if b <? 0xf0 then 3 else 4) = Z.of_nat (length (utf8 c)) ∧
  0xc2 <= b <= 0xf4.
Proof.
  intros [Hc Hs] E Hr. unfold utf8 in *.
  destruct (Z.ltb_spec c 128); [simplify_eq|]. destruct (Z.ltb_spec c 2048).
  { injection E as <- _. simpl. zcases; zdiv. }
  destruct (Z.ltb_spec c 65536); injection E as <- _; simpl; zcases; zdiv.
Qed.

(** One byte of an encoding, after the bytes [l]. *)
Lemma c8rtomb_step m s c l b r errno :
  s ≠ 0 → scalar c → utf8 c = l ++ b :: r → l ++ r ≠ [] → mapped m s (length (utf8 c)) →
  c8rtomb m s b (c8_state l) errno =
  if decide (r = []) then Ok (Z.of_nat (length (utf8 c)), write m s (utf8 c), st0, errno)
  else Ok (0, m, c8_state (l ++ [b]), errno).
Proof.
  intros Hs Hc E Hne Hm. pose proof (utf8_bytes c Hc) as Hby. pose proof Hby as Hby'. rewrite E in Hby'.
  apply Forall_app in Hby' as [Hl [Hb Hrb]%Forall_cons]. pose proof (utf8_length c) as Hlen.
  assert (length l <= 3)%nat as Hl3 by (rewrite E, length_app in Hlen; simpl in Hlen; lia).
  unfold c8rtomb. destruct (Z.eqb_spec s 0); [done|]. rewrite (c8_have_state l Hl Hl3).
  destruct l as [|b0 l].
  { simpl in E, Hne. destruct (utf8_need c b r Hc E Hne) as [_ Hrange].
    rewrite decide_False by done. destruct (Z.ltb_spec b 128); [lia|].
    destruct (Z.ltb_spec b 194), (Z.ltb_spec 244 b); try lia. simpl.
    unfold c8_state. simpl. do 4 f_equal. lia. }
  cbn [app] in E. destruct (utf8_need c b0 (l ++ b :: r) Hc E ltac:(by destruct l)) as [Hneed _].
  set (l0 := b0 :: l) in *. cbv zeta. rewrite Hneed.
  assert (utf8 c = (l0 ++ [b]) ++ r) as E2 by (rewrite E; unfold l0; simpl; by rewrite <- app_assoc).
  assert (l0 ≠ []) as Hl0 by done. clearbody l0.
  assert (length (l0 ++ [b]) = S (length l0)) as Hlb by (rewrite length_app; simpl; lia).
  assert (∃ x1 x2 x3 x4, mbrtowc (buf_mem (l0 ++ [b])) 1 (length l0 + 1) st0 errno = Ok (x1, x2, x3, x4) ∧ x1 ≠ ILSEQ)
    as (x1 & x2 & x3 & x4 & -> & Hx1).
  { change st0 with (enc_state Start).
    rewrite (mbrtowc_ok _ 1 (l0 ++ [b]) _ Start errno); [|done|apply bytes_write| |done|].
    - destruct (decide (r = [])) as [->|Hr].
      + rewrite app_nil_r in E2. rewrite <- E2. pose proof (dec_utf8 c [] Hc) as Hd. rewrite app_nil_r in Hd.
        rewrite Hd. do 4 eexists. split; [done|]. pose proof (clen_le c). unfold ILSEQ. lia.
      + destruct (dec_prefix c _ _ Hc E2 Hr) as [d ->]. do 4 eexists. split; [done|]. unfold ILSEQ, INCOMPLETE. lia.
    - rewrite E2 in Hby. by apply Forall_app in Hby as [? _].
    - destruct (dec Start (l0 ++ [b])); unfold enough; rewrite Hlb; lia. }
  simpl mbind. rewrite (proj2 (Z.eqb_neq _ _) Hx1).
  assert (Z.of_nat (length (utf8 c)) = length l0 + 1 + length r) as Hlu by (rewrite E2, length_app, Hlb; lia).
  case_decide as Hr.
  - subst r. simpl in Hlu. destruct (Z.ltb_spec (length l0 + 1) (length (utf8 c))); [lia|].
    rewrite app_nil_r in E2. rewrite <- E2, Nat2Z.id, firstn_all.
    by rewrite (store_list_ok m s _ Hm Hby).
  - destruct r; [done|]. simpl in Hlu. destruct (Z.ltb_spec (length l0 + 1) (length (utf8 c))); [|lia].
    by rewrite c8_state_snoc.
Qed.

(** Giving c8rtomb the bytes of a list one after the other. *)
Fixpoint c8_run (m : mem) (s : Z) (st : mbstate) (errno : Z) (l : list Z) : res (list Z * mem * mbstate * Z) :=
  match l with
  | [] => Ok ([], m, st, errno)
  | b :: l =>
      '(r, m, st, errno) ← c8rtomb m s b st errno;
      '(rs, m, st, errno) ← c8_run m s st errno l;
      Ok (r :: rs, m, st, errno)
  end.

Lemma c8_run_ok m s c l r errno :
  s ≠ 0 → scalar c → utf8 c = l ++ r → r ≠ [] → (1 < length (utf8 c))%nat → mapped m s (length (utf8 c)) →
  c8_run m s (c8_state l) errno r =
  Ok (replicate (length r - 1) 0 ++ [Z.of_nat (length (utf8 c))], write m s (utf8 c), st0, errno).
Proof.
  intros Hs Hc. revert l. induction r as [|b r IH]; intros l E Hne Hlen Hm; [done|]. cbn [c8_run].
  rewrite (c8rtomb_step m s c l b r errno Hs Hc E); [|by intros [-> ->]%app_nil; rewrite E in Hlen; simpl in Hlen; lia|done].
  case_decide as Er; [by subst|]. simpl mbind.
  rewrite IH; [|by rewrite E, <- app_assoc|done|done|done]. simpl mbind.
  destruct r as [|b' r]; [done|]. simpl. by rewrite Nat.sub_0_r.
Qed.

(** Calling mbrtoc8 [k] more times, with a character pending. *)
Fixpoint c8_drain (m : mem) (s n : Z) (st : mbstate) (errno : Z) (k : nat) : res (list (option Z) * mbstate) :=
  match k with
  | O => Ok ([], st)
  | S k =>
      '(_, u, st, _) ← mbrtoc8 m s n st errno;
      '(us, st) ← c8_drain m s n st errno k; Ok (u :: us, st)
  end.

Lemma c8_pack_word l : Forall is_byte l → (length l <= 3)%nat → c8_pack l = le_word l.
Proof.
  induction 1 as [|b l Hb Hl IH]; intros Hn; [done|]. simpl in Hn. cbn [c8_pack foldr le_word].
  unfold c8_pack in IH. rewrite IH by lia. pose proof (le_word_range l Hl) as Hr.
  assert (256 ^ length l <= 256 ^ 2) by (apply Z.pow_le_mono_r; lia).
  rewrite Z.shiftl_mul_pow2, uwrap_small by lia. rewrite lor_add by (done || lia).
  change (2 ^ 8) with 256. lia.
Qed.

(** The pending state with the bytes [l] still to be returned. *)
Definition c8_pending (l : list Z) : mbstate :=
  if decide (l = []) then st0 else MbState (le_word l) (Z.lor PEND_C8OUT (Z.of_nat (length l))).

Lemma land_255 x : Z.land x 255 = x mod 256.
Proof. apply (Z.land_ones x 8). lia. Qed.

Lemma pend_count k :
  (1 <= k <= 3)%nat →
  (Z.land (Z.lor PEND_C8OUT (Z.of_nat k)) PEND_C8OUT =? 0) = false ∧
  u32 (Z.land (Z.lor PEND_C8OUT (Z.of_nat k)) 3 - 1) = Z.of_nat k - 1.
Proof. intros Hk. destruct k as [|[|[|[|k]]]]; try lia; by vm_compute. Qed.

Lemma mbrtoc8_pending m s n errno b l :
  is_byte b → (length l <= 2)%nat →
  mbrtoc8 m s n (c8_pending (b :: l)) errno = Ok (PENDING, Some b, c8_pending l, errno).
Proof.
  intros Hb Hn. unfold c8_pending at 1. rewrite decide_False by done. unfold mbrtoc8. cbn [__n __st].
  destruct (pend_count (length (b :: l)) ltac:(simpl; lia)) as [-> ->]. cbn [negb le_word].
  rewrite land_255, Z.shiftr_div_pow2 by lia. change (2 ^ 8) with 256.
  unfold is_byte in Hb. replace ((b + 256 * le_word l) mod 256) with b by zdiv.
  replace ((b + 256 * le_word l) / 256) with (le_word l) by zdiv.
  replace (Z.of_nat (length (b :: l)) - 1) with (Z.of_nat (length l)) by (simpl length; lia).
  unfold c8_pending. destruct l as [|x l]; [reflexivity|]. rewrite decide_False by done.
  destruct (Z.eqb_spec (Z.of_nat (length (x :: l))) 0) as [E|_]; [simpl in E; lia|]. reflexivity.
Qed.

Lemma c8_drain_ok m s n errno l :
  Forall is_byte l → (length l <= 3)%nat →
  c8_drain m s n (c8_pending l) errno (length l) = Ok (Some <$> l, st0).
Proof.
  induction 1 as [|b l Hb Hl IH]; intros Hn; [done|]. cbn [length] in Hn. cbn [c8_drain length].
  rewrite mbrtoc8_pending by (done || lia). simpl mbind. by rewrite IH by lia.
Qed.

Lemma mbrtoc8_first m s c b bs n errno :
  s ≠ 0 → scalar c → utf8 c = b :: bs → bytes m s (utf8 c) → length (utf8 c) <= n →
  mbrtoc8 m s n st0 errno = Ok (Z.of_nat (clen c), Some b, c8_pending bs, errno).
Proof.
  intros Hs Hc E Hb Hn. unfold mbrtoc8. cbn [__n st0]. change (Z.land 0 PEND_C8OUT =? 0) with true. cbn [negb].
  destruct (Z.eqb_spec s 0); [done|]. rewrite (mbrtowc_whole m s c n errno Hs Hc Hb Hn). simpl mbind.
  pose proof (clen_le c). destruct (Z.ltb_spec 4 (clen c)); [lia|].
  rewrite (wc_bytes_utf8 c Hc), E. pose proof (utf8_bytes c Hc) as Hby. rewrite E in Hby.
  apply Forall_cons in Hby as [_ Hby]. pose proof (utf8_length c) as Hl. rewrite E in Hl. simpl in Hl.
  unfold c8_pending. case_decide; [done|]. by rewrite c8_pack_word by (done || lia).
Qed.

(** ** Properties *)

(** UTF-16 conversion is exact and reversible. For every scalar value
    encoded at [s], mbrtoc16 returns its UTF-16 form: one unit, or a
    surrogate pair whose second unit comes from the state on the next call
    without reading input; c16rtomb, given those units, writes the same UTF-8
    bytes back. The state is initial again afterwards. *)
Theorem utf16_roundtrip m s c n m2 d errno :
  s ≠ 0 → d ≠ 0 → scalar c → bytes m s (utf8 c) → length (utf8 c) <= n → mapped m2 d (length (utf8 c)) →
  match utf16 c with
  | [u] =>
      mbrtoc16 m s n st0 errno = Ok (Z.of_nat (clen c), Some u, st0, errno) ∧
      c16rtomb m2 d u st0 errno = Ok (Z.of_nat (length (utf8 c)), write m2 d (utf8 c), st0, errno)
  | [hi; lo] => ∃ st1 st2,
      mbrtoc16 m s n st0 errno = Ok (4, Some hi, st1, errno) ∧
      (∀ m' s' n', mbrtoc16 m' s' n' st1 errno = Ok (PENDING, Some lo, st0, errno)) ∧
      c16rtomb m2 d hi st0 errno = Ok (0, m2, st2, errno) ∧
      c16rtomb m2 d lo st2 errno = Ok (4, write m2 d (utf8 c), st0, errno)
  | _ => False
  end.
Proof.
  intros Hs Hd Hc Hb Hn Hm. pose proof (mbrtoc16_ok m s c n errno Hs Hc Hb Hn) as H1.
  pose proof (c16rtomb_ok m2 d c errno Hd Hc Hm) as H2. unfold utf16.
  destruct (Z.ltb_spec c 0x10000); [done|]. destruct H1 as [H1 H1'], H2 as [H2 H2'].
  do 2 eexists. split_and!; [exact H1 | | exact H2 |].
  - intros m' s' n'. exact H1'.
  - rewrite H2'. unfold utf8. zcases; try lia. done.
Qed.

(** UTF-8 code units are passed through faithfully. For every scalar
    value of more than one byte, the calls of mbrtoc8 on its encoding return
    exactly its bytes, one per call; c8rtomb, given the bytes one per call,
    returns 0 until the last, then writes the whole encoding and returns its
    length. The state is initial again afterwards. *)
Theorem utf8_units m s c n m2 d errno :
  s ≠ 0 → d ≠ 0 → scalar c → 0x80 <= c → bytes m s (utf8 c) → length (utf8 c) <= n →
  mapped m2 d (length (utf8 c)) →
  (∃ st, mbrtoc8 m s n st0 errno = Ok (Z.of_nat (length (utf8 c)), head (utf8 c), st, errno) ∧
         ∀ m' s' n', c8_drain m' s' n' st errno (length (utf8 c) - 1) = Ok (Some <$> tail (utf8 c), st0)) ∧
  c8_run m2 d st0 errno (utf8 c) =
    Ok (replicate (length (utf8 c) - 1) 0 ++ [Z.of_nat (length (utf8 c))], write m2 d (utf8 c), st0, errno).
Proof.
  intros Hs Hd Hc H80 Hb Hn Hm. pose proof (utf8_bytes c Hc) as Hby. pose proof (utf8_length c) as Hlen.
  assert (1 < length (utf8 c))%nat as H1 by (unfold utf8; zcases; simpl; lia).
  destruct (utf8 c) as [|b bs] eqn:E; [simpl in *; lia|]. rewrite <- E in Hb, Hm, Hn. split.
  - exists (c8_pending bs). split.
    + rewrite (mbrtoc8_first m s c b bs n errno) by done. unfold clen. rewrite E.
      destruct (Z.eqb_spec c 0); [lia | done].
    + intros m' s' n'. apply Forall_cons in Hby as [_ Hby]. simpl. rewrite Nat.sub_0_r.
      apply c8_drain_ok; [done | simpl in Hlen; lia].
  - change st0 with (c8_state []). rewrite (c8_run_ok m2 d c [] (b :: bs) errno); try done; rewrite E; done.
Qed.

Definition emoji_mem : mem := write ∅ 4096 [0xf0; 0x9f; 0x98; 0x80; 0; 0; 0; 0].

Lemma emoji_bytes : bytes emoji_mem 4096 (utf8 0x1f600).
Proof. apply load_list_bytes. vm_compute. reflexivity. Qed.

Lemma emoji_mapped : mapped emoji_mem 4096 (length (utf8 0x1f600)).
Proof. apply mapped_eval. vm_compute. reflexivity. Qed.

Lemma utf16_roundtrip_witness :
  ∃ st1 st2,
    mbrtoc16 emoji_mem 4096 4 st0 0 = Ok (4, Some 0xd83d, st1, 0) ∧
    (∀ m' s' n', mbrtoc16 m' s' n' st1 0 = Ok (PENDING, Some 0xde00, st0, 0)) ∧
    c16rtomb emoji_mem 4096 0xd83d st0 0 = Ok (0, emoji_mem, st2, 0) ∧
    c16rtomb emoji_mem 4096 0xde00 st2 0 = Ok (4, write emoji_mem 4096 (utf8 0x1f600), st0, 0).
Proof.
  refine (utf16_roundtrip emoji_mem 4096 0x1f600 4 emoji_mem 4096 0 _ _ _ emoji_bytes _ emoji_mapped);
    [lia | lia | unfold scalar; lia | vm_compute; done].
Defined.

Lemma utf8_units_witness :
  (∃ st, mbrtoc8 emoji_mem 4096 4 st0 0 = Ok (4, Some 0xf0, st, 0) ∧
         ∀ m' s' n', c8_drain m' s' n' st 0 3 = Ok ([Some 0x9f; Some 0x98; Some 0x80], st0)) ∧
  c8_run emoji_mem 4096 st0 0 [0xf0; 0x9f; 0x98; 0x80] =
    Ok ([0; 0; 0; 4], write emoji_mem 4096 [0xf0; 0x9f; 0x98; 0x80], st0, 0).
Proof.
  refine (utf8_units emoji_mem 4096 0x1f600 4 emoji_mem 4096 0 _ _ _ _ emoji_bytes _ emoji_mapped);
    [lia | lia | unfold scalar; lia | lia | vm_compute; done].
Defined.
