(* ===== verification/Search.v ===== *)
(** * Hash tables, linear search and queues (src/src/search.c)

    The first and the last part of search.c; the AVL trees are in Tsearch.v.
    A hash table is the record the C code keeps, its array of entries a list
    (an entry whose key is the null pointer is free); the key strings live in
    the memory of CMem.v. The results of malloc, calloc and arc4random_buf
    are arguments of the function that calls them. *)
From S2P Require Import Prelude CMem Ctype MemFns StrFns Strtol Multibyte.

Definition ENOMEM : Z := 12.
Definition ESRCH : Z := 3.
Definition SIZE_MAX : Z := 2 ^ 64 - 1.

(** ** Operations *)

Record ENTRY := Entry { key : Z; data : Z }.
Inductive ACTION := FIND | ENTER.

Record htab := { h_e : list ENTRY; h_mask : Z; h_used : Z; h_k0 : Z; h_k1 : Z }.

Definition rotl (x b : Z) : Z := Z.lor (u64 (Z.shiftl x b)) (Z.shiftr x (64 - b)).

Definition SIPROUND (v : Z * Z * Z * Z) : Z * Z * Z * Z :=
  let '(v0, v1, v2, v3) := v in
  let v0 := u64 (v0 + v1) in let v1 := rotl v1 13 in let v1 := Z.lxor v1 v0 in let v0 := rotl v0 32 in
  let v2 := u64 (v2 + v3) in let v3 := rotl v3 16 in let v3 := Z.lxor v3 v2 in
  let v0 := u64 (v0 + v3) in let v3 := rotl v3 21 in let v3 := Z.lxor v3 v0 in
  let v2 := u64 (v2 + v1) in let v1 := rotl v1 17 in let v1 := Z.lxor v1 v2 in let v2 := rotl v2 32 in
  (v0, v1, v2, v3).

(** v3 ^= m; SIPROUND; v0 ^= m *)
Definition sip_absorb (v : Z * Z * Z * Z) (w : Z) : Z * Z * Z * Z :=
  let '(v0, v1, v2, v3) := v in
  let '(v0, v1, v2, v3) := SIPROUND (v0, v1, v2, Z.lxor v3 w) in
  (Z.lxor v0 w, v1, v2, v3).

Definition sip_init (k0 k1 : Z) : Z * Z * Z * Z :=
  (Z.lxor k0 0x736f6d6570736575, Z.lxor k1 0x646f72616e646f6d,
   Z.lxor k0 0x6c7967656e657261, Z.lxor k1 0x7465646279746573).

Definition sip_final (v : Z * Z * Z * Z) : Z :=
  let '(v0, v1, v2, v3) := v in
  let '(v0, v1, v2, v3) := SIPROUND (SIPROUND (SIPROUND (v0, v1, Z.lxor v2 0xff, v3))) in
  Z.lxor (Z.lxor (Z.lxor v0 v1) v2) v3.

(** SipHash-1-3 of the string at [s]. *)
Definition keyhash (m : mem) (t : htab) (s : Z) : res Z :=
  n ← strlen m s;
  '(v, i) ← loop (fuel m) (λ '(v, i),
    if i + 8 <=? n then w ← load64 m (s + i); Ok (Cont (sip_absorb v w, i + 8))
    else Ok (Brk (v, i))) (sip_init (h_k0 t) (h_k1 t), 0);
  b ← loop (fuel m) (λ '(b, j),
    if i + j <? n then c ← loadb m (s + i + j); Ok (Cont (Z.lor b (u64 (Z.shiftl c (8 * j))), j + 1))
    else Ok (Brk b)) (u64 (Z.shiftl n 56), 0);
  Ok (sip_final (sip_absorb v b)).

(** Return value, the table, errno. *)
Definition hcreate_r (nel : Z) (got_t got_e : bool) (k0 k1 : Z) (d : option htab) (errno : Z)
    : res (Z * option htab * Z) :=
  if Z.shiftr SIZE_MAX 3 <? nel then Ok (0, d, ENOMEM) else
  size ← loop 64 (λ size,
    if size <? u64 (nel + nel / 3 + 1) then Ok (Cont (u64 (size * 2))) else Ok (Brk size)) 8;
  if negb (got_t && got_e) then Ok (0, d, ENOMEM) else
  Ok (1, Some {| h_e := replicate (Z.to_nat size) (Entry 0 0); h_mask := size - 1; h_used := 0;
                 h_k0 := k0; h_k1 := k1 |}, errno).

Definition hdestroy_r (d : option htab) : option htab := None.

(** The entry [t->e[i]]. *)
Definition h_get (t : htab) (i : Z) : res ENTRY :=
  match h_e t !! Z.to_nat i with Some x => Ok x | None => Trap Segv end.

(** The probe loop: the entry found, or the free one it stopped at. *)
Definition h_probe (m : mem) (t : htab) (k : Z) (h : Z) : res (bool * Z) :=
  loop (S (length (h_e t))) (λ '(i, step),
    x ← h_get t i;
    if key x =? 0 then Ok (Brk (false, i)) else
    c ← strcmp m (key x) k;
    if c =? 0 then Ok (Brk (true, i))
    else Ok (Cont (Z.land (u64 (i + step)) (h_mask t), step + 1))) (Z.land h (h_mask t), 1).

(** Return value, the index [*ret] points at (none for null), the table,
    errno. *)
Definition hsearch_r (m : mem) (item : ENTRY) (act : ACTION) (d : option htab) (errno : Z)
    : res (Z * option Z * option htab * Z) :=
  match d with
  | None => Ok (0, None, None, ESRCH)
  | Some t =>
      h ← keyhash m t (key item);
      '(found, i) ← h_probe m t (key item) h;
      if (found : bool) then Ok (1, Some i, Some t, errno) else
      let full := h_mask t - h_mask t / 4 <? h_used t + 1 in
      match act with
      | FIND => Ok (0, None, Some t, ESRCH)
      | ENTER =>
          if full then Ok (0, None, Some t, ENOMEM) else
          Ok (1, Some i, Some {| h_e := <[Z.to_nat i := item]> (h_e t); h_mask := h_mask t;
                                 h_used := h_used t + 1; h_k0 := h_k0 t; h_k1 := h_k1 t |}, errno)
      end
  end.

(** The functions without [_r] act on the static table, passed here. *)
Definition hcreate (nel : Z) (got_t got_e : bool) (k0 k1 : Z) (global : option htab) (errno : Z)
    : res (Z * option htab * Z) :=
  match global with Some _ => Ok (0, global, errno) | None => hcreate_r nel got_t got_e k0 k1 None errno end.
Definition hdestroy (global : option htab) : option htab := hdestroy_r global.
Definition hsearch (m : mem) (item : ENTRY) (act : ACTION) (global : option htab) (errno : Z)
    : res (option Z * option htab * Z) :=
  '(_, r, global, errno) ← hsearch_r m item act global errno; Ok (r, global, errno).

(** Linear search; [cmp (key, -)] is a function of the contents of an
    element. *)
Definition lfind (m : mem) (base nel width : Z) (cmp : list Z → Z) : res Z :=
  loop (S (Z.to_nat nel)) (λ '(i, p),
    if i <? nel then
      x ← load_list m p (Z.to_nat width);
      if cmp x =? 0 then Ok (Brk p) else Ok (Cont (i + 1, p + width))
    else Ok (Brk 0)) (0, base).

(** Return value, memory, [*nel]. *)
Definition lsearch (m : mem) (k base nel width : Z) (cmp : list Z → Z) : res (Z * mem * Z) :=
  r ← lfind m base nel width cmp;
  if negb (r =? 0) then Ok (r, m, nel) else
  let r := base + nel * width in
  '(_, m) ← memcpy m r k width;
  Ok (r, m, nel + 1).

(** struct qelem: [next] at offset 0, [prev] at offset 8. *)
Definition insque (m : mem) (e p : Z) : res mem :=
  if p =? 0 then m ← store64 m (e + 8) 0; store64 m e 0 else
  pn ← load64 m p;
  m ← store64 m e pn;
  m ← store64 m (e + 8) p;
  m ← store64 m p e;
  en ← load64 m e;
  if negb (en =? 0) then store64 m (en + 8) e else Ok m.

Definition remque (m : mem) (e : Z) : res mem :=
  en ← load64 m e;
  m ← (if negb (en =? 0) then ep ← load64 m (e + 8); store64 m (en + 8) ep else Ok m);
  ep ← load64 m (e + 8);
  if negb (ep =? 0) then en ← load64 m e; store64 m ep en else Ok m.

(** ** The hash of a key is a function of its bytes *)

Fixpoint sip_blocks (k : nat) (v : Z * Z * Z * Z) (l : list Z) : Z * Z * Z * Z :=
  match k with O => v | S k => sip_blocks k (sip_absorb v (le_word (take 8 l))) (drop 8 l) end.

Definition siphash (k0 k1 : Z) (l : list Z) : Z :=
  let k := (length l / 8)%nat in
  sip_final (sip_absorb (sip_blocks k (sip_init k0 k1) l)
    (Z.lor (u64 (Z.shiftl (length l) 56)) (le_word (drop (8 * k) l)))).

Lemma sip_blocks_S k v l :
  sip_blocks (S k) v l = sip_absorb (sip_blocks k v l) (le_word (take 8 (drop (8 * k) l))).
Proof.
  revert v l. induction k as [|k IH]; intros v l; [done|].
  change (sip_blocks (S (S k)) v l) with (sip_blocks (S k) (sip_absorb v (le_word (take 8 l))) (drop 8 l)).
  rewrite IH. change (sip_blocks (S k) v l) with (sip_blocks k (sip_absorb v (le_word (take 8 l))) (drop 8 l)).
  do 2 f_equal. rewrite drop_drop. do 2 f_equal. lia.
Qed.

Lemma keyhash_ok m t s l :
  mem_ok m → cstr m s l → keyhash m t s = Ok (siphash (h_k0 t) (h_k1 t) l).
Proof.
  intros Hok Hs. unfold keyhash. rewrite (strlen_ok m s l Hok Hs). cbn [mbind res_bind].
  pose proof (cstr_bytes _ _ _ Hs) as Hb. pose proof (cstr_is_byte _ _ _ Hs) as Hby.
  pose proof (str_fuel _ _ _ Hs) as Hf. set (k := (length l / 8)%nat).
  pose proof (Nat.div_mod_eq (length l) 8) as Hdm. pose proof (Nat.mod_upper_bound (length l) 8 ltac:(lia)) as Hmod. fold k in Hdm.
  set (v0 := sip_init (h_k0 t) (h_k1 t)).
  match goal with |- mbind _ ?c = _ => assert (c = Ok (sip_blocks k v0 l, Z.of_nat (8 * k))) as -> end.
  { apply wp_eq_r.
    apply (wp_loop (λ '(v, i), ∃ j : nat, (j <= k)%nat ∧ v = sip_blocks j v0 l ∧ i = Z.of_nat (8 * j))
      (λ '(_, i), Z.to_nat (length l - i))).
    - intros [v i] (j & Hj & -> & ->). destruct (Z.leb_spec ((8 * j)%nat + 8) (length l)).
      + wp_pure. assert (j < k)%nat by lia.
        wp_use (load64_ok m (s + (8 * j)%nat) (take 8 (drop (8 * j) l))).
        * by apply bytes_take, bytes_drop; [lia|].
        * rewrite length_take, length_drop. lia.
        * wp_pure. split; [|lia]. exists (S j). split_and!; [lia | by rewrite sip_blocks_S | lia].
      + wp_pure. assert (j = k) as -> by lia. done.
    - exists 0%nat. split_and!; [lia | done | done].
    - lia. }
  cbn [mbind res_bind]. set (tl := drop (8 * k) l). assert (length tl = length l - 8 * k)%nat as Htl by (unfold tl; by rewrite length_drop).
  match goal with |- mbind _ ?c = _ =>
    assert (c = Ok (Z.lor (u64 (Z.shiftl (length l) 56)) (le_word tl))) as -> end; [|reflexivity].
  apply wp_eq_r.
  apply (wp_loop (λ '(b, j), ∃ i : nat, (i <= length tl)%nat ∧ j = Z.of_nat i ∧
      b = Z.lor (u64 (Z.shiftl (length l) 56)) (le_word (take i tl)))
    (λ '(_, j), Z.to_nat (length tl - j))).
  - intros [b j] (i & Hi & -> & ->). destruct (Z.ltb_spec ((8 * k)%nat + i) (length l)).
    + wp_pure. destruct (lookup_lt_is_Some_2 tl i) as [c Hc]; [lia|].
      assert (m !! (s + (8 * k)%nat + i) = Some c) as Hl.
      { unfold tl in Hc. rewrite lookup_drop in Hc. replace (s + (8 * k)%nat + i) with (s + (8 * k + i)%nat) by lia.
        by apply Hb. }
      wp_use (loadb_ok _ _ _ Hl). wp_pure. split; [|lia]. exists (S i). split_and!; [lia | lia|].
      rewrite (take_S_r _ _ _ Hc), le_word_app, length_take_le by lia. cbn [le_word]. rewrite Z.mul_0_r, Z.add_0_r.
      assert (is_byte c) as Hcb by (eapply (Forall_lookup_1 _ tl); [by apply Forall_drop | done]).
      pose proof (le_word_range (take i tl) ltac:(by apply Forall_take, Forall_drop)) as Hr.
      rewrite length_take_le in Hr by lia. change 256 with (2 ^ 8) in *. rewrite <- Z.pow_mul_r in * by lia.
      assert (2 ^ (8 * i) <= 2 ^ 48) by (apply Z.pow_le_mono_r; lia). unfold is_byte in Hcb.
      rewrite (Z.shiftl_mul_pow2 c), (uwrap_small 64 (c * _)) by (try (split; [nia|]); nia || lia).
      rewrite <- Z.lor_assoc. f_equal. rewrite Z.lor_comm, lor_add by lia. lia.
    + wp_pure. rewrite firstn_all2 by lia. done.
  - exists 0%nat. rewrite take_0. split_and!; [lia | done|]. by rewrite Z.lor_0_r.
  - lia.
Qed.

(** ** Triangular probing *)

(** The slot of the [j]-th probe in a table of 2^k entries. *)
Definition slot (k h : Z) (j : nat) : Z := (h + Z.of_nat j * (Z.of_nat j + 1) / 2) mod 2 ^ k.

Lemma tri_even (j : nat) : 2 * (j * (j + 1) / 2) = j * (j + 1).
Proof.
  induction j as [|j IH]; [done|].
  replace (S j * (S j + 1)) with (j * (j + 1) + (j + 1) * 2) by lia.
  rewrite Z.div_add by lia. lia.
Qed.

Lemma tri_S (j : nat) : S j * (S j + 1) / 2 = j * (j + 1) / 2 + S j.
Proof. pose proof (tri_even j). pose proof (tri_even (S j)). lia. Qed.

Lemma slot_S k h j : 0 <= k → (slot k h j + S j) mod 2 ^ k = slot k h (S j).
Proof.
  intros Hk. unfold slot. rewrite Zplus_mod_idemp_l, tri_S. f_equal. lia.
Qed.

Lemma slot_range k h j : 0 <= k → 0 <= slot k h j < 2 ^ k.
Proof. intros. apply Z.mod_pos_bound. by apply Z.pow_pos_nonneg. Qed.

(** A product of a positive number below 2^(k+1) of each parity is not a
    multiple of 2^(k+1). *)
Lemma odd_divide k a b : 0 <= k → Z.Odd a → (2 ^ k | a * b) → (2 ^ k | b).
Proof.
  intros Hk [e He]. revert k Hk b. apply (natlike_ind (λ k, ∀ b, (2 ^ k | a * b) → (2 ^ k | b))).
  - intros b _. apply Z.divide_1_l.
  - intros k Hk IH b Hd. rewrite Z.pow_succ_r in * by done.
    destruct (IH b) as [r Hr]; [by apply Z.divide_trans with (2 * 2 ^ k); [apply Z.divide_factor_r|]|].
    destruct Hd as [q Hq]. assert (0 < 2 ^ k) by (by apply Z.pow_pos_nonneg).
    assert (a * r = 2 * q) as Har by nia. exists (q - e * r). nia.
Qed.

(** The first 2^k probes are at different slots. *)
Lemma slot_inj k h (a b : nat) : 0 <= k → a < b → b < 2 ^ k → slot k h a ≠ slot k h b.
Proof.
  intros Hk Hab Hb E. unfold slot in E.
  assert (2 ^ k | b * (b + 1) / 2 - a * (a + 1) / 2) as [q Hq].
  { apply Z.mod_divide; [apply Z.pow_nonzero; lia|].
    replace (b * (b + 1) / 2 - a * (a + 1) / 2) with
      ((h + b * (b + 1) / 2) - (h + a * (a + 1) / 2)) by lia.
    rewrite Zminus_mod, E, Z.sub_diag. apply Z.mod_0_l. apply Z.pow_nonzero; lia. }
  pose proof (tri_even a). pose proof (tri_even b).
  assert (2 ^ (k + 1) | (b - a) * (b + a + 1)) as Hd.
  { exists q. rewrite Z.pow_add_r by lia. lia. }
  assert (2 ^ (k + 1) = 2 * 2 ^ k) as H2 by (rewrite Z.pow_add_r by lia; lia).
  destruct (Z.Even_or_Odd (b - a)) as [[x Hx]|Ho].
  - rewrite Z.mul_comm in Hd. apply odd_divide in Hd; [|lia|exists (a + x); lia].
    apply Z.divide_pos_le in Hd; lia.
  - apply odd_divide in Hd; [|lia|done]. apply Z.divide_pos_le in Hd; lia.
Qed.

(** Every slot is probed. *)
Lemma slot_surj k h (i : Z) : 0 <= k → 0 <= i < 2 ^ k → ∃ j : nat, j < 2 ^ k ∧ slot k h j = i.
Proof.
  intros Hk Hi. set (n := Z.to_nat (2 ^ k)).
  assert (slot k h <$> seq 0 n ≡ₚ seqZ 0 (2 ^ k)) as Hp.
  { apply submseteq_length_Permutation.
    - apply NoDup_submseteq.
      + apply NoDup_fmap_2_strong; [|apply NoDup_seq]. intros a b Ha%elem_of_seq Hb%elem_of_seq E.
        destruct (Nat.lt_trichotomy a b) as [?|[?|?]]; [|done|].
        * exfalso. apply (slot_inj k h a b); lia || done.
        * exfalso. apply (slot_inj k h b a); lia || done.
      + intros x (j & -> & Hj)%list_elem_of_fmap. apply elem_of_seqZ. pose proof (slot_range k h j Hk). lia.
    - rewrite length_fmap, length_seq, length_seqZ. done. }
  assert (i ∈ slot k h <$> seq 0 n) as Hin by (rewrite Hp; apply elem_of_seqZ; lia).
  apply list_elem_of_fmap in Hin as (j & -> & Hj%elem_of_seq). exists j. split; [lia | done].
Qed.

(** ** The table *)

Definition used_entry (x : ENTRY) : Prop := key x ≠ 0.

#[export] Instance used_entry_dec x : Decision (used_entry x).
Proof. unfold used_entry. apply _. Defined.

Definition occupied (t : htab) (i : Z) : Prop :=
  ∃ x, h_e t !! Z.to_nat i = Some x ∧ used_entry x.

(** Entry [i] has the key [l]. *)
Definition holds (m : mem) (t : htab) (l : list Z) (i : nat) : Prop :=
  ∃ x, h_e t !! i = Some x ∧ used_entry x ∧ cstr m (key x) l.

Definition h_hash (t : htab) (l : list Z) : Z := siphash (h_k0 t) (h_k1 t) l.

(** The table keeps a quarter of its 2^k entries free, every key is reached
    by its probe sequence, and no key is there twice. *)
Record h_wf (m : mem) (k : Z) (t : htab) : Prop := {
  wf_k : 3 <= k <= 63;
  wf_len : Z.of_nat (length (h_e t)) = 2 ^ k;
  wf_mask : h_mask t = 2 ^ k - 1;
  wf_used : h_used t = Z.of_nat (length (filter used_entry (h_e t)));
  wf_room : h_used t <= h_mask t - h_mask t / 4;
  wf_slot : ∀ i x, h_e t !! i = Some x → used_entry x → ∃ l (j : nat),
    cstr m (key x) l ∧ Z.of_nat i = slot k (h_hash t l) j ∧
    ∀ j' : nat, (j' < j)%nat → occupied t (slot k (h_hash t l) j');
  wf_dup : ∀ i i' l, holds m t l i → holds m t l i' → i = i';
}.

Lemma land_mask k x : 0 <= k → Z.land x (2 ^ k - 1) = x mod 2 ^ k.
Proof. intros. rewrite <- Z.land_ones by done. by rewrite Z.ones_equiv, Z.sub_1_r. Qed.

Lemma filter_free {X} (P : X → Prop) `{!∀ x, Decision (P x)} l :
  (length (filter P l) < length l)%nat → ∃ i x, l !! i = Some x ∧ ¬ P x.
Proof.
  induction l as [|x l IH]; [simpl; lia|]. rewrite filter_cons. case_decide.
  - cbn [length]. intros (i & y & Hi & Hy)%Nat.succ_lt_mono%IH. by exists (S i), y.
  - intros _. by exists 0%nat, x.
Qed.

Lemma filter_insert {X} (P : X → Prop) `{!∀ x, Decision (P x)} l i x y :
  l !! i = Some x → ¬ P x → P y → length (filter P (<[i := y]> l)) = S (length (filter P l)).
Proof.
  revert i. induction l as [|z l IH]; intros [|i] Hi Hx Hy; simplify_eq/=.
  - rewrite !filter_cons, decide_True, decide_False by done. done.
  - rewrite !filter_cons. case_decide; cbn [length]; by rewrite (IH i).
Qed.

Lemma cmp_str_zero m p q l1 l2 :
  cstr m p l1 → cstr m q l2 → cmp_bytes (l1 ++ [0]) (l2 ++ [0]) = 0 ↔ l1 = l2.
Proof.
  intros [_ H1] [_ H2]. split; [|by intros ->; apply cmp_bytes_eq].
  revert l2 H2. induction H1 as [|x l1 Hx H1 IH]; intros [|y l2] H2; simpl; [done|..];
    try (apply Forall_cons in H2 as [Hy H2]); (destruct (Z.eqb_spec x y) || destruct (Z.eqb_spec x 0) || destruct (Z.eqb_spec 0 y)); subst; try lia.
  intros E. f_equal. by apply IH.
Qed.

(** The probe loop stops, at the entry of the key or else at a free entry of
    its probe sequence. *)
Lemma h_probe_ok m k t s l :
  mem_ok m → h_wf m k t → cstr m s l →
  wp (h_probe m t s (h_hash t l)) (λ '(found, i), 0 <= i < 2 ^ k ∧
    if found : bool then holds m t l (Z.to_nat i)
    else (∀ i', ¬ holds m t l i') ∧ (∃ x, h_e t !! Z.to_nat i = Some x ∧ ¬ used_entry x) ∧
         ∃ j : nat, i = slot k (h_hash t l) j ∧ ∀ j' : nat, (j' < j)%nat → occupied t (slot k (h_hash t l) j')).
Proof.
  intros Hok Hwf Hs. pose proof (wf_k _ _ _ Hwf) as Hk. pose proof (wf_len _ _ _ Hwf) as Hlen.
  set (h := h_hash t l). assert (0 < 2 ^ k) as Hpos by (apply Z.pow_pos_nonneg; lia).
  (* a free entry ends the loop *)
  assert (∃ (j0 : nat) x, j0 < 2 ^ k ∧ h_e t !! Z.to_nat (slot k h j0) = Some x ∧ ¬ used_entry x) as (j0 & x0 & Hj0 & Hx0 & Hfree).
  { destruct (filter_free used_entry (h_e t)) as (i & x & Hi & Hx).
    - pose proof (wf_used _ _ _ Hwf). pose proof (wf_room _ _ _ Hwf). pose proof (wf_mask _ _ _ Hwf).
      assert (0 <= h_mask t / 4) by (apply Z.div_pos; lia). lia.
    - pose proof (lookup_lt_Some _ _ _ Hi). destruct (slot_surj k h i) as (j & Hj & Ej); [lia | lia|].
      exists j, x. rewrite Ej, Nat2Z.id. done. }
  unfold h_probe.
  apply (wp_loop (λ '(i, step), ∃ j : nat, (j <= j0)%nat ∧ i = slot k h j ∧ step = j + 1 ∧
      ∀ j' : nat, (j' < j)%nat → ∃ x, h_e t !! Z.to_nat (slot k h j') = Some x ∧ used_entry x ∧ ¬ cstr m (key x) l)
    (λ '(_, step), Z.to_nat (2 ^ k - step))).
  - intros [i step] (j & Hj & -> & -> & Hbefore). pose proof (slot_range k h j ltac:(lia)) as Hr.
    destruct (lookup_lt_is_Some_2 (h_e t) (Z.to_nat (slot k h j))) as [x Hx]; [lia|].
    wp_pure. unfold h_get. rewrite Hx. wp_pure. destruct (Z.eqb_spec (key x) 0) as [E0|E0].
    + wp_pure. split; [done|]. split; [|split; [exists x; split; [done | by intros ?]|]].
      * intros i' (y & Hy & Hyu & Hyl). destruct (wf_slot _ _ _ Hwf i' y Hy Hyu) as (l' & j1 & Hl' & Ei & Hocc).
        rewrite (cstr_inj _ _ _ _ Hl' Hyl) in *. fold h in Ei, Hocc.
        destruct (Nat.lt_trichotomy j1 j) as [Hlt|[->|Hgt]].
        -- destruct (Hbefore j1 Hlt) as (z & Hz & _ & Hzl). rewrite <- Ei, Nat2Z.id in Hz. by simplify_eq.
        -- rewrite <- Ei, Nat2Z.id in Hx. by simplify_eq.
        -- destruct (Hocc j Hgt) as (z & Hz & Hzu). by simplify_eq.
      * exists j. split; [done|]. intros j' Hj'. destruct (Hbefore j' Hj') as (z & Hz & Hzu & _). by exists z.
    + destruct (wf_slot _ _ _ Hwf _ x Hx E0) as (l' & _ & Hl' & _).
      wp_pure. wp_use (strcmp_ok m (key x) s l' l Hl' Hs).
      destruct (Z.eqb_spec (cmp_bytes (l' ++ [0]) (l ++ [0])) 0) as [Ec|Ec]; wp_pure.
      * apply (cmp_str_zero m (key x) s) in Ec as ->; [|done..]. split; [done|]. by exists x.
      * rewrite (cmp_str_zero m (key x) s) in Ec by done.
        assert (j ≠ j0) by (intros ->; by simplify_eq). split; [|lia].
        assert (2 ^ k <= 2 ^ 63) by (apply Z.pow_le_mono_r; lia).
        exists (S j). split_and!; [lia | | lia|].
        -- rewrite (wf_mask _ _ _ Hwf), land_mask, uwrap_small by lia.
           rewrite <- (slot_S k h j) by lia. f_equal. lia.
        -- intros j' Hj'. destruct (decide (j' = j)) as [->|]; [|apply Hbefore; lia].
           exists x. split_and!; [done | done|]. intros Hxl. by rewrite (cstr_inj _ _ _ _ Hxl Hl') in Ec.
  - exists 0%nat. split_and!; [lia | | lia | lia]. rewrite (wf_mask _ _ _ Hwf), land_mask by lia.
    unfold slot. by rewrite Z.add_0_r.
  - lia.
Qed.

(** The table after an insertion. *)
Definition h_insert (t : htab) (i : Z) (item : ENTRY) : htab :=
  {| h_e := <[Z.to_nat i := item]> (h_e t); h_mask := h_mask t; h_used := h_used t + 1;
     h_k0 := h_k0 t; h_k1 := h_k1 t |}.

Lemma h_insert_wf m k t i item l j :
  h_wf m k t → cstr m (key item) l → used_entry item → 0 <= i < 2 ^ k →
  (∀ i', ¬ holds m t l i') → (∃ x, h_e t !! Z.to_nat i = Some x ∧ ¬ used_entry x) →
  i = slot k (h_hash t l) j → (∀ j' : nat, (j' < j)%nat → occupied t (slot k (h_hash t l) j')) →
  h_used t + 1 <= h_mask t - h_mask t / 4 →
  h_wf m k (h_insert t i item) ∧
  ∀ l' i', holds m (h_insert t i item) l' i' ↔ holds m t l' i' ∨ (l' = l ∧ i' = Z.to_nat i).
Proof.
  intros Hwf Hl Hu Hi Hno (x0 & Hx0 & Hfree) Ei Hocc Hroom. pose proof (wf_len _ _ _ Hwf) as Hlen.
  assert (∀ i' y, <[Z.to_nat i := item]> (h_e t) !! i' = Some y ↔
    (i' = Z.to_nat i ∧ y = item) ∨ (i' ≠ Z.to_nat i ∧ h_e t !! i' = Some y)) as Hins.
  { intros i' y. destruct (decide (i' = Z.to_nat i)) as [->|Hne].
    - rewrite list_lookup_insert_eq by lia. split; [intros [= <-]; by left | by intros [[_ ->]|[? _]]].
    - rewrite list_lookup_insert_ne by done. split; [by right | by intros [[? _]|[_ ?]]]. }
  assert (∀ a, occupied t a → occupied (h_insert t i item) a) as Hmono.
  { intros a (y & Hy & Hyu). exists y. split; [|done]. apply Hins. right. split; [|done].
    intros E. rewrite E in Hy. by simplify_eq. }
  assert (∀ l' i', holds m (h_insert t i item) l' i' ↔ holds m t l' i' ∨ (l' = l ∧ i' = Z.to_nat i)) as Hiff.
  { intros l' i'. split.
    - intros (y & Hy & Hyu & Hyl). apply Hins in Hy as [[-> ->]|[Hne Hy]]; [|left; by exists y].
      right. split; [by eapply cstr_inj | done].
    - intros [(y & Hy & Hyu & Hyl)|[-> ->]].
      + exists y. split_and!; [|done..]. apply Hins. right. split; [|done]. intros ->. by simplify_eq.
      + exists item. split_and!; [|done..]. apply Hins. by left. }
  split; [|done]. split; simpl; try apply Hwf.
  - by rewrite length_insert.
  - rewrite (filter_insert _ _ _ _ _ Hx0 Hfree Hu), (wf_used _ _ _ Hwf). lia.
  - done.
  - intros i' y Hy Hyu. apply Hins in Hy as [[-> ->]|[Hne Hy]].
    + exists l, j. split_and!; [done | |].
      * rewrite Z2Nat.id by lia. done.
      * intros j' Hj'. apply Hmono, Hocc. done.
    + destruct (wf_slot _ _ _ Hwf _ _ Hy Hyu) as (l' & j1 & H1 & H2 & H3). exists l', j1.
      split_and!; [done | done|]. intros j' Hj'. apply Hmono, H3. done.
  - intros a b l' [Ha|[-> ->]]%Hiff [Hb|[E ->]]%Hiff.
    + by eapply (wf_dup _ _ _ Hwf).
    + subst. by destruct (Hno a).
    + by destruct (Hno b).
    + done.
Qed.

Lemma hcreate_size nel :
  0 <= nel <= Z.shiftr SIZE_MAX 3 →
  wp (loop 64 (λ size,
        if size <? u64 (nel + nel / 3 + 1) then Ok (Cont (u64 (size * 2))) else Ok (Brk size)) 8)
    (λ size, ∃ k, 3 <= k <= 62 ∧ size = 2 ^ k ∧ nel + nel / 3 + 1 <= size).
Proof.
  change (Z.shiftr SIZE_MAX 3) with (2 ^ 61 - 1). intros Hn.
  rewrite (uwrap_small 64 (nel + nel / 3 + 1)) by zdiv.
  apply (wp_loop (λ size, ∃ k, 3 <= k <= 62 ∧ size = 2 ^ k) (λ size, Z.to_nat (62 - Z.log2 size))).
  - intros size (k & Hk & ->). destruct (Z.ltb_spec (2 ^ k) (nel + nel / 3 + 1)).
    + wp_pure. assert (k < 62).
      { assert (nel + nel / 3 + 1 <= 2 ^ 62) by zdiv. apply (Z.pow_lt_mono_r_iff 2); lia. }
      assert (2 ^ k * 2 = 2 ^ (k + 1)) as E by (rewrite Z.pow_add_r by lia; lia). rewrite E.
      assert (0 < 2 ^ (k + 1) <= 2 ^ 62) by (split; [apply Z.pow_pos_nonneg; lia | apply Z.pow_le_mono_r; lia]).
      rewrite uwrap_small by lia. rewrite !Z.log2_pow2 by lia. split; [|lia]. exists (k + 1). split; [lia | done].
    + wp_pure. exists k. split_and!; done || lia.
  - exists 3. split; [lia | done].
  - change (Z.log2 8) with 3. lia.
Qed.

Lemma filter_none {X} (P : X → Prop) `{!∀ x, Decision (P x)} n x : ¬ P x → filter P (replicate n x) = [].
Proof. intros Hx. induction n; [done|]. simpl. rewrite filter_cons. by rewrite decide_False. Qed.

(** A new table. *)
Definition h_empty (k k0 k1 : Z) : htab :=
  {| h_e := replicate (Z.to_nat (2 ^ k)) (Entry 0 0); h_mask := 2 ^ k - 1; h_used := 0; h_k0 := k0; h_k1 := k1 |}.

Lemma h_empty_free k k0 k1 m l i : ¬ holds m (h_empty k k0 k1) l i.
Proof. intros (x & [-> _]%lookup_replicate_1 & Hu & _). by apply Hu. Qed.

Lemma h_empty_wf m k k0 k1 : 3 <= k <= 62 → h_wf m k (h_empty k k0 k1).
Proof.
  intros Hk. assert (0 < 2 ^ k) by (apply Z.pow_pos_nonneg; lia).
  split; simpl; [lia | rewrite length_replicate; lia | done | | zdiv | |].
  - rewrite filter_none; [done | by intros ?].
  - intros i x [-> _]%lookup_replicate_1 Hu. by destruct Hu.
  - intros i i' l Hh. by apply h_empty_free in Hh.
Qed.

(** ** Linear search *)

(** Index of the first element equal to the key. *)
Fixpoint find_elt (kcmp : list Z → Z) (xs : list (list Z)) : option nat :=
  match xs with [] => None | x :: xs => if kcmp x =? 0 then Some 0%nat else S <$> find_elt kcmp xs end.

Lemma lfind_ok m base (w : nat) kcmp xs :
  bytes m base (concat xs) → Forall (λ x, length x = w) xs →
  lfind m base (length xs) w kcmp =
  Ok (match find_elt kcmp xs with Some i => base + i * w | None => 0 end).
Proof.
  intros Hb Hw. unfold lfind. rewrite !Nat2Z.id.
  assert (∀ f i n p, (length xs < f)%nat → n = i + length xs → bytes m p (concat xs) →
    loop f (λ '(i, p),
      if i <? n then
        x ← load_list m p w; if kcmp x =? 0 then Ok (Brk p) else Ok (Cont (i + 1, p + w))
      else Ok (Brk 0)) (i, p) =
    Ok (match find_elt kcmp xs with Some i => p + i * w | None => 0 end)) as Hgen.
  { clear Hb. induction Hw as [|x xs Hx Hw IH]; intros [|f] i n p Hf -> Hp; try (simpl in Hf; lia); rewrite loop_S.
    - destruct (Z.ltb_spec i (i + length (@nil (list Z)))) as [H|]; [simpl in H; lia | done].
    - cbn [concat] in Hp. apply bytes_app in Hp as [Hx1 Hp]. cbn [length] in *.
      destruct (Z.ltb_spec i (i + S (length xs))); [|lia].
      apply load_list_ok in Hx1. rewrite Hx in Hx1, Hp. rewrite Hx1. cbn [mbind res_bind find_elt].
      destruct (kcmp x =? 0); [do 2 f_equal; lia|]. rewrite (IH f (i + 1) _ (p + w)); [|lia|lia|done].
      destruct (find_elt kcmp xs) as [j|]; simpl; [|done]. f_equal. lia. }
  apply Hgen; [lia | lia | done].
Qed.

Lemma find_elt_Some kcmp xs i :
  find_elt kcmp xs = Some i → ∃ x, xs !! i = Some x ∧ kcmp x = 0 ∧ ∀ j y, (j < i)%nat → xs !! j = Some y → kcmp y ≠ 0.
Proof.
  revert i. induction xs as [|x xs IH]; intros i; simpl; [done|].
  destruct (Z.eqb_spec (kcmp x) 0) as [E|E].
  - intros [= <-]. exists x. split_and!; [done | done|]. lia.
  - destruct (find_elt kcmp xs) as [k|]; [|done]. intros [= <-].
    destruct (IH k eq_refl) as (y & Hy & Hy0 & Hall). exists y. split_and!; [done | done|].
    intros [|j] z Hj Hz; simpl in Hz; [by simplify_eq | apply (Hall j); done || lia].
Qed.

Lemma find_elt_None kcmp xs : find_elt kcmp xs = None ↔ Forall (λ x, kcmp x ≠ 0) xs.
Proof.
  induction xs as [|x xs IH]; simpl; [done|]. rewrite Forall_cons.
  destruct (Z.eqb_spec (kcmp x) 0); [by split; [|intros [? _]]|]. rewrite fmap_None, IH. tauto.
Qed.

(** ** Queues *)

(** The element at [p] has these links. *)
Definition qnode (m : mem) (p nx pv : Z) : Prop :=
  bytes m p (le_split 8 nx) ∧ bytes m (p + 8) (le_split 8 pv) ∧ 0 <= nx < 2 ^ 64 ∧ 0 <= pv < 2 ^ 64.

(** The elements [ps] are linked in this order between [pv] and [nx]. *)
Fixpoint dseg (m : mem) (pv : Z) (ps : list Z) (nx : Z) : Prop :=
  match ps with
  | [] => True
  | p :: ps => qnode m p (hd nx ps) pv ∧ dseg m p ps nx
  end.

Definition apart (a b : Z) : Prop := a + 16 <= b ∨ b + 16 <= a.

Lemma le_word8 x : 0 <= x < 2 ^ 64 → le_word (le_split 8 x) = x.
Proof. intros. rewrite le_word_split. by apply Z.mod_small. Qed.

Lemma load_link m p x : bytes m p (le_split 8 x) → 0 <= x < 2 ^ 64 → load64 m p = Ok x.
Proof. intros Hb Hx. rewrite (load64_ok _ _ _ Hb) by apply le_split_length. by rewrite le_word8. Qed.

Lemma store_link m p x : mapped m p 8 → store64 m p x = Ok (write m p (le_split 8 x)).
Proof. intros Hm. apply store_list_ok; [by rewrite le_split_length | apply le_split_bytes]. Qed.

Lemma qnode_other m p nx pv q x off :
  qnode m p nx pv → apart p q → off = 0 ∨ off = 8 → qnode (write m (q + off) (le_split 8 x)) p nx pv.
Proof.
  intros (H1 & H2 & H3) Ha Ho. unfold apart in Ha.
  split; [|split; [|exact H3]]; (apply bytes_write_out; [rewrite !le_split_length; lia | done]).
Qed.

Lemma qnode_next m p nx pv x : qnode m p nx pv → 0 <= x < 2 ^ 64 → qnode (write m p (le_split 8 x)) p x pv.
Proof.
  intros (H1 & H2 & H3 & H4) Hx. split_and!; [apply bytes_write | | lia | lia | lia | lia].
  apply bytes_write_out; [rewrite !le_split_length; lia | done].
Qed.

Lemma qnode_prev m p nx pv x : qnode m p nx pv → 0 <= x < 2 ^ 64 → qnode (write m (p + 8) (le_split 8 x)) p nx x.
Proof.
  intros (H1 & H2 & H3 & H4) Hx. split_and!; [| apply bytes_write | lia | lia | lia | lia].
  apply bytes_write_out; [rewrite !le_split_length; lia | done].
Qed.

Lemma qnode_mapped m p nx pv : qnode m p nx pv → mapped m p 8 ∧ mapped m (p + 8) 8.
Proof.
  intros (H1%bytes_mapped & H2%bytes_mapped & _). rewrite !le_split_length in *. done.
Qed.

Lemma dseg_app m pv ps qs nx :
  dseg m pv (ps ++ qs) nx ↔ dseg m pv ps (hd nx qs) ∧ dseg m (List.last ps pv) qs nx.
Proof.
  revert pv. induction ps as [|p ps IH]; intros pv; [simpl; tauto|].
  cbn [app dseg]. rewrite IH. assert (hd nx (ps ++ qs) = hd (hd nx qs) ps) as -> by (by destruct ps).
  assert (List.last (p :: ps) pv = List.last ps p) as ->; [|tauto].
  revert p. clear. induction ps as [|q ps IH]; intros p; [done|]. simpl in *. destruct ps; [done | apply IH].
Qed.

Lemma dseg_write m pv ps nx q x off :
  dseg m pv ps nx → Forall (λ p, apart p q) ps → off = 0 ∨ off = 8 →
  dseg (write m (q + off) (le_split 8 x)) pv ps nx.
Proof.
  revert pv. induction ps as [|p ps IH]; intros pv; cbn [dseg]; [done|]. intros [H1 H2] [Ha Hs]%Forall_cons Ho.
  split; [by apply qnode_other | by apply IH].
Qed.

(** Inserting [e] after the element [p] of a list. *)
Lemma insque_ok m A p B e :
  mem_ok m → dseg m 0 (A ++ p :: B) 0 → mapped m e 16 →
  Forall (λ q, apart q e) (A ++ p :: B) → Forall (λ q, apart q p) (A ++ B) →
  (∀ b B', B = b :: B' → Forall (λ q, apart q b) (A ++ B')) →
  ∃ m', insque m e p = Ok m' ∧ dseg m' 0 (A ++ p :: e :: B) 0.
Proof.
  intros Hok Hd Hme He Hp Hbs. apply dseg_app in Hd as [HA [Hnp HB]]. cbn [hd] in *.
  apply Forall_app in He as [HeA [Hep HeB]%Forall_cons]. apply Forall_app in Hp as [HpA HpB].
  destruct (mem_ok_range m e 16 Hok Hme ltac:(lia)) as [He0 He1].
  pose proof (qnode_mapped _ _ _ _ Hnp) as [Hmp Hmp8]. pose proof Hnp as (Hn1 & _ & Hr1 & Hr2).
  destruct (mem_ok_range m p 8 Hok Hmp ltac:(lia)) as [Hp0 Hp1].
  unfold insque. destruct (Z.eqb_spec p 0); [lia|]. rewrite (load_link m p (hd 0 B)) by done. cbn [mbind res_bind].
  rewrite (store_link m e) by (eapply mapped_mono; [exact Hme | lia | lia]). cbn [mbind res_bind].
  set (m1 := write m e (le_split 8 (hd 0 B))). assert (mapped m1 e 16) as Hm1 by (by apply mapped_write).
  rewrite (store_link m1 (e + 8)) by (eapply mapped_mono; [exact Hm1 | lia | lia]). cbn [mbind res_bind].
  set (m2 := write m1 (e + 8) (le_split 8 p)).
  assert (qnode m2 e (hd 0 B) p) as He2.
  { split_and!; [|apply bytes_write | lia | lia | lia | lia].
    apply bytes_write_out; [rewrite !le_split_length; lia | apply bytes_write]. }
  assert (∀ pv ps nx, dseg m pv ps nx → Forall (λ q, apart q e) ps → dseg m2 pv ps nx) as Hk2.
  { intros pv ps nx Hs Hap. apply dseg_write; [|done | lia]. unfold m1. rewrite <- (Z.add_0_r e). apply dseg_write; done || lia. }
  assert (dseg m2 (List.last A 0) [p] (hd 0 B)) as [Hnp2 _].
  { apply Hk2; [by split|]. by constructor. }
  pose proof (qnode_mapped _ _ _ _ Hnp2) as [Hmp2 _]. rewrite (store_link m2 p e Hmp2). cbn [mbind res_bind].
  set (m3 := write m2 p (le_split 8 e)).
  assert (qnode m3 p e (List.last A 0)) as Hnp3 by (eapply qnode_next; [done | lia]).
  assert (∀ pv ps nx, dseg m2 pv ps nx → Forall (λ q, apart q p) ps → dseg m3 pv ps nx) as Hk3.
  { intros pv ps nx Hs Hap. unfold m3. rewrite <- (Z.add_0_r p). apply dseg_write; done || lia. }
  assert (dseg m3 p [e] (hd 0 B)) as [He3 _].
  { apply Hk3; [by split|]. constructor; [|done]. unfold apart in *. lia. }
  pose proof He3 as (He31 & _ & _). rewrite (load_link m3 e (hd 0 B)) by done. cbn [mbind res_bind].
  pose proof (Hk3 _ _ _ (Hk2 _ _ _ HA HeA) HpA) as HA3. pose proof (Hk3 _ _ _ (Hk2 _ _ _ HB HeB) HpB) as HB3.
  destruct B as [|b B]; cbn [hd] in *.
  { change (0 =? 0) with true. cbn [negb]. eexists. split; [done|]. apply dseg_app. cbn [dseg hd]. done. }
  destruct HB3 as [Hb3 HB3]. apply Forall_cons in HeB as [Hbe HeB], HpB as [Hbp HpB].
  destruct (proj1 (Forall_app _ _ _) (Hbs b B eq_refl)) as [HbA HbB].
  pose proof (qnode_mapped _ _ _ _ Hb3) as [Hmb Hmb8].
  assert (b ≠ 0) as Hb0.
  { destruct HB as [Hnb _]. apply qnode_mapped in Hnb as [Hnb _]. destruct (mem_ok_range m b 8 Hok Hnb ltac:(lia)). lia. }
  rewrite (proj2 (Z.eqb_neq _ _) Hb0). cbn [negb]. rewrite (store_link m3 (b + 8) e Hmb8). eexists. split; [done|].
  apply dseg_app. cbn [dseg hd]. split_and!.
  - apply dseg_write; done || lia.
  - apply qnode_other; [done | unfold apart in *; lia | lia].
  - apply qnode_other; [done | unfold apart in *; lia | lia].
  - eapply qnode_prev; [done | lia].
  - apply dseg_write; done || lia.
Qed.

Lemma dseg_last m A x nx : dseg m 0 (A ++ [x]) nx → dseg m 0 A x ∧ qnode m x nx (List.last A 0).
Proof. rewrite dseg_app. cbn [dseg hd]. tauto. Qed.

Lemma last_snoc' (A : list Z) x : List.last (A ++ [x]) 0 = x.
Proof. apply List.last_last. Qed.

(** Removing the element [e] of a list. *)
Lemma remque_ok m A e B :
  dseg m 0 (A ++ e :: B) 0 → Forall (λ q, q ≠ 0) (A ++ B) → Forall (λ q, apart q e) (A ++ B) →
  (∀ b B', B = b :: B' → Forall (λ q, apart q b) (A ++ B')) →
  (∀ A' a, A = A' ++ [a] → Forall (λ q, apart q a) (A' ++ B)) →
  ∃ m', remque m e = Ok m' ∧ dseg m' 0 (A ++ B) 0.
Proof.
  intros Hd Hnz He Hbs Has. apply dseg_app in Hd as [HA [Hne HB]]. cbn [hd] in *.
  apply Forall_app in Hnz as [HnA HnB]. apply Forall_app in He as [HeA HeB].
  pose proof Hne as (Hn1 & Hn2 & Hr1 & Hr2). unfold remque. rewrite (load_link m e (hd 0 B)) by done. cbn [mbind res_bind].
  (* the next element's backward link *)
  assert (∃ m1, (if negb (hd 0 B =? 0) then ep ← load64 m (e + 8); store64 m (hd 0 B + 8) ep else Ok m) = Ok m1 ∧
    dseg m1 0 A e ∧ qnode m1 e (hd 0 B) (List.last A 0) ∧ dseg m1 (List.last A 0) B 0) as (m1 & -> & HA1 & He1 & HB1).
  { destruct B as [|b B]; cbn [hd] in *.
    - change (0 =? 0) with true. cbn [negb]. by exists m.
    - apply Forall_cons in HnB as [Hb0 _], HeB as [Hbe HeB]. rewrite (proj2 (Z.eqb_neq _ _) Hb0). cbn [negb].
      rewrite (load_link m (e + 8) (List.last A 0)) by done. cbn [mbind res_bind].
      destruct HB as [Hnb HB]. pose proof (qnode_mapped _ _ _ _ Hnb) as [_ Hmb].
      rewrite (store_link m (b + 8) _ Hmb). eexists. split; [done|].
      destruct (proj1 (Forall_app _ _ _) (Hbs b B eq_refl)) as [HbA HbB].
      split; [apply dseg_write; done || lia|].
      split; [apply qnode_other; [done | unfold apart in *; lia | lia]|]. split.
      + eapply qnode_prev; [done | lia].
      + apply dseg_write; done || lia. }
  cbn [mbind res_bind]. pose proof He1 as (Hn3 & Hn4 & _). rewrite (load_link m1 (e + 8) (List.last A 0)) by done. cbn [mbind res_bind].
  (* the previous element's forward link *)
  destruct (decide (A = [])) as [->|HneA].
  { change (List.last [] 0 =? 0) with true. cbn [negb]. by exists m1. }
  destruct (exists_last HneA) as (A' & a & ->). rewrite last_snoc' in *.
  apply Forall_app in HnA as [_ [Ha0 _]%Forall_cons]. rewrite (proj2 (Z.eqb_neq _ _) Ha0). cbn [negb].
  rewrite (load_link m1 e (hd 0 B)) by done. cbn [mbind res_bind].
  apply dseg_last in HA1 as [HA1 Hna1]. pose proof (qnode_mapped _ _ _ _ Hna1) as [Hma _].
  rewrite (store_link m1 a _ Hma). eexists. split; [done|]. rewrite <- app_assoc. apply dseg_app. cbn [dseg app hd].
  destruct (proj1 (Forall_app _ _ _) (Has A' a eq_refl)) as [HaA HaB].
  split; [|split]; [|eapply qnode_next; [done | lia]|]; rewrite <- (Z.add_0_r a) at 1; apply dseg_write; done || lia.
Qed.

(** ** Properties *)

(** C21: hsearch_r implements a finite map from key strings to entries. On a
    well-formed table it terminates; a key that is there is found, whatever
    the action; a key that is not there is reported with ESRCH by FIND, and
    ENTER adds it in a free entry, or reports ENOMEM with the table unchanged
    when three quarters of the entries are in use. Insertion preserves
    well-formedness and every other key. *)
Theorem hsearch_spec m k t item l act errno :
  mem_ok m → h_wf m k t → cstr m (key item) l →
  (∀ i, holds m t l i → hsearch_r m item act (Some t) errno = Ok (1, Some (Z.of_nat i), Some t, errno)) ∧
  ((∀ i, ¬ holds m t l i) →
   match act with
   | FIND => hsearch_r m item act (Some t) errno = Ok (0, None, Some t, ESRCH)
   | ENTER =>
       if decide (h_mask t - h_mask t / 4 < h_used t + 1)
       then hsearch_r m item act (Some t) errno = Ok (0, None, Some t, ENOMEM)
       else ∃ i t', hsearch_r m item act (Some t) errno = Ok (1, Some (Z.of_nat i), Some t', errno) ∧
              h_e t' !! i = Some item ∧ h_used t' = h_used t + 1 ∧ h_wf m k t' ∧
              ∀ l' i', holds m t' l' i' ↔ holds m t l' i' ∨ (l' = l ∧ i' = i)
   end).
Proof.
  intros Hok Hwf Hl. pose proof (h_probe_ok m k t (key item) l Hok Hwf Hl) as ([found i] & Hp & Hi & Hres).
  assert (used_entry item) as Hu.
  { intros E. pose proof (cstr_get m _ l 0 ltac:(lia) Hl) as Hg. apply (mem_addr _ Hok) in Hg. lia. }
  unfold hsearch_r. rewrite (keyhash_ok m t (key item) l Hok Hl). cbn [mbind res_bind].
  fold (h_hash t l). rewrite Hp. cbn [mbind res_bind]. destruct found.
  - split; [|intros Hno; by destruct (Hno (Z.to_nat i))]. intros i' Hi'.
    rewrite (wf_dup _ _ _ Hwf _ _ _ Hi' Hres), Z2Nat.id by lia. done.
  - destruct Hres as (Hno & Hfree & j & Ei & Hocc). split; [intros i' Hi'; by destruct (Hno i')|]. intros _.
    destruct act; [done|]. destruct (Z.ltb_spec (h_mask t - h_mask t / 4) (h_used t + 1)).
    { by rewrite decide_True. }
    rewrite decide_False by lia. exists (Z.to_nat i), (h_insert t i item). rewrite Z2Nat.id by lia.
    destruct (h_insert_wf m k t i item l j) as [H1 H2]; try done.
    split_and!; [done | | done | done | done]. simpl. apply list_lookup_insert_eq.
    pose proof (wf_len _ _ _ Hwf). lia.
Qed.

(** hcreate_r makes an empty well-formed table with room for at least
    the [nel] keys asked for; when the request is too large or memory runs
    out it reports ENOMEM and leaves the table alone. The loop that picks the
    size terminates and does not overflow. *)
Theorem hcreate_spec m nel got_t got_e k0 k1 d errno :
  0 <= nel →
  if decide (nel <= Z.shiftr SIZE_MAX 3 ∧ got_t && got_e = true)
  then ∃ k t, hcreate_r nel got_t got_e k0 k1 d errno = Ok (1, Some t, errno) ∧ h_wf m k t ∧
         (∀ l i, ¬ holds m t l i) ∧ h_used t + nel <= h_mask t - h_mask t / 4
  else hcreate_r nel got_t got_e k0 k1 d errno = Ok (0, d, ENOMEM).
Proof.
  intros Hn. unfold hcreate_r. destruct (Z.ltb_spec (Z.shiftr SIZE_MAX 3) nel).
  { by rewrite decide_False by lia. }
  destruct (hcreate_size nel) as (size & -> & k & Hk & -> & Hsz); [lia|]. cbn [mbind res_bind].
  destruct (got_t && got_e) eqn:Eg; cbn [negb]; [|by rewrite decide_False by (intros [_ ?]; congruence)].
  rewrite decide_True by (split; [lia | done]). exists k, (h_empty k k0 k1). split; [done|].
  split_and!; [by apply h_empty_wf | intros l i; apply h_empty_free|]. simpl.
  assert (0 < 2 ^ k) by (apply Z.pow_pos_nonneg; lia). zdiv.
Qed.

(** insque and remque keep a doubly linked list consistent. In a
    null-terminated list of separate elements, insque of a separate element
    [e] after the element [p] gives the list with [e] in that place, every
    forward and backward link right; remque of an element gives the list
    without it. *)
Theorem queue_spec m A p B e :
  mem_ok m → NoDup (A ++ p :: e :: B) →
  (∀ x y, x ∈ A ++ p :: e :: B → y ∈ A ++ p :: e :: B → x ≠ y → apart x y) →
  (dseg m 0 (A ++ p :: B) 0 → mapped m e 16 →
   ∃ m', insque m e p = Ok m' ∧ dseg m' 0 (A ++ p :: e :: B) 0) ∧
  (dseg m 0 (A ++ p :: e :: B) 0 → Forall (λ q, q ≠ 0) (A ++ p :: B) →
   ∃ m', remque m e = Ok m' ∧ dseg m' 0 (A ++ p :: B) 0).
Proof.
  intros Hok Hnd Hap. apply NoDup_app in Hnd as (HA & HnA & Hnd). apply NoDup_cons in Hnd as [Hnp Hnd].
  apply NoDup_cons in Hnd as [Hne HnB]. split.
  - intros Hd Hm. apply insque_ok; try done; try (apply Forall_forall; intros x Hx; apply Hap; set_solver).
    intros b B' ->. apply NoDup_cons in HnB as [Hnb _].
    apply Forall_forall. intros x Hx. apply Hap; set_solver.
  - intros Hd Hnz. rewrite cons_middle, app_assoc in *. apply remque_ok; try done.
    + apply Forall_forall. intros x Hx. apply Hap; set_solver.
    + intros b B' ->. apply NoDup_cons in HnB as [Hnb _].
      apply Forall_forall. intros x Hx. apply Hap; set_solver.
    + intros A' a E. apply app_inj_tail in E as [-> ->].
      apply Forall_forall. intros x Hx. apply Hap; set_solver.
Qed.

(** lsearch returns the first element equal to the key if there is one,
    leaving the array alone, and else appends the key's [width] bytes to the
    array and counts them. *)
Theorem lsearch_spec m kp k base (w : nat) kcmp xs :
  base ≠ 0 → (∀ i : nat, base + i * w ≠ 0) → bytes m base (concat xs) → Forall (λ x, length x = w) xs →
  bytes m kp k → length k = w → Forall is_byte k →
  mapped m (base + length xs * w) w → base + length xs * w <= kp ∨ kp + w <= base + length xs * w →
  match find_elt kcmp xs with
  | Some i => lsearch m kp base (Z.of_nat (length xs)) w kcmp = Ok (base + i * w, m, Z.of_nat (length xs)) ∧
              ∃ x, xs !! i = Some x ∧ kcmp x = 0 ∧ ∀ j y, (j < i)%nat → xs !! j = Some y → kcmp y ≠ 0
  | None => Forall (λ x, kcmp x ≠ 0) xs ∧
      ∃ m', lsearch m kp base (Z.of_nat (length xs)) w kcmp = Ok (base + length xs * w, m', Z.of_nat (length (xs ++ [k]))) ∧
            m' = write m (base + length xs * w) k ∧ bytes m' base (concat (xs ++ [k]))
  end.
Proof.
  intros Hb0 Hbi Hb Hw Hk Hkw Hkb Hm Hd. unfold lsearch. rewrite (lfind_ok m base w kcmp xs Hb Hw). cbn [mbind res_bind].
  destruct (find_elt kcmp xs) as [i|] eqn:E.
  - rewrite (proj2 (Z.eqb_neq _ _) (Hbi i)). split; [done | by apply find_elt_Some].
  - split; [by apply find_elt_None|]. change (0 =? 0) with true. cbn [negb].
    pose proof (memcpy_forward m (base + length xs * w) kp k Hk) as Hc. rewrite Hkw in Hc. rewrite Hc by (done || lia).
    eexists. split; [|split; [done|]].
    + cbn [mbind res_bind]. rewrite length_app. simpl length. do 3 f_equal. lia.
    + assert (Z.of_nat (length (concat xs)) = length xs * w) as Hlc.
      { clear -Hw. induction Hw as [|x xs Hx Hw IH]; [done|]. simpl. rewrite length_app. lia. }
      rewrite concat_app. simpl. rewrite app_nil_r. apply bytes_app. rewrite Hlc. split; [|apply bytes_write].
      apply bytes_write_out; [lia | done].
Qed.

Lemma hsearch_spec_witness :
  ∃ i t', hsearch_r str_mem (Entry 8203 7) ENTER (Some (h_empty 3 1 2)) 0 = Ok (1, Some (Z.of_nat i), Some t', 0) ∧
    h_e t' !! i = Some (Entry 8203 7) ∧ h_used t' = 1 ∧ h_wf str_mem 3 t' ∧
    ∀ l' i', holds str_mem t' l' i' ↔ holds str_mem (h_empty 3 1 2) l' i' ∨ (l' = [101; 108; 108] ∧ i' = i).
Proof.
  refine (proj2 (hsearch_spec str_mem 3 (h_empty 3 1 2) (Entry 8203 7) [101; 108; 108] ENTER 0
    str_mem_ok _ str_mem_ell) _).
  - apply h_empty_wf. lia.
  - intros i. apply h_empty_free.
Defined.

Lemma hcreate_spec_witness :
  ∃ k t, hcreate_r 100 true true 1 2 None 0 = Ok (1, Some t, 0) ∧ h_wf str_mem k t ∧
    (∀ l i, ¬ holds str_mem t l i) ∧ h_used t + 100 <= h_mask t - h_mask t / 4.
Proof. refine (hcreate_spec str_mem 100 true true 1 2 None 0 _). lia. Defined.

(** One element at 4096 and a free one at 4112. *)
Definition q_mem : mem := write ∅ 4096 (replicate 32 0).

Lemma q_mem_ok : mem_ok q_mem.
Proof. apply mem_ok_block; vm_compute; done. Qed.

Lemma q_mem_seg : dseg q_mem 0 [4096] 0.
Proof.
  split; [|done]. split; [|split; [|split; simpl; lia]]; apply load_list_bytes; vm_compute; reflexivity.
Qed.

Lemma queue_spec_witness : ∃ m', insque q_mem 4112 4096 = Ok m' ∧ dseg m' 0 [4096; 4112] 0.
Proof.
  refine (proj1 (queue_spec q_mem [] 4096 [] 4112 q_mem_ok _ _) q_mem_seg _).
  - repeat constructor; set_solver by lia.
  - intros x y Hx Hy Hne. apply elem_of_cons in Hx, Hy. unfold apart. set_solver by lia.
  - change 16 with (Z.of_nat 16). apply mapped_eval. vm_compute. reflexivity.
Defined.

(** A free slot after the two one-byte elements 5 and 6, and the key 7. *)
Definition l_mem : mem := write ∅ 4096 [5; 6; 0; 0; 7; 0; 0; 0].

Lemma lsearch_spec_witness :
  Forall (λ x, le_word x - 7 ≠ 0) [[5]; [6]] ∧
  ∃ m', lsearch l_mem 4100 4096 2 1 (λ x, le_word x - 7) = Ok (4098, m', 3) ∧
        m' = write l_mem 4098 [7] ∧ bytes m' 4096 [5; 6; 7].
Proof.
  refine (lsearch_spec l_mem 4100 [7] 4096 1 (λ x, le_word x - 7) [[5]; [6]] _ _ _ _ _ _ _ _ _);
    try lia; try (by repeat constructor); try (apply load_list_bytes; vm_compute; reflexivity).
  apply mapped_eval. vm_compute. reflexivity.
Defined.
