(* ===== verification/Tsearch.v ===== *)
(** * AVL trees (the tsearch family of src/src/search.c)

    A tree of struct node is an inductive tree whose nodes carry their
    address; the array of slots the C code saves on the way down is a path of
    frames, each a node with a hole where the path goes on, so that storing
    through a saved slot is plugging the hole. Following a null pointer traps,
    as does saving more slots than the array has. Keys are pointers, compared
    by a function of two keys. *)
From S2P Require Import Prelude.

Definition MAXH : Z := 100.

Inductive node := Null | Node (addr nkey : Z) (l r : node) (h : Z).

(** ** Operations *)

Definition height (n : node) : Z := match n with Null => 0 | Node _ _ _ _ h => h end.

(** [n->a[d]] and the assignment to it; [d] is true for index 1. *)
Definition child (n : node) (d : bool) : res node :=
  match n with Null => Trap Segv | Node _ _ l r _ => Ok (if d then r else l) end.
Definition set_child (n : node) (d : bool) (c : node) : res node :=
  match n with
  | Null => Trap Segv
  | Node a k l r h => Ok (if d then Node a k l c h else Node a k c r h)
  end.
(** [n->h = 1 + max] of the heights of the children. *)
Definition set_h (n : node) : res node :=
  match n with
  | Null => Trap Segv
  | Node a k l r _ => let hl := height l in let hr := height r in
      Ok (Node a k l r (1 + (if hr <? hl then hl else hr)))
  end.

Definition rot (n : node) (dir : bool) : res node :=
  c ← child n (negb dir);
  cd ← child c dir;
  n ← set_child n (negb dir) cd;
  n ← set_h n;
  c ← set_child c dir n;
  set_h c.

Definition balance (n : node) : res node :=
  l ← child n false; r ← child n true;
  let hl := height l in let hr := height r in
  if 1 <? hl - hr then
    c0 ← child l false; c1 ← child l true;
    n ← (if height c0 <? height c1 then l ← rot l false; set_child n false l else Ok n);
    rot n true
  else if 1 <? hr - hl then
    c0 ← child r false; c1 ← child r true;
    n ← (if height c1 <? height c0 then r ← rot r true; set_child n true r else Ok n);
    rot n false
  else set_h n.

(** A saved slot: the node above it and the side the path took. *)
Record frame := Frame { f_addr : Z; f_key : Z; f_other : node; f_h : Z; f_dir : bool }.

Definition plug (f : frame) (t : node) : node :=
  if f_dir f then Node (f_addr f) (f_key f) (f_other f) t (f_h f)
  else Node (f_addr f) (f_key f) t (f_other f) (f_h f).

(** [while (depth--) *path[depth] = balance( *path[depth])], the path with the
    last slot saved first. *)
Fixpoint unwind (path : list frame) (t : node) : res node :=
  match path with
  | [] => Ok t
  | f :: path => t ← balance (plug f t); unwind path t
  end.

Section Cmp.
Context (cmp : Z → Z → Z).

Fixpoint tfind (k : Z) (n : node) : Z :=
  match n with
  | Null => 0
  | Node a nk l r _ =>
      let c := cmp k nk in
      if c =? 0 then a else if 0 <? c then tfind k r else tfind k l
  end.

(** The way down: the node with the key and the path to it, or the path to
    the empty slot. [room] is the length of the array of slots. *)
Fixpoint descend (room : Z) (k : Z) (n : node) (path : list frame) : res (node * list frame) :=
  match n with
  | Null => Ok (Null, path)
  | Node a nk l r h =>
      let c := cmp k nk in
      if c =? 0 then Ok (n, path) else
      if room <=? length path then Trap Ub else
      if 0 <? c then descend room k r (Frame a nk l h true :: path)
      else descend room k l (Frame a nk r h false :: path)
  end.

(** [fresh] is the result of malloc. Return value and the new root; a null
    [rootp] is [None]. *)
Definition tsearch (k : Z) (rootp : option node) (fresh : Z) : res (Z * option node) :=
  match rootp with
  | None => Ok (0, None)
  | Some root =>
      '(found, path) ← descend MAXH k root [];
      match found with
      | Node a _ _ _ _ => Ok (a, rootp)
      | Null =>
          if fresh =? 0 then Ok (0, rootp) else
          root ← unwind path (Node fresh k Null Null 1);
          Ok (fresh, Some root)
      end
  end.

(** The leftmost node of the subtree [n] (not null) and the path to it. *)
Fixpoint leftmost (room : Z) (n : node) (path : list frame) : res (node * list frame) :=
  match n with
  | Null => Trap Segv
  | Node a nk Null r h => Ok (n, path)
  | Node a nk l r h =>
      if room <=? length path then Trap Ub else leftmost room l (Frame a nk r h false :: path)
  end.

(** What tdelete returns: null, the non-null value for the root (the address
    of the root pointer), or the parent. *)
Inductive tdel := NotFound | AtRoot | Parent (a : Z).

(** Return value, the new root, the node freed (0 if none). *)
Definition tdelete (k : Z) (rootp : option node) : res (tdel * option node * Z) :=
  match rootp with
  | None | Some Null => Ok (NotFound, rootp, 0)
  | Some root =>
      '(del, path) ← descend (MAXH + 1) k root [];
      let parent := match path with [] => AtRoot | f :: _ => Parent (f_addr f) end in
      match del with
      | Null => Ok (NotFound, rootp, 0)
      | Node da dk dl dr dh =>
          match dl, dr with
          | Null, _ => root ← unwind path dr; Ok (parent, Some root, da)
          | _, Null => root ← unwind path dl; Ok (parent, Some root, da)
          | _, _ =>
              if MAXH + 1 <=? length path then Trap Ub else
              (* the slot of the deleted node is saved too; it will hold the
                 successor, whose frame takes its place *)
              '(s, p) ← leftmost (MAXH - length path) dr [];
              match s with
              | Null => Trap Segv
              | Node sa sk _ sr sh =>
                  root ← unwind (p ++ Frame sa sk dl sh true :: path) sr;
                  Ok (parent, Some root, da)
              end
          end
      end
  end.
End Cmp.

Inductive VISIT := preorder | postorder | endorder | leaf.

(** The calls of the action: node, kind of visit, level. *)
Fixpoint walk (n : node) (level : Z) : list (Z * VISIT * Z) :=
  match n with
  | Null => []
  | Node a _ Null Null _ => [(a, leaf, level)]
  | Node a _ l r _ =>
      (a, preorder, level) :: walk l (level + 1) ++ (a, postorder, level) :: walk r (level + 1) ++
      [(a, endorder, level)]
  end.

Definition twalk (root : node) (act : bool) : list (Z * VISIT * Z) := if act then walk root 0 else [].

(** The keys handed to freekey and the nodes freed, in order. *)
Fixpoint tdestroy (root : node) : list (Z * Z) :=
  match root with Null => [] | Node a k l r _ => tdestroy l ++ tdestroy r ++ [(k, a)] end.

(** ** Specification *)

(** Address and key of every node, in order. *)
Fixpoint inorder (n : node) : list (Z * Z) :=
  match n with Null => [] | Node a k l r _ => inorder l ++ (a, k) :: inorder r end.

Definition tsize (n : node) : Z := Z.of_nat (length (inorder n)).

(** Balanced, with the heights stored in the nodes right. *)
Fixpoint avl (n : node) : Prop :=
  match n with
  | Null => True
  | Node _ _ l r h =>
      avl l ∧ avl r ∧ h = 1 + Z.max (height l) (height r) ∧ -1 <= height l - height r <= 1
  end.

(** The keys are in strictly increasing order. *)
Definition bst (cmp : Z → Z → Z) (n : node) : Prop :=
  StronglySorted (λ x y, cmp x y < 0) (inorder n).*2.

(** ** Lemmas *)

Lemma height_nonneg t : avl t → 0 <= height t.
Proof. induction t as [|a k l IHl r IHr h]; simpl; [lia|]. intros (?&?&->&_). specialize (IHl ltac:(done)). lia. Qed.

Lemma height_pos a k l r h : avl (Node a k l r h) → 1 <= h.
Proof. simpl. intros (Hl & Hr & -> & _). apply height_nonneg in Hl, Hr. lia. Qed.

Lemma set_h_node a k l r h :
  set_h (Node a k l r h) = Ok (Node a k l r (1 + (if height r <? height l then height l else height r))).
Proof. reflexivity. Qed.

Lemma set_h_ok a k l r h :
  avl l → avl r → -1 <= height l - height r <= 1 →
  ∃ t, set_h (Node a k l r h) = Ok t ∧ avl t ∧ height t = 1 + Z.max (height l) (height r) ∧
       inorder t = inorder l ++ (a, k) :: inorder r.
Proof.
  intros Hl Hr Hb. eexists. split; [done|]. simpl.
  assert ((if height r <? height l then height l else height r) = Z.max (height l) (height r)) as -> by (zcases; lia).
  split_and!; done || lia.
Qed.

(** A right rotation, of a left child that is not lighter on its left. *)
Lemma rot_right_ok a k ca ck x y ch r h :
  avl x → avl y → avl r → height y <= height x <= height y + 1 → height r = height x - 1 →
  ∃ t, rot (Node a k (Node ca ck x y ch) r h) true = Ok t ∧ avl t ∧
       height x + 1 <= height t <= height x + 2 ∧
       inorder t = (inorder x ++ (ca, ck) :: inorder y) ++ (a, k) :: inorder r.
Proof.
  intros Hx Hy Hr Hxy Hrx. unfold rot. cbn [child negb mbind res_bind set_child].
  destruct (set_h_ok a k y r h Hy Hr ltac:(lia)) as (n & -> & Hn & Hnh & Hni). cbn [mbind res_bind set_child].
  destruct (set_h_ok ca ck x n ch Hx Hn ltac:(lia)) as (t & -> & Ht & Hth & Hti). exists t.
  split_and!; [done | done | lia | lia|]. by rewrite Hti, Hni, <- app_assoc.
Qed.

Lemma rot_left_ok a k ca ck x y ch l h :
  avl x → avl y → avl l → height x <= height y <= height x + 1 → height l = height y - 1 →
  ∃ t, rot (Node a k l (Node ca ck x y ch) h) false = Ok t ∧ avl t ∧
       height y + 1 <= height t <= height y + 2 ∧
       inorder t = inorder l ++ (a, k) :: inorder x ++ (ca, ck) :: inorder y.
Proof.
  intros Hx Hy Hl Hxy Hlx. unfold rot. cbn [child negb mbind res_bind set_child].
  destruct (set_h_ok a k l x h Hl Hx ltac:(lia)) as (n & -> & Hn & Hnh & Hni). cbn [mbind res_bind set_child].
  destruct (set_h_ok ca ck n y ch Hn Hy ltac:(lia)) as (t & -> & Ht & Hth & Hti). exists t.
  split_and!; [done | done | lia | lia|]. by rewrite Hti, Hni, <- app_assoc.
Qed.

(** balance repairs a node whose children differ by at most two in height. *)
Lemma balance_ok a k l r h :
  avl l → avl r → -2 <= height l - height r <= 2 →
  ∃ t, balance (Node a k l r h) = Ok t ∧ avl t ∧ inorder t = inorder l ++ (a, k) :: inorder r ∧
       Z.max (height l) (height r) <= height t <= 1 + Z.max (height l) (height r) ∧
       (-1 <= height l - height r <= 1 → height t = 1 + Z.max (height l) (height r)).
Proof.
  intros Hl Hr Hb. pose proof (height_nonneg l Hl). pose proof (height_nonneg r Hr).
  unfold balance. cbn [child mbind res_bind].
  destruct (Z.ltb_spec 1 (height l - height r)).
  { destruct l as [|la lk ll lr lh]; [simpl in *; lia|]. cbn [child mbind res_bind height inorder] in *.
    destruct Hl as (Hll & Hlr & -> & Hlb). pose proof (height_nonneg ll Hll). pose proof (height_nonneg lr Hlr).
    destruct (Z.ltb_spec (height ll) (height lr)).
    - destruct lr as [|ba bk bl br bh]; [simpl in *; lia|]. cbn [height] in *. pose proof Hlr as (Hbl & Hbr & Ebh & Hbb).
      pose proof (height_nonneg bl Hbl). pose proof (height_nonneg br Hbr).
      unfold rot. cbn [child negb mbind res_bind set_child].
      destruct (set_h_ok la lk ll bl (1 + Z.max (height ll) bh) Hll Hbl ltac:(lia)) as (n & -> & Hn & Hnh & Hni).
      cbn [mbind res_bind set_child].
      rewrite (set_h_node ba). cbn [child negb mbind res_bind set_child].
      destruct (set_h_ok a k br r h Hbr Hr ltac:(lia)) as (n2 & -> & Hn2 & Hn2h & Hn2i). cbn [mbind res_bind set_child].
      destruct (set_h_ok ba bk n n2 (1 + (if height br <? height n then height n else height br)) Hn Hn2 ltac:(lia))
        as (t & -> & Ht & Hth & Hti).
      exists t. split_and!; [done | done | | lia | lia | lia]. rewrite Hti, Hni, Hn2i. simpl. rewrite <- ?app_assoc. simpl. by rewrite <- ?app_assoc.
    - cbn [mbind res_bind]. destruct (rot_right_ok a k la lk ll lr (1 + Z.max (height ll) (height lr)) r h) as (t & -> & Ht & Hth & Hti);
        try done; try lia. exists t. split_and!; done || lia. }
  destruct (Z.ltb_spec 1 (height r - height l)).
  { destruct r as [|ra rk rl rr rh]; [simpl in *; lia|]. cbn [child mbind res_bind height inorder] in *.
    destruct Hr as (Hrl & Hrr & -> & Hrb). pose proof (height_nonneg rl Hrl). pose proof (height_nonneg rr Hrr).
    destruct (Z.ltb_spec (height rr) (height rl)).
    - destruct rl as [|ba bk bl br bh]; [simpl in *; lia|]. cbn [height] in *. pose proof Hrl as (Hbl & Hbr & Ebh & Hbb).
      pose proof (height_nonneg bl Hbl). pose proof (height_nonneg br Hbr).
      unfold rot. cbn [child negb mbind res_bind set_child].
      destruct (set_h_ok ra rk br rr (1 + Z.max bh (height rr)) Hbr Hrr ltac:(lia)) as (n & -> & Hn & Hnh & Hni).
      cbn [mbind res_bind set_child].
      rewrite (set_h_node ba). cbn [child negb mbind res_bind set_child].
      destruct (set_h_ok a k l bl h Hl Hbl ltac:(lia)) as (n2 & -> & Hn2 & Hn2h & Hn2i). cbn [mbind res_bind set_child].
      destruct (set_h_ok ba bk n2 n (1 + (if height n <? height bl then height bl else height n)) Hn2 Hn ltac:(lia))
        as (t & -> & Ht & Hth & Hti).
      exists t. split_and!; [done | done | | lia | lia | lia]. rewrite Hti, Hni, Hn2i. simpl. rewrite <- ?app_assoc. simpl. by rewrite <- ?app_assoc.
    - cbn [mbind res_bind]. destruct (rot_left_ok a k ra rk rl rr (1 + Z.max (height rl) (height rr)) l h) as (t & -> & Ht & Hth & Hti);
        try done; try lia. exists t. split_and!; done || lia. }
  destruct (set_h_ok a k l r h Hl Hr ltac:(lia)) as (t & -> & Ht & Hth & Hti). exists t. split_and!; done || lia.
Qed.

(** *** Paths *)

(** The path could have come from a balanced tree with a subtree of height
    [h] in the hole. *)
Fixpoint avl_path (h : Z) (path : list frame) : Prop :=
  match path with
  | [] => True
  | f :: path =>
      avl (f_other f) ∧ -1 <= h - height (f_other f) <= 1 ∧
      avl_path (1 + Z.max h (height (f_other f))) path
  end.

(** What is before and after the hole. *)
Fixpoint before (path : list frame) : list (Z * Z) :=
  match path with
  | [] => []
  | f :: path => before path ++ (if f_dir f then inorder (f_other f) ++ [(f_addr f, f_key f)] else [])
  end.
Fixpoint after (path : list frame) : list (Z * Z) :=
  match path with
  | [] => []
  | f :: path => (if f_dir f then [] else (f_addr f, f_key f) :: inorder (f_other f)) ++ after path
  end.

(** Unwinding a path with a subtree whose height is off by at most one
    restores the balance everywhere and keeps the order of the nodes. *)
Lemma unwind_ok path h t :
  avl_path h path → avl t → -1 <= height t - h <= 1 →
  ∃ t', unwind path t = Ok t' ∧ avl t' ∧ inorder t' = before path ++ inorder t ++ after path.
Proof.
  revert h t. induction path as [|f path IH]; intros h t Hp Ht Hh.
  { exists t. split_and!; [done | done|]. simpl. by rewrite app_nil_r. }
  destruct Hp as (Ho & Hho & Hp). cbn [unwind]. unfold plug. destruct f as [a k o fh d]. cbn [f_other f_dir f_addr f_key f_h before after] in *.
  destruct d.
  - destruct (balance_ok a k o t fh Ho Ht ltac:(lia)) as (u & -> & Hu & Hui & Hu1 & Hu2). cbn [mbind res_bind].
    destruct (IH _ u Hp Hu) as (t' & Et & Ht' & Hi); [lia|]. exists t'. split_and!; [done | done|].
    rewrite Hi, Hui. rewrite <- !app_assoc. simpl. by rewrite <- ?app_assoc.
  - destruct (balance_ok a k t o fh Ht Ho ltac:(lia)) as (u & -> & Hu & Hui & Hu1 & Hu2). cbn [mbind res_bind].
    destruct (IH _ u Hp Hu) as (t' & Et & Ht' & Hi); [lia|]. exists t'. split_and!; [done | done|].
    rewrite Hi, Hui. rewrite <- !app_assoc. simpl. by rewrite ?app_nil_r, <- ?app_assoc.
Qed.

Lemma before_app p q : before (p ++ q) = before q ++ before p.
Proof. induction p as [|f p IH]; simpl; [by rewrite app_nil_r|]. by rewrite IH, app_assoc. Qed.

Lemma after_app p q : after (p ++ q) = after p ++ after q.
Proof. induction p as [|f p IH]; simpl; [done|]. by rewrite IH, <- app_assoc. Qed.

(** *** The height of a balanced tree *)

(** The least number of nodes of a balanced tree of height [n], and of one of
    height [n + 1]. *)
Fixpoint min_nodes (n : nat) : Z * Z :=
  match n with O => (0, 1) | S n => let '(a, b) := min_nodes n in (b, 1 + a + b) end.

Lemma min_nodes_mono n : 0 <= (min_nodes n).1 <= (min_nodes n).2.
Proof. induction n as [|n IH]; simpl; [lia|]. destruct (min_nodes n); simpl in *. lia. Qed.

Lemma min_nodes_S n : (min_nodes (S n)).1 = (min_nodes n).2.
Proof. simpl. by destruct (min_nodes n). Qed.

Lemma min_nodes_le n k : (n <= k)%nat → (min_nodes n).1 <= (min_nodes k).1.
Proof.
  induction 1 as [|k Hk IH]; [done|]. rewrite min_nodes_S. pose proof (min_nodes_mono k). lia.
Qed.

Lemma avl_min t : avl t → (min_nodes (Z.to_nat (height t))).1 <= tsize t.
Proof.
  unfold tsize. induction t as [|a k l IHl r IHr h]; [done|]. intros (Hl & Hr & -> & Hb).
  specialize (IHl Hl). specialize (IHr Hr). pose proof (height_nonneg l Hl). pose proof (height_nonneg r Hr).
  cbn [height inorder]. rewrite length_app. cbn [length].
  set (x := Z.max (height l) (height r)). replace (Z.to_nat (1 + x)) with (S (Z.to_nat x)) by lia.
  rewrite min_nodes_S. destruct (decide (x = 0)) as [E|E].
  { rewrite E. simpl. lia. }
  replace (Z.to_nat x) with (S (Z.to_nat (x - 1))) by lia.
  assert (∀ i j, Z.max i j = x → -1 <= i - j <= 1 → 0 <= i → 0 <= j →
    (min_nodes (Z.to_nat (x - 1))).1 + (min_nodes (Z.to_nat x)).1 <= (min_nodes (Z.to_nat i)).1 + (min_nodes (Z.to_nat j)).1) as Hij.
  { intros i j ????. destruct (decide (i = x)) as [->|].
    - pose proof (min_nodes_le (Z.to_nat (x - 1)) (Z.to_nat j) ltac:(lia)). lia.
    - assert (j = x) as -> by lia. pose proof (min_nodes_le (Z.to_nat (x - 1)) (Z.to_nat i) ltac:(lia)). lia. }
  specialize (Hij (height l) (height r)). specialize (Hij ltac:(done) ltac:(lia) ltac:(lia) ltac:(lia)).
  replace (Z.to_nat x) with (S (Z.to_nat (x - 1))) in Hij by lia. rewrite min_nodes_S in Hij.
  change (min_nodes (S ?n)) with (let '(a, b) := min_nodes n in (b, 1 + a + b)).
  destruct (min_nodes (Z.to_nat (x - 1))) as [u v]. simpl in *. lia.
Qed.

(** A tree that fits in memory is at most [MAXH] high. *)
Lemma avl_maxh t : avl t → tsize t < 2 ^ 64 → height t <= MAXH.
Proof.
  intros Ht Hs. pose proof (avl_min t Ht) as Hm. pose proof (height_nonneg t Ht).
  destruct (decide (height t <= MAXH)) as [|Hn]; [done|]. exfalso. unfold MAXH in Hn.
  pose proof (min_nodes_le 101 (Z.to_nat (height t)) ltac:(lia)) as Hle.
  assert (2 ^ 64 <= (min_nodes 101).1) by (vm_compute; done). lia.
Qed.

(** *** Searching *)

Class KeyOrder (cmp : Z → Z → Z) : Prop := {
  ko_neg : ∀ x y, cmp x y < 0 ↔ 0 < cmp y x;
  ko_trans : ∀ x y z, cmp x y <= 0 → cmp y z <= 0 → cmp x z <= 0;
}.

Section Ordered.
Context (cmp : Z → Z → Z) `{HK : !KeyOrder cmp}.

Lemma ko_lt_le x y z : cmp x y < 0 → cmp y z <= 0 → cmp x z < 0.
Proof using HK.
  intros H1 H2. destruct (decide (cmp x z < 0)) as [|Hn]; [done|]. exfalso.
  assert (cmp z x <= 0) as H3 by (pose proof (ko_neg x z); pose proof (ko_neg z x); lia).
  pose proof (ko_trans _ _ _ H2 H3). pose proof (ko_neg x y). lia.
Qed.

Lemma ko_le_lt x y z : cmp x y <= 0 → cmp y z < 0 → cmp x z < 0.
Proof using HK.
  intros H1 H2. destruct (decide (cmp x z < 0)) as [|Hn]; [done|]. exfalso.
  assert (cmp z x <= 0) as H3 by (pose proof (ko_neg x z); pose proof (ko_neg z x); lia).
  pose proof (ko_trans _ _ _ H3 H1). pose proof (ko_neg y z). lia.
Qed.

Definition below (k : Z) (l : list (Z * Z)) : Prop := Forall (λ x, 0 < cmp k x.2) l.
Definition above (k : Z) (l : list (Z * Z)) : Prop := Forall (λ x, cmp k x.2 < 0) l.

Lemma bst_node a nk l r h :
  bst cmp (Node a nk l r h) →
  bst cmp l ∧ bst cmp r ∧ Forall (λ x, cmp x.2 nk < 0) (inorder l) ∧ Forall (λ x, cmp nk x.2 < 0) (inorder r).
Proof.
  unfold bst. simpl. rewrite fmap_app, fmap_cons, StronglySorted_app, StronglySorted_cons.
  intros (Hlr & Hl & Hr & Hrs). split_and!; [done | done | |].
  - apply Forall_forall. intros x Hx. apply Hlr; [|left]. by apply list_elem_of_fmap_2.
  - by apply Forall_fmap in Hr.
Qed.

(** The way down ends at the key, or at the hole where it belongs. *)
Lemma descend_ok room k n path :
  avl n → bst cmp n → avl_path (height n) path → below k (before path) → above k (after path) →
  length path + height n <= room →
  ∃ t path', descend cmp room k n path = Ok (t, path') ∧
    avl t ∧ bst cmp t ∧ avl_path (height t) path' ∧ below k (before path') ∧ above k (after path') ∧
    length path' + height t <= length path + height n ∧
    before path ++ inorder n ++ after path = before path' ++ inorder t ++ after path' ∧
    match t with Null => True | Node _ nk _ _ _ => cmp k nk = 0 end.
Proof using HK.
  revert path. induction n as [|a nk l IHl r IHr h]; intros path Hn Hb Hp Hlo Hhi Hroom.
  { exists Null, path. split_and!; done. }
  pose proof Hn as (Hl & Hr & Hh & Hbal). pose proof (height_nonneg l Hl). pose proof (height_nonneg r Hr).
  destruct (bst_node _ _ _ _ _ Hb) as (Hbl & Hbr & Hls & Hrs). cbn [descend height] in *.
  destruct (Z.eqb_spec (cmp k nk) 0) as [E|E].
  { exists (Node a nk l r h), path. split_and!; done. }
  destruct (Z.leb_spec room (length path)); [lia|]. destruct (Z.ltb_spec 0 (cmp k nk)).
  - destruct (IHr (Frame a nk l h true :: path)) as (t & p' & Hd & Ht); [done | done | | | | cbn [length]; lia|].
    + cbn [avl_path f_other]. split_and!; [done | lia | lia|]. by rewrite Z.max_comm, <- Hh.
    + cbn [before f_dir f_other f_addr f_key]. unfold below. rewrite !Forall_app. split_and!; [done | |by constructor].
      eapply Forall_impl; [done|]. intros x Hx. simpl in Hx. apply ko_neg.
      apply ko_lt_le with nk; [done|]. pose proof (ko_neg nk k). lia.
    + done.
    + exists t, p'. split; [done|].
      destruct Ht as (?&?&?&?&?&Hlen&He&?). cbn [length] in Hlen. split_and!; try done; try lia.
      rewrite <- He. cbn [before after f_dir f_other f_addr f_key inorder]. by rewrite <- !app_assoc.
  - destruct (IHl (Frame a nk r h false :: path)) as (t & p' & Hd & Ht); [done | done | | | | cbn [length]; lia|].
    + cbn [avl_path f_other]. split_and!; [done | lia | lia|]. by rewrite <- Hh.
    + cbn [before f_dir]. by rewrite app_nil_r.
    + cbn [after f_dir f_other f_addr f_key]. unfold above. rewrite Forall_app, Forall_cons. split_and!; [simpl; lia | |done].
      eapply Forall_impl; [done|]. intros x Hx. simpl in Hx. apply ko_le_lt with nk; [lia | done].
    + exists t, p'. split; [done|]. destruct Ht as (?&?&?&?&?&Hlen&He&?). cbn [length] in Hlen. split_and!; try done; try lia.
      rewrite <- He. cbn [before after f_dir f_other f_addr f_key inorder]. by rewrite app_nil_r, <- !app_assoc.
Qed.

(** Descending from the root of a tree that fits in memory. *)
Lemma descend_root room k t :
  MAXH <= room → avl t → bst cmp t → tsize t < 2 ^ 64 →
  ∃ u path, descend cmp room k t [] = Ok (u, path) ∧
    avl u ∧ bst cmp u ∧ avl_path (height u) path ∧ below k (before path) ∧ above k (after path) ∧
    length path + height u <= MAXH ∧ inorder t = before path ++ inorder u ++ after path ∧
    match u with Null => True | Node _ nk _ _ _ => cmp k nk = 0 end.
Proof using HK.
  intros Hroom Ht Hb Hs. pose proof (avl_maxh t Ht Hs).
  destruct (descend_ok room k t []) as (u & path & H1 & H2 & H3 & H4 & H5 & H6 & H7 & H8 & H9);
    try done; [constructor | constructor | simpl; lia|].
  exists u, path. simpl in H7. split_and!; try done; [lia|]. rewrite <- H8. simpl. by rewrite app_nil_r.
Qed.

Lemma missing k path :
  below k (before path) → above k (after path) →
  Forall (λ x, cmp k x.2 ≠ 0) (before path ++ after path).
Proof using.
  intros Hb Ha. apply Forall_app. split; (eapply Forall_impl; [done|]); simpl; lia.
Qed.

(** A key between those before the hole and those after it. *)
Lemma bst_insert k a path t t' :
  bst cmp t → inorder t = before path ++ after path → below k (before path) → above k (after path) →
  inorder t' = before path ++ [(a, k)] ++ after path → bst cmp t'.
Proof using HK.
  unfold bst. intros Hb E Hlo Hhi ->. rewrite E in Hb. rewrite !fmap_app in *. simpl.
  apply StronglySorted_app in Hb as (Hx & Hb1 & Hb2). apply StronglySorted_app_2; [|done|].
  - intros x y Hx1 [-> | Hy]%elem_of_cons; [|by apply Hx].
    apply list_elem_of_fmap in Hx1 as (z & -> & Hz). apply ko_neg. by apply (proj1 (Forall_forall _ _) Hlo).
  - apply StronglySorted_cons. split; [|done]. by apply Forall_fmap.
Qed.

(** Removing elements keeps the order. *)
Lemma bst_remove l1 x l2 t t' :
  bst cmp t → inorder t = l1 ++ x :: l2 → inorder t' = l1 ++ l2 → bst cmp t'.
Proof using.
  unfold bst. intros Hb E ->. rewrite E in Hb. rewrite !fmap_app, fmap_cons in *.
  apply StronglySorted_app in Hb as (Hx & Hb1 & Hb2). apply StronglySorted_cons in Hb2 as [_ Hb2].
  apply StronglySorted_app_2; [|done|done]. intros y z Hy Hz. apply Hx; [done | by right].
Qed.

Lemma tfind_path room k n path a nk l r h p' :
  descend cmp room k n path = Ok (Node a nk l r h, p') → tfind cmp k n = a.
Proof using.
  revert path. induction n as [|a' nk' l' IHl r' IHr h']; intros path; cbn [descend tfind]; [done|].
  destruct (cmp k nk' =? 0); [by intros [= -> _ _ _ _ _]|]. destruct (room <=? length path); [done|].
  destruct (0 <? cmp k nk'); [apply IHr | apply IHl].
Qed.

Lemma tfind_none room k n path p' :
  descend cmp room k n path = Ok (Null, p') → tfind cmp k n = 0.
Proof using.
  revert path. induction n as [|a' nk' l' IHl r' IHr h']; intros path; cbn [descend tfind]; [done|].
  destruct (cmp k nk' =? 0); [done|]. destruct (room <=? length path); [done|].
  destruct (0 <? cmp k nk'); [apply IHr | apply IHl].
Qed.

(** *** Deletion *)

Lemma leftmost_ok room n path q :
  avl n → n ≠ Null → avl_path (height n) (path ++ q) → length path + height n <= room + 1 →
  ∃ sa sk sr sh p, leftmost room n path = Ok (Node sa sk Null sr sh, p) ∧
    avl (Node sa sk Null sr sh) ∧ avl_path sh (p ++ q) ∧ before p = before path ∧
    inorder n ++ after path = (sa, sk) :: inorder sr ++ after p.
Proof using.
  revert path. induction n as [|a nk l IHl r _ h]; intros path Hn Hne Hp Hroom; [done|].
  pose proof Hn as (Hl & Hr & Hh & Hbal). pose proof (height_nonneg l Hl). pose proof (height_nonneg r Hr).
  cbn [leftmost height] in *. destruct l as [|la lk ll lr lh].
  { exists a, nk, r, h, path. split_and!; done. }
  set (l := Node la lk ll lr lh) in *. destruct (Z.leb_spec room (length path)).
  { assert (1 <= height l) by (by eapply height_pos). lia. }
  destruct (IHl (Frame a nk r h false :: path)) as (sa & sk & sr & sh & p & Hm & Hs & Hap & Hbf & Hin);
    [done | done | | cbn [length]; lia|].
  - cbn [app avl_path f_other]. split_and!; [done | lia | lia|]. by rewrite <- Hh.
  - exists sa, sk, sr, sh, p. split_and!; [done | done | done | |].
    + rewrite Hbf. cbn [before f_dir]. apply app_nil_r.
    + rewrite <- Hin. cbn [after f_dir f_addr f_key f_other]. cbn [inorder]. fold (inorder l). by rewrite <- !app_assoc.
Qed.

Lemma tdelete_found k t a nk l r h path :
  t ≠ Null → descend cmp (MAXH + 1) k t [] = Ok (Node a nk l r h, path) →
  avl (Node a nk l r h) → avl_path h path → length path + h <= MAXH →
  ∃ p t', tdelete cmp k (Some t) = Ok (p, Some t', a) ∧ p ≠ NotFound ∧ avl t' ∧
          inorder t' = (before path ++ inorder l) ++ inorder r ++ after path.
Proof using.
  intros Hne Hd Hav Hp Hlen. pose proof Hav as (Hl & Hr & Hh & Hbal).
  pose proof (height_nonneg l Hl). pose proof (height_nonneg r Hr).
  unfold tdelete. destruct t as [|ta tk tl tr th]; [done|]. rewrite Hd. cbn [mbind res_bind].
  set (pr := match path with [] => AtRoot | f :: _ => Parent (f_addr f) end).
  assert (pr ≠ NotFound) as Hpr by (unfold pr; by destruct path).
  destruct l as [|la lk ll lr lh].
  { destruct (unwind_ok path h r Hp Hr) as (t' & -> & Ht & Hi); [simpl in *; lia|].
    exists pr, t'. split_and!; [done | done | done|]. rewrite Hi. simpl. by rewrite app_nil_r. }
  destruct r as [|ra rk rl rr rh].
  { destruct (unwind_ok path h _ Hp Hl) as (t' & -> & Ht & Hi); [cbn [height] in *; lia|].
    exists pr, t'. split_and!; [done | done | done|]. rewrite Hi. by rewrite <- app_assoc. }
  set (l := Node la lk ll lr lh) in *. set (r := Node ra rk rl rr rh) in *.
  destruct (Z.leb_spec (MAXH + 1) (length path)); [lia|].
  assert (avl_path (height r) (Frame 0 0 l 0 true :: path)) as Hpr2.
  { cbn [avl_path f_other]. split_and!; [done | lia | lia|]. by rewrite Z.max_comm, <- Hh. }
  assert (height r < h) as Hrh by lia.
  destruct (leftmost_ok (MAXH - length path) r [] (Frame 0 0 l 0 true :: path)) as (sa & sk & sr & sh & p & Hlm & Hs & Hap & Hbf & Hin);
    [done | done | done | simpl in *; lia|].
  rewrite Hlm. cbn [mbind res_bind].
  assert (∀ p' h' f g, f_other f = f_other g → avl_path h' (p' ++ f :: path) → avl_path h' (p' ++ g :: path)) as Hsw.
  { intros p'. induction p' as [|x p' IH]; intros h' f g E; cbn [app avl_path].
    - by rewrite E.
    - intros (?&?&?). split; [done|]. split; [done|]. by apply (IH _ f g). }
  apply (Hsw p sh (Frame 0 0 l 0 true) (Frame sa sk l sh true) eq_refl) in Hap.
  destruct Hs as (_ & Hsr & Hsh & Hsb). cbn [height] in Hsh, Hsb. pose proof (height_nonneg sr Hsr).
  destruct (unwind_ok _ sh sr Hap Hsr) as (t' & -> & Ht & Hi); [lia|]. cbn [mbind res_bind].
  exists pr, t'. split_and!; [done | done | done|]. rewrite Hi, before_app, after_app, Hbf.
  cbn [before after f_dir f_other f_addr f_key]. simpl in Hin. rewrite app_nil_r in Hin.
  fold r in Hin. change (inorder rl ++ (ra, rk) :: inorder rr) with (inorder r) in Hin. rewrite Hin.
  cbn [before]. rewrite !app_nil_r, <- !app_assoc. simpl. by rewrite <- ?app_assoc.
Qed.
End Ordered.

(** *** Traversal *)

(** The visits at which a node's left subtree is done: its place in order. *)
Definition in_order_visit (e : Z * VISIT * Z) : bool :=
  match e.1.2 with postorder | leaf => true | _ => false end.

Lemma walk_inorder n lev :
  (λ e : Z * VISIT * Z, e.1.1) <$> filter (λ e, in_order_visit e = true) (walk n lev) = (inorder n).*1.
Proof.
  revert lev. induction n as [|a k l IHl r IHr h]; intros lev; [done|].
  assert (walk (Node a k l r h) lev = [(a, leaf, lev)] ∧ l = Null ∧ r = Null ∨
    walk (Node a k l r h) lev = (a, preorder, lev) :: walk l (lev + 1) ++ (a, postorder, lev) :: walk r (lev + 1) ++ [(a, endorder, lev)])
    as [(-> & -> & ->)| ->] by (destruct l, r; simpl; auto).
  - done.
  - rewrite filter_cons_False by done. rewrite filter_app, fmap_app, IHl.
    rewrite filter_cons_True by done. rewrite fmap_cons, filter_app, fmap_app, IHr.
    rewrite (filter_cons_False _ (a, endorder, lev)) by done. cbn [inorder]. rewrite fmap_app, fmap_cons.
    by rewrite filter_nil, app_nil_r.
Qed.

Lemma tdestroy_perm n : (λ x, (x.2, x.1)) <$> tdestroy n ≡ₚ inorder n.
Proof.
  induction n as [|a k l IHl r IHr h]; simpl; [done|]. rewrite !fmap_app, IHl, IHr. simpl.
  apply Permutation_app_head. symmetry. apply Permutation_cons_append.
Qed.

(** ** Properties *)

(** C25: tsearch inserts into an AVL search tree. On a balanced ordered tree
    that fits in memory it terminates without overrunning its array of saved
    slots; it returns the node whose key is equal, if there is one, and
    leaves the tree alone; otherwise it returns null with the tree unchanged
    if malloc fails, and else the new node, in a tree that is balanced and
    ordered and has one more node. tfind agrees. *)
Theorem tsearch_spec cmp k t fresh :
  KeyOrder cmp → avl t → bst cmp t → tsize t < 2 ^ 64 →
  (∃ a k', (a, k') ∈ inorder t ∧ cmp k k' = 0 ∧ tfind cmp k t = a ∧
     tsearch cmp k (Some t) fresh = Ok (a, Some t)) ∨
  (Forall (λ x, cmp k x.2 ≠ 0) (inorder t) ∧ tfind cmp k t = 0 ∧
   if decide (fresh = 0) then tsearch cmp k (Some t) fresh = Ok (0, Some t)
   else ∃ t' l1 l2, tsearch cmp k (Some t) fresh = Ok (fresh, Some t') ∧ avl t' ∧ bst cmp t' ∧
          inorder t = l1 ++ l2 ∧ inorder t' = l1 ++ (fresh, k) :: l2).
Proof.
  intros HK Ht Hb Hs. unfold tsearch.
  destruct (descend_root cmp MAXH k t) as (u & path & Hd & Hu & Hub & Hp & Hlo & Hhi & Hlen & Hin & Hk); try done.
  rewrite Hd. cbn [mbind res_bind]. destruct u as [|a nk l r h].
  - right. simpl in Hin. split_and!; [rewrite Hin; by apply missing | by eapply tfind_none|].
    case_decide as Hf; [by subst|]. rewrite (proj2 (Z.eqb_neq _ _) Hf).
    destruct (unwind_ok path 0 (Node fresh k Null Null 1) Hp) as (t' & -> & Ht' & Hi); [done | simpl; lia|].
    exists t', (before path), (after path). split_and!; [done | done | | done | done].
    by eapply (bst_insert cmp k fresh path t).
  - left. exists a, nk. split_and!; [|done | by eapply tfind_path | done].
    rewrite Hin. apply elem_of_app. right. apply elem_of_app. left. simpl. apply elem_of_app. right. left.
Qed.


(** twalk visits every node in order: the calls of the action with
    postorder or leaf, which come after a node's left subtree and before its
    right one, are for the nodes of the tree in the order of their keys;
    tdestroy frees every node exactly once. *)
Theorem twalk_spec t :
  (λ e : Z * VISIT * Z, e.1.1) <$> filter (λ e, in_order_visit e = true) (twalk t true) = (inorder t).*1 ∧
  (λ x, (x.2, x.1)) <$> tdestroy t ≡ₚ inorder t.
Proof. split; [apply walk_inorder | apply tdestroy_perm]. Qed.

#[export] Instance sub_order : KeyOrder Z.sub.
Proof. split; intros; lia. Qed.

(** The nodes with keys 1, 2 and 3. *)
Definition small_tree : node :=
  Node 200 2 (Node 100 1 Null Null 1) (Node 300 3 Null Null 1) 2.

Lemma small_avl : avl small_tree.
Proof. simpl. repeat split; lia. Qed.

Lemma small_bst : bst Z.sub small_tree.
Proof. unfold bst. simpl. repeat constructor. Qed.

Lemma tsearch_spec_witness :
  (∃ a k', (a, k') ∈ inorder small_tree ∧ 4 - k' = 0 ∧ tfind Z.sub 4 small_tree = a ∧
     tsearch Z.sub 4 (Some small_tree) 400 = Ok (a, Some small_tree)) ∨
  (Forall (λ x, 4 - x.2 ≠ 0) (inorder small_tree) ∧ tfind Z.sub 4 small_tree = 0 ∧
   ∃ t' l1 l2, tsearch Z.sub 4 (Some small_tree) 400 = Ok (400, Some t') ∧ avl t' ∧ bst Z.sub t' ∧
     inorder small_tree = l1 ++ l2 ∧ inorder t' = l1 ++ (400, 4) :: l2).
Proof. refine (tsearch_spec Z.sub 4 small_tree 400 sub_order small_avl small_bst _). vm_compute. done. Defined.

