(* ===== verification/Timeconv.v ===== *)
(** * Calendar conversions (src/src/timeconv.c, and two helpers of tz.c)

    Seconds since the epoch to broken-down time and back: gmtime, timegm,
    localtime, mktime. The rules of the time zone enter through
    [tz_lookup], the interface of tz.c: offset, daylight flag and name in
    effect at a time. Signed division is C's ([Z.quot], [Z.rem]). *)
From S2P Require Import Prelude Strtol.

Definition EOVERFLOW : Z := 75.

Record tm := Tm {
  tm_sec : Z; tm_min : Z; tm_hour : Z; tm_mday : Z; tm_mon : Z; tm_year : Z;
  tm_wday : Z; tm_yday : Z; tm_isdst : Z; tm_gmtoff : Z; tm_zone : Z;
}.

(** ** Operations *)

Definition __is_leap (y : Z) : bool :=
  ((Z.rem y 4 =? 0) && negb (Z.rem y 100 =? 0)) || (Z.rem y 400 =? 0).

Definition __days_from_civil (y m d : Z) : Z :=
  let y := if m <=? 2 then y - 1 else y in
  let era := Z.quot (if 0 <=? y then y else y - 399) 400 in
  let yoe := u32 (y - era * 400) in
  let doy := u32 ((153 * u32 (m + (if 2 <? m then -3 else 9)) + 2) / 5 + d - 1) in
  let doe := u32 (yoe * 365 + yoe / 4 - yoe / 100 + doy) in
  era * 146097 + doe - 719468.

(** civil_from_days: year, month (1 to 12) and day of the month. *)
Definition civil_from_doe (doe : Z) : Z * Z * Z :=
  let yoe := u32 (doe - doe / 1460 + doe / 36524 - doe / 146096) / 365 in
  let doy := u32 (doe - u32 (365 * yoe + yoe / 4 - yoe / 100)) in
  let mp := (5 * doy + 2) / 153 in
  let d := u32 (doy - (153 * mp + 2) / 5 + 1) in
  let m := if mp <? 10 then mp + 3 else mp - 9 in
  (yoe, m, d).

(** None: the year does not fit, EOVERFLOW. *)
Definition secs_to_tm (t : Z) (r : tm) : option tm :=
  let days := Z.quot t 86400 in let rem := Z.rem t 86400 in
  let '(days, rem) := if rem <? 0 then (days - 1, rem + 86400) else (days, rem) in
  let z := days + 719468 in
  let era := Z.quot (if 0 <=? z then z else z - 146096) 146097 in
  let doe := u32 (z - era * 146097) in
  let '(yoe, m, d) := civil_from_doe doe in
  let y := yoe + era * 400 in
  let y := if m <=? 2 then y + 1 else y in
  if (INT_MAX <? y - 1900) || (y - 1900 <? INT_MIN) then None else
  Some {| tm_year := y - 1900; tm_mon := m - 1; tm_mday := d;
          tm_yday := days - __days_from_civil y 1 1;
          tm_wday := Z.rem (Z.rem days 7 + 11) 7;
          tm_hour := Z.quot rem 3600; tm_min := Z.rem (Z.quot rem 60) 60; tm_sec := Z.rem rem 60;
          tm_isdst := tm_isdst r; tm_gmtoff := tm_gmtoff r; tm_zone := tm_zone r |}.

Definition set_zone (r : tm) (isdst off zone : Z) : tm :=
  Tm (tm_sec r) (tm_min r) (tm_hour r) (tm_mday r) (tm_mon r) (tm_year r) (tm_wday r) (tm_yday r)
     isdst off zone.

(** [GMT] is the address of the string "GMT". *)
Definition gmtime_r (GMT t : Z) (r : tm) : option tm :=
  match secs_to_tm t r with None => None | Some r => Some (set_zone r 0 0 GMT) end.

(** The static object of gmtime is passed. *)
Definition gmtime (GMT t : Z) (static : tm) : option tm := gmtime_r GMT t static.

(** None: -1. The long long arithmetic stays far from overflow, since the
    fields are ints. *)
Definition tm_to_secs (r : tm) : option Z :=
  let y := tm_year r + 1900 in let mon := tm_mon r in
  let y := y + Z.quot mon 12 in let mon := Z.rem mon 12 in
  let '(y, mon) := if mon <? 0 then (y - 1, mon + 12) else (y, mon) in
  if (2 ^ 40 <? y) || (y <? - 2 ^ 40) then None else
  let t := (__days_from_civil y (u32 mon + 1) 1 + tm_mday r - 1) * 86400 in
  Some (t + (tm_hour r * 3600 + tm_min r * 60 + tm_sec r)).

(** Return value, [*tm], errno. *)
Definition timegm (GMT : Z) (r : tm) (errno : Z) : Z * tm * Z :=
  match tm_to_secs r with
  | None => (-1, r, EOVERFLOW)
  | Some t =>
      match gmtime_r GMT t r with
      | None => (-1, r, EOVERFLOW)
      | Some n => (t, n, errno)
      end
  end.

(** A local time type: offset and daylight flag. *)
Definition lttype : Type := Z * Z.

Section Zone.
(** Offset, daylight flag and name at a time. *)
Context (tz_lookup : Z → Z * Z * Z).

Definition tz_type (t : Z) : lttype := let '(off, dst, _) := tz_lookup t in (off, dst).

Definition localtime_r (t : Z) (r : tm) : option tm :=
  if (t <? - 2 ^ 60) || (2 ^ 60 <? t) then None else
  let '(off, isdst, name) := tz_lookup t in
  match secs_to_tm (t + off) r with None => None | Some r => Some (set_zone r isdst off name) end.

Definition localtime (t : Z) (static : tm) : option tm := localtime_r t static.

(** The probes of find_kind: -d, then +d, for d in steps of 15 days. *)
Definition find_kind (t want : Z) : option Z :=
  let probe d := find (λ o : lttype, o.2 =? want) [tz_type (t - d); tz_type (t + d)] in
  foldl (λ acc k, match acc with Some _ => acc | None => fst <$> probe (k * (15 * 86400)) end)
        None (seqZ 0 25).

(** ty[0 .. nt - 1]: the types in effect within two days of [L], each once. *)
Definition near_types (L : Z) : list lttype :=
  foldl (λ ty k, let o := tz_type (L + k * 86400) in
           if existsb (λ x : lttype, (x.1 =? o.1) && (x.2 =? o.2)) ty then ty else ty ++ [o])
        [] [-2; -1; 0; 1; 2].

(** The requested kind: [found] and the offset. *)
Definition pick_kind (L want : Z) (ty : list lttype) (off : Z) : Z * Z :=
  foldl (λ '(found, off) (x : lttype),
           if (2 <=? found) || negb (x.2 =? want) then (found, off) else
           let o2 := (tz_type (L - x.1)).1 in
           if (o2 =? x.1) || (found =? 0) then (if o2 =? x.1 then 2 else 1, x.1) else (found, off))
        (0, off) ty.

(** [best] of the automatic case: the consistent types, standard time
    first; none if there is no consistent one. *)
Definition pick_auto (L : Z) (ty : list lttype) : option lttype :=
  foldl (λ best (x : lttype),
           if negb ((tz_type (L - x.1)).1 =? x.1) then best else
           match best with
           | None => Some x
           | Some b => if negb (b.2 =? 0) && (x.2 =? 0) then Some x else best
           end) None ty.

Definition smallest (x0 : lttype) (ty : list lttype) : lttype :=
  foldl (λ best x : lttype, if x.1 <? best.1 then x else best) x0 ty.

Definition mktime_off (r : tm) (L : Z) : Z :=
  let ty := near_types L in
  match ty with
  | [] => 0
  | x0 :: rest =>
      if 0 <=? tm_isdst r then
        let want := if 0 <? tm_isdst r then 1 else 0 in
        let '(found, off) := pick_kind L want ty x0.1 in
        if found =? 0 then
          let '(o, d0) := tz_type (L - x0.1) in
          match find_kind (L - o) want with
          | Some off => off
          | None => o + (if want =? 0 then -3600 else 3600) * (if d0 =? want then 0 else 1)
          end
        else off
      else
        match pick_auto L ty with Some b => b.1 | None => (smallest x0 rest).1 end
  end.

Definition mktime (r : tm) (errno : Z) : Z * tm * Z :=
  match tm_to_secs r with
  | None => (-1, r, EOVERFLOW)
  | Some L =>
      let tt := L - mktime_off r L in
      match localtime_r tt r with
      | None => (-1, r, EOVERFLOW)
      | Some n => (tt, n, errno)
      end
  end.
End Zone.

(** ISO 8601 week and year. *)
Definition iso_week (r : tm) : Z * Z :=
  let y := tm_year r + 1900 in
  let wday := Z.rem (tm_wday r + 6) 7 in
  let week := Z.quot (tm_yday r - wday + 10) 7 in
  if week <? 1 then
    let y := y - 1 in
    let prev_len := 365 + (if __is_leap y then 1 else 0) in
    (Z.quot (tm_yday r + prev_len - wday + 10) 7, y)
  else if week =? 53 then
    let len := 365 + (if __is_leap y then 1 else 0) in
    if len <=? tm_yday r - wday + 3 then (1, y + 1) else (week, y)
  else (week, y).

(** ** The calendar *)

Definition leap (y : Z) : bool := (y mod 4 =? 0) && (negb (y mod 100 =? 0) || (y mod 400 =? 0)).

Definition month_days (y m : Z) : Z :=
  if m =? 2 then (if leap y then 29 else 28)
  else if (m =? 4) || (m =? 6) || (m =? 9) || (m =? 11) then 30 else 31.

(** A date of the proleptic Gregorian calendar. *)
Definition valid_date (y m d : Z) : Prop := 1 <= m <= 12 ∧ 1 <= d <= month_days y m.

(** The day after a date. *)
Definition next_date (y m d : Z) : Z * Z * Z :=
  if d <? month_days y m then (y, m, d + 1) else if m <? 12 then (y, m + 1, 1) else (y + 1, 1, 1).

(** Years of an era are counted from the 1st of March: the year part, and the
    length of that year, which ends in February of the next one. *)
Definition ystart (yoe : Z) : Z := yoe * 365 + yoe / 4 - yoe / 100.
Definition ylen (yoe : Z) : Z := if leap (yoe + 1) then 366 else 365.

(** The day of such a year, and the date of a day. *)
Definition doy_of (m d : Z) : Z := (153 * (if 2 <? m then m - 3 else m + 9) + 2) / 5 + d - 1.
Definition md_of (doy : Z) : Z * Z :=
  let mp := (5 * doy + 2) / 153 in (if mp <? 10 then mp + 3 else mp - 9, doy - (153 * mp + 2) / 5 + 1).

(** The day number within an era. *)
Definition doe_of (yoe m d : Z) : Z := ystart yoe + doy_of m d.

Definition era_year (yoe m : Z) : Z := if m <=? 2 then yoe + 1 else yoe.

(** [P] holds of the [n] numbers from [x] on. *)
Fixpoint all_from (P : Z → bool) (n : nat) (x : Z) : bool :=
  match n with O => true | S n => P x && all_from P n (x + 1) end.

Lemma all_from_spec P n x y : all_from P n x = true → x <= y < x + n → P y = true.
Proof.
  revert x. induction n as [|n IH]; intros x; cbn [all_from]; [lia|]. intros [H1 H2]%andb_true_iff Hy.
  destruct (decide (y = x)) as [->|]; [done|]. apply (IH (x + 1)); [done | lia].
Qed.

(** *** Years of an era *)

(** The days less the leap days before them, of which 365 make a year. *)
Definition f365 (doe : Z) : Z := doe - doe / 1460 + doe / 36524 - doe / 146096.

Lemma f365_mono a b : 0 <= a <= b → f365 a <= f365 b.
Proof. unfold f365. intros. zdiv. Qed.

Definition year_check (yoe : Z) : bool :=
  (ystart yoe + ylen yoe =? (if yoe =? 399 then 146097 else ystart (yoe + 1))) &&
  (f365 (ystart yoe) / 365 =? yoe) && (f365 (ystart yoe + ylen yoe - 1) / 365 =? yoe).

Lemma year_check_all : all_from year_check 400 0 = true.
Proof. vm_compute. reflexivity. Qed.

Lemma year_facts yoe :
  0 <= yoe <= 399 →
  ystart yoe + ylen yoe = (if yoe =? 399 then 146097 else ystart (yoe + 1)) ∧
  f365 (ystart yoe) / 365 = yoe ∧ f365 (ystart yoe + ylen yoe - 1) / 365 = yoe.
Proof.
  intros H. assert (year_check yoe = true) as Hc by (apply (all_from_spec _ _ _ _ year_check_all); lia).
  unfold year_check in Hc. rewrite !andb_true_iff in Hc. zbool. tauto.
Qed.

Lemma ylen_range yoe : 365 <= ylen yoe <= 366.
Proof. unfold ylen. destruct (leap _); lia. Qed.

Lemma ystart_nonneg yoe : 0 <= yoe → 0 <= ystart yoe.
Proof. unfold ystart. zdiv. Qed.

(** The year of a day of the era. *)
Lemma yoe_of_day yoe doe : 0 <= yoe <= 399 → ystart yoe <= doe < ystart yoe + ylen yoe → f365 doe / 365 = yoe.
Proof.
  intros Hy Hd. destruct (year_facts yoe Hy) as (_ & H1 & H2). pose proof (ystart_nonneg yoe ltac:(lia)).
  pose proof (f365_mono (ystart yoe) doe ltac:(lia)).
  pose proof (f365_mono doe (ystart yoe + ylen yoe - 1) ltac:(lia)). zdiv.
Qed.

Lemma day_has_year (n : nat) doe :
  (n <= 399)%nat → 0 <= doe < ystart n + ylen n → ∃ yoe, 0 <= yoe <= n ∧ ystart yoe <= doe < ystart yoe + ylen yoe.
Proof.
  induction n as [|n IH]; intros Hn Hd; [by exists 0|].
  destruct (decide (doe < ystart (S n))) as [Hlt|].
  - destruct (year_facts n) as [E _]; [lia|]. destruct (Z.eqb_spec n 399); [lia|].
    replace (n + 1) with (Z.of_nat (S n)) in E by lia.
    destruct IH as (yoe & Hy & Hyd); [lia | lia|]. exists yoe. split; [lia | done].
  - exists (S n). split; lia.
Qed.

(** *** Days of a year *)

Definition doy_check (doy : Z) : bool :=
  let '(m, d) := md_of doy in
  (1 <=? m) && (m <=? 12) && (1 <=? d) && (doy_of m d =? doy) &&
  (if m =? 2 then (d <=? 28) || ((d =? 29) && (doy =? 365)) else d <=? month_days 0 m).

Lemma doy_check_all : all_from doy_check 366 0 = true.
Proof. vm_compute. reflexivity. Qed.

Definition md_check (m : Z) : bool :=
  all_from (λ d, let doy := doy_of m d in
      (0 <=? doy) && (doy <? 366) && (if doy =? 365 then (m =? 2) && (d =? 29) else true) &&
      (let '(m', d') := md_of doy in (m' =? m) && (d' =? d))) (Z.to_nat (month_days 0 m)) 1.

Lemma md_check_all : all_from md_check 12 1 = true.
Proof. vm_compute. reflexivity. Qed.

Lemma month_days_0 y m : month_days y m <= month_days 0 m.
Proof. unfold month_days. change (leap 0) with true. repeat case_match; lia. Qed.

Lemma md_of_doy yoe m d :
  valid_date (era_year yoe m) m d → 0 <= doy_of m d < ylen yoe ∧ md_of (doy_of m d) = (m, d).
Proof.
  intros [Hm Hd]. assert (md_check m = true) as Hc by (apply (all_from_spec _ _ _ _ md_check_all); lia).
  pose proof (month_days_0 (era_year yoe m) m).
  eapply (all_from_spec _ _ _ d) in Hc; [|lia]. cbv zeta in Hc.
  destruct (md_of (doy_of m d)) as [m' d'] eqn:E'. rewrite !andb_true_iff, ?E', ?andb_true_iff in Hc. destruct Hc as [[[H1 H2] H3] [H4 H5]]. zbool. subst.
  split; [|done]. unfold ylen. destruct (Z.eqb_spec (doy_of m d) 365) as [E|E]; [|destruct (leap _); lia].
  apply andb_true_iff in H3 as [H3 H3']. zbool. subst. unfold month_days, era_year in Hd. simpl in Hd.
  destruct (leap (yoe + 1)); lia.
Qed.

Lemma doy_of_md yoe doy m d :
  0 <= doy < ylen yoe → md_of doy = (m, d) → valid_date (era_year yoe m) m d ∧ doy_of m d = doy.
Proof.
  intros Hdoy E. pose proof (ylen_range yoe).
  assert (doy_check doy = true) as Hc by (apply (all_from_spec _ _ _ _ doy_check_all); lia).
  unfold doy_check in Hc. rewrite E, !andb_true_iff in Hc. destruct Hc as [[[[H1 H2] H3] H4] H5]. zbool.
  split; [|done]. split; [lia|]. unfold month_days in *. destruct (Z.eqb_spec m 2) as [->|Hm2].
  - unfold era_year. simpl. apply orb_true_iff in H5 as [?|[? ?]%andb_true_iff]; zbool; subst.
    + destruct (leap (yoe + 1)); lia.
    + unfold ylen in Hdoy. destruct (leap (yoe + 1)); lia.
  - destruct (_ || _ || _ || _); zbool; lia.
Qed.

(** *** The conversion within an era *)

Lemma civil_from_doe_eq doe yoe :
  0 <= yoe <= 399 → ystart yoe <= doe < ystart yoe + ylen yoe →
  civil_from_doe doe = (yoe, (md_of (doe - ystart yoe)).1, (md_of (doe - ystart yoe)).2).
Proof.
  intros Hy Hd. pose proof (yoe_of_day yoe doe Hy Hd) as E. pose proof (ylen_range yoe).
  assert (0 <= ystart yoe <= 146097) as Hs by (unfold ystart; zdiv).
  unfold civil_from_doe. unfold f365 in E.
  rewrite (uwrap_small 32 (doe - doe / 1460 + _ - _)) by zdiv. rewrite E. cbv zeta.
  replace (365 * yoe + yoe / 4 - yoe / 100) with (ystart yoe) by (unfold ystart; lia).
  rewrite (uwrap_small 32 (ystart yoe)), (uwrap_small 32 (doe - ystart yoe)) by lia.
  unfold md_of. simpl. do 2 f_equal. apply uwrap_small. zdiv.
Qed.

Lemma civil_of_doe yoe m d :
  0 <= yoe <= 399 → valid_date (era_year yoe m) m d →
  0 <= doe_of yoe m d < 146097 ∧ civil_from_doe (doe_of yoe m d) = (yoe, m, d).
Proof.
  intros Hy Hv. destruct (md_of_doy yoe m d Hv) as [Hr Hmd]. unfold doe_of.
  destruct (year_facts yoe Hy) as [E _]. pose proof (ystart_nonneg yoe ltac:(lia)). split.
  - destruct (Z.eqb_spec yoe 399); [lia|]. assert (ystart (yoe + 1) <= 146097) by (unfold ystart; zdiv). lia.
  - rewrite (civil_from_doe_eq _ yoe Hy) by lia. rewrite Z.add_simpl_l, Hmd. done.
Qed.

Lemma doe_of_civil doe yoe m d :
  0 <= doe < 146097 → civil_from_doe doe = (yoe, m, d) →
  0 <= yoe <= 399 ∧ valid_date (era_year yoe m) m d ∧ doe_of yoe m d = doe.
Proof.
  intros Hd E. destruct (day_has_year 399 doe) as (y & Hy & Hyd); [lia|simpl; exact Hd|].
  rewrite (civil_from_doe_eq doe y) in E by (done || lia).
  destruct (md_of (doe - ystart y)) as [m1 d1] eqn:Em. cbn [fst snd] in E. simplify_eq.
  destruct (doy_of_md yoe (doe - ystart yoe) m d) as [Hv Hdo]; [lia | done|].
  split; [lia|]. split; [done|]. unfold doe_of. lia.
Qed.

(** *** Days and dates *)

Lemma leap_era y e : leap (y + e * 400) = leap y.
Proof.
  unfold leap. replace (e * 400) with (e * 100 * 4) by lia. rewrite Z.mod_add by lia.
  replace (e * 100 * 4) with (e * 4 * 100) by lia. rewrite Z.mod_add by lia.
  replace (e * 4 * 100) with (e * 400) by lia. by rewrite Z.mod_add by lia.
Qed.

Lemma is_leap_ok y : __is_leap y = leap y.
Proof.
  unfold __is_leap, leap.
  assert (∀ k, 0 < k → (Z.rem y k =? 0) = (y mod k =? 0)) as Hr.
  { intros k Hk. destruct (Z.eqb_spec (Z.rem y k) 0) as [E|E], (Z.eqb_spec (y mod k) 0) as [E'|E']; try done; exfalso.
    - apply Z.rem_divide in E; [|lia]. by apply Z.mod_divide in E; [|lia].
    - apply Z.mod_divide in E'; [|lia]. by apply Z.rem_divide in E'; [|lia]. }
  rewrite !Hr by lia. destruct (Z.eqb_spec (y mod 4) 0), (Z.eqb_spec (y mod 100) 0), (Z.eqb_spec (y mod 400) 0);
    simpl; try done; zdiv.
Qed.

Lemma month_days_era y e m : month_days (y + e * 400) m = month_days y m.
Proof. unfold month_days. by rewrite leap_era. Qed.

(** The floor of a division, as the code computes it. *)
Lemma quot_floor z k : 0 < k → Z.quot (if 0 <=? z then z else z - (k - 1)) k = z / k.
Proof.
  intros Hk. destruct (Z.leb_spec 0 z); [by apply Z.quot_div_nonneg|].
  replace (z - (k - 1)) with (- (k - 1 - z)) by lia. rewrite Z.quot_opp_l by lia.
  rewrite Z.quot_div_nonneg by lia. pose proof (Z.div_mod z k ltac:(lia)). pose proof (Z.mod_pos_bound z k Hk).
  apply Z.div_unique with (z mod k); [lia|].
  rewrite Z.mul_opp_r. assert ((k - 1 - z) / k = - (z / k)) as ->; [|lia].
  symmetry. apply Z.div_unique with (k - 1 - z mod k); lia.
Qed.

(** The date of a day: year, month, day. *)
Definition civil (days : Z) : Z * Z * Z :=
  let z := days + 719468 in
  let '(yoe, m, d) := civil_from_doe (z mod 146097) in (era_year yoe m + z / 146097 * 400, m, d).

Lemma days_from_civil_eq y m d :
  valid_date y m d →
  __days_from_civil y m d =
  let yy := if m <=? 2 then y - 1 else y in yy / 400 * 146097 + doe_of (yy mod 400) m d - 719468.
Proof.
  intros [Hm Hd]. unfold __days_from_civil. cbv zeta. set (yy := if m <=? 2 then y - 1 else y).
  change 399 with (400 - 1). rewrite (quot_floor yy 400) by lia.
  assert (d <= 31) by (unfold month_days in Hd; repeat case_match; lia).
  replace (yy - yy / 400 * 400) with (yy mod 400) by (rewrite Z.mod_eq by lia; lia).
  pose proof (Z.mod_pos_bound yy 400 ltac:(lia)) as Hy. rewrite (uwrap_small 32 (yy mod 400)) by lia.
  unfold doe_of, ystart, doy_of.
  assert (m + (if 2 <? m then -3 else 9) = (if 2 <? m then m - 3 else m + 9)) as -> by (destruct (2 <? m); lia).
  set (mm := if 2 <? m then m - 3 else m + 9).
  assert (0 <= mm <= 11) by (unfold mm; destruct (Z.ltb_spec 2 m); lia).
  rewrite (uwrap_small 32 mm) by lia. rewrite (uwrap_small 32 (_ / 5 + _ - _)) by zdiv.
  rewrite uwrap_small by zdiv. lia.
Qed.

(** The two conversions are inverse, over all years. *)
Lemma civil_days days y m d : civil days = (y, m, d) → valid_date y m d ∧ __days_from_civil y m d = days.
Proof.
  unfold civil. set (z := days + 719468). pose proof (Z.mod_pos_bound z 146097 ltac:(lia)) as Hz.
  destruct (civil_from_doe (z mod 146097)) as [[yoe m'] d'] eqn:E. intros [= <- <- <-].
  destruct (doe_of_civil _ _ _ _ Hz E) as (Hy & Hv & Hdoe).
  assert (valid_date (era_year yoe m' + z / 146097 * 400) m' d') as Hv'.
  { destruct Hv as [? Hd]. split; [done|]. by rewrite month_days_era. }
  split; [done|]. rewrite days_from_civil_eq by done. cbv zeta.
  assert ((if m' <=? 2 then era_year yoe m' + z / 146097 * 400 - 1 else era_year yoe m' + z / 146097 * 400) =
          yoe + z / 146097 * 400) as ->.
  { unfold era_year. destruct (m' <=? 2); lia. }
  rewrite Z.div_add, Z.mod_add, Z.div_small, Z.mod_small by lia. rewrite Hdoe.
  pose proof (Z.div_mod z 146097 ltac:(lia)). unfold z in *. lia.
Qed.

Lemma days_civil y m d : valid_date y m d → civil (__days_from_civil y m d) = (y, m, d).
Proof.
  intros Hv. rewrite (days_from_civil_eq y m d Hv). cbv zeta. set (yy := if m <=? 2 then y - 1 else y).
  pose proof (Z.mod_pos_bound yy 400 ltac:(lia)) as Hy. pose proof (Z.div_mod yy 400 ltac:(lia)) as Hdm.
  assert (y = era_year (yy mod 400) m + yy / 400 * 400) as Ey.
  { unfold era_year, yy in *. destruct (m <=? 2); lia. }
  destruct (civil_of_doe (yy mod 400) m d) as [Hr Hc]; [lia| |].
  { destruct Hv as [? Hd]. split; [done|]. by rewrite Ey, month_days_era in Hd. }
  unfold civil. replace (yy / 400 * 146097 + doe_of (yy mod 400) m d - 719468 + 719468)
    with (doe_of (yy mod 400) m d + yy / 400 * 146097) by lia.
  rewrite Z.div_add, Z.mod_add, Z.div_small, Z.mod_small by lia. rewrite Hc. do 2 f_equal. lia.
Qed.

(** The conversion of secs_to_tm, in terms of the calendar. *)
Lemma secs_to_tm_eq t r :
  secs_to_tm t r =
  let days := t / 86400 in let rem := t mod 86400 in
  let '(y, m, d) := civil days in
  if decide (INT_MIN <= y - 1900 <= INT_MAX) then
    Some {| tm_year := y - 1900; tm_mon := m - 1; tm_mday := d; tm_yday := days - __days_from_civil y 1 1;
            tm_wday := (days + 4) mod 7; tm_hour := rem / 3600; tm_min := rem / 60 mod 60; tm_sec := rem mod 60;
            tm_isdst := tm_isdst r; tm_gmtoff := tm_gmtoff r; tm_zone := tm_zone r |}
  else None.
Proof.
  unfold secs_to_tm.
  assert ((if Z.rem t 86400 <? 0 then (Z.quot t 86400 - 1, Z.rem t 86400 + 86400) else (Z.quot t 86400, Z.rem t 86400)) =
          (t / 86400, t mod 86400)) as ->.
  { destruct (Z.ltb_spec (Z.rem t 86400) 0); f_equal; zdiv. }
  cbv zeta. set (days := t / 86400). set (z := days + 719468). change 146096 with (146097 - 1).
  rewrite (quot_floor z 146097) by lia. replace (z - z / 146097 * 146097) with (z mod 146097) by (rewrite Z.mod_eq by lia; lia).
  pose proof (Z.mod_pos_bound z 146097 ltac:(lia)). rewrite (uwrap_small 32 (z mod 146097)) by lia.
  unfold civil. fold z. destruct (civil_from_doe (z mod 146097)) as [[yoe m] d].
  assert ((if m <=? 2 then yoe + z / 146097 * 400 + 1 else yoe + z / 146097 * 400) = era_year yoe m + z / 146097 * 400) as ->.
  { unfold era_year. destruct (m <=? 2); lia. }
  set (y := era_year yoe m + z / 146097 * 400). pose proof (Z.mod_pos_bound t 86400 ltac:(lia)).
  case_decide.
  - destruct (Z.ltb_spec INT_MAX (y - 1900)), (Z.ltb_spec (y - 1900) INT_MIN); try lia. cbn [orb].
    f_equal. f_equal; try (rewrite ?Z.quot_div_nonneg, ?Z.rem_mod_nonneg by zdiv; done). zdiv.
  - destruct (Z.ltb_spec INT_MAX (y - 1900)), (Z.ltb_spec (y - 1900) INT_MIN); simpl; done || lia.
Qed.

(** Where the first of a month falls among the days of a year. *)
Lemma first_valid y m : 1 <= m <= 12 → valid_date y m 1.
Proof. intros Hm. split; [done|]. unfold month_days. repeat case_match; lia. Qed.

Lemma days_linear y m d :
  valid_date y m d → __days_from_civil y m d = __days_from_civil y m 1 + d - 1.
Proof.
  intros Hv. rewrite (days_from_civil_eq y m d Hv), (days_from_civil_eq y m 1 (first_valid y m (proj1 Hv))).
  cbv zeta. unfold doe_of, doy_of. lia.
Qed.

(** The first of the next month. *)
Lemma days_next_month y m :
  1 <= m <= 12 →
  (if m <? 12 then __days_from_civil y (m + 1) 1 else __days_from_civil (y + 1) 1 1) =
  __days_from_civil y m 1 + month_days y m.
Proof.
  intros Hm. assert (m = 2 ∨ m = 12 ∨ (m ≠ 2 ∧ m < 12)) as [-> | [-> | [Hm2 Hm12]]] by lia.
  - (* into March: the year of the era changes *)
    change (2 <? 12) with true. cbv iota. change (2 + 1) with 3. rewrite !days_from_civil_eq by (apply first_valid; lia). simpl.
    unfold doe_of. change (doy_of 3 1) with 0. change (doy_of 2 1) with 337.
    pose proof (Z.mod_pos_bound (y - 1) 400 ltac:(lia)) as Hr. pose proof (Z.div_mod (y - 1) 400 ltac:(lia)) as Hdm.
    set (q := (y - 1) / 400) in *. set (s := (y - 1) mod 400) in *.
    destruct (year_facts s ltac:(lia)) as [E _]. unfold ylen in E.
    assert (month_days y 2 = if leap (s + 1) then 29 else 28) as ->.
    { unfold month_days. simpl. replace y with (s + 1 + q * 400) by lia. by rewrite leap_era. }
    destruct (Z.eqb_spec s 399) as [E399|].
    + assert (y / 400 = q + 1 ∧ y mod 400 = 0) as [-> ->].
      { replace y with (0 + (q + 1) * 400) by lia. rewrite Z.div_add, Z.mod_add by lia. done. }
      change (ystart 0) with 0. destruct (leap (s + 1)); lia.
    + assert (y / 400 = q ∧ y mod 400 = s + 1) as [-> ->].
      { replace y with ((s + 1) + q * 400) by lia. rewrite Z.div_add, Z.mod_add by lia.
        rewrite Z.div_small, Z.mod_small by lia. done. }
      destruct (leap (s + 1)); lia.
  - change (12 <? 12) with false. cbv iota. rewrite !days_from_civil_eq by (apply first_valid; lia). simpl.
    replace (y + 1 - 1) with y by lia. unfold doe_of. change (doy_of 1 1) with 306. change (doy_of 12 1) with 275.
    change (month_days y 12) with 31. lia.
  - destruct (Z.ltb_spec m 12); [|lia]. rewrite !days_from_civil_eq by (apply first_valid; lia). cbv zeta.
    assert ((if m + 1 <=? 2 then y - 1 else y) = (if m <=? 2 then y - 1 else y)) as ->.
    { destruct (Z.leb_spec (m + 1) 2), (Z.leb_spec m 2); lia. }
    assert (doy_of (m + 1) 1 = doy_of m 1 + month_days y m) as E; [|unfold doe_of; lia].
    assert (m = 1 ∨ m = 3 ∨ m = 4 ∨ m = 5 ∨ m = 6 ∨ m = 7 ∨ m = 8 ∨ m = 9 ∨ m = 10 ∨ m = 11) as Hcase by lia.
    repeat destruct Hcase as [-> | Hcase]; try reflexivity. subst. reflexivity.
Qed.

(** Days of the year before the first of month [m]. *)
Definition days_before (y m : Z) : Z := foldr Z.add 0 (month_days y <$> seqZ 1 (m - 1)).

Lemma days_before_S y m : 1 <= m → days_before y (m + 1) = days_before y m + month_days y m.
Proof.
  intros Hm. unfold days_before. replace (m + 1 - 1) with (m - 1 + 1) by lia. rewrite seqZ_app by lia.
  rewrite fmap_app, foldr_app. replace (1 + (m - 1)) with m by lia. change (seqZ m 1) with [m]. simpl.
  generalize (month_days y <$> seqZ 1 (m - 1)). intros l.
  induction l as [|x l IH]; simpl; lia.
Qed.

Lemma days_from_jan1 y m : 1 <= m <= 12 → __days_from_civil y m 1 = __days_from_civil y 1 1 + days_before y m.
Proof.
  intros Hm. replace m with (1 + Z.of_nat (Z.to_nat (m - 1))) by lia.
  assert (Z.to_nat (m - 1) <= 11)%nat as Hn by lia. revert Hn. generalize (Z.to_nat (m - 1)) as n. clear m Hm.
  induction n as [|n IH]; intros Hn; [change (1 + Z.of_nat 0) with 1; change (days_before y 1) with 0; lia|].
  replace (1 + S n) with (1 + n + 1) by lia. rewrite days_before_S by lia.
  pose proof (days_next_month y (1 + n) ltac:(lia)) as Hs. destruct (Z.ltb_spec (1 + n) 12); [|lia].
  rewrite Hs, IH by lia. lia.
Qed.

(** A valid broken-down time. *)
Record valid_tm (r : tm) : Prop := {
  vt_year : INT_MIN <= tm_year r <= INT_MAX;
  vt_date : valid_date (tm_year r + 1900) (tm_mon r + 1) (tm_mday r);
  vt_time : 0 <= tm_hour r < 24 ∧ 0 <= tm_min r < 60 ∧ 0 <= tm_sec r < 60;
  vt_yday : tm_yday r = days_before (tm_year r + 1900) (tm_mon r + 1) + tm_mday r - 1;
  vt_wday : tm_wday r = (__days_from_civil (tm_year r + 1900) (tm_mon r + 1) (tm_mday r) + 4) mod 7;
}.

Lemma secs_to_tm_ok t r n :
  secs_to_tm t r = Some n →
  valid_tm n ∧ tm_to_secs n = Some t ∧ tm_isdst n = tm_isdst r ∧ tm_gmtoff n = tm_gmtoff r ∧ tm_zone n = tm_zone r.
Proof.
  rewrite secs_to_tm_eq. cbv zeta. destruct (civil (t / 86400)) as [[y m] d] eqn:E.
  destruct (civil_days _ _ _ _ E) as [Hv Hd]. case_decide as Hy; [|done]. intros [= <-].
  pose proof (Z.mod_pos_bound t 86400 ltac:(lia)) as Hrem. pose proof (Z.div_mod t 86400 ltac:(lia)) as Hdm.
  set (rem := t mod 86400) in *. set (days := t / 86400) in *.
  pose proof (days_linear y m d Hv) as Hlin. pose proof (days_from_jan1 y m (proj1 Hv)) as Hjan.
  split; [|split; [|done]].
  - split; simpl; replace (y - 1900 + 1900) with y by lia; replace (m - 1 + 1) with m by lia; [lia | done | zdiv | lia | by rewrite Hd].
  - unfold tm_to_secs. simpl. replace (y - 1900 + 1900) with y by lia. destruct Hv as [Hm Hv].
    rewrite Z.quot_small, Z.rem_small by lia. destruct (Z.ltb_spec (m - 1) 0); [lia|]. unfold INT_MIN, INT_MAX in Hy.
    destruct (Z.ltb_spec (2 ^ 40) (y + 0)), (Z.ltb_spec (y + 0) (- 2 ^ 40)); try lia. simpl.
    rewrite uwrap_small by lia. replace (m - 1 + 1) with m by lia. rewrite Z.add_0_r. f_equal.
    assert (rem / 3600 * 3600 + rem / 60 mod 60 * 60 + rem mod 60 = rem) by zdiv. lia.
Qed.

Section ZoneLemmas.
Context (tz_lookup : Z → Z * Z * Z).
Local Abbreviation off_at t := ((tz_type tz_lookup t).1).

(** Reading [L] with this type gives a time at which the type is in effect. *)
Definition consistent (L : Z) (x : lttype) : Prop := off_at (L - x.1) = x.1.

Lemma pick_auto_ok L ty :
  match pick_auto tz_lookup L ty with
  | Some b => b ∈ ty ∧ consistent L b ∧ (b.2 ≠ 0 → ∀ x, x ∈ ty → consistent L x → x.2 ≠ 0)
  | None => ∀ x, x ∈ ty → ¬ consistent L x
  end.
Proof.
  unfold pick_auto. induction ty as [|x ty IH] using rev_ind; [simpl; set_solver|].
  rewrite foldl_app. cbn [foldl]. destruct (Z.eqb_spec (off_at (L - x.1)) x.1) as [E|E]; cbn [negb].
  - destruct (foldl _ None ty) as [b|].
    + destruct IH as (Hb & Hc & Hall). destruct (Z.eqb_spec b.2 0) as [Eb|Eb], (Z.eqb_spec x.2 0) as [Ex|Ex]; cbn [negb andb].
      1,2: split_and!; [set_solver | done | done].
      * split_and!; [set_solver | done | done].
      * split_and!; [set_solver | done|]. intros _ y Hy Hcy. apply elem_of_app in Hy as [Hy|Hy]; [by apply Hall|].
        apply list_elem_of_singleton in Hy as ->. done.
    + split_and!; [set_solver | done|]. intros Hx y Hy Hcy. apply elem_of_app in Hy as [Hy|Hy]; [by apply IH in Hy|].
      apply list_elem_of_singleton in Hy as ->. done.
  - destruct (foldl _ None ty) as [b|].
    + destruct IH as (Hb & Hc & Hall). split_and!; [set_solver | done|]. intros Hb2 y Hy Hcy.
      apply elem_of_app in Hy as [Hy|Hy]; [by apply Hall|]. apply list_elem_of_singleton in Hy as ->. done.
    + intros y Hy. apply elem_of_app in Hy as [Hy|Hy]; [by apply IH|]. apply list_elem_of_singleton in Hy as ->. done.
Qed.

Lemma localtime_ok t r n :
  localtime_r tz_lookup t r = Some n →
  valid_tm n ∧ tm_to_secs n = Some (t + off_at t) ∧ tm_isdst n = (tz_type tz_lookup t).2 ∧ tm_gmtoff n = off_at t.
Proof.
  unfold localtime_r, tz_type. case_match; [done|]. destruct (tz_lookup t) as [[off dst] name]. simpl.
  destruct (secs_to_tm (t + off) r) as [k|] eqn:E; [|done]. intros [= <-].
  destruct (secs_to_tm_ok _ _ _ E) as ([H1 H2 H3 H4 H5] & Hs & _). split; [by split | done].
Qed.
End ZoneLemmas.

(** ** Properties *)


(** __days_from_civil counts the days of the proleptic Gregorian
    calendar: it is 0 on 1970-01-01, and on every valid date of every year,
    before or after the epoch, it is one less than on the next day. The
    calendar's leap years are those of __is_leap. *)
Theorem days_from_civil_spec y m d :
  valid_date y m d →
  __days_from_civil 1970 1 1 = 0 ∧ __is_leap y = leap y ∧
  let '(y', m', d') := next_date y m d in
  valid_date y' m' d' ∧ __days_from_civil y' m' d' = __days_from_civil y m d + 1.
Proof.
  intros Hv. split; [reflexivity|]. split; [apply is_leap_ok|]. pose proof Hv as [Hm Hd]. unfold next_date.
  rewrite (days_linear y m d Hv). pose proof (days_next_month y m Hm) as Hn.
  destruct (Z.ltb_spec d (month_days y m)).
  - assert (valid_date y m (d + 1)) as Hv' by (split; lia). split; [done|]. rewrite (days_linear y m (d + 1) Hv'). lia.
  - destruct (Z.ltb_spec m 12); (split; [apply first_valid; lia|]); lia.
Qed.


Lemma days_from_civil_spec_witness :
  __days_from_civil 1970 1 1 = 0 ∧ __is_leap 1900 = false ∧
  valid_date 1900 3 1 ∧ __days_from_civil 1900 3 1 = __days_from_civil 1900 2 28 + 1.
Proof. apply (days_from_civil_spec 1900 2 28). split; vm_compute; done. Defined.

(** One hour east of UTC, with daylight time in the second half of every year
    of 365 days since the epoch. *)
Definition toy_zone (t : Z) : Z * Z * Z :=
  if t mod 31536000 <? 15768000 then (3600, 0, 1) else (7200, 1, 2).

Definition noon : tm := Tm 0 0 12 1 0 70 0 0 (-1) 0 0.

