(* ===== verification/Timefmt.v ===== *)
(** * Text forms of times (src/src/timeconv.c, second half)

    asctime, ctime, strftime and strptime. Strings are lists of bytes
    without the terminator; a result written to a buffer is the list of the
    bytes written. The printf conversions asctime and %z use are those of
    ISO C; the text tm_zone points to is read through [zone_str]. *)
From S2P Require Import Prelude CMem Lit Ctype Strtol Timeconv.

Definition wday_name : list (list Z) :=
  [lit "Sunday"; lit "Monday"; lit "Tuesday"; lit "Wednesday"; lit "Thursday"; lit "Friday"; lit "Saturday"].
Definition mon_name : list (list Z) :=
  [lit "January"; lit "February"; lit "March"; lit "April"; lit "May"; lit "June"; lit "July"; lit "August"; lit "September"; lit "October"; lit "November"; lit "December"].

(** The case labels of a switch. *)
Definition among (c : Z) (s : String.string) : bool := existsb (Z.eqb c) (lit s).
Arguments among c s%_string_scope.

(** (unsigned)i < n ? names[i] : other *)
Definition name_of (names : list (list Z)) (i : Z) (other : list Z) : list Z :=
  if u32 i <? length names then nth (Z.to_nat i) names [] else other.

(** do tmp[--i] = '0' + u % 10; while (u /= 10), in front of [t]; a 64-bit
    value has at most 20 digits. *)
Fixpoint digits_of (fuel : nat) (u : Z) (t : list Z) : list Z :=
  let t := (48 + u mod 10) :: t in
  match fuel with
  | O => t
  | S fuel => if u / 10 =? 0 then t else digits_of fuel (u / 10) t
  end.
Definition dec (u : Z) : list Z := digits_of 19 u [].

(** The printf conversions %d, %3d, %.2d and %02ld. *)
Definition printf_prec (p v : Z) : list Z :=
  let d := dec (Z.abs v) in
  (if v <? 0 then [45] else []) ++ replicate (Z.to_nat (p - length d)) 48 ++ d.
Definition printf_width (w v : Z) : list Z :=
  let s := printf_prec 1 v in replicate (Z.to_nat (w - length s)) 32 ++ s.

(** ** asctime and ctime *)

(** The text without the terminator; None: EOVERFLOW, the 26 bytes of the
    buffer do not hold it (snprintf wrote the part that fits). *)
Definition asctime_r (r : tm) : option (list Z) :=
  let wd := name_of wday_name (tm_wday r) (lit "???") in
  let mn := name_of mon_name (tm_mon r) (lit "???") in
  let s := take 3 wd ++ [32] ++ take 3 mn ++ printf_width 3 (tm_mday r) ++ [32] ++ printf_prec 2 (tm_hour r) ++ [58] ++
           printf_prec 2 (tm_min r) ++ [58] ++ printf_prec 2 (tm_sec r) ++ [32] ++ printf_prec 1 (s32 (1900 + tm_year r)) ++ [10] in
  if 26 <=? length s then None else Some s.

Definition ctime_r (tz_lookup : Z → Z * Z * Z) (t : Z) (r : tm) : option (list Z) :=
  r ← localtime_r tz_lookup t r; asctime_r r.

(** ** strftime *)

(** The bytes written so far, the size of the buffer, and whether something
    did not fit; n is the length of [out]. *)
Record sbuf := Sbuf { out : list Z; max : Z; full : bool }.

Definition put (b : sbuf) (s : list Z) : sbuf :=
  if max b <=? length (out b) + length s then Sbuf (out b) (max b) true
  else Sbuf (out b ++ s) (max b) (full b).

(** The two padding loops of put_num; [i] is the source's i, the room left
    in front of the text [t] in the 32 bytes of tmp. *)
Fixpoint pad_zero (i : nat) (width least : Z) (t : list Z) : list Z :=
  match i with
  | S (S _ as i') => if least <? width then pad_zero i' (width - 1) least (48 :: t) else t
  | _ => t
  end.

Fixpoint pad_space (i : nat) (width : Z) (t : list Z) : list Z :=
  match i with
  | S i' => if length t <? width then pad_space i' width (32 :: t) else t
  | O => t
  end.

(** The text put_num puts. *)
Definition put_num (v width pad : Z) : list Z :=
  let neg := v <? 0 in
  let t := dec (if neg then u64 (- v) else u64 v) in
  let sgn := if neg then 1 else 0 in
  let room (t : list Z) := (32 - length t)%nat in
  if negb (pad =? 0) && (length t + sgn <? width) then
    if pad =? 48 then
      let t := pad_zero (room t) width (length t + sgn) t in
      if neg then 45 :: t else t
    else
      let t := if neg then 45 :: t else t in
      pad_space (room t) width t
  else if neg then 45 :: t else t.

(** The flags, the width and the E and O modifiers after '%'. *)
Fixpoint flags (f : list Z) (pad : Z) (upper : bool) : list Z * Z * bool :=
  match f with
  | c :: f' =>
      if c =? 95 then flags f' 32 upper
      else if c =? 45 then flags f' 45 upper
      else if c =? 48 then flags f' 48 upper
      else if c =? 94 then flags f' pad true
      else if c =? 35 then flags f' pad upper
      else (f, pad, upper)
  | [] => (f, pad, upper)
  end.

Fixpoint width_of (f : list Z) (w : Z) : list Z * Z :=
  match f with
  | c :: f' => if isdigit c then width_of f' (w * 10 + (c - 48)) else (f, w)
  | [] => (f, w)
  end.

Definition modifier (f : list Z) : list Z :=
  match f with c :: f' => if (c =? 69) || (c =? 79) then f' else f | [] => f end.

(** What a conversion does: the texts it puts, one after the other, or the
    format it expands to. *)
Inductive conv := Puts (ps : list (list Z)) | Nested (f : list Z).

Section Format.
Context (tz_lookup : Z → Z * Z * Z) (zone_str : Z → list Z).

(** The label full: pad with blanks, then the string. *)
Definition put_full (width : Z) (upper : bool) (str : list Z) : list (list Z) :=
  replicate (Z.to_nat (width - length str)) [32] ++ (if upper then (λ c, [toupper c]) <$> str else [str]).

(** The switch of fmt_tm; [prev] is the byte before the conversion. None:
    not a known conversion. *)
Definition fmt_conv (r : tm) (c pad width : Z) (upper : bool) : option conv :=
  let NUM v w p := Puts [put_num v (if pad =? 45 then 0 else if width =? 0 then w else width)
                                   (if pad =? 45 then 0 else if pad =? 0 then p else pad)] in
  let full s := Puts (put_full width upper s) in
  let abbr s := full (take 3 s) in
  let year := tm_year r + 1900 in
  let h12 := let h := Z.rem (tm_hour r) 12 in if h =? 0 then 12 else h in
  if among c "a" then Some (abbr (name_of wday_name (tm_wday r) (lit "?")))
  else if among c "A" then Some (full (name_of wday_name (tm_wday r) (lit "?")))
  else if among c "bh" then Some (abbr (name_of mon_name (tm_mon r) (lit "?")))
  else if among c "B" then Some (full (name_of mon_name (tm_mon r) (lit "?")))
  else if among c "c" then Some (Nested (lit "%a %b %e %H:%M:%S %Y"))
  else if among c "C" then Some (NUM (Z.quot year 100 - (if Z.rem year 100 <? 0 then 1 else 0)) 2 48)
  else if among c "d" then Some (NUM (tm_mday r) 2 48)
  else if among c "D" then Some (Nested (lit "%m/%d/%y"))
  else if among c "e" then Some (NUM (tm_mday r) 2 32)
  else if among c "F" then Some (Nested (lit "%Y-%m-%d"))
  else if among c "g" then Some (NUM (Z.rem (Z.rem (iso_week r).2 100 + 100) 100) 2 48)
  else if among c "G" then Some (NUM (iso_week r).2 0 48)
  else if among c "H" then Some (NUM (tm_hour r) 2 48)
  else if among c "I" then Some (NUM h12 2 48)
  else if among c "j" then Some (NUM (tm_yday r + 1) 3 48)
  else if among c "k" then Some (NUM (tm_hour r) 2 32)
  else if among c "l" then Some (NUM h12 2 32)
  else if among c "m" then Some (NUM (tm_mon r + 1) 2 48)
  else if among c "M" then Some (NUM (tm_min r) 2 48)
  else if among c "n" then Some (Puts [[10]])
  else if among c "p" then Some (Puts [if tm_hour r <? 12 then lit "AM" else lit "PM"])
  else if among c "P" then Some (Puts [if tm_hour r <? 12 then lit "am" else lit "pm"])
  else if among c "r" then Some (Nested (lit "%I:%M:%S %p"))
  else if among c "R" then Some (Nested (lit "%H:%M"))
  else if among c "s" then Some (NUM (mktime tz_lookup r 0).1.1 0 0)
  else if among c "S" then Some (NUM (tm_sec r) 2 48)
  else if among c "t" then Some (Puts [[9]])
  else if among c "T" then Some (Nested (lit "%H:%M:%S"))
  else if among c "u" then Some (NUM (if tm_wday r =? 0 then 7 else tm_wday r) 1 48)
  else if among c "U" then Some (NUM (Z.quot (tm_yday r + 7 - tm_wday r) 7) 2 48)
  else if among c "V" then Some (NUM (iso_week r).1 2 48)
  else if among c "w" then Some (NUM (tm_wday r) 1 48)
  else if among c "W" then Some (NUM (Z.quot (tm_yday r + 7 - Z.rem (tm_wday r + 6) 7) 7) 2 48)
  else if among c "x" then Some (Nested (lit "%m/%d/%y"))
  else if among c "X" then Some (Nested (lit "%H:%M:%S"))
  else if among c "y" then Some (NUM (Z.rem (Z.rem year 100 + 100) 100) 2 48)
  else if among c "Y" then Some (NUM year 0 48)
  else if among c "z" then
    let off := Z.abs (tm_gmtoff r) in
    Some (Puts [(if tm_gmtoff r <? 0 then 45 else 43) ::
                printf_prec 2 (Z.rem (Z.quot off 3600) 100) ++ printf_prec 2 (Z.rem (Z.quot off 60) 60)])
  else if among c "Z" then Some (full (if tm_zone r =? 0 then [] else zone_str (tm_zone r)))
  else if among c "%" then Some (Puts [[37]])
  else None.

(** One turn of the loop: what is done, and the format after it. [Puts []]
    with nothing left is the return at a format that ends in '%'. *)
Definition fmt_next (r : tm) (c : Z) (f : list Z) : conv * list Z :=
  if negb (c =? 37) then (Puts [[c]], f) else
  let '(f1, pad, upper) := flags f 0 false in
  let '(f2, width) := width_of f1 0 in
  match modifier f2 with
  | [] => (Puts [], [])
  | c :: f' =>
      match fmt_conv r c pad width upper with
      | Some cv => (cv, f')
      | None => (Puts [[nth (length f - length (c :: f')) (37 :: f) 0; c]], f')
      end
  end.

(** The loop over the format; [nested] formats what a conversion expands to.
    Every turn consumes a byte, so the length of the format is enough
    fuel. *)
Fixpoint fmt_loop (nested : list Z → sbuf → sbuf) (fuel : nat) (r : tm) (f : list Z) (b : sbuf) : sbuf :=
  match fuel, f with
  | S fuel, c :: f =>
      if full b then b else
      let '(cv, f') := fmt_next r c f in
      fmt_loop nested fuel r f' (match cv with Puts ps => foldl put b ps | Nested g => nested g b end)
  | _, _ => b
  end.

(** The formats that conversions expand to contain none that expand, so a
    recursion of depth two is all of it (lemma [nested_depth]). *)
Definition fmt_flat (r : tm) (f : list Z) (b : sbuf) : sbuf := fmt_loop (λ _ b, b) (length f) r f b.
Definition fmt_tm (r : tm) (f : list Z) (b : sbuf) : sbuf := fmt_loop (fmt_flat r) (length f) r f b.

(** The return value and the bytes written to the buffer. *)
Definition strftime (max_ : Z) (f : list Z) (r : tm) : Z * list Z :=
  let b := fmt_tm r f (Sbuf [] max_ false) in
  if full b || (max_ =? 0) then (0, out b) else (Z.of_nat (length (out b)), out b ++ [0]).
End Format.

(** ** strptime *)

(** strncasecmp(s, t, n) == 0 *)
Fixpoint same_nocase (n : nat) (s t : list Z) : bool :=
  match n with
  | O => true
  | S n =>
      let x := default 0 (head s) in let y := default 0 (head t) in
      if tolower x =? tolower y then (x =? 0) || same_nocase n (tail s) (tail t) else false
  end.

(** The index of the name and the text after it. *)
Fixpoint match_name (names : list (list Z)) (i : Z) (s : list Z) : option (Z * list Z) :=
  match names with
  | [] => None
  | name :: names =>
      if same_nocase (length name) s name then Some (i, drop (length name) s)
      else if same_nocase 3 s name then Some (i, drop 3 s)
      else match_name names (i + 1) s
  end.

Fixpoint num_digits (maxdig : nat) (v : Z) (d : nat) (s : list Z) : Z * nat * list Z :=
  match maxdig, s with
  | S k, c :: s' => if isdigit c then num_digits k (v * 10 + (c - 48)) (S d) s' else (v, d, s)
  | _, _ => (v, d, s)
  end.

Definition get_num (maxdig : nat) (lo hi : Z) (s : list Z) : option (Z * list Z) :=
  let '(neg, s) := match s with
                   | c :: s' => if (c =? 43) || (c =? 45) then (c =? 45, s') else (false, s)
                   | [] => (false, s)
                   end in
  let '(v, d, s) := num_digits maxdig 0 0 s in
  if (d =? 0)%nat then None else
  let v := if neg : bool then - v else v in
  if (v <? lo) || (hi <? v) then None else Some (v, s).

Fixpoint skip_space (s : list Z) : list Z :=
  match s with c :: s' => if isspace c then skip_space s' else s | [] => [] end.
Fixpoint skip_alpha (s : list Z) : list Z :=
  match s with c :: s' => if isalpha c then skip_alpha s' else s | [] => [] end.

(** strtoll(s, &e, 10) with errno 0: the value, the text at e, errno. The
    text is laid out in a memory of whole words. *)
Definition str_mem (s : list Z) : mem := write ∅ 4096 (s ++ replicate (8 - length s mod 8) 0).
Definition strtoll_at (s : list Z) : option (Z * list Z * Z) :=
  let base := 4096 in
  match strtoll (str_mem s) base 10 0 with
  | Ok (v, e, errno) => Some (v, drop (Z.to_nat (e - base)) s, errno)
  | Trap _ => None
  end.

Definition set_sec (v : Z) (r : tm) : tm := Tm v (tm_min r) (tm_hour r) (tm_mday r) (tm_mon r) (tm_year r) (tm_wday r) (tm_yday r) (tm_isdst r) (tm_gmtoff r) (tm_zone r).
Definition set_min (v : Z) (r : tm) : tm := Tm (tm_sec r) v (tm_hour r) (tm_mday r) (tm_mon r) (tm_year r) (tm_wday r) (tm_yday r) (tm_isdst r) (tm_gmtoff r) (tm_zone r).
Definition set_hour (v : Z) (r : tm) : tm := Tm (tm_sec r) (tm_min r) v (tm_mday r) (tm_mon r) (tm_year r) (tm_wday r) (tm_yday r) (tm_isdst r) (tm_gmtoff r) (tm_zone r).
Definition set_mday (v : Z) (r : tm) : tm := Tm (tm_sec r) (tm_min r) (tm_hour r) v (tm_mon r) (tm_year r) (tm_wday r) (tm_yday r) (tm_isdst r) (tm_gmtoff r) (tm_zone r).
Definition set_mon (v : Z) (r : tm) : tm := Tm (tm_sec r) (tm_min r) (tm_hour r) (tm_mday r) v (tm_year r) (tm_wday r) (tm_yday r) (tm_isdst r) (tm_gmtoff r) (tm_zone r).
Definition set_year (v : Z) (r : tm) : tm := Tm (tm_sec r) (tm_min r) (tm_hour r) (tm_mday r) (tm_mon r) v (tm_wday r) (tm_yday r) (tm_isdst r) (tm_gmtoff r) (tm_zone r).
Definition set_wday (v : Z) (r : tm) : tm := Tm (tm_sec r) (tm_min r) (tm_hour r) (tm_mday r) (tm_mon r) (tm_year r) v (tm_yday r) (tm_isdst r) (tm_gmtoff r) (tm_zone r).
Definition set_yday (v : Z) (r : tm) : tm := Tm (tm_sec r) (tm_min r) (tm_hour r) (tm_mday r) (tm_mon r) (tm_year r) (tm_wday r) v (tm_isdst r) (tm_gmtoff r) (tm_zone r).
Definition set_gmtoff (v : Z) (r : tm) : tm := Tm (tm_sec r) (tm_min r) (tm_hour r) (tm_mday r) (tm_mon r) (tm_year r) (tm_wday r) (tm_yday r) (tm_isdst r) v (tm_zone r).

(** s, *tm and the local variables of strptime. *)
Record pst := Pst { ptm : tm; pm : Z; century : Z; have_yy : bool }.
Definition upd (f : tm → tm) (p : pst) : pst := Pst (f (ptm p)) (pm p) (century p) (have_yy p).

Section Parse.
Context (tz_lookup : Z → Z * Z * Z).

(** A numeric conversion that sets one field. *)
Definition num_conv (maxdig : nat) (lo hi : Z) (set : Z → pst → pst) (s : list Z) (p : pst) : pst * option (list Z) :=
  match get_num maxdig lo hi s with Some (v, s) => (set v p, Some s) | None => (p, None) end.

Definition name_conv (names : list (list Z)) (set : Z → tm → tm) (s : list Z) (p : pst) : pst * option (list Z) :=
  match match_name names 0 s with Some (i, s) => (upd (set i) p, Some s) | None => (p, None) end.

(** The offset of %z after its sign. *)
Definition zone_conv (s : list Z) (p : pst) : pst * option (list Z) :=
  match s with
  | c :: s =>
      if c =? 90 then (upd (set_gmtoff 0) p, Some s) else
      if negb (c =? 43) && negb (c =? 45) then (p, None) else
      match get_num 2 0 24 s with
      | None => (p, None)
      | Some (hh, s) =>
          let s := match s with c :: s' => if c =? 58 then s' else s | [] => s end in
          let '(mm, s) := default (0, s) (get_num 2 0 59 s) in
          (upd (set_gmtoff ((hh * 3600 + mm * 60) * (if c =? 45 then -1 else 1))) p, Some s)
      end
  | [] => (p, None)
  end.

(** The switch: [nested] is strptime on what the conversion expands to. A
    result of None is a return of NULL. *)
Definition parse_conv (nested : list Z → list Z → tm → tm * option (list Z)) (c : Z) (s : list Z) (p : pst) : pst * option (list Z) :=
  let num maxdig lo hi set := num_conv maxdig lo hi (λ v, upd (set v)) s p in
  let sub f := let '(r, e) := nested f s (ptm p) in (upd (λ _, r) p, e) in
  if among c "aA" then name_conv wday_name set_wday s p
  else if among c "bBh" then name_conv mon_name set_mon s p
  else if among c "c" then sub (lit "%a %b %e %H:%M:%S %Y")
  else if among c "C" then num_conv 2 0 99 (λ v p, Pst (ptm p) (pm p) v (have_yy p)) s p
  else if among c "de" then num 2%nat 1 31 set_mday
  else if among c "Dx" then sub (lit "%m/%d/%y")
  else if among c "F" then sub (lit "%Y-%m-%d")
  else if among c "Hk" then num 2%nat 0 23 set_hour
  else if among c "Il" then num 2%nat 1 12 (λ v, set_hour (Z.rem v 12))
  else if among c "j" then num 3%nat 1 366 (λ v, set_yday (v - 1))
  else if among c "m" then num 2%nat 1 12 (λ v, set_mon (v - 1))
  else if among c "M" then num 2%nat 0 59 set_min
  else if among c "nt" then (p, Some (skip_space s))
  else if among c "p" then
    if same_nocase 2 s (lit "AM") then (Pst (ptm p) 0 (century p) (have_yy p), Some (drop 2 s))
    else if same_nocase 2 s (lit "PM") then (Pst (ptm p) 1 (century p) (have_yy p), Some (drop 2 s))
    else (p, None)
  else if among c "r" then sub (lit "%I:%M:%S %p")
  else if among c "R" then sub (lit "%H:%M")
  else if among c "s" then
    match strtoll_at s with
    | Some (t, e, errno) =>
        if (length e =? length s)%nat || negb (errno =? 0) then (p, None) else
        match localtime_r tz_lookup t (ptm p) with
        | Some r => (upd (λ _, r) p, Some e)
        | None => (p, None)
        end
    | None => (p, None)
    end
  else if among c "S" then num 2%nat 0 61 set_sec
  else if among c "TX" then sub (lit "%H:%M:%S")
  else if among c "u" then num 1%nat 1 7 (λ v, set_wday (Z.rem v 7))
  else if among c "w" then num 1%nat 0 6 set_wday
  else if among c "UWV" then num 2%nat 0 53 (λ _ r, r)
  else if among c "y" then
    num_conv 2 0 99 (λ v p, Pst (set_year (if v <? 69 then v + 100 else v) (ptm p)) (pm p) (century p) true) s p
  else if among c "Y" then num 9%nat (-99999999) 999999999 (λ v, set_year (v - 1900))
  else if among c "z" then zone_conv s p
  else if among c "Z" then (p, Some (skip_alpha s))
  else if among c "%" then match s with c :: s => if c =? 37 then (p, Some s) else (p, None) | [] => (p, None) end
  else (p, None).

(** One turn of the loop, at the byte [c] of the format with [f] after it. *)
Definition parse_next (nested : list Z → list Z → tm → tm * option (list Z)) (c : Z) (f s : list Z) (p : pst) : pst * option (list Z * list Z) :=
  if isspace c then (p, Some (f, skip_space s))
  else if negb (c =? 37) then
    match s with x :: s => if x =? c then (p, Some (f, s)) else (p, None) | [] => (p, None) end
  else
    match modifier f with
    | [] => (p, None)
    | c :: f =>
        let s := if negb (among c "nt%") then skip_space s else s in
        let '(p, e) := parse_conv nested c s p in (p, (λ s, (f, s)) <$> e)
    end.

Fixpoint parse_loop (nested : list Z → list Z → tm → tm * option (list Z)) (fuel : nat) (f s : list Z) (p : pst) : pst * option (list Z) :=
  match fuel, f with
  | S fuel, c :: f =>
      match parse_next nested c f s p with
      | (p, None) => (p, None)
      | (p, Some (f, s)) => parse_loop nested fuel f s p
      end
  | _, _ => (p, Some s)
  end.

(** The end of strptime: %p and %C are applied last. *)
Definition finish (p : pst) : tm :=
  let r := ptm p in
  let r := if (pm p =? 1) && (tm_hour r <? 12) then set_hour (tm_hour r + 12) r else r in
  if 0 <=? century p then
    let yy := if have_yy p then Z.rem (tm_year r + 1900) 100 else 0 in
    set_year (century p * 100 + yy - 1900) r
  else r.

Definition strptime_with (nested : list Z → list Z → tm → tm * option (list Z)) (f s : list Z) (r : tm) : tm * option (list Z) :=
  match parse_loop nested (length f) f s (Pst r (-1) (-1) false) with
  | (p, None) => (ptm p, None)
  | (p, Some s) => (finish p, Some s)
  end.

(** *tm after the call, and the rest of the text, or NULL. *)
Definition strptime_flat : list Z → list Z → tm → tm * option (list Z) := strptime_with (λ _ _ r, (r, None)).
Definition strptime (f s : list Z) (r : tm) : tm * option (list Z) := strptime_with strptime_flat f s r.
End Parse.

(** ** The text of a format, without a buffer *)

Section Expand.
Context (tz_lookup : Z → Z * Z * Z) (zone_str : Z → list Z).
Abbreviation fmt_conv := (fmt_conv tz_lookup zone_str).
Abbreviation fmt_next := (fmt_next tz_lookup zone_str).
Abbreviation fmt_loop := (fmt_loop tz_lookup zone_str).

Fixpoint expand_with (nested : list Z → list Z) (fuel : nat) (r : tm) (f : list Z) : list Z :=
  match fuel, f with
  | S fuel, c :: f =>
      let '(cv, f') := fmt_next r c f in
      (match cv with Puts ps => concat ps | Nested g => nested g end) ++ expand_with nested fuel r f'
  | _, _ => []
  end.

Definition expand_flat (r : tm) (f : list Z) : list Z := expand_with (λ _, []) (length f) r f.
Definition expand (r : tm) (f : list Z) : list Z := expand_with (expand_flat r) (length f) r f.

(** [op] appends [w], or reports that it does not fit; it never writes past
    the buffer. *)
Definition writes (op : sbuf → sbuf) (w : list Z) : Prop := ∀ b,
  length (out b) < max b →
  max (op b) = max b ∧ length (out (op b)) < max b ∧ (full b = true → full (op b) = true) ∧
  (full b = false → if length (out b) + length w <? max b then op b = Sbuf (out b ++ w) (max b) false else full (op b) = true).

Lemma writes_nil op : (∀ b, op b = b) → writes op [].
Proof.
  intros H b Hb. rewrite H. split_and!; try done. intros Hf. destruct (Z.ltb_spec (length (out b) + length (@nil Z)) (max b)); [|cbn in *; lia].
  rewrite app_nil_r, <- Hf. by destruct b.
Qed.

Lemma writes_app op1 op2 w1 w2 : writes op1 w1 → writes op2 w2 → writes (λ b, op2 (op1 b)) (w1 ++ w2).
Proof.
  intros H1 H2 b Hb. destruct (H1 b Hb) as (M1 & L1 & F1 & R1). destruct (H2 (op1 b)) as (M2 & L2 & F2 & R2); [by rewrite M1|].
  split_and!; [congruence | congruence | auto |]. intros Hf. specialize (R1 Hf). rewrite length_app.
  destruct (Z.ltb_spec (length (out b) + length w1) (max b)) as [E1|E1].
  - rewrite R1 in R2 |- *. cbn in R2. specialize (R2 eq_refl). rewrite length_app, <- app_assoc in R2.
    replace (length (out b) + (length w1 + length w2)%nat) with ((length (out b) + length w1)%nat + length w2) by lia. done.
  - destruct (Z.ltb_spec (length (out b) + (length w1 + length w2)%nat) (max b)); [lia | auto].
Qed.

Lemma writes_put s : writes (λ b, put b s) s.
Proof.
  intros b Hb. unfold put. destruct (Z.leb_spec (max b) (length (out b) + length s)); cbn.
  - split_and!; try done. intros _. by rewrite (proj2 (Z.ltb_ge _ _)).
  - rewrite length_app. split_and!; try done; [lia|]. intros ->. by rewrite (proj2 (Z.ltb_lt _ _)).
Qed.

Lemma writes_puts ps : writes (λ b, foldl put b ps) (concat ps).
Proof.
  induction ps as [|s ps IH]; [by apply writes_nil|]. apply (writes_app (λ b, put b s) (λ b, foldl put b ps)); [apply writes_put | done].
Qed.

Lemma writes_loop nest_op nest_txt fuel r f :
  (∀ g, writes (nest_op g) (nest_txt g)) → writes (fmt_loop nest_op fuel r f) (expand_with nest_txt fuel r f).
Proof.
  intros Hn. revert f. induction fuel as [|fuel IH]; intros f; [by apply writes_nil|]. destruct f as [|c f]; [by apply writes_nil|].
  cbn [Timefmt.fmt_loop expand_with]. destruct (fmt_next r c f) as [cv f'].
  assert (writes (λ b, match cv with Puts ps => foldl put b ps | Nested g => nest_op g b end)
                 (match cv with Puts ps => concat ps | Nested g => nest_txt g end)) as Hc by (destruct cv; [apply writes_puts | apply Hn]).
  pose proof (writes_app _ _ _ _ Hc (IH f')) as H. intros b Hb. destruct (H b Hb) as (H1 & H2 & H3 & H4).
  destruct (full b) eqn:Ef; [|by split_and!]. rewrite Ef. by split_and!.
Qed.

Lemma writes_fmt r f : writes (fmt_tm tz_lookup zone_str r f) (expand r f).
Proof.
  apply writes_loop. intros g. apply writes_loop. intros h. by apply writes_nil.
Qed.

(** Only these conversions expand, and what they expand to has none of
    them, so the inner call of fmt_tm never makes another one. *)
Lemma nested_char r c pad width upper g :
  fmt_conv r c pad width upper = Some (Nested g) →
  among c "cDFrRTxX" = true ∧
  g ∈ [lit "%a %b %e %H:%M:%S %Y"; lit "%m/%d/%y"; lit "%Y-%m-%d"; lit "%I:%M:%S %p"; lit "%H:%M"; lit "%H:%M:%S"].
Proof.
  unfold Timefmt.fmt_conv. cbv zeta. intros H.
  repeat match type of H with
  | context [if among c ?s then _ else _] =>
      let E := fresh "E" in destruct (among c s) eqn:E;
      [first [discriminate H | injection H as <-; apply existsb_exists in E as (x & Hx & Ex); apply Z.eqb_eq in Ex as <-;
              cbn in Hx; destruct Hx as [<-|[]]; split; [reflexivity | set_solver]]|]
  end. done.
Qed.

(** The rest of the format after a turn. *)
Definition rest_of (c : Z) (f : list Z) : list Z :=
  if negb (c =? 37) then f else
  tail (modifier (width_of (flags f 0 false).1.1 0).1).

Fixpoint flat (fuel : nat) (f : list Z) : bool :=
  match fuel, f with
  | S fuel, c :: f =>
      (negb (c =? 37) || negb (among (default 0 (head (modifier (width_of (flags f 0 false).1.1 0).1))) "cDFrRTxX")) && flat fuel (rest_of c f)
  | _, _ => true
  end.

Lemma nested_depth r c pad width upper g n n' b :
  fmt_conv r c pad width upper = Some (Nested g) →
  fmt_loop n (length g) r g b = fmt_loop n' (length g) r g b.
Proof.
  intros [_ Hg]%nested_char. assert (flat (length g) g = true) as Hf.
  { repeat (apply elem_of_cons in Hg as [->|Hg]; [reflexivity|]). by apply elem_of_nil in Hg. }
  clear Hg. revert Hf b. generalize (length g) as fuel. intros fuel. revert g.
  induction fuel as [|fuel IH]; intros [|d f] Hf b; try done. cbn [flat] in Hf. apply andb_true_iff in Hf as [Hc Hf].
  cbn [Timefmt.fmt_loop]. destruct (full b); [done|].
  assert (∃ ps, fmt_next r d f = (Puts ps, rest_of d f)) as [ps ->]; [|by apply IH].
  unfold Timefmt.fmt_next, rest_of in *. destruct (negb (d =? 37)); [by eexists|]. cbn [orb] in Hc.
  destruct (flags f 0 false) as [[f1 pad1] up1]. cbn [fst] in *. destruct (width_of f1 0) as [f2 w1]. cbn [fst] in *.
  destruct (modifier f2) as [|e f3]; [by eexists|]. cbn [head default tail] in *.
  destruct (fmt_conv r e pad1 w1 up1) as [[ps|g']|] eqn:E; [by eexists | | by eexists].
  apply nested_char in E as [E _]. cbn [default from_option] in Hc. unfold id in Hc. by rewrite E in Hc.
Qed.

Lemma strftime_fits mx f r :
  0 <= mx →
  let w := expand r f in let '(n, o) := strftime tz_lookup zone_str mx f r in
  length o <= mx ∧ (if length w <? mx then n = length w ∧ o = w ++ [0] else n = 0).
Proof.
  intros Hm. cbv zeta. unfold strftime. set (b := fmt_tm tz_lookup zone_str r f (Sbuf [] mx false)).
  destruct (Z.eqb_spec mx 0) as [->|Hn].
  - rewrite orb_true_r. destruct (Z.ltb_spec (length (expand r f)) 0); [lia|]. split; [|done].
    assert (∀ fuel nest g, (∀ h b, max b = 0 → out b = [] → max (nest h b) = 0 ∧ out (nest h b) = []) → ∀ b, max b = 0 → out b = [] →
      max (fmt_loop nest fuel r g b) = 0 ∧ out (fmt_loop nest fuel r g b) = []) as Hl.
    { induction fuel as [|fuel IH]; intros nest [|c g] Hnest b0 H1 H2; try done. cbn [Timefmt.fmt_loop]. destruct (full b0); [done|].
      destruct (fmt_next r c g) as [cv g']. apply IH; [done|..]; destruct cv as [ps|h]; try by apply Hnest.
      all: clear -H1 H2; revert b0 H1 H2; induction ps as [|x ps IH]; intros b0 H1 H2; [done|]; cbn [foldl]; apply IH;
        unfold put; rewrite H1; destruct (Z.leb_spec 0 (length (out b0) + length x)); cbn; done || lia. }
    unfold b, fmt_tm, fmt_flat. rewrite (proj2 (Hl _ _ _ (λ h b0 A B, Hl _ _ _ (λ _ _ A B, conj A B) b0 A B) (Sbuf [] 0 false) eq_refl eq_refl)). done.
  - destruct (writes_fmt r f (Sbuf [] mx false)) as (H1 & H2 & _ & H4); [cbn; lia|]. fold b in H1, H2, H4. cbn -[Z.add] in H1, H2, H4. specialize (H4 eq_refl). rewrite Z.add_0_l in H4.
    destruct (Z.ltb_spec (length (expand r f)) mx) as [E|E].
    + rewrite H4. cbn. rewrite length_app. cbn. split; [lia | done].
    + rewrite H4. cbn. split; [lia | done].
Qed.
End Expand.

(** ** Reading back what was printed *)

Definition is_digit (c : Z) : Prop := 48 <= c <= 57.

Lemma digits_of_ok fuel u t :
  0 <= u < 10 ^ Z.of_nat (S fuel) →
  ∃ ds, digits_of fuel u t = ds ++ t ∧ Forall is_digit ds ∧ (1 <= length ds)%nat ∧
        (∀ a, foldl (λ v c, v * 10 + (c - 48)) a ds = a * 10 ^ Z.of_nat (length ds) + u) ∧
        (∀ k : nat, (1 <= k)%nat → u < 10 ^ Z.of_nat k → (length ds <= k)%nat).
Proof.
  revert u t. induction fuel as [|fuel IH]; intros u t Hu; cbn [digits_of].
  - exists [48 + u mod 10]. rewrite Z.mod_small by lia. split_and!; cbn; try done; try (intros; lia). apply Forall_singleton; unfold is_digit; lia.
  - pose proof (Z.mod_pos_bound u 10 ltac:(lia)). destruct (Z.eqb_spec (u / 10) 0) as [E|E].
    + exists [48 + u mod 10]. assert (u mod 10 = u) as Em by zdiv. rewrite Em in *. split_and!; cbn; try done; try (intros; lia). apply Forall_singleton; unfold is_digit; lia.
    + destruct (IH (u / 10) ((48 + u mod 10) :: t)) as (ds & -> & Hd & Hn & Hv & Hk).
      { rewrite Nat2Z.inj_succ, Z.pow_succ_r in Hu by lia. split; [zdiv|]. apply Z.div_lt_upper_bound; lia. }
      exists (ds ++ [48 + u mod 10]). rewrite <- app_assoc. split_and!; [done | | rewrite length_app; cbn; lia | |].
      * apply Forall_app. split; [done | apply Forall_singleton; unfold is_digit; lia].
      * intros a. rewrite foldl_app, Hv, length_app. cbn. rewrite Nat2Z.inj_add, Z.pow_add_r by lia. change (Z.of_nat 1) with 1.
        rewrite Z.pow_1_r. pose proof (Z.div_mod u 10). lia.
      * intros k Hk1 Hlt. rewrite length_app. cbn. destruct k as [|[|k]]; [lia | exfalso; apply E; apply Z.div_small; cbn in Hlt; lia|].
        specialize (Hk (S k) ltac:(lia)). rewrite Nat2Z.inj_succ, Z.pow_succ_r in Hlt by lia.
        assert (u / 10 < 10 ^ Z.of_nat (S k)) by (apply Z.div_lt_upper_bound; lia). specialize (Hk ltac:(done)). lia.
Qed.

Lemma dec_ok u :
  0 <= u < 2 ^ 64 →
  Forall is_digit (dec u) ∧ (1 <= length (dec u))%nat ∧
  (∀ a, foldl (λ v c, v * 10 + (c - 48)) a (dec u) = a * 10 ^ Z.of_nat (length (dec u)) + u) ∧
  (∀ k : nat, (1 <= k)%nat → u < 10 ^ Z.of_nat k → (length (dec u) <= k)%nat).
Proof. intros Hu. destruct (digits_of_ok 19 u []) as (ds & E & H); [cbn; lia|]. unfold dec. rewrite E, app_nil_r. done. Qed.

(** The text does not start with a byte of the class. *)
Definition starts (P : Z → bool) (t : list Z) : bool := match t with c :: _ => P c | [] => false end.

Definition foreign (c : Z) : bool := negb (bool_decide (is_byte c)).

Lemma isdigit_true c : is_digit c → isdigit c = true.
Proof. intros H. unfold is_digit in H. rewrite isdigit_spec by lia. apply andb_true_iff. rewrite Z.leb_le, Z.ltb_lt. lia. Qed.

Lemma num_digits_ok ds t k v d :
  Forall is_digit ds → (length ds <= k)%nat → length ds = k ∨ starts isdigit t = false →
  num_digits k v d (ds ++ t) = (foldl (λ v c, v * 10 + (c - 48)) v ds, (d + length ds)%nat, t).
Proof.
  intros Hd. revert k v d. induction Hd as [|c ds Hc Hd IH]; intros k v d Hk Ht.
  - cbn [app foldl length]. rewrite Nat.add_0_r. destruct k, t as [|x t]; cbn; try done. destruct Ht as [|Ht]; [done|]. cbn in Ht. by rewrite Ht.
  - destruct k as [|k]; [cbn in Hk; lia|]. cbn [app num_digits foldl length] in *. rewrite (isdigit_true c Hc). rewrite IH; [|lia|destruct Ht; [left; lia | by right]].
    f_equal. f_equal. lia.
Qed.

(** A number read back: unsigned, or with its sign. *)
Lemma get_num_digits ds t k lo hi v :
  Forall is_digit ds → (1 <= length ds <= k)%nat → length ds = k ∨ starts isdigit t = false →
  foldl (λ v c, v * 10 + (c - 48)) 0 ds = v → lo <= v <= hi →
  get_num k lo hi (ds ++ t) = Some (v, t).
Proof.
  intros Hd Hl Ht Hv Hr. unfold get_num. destruct ds as [|c ds]; [cbn in Hl; lia|]. cbn [app].
  assert (is_digit c) as Hc by (by inv Hd). unfold is_digit in Hc.
  rewrite (proj2 (Z.eqb_neq c 43)), (proj2 (Z.eqb_neq c 45)) by lia. cbn [orb]. change (c :: ds ++ t) with ((c :: ds) ++ t).
  rewrite num_digits_ok by (done || lia). rewrite Hv. cbn [length Nat.add Nat.eqb].
  destruct (Z.ltb_spec v lo), (Z.ltb_spec hi v); cbn; done || lia.
Qed.

Lemma get_num_neg ds t k lo hi v :
  Forall is_digit ds → (1 <= length ds <= k)%nat → length ds = k ∨ starts isdigit t = false →
  foldl (λ v c, v * 10 + (c - 48)) 0 ds = - v → lo <= v <= hi →
  get_num k lo hi ((45 :: ds) ++ t) = Some (v, t).
Proof.
  intros Hd Hl Ht Hv Hr. unfold get_num. cbn [app]. change ((45 =? 43) || (45 =? 45)) with true. cbv iota.
  rewrite num_digits_ok by (done || lia). rewrite Hv. destruct ds; [cbn in Hl; lia|]. cbn [length Nat.add Nat.eqb].
  change (45 =? 45) with true. cbv iota. rewrite Z.opp_involutive. destruct (Z.ltb_spec v lo), (Z.ltb_spec hi v); cbn; done || lia.
Qed.

(** The numbers the conversions print. *)
Definition num2 (v : Z) : list Z := [48 + v / 10; 48 + v mod 10].
Definition num_check (v : Z) : bool :=
  bool_decide (put_num v 2 48 = num2 v) &&
  bool_decide (put_num v 2 32 = if v <? 10 then [32; 48 + v] else num2 v) &&
  bool_decide (v < 10 → put_num v 1 48 = [48 + v]).
Definition num3_check (v : Z) : bool := bool_decide (put_num v 3 48 = (48 + v / 100) :: num2 (v mod 100)).

Lemma num_check_all : all_from num_check 100 0 = true.
Proof. vm_compute. done. Qed.
Lemma num3_check_all : all_from num3_check 400 0 = true.
Proof. vm_compute. done. Qed.

Lemma put_num_small v :
  0 <= v < 100 →
  put_num v 2 48 = num2 v ∧ put_num v 2 32 = (if v <? 10 then [32; 48 + v] else num2 v) ∧ (v < 10 → put_num v 1 48 = [48 + v]).
Proof.
  intros Hv. pose proof (all_from_spec num_check 100 0 v num_check_all ltac:(lia)) as H.
  unfold num_check in H. rewrite !andb_true_iff in H. destruct H as [[H1 H2] H3]. by rewrite !bool_decide_eq_true in *.
Qed.

Lemma put_num_three v : 0 <= v < 400 → put_num v 3 48 = (48 + v / 100) :: num2 (v mod 100).
Proof. intros Hv. apply (bool_decide_eq_true_1 _), (all_from_spec num3_check 400 0 v num3_check_all). lia. Qed.

Lemma put_num_year v : - 2 ^ 62 < v < 2 ^ 62 → put_num v 0 48 = if v <? 0 then 45 :: dec (- v) else dec v.
Proof.
  intros Hv. unfold put_num. rewrite andb_comm. destruct (Z.ltb_spec v 0) as [E|E].
  - rewrite (proj2 (Z.ltb_ge _ _)) by lia. cbn [andb]. by rewrite uwrap_small by lia.
  - rewrite (proj2 (Z.ltb_ge _ _)) by lia. cbn [andb]. by rewrite uwrap_small by lia.
Qed.

Lemma digit_not_space c : is_digit c → isspace c = false.
Proof. intros H. unfold is_digit in H. rewrite isspace_spec by lia. destruct (Z.eqb_spec c 32), (Z.leb_spec 9 c), (Z.ltb_spec c 14); cbn; done || lia. Qed.

Lemma skip_digits ds t : Forall is_digit ds → (1 <= length ds)%nat → skip_space (ds ++ t) = ds ++ t.
Proof. intros Hd Hl. destruct ds as [|c ds]; [cbn in Hl; lia|]. cbn [app skip_space]. rewrite digit_not_space; [done | by inv Hd]. Qed.

Lemma num2_ok v : 0 <= v < 100 → Forall is_digit (num2 v) ∧ (∀ a, foldl (λ v c, v * 10 + (c - 48)) a (num2 v) = a * 100 + v).
Proof. intros Hv. unfold num2. split; [|intros a; cbn; zdiv]. constructor; [|apply Forall_singleton]; unfold is_digit; zdiv. Qed.

Ltac num_goals := try done; try lia; try (by left); try (by right); try (cbn; lia).

Lemma get_skip2 v t lo hi : 0 <= v < 100 → lo <= v <= hi → get_num 2 lo hi (skip_space (put_num v 2 48 ++ t)) = Some (v, t).
Proof.
  intros Hv Hr. destruct (put_num_small v Hv) as (-> & _). destruct (num2_ok v Hv) as [H1 H2]. rewrite skip_digits by (done || cbn; lia).
  apply get_num_digits; num_goals; by rewrite H2.
Qed.

Lemma get_skip_blank v t lo hi :
  0 <= v < 100 → lo <= v <= hi → starts isdigit t = false → get_num 2 lo hi (skip_space (put_num v 2 32 ++ t)) = Some (v, t).
Proof.
  intros Hv Hr Ht. destruct (put_num_small v Hv) as (_ & -> & _). destruct (Z.ltb_spec v 10).
  - change (skip_space ([32; 48 + v] ++ t)) with (skip_space ([48 + v] ++ t)).
    assert (Forall is_digit [48 + v]) by (apply Forall_singleton; unfold is_digit; lia).
    rewrite (skip_digits [48 + v]) by (done || cbn; lia). apply get_num_digits; num_goals.
  - destruct (num2_ok v Hv) as [H1 H2]. rewrite skip_digits by (done || cbn; lia).
    apply get_num_digits; num_goals; by rewrite H2.
Qed.

Lemma get_skip3 v t lo hi : 0 <= v < 400 → lo <= v <= hi → get_num 3 lo hi (skip_space (put_num v 3 48 ++ t)) = Some (v, t).
Proof.
  intros Hv Hr. rewrite put_num_three by done. destruct (num2_ok (v mod 100) ltac:(zdiv)) as [H1 H2].
  assert (Forall is_digit ((48 + v / 100) :: num2 (v mod 100))) by (constructor; [unfold is_digit; zdiv | done]).
  rewrite skip_digits by (done || cbn; lia). apply get_num_digits; num_goals.
  cbn [foldl]. rewrite H2. zdiv.
Qed.

Lemma get_skip1 v t lo hi : 0 <= v < 10 → lo <= v <= hi → get_num 1 lo hi (skip_space (put_num v 1 48 ++ t)) = Some (v, t).
Proof.
  intros Hv Hr. destruct (put_num_small v ltac:(lia)) as (_ & _ & ->); [|lia].
  assert (Forall is_digit [48 + v]) by (apply Forall_singleton; unfold is_digit; lia).
  rewrite skip_digits by (done || cbn; lia). apply get_num_digits; num_goals.
Qed.

Lemma get_skip_year v t :
  -99999999 <= v <= 999999999 → starts isdigit t = false →
  get_num 9 (-99999999) 999999999 (skip_space (put_num v 0 48 ++ t)) = Some (v, t).
Proof.
  intros Hv Ht. rewrite put_num_year by lia. destruct (Z.ltb_spec v 0) as [E|E].
  - destruct (dec_ok (- v)) as (H1 & H2 & H3 & H4); [lia|]. specialize (H4 9%nat ltac:(lia) ltac:(cbn; lia)).
    change (skip_space ((45 :: dec (- v)) ++ t)) with ((45 :: dec (- v)) ++ t).
    apply get_num_neg; num_goals; rewrite H3; lia.
  - destruct (dec_ok v) as (H1 & H2 & H3 & H4); [lia|]. specialize (H4 9%nat ltac:(lia) ltac:(cbn; lia)).
    rewrite skip_digits by done. apply get_num_digits; num_goals; rewrite H3; lia.
Qed.

(** A name read back, whole or as its first three letters. *)
Lemma same_nocase_take3 n p t name : length p = 3%nat → (3 <= n)%nat → same_nocase 3 p name = false → same_nocase n (p ++ t) name = false.
Proof.
  intros Hp Hn. destruct p as [|a [|b [|c []]]]; try done. destruct n as [|[|[|n]]]; try lia. cbn.
  repeat match goal with |- context [if ?x =? ?y then _ else _] => destruct (x =? y); [|done] end.
  destruct (a =? 0), (b =? 0), (c =? 0); cbn; try done. all: destruct (_ =? _); done.
Qed.

Lemma alpha_nocase c x : is_byte c → isalpha c = false → isalpha x = true → is_byte x → (tolower c =? tolower x) = false.
Proof.
  intros Hc Hn Hx Hbx. apply Z.eqb_neq. intros E.
  assert (∀ y, is_byte y → isalpha (tolower y) = isalpha y) as Hl.
  { intros y Hy. apply eqb_prop. revert y Hy. apply (byte_forall (λ y, eqb (isalpha (tolower y)) (isalpha y))). vm_compute. done. }
  rewrite <- (Hl c Hc), E, (Hl x Hbx) in Hn. congruence.
Qed.

(** The names are letters, and differ in their first three. *)
Definition names_ok (names : list (list Z)) : bool :=
  forallb (λ n, forallb (λ c, isalpha c && (0 <=? c) && (c <? 256)) n && (3 <=? length n)) names &&
  forallb (λ i, forallb (λ j, (i =? j)%nat || negb (same_nocase 3 (take 3 (nth i names [])) (nth j names []))) (seq 0 (length names)))
          (seq 0 (length names)).

Lemma same_self n s t : length s = n → Forall (λ c, c ≠ 0) s → same_nocase n (s ++ t) s = true.
Proof.
  revert s. induction n as [|n IH]; intros s Hl Hz; [done|]. destruct s as [|c s]; [done|]. inv Hz. cbn. rewrite Z.eqb_refl. rewrite IH; [|by inv Hl |done].
  by destruct (c =? 0).
Qed.

Lemma same_open n a b t :
  length b = n → (1 <= length b)%nat → Forall (λ c, isalpha c = true ∧ is_byte c) (a ++ b) → starts isalpha t = false → starts foreign t = false →
  same_nocase (length a + n) (a ++ t) (a ++ b) = false.
Proof.
  intros Hn Hb Ha Ht Hbt. revert Ha. induction a as [|c a IH]; intros Ha.
  - destruct b as [|x b]; [cbn in Hb; lia|]. subst n. cbn [length Nat.add app same_nocase head default] in *. inv Ha. destruct_and!.
    destruct t as [|y t]; cbn.
    + rewrite (alpha_nocase 0 x); done.
    + cbn in Hbt. unfold foreign in Hbt. apply negb_false_iff, bool_decide_eq_true in Hbt. by rewrite (alpha_nocase y x).
  - cbn in Ha. inv Ha. destruct_and!. cbn. rewrite Z.eqb_refl. rewrite IH by done. destruct (Z.eqb_spec c 0) as [->|]; [done|]. done.
Qed.

Lemma match_skip i names k s :
  (i <= length names)%nat →
  (∀ j, (j < i)%nat → same_nocase (length (nth j names [])) s (nth j names []) = false ∧ same_nocase 3 s (nth j names []) = false) →
  match_name names k s = match_name (drop i names) (k + i) s.
Proof.
  revert names k. induction i as [|i IH]; intros names k Hi H; [by rewrite Z.add_0_r|]. destruct names as [|n names]; [cbn in Hi; lia|].
  cbn [match_name drop]. destruct (H 0%nat ltac:(lia)) as [H1 H2]. cbn [nth] in H1, H2. rewrite H1, H2. cbn in Hi.
  rewrite (IH names (k + 1)); [f_equal; lia | lia|]. intros j Hj. apply (H (S j)). lia.
Qed.

Lemma match_name_ok names i t (short : bool) :
  names_ok names = true → 0 <= i < length names → (short = true → starts isalpha t = false ∧ starts foreign t = false) →
  let name := nth (Z.to_nat i) names [] in
  match_name names 0 ((if short then take 3 name else name) ++ t) = Some (i, t).
Proof.
  intros Hn Hi Ht name. apply andb_true_iff in Hn as [H1 H2]. rewrite forallb_forall in H1.
  assert (∀ j, (j < length names)%nat → Forall (λ c, isalpha c = true ∧ is_byte c) (nth j names []) ∧ (3 <= length (nth j names []))%nat) as Hnm.
  { intros j Hj. specialize (H1 (nth j names []) (nth_In _ _ Hj)). apply andb_true_iff in H1 as [H1 Hl]. zbool. split; [|lia].
    apply Forall_forall. intros c Hc%list_elem_of_In. rewrite forallb_forall in H1. specialize (H1 c Hc).
    rewrite !andb_true_iff, Z.leb_le, Z.ltb_lt in H1. unfold is_byte. naive_solver. }
  assert (∃ u, (if short then take 3 name else name) ++ t = take 3 name ++ u) as [u Eu].
  { destruct short; [by eexists|]. exists (drop 3 name ++ t). by rewrite app_assoc, take_drop. }
  destruct (Hnm (Z.to_nat i) ltac:(lia)) as [Hal Hlen]. fold name in Hal, Hlen.
  rewrite (match_skip (Z.to_nat i)); [|lia|].
  - rewrite (drop_S _ name); [|destruct (nth_lookup_or_length names (Z.to_nat i) []); [done | lia]]. cbn [match_name]. rewrite Z.add_0_l, Z2Nat.id by lia.
    assert (Forall (λ c, c ≠ 0) name) as Hnz by (eapply Forall_impl; [exact Hal|]; intros c [Hc _] ->; done).
    destruct short.
    + destruct (Ht eq_refl) as [Hs Hb]. destruct (decide (length name = 3%nat)) as [E|E].
      * rewrite take_ge by lia. rewrite same_self by done. by rewrite drop_app_length.
      * assert (same_nocase (length name) (take 3 name ++ t) name = false) as ->.
        { pose proof (same_open (length (drop 3 name)) (take 3 name) (drop 3 name) t eq_refl) as H.
          rewrite take_drop, length_take, length_drop in H. replace (3 `min` length name + (length name - 3))%nat with (length name) in H by lia. apply H; [lia | done..]. }
        assert (same_nocase 3 (take 3 name ++ t) name = true) as ->.
        { rewrite <- (take_drop 3 name) at 2. clear -Hnz Hlen. destruct name as [|a [|b [|c n]]]; cbn in Hlen; try lia. cbn. rewrite !Z.eqb_refl.
          by rewrite !orb_true_r. }
        rewrite drop_app_length'; [done|]. rewrite length_take. lia.
    + rewrite same_self by done. by rewrite drop_app_length.
  - intros j Hj. rewrite Eu. destruct (Hnm j ltac:(lia)) as [_ Hlj].
    assert (same_nocase 3 (take 3 name) (nth j names []) = false) as Hd.
    { rewrite forallb_forall in H2. assert (∀ k, (k < length names)%nat → In k (seq 0 (length names))) as Hin by (intros; apply in_seq; lia).
      specialize (H2 (Z.to_nat i) (Hin (Z.to_nat i) ltac:(lia))). rewrite forallb_forall in H2. specialize (H2 j (Hin j ltac:(lia))). apply orb_true_iff in H2 as [H2|H2]; [apply Nat.eqb_eq in H2; lia | by apply negb_true_iff in H2]. }
    split; apply same_nocase_take3; try done; rewrite length_take; lia.
Qed.

(** Formats: literal bytes and conversions that print one field. *)
Inductive item := ILit (c : Z) | IConv (c : Z).

Definition item_fmt (i : item) : list Z := match i with ILit c => [c] | IConv c => [37; c] end.
Definition fmt_of (l : list item) : list Z := l ≫= item_fmt.

(** The conversions whose text ends where the next byte says. *)
Definition open_conv (c : Z) : bool := among c "ekYabh".

(** Literals are not '%'; after an open conversion comes the end or a
    literal that is neither a letter nor a digit. *)
Fixpoint items_ok (l : list item) : bool :=
  match l with
  | [] => true
  | ILit c :: l => (0 <? c) && (c <? 256) && negb (c =? 37) && items_ok l
  | IConv c :: l =>
      among c "demHkMSjYaAbBhuw%" &&
      (negb (open_conv c) || match l with [] => true | ILit d :: _ => negb (isalnum d) | _ => false end) && items_ok l
  end.

(** What reading a conversion stores. *)
Definition copy (c : Z) (r : tm) : tm → tm :=
  if among c "de" then set_mday (tm_mday r)
  else if among c "mbBh" then set_mon (tm_mon r)
  else if among c "Hk" then set_hour (tm_hour r)
  else if among c "M" then set_min (tm_min r)
  else if among c "S" then set_sec (tm_sec r)
  else if among c "j" then set_yday (tm_yday r)
  else if among c "Y" then set_year (tm_year r)
  else if among c "aAuw" then set_wday (tm_wday r)
  else id.
Definition item_copy (r : tm) (r0 : tm) (i : item) : tm := match i with ILit _ => r0 | IConv c => copy c r r0 end.

(** Fields a calendar date has, with a year strptime reads. *)
Record printable (r : tm) : Prop := {
  pr_sec : 0 <= tm_sec r <= 61; pr_min : 0 <= tm_min r < 60; pr_hour : 0 <= tm_hour r < 24;
  pr_mday : 1 <= tm_mday r <= 31; pr_mon : 0 <= tm_mon r < 12; pr_year : -99999999 <= tm_year r + 1900 <= 999999999;
  pr_wday : 0 <= tm_wday r < 7; pr_yday : 0 <= tm_yday r < 366;
}.

Section RoundTrip.
Context (tz_lookup : Z → Z * Z * Z) (zone_str : Z → list Z).
Abbreviation fmt_conv := (fmt_conv tz_lookup zone_str).
Abbreviation parse_conv := (parse_conv tz_lookup).
Abbreviation parse_loop := (parse_loop tz_lookup).

Definition conv_text (r : tm) (c : Z) : list Z :=
  match fmt_conv r c 0 0 false with Some (Puts ps) => concat ps | _ => [] end.
Definition item_text (r : tm) (i : item) : list Z := match i with ILit c => [c] | IConv c => conv_text r c end.
Definition text (r : tm) (l : list item) : list Z := l ≫= item_text r.

Lemma name_of_in names i o : 0 <= i < length names → Z.of_nat (length names) < 2 ^ 32 → name_of names i o = nth (Z.to_nat i) names [].
Proof. intros Hi Hl. unfold name_of. rewrite uwrap_small by lia. by rewrite (proj2 (Z.ltb_lt _ _)) by lia. Qed.

Lemma alnum_starts t : starts isalnum t = false → starts isalpha t = false ∧ starts isdigit t = false.
Proof. destruct t as [|c t]; [done|]. cbn. apply orb_false_iff. Qed.

Lemma name_conv_ok names set i t p (short : bool) :
  names_ok names = true → 0 <= i < length names → (short = true → starts isalpha t = false ∧ starts foreign t = false) →
  let name := nth (Z.to_nat i) names [] in
  name_conv names set (skip_space ((if short then take 3 name else name) ++ t)) p = (upd (set i) p, Some t).
Proof.
  intros Hn Hi Ht name. assert (skip_space ((if short then take 3 name else name) ++ t) = (if short then take 3 name else name) ++ t) as ->.
  { apply andb_true_iff in Hn as [H1 _]. rewrite forallb_forall in H1. assert (In name names) as Hin by (apply nth_In; lia). specialize (H1 name Hin).
    apply andb_true_iff in H1 as [H1 Hl]. zbool. destruct name as [|c n]; [done|]. cbn in H1. rewrite !andb_true_iff, Z.leb_le, Z.ltb_lt in H1.
    destruct H1 as [[[Ha H0] H256] _].
    assert (isspace c = false) as Hs.
    { apply not_true_is_false. intros Hsp. revert Ha Hsp. assert (negb (isalpha c && isspace c) = true) as H.
      { apply (byte_forall (λ c, negb (isalpha c && isspace c))); [vm_compute; done | unfold is_byte; lia]. }
      destruct (isalpha c), (isspace c); done. }
    destruct short; cbn; by rewrite Hs. }
  unfold name_conv. pose proof (match_name_ok names i t short Hn Hi Ht) as E. cbv zeta in E. fold name in E. by rewrite E.
Qed.

(** The conversion [c] prints and reads [v]. *)
Ltac num_read Hnum c v w pd n lo hi set :=
  match goal with
  | |- Timefmt.parse_conv ?tz ?nested _ (skip_space (match ?fc with _ => _ end ++ _)) _ = _ =>
      change fc with (Some (Puts [put_num v w pd])); cbn [concat]; rewrite <- app_assoc;
      change (Timefmt.parse_conv tz nested c) with (num_conv n lo hi (λ x, upd (set x)));
      rewrite Hnum; [unfold upd; cbn [ptm pm century have_yy]; rewrite ?Z.add_simpl_r|]
  end.
Ltac num_case Hnum c v w pd n lo hi set := num_read Hnum c v w pd n lo hi set; [reflexivity|].

Lemma put_full_text s : concat (put_full 0 false s) = s.
Proof. unfold put_full. replace (Z.to_nat (0 - length s)) with 0%nat by lia. cbn. by rewrite app_nil_r. Qed.

Ltac name_case c s names set v :=
  match goal with
  | |- Timefmt.parse_conv ?tz ?nested _ (skip_space (match ?fc with _ => _ end ++ _)) _ = _ =>
      change fc with (Some (Puts (put_full 0 false s))); cbv iota; rewrite put_full_text;
      change (Timefmt.parse_conv tz nested c) with (name_conv names set);
      match goal with |- context [copy c ?r] => change (copy c r) with (set v) end
  end.

(** Each conversion reads back what it prints. *)
Lemma conv_ok nested r c t p :
  printable r → among c "demHkMSjYaAbBhuw" = true → (open_conv c = true → starts isalnum t = false ∧ starts foreign t = false) →
  parse_conv nested c (skip_space (conv_text r c ++ t)) p = (upd (copy c r) p, Some t).
Proof.
  intros Hp Hc Ht. assert (open_conv c = true → starts isalpha t = false ∧ starts foreign t = false ∧ starts isdigit t = false) as Ht'.
  { intros Ho. destruct (Ht Ho) as [H1 H2]. by destruct (alnum_starts t H1). }
  clear Ht. apply existsb_exists in Hc as (x & Hx & Ex). apply Z.eqb_eq in Ex as <-. destruct Hp.
  assert (∀ lo hi n set w pd v, get_num n lo hi (skip_space (put_num v w pd ++ t)) = Some (v, t) →
    num_conv n lo hi set (skip_space (put_num v w pd ++ []  ++ t)) p = (set v p, Some t)) as Hnum.
  { intros lo hi n set w pd v H. unfold num_conv. cbn [app]. by rewrite H. }
  assert (names_ok wday_name = true) as Hwn by (vm_compute; done). assert (names_ok mon_name = true) as Hmn by (vm_compute; done).
  assert (∀ i o, 0 <= i < 7 → name_of wday_name i o = nth (Z.to_nat i) wday_name []) as Hw by (intros; apply name_of_in; cbn; lia).
  assert (∀ i o, 0 <= i < 12 → name_of mon_name i o = nth (Z.to_nat i) mon_name []) as Hm by (intros; apply name_of_in; cbn; lia).
  unfold conv_text. vm_compute in Hx. repeat (destruct Hx as [<-|Hx]; [|]); [..|done].
  - num_case Hnum 100 (tm_mday r) 2 48 2%nat 1 31 set_mday. apply get_skip2; lia.
  - num_case Hnum 101 (tm_mday r) 2 32 2%nat 1 31 set_mday. apply get_skip_blank; [lia | lia | by apply Ht'].
  - num_case Hnum 109 (tm_mon r + 1) 2 48 2%nat 1 12 (λ v, set_mon (v - 1)). apply get_skip2; lia.
  - num_case Hnum 72 (tm_hour r) 2 48 2%nat 0 23 set_hour. apply get_skip2; lia.
  - num_case Hnum 107 (tm_hour r) 2 32 2%nat 0 23 set_hour. apply get_skip_blank; [lia | lia | by apply Ht'].
  - num_case Hnum 77 (tm_min r) 2 48 2%nat 0 59 set_min. apply get_skip2; lia.
  - num_case Hnum 83 (tm_sec r) 2 48 2%nat 0 61 set_sec. apply get_skip2; lia.
  - num_case Hnum 106 (tm_yday r + 1) 3 48 3%nat 1 366 (λ v, set_yday (v - 1)). apply get_skip3; lia.
  - num_case Hnum 89 (tm_year r + 1900) 0 48 9%nat (-99999999) 999999999 (λ v, set_year (v - 1900)). apply get_skip_year; [lia | by apply Ht'].
  - name_case 97 (take 3 (name_of wday_name (tm_wday r) (lit "?"))) wday_name set_wday (tm_wday r). rewrite Hw by done.
    apply (name_conv_ok wday_name set_wday _ t p true); [exact Hwn | assumption |]. intros _. by split; apply Ht'.
  - name_case 65 (name_of wday_name (tm_wday r) (lit "?")) wday_name set_wday (tm_wday r). rewrite Hw by done.
    by apply (name_conv_ok wday_name set_wday _ t p false Hwn).
  - name_case 98 (take 3 (name_of mon_name (tm_mon r) (lit "?"))) mon_name set_mon (tm_mon r). rewrite Hm by done.
    apply (name_conv_ok mon_name set_mon _ t p true); [exact Hmn | assumption |]. intros _. by split; apply Ht'.
  - name_case 66 (name_of mon_name (tm_mon r) (lit "?")) mon_name set_mon (tm_mon r). rewrite Hm by done.
    by apply (name_conv_ok mon_name set_mon _ t p false Hmn).
  - name_case 104 (take 3 (name_of mon_name (tm_mon r) (lit "?"))) mon_name set_mon (tm_mon r). rewrite Hm by done.
    apply (name_conv_ok mon_name set_mon _ t p true); [exact Hmn | assumption |]. intros _. by split; apply Ht'.
  - num_read Hnum 117 (if tm_wday r =? 0 then 7 else tm_wday r) 1 48 1%nat 1 7 (λ v, set_wday (Z.rem v 7)).
    + change (copy 117 r) with (set_wday (tm_wday r)). do 3 f_equal. destruct (Z.eqb_spec (tm_wday r) 0) as [->|]; [done|]. rewrite Z.rem_small; lia.
    + apply get_skip1; destruct (Z.eqb_spec (tm_wday r) 0); lia.
  - num_case Hnum 119 (tm_wday r) 1 48 1%nat 0 6 set_wday. apply get_skip1; lia.
Qed.

Lemma skip_idem s : skip_space (skip_space s) = skip_space s.
Proof. induction s as [|c s IH]; cbn; [done|]. destruct (isspace c) eqn:E; [done|]. cbn. by rewrite E. Qed.

Lemma upd_upd f g p : upd f (upd g p) = upd (λ r, f (g r)) p.
Proof. done. Qed.

(** A conversion character of [items_ok] is read by both switches as it
    stands: it is no flag, digit or modifier. *)
Definition plain (c : Z) : bool :=
  negb (among c "_-0^#") && negb (isdigit c) && negb (among c "EO") && negb (isspace c) && negb (among c "nt").
Lemma plain_ok c : among c "demHkMSjYaAbBhuw%" = true → plain c = true ∧ (c = 37 ∨ among c "demHkMSjYaAbBhuw" = true ∧ among c "nt%" = false).
Proof.
  intros H. apply existsb_exists in H as (x & Hx & Ex). apply Z.eqb_eq in Ex as <-.
  assert (forallb (λ c, plain c && ((c =? 37) || (among c "demHkMSjYaAbBhuw" && negb (among c "nt%")))) (lit "demHkMSjYaAbBhuw%") = true) as Hall by (vm_compute; done).
  rewrite forallb_forall in Hall. specialize (Hall c Hx). apply andb_true_iff in Hall as [H1 H2]. split; [done|].
  apply orb_true_iff in H2 as [H2|H2]; [left; by apply Z.eqb_eq|]. right. by apply andb_true_iff in H2 as [? ?%negb_true_iff].
Qed.

Lemma plain_flags c f : plain c = true → flags (c :: f) 0 false = (c :: f, 0, false) ∧ width_of (c :: f) 0 = (c :: f, 0) ∧ modifier (c :: f) = c :: f.
Proof.
  unfold plain. rewrite !andb_true_iff, !negb_true_iff. intros [[[[H1 H2] H3] _] _]. cbn in H1, H3.
  change (existsb (Z.eqb c) (lit "_-0^#") = false) in H1. change (existsb (Z.eqb c) (lit "EO") = false) in H3.
  change (lit "_-0^#") with [95; 45; 48; 94; 35] in H1. change (lit "EO") with [69; 79] in H3. cbn [existsb] in H1, H3.
  repeat match goal with H : (_ || _) = false |- _ => apply orb_false_iff in H as [? H] end. cbn [flags width_of modifier].
  repeat match goal with H : (c =? _) = false |- _ => rewrite H; clear H end. by rewrite H2.
Qed.

(** Both sides of one item. *)
Lemma fmt_next_item r i f :
  items_ok [i] = true ∨ (∃ c, i = IConv c ∧ among c "demHkMSjYaAbBhuw%" = true) →
  match item_fmt i ++ f with
  | c :: f' => ∃ ps, fmt_next tz_lookup zone_str r c f' = (Puts ps, f) ∧ concat ps = item_text r i
  | [] => False
  end.
Proof.
  intros H. destruct i as [c|c]; cbn [item_fmt app item_text].
  - exists [[c]]. split; [|done]. destruct H as [H|(? & [=] & _)]. cbn in H. rewrite !andb_true_iff in H. destruct H as [[_ H] _].
    unfold fmt_next. by rewrite H.
  - assert (among c "demHkMSjYaAbBhuw%" = true) as Hc.
    { destruct H as [H|(? & [= <-] & H)]; [|done]. cbn [items_ok] in H. rewrite !andb_true_iff in H. tauto. }
    destruct (plain_ok c Hc) as [Hp _]. destruct (plain_flags c f Hp) as (E1 & E2 & E3).
    unfold fmt_next. change (negb (37 =? 37)) with false. cbv iota. rewrite E1, E2, E3. unfold conv_text.
    destruct (fmt_conv r c 0 0 false) as [[ps|g]|] eqn:E.
    + by exists ps.
    + exfalso. apply nested_char in E as [E _]. apply existsb_exists in Hc as (x & Hx & Ex). apply Z.eqb_eq in Ex as <-.
      assert (forallb (λ c, negb (among c "cDFrRTxX")) (lit "demHkMSjYaAbBhuw%") = true) as Hall by (vm_compute; done).
      rewrite forallb_forall in Hall. specialize (Hall c Hx). by rewrite E in Hall.
    + exfalso. apply existsb_exists in Hc as (x & Hx & Ex). apply Z.eqb_eq in Ex as <-. vm_compute in Hx.
      repeat (destruct Hx as [<-|Hx]; [discriminate E|]). done.
Qed.

Lemma items_cons i l :
  items_ok (i :: l) = true →
  items_ok l = true ∧ (items_ok [i] = true ∨ (∃ c, i = IConv c ∧ among c "demHkMSjYaAbBhuw%" = true)) ∧
  ∀ c r, i = IConv c → open_conv c = true → starts isalnum (text r l) = false ∧ starts foreign (text r l) = false.
Proof.
  destruct i as [c|c]; cbn [items_ok]; rewrite !andb_true_iff.
  - intros [[[H1 H2] H3] H4]. split; [done|]. split; [|done]. left. cbn. by rewrite H1, H2, H3.
  - intros [[H1 H2] H3]. split; [done|]. split; [right; by exists c|]. intros c' r [= <-] Ho. rewrite Ho in H2. cbn [negb orb] in H2.
    destruct l as [|[d|d] l]; [done | | done]. cbn [items_ok] in H3. rewrite !andb_true_iff, !Z.ltb_lt in H3. destruct H3 as [[[H3 H4] _] _].
    cbn. apply negb_true_iff in H2. split; [done|]. unfold foreign. rewrite bool_decide_eq_true_2; [done | unfold is_byte; lia].
Qed.

Lemma expand_items r nested l fuel :
  items_ok l = true → (length (fmt_of l) <= fuel)%nat → expand_with tz_lookup zone_str nested fuel r (fmt_of l) = text r l.
Proof.
  revert fuel. induction l as [|i l IH]; intros fuel Hl Hf; [by destruct fuel|]. destruct (items_cons i l Hl) as (H1 & H2 & _).
  unfold fmt_of, text in *. cbn [mbind list_bind] in *. pose proof (fmt_next_item r i (l ≫= item_fmt) H2) as Hn.
  destruct (item_fmt i ++ (l ≫= item_fmt)) as [|c f'] eqn:E; [done|]. destruct Hn as (ps & Hn & Hc).
  destruct fuel as [|fuel]; [cbn in Hf; lia|]. cbn [expand_with]. rewrite Hn, Hc. f_equal. apply IH; [done|].
  apply (f_equal length) in E. rewrite length_app in E. cbn in E, Hf. destruct i; cbn in E; lia.
Qed.

Lemma skip_cons c s : isspace c = false → skip_space (c :: s) = c :: s.
Proof. cbn. by intros ->. Qed.

Lemma upd_id f p : f (ptm p) = ptm p → upd f p = p.
Proof. destruct p. cbn. unfold upd. cbn. by intros ->. Qed.

(** Reading the text of a format, with or without its leading white space,
    stores the printed fields and ends at its end. *)
Lemma parse_items nested r l fuel s p :
  printable r → items_ok l = true → (length (fmt_of l) <= fuel)%nat → s = text r l ∨ s = skip_space (text r l) →
  parse_loop nested fuel (fmt_of l) s p = (upd (λ r0, foldl (item_copy r) r0 l) p, Some []).
Proof.
  intros Hr. revert fuel s p. induction l as [|i l IH]; intros fuel s p Hl Hf Hs.
  { assert (s = []) as -> by naive_solver. rewrite upd_id by done. by destruct fuel. }
  destruct (items_cons i l Hl) as (H1 & H2 & H3). destruct i as [c|c].
  - destruct H2 as [H2|(? & [=] & _)]. cbn in H2. rewrite !andb_true_iff in H2. destruct H2 as [[[_ _] Hc] _].
    change (fmt_of (ILit c :: l)) with (c :: fmt_of l) in *. change (text r (ILit c :: l)) with (c :: text r l) in Hs.
    destruct fuel as [|fuel]; [cbn in Hf; lia|]. cbn [Timefmt.parse_loop]. unfold parse_next. destruct (isspace c) eqn:Es.
    + rewrite (IH fuel (skip_space s) p); [done | done | cbn in Hf; lia|]. right. destruct Hs as [->| ->]; cbn [skip_space]; rewrite Es; by rewrite ?skip_idem.
    + assert (s = c :: text r l) as -> by (destruct Hs as [->| ->]; [done | by apply skip_cons]). rewrite Hc, Z.eqb_refl.
      rewrite (IH fuel (text r l) p); [done | done | cbn in Hf; lia | by left].
  - assert (among c "demHkMSjYaAbBhuw%" = true) as Hc.
    { destruct H2 as [H2|(? & [= <-] & H2)]; [|done]. cbn [items_ok] in H2. rewrite !andb_true_iff in H2. tauto. }
    change (fmt_of (IConv c :: l)) with (37 :: c :: fmt_of l) in *. change (text r (IConv c :: l)) with (conv_text r c ++ text r l) in Hs.
    destruct fuel as [|fuel]; [cbn in Hf; lia|]. cbn [Timefmt.parse_loop]. unfold parse_next. change (isspace 37) with false. change (negb (37 =? 37)) with false. cbv iota.
    destruct (plain_ok c Hc) as [Hp Hcase]. destruct (plain_flags c (fmt_of l) Hp) as (_ & _ & E3). rewrite E3.
    destruct Hcase as [->|[Hn Hnt]].
    + assert (s = 37 :: text r l) as -> by (destruct Hs as [->| ->]; done). change (negb (among 37 "nt%")) with false. cbv iota.
      change (parse_conv nested 37 (37 :: text r l) p) with (p, Some (text r l)). cbn [fmap option_fmap option_map].
      rewrite (IH fuel (text r l) p); [done | done | cbn in Hf; lia | by left].
    + rewrite Hnt. cbn [negb]. assert (skip_space s = skip_space (conv_text r c ++ text r l)) as -> by (destruct Hs as [->| ->]; by rewrite ?skip_idem).
      rewrite (conv_ok nested r c (text r l) p Hr Hn); [|intros Ho; by apply (H3 c r)]. cbn [fmap option_fmap option_map].
      rewrite (IH fuel (text r l)); [by rewrite upd_upd | done | cbn in Hf; lia | by left].
Qed.
End RoundTrip.

(** The number %s reads is the one at the start of the text. *)
Lemma strtoll_at_ok s :
  Forall is_byte s → Forall (λ c, c ≠ 0) s → length s < 2 ^ 60 →
  strtoll_at s = Some (match read_number 10 s with
    | None => (0, s, 0)
    | Some (neg, mag, k) => let v := signed_value neg mag in (saturate v, drop k s, if decide (saturate v = v) then 0 else ERANGE)
    end).
Proof.
  intros Hb Hz Hl. unfold strtoll_at. cbv zeta.
  assert (strtoll (str_mem s) 4096 10 0 = strtol (str_mem s) 4096 10 0) as -> by done. rewrite (strtol_ok _ _ s).
  - destruct (read_number 10 s) as [[[neg mag] k]|]; [|by rewrite Z.sub_diag]. cbv zeta iota beta. replace (Z.to_nat (4096 + k - 4096)) with k by lia. done.
  - unfold str_mem. apply mem_ok_block; try done.
    + rewrite length_app, length_replicate. lia.
    + rewrite length_app, length_replicate. pose proof (Nat.mod_upper_bound (length s) 8). pose proof (Nat.div_mod_eq (length s) 8). zdiv.
    + rewrite forallb_app. apply andb_true_iff. split; apply forallb_forall; intros x Hx%list_elem_of_In.
      * rewrite Forall_forall in Hb. specialize (Hb x Hx). unfold is_byte in Hb. apply andb_true_iff. rewrite Z.leb_le, Z.ltb_lt. lia.
      * apply elem_of_replicate in Hx as [-> _]. done.
  - split.
    + assert (∃ z, replicate (8 - length s mod 8) 0 = [0] ++ z) as [z Ez].
      { pose proof (Nat.mod_upper_bound (length s) 8). destruct (8 - length s mod 8)%nat as [|k] eqn:E; [lia|]. by eexists. }
      unfold str_mem. rewrite Ez, app_assoc. exact (proj1 (proj1 (bytes_app _ _ _ _) (bytes_write ∅ 4096 ((s ++ [0]) ++ z)))).
    + apply Forall_forall. intros x Hx. rewrite Forall_forall in Hb, Hz. specialize (Hb x Hx). specialize (Hz x Hx). unfold is_byte in Hb. lia.
  - by right.
Qed.

Lemma days_before_bound y m : 1 <= m <= 12 → 0 <= days_before y m ∧ days_before y m + month_days y m <= 366.
Proof.
  intros Hm. assert (m = 1 ∨ m = 2 ∨ m = 3 ∨ m = 4 ∨ m = 5 ∨ m = 6 ∨ m = 7 ∨ m = 8 ∨ m = 9 ∨ m = 10 ∨ m = 11 ∨ m = 12) as Hc by lia.
  unfold days_before, month_days. destruct (leap y); decompose [or] Hc; subst m; vm_compute; split; done.
Qed.

(** The fields of a calendar date can be printed and read back. *)
Lemma valid_printable r : valid_tm r → -99999999 <= tm_year r + 1900 <= 999999999 → printable r.
Proof.
  intros [Hy [Hm Hd] (Hh & Hi & Hs) Hyd Hwd] Hr. pose proof (days_before_bound (tm_year r + 1900) (tm_mon r + 1) Hm) as [B1 B2].
  assert (month_days (tm_year r + 1900) (tm_mon r + 1) <= 31) by (unfold month_days; repeat case_match; lia).
  split; try lia. rewrite Hwd. apply Z.mod_pos_bound. lia.
Qed.

Lemma strptime_items tz r r0 l zs :
  printable r → items_ok l = true → strptime tz (fmt_of l) (text tz zs r l) r0 = (foldl (item_copy r) r0 l, Some []).
Proof.
  intros Hr Hl. unfold strptime, strptime_with. rewrite (parse_items tz zs _ r l) by (done || by left). done.
Qed.

Lemma strftime_items tz zs r l mx :
  items_ok l = true → length (text tz zs r l) < mx →
  strftime tz zs mx (fmt_of l) r = (Z.of_nat (length (text tz zs r l)), text tz zs r l ++ [0]).
Proof.
  intros Hl Hm. pose proof (strftime_fits tz zs mx (fmt_of l) r ltac:(lia)) as H. cbv zeta in H.
  unfold expand in H. rewrite (expand_items tz zs r _ l) in H by done. destruct (strftime tz zs mx (fmt_of l) r) as [n o].
  destruct (Z.ltb_spec (length (text tz zs r l)) mx); [|lia]. destruct H as [_ [-> ->]]. done.
Qed.

(** "%Y-%m-%d %H:%M:%S" *)
Definition iso_items : list item :=
  [IConv 89; ILit 45; IConv 109; ILit 45; IConv 100; ILit 32; IConv 72; ILit 58; IConv 77; ILit 58; IConv 83].

Lemma iso_length tz zs r : printable r → (length (text tz zs r iso_items) <= 25)%nat.
Proof.
  intros [].
  change (text tz zs r iso_items) with
    ((put_num (tm_year r + 1900) 0 48 ++ []) ++ [45] ++ (put_num (tm_mon r + 1) 2 48 ++ []) ++ [45] ++ (put_num (tm_mday r) 2 48 ++ []) ++ [32] ++
     (put_num (tm_hour r) 2 48 ++ []) ++ [58] ++ (put_num (tm_min r) 2 48 ++ []) ++ [58] ++ (put_num (tm_sec r) 2 48 ++ []) ++ []).
  assert (∀ v, 0 <= v < 100 → put_num v 2 48 = num2 v) as H2 by (intros v Hv; apply (put_num_small v Hv)).
  rewrite !app_nil_r, !H2 by lia. rewrite !length_app. cbn [length num2].
  assert (length (put_num (tm_year r + 1900) 0 48) <= 10)%nat; [|lia]. rewrite put_num_year by lia. destruct (Z.ltb_spec (tm_year r + 1900) 0).
  - destruct (dec_ok (- (tm_year r + 1900))) as (_ & _ & _ & H4); [lia|]. specialize (H4 9%nat ltac:(lia) ltac:(cbn; lia)). cbn [length]. lia.
  - destruct (dec_ok (tm_year r + 1900)) as (_ & _ & _ & H4); [lia|]. specialize (H4 9%nat ltac:(lia) ltac:(cbn; lia)). lia.
Qed.

(** ** Properties *)

(** C23: strftime never writes outside the [max] bytes of its buffer. It
    returns the length of the text of the format and leaves exactly that text
    with its terminator when both fit, and returns 0 when they do not,
    whatever the format, its flags and widths, and the fields are. *)
Theorem strftime_spec tz zs mx f r :
  0 <= mx →
  let w := expand tz zs r f in
  let '(n, o) := strftime tz zs mx f r in
  length o <= mx ∧ (if length w <? mx then n = length w ∧ o = w ++ [0] else n = 0).
Proof. apply strftime_fits. Qed.

Lemma strftime_spec_witness :
  strftime (λ _, (0, 0, 0)) (λ _, []) 9 (lit "%T") (Tm 7 5 9 1 0 70 4 0 0 0 0) = (8, lit "09:05:07" ++ [0]) ∧
  let '(n, o) := strftime (λ _, (0, 0, 0)) (λ _, []) 8 (lit "%T") (Tm 7 5 9 1 0 70 4 0 0 0 0) in length o <= 8 ∧ n = 0.
Proof.
  split; [vm_compute; reflexivity|].
  exact (strftime_spec (λ _, (0, 0, 0)) (λ _, []) 8 (lit "%T") (Tm 7 5 9 1 0 70 4 0 0 0 0) ltac:(lia)).
Defined.


