(* ===== verification/Tz.v ===== *)
(** * Time zones (src/src/tz.c)

    POSIX TZ strings, TZif files, tzset and the zone lookup. A C string is
    the list of its bytes without the terminator; reading at its end gives 0.
    The parsers return the value and the rest of the string, or None for -1.
    A file is a list of bytes and every read of it is checked: a read outside
    the buffer is the trap [Segv]. *)
From S2P Require Import Prelude Lit Timeconv.

(** ** Data *)

Definition MAX_TZFILE : Z := Z.shiftl 1 20.
Definition MAX_TIMES : Z := 4000.
Definition MAX_TYPES : Z := 256.
Definition MAX_ABBR : Z := 256.
Definition PATH_MAX : Z := 4096.

(** kind is 'J' (74), 'D' (68) or 'M' (77). *)
Record rule_date := RuleDate { d_kind : Z; d_n : Z; d_m : Z; d_w : Z; d_d : Z; d_secs : Z }.

Record posix_rule := PosixRule {
  valid : bool; std : list Z; dst : list Z; std_off : Z; dst_off : Z; has_dst : bool;
  start : rule_date; end_ : rule_date;
}.

Record type := Type_ { t_off : Z; t_isdst : Z; t_abbr : Z }.

(** The static object Z. [times] and [idx] are the first ntimes entries of
    their arrays, [types] the first ntypes, [abbr] the characters that the
    file gave with the terminator; nothing reads beyond those counts. *)
Record zone := Zone {
  key : list Z; loaded : bool;
  times : list Z; idx : list Z; types : list type; abbr : list Z; rule : posix_rule;
}.

Definition ntimes (z : zone) : Z := length (times z).
Definition ntypes (z : zone) : Z := length (types z).

(** What tzname and the lookup point to: the names of the rule, the string
    "UTC", or a position of Z.abbr. *)
Inductive tzn := NStd | NDst | NUtc | NAbbr (i : Z).

Record tzstate := TzState { Zst : zone; tzname0 : tzn; tzname1 : tzn; timezone : Z; daylight : Z }.

Definition zero_date : rule_date := RuleDate 0 0 0 0 0 0.
Definition zero_rule : posix_rule := PosixRule false [] [] 0 0 false zero_date zero_date.

(** ** POSIX TZ strings *)

(** *s, and the test (unsigned) *s - lo < n. *)
Definition cur (s : list Z) : Z := match s with [] => 0 | c :: _ => s8 c end.
Definition is_dig (c : Z) : bool := u32 (u32 c - 48) <? 10.
Definition is_alpha (c : Z) : bool := u32 (u32 (Z.lor c 32) - 97) <? 26.

(** The two loops of parse_name, [n] bytes copied so far: the bytes copied
    and what follows. *)
Fixpoint quoted (n : Z) (s : list Z) : option (list Z * list Z) :=
  match s with
  | [] => None
  | c :: s' =>
      if s8 c =? 62 then Some ([], s')
      else if 16 <=? n + 1 then None
      else '(o, r) ← quoted (n + 1) s'; Some (c :: o, r)
  end.

Fixpoint unquoted (n : Z) (s : list Z) : option (list Z * list Z) :=
  match s with
  | [] => Some ([], [])
  | c :: s' =>
      if is_alpha (s8 c) then
        if 16 <=? n + 1 then None else '(o, r) ← unquoted (n + 1) s'; Some (c :: o, r)
      else Some ([], s)
  end.

Definition parse_name (s : list Z) : option (list Z * list Z) :=
  '(o, r) ← (if cur s =? 60 then quoted 0 (tail s) else unquoted 0 s);
  if length o <? 3 then None else Some (o, r).

(** while (digit( *s) && v < bound) v = v * 10 + ( *s++ - '0') *)
Fixpoint digits (bound v : Z) (s : list Z) : Z * list Z :=
  match s with
  | c :: s' => if is_dig (s8 c) && (v <? bound) then digits bound (v * 10 + (s8 c - 48)) s' else (v, s)
  | [] => (v, [])
  end.

(** A field of at least one digit. *)
Definition field (bound : Z) (s : list Z) : option (Z * list Z) :=
  if negb (is_dig (cur s)) then None else Some (digits bound 0 s).

Definition parse_hms (s : list Z) : option (Z * list Z) :=
  let '(neg, s) := if (cur s =? 43) || (cur s =? 45) then (cur s =? 45, tail s) else (false, s) in
  '(h, s) ← field 1000 s;
  '(mi, sec, s) ←
    (if cur s =? 58 then
       '(mi, s) ← field 100 (tail s);
       if cur s =? 58 then '(sec, s) ← field 100 (tail s); Some (mi, sec, s) else Some (mi, 0, s)
     else Some (0, 0, s));
  if (167 <? h) || (59 <? mi) || (59 <? sec) then None else
  Some ((h * 3600 + mi * 60 + sec) * (if neg : bool then -1 else 1), s).

(** while (digit( *s) && n <= hi) is the loop [digits] with bound hi + 1. *)
Definition parse_num (lo hi : Z) (s : list Z) : option (Z * list Z) :=
  '(v, s) ← field (hi + 1) s;
  if (v <? lo) || (hi <? v) then None else Some (v, s).

(** if ( *s++ != c) return -1 *)
Definition expect (c : Z) (s : list Z) : option (list Z) :=
  if cur s =? c then Some (tail s) else None.

Definition parse_date (s : list Z) : option (rule_date * list Z) :=
  '(dd, s) ←
    (if cur s =? 74 then '(v, s) ← parse_num 1 365 (tail s); Some (RuleDate 74 v 0 0 0 7200, s)
     else if cur s =? 77 then
       '(mm, s) ← parse_num 1 12 (tail s);
       s ← expect 46 s;
       '(ww, s) ← parse_num 1 5 s;
       s ← expect 46 s;
       '(wd, s) ← parse_num 0 6 s;
       Some (RuleDate 77 0 mm ww wd 7200, s)
     else '(v, s) ← parse_num 0 365 s; Some (RuleDate 68 v 0 0 0 7200, s));
  if cur s =? 47 then
    '(t, s) ← parse_hms (tail s);
    Some (RuleDate (d_kind dd) (d_n dd) (d_m dd) (d_w dd) (d_d dd) t, s)
  else Some (dd, s).

Definition parse_off (s : list Z) : option (Z * list Z) :=
  '(o, s) ← parse_hms s;
  if (24 * 3600 <? o) || (o <? - 24 * 3600) then None else Some (o, s).

Definition us_start : rule_date := RuleDate 77 0 3 2 0 7200.
Definition us_end : rule_date := RuleDate 77 0 11 1 0 7200.

(** None: -1; what it leaves in [*r] then is not used by any caller. *)
Definition parse_posix (s : list Z) : option posix_rule :=
  '(sn, s) ← parse_name s;
  '(o, s) ← parse_off s;
  let so := - o in
  if cur s =? 0 then Some (PosixRule true sn [] so 0 false zero_date zero_date) else
  '(dn, s) ← parse_name s;
  '(d_off, s) ←
    (if negb (cur s =? 0) && negb (cur s =? 44) then '(o, s) ← parse_off s; Some (- o, s)
     else Some (so + 3600, s));
  '(a, b, s) ←
    (if cur s =? 44 then
       '(a, s) ← parse_date (tail s);
       s ← expect 44 s;
       '(b, s) ← parse_date s;
       Some (a, b, s)
     else Some (us_start, us_end, s));
  if negb (cur s =? 0) then None else
  Some (PosixRule true sn dn so d_off true a b).

(** ** Rule dates *)

Definition mlen : list Z := [31; 28; 31; 30; 31; 30; 31; 31; 30; 31; 30; 31].

Definition b2z (b : bool) : Z := if b then 1 else 0.

Definition rule_time (year : Z) (r : rule_date) : res Z :=
  day ← (if d_kind r =? 74 then
           Ok (if __is_leap year && (60 <=? d_n r) then d_n r - 1 + 1 else d_n r - 1)
         else if d_kind r =? 68 then Ok (d_n r)
         else
           let first := __days_from_civil year (u32 (d_m r)) 1 in
           let jan1 := __days_from_civil year 1 1 in
           let wd_first := Z.rem (Z.rem first 7 + 7 + 4) 7 in
           let delta := Z.rem (d_d r - wd_first + 7) 7 in
           let mday := 1 + delta + 7 * (d_w r - 1) in
           match mlen !! Z.to_nat (d_m r - 1) with
           | None => Trap Segv
           | Some l =>
               let len := l + b2z ((d_m r =? 2) && __is_leap year) in
               mday ← loop 3 (λ mday, Ok (if len <? mday then Cont (mday - 7) else Brk mday)) mday;
               Ok (first - jan1 + mday - 1)
           end);
  Ok (day * 86400 + d_secs r).

(** The year of a day: the estimate and the two loops that correct it. *)
Definition year_of (days : Z) : res Z :=
  let y := 1970 + Z.quot (if 0 <=? days then days * 400 else days * 400 - 146096) 146097 in
  y ← loop 3 (λ y, Ok (if __days_from_civil (y + 1) 1 1 <=? days then Cont (y + 1) else Brk y)) y;
  loop 3 (λ y, Ok (if days <? __days_from_civil y 1 1 then Cont (y - 1) else Brk y)) y.

(** Offset, DST flag and name. *)
Definition rule_lookup (r : posix_rule) (t : Z) : res (Z * Z * tzn) :=
  if negb (has_dst r) then Ok (std_off r, 0, NStd) else
  let days := Z.quot (t + std_off r) 86400 - b2z (Z.rem (t + std_off r) 86400 <? 0) in
  y ← year_of days;
  let pre := y <? 1970 in
  let y := if pre then 1970 else y in
  let y0 := __days_from_civil y 1 1 * 86400 in
  ts ← rule_time y (start r);
  te ← rule_time y (end_ r);
  let s := y0 + ts - std_off r in
  let e := y0 + te - dst_off r in
  let in_dst := if pre then e <? s
                else if s <? e then (s <=? t) && (t <? e)
                else negb ((e <=? t) && (t <? s)) in
  Ok (if in_dst then (dst_off r, 1, NDst) else (std_off r, 0, NStd)).

(** ** TZif files *)

Definition rd (buf : list Z) (i : Z) : res Z :=
  if i <? 0 then Trap Segv else match buf !! Z.to_nat i with Some b => Ok b | None => Trap Segv end.

Definition be32 (buf : list Z) (p : Z) : res Z :=
  a ← rd buf p; b ← rd buf (p + 1); c ← rd buf (p + 2); e ← rd buf (p + 3);
  Ok (Z.lor (Z.lor (Z.lor (Z.shiftl a 24) (Z.shiftl b 16)) (Z.shiftl c 8)) e).

Definition be64 (buf : list Z) (p : Z) : res Z :=
  a ← be32 buf p; b ← be32 buf (p + 4); Ok (s64 (Z.lor (Z.shiftl a 32) b)).

(** for (i = 0; i < k; i++) of a loop that may leave the function: None is
    goto out. *)
Fixpoint table {A} (k : nat) (i : Z) (f : Z → res (option A)) : res (option (list A)) :=
  match k with
  | O => Ok (Some [])
  | S k =>
      x ← f i;
      match x with
      | None => Ok None
      | Some a => l ← table k (i + 1) f; Ok (option_map (cons a) l)
      end
  end.

Definition rd_time (buf : list Z) (q : Z) (pass64 : bool) (i : Z) : res (option Z) :=
  if pass64 then t ← be64 buf (q + 8 * i); Ok (Some t)
  else t ← be32 buf (q + 4 * i); Ok (Some (s32 t)).

Definition rd_idx (buf : list Z) (q ntypes : Z) (i : Z) : res (option Z) :=
  b ← rd buf (q + i); Ok (if ntypes <=? b then None else Some b).

Definition rd_type (buf : list Z) (q nchars : Z) (i : Z) : res (option type) :=
  let q := q + 6 * i in
  o ← be32 buf q;
  let o := s32 o in
  f ← rd buf (q + 4);
  a ← rd buf (q + 5);
  Ok (if (o <? - 25 * 3600) || (26 * 3600 <? o) || (1 <? f) || (nchars <=? a) then None
      else Some (Type_ o f a)).

Definition rd_byte (buf : list Z) (q : Z) (i : Z) : res (option Z) :=
  b ← rd buf (q + i); Ok (Some b).

(** for (i = 1; i < ntimes; i++) times[i] <= times[i - 1]: goto out *)
Fixpoint increasing (l : list Z) : bool :=
  match l with
  | a :: (b :: _) as l' => if b <=? a then false else increasing l'
  | _ => true
  end.

(** Up to the first NUL byte: the C string in a buffer. *)
Fixpoint upto0 (s : list Z) : list Z :=
  match s with [] => [] | c :: s => if c =? 0 then [] else c :: upto0 s end.

(** memchr (q, '\n', len): the number of bytes before it. *)
Fixpoint find_nl (s : list Z) : option Z :=
  match s with [] => None | c :: s => if c =? 10 then Some 0 else Z.succ <$> find_nl s end.

(** The footer at [q]. *)
Definition footer (buf : list Z) (q : Z) (pass64 : bool) : res posix_rule :=
  let len := length buf in
  if negb (pass64 && (q <? len)) then Ok zero_rule else
  c ← rd buf q;
  if negb (c =? 10) then Ok zero_rule else
  let rest := drop (Z.to_nat (q + 1)) buf in
  match find_nl rest with
  | Some k =>
      if k <? 128 then
        let tmp := upto0 (take (Z.to_nat k) rest) in
        match tmp with
        | [] => Ok zero_rule
        | _ => Ok (match parse_posix tmp with Some r => r | None => zero_rule end)
        end
      else Ok zero_rule
  | None => Ok zero_rule
  end.

(** The header at [p]: the six counts. *)
Definition counts (buf : list Z) (p : Z) : res (Z * Z * Z * Z * Z * Z) :=
  isutc ← be32 buf (p + 20); isstd ← be32 buf (p + 24); leap ← be32 buf (p + 28);
  nt ← be32 buf (p + 32); ny ← be32 buf (p + 36); nc ← be32 buf (p + 40);
  Ok (isutc, isstd, leap, nt, ny, nc).

(** The data block at [q], read into Z; None is goto out. *)
Definition load_body (buf : list Z) (q : Z) (pass64 : bool) (isutc isstd leap nt ny nc : Z) (z : zone)
    : res (option zone) :=
  let tsz := if pass64 then 8 else 4 in
  ts ← table (Z.to_nat nt) 0 (rd_time buf q pass64);
  let q := q + tsz * nt in
  ix ← table (Z.to_nat nt) 0 (rd_idx buf q ny);
  match ts, ix with
  | Some ts, Some ix =>
      let q := q + nt in
      ty ← table (Z.to_nat ny) 0 (rd_type buf q nc);
      let q := q + 6 * ny in
      match ty with
      | None => Ok None
      | Some ty =>
          ab ← table (Z.to_nat nc) 0 (rd_byte buf q);
          match ab with
          | None => Ok None
          | Some ab =>
              if negb (increasing ts) then Ok None else
              let q := q + nc + leap * (tsz + 4) + isstd + isutc in
              r ← footer buf q pass64;
              Ok (Some (Zone (key z) (loaded z) ts ix ty (ab ++ [0]) r))
          end
      end
  | _, _ => Ok None
  end.

(** One turn of for (;;) with p and pass64. *)
Definition load_turn (buf : list Z) (z : zone) (s : Z * bool) : res (ctl (Z * bool) (option zone)) :=
  let '(p, pass64) := s in
  let len := length buf in
  if len - p <? 44 then Ok (Brk None) else
  version ← rd buf 4;
  '(isutc, isstd, leap, nt, ny, nc) ← counts buf p;
  let tsz := if pass64 : bool then 8 else 4 in
  let body := u64 (nt * tsz + nt + ny * 6 + nc + leap * (tsz + 4) + isstd + isutc) in
  if (MAX_TIMES <? nt) || (ny =? 0) || (MAX_TYPES <? ny) || (MAX_ABBR <? nc) || (10000 <? leap) ||
     (ny <? isstd) || (ny <? isutc) || (len - p - 44 <? body) then Ok (Brk None) else
  let q := p + 44 in
  if (50 <=? version) && negb pass64 then Ok (Cont (q + body, true)) else
  z' ← load_body buf q pass64 isutc isstd leap nt ny nc z;
  Ok (Brk z').

(** A file as open, fstat and read show it: whether it is a regular file,
    its size, and the bytes that the reads deliver. *)
Record file := File { regular : bool; st_size : Z; data : list Z }.

Definition TZif : list Z := lit "TZif".

(** None is -1. It may leave the tables of Z partly overwritten; do_tzset
    then resets the counts. [mem] is the success of malloc. *)
Definition load_tzif (f : option file) (mem : bool) (z : zone) : res (option zone) :=
  match f with
  | None => Ok None
  | Some f =>
      if negb (regular f) || (st_size f <? 44) || (MAX_TZFILE <? st_size f) then Ok None else
      if negb mem then Ok None else
      let buf := take (Z.to_nat (st_size f)) (data f) in
      if negb (length buf =? st_size f) || negb (bool_decide (take 4 buf = TZif)) then Ok None else
      loop 3 (load_turn buf z) (0, false)
  end.

(** ** tzset *)

Definition UTC : list Z := lit "UTC".

Definition set_utc (z : zone) : zone :=
  Zone (key z) (loaded z) [] [] [] (abbr z) (PosixRule true UTC [] 0 0 false zero_date zero_date).

(** p[-1] is [prev]; None at the start of the name. *)
Fixpoint no_dotdot (prev : option Z) (s : list Z) : bool :=
  match s with
  | [] => true
  | c :: s' =>
      if (c =? 46) && (nth 0 s' 0 =? 46) && match prev with None => true | Some x => x =? 47 end &&
         ((nth 1 s' 0 =? 47) || (nth 1 s' 0 =? 0))
      then false else no_dotdot (Some c) s'
  end.

Definition safe_name (secure : bool) (name : list Z) : bool :=
  if negb secure then true else if nth 0 name 0 =? 47 then false else no_dotdot None name.

(** "\x01unset", "/etc/localtime" and "/usr/share/zoneinfo/". *)
Definition unset_key : list Z := 1 :: lit "unset".
Definition etc_localtime : list Z := lit "/etc/localtime".
Definition ZONEINFO : list Z := lit "/usr/share/zoneinfo/".

(** What the process provides: the value of TZ, AT_SECURE, the files by
    path, the success of malloc. *)
Record host := Host { TZ : option (list Z); secure : bool; fs : list Z → option file; mem : bool }.

(** Z after the part of do_tzset that chooses and loads the zone. *)
Definition load_zone (h : host) (z : zone) : res zone :=
  let posix := match TZ h with
               | Some (c :: s) => if s8 c =? 58 then None else parse_posix (c :: s)
               | _ => None
               end in
  match TZ h, posix with
  | Some [], _ => Ok (set_utc z)
  | _, Some r => Ok (Zone (key z) (loaded z) [] [] [] (abbr z) r)
  | tz, None =>
      let name := match tz with
                  | None => etc_localtime
                  | Some s => if cur s =? 58 then tail s else s
                  end in
      z' ← (if bool_decide (is_Some tz) && negb (safe_name (secure h) name) then Ok None
            else if cur name =? 47 then load_tzif (fs h name) (mem h) z
            else if length name + (length ZONEINFO + 1) <=? PATH_MAX then
              load_tzif (fs h (ZONEINFO ++ name)) (mem h) z
            else Ok None);
      Ok (default (set_utc z) z')
  end.

(** &Z.types[k], and the type of transition [i] (the first type for -1). *)
Definition type_at (z : zone) (k : Z) : res type :=
  match types z !! Z.to_nat k with Some t => Ok t | None => Trap Segv end.
Definition trans_type (z : zone) (i : Z) : res type :=
  if i <? 0 then type_at z 0 else
  match idx z !! Z.to_nat i with Some k => type_at z k | None => Trap Segv end.

(** One turn of the loop over the transitions. *)
Definition set_names (z : zone) (st : tzstate) (i : Z) : res tzstate :=
  t ← trans_type z i;
  Ok (if negb (t_isdst t =? 0) then TzState z (tzname0 st) (NAbbr (t_abbr t)) (timezone st) 1
      else TzState z (NAbbr (t_abbr t)) (tzname1 st) (- t_off t) (daylight st)).

Definition globals (z : zone) (st : tzstate) : res tzstate :=
  match types z with
  | t0 :: _ =>
      let st := TzState z (NAbbr (t_abbr t0)) (NAbbr (t_abbr t0)) (- t_off t0) 0 in
      st ← foldl (λ acc i, st ← acc; set_names z st i) (Ok st) (seqZ (-1) (ntimes z + 1));
      Ok (if daylight st =? 0 then TzState z (tzname0 st) (tzname0 st) (timezone st) 0 else st)
  | [] =>
      Ok (if valid (rule z) then
            TzState z NStd (if has_dst (rule z) then NDst else NStd) (- std_off (rule z)) (b2z (has_dst (rule z)))
          else TzState z (tzname0 st) (tzname1 st) (timezone st) (daylight st))
  end.

Definition do_tzset (h : host) (st : tzstate) : res tzstate :=
  let k := default unset_key (TZ h) in
  if loaded (Zst st) && bool_decide (key (Zst st) = k) then Ok st else
  let z := Zst st in
  z ← load_zone h (Zone (take 255 k) true (times z) (idx z) (types z) (abbr z) (rule z));
  globals z st.

(** The lock only serialises the callers. *)
Definition tzset (h : host) (st : tzstate) : res tzstate := do_tzset h st.

(** Before the first transition: the first type that is not DST, or the first. *)
Definition first_std (ty : list type) : res type :=
  let k := list_find (λ t, t_isdst t = 0) ty in
  match k with
  | Some (_, t) => Ok t
  | None => match ty with t :: _ => Ok t | [] => Trap Segv end
  end.

(** times[i]. *)
Definition time_at (z : zone) (i : Z) : res Z :=
  match times z !! Z.to_nat i with Some x => Ok x | None => Trap Segv end.

(** while (lo < hi): the last transition that is not after [t]. *)
Definition last_trans (z : zone) (t : Z) : res Z :=
  loop (S (length (times z)))
    (λ '(lo, hi),
       if lo <? hi then
         let mid := (lo + hi + 1) / 2 in
         x ← time_at z mid;
         Ok (Cont (if x <=? t then (mid, hi) else (lo, mid - 1)))
       else Ok (Brk lo)) (0, ntimes z - 1).

Definition lookup_zone (z : zone) (t : Z) : res (Z * Z * tzn) :=
  last ← (if ntimes z =? 0 then Ok 0 else time_at z (ntimes z - 1));
  if negb (ntimes z =? 0) && ((t <? last) || negb (valid (rule z))) then
    first ← time_at z 0;
    ty ← (if t <? first then first_std (types z)
          else i ← last_trans z t; trans_type z i);
    Ok (t_off ty, t_isdst ty, NAbbr (t_abbr ty))
  else if valid (rule z) then rule_lookup (rule z) t
  else match types z with
       | t0 :: _ => Ok (t_off t0, t_isdst t0, NAbbr (t_abbr t0))
       | [] => Ok (0, 0, NUtc)
       end.

Definition __tz_lookup (h : host) (st : tzstate) (t : Z) : res (tzstate * (Z * Z * tzn)) :=
  st ← do_tzset h st; r ← lookup_zone (Zst st) t; Ok (st, r).

(** The string that a name points to; reading past the array is a trap. *)
Fixpoint cstr_at (s : list Z) : res (list Z) :=
  match s with
  | [] => Trap Segv
  | c :: s => if c =? 0 then Ok [] else r ← cstr_at s; Ok (c :: r)
  end.
Definition name_str (z : zone) (x : tzn) : res (list Z) :=
  match x with
  | NStd => Ok (std (rule z))
  | NDst => Ok (dst (rule z))
  | NUtc => Ok UTC
  | NAbbr i => cstr_at (drop (Z.to_nat i) (abbr z))
  end.

(** ** Well-formed rules and zones *)

Definition MAX_SECS : Z := 167 * 3600 + 59 * 60 + 59.

Definition wf_date (r : rule_date) : Prop :=
  (d_kind r = 74 ∧ 1 <= d_n r <= 365 ∨ d_kind r = 68 ∧ 0 <= d_n r <= 365 ∨
   d_kind r = 77 ∧ 1 <= d_m r <= 12 ∧ 1 <= d_w r <= 5 ∧ 0 <= d_d r <= 6) ∧
  - MAX_SECS <= d_secs r <= MAX_SECS.

Record wf_rule (r : posix_rule) : Prop := {
  wr_std : 3 <= length (std r) <= 15;
  wr_off : - 86400 <= std_off r <= 86400;
  wr_dst : has_dst r = true →
    3 <= length (dst r) <= 15 ∧ - 86400 <= dst_off r <= 90000 ∧ wf_date (start r) ∧ wf_date (end_ r);
}.

Definition wf_type (nchars : Z) (t : type) : Prop :=
  - 25 * 3600 <= t_off t <= 26 * 3600 ∧ 0 <= t_isdst t <= 1 ∧ 0 <= t_abbr t < nchars.

Record wf_zone (z : zone) : Prop := {
  wz_times : StronglySorted Z.lt (times z);
  wz_sizes : ntimes z <= MAX_TIMES ∧ ntypes z <= MAX_TYPES;
  wz_idx : length (idx z) = length (times z) ∧ Forall (λ k, 0 <= k < ntypes z) (idx z);
  wz_types : types z ≠ [] → ∃ chars, abbr z = chars ++ [0] ∧ Forall (wf_type (length chars)) (types z) ∧ length chars <= MAX_ABBR;
  wz_rule : valid (rule z) = true → wf_rule (rule z);
  wz_some : types z = [] → times z = [] ∧ valid (rule z) = true;
}.

(** ** The parsers *)

Lemma bind_some {A B} (c : option A) (f : A → option B) y :
  mbind f c = Some y → ∃ x, c = Some x ∧ f x = Some y.
Proof. destruct c as [x|]; [|done]. intros H. by exists x. Qed.

(** Splits the parse of a sequence into the parses of its parts. *)
Ltac parts H :=
  repeat first
    [ let x := fresh "p" in let E := fresh "E" in apply bind_some in H as (x & E & H)
    | match type of H with context [let '(_, _) := ?p in _] => is_var p; destruct p end
    | match type of H with (if ?b then _ else _) = Some _ => let E := fresh "B" in destruct b eqn:E; try discriminate H end
    | progress simplify_eq ].

Lemma quoted_len k s o r : quoted k s = Some (o, r) → 0 <= k <= 15 → k + length o <= 15.
Proof.
  revert k o. induction s as [|c s IH]; intros k o H Hk; simpl in H; [done|].
  destruct (s8 c =? 62); [injection H as <- <-; simpl; lia|].
  destruct (Z.leb_spec 16 (k + 1)); [done|]. apply bind_some in H as ([o' r'] & E & H). injection H as <- <-.
  specialize (IH _ _ E ltac:(lia)). simpl. lia.
Qed.

Lemma unquoted_len k s o r : unquoted k s = Some (o, r) → 0 <= k <= 15 → k + length o <= 15.
Proof.
  revert k o. induction s as [|c s IH]; intros k o H Hk; simpl in H; [injection H as <- <-; simpl; lia|].
  destruct (is_alpha _); [|injection H as <- <-; simpl; lia].
  destruct (Z.leb_spec 16 (k + 1)); [done|]. apply bind_some in H as ([o' r'] & E & H). injection H as <- <-.
  specialize (IH _ _ E ltac:(lia)). simpl. lia.
Qed.

Lemma parse_name_wf s o r : parse_name s = Some (o, r) → 3 <= length o <= 15.
Proof.
  unfold parse_name. intros H. apply bind_some in H as ([o' r'] & E & H).
  destruct (Z.ltb_spec (length o') 3); [done|]. injection H as <- <-.
  destruct (cur s =? 60); [apply quoted_len in E | apply unquoted_len in E]; lia.
Qed.

Lemma is_dig_spec c : - 128 <= c < 128 → is_dig c = true ↔ 48 <= c <= 57.
Proof.
  intros Hc. unfold is_dig. destruct (decide (0 <= c)).
  - rewrite (uwrap_small 32 c) by lia. rewrite Z.ltb_lt. destruct (decide (48 <= c)).
    + rewrite uwrap_small by lia. lia.
    + unfold uwrap. rewrite <- (Z.mod_add _ 1) by lia. rewrite Z.mod_small by lia. lia.
  - rewrite Z.ltb_lt. unfold uwrap at 2. rewrite <- (Z.mod_add c 1) by lia. rewrite Z.mod_small by lia.
    rewrite uwrap_small by lia. lia.
Qed.

Lemma s8_range c : - 128 <= s8 c < 128.
Proof. unfold swrap. pose proof (Z.mod_pos_bound (c + 2 ^ (8 - 1)) (2 ^ 8) ltac:(lia)). lia. Qed.

Lemma digits_nonneg bound v s : 0 <= v → 0 <= (digits bound v s).1.
Proof.
  revert v. induction s as [|c s IH]; intros v Hv; simpl; [done|].
  destruct (is_dig (s8 c)) eqn:E; simpl; [|done]. destruct (v <? bound); simpl; [|done].
  apply is_dig_spec in E; [|apply s8_range]. apply IH. lia.
Qed.

Lemma field_nonneg bound s v r : field bound s = Some (v, r) → 0 <= v.
Proof.
  unfold field. destruct (negb _); [done|]. injection 1 as E. pose proof (digits_nonneg bound 0 s ltac:(lia)) as H.
  by rewrite E in H.
Qed.

Lemma parse_num_wf lo hi s v r : parse_num lo hi s = Some (v, r) → lo <= v <= hi.
Proof.
  unfold parse_num. intros H. parts H. apply orb_false_iff in B as [B1 B2]. zbool. lia.
Qed.

Lemma parse_hms_wf s v r : parse_hms s = Some (v, r) → - MAX_SECS <= v <= MAX_SECS.
Proof.
  unfold parse_hms, MAX_SECS. intros H.
  destruct (if (cur s =? 43) || (cur s =? 45) then _ else _) as [neg s1].
  apply bind_some in H as ([h s2] & E1 & H). apply bind_some in H as ([[mi sec] s3] & E2 & H).
  apply field_nonneg in E1. assert (0 <= mi ∧ 0 <= sec).
  { destruct (cur s2 =? 58); [|by injection E2 as <- <- <-]. apply bind_some in E2 as ([mi' s4] & E3 & E2).
    apply field_nonneg in E3. destruct (cur s4 =? 58); [|injection E2 as <- <- <-; lia].
    apply bind_some in E2 as ([sec' s5] & E4 & E2). apply field_nonneg in E4. injection E2 as <- <- <-. lia. }
  destruct (_ || _) eqn:B in H; [done|]. injection H as <- <-. rewrite !orb_false_iff in B. zbool. destruct neg; lia.
Qed.

Lemma parse_date_wf s r rest : parse_date s = Some (r, rest) → wf_date r.
Proof.
  unfold parse_date. intros H. apply bind_some in H as ([dd s1] & E & H).
  assert (wf_date dd) as Hd.
  { unfold wf_date. destruct (cur s =? 74); [|destruct (cur s =? 77)]; parts E;
      repeat match goal with X : parse_num _ _ _ = Some _ |- _ => apply parse_num_wf in X end;
      cbn; unfold MAX_SECS; lia. }
  destruct (cur s1 =? 47); [|by injection H as <- <-].
  apply bind_some in H as ([t s2] & E2 & H). injection H as <- <-. apply parse_hms_wf in E2.
  destruct Hd. by split.
Qed.

Lemma parse_off_wf s v r : parse_off s = Some (v, r) → - 86400 <= v <= 86400.
Proof.
  unfold parse_off. intros H. apply bind_some in H as ([o s1] & E & H).
  destruct (_ || _) eqn:B in H; [done|]. injection H as <- <-. rewrite orb_false_iff in B. zbool. lia.
Qed.

Lemma parse_posix_wf s r : parse_posix s = Some r → wf_rule r ∧ valid r = true.
Proof.
  unfold parse_posix. intros H.
  apply bind_some in H as ([sn s1] & E1 & H). apply parse_name_wf in E1.
  apply bind_some in H as ([o s2] & E2 & H). apply parse_off_wf in E2. cbv zeta in H.
  destruct (cur s2 =? 0).
  { injection H as <-. split; [|done]. split; cbn; [done | lia | done]. }
  apply bind_some in H as ([dn s3] & E3 & H). apply parse_name_wf in E3.
  apply bind_some in H as ([d_off s4] & E4 & H).
  assert (- 86400 <= d_off <= 90000) as Hd.
  { destruct (_ && _) in E4; [|injection E4 as <- <-; lia]. apply bind_some in E4 as ([o' s5] & E5 & E4).
    apply parse_off_wf in E5. injection E4 as <- <-. lia. }
  apply bind_some in H as ([[a b] s6] & E6 & H).
  assert (wf_date a ∧ wf_date b) as [Ha Hb].
  { destruct (cur s4 =? 44).
    - apply bind_some in E6 as ([a' s7] & E7 & E6). apply bind_some in E6 as (s8' & E8 & E6).
      apply bind_some in E6 as ([b' s9] & E9 & E6). injection E6 as <- <- <-.
      split; by eapply parse_date_wf.
    - injection E6 as <- <- <-. unfold wf_date, MAX_SECS. cbn. lia. }
  destruct (negb (cur s6 =? 0)); [done|]. injection H as <-. split; [|done]. split; cbn; [done | lia | auto].
Qed.

(** ** Rule dates *)

Abbreviation jan1 y := (__days_from_civil y 1 1).

Definition weekday (day : Z) : Z := (day + 4) mod 7.

(** The day number of a rule date in a year: the n-th day that is not the
    29th of February, the day n days after the 1st of January, or the w-th
    (for w = 5 the last) weekday d of month m. *)
Definition rule_day (y : Z) (r : rule_date) (day : Z) : Prop :=
  (d_kind r = 74 ∧ ∃ mm dd, valid_date y mm dd ∧ ¬ (mm = 2 ∧ dd = 29) ∧
     __days_from_civil 1970 mm dd = d_n r - 1 ∧ day = __days_from_civil y mm dd) ∨
  (d_kind r = 68 ∧ day = jan1 y + d_n r) ∨
  (d_kind r = 77 ∧ ∃ dd, valid_date y (d_m r) dd ∧ day = __days_from_civil y (d_m r) dd ∧
     weekday day = d_d r ∧
     if d_w r =? 5 then month_days y (d_m r) < dd + 7 else 7 * (d_w r - 1) < dd <= 7 * d_w r).

Lemma days_before_leap y mm :
  1 <= mm <= 12 → days_before y mm = days_before 1970 mm + b2z (leap y && (2 <? mm)).
Proof.
  intros Hm. assert (∃ k : nat, mm = k ∧ (1 <= k <= 12)%nat) as (k & -> & Hk) by (exists (Z.to_nat mm); lia).
  unfold days_before, month_days.
  do 13 (destruct k as [|k]; [try lia; destruct (leap y); reflexivity|]). lia.
Qed.

Definition j_check (k : Z) : bool :=
  let '(y, mm, dd) := civil (k - 1) in
  (y =? 1970) && (1 <=? mm) && (mm <=? 12) && (1 <=? dd) && (dd <=? month_days 1970 mm) &&
  Bool.eqb (60 <=? k) (2 <? mm) && (k - 1 =? days_before 1970 mm + dd - 1).

Lemma j_check_all : all_from j_check 365 1 = true.
Proof. vm_compute. reflexivity. Qed.

Lemma month_days_1970 y mm : month_days 1970 mm <= month_days y mm.
Proof. unfold month_days. change (leap 1970) with false. repeat case_match; lia. Qed.

Lemma julian_day y k :
  1 <= k <= 365 →
  ∃ mm dd, valid_date y mm dd ∧ ¬ (mm = 2 ∧ dd = 29) ∧ __days_from_civil 1970 mm dd = k - 1 ∧
    __days_from_civil y mm dd = jan1 y + k - 1 + b2z (leap y && (60 <=? k)).
Proof.
  intros Hk. pose proof (all_from_spec _ _ _ k j_check_all ltac:(lia)) as H. unfold j_check in H.
  destruct (civil (k - 1)) as [[y' mm] dd] eqn:E. rewrite !andb_true_iff, Bool.eqb_true_iff in H.
  destruct H as [[[[[[H1 H2] H3] H4] H5] H6] H7]. zbool. subst y'.
  destruct (civil_days _ _ _ _ E) as [_ Hd]. pose proof (month_days_1970 y mm).
  assert (valid_date y mm dd) as Hv by (split; lia).
  exists mm, dd. split_and!; [done | | done |].
  - intros [-> ->]. by vm_compute in H5.
  - rewrite (days_linear y mm dd Hv), days_from_jan1, days_before_leap by lia. rewrite H6. lia.
Qed.

Lemma mlen_ok y mm :
  1 <= mm <= 12 → ∃ l, mlen !! Z.to_nat (mm - 1) = Some l ∧ l + b2z ((mm =? 2) && leap y) = month_days y mm.
Proof.
  intros Hm. assert (∃ k : nat, mm = k ∧ (1 <= k <= 12)%nat) as (k & -> & Hk) by (exists (Z.to_nat mm); lia).
  unfold month_days.
  do 13 (destruct k as [|k]; [first [lia | eexists; split; [reflexivity | by destruct (leap y)]]|]). lia.
Qed.

Lemma month_days_range y mm : 28 <= month_days y mm <= 31.
Proof. unfold month_days. repeat case_match; lia. Qed.

Lemma rule_time_ok y r :
  wf_date r → ∃ day, rule_day y r day ∧ rule_time y r = Ok ((day - jan1 y) * 86400 + d_secs r).
Proof.
  intros [[[K Hn] | [[K Hn] | (K & Hm & Hw & Hd)]] _]; unfold rule_time, rule_day; rewrite K; cbn [mbind res_bind].
  - destruct (julian_day y (d_n r) Hn) as (mm & dd & Hv & Hf & H70 & Hy).
    exists (__days_from_civil y mm dd). split; [left; split; [done|]; by exists mm, dd|].
    rewrite Hy, is_leap_ok. change (74 =? 74) with true. cbn [mbind res_bind]. do 2 f_equal.
    destruct (leap y && _); simpl; lia.
  - exists (jan1 y + d_n r). split; [tauto|]. change (68 =? 74) with false. change (68 =? 68) with true. cbn. do 2 f_equal. lia.
  - change (77 =? 74) with false. change (77 =? 68) with false. cbv iota zeta. rewrite uwrap_small by lia.
    destruct (mlen_ok y (d_m r) Hm) as (l & -> & El). rewrite is_leap_ok, El.
    set (first := __days_from_civil y (d_m r) 1). set (len := month_days y (d_m r)).
    pose proof (month_days_range y (d_m r)) as Hlen. fold len in Hlen.
    set (delta := Z.rem (d_d r - Z.rem (Z.rem first 7 + 7 + 4) 7 + 7) 7).
    assert (0 <= delta <= 6 ∧ (first + 4 + delta) mod 7 = d_d r) as [Hdl Hwd] by (subst delta; zdiv).
    assert (∃ mday, loop 3 (λ mday, Ok (if len <? mday then Cont (mday - 7) else Brk mday)) (1 + delta + 7 * (d_w r - 1)) = Ok mday ∧
              1 <= mday <= len ∧ (first + 4 + (mday - 1)) mod 7 = d_d r ∧
              if d_w r =? 5 then len < mday + 7 else 7 * (d_w r - 1) < mday <= 7 * d_w r) as (mday & -> & Hmd & Hwm & Hwk).
    { destruct (Z.leb_spec (1 + delta + 7 * (d_w r - 1)) len).
      - exists (1 + delta + 7 * (d_w r - 1)). rewrite loop_S. destruct (Z.ltb_spec len (1 + delta + 7 * (d_w r - 1))); [lia|].
        split; [done|]. split; [lia|]. split; [zdiv|]. destruct (Z.eqb_spec (d_w r) 5); lia.
      - exists (1 + delta + 7 * (d_w r - 1) - 7). rewrite loop_S. destruct (Z.ltb_spec len (1 + delta + 7 * (d_w r - 1))); [|lia].
        rewrite loop_S. destruct (Z.ltb_spec len (1 + delta + 7 * (d_w r - 1) - 7)); [lia|].
        split; [done|]. split; [lia|]. split; [zdiv|]. destruct (Z.eqb_spec (d_w r) 5); lia. }
    assert (valid_date y (d_m r) mday) as Hv by (split; [done | unfold len in Hmd; lia]).
    exists (__days_from_civil y (d_m r) mday). rewrite (days_linear y (d_m r) mday Hv). fold first. split.
    + right; right. split; [done|]. exists mday. split; [done|]. split; [by rewrite (days_linear y (d_m r) mday Hv)|].
      split; [|done]. unfold weekday. rewrite <- Hwm. f_equal. lia.
    + cbn. do 2 f_equal. lia.
Qed.

(** ** The year of a day *)

Definition drift_check (r : Z) : bool :=
  (-800 <=? 400 * ystart r - 146097 * r) && (400 * ystart r - 146097 * r <=? 800).

Lemma drift_check_all : all_from drift_check 400 0 = true.
Proof. vm_compute. reflexivity. Qed.

(** The 1st of January keeps close to the mean year of 146097 / 400 days. *)
Lemma jan1_mean y : - 1000 <= 400 * jan1 y - 146097 * (y - 1970) <= 1000.
Proof.
  rewrite days_from_civil_eq by (apply first_valid; lia). cbv zeta. change (1 <=? 2) with true. cbv iota.
  unfold doe_of. change (doy_of 1 1) with 306.
  pose proof (Z.mod_pos_bound (y - 1) 400 ltac:(lia)). pose proof (Z.div_mod (y - 1) 400 ltac:(lia)).
  pose proof (all_from_spec _ _ _ ((y - 1) mod 400) drift_check_all ltac:(lia)) as Hc.
  unfold drift_check in Hc. rewrite andb_true_iff in Hc. zbool. lia.
Qed.

Lemma year_of_ok days : ∃ y, year_of days = Ok y ∧ jan1 y <= days < jan1 (y + 1).
Proof.
  unfold year_of.
  assert ((if 0 <=? days then days * 400 else days * 400 - 146096) =
          (if 0 <=? days * 400 then days * 400 else days * 400 - (146097 - 1))) as ->.
  { destruct (Z.leb_spec 0 days), (Z.leb_spec 0 (days * 400)); lia. }
  rewrite quot_floor by lia. set (y := 1970 + days * 400 / 146097).
  assert (146097 * (y - 1970) <= days * 400 < 146097 * (y - 1970) + 146097) as Hy by (unfold y; zdiv).
  pose proof (jan1_mean (y - 1)). pose proof (jan1_mean (y + 1 + 1)).
  rewrite loop_S. destruct (Z.leb_spec (jan1 (y + 1)) days).
  - rewrite loop_S. destruct (Z.leb_spec (jan1 (y + 1 + 1)) days); [lia|]. cbn [mbind res_bind].
    rewrite loop_S. destruct (Z.ltb_spec days (jan1 (y + 1))); [lia|]. exists (y + 1). auto with lia.
  - cbn [mbind res_bind]. rewrite loop_S. destruct (Z.ltb_spec days (jan1 y)); [|exists y; auto with lia].
    rewrite loop_S. destruct (Z.ltb_spec days (jan1 (y - 1))); [lia|]. exists (y - 1).
    replace (y - 1 + 1) with y by lia. auto with lia.
Qed.

(** *** The meaning of a rule at a time *)

(** The transitions of the local year of [t] (of 1970 for earlier times):
    [s] starts DST, [e] ends it; DST is in effect between them, in either
    order; before 1970 the state before the first transition. *)
Definition rule_spec (r : posix_rule) (t : Z) (res : Z * Z * tzn) : Prop :=
  if has_dst r then
    ∃ y ds de, jan1 y <= (t + std_off r) / 86400 < jan1 (y + 1) ∧
      rule_day (y `max` 1970) (start r) ds ∧ rule_day (y `max` 1970) (end_ r) de ∧
      let s := ds * 86400 + d_secs (start r) - std_off r in
      let e := de * 86400 + d_secs (end_ r) - dst_off r in
      let in_dst := if y <? 1970 then bool_decide (e < s)
                    else if bool_decide (s < e) then bool_decide (s <= t < e)
                    else bool_decide (¬ e <= t < s) in
      res = if in_dst then (dst_off r, 1, NDst) else (std_off r, 0, NStd)
  else res = (std_off r, 0, NStd).

Lemma floor_quot a k : 0 < k → Z.quot a k - b2z (Z.rem a k <? 0) = a / k.
Proof.
  intros Hk. pose proof (Z.quot_rem a k ltac:(lia)) as E.
  assert (- k < Z.rem a k < k ∧ (0 <= a → 0 <= Z.rem a k)) as [Hr Hp].
  { pose proof (Z.rem_bound_abs a k ltac:(lia)). split; [lia|]. intros Ha.
    pose proof (Z.rem_bound_pos a k Ha Hk). lia. }
  destruct (Z.ltb_spec (Z.rem a k) 0); cbn [b2z].
  - apply Z.div_unique_pos with (Z.rem a k + k); lia.
  - apply Z.div_unique_pos with (Z.rem a k); lia.
Qed.

Lemma rule_lookup_ok r t : wf_rule r → wp (rule_lookup r t) (rule_spec r t).
Proof.
  intros Hr. unfold rule_lookup, rule_spec. destruct (has_dst r) eqn:Hd; cbn [negb]; [|by apply wp_ok].
  destruct (wr_dst r Hr Hd) as (_ & _ & Hs & He). rewrite floor_quot by lia. cbv zeta.
  destruct (year_of_ok ((t + std_off r) / 86400)) as (y & -> & Hy). cbn [mbind res_bind].
  assert ((if y <? 1970 then 1970 else y) = y `max` 1970) as -> by (destruct (Z.ltb_spec y 1970); lia).
  destruct (rule_time_ok (y `max` 1970) (start r) Hs) as (ds & Hds & ->). cbn [mbind res_bind].
  destruct (rule_time_ok (y `max` 1970) (end_ r) He) as (de & Hde & ->). cbn [mbind res_bind].
  apply wp_ok. exists y, ds, de. split; [done|]. split; [done|]. split; [done|].
  set (j := jan1 (y `max` 1970)). cbv zeta.
  replace (j * 86400 + ((ds - j) * 86400 + d_secs (start r)) - std_off r) with (ds * 86400 + d_secs (start r) - std_off r) by lia.
  replace (j * 86400 + ((de - j) * 86400 + d_secs (end_ r)) - dst_off r) with (de * 86400 + d_secs (end_ r) - dst_off r) by lia.
  set (s := ds * 86400 + _ - _). set (e := de * 86400 + _ - _).
  destruct (y <? 1970); [|case_bool_decide as Hse].
  - destruct (Z.ltb_spec e s); case_bool_decide; done || lia.
  - destruct (Z.ltb_spec s e); [|lia]. case_bool_decide; destruct (Z.leb_spec s t), (Z.ltb_spec t e); simpl; done || lia.
  - destruct (Z.ltb_spec s e); [lia|]. case_bool_decide; destruct (Z.leb_spec e t), (Z.ltb_spec t s); simpl; done || lia.
Qed.

(** ** TZif files *)

Section File.
Context (buf : list Z) (Hb : Forall is_byte buf).

Lemma rd_ok i : 0 <= i < length buf → wp (rd buf i) is_byte.
Proof using Hb.
  intros Hi. unfold rd. destruct (Z.ltb_spec i 0); [lia|].
  destruct (lookup_lt_is_Some_2 buf (Z.to_nat i)) as [b E]; [lia|]. rewrite E. apply wp_ok.
  by eapply Forall_lookup_1.
Qed.

Lemma be32_ok p : 0 <= p → p + 4 <= length buf → wp (be32 buf p) (λ v, 0 <= v < 2 ^ 32).
Proof using Hb.
  intros Hp Hl. unfold be32.
  do 4 (apply wp_bind; eapply wp_mono; [apply rd_ok; lia|]; intros ? ?). apply wp_ok.
  unfold is_byte in *. repeat apply (lor_range 32); try lia; rewrite Z.shiftl_mul_pow2 by lia; lia.
Qed.

Lemma be64_ok p : 0 <= p → p + 8 <= length buf → wp (be64 buf p) (λ v, True).
Proof using Hb.
  intros Hp Hl. unfold be64. do 2 (apply wp_bind; eapply wp_mono; [apply be32_ok; lia|]; intros ? ?). by apply wp_ok.
Qed.

Lemma table_ok {A} (P : A → Prop) k i (f : Z → res (option A)) :
  (∀ j, i <= j < i + Z.of_nat k → wp (f j) (λ x, match x with Some a => P a | None => True end)) →
  wp (table k i f) (λ x, match x with Some l => length l = k ∧ Forall P l | None => True end).
Proof.
  revert i. induction k as [|k IH]; intros i Hf; cbn [table]; [by apply wp_ok|].
  apply wp_bind. eapply wp_mono; [apply Hf; lia|]. intros [a|] Ha; [|by apply wp_ok].
  apply wp_bind. eapply wp_mono; [apply IH; intros; apply Hf; lia|]. intros [l|] Hl; [|by apply wp_ok].
  apply wp_ok. destruct Hl as [El Hl]. cbn. split; [lia | by constructor].
Qed.

Lemma rd_time_ok q (pass64 : bool) k j :
  0 <= q → q + (if pass64 then 8 else 4) * k <= length buf → 0 <= j < k →
  wp (rd_time buf q pass64 j) (λ x, match x with Some _ => True | None => True end).
Proof using Hb.
  intros. unfold rd_time. destruct pass64; apply wp_bind; eapply wp_mono;
    [apply be64_ok; lia| |apply be32_ok; lia|]; intros; by apply wp_ok.
Qed.

Lemma rd_idx_ok q ny k j :
  0 <= q → q + k <= length buf → 0 <= j < k →
  wp (rd_idx buf q ny j) (λ x, match x with Some b => 0 <= b < ny | None => True end).
Proof using Hb.
  intros. unfold rd_idx. apply wp_bind. eapply wp_mono; [apply rd_ok; lia|]. intros b Hbb. apply wp_ok.
  unfold is_byte in Hbb. destruct (Z.leb_spec ny b); [done | lia].
Qed.

Lemma rd_type_ok q nc k j :
  0 <= q → q + 6 * k <= length buf → 0 <= j < k →
  wp (rd_type buf q nc j) (λ x, match x with Some t => wf_type nc t | None => True end).
Proof using Hb.
  intros. unfold rd_type. cbv zeta. apply wp_bind. eapply wp_mono; [apply be32_ok; lia|]. intros o _.
  apply wp_bind. eapply wp_mono; [apply rd_ok; lia|]. intros f Hf.
  apply wp_bind. eapply wp_mono; [apply rd_ok; lia|]. intros a Ha. apply wp_ok. unfold is_byte in *.
  destruct (_ || _) eqn:B; [done|]. rewrite !orb_false_iff in B. zbool. unfold wf_type. cbn. lia.
Qed.

Lemma rd_byte_ok q k j :
  0 <= q → q + k <= length buf → 0 <= j < k →
  wp (rd_byte buf q j) (λ x, match x with Some b => is_byte b | None => True end).
Proof using Hb.
  intros. unfold rd_byte. apply wp_bind. eapply wp_mono; [apply rd_ok; lia|]. intros b Hbb. by apply wp_ok.
Qed.

Lemma increasing_sorted l : increasing l = true → StronglySorted Z.lt l.
Proof.
  induction l as [|a l IH]; intros H; [constructor|]. destruct l as [|b l]; [repeat constructor|].
  cbn [increasing] in H. destruct (Z.leb_spec b a); [done|]. specialize (IH H).
  constructor; [done|]. constructor; [lia|]. apply StronglySorted_inv in IH as [_ IH].
  eapply Forall_impl; [exact IH|]. cbn. lia.
Qed.

Lemma footer_ok q pass64 : 0 <= q → wp (footer buf q pass64) (λ r, valid r = true → wf_rule r).
Proof using Hb.
  intros Hq. unfold footer. cbv zeta. destruct (negb (pass64 && (q <? length buf))) eqn:E; [by apply wp_ok|].
  rewrite negb_false_iff, andb_true_iff in E. destruct E as [_ E]. zbool.
  apply wp_bind. eapply wp_mono; [apply rd_ok; lia|]. intros c _.
  destruct (negb _); [by apply wp_ok|]. destruct (find_nl _) as [k|]; [|by apply wp_ok].
  destruct (k <? 128); [|by apply wp_ok]. destruct (upto0 _) as [|x s]; [by apply wp_ok|]. apply wp_ok.
  destruct (parse_posix _) eqn:Ep; [|done]. by apply parse_posix_wf in Ep as [? _].
Qed.

Lemma load_body_ok q (pass64 : bool) isutc isstd leap nt ny nc z :
  let tsz := if pass64 then 8 else 4 in
  0 <= q → 0 <= isutc → 0 <= isstd → 0 <= leap → 0 <= nt <= MAX_TIMES → 0 < ny <= MAX_TYPES → 0 <= nc <= MAX_ABBR →
  q + (nt * tsz + nt + ny * 6 + nc + leap * (tsz + 4) + isstd + isutc) <= length buf →
  wp (load_body buf q pass64 isutc isstd leap nt ny nc z)
     (λ x, match x with Some z' => wf_zone z' ∧ key z' = key z ∧ loaded z' = loaded z | None => True end).
Proof using Hb.
  intros tsz Hq Hu Hs Hl Ht Hy Hc Hlen. unfold load_body. fold tsz. cbv zeta.
  assert (4 <= tsz <= 8 ∧ (tsz = if pass64 then 8 else 4)) as [Hts Ets] by (unfold tsz; by destruct pass64).
  assert (0 <= leap * (tsz + 4)) by nia.
  apply wp_bind. eapply wp_mono.
  { apply (table_ok (λ _, True)). intros j Hj. apply (rd_time_ok q pass64 nt); [lia | rewrite <- Ets; lia | lia]. }
  intros ts Hts'. apply wp_bind. eapply wp_mono.
  { apply (table_ok (λ b, 0 <= b < ny)). intros j Hj. apply (rd_idx_ok _ ny nt); lia. }
  intros ix Hix. destruct ts as [ts|]; [|by apply wp_ok]. destruct ix as [ix|]; [|by apply wp_ok].
  apply wp_bind. eapply wp_mono.
  { apply (table_ok (wf_type nc)). intros j Hj. apply (rd_type_ok _ nc ny); lia. }
  intros [ty|] Hty; [|by apply wp_ok]. apply wp_bind. eapply wp_mono.
  { apply (table_ok is_byte). intros j Hj. apply (rd_byte_ok _ nc); lia. }
  intros [ab|] Hab; [|by apply wp_ok]. destruct (increasing ts) eqn:Hinc; cbn [negb]; [|by apply wp_ok].
  apply wp_bind. eapply wp_mono; [apply footer_ok; lia|]. intros r Hr. apply wp_ok. split; [|done].
  destruct Hts' as [E1 _], Hix as [E2 F2], Hty as [E3 F3], Hab as [E4 _].
  assert (Z.of_nat (length ty) = ny) as E3' by lia.
  split; cbn; unfold ntimes, ntypes; cbn; [by apply increasing_sorted | lia | | | done |].
  - rewrite E3'. split; [lia | done].
  - intros _. exists ab. replace (Z.of_nat (length ab)) with nc by lia. split_and!; [done | done | lia].
  - intros ->. simpl in E3'. lia.
Qed.
End File.

(** A zone is loaded whole and well formed, or not at all. *)
Definition loads (z : zone) (x : option zone) : Prop :=
  match x with Some z' => wf_zone z' ∧ key z' = key z ∧ loaded z' = loaded z | None => True end.

Lemma load_turn_ok buf z p (pass64 : bool) :
  Forall is_byte buf → 44 <= length buf → 0 <= p <= length buf →
  wp (load_turn buf z (p, pass64)) (λ c, match c with
    | Cont (p', pass') => 0 <= p' <= length buf ∧ pass64 = false ∧ pass' = true
    | Brk x => loads z x end).
Proof.
  intros Hb Hlen Hp. unfold load_turn. cbv zeta. destruct (Z.ltb_spec (length buf - p) 44); [by apply wp_ok|].
  apply wp_bind. eapply wp_mono; [apply rd_ok; [done | lia]|]. intros version _.
  apply wp_bind. unfold counts.
  apply wp_bind; eapply wp_mono; [apply be32_ok; [done | lia..]|]; intros isutc Hu.
  apply wp_bind; eapply wp_mono; [apply be32_ok; [done | lia..]|]; intros isstd Hs.
  apply wp_bind; eapply wp_mono; [apply be32_ok; [done | lia..]|]; intros leap Hl.
  apply wp_bind; eapply wp_mono; [apply be32_ok; [done | lia..]|]; intros nt Ht.
  apply wp_bind; eapply wp_mono; [apply be32_ok; [done | lia..]|]; intros ny Hy.
  apply wp_bind; eapply wp_mono; [apply be32_ok; [done | lia..]|]; intros nc Hc.
  apply wp_ok. cbv beta iota in *. set (tsz := if pass64 then 8 else 4).
  assert (0 <= nt * tsz <= 8 * nt ∧ 0 <= leap * (tsz + 4) <= 12 * leap) as [Hm1 Hm2]
    by (unfold tsz; destruct pass64; lia).
  rewrite (uwrap_small 64) by lia.
  set (body := nt * tsz + nt + ny * 6 + nc + leap * (tsz + 4) + isstd + isutc).
  destruct (_ || _ || _ || _ || _ || _ || _ || _) eqn:B; [by apply wp_ok|]. rewrite !orb_false_iff in B. zbool.
  assert (0 <= body) by (unfold body; lia).
  destruct (_ && _) eqn:V.
  - apply wp_ok. apply andb_true_iff in V as [_ V]. apply negb_true_iff in V. split; [lia | done].
  - apply wp_bind. eapply wp_mono.
    { apply load_body_ok; [done | lia | lia | lia | lia | lia | lia | lia | fold tsz; fold body; lia]. }
    intros x Hx. by apply wp_ok.
Qed.

Lemma load_tzif_ok f mem z :
  (∀ f', f = Some f' → Forall is_byte (data f')) → wp (load_tzif f mem z) (loads z).
Proof.
  intros Hb. unfold load_tzif. destruct f as [f|]; [|by apply wp_ok]. cbv zeta.
  destruct (negb (regular f) || _ || _) eqn:B; [by apply wp_ok|]. destruct (negb mem); [by apply wp_ok|].
  set (buf := take (Z.to_nat (st_size f)) (data f)).
  destruct (negb (length buf =? st_size f) || _) eqn:L; [by apply wp_ok|].
  rewrite !orb_false_iff in B, L. rewrite negb_false_iff in L. zbool.
  assert (Forall is_byte buf) as Hbuf by (apply Forall_take; auto).
  apply (wp_loop (λ s : Z * bool, 0 <= s.1 <= length buf) (λ s : Z * bool, if s.2 then 0%nat else 1%nat)).
  - intros [p pass64] Hp. eapply wp_mono; [apply load_turn_ok; [done | lia | done]|].
    intros [[p' pass']|x]; [|done]. intros (H1 & -> & ->). cbn. split; [done | lia].
  - cbn. lia.
  - cbn. lia.
Qed.

(** ** tzset and the lookup *)

Lemma set_utc_wf z : wf_zone (set_utc z).
Proof.
  split; cbn; [constructor | done | done | done | | done]. intros _. split; cbn; [lia | lia | done].
Qed.

Definition files_ok (h : host) : Prop := ∀ p f, fs h p = Some f → Forall is_byte (data f).

Lemma load_zone_ok h z :
  files_ok h → wp (load_zone h z) (λ z', wf_zone z' ∧ key z' = key z ∧ loaded z' = loaded z).
Proof.
  intros Hh.
  assert (∀ x, loads z x → wf_zone (default (set_utc z) x) ∧ key (default (set_utc z) x) = key z ∧
    loaded (default (set_utc z) x) = loaded z) as Hdef.
  { intros [z'|] Hx; [exact Hx|]. split; [apply set_utc_wf | done]. }
  assert (∀ p, wp (load_tzif (fs h p) (mem h) z) (loads z)) as Hload.
  { intros p. apply load_tzif_ok. apply Hh. }
  assert (∀ r, wf_rule r → valid r = true → wf_zone (Zone (key z) (loaded z) [] [] [] (abbr z) r)) as Hrule.
  { intros r Hr Hv. split; cbn; [constructor | done | done | done | done | done]. }
  unfold load_zone. set (posix := match TZ h with Some (c :: s) => _ | _ => None end).
  assert (∀ r, posix = Some r → wf_rule r ∧ valid r = true) as Hp.
  { intros r. unfold posix. destruct (TZ h) as [[|c s]|]; [done | | done]. destruct (_ =? _); [done|]. apply parse_posix_wf. }
  assert (∀ tz : option (list Z), ∀ name, wp (z' ← (if bool_decide (is_Some tz) && negb (safe_name (secure h) name) then Ok None
            else if cur name =? 47 then load_tzif (fs h name) (mem h) z
            else if length name + (length ZONEINFO + 1) <=? PATH_MAX then load_tzif (fs h (ZONEINFO ++ name)) (mem h) z
            else Ok None); Ok (default (set_utc z) z'))
     (λ z', wf_zone z' ∧ key z' = key z ∧ loaded z' = loaded z)) as Hrest.
  { intros tz name. apply wp_bind. eapply (wp_mono _ (loads z)); [|intros x Hx; apply wp_ok; auto].
    destruct (_ && _); [by apply wp_ok|]. destruct (_ =? _); [auto|]. destruct (_ <=? _); [auto | by apply wp_ok]. }
  clearbody posix. destruct (TZ h) as [[|c s]|], posix as [r|]; try apply wp_ok; try apply Hrest;
    try (split; [apply set_utc_wf | done]); (destruct (Hp r eq_refl); split; [by apply Hrule | done]).
Qed.

Lemma cstr_at_ok s : wp (cstr_at (s ++ [0])) (λ _, True).
Proof.
  induction s as [|c s IH]; cbn [cstr_at app]; [by apply wp_ok|]. destruct (c =? 0); [by apply wp_ok|].
  apply wp_bind. eapply wp_mono; [exact IH|]. intros. by apply wp_ok.
Qed.

(** The name is a terminated string in the zone's data. *)
Definition name_ok (z : zone) (x : tzn) : Prop := wp (name_str z x) (λ _, True).

Lemma abbr_ok z t : wf_zone z → t ∈ types z → 0 <= t_abbr t ∧ name_ok z (NAbbr (t_abbr t)).
Proof.
  intros Hz Ht. destruct (wz_types z Hz) as (chars & Ea & Hty & _); [by intros E; rewrite E in Ht; apply not_elem_of_nil in Ht|].
  rewrite Forall_forall in Hty. destruct (Hty t Ht) as (_ & _ & Hi). split; [lia|].
  unfold name_ok, name_str. rewrite Ea, drop_app_le by lia. apply cstr_at_ok.
Qed.

Lemma type_at_ok z k : 0 <= k < ntypes z → wp (type_at z k) (λ t, types z !! Z.to_nat k = Some t ∧ t ∈ types z).
Proof.
  unfold ntypes, type_at. intros Hk. destruct (lookup_lt_is_Some_2 (types z) (Z.to_nat k)) as [t E]; [lia|].
  rewrite E. apply wp_ok. split; [done|]. by eapply list_elem_of_lookup_2.
Qed.

Lemma trans_type_ok z i :
  wf_zone z → 0 <= i < ntimes z →
  wp (trans_type z i) (λ t, (∃ k, idx z !! Z.to_nat i = Some k ∧ types z !! Z.to_nat k = Some t) ∧ t ∈ types z).
Proof.
  intros Hz Hi. unfold trans_type, ntimes in *. destruct (Z.ltb_spec i 0); [lia|].
  destruct (wz_idx z Hz) as [El Hix]. destruct (lookup_lt_is_Some_2 (idx z) (Z.to_nat i)) as [k Ek]; [lia|].
  rewrite Ek. eapply wp_mono; [apply type_at_ok; by eapply Forall_lookup_1 in Hix|].
  cbn. intros t [E Ht]. eauto.
Qed.

(** *** The globals *)

(** The types in transition order, the first type before them. *)
Definition visited (z : zone) : list type :=
  take 1 (types z) ++ omap (λ k, types z !! Z.to_nat k) (idx z).

Definition last_type (t0 : type) (P : type → Prop) `{!∀ t, Decision (P t)} (l : list type) : type :=
  default t0 (last (filter P l)).

Abbreviation is_std := (λ t, t_isdst t = 0).
Abbreviation is_dst := (λ t, t_isdst t ≠ 0).

(** The most recent names win, and any DST type sets daylight. *)
Definition globals_spec (z : zone) (st : tzstate) : Prop :=
  match types z with
  | t0 :: _ =>
      let s := last_type t0 is_std (visited z) in
      tzname0 st = NAbbr (t_abbr s) ∧ timezone st = - t_off s ∧
      (if decide (Exists is_dst (visited z))
       then daylight st = 1 ∧ tzname1 st = NAbbr (t_abbr (last_type t0 is_dst (visited z)))
       else daylight st = 0 ∧ tzname1 st = tzname0 st)
  | [] =>
      tzname0 st = NStd ∧ timezone st = - std_off (rule z) ∧ daylight st = b2z (has_dst (rule z)) ∧
      tzname1 st = if has_dst (rule z) then NDst else NStd
  end.

Definition name_step (z : zone) (st : tzstate) (t : type) : tzstate :=
  if negb (t_isdst t =? 0) then TzState z (tzname0 st) (NAbbr (t_abbr t)) (timezone st) 1
  else TzState z (NAbbr (t_abbr t)) (tzname1 st) (- t_off t) (daylight st).

Lemma fold_names z l tys st :
  Forall2 (λ i t, trans_type z i = Ok t) l tys →
  foldl (λ acc i, st ← acc; set_names z st i) (Ok st) l = Ok (foldl (name_step z) st tys).
Proof.
  intros H. revert st. induction H as [|i t l tys E _ IH]; intros st; [done|]. cbn [foldl].
  rewrite <- IH. f_equal. cbn [mbind res_bind]. unfold set_names. by rewrite E.
Qed.

Lemma name_steps z t0 tys :
  let st := foldl (name_step z) (TzState z (NAbbr (t_abbr t0)) (NAbbr (t_abbr t0)) (- t_off t0) 0) tys in
  tzname0 st = NAbbr (t_abbr (last_type t0 is_std tys)) ∧ timezone st = - t_off (last_type t0 is_std tys) ∧
  tzname1 st = NAbbr (t_abbr (last_type t0 is_dst tys)) ∧ Zst st = z ∧
  daylight st = if decide (Exists is_dst tys) then 1 else 0.
Proof.
  induction tys as [|t tys IH] using rev_ind; cbv zeta in *; [by destruct (decide _) as [H%Exists_nil|]|].
  rewrite foldl_snoc. set (st := foldl (name_step z) _ tys) in *. clearbody st.
  destruct IH as (H1 & H2 & H3 & H4 & H5). unfold name_step, last_type in *.
  rewrite !filter_app, !filter_cons, !filter_nil.
  destruct (Z.eqb_spec (t_isdst t) 0) as [E|E]; cbn [negb tzname0 tzname1 timezone Zst daylight].
  - rewrite (decide_True (P := t_isdst t = 0)), (decide_False (P := t_isdst t ≠ 0)) by tauto.
    rewrite last_snoc, app_nil_r. split_and!; try done. rewrite H5.
    destruct (decide (Exists _ tys)) as [D|D], (decide (Exists _ (tys ++ _))) as [D'|D']; try done; exfalso.
    + apply D', Exists_app. by left.
    + apply Exists_app in D' as [|D']; [done|]. apply Exists_cons in D' as [|D'%Exists_nil]; done.
  - rewrite (decide_False (P := t_isdst t = 0)), (decide_True (P := t_isdst t ≠ 0)) by tauto.
    rewrite last_snoc, app_nil_r. split_and!; try done.
    destruct (decide (Exists is_dst (tys ++ [t]))) as [D|D]; [done|]. exfalso. apply D, Exists_app. right. by constructor.
Qed.

Lemma trans_idx z j l :
  Forall (λ k, 0 <= k < ntypes z) (idx z) → drop j (idx z) = l →
  Forall2 (λ i t, trans_type z i = Ok t) (seqZ j (length l)) (omap (λ k, types z !! Z.to_nat k) l).
Proof.
  intros Hix. revert j. induction l as [|k l IH]; intros j Hl; [constructor|].
  assert (idx z !! j = Some k) as Hk.
  { rewrite <- (Nat.add_0_r j), <- lookup_drop, Hl. done. }
  rewrite seqZ_cons by (simpl; lia). replace (Z.pred (length (k :: l))) with (Z.of_nat (length l)) by (simpl; lia).
  destruct (type_at_ok z k) as (t & Et & Hl' & _); [by eapply Forall_lookup_1 in Hix|]. cbn [omap list_omap].
  rewrite Hl'. constructor.
  - unfold trans_type. destruct (Z.ltb_spec j 0); [lia|]. by rewrite Nat2Z.id, Hk.
  - replace (Z.succ j) with (Z.of_nat (S j)) by lia. apply IH. rewrite <- Nat.add_1_r, <- drop_drop, Hl. done.
Qed.

Lemma trans_visited z :
  wf_zone z → types z ≠ [] → Forall2 (λ i t, trans_type z i = Ok t) (seqZ (-1) (ntimes z + 1)) (visited z).
Proof.
  intros Hz Hne. unfold visited. rewrite seqZ_cons by (unfold ntimes; lia).
  destruct (type_at_ok z 0) as (t & Et & Hl & _).
  { unfold ntypes. destruct (types z); simpl; [done | lia]. }
  destruct (types z) as [|t0 rest] eqn:E; [done|]. injection Hl as ->. cbn [take app]. rewrite <- E. constructor; [done|].
  change (Z.succ (-1)) with (Z.of_nat 0). replace (Z.pred (ntimes z + 1)) with (Z.of_nat (length (idx z))).
  - apply trans_idx; [apply (wz_idx z Hz) | done].
  - destruct (wz_idx z Hz) as [-> _]. unfold ntimes. lia.
Qed.

(** Pointers to names that the zone holds. *)
Definition names_ok (st : tzstate) : Prop := name_ok (Zst st) (tzname0 st) ∧ name_ok (Zst st) (tzname1 st).

Lemma last_type_in t0 (P : type → Prop) `{!∀ t, Decision (P t)} l : last_type t0 P l ∈ t0 :: l.
Proof.
  unfold last_type. destruct (last (filter P l)) as [t|] eqn:E; cbn; [|by left].
  right. apply last_Some_elem_of, list_elem_of_filter in E. tauto.
Qed.

Lemma visited_in z t : t ∈ visited z → t ∈ types z.
Proof.
  unfold visited. rewrite elem_of_app. intros [H|H].
  - destruct (types z); cbn in H; [done|]. apply list_elem_of_singleton in H as ->. by left.
  - apply list_elem_of_omap in H as (k & _ & H). by eapply list_elem_of_lookup_2.
Qed.

Lemma globals_ok z st :
  wf_zone z → wp (globals z st) (λ st', Zst st' = z ∧ globals_spec z st' ∧ names_ok st').
Proof.
  intros Hz. unfold globals, globals_spec. destruct (types z) as [|t0 rest] eqn:Et.
  { destruct (wz_some z Hz Et) as [_ ->]. apply wp_ok. cbn. split_and!; try done. split; cbn; [by apply wp_ok|].
    destruct (has_dst _); by apply wp_ok. }
  rewrite (fold_names z _ (visited z)) by (apply trans_visited; [done | by rewrite Et]). cbn [mbind res_bind]. apply wp_ok.
  destruct (name_steps z t0 (visited z)) as (H1 & H2 & H3 & H4 & H5).
  set (st' := foldl (name_step z) _ (visited z)) in *. clearbody st'.
  assert (∀ P (D : ∀ t, Decision (P t)), name_ok z (NAbbr (t_abbr (last_type t0 P (visited z))))) as Hn.
  { intros P D. apply abbr_ok; [done|]. pose proof (last_type_in t0 P (visited z)) as H.
    apply elem_of_cons in H as [->|H]; [rewrite Et; by left | by apply visited_in]. }
  cbv zeta. rewrite H5. destruct (decide (Exists _ _)).
  - change (1 =? 0) with false. cbv iota. split; [done|]. rewrite H1, H2, H3. split; [done|]. split; rewrite H4, ?H1, ?H3; apply Hn.
  - change (0 =? 0) with true. cbv iota. cbn. rewrite H1, H2. split; [done|]. split; [done|]. split; cbn; rewrite ?H1; apply Hn.
Qed.

(** *** The lookup *)

(** The first type that is not DST; the first type when all are. *)
Definition initial_type (ty : list type) (t : type) : Prop :=
  (∃ i, ty !! i = Some t ∧ is_std t ∧ ∀ j u, (j < i)%nat → ty !! j = Some u → is_dst u) ∨
  (Forall is_dst ty ∧ head ty = Some t).

Lemma first_std_ok ty : ty ≠ [] → wp (first_std ty) (λ t, t ∈ ty ∧ initial_type ty t).
Proof.
  intros Hne. unfold first_std, initial_type. destruct (list_find _ ty) as [[i t]|] eqn:E.
  - apply list_find_Some in E as (E & Hs & Hj). apply wp_ok. split; [by eapply list_elem_of_lookup_2|].
    left. exists i. split; [done|]. split; [done|]. intros j u Hji Hu. by apply (Hj j u).
  - apply list_find_None in E. destruct ty as [|t ty]; [done|]. apply wp_ok. split; [by left|]. by right.
Qed.

Definition entry (t : type) : Z * Z * tzn := (t_off t, t_isdst t, NAbbr (t_abbr t)).

(** The type in effect by the table: the initial one before the first
    transition, else that of the last transition not after [t]. *)
Definition table_type (z : zone) (t : Z) (ty : type) : Prop :=
  (Forall (λ x, t < x) (times z) ∧ initial_type (types z) ty) ∨
  (∃ i x k, times z !! i = Some x ∧ x <= t ∧ (∀ j y, (i < j)%nat → times z !! j = Some y → t < y) ∧
     idx z !! i = Some k ∧ types z !! Z.to_nat k = Some ty).

(** The table up to its last transition, the rule after it when there is
    one. *)
Definition lookup_spec (z : zone) (t : Z) (r : Z * Z * tzn) : Prop :=
  if decide (Exists (λ x, t < x) (times z) ∨ times z ≠ [] ∧ valid (rule z) = false)
  then ∃ ty, ty ∈ types z ∧ table_type z t ty ∧ r = entry ty
  else if valid (rule z) then rule_spec (rule z) t r
  else ∃ ty, head (types z) = Some ty ∧ r = entry ty.

Lemma time_at_ok z i :
  0 <= i < ntimes z → ∃ x, times z !! Z.to_nat i = Some x ∧ time_at z i = Ok x.
Proof.
  unfold ntimes, time_at. intros Hi. destruct (lookup_lt_is_Some_2 (times z) (Z.to_nat i)) as [x E]; [lia|].
  exists x. by rewrite E.
Qed.

Lemma sorted_lookup (l : list Z) i j x y :
  StronglySorted Z.lt l → (i < j)%nat → l !! i = Some x → l !! j = Some y → x < y.
Proof.
  intros Hs Hij Hi Hj. rewrite <- (take_drop_middle l i x Hi) in Hs.
  apply StronglySorted_app in Hs as (_ & _ & Hs). apply StronglySorted_cons in Hs as [Hs _].
  rewrite Forall_forall in Hs. apply Hs. apply (list_elem_of_lookup_2 _ (j - S i)%nat).
  rewrite lookup_drop. rewrite <- Hj. f_equal. lia.
Qed.

Lemma times_lt z i j x y :
  wf_zone z → (i < j)%nat → times z !! i = Some x → times z !! j = Some y → x < y.
Proof. intros Hz. apply sorted_lookup, (wz_times z Hz). Qed.

Lemma last_trans_ok z t x0 :
  wf_zone z → times z !! 0%nat = Some x0 → x0 <= t →
  wp (last_trans z t) (λ i, 0 <= i < ntimes z ∧
    (∃ x, times z !! Z.to_nat i = Some x ∧ x <= t) ∧ ∀ j y, (Z.to_nat i < j)%nat → times z !! j = Some y → t < y).
Proof.
  intros Hz H0 Ht. unfold last_trans.
  assert (0 < ntimes z) as Hn by (apply lookup_lt_Some in H0; unfold ntimes; lia).
  apply (wp_loop (λ s : Z * Z, 0 <= s.1 <= s.2 ∧ s.2 < ntimes z ∧ (∃ x, times z !! Z.to_nat s.1 = Some x ∧ x <= t) ∧
           ∀ j y, (Z.to_nat s.2 < j)%nat → times z !! j = Some y → t < y) (λ s, Z.to_nat (s.2 - s.1))).
  - intros [lo hi]; cbn [fst snd]. intros (Hlh & Hhi & Hlo & Habove). destruct (Z.ltb_spec lo hi).
    + cbv zeta. set (mid := (lo + hi + 1) / 2). assert (lo < mid <= hi) as Hm by (unfold mid; zdiv).
      destruct (time_at_ok z mid) as (x & Ex & ->); [lia|]. cbn [mbind res_bind]. apply wp_ok.
      destruct (Z.leb_spec x t); cbn [fst snd]; split; try lia; split_and!; try lia; try done; eauto.
      intros j y Hj Hy. destruct (decide (j = Z.to_nat mid)) as [->|]; [naive_solver lia|].
      pose proof (times_lt z (Z.to_nat mid) j x y Hz ltac:(lia) Ex Hy). lia.
    + apply wp_ok. replace hi with lo in * by lia. split_and!; try lia; done.
  - cbn. split_and!; try lia; eauto. intros j y Hj Hy. apply lookup_lt_Some in Hy. unfold ntimes in Hj. lia.
  - cbn. unfold ntimes. lia.
Qed.

Lemma forall_times z t x0 :
  wf_zone z → times z !! 0%nat = Some x0 → t < x0 → Forall (λ x, t < x) (times z).
Proof.
  intros Hz H0 Ht. apply Forall_lookup. intros [|i] x Hi; [naive_solver|].
  pose proof (times_lt z 0 (S i) x0 x Hz ltac:(lia) H0 Hi). lia.
Qed.

Lemma exists_times z t x :
  wf_zone z → times z !! Z.to_nat (ntimes z - 1) = Some x → Exists (λ x, t < x) (times z) ↔ t < x.
Proof.
  intros Hz Hx. split.
  - intros (y & Hy & Hty)%Exists_exists. apply list_elem_of_lookup in Hy as [i Hi].
    destruct (decide (i = Z.to_nat (ntimes z - 1))) as [->|]; [naive_solver lia|].
    assert (i < length (times z))%nat by by eapply lookup_lt_Some.
    pose proof (times_lt z i (Z.to_nat (ntimes z - 1)) y x Hz ltac:(unfold ntimes in *; lia) Hi Hx). lia.
  - intros Ht. apply Exists_exists. exists x. split; [by eapply list_elem_of_lookup_2 | done].
Qed.

Lemma lookup_zone_ok z t : wf_zone z → wp (lookup_zone z t) (lookup_spec z t).
Proof.
  intros Hz. unfold lookup_zone, lookup_spec.
  destruct (Z.eqb_spec (ntimes z) 0) as [E0|E0].
  { assert (times z = []) as Et by (apply length_zero_iff_nil; unfold ntimes in E0; lia). cbn [mbind res_bind negb andb].
    destruct (decide _) as [D|_]; [by rewrite Et in D; destruct D as [H%Exists_nil|[? _]]|].
    destruct (valid (rule z)) eqn:Ev; [by apply rule_lookup_ok, (wz_rule z Hz)|].
    destruct (types z) as [|t0 ty] eqn:Ety; [by destruct (wz_some z Hz Ety) as [_ H]; rewrite Ev in H|].
    apply wp_ok. by exists t0. }
  assert (0 < ntimes z) as Hn by (unfold ntimes in *; lia).
  destruct (time_at_ok z (ntimes z - 1)) as (xl & Exl & ->); [lia|]. cbn [mbind res_bind negb andb].
  pose proof (exists_times z t xl Hz Exl) as Hex.
  assert (times z ≠ []) as Hne by (intros E; unfold ntimes in Hn; rewrite E in Hn; simpl in Hn; lia).
  destruct ((t <? xl) || negb (valid (rule z))) eqn:B.
  - destruct (decide _) as [_|D].
    2:{ exfalso. apply D. apply orb_true_iff in B as [B|B]; [left; apply Hex; by apply Z.ltb_lt | right; by apply negb_true_iff in B]. }
    destruct (time_at_ok z 0) as (x0 & E0x & ->); [lia|]. cbn [mbind res_bind].
    assert (types z ≠ []) as Hty by (intros E; by destruct (wz_some z Hz E)).
    apply wp_bind. destruct (Z.ltb_spec t x0).
    + eapply wp_mono; [by apply first_std_ok|]. intros ty [Hin Hi]. apply wp_ok. exists ty. split; [done|]. split; [|done].
      left. split; [by eapply forall_times | done].
    + apply wp_bind. eapply wp_mono; [by apply (last_trans_ok z t x0)|]. intros i (Hi & (x & Ex & Hxt) & Hab).
      eapply wp_mono; [by apply trans_type_ok|]. cbn. intros ty [(k & Ek & Ety) Hin]. apply wp_ok.
      exists ty. split; [done|]. split; [|done]. right. by exists (Z.to_nat i), x, k.
  - apply orb_false_iff in B as [B1 B2]. rewrite negb_false_iff in B2. zbool.
    destruct (decide _) as [D|_]; [rewrite Hex in D; destruct D as [?|[_ ?]]; [lia | congruence]|]. rewrite B2.
    by apply rule_lookup_ok, (wz_rule z Hz).
Qed.

(** ** Writing rules *)

(** Decimal digits of a number below 1000. *)
Definition dec3 (v : Z) : list Z :=
  if v <? 10 then [48 + v] else if v <? 100 then [48 + v / 10; 48 + v mod 10]
  else [48 + v / 100; 48 + v / 10 mod 10; 48 + v mod 10].

Definition print_hms (v : Z) : list Z :=
  (if v <? 0 then [45] else []) ++ dec3 (Z.abs v / 3600) ++ [58] ++ dec3 (Z.abs v / 60 mod 60) ++ [58] ++ dec3 (Z.abs v mod 60).

Definition print_name (s : list Z) : list Z :=
  if forallb (λ c, is_alpha (s8 c)) s then s else [60] ++ s ++ [62].

Definition print_date (r : rule_date) : list Z :=
  (if d_kind r =? 74 then [74] ++ dec3 (d_n r) else if d_kind r =? 68 then dec3 (d_n r)
   else [77] ++ dec3 (d_m r) ++ [46] ++ dec3 (d_w r) ++ [46] ++ dec3 (d_d r)) ++ [47] ++ print_hms (d_secs r).

Definition print_rule (r : posix_rule) : list Z :=
  print_name (std r) ++ print_hms (- std_off r) ++
  (if has_dst r then print_name (dst r) ++ print_hms (- dst_off r) ++ [44] ++ print_date (start r) ++ [44] ++ print_date (end_ r)
   else []).

(** A name that a TZ string can carry, and a date or a rule with nothing
    in the fields that its kind does not use. *)
Definition name_chars (s : list Z) : Prop := 3 <= length s <= 15 ∧ Forall (λ c, 0 < c < 128 ∧ c ≠ 62) s.

Definition plain_date (r : rule_date) : Prop :=
  wf_date r ∧ (d_kind r = 77 → d_n r = 0) ∧ (d_kind r ≠ 77 → d_m r = 0 ∧ d_w r = 0 ∧ d_d r = 0).

Definition plain_rule (r : posix_rule) : Prop :=
  valid r = true ∧ name_chars (std r) ∧ - 86400 <= std_off r <= 86400 ∧
  if has_dst r then name_chars (dst r) ∧ - 86400 <= dst_off r <= 86400 ∧ plain_date (start r) ∧ plain_date (end_ r)
  else dst r = [] ∧ dst_off r = 0 ∧ start r = zero_date ∧ end_ r = zero_date.

Lemma s8_id c : 0 <= c < 128 → s8 c = c.
Proof. intros. apply swrap_small; lia. Qed.

Lemma is_dig_digit k : 0 <= k <= 9 → is_dig (s8 (48 + k)) = true.
Proof. intros. rewrite s8_id by lia. apply is_dig_spec; lia. Qed.

Lemma dec3_step bound v k s :
  0 <= k <= 9 → v < bound → digits bound v ((48 + k) :: s) = digits bound (v * 10 + k) s.
Proof.
  intros Hk Hv. cbn [digits]. rewrite is_dig_digit by done. destruct (Z.ltb_spec v bound); [|lia].
  cbn [andb]. rewrite s8_id by lia. f_equal. lia.
Qed.

Lemma digits_stop bound v s : is_dig (cur s) = false → digits bound v s = (v, s).
Proof. destruct s as [|c s]; [done|]. cbn. by intros ->. Qed.

Lemma field_dec3 bound v rest :
  0 <= v < 1000 → v < 10 * bound → 0 < bound → is_dig (cur rest) = false →
  field bound (dec3 v ++ rest) = Some (v, rest).
Proof.
  intros Hv Hb Hb0 Hr. unfold field, dec3. destruct (Z.ltb_spec v 10); [|destruct (Z.ltb_spec v 100)]; cbn [app cur];
    rewrite is_dig_digit by zdiv; cbn [negb]; f_equal; repeat (rewrite dec3_step by zdiv); rewrite digits_stop by done; f_equal; zdiv.
Qed.

Lemma dec3_cur v rest : 0 <= v < 1000 → 48 <= cur (dec3 v ++ rest) <= 57.
Proof.
  intros Hv. unfold dec3. destruct (Z.ltb_spec v 10); [|destruct (Z.ltb_spec v 100)]; cbn [app cur]; rewrite s8_id by zdiv; zdiv.
Qed.

Lemma parse_num_print lo hi v rest :
  0 <= lo → lo <= v <= hi → hi < 999 → is_dig (cur rest) = false → parse_num lo hi (dec3 v ++ rest) = Some (v, rest).
Proof.
  intros. unfold parse_num. rewrite field_dec3 by (lia || done). cbn.
  destruct (Z.ltb_spec v lo); [lia|]. by destruct (Z.ltb_spec hi v); [lia|].
Qed.

Lemma parse_hms_print v rest :
  - MAX_SECS <= v <= MAX_SECS → is_dig (cur rest) = false → cur rest ≠ 58 →
  parse_hms (print_hms v ++ rest) = Some (v, rest).
Proof.
  intros Hv Hr Hc. unfold MAX_SECS in Hv. unfold parse_hms, print_hms. rewrite <- !app_assoc.
  set (h := Z.abs v / 3600). set (mi := Z.abs v / 60 mod 60). set (sec := Z.abs v mod 60).
  assert (0 <= h <= 167 ∧ 0 <= mi <= 59 ∧ 0 <= sec <= 59 ∧ h * 3600 + mi * 60 + sec = Z.abs v) as (Hh & Hm & Hs & E)
    by (unfold h, mi, sec; zdiv).
  set (tl := dec3 h ++ _). pose proof (dec3_cur h ([58] ++ dec3 mi ++ [58] ++ dec3 sec ++ rest) ltac:(lia)) as Hcur.
  assert ((if (cur ((if v <? 0 then [45] else []) ++ tl) =? 43) || (cur ((if v <? 0 then [45] else []) ++ tl) =? 45)
     then (cur ((if v <? 0 then [45] else []) ++ tl) =? 45, tail ((if v <? 0 then [45] else []) ++ tl))
     else (false, (if v <? 0 then [45] else []) ++ tl)) = (v <? 0, tl)) as ->.
  { destruct (v <? 0); [done|]. cbn [app]. fold tl in Hcur.
    destruct (Z.eqb_spec (cur tl) 43); [lia|]. destruct (Z.eqb_spec (cur tl) 45); [lia|]. done. }
  unfold tl. rewrite field_dec3 by (done || lia). cbn [mbind option_bind app].
  change (cur (58 :: _) =? 58) with true. cbv iota. cbn [tail].
  rewrite field_dec3 by (done || lia). cbn [mbind option_bind]. change (cur (58 :: _) =? 58) with true. cbv iota. cbn [tail].
  rewrite field_dec3 by (done || lia). cbn [mbind option_bind].
  destruct (Z.ltb_spec 167 h); [lia|]. destruct (Z.ltb_spec 59 mi); [lia|]. destruct (Z.ltb_spec 59 sec); [lia|]. cbn [orb].
  rewrite E. do 2 f_equal. destruct (Z.ltb_spec v 0); lia.
Qed.

Lemma quoted_print k s rest :
  Forall (λ c, 0 < c < 128 ∧ c ≠ 62) s → k + length s <= 15 → quoted k (s ++ 62 :: rest) = Some (s, rest).
Proof.
  intros H. revert k. induction H as [|c s [Hc Hn] _ IH]; intros k Hk; cbn [quoted app]; [done|]. simpl in Hk.
  rewrite s8_id by lia. destruct (Z.eqb_spec c 62); [done|]. destruct (Z.leb_spec 16 (k + 1)); [lia|].
  rewrite IH by lia. done.
Qed.

Lemma unquoted_print k s rest :
  forallb (λ c, is_alpha (s8 c)) s = true → k + length s <= 15 → is_alpha (cur rest) = false →
  unquoted k (s ++ rest) = Some (s, rest).
Proof.
  revert k. induction s as [|c s IH]; intros k Ha Hk Hr; cbn [app].
  - destruct rest as [|c rest]; [done|]. cbn in *. by rewrite Hr.
  - cbn [unquoted]. cbn in Ha. apply andb_true_iff in Ha as [-> Ha]. simpl in Hk.
    destruct (Z.leb_spec 16 (k + 1)); [lia|]. rewrite IH by (done || lia). done.
Qed.

Lemma parse_name_print s rest :
  name_chars s → is_alpha (cur rest) = false → parse_name (print_name s ++ rest) = Some (s, rest).
Proof.
  intros [Hl Hs] Hr. unfold parse_name, print_name. destruct (forallb _ s) eqn:Ha.
  - assert ((cur (s ++ rest) =? 60) = false) as ->.
    { destruct s as [|c s]; [simpl in Hl; lia|]. cbn in *. apply andb_true_iff in Ha as [Ha _].
      destruct (Z.eqb_spec (s8 c) 60) as [E|]; [|done]. by rewrite E in Ha. }
    rewrite unquoted_print by (done || lia). cbn. by destruct (Z.ltb_spec (length s) 3); [lia|].
  - rewrite <- !app_assoc. cbn [app cur tail]. change (s8 60 =? 60) with true. cbv iota.
    rewrite quoted_print by (done || lia). cbn. by destruct (Z.ltb_spec (length s) 3); [lia|].
Qed.

Lemma hms_cur v rest :
  - MAX_SECS <= v <= MAX_SECS → cur (print_hms v ++ rest) = 45 ∨ 48 <= cur (print_hms v ++ rest) <= 57.
Proof.
  unfold MAX_SECS. intros Hv. unfold print_hms. destruct (v <? 0); [by left|]. right. rewrite <- !app_assoc. apply dec3_cur. zdiv.
Qed.

Lemma hms_not_alpha v rest : - MAX_SECS <= v <= MAX_SECS → is_alpha (cur (print_hms v ++ rest)) = false.
Proof.
  intros Hv. destruct (hms_cur v rest Hv) as [->|H]; [done|]. generalize dependent (cur (print_hms v ++ rest)).
  intros c Hc. assert (∃ k : nat, c = 48 + k ∧ (k <= 9)%nat) as (k & -> & Hk) by (exists (Z.to_nat (c - 48)); lia).
  do 10 (destruct k as [|k]; [done|]). lia.
Qed.

Lemma name_cur s rest : name_chars s → let c := cur (print_name s ++ rest) in c = 60 ∨ is_alpha c = true.
Proof.
  intros [Hl Hs]. unfold print_name. destruct (forallb _ s) eqn:Ha; [|by left].
  destruct s as [|c s]; [simpl in Hl; lia|]. cbn in *. apply andb_true_iff in Ha as [Ha _]. by right.
Qed.

Lemma parse_off_print v rest :
  - 86400 <= v <= 86400 → is_dig (cur rest) = false → cur rest ≠ 58 → parse_off (print_hms v ++ rest) = Some (v, rest).
Proof.
  intros Hv Hd Hc. unfold parse_off. rewrite parse_hms_print by (done || (unfold MAX_SECS; lia)). cbn [mbind option_bind].
  destruct (Z.ltb_spec (24 * 3600) v); [lia|]. destruct (Z.ltb_spec v (-24 * 3600)); [lia|]. done.
Qed.

Lemma parse_date_print r rest :
  plain_date r → is_dig (cur rest) = false → cur rest ≠ 58 → parse_date (print_date r ++ rest) = Some (r, rest).
Proof.
  intros ([Hk Hs] & HM & HJ) Hd Hc. destruct r as [k n m w d secs]. cbn in *. unfold parse_date, print_date. cbn [d_kind d_n d_m d_w d_d d_secs].
  destruct Hk as [[-> Hn]|[[-> Hn]|(-> & Hm & Hw & Hdd)]].
  - destruct (HJ ltac:(lia)) as (-> & -> & ->). change (74 =? 74) with true. cbv iota. rewrite <- !app_assoc.
    cbn [app cur tail]. change (s8 74 =? 74) with true. cbv iota. rewrite parse_num_print by (done || lia). cbn [mbind option_bind].
    change (cur (47 :: _) =? 47) with true. cbv iota. cbn [tail]. rewrite parse_hms_print by done. done.
  - destruct (HJ ltac:(lia)) as (-> & -> & ->). change (68 =? 74) with false. change (68 =? 68) with true. cbv iota. rewrite <- !app_assoc.
    pose proof (dec3_cur n ([47] ++ print_hms secs ++ rest) ltac:(lia)) as Hcur. set (s := dec3 n ++ _) in *.
    destruct (Z.eqb_spec (cur s) 74); [lia|]. destruct (Z.eqb_spec (cur s) 77); [lia|]. unfold s.
    rewrite parse_num_print by (done || lia). cbn [mbind option_bind app].
    change (cur (47 :: _) =? 47) with true. cbv iota. cbn [tail]. rewrite parse_hms_print by done. done.
  - rewrite (HM eq_refl). change (77 =? 74) with false. change (77 =? 68) with false. cbv iota. rewrite <- !app_assoc.
    cbn [app cur tail]. change (s8 77 =? 74) with false. change (s8 77 =? 77) with true. cbv iota.
    rewrite parse_num_print by (done || lia). cbn [mbind option_bind]. unfold expect. change (cur (46 :: _) =? 46) with true. cbv iota. cbn [mbind option_bind tail].
    rewrite parse_num_print by (done || lia). cbn [mbind option_bind]. change (cur (46 :: _) =? 46) with true. cbv iota. cbn [mbind option_bind tail].
    rewrite parse_num_print by (done || lia). cbn [mbind option_bind].
    change (cur (47 :: _) =? 47) with true. cbv iota. cbn [tail]. rewrite parse_hms_print by done. done.
Qed.

Lemma name_start_neq s rest c : name_chars s → is_alpha c = false → c ≠ 60 → cur (print_name s ++ rest) ≠ c.
Proof. intros Hs Ha Hc E. destruct (name_cur s rest Hs) as [H|H]; rewrite E in H; congruence. Qed.

Lemma name_not_dig s rest : name_chars s → is_dig (cur (print_name s ++ rest)) = false.
Proof.
  intros Hs. destruct (is_dig (cur (print_name s ++ rest))) eqn:E; [|done]. exfalso.
  apply is_dig_spec in E. 2:{ destruct (print_name s ++ rest); cbn; [lia | apply s8_range]. }
  assert (∃ k : nat, cur (print_name s ++ rest) = 48 + k ∧ (k <= 9)%nat) as (k & Ek & Hk) by (exists (Z.to_nat (cur (print_name s ++ rest) - 48)); lia).
  revert Ek. apply name_start_neq; [done | | lia]. do 10 (destruct k as [|k]; [done|]). lia.
Qed.

Lemma parse_posix_print r : plain_rule r → parse_posix (print_rule r) = Some r.
Proof.
  intros (Hv & Hn & Ho & Hrest). destruct r as [v sn dn so d_off hd a b]. cbn in Hv, Hn, Ho, Hrest. subst v.
  unfold parse_posix, print_rule. cbn [std dst std_off dst_off has_dst start end_].
  assert (- MAX_SECS <= - so <= MAX_SECS) as Hso by (unfold MAX_SECS; lia).
  rewrite parse_name_print by (done || by apply hms_not_alpha). cbn [mbind option_bind].
  destruct hd.
  - destruct Hrest as (Hdn & Hdo & Ha & Hb).
    rewrite parse_off_print by (lia || by (apply name_not_dig || apply name_start_neq)). cbn [mbind option_bind]. cbv zeta.
    set (s1 := print_name dn ++ _). destruct (Z.eqb_spec (cur s1) 0) as [E|_]; [by apply name_start_neq in E|]. unfold s1.
    assert (- MAX_SECS <= - d_off <= MAX_SECS) as Hdo' by (unfold MAX_SECS; lia).
    rewrite parse_name_print by (done || by apply hms_not_alpha). cbn [mbind option_bind].
    set (tl := [44] ++ _). pose proof (hms_cur (- d_off) tl Hdo') as Hc.
    destruct (Z.eqb_spec (cur (print_hms (- d_off) ++ tl)) 0); [lia|]. destruct (Z.eqb_spec (cur (print_hms (- d_off) ++ tl)) 44); [lia|].
    cbn [negb andb]. rewrite parse_off_print by (done || lia). cbn [mbind option_bind]. unfold tl. cbn [app].
    change (cur (44 :: _) =? 44) with true. cbv iota. cbn [tail].
    rewrite parse_date_print by done. cbn [mbind option_bind]. unfold expect. change (cur (44 :: _) =? 44) with true. cbv iota.
    cbn [mbind option_bind tail]. rewrite <- (app_nil_r (print_date b)), parse_date_print by done. cbn. f_equal. f_equal; lia.
  - destruct Hrest as (-> & -> & -> & ->). rewrite parse_off_print by (done || lia). cbn. f_equal. f_equal. lia.
Qed.

(** ** Properties *)

(** What tzset maintains: once loaded, the zone is well formed and the
    globals describe it. *)
Definition tz_inv (st : tzstate) : Prop :=
  loaded (Zst st) = true → wf_zone (Zst st) ∧ globals_spec (Zst st) st ∧ names_ok st.

Lemma do_tzset_ok h st :
  files_ok h → tz_inv st → wp (do_tzset h st) (λ st', loaded (Zst st') = true ∧ tz_inv st').
Proof.
  intros Hh Hi. unfold do_tzset. cbv zeta.
  destruct (loaded (Zst st) && _) eqn:E; [apply andb_true_iff in E as [E _]; by apply wp_ok|].
  apply wp_bind. eapply wp_mono; [by apply load_zone_ok|]. intros z (Hz & _ & Hl).
  eapply wp_mono; [by apply globals_ok|]. cbv beta. intros st' (<- & Hg & Hn). split; [done|]. by intros _.
Qed.

Lemma lookup_bounds z t r :
  wf_zone z → lookup_spec z t r → name_ok z r.2 ∧ - 90000 <= r.1.1 <= 93600.
Proof.
  intros Hz Hr. assert (∀ ty, ty ∈ types z → name_ok z (entry ty).2 ∧ - 90000 <= (entry ty).1.1 <= 93600) as Hty.
  { intros ty Hin. split; [by apply abbr_ok|].
    destruct (wz_types z Hz) as (chars & _ & Hall & _); [by intros E; rewrite E in Hin; apply not_elem_of_nil in Hin|].
    rewrite Forall_forall in Hall. destruct (Hall ty Hin) as (Ho & _). cbn. lia. }
  unfold lookup_spec in Hr. destruct (decide _).
  - destruct Hr as (ty & Hin & _ & ->). auto.
  - destruct (valid (rule z)) eqn:Ev.
    + pose proof (wz_rule z Hz Ev) as Hw. pose proof (wr_off _ Hw). unfold rule_spec in Hr.
      destruct (has_dst (rule z)) eqn:Hd; [|subst r; split; [by apply wp_ok | cbn; lia]].
      destruct (wr_dst _ Hw Hd) as (_ & Ho & _). destruct Hr as (y & ds & de & _ & _ & _ & ->).
      destruct (if y <? 1970 then _ else _); (split; [by apply wp_ok | cbn; lia]).
    + destruct Hr as (ty & Hh & ->). apply Hty. destruct (types z); [done|]. injection Hh as ->. by left.
Qed.

(** C39: time zone data is loaded and used safely, whatever the value of TZ
    and the bytes of the zone file. tzset never reads outside the file, and
    leaves a well-formed zone: sorted transitions, every index, offset and
    name in range; the globals are those of the most recent types, and point
    to terminated names. The lookup then terminates within bounds and gives
    the type of the last transition not after the time (before the first one
    the first standard type), and past the table what the POSIX rule says:
    its dates taken in the year of the local standard time. The offset stays
    within 26 hours. *)
Theorem tz_lookup_spec h st t :
  files_ok h → tz_inv st →
  wp (tzset h st) (λ st', wf_zone (Zst st') ∧ globals_spec (Zst st') st' ∧ names_ok st' ∧ tz_inv st') ∧
  wp (__tz_lookup h st t) (λ '(st', r), tzset h st = Ok st' ∧ lookup_spec (Zst st') t r ∧
    name_ok (Zst st') r.2 ∧ - 90000 <= r.1.1 <= 93600).
Proof.
  intros Hh Hi. destruct (do_tzset_ok h st Hh Hi) as (st' & E & Hl & Hi'). destruct (Hi' Hl) as (Hz & Hg & Hn).
  unfold tzset, __tz_lookup. rewrite E. split; [by apply wp_ok|]. cbn [mbind res_bind]. apply wp_bind.
  eapply wp_mono; [by apply lookup_zone_ok|]. intros r Hr. apply wp_ok. split; [done|]. split; [done|].
  by apply (lookup_bounds _ t).
Qed.

(** C40: every POSIX rule can be written as a TZ string that is read back as
    the same rule, with its names, offsets and dates; with TZ set to that
    string a fresh lookup needs no file and follows the rule. *)
Theorem tz_rule_roundtrip r h st t :
  plain_rule r → TZ h = Some (print_rule r) → loaded (Zst st) = false →
  parse_posix (print_rule r) = Some r ∧
  wp (__tz_lookup h st t) (λ '(st', res), rule (Zst st') = r ∧ rule_spec r t res).
Proof.
  intros Hr HT Hl. pose proof (parse_posix_print r Hr) as Hp. split; [done|].
  assert (∃ c s, print_rule r = c :: s ∧ s8 c ≠ 58) as (c & s & Ec & Hc).
  { destruct Hr as (_ & Hn & _). pose proof (name_start_neq (std r)
      (print_hms (- std_off r) ++ (if has_dst r then print_name (dst r) ++ print_hms (- dst_off r) ++ [44] ++ print_date (start r) ++ [44] ++ print_date (end_ r) else []))
      58 Hn eq_refl ltac:(done)) as Hne. fold (print_rule r) in Hne. destruct (print_rule r) as [|c s] eqn:E.
    - discriminate Hp.
    - exists c, s. split; [done | exact Hne]. }
  unfold __tz_lookup, do_tzset. rewrite Hl. cbn [andb]. unfold load_zone. rewrite HT, Ec in *.
  destruct (Z.eqb_spec (s8 c) 58); [done|]. rewrite Hp. cbn [mbind res_bind]. unfold globals. cbn [types rule].
  apply parse_posix_wf in Hp as [Hw Hv]. rewrite Hv. cbn [mbind res_bind Zst]. apply wp_bind.
  unfold lookup_zone. cbn [ntimes times length rule types]. change (Z.of_nat 0 =? 0) with true. cbn [mbind res_bind negb andb].
  rewrite Hv. eapply wp_mono; [by apply rule_lookup_ok|]. intros res Hres. by apply wp_ok.
Qed.

(** *** Witnesses *)

(** Two transitions between standard time (-1 hour, "STD") and summer time
    (0, "DST"), as a version 1 file. *)
Definition small_tzif : list Z :=
  TZif ++ replicate 16 0 ++ [0;0;0;0; 0;0;0;0; 0;0;0;0; 0;0;0;2; 0;0;0;2; 0;0;0;8] ++
  [0;0;3;232; 0;0;7;208] ++ [1;0] ++ [255;255;241;240;0;0; 0;0;0;0;1;4] ++ lit "STD" ++ [0] ++ lit "DST" ++ [0].

Definition small_host : host :=
  Host None false (λ p, if bool_decide (p = etc_localtime) then Some (File true (length small_tzif) small_tzif) else None) true.

Definition start_state : tzstate := TzState (Zone [] false [] [] [] [] zero_rule) NUtc NUtc 0 0.

Lemma tz_lookup_spec_witness :
  (∃ st', __tz_lookup small_host start_state 1500 = Ok (st', (0, 1, NAbbr 4)) ∧ timezone st' = 3600 ∧
     lookup_spec (Zst st') 1500 (0, 1, NAbbr 4)).
Proof.
  destruct (tz_lookup_spec small_host start_state 1500) as [_ ([st' r] & E & _ & Hr & _)].
  - intros p f. cbn [fs small_host]. case_bool_decide; [|done]. injection 1 as <-.
    apply (bool_decide_eq_true_1 (Forall is_byte small_tzif)). vm_compute. reflexivity.
  - intros H. discriminate H.
  - exists st'. vm_compute in E. injection E as <- <-. split; [vm_compute; reflexivity|]. split; [reflexivity | exact Hr].
Defined.

Definition new_york : posix_rule :=
  PosixRule true (lit "EST") (lit "EDT") (-18000) (-14400) true us_start us_end.

Lemma tz_rule_roundtrip_witness :
  parse_posix (print_rule new_york) = Some new_york ∧
  wp (__tz_lookup (Host (Some (print_rule new_york)) false (λ _, None) true) start_state 1710054000)
     (λ '(_, res), res = (-14400, 1, NDst)).
Proof.
  destruct (tz_rule_roundtrip new_york (Host (Some (print_rule new_york)) false (λ _, None) true) start_state 1710054000) as [H1 H2].
  - assert (∀ s, bool_decide (3 <= length s <= 15 ∧ Forall (λ c, 0 < c < 128 ∧ c ≠ 62) s) = true → name_chars s) as Hn.
    { intros s Hs. by apply bool_decide_eq_true_1 in Hs. }
    unfold plain_rule. split; [done|]. split; [by apply Hn|]. split; [cbn; lia|]. cbn [has_dst new_york].
    split; [by apply Hn|]. split; [cbn; lia|]. unfold plain_date, wf_date, MAX_SECS. cbn. lia.
  - reflexivity.
  - reflexivity.
  - split; [exact H1|]. destruct H2 as ([st' res] & E & _). exists (st', res). split; [exact E|]. vm_compute in E. by injection E.
Defined.
