(* ===== verification/Sha2.v ===== *)
(** * SHA-256 and SHA-512 (src/src/sha2.c)

    The hash contexts of sha2.h as records: the chaining value, the number of
    bytes so far and the buffer. Data is a list of bytes. The two variants
    differ in word size, constants and block size; what they share is written
    once, over the block size and the compression function. *)
From S2P Require Import Prelude CMem.

(** ** Operations *)

Definition K256 : list Z := concat [
  [0x428a2f98; 0x71374491; 0xb5c0fbcf; 0xe9b5dba5; 0x3956c25b; 0x59f111f1; 0x923f82a4; 0xab1c5ed5];
  [0xd807aa98; 0x12835b01; 0x243185be; 0x550c7dc3; 0x72be5d74; 0x80deb1fe; 0x9bdc06a7; 0xc19bf174];
  [0xe49b69c1; 0xefbe4786; 0x0fc19dc6; 0x240ca1cc; 0x2de92c6f; 0x4a7484aa; 0x5cb0a9dc; 0x76f988da];
  [0x983e5152; 0xa831c66d; 0xb00327c8; 0xbf597fc7; 0xc6e00bf3; 0xd5a79147; 0x06ca6351; 0x14292967];
  [0x27b70a85; 0x2e1b2138; 0x4d2c6dfc; 0x53380d13; 0x650a7354; 0x766a0abb; 0x81c2c92e; 0x92722c85];
  [0xa2bfe8a1; 0xa81a664b; 0xc24b8b70; 0xc76c51a3; 0xd192e819; 0xd6990624; 0xf40e3585; 0x106aa070];
  [0x19a4c116; 0x1e376c08; 0x2748774c; 0x34b0bcb5; 0x391c0cb3; 0x4ed8aa4a; 0x5b9cca4f; 0x682e6ff3];
  [0x748f82ee; 0x78a5636f; 0x84c87814; 0x8cc70208; 0x90befffa; 0xa4506ceb; 0xbef9a3f7; 0xc67178f2]].

Definition K512 : list Z :=
  [0x428a2f98d728ae22; 0x7137449123ef65cd; 0xb5c0fbcfec4d3b2f; 0xe9b5dba58189dbbc;
   0x3956c25bf348b538; 0x59f111f1b605d019; 0x923f82a4af194f9b; 0xab1c5ed5da6d8118;
   0xd807aa98a3030242; 0x12835b0145706fbe; 0x243185be4ee4b28c; 0x550c7dc3d5ffb4e2;
   0x72be5d74f27b896f; 0x80deb1fe3b1696b1; 0x9bdc06a725c71235; 0xc19bf174cf692694;
   0xe49b69c19ef14ad2; 0xefbe4786384f25e3; 0x0fc19dc68b8cd5b5; 0x240ca1cc77ac9c65;
   0x2de92c6f592b0275; 0x4a7484aa6ea6e483; 0x5cb0a9dcbd41fbd4; 0x76f988da831153b5;
   0x983e5152ee66dfab; 0xa831c66d2db43210; 0xb00327c898fb213f; 0xbf597fc7beef0ee4;
   0xc6e00bf33da88fc2; 0xd5a79147930aa725; 0x06ca6351e003826f; 0x142929670a0e6e70;
   0x27b70a8546d22ffc; 0x2e1b21385c26c926; 0x4d2c6dfc5ac42aed; 0x53380d139d95b3df;
   0x650a73548baf63de; 0x766a0abb3c77b2a8; 0x81c2c92e47edaee6; 0x92722c851482353b;
   0xa2bfe8a14cf10364; 0xa81a664bbc423001; 0xc24b8b70d0f89791; 0xc76c51a30654be30;
   0xd192e819d6ef5218; 0xd69906245565a910; 0xf40e35855771202a; 0x106aa07032bbd1b8;
   0x19a4c116b8d2d0c8; 0x1e376c085141ab53; 0x2748774cdf8eeb99; 0x34b0bcb5e19b48a8;
   0x391c0cb3c5c95a63; 0x4ed8aa4ae3418acb; 0x5b9cca4f7763e373; 0x682e6ff3d6b2b8a3;
   0x748f82ee5defb2fc; 0x78a5636f43172f60; 0x84c87814a1f0ab72; 0x8cc702081a6439ec;
   0x90befffa23631e28; 0xa4506cebde82bde9; 0xbef9a3f7b2c67915; 0xc67178f2e372532b;
   0xca273eceea26619c; 0xd186b8c721c0c207; 0xeada7dd6cde0eb1e; 0xf57d4f7fee6ed178;
   0x06f067aa72176fba; 0x0a637dc5a2c898a6; 0x113f9804bef90dae; 0x1b710b35131c471b;
   0x28db77f523047d84; 0x32caab7b40c72493; 0x3c9ebe0a15c9bebc; 0x431d67c49c100d4c;
   0x4cc5d4becb3e42b6; 0x597f299cfc657e2a; 0x5fcb6fab3ad6faec; 0x6c44198c4a475817].

Definition ror32 (x n : Z) : Z := Z.lor (Z.shiftr x n) (u32 (Z.shiftl x (32 - n))).
Definition ror64 (x n : Z) : Z := Z.lor (Z.shiftr x n) (u64 (Z.shiftl x (64 - n))).

(** struct sha256 and struct sha512. *)
Record sha := { s_h : list Z; s_len : Z; s_buf : list Z }.

(** Big-endian word of a list of bytes: the loads of both block functions. *)
Definition be_word (l : list Z) : Z := foldl (λ a b, Z.lor (Z.shiftl a 8) b) 0 l.

(** The [i]-th word of a block of words of [k] bytes. *)
Definition word_at (k : nat) (p : list Z) (i : nat) : Z := be_word (take k (drop (k * i) p)).

(** One more word of the message schedule [w]. *)
Definition sched256 (w : list Z) : list Z :=
  let i := length w in let at_ j := w !!! (i - j)%nat in
  let s0 := Z.lxor (Z.lxor (ror32 (at_ 15%nat) 7) (ror32 (at_ 15%nat) 18)) (Z.shiftr (at_ 15%nat) 3) in
  let s1 := Z.lxor (Z.lxor (ror32 (at_ 2%nat) 17) (ror32 (at_ 2%nat) 19)) (Z.shiftr (at_ 2%nat) 10) in
  w ++ [u32 (at_ 16%nat + s0 + at_ 7%nat + s1)].
Definition sched512 (w : list Z) : list Z :=
  let i := length w in let at_ j := w !!! (i - j)%nat in
  let s0 := Z.lxor (Z.lxor (ror64 (at_ 15%nat) 1) (ror64 (at_ 15%nat) 8)) (Z.shiftr (at_ 15%nat) 7) in
  let s1 := Z.lxor (Z.lxor (ror64 (at_ 2%nat) 19) (ror64 (at_ 2%nat) 61)) (Z.shiftr (at_ 2%nat) 6) in
  w ++ [u64 (at_ 16%nat + s0 + at_ 7%nat + s1)].

(** One round on the working variables. *)
Definition round256 (v : list Z) (kw : Z * Z) : list Z :=
  match v with
  | [a; b; c; d; e; f; g; h] =>
      let t1 := u32 (h + Z.lxor (Z.lxor (ror32 e 6) (ror32 e 11)) (ror32 e 25)
                     + Z.lxor (Z.land e f) (Z.land (u32 (Z.lnot e)) g) + kw.1 + kw.2) in
      let t2 := u32 (Z.lxor (Z.lxor (ror32 a 2) (ror32 a 13)) (ror32 a 22)
                     + Z.lxor (Z.lxor (Z.land a b) (Z.land a c)) (Z.land b c)) in
      [u32 (t1 + t2); a; b; c; u32 (d + t1); e; f; g]
  | _ => v
  end.
Definition round512 (v : list Z) (kw : Z * Z) : list Z :=
  match v with
  | [a; b; c; d; e; f; g; h] =>
      let t1 := u64 (h + Z.lxor (Z.lxor (ror64 e 14) (ror64 e 18)) (ror64 e 41)
                     + Z.lxor (Z.land e f) (Z.land (u64 (Z.lnot e)) g) + kw.1 + kw.2) in
      let t2 := u64 (Z.lxor (Z.lxor (ror64 a 28) (ror64 a 34)) (ror64 a 39)
                     + Z.lxor (Z.lxor (Z.land a b) (Z.land a c)) (Z.land b c)) in
      [u64 (t1 + t2); a; b; c; u64 (d + t1); e; f; g]
  | _ => v
  end.

(** The chaining value after the block [p]. *)
Definition block256 (h p : list Z) : list Z :=
  let w := Nat.iter 48 sched256 (word_at 4 p <$> seq 0 16) in
  let v := foldl round256 h (zip K256 w) in
  zip_with (λ x y, u32 (x + y)) h v.
Definition block512 (h p : list Z) : list Z :=
  let w := Nat.iter 64 sched512 (word_at 8 p <$> seq 0 16) in
  let v := foldl round512 h (zip K512 w) in
  zip_with (λ x y, u64 (x + y)) h v.

Section Update.
(** The block size and the compression function. *)
Context (bs : nat) (block : list Z → list Z → list Z).

(** for (; n >= bs; p += bs, n -= bs) block (s, p): what is left of [p]. *)
Fixpoint full_blocks (fuel : nat) (h p : list Z) : list Z * list Z :=
  match fuel with
  | O => (h, p)
  | S f => if (bs <=? length p)%nat then full_blocks f (block h (take bs p)) (drop bs p) else (h, p)
  end.

Definition sha_update (s : sha) (p : list Z) : sha :=
  let have := Z.to_nat (s_len s mod bs) in
  let len := u64 (s_len s + length p) in
  if decide (have = 0%nat) then
    let '(h, r) := full_blocks (length p) (s_h s) p in
    {| s_h := h; s_len := len; s_buf := put_at (s_buf s) 0 r |}
  else
    let k := if (bs - have <? length p)%nat then (bs - have)%nat else length p in
    let buf := put_at (s_buf s) have (take k p) in
    if (have + k <? bs)%nat then {| s_h := s_h s; s_len := len; s_buf := buf |} else
    let '(h, r) := full_blocks (length p) (block (s_h s) buf) (drop k p) in
    {| s_h := h; s_len := len; s_buf := put_at buf 0 r |}.
End Update.

Definition __sha256_init : sha :=
  {| s_h := [0x6a09e667; 0xbb67ae85; 0x3c6ef372; 0xa54ff53a; 0x510e527f; 0x9b05688c; 0x1f83d9ab; 0x5be0cd19];
     s_len := 0; s_buf := replicate 64 0 |}.
Definition __sha256_update : sha → list Z → sha := sha_update 64 block256.

(** The bytes of the bit count, most significant first. *)
Definition be64 (bits : Z) : list Z := (λ i, u8 (Z.shiftr bits (56 - 8 * Z.of_nat i))) <$> seq 0 8.

Definition __sha256_final (s : sha) : list Z :=
  let bits := u64 (s_len s * 8) in
  let have := Z.to_nat (s_len s mod 64) in
  let padlen := ((if (have <? 56)%nat then 56 else 120) - have)%nat in
  let s := __sha256_update s (0x80 :: replicate (padlen - 1) 0 ++ be64 bits) in
  concat ((λ x, (λ j, u8 (Z.shiftr x (24 - 8 * Z.of_nat j))) <$> seq 0 4) <$> s_h s).

Definition __sha512_init : sha :=
  {| s_h := [0x6a09e667f3bcc908; 0xbb67ae8584caa73b; 0x3c6ef372fe94f82b; 0xa54ff53a5f1d36f1;
             0x510e527fade682d1; 0x9b05688c2b3e6c1f; 0x1f83d9abfb41bd6b; 0x5be0cd19137e2179];
     s_len := 0; s_buf := replicate 128 0 |}.
Definition __sha512_update : sha → list Z → sha := sha_update 128 block512.

Definition __sha512_final (s : sha) : list Z :=
  let bits := u64 (s_len s * 8) in
  let have := Z.to_nat (s_len s mod 128) in
  let padlen := ((if (have <? 112)%nat then 112 else 240) - have)%nat in
  let s := __sha512_update s (0x80 :: replicate (padlen - 1) 0 ++ replicate 8 0 ++ be64 bits) in
  concat ((λ x, (λ j, u8 (Z.shiftr x (56 - 8 * Z.of_nat j))) <$> seq 0 8) <$> s_h s).

Example sha256_abc :
  __sha256_final (__sha256_update __sha256_init [97; 98; 99]) =
  [0xba; 0x78; 0x16; 0xbf; 0x8f; 0x01; 0xcf; 0xea; 0x41; 0x41; 0x40; 0xde; 0x5d; 0xae; 0x22; 0x23;
   0xb0; 0x03; 0x61; 0xa3; 0x96; 0x17; 0x7a; 0x9c; 0xb4; 0x10; 0xff; 0x61; 0xf2; 0x00; 0x15; 0xad].
Proof. vm_compute. reflexivity. Qed.

Example sha512_abc :
  take 8 (__sha512_final (__sha512_update __sha512_init [97; 98; 99])) =
  [0xdd; 0xaf; 0x35; 0xa1; 0x93; 0x61; 0x7a; 0xba].
Proof. vm_compute. reflexivity. Qed.

(** ** The hash of a message, in one piece *)

Section Md.
Context (bs : nat) (block : list Z → list Z → list Z) (Hbs : (0 < bs)%nat).

(** The chaining value after the first [k] blocks of [l]. *)
Fixpoint fold_blocks (k : nat) (h l : list Z) : list Z :=
  match k with O => h | S k => fold_blocks k (block h (take bs l)) (drop bs l) end.

Lemma fold_blocks_app a b h l1 l2 :
  length l1 = (bs * a)%nat → fold_blocks (a + b) h (l1 ++ l2) = fold_blocks b (fold_blocks a h l1) l2.
Proof using Hbs.
  revert h l1. induction a as [|a IH]; intros h l1 Hl.
  - rewrite Nat.mul_0_r in Hl. by destruct l1.
  - cbn [Nat.add fold_blocks]. rewrite take_app_le, drop_app_le by lia. apply IH. rewrite length_drop. lia.
Qed.

Lemma fold_blocks_prefix k h l1 l2 :
  (bs * k <= length l1)%nat → fold_blocks k h (l1 ++ l2) = fold_blocks k h l1.
Proof using Hbs.
  revert h l1. induction k as [|k IH]; intros h l1 Hl; [done|]. cbn [fold_blocks].
  rewrite take_app_le, drop_app_le by lia. apply IH. rewrite length_drop. lia.
Qed.

Lemma full_blocks_ok f h p :
  (length p <= f)%nat →
  full_blocks bs block f h p = (fold_blocks (length p / bs) h p, drop (bs * (length p / bs)) p).
Proof using Hbs.
  revert h p. induction f as [|f IH]; intros h p Hp.
  - destruct p; [|simpl in Hp; lia]. cbn [full_blocks length]. rewrite Nat.Div0.div_0_l, Nat.mul_0_r. done.
  - cbn [full_blocks]. destruct (Nat.leb_spec bs (length p)) as [Hle|Hlt].
    + rewrite IH by (rewrite length_drop; lia). rewrite length_drop.
      assert (length p / bs = S ((length p - bs) / bs))%nat as ->.
      { replace (length p) with (length p - bs + 1 * bs)%nat at 1 by lia. rewrite Nat.div_add by lia. lia. }
      cbn [fold_blocks]. f_equal. rewrite drop_drop. f_equal. lia.
    + rewrite Nat.div_small, Nat.mul_0_r by done. done.
Qed.

(** The context after the message [M], from the chaining value [h0]. *)
Record absorbed (h0 : list Z) (s : sha) (M : list Z) : Prop := {
  ab_len : s_len s = Z.of_nat (length M);
  ab_h : s_h s = fold_blocks (length M / bs) h0 M;
  ab_buflen : length (s_buf s) = bs;
  ab_buf : take (length M mod bs) (s_buf s) = drop (bs * (length M / bs)) M;
}.

(** The bytes [T] in the buffer, then [d]. *)
Lemma update_core s T d :
  length (s_buf s) = bs → (length T < bs)%nat → take (length T) (s_buf s) = T → s_len s mod bs = Z.of_nat (length T) →
  let s' := sha_update bs block s d in
  s_h s' = fold_blocks (length (T ++ d) / bs) (s_h s) (T ++ d) ∧ length (s_buf s') = bs ∧
  take (length (T ++ d) mod bs) (s_buf s') = drop (bs * (length (T ++ d) / bs)) (T ++ d).
Proof using Hbs.
  intros Hbl HT HTb Hmod. unfold sha_update. cbv zeta. rewrite Hmod, Nat2Z.id.
  assert (∀ (b p : list Z), length b = bs → let r := drop (bs * (length p / bs)) p in
    length (put_at b 0 r) = bs ∧ take (length p mod bs) (put_at b 0 r) = r) as Hput.
  { intros b p Hb r. assert (length r = length p mod bs)%nat as Hr.
    { unfold r. rewrite length_drop. pose proof (Nat.div_mod_eq (length p) bs). lia. }
    pose proof (Nat.mod_upper_bound (length p) bs ltac:(lia)). rewrite put_at_length by lia. split; [done|].
    rewrite <- Hr. pose proof (put_at_take b 0 r ltac:(lia)) as E. exact E. }
  case_decide as E0.
  - destruct T; [|done]. rewrite full_blocks_ok by done. cbn [s_h s_buf app]. split; [done|]. by apply Hput.
  - set (k := if (bs - length T <? length d)%nat then (bs - length T)%nat else length d).
    assert (k = min (bs - length T) (length d)) as Ek by (unfold k; destruct (Nat.ltb_spec (bs - length T) (length d)); lia).
    clearbody k. assert (length (take k d) = k) as Hk by (rewrite length_take; lia).
    pose proof (put_at_take (s_buf s) (length T) (take k d) ltac:(lia)) as Hpt. rewrite HTb, Hk in Hpt.
    pose proof (put_at_length (s_buf s) (length T) (take k d) ltac:(lia)) as Hpl. rewrite Hbl in Hpl.
    set (buf := put_at (s_buf s) (length T) (take k d)) in *.
    destruct (Nat.ltb_spec (length T + k) bs) as [Hlt|Hge]; cbn [s_h s_buf].
    + assert (k = length d) as -> by lia. rewrite firstn_all in Hpt.
      rewrite length_app, Nat.div_small, Nat.mod_small, Nat.mul_0_r by lia. done.
    + assert (k = bs - length T)%nat as Ekk by lia. rewrite firstn_all2 in Hpt by lia.
      rewrite full_blocks_ok by (rewrite length_drop; lia). cbn [s_h s_buf].
      destruct (Hput buf (drop k d) Hpl) as [Hl1 Hl2].
      assert (length (T ++ d) = 1 * bs + length (drop k d))%nat as Hlen by (rewrite length_app, length_drop; lia).
      assert (take bs (T ++ d) = buf ∧ drop bs (T ++ d) = drop k d) as [Hta Hdr].
      { rewrite Hpt, take_app, drop_app, (drop_ge T), (firstn_all2 T) by lia. rewrite <- Ekk. done. }
      rewrite Hlen, Nat.add_comm, Nat.div_add, Nat.Div0.mod_add by lia. rewrite (Nat.add_comm _ 1).
      cbn [Nat.add fold_blocks]. rewrite Hta, Hdr. split_and!; [done | done|]. rewrite Hl2.
      replace (bs * S (length (drop k d) / bs))%nat with (bs + bs * (length (drop k d) / bs))%nat by lia.
      by rewrite <- drop_drop, Hdr.
Qed.

Lemma update_absorbed h0 s M d :
  absorbed h0 s M → Z.of_nat (length (M ++ d)) < 2 ^ 64 → absorbed h0 (sha_update bs block s d) (M ++ d).
Proof using Hbs.
  intros [H1 H2 H3 H4] Hlen. set (q := (length M / bs)%nat) in *. set (T := drop (bs * q) M) in *.
  pose proof (Nat.div_mod_eq (length M) bs) as Hdm. fold q in Hdm.
  pose proof (Nat.mod_upper_bound (length M) bs ltac:(lia)) as Hmu.
  assert (length T = length M mod bs)%nat as HT by (unfold T; rewrite length_drop; lia).
  assert (M = take (bs * q) M ++ T) as EM by (unfold T; by rewrite take_drop).
  assert (length (take (bs * q) M) = bs * q)%nat as Hq by (rewrite length_take; lia).
  destruct (update_core s T d) as (Hh & Hbl & Hbuf); [done | lia | by rewrite HT | |].
  { rewrite H1, HT. by rewrite Nat2Z.inj_mod. }
  assert (length (M ++ d) = length (T ++ d) + q * bs)%nat as HlMd by (rewrite !length_app; lia).
  assert (M ++ d = take (bs * q) M ++ T ++ d) as EMd by (rewrite app_assoc, <- EM; done).
  assert (length (M ++ d) / bs = q + length (T ++ d) / bs)%nat as Hdiv by (rewrite HlMd, Nat.div_add by lia; lia).
  split.
  - unfold sha_update. assert (u64 (s_len s + length d) = length (M ++ d)) as E.
    { rewrite H1. rewrite (uwrap_small 64 (length M + length d)); rewrite length_app in *; lia. }
    repeat case_match; cbn [s_len]; done.
  - rewrite Hh, H2, Hdiv, EMd, fold_blocks_app by done. f_equal.
    pose proof (fold_blocks_prefix q h0 (take (bs * q) M) T ltac:(lia)) as E. by rewrite <- EM in E.
  - done.
  - rewrite HlMd, Nat.Div0.mod_add, Hbuf. rewrite Nat.div_add by lia. rewrite EMd.
    rewrite (drop_app_ge (take (bs * q) M)); rewrite Hq; [f_equal|]; lia.
Qed.

Lemma foldl_absorbed h0 s M ds :
  absorbed h0 s M → Z.of_nat (length (M ++ concat ds)) < 2 ^ 64 →
  absorbed h0 (foldl (sha_update bs block) s ds) (M ++ concat ds).
Proof using Hbs.
  revert s M. induction ds as [|d ds IH]; intros s M Ha Hl; simpl in *; [by rewrite app_nil_r|].
  rewrite app_assoc in *. apply IH; [|done]. apply update_absorbed; [done|]. rewrite length_app in Hl. lia.
Qed.
End Md.

(** FIPS 180-4, 5.1: the padded messages. *)
Definition pad256 (M : list Z) : list Z :=
  M ++ 0x80 :: replicate (Z.to_nat ((55 - length M) mod 64)) 0 ++ be64 (8 * length M).
Definition pad512 (M : list Z) : list Z :=
  M ++ 0x80 :: replicate (Z.to_nat ((111 - length M) mod 128)) 0 ++ replicate 8 0 ++ be64 (8 * length M).

(** The digest of a padded message, block by block. *)
Definition digest256 (P : list Z) : list Z :=
  concat ((λ x, (λ j, u8 (Z.shiftr x (24 - 8 * Z.of_nat j))) <$> seq 0 4) <$>
    fold_blocks 64 block256 (length P / 64) (s_h __sha256_init) P).
Definition digest512 (P : list Z) : list Z :=
  concat ((λ x, (λ j, u8 (Z.shiftr x (56 - 8 * Z.of_nat j))) <$> seq 0 8) <$>
    fold_blocks 128 block512 (length P / 128) (s_h __sha512_init) P).

Lemma pad_zeros (n a b : Z) (k have : nat) :
  0 < a < b → have = Z.to_nat (n mod b) → k = Z.to_nat ((a - 1 - n) mod b) →
  ((if (have <? Z.to_nat a)%nat then Z.to_nat a else Z.to_nat (a + b)) - have - 1)%nat = k.
Proof.
  intros Ha -> ->. pose proof (Z.mod_pos_bound n b ltac:(lia)).
  assert ((a - 1 - n) mod b = (a - 1 - n mod b) mod b) as -> by (by rewrite Zminus_mod_idemp_r).
  destruct (Nat.ltb_spec (Z.to_nat (n mod b)) (Z.to_nat a)).
  - rewrite (Z.mod_small (a - 1 - n mod b)) by lia. lia.
  - rewrite <- (Z.mod_unique (a - 1 - n mod b) b (-1) (a + b - 1 - n mod b)) by lia. lia.
Qed.

Lemma pad_full (len b k : nat) (a : Z) :
  0 < a < Z.of_nat b → Z.of_nat k = Z.of_nat b - a → ((len + S (Z.to_nat ((a - 1 - len) mod b) + k)) mod b = 0)%nat.
Proof.
  intros Ha Hk. pose proof (Z.mod_pos_bound (a - 1 - len) b ltac:(lia)).
  pose proof (Z.div_mod (a - 1 - len) b ltac:(lia)). apply Nat2Z.inj. rewrite Nat2Z.inj_mod.
  symmetry. apply (Z.mod_unique _ _ (1 - (a - 1 - len) / b)); lia.
Qed.

(** ** Properties *)

(** C31: the incremental hash is the hash of FIPS 180-4. However a message of
    less than 2^61 bytes is cut into pieces for __sha256_update or
    __sha512_update, the digest of the final call is the digest of the padded
    message taken block by block, and the padding fills the last block. *)
Theorem sha2_spec ds :
  Z.of_nat (length (concat ds)) < 2 ^ 61 - 256 →
  __sha256_final (foldl __sha256_update __sha256_init ds) = digest256 (pad256 (concat ds)) ∧
  (length (pad256 (concat ds)) mod 64 = 0)%nat ∧
  __sha512_final (foldl __sha512_update __sha512_init ds) = digest512 (pad512 (concat ds)) ∧
  (length (pad512 (concat ds)) mod 128 = 0)%nat.
Proof.
  intros Hl. set (M := concat ds) in *. split; [|split; [|split]].
  - unfold __sha256_final, __sha256_update.
    destruct (foldl_absorbed 64 block256 ltac:(lia) (s_h __sha256_init) __sha256_init [] ds) as [H1 H2 H3 H4];
      [by split | simpl; fold M; lia|]. cbn [app] in *. fold M in H1, H2, H3, H4.
    set (s := foldl _ _ ds) in *. cbv zeta. rewrite H1.
    set (pl := (_ - _ - 1)%nat). assert (pl = Z.to_nat ((55 - length M) mod 64)) as ->.
    { unfold pl. apply (pad_zeros (length M) 56 64); [lia | done | done]. }
    rewrite (uwrap_small 64 (length M * 8)), (Z.mul_comm (length M) 8) by lia.
    set (pad := 128 :: _). assert (pad256 M = M ++ pad) as EP by done.
    destruct (update_absorbed 64 block256 ltac:(lia) (s_h __sha256_init) s M pad) as [_ E2 _ _]; [by split| |].
    { unfold pad. rewrite length_app. cbn [length]. rewrite length_app, length_replicate.
      change (length (be64 _)) with 8%nat. pose proof (Z.mod_pos_bound (55 - length M) 64 ltac:(lia)). lia. }
    rewrite E2, <- EP. done.
  - unfold pad256. rewrite length_app. cbn [length]. rewrite length_app, length_replicate. apply (pad_full (length M) 64 8 56); lia.
  - unfold __sha512_final, __sha512_update.
    destruct (foldl_absorbed 128 block512 ltac:(lia) (s_h __sha512_init) __sha512_init [] ds) as [H1 H2 H3 H4];
      [by split | simpl; fold M; lia|]. cbn [app] in *. fold M in H1, H2, H3, H4.
    set (s := foldl _ _ ds) in *. cbv zeta. rewrite H1.
    set (pl := (_ - _ - 1)%nat). assert (pl = Z.to_nat ((111 - length M) mod 128)) as ->.
    { unfold pl. apply (pad_zeros (length M) 112 128); [lia | done | done]. }
    rewrite (uwrap_small 64 (length M * 8)), (Z.mul_comm (length M) 8) by lia.
    set (pad := 128 :: _). assert (pad512 M = M ++ pad) as EP by done.
    destruct (update_absorbed 128 block512 ltac:(lia) (s_h __sha512_init) s M pad) as [_ E2 _ _]; [by split| |].
    { unfold pad. rewrite length_app. cbn [length]. rewrite !length_app, !length_replicate.
      change (length (be64 _)) with 8%nat. pose proof (Z.mod_pos_bound (111 - length M) 128 ltac:(lia)). lia. }
    rewrite E2, <- EP. done.
  - unfold pad512. rewrite length_app. cbn [length]. rewrite !length_app, !length_replicate. apply (pad_full (length M) 128 16 112); lia.
Qed.

Lemma sha2_spec_witness :
  __sha256_final (foldl __sha256_update __sha256_init [[97]; [98; 99]]) = digest256 (pad256 [97; 98; 99]) ∧
  (length (pad256 [97; 98; 99]%Z) mod 64 = 0)%nat ∧
  __sha512_final (foldl __sha512_update __sha512_init [[97]; [98; 99]]) = digest512 (pad512 [97; 98; 99]) ∧
  (length (pad512 [97; 98; 99]%Z) mod 128 = 0)%nat.
Proof. apply (sha2_spec [[97]; [98; 99]]). vm_compute. done. Defined.
