(* ===== verification/Random.v ===== *)
(** * Random numbers (src/src/random.c)

    rand, random and rand_r as functions of their seeds; the ChaCha20
    generator behind arc4random with its buffer, its reseeding and its
    behaviour across fork. The kernel is a parameter: the bytes of the k-th
    call of __secure_random, the results of mmap and madvise, and getpid as a
    component of the state. Locks only serialise the operations and are left
    out: each operation is one step. *)
From S2P Require Import Prelude CMem.

(** ** rand, random *)

Record seeds := { rand_seed : Z; random_seed : Z }.

Definition seeds_init : seeds := {| rand_seed := 1; random_seed := 1 |}.

Definition srand (s : Z) (st : seeds) : seeds :=
  {| rand_seed := u32 (s - 1); random_seed := random_seed st |}.

Definition rand (st : seeds) : Z * seeds :=
  let x := u64 (6364136223846793005 * rand_seed st + 1) in
  (s32 (Z.shiftr x 33), {| rand_seed := x; random_seed := random_seed st |}).

Definition rand_r (seed : Z) : Z * Z :=
  let seed := u32 (seed * 1103515245 + 12345) in
  let x := seed in
  let x := Z.lxor x (Z.shiftr x 11) in
  let x := Z.lxor x (Z.land (u32 (Z.shiftl x 7)) 0x9d2c5680) in
  let x := Z.lxor x (Z.land (u32 (Z.shiftl x 15)) 0xefc60000) in
  let x := Z.lxor x (Z.shiftr x 18) in
  (s32 (Z.shiftr x 1), seed).

Definition srandom (s : Z) (st : seeds) : seeds :=
  {| rand_seed := rand_seed st; random_seed := s |}.

Definition random (st : seeds) : Z * seeds :=
  let x := u64 (6364136223846793005 * random_seed st + 1442695040888963407) in
  (s64 (Z.shiftr x 33), {| rand_seed := rand_seed st; random_seed := x |}).

(** ** ChaCha20 *)

Definition ROTL (x n : Z) : Z := Z.lor (u32 (Z.shiftl x n)) (Z.shiftr x (32 - n)).

Definition QR (x : list Z) (q : nat * nat * nat * nat) : list Z :=
  let '(ia, ib, ic, id) := q in
  let a := x !!! ia in let b := x !!! ib in let c := x !!! ic in let d := x !!! id in
  let a := u32 (a + b) in let d := Z.lxor d a in let d := ROTL d 16 in
  let c := u32 (c + d) in let b := Z.lxor b c in let b := ROTL b 12 in
  let a := u32 (a + b) in let d := Z.lxor d a in let d := ROTL d 8 in
  let c := u32 (c + d) in let b := Z.lxor b c in let b := ROTL b 7 in
  <[ia := a]> (<[ib := b]> (<[ic := c]> (<[id := d]> x))).

Definition chacha_rounds (x : list Z) : list Z :=
  foldl QR x [(0, 4, 8, 12); (1, 5, 9, 13); (2, 6, 10, 14); (3, 7, 11, 15);
              (0, 5, 10, 15); (1, 6, 11, 12); (2, 7, 8, 13); (3, 4, 9, 14)]%nat.

Definition chacha_block (inp : list Z) : list Z :=
  zip_with (λ x y, u32 (x + y)) (Nat.iter 10 chacha_rounds inp) inp.

(** ** arc4random *)

Definition KEYSZ : nat := 32.
Definition IVSZ : nat := 8.
Definition BLOCKS : nat := 16.
Definition BUFSZ : nat := 64 * BLOCKS.
Definition RESEED_BYTES : Z := 1600000.

(** struct rs. *)
Record rs := { ready : bool; pid : Z; have : Z; until_reseed : Z; inp : list Z; buf : list Z }.

(** A fresh page, and what a page marked MADV_WIPEONFORK holds in a child. *)
Definition rs_zero : rs :=
  {| ready := false; pid := 0; have := 0; until_reseed := 0; inp := replicate 16 0; buf := replicate BUFSZ 0 |}.

(** The 32-bit words of the first 4 [n] bytes, and back. *)
Definition words (n : nat) (l : list Z) : list Z := (λ i, le_word (take 4 (drop (4 * i) l))) <$> seq 0 n.
Definition word_bytes (l : list Z) : list Z := concat (le_split 4 <$> l).

(** "expand 32-byte k" *)
Definition sigma : list Z := [101; 120; 112; 97; 110; 100; 32; 51; 50; 45; 98; 121; 116; 101; 32; 107].

(** rs->in after rs_setkey: every word of it is overwritten. *)
Definition rs_setkey (kiv : list Z) : list Z :=
  words 4 sigma ++ words 8 kiv ++ [0; 0] ++ words 2 (drop KEYSZ kiv).

(** if (!++in[12]) in[13]++ *)
Definition next_block (i : list Z) : list Z :=
  let c := u32 (i !!! 12%nat + 1) in
  let i := <[12%nat := c]> i in
  if c =? 0 then <[13%nat := u32 (i !!! 13%nat + 1)]> i else i.

Definition rs_refill (s : rs) : rs :=
  let '(_, b) := foldl (λ '(i, b) k, (next_block i, put_at b (64 * k) (word_bytes (chacha_block i))))
                   (inp s, buf s) (seq 0 BLOCKS) in
  {| ready := ready s; pid := pid s; have := Z.of_nat (BUFSZ - KEYSZ - IVSZ); until_reseed := until_reseed s;
     inp := rs_setkey b; buf := put_at b 0 (replicate (KEYSZ + IVSZ) 0) |}.

(** The state of the process: the pointer rs (null before the first call),
    rs_wipe, the result of getpid and the number of calls of
    __secure_random so far. *)
Record world := { w_rs : option rs; rs_wipe : bool; getpid : Z; draws : nat }.

Section Kernel.
Context (entropy : nat → list Z) (mmap_ok madvise_ok : bool).

Definition rs_stir (s : rs) (p : Z) (seed : list Z) : rs :=
  let i := if ready s
    then take 4 (inp s) ++ zip_with Z.lxor (take (KEYSZ / 4) (drop 4 (inp s))) (words (KEYSZ / 4) seed)
         ++ drop (4 + KEYSZ / 4) (inp s)
    else rs_setkey seed in
  rs_refill {| ready := true; pid := p; have := 0; until_reseed := RESEED_BYTES; inp := i; buf := buf s |}.

Definition stir (s : rs) (w : world) : rs * world :=
  let s := rs_stir s (getpid w) (entropy (draws w)) in
  (s, {| w_rs := Some s; rs_wipe := rs_wipe w; getpid := getpid w; draws := S (draws w) |}).

Definition rs_prepare (n : Z) (w : world) : rs * world :=
  let '(s, w) := match w_rs w with
    | Some s => (s, w)
    | None => (rs_zero, {| w_rs := Some rs_zero; rs_wipe := if mmap_ok then madvise_ok else rs_wipe w;
                           getpid := getpid w; draws := draws w |})
    end in
  let '(s, w) := if negb (ready s) || (negb (rs_wipe w) && negb (pid s =? getpid w)) then stir s w else (s, w) in
  if until_reseed s <=? n then stir s w
  else let s := {| ready := ready s; pid := pid s; have := have s; until_reseed := u64 (until_reseed s - n);
                   inp := inp s; buf := buf s |} in
       (s, {| w_rs := Some s; rs_wipe := rs_wipe w; getpid := getpid w; draws := draws w |}).

(** The copying loop of arc4random_buf. *)
Definition rs_copy (s : rs) (n : Z) : res (rs * list Z) :=
  loop (S (Z.to_nat n)) (λ '(s, n, o),
    if n =? 0 then Ok (Brk (s, o)) else
    let s := if have s =? 0 then rs_refill s else s in
    let k := if n <? have s then n else have s in
    let at_ := Z.to_nat (BUFSZ - have s) in
    let src := take (Z.to_nat k) (drop at_ (buf s)) in
    let s' := {| ready := ready s; pid := pid s; have := have s - k; until_reseed := until_reseed s;
                 inp := inp s; buf := put_at (buf s) at_ (replicate (Z.to_nat k) 0) |} in
    Ok (Cont (s', n - k, o ++ src))) (s, n, []).

Definition arc4random_buf (w : world) (n : Z) : res (world * list Z) :=
  let '(s, w) := rs_prepare n w in
  '(s, o) ← rs_copy s n;
  Ok ({| w_rs := Some s; rs_wipe := rs_wipe w; getpid := getpid w; draws := draws w |}, o).

Definition arc4random (w : world) : res (world * Z) :=
  '(w, o) ← arc4random_buf w 4; Ok (w, le_word o).

(** The rejection loop runs for at most [f] draws here. *)
Definition arc4random_uniform (f : nat) (w : world) (bound : Z) : res (world * Z) :=
  if bound <? 2 then Ok (w, 0) else
  let min := u32 (- bound) mod bound in
  loop f (λ w,
    '(w, r) ← arc4random w;
    if min <=? r then Ok (Brk (w, r mod bound)) else Ok (Cont w)) w.
End Kernel.

(** What fork makes of the state in the child: a page marked MADV_WIPEONFORK
    reads as zeros there. *)
Definition fork_child (p : Z) (w : world) : world :=
  {| w_rs := if rs_wipe w then (λ _, rs_zero) <$> w_rs w else w_rs w; rs_wipe := rs_wipe w; getpid := p; draws := draws w |}.

(** RFC 8439, 2.3.2: the block function. *)
Example chacha_rfc8439 :
  take 4 (chacha_block [0x61707865; 0x3320646e; 0x79622d32; 0x6b206574; 0x03020100; 0x07060504; 0x0b0a0908; 0x0f0e0d0c;
                        0x13121110; 0x17161514; 0x1b1a1918; 0x1f1e1d1c; 0x00000001; 0x09000000; 0x4a000000; 0])
  = [0xe4e7f110; 0x15593bd1; 0x1fdd0f50; 0xc47120a3].
Proof. vm_compute. reflexivity. Qed.

(** The first value of rand differs from its first value after srand (1). *)
Lemma rand_default_seed : (rand seeds_init).1 ≠ (rand (srand 1 seeds_init)).1.
Proof. vm_compute. done. Qed.

(** random does not have this difference. *)
Lemma random_default_seed : random (srandom 1 seeds_init) = random seeds_init.
Proof. reflexivity. Qed.

(** ** The stream of the generator *)

(** The key stream of one refill: BLOCKS blocks from the input words [i]. *)
Definition blocks (n : nat) (i : list Z) : list Z :=
  concat ((λ k, word_bytes (chacha_block (Nat.iter k next_block i))) <$> seq 0 n).

(** What a refill makes available, and the input words it leaves. *)
Definition gen_out (i : list Z) : list Z := drop (KEYSZ + IVSZ) (blocks BLOCKS i).
Definition gen_next (i : list Z) : list Z := rs_setkey (blocks BLOCKS i).

Fixpoint refills (k : nat) (i : list Z) : list Z :=
  match k with O => [] | S k => gen_out i ++ refills k (gen_next i) end.

(** The bytes the generator has in store, with [k] more refills. *)
Definition future (k : nat) (s : rs) : list Z := drop (Z.to_nat (BUFSZ - have s)) (buf s) ++ refills k (inp s).

(** Well-formed generators: every byte of the buffer that was handed out, and
    the key material, are erased. *)
Record rs_wf (s : rs) : Prop := {
  wf_inp : length (inp s) = 16%nat;
  wf_buf : length (buf s) = BUFSZ;
  wf_have : 0 <= have s <= Z.of_nat (BUFSZ - KEYSZ - IVSZ);
  wf_bytes : Forall is_byte (buf s);
  wf_erased : take (Z.to_nat (BUFSZ - have s)) (buf s) = replicate (Z.to_nat (BUFSZ - have s)) 0;
}.

Lemma QR_length x q : length (QR x q) = length x.
Proof. destruct q as [[[? ?] ?] ?]. unfold QR. cbv zeta. by rewrite !length_insert. Qed.

Lemma chacha_block_length i : length (chacha_block i) = length i.
Proof.
  assert (∀ qs x, length (foldl QR x qs) = length x) as H.
  { induction qs as [|q qs IH]; intros x; [done|]. simpl. by rewrite IH, QR_length. }
  assert (∀ n, length (Nat.iter n chacha_rounds i) = length i) as Hi.
  { induction n as [|n IH]; [done|]. cbn [Nat.iter nat_rect]. unfold chacha_rounds at 1. by rewrite H. }
  unfold chacha_block. rewrite length_zip_with, Hi. lia.
Qed.

Lemma word_bytes_length l : length (word_bytes l) = (4 * length l)%nat.
Proof. unfold word_bytes. induction l as [|x l IH]; [done|]. cbn [fmap list_fmap concat]. rewrite length_app, IH. simpl. lia. Qed.

Lemma next_block_length i : length (next_block i) = length i.
Proof. unfold next_block. case_match; by rewrite !length_insert. Qed.

Lemma iter_next_length k i : length (Nat.iter k next_block i) = length i.
Proof. induction k as [|k IH]; [done|]. cbn [Nat.iter nat_rect]. by rewrite next_block_length. Qed.

Lemma blocks_S n i :
  blocks (S n) i = blocks n i ++ word_bytes (chacha_block (Nat.iter n next_block i)).
Proof. unfold blocks. rewrite seq_S, fmap_app, concat_app. cbn [Nat.add fmap list_fmap concat]. by rewrite app_nil_r. Qed.

Lemma blocks_length n i : length i = 16%nat → length (blocks n i) = (64 * n)%nat.
Proof.
  intros Hi. induction n as [|n IH]; [done|].
  rewrite blocks_S, length_app, IH, word_bytes_length, chacha_block_length, iter_next_length, Hi. lia.
Qed.

Lemma blocks_bytes n i : Forall is_byte (blocks n i).
Proof.
  unfold blocks, word_bytes. apply Forall_concat, Forall_fmap, Forall_forall. intros k _.
  apply Forall_concat, Forall_fmap, Forall_forall. intros x _. apply le_split_bytes.
Qed.

#[local] Opaque chacha_block next_block blocks rs_setkey.

Lemma refill_loop n i b :
  length i = 16%nat → (64 * n <= length b)%nat →
  foldl (λ '(i, b) k, (next_block i, put_at b (64 * k) (word_bytes (chacha_block i)))) (i, b) (seq 0 n) =
  (Nat.iter n next_block i, blocks n i ++ drop (64 * n) b).
Proof.
  intros Hi. induction n as [|n IH]; intros Hb; [done|].
  rewrite seq_S, foldl_app, IH by lia. cbn [foldl]. f_equal. cbn [Nat.add]. unfold put_at.
  assert (length (word_bytes (chacha_block (Nat.iter n next_block i))) = 64%nat) as HL
    by (rewrite word_bytes_length, chacha_block_length, iter_next_length, Hi; done).
  pose proof (blocks_length n i Hi) as HB. rewrite HL, blocks_S, <- app_assoc. f_equal.
  - rewrite take_app_le, firstn_all2 by lia. done.
  - f_equal. rewrite drop_app_ge, drop_drop by lia. f_equal. lia.
Qed.

Lemma key_words_length n l : length (words n l) = n.
Proof. unfold words. by rewrite length_fmap, length_seq. Qed.

Lemma setkey_length kiv : length (rs_setkey kiv) = 16%nat.
Proof. with_strategy transparent [rs_setkey] unfold rs_setkey. by rewrite !length_app, !key_words_length. Qed.

Lemma refill_ok s :
  length (inp s) = 16%nat → length (buf s) = BUFSZ →
  rs_refill s = {| ready := ready s; pid := pid s; have := Z.of_nat (BUFSZ - KEYSZ - IVSZ); until_reseed := until_reseed s;
                   inp := gen_next (inp s); buf := replicate (KEYSZ + IVSZ) 0 ++ gen_out (inp s) |}.
Proof.
  intros Hi Hb. unfold rs_refill. rewrite refill_loop by (done || (rewrite Hb; unfold BUFSZ; lia)).
  rewrite (drop_ge (buf s)) by (rewrite Hb; unfold BUFSZ; lia). rewrite app_nil_r.
  unfold put_at, gen_next, gen_out. rewrite length_replicate, take_0, app_nil_l, Nat.add_0_l. reflexivity.
Qed.

Lemma gen_out_length i : length i = 16%nat → length (gen_out i) = (BUFSZ - KEYSZ - IVSZ)%nat.
Proof. intros Hi. unfold gen_out. by rewrite length_drop, blocks_length. Qed.

Lemma refill_wf s :
  length (inp s) = 16%nat → length (buf s) = BUFSZ →
  rs_wf (rs_refill s) ∧ 0 < have (rs_refill s) ∧ ∀ k, future k (rs_refill s) = refills (S k) (inp s).
Proof.
  intros Hi Hb. rewrite refill_ok by done. pose proof (gen_out_length _ Hi) as HL. split; [|split].
  - split; cbn [inp buf have].
    + apply setkey_length.
    + rewrite length_app, length_replicate, HL. done.
    + done.
    + apply Forall_app. split; [by apply Forall_replicate|]. apply Forall_drop, blocks_bytes.
    + rewrite take_app_le by done. done.
  - done.
  - intros k. unfold future. cbn [have buf inp]. rewrite drop_app_ge by done. done.
Qed.

Lemma have0_future s k : rs_wf s → have s = 0 → future k s = refills k (inp s).
Proof.
  intros H E. unfold future. rewrite E, drop_ge; [done|].
  rewrite (wf_buf s H). replace (Z.to_nat (BUFSZ - 0)) with BUFSZ by lia. done.
Qed.

(** Handing out [k] bytes. *)
Definition serve (s : rs) (k : Z) : rs :=
  {| ready := ready s; pid := pid s; have := have s - k; until_reseed := until_reseed s; inp := inp s;
     buf := put_at (buf s) (Z.to_nat (BUFSZ - have s)) (replicate (Z.to_nat k) 0) |}.

Lemma serve_ok s k :
  rs_wf s → 0 <= k <= have s →
  let src := take (Z.to_nat k) (drop (Z.to_nat (BUFSZ - have s)) (buf s)) in
  rs_wf (serve s k) ∧ Z.of_nat (length src) = k ∧ Forall is_byte src ∧ ∀ j, future j s = src ++ future j (serve s k).
Proof.
  intros [Hi Hb Hh Hy He] Hk src. set (a := Z.to_nat (BUFSZ - have s)) in *. set (k' := Z.to_nat k).
  assert (BUFSZ - KEYSZ - IVSZ <= BUFSZ)%nat as HBB by (vm_compute; lia).
  assert (Z.to_nat (BUFSZ - (have s - k)) = a + k')%nat as Hak by lia.
  assert (length (replicate k' 0) = k') as Hlr by (apply length_replicate).
  assert (a + length (replicate k' 0%Z) <= length (buf s))%nat as Hle by lia.
  split_and!.
  - split; cbn [serve inp buf have].
    + done.
    + fold a k'. by rewrite put_at_length.
    + lia.
    + fold a k'. unfold put_at. rewrite !Forall_app. split_and!; [by apply Forall_take | by apply Forall_replicate | by apply Forall_drop].
    + rewrite Hak. fold a k'. rewrite <- Hlr at 1. rewrite put_at_take by done. rewrite He, <- replicate_add. done.
  - unfold src. rewrite length_take, length_drop. lia.
  - by apply Forall_take, Forall_drop.
  - intros j. unfold future. cbn [serve inp buf have]. rewrite Hak. fold a k'. rewrite app_assoc. f_equal.
    unfold put_at. rewrite Hlr, app_assoc, drop_app_ge by (rewrite length_app, length_take; lia).
    rewrite length_app, length_take, Hlr. replace (a + k' - (a `min` length (buf s) + k'))%nat with 0%nat by lia.
    rewrite drop_0, <- drop_drop. unfold src. fold k'. by rewrite take_drop.
Qed.

Lemma rs_copy_ok s n :
  rs_wf s → 0 <= n →
  wp (rs_copy s n) (λ '(s', o), rs_wf s' ∧ Z.of_nat (length o) = n ∧ Forall is_byte o ∧
    ready s' = ready s ∧ pid s' = pid s ∧ until_reseed s' = until_reseed s ∧
    ∃ j : nat, j <= n ∧ ∀ k : nat, future (j + k) s = o ++ future k s').
Proof.
  intros Hs Hn. unfold rs_copy.
  apply (wp_loop (λ '(s1, n1, o), rs_wf s1 ∧ 0 <= n1 ∧ Z.of_nat (length o) = n - n1 ∧ Forall is_byte o ∧
    ready s1 = ready s ∧ pid s1 = pid s ∧ until_reseed s1 = until_reseed s ∧
    ∃ j : nat, j <= n - n1 ∧ ∀ k : nat, future (j + k) s = o ++ future k s1) (λ '(_, n1, _), Z.to_nat n1)); [|eauto 12 with lia|lia].
  2:{ split_and!; try done; try (simpl; lia). exists 0%nat. split; [lia | done]. }
  intros [[s1 n1] o] (Hw & Hn1 & Hlo & Hby & Hr & Hp & Hu & j & Hj & Hf).
  destruct (Z.eqb_spec n1 0) as [->|Hne].
  { apply wp_ok. split_and!; try done; [lia|]. exists j. split; [lia | done]. }
  cbv zeta. set (s2 := if have s1 =? 0 then rs_refill s1 else s1).
  assert (rs_wf s2 ∧ 0 < have s2 ∧ ready s2 = ready s ∧ pid s2 = pid s ∧ until_reseed s2 = until_reseed s ∧
    ∃ j2 : nat, j2 <= n - n1 + 1 ∧ ∀ k : nat, future (j2 + k) s = o ++ future k s2) as
    (Hw2 & Hh2 & Hr2 & Hp2 & Hu2 & j2 & Hj2 & Hf2).
  { subst s2. destruct (Z.eqb_spec (have s1) 0) as [E|E].
    - destruct (refill_wf s1 (wf_inp _ Hw) (wf_buf _ Hw)) as (H1 & H2 & H3).
      rewrite refill_ok in * by apply Hw. split_and!; try done. exists (S j). split; [lia|]. intros k.
      rewrite H3, <- have0_future by done. rewrite <- Hf. f_equal. lia.
    - pose proof (wf_have _ Hw). split_and!; try done; [lia|]. exists j. split; [lia | done]. }
  clearbody s2. set (k := if n1 <? have s2 then n1 else have s2).
  assert (0 < k <= n1 ∧ k <= have s2) as [Hk Hk'] by (subst k; zcases; lia).
  destruct (serve_ok s2 k Hw2 ltac:(lia)) as (Hw3 & Hl3 & Hy3 & Hf3). clearbody k.
  apply wp_ok. fold (serve s2 k). split; [|lia]. split_and!; try done; [lia | rewrite length_app; lia | by apply Forall_app|].
  exists j2. split; [lia|]. intros i. by rewrite Hf2, Hf3, app_assoc.
Qed.

(** ** Seeding *)

Definition world_wf (w : world) : Prop :=
  match w_rs w with Some s => rs_wf s ∧ 0 <= until_reseed s < 2 ^ 64 | None => True end.

(** A request of [n] bytes draws fresh entropy first. *)
Definition must_seed (w : world) (n : Z) : bool :=
  match w_rs w with
  | Some s => negb (ready s) || (negb (rs_wipe w) && negb (pid s =? getpid w)) || (until_reseed s <=? n)
  | None => true
  end.

Lemma rs_zero_wf : rs_wf rs_zero.
Proof. split; try done. by apply Forall_replicate. Qed.

Section Streams.
Context (entropy : nat → list Z) (mmap_ok madvise_ok : bool).

Lemma stir_ok s w :
  rs_wf s →
  let '(s', w') := stir entropy s w in
  rs_wf s' ∧ until_reseed s' = RESEED_BYTES ∧ ready s' = true ∧ pid s' = getpid w ∧
  w_rs w' = Some s' ∧ rs_wipe w' = rs_wipe w ∧ getpid w' = getpid w ∧ draws w' = S (draws w).
Proof.
  intros Hs. unfold stir, rs_stir. cbv zeta. set (i := if ready s then _ else _).
  assert (length i = 16%nat) as Hi.
  { unfold i. destruct (ready s); [|apply setkey_length].
    rewrite !length_app, length_zip_with, key_words_length, !length_take, !length_drop, (wf_inp s Hs). done. }
  set (s1 := Build_rs _ _ _ _ _ _). destruct (refill_wf s1 Hi (wf_buf s Hs)) as (H1 & _ & _).
  split; [exact H1|]. rewrite refill_ok by (exact Hi || apply Hs). done.
Qed.

Lemma rs_prepare_ok w n :
  world_wf w → 0 <= n < 2 ^ 64 →
  let '(s, w') := rs_prepare entropy mmap_ok madvise_ok n w in
  rs_wf s ∧ 0 <= until_reseed s < 2 ^ 64 ∧ w_rs w' = Some s ∧
  if must_seed w n then (draws w < draws w')%nat
  else draws w' = draws w ∧ ∀ s0, w_rs w = Some s0 → ∀ k, future k s = future k s0.
Proof.
  intros Hw Hn. unfold rs_prepare, must_seed. unfold world_wf in Hw. destruct (w_rs w) as [s|] eqn:E.
  - destruct Hw as [Hs Hu]. destruct (negb (ready s) || _) eqn:Eb.
    + pose proof (stir_ok s w Hs) as H. destruct (stir entropy s w) as [s1 w1].
      destruct H as (H1 & H2 & _ & _ & _ & _ & _ & H3). rewrite H2. destruct (Z.leb_spec RESEED_BYTES n).
      * pose proof (stir_ok s1 w1 H1) as H'. destruct (stir entropy s1 w1) as [s2 w2].
        destruct H' as (G1 & G2 & _ & _ & G3 & _ & _ & G4). rewrite G2, G3, G4, H3. split_and!; try done; simpl; lia.
      * cbn [w_rs until_reseed draws]. unfold RESEED_BYTES in *. rewrite (uwrap_small 64 (_ - n)) by lia. rewrite H3.
        split; [destruct H1; by split|]. split_and!; try done; simpl; lia.
    + destruct (Z.leb_spec (until_reseed s) n).
      * pose proof (stir_ok s w Hs) as H'. destruct (stir entropy s w) as [s2 w2].
        destruct H' as (G1 & G2 & _ & _ & G3 & _ & _ & G4). rewrite G2, G3, G4. split_and!; try done; simpl; lia.
      * cbn [w_rs until_reseed draws]. rewrite (uwrap_small 64 (_ - n)) by lia.
        split; [destruct Hs; by split|]. split_and!; try done; [simpl; lia..|]. split; [done|]. by intros ? [= <-].
  - set (w0 := {| w_rs := Some rs_zero |}). cbn [ready rs_zero negb orb]. pose proof (stir_ok rs_zero w0 rs_zero_wf) as H.
    change {| ready := _; pid := 0; have := 0; until_reseed := 0; inp := _; buf := _ |} with rs_zero.
    destruct (stir entropy rs_zero w0) as [s1 w1]. destruct H as (H1 & H2 & _ & _ & _ & _ & _ & H3).
    change (draws w0) with (draws w) in H3. rewrite H2. destruct (Z.leb_spec RESEED_BYTES n).
    * pose proof (stir_ok s1 w1 H1) as H'. destruct (stir entropy s1 w1) as [s2 w2].
      destruct H' as (G1 & G2 & _ & _ & G3 & _ & _ & G4). rewrite G2, G3, G4, H3. split_and!; try done; simpl; lia.
    * cbn [w_rs until_reseed draws]. unfold RESEED_BYTES in *. rewrite (uwrap_small 64 (_ - n)) by lia. rewrite H3.
      split; [destruct H1; by split|]. split_and!; try done; simpl; lia.
Qed.
End Streams.

(** ** Uniform values *)

Lemma draws_none (P : Z → Prop) `{!∀ x, Decision (P x)} (l : list Z) : (∀ x, x ∈ l → ¬ P x) → filter P l = [].
Proof. intros Hno. apply elem_of_nil_inv. intros x [Hp Hx]%list_elem_of_filter. by apply (Hno x). Qed.

Lemma seqZ_split a m n : 0 <= m → 0 <= n → seqZ a (m + n) = seqZ a m ++ seqZ (a + m) n.
Proof. intros. by rewrite seqZ_app. Qed.

(** Every residue occurs once in [b] consecutive numbers. *)
Lemma residue_period a b v :
  0 <= v < b → length (filter (λ r, r mod b = v) (seqZ a b)) = 1%nat.
Proof.
  intros Hv. set (d := (v - a) mod b). pose proof (Z.mod_pos_bound (v - a) b ltac:(lia)) as Hd. fold d in Hd.
  assert (∀ x, a <= x < a + b → x mod b = v → x = a + d) as Huniq.
  { intros x Hx Hm. unfold d. rewrite <- Hm, Zminus_mod_idemp_l, Z.mod_small; lia. }
  assert ((a + d) mod b = v) as Hat.
  { unfold d. rewrite Zplus_mod_idemp_r. replace (a + (v - a)) with v by lia. apply Z.mod_small. lia. }
  assert (seqZ a b = seqZ a d ++ seqZ (a + d) 1 ++ seqZ (a + d + 1) (b - d - 1)) as ->.
  { rewrite <- !seqZ_split by lia. f_equal. lia. }
  rewrite !filter_app, (draws_none _ (seqZ a d)), (draws_none _ (seqZ _ (b - d - 1))).
  - change (seqZ (a + d) 1) with [0%nat + (a + d)]. rewrite filter_cons_True; [done|]. by rewrite Z.add_0_l.
  - intros x Hx%elem_of_seqZ Hm. apply Huniq in Hm; lia.
  - intros x Hx%elem_of_seqZ Hm. apply Huniq in Hm; lia.
Qed.

Lemma residue_count a b v (k : nat) :
  0 <= v < b → length (filter (λ r, r mod b = v) (seqZ a (k * b))) = k.
Proof.
  intros Hv. revert a. induction k as [|k IH]; intros a; [done|].
  assert (0 <= k * b) by nia. replace (S k * b) with (b + k * b) by lia. rewrite seqZ_split, filter_app, length_app, IH, residue_period by lia. done.
Qed.

Section Uniform.
Context (entropy : nat → list Z) (mmap_ok madvise_ok : bool).

Lemma arc4random_buf_ok w n :
  world_wf w → 0 <= n < 2 ^ 64 →
  wp (arc4random_buf entropy mmap_ok madvise_ok w n) (λ '(w', o),
    world_wf w' ∧ Z.of_nat (length o) = n ∧ Forall is_byte o ∧
    draws w' = draws (rs_prepare entropy mmap_ok madvise_ok n w).2 ∧
    ∃ s' (j : nat), w_rs w' = Some s' ∧ j <= n ∧
      ∀ k : nat, future (j + k) (rs_prepare entropy mmap_ok madvise_ok n w).1 = o ++ future k s').
Proof.
  intros Hw Hn. pose proof (rs_prepare_ok entropy mmap_ok madvise_ok w n Hw Hn) as H. unfold arc4random_buf.
  destruct (rs_prepare _ _ _ n w) as [s w1]. destruct H as (H1 & H2 & H3 & _). apply wp_bind.
  eapply wp_mono; [apply (rs_copy_ok s n H1); lia|]. intros [s' o] (G1 & G2 & G3 & _ & _ & G4 & j & Hj & G5).
  apply wp_ok. unfold world_wf. cbn [w_rs draws fst snd]. split_and!; try done; [by rewrite G4; apply H2..|].
  exists s', j. done.
Qed.

(** The values of successive calls of arc4random. *)
Inductive drawn : world → list Z → world → Prop :=
| drawn_nil w : drawn w [] w
| drawn_cons w w1 r rs w2 :
    arc4random entropy mmap_ok madvise_ok w = Ok (w1, r) → drawn w1 rs w2 → drawn w (r :: rs) w2.

Lemma arc4random_ok w :
  world_wf w → wp (arc4random entropy mmap_ok madvise_ok w) (λ '(w', r), world_wf w' ∧ 0 <= r < 2 ^ 32).
Proof.
  intros Hw. unfold arc4random. apply wp_bind. eapply wp_mono; [by apply arc4random_buf_ok|].
  intros [w' o] (H1 & H2 & H3 & _). apply wp_ok. split; [done|]. pose proof (le_word_range o H3) as Hr.
  rewrite H2 in Hr. done.
Qed.

Lemma drawn_total w k :
  world_wf w → ∃ rs w', drawn w rs w' ∧ length rs = k ∧ Forall (λ r, 0 <= r < 2 ^ 32) rs.
Proof.
  revert w. induction k as [|k IH]; intros w Hw; [exists [], w; split; [constructor | done]|].
  destruct (arc4random_ok w Hw) as ([w1 r] & E & Hw1 & Hr). destruct (IH w1 Hw1) as (rs & w2 & Hd & Hl & Hf).
  exists (r :: rs), w2. split_and!; [by econstructor | simpl; lia | by constructor].
Qed.

Lemma uniform_loop w rs r w' f bound :
  drawn w (rs ++ [r]) w' → 2 <= bound → let min := u32 (- bound) mod bound in
  Forall (λ x, x < min) rs → min <= r → (length rs < f)%nat →
  arc4random_uniform entropy mmap_ok madvise_ok f w bound = Ok (w', r mod bound).
Proof.
  intros Hd Hb min Hrs Hr Hf. unfold arc4random_uniform. destruct (Z.ltb_spec bound 2) as [|_]; [lia|]. fold min.
  cbv zeta. revert w f Hd Hf Hrs. induction rs as [|x rs IH]; intros w [|f] Hd Hf Hrs; simpl in *; try lia;
    inversion Hd as [|w0 w1 ? ? ? E Hd1]; subst; rewrite loop_S, E; cbn [mbind res_bind].
  - inversion Hd1; subst. by destruct (Z.leb_spec min r); [|lia].
  - apply Forall_cons in Hrs as [Hx Hrs]. destruct (Z.leb_spec min x); [lia|]. apply IH; [done | lia | done].
Qed.
End Uniform.

(** ** Properties *)

(** C32: arc4random_buf is a stream cipher with erasure that reseeds. From any
    well-formed state a request of [n] bytes returns exactly [n] bytes, and
    they are the next ones of the key stream of the prepared generator: what
    the generator has in store before the call is the output followed by what
    it has in store after it, so no byte is handed out twice; the bytes that
    were handed out and the key material are zero in the buffer afterwards.
    When no seeding is due the prepared generator has the stream of the old
    one and no entropy is drawn; when it is due, entropy is drawn before the
    first byte. In a child of fork seeding is always due, by the wiped page or
    by the changed process id. *)
Theorem arc4random_buf_spec entropy mmap_ok madvise_ok w n :
  world_wf w → 0 <= n < 2 ^ 64 →
  wp (arc4random_buf entropy mmap_ok madvise_ok w n) (λ '(w', o),
    world_wf w' ∧ Z.of_nat (length o) = n ∧
    (∃ s' (j : nat), w_rs w' = Some s' ∧ j <= n ∧
       ∀ k : nat, future (j + k) (rs_prepare entropy mmap_ok madvise_ok n w).1 = o ++ future k s') ∧
    if must_seed w n then (draws w < draws w')%nat
    else draws w' = draws w ∧
         ∀ s0, w_rs w = Some s0 → ∀ k, future k (rs_prepare entropy mmap_ok madvise_ok n w).1 = future k s0) ∧
  ∀ p, (∀ s, w_rs w = Some s → pid s ≠ p) → must_seed (fork_child p w) n = true.
Proof.
  intros Hw Hn. split.
  - eapply wp_mono; [by apply arc4random_buf_ok|]. intros [w' o] (H1 & H2 & _ & H4 & H5).
    pose proof (rs_prepare_ok entropy mmap_ok madvise_ok w n Hw Hn) as H. split; [done|]. split; [done|]. split; [done|].
    destruct (rs_prepare _ _ _ n w) as [s w1]. cbn [fst snd] in *. rewrite H4. apply H.
  - intros p Hp. unfold must_seed, fork_child. cbn [w_rs rs_wipe getpid].
    destruct (w_rs w) as [s|]; destruct (rs_wipe w); try done. cbn [negb andb].
    destruct (Z.eqb_spec (pid s) p) as [E|]; [by destruct (Hp s)|]. by rewrite orb_true_r.
Qed.

Lemma arc4random_buf_spec_witness :
  let w := {| w_rs := None; rs_wipe := false; getpid := 7; draws := 0 |} in
  world_wf w ∧ wp (arc4random_buf (λ k, replicate 40 (Z.of_nat k)) true true w 5) (λ '(w', o),
    world_wf w' ∧ Z.of_nat (length o) = 5 ∧
    (∃ s' (j : nat), w_rs w' = Some s' ∧ j <= 5 ∧
       ∀ k : nat, future (j + k) (rs_prepare (λ k, replicate 40 (Z.of_nat k)) true true 5 w).1 = o ++ future k s') ∧
    (0 < draws w')%nat).
Proof.
  split; [done|].
  refine (proj1 (arc4random_buf_spec (λ k, replicate 40 (Z.of_nat k)) true true
    {| w_rs := None; rs_wipe := false; getpid := 7; draws := 0 |} 5 I _)). lia.
Defined.

(** Arc4random_uniform is uniform. The draws it accepts are the 32-bit
    values from a minimum on, more than half of them; every result in
    [0, bound) is the remainder of equally many of them. Successive draws
    always exist and are 32-bit values, and as soon as one of them is
    accepted the function returns its remainder. *)
Theorem arc4random_uniform_spec entropy mmap_ok madvise_ok w bound :
  world_wf w → 2 <= bound < 2 ^ 32 →
  let min := u32 (- bound) mod bound in
  2 * min < 2 ^ 32 ∧
  (∀ v, 0 <= v < bound →
     Z.of_nat (length (filter (λ r, r mod bound = v) (seqZ min (2 ^ 32 - min)))) = 2 ^ 32 / bound) ∧
  (∀ k, ∃ rs w', drawn entropy mmap_ok madvise_ok w rs w' ∧ length rs = k ∧ Forall (λ r, 0 <= r < 2 ^ 32) rs) ∧
  ∀ rs r w' f, drawn entropy mmap_ok madvise_ok w (rs ++ [r]) w' →
    Forall (λ x, x < min) rs → min <= r → (length rs < f)%nat →
    arc4random_uniform entropy mmap_ok madvise_ok f w bound = Ok (w', r mod bound).
Proof.
  intros Hw Hb min. assert (min = 2 ^ 32 mod bound) as Em.
  { unfold min, uwrap. rewrite <- (Z.mod_unique (- bound) (2 ^ 32) (-1) (2 ^ 32 - bound)) by lia.
    by rewrite <- (Zminus_mod_idemp_r (2 ^ 32) bound bound), Z_mod_same_full, Z.sub_0_r. }
  pose proof (Z.mod_pos_bound (2 ^ 32) bound ltac:(lia)) as Hm.
  pose proof (Z.div_mod (2 ^ 32) bound ltac:(lia)) as Hdm.
  assert (1 <= 2 ^ 32 / bound) as Hq by (apply Z.div_le_lower_bound; lia).
  split_and!.
  - rewrite Em. nia.
  - intros v Hv. replace (2 ^ 32 - min) with (Z.to_nat (2 ^ 32 / bound) * bound) by (rewrite Em; lia).
    rewrite residue_count by done. lia.
  - intros k. by apply drawn_total.
  - intros rs r w' f Hd H1 H2 H3. by apply (uniform_loop _ _ _ w rs); [|lia|..].
Qed.

Lemma arc4random_uniform_spec_witness :
  let w := {| w_rs := None; rs_wipe := false; getpid := 7; draws := 0 |} in
  world_wf w ∧ 2 * (u32 (- 10) mod 10) < 2 ^ 32 ∧
  ∀ v, 0 <= v < 10 →
    Z.of_nat (length (filter (λ r, r mod 10 = v) (seqZ (u32 (- 10) mod 10) (2 ^ 32 - u32 (- 10) mod 10)))) = 2 ^ 32 / 10.
Proof.
  split; [done|].
  destruct (arc4random_uniform_spec (λ k, replicate 40 (Z.of_nat k)) true true
    {| w_rs := None; rs_wipe := false; getpid := 7; draws := 0 |} 10 I ltac:(lia)) as (H1 & H2 & _).
  exact (conj H1 H2).
Defined.
