(* ===== verification/Getopt.v ===== *)
(** * Command-line options (src/src/getopt.c)

    getopt, getopt_long and getopt_long_only. A string is the list of its
    bytes before the terminating NUL, argv the list of its words (argc is
    its length, argv[argc] is null); reading past a terminator or past
    argv[argc] traps. The global variables and the output to the standard
    error stream are one record. *)
From S2P Require Import Prelude.

(** ** Operations *)

Inductive message := Unrecognized | NeedsArgument | Ambiguous | TakesNoArgument.

Record gstate := G {
  optarg : option (list Z); optind : Z; opterr : Z; optopt : Z; optpos : Z;
  stderr : list (message * list Z);   (* the diagnostics so far *)
  flags : gmap Z Z                    (* what the flag pointers of the long options point to *)
}.

Definition set_arg (a : option (list Z)) (s : gstate) : gstate :=
  G a (optind s) (opterr s) (optopt s) (optpos s) (stderr s) (flags s).
Definition set_ind (i : Z) (s : gstate) : gstate :=
  G (optarg s) i (opterr s) (optopt s) (optpos s) (stderr s) (flags s).
Definition set_opt (c : Z) (s : gstate) : gstate :=
  G (optarg s) (optind s) (opterr s) c (optpos s) (stderr s) (flags s).
Definition set_pos (p : Z) (s : gstate) : gstate :=
  G (optarg s) (optind s) (opterr s) (optopt s) p (stderr s) (flags s).

Definition complain (msg : message) (opt : list Z) (s : gstate) : gstate :=
  if opterr s =? 0 then s
  else G (optarg s) (optind s) (opterr s) (optopt s) (optpos s) (stderr s ++ [(msg, opt)]) (flags s).

(** s[i] and argv[i]. *)
Definition ch (s : list Z) (i : Z) : res Z :=
  if (0 <=? i) && (i <? length s) then Ok (s !!! Z.to_nat i)
  else if i =? length s then Ok 0 else Trap Segv.
Definition argv_at (argv : list (list Z)) (i : Z) : res (option (list Z)) :=
  if (0 <=? i) && (i <=? length argv) then Ok (argv !! Z.to_nat i) else Trap Segv.

(** strchr: the string from the first [c] on. *)
Fixpoint chr (s : list Z) (c : Z) : option (list Z) :=
  match s with
  | [] => if c =? 0 then Some [] else None
  | x :: s' => if x =? c then Some s else chr s' c
  end.

(** From the option character on: what getopt does inside a word. *)
Definition getopt_opt (argv : list (list Z)) (optstring arg : list Z) (s : gstate) : res (Z * gstate) :=
  o0 ← ch optstring 0;
  let os := if (o0 =? 45) || (o0 =? 43) then drop 1 optstring else optstring in
  c ← ch arg (optpos s);
  let s := set_pos (optpos s + 1) s in
  let d := if c =? 58 then None else chr os c in
  e ← ch arg (optpos s);
  let s := if e =? 0 then set_pos 0 (set_ind (optind s + 1) s) else s in
  o0 ← ch os 0;
  match d with
  | None =>
      let s := set_opt c s in
      Ok (63, if o0 =? 58 then s else complain Unrecognized [c] s)
  | Some d =>
      d1 ← ch d 1;
      if negb (d1 =? 58) then Ok (c, s) else
      let s := set_arg None s in
      if negb (optpos s =? 0) then
        Ok (c, set_pos 0 (set_ind (optind s + 1) (set_arg (Some (drop (Z.to_nat (optpos s)) arg)) s)))
      else
      d2 ← ch d 2;
      if d2 =? 58 then Ok (c, s) else
      if length argv <=? optind s then
        let s := set_opt c s in
        if o0 =? 58 then Ok (58, s) else Ok (63, complain NeedsArgument [c] s)
      else
        a ← argv_at argv (optind s);
        Ok (c, set_ind (optind s + 1) (set_arg a s))
  end.

Definition getopt (argv : list (list Z)) (optstring : list Z) (s : gstate) : res (Z * gstate) :=
  let s := set_arg None s in
  let s := if optind s =? 0 then set_pos 0 (set_ind 1 s) else s in
  if length argv <=? optind s then Ok (-1, s) else
  a ← argv_at argv (optind s);
  match a with
  | None => Ok (-1, s)
  | Some arg =>
      if negb (optpos s =? 0) then getopt_opt argv optstring arg s else
      a0 ← ch arg 0;
      if negb (a0 =? 45) then
        o0 ← ch optstring 0;
        if o0 =? 45 then Ok (1, set_ind (optind s + 1) (set_arg (Some arg) s)) else Ok (-1, s)
      else
      a1 ← ch arg 1;
      if a1 =? 0 then Ok (-1, s) else
      a2 ← (if a1 =? 45 then ch arg 2 else Ok 1);
      if a2 =? 0 then Ok (-1, set_ind (optind s + 1) s)
      else getopt_opt argv optstring arg (set_pos 1 s)
  end.

(** ** Long options *)

Record lopt := { name : list Z; has_arg : Z; flag : option Z; val : Z }.

(** Move argv[src] down to position dest. The slots are read and written in
    the order of the C loop. *)
Definition permute (argv : list (list Z)) (dest src : nat) : list (list Z) :=
  let tmp := argv !!! src in
  let av := foldl (λ av i, <[i := av !!! (i - 1)%nat]> av) argv (reverse (seq (S dest) (src - dest))) in
  <[dest := tmp]> av.

(** The loop over the long options: the index of the match (negative when
    there is none) and the number of candidates. *)
Fixpoint long_match (lo : list lopt) (i : nat) (nm : list Z) (nl : nat) (all : list lopt) (m cnt : Z) : Z * Z :=
  match lo with
  | [] => (m, cnt)
  | o :: lo =>
      if negb (bool_decide (take nl (name o) = take nl nm)) then long_match lo (S i) nm nl all m cnt
      else if (length (name o) =? nl)%nat then (Z.of_nat i, 1)
      else
        let om := all !! Z.to_nat m in
        let differs := bool_decide (m < 0) ||
          match om with
          | Some om => negb (has_arg o =? has_arg om) || negb (bool_decide (flag o = flag om)) || negb (val o =? val om)
          | None => true
          end in
        long_match lo (S i) nm nl all (if m <? 0 then Z.of_nat i else m) (if differs then cnt + 1 else cnt)
  end.

(** strchrnul (name, '='): the length of the name. *)
Fixpoint name_len (s : list Z) : nat :=
  match s with [] => 0 | x :: s => if x =? 61 then 0 else S (name_len s) end.

(** What long_core does with the word [arg] once it is a long option. The
    third component is the index stored to *idx, if any. *)
Definition long_take (argv : list (list Z)) (os arg nm : list Z) (lo : list lopt) (m cnt : Z) (s : gstate)
  : res (Z * gstate * option Z) :=
  o0 ← ch os 0;
  let colon := o0 =? 58 in
  let nl := name_len nm in
  let s := set_ind (optind s + 1) s in
  if negb (cnt =? 1) then
    Ok (63, complain (if cnt =? 0 then Unrecognized else Ambiguous) arg (set_opt 0 s), None)
  else match lo !! Z.to_nat m with
  | None => Trap Segv
  | Some o =>
      let s := set_arg None s in
      let fin (s : gstate) : Z * gstate * option Z := match flag o with
        | Some f => (0, G (optarg s) (optind s) (opterr s) (optopt s) (optpos s) (stderr s) (<[f := val o]> (flags s)), Some m)
        | None => (val o, s, Some m)
        end in
      if (nl <? length nm)%nat then
        if has_arg o =? 0 then
          Ok (63, complain TakesNoArgument (take (length arg - length nm + nl) arg) (set_opt (val o) s), None)
        else Ok (fin (set_arg (Some (drop (S nl) nm)) s))
      else if has_arg o =? 1 then
        if length argv <=? optind s then
          Ok (if colon then 58 else 63, complain NeedsArgument arg (set_opt (val o) s), None)
        else
          a ← argv_at argv (optind s);
          Ok (fin (set_ind (optind s + 1) (set_arg a s)))
      else Ok (fin s)
  end.

Definition long_core (argv : list (list Z)) (optstring : list Z) (lo : list lopt) (longonly : bool) (s : gstate)
  : res (Z * gstate * option Z) :=
  let short := '(r, s) ← getopt argv optstring s; Ok (r, s, None) in
  parg ← argv_at argv (optind s);
  o0 ← ch optstring 0;
  let os := if (o0 =? 43) || (o0 =? 45) then drop 1 optstring else optstring in
  match parg with
  | None => short
  | Some arg =>
      a0 ← ch arg 0;
      if (length argv <=? optind s) || negb (optpos s =? 0) || negb (a0 =? 45) then short else
      a1 ← ch arg 1;
      a2 ← (if a1 =? 0 then Ok 0 else ch arg 2);
      if negb (((a1 =? 45) && negb (a2 =? 0)) || (longonly && negb (a1 =? 0) && negb (a1 =? 45))) then short else
      if longonly && negb (a1 =? 45) && (a2 =? 0) && bool_decide (is_Some (chr os a1)) then short else
      let nm := drop (if a1 =? 45 then 2 else 1) arg in
      let '(m, cnt) := long_match lo 0 nm (name_len nm) lo (-1) 0 in
      n0 ← ch nm 0;
      if longonly && negb (a1 =? 45) && (cnt =? 0) && bool_decide (is_Some (chr os n0)) then short else
      long_take argv os arg nm lo m cnt s
  end.

(** The search for the next option word from [i] on. *)
Fixpoint next_option (ws : list (list Z)) (i : Z) : option Z :=
  match ws with
  | [] => None
  | (c :: _ :: _) :: ws => if c =? 45 then Some i else next_option ws (i + 1)
  | _ :: ws => next_option ws (i + 1)
  end.

Definition long_permute (argv : list (list Z)) (optstring : list Z) (lo : list lopt) (longonly posix : bool) (s : gstate)
  : res (Z * gstate * list (list Z) * option Z) :=
  let s := set_arg None s in
  let s := if optind s =? 0 then set_pos 0 (set_ind 1 s) else s in
  if length argv <=? optind s then Ok (-1, s, argv, None) else
  if optind s <? 0 then Trap Segv else
  let skipped := optind s in
  o0 ← ch optstring 0;
  let resume := if (optpos s =? 0) && negb (o0 =? 43) && negb (o0 =? 45) && negb posix
                then next_option (drop (Z.to_nat (optind s)) argv) (optind s) else Some (optind s) in
  match resume with
  | None => Ok (-1, s, argv, None)
  | Some resumed =>
      '(r, s, idx) ← long_core argv optstring lo longonly (set_ind resumed s);
      if skipped <? resumed then
        let cnt := optind s - resumed in
        let argv := Nat.iter (Z.to_nat cnt) (λ av, permute av (Z.to_nat skipped) (Z.to_nat (optind s - 1))) argv in
        Ok (r, set_ind (skipped + cnt) s, argv, idx)
      else Ok (r, s, argv, idx)
  end.

Definition getopt_long (argv : list (list Z)) (optstring : list Z) (lo : list lopt) (posix : bool) (s : gstate) :=
  long_permute argv optstring lo false posix s.
Definition getopt_long_only (argv : list (list Z)) (optstring : list Z) (lo : list lopt) (posix : bool) (s : gstate) :=
  long_permute argv optstring lo true posix s.

Definition g_init : gstate := G None 1 1 0 0 [] ∅.

(** prog -ab -cX -c Y -- z with "abc:" *)
Definition words_ex : list (list Z) := [[112]; [45; 97; 98]; [45; 99; 88]; [45; 99]; [89]; [45; 45]; [122]].
Fixpoint runs (n : nat) (argv : list (list Z)) (os : list Z) (s : gstate) : res (list (Z * option (list Z)) * gstate) :=
  match n with
  | O => Ok ([], s)
  | S n => '(r, s) ← getopt argv os s; '(l, s') ← runs n argv os s; Ok ((r, optarg s) :: l, s')
  end.
Example getopt_ex :
  (runs 5 words_ex [97; 98; 99; 58] g_init ≫= λ '(l, s), Ok (l, optind s)) =
  Ok ([(97, None); (98, None); (99, Some [88]); (99, Some [89]); (-1, None)], 6).
Proof. vm_compute. reflexivity. Qed.

(** ** A cluster of short options behind an operand

    For prog x -ab the first call of getopt_long returns 'a' with optind at
    the operand and optpos inside the cluster; the second call reads the
    operand at that position, behind its terminator. With prog foo -ab it
    returns '?' for the letter o of the operand, not 'b'. *)
Definition long2 (argv : list (list Z)) : res (Z * Z * Z * Z) :=
  '(r1, s, argv, _) ← getopt_long argv [97; 98] [] false g_init;
  '(r2, s, argv, _) ← getopt_long argv [97; 98] [] false s;
  Ok (r1, r2, optopt s, optind s).

Lemma getopt_long_cluster :
  long2 [[112]; [45; 97; 98]] = Ok (97, 98, 0, 2) ∧
  long2 [[112]; [120]; [45; 97; 98]] = Trap Segv ∧
  long2 [[112]; [102; 111; 111]; [45; 97; 98]] = Ok (97, 63, 111, 2).
Proof. vm_compute. done. Qed.

(** ** The option grammar

    What is still to be read: the rest of the current word, empty between
    words, and the words after it. *)
Definition config : Type := list Z * list (list Z).

Inductive argkind := NoArg | Required | Optional.

Definition kind_of (os : list Z) (c : Z) : option argkind :=
  if decide (c = 58) then None else
  match chr os c with
  | None => None
  | Some d => if decide (d !! 1%nat = Some 58)
              then if decide (d !! 2%nat = Some 58) then Some Optional else Some Required
              else Some NoArg
  end.

Record outcome := Out { o_ret : Z; o_arg : option (list Z); o_opt : option Z; o_msg : option message }.

(** The option letters of an option string, and whether it asks for quiet
    diagnostics. *)
Definition letters (optstring : list Z) : list Z :=
  match optstring with c :: os => if decide (c = 45 ∨ c = 43) then os else optstring | [] => [] end.
Definition quiet (optstring : list Z) : bool := bool_decide (head (letters optstring) = Some 58).

Definition opt_step (optstring : list Z) (c : Z) (cs : list Z) (rest : list (list Z)) : outcome * config :=
  match kind_of (letters optstring) c with
  | None => (Out 63 None (Some c) (if quiet optstring then None else Some Unrecognized), (cs, rest))
  | Some NoArg => (Out c None None None, (cs, rest))
  | Some k =>
      if decide (cs = []) then
        match k, rest with
        | Required, a :: rest => (Out c (Some a) None None, ([], rest))
        | Required, [] => (if quiet optstring then Out 58 None (Some c) None else Out 63 None (Some c) (Some NeedsArgument), ([], []))
        | _, _ => (Out c None None None, ([], rest))
        end
      else (Out c (Some cs) None None, ([], rest))
  end.

Definition spec_step (optstring : list Z) (k : config) : outcome * config :=
  match k with
  | (c :: cs, rest) => opt_step optstring c cs rest
  | ([], []) => (Out (-1) None None None, ([], []))
  | ([], w :: rest) =>
      match w with
      | d :: c :: cs =>
          if decide (d = 45) then
            if decide (c = 45 ∧ cs = []) then (Out (-1) None None None, ([], rest)) else opt_step optstring c cs rest
          else if decide (head optstring = Some 45) then (Out 1 (Some w) None None, ([], rest))
          else (Out (-1) None None None, ([], w :: rest))
      | _ => if decide (head optstring = Some 45 ∧ w ≠ [45]) then (Out 1 (Some w) None None, ([], rest))
             else (Out (-1) None None None, ([], w :: rest))
      end
  end.

(** The input left, in bytes and words. *)
Definition left_size (k : config) : nat := (length k.1 + sum_list_with (λ w, S (length w)) k.2)%nat.

(** What the global variables say is left. *)
Definition abs (argv : list (list Z)) (s : gstate) : config :=
  if decide (optpos s = 0) then ([], drop (Z.to_nat (optind s)) argv)
  else (drop (Z.to_nat (optpos s)) (argv !!! Z.to_nat (optind s)), drop (S (Z.to_nat (optind s))) argv).

Record scan_wf (argv : list (list Z)) (s : gstate) : Prop := {
  sw_ind : 0 < optind s;
  sw_pos : optpos s ≠ 0 → 0 < optpos s ∧ optind s < length argv ∧
             optpos s < length (argv !!! Z.to_nat (optind s));
}.

(** The variables after a call: the outcome's result, argument, optopt and
    diagnostic. *)
Definition shows (o : outcome) (r : Z) (s s' : gstate) : Prop :=
  r = o_ret o ∧ optarg s' = o_arg o ∧ optopt s' = default (optopt s) (o_opt o) ∧ opterr s' = opterr s ∧
  flags s' = flags s ∧
  stderr s' = stderr s ++ match o_msg o with Some m => if opterr s =? 0 then [] else [(m, [optopt s'])] | None => [] end.

Lemma ch_le s (i : nat) : (i <= length s)%nat → ch s i = Ok (default 0 (s !! i)).
Proof.
  intros H. unfold ch. destruct (Z.leb_spec 0 i); [|lia]. rewrite Nat2Z.id. cbn [andb].
  destruct (Z.ltb_spec i (length s)) as [Hlt|Hge].
  - destruct (lookup_lt_is_Some_2 s i) as [x Hx]; [lia|]. by rewrite (list_lookup_total_correct _ _ _ Hx), Hx.
  - rewrite lookup_ge_None_2 by lia. destruct (Z.eqb_spec i (length s)); [done | lia].
Qed.

Lemma ch_head s : ch s 0 = Ok (default 0 (head s)).
Proof. change 0 with (Z.of_nat 0) at 1. rewrite (ch_le s 0) by lia. by destruct s. Qed.

Lemma ch_1 s : (1 <= length s)%nat → ch s 1 = Ok (default 0 (s !! 1%nat)).
Proof. apply (ch_le s 1). Qed.

Lemma ch_2 s : (2 <= length s)%nat → ch s 2 = Ok (default 0 (s !! 2%nat)).
Proof. apply (ch_le s 2). Qed.

Lemma default_eqb (o : option Z) x : x ≠ 0 → (default 0 o =? x) = bool_decide (o = Some x).
Proof.
  intros Hx. destruct o as [y|]; simpl.
  - destruct (Z.eqb_spec y x) as [->|]; [by rewrite bool_decide_eq_true_2 | rewrite bool_decide_eq_false_2; congruence].
  - destruct (Z.eqb_spec 0 x); [lia | done].
Qed.

Lemma chr_some s c d : c ≠ 0 → chr s c = Some d → ∃ d', d = c :: d' ∧ suffix d s.
Proof.
  intros Hc. induction s as [|x s IH]; simpl; [by destruct (Z.eqb_spec c 0)|].
  destruct (Z.eqb_spec x c) as [->|]; [intros [= <-]; exists s; split; [done | reflexivity]|].
  intros (d' & -> & Hs)%IH. exists d'. split; [done|]. by apply suffix_cons_r.
Qed.

Lemma letters_ok optstring :
  (if (default 0 (head optstring) =? 45) || (default 0 (head optstring) =? 43) then drop 1 optstring else optstring)
  = letters optstring.
Proof.
  rewrite !default_eqb by lia. unfold letters. destruct optstring as [|c os]; [done|].
  destruct (decide (c = 45 ∨ c = 43)) as [H|H]; simpl; repeat case_bool_decide; simplify_eq; try done; naive_solver.
Qed.

Lemma letters_nz optstring : Forall (λ c, c ≠ 0) optstring → Forall (λ c, c ≠ 0) (letters optstring).
Proof. destruct optstring as [|c os]; [done|]. intros H. unfold letters. case_decide; [by inversion H | done]. Qed.

Lemma argv_at_ok argv (i : nat) : (i <= length argv)%nat → argv_at argv i = Ok (argv !! i).
Proof.
  intros. unfold argv_at. destruct (Z.leb_spec 0 i); [|lia]. destruct (Z.leb_spec i (length argv)); [|lia].
  by rewrite Nat2Z.id.
Qed.

(** The state after the option letter has been read. *)
Definition advance (i p : nat) (cs : list Z) (s : gstate) : gstate :=
  G (optarg s) (if decide (cs = []) then S i else i) (opterr s) (optopt s) (if decide (cs = []) then 0 else S p) (stderr s) (flags s).

Lemma advance_abs argv (i p : nat) arg c cs s :
  argv !! i = Some arg → drop p arg = c :: cs → (0 < i)%nat → 
  scan_wf argv (advance i p cs s) ∧ abs argv (advance i p cs s) = (cs, drop (S i) argv).
Proof.
  intros Hi Hd Hpos. assert (length arg = p + S (length cs))%nat as Hl.
  { pose proof (f_equal length Hd) as E. rewrite length_drop in E. simpl in E. lia. }
  pose proof (lookup_lt_Some _ _ _ Hi). unfold abs, advance. cbn [optpos optind].
  destruct (decide (cs = [])) as [->|Hcs].
  - split; [split; cbn [optpos optind]; [lia | done]|]. rewrite decide_True by done. by rewrite Nat2Z.id.
  - assert (length cs ≠ 0%nat) by (by destruct cs).
    rewrite decide_False by lia. rewrite !Nat2Z.id, (list_lookup_total_correct _ _ _ Hi).
    split; [split; cbn [optpos optind]; [lia|]; rewrite Nat2Z.id, (list_lookup_total_correct _ _ _ Hi); lia|].
    f_equal. replace (S p) with (p + 1)%nat by lia. by rewrite <- drop_drop, Hd.
Qed.

Section Step.
Context (argv : list (list Z)) (optstring : list Z) (Hos : Forall (λ c, c ≠ 0) optstring).

Definition refines (k : outcome * config) (r : Z) (s s' : gstate) : Prop :=
  scan_wf argv s' ∧ shows k.1 r s s' ∧ abs argv s' = k.2.

Lemma refines_ext k r s s1 s' :
  scan_wf argv s1 → abs argv s1 = k.2 → optind s' = optind s1 → optpos s' = optpos s1 → shows k.1 r s s' →
  refines k r s s'.
Proof using.
  intros Hw Ha Hi Hp Hs. split; [|split; [done|]].
  - destruct Hw as [H1 H2]. split; by rewrite Hi, ?Hp.
  - rewrite <- Ha. unfold abs. by rewrite Hi, Hp.
Qed.

Lemma boundary_ok (i : nat) s : (0 < i)%nat → optind s = i → optpos s = 0 → scan_wf argv s ∧ abs argv s = ([], drop i argv).
Proof using.
  intros Hi Ei Ep. split; [split; [lia | done]|]. unfold abs. rewrite decide_True by done. by rewrite Ei, Nat2Z.id.
Qed.

(** The outcome without a diagnostic, from a state [s1] that kept the
    variables of [s]. *)
Lemma shows_quiet c s s1 :
  optarg s1 = None ∧ optopt s1 = optopt s ∧ opterr s1 = opterr s ∧ stderr s1 = stderr s ∧ flags s1 = flags s →
  shows (Out c None None None) c s s1.
Proof using. intros (? & ? & ? & ? & ?). split_and!; try done. by rewrite app_nil_r. Qed.

Lemma unknown_ok c k s1 s :
  optarg s1 = None ∧ optopt s1 = optopt s ∧ opterr s1 = opterr s ∧ stderr s1 = stderr s ∧ flags s1 = flags s →
  scan_wf argv s1 → abs argv s1 = k →
  refines (Out 63 None (Some c) (if quiet optstring then None else Some Unrecognized), k) 63 s
    (if quiet optstring then set_opt c s1 else complain Unrecognized [c] (set_opt c s1)).
Proof using.
  intros (Ha & Ho & He & Hs & Hf) Hw Hk. destruct (quiet optstring).
  - apply (refines_ext _ _ _ s1); try done. split_and!; try done. rewrite app_nil_r. done.
  - unfold complain. cbn [opterr set_opt]. rewrite He. destruct (opterr s =? 0) eqn:E; apply (refines_ext _ _ _ s1); try done.
    + split_and!; try done. simpl. rewrite E, app_nil_r. done.
    + split_and!; try done. simpl. rewrite E, Hs. done.
Qed.

Lemma missing_ok c s1 s k :
  optopt s1 = optopt s ∧ opterr s1 = opterr s ∧ stderr s1 = stderr s ∧ flags s1 = flags s →
  scan_wf argv s1 → abs argv s1 = k →
  refines (Out 63 None (Some c) (Some NeedsArgument), k) 63 s (complain NeedsArgument [c] (set_opt c (set_arg None s1))).
Proof using.
  intros (Ho & He & Hs & Hf) Hw Hk. unfold complain. cbn [opterr set_opt set_arg]. rewrite He.
  destruct (opterr s =? 0) eqn:E; apply (refines_ext _ _ _ s1); try done.
  - split_and!; try done. simpl. rewrite E, app_nil_r. done.
  - split_and!; try done. simpl. rewrite E, Hs. done.
Qed.

Lemma getopt_opt_ok (i p : nat) arg c cs s :
  argv !! i = Some arg → drop p arg = c :: cs → (0 < i)%nat → c ≠ 0 → Forall (λ c, c ≠ 0) cs →
  optind s = i → optpos s = p → optarg s = None →
  wp (getopt_opt argv optstring arg s) (λ '(r, s'), refines (opt_step optstring c cs (drop (S i) argv)) r s s').
Proof using Hos.
  intros Hi Hd Hpos Hc Hcs Ei Ep Ea. destruct (advance_abs argv i p arg c cs s Hi Hd Hpos) as [Hw Habs].
  assert (length arg = p + S (length cs))%nat as Hl.
  { pose proof (f_equal length Hd) as E. rewrite length_drop in E. simpl in E. lia. }
  assert (arg !! p = Some c) as Hp by (rewrite <- (Nat.add_0_r p), <- lookup_drop, Hd; done).
  assert (arg !! S p = head cs) as HSp.
  { replace (S p) with (p + 1)%nat by lia. rewrite <- lookup_drop, Hd. by destruct cs. }
  pose proof (lookup_lt_Some _ _ _ Hi) as Hilt.
  unfold getopt_opt. rewrite ch_head. cbn [mbind res_bind]. rewrite letters_ok. cbn [optpos optind set_pos].
  rewrite Ep, ch_le, Hp by lia. cbn [mbind res_bind default from_option id optpos optind set_pos].
  replace (p + 1) with (Z.of_nat (S p)) by lia. rewrite ch_le, HSp by lia. cbn [mbind res_bind].
  assert ((if default 0 (head cs) =? 0 then set_pos 0 (set_ind (optind s + 1) (set_pos (S p) s)) else set_pos (S p) s)
    = advance i p cs s) as ->.
  { unfold advance. destruct cs as [|x cs]; simpl; unfold set_pos, set_ind; simpl.
    - rewrite Ei. f_equal. lia.
    - inversion Hcs; subst. destruct (Z.eqb_spec x 0); [done|]. by rewrite Ei. }
  rewrite ch_head. cbn [mbind res_bind]. rewrite default_eqb by lia. change (bool_decide _) with (quiet optstring).
  set (s1 := advance i p cs s) in *.
  assert (optarg s1 = None ∧ optopt s1 = optopt s ∧ opterr s1 = opterr s ∧ stderr s1 = stderr s ∧ flags s1 = flags s) as Hs1
    by (split_and!; done || exact Ea).
  assert (optind s1 = if decide (cs = []) then Z.of_nat (S i) else i) as Hi1 by (unfold s1, advance; cbn [optind]; by case_decide).
  assert (optpos s1 = if decide (cs = []) then 0 else Z.of_nat (S p)) as Hp1 by done.
  clearbody s1. unfold opt_step, kind_of.
  assert ((if c =? 58 then None else chr (letters optstring) c) = (if decide (c = 58) then None else chr (letters optstring) c)) as ->
    by (destruct (Z.eqb_spec c 58); destruct (decide (c = 58)); congruence).
  destruct (decide (c = 58)) as [_|_]; [by apply wp_ok, (unknown_ok _ _ s1)|].
  destruct (chr (letters optstring) c) as [d|] eqn:Ed; [|by apply wp_ok, (unknown_ok _ _ s1)].
  apply chr_some in Ed as (d' & -> & _); [|done].
  rewrite ch_1 by (simpl; lia). cbn [mbind res_bind]. rewrite default_eqb by lia.
  destruct (decide ((c :: d') !! 1%nat = Some 58)) as [E1|E1];
    [rewrite bool_decide_eq_true_2 by done | rewrite bool_decide_eq_false_2 by done]; cbn [negb].
  2:{ apply wp_ok. apply (refines_ext _ _ _ s1); try done. by apply shows_quiet. }
  cbn [optpos set_arg]. assert (2 <= length (c :: d'))%nat as Hl2 by (apply lookup_lt_Some in E1; lia).
  destruct (decide (cs = [])) as [->|Hcs1].
  - rewrite Hp1, Z.eqb_refl. cbn [negb]. rewrite ch_2 by done. cbn [mbind res_bind].
    rewrite default_eqb by lia. cbn [optind set_arg]. rewrite Hi1.
    destruct (decide ((c :: d') !! 2%nat = Some 58)) as [E2|E2];
      [rewrite bool_decide_eq_true_2 by done | rewrite bool_decide_eq_false_2 by done].
    { apply wp_ok. apply (refines_ext _ _ _ s1); try done. apply shows_quiet; split; [done | exact (proj2 Hs1)]. }
    destruct (Z.leb_spec (length argv) (S i)) as [Hge|Hlt].
    + assert (drop (S i) argv = []) as Edr by (apply drop_ge; lia). rewrite Edr in *.
      destruct (quiet optstring); apply wp_ok.
      * apply (refines_ext _ _ _ s1); try done. split_and!; try done; try apply Hs1. rewrite app_nil_r. apply Hs1.
      * apply (missing_ok _ s1); [exact (proj2 Hs1) | done | done].
    + destruct (lookup_lt_is_Some_2 argv (S i)) as [a Ha]; [lia|]. rewrite argv_at_ok, Ha by lia. cbn [mbind res_bind].
      rewrite (drop_S _ _ _ Ha). apply wp_ok. set (s2 := set_ind _ _).
      destruct (boundary_ok (S (S i)) s2) as [Hw2 Hab2]; [lia | unfold s2; simpl; lia | done|].
      apply (refines_ext _ _ _ s2); try done. split_and!; try done; try apply Hs1. rewrite app_nil_r. apply Hs1.
  - rewrite Hp1. destruct (Z.eqb_spec (S p) 0) as [|_]; [lia|]. cbn [negb]. apply wp_ok. set (s2 := set_pos 0 _).
    assert (drop (Z.to_nat (S p)) arg = cs) as Edr.
    { rewrite Nat2Z.id. replace (S p) with (p + 1)%nat by lia. by rewrite <- drop_drop, Hd. }
    destruct (boundary_ok (S i) s2) as [Hw2 Hab2]; [lia | unfold s2; simpl; lia | done|].
    destruct (decide ((c :: d') !! 2%nat = Some 58)).
    all: apply (refines_ext _ _ _ s2); try done; split_and!; try done; try apply Hs1;
      [unfold s2; cbn [optarg set_pos set_ind set_arg o_arg fst]; by rewrite Edr | rewrite app_nil_r; apply Hs1].
Qed.
End Step.

Lemma opt_step_size os c cs rest :
  (left_size (opt_step os c cs rest).2 < left_size (c :: cs, rest))%nat.
Proof.
  unfold opt_step, left_size. destruct (kind_of _ _) as [[]|]; repeat case_decide; destruct rest; simpl; lia.
Qed.

Lemma opt_step_ret os c cs rest : 0 < c → o_ret (opt_step os c cs rest).1 ≠ -1.
Proof.
  intros Hc. unfold opt_step. destruct (kind_of _ _) as [[]|]; repeat case_decide; destruct rest; simpl; try lia;
    destruct (quiet os); simpl; lia.
Qed.

(** What a fresh scan starts from: the words after the program name. *)
Definition restart (s : gstate) : gstate := if optind s =? 0 then set_pos 0 (set_ind 1 s) else s.

Lemma getopt_ok argv optstring s :
  Forall (Forall (λ c, 0 < c < 256)) argv → Forall (λ c, c ≠ 0) optstring → scan_wf argv (restart s) →
  wp (getopt argv optstring s) (λ '(r, s'), refines argv (spec_step optstring (abs argv (restart s))) r s s' ∧
    (r = -1 ∨ (left_size (abs argv s') < left_size (abs argv (restart s)))%nat)).
Proof.
  intros Hargv Hos Hw. unfold getopt.
  assert ((if optind (set_arg None s) =? 0 then set_pos 0 (set_ind 1 (set_arg None s)) else set_arg None s)
    = set_arg None (restart s)) as -> by (unfold restart; cbn [optind set_arg]; by destruct (optind s =? 0)).
  set (s0 := restart s) in *. assert (opterr s0 = opterr s ∧ optopt s0 = optopt s ∧ stderr s0 = stderr s ∧ flags s0 = flags s) as Hs0
    by (unfold s0, restart; case_match; done).
  clearbody s0. cbn [optind optpos set_arg]. destruct Hw as [Hind Hpos].
  set (i := Z.to_nat (optind s0)). assert (optind s0 = i) as Ei by lia. rewrite Ei.
  assert (∀ k s', optarg s' = None ∧ optopt s' = optopt s ∧ opterr s' = opterr s ∧ stderr s' = stderr s ∧ flags s' = flags s →
    scan_wf argv s' → abs argv s' = k → refines argv (Out (-1) None None None, k) (-1) s s') as Hstop.
  { intros k s' H1 H2 H3. split; [done|]. split; [by apply shows_quiet | done]. }
  assert (∀ c cs p arg, argv !! i = Some arg → drop p arg = c :: cs → (p ≠ 0 → 1 <= p)%nat →
    wp (getopt_opt argv optstring arg (set_pos p (set_arg None s0))) (λ '(r, s'),
      refines argv (opt_step optstring c cs (drop (S i) argv)) r s s' ∧
      (r = -1 ∨ (left_size (abs argv s') < left_size (c :: cs, drop (S i) argv))%nat))) as Hopt.
  { intros c cs p arg Ha Hd _. assert (Forall (λ c, 0 < c < 256) (c :: cs)) as Hcc.
    { rewrite <- Hd. apply Forall_drop. by eapply Forall_lookup_1 in Hargv. }
    inversion Hcc as [|? ? Hc Hcs]; subst.
    eapply wp_mono; [apply (getopt_opt_ok argv optstring Hos i p arg c cs)|]; try done; [lia | lia | |].
    { eapply Forall_impl; [exact Hcs|]. intros; simpl in *; lia. }
    intros [r s'] (R1 & R2 & R3). split.
    - split; [done|]. split; [|done]. destruct Hs0 as (E1 & E2 & E3 & E4). unfold shows in *. cbn [optopt opterr stderr flags set_pos set_arg] in R2.
      by rewrite E1, E2, E3, E4 in R2.
    - right. rewrite R3. apply opt_step_size. }
  destruct (Z.leb_spec (length argv) i) as [Hge|Hlt].
  { apply wp_ok. split; [|by left]. unfold abs. destruct (decide (optpos s0 = 0)) as [E|E]; [|destruct (Hpos E); lia].
    rewrite drop_ge by lia. simpl. apply Hstop; [split; [done|]; tauto | split; done |].
    unfold abs. cbn [optpos optind set_arg]. rewrite decide_True by done. by rewrite drop_ge by lia. }
  destruct (lookup_lt_is_Some_2 argv i) as [arg Ha]; [lia|]. rewrite argv_at_ok, Ha by lia. cbn [mbind res_bind].
  unfold abs at 1 3. destruct (decide (optpos s0 = 0)) as [E|E].
  2:{ destruct (Hpos E) as (P1 & P2 & P3). rewrite Ei, Nat2Z.id in *. fold i. rewrite (list_lookup_total_correct _ _ _ Ha) in *.
      destruct (Z.eqb_spec (optpos s0) 0) as [|_]; [done|]. cbn [negb].
      destruct (drop (Z.to_nat (optpos s0)) arg) as [|c cs] eqn:Ed.
      { apply (f_equal length) in Ed. rewrite length_drop in Ed. simpl in Ed. lia. }
      cbn [spec_step]. specialize (Hopt c cs _ arg Ha Ed ltac:(lia)).
      rewrite Z2Nat.id in Hopt by lia. replace (set_arg None s0) with (set_pos (optpos s0) (set_arg None s0)) by done. exact Hopt. }
  rewrite E, Z.eqb_refl, ?Ei, ?Nat2Z.id, (drop_S _ _ _ Ha). cbn [negb].
  set (s1 := set_arg None s0) in *.
  assert (optarg s1 = None ∧ optopt s1 = optopt s ∧ opterr s1 = opterr s ∧ stderr s1 = stderr s ∧ flags s1 = flags s) as Hs1
    by (split; [done | tauto]).
  destruct (boundary_ok argv i s1) as [Hw1 Hab1]; [lia | done | done|]. rewrite (drop_S _ _ _ Ha) in Hab1.
  destruct (boundary_ok argv (S i) (set_ind (i + 1) s1)) as [Hw2 Hab2]; [lia | simpl; lia | done|].
  destruct (boundary_ok argv (S i) (set_ind (i + 1) (set_arg (Some arg) s1))) as [Hw3 Hab3]; [lia | simpl; lia | done|].
  assert (wp (o0 ← ch optstring 0; if o0 =? 45 then Ok (1, set_ind (i + 1) (set_arg (Some arg) s1)) else Ok (-1, s1)) (λ '(r, s'),
    refines argv (if decide (head optstring = Some 45) then (Out 1 (Some arg) None None, ([], drop (S i) argv))
                  else (Out (-1) None None None, ([], arg :: drop (S i) argv))) r s s' ∧
    (r = -1 ∨ (left_size (abs argv s') < left_size ([], arg :: drop (S i) argv))%nat))) as Hoper.
  { rewrite ch_head. cbn [mbind res_bind]. rewrite default_eqb by lia. destruct (decide (head optstring = Some 45)) as [Eh|Eh];
      [rewrite bool_decide_eq_true_2 by done | rewrite bool_decide_eq_false_2 by done]; apply wp_ok.
    - split; [|right; rewrite Hab3; unfold left_size; simpl; lia]. split; [done|]. split; [|done].
      split_and!; try done; try apply Hs1. rewrite app_nil_r. apply Hs1.
    - split; [by apply Hstop | by left]. }
  cbn [spec_step]. rewrite (ch_head arg). cbn [mbind res_bind]. rewrite default_eqb by lia.
  assert (Forall (λ c, 0 < c < 256) arg) as Hnz by (by eapply Forall_lookup_1 in Hargv).
  destruct arg as [|d [|c cs]].
  - rewrite bool_decide_eq_false_2 by done. cbn [negb]. eapply wp_mono; [exact Hoper|]. intros [r s'].
    destruct (decide (head optstring = Some 45)); [rewrite decide_True by done | rewrite decide_False by tauto]; done.
  - cbn [head]. destruct (decide (d = 45)) as [->|Hd].
    + rewrite bool_decide_eq_true_2 by done. cbn [negb]. rewrite ch_1 by (simpl; lia).
      rewrite decide_False by tauto. cbn. apply wp_ok. split; [by apply Hstop | by left].
    + rewrite bool_decide_eq_false_2 by congruence. cbn [negb]. eapply wp_mono; [exact Hoper|]. intros [r s'].
      destruct (decide (head optstring = Some 45)); [rewrite decide_True by (split; congruence) | rewrite decide_False by tauto]; done.
  - cbn [head]. destruct (decide (d = 45)) as [->|Hd].
    2:{ rewrite bool_decide_eq_false_2 by congruence. cbn [negb]. exact Hoper. }
    rewrite bool_decide_eq_true_2 by done. cbn [negb]. rewrite ch_1 by (simpl; lia).
    cbn [mbind res_bind lookup list_lookup default from_option id].
    inversion Hnz as [|? ? _ Hnz1]; subst. inversion Hnz1 as [|? ? Hc Hcs]; subst.
    destruct (Z.eqb_spec c 0) as [|_]; [lia|]. specialize (Hopt c cs 1%nat _ Ha eq_refl ltac:(lia)).
    assert (wp (getopt_opt argv optstring (45 :: c :: cs) (set_pos 1 s1)) (λ '(r, s'),
      refines argv (opt_step optstring c cs (drop (S i) argv)) r s s' ∧
      (r = -1 ∨ (left_size (abs argv s') < left_size ([], (45 :: c :: cs)%Z :: drop (S i) argv))%nat))) as Hword.
    { eapply wp_mono; [exact Hopt|]. intros [r s'] [H1 H2]. split; [done|]. unfold left_size in *. simpl in *. destruct H2; [by left | right; lia]. }
    destruct (Z.eqb_spec c 45) as [->|Hne]; cbn [mbind res_bind].
    + rewrite ch_2 by (simpl; lia). cbn [mbind res_bind lookup list_lookup].
      destruct cs as [|x cs]; cbn [lookup list_lookup default from_option id].
      * rewrite Z.eqb_refl, decide_True by done. apply wp_ok. split; [by apply Hstop | by left].
      * inversion Hcs; subst. destruct (Z.eqb_spec x 0) as [|_]; [lia|]. rewrite decide_False by naive_solver. exact Hword.
    + rewrite decide_False by naive_solver. exact Hword.
Qed.

(** ** A whole scan *)

(** Calls until the first -1: the results with their arguments. *)
Fixpoint getopt_run (f : nat) (argv : list (list Z)) (optstring : list Z) (s : gstate)
  : res (list (Z * option (list Z)) * gstate) :=
  match f with
  | O => Trap Fuel
  | S f =>
      '(r, s) ← getopt argv optstring s;
      if r =? -1 then Ok ([], s) else
      '(l, s') ← getopt_run f argv optstring s; Ok ((r, optarg s) :: l, s')
  end.

Fixpoint spec_run (f : nat) (optstring : list Z) (k : config) : list (Z * option (list Z)) * config :=
  match f with
  | O => ([], k)
  | S f =>
      let '(o, k) := spec_step optstring k in
      if decide (o_ret o = -1) then ([], k)
      else let '(l, k') := spec_run f optstring k in ((o_ret o, o_arg o) :: l, k')
  end.

Lemma restart_wf argv s : scan_wf argv s → restart s = s.
Proof. intros [H _]. unfold restart. by destruct (Z.eqb_spec (optind s) 0); [lia|]. Qed.

Lemma getopt_run_ok argv optstring f s :
  Forall (Forall (λ c, 0 < c < 256)) argv → Forall (λ c, c ≠ 0) optstring → scan_wf argv (restart s) →
  (left_size (abs argv (restart s)) < f)%nat →
  wp (getopt_run f argv optstring s) (λ '(l, s'), scan_wf argv s' ∧
    (l, abs argv s') = spec_run f optstring (abs argv (restart s))).
Proof.
  intros Ha Ho. revert s. induction f as [|f IH]; intros s Hw Hf; [lia|]. cbn [getopt_run spec_run].
  apply wp_bind. eapply wp_mono; [by apply getopt_ok|]. intros [r s1] [(R1 & R2 & R3) Hlt].
  destruct (spec_step optstring (abs argv (restart s))) as [o k]. cbn [fst snd] in *. destruct R2 as (-> & R4 & _).
  destruct (Z.eqb_spec (o_ret o) (-1)) as [E|E].
  { rewrite decide_True by done. apply wp_ok. by rewrite R3. }
  rewrite decide_False by done. destruct Hlt as [|Hlt]; [done|]. apply wp_bind. rewrite <- (restart_wf _ _ R1) in Hlt, R3.
  eapply wp_mono; [apply IH; [by rewrite (restart_wf _ _ R1) | lia]|]. intros [l s2] [H1 H2].
  apply wp_ok. split; [done|]. rewrite R3 in H2. rewrite <- H2, R4. done.
Qed.

(** ** Long options *)

Section Match.
Context (all : list lopt) (nm : list Z) (nl : nat).

(** The options whose names start with the given one, and those with that
    very name. *)
Definition candidate (o : lopt) : Prop := take nl (name o) = take nl nm.
Definition exact_name (o : lopt) : Prop := candidate o ∧ length (name o) = nl.
Definition same_option (o o' : lopt) : Prop := has_arg o = has_arg o' ∧ flag o = flag o' ∧ val o = val o'.

(** The state of the search after the options [done]. *)
Definition search_inv (seen : list lopt) (m cnt : Z) : Prop :=
  Forall (λ o, ¬ exact_name o) seen ∧
  ((m = -1 ∧ cnt = 0 ∧ Forall (λ o, ¬ candidate o) seen) ∨
   ∃ (k : nat) ok, m = k ∧ seen !! k = Some ok ∧ candidate ok ∧ (∀ j o, (j < k)%nat → seen !! j = Some o → ¬ candidate o) ∧
     1 <= cnt ∧ (cnt = 1 ↔ ∀ o, o ∈ seen → candidate o → same_option o ok)).

Lemma long_match_ok lo seen m cnt :
  all = seen ++ lo → search_inv seen m cnt →
  let '(m', cnt') := long_match lo (length seen) nm nl all m cnt in
  (∃ (k : nat) o, m' = k ∧ cnt' = 1 ∧ all !! k = Some o ∧ exact_name o ∧
     ∀ j o', (j < k)%nat → all !! j = Some o' → ¬ exact_name o') ∨
  (search_inv all m' cnt').
Proof using.
  revert seen m cnt. induction lo as [|o lo IH]; intros seen m cnt Hall Hinv; cbn [long_match].
  { right. rewrite Hall, app_nil_r. done. }
  assert (all !! length seen = Some o) as Ho by (rewrite Hall; by apply list_lookup_middle).
  assert (∀ m cnt, search_inv (seen ++ [o]) m cnt →
    let '(m', cnt') := long_match lo (S (length seen)) nm nl all m cnt in
    (∃ (k : nat) o, m' = k ∧ cnt' = 1 ∧ all !! k = Some o ∧ exact_name o ∧
       ∀ j o', (j < k)%nat → all !! j = Some o' → ¬ exact_name o') ∨ search_inv all m' cnt') as IH'.
  { intros m1 c1 H1. replace (S (length seen)) with (length (seen ++ [o])) by (rewrite length_app; simpl; lia).
    apply IH; [by rewrite <- app_assoc | done]. }
  destruct Hinv as [Hex Hinv]. case_bool_decide as Hc; cbn [negb].
  2:{ apply IH'. split; [apply Forall_app; split; [done|]; constructor; [|done]; by intros [? _]|].
      destruct Hinv as [(-> & -> & Hn)|(k & ok & -> & Hk & Hck & Hmin & H1 & Hiff)].
      - left. split_and!; try done. apply Forall_app. split; [done|]. by constructor.
      - right. exists k, ok. pose proof (lookup_lt_Some _ _ _ Hk). rewrite lookup_app_l by done.
        split_and!; try done.
        + intros j o' Hj. rewrite lookup_app_l by lia. by apply Hmin.
        + rewrite Hiff. split; intros Hall' o'; [|intros ?; apply Hall'; set_solver].
          rewrite elem_of_app, list_elem_of_singleton. intros [Ho' | ->] Hc'; [by apply Hall' | done]. }
  destruct (Nat.eqb_spec (length (name o)) nl) as [El|El].
  { left. exists (length seen), o. split_and!; try done. intros j o' Hj Hj'. rewrite Hall, lookup_app_l in Hj' by done.
    by apply (Forall_lookup_1 _ _ _ _ Hex Hj'). }
  apply IH'. split.
  { apply Forall_app; split; [done|]. constructor; [|done]. by intros [_ ?]. }
  right. destruct Hinv as [(-> & -> & Hn)|(k & ok & -> & Hk & Hck & Hmin & H1 & Hiff)].
  - rewrite bool_decide_eq_true_2 by lia. cbn [orb]. exists (length seen), o. split_and!; [done|by apply list_lookup_middle|done| |lia|].
    + intros j o' Hj Hj'. rewrite lookup_app_l in Hj' by done. by apply (Forall_lookup_1 _ _ _ _ Hn Hj').
    + split; [intros _ | done]. intros o'. rewrite elem_of_app, list_elem_of_singleton. intros [Ho' | ->] Hc'; [|by split_and!].
      by eapply Forall_forall in Hn.
  - pose proof (lookup_lt_Some _ _ _ Hk) as Hlt. rewrite bool_decide_eq_false_2 by lia. destruct (Z.ltb_spec k 0); [lia|]. cbn [orb].
    rewrite Nat2Z.id. assert (all !! k = Some ok) as Hk' by (rewrite Hall, lookup_app_l by done; done). rewrite Hk'.
    exists k, ok. rewrite lookup_app_l by done.
    assert (negb (has_arg o =? has_arg ok) || negb (bool_decide (flag o = flag ok)) || negb (val o =? val ok) = false ↔ same_option o ok) as Hsame.
    { unfold same_option. rewrite !orb_false_iff, !negb_false_iff, !Z.eqb_eq, bool_decide_eq_true. tauto. }
    split_and!; try done; [intros j o' Hj; rewrite lookup_app_l by lia; by apply Hmin | case_match; lia|].
    split.
    + intros Ec o'. rewrite elem_of_app, list_elem_of_singleton. destruct (_ || _) eqn:Ed; [lia|].
      intros [Ho' | ->] Hc'; [by apply Hiff | by apply Hsame].
    + intros Hs. destruct (_ || _) eqn:Ed.
      * assert (same_option o ok) as Hso by (apply Hs; [set_solver | done]). apply Hsame in Hso. congruence.
      * apply Hiff. intros o' Ho'. apply Hs. set_solver.
Qed.
End Match.

(** ** Permutation *)

Lemma permute_ok (a m b : list (list Z)) (x : list Z) :
  permute (a ++ m ++ x :: b) (length a) (length a + length m) = a ++ x :: m ++ b.
Proof.
  unfold permute. replace (length a + length m - length a)%nat with (length m) by lia.
  assert ((a ++ m ++ x :: b) !!! (length a + length m)%nat = x) as Hx.
  { apply list_lookup_total_correct. rewrite lookup_app_r by lia. replace (length a + length m - length a)%nat with (length m) by lia.
    by apply list_lookup_middle. }
  rewrite Hx.
  assert (∀ m b y, ∃ z, foldl (λ av i, <[i := av !!! (i - 1)%nat]> av) (a ++ m ++ y :: b) (reverse (seq (S (length a)) (length m)))
    = a ++ z :: m ++ b) as Hsh.
  { clear. intros m. induction m as [|w m IH] using rev_ind; intros b y; [by exists y|].
    rewrite length_app, Nat.add_1_r, seq_S, reverse_snoc. cbn [foldl]. rewrite <- app_assoc. cbn [app].
    assert ((a ++ m ++ w :: y :: b) !!! (S (length a) + length m - 1)%nat = w) as ->.
    { apply list_lookup_total_correct. rewrite lookup_app_r by lia.
      replace (S (length a) + length m - 1 - length a)%nat with (length m) by lia. by apply list_lookup_middle. }
    assert (<[(S (length a) + length m)%nat:=w]> (a ++ m ++ w :: y :: b) = a ++ m ++ w :: w :: b) as ->.
    { rewrite insert_app_r_alt by lia. f_equal. rewrite insert_app_r_alt by lia. f_equal.
      by replace (S (length a) + length m - length a - length m)%nat with 1%nat by lia. }
    destruct (IH (w :: b) w) as [z Hz]. exists z. by rewrite Hz, <- (app_assoc m [w] b). }
  destruct (Hsh m b x) as [z ->]. rewrite insert_app_r_alt by lia. by rewrite Nat.sub_diag.
Qed.

Lemma permute_iter (a p q b : list (list Z)) :
  Nat.iter (length q) (λ av, permute av (length a) (length a + length p + length q - 1)) (a ++ p ++ q ++ b) = a ++ q ++ p ++ b.
Proof.
  assert (∀ q2 q1, Nat.iter (length q2) (λ av, permute av (length a) (length a + length p + (length q1 + length q2) - 1))
    (a ++ q1 ++ p ++ q2 ++ b) = a ++ q2 ++ q1 ++ p ++ b) as H.
  { induction q2 as [|x q2 IH] using rev_ind; intros q1; [done|].
    rewrite length_app, Nat.add_1_r, Nat.iter_succ_r.
    assert (permute (a ++ q1 ++ p ++ (q2 ++ [x]) ++ b) (length a) (length a + length p + (length q1 + S (length q2)) - 1)
      = a ++ (x :: q1) ++ p ++ q2 ++ b) as ->.
    { replace (a ++ q1 ++ p ++ (q2 ++ [x]) ++ b) with (a ++ (q1 ++ p ++ q2) ++ x :: b) by (by rewrite <- !app_assoc).
      replace (length a + length p + (length q1 + S (length q2)) - 1)%nat with (length a + length (q1 ++ p ++ q2))%nat
        by (rewrite !length_app; lia).
      rewrite permute_ok. by rewrite <- !app_assoc. }
    specialize (IH (x :: q1)). simpl in IH.
    replace (length q1 + S (length q2))%nat with (S (length q1 + length q2)) by lia.
    simpl. rewrite IH. by rewrite <- !app_assoc. }
  apply (H q []).
Qed.

(** ** Where the scan stands *)

Lemma getopt_opt_ind argv optstring arg s r s' :
  optind s < length argv → getopt_opt argv optstring arg s = Ok (r, s') →
  optind s <= optind s' <= length argv.
Proof.
  intros Hi. unfold getopt_opt. destruct (ch optstring 0) as [o0|]; [|done]. cbn [mbind res_bind].
  set (os := if _ || _ then _ else _). clearbody os. destruct (ch arg (optpos s)) as [c|]; [|done]. cbn [mbind res_bind].
  destruct (ch arg _) as [e|]; [|done]. cbn [mbind res_bind]. cbn [optind optpos set_pos].
  set (s1 := if e =? 0 then _ else _).
  assert ((optind s1 = optind s ∨ optind s1 = optind s + 1) ∧ (optpos s1 ≠ 0 → optind s1 = optind s)) as [H1 H2].
  { unfold s1. destruct (e =? 0); simpl; lia. }
  clearbody s1. destruct (ch os 0) as [o1|]; [|done]. cbn [mbind res_bind].
  assert (∀ m o s, optind (complain m o s) = optind s) as Hcompl by (intros; unfold complain; by case_match).
  destruct (if c =? 58 then None else chr os c) as [d|].
  2:{ intros [= <- <-]. case_match; rewrite ?Hcompl; simpl; lia. }
  destruct (ch d 1) as [d1|]; [|done]. cbn [mbind res_bind]. destruct (negb (d1 =? 58)); [intros [= <- <-]; lia|].
  cbn [optpos optind set_arg]. destruct (Z.eqb_spec (optpos s1) 0) as [E|E]; cbn [negb]; [|intros [= <- <-]; simpl; rewrite H2 by done; lia].
  destruct (ch d 2) as [d2|]; [|done]. cbn [mbind res_bind]. destruct (d2 =? 58); [intros [= <- <-]; simpl; lia|].
  destruct (Z.leb_spec (length argv) (optind s1)).
  - destruct (o1 =? 58); intros [= <- <-]; rewrite ?Hcompl; simpl; lia.
  - destruct (argv_at argv (optind s1)); [|done]. cbn [mbind res_bind]. intros [= <- <-]. simpl. lia.
Qed.

Lemma getopt_ind argv optstring s r s' :
  0 < optind s <= length argv → getopt argv optstring s = Ok (r, s') → optind s <= optind s' <= length argv.
Proof.
  intros Hi. unfold getopt. cbn [optind set_arg]. destruct (Z.eqb_spec (optind s) 0); [lia|]. cbn [optind optpos set_arg].
  destruct (Z.leb_spec (length argv) (optind s)); [intros [= <- <-]; simpl; lia|].
  destruct (argv_at argv (optind s)) as [[arg|]|]; [|intros [= <- <-]; simpl; lia|done]. cbn [mbind res_bind].
  destruct (negb (optpos s =? 0)); [intros Hg%getopt_opt_ind; simpl in *; lia|].
  destruct (ch arg 0) as [a0|]; [|done]. cbn [mbind res_bind]. destruct (negb (a0 =? 45)).
  { destruct (ch optstring 0) as [o0|]; [|done]. cbn [mbind res_bind]. destruct (o0 =? 45); intros [= <- <-]; simpl; lia. }
  destruct (ch arg 1) as [a1|]; [|done]. cbn [mbind res_bind]. destruct (a1 =? 0); [intros [= <- <-]; simpl; lia|].
  destruct (if a1 =? 45 then ch arg 2 else Ok 1) as [a2|]; [|done]. cbn [mbind res_bind].
  destruct (a2 =? 0); [intros [= <- <-]; simpl; lia|]. intros Hg%getopt_opt_ind; simpl in *; lia.
Qed.

Section Long.
Context (argv : list (list Z)) (optstring : list Z) (lo : list lopt).
Context (Hargv : Forall (Forall (λ c, 0 < c < 256)) argv) (Hos : Forall (λ c, c ≠ 0) optstring).

Definition stays (s : gstate) (x : Z * gstate * option Z) : Prop := optind s <= optind x.1.2 <= length argv.

Lemma short_ok s :
  optpos s = 0 → 0 < optind s <= length argv →
  wp ('(r, s) ← getopt argv optstring s; Ok (r, s, None)) (stays s).
Proof using Hargv Hos.
  intros Hp Hi. assert (restart s = s) as Er by (unfold restart; destruct (Z.eqb_spec (optind s) 0); [lia | done]).
  assert (scan_wf argv s) as Hw by (split; [lia | done]).
  destruct (getopt_ok argv optstring s Hargv Hos ltac:(by rewrite Er)) as ([r s'] & E & _).
  rewrite E. cbn [mbind res_bind]. apply wp_ok. apply (getopt_ind argv optstring s r s'); done.
Qed.

Lemma long_take_ok arg nm m cnt s :
  (cnt = 1 → is_Some (lo !! Z.to_nat m)) → 0 < optind s < length argv →
  wp (long_take argv (letters optstring) arg nm lo m cnt s) (stays s).
Proof using.
  intros Hm Hi. unfold long_take. rewrite ch_head. cbn [mbind res_bind]. cbn [optind set_ind].
  assert (∀ m o s, optind (complain m o s) = optind s) as Hcompl by (intros; unfold complain; by case_match).
  destruct (Z.eqb_spec cnt 1) as [E|E]; cbn [negb]; [|apply wp_ok; unfold stays; cbn [fst snd]; rewrite Hcompl; simpl; lia].
  destruct (Hm E) as [o ->].
  destruct (name_len nm <? length nm)%nat.
  - destruct (has_arg o =? 0); apply wp_ok; unfold stays; [cbn [fst snd]; rewrite Hcompl; simpl; lia|].
    destruct (flag o); simpl; lia.
  - destruct (has_arg o =? 1); [|apply wp_ok; unfold stays; destruct (flag o); simpl; lia].
    cbn [optind set_arg set_ind]. destruct (Z.leb_spec (length argv) (optind s + 1)).
    + apply wp_ok. unfold stays. cbn [fst snd]. rewrite Hcompl. simpl. lia.
    + replace (optind s + 1) with (Z.of_nat (Z.to_nat (optind s + 1))) by lia. rewrite argv_at_ok by lia. cbn [mbind res_bind].
      apply wp_ok. unfold stays. destruct (flag o); simpl; lia.
Qed.

Lemma long_match_index nm m cnt :
  long_match lo 0 nm (name_len nm) lo (-1) 0 = (m, cnt) → cnt = 1 → is_Some (lo !! Z.to_nat m).
Proof using.
  intros E Hc. pose proof (long_match_ok lo nm (name_len nm) lo [] (-1) 0 eq_refl) as H. cbn [length] in H. rewrite E in H.
  destruct H as [(k & o & -> & _ & Hk & _)|[_ [(_ & ? & _)|(k & o & -> & Hk & _)]]]; try (rewrite Nat2Z.id; eauto); try lia.
  split; [done|]. by left.
Qed.

Lemma long_core_ok longonly s :
  optpos s = 0 → 0 < optind s < length argv → wp (long_core argv optstring lo longonly s) (stays s).
Proof using Hargv Hos.
  intros Hp Hi. unfold long_core. set (i := Z.to_nat (optind s)). assert (optind s = i) as Ei by lia.
  assert (wp ('(r, s) ← getopt argv optstring s; Ok (r, s, None)) (stays s)) as Hshort by (apply short_ok; [done | lia]).
  rewrite Ei, argv_at_ok, ch_head by lia. cbn [mbind res_bind].
  assert ((if (default 0 (head optstring) =? 43) || (default 0 (head optstring) =? 45) then drop 1 optstring else optstring)
    = letters optstring) as -> by (rewrite orb_comm; apply letters_ok).
  destruct (lookup_lt_is_Some_2 argv i) as [arg Ha]; [lia|]. rewrite Ha.
  assert (Forall (λ c, 0 < c < 256) arg) as Hnz by (by eapply Forall_lookup_1 in Hargv).
  rewrite ch_head. cbn [mbind res_bind]. rewrite Hp. destruct (Z.leb_spec (length argv) i); [lia|]. rewrite Z.eqb_refl. cbn [orb negb].
  rewrite default_eqb by lia. case_bool_decide as Eh; cbn [negb]; [|exact Hshort].
  destruct arg as [|a0 arg]; [done|]. rewrite ch_1 by (simpl; lia). cbn [mbind res_bind].
  assert (∃ a2, (if default 0 ((a0 :: arg) !! 1%nat) =? 0 then Ok 0 else ch (a0 :: arg) 2) = Ok a2) as [a2 ->].
  { destruct arg as [|a1 arg]; [by exists 0|]. simpl default. case_match; [by exists 0|]. rewrite ch_2 by (simpl; lia). by eexists. }
  cbn [mbind res_bind]. set (a1 := default 0 _).
  do 2 match goal with |- wp (if ?b then _ else _) _ => destruct b; [exact Hshort|] end.
  destruct (long_match _ _ _ _ _ _ _) as [m cnt] eqn:Em. rewrite ch_head. cbn [mbind res_bind].
  match goal with |- wp (if ?b then _ else _) _ => destruct b; [exact Hshort|] end. apply long_take_ok; [|lia]. by eapply long_match_index.
Qed.

(** Words the scan passes over. *)
Definition operand (w : list Z) : Prop := head w ≠ Some 45 ∨ w = [45].

Lemma next_option_ok ws (i : nat) :
  match next_option ws i with
  | Some j => ∃ n : nat, j = (i + n)%nat ∧ (n < length ws)%nat ∧ Forall operand (take n ws)
  | None => Forall operand ws
  end.
Proof using.
  revert i. induction ws as [|w ws IH]; intros i; cbn [next_option]; [done|].
  assert (operand w → match next_option ws (i + 1) with
    | Some j => ∃ n : nat, j = (i + n)%nat ∧ (n < length (w :: ws))%nat ∧ Forall operand (take n (w :: ws))
    | None => Forall operand (w :: ws) end) as Hnext.
  { intros Hw. replace (i + 1) with (Z.of_nat (S i)) by lia. specialize (IH (S i)). destruct (next_option ws (S i)) as [j|].
    - destruct IH as (n & -> & Hn & Hf). exists (S n). split; [lia|]. split; [simpl; lia|]. by constructor.
    - by constructor. }
  destruct w as [|c [|d w]].
  - apply Hnext. by left.
  - apply Hnext. destruct (decide (c = 45)) as [->|]; [by right | left; simpl; congruence].
  - destruct (Z.eqb_spec c 45) as [->|Hc]; [|apply Hnext; left; simpl; congruence].
    exists 0%nat. split; [lia|]. split; [simpl; lia | done].
Qed.

(** The words from [re] to [e], an option and its argument, have moved before
    the operands the scan passed over. *)
Definition permuted (s : gstate) (x : Z * gstate * list (list Z) * option Z) : Prop :=
  ∃ sk re e : nat, optind s = sk ∧ (sk <= re)%nat ∧ (re <= e)%nat ∧
    (sk <= length argv → e <= length argv)%nat ∧
    x.1.2 = take sk argv ++ take (e - re) (drop re argv) ++ take (re - sk) (drop sk argv) ++ drop e argv ∧
    optind x.1.1.2 = (sk + (e - re))%nat ∧ Forall operand (take (re - sk) (drop sk argv)).

Lemma long_permute_ok longonly posix s :
  optpos s = 0 → 0 < optind s → wp (long_permute argv optstring lo longonly posix s) (permuted s).
Proof using Hargv Hos.
  intros Hp Hi. unfold long_permute. cbn [optind set_arg]. destruct (Z.eqb_spec (optind s) 0); [lia|]. cbn [optind optpos set_arg].
  set (sk := Z.to_nat (optind s)). assert (optind s = sk) as Esk by lia.
  assert (∀ (r : Z) s1, optind s1 = optind s → wp (Ok (r, s1, argv, @None Z)) (permuted s)) as Hstay.
  { intros r s1 E1. apply wp_ok. exists sk, sk, sk. rewrite Nat.sub_diag. simpl. rewrite take_drop. split_and!; try done; lia. }
  destruct (Z.leb_spec (length argv) (optind s)) as [|Hlt]; [by apply Hstay|].
  destruct (Z.ltb_spec (optind s) 0); [lia|]. rewrite ch_head. cbn [mbind res_bind]. cbv zeta.
  set (resume := if _ && _ then _ else _). fold sk in resume.
  assert (match resume with Some j => ∃ re : nat, j = re ∧ (sk <= re < length argv)%nat ∧ Forall operand (take (re - sk) (drop sk argv))
          | None => True end) as Hres.
  { unfold resume. destruct (_ && _).
    - pose proof (next_option_ok (drop sk argv) sk) as Hno. rewrite Esk. destruct (next_option (drop sk argv) sk) as [j|]; [|done].
      destruct Hno as (k & -> & Hn & Hf). rewrite length_drop in Hn. exists (sk + k)%nat. split; [lia|]. split; [lia|].
      by replace (sk + k - sk)%nat with k by lia.
    - exists sk. rewrite Nat.sub_diag. split; [lia|]. split; [lia | done]. }
  destruct resume as [j|]; [|by apply Hstay]. destruct Hres as (re & -> & Hre & Hf).
  apply wp_bind. eapply wp_mono; [apply long_core_ok; [done | simpl; lia]|]. intros [[r s1] idx] [H1 H2]. simpl in H1, H2.
  set (e := Z.to_nat (optind s1)). assert (optind s1 = e) as Ee by lia. rewrite Esk.
  destruct (Z.ltb_spec sk re) as [Hgt|Hle]; apply wp_ok.
  - exists sk, re, e. split; [done|]. split; [lia|]. split; [lia|]. split; [lia|]. split; [|split; [simpl; lia | done]].
    cbn [fst snd]. rewrite Ee, ?Nat2Z.id. replace (Z.to_nat (e - re)) with (e - re)%nat by lia. replace (Z.to_nat (e - 1)) with (e - 1)%nat by lia.
    set (a := take sk argv). set (p := take (re - sk) (drop sk argv)). set (q := take (e - re) (drop re argv)).
    assert (argv = a ++ p ++ q ++ drop e argv) as Esplit.
    { unfold a, p, q. replace (drop e argv) with (drop (e - re) (drop re argv)) by (rewrite drop_drop; f_equal; lia).
      rewrite take_drop. replace (drop re argv) with (drop (re - sk) (drop sk argv)) by (rewrite drop_drop; f_equal; lia).
      by rewrite !take_drop. }
    pose proof (permute_iter a p q (drop e argv)) as Hpi. rewrite <- Esplit in Hpi.
    assert (length a = sk) as La by (unfold a; rewrite length_take; lia).
    assert (length p = re - sk)%nat as Lp by (unfold p; rewrite length_take, length_drop; lia).
    assert (length q = e - re)%nat as Lq by (unfold q; rewrite length_take, length_drop; lia).
    rewrite La, Lp, Lq in Hpi. replace (sk + (re - sk) + (e - re) - 1)%nat with (e - 1)%nat in Hpi by lia. exact Hpi.
  - assert (re = sk) as -> by lia. exists sk, sk, e. rewrite Nat.sub_diag. cbn [take app].
    split; [done|]. split; [lia|]. split; [lia|]. split; [lia|]. split; [|split; [cbn [fst snd]; lia | done]]. cbn [fst snd].
    replace (drop e argv) with (drop (e - sk) (drop sk argv)) by (rewrite drop_drop; f_equal; lia). rewrite ?take_0, ?app_nil_l. by rewrite !take_drop.
Qed.
End Long.

(** ** Properties *)

(** C34: getopt implements the option grammar. From every valid scan position
    a call returns, without reading outside the words or the option string;
    its result, optarg, optopt, the diagnostic and what is left to scan are
    those of one step of the grammar (the rest of the current word and the
    following words, option kinds from the option string), and it leaves
    less to scan unless it returns -1. Calling it until it returns -1 ends
    and yields the options of the grammar in order, with the operands left. *)
Theorem getopt_spec argv optstring s :
  Forall (Forall (λ c, 0 < c < 256)) argv → Forall (λ c, c ≠ 0) optstring → scan_wf argv (restart s) →
  wp (getopt argv optstring s) (λ '(r, s'), refines argv (spec_step optstring (abs argv (restart s))) r s s' ∧
    (r = -1 ∨ (left_size (abs argv s') < left_size (abs argv (restart s)))%nat)) ∧
  ∀ f, (left_size (abs argv (restart s)) < f)%nat →
    wp (getopt_run f argv optstring s) (λ '(l, s'), scan_wf argv s' ∧
      (l, abs argv s') = spec_run f optstring (abs argv (restart s))).
Proof. intros Ha Ho Hw. split; [by apply getopt_ok|]. intros f Hf. by apply getopt_run_ok. Qed.

Lemma getopt_spec_witness :
  Forall (Forall (λ c, 0 < c < 256)) words_ex ∧ scan_wf words_ex (restart g_init) ∧
  wp (getopt_run 40 words_ex [97; 98; 99; 58] g_init) (λ '(l, s'), scan_wf words_ex s' ∧
    (l, abs words_ex s') = spec_run 40 [97; 98; 99; 58] (abs words_ex (restart g_init))).
Proof.
  assert (Forall (Forall (λ c, 0 < c < 256)) words_ex) as H1 by (repeat constructor).
  assert (scan_wf words_ex (restart g_init)) as H2 by (split; done).
  split; [exact H1|]. split; [exact H2|].
  refine (proj2 (getopt_spec words_ex [97; 98; 99; 58] g_init H1 _ H2) 40%nat _); [repeat constructor; done | vm_compute; lia].
Defined.


