(* ===== verification/Env.v ===== *)
(** * The environment (src/src/env.c)

    Strings live in a heap of C strings by address; free removes them, and
    reading a string that is not there traps. The environ array is the list
    of its pointers before the null one. The allocator is a parameter: the
    results of the calls of malloc and reallocarray are arguments of the
    operations. *)
From S2P Require Import Prelude.

(** ** Operations *)

Definition EINVAL : Z := 22.
Definition ENOMEM : Z := 12.

Record env := Env {
  environ : Z;              (* __environ, 0 for null *)
  entries : list Z;         (* the pointers it holds *)
  env_alloc : Z; env_cap : Z;
  owned : list Z; owned_cap : Z;
  heap : gmap Z (list Z);
}.

Definition set_entries (l : list Z) (e : env) : env :=
  Env (environ e) l (env_alloc e) (env_cap e) (owned e) (owned_cap e) (heap e).
Definition set_owned (l : list Z) (e : env) : env :=
  Env (environ e) (entries e) (env_alloc e) (env_cap e) l (owned_cap e) (heap e).
Definition set_heap (h : gmap Z (list Z)) (e : env) : env :=
  Env (environ e) (entries e) (env_alloc e) (env_cap e) (owned e) (owned_cap e) h.

(** strchrnul (s, '=') - s *)
Fixpoint name_len (s : list Z) : nat :=
  match s with [] => 0 | x :: s => if x =? 61 then 0 else S (name_len s) end.

(** !strncmp (s, x, l) && x[l] == '=' for an [s] of at least [l] bytes. *)
Definition names (s : list Z) (l : nat) (x : list Z) : bool :=
  bool_decide (take l s = take l x ∧ x !! l = Some 61).

Definition str_at (e : env) (p : Z) : res (list Z) :=
  match heap e !! p with Some s => Ok s | None => Trap Ub end.

(** The first entry of the given name: its index and its string. *)
Fixpoint find_entry (e : env) (s : list Z) (l : nat) (ps : list Z) (i : nat) : res (option (nat * list Z)) :=
  match ps with
  | [] => Ok None
  | p :: ps => x ← str_at e p; if names s l x then Ok (Some (i, x)) else find_entry e s l ps (S i)
  end.

(** The value is the rest of the entry behind the '='. *)
Definition getenv (name : list Z) (e : env) : res (option (list Z)) :=
  let l := name_len name in
  if (l =? 0)%nat || negb (l =? length name)%nat || (environ e =? 0) then Ok None else
  r ← find_entry e name l (entries e) 0;
  Ok (match r with Some (_, x) => Some (drop (S l) x) | None => None end).

Definition secure_getenv (secure : bool) (name : list Z) (e : env) : res (option (list Z)) :=
  if secure then Ok None else getenv name e.

Definition is_owned (s : Z) (e : env) : option nat := fst <$> list_find (s =.) (owned e).

Definition release (s : Z) (e : env) : res env :=
  if s =? 0 then Ok e else
  match is_owned s e with
  | None => Ok e
  | Some i =>
      let n := (length (owned e) - 1)%nat in
      let e := set_owned (take n (<[i := owned e !!! n]> (owned e))) e in
      match heap e !! s with Some _ => Ok (set_heap (delete s (heap e)) e) | None => Trap Ub end
  end.

(** [ne] is what reallocarray returns if it is called. The result is the
    return value and the replaced string. *)
Definition env_put (s : Z) (l : nat) (ne : option Z) (e : env) : res (Z * Z * env) :=
  x ← str_at e s;
  r ← (if environ e =? 0 then Ok None else find_entry e x l (entries e) 0);
  match r with
  | Some (i, _) => Ok (0, entries e !!! i, set_entries (<[i := s]> (entries e)) e)
  | None =>
      let es := if environ e =? 0 then [] else entries e in
      let n := Z.of_nat (length es) in
      if negb (environ e =? env_alloc e) || (env_cap e <? n + 2) then
        let cap := if 16 <? n + 2 then (n + 2) * 2 else 16 in
        match ne with
        | None => Ok (-1, 0, e)
        | Some a => Ok (0, 0, Env a (es ++ [s]) a cap (owned e) (owned_cap e) (heap e))
        end
      else Ok (0, 0, set_entries (es ++ [s]) e)
  end.

(** The allocations of setenv: the string, room in owned, the array. *)
Record allocs := { a_str : option Z; a_owned : bool; a_env : option Z }.

Definition setenv (name value : list Z) (overwrite : Z) (a : allocs) (e : env) : res (Z * option Z * env) :=
  let l := name_len name in
  if (l =? 0)%nat || negb (l =? length name)%nat then Ok (-1, Some EINVAL, e) else
  present ← (if overwrite =? 0 then getenv name e else Ok None);
  if bool_decide (is_Some present) then Ok (0, None, e) else
  match a_str a with
  | None => Ok (-1, None, e)
  | Some s =>
      let h0 := heap e in
      let e1 := set_heap (<[s := take l name ++ 61 :: value]> h0) e in
      let full := Z.of_nat (length (owned e)) =? owned_cap e in
      if full && negb (a_owned a) then Ok (-1, None, set_heap (delete s (heap e1)) e1) else
      let e2 := if full then Env (environ e1) (entries e1) (env_alloc e1) (env_cap e1) (owned e1)
                                 (if owned_cap e1 =? 0 then 16 else owned_cap e1 * 2) (heap e1)
                else e1 in
      '(r, old, e3) ← env_put s l (a_env a) e2;
      if negb (r =? 0) then Ok (-1, None, set_heap (delete s (heap e3)) e3) else
      let e4 := set_owned (owned e3 ++ [s]) e3 in
      e5 ← release old e4;
      Ok (0, None, e5)
  end.

(** The loop of unsetenv: [w] is what has been kept so far. *)
Fixpoint unset_loop (name : list Z) (l : nat) (ps w : list Z) (e : env) : res (list Z * env) :=
  match ps with
  | [] => Ok (w, e)
  | p :: ps =>
      x ← str_at e p;
      if names name l x then e ← release p e; unset_loop name l ps w e
      else unset_loop name l ps (w ++ [p]) e
  end.

Definition unsetenv (name : list Z) (e : env) : res (Z * option Z * env) :=
  let l := name_len name in
  if (l =? 0)%nat || negb (l =? length name)%nat then Ok (-1, Some EINVAL, e) else
  if environ e =? 0 then Ok (0, None, e) else
  '(w, e) ← unset_loop name l (entries e) [] e;
  Ok (0, None, set_entries w e).

Definition putenv (s : Z) (ne : option Z) (e : env) : res (Z * option Z * env) :=
  x ← str_at e s;
  let l := name_len x in
  if (l =? length x)%nat then unsetenv x e else
  if (l =? 0)%nat then Ok (-1, Some EINVAL, e) else
  '(r, old, e) ← env_put s l ne e;
  if negb (r =? 0) then Ok (-1, Some ENOMEM, e) else
  e ← release old e;
  Ok (0, None, e).

Fixpoint release_all (ps : list Z) (e : env) : res env :=
  match ps with [] => Ok e | p :: ps => e ← release p e; release_all ps e end.

Definition clearenv (e : env) : res (Z * env) :=
  e ← (if environ e =? 0 then Ok e else release_all (entries e) e);
  Ok (0, Env 0 [] 0 0 (owned e) (owned_cap e) (heap e)).

(** setprogname: what follows the last '/'. *)
Fixpoint setprogname (name : list Z) : list Z :=
  match name with
  | [] => []
  | c :: s => if bool_decide (47 ∈ s) then setprogname s else if c =? 47 then s else name
  end.

(** ** A string that putenv gets back

    setenv ("A", "1") puts an owned string into the environment; putenv of
    that very string replaces the entry by itself and frees it, and the next
    lookup reads freed memory. *)
Definition env0 : env := Env 0 [] 0 0 [] 0 ∅.
Definition putenv_own : res (option (list Z)) :=
  '(_, _, e) ← setenv [65] [49] 1 {| a_str := Some 4096; a_owned := true; a_env := Some 8192 |} env0;
  '(_, _, e) ← putenv 4096 None e;
  getenv [65] e.

Lemma putenv_own_freed : putenv_own = Trap Ub.
Proof. vm_compute. reflexivity. Qed.

(** ** The environment as a list of texts *)

Definition valid_name (n : list Z) : Prop := n ≠ [] ∧ 61 ∉ n.

Lemma name_len_valid n : valid_name n → name_len n = length n ∧ length n ≠ 0%nat.
Proof.
  intros [Hn H]. split; [|by destruct n]. clear Hn. induction n as [|x n IH]; [done|]. cbn [name_len].
  apply not_elem_of_cons in H as [Hx H]. destruct (Z.eqb_spec x 61); [congruence|]. simpl. by rewrite IH.
Qed.

Lemma name_len_app n v : 61 ∉ n → name_len (n ++ 61 :: v) = length n.
Proof.
  induction n as [|x n IH]; intros H; simpl; [done|]. apply not_elem_of_cons in H as [Hx H].
  destruct (Z.eqb_spec x 61); [congruence|]. by rewrite IH.
Qed.

(** The entry [x] is of the form name=... *)
Definition names_it (n x : list Z) : bool := names n (length n) x.

Lemma names_prefix n x : names_it n x = true ↔ ∃ v, x = n ++ 61 :: v.
Proof.
  unfold names_it, names. rewrite bool_decide_eq_true, firstn_all. split.
  - intros [H1 H2]. exists (drop (S (length n)) x). rewrite H1 at 1. rewrite <- (take_drop (length n) x) at 1. f_equal.
    by apply drop_S.
  - intros [v ->]. rewrite take_app_length. split; [done|]. by apply list_lookup_middle.
Qed.

Lemma names_other n n' x : 61 ∉ n → 61 ∉ n' → names_it n x = true → names_it n' x = true → n = n'.
Proof.
  rewrite !names_prefix. intros Hn Hn' [v ->] [v' E]. pose proof (name_len_app n v Hn) as H1. rewrite E, name_len_app in H1 by done.
  apply (f_equal (take (length n))) in E. rewrite take_app_length, <- H1, take_app_length in E. done.
Qed.

Fixpoint lookup_env (n : list Z) (ts : list (list Z)) : option (list Z) :=
  match ts with [] => None | x :: ts => if names_it n x then Some (drop (S (length n)) x) else lookup_env n ts end.

(** Replace the first entry of the name, or append. *)
Fixpoint put_text (n t : list Z) (ts : list (list Z)) : list (list Z) :=
  match ts with [] => [t] | x :: ts => if names_it n x then t :: ts else x :: put_text n t ts end.

Lemma lookup_put n v ts : lookup_env n (put_text n (n ++ 61 :: v) ts) = Some v.
Proof.
  assert (names_it n (n ++ 61 :: v) = true) as E by (apply names_prefix; eauto).
  assert (drop (S (length n)) (n ++ 61 :: v) = v) as Ed.
  { rewrite drop_app_ge by lia. by replace (S (length n) - length n)%nat with 1%nat by lia. }
  induction ts as [|x ts IH]; simpl; [by rewrite E, Ed|].
  destruct (names_it n x) eqn:Ex; simpl; [by rewrite E, Ed | by rewrite Ex].
Qed.

Lemma lookup_put_other n n' v ts :
  61 ∉ n → 61 ∉ n' → n ≠ n' → lookup_env n' (put_text n (n ++ 61 :: v) ts) = lookup_env n' ts.
Proof.
  intros Hn Hn' Hne. assert (names_it n' (n ++ 61 :: v) = false) as E.
  { destruct (names_it n' _) eqn:E; [|done]. destruct Hne. eapply names_other; [done | done | | exact E]. apply names_prefix. eauto. }
  induction ts as [|x ts IH]; simpl; [by rewrite E|].
  destruct (names_it n x) eqn:Ex; simpl; [|by rewrite IH]. rewrite E.
  destruct (names_it n' x) eqn:Ex'; [|done]. destruct Hne. by eapply names_other.
Qed.

(** Without the entries of a name. *)
Definition drop_texts (n : list Z) (ts : list (list Z)) : list (list Z) := filter (λ x, names_it n x = false) ts.

Lemma lookup_drop_same n ts : lookup_env n (drop_texts n ts) = None.
Proof.
  unfold drop_texts. induction ts as [|x ts IH]; [done|]. rewrite filter_cons. destruct (decide (names_it n x = false)) as [E|]; [|done].
  simpl. by rewrite E.
Qed.

Lemma lookup_drop_other n n' ts :
  61 ∉ n → 61 ∉ n' → n ≠ n' → lookup_env n' (drop_texts n ts) = lookup_env n' ts.
Proof.
  intros Hn Hn' Hne. unfold drop_texts. induction ts as [|x ts IH]; [done|]. rewrite filter_cons.
  destruct (decide (names_it n x = false)) as [E|E]; simpl; [by rewrite IH|]. apply not_false_is_true in E.
  destruct (names_it n' x) eqn:Ex'; [|done]. destruct Hne. by eapply names_other.
Qed.

(** ** Well-formed environments *)

Definition tx (e : env) (p : Z) : list Z := default [] (heap e !! p).
Definition texts (e : env) : list (list Z) := tx e <$> entries e.

(** Owned strings are live and distinct, entries are live, and no owned
    string is in two entries: freeing it when its entry goes leaves no
    dangling pointer. *)
Record env_wf (e : env) : Prop := {
  wf_null : environ e = 0 → entries e = [];
  wf_cap : env_alloc e = 0 → env_cap e = 0;
  wf_nodup : NoDup (owned e);
  wf_owned : ∀ p, p ∈ owned e → p ≠ 0 ∧ is_Some (heap e !! p);
  wf_live : ∀ p, p ∈ entries e → is_Some (heap e !! p);
  wf_once : ∀ p j k, p ∈ owned e → entries e !! j = Some p → entries e !! k = Some p → j = k;
}.

Lemma str_at_ok e p : is_Some (heap e !! p) → str_at e p = Ok (tx e p).
Proof. intros [x Hx]. unfold str_at, tx. by rewrite Hx. Qed.

Lemma find_entry_ok e s l ps i :
  (∀ p, p ∈ ps → is_Some (heap e !! p)) →
  find_entry e s l ps i = Ok (match list_find (λ p, names s l (tx e p) = true) ps with
    | Some (j, p) => Some ((i + j)%nat, tx e p) | None => None end).
Proof.
  revert i. induction ps as [|p ps IH]; intros i Hl; [done|]. cbn [find_entry list_find].
  rewrite str_at_ok by (apply Hl; set_solver). cbn [mbind res_bind].
  destruct (names s l (tx e p)) eqn:E.
  - rewrite decide_True by done. by rewrite Nat.add_0_r.
  - rewrite decide_False by done. rewrite IH by (intros; apply Hl; set_solver).
    destruct (list_find _ ps) as [[j q]|]; [|done]. simpl. do 3 f_equal. lia.
Qed.

Lemma lookup_find n e ps :
  lookup_env n (tx e <$> ps) =
  match list_find (λ p, names_it n (tx e p) = true) ps with Some (_, p) => Some (drop (S (length n)) (tx e p)) | None => None end.
Proof.
  induction ps as [|p ps IH]; [done|]. cbn [fmap list_fmap lookup_env list_find].
  destruct (names_it n (tx e p)) eqn:E; [by rewrite decide_True|]. rewrite decide_False, IH by congruence.
  by destruct (list_find _ ps) as [[]|].
Qed.

Lemma getenv_ok n e : env_wf e → valid_name n → getenv n e = Ok (lookup_env n (texts e)).
Proof.
  intros Hw Hn. destruct (name_len_valid n Hn) as [E1 E2]. unfold getenv. rewrite E1.
  destruct (Nat.eqb_spec (length n) 0); [done|]. rewrite Nat.eqb_refl. cbn [orb negb]. unfold texts.
  destruct (Z.eqb_spec (environ e) 0) as [E|E]; [by rewrite (wf_null e Hw E)|].
  rewrite find_entry_ok by apply (wf_live e Hw). cbn [mbind res_bind]. rewrite lookup_find. unfold names_it.
  by destruct (list_find _ _) as [[]|].
Qed.

(** ** Releasing strings *)

Lemma swap_remove (l : list Z) i s :
  l !! i = Some s → let n := (length l - 1)%nat in (take n (<[i := l !!! n]> l) ++ [s]) ≡ₚ l.
Proof.
  intros Hi n. destruct (list_elem_of_split_length _ _ _ Hi) as (l1 & l2 & -> & ->).
  destruct l2 as [|z l3 _] using rev_ind.
  - subst n. rewrite length_app. simpl. replace (length l1 + 1 - 1)%nat with (length l1) by lia.
    rewrite take_insert_ge, take_app_length by lia. done.
  - subst n. rewrite app_comm_cons, app_assoc, length_app, Nat.add_sub. rewrite lookup_total_app_r by done.
    rewrite Nat.sub_diag. simpl. rewrite <- app_assoc. simpl.
    rewrite insert_app_r_alt, Nat.sub_diag by lia. simpl.
    rewrite app_comm_cons, app_assoc, take_app_le by (rewrite !length_app; simpl; lia).
    rewrite firstn_all2 by (rewrite !length_app; simpl; lia). solve_Permutation.
Qed.

(** The part of the state release does not touch. *)
Definition same_array (e e' : env) : Prop :=
  environ e' = environ e ∧ entries e' = entries e ∧ env_alloc e' = env_alloc e ∧ env_cap e' = env_cap e.

Definition owned_ok (e : env) : Prop :=
  NoDup (owned e) ∧ ∀ p, p ∈ owned e → p ≠ 0 ∧ is_Some (heap e !! p).

Lemma release_ok p e :
  owned_ok e →
  wp (release p e) (λ e', same_array e e' ∧ owned_ok e' ∧ (∀ q, q ∈ owned e' ↔ q ∈ owned e ∧ q ≠ p) ∧
    (∀ q, q ≠ p → heap e' !! q = heap e !! q) ∧ (p ∉ owned e → heap e' = heap e)).
Proof.
  intros [Hnd Hlive]. unfold release, is_owned. destruct (Z.eqb_spec p 0) as [->|Hp].
  { apply wp_ok. assert (0 ∉ owned e) by (intros H; by destruct (Hlive 0 H)).
    split_and!; try done. intros q. split; [|by intros []]. intros Hq. split; [done|]. by intros ->. }
  destruct (list_find (λ x, p = x) (owned e)) as [[i x]|] eqn:E; cbn [fmap option_fmap option_map fst].
  2:{ apply list_find_None in E. assert (p ∉ owned e) as Hni by (intros H; by eapply Forall_forall in E).
      apply wp_ok. split_and!; try done. intros q. split; [|by intros []]. intros Hq. split; [done|]. by intros ->. }
  apply list_find_Some in E as (Hi & <- & _). pose proof (swap_remove _ _ _ Hi) as Hperm. cbn zeta in Hperm.
  set (n := (length (owned e) - 1)%nat) in *. set (l' := take n _) in *.
  assert (p ∈ owned e) as Hin by (by eapply list_elem_of_lookup_2). destruct (Hlive p Hin) as [_ [y Hy]].
  cbn [heap set_owned]. rewrite Hy. apply wp_ok.
  assert (NoDup (l' ++ [p])) as Hnd' by (by rewrite Hperm). apply NoDup_app in Hnd' as (Hn1 & Hn2 & _).
  assert (∀ q, q ∈ l' ↔ q ∈ owned e ∧ q ≠ p) as Hiff.
  { intros q. rewrite <- Hperm, elem_of_app, list_elem_of_singleton. split; [|intros [[] ?]; done].
    intros Hq. split; [by left|]. intros ->. apply (Hn2 p Hq). set_solver. }
  split; [done|]. split; [split; [done|]|split; [exact Hiff|split; [|done]]].
  - intros q Hq. cbn [owned set_heap set_owned heap] in *. apply Hiff in Hq as [Hq Hne]. destruct (Hlive q Hq) as [Hq0 Hql].
    split; [done|]. by rewrite lookup_delete_ne.
  - intros q Hne. cbn [heap set_heap set_owned]. by rewrite lookup_delete_ne.
Qed.

(** The text list after the entry [i] points to a new string. *)
Lemma put_text_found n t e ps j p :
  list_find (λ p, names_it n (tx e p) = true) ps = Some (j, p) →
  put_text n t (tx e <$> ps) = <[j := t]> (tx e <$> ps).
Proof.
  revert j p. induction ps as [|q ps IH]; intros j p; [done|]. cbn [fmap list_fmap put_text list_find].
  destruct (names_it n (tx e q)) eqn:E; [rewrite decide_True by done; by intros [= <- <-]|].
  rewrite decide_False by congruence. destruct (list_find _ ps) as [[j' p']|] eqn:E'; [|done].
  intros [= <- <-]. simpl. f_equal. by eapply IH.
Qed.

Lemma put_text_new n t e ps :
  list_find (λ p, names_it n (tx e p) = true) ps = None → put_text n t (tx e <$> ps) = (tx e <$> ps) ++ [t].
Proof.
  induction ps as [|q ps IH]; [done|]. cbn [fmap list_fmap put_text list_find].
  destruct (names_it n (tx e q)) eqn:E; [by rewrite decide_True|].
  rewrite decide_False by congruence. destruct (list_find _ ps) as [[]|] eqn:E'; [done|]. intros _. simpl. f_equal. by apply IH.
Qed.

(** The environment array after env_put: the first entry of the name, or a
    new last entry, is [s]. *)
Inductive put_in (s : Z) (ps : list Z) : Z → list Z → Prop :=
| put_replace i old : ps !! i = Some old → put_in s ps old (<[i := s]> ps)
| put_append : put_in s ps 0 (ps ++ [s]).

Lemma env_put_ok n v s ne e :
  env_wf e → valid_name n → heap e !! s = Some (n ++ 61 :: v) → (∀ a, ne = Some a → a ≠ 0) →
  wp (env_put s (length n) ne e) (λ '(r, old, e'),
    heap e' = heap e ∧ owned e' = owned e ∧ owned_cap e' = owned_cap e ∧
    ((r = -1 ∧ ne = None ∧ e' = e) ∨
     (r = 0 ∧ texts e' = put_text n (n ++ 61 :: v) (texts e) ∧ environ e' ≠ 0 ∧ (env_alloc e' = 0 → env_cap e' = 0) ∧
      put_in s (entries e) old (entries e')))).
Proof.
  intros Hw Hn Hs Hne. unfold env_put. rewrite str_at_ok by eauto. cbn [mbind res_bind].
  assert (tx e s = n ++ 61 :: v) as Htx by (unfold tx; by rewrite Hs). rewrite Htx.
  assert (∀ p, names (n ++ 61 :: v) (length n) (tx e p) = names_it n (tx e p)) as Hnm.
  { intros p. unfold names_it, names. by rewrite take_app_length, firstn_all. }
  assert ((if environ e =? 0 then [] else entries e) = entries e) as Hes.
  { destruct (Z.eqb_spec (environ e) 0); [by rewrite (wf_null e Hw) | done]. }
  assert ((if environ e =? 0 then Ok None else find_entry e (n ++ 61 :: v) (length n) (entries e) 0) =
    Ok (match list_find (λ p, names_it n (tx e p) = true) (entries e) with Some (j, p) => Some (j, tx e p) | None => None end)) as ->.
  { destruct (Z.eqb_spec (environ e) 0) as [E|E]; [by rewrite (wf_null e Hw E)|].
    rewrite find_entry_ok by apply (wf_live e Hw).
    rewrite (list_find_ext _ (λ p, names_it n (tx e p) = true)) by (intros p; by rewrite Hnm). done. }
  cbn [mbind res_bind]. destruct (list_find _ (entries e)) as [[j p]|] eqn:Ef.
  - pose proof Ef as Ef'. apply list_find_Some in Ef' as (Hj & _ & _). apply wp_ok. split_and!; try done. right.
    split; [done|]. split; [|split; [|split; [exact (wf_cap e Hw)|]]].
    + unfold texts. cbn [entries set_entries]. rewrite (put_text_found n _ e _ j p Ef).
      change (tx (set_entries _ e)) with (tx e). rewrite list_fmap_insert. by rewrite Htx.
    + cbn [environ set_entries]. intros E0. by rewrite (wf_null e Hw E0) in Hj.
    + rewrite (list_lookup_total_correct _ _ _ Hj). by apply put_replace.
  - rewrite Hes. assert (texts (Env (environ e) (entries e ++ [s]) 0 0 [] 0 (heap e)) = put_text n (n ++ 61 :: v) (texts e)) as Htt.
    { unfold texts. cbn [entries]. rewrite put_text_new by done. rewrite fmap_app. simpl. by rewrite <- Htx. }
    destruct (negb (environ e =? env_alloc e) || (env_cap e <? Z.of_nat (length (entries e)) + 2)) eqn:Ec.
    + destruct ne as [a|]; apply wp_ok; split_and!; try done; [right | by left].
      split_and!; try done; [by apply Hne | intros E0; by destruct (Hne a) | apply put_append].
    + apply wp_ok. split_and!; try done. right. split_and!; try done; [|exact (wf_cap e Hw) | apply put_append].
      cbn [environ set_entries]. intros E0. apply orb_false_iff in Ec as [E1 E2].
      apply negb_false_iff, Z.eqb_eq in E1. apply Z.ltb_ge in E2. rewrite (wf_cap e Hw) in E2 by congruence. lia.
Qed.

Lemma release_wf p e :
  env_wf e → (p ∈ owned e → p ∉ entries e) →
  wp (release p e) (λ e', env_wf e' ∧ texts e' = texts e ∧ environ e' = environ e ∧ entries e' = entries e).
Proof.
  intros [H1 H2 H3 H4 H5 H6] Hp. eapply wp_mono; [apply release_ok; by split|].
  intros e' ((A1 & A2 & A3 & A4) & [B1 B2] & C & D & F).
  assert (∀ q, q ∈ entries e → heap e' !! q = heap e !! q) as Hq.
  { intros q Hq. destruct (decide (p ∈ owned e)) as [Hin|Hni]; [apply D; intros ->; by apply Hp | by rewrite F]. }
  split; [|split_and!; try done].
  - split; rewrite ?A1, ?A2, ?A3, ?A4; try done.
    + intros q Hin. rewrite Hq by done. by apply H5.
    + intros q j k Hin%C. apply H6, Hin.
  - unfold texts. rewrite A2. apply list_fmap_ext. intros i q Hi. unfold tx. rewrite Hq; [done|]. by eapply list_elem_of_lookup_2.
Qed.

Lemma put_release_ok s own old e e3 :
  env_wf e → s ≠ 0 → is_Some (heap e !! s) → s ∉ owned e → (own = [] ∨ own = [s] ∧ s ∉ entries e) →
  heap e3 = heap e → owned e3 = owned e ++ own → environ e3 ≠ 0 → (env_alloc e3 = 0 → env_cap e3 = 0) →
  put_in s (entries e) old (entries e3) →
  wp (release old e3) (λ e5, env_wf e5 ∧ texts e5 = texts e3).
Proof.
  intros [H1 H2 H3 H4 H5 H6] Hs0 Hsl Hso Hown Hh Ho He Hcap Hput.
  assert (∀ p, p ∈ owned e3 → p ∈ owned e ∨ (p = s ∧ s ∉ entries e)) as Hmem.
  { intros p. rewrite Ho, elem_of_app. intros [?|Hp]; [by left|]. destruct Hown as [-> | [-> ?]]; [by apply not_elem_of_nil in Hp|].
    right. split; [by apply list_elem_of_singleton in Hp | done]. }
  assert (env_wf e3) as Hw3.
  { split; try done.
    - rewrite Ho. apply NoDup_app. split; [done|]. destruct Hown as [-> | [-> _]]; (split; [set_solver|]); [constructor | apply NoDup_singleton].
    - intros p Hp. rewrite Hh. destruct (Hmem p Hp) as [?|[-> _]]; [by apply H4 | done].
    - intros p Hp. rewrite Hh. destruct Hput as [i old Hi|].
      + apply list_elem_of_lookup in Hp as [k Hk]. apply list_lookup_insert_Some in Hk as [(_ & -> & _)|(_ & Hk)]; [done|].
        apply H5. by eapply list_elem_of_lookup_2.
      + apply elem_of_app in Hp as [Hp| ->%list_elem_of_singleton]; [by apply H5 | done].
    - intros p j k Hp. assert (∀ j, entries e !! j = Some p → p = s → p ∈ owned e) as Hin.
      { intros j' Hj' ->. destruct (Hmem s Hp) as [?|[_ Hn]]; [done|]. destruct Hn. by eapply list_elem_of_lookup_2. }
      assert (p ≠ s → p ∈ owned e) as Hin' by (intros ?; by destruct (Hmem p Hp) as [?|[? _]]).
      destruct Hput as [i old Hi|].
      + rewrite !list_lookup_insert_Some. intros [(-> & <- & _)|[Hj1 Hj]] [(-> & E & _)|[Hk1 Hk]]; try done.
        * destruct Hso. by eapply Hin.
        * subst p. destruct Hso. by eapply Hin.
        * eapply H6; [|done|done]. destruct (decide (p = s)) as [->|]; [by eapply Hin | by apply Hin'].
      + rewrite !lookup_app_Some, !list_lookup_singleton_Some.
        intros [Hj|(Hj1 & Hj & <-)] [Hk|(Hk1 & Hk & E)].
        * eapply H6; [|done|done]. destruct (decide (p = s)) as [->|]; [by eapply Hin | by apply Hin'].
        * destruct Hso. subst p. by eapply Hin.
        * destruct Hso. by eapply Hin.
        * lia. }
  eapply wp_mono; [apply (release_wf old e3 Hw3)|].
  - intros Hold Hin. destruct Hput as [i old Hi|].
    + assert (old ∈ owned e) as Holdo.
      { destruct (Hmem old Hold) as [?|[-> Hn]]; [done|]. destruct Hn. by eapply list_elem_of_lookup_2. }
      apply list_elem_of_lookup in Hin as [k Hk]. apply list_lookup_insert_Some in Hk as [(_ & <- & _)|(Hne & Hk)]; [done|].
      apply Hne. by eapply H6.
    + destruct (Hmem 0 Hold) as [H0|[? _]]; [by destruct (H4 0 H0) | done].
  - intros e5 (? & ? & _). done.
Qed.

Lemma filter_ext_in (P Q : Z → Prop) `{!∀ x, Decision (P x), !∀ x, Decision (Q x)} (l : list Z) :
  (∀ x, x ∈ l → (P x ↔ Q x)) → filter P l = filter Q l.
Proof.
  induction l as [|x l IH]; intros Hx; [done|]. rewrite !filter_cons, IH by (intros; apply Hx; set_solver).
  assert (P x ↔ Q x) by (apply Hx; set_solver). destruct (decide (P x)), (decide (Q x)); tauto.
Qed.

Lemma unset_loop_ok n ps w e :
  owned_ok e → (∀ p, p ∈ ps → is_Some (heap e !! p)) →
  (∀ p j k, p ∈ owned e → ps !! j = Some p → ps !! k = Some p → j = k) →
  wp (unset_loop n (length n) ps w e) (λ '(w', e'), same_array e e' ∧ owned_ok e' ∧
    w' = w ++ filter (λ p, names_it n (tx e p) = false) ps ∧
    (∀ q, q ∈ owned e' → q ∈ owned e) ∧
    (∀ q, names_it n (tx e q) = false → heap e' !! q = heap e !! q)).
Proof.
  revert w e. induction ps as [|p ps IH]; intros w e Ho Hl Honce; cbn [unset_loop].
  { apply wp_ok. rewrite app_nil_r. split_and!; done || apply Ho. }
  rewrite str_at_ok by (apply Hl; set_solver). cbn [mbind res_bind]. change (names n (length n) (tx e p)) with (names_it n (tx e p)).
  assert (∀ p j k, p ∈ owned e → ps !! j = Some p → ps !! k = Some p → j = k) as Honce'.
  { intros q j k Hq Hj Hk. assert (S j = S k) by (by eapply Honce). lia. }
  rewrite filter_cons. destruct (names_it n (tx e p)) eqn:E.
  2:{ rewrite decide_True by done. eapply wp_mono; [apply IH; [done | intros; apply Hl; set_solver | done]|].
      intros [w' e'] (H1 & H2 & -> & H3). by rewrite <- app_assoc. }
  rewrite decide_False by congruence. apply wp_bind. eapply wp_mono; [by apply release_ok|].
  intros e1 (A & B & C & D & F).
  assert (∀ q, q ∈ ps → heap e1 !! q = heap e !! q) as Hps.
  { intros q Hq. destruct (decide (p ∈ owned e)) as [Hin|]; [|by rewrite F]. apply D. intros ->.
    apply list_elem_of_lookup in Hq as [k Hk]. assert (0%nat = S k); [by eapply (Honce p) | lia]. }
  assert (∀ q, names_it n (tx e q) = false → heap e1 !! q = heap e !! q) as Hno.
  { intros q Hq. apply D. intros ->. congruence. }
  eapply wp_mono; [apply (IH w e1 B)|].
  - intros q Hq. rewrite Hps by done. apply Hl. set_solver.
  - intros q j k Hq%C. apply Honce', Hq.
  - intros [w' e'] (A' & B' & -> & C' & D'). split_and!; try apply B'.
    + unfold same_array in *. naive_solver congruence.
    + f_equal. apply filter_ext_in. intros q Hq. unfold tx. by rewrite Hps.
    + intros q Hq%C'%C. apply Hq.
    + intros q Hq. rewrite <- (Hno q Hq). apply D'. unfold tx in *. by rewrite Hno.
Qed.

Lemma texts_filter n e ps :
  tx e <$> filter (λ p, names_it n (tx e p) = false) ps = drop_texts n (tx e <$> ps).
Proof.
  unfold drop_texts. induction ps as [|p ps IH]; [done|]. cbn [fmap list_fmap]. rewrite !filter_cons, <- IH.
  destruct (decide (names_it n (tx e p) = false)); done.
Qed.

Lemma unsetenv_ok n e :
  env_wf e → valid_name n →
  wp (unsetenv n e) (λ '(r, err, e'), r = 0 ∧ err = None ∧ env_wf e' ∧ texts e' = drop_texts n (texts e)).
Proof.
  intros Hw Hn. pose proof Hw as [H1 H2 H3 H4 H5 H6]. destruct (name_len_valid n Hn) as [E1 E2]. unfold unsetenv. rewrite E1, Nat.eqb_refl.
  destruct (Nat.eqb_spec (length n) 0); [done|]. cbn [orb negb].
  destruct (Z.eqb_spec (environ e) 0) as [E|E].
  { apply wp_ok. split_and!; try done. unfold texts. by rewrite (H1 E). }
  apply wp_bind. eapply wp_mono; [apply unset_loop_ok; [by split | done | done]|].
  intros [w e'] ((A1 & A2 & A3 & A4) & [B1 B2] & -> & C & D). cbn [app]. apply wp_ok.
  set (keep := filter _ _).
  assert (∀ p, p ∈ keep → heap e' !! p = heap e !! p ∧ p ∈ entries e) as Hk by (intros p [? ?]%list_elem_of_filter; auto).
  split; [done|]. split; [done|]. split.
  - split; cbn [environ entries env_alloc env_cap owned heap set_entries]; rewrite ?A1, ?A3, ?A4; try done.
    + intros p [-> Hp]%Hk. by apply H5.
    + intros p j k Hp%C. 
      assert (∀ (l : list Z), (∀ j k, l !! j = Some p → l !! k = Some p → j = k) → ∀ j k,
        filter (λ p, names_it n (tx e p) = false) l !! j = Some p → filter (λ p, names_it n (tx e p) = false) l !! k = Some p → j = k) as Hfil.
      { clear. intros l. induction l as [|x l IH]; intros Ho j k; [done|]. rewrite filter_cons.
        assert (∀ j k, l !! j = Some p → l !! k = Some p → j = k) as Ho' by (intros a b Ha Hb; assert (S a = S b); [by apply Ho | lia]).
        case_decide; [|by apply IH]. destruct j as [|j], k as [|k]; simpl; try done.
        - intros [= ->] Hin%list_elem_of_lookup_2%list_elem_of_filter. destruct Hin as [_ [i Hi]%list_elem_of_lookup].
          assert (0%nat = S i); [by apply Ho | lia].
        - intros Hin%list_elem_of_lookup_2%list_elem_of_filter [= ->]. destruct Hin as [_ [i Hi]%list_elem_of_lookup].
          assert (0%nat = S i); [by apply Ho | lia].
        - intros Ha Hb. f_equal. by apply IH. }
      apply Hfil. intros j' k'. by apply H6.
  - unfold texts at 2. rewrite <- texts_filter. unfold texts. cbn [entries set_entries]. fold keep. apply list_fmap_ext.
    intros i p Hi. unfold tx. cbn [heap set_entries]. destruct (Hk p) as [-> _]; [by eapply list_elem_of_lookup_2 | done].
Qed.

(** What the allocator promises about the results it is asked for: a new
    string is at a non-null address that is not in use. *)
Record alloc_ok (a : allocs) (e : env) : Prop := {
  al_str : ∀ s, a_str a = Some s → s ≠ 0 ∧ heap e !! s = None;
  al_env : ∀ p, a_env a = Some p → p ≠ 0;
}.

Lemma wf_heap_insert s t e :
  env_wf e → heap e !! s = None → env_wf (set_heap (<[s := t]> (heap e)) e) ∧ texts (set_heap (<[s := t]> (heap e)) e) = texts e.
Proof.
  intros [H1 H2 H3 H4 H5 H6] Hs.
  assert (∀ p, is_Some (heap e !! p) → <[s := t]> (heap e) !! p = heap e !! p) as Hp.
  { intros p [x Hx]. rewrite lookup_insert_ne; [done|]. intros ->. congruence. }
  split.
  - split; cbn [environ entries env_alloc env_cap owned heap set_heap]; try done.
    + intros p Hin. destruct (H4 p Hin) as [? Hl]. by rewrite Hp.
    + intros p Hin. rewrite Hp; by apply H5.
  - unfold texts. apply list_fmap_ext. intros i p Hi. unfold tx. cbn [heap set_heap].
    rewrite Hp; [done|]. apply H5. by eapply list_elem_of_lookup_2.
Qed.

Lemma wf_owned_cap c e :
  env_wf e → env_wf (Env (environ e) (entries e) (env_alloc e) (env_cap e) (owned e) c (heap e)).
Proof. intros [H1 H2 H3 H4 H5 H6]. by split. Qed.

Lemma setenv_ok n v overwrite a e :
  env_wf e → valid_name n → alloc_ok a e →
  wp (setenv n v overwrite a e) (λ '(r, err, e'), env_wf e' ∧ err = None ∧
    if bool_decide (overwrite = 0 ∧ is_Some (lookup_env n (texts e))) then r = 0 ∧ e' = e
    else (r = 0 ∧ texts e' = put_text n (n ++ 61 :: v) (texts e)) ∨
         (r = -1 ∧ texts e' = texts e ∧ (a_str a = None ∨ a_owned a = false ∨ a_env a = None))).
Proof.
  intros Hw Hn [Has Hae]. destruct (name_len_valid n Hn) as [E1 E2]. unfold setenv. rewrite E1, Nat.eqb_refl.
  destruct (Nat.eqb_spec (length n) 0); [done|]. cbn [orb negb].
  assert ((if overwrite =? 0 then getenv n e else Ok None) = Ok (if overwrite =? 0 then lookup_env n (texts e) else None)) as ->
    by (case_match; [by apply getenv_ok | done]).
  cbn [mbind res_bind].
  assert (bool_decide (is_Some (if overwrite =? 0 then lookup_env n (texts e) else None)) =
    bool_decide (overwrite = 0 ∧ is_Some (lookup_env n (texts e)))) as ->.
  { apply bool_decide_ext. destruct (Z.eqb_spec overwrite 0); split; [tauto..| |tauto]. by intros []. }
  case_bool_decide as Hpres; [by apply wp_ok|].
  destruct (a_str a) as [s|] eqn:Es; [|apply wp_ok; split_and!; try done; right; tauto].
  destruct (Has s eq_refl) as [Hs0 Hsn]. rewrite firstn_all. cbv zeta. cbn [heap set_heap].
  destruct (wf_heap_insert s (n ++ 61 :: v) e Hw Hsn) as [Hw1 Ht1].
  set (e1 := set_heap (<[s := n ++ 61 :: v]> (heap e)) e) in *.
  assert (set_heap (delete s (<[s := n ++ 61 :: v]> (heap e))) e1 = e) as Hundo.
  { unfold e1, set_heap. cbn. rewrite delete_insert_eq, delete_id by done. by destruct e. }
  set (full := Z.of_nat (length (owned e)) =? owned_cap e).
  destruct (full && negb (a_owned a)) eqn:Ef.
  { apply wp_ok. rewrite Hundo. split_and!; try done. right. split_and!; try done. right. left.
    apply andb_true_iff in Ef as [_ Ef]. by apply negb_true_iff in Ef. }
  set (e2 := if full then _ else e1).
  assert (env_wf e2 ∧ texts e2 = texts e ∧ heap e2 = heap e1 ∧ owned e2 = owned e ∧ entries e2 = entries e) as (Hw2 & Ht2 & Hh2 & Ho2 & Hen2).
  { unfold e2. destruct full; [|by split_and!]. split_and!; try done. by apply wf_owned_cap. }
  clearbody e2. apply wp_bind.
  eapply wp_mono; [apply (env_put_ok n v s (a_env a) e2 Hw2 Hn)|].
  { rewrite Hh2. unfold e1. cbn [heap set_heap]. by rewrite lookup_insert_eq. }
  { exact Hae. }
  intros [[r old] e3] (A1 & A2 & A3 & [(-> & Hnone & ->)|(-> & Htx & Henv & Hcap & Hput)]).
  { change (negb (-1 =? 0)) with true. cbv iota. apply wp_ok.
    assert (texts (set_heap (delete s (heap e2)) e2) = texts e ∧ env_wf (set_heap (delete s (heap e2)) e2)) as [Hte Hwe].
    { assert (heap (set_heap (delete s (heap e2)) e2) = heap e) as Hh.
      { cbn [heap set_heap]. rewrite Hh2. unfold e1. cbn [heap set_heap]. rewrite delete_insert_eq, delete_id by done. done. }
      split.
      - unfold texts. cbn [entries set_heap]. rewrite Hen2. apply list_fmap_ext. intros i p _. unfold tx. by rewrite Hh.
      - destruct Hw as [H1 H2 H3 H4 H5 H6], Hw2 as [G1 G2 G3 G4 G5 G6]. split; try done.
        + intros p Hp. rewrite Hh. apply H4. by rewrite <- Ho2.
        + intros p Hp. rewrite Hh. apply H5. by rewrite <- Hen2. }
    split_and!; try done. right. split_and!; try done. tauto. }
  change (negb (0 =? 0)) with false. cbv iota. apply wp_bind.
  assert (s ∉ entries e) as Hse. { intros Hin. destruct (wf_live e Hw s Hin). congruence. }
  assert (s ∉ owned e) as Hso. { intros Hin. destruct (wf_owned e Hw s Hin) as [_ []]. congruence. }
  eapply wp_mono; [apply (put_release_ok s [s] old e2 (set_owned (owned e3 ++ [s]) e3) Hw2 Hs0)|]; cbn [heap owned environ env_alloc env_cap entries set_owned]; try done.
  - rewrite Hh2. unfold e1. cbn [heap set_heap]. rewrite lookup_insert_eq. eauto.
  - by rewrite Ho2.
  - right. split; [done|]. by rewrite Hen2.
  - by rewrite A2.
  - intros e5 [B1 B2]. apply wp_ok. split_and!; try done. left. split; [done|]. rewrite B2, <- Ht2. exact Htx.
Qed.

Lemma putenv_ok s n v ne e :
  env_wf e → valid_name n → heap e !! s = Some (n ++ 61 :: v) → s ≠ 0 → s ∉ owned e → (∀ a, ne = Some a → a ≠ 0) →
  wp (putenv s ne e) (λ '(r, err, e'), env_wf e' ∧
    ((r = 0 ∧ err = None ∧ texts e' = put_text n (n ++ 61 :: v) (texts e)) ∨
     (r = -1 ∧ err = Some ENOMEM ∧ e' = e ∧ ne = None))).
Proof.
  intros Hw Hn Hs Hs0 Hso Hne. unfold putenv. rewrite str_at_ok by eauto. cbn [mbind res_bind].
  assert (tx e s = n ++ 61 :: v) as -> by (unfold tx; by rewrite Hs). rewrite name_len_app by apply Hn.
  destruct (Nat.eqb_spec (length n) (length (n ++ 61 :: v))) as [E|_]; [rewrite length_app in E; simpl in E; lia|].
  destruct (Nat.eqb_spec (length n) 0) as [E|_]; [by destruct (name_len_valid n Hn)|].
  apply wp_bind. eapply wp_mono; [by apply (env_put_ok n v s ne e)|].
  intros [[r old] e3] (A1 & A2 & A3 & [(-> & Hnone & ->)|(-> & Htx & Henv & Hcap & Hput)]).
  { apply wp_ok. split; [done|]. by right. }
  change (negb (0 =? 0)) with false. cbv iota. apply wp_bind.
  eapply wp_mono; [apply (put_release_ok s [] old e e3 Hw Hs0)|]; try done; [by left | by rewrite app_nil_r|].
  intros e5 [B1 B2]. apply wp_ok. split; [done|]. left. split_and!; try done. by rewrite B2.
Qed.

Lemma release_all_ok ps e : owned_ok e → wp (release_all ps e) owned_ok.
Proof.
  revert e. induction ps as [|p ps IH]; intros e He; cbn [release_all]; [by apply wp_ok|].
  apply wp_bind. eapply wp_mono; [by apply release_ok|]. intros e' (_ & H & _). by apply IH.
Qed.

Lemma clearenv_ok e : env_wf e → wp (clearenv e) (λ '(r, e'), r = 0 ∧ env_wf e' ∧ texts e' = []).
Proof.
  intros [H1 H2 H3 H4 H5 H6]. unfold clearenv. apply wp_bind.
  assert (wp (if environ e =? 0 then Ok e else release_all (entries e) e) owned_ok) as H.
  { case_match; [apply wp_ok; by split|]. apply release_all_ok. by split. }
  eapply wp_mono; [exact H|]. intros e' [G1 G2]. apply wp_ok. split_and!; try done. split; try done; cbn; set_solver.
Qed.

(** ** Properties *)


