(* ===== verification/Fnmatch.v ===== *)
(** * Shell pattern matching (src/src/fnmatch.c)

    A pattern position is the rest of the pattern from there on, a position
    in the string its offset; reading at the end gives the terminating NUL.
    The recursive reading of a pattern (what each element matches, what a
    star matches) is the specification of the loop with a single backtracking
    point. *)
From S2P Require Import Prelude Ctype.

(** ** Operations *)

Definition FNM_PATHNAME : Z := 0x1.
Definition FNM_NOESCAPE : Z := 0x2.
Definition FNM_PERIOD : Z := 0x4.
Definition FNM_LEADING_DIR : Z := 0x8.
Definition FNM_CASEFOLD : Z := 0x10.
Definition FNM_NOMATCH : Z := 1.

Definition has (flags f : Z) : bool := negb (Z.land flags f =? 0).

Definition fold (c flags : Z) : Z := if has flags FNM_CASEFOLD then tolower c else c.

(** The names of the classes, as bytes. *)
Definition cls : list (list Z * (Z → bool)) :=
  [([97; 108; 110; 117; 109], isalnum); ([97; 108; 112; 104; 97], isalpha); ([98; 108; 97; 110; 107], isblank);
   ([99; 110; 116; 114; 108], iscntrl); ([100; 105; 103; 105; 116], isdigit); ([103; 114; 97; 112; 104], isgraph);
   ([108; 111; 119; 101; 114], islower); ([112; 114; 105; 110; 116], isprint); ([112; 117; 110; 99; 116], ispunct);
   ([115; 112; 97; 99; 101], isspace); ([117; 112; 112; 101; 114], isupper); ([120; 100; 105; 103; 105; 116], isxdigit)].

(** -1 for an unknown name is [None]. *)
Definition in_class (name : list Z) (c : Z) : option bool :=
  (λ x, x.2 c) <$> List.find (λ x, bool_decide (x.1 = name)) cls.

(** p[i], and strstr for a needle of two bytes: the offset of the match. *)
Definition at_ (p : list Z) (i : nat) : Z := default 0 (p !! i).
Fixpoint find2 (a b : Z) (l : list Z) : option nat :=
  match l with
  | x :: ((y :: _) as l') => if (x =? a) && (y =? b) then Some 0%nat else S <$> find2 a b l'
  | _ => None
  end.

(** The results of bracket: -1, -2, or 0/1 with the position behind ']'. *)
Inductive bres := Unclosed | Malformed | Closed (hit : bool) (q : list Z).

(** p++ over a backslash that escapes the next character. *)
Definition skip_escape (p : list Z) (flags : Z) : list Z :=
  if (at_ p 0 =? 92) && negb (has flags FNM_NOESCAPE) && negb (at_ p 1 =? 0) then drop 1 p else p.

(** The loop of bracket: one turn per element. *)
Definition br_elem (c flags : Z) (st : list Z * bool * bool) : ctl (list Z * bool * bool) bres :=
  let '(p, first, hit) := st in
  let lc := fold c flags in
  if negb (first || negb (at_ p 0 =? 93)) then Brk (Closed hit (drop 1 p)) else
  if at_ p 0 =? 0 then Brk Unclosed else
  if (at_ p 0 =? 91) && ((at_ p 1 =? 46) || (at_ p 1 =? 61)) then
    match find2 (at_ p 1) 93 (drop 2 p) with
    | None => Brk Malformed
    | Some e => Cont (drop (e + 2) (drop 2 p), false, hit || ((e =? 1)%nat && (fold (at_ p 2) flags =? lc)))
    end
  else if (at_ p 0 =? 91) && (at_ p 1 =? 58) then
    match find2 58 93 (drop 2 p) with
    | None => Brk Malformed
    | Some e =>
        let name := take e (drop 2 p) in
        match in_class name c with
        | None => Brk Malformed
        | Some r =>
            let other := has flags FNM_CASEFOLD && negb r && isalpha c &&
              bool_decide (in_class name (if isupper c then tolower c else toupper c) = Some true) in
            Cont (drop (e + 2) (drop 2 p), false, hit || r || other)
        end
    end
  else
    let p := skip_escape p flags in
    let lo := at_ p 0 in
    let p := drop 1 p in
    if (at_ p 0 =? 45) && negb (at_ p 1 =? 0) && negb (at_ p 1 =? 93) then
      let p := skip_escape (drop 1 p) flags in
      let hi := at_ p 0 in
      let p := drop 1 p in
      let h := ((lo <=? c) && (c <=? hi)) ||
        (has flags FNM_CASEFOLD && (fold lo flags <=? lc) && (lc <=? fold hi flags)) ||
        (has flags FNM_CASEFOLD && (lo <=? toupper c) && (toupper c <=? hi)) in
      Cont (p, false, hit || h)
    else Cont (p, false, hit || (fold lo flags =? lc)).

Definition bracket (p : list Z) (c flags : Z) : res bres :=
  let neg := (at_ p 0 =? 33) || (at_ p 0 =? 94) in
  let p := if neg then drop 1 p else p in
  r ← loop (S (length p)) (λ st, Ok (br_elem c flags st)) (p, true, false);
  Ok (match r with Closed hit q => Closed (xorb hit neg) q | r => r end).

(** One pattern element against the character [c] (NUL at the end of the
    string): continue behind it, backtrack, or give up. *)
Inductive sres := Adv (p : list Z) | Back | GiveUp.

Definition literal (p : list Z) (c flags : Z) : sres :=
  if negb (fold (at_ p 0) flags =? fold c flags) || (c =? 0) then Back else Adv (drop 1 p).

Definition one (p : list Z) (c flags : Z) : res sres :=
  let slash := has flags FNM_PATHNAME && (c =? 47) in
  if at_ p 0 =? 63 then Ok (if (c =? 0) || slash then Back else Adv (drop 1 p))
  else if at_ p 0 =? 91 then
    if (c =? 0) || slash then Ok Back else
    r ← bracket (drop 1 p) c flags;
    Ok (match r with
        | Malformed => GiveUp
        | Unclosed => literal p c flags
        | Closed false _ => Back
        | Closed true q => Adv q
        end)
  else if (at_ p 0 =? 92) && negb (has flags FNM_NOESCAPE) then
    Ok (if at_ p 1 =? 0 then GiveUp else literal (drop 1 p) c flags)
  else Ok (literal p c flags).

(** while ( *p == '*' ) p++ *)
Fixpoint skip_stars (p : list Z) : list Z :=
  match p with c :: p' => if c =? 42 then skip_stars p' else p | [] => [] end.

Section Match.
Context (str : list Z) (flags : Z).

Definition pathname : bool := has flags FNM_PATHNAME.

Definition LEADING_DOT (x : nat) : bool :=
  has flags FNM_PERIOD && (at_ str x =? 46) && ((x =? 0)%nat || (pathname && (at_ str (x - 1) =? 47))).

(** A leading period that the pattern element at [p] does not name. *)
Definition blocked (p : list Z) (s : nat) : bool :=
  LEADING_DOT s && negb (at_ p 0 =? 46) &&
  negb ((at_ p 0 =? 92) && negb (has flags FNM_NOESCAPE) && (at_ p 1 =? 46)) && negb (at_ p 0 =? 0).

Definition at_end (s : nat) : bool :=
  (at_ str s =? 0) || (has flags FNM_LEADING_DIR && (at_ str s =? 47)).

Definition fstate : Type := list Z * nat * option (list Z * nat).

Definition backtrack (star : option (list Z * nat)) : ctl fstate Z :=
  match star with
  | None => Brk FNM_NOMATCH
  | Some (star_p, star_s) =>
      if (at_ str star_s =? 0) || (pathname && (at_ str star_s =? 47)) || LEADING_DOT star_s then Brk FNM_NOMATCH
      else Cont (star_p, S star_s, Some (star_p, S star_s))
  end.

Definition fn_step (st : fstate) : res (ctl fstate Z) :=
  let '(p, s, star) := st in
  if blocked p s then Ok (backtrack star) else
  if at_ p 0 =? 0 then Ok (if at_end s then Brk 0 else backtrack star)
  else if at_ p 0 =? 42 then
    let p := skip_stars p in Ok (Cont (p, s, Some (p, s)))
  else
    r ← one p (at_ str s) flags;
    Ok (match r with Adv q => Cont (q, S s, star) | Back => backtrack star | GiveUp => Brk FNM_NOMATCH end).
End Match.

(** The loop makes at most (length pat + 1) turns for every position of the
    backtracking point. *)
Definition fn_fuel (pat str : list Z) : nat := S (S (length str) * S (length pat)).

Definition fnmatch (pat str : list Z) (flags : Z) : res Z :=
  loop (fn_fuel pat str) (fn_step str flags) (pat, 0%nat, None).

(** *a*a*b and aaaab; *.c and .c with a leading period; [![:digit:]a-c] and d. *)
Example fnmatch_ex1 : fnmatch [42; 97; 42; 97; 42; 98] [97; 97; 97; 97; 98] 0 = Ok 0.
Proof. vm_compute. reflexivity. Qed.
Example fnmatch_ex2 : fnmatch [42; 46; 99] [46; 99] FNM_PERIOD = Ok 1.
Proof. vm_compute. reflexivity. Qed.
Example fnmatch_ex3 : fnmatch [91; 33; 91; 58; 100; 105; 103; 105; 116; 58; 93; 97; 45; 99; 93] [100] 0 = Ok 0.
Proof. vm_compute. reflexivity. Qed.

(** ** Bracket expressions

    Where a bracket expression ends, and whether it is well formed, does not
    depend on the character it is matched against. *)
Definition skel (r : bres) : bool + list Z :=
  match r with Unclosed => inl false | Malformed => inl true | Closed _ q => inr q end.

(** A proper rest of the pattern. *)
Definition sub (q p : list Z) : Prop := suffix q p ∧ (length q < length p)%nat.

Definition shorter (p : list Z) (k : bool + list Z) : Prop :=
  match k with inr q => sub q p | inl _ => True end.

Lemma at_nonzero p i : at_ p i ≠ 0 → (i < length p)%nat.
Proof. unfold at_. intros H. apply lookup_lt_is_Some_1. destruct (p !! i); [done | by destruct H]. Qed.

Lemma drop_suffix n (p : list Z) : suffix (drop n p) p.
Proof. exists (take n p). by rewrite take_drop. Qed.

Lemma drop_shorter n p : at_ p 0 ≠ 0 → (0 < n)%nat → sub (drop n p) p.
Proof. intros H%at_nonzero Hn. split; [apply drop_suffix|]. rewrite length_drop. lia. Qed.

Lemma sub_suffix_l r q p : suffix r q → sub q p → sub r p.
Proof. intros H [H1 H2]. split; [by etrans|]. pose proof (suffix_length _ _ H). lia. Qed.

Lemma sub_suffix_r r q p : sub r q → suffix q p → sub r p.
Proof. intros [H1 H2] H. split; [by etrans|]. pose proof (suffix_length _ _ H). lia. Qed.

Lemma in_class_shape name c c' : in_class name c = None ↔ in_class name c' = None.
Proof. unfold in_class. by rewrite !fmap_None. Qed.

Lemma skip_escape_suffix p flags : suffix (skip_escape p flags) p.
Proof. unfold skip_escape. case_match; [apply drop_suffix | done]. Qed.

Lemma skip_escape_nonzero p flags : at_ p 0 ≠ 0 → at_ (skip_escape p flags) 0 ≠ 0.
Proof.
  intros H. unfold skip_escape. destruct (_ && _) eqn:E; [|done].
  apply andb_true_iff in E as [_ E]. apply negb_true_iff, Z.eqb_neq in E. unfold at_ in *. by rewrite lookup_drop.
Qed.

Ltac brk_shape k := right; exists k; split; [done | intros; eexists; split; reflexivity].

Lemma br_elem_shape flags p first :
  (∃ p', sub p' p ∧ ∀ c hit, ∃ hit', br_elem c flags (p, first, hit) = Cont (p', false, hit')) ∨
  (∃ k, shorter p k ∧ ∀ c hit, ∃ r, br_elem c flags (p, first, hit) = Brk r ∧ skel r = k).
Proof.
  unfold br_elem. destruct (negb (first || negb (at_ p 0 =? 93))) eqn:E0.
  { right. exists (inr (drop 1 p)). split; [|intros; eexists; split; reflexivity]. apply negb_true_iff, orb_false_iff in E0 as [_ E0].
    apply negb_false_iff, Z.eqb_eq in E0. apply drop_shorter; lia. }
  destruct (Z.eqb_spec (at_ p 0) 0) as [E1|E1]; [brk_shape (inl false : bool + list Z)|].
  destruct ((at_ p 0 =? 91) && ((at_ p 1 =? 46) || (at_ p 1 =? 61))).
  { destruct (find2 _ _ _) as [e|]; [|brk_shape (inl true : bool + list Z)].
    left. exists (drop (e + 2) (drop 2 p)). split; [rewrite drop_drop; apply drop_shorter; [done | lia] | intros; eexists; reflexivity]. }
  destruct ((at_ p 0 =? 91) && (at_ p 1 =? 58)).
  { destruct (find2 _ _ _) as [e|]; [|brk_shape (inl true : bool + list Z)].
    destruct (in_class (take e (drop 2 p)) 0) eqn:Ec.
    - left. exists (drop (e + 2) (drop 2 p)). split; [rewrite drop_drop; apply drop_shorter; [done | lia]|]. intros c hit.
      destruct (in_class _ c) eqn:Ec'; [eexists; reflexivity|]. apply (in_class_shape _ c 0) in Ec'. congruence.
    - right. exists (inl true). split; [done|]. intros c hit.
      destruct (in_class _ c) eqn:Ec'; [|eexists; split; reflexivity]. apply (in_class_shape _ 0 c) in Ec. congruence. }
  left. cbv zeta. set (p1 := skip_escape p flags).
  assert (sub (drop 1 p1) p) as H1.
  { apply (sub_suffix_r _ p1); [|apply skip_escape_suffix]. apply drop_shorter; [by apply skip_escape_nonzero | lia]. }
  destruct ((at_ (drop 1 p1) 0 =? 45) && negb (at_ (drop 1 p1) 1 =? 0) && negb (at_ (drop 1 p1) 1 =? 93)).
  - eexists. split; [|intros; eexists; reflexivity]. 
    eapply sub_suffix_l; [|exact H1]. etrans; [apply drop_suffix|]. etrans; [apply skip_escape_suffix | apply drop_suffix].
  - eexists. split; [exact H1 | intros; eexists; reflexivity].
Qed.

Lemma br_loop_shape flags f p first :
  (length p < f)%nat →
  ∃ k, shorter p k ∧ ∀ c hit, ∃ r, loop f (λ st, Ok (br_elem c flags st)) (p, first, hit) = Ok r ∧ skel r = k.
Proof.
  revert p first. induction f as [|f IH]; intros p first Hf; [lia|].
  destruct (br_elem_shape flags p first) as [(p' & Hp' & Hc)|(k & Hk & Hb)].
  - destruct (IH p' false ltac:(destruct Hp'; lia)) as (k & Hk & Hr). exists k.
    split; [destruct k; [done|]; eapply sub_suffix_l; [apply Hk | done]|].
    intros c hit. destruct (Hc c hit) as [hit' E]. rewrite loop_S, E. apply Hr.
  - exists k. split; [done|]. intros c hit. destruct (Hb c hit) as (r & E & Hr). rewrite loop_S, E. eauto.
Qed.

Lemma bracket_shape flags p :
  ∃ k : bool + list Z, match k with inr q => suffix q p | inl _ => True end ∧
    ∀ c, ∃ r, bracket p c flags = Ok r ∧ skel r = k.
Proof.
  unfold bracket. set (p1 := if (at_ p 0 =? 33) || (at_ p 0 =? 94) then drop 1 p else p).
  destruct (br_loop_shape flags (S (length p1)) p1 true ltac:(lia)) as (k & Hk & Hr). exists k.
  assert (suffix p1 p) by (unfold p1; case_match; [apply drop_suffix | done]).
  split; [destruct k; [done|]; etrans; [apply Hk | done]|]. intros c. destruct (Hr c false) as (r & E & Hs). rewrite E.
  cbn [mbind res_bind]. destruct r; eauto.
Qed.

(** ** One pattern element *)

Lemma literal_shape p flags c : literal p c flags = Adv (drop 1 p) ∨ literal p c flags = Back.
Proof. unfold literal. case_match; eauto. Qed.

Lemma one_shape flags p :
  at_ p 0 ≠ 0 →
  (∀ c, one p c flags = Ok Back ∨ one p c flags = Ok GiveUp) ∨
  (∃ q, sub q p ∧ ∀ c, one p c flags = Ok (Adv q) ∨ one p c flags = Ok Back).
Proof.
  intros Hp. unfold one. destruct (Z.eqb_spec (at_ p 0) 63) as [E|E].
  { right. exists (drop 1 p). split; [apply drop_shorter; [done | lia]|]. intros c. case_match; eauto. }
  destruct (Z.eqb_spec (at_ p 0) 91) as [E1|E1].
  { destruct (bracket_shape flags (drop 1 p)) as (k & Hk & Hr). pose proof (drop_shorter 1 p Hp ltac:(lia)).
    destruct k as [[]|q].
    - left. intros c. destruct (_ || _); [by left|]. destruct (Hr c) as (r & -> & Hs). destruct r; simplify_eq/=. by right.
    - right. exists (drop 1 p). split; [done|]. intros c. destruct (_ || _); [by right|].
      destruct (Hr c) as (r & -> & Hs). destruct r; simplify_eq/=. destruct (literal_shape p flags c) as [-> | ->]; eauto.
    - right. exists q. split; [by eapply sub_suffix_l|]. intros c. destruct (_ || _); [by right|].
      destruct (Hr c) as (r & -> & Hs). destruct r as [| |[] q']; simplify_eq/=; eauto. }
  destruct (_ && _) eqn:E2.
  - destruct (Z.eqb_spec (at_ p 1) 0) as [E3|E3]; [left; eauto|]. right. exists (drop 1 (drop 1 p)).
    split; [rewrite drop_drop; apply drop_shorter; [done | lia]|]. intros c. destruct (literal_shape (drop 1 p) flags c) as [-> | ->]; eauto.
  - right. exists (drop 1 p). split; [apply drop_shorter; [done | lia]|].
    intros c. destruct (literal_shape p flags c) as [-> | ->]; eauto.
Qed.

Lemma fold_slash c flags : is_byte c → fold c flags = 47 → c = 47.
Proof.
  intros Hc. unfold fold. case_match; [|done]. revert c Hc.
  assert (∀ c, is_byte c → (negb (tolower c =? 47) || (c =? 47)) = true) as H1.
  { apply byte_forall. vm_compute. done. }
  intros c Hc Hl. specialize (H1 c Hc). rewrite Hl in H1. by apply Z.eqb_eq.
Qed.

Lemma fold_47 flags : fold 47 flags = 47.
Proof. unfold fold. by case_match. Qed.

Lemma literal_nonzero p c flags q : literal p c flags = Adv q → c ≠ 0 ∧ fold (at_ p 0) flags = fold c flags.
Proof.
  unfold literal. destruct (_ || _) eqn:E; [done|]. apply orb_false_iff in E as [E1 E2].
  apply negb_false_iff, Z.eqb_eq in E1. by apply Z.eqb_neq in E2.
Qed.

Lemma one_nonzero p c flags q : one p c flags = Ok (Adv q) → c ≠ 0.
Proof.
  unfold one. destruct (Z.eqb_spec c 0) as [->|]; [|done]. cbn [orb]. intros H. exfalso.
  assert (∀ p, literal p 0 flags ≠ Adv q) as Hl by (intros p' [? _]%literal_nonzero; done).
  repeat case_match; simplify_eq; by apply Hl in H.
Qed.

(** With FNM_PATHNAME only the character '/' itself matches '/'. *)
Lemma one_slash p c flags q q' :
  Forall is_byte p → is_byte c → has flags FNM_PATHNAME = true →
  one p 47 flags = Ok (Adv q) → one p c flags = Ok (Adv q') → c = 47.
Proof.
  intros Hp Hc Hf. unfold one. rewrite Hf. change (47 =? 47) with true. rewrite !orb_true_r.
  assert (∀ p q q', Forall is_byte p → literal p 47 flags = Adv q → literal p c flags = Adv q' → c = 47) as Hlit.
  { clear p Hp q q'. intros p q q' Hp [H1 H2]%literal_nonzero [H3 H4]%literal_nonzero. rewrite fold_47 in H2.
    assert (is_byte (at_ p 0)) as Hb by (destruct Hp; [by vm_compute | done]).
    apply fold_slash in H2; [|done]. rewrite H2, fold_47 in H4. by eapply fold_slash. }
  destruct (at_ p 0 =? 63); [done|]. destruct (at_ p 0 =? 91); [done|]. destruct (_ && _).
  - destruct (at_ p 1 =? 0); [done|]. intros [= H1] [= H2]. eapply Hlit; [by apply Forall_drop | done..].
  - intros [= H1] [= H2]. by eapply Hlit.
Qed.

(** ** What a pattern matches *)

Section Spec.
Context (str : list Z) (flags : Z).

Abbreviation LD := (LEADING_DOT str flags).

(** The pattern [p] matches the string from position [s] on. *)
Inductive matches : list Z → nat → Prop :=
| m_end s : at_end str flags s = true → matches [] s
| m_skip p s : LD s = false → matches p s → matches (42 :: p) s
| m_take p s :
    LD s = false → at_ str s ≠ 0 → (pathname flags = true → at_ str s ≠ 47) →
    matches (42 :: p) (S s) → matches (42 :: p) s
| m_one p s q :
    at_ p 0 ≠ 0 → at_ p 0 ≠ 42 → blocked str flags p s = false → one p (at_ str s) flags = Ok (Adv q) →
    matches q (S s) → matches p s.

(** A star at [a] can swallow the characters up to [b]. *)
Definition reach (a b : nat) : Prop :=
  (a <= b)%nat ∧ ∀ x, (a <= x < b)%nat →
    at_ str x ≠ 0 ∧ (pathname flags = true → at_ str x ≠ 47) ∧ LD x = false.

Lemma reach_refl a : reach a a.
Proof using. split; [lia | intros x Hx; lia]. Qed.

Lemma reach_trans a b c : reach a b → reach b c → reach a c.
Proof using.
  intros [H1 H2] [H3 H4]. split; [lia|]. intros x Hx. destruct (decide (x < b)%nat); [apply H2 | apply H4]; lia.
Qed.

Lemma reach_step a :
  at_ str a ≠ 0 → (pathname flags = true → at_ str a ≠ 47) → LD a = false → reach a (S a).
Proof using. intros. split; [lia|]. intros x Hx. replace x with a by lia. done. Qed.

Lemma reach_split a b : reach a b → (a < b)%nat → reach a (S a) ∧ reach (S a) b.
Proof using.
  intros [H1 H2] Hlt. split; (split; [lia|]); intros x Hx; apply H2; lia.
Qed.

(** After a character that is not a slash no period is a leading one. *)
Lemma LD_after x : (pathname flags = true → at_ str x ≠ 47) → LD (S x) = false.
Proof using.
  intros H. destruct (LD (S x)) eqn:E; [|done]. exfalso. unfold LEADING_DOT in E.
  destruct (pathname flags); [|by rewrite andb_false_r in E]. specialize (H eq_refl).
  replace (S x - 1)%nat with x in E by lia. apply andb_true_iff in E as [_ E]. simpl in E. apply Z.eqb_eq in E. done.
Qed.

Lemma reach_LD a b : reach a b → (a < b)%nat → LD b = false.
Proof using.
  intros [_ H] Hlt. destruct b as [|b]; [lia|]. apply LD_after. apply (H b ltac:(lia)).
Qed.

Lemma stars_match p s :
  LD s = false → (∃ t, reach s t ∧ matches (skip_stars p) t) ↔ matches (42 :: p) s.
Proof using.
  intros Hs. split.
  - intros (t & Ht & Hm). assert (∀ t, LD t = false → matches (skip_stars p) t → matches (42 :: p) t) as Hskip.
    { clear. intros t Ht. induction p as [|c p IH]; cbn [skip_stars]; [by constructor|].
      destruct (Z.eqb_spec c 42) as [->|]; [|by constructor]. intros Hm. by apply m_skip, IH. }
    assert (LD t = false) as HLt.
    { destruct (decide (s < t)%nat); [by eapply reach_LD|]. destruct Ht. by replace t with s by lia. }
    revert Ht HLt Hm Hskip. clear -Hs. intros Ht. destruct Ht as [Hle Hr]. remember (t - s)%nat as n eqn:En. revert s Hs En Hle Hr.
    induction n as [|n IH]; intros s Hs En Hle Hr HLt Hm Hskip.
    + replace s with t by lia. by apply Hskip.
    + destruct (Hr s ltac:(lia)) as (H1 & H2 & H3). apply m_take; try done.
      apply IH; try done; try lia; [|intros x Hx; apply Hr; lia].
      destruct (decide (S s = t)) as [->|]; [done|]. apply (Hr (S s)). lia.
  - remember (42 :: p) as p0 eqn:Ep. intros Hm. revert p Ep Hs. induction Hm as [s He|p0 s HL Hm IH|p0 s HL H1 H2 Hm IH|p0 s q H0 H42 Hb Ho Hm IH]; intros p Ep Hs; simplify_eq.
    + destruct p as [|c p]; [exists s; split; [apply reach_refl | done]|]. cbn [skip_stars].
      destruct (Z.eqb_spec c 42) as [->|]; [|exists s; split; [apply reach_refl | done]]. by apply IH.
    + destruct (IH p eq_refl) as (t & Ht & Hmt).
      { eapply (reach_LD s); [by apply reach_step | lia]. }
      exists t. split; [|done]. eapply reach_trans; [by apply reach_step | done].
Qed.

(** ** The attempt behind a star

    [steps sp ss p s]: matching the elements of [sp] from [ss] on has reached
    [p] at [s]. *)
Inductive steps (sp : list Z) (ss : nat) : list Z → nat → Prop :=
| st_start : steps sp ss sp ss
| st_next p s q :
    steps sp ss p s → at_ p 0 ≠ 0 → at_ p 0 ≠ 42 → one p (at_ str s) flags = Ok (Adv q) → steps sp ss q (S s).

Lemma one_det p c c' q q' :
  at_ p 0 ≠ 0 → one p c flags = Ok (Adv q) → one p c' flags = Ok (Adv q') → q = q'.
Proof using.
  intros Hp H1 H2. destruct (one_shape flags p Hp) as [H|(q0 & _ & H)].
  - destruct (H c); congruence.
  - destruct (H c), (H c'); congruence.
Qed.

Lemma matches_one p s :
  at_ p 0 ≠ 0 → at_ p 0 ≠ 42 → matches p s →
  ∃ q, blocked str flags p s = false ∧ one p (at_ str s) flags = Ok (Adv q) ∧ matches q (S s).
Proof using. intros H0 H42 Hm. inversion Hm as [|? ?|? ?|? ? q]; subst; try done. by exists q. Qed.

Lemma steps_suffix sp ss p s : steps sp ss p s → suffix p sp.
Proof using.
  induction 1 as [|p s q Hst IH H0 H42 Ho]; [done|]. etrans; [|exact IH].
  destruct (one_shape flags p H0) as [H|(q0 & [Hq _] & H)]; [destruct (H (at_ str s)); congruence|].
  destruct (H (at_ str s)) as [E|E]; rewrite Ho in E; by simplify_eq.
Qed.

Lemma steps_le sp ss p s : steps sp ss p s → (ss <= s)%nat.
Proof using. induction 1; lia. Qed.

(** The other alignments of the same elements: a match of [sp] at [t] goes
    through [p] at the same distance, and the elements on the way match the
    characters of both alignments. *)
Lemma steps_follow sp ss p s t :
  steps sp ss p s → matches sp t →
  matches p (t + (s - ss)) ∧
  ∀ j, (j < s - ss)%nat → ∃ e q q', suffix e sp ∧
    one e (at_ str (ss + j)) flags = Ok (Adv q) ∧ one e (at_ str (t + j)) flags = Ok (Adv q').
Proof using.
  intros Hst Ht. induction Hst as [|p s q Hst IH H0 H42 Ho].
  { rewrite Nat.sub_diag, Nat.add_0_r. split; [done | intros j Hj; lia]. }
  destruct IH as [Hm Hj]. pose proof (steps_le _ _ _ _ Hst) as Hle.
  destruct (matches_one p _ H0 H42 Hm) as (q' & _ & Ho' & Hm'). replace q' with q in Hm' by (by eapply one_det).
  split; [by replace (t + (S s - ss))%nat with (S (t + (s - ss))) by lia|].
  intros j Hjlt. destruct (decide (j = s - ss)%nat) as [->|]; [|apply Hj; lia].
  replace (ss + (s - ss))%nat with s by lia. exists p, q, q'. split_and!; try done. by eapply steps_suffix.
Qed.

(** What lies between the two ends of the attempt is within reach of a star
    that follows it. *)
Lemma steps_reach sp ss p s t :
  Forall is_byte sp → Forall is_byte str → steps sp ss p s → matches sp t → reach ss t → (ss < t)%nat → LD s = false →
  reach s (t + (s - ss)).
Proof using.
  intros Hsp Hstr Hst Ht [_ Hr] Hlt HL. pose proof (steps_le _ _ _ _ Hst) as Hle.
  destruct (steps_follow _ _ _ _ _ Hst Ht) as [_ Hj].
  assert (∀ x, is_byte (at_ str x)) as Hby.
  { intros x. unfold at_. destruct (str !! x) eqn:E; [by eapply Forall_lookup_1 in Hstr | by vm_compute]. }
  assert (∀ j, (j < s - ss)%nat → pathname flags = true → at_ str (t + j) ≠ 47) as Hsl.
  { intros j. induction (lt_wf j) as [j _ IH]. intros Hjlt Hpn E. destruct (Hj j Hjlt) as (e & q & q' & Hse & H1 & H2).
    rewrite E in H2. assert (Forall is_byte e) as He by (destruct Hse as [l ->]; by apply Forall_app in Hsp as [_ ?]).
    pose proof (one_slash e _ flags _ _ He (Hby (ss + j)%nat) Hpn H2 H1) as E1.
    destruct (decide (ss + j < t)%nat) as [Hin|Hout].
    - destruct (Hr (ss + j)%nat ltac:(lia)) as (_ & Hn & _). by apply Hn.
    - apply (IH (ss + j - t)%nat ltac:(lia) ltac:(lia) Hpn). by replace (t + (ss + j - t))%nat with (ss + j)%nat by lia. }
  assert (∀ x, (s <= x < t + (s - ss))%nat → at_ str x ≠ 0 ∧ (pathname flags = true → at_ str x ≠ 47)) as Hch.
  { intros x Hx. destruct (decide (x < t)%nat) as [Hin|Hout].
    - destruct (Hr x ltac:(lia)) as (H1 & H2 & _). done.
    - destruct (Hj (x - t)%nat ltac:(lia)) as (e & q & q' & _ & _ & H2). replace (t + (x - t))%nat with x in H2 by lia.
      split; [by eapply one_nonzero|]. intros Hpn. specialize (Hsl (x - t)%nat ltac:(lia) Hpn).
      by replace (t + (x - t))%nat with x in Hsl by lia. }
  split; [lia|]. intros x Hx. destruct (Hch x Hx) as [H1 H2]. split_and!; [done | done|].
  destruct (decide (x = s)) as [->|]; [done|]. destruct x as [|x]; [lia|].
  apply LD_after. apply (Hch x). lia.
Qed.

(** ** The loop *)

(** What is still possible: a match of the current attempt, or one where the
    last star swallows more. *)
Definition possible (st : fstate) : Prop :=
  let '(p, s, star) := st in
  matches p s ∨ match star with
    | Some (sp, ss) => ∃ t, (ss < t)%nat ∧ reach ss t ∧ matches sp t
    | None => False
    end.

Record fn_inv (pat : list Z) (st : fstate) : Prop := {
  inv_match : matches pat 0 ↔ possible st;
  inv_p : suffix st.1.1 pat;
  inv_s : (st.1.2 <= length str)%nat;
  inv_star : match st.2 with
    | Some (sp, ss) => suffix sp pat ∧ steps sp ss st.1.1 st.1.2
    | None => True
    end;
}.

Definition fn_measure (pat : list Z) (st : fstate) : nat :=
  let base := match st.2 with Some (_, ss) => ss | None => 0%nat end in
  ((length str - base) * S (length pat) + length st.1.1)%nat.

Lemma no_reach a t : (a < t)%nat → reach a t →
  (at_ str a =? 0) || (pathname flags && (at_ str a =? 47)) || LD a = false.
Proof using.
  intros Hlt [_ H]. destruct (H a ltac:(lia)) as (H1 & H2 & H3). rewrite H3, orb_false_r. apply orb_false_iff. split; [by apply Z.eqb_neq|].
  destruct (pathname flags); [|done]. apply Z.eqb_neq. by apply H2.
Qed.

Section Inv.
Context (pat : list Z) (Hpat : Forall (λ c, 0 < c < 256) pat) (Hstr : Forall is_byte str).

(** The outcome of a turn: the answer is right, or the invariant holds and
    the measure is smaller. *)
Definition turn_ok (st : fstate) (r : ctl fstate Z) : Prop :=
  match r with
  | Cont st' => fn_inv pat st' ∧ (fn_measure pat st' < fn_measure pat st)%nat
  | Brk x => (x = 0 ∧ matches pat 0) ∨ (x = FNM_NOMATCH ∧ ¬ matches pat 0)
  end.

Lemma backtrack_ok p s star :
  fn_inv pat (p, s, star) → ¬ matches p s → turn_ok (p, s, star) (backtrack str flags star).
Proof using.
  intros [Hm Hp Hs Hst] Hno. unfold backtrack. cbn [fst snd] in *. destruct star as [[sp ss]|].
  2:{ right. split; [done|]. rewrite Hm. by intros [?|?]. }
  destruct ((at_ str ss =? 0) || (pathname flags && (at_ str ss =? 47)) || LD ss) eqn:E.
  { right. split; [done|]. rewrite Hm. intros [?|(t & Ht & Hr & _)]; [done|]. rewrite (no_reach ss t) in E; done. }
  destruct Hst as [Hsp Hst]. apply orb_false_iff in E as [E HL]. apply orb_false_iff in E as [E0 E47].
  apply Z.eqb_neq in E0. pose proof (at_nonzero _ _ E0) as Hlt.
  assert (reach ss (S ss)) as Hstep.
  { apply reach_step; [done| |done]. intros Hpn. rewrite Hpn in E47. by apply Z.eqb_neq in E47. }
  split.
  - split; cbn [fst snd]; [|done|lia|split; [done | constructor]]. rewrite Hm. split.
    + intros [?|(t & Ht & Hr & Hmt)]; [done|]. destruct (decide (t = S ss)) as [->|Hne]; [by left|]. right. exists t.
      split; [lia|]. split; [|done]. by destruct (reach_split ss t Hr Ht).
    + intros [H|(t & Ht & Hr & Hmt)]; right; [by exists (S ss); split; [lia|]|]. exists t. split; [lia|]. split; [|done].
      by eapply reach_trans.
  - unfold fn_measure. cbn [fst snd]. pose proof (suffix_length _ _ Hsp). nia.
Qed.

Lemma nonzero_at0 p : suffix p pat → at_ p 0 = 0 → p = [].
Proof using Hpat.
  intros [l ->] H0. destruct p as [|c p]; [done|]. apply Forall_app in Hpat as [_ Hp].
  inversion Hp as [|? ? Hc]; subst. unfold at_ in H0. simpl in H0. lia.
Qed.

Lemma fn_step_ok st : fn_inv pat st → wp (fn_step str flags st) (turn_ok st).
Proof using Hpat Hstr.
  destruct st as [[p s] star]. intros Hinv. pose proof Hinv as [Hm Hp Hs Hst]. cbn [fst snd] in *. unfold fn_step.
  assert (∀ sp, suffix sp pat → Forall is_byte sp) as Hbytes.
  { intros sp [l ->]. apply Forall_app in Hpat as [_ H]. eapply Forall_impl; [exact H|]. intros x Hx. unfold is_byte. simpl in Hx. lia. }
  destruct (blocked str flags p s) eqn:Eb.
  { apply wp_ok, backtrack_ok; [done|]. intros Hmp. unfold blocked in Eb. rewrite !andb_true_iff in Eb.
    destruct Eb as [[[EL E46] Eesc] E0]. inversion Hmp as [s' He|p' s' HL|p' s' HL|p' s' q H0 H42 Hb Ho]; subst; [done|congruence|congruence|].
    unfold blocked in Hb. rewrite EL, E46, Eesc, E0 in Hb. done. }
  destruct (Z.eqb_spec (at_ p 0) 0) as [E0|E0].
  { apply wp_ok. assert (p = []) as -> by (by apply nonzero_at0). destruct (at_end str flags s) eqn:Ee.
    - left. split; [done|]. apply Hm. left. by constructor.
    - apply backtrack_ok; [done|]. intros Hmp. inversion Hmp; subst; congruence. }
  destruct (Z.eqb_spec (at_ p 0) 42) as [E42|E42].
  { apply wp_ok. destruct p as [|c p]; [done|]. unfold at_ in E42. simpl in E42. subst c. cbn [skip_stars]. rewrite Z.eqb_refl.
    assert (LD s = false) as HL.
    { unfold blocked in Eb. destruct (LD s); [|done]. by vm_compute in Eb. }
    assert (suffix (skip_stars p) p) as Hsuf.
    { clear. induction p as [|c p IH]; cbn [skip_stars]; [done|]. case_match; [by apply suffix_cons_r | done]. }
    assert (matches pat 0 ↔ matches (42 :: p) s) as Hiff.
    { rewrite Hm. split; [|by left]. intros [?|Hsc]; [done|]. destruct star as [[sp ss]|]; [|done].
      destruct Hsc as (t & Ht & Hr & Hmt). destruct Hst as [Hsp Hst].
      pose proof (steps_reach sp ss (42 :: p) s t (Hbytes _ Hsp) Hstr Hst Hmt Hr Ht HL) as Hreach.
      destruct (steps_follow sp ss (42 :: p) s t Hst Hmt) as [Hm2 _].
      assert (LD (t + (s - ss)) = false) as HL2.
      { destruct (decide (s < t + (s - ss))%nat); [by eapply reach_LD|]. destruct Hreach. by replace (t + (s - ss))%nat with s by lia. }
      apply stars_match in Hm2 as (u & Hu & Hmu); [|done]. apply stars_match; [done|]. exists u.
      split; [by eapply reach_trans | done]. }
    split.
    - split; cbn [fst snd].
      + rewrite Hiff, <- stars_match by done. split.
        * intros (t & Hr & Hmt). destruct (decide (t = s)) as [->|]; [by left|]. right. exists t. split; [destruct Hr; lia | done].
        * intros [?|(t & _ & Hr & Hmt)]; [exists s; split; [apply reach_refl | done] | by exists t].
      + etrans; [exact Hsuf|]. by eapply suffix_cons_l.
      + done.
      + split; [|constructor]. etrans; [exact Hsuf|]. by eapply suffix_cons_l.
    - unfold fn_measure. cbn [fst snd length]. pose proof (suffix_length _ _ Hsuf).
      destruct star as [[sp ss]|]; [destruct Hst as [_ Hst]; pose proof (steps_le _ _ _ _ Hst)|]; nia. }
  destruct (one_shape flags p E0) as [Hdead|(q & [Hq Hql] & Hone)].
  - assert (¬ matches p s) as Hno.
    { intros (q & _ & Ho & _)%matches_one; [|done..]. destruct (Hdead (at_ str s)); congruence. }
    destruct (Hdead (at_ str s)) as [-> | ->]; cbn [mbind res_bind]; apply wp_ok; [by apply backtrack_ok|].
    right. split; [done|]. rewrite Hm. intros [?|Hsc]; [done|]. destruct star as [[sp ss]|]; [|done].
    destruct Hsc as (t & Ht & Hr & Hmt). destruct Hst as [Hsp Hst].
    destruct (steps_follow sp ss p s t Hst Hmt) as [(q & _ & Ho & _)%matches_one _]; [|done..].
    destruct (Hdead (at_ str (t + (s - ss)))); congruence.
  - destruct (Hone (at_ str s)) as [Ho|Ho]; rewrite Ho; cbn [mbind res_bind]; apply wp_ok.
    2:{ apply backtrack_ok; [done|]. intros (q' & _ & Ho' & _)%matches_one; [congruence | done..]. }
    pose proof (at_nonzero _ _ (one_nonzero _ _ _ _ Ho)) as Hlt. split.
    + split; cbn [fst snd].
      * rewrite Hm. unfold possible.
        assert (matches p s ↔ matches q (S s)) as ->; [|done]. split.
        -- intros (q' & _ & Ho' & Hm')%matches_one; [|done..]. rewrite Ho in Ho'. by simplify_eq.
        -- intros Hm'. by eapply m_one.
      * by etrans.
      * lia.
      * destruct star as [[sp ss]|]; [|done]. destruct Hst as [Hsp Hst]. split; [done|]. by eapply st_next.
    + unfold fn_measure. cbn [fst snd]. lia.
Qed.
End Inv.
End Spec.

(** ** Properties *)

(** C37: fnmatch decides the matching relation. For every pattern, string and
    combination of flags the loop ends within (length pat + 1) turns per
    character of the string and returns 0 when the pattern matches the
    string, FNM_NOMATCH when it does not: remembering only the last star
    loses no match. In the relation a star matches any run of characters
    without crossing '/' (with FNM_PATHNAME) or a leading period (with
    FNM_PERIOD), and every other element matches one character. *)
Theorem fnmatch_spec pat str flags :
  Forall (λ c, 0 < c < 256) pat → Forall (λ c, 0 < c < 256) str →
  (fnmatch pat str flags = Ok 0 ∧ matches str flags pat 0) ∨
  (fnmatch pat str flags = Ok FNM_NOMATCH ∧ ¬ matches str flags pat 0).
Proof.
  intros Hpat Hstr. assert (Forall is_byte str) as Hb.
  { eapply Forall_impl; [exact Hstr|]. intros x Hx. unfold is_byte. simpl in Hx. lia. }
  destruct (wp_loop (fn_inv str flags pat) (fn_measure str pat) (fn_step str flags)
    (λ x, (x = 0 ∧ matches str flags pat 0) ∨ (x = FNM_NOMATCH ∧ ¬ matches str flags pat 0))
    (fn_fuel pat str) (pat, 0%nat, None)) as (x & E & Hx).
  - intros st Hinv. eapply wp_mono; [exact (fn_step_ok str flags pat Hpat Hb st Hinv)|]. intros [st'|x] H; exact H.
  - split; cbn [fst snd]; [|done|lia|done]. split; [by left | by intros [?|?]].
  - unfold fn_measure, fn_fuel. cbn [fst snd]. nia.
  - unfold fnmatch. rewrite E. destruct Hx as [[-> ?]|[-> ?]]; [by left | by right].
Qed.

Lemma fnmatch_spec_witness :
  Forall (λ c, 0 < c < 256) [42; 97; 42; 98] ∧ Forall (λ c, 0 < c < 256) [97; 97; 98] ∧
  ((fnmatch [42; 97; 42; 98] [97; 97; 98] 0 = Ok 0 ∧ matches [97; 97; 98] 0 [42; 97; 42; 98] 0) ∨
   (fnmatch [42; 97; 42; 98] [97; 97; 98] 0 = Ok FNM_NOMATCH ∧ ¬ matches [97; 97; 98] 0 [42; 97; 42; 98] 0)).
Proof.
  assert (Forall (λ c, 0 < c < 256) [42; 97; 42; 98]) as H1 by (repeat constructor).
  assert (Forall (λ c, 0 < c < 256) [97; 97; 98]) as H2 by (repeat constructor).
  split; [exact H1|]. split; [exact H2|]. exact (fnmatch_spec _ _ 0 H1 H2).
Defined.
