(* ===== verification/Iconv.v ===== *)
(** * Character set conversion (src/src/iconv.c)

    The descriptor is a record; input and output are lists of bytes, the room
    left in the output a number. decode and encode take one character; iconv
    is their loop. *)
From S2P Require Import Prelude Lit Ctype CMem Multibyte Uchar.

(** ** Operations *)

Definition EBADF : Z := 9.
Definition EINVAL : Z := 22.
Definition E2BIG : Z := 7.

Inductive charset := UTF8 | ASCII | LATIN1 | LATIN9 | CP1252 | UTF16 | UTF16LE | UTF16BE | UCS2 | UCS2LE | UCS2BE
  | UTF32 | UTF32LE | UTF32BE | UCS4 | UCS4LE | WCHAR.

#[export] Instance charset_eq_dec : EqDecision charset.
Proof. solve_decision. Defined.

Definition charset_names : list (list Z * charset) :=
  [(lit "utf8", UTF8); ([], UTF8); (lit "char", UTF8);
   (lit "ascii", ASCII); (lit "usascii", ASCII); (lit "ansix341968", ASCII); (lit "646", ASCII);
   (lit "iso88591", LATIN1); (lit "latin1", LATIN1); (lit "l1", LATIN1); (lit "iso885911987", LATIN1);
   (lit "iso885915", LATIN9); (lit "latin9", LATIN9); (lit "l9", LATIN9);
   (lit "cp1252", CP1252); (lit "windows1252", CP1252);
   (lit "utf16", UTF16); (lit "utf16le", UTF16LE); (lit "utf16be", UTF16BE);
   (lit "ucs2", UCS2); (lit "ucs2le", UCS2LE); (lit "ucs2be", UCS2BE); (lit "unicodelittle", UCS2LE); (lit "unicodebig", UCS2BE);
   (lit "utf32", UTF32); (lit "utf32le", UTF32LE); (lit "utf32be", UTF32BE);
   (lit "ucs4", UCS4); (lit "ucs4be", UCS4); (lit "ucs4le", UCS4LE); (lit "wchart", WCHAR)].

Definition TRANSLIT : Z := 1.
Definition IGNORE : Z := 2.

Record cd := Cd { from : charset; to : charset; flags : Z; in_be : bool; in_bom_done : bool; out_bom_done : bool }.

Definition is_sep (c : Z) : bool := (c =? 47) || (c =? 44).

(** The suffixes behind the double slash. strcspn and strspn by the set of
    separators are a split of the list. *)
Fixpoint parse_flags (fuel : nat) (f : list Z) (fl : Z) : Z :=
  match fuel, f with
  | S fuel, _ :: _ =>
      let l := default (length f) (fst <$> list_find (λ c, is_sep c = true) f) in
      let w := tolower <$> take l f in
      let fl := if bool_decide (w = lit "translit") then Z.lor fl TRANSLIT
                else if bool_decide (w = lit "ignore") then Z.lor fl IGNORE else fl in
      let r := drop l f in
      let k := default (length r) (fst <$> list_find (λ c, is_sep c = false) r) in
      parse_flags fuel (drop k r) fl
  | _, _ => fl
  end.

(** The normalised name (at most 31 characters), the flags, and whether the
    whole name was read. *)
Fixpoint lookup_loop (s n : list Z) (fl : Z) : option (list Z * Z) :=
  match s with
  | [] => Some (n, fl)
  | c :: s' =>
      let slashes := (c =? 47) && bool_decide (head s' = Some 47) in
      if (length n <? 31)%nat then
        if slashes then Some (n, parse_flags (length s) (drop 1 s') fl)
        else if (c =? 45) || (c =? 95) || (c =? 32) then lookup_loop s' n fl
        else lookup_loop s' (n ++ [if (65 <=? c) && (c <=? 90) then c + 32 else c]) fl
      else if slashes then Some (n, fl) else None
  end.

Definition lookup (s : list Z) : option (charset * Z) :=
  match lookup_loop s [] 0 with
  | None => None
  | Some (n, fl) => (λ x, (x.2, fl)) <$> List.find (λ x, bool_decide (x.1 = n)) charset_names
  end.

(** [got]: calloc succeeded. *)
Definition iconv_open (tocode fromcode : list Z) (got : bool) : cd + Z :=
  match lookup tocode, lookup fromcode with
  | Some (t, tf), Some (f, _) => if got then inl (Cd f t tf false false false) else inr 12
  | _, _ => inr EINVAL
  end.

Definition cp1252_hi : list Z :=
  [0x20ac; 0; 0x201a; 0x0192; 0x201e; 0x2026; 0x2020; 0x2021; 0x02c6; 0x2030; 0x0160; 0x2039; 0x0152; 0; 0x017d; 0;
   0; 0x2018; 0x2019; 0x201c; 0x201d; 0x2022; 0x2013; 0x2014; 0x02dc; 0x2122; 0x0161; 0x203a; 0x0153; 0; 0x017e; 0x0178].
Definition latin9 : list (Z * Z) :=
  [(0xa4, 0x20ac); (0xa6, 0x0160); (0xa8, 0x0161); (0xb4, 0x017d); (0xb8, 0x017e); (0xbc, 0x0152); (0xbd, 0x0153); (0xbe, 0x0178)].

Definition byte_at (s : list Z) (i : nat) : Z := default 0 (s !! i).
Definition get16 (s : list Z) (le : bool) : Z :=
  if le then Z.lor (byte_at s 0) (Z.shiftl (byte_at s 1) 8) else Z.lor (Z.shiftl (byte_at s 0) 8) (byte_at s 1).
Definition get32 (s : list Z) (le : bool) : Z :=
  let b i := byte_at s i in
  if le then Z.lor (Z.lor (Z.lor (b 0%nat) (Z.shiftl (b 1%nat) 8)) (Z.shiftl (b 2%nat) 16)) (Z.shiftl (b 3%nat) 24)
  else Z.lor (Z.lor (Z.lor (Z.shiftl (b 0%nat) 24) (Z.shiftl (b 1%nat) 16)) (Z.shiftl (b 2%nat) 8)) (b 3%nat).

(** Bytes used with the character, a consumed byte order mark, illegal,
    incomplete. *)
Inductive dres := DChar (k : nat) (u : Z) | DBom | DIll | DInc.

(** The continuation bytes of a UTF-8 sequence of [k] bytes, from [i] on. *)
Fixpoint utf8_tail (s : list Z) (i m : nat) (v : Z) : dres :=
  match m with
  | O => DChar i v
  | S m =>
      if (length s <=? i)%nat then DInc
      else if negb (Z.land (byte_at s i) 0xc0 =? 0x80) then DIll
      else utf8_tail s (S i) m (u32 (Z.lor (Z.shiftl v 6) (Z.land (byte_at s i) 0x3f)))
  end.

Definition set_in (be : bool) (c : cd) : cd := Cd (from c) (to c) (flags c) be true (out_bom_done c).

Definition decode (c : cd) (s : list Z) : cd * dres :=
  let n := length s in
  let b := byte_at s 0 in
  match from c with
  | UTF8 =>
      (c, if b <? 0x80 then DChar 1 b else
          let k := if 0xf0 <=? b then 4%nat else if 0xe0 <=? b then 3%nat else if 0xc2 <=? b then 2%nat else 0%nat in
          if (k =? 0)%nat || (0xf4 <? b) then DIll else
          match utf8_tail s 1 (k - 1) (Z.land b (Z.shiftr 0x7f k)) with
          | DChar _ v =>
              if ((k =? 3)%nat && (v <? 0x800)) || ((k =? 4)%nat && ((v <? 0x10000) || (0x10ffff <? v))) ||
                 ((0xd800 <=? v) && (v <=? 0xdfff)) then DIll else DChar k v
          | r => r
          end)
  | ASCII => (c, if 0x7f <? b then DIll else DChar 1 b)
  | LATIN1 => (c, DChar 1 b)
  | LATIN9 => (c, DChar 1 (foldl (λ u e, if e.1 =? b then e.2 else u) b latin9))
  | CP1252 =>
      (c, if (0x80 <=? b) && (b <? 0xa0) then
            let u := byte_at cp1252_hi (Z.to_nat (b - 0x80)) in if u =? 0 then DIll else DChar 1 u
          else DChar 1 b)
  | UTF16 | UTF16LE | UTF16BE | UCS2 | UCS2LE | UCS2BE =>
      if (n <? 2)%nat then (c, DInc) else
      let le := bool_decide (from c = UTF16LE ∨ from c = UCS2LE ∨ from c = UCS2 ∨ (from c = UTF16 ∧ in_be c = false)) in
      let u := get16 s le in
      let first := bool_decide (from c = UTF16) && negb (in_bom_done c) in
      if first && (u =? 0xfeff) then (set_in (in_be c) c, DBom) else
      if first && (u =? 0xfffe) then (set_in true c, DBom) else
      let c := if first then set_in (in_be c) c else c in
      (c, if bool_decide (from c = UCS2 ∨ from c = UCS2LE ∨ from c = UCS2BE) then
            if (0xd800 <=? u) && (u <=? 0xdfff) then DIll else DChar 2 u
          else if (0xdc00 <=? u) && (u <=? 0xdfff) then DIll
          else if (0xd800 <=? u) && (u <=? 0xdbff) then
            if (n <? 4)%nat then DInc else
            let l := get16 (drop 2 s) le in
            if (l <? 0xdc00) || (0xdfff <? l) then DIll
            else DChar 4 (0x10000 + Z.shiftl (u - 0xd800) 10 + (l - 0xdc00))
          else DChar 2 u)
  | UTF32 | UTF32LE | UTF32BE | UCS4 | UCS4LE | WCHAR =>
      if (n <? 4)%nat then (c, DInc) else
      let le := bool_decide (from c = UTF32LE ∨ from c = UCS4LE ∨ from c = WCHAR ∨ (from c = UTF32 ∧ in_be c = false)) in
      let u := get32 s le in
      let first := bool_decide (from c = UTF32) && negb (in_bom_done c) in
      if first && (u =? 0xfeff) then (set_in (in_be c) c, DBom) else
      if first && (u =? 0xfffe0000) then (set_in true c, DBom) else
      let c := if first then set_in (in_be c) c else c in
      (c, if (0x10ffff <? u) || ((0xd800 <=? u) && (u <=? 0xdfff)) then DIll else DChar 4 u)
  end.

Definition put16 (v : Z) (le : bool) : list Z :=
  if le then [u8 v; u8 (Z.shiftr v 8)] else [u8 (Z.shiftr v 8); u8 v].
Definition put32 (v : Z) (le : bool) : list Z :=
  let l := (λ i, u8 (Z.shiftr v (8 * Z.of_nat i))) <$> seq 0 4 in if le then l else reverse l.

(** Bytes written, unrepresentable, no room. *)
Inductive eres := EBytes (l : list Z) | EUnrep | ERoom.

(** The continuation bytes of a UTF-8 sequence, and what is left for the
    lead byte. *)
Fixpoint utf8_conts (m : nat) (u : Z) (l : list Z) : Z * list Z :=
  match m with O => (u, l) | S m => utf8_conts m (Z.shiftr u 6) (u8 (Z.lor 0x80 (Z.land u 0x3f)) :: l) end.

(** The single-byte code, -1 when there is none. *)
Definition single (t : charset) (u : Z) : Z :=
  match t with
  | ASCII => if u <? 0x80 then u else -1
  | LATIN1 => if u <? 0x100 then u else -1
  | LATIN9 => foldl (λ b e, let b := if e.1 =? u then -1 else b in if e.2 =? u then e.1 else b)
                (if u <? 0x100 then u else -1) latin9
  | _ => foldl (λ b i, let h := byte_at cp1252_hi i in if negb (h =? 0) && (h =? u) then 0x80 + Z.of_nat i else b)
           (if (u <? 0x80) || ((0xa0 <=? u) && (u <? 0x100)) then u else -1) (seq 0 32)
  end.

Definition set_out (c : cd) : cd := Cd (from c) (to c) (flags c) (in_be c) (in_bom_done c) true.

Definition encode (c : cd) (u n : Z) : cd * eres :=
  match to c with
  | UTF8 =>
      (c, if u <? 0x80 then if n <? 1 then ERoom else EBytes [u8 u] else
          let k := if u <? 0x800 then 2%nat else if u <? 0x10000 then 3%nat else 4%nat in
          if n <? k then ERoom else
          let '(h, l) := utf8_conts (k - 1) u [] in EBytes (u8 (Z.lor (Z.shiftr 0xf00 k) h) :: l))
  | ASCII | LATIN1 | LATIN9 | CP1252 =>
      let b := single (to c) u in
      (c, if b <? 0 then EUnrep else if n <? 1 then ERoom else EBytes [u8 b])
  | UTF16 | UTF16LE | UTF16BE | UCS2 | UCS2LE | UCS2BE =>
      let le := negb (bool_decide (to c = UTF16BE)) && negb (bool_decide (to c = UCS2BE)) in
      let bom := bool_decide (to c = UTF16) && negb (out_bom_done c) in
      if bool_decide (to c = UCS2 ∨ to c = UCS2LE ∨ to c = UCS2BE) && (0xffff <? u) then (c, EUnrep) else
      let k := if 0xffff <? u then 4 else 2 in
      if n <? k + (if bom then 2 else 0) then (c, ERoom) else
      let v := u - 0x10000 in
      let l := if k =? 2 then put16 u le
               else put16 (Z.lor 0xd800 (Z.shiftr v 10)) le ++ put16 (Z.lor 0xdc00 (Z.land v 0x3ff)) le in
      if bom then (set_out c, EBytes (put16 0xfeff le ++ l)) else (c, EBytes l)
  | UTF32 | UTF32LE | UTF32BE | UCS4 | UCS4LE | WCHAR =>
      let le := negb (bool_decide (to c = UTF32BE)) && negb (bool_decide (to c = UCS4)) in
      let bom := bool_decide (to c = UTF32) && negb (out_bom_done c) in
      if n <? 4 + (if bom then 4 else 0) then (c, ERoom) else
      if bom then (set_out c, EBytes (put32 0xfeff le ++ put32 u le)) else (c, EBytes (put32 u le))
  end.

Definition tr : list (Z * list Z) :=
  [(0x00a0, lit " "); (0x00a9, lit "(C)"); (0x00ab, lit "<<"); (0x00ad, lit "-"); (0x00ae, lit "(R)");
   (0x00b5, lit "u"); (0x00b7, lit "."); (0x00bb, lit ">>"); (0x00bc, lit " 1/4 "); (0x00bd, lit " 1/2 ");
   (0x00be, lit " 3/4 "); (0x00c6, lit "AE"); (0x00d7, lit "x"); (0x00df, lit "ss"); (0x00e6, lit "ae");
   (0x0152, lit "OE"); (0x0153, lit "oe"); (0x2002, lit " "); (0x2003, lit " "); (0x2009, lit " ");
   (0x2010, lit "-"); (0x2011, lit "-"); (0x2012, lit "-"); (0x2013, lit "-"); (0x2014, lit "-");
   (0x2018, lit "'"); (0x2019, lit "'"); (0x201a, lit ","); (0x201c, [34]); (0x201d, [34]);
   (0x201e, lit ",,"); (0x2022, lit "o"); (0x2026, lit "..."); (0x2039, lit "<"); (0x203a, lit ">");
   (0x20ac, lit "EUR"); (0x2122, lit "(TM)"); (0x2190, lit "<-"); (0x2192, lit "->"); (0x2212, lit "-")].

(** The replacement [rep], all or nothing; [save] is the descriptor before. *)
Fixpoint translit_loop (save c : cd) (rep : list Z) (n n0 : Z) (o : list Z) : cd * eres :=
  match rep with
  | [] => (c, EBytes o)
  | b :: rep =>
      match encode c b n with
      | (c, EBytes l) => translit_loop save c rep (n - length l) n0 (o ++ l)
      | (_, ERoom) => (save, ERoom)
      | (_, EUnrep) => encode save 63 n0
      end
  end.

Definition translit (c : cd) (u n : Z) : cd * eres :=
  translit_loop c c (foldl (λ rep e, if e.1 =? u then e.2 else rep) (lit "?") tr) n n [].

(** The return value -1 of [translit] would move the output back by one
    byte; it does not occur, since '?' is in every character set. *)

(** The result of iconv: the return value (-1 for an error), errno, the
    descriptor, the input left, the output written and the room left. *)
Record ires := IRes { i_ret : Z; i_err : option Z; i_cd : cd; i_in : list Z; i_out : list Z; i_room : Z }.

Record istate := ISt { s_cd : cd; s_in : list Z; s_out : list Z; s_room : Z; s_irr : Z; s_ign : bool }.

Definition iconv_step (st : istate) : ctl istate ires :=
  let '(ISt c s o n irr ign) := st in
  match s with
  | [] => Brk (if ign then IRes (-1) (Some EILSEQ) c s o n else IRes irr None c s o n)
  | _ =>
      match decode c s with
      | (c, DInc) => Brk (IRes (-1) (Some EINVAL) c s o n)
      | (c, DIll) =>
          if negb (Z.land (flags c) IGNORE =? 0) then Cont (ISt c (drop 1 s) o n irr true)
          else Brk (IRes (-1) (Some EILSEQ) c s o n)
      | (c, DBom) =>
          let w := match from c with UTF32 | UTF32LE | UTF32BE | UCS4 | UCS4LE | WCHAR => 4%nat | _ => 2%nat end in
          Cont (ISt c (drop w s) o n irr ign)
      | (c, DChar k u) =>
          match encode c u n with
          | (c, EBytes l) => Cont (ISt c (drop k s) (o ++ l) (n - length l) irr ign)
          | (c, ERoom) => Brk (IRes (-1) (Some E2BIG) c s o n)
          | (c, EUnrep) =>
              if negb (Z.land (flags c) TRANSLIT =? 0) then
                match translit c u n with
                | (c, EBytes l) => Cont (ISt c (drop k s) (o ++ l) (n - length l) (irr + 1) ign)
                | (c, ERoom) => Brk (IRes (-1) (Some E2BIG) c s o n)
                | (c, EUnrep) => Cont (ISt c (drop k s) (take (length o - 1) o) (n + 1) (irr + 1) ign)
                end
              else if negb (Z.land (flags c) IGNORE =? 0) then Cont (ISt c (drop k s) o n (irr + 1) true)
              else Brk (IRes (-1) (Some EILSEQ) c s o n)
          end
      end
  end.

(** A null input resets the descriptor. *)
Definition iconv (c : cd) (inp : option (list Z)) (room : Z) : res ires :=
  match inp with
  | None => Ok (IRes 0 None (Cd (from c) (to c) (flags c) false false false) [] [] room)
  | Some s => loop (S (length s)) (λ st, Ok (iconv_step st)) (ISt c s [] room 0 false)
  end.

(** ** Encodings *)

(** The encoding of one character, [None] when the set does not have it. *)
Definition enc (t : charset) (u : Z) : option (list Z) :=
  match (encode (Cd t t 0 false true true) u 8).2 with EBytes l => Some l | _ => None end.

(** The byte order mark a text starts with. *)
Definition bom (t : charset) : list Z :=
  match t with UTF16 => [0xff; 0xfe] | UTF32 => [0xff; 0xfe; 0; 0] | _ => [] end.

Definition bodies (t : charset) (us : list Z) : list Z := concat ((λ u, default [] (enc t u)) <$> us).
Definition enc_text (t : charset) (us : list Z) : list Z :=
  match us with [] => [] | _ => bom t ++ bodies t us end.

Lemma shiftl_mul a k : 0 <= k → Z.shiftl a k = a * 2 ^ k.
Proof. apply Z.shiftl_mul_pow2. Qed.

Lemma lor_shift a b k : 0 <= k → 0 <= b < 2 ^ k → Z.lor (Z.shiftl a k) b = a * 2 ^ k + b.
Proof. intros. rewrite shiftl_mul by done. by apply lor_add. Qed.

Lemma get16_put16 v le r : 0 <= v < 65536 → get16 (put16 v le ++ r) le = v.
Proof.
  intros Hv. assert (u8 (Z.shiftr v 8) = v / 256) as E1.
  { rewrite Z.shiftr_div_pow2 by lia. change (2 ^ 8) with 256. apply uwrap_small. zdiv. }
  assert (0 <= v mod 256 < 2 ^ 8) as E2 by (apply Z.mod_pos_bound; lia).
  unfold get16, put16, byte_at. destruct le; cbn [app]; rewrite E1; cbn -[Z.lor Z.shiftl Z.div uwrap].
  - rewrite Z.lor_comm, lor_shift by (done || lia). unfold uwrap. change (2 ^ 8) with 256. zdiv.
  - rewrite lor_shift by (done || lia). unfold uwrap. change (2 ^ 8) with 256. zdiv.
Qed.

Lemma put16_length v le : length (put16 v le) = 2%nat.
Proof. unfold put16. by destruct le. Qed.

Lemma get32_put32 v le r : 0 <= v < 2 ^ 32 → get32 (put32 v le ++ r) le = v.
Proof.
  intros Hv.
  assert (∀ b0 b1 b2 b3, 0 <= b0 < 256 → 0 <= b1 < 256 → 0 <= b2 < 256 → 0 <= b3 < 256 →
    Z.lor (Z.lor (Z.lor b0 (Z.shiftl b1 8)) (Z.shiftl b2 16)) (Z.shiftl b3 24) = b0 + 256 * b1 + 65536 * b2 + 16777216 * b3) as Hle.
  { intros b0 b1 b2 b3 H0 H1 H2 H3. rewrite (Z.lor_comm b0), (lor_shift b1 b0 8) by (change (2 ^ 8) with 256; lia).
    change (2 ^ 8) with 256. rewrite (Z.lor_comm _ (Z.shiftl b2 16)), (lor_shift b2 _ 16) by (change (2 ^ 16) with 65536; lia).
    change (2 ^ 16) with 65536. rewrite Z.lor_comm, lor_shift by (change (2 ^ 24) with 16777216; lia).
    change (2 ^ 24) with 16777216. lia. }
  assert (∀ i, 0 <= i → u8 (Z.shiftr v (8 * i)) = v / 256 ^ i mod 256) as Hb.
  { intros i Hi. rewrite Z.shiftr_div_pow2, Z.pow_mul_r by lia. done. }
  assert (∀ i, 0 <= v / 256 ^ i mod 256 < 256) as Hr by (intros; apply Z.mod_pos_bound; lia).
  unfold put32. cbn [seq fmap list_fmap]. rewrite !Hb by lia. unfold get32, byte_at.
  assert (v / 256 ^ 0 mod 256 + 256 * (v / 256 ^ 1 mod 256) + 65536 * (v / 256 ^ 2 mod 256) + 16777216 * (v / 256 ^ 3 mod 256) = v) as Hv'.
  { change (256 ^ 0) with 1. change (256 ^ 1) with 256. change (256 ^ 2) with 65536. change (256 ^ 3) with 16777216.
    change (2 ^ 32) with 4294967296 in Hv. zdiv. }
  change (Z.of_nat 0) with 0. change (Z.of_nat 1) with 1. change (Z.of_nat 2) with 2. change (Z.of_nat 3) with 3.
  destruct le; cbn [app reverse rev_append lookup list_lookup default from_option id]; cbn -[Z.lor Z.shiftl Z.modulo Z.div Z.pow].
  - rewrite Hle by apply Hr. exact Hv'.
  - rewrite (Z.lor_comm _ (_ mod 256)), (Z.lor_comm (Z.lor (Z.shiftl _ 24) _)), (Z.lor_comm (Z.shiftl _ 24)).
    rewrite !Z.lor_assoc. rewrite Hle by apply Hr. exact Hv'.
Qed.

(** ** UTF-8 *)

Lemma cont_enc u : u8 (Z.lor 0x80 (Z.land u 0x3f)) = 0x80 + u mod 64.
Proof.
  change 0x3f with (Z.ones 6). rewrite Z.land_ones by lia. change (2 ^ 6) with 64.
  pose proof (Z.mod_pos_bound u 64 ltac:(lia)). rewrite (lor_const 128 _ 6) by (done || lia). apply uwrap_small. lia.
Qed.

Lemma lead_enc p k h q : p mod 2 ^ k = 0 → 0 <= k → 0 <= h < 2 ^ k → u8 (p + h) = q + h → u8 (Z.lor p h) = q + h.
Proof. intros Hp Hk Hh Hq. by rewrite (lor_const p h k). Qed.

Lemma shr6 u : Z.shiftr u 6 = u / 64.
Proof. by rewrite Z.shiftr_div_pow2. Qed.

Lemma encode_utf8 c u n :
  to c = UTF8 → scalar u → Z.of_nat (length (utf8 u)) <= n → encode c u n = (c, EBytes (utf8 u)).
Proof.
  intros Ht [Hu Hs]. unfold encode, utf8. rewrite Ht.
  destruct (Z.ltb_spec u 0x80). { cbn. intros. destruct (Z.ltb_spec n 1); [lia|]. by rewrite (uwrap_small 8 u) by lia. }
  destruct (Z.ltb_spec u 0x800); [|destruct (Z.ltb_spec u 0x10000)]; cbn [Nat.sub utf8_conts length]; intros Hn;
    rewrite ?cont_enc, ?shr6, ?Zdiv_Zdiv by lia.
  - destruct (Z.ltb_spec n 2%nat); [lia|]. change (Z.shiftr 0xf00 2%nat) with 960. do 3 f_equal.
    apply (lead_enc _ 6); [done | lia | zdiv | unfold uwrap; zdiv].
  - destruct (Z.ltb_spec n 3%nat); [lia|]. change (Z.shiftr 0xf00 3%nat) with 480. do 3 f_equal.
    change (64 * 64) with 4096. apply (lead_enc _ 5); [done | lia | zdiv | unfold uwrap; zdiv].
  - destruct (Z.ltb_spec n 4%nat); [lia|]. change (Z.shiftr 0xf00 4%nat) with 240. change (64 * 64) with 4096.
    rewrite ?Zdiv_Zdiv by lia. change (4096 * 64) with 262144. do 3 f_equal.
    apply (lead_enc _ 4); [done | lia | zdiv | unfold uwrap; zdiv].
Qed.

Lemma enc_utf8 u : scalar u → enc UTF8 u = Some (utf8 u).
Proof. intros Hu. unfold enc. pose proof (utf8_length u). rewrite encode_utf8 by (done || lia). done. Qed.

Lemma cont_dec y : 0 <= y < 64 → Z.land (0x80 + y) 0xc0 = 0x80 ∧ Z.land (0x80 + y) 0x3f = y.
Proof.
  intros Hy. assert (∀ b, is_byte b → ((b <? 64) && (Z.land (0x80 + b) 0xc0 =? 0x80) && (Z.land (0x80 + b) 0x3f =? b)) || (64 <=? b) = true) as H.
  { apply byte_forall. vm_compute. done. }
  specialize (H y ltac:(unfold is_byte; lia)). destruct (Z.leb_spec 64 y); [lia|]. rewrite orb_false_r, !andb_true_iff, !Z.eqb_eq in H. tauto.
Qed.

Lemma lead_dec :
  (∀ h, 0 <= h < 32 → Z.land (0xc0 + h) 0x1f = h) ∧ (∀ h, 0 <= h < 16 → Z.land (0xe0 + h) 0xf = h) ∧
  (∀ h, 0 <= h < 8 → Z.land (0xf0 + h) 0x7 = h).
Proof.
  assert (∀ b, is_byte b → ((32 <=? b) || (Z.land (0xc0 + b) 0x1f =? b)) && ((16 <=? b) || (Z.land (0xe0 + b) 0xf =? b)) &&
    ((8 <=? b) || (Z.land (0xf0 + b) 0x7 =? b)) = true) as H by (apply byte_forall; vm_compute; done).
  split_and!; intros h Hh; specialize (H h ltac:(unfold is_byte; lia)); rewrite !andb_true_iff, !orb_true_iff, !Z.leb_le, !Z.eqb_eq in H; lia.
Qed.

Lemma tail_step s i m v y :
  s !! i = Some (0x80 + y) → 0 <= y < 64 → 0 <= v < 2 ^ 20 → utf8_tail s i (S m) v = utf8_tail s (S i) m (v * 64 + y).
Proof.
  intros Hi Hy Hv. cbn [utf8_tail]. apply lookup_lt_Some in Hi as Hl. destruct (Nat.leb_spec (length s) i); [lia|].
  unfold byte_at. rewrite Hi. cbn [default from_option id]. destruct (cont_dec y Hy) as [-> ->]. cbn [negb Z.eqb].
  rewrite lor_shift by (change (2 ^ 6) with 64; lia). change (2 ^ 6) with 64. rewrite Z.eqb_refl. cbn [negb].
  rewrite (uwrap_small 32 (v * 64 + y)) by (change (2 ^ 20) with 1048576 in Hv; lia). done.
Qed.

(** Decoding from the lead byte and the value of the whole sequence. *)
Lemma decode_multi c s (k : nat) v :
  from c = UTF8 →
  (k = 2%nat ∧ 0xc2 <= byte_at s 0 < 0xe0) ∨ (k = 3%nat ∧ 0xe0 <= byte_at s 0 < 0xf0 ∧ 0x800 <= v) ∨
    (k = 4%nat ∧ 0xf0 <= byte_at s 0 <= 0xf4 ∧ 0x10000 <= v <= 0x10ffff) →
  ¬ (0xd800 <= v <= 0xdfff) → utf8_tail s 1 (k - 1) (Z.land (byte_at s 0) (Z.shiftr 0x7f k)) = DChar k v →
  decode c s = (c, DChar k v).
Proof.
  intros Hf Hk Hs Ht. unfold decode. rewrite Hf. f_equal.
  assert ((0xd800 <=? v) && (v <=? 0xdfff) = false) as Es.
  { destruct (Z.leb_spec 0xd800 v), (Z.leb_spec v 0xdfff); try done. lia. }
  set (b := byte_at s 0) in *.
  destruct Hk as [[-> Hb]|[(-> & Hb & Hv)|(-> & Hb & Hv)]]; (destruct (Z.ltb_spec b 0x80); [lia|]).
  - destruct (Z.leb_spec 0xf0 b); [lia|]. destruct (Z.leb_spec 0xe0 b); [lia|]. destruct (Z.leb_spec 0xc2 b); [|lia].
    destruct (Z.ltb_spec 0xf4 b); [lia|]. cbn [Nat.eqb orb]. rewrite Ht, Es. done.
  - destruct (Z.leb_spec 0xf0 b); [lia|]. destruct (Z.leb_spec 0xe0 b); [|lia].
    destruct (Z.ltb_spec 0xf4 b); [lia|]. cbn [Nat.eqb orb]. rewrite Ht, Es. destruct (Z.ltb_spec v 0x800); [lia | done].
  - destruct (Z.leb_spec 0xf0 b); [|lia]. destruct (Z.ltb_spec 0xf4 b); [lia|]. cbn [Nat.eqb orb]. rewrite Ht, Es.
    destruct (Z.ltb_spec v 0x10000); [lia|]. destruct (Z.ltb_spec 0x10ffff v); [lia | done].
Qed.

Lemma decode_utf8 c u r :
  from c = UTF8 → scalar u → decode c (utf8 u ++ r) = (c, DChar (length (utf8 u)) u).
Proof.
  intros Hf [Hu Hs]. destruct lead_dec as (L2 & L3 & L4). unfold utf8.
  destruct (Z.ltb_spec u 0x80).
  { unfold decode. rewrite Hf. unfold byte_at. cbn. by destruct (Z.ltb_spec u 0x80); [|lia]. }
  assert (∀ x l, byte_at (x :: l) 0 = x) as Hb0 by done.
  destruct (Z.ltb_spec u 0x800); [|destruct (Z.ltb_spec u 0x10000)]; cbn [app length]; apply decode_multi; try done; rewrite ?Hb0; try lia.
  - left. split; [done | zdiv].
  - change (Z.shiftr 0x7f 2%nat) with 0x1f. cbn [Nat.sub]. rewrite L2 by zdiv.
    rewrite (tail_step _ 1 0 _ (u mod 64)) by (done || zdiv). cbn [utf8_tail]. f_equal. zdiv.
  - right. left. split; [done | zdiv].
  - change (Z.shiftr 0x7f 3%nat) with 0xf. cbn [Nat.sub]. rewrite L3 by zdiv.
    rewrite (tail_step _ 1 1 _ (u / 64 mod 64)), (tail_step _ 2 0 _ (u mod 64)) by (done || zdiv). cbn [utf8_tail]. f_equal. zdiv.
  - right. right. split; [done | zdiv].
  - change (Z.shiftr 0x7f 4%nat) with 0x7. cbn [Nat.sub]. rewrite L4 by zdiv.
    rewrite (tail_step _ 1 2 _ (u / 4096 mod 64)), (tail_step _ 2 1 _ (u / 64 mod 64)), (tail_step _ 3 0 _ (u mod 64)) by (done || zdiv).
    cbn [utf8_tail]. f_equal. zdiv.
Qed.

(** ** Single-byte sets *)

Lemma foldl_keep {A} (f : Z → A → Z) b (l : list A) : Forall (λ e, ∀ b, f b e = b) l → foldl f b l = b.
Proof. revert b. induction l as [|e l IH]; intros b H; [done|]. inversion H as [|? ? H1 H2]; subst. simpl. by rewrite H1, IH. Qed.

Lemma byte_at_0 b r : byte_at (b :: r) 0 = b.
Proof. done. Qed.

Lemma single_latin9 u :
  0 <= u → 0 <= single LATIN9 u →
  0 <= single LATIN9 u < 256 ∧ foldl (λ x e, if e.1 =? single LATIN9 u then e.2 else x) (single LATIN9 u) latin9 = u.
Proof.
  intros Hu Hb. destruct (decide (u ∈ latin9.*1 ++ latin9.*2)) as [Hin|Hout].
  - assert (forallb (λ u, let b := single LATIN9 u in (b <? 0) || ((b <? 256) && (foldl (λ x e, if e.1 =? b then e.2 else x) b latin9 =? u)))
      (latin9.*1 ++ latin9.*2) = true) as H by (vm_compute; done).
    rewrite forallb_forall in H. apply list_elem_of_In, H in Hin. cbv zeta in Hin. destruct (Z.ltb_spec (single LATIN9 u) 0); [lia|].
    apply andb_true_iff in Hin as [H1 H2]. split; [lia | by apply Z.eqb_eq].
  - apply not_elem_of_app in Hout as [H1 H2].
    assert (single LATIN9 u = if u <? 0x100 then u else -1) as E.
    { apply foldl_keep, Forall_forall. intros e He b. destruct (Z.eqb_spec e.1 u) as [<-|]; [destruct H1; by apply list_elem_of_fmap_2|].
      destruct (Z.eqb_spec e.2 u) as [<-|]; [destruct H2; by apply list_elem_of_fmap_2 | done]. }
    rewrite E in *. destruct (Z.ltb_spec u 0x100); [|lia]. split; [lia|]. apply foldl_keep, Forall_forall. intros e He b.
    destruct (Z.eqb_spec e.1 u) as [<-|]; [destruct H1; by apply list_elem_of_fmap_2 | done].
Qed.

(** Decoding a byte of CP1252. *)
Definition cp_dec (b : Z) : dres :=
  if (0x80 <=? b) && (b <? 0xa0) then
    let u := byte_at cp1252_hi (Z.to_nat (b - 0x80)) in if u =? 0 then DIll else DChar 1 u
  else DChar 1 b.

Lemma single_cp1252 u :
  0 <= u → 0 <= single CP1252 u → 0 <= single CP1252 u < 256 ∧ cp_dec (single CP1252 u) = DChar 1 u.
Proof.
  intros Hu Hb. destruct (decide (u ∈ cp1252_hi ++ seqZ 0x80 32)) as [Hin|Hout].
  - assert (forallb (λ u, let b := single CP1252 u in (b <? 0) || ((b <? 256) && match cp_dec b with DChar 1 v => v =? u | _ => false end))
      (cp1252_hi ++ seqZ 0x80 32) = true) as H by (vm_compute; done).
    rewrite forallb_forall in H. apply list_elem_of_In, H in Hin. cbv zeta in Hin. destruct (Z.ltb_spec (single CP1252 u) 0); [lia|].
    apply andb_true_iff in Hin as [H1 H2]. split; [lia|].
    destruct (cp_dec _) as [[|[|k]] v| | |]; try done. f_equal. by apply Z.eqb_eq.
  - apply not_elem_of_app in Hout as [H1 H2].
    assert (single CP1252 u = if (u <? 0x80) || ((0xa0 <=? u) && (u <? 0x100)) then u else -1) as E.
    { unfold single. apply foldl_keep, Forall_forall. intros i Hi b. cbv zeta.
      destruct (Z.eqb_spec (byte_at cp1252_hi i) 0) as [|Hn]; [done|]. cbn [negb andb].
      destruct (Z.eqb_spec (byte_at cp1252_hi i) u) as [E|]; [|done]. destruct H1.
      unfold byte_at in *. destruct (cp1252_hi !! i) eqn:Ei; [|done]. simpl in E. subst. by eapply list_elem_of_lookup_2. }
    rewrite elem_of_seqZ in H2. rewrite E in *. destruct (_ || _) eqn:Ec; [|lia].
    apply orb_true_iff in Ec. rewrite andb_true_iff, !Z.ltb_lt, Z.leb_le in Ec. split; [lia|].
    unfold cp_dec. destruct (Z.leb_spec 0x80 u), (Z.ltb_spec u 0xa0); try done. lia.
Qed.

Lemma enc_single t u l :
  t = ASCII ∨ t = LATIN1 ∨ t = LATIN9 ∨ t = CP1252 → enc t u = Some l → 0 <= single t u ∧ l = [u8 (single t u)].
Proof.
  intros Ht. assert (enc t u = if single t u <? 0 then None else Some [u8 (single t u)]) as ->.
  { unfold enc, encode. cbn [to snd]. destruct Ht as [-> | [-> | [-> | ->]]]; by destruct (_ <? 0). }
  destruct (Z.ltb_spec (single t u) 0); [done|]. by intros [= <-].
Qed.

Lemma decode_single t c u l r :
  t = ASCII ∨ t = LATIN1 ∨ t = LATIN9 ∨ t = CP1252 → from c = t → 0 <= u → enc t u = Some l →
  decode c (l ++ r) = (c, DChar (length l) u).
Proof.
  intros Ht Hf Hu Henc. destruct (enc_single t u l Ht Henc) as [Hb ->]. unfold decode. rewrite Hf. cbn [app length]. rewrite byte_at_0.
  destruct Ht as [-> | [-> | [-> | ->]]].
  - unfold single in *. destruct (Z.ltb_spec u 0x80); [|lia]. rewrite (uwrap_small 8 u) by lia. by destruct (Z.ltb_spec 0x7f u); [lia|].
  - unfold single in *. destruct (Z.ltb_spec u 0x100); [|lia]. by rewrite (uwrap_small 8 u) by lia.
  - destruct (single_latin9 u Hu Hb) as [H1 H2]. rewrite (uwrap_small 8 (single _ _)) by lia. by rewrite H2.
  - destruct (single_cp1252 u Hu Hb) as [H1 H2]. rewrite (uwrap_small 8 (single _ _)) by lia. unfold cp_dec in H2. by rewrite H2.
Qed.

(** ** 16-bit and 32-bit sets *)

Definition set16 (t : charset) : bool := bool_decide (t ∈ [UTF16; UTF16LE; UTF16BE; UCS2; UCS2LE; UCS2BE]).
Definition set32 (t : charset) : bool := bool_decide (t ∈ [UTF32; UTF32LE; UTF32BE; UCS4; UCS4LE; WCHAR]).
Definition little (t : charset) : bool := bool_decide (t ∉ [UTF16BE; UCS2BE; UTF32BE; UCS4]).
Definition ucs2 (t : charset) : bool := bool_decide (t ∈ [UCS2; UCS2LE; UCS2BE]).

(** The 16-bit form: one unit, or a surrogate pair. *)
Definition pair16 (u : Z) (le : bool) : list Z :=
  put16 (0xd800 + (u - 0x10000) / 1024) le ++ put16 (0xdc00 + (u - 0x10000) mod 1024) le.

Lemma surrogates u le :
  0x10000 <= u < 0x110000 →
  put16 (Z.lor 0xd800 (Z.shiftr (u - 0x10000) 10)) le ++ put16 (Z.lor 0xdc00 (Z.land (u - 0x10000) 0x3ff)) le = pair16 u le.
Proof.
  intros Hu. unfold pair16. change 0x3ff with (Z.ones 10). rewrite Z.land_ones, Z.shiftr_div_pow2 by lia.
  rewrite (lor_const 0xd800 _ 10), (lor_const 0xdc00 _ 10); try done; change (2 ^ 10) with 1024; zdiv.
Qed.

Lemma enc_16 t u :
  set16 t = true → scalar u →
  enc t u = if 0xffff <? u then if ucs2 t then None else Some (pair16 u (little t)) else Some (put16 u (little t)).
Proof.
  intros Ht [Hu _]. unfold enc, encode. destruct t; try done; cbn [to snd]; destruct (Z.ltb_spec 0xffff u); cbn -[put16 pair16 Z.lor Z.shiftr Z.land Z.sub];
    try done; by rewrite surrogates by lia.
Qed.

Lemma enc_32 t u : set32 t = true → enc t u = Some (put32 u (little t)).
Proof. intros Ht. unfold enc, encode. destruct t; done. Qed.

(** The input side stands behind the byte order mark, if there is one. *)
Definition in_ready (c : cd) : Prop :=
  (from c = UTF16 ∨ from c = UTF32) → in_bom_done c = true ∧ in_be c = false.

Lemma decode_16 c s :
  set16 (from c) = true → in_ready c → (2 <= length s)%nat →
  decode c s = (c, let u := get16 s (little (from c)) in
    if ucs2 (from c) then if (0xd800 <=? u) && (u <=? 0xdfff) then DIll else DChar 2 u
    else if (0xdc00 <=? u) && (u <=? 0xdfff) then DIll
    else if (0xd800 <=? u) && (u <=? 0xdbff) then
      if (length s <? 4)%nat then DInc else
      let l := get16 (drop 2 s) (little (from c)) in
      if (l <? 0xdc00) || (0xdfff <? l) then DIll else DChar 4 (0x10000 + Z.shiftl (u - 0xd800) 10 + (l - 0xdc00))
    else DChar 2 u).
Proof.
  intros Ht Hr Hl. unfold decode. destruct (Nat.ltb_spec (length s) 2); [lia|]. destruct c as [f t fl be bd ob]. cbn [from] in *.
  destruct f; try done. unfold in_ready in Hr. cbn in Hr. destruct Hr as [-> ->]; [by left|]. done.
Qed.

Lemma decode_32 c s :
  set32 (from c) = true → in_ready c → (4 <= length s)%nat →
  decode c s = (c, let u := get32 s (little (from c)) in
    if (0x10ffff <? u) || ((0xd800 <=? u) && (u <=? 0xdfff)) then DIll else DChar 4 u).
Proof.
  intros Ht Hr Hl. unfold decode. destruct (Nat.ltb_spec (length s) 4); [lia|]. destruct c as [f t fl be bd ob]. cbn [from] in *.
  destruct f; try done. unfold in_ready in Hr. cbn in Hr. destruct Hr as [-> ->]; [by right|]. done.
Qed.

Lemma put32_length v le : length (put32 v le) = 4%nat.
Proof. unfold put32. destruct le; [|rewrite length_reverse]; by rewrite length_fmap, length_seq. Qed.

Lemma decode_wide c u l r :
  set16 (from c) = true ∨ set32 (from c) = true → in_ready c → scalar u → enc (from c) u = Some l →
  decode c (l ++ r) = (c, DChar (length l) u).
Proof.
  intros [Ht|Ht] Hr Hu.
  - rewrite enc_16 by done. destruct Hu as [Hu Hs]. destruct (Z.ltb_spec 0xffff u).
    + destruct (ucs2 (from c)) eqn:Eu; [done|]. intros [= <-]. unfold pair16.
      set (hi := 0xd800 + _). set (lo := 0xdc00 + _). assert (0xd800 <= hi <= 0xdbff) by (subst hi; zdiv). assert (0xdc00 <= lo <= 0xdfff) by (subst lo; zdiv).
      rewrite decode_16 by (done || (rewrite !length_app, !put16_length; lia)). rewrite Eu, <- app_assoc, get16_put16 by lia.
      rewrite drop_app_length' by (by rewrite put16_length). rewrite get16_put16 by lia. rewrite !length_app, !put16_length. cbv zeta.
      destruct (Z.leb_spec 0xdc00 hi); [lia|]. destruct (Z.leb_spec 0xd800 hi); [|lia]. destruct (Z.leb_spec hi 0xdbff); [|lia].
      destruct (Z.ltb_spec lo 0xdc00); [lia|]. destruct (Z.ltb_spec 0xdfff lo); [lia|]. cbn [andb orb Nat.add Nat.ltb Nat.leb].
      rewrite shiftl_mul by lia. change (2 ^ 10) with 1024. do 2 f_equal. subst hi lo. zdiv.
    + intros [= <-]. rewrite decode_16 by (done || (rewrite !length_app, !put16_length; lia)). rewrite get16_put16, put16_length by lia. cbv zeta.
      assert ((0xd800 <=? u) && (u <=? 0xdfff) = false) as ->. { destruct (Z.leb_spec 0xd800 u), (Z.leb_spec u 0xdfff); try done; lia. }
      assert ((0xdc00 <=? u) && (u <=? 0xdfff) = false) as ->. { destruct (Z.leb_spec 0xdc00 u), (Z.leb_spec u 0xdfff); try done; lia. }
      assert ((0xd800 <=? u) && (u <=? 0xdbff) = false) as ->. { destruct (Z.leb_spec 0xd800 u), (Z.leb_spec u 0xdbff); try done; lia. }
      by destruct (ucs2 (from c)).
  - rewrite enc_32 by done. destruct Hu as [Hu Hs]. intros [= <-].
    rewrite decode_32 by (done || (rewrite length_app, put32_length; lia)). rewrite get32_put32, put32_length by lia. cbv zeta.
    destruct (Z.ltb_spec 0x10ffff u); [lia|]. cbn [orb]. destruct (Z.leb_spec 0xd800 u), (Z.leb_spec u 0xdfff); try done; lia.
Qed.

(** Every character set decodes what it encodes. *)
Lemma decode_enc c u l r :
  in_ready c → scalar u → enc (from c) u = Some l → decode c (l ++ r) = (c, DChar (length l) u).
Proof.
  intros Hr Hu He. destruct (from c) eqn:Ef.
  1: rewrite enc_utf8 in He by done; injection He as <-; by apply decode_utf8.
  1-4: destruct Hu as [Hu _]; rewrite <- Ef in He; apply (decode_single (from c)); [rewrite Ef; tauto | done | lia | exact He].
  all: rewrite <- Ef in He; apply decode_wide; try done; rewrite Ef; by (left + right).
Qed.

(** ** Encoding with the byte order mark *)

#[local] Arguments put16 : simpl never.
#[local] Arguments put32 : simpl never.
#[local] Arguments pair16 : simpl never.
#[local] Arguments little : simpl never.

Lemma pair16_length u le : length (pair16 u le) = 4%nat.
Proof. unfold pair16. by rewrite length_app, !put16_length. Qed.

Definition out_bom (c : cd) : list Z := if out_bom_done c then [] else bom (to c).
Definition after_out (c : cd) : cd :=
  Cd (from c) (to c) (flags c) (in_be c) (in_bom_done c) (out_bom_done c || bool_decide (to c = UTF16 ∨ to c = UTF32)).

Lemma encode_enc c u l n :
  scalar u → enc (to c) u = Some l → Z.of_nat (length (out_bom c ++ l)) <= n →
  encode c u n = (after_out c, EBytes (out_bom c ++ l)).
Proof.
  intros Hu He. destruct c as [f t fl be bd ob]. unfold out_bom, after_out. cbn [to from flags in_be in_bom_done out_bom_done] in *.
  destruct (decide (t = UTF8)) as [->|Hn8].
  { rewrite enc_utf8 in He by done. injection He as <-. destruct ob; cbn [bom app]; intros Hn; by rewrite encode_utf8. }
  destruct (decide (t = ASCII ∨ t = LATIN1 ∨ t = LATIN9 ∨ t = CP1252)) as [Hs|Hns].
  { destruct (enc_single t u l Hs He) as [Hb ->].
    replace (if ob then [] else bom t) with (@nil Z) by (by destruct Hs as [-> | [-> | [-> | ->]]], ob). cbn [app length]. intros Hn.
    unfold encode. cbn [to]. destruct Hs as [-> | [-> | [-> | ->]]]; (match goal with |- context [(?x <? 0)%Z] => destruct (Z.ltb_spec x 0); [lia|] end);
      (destruct (Z.ltb_spec n 1); [lia|]); by destruct ob. }
  destruct (set16 t) eqn:E16.
  { rewrite enc_16 in He by done. destruct Hu as [Hu _]. unfold encode. cbn [to out_bom_done].
    destruct t; try done; destruct (Z.ltb_spec 0xffff u); simplify_eq/=; rewrite !length_app; rewrite ?pair16_length, ?put16_length;
    destruct ob; simpl; intros Hn; match goal with |- context [n <? ?k] => destruct (Z.ltb_spec n k); [lia|] end;
      rewrite <- ?surrogates by lia; reflexivity. }
  destruct (set32 t) eqn:E32; [|by destruct t; try done; tauto].
  rewrite enc_32 in He by done. injection He as <-. rewrite length_app, put32_length. unfold encode. cbn [to out_bom_done].
  destruct t; try done; destruct ob; simpl; intros Hn; match goal with |- context [n <? ?k] => destruct (Z.ltb_spec n k); [lia|] end; done.
Qed.

Lemma enc_nonempty t u l : scalar u → enc t u = Some l → l ≠ [].
Proof.
  intros Hu He. destruct (decide (t = UTF8)) as [->|Hn8].
  { rewrite enc_utf8 in He by done. injection He as <-. pose proof (utf8_length u). by destruct (utf8 u); [simpl in *; lia|]. }
  destruct (decide (t = ASCII ∨ t = LATIN1 ∨ t = LATIN9 ∨ t = CP1252)) as [Hs|Hns]; [by destruct (enc_single t u l Hs He) as [_ ->]|].
  destruct (set16 t) eqn:E16.
  { rewrite enc_16 in He by done. intros ->. unfold pair16, put16 in He. by repeat case_match. }
  destruct (set32 t) eqn:E32; [|by destruct t; try done; tauto].
  rewrite enc_32 in He by done. intros ->. pose proof (put32_length u (little t)) as Hl. injection He as He. by rewrite He in Hl.
Qed.

(** ** Whole texts *)

(** The characters both sets have. *)
Definition common (x y : charset) (u : Z) : Prop := scalar u ∧ is_Some (enc x u) ∧ is_Some (enc y u).

Lemma after_out_bom c : out_bom (after_out c) = [].
Proof. unfold out_bom, after_out. cbn [out_bom_done to]. destruct (out_bom_done c); [done|]. by destruct (to c). Qed.

Lemma after_out_ready c : in_ready c → in_ready (after_out c).
Proof. done. Qed.

Lemma bodies_cons t u l us : enc t u = Some l → bodies t (u :: us) = l ++ bodies t us.
Proof. intros H. unfold bodies. cbn [fmap list_fmap concat]. by rewrite H. Qed.

Definition run_out (c : cd) (us : list Z) : list Z := match us with [] => [] | _ => out_bom c ++ bodies (to c) us end.

Lemma step_char c u lx ly r o n :
  in_ready c → scalar u → enc (from c) u = Some lx → enc (to c) u = Some ly → Z.of_nat (length (out_bom c ++ ly)) <= n →
  iconv_step (ISt c (lx ++ r) o n 0 false) =
  Cont (ISt (after_out c) r (o ++ out_bom c ++ ly) (n - length (out_bom c ++ ly)) 0 false).
Proof.
  intros Hr Hu Hx Hy Hn. pose proof (enc_nonempty _ _ _ Hu Hx) as Hne. unfold iconv_step.
  destruct (lx ++ r) as [|b s] eqn:Es; [by destruct lx|]. rewrite <- Es.
  rewrite (decode_enc c u lx) by done. rewrite (encode_enc c u ly) by done. by rewrite drop_app_length.
Qed.

Lemma iconv_chars us c o n f :
  in_ready c → Forall (common (from c) (to c)) us → Z.of_nat (length (run_out c us)) <= n →
  (length (bodies (from c) us) < f)%nat →
  ∃ c', loop f (λ st, Ok (iconv_step st)) (ISt c (bodies (from c) us) o n 0 false) =
    Ok (IRes 0 None c' [] (o ++ run_out c us) (n - length (run_out c us))).
Proof.
  revert c o n f. induction us as [|u us IH]; intros c o n f Hr Hus Hn Hf; destruct f as [|f]; [lia| |lia|].
  { rewrite loop_S. cbn. exists c. by rewrite app_nil_r, Z.sub_0_r. }
  inversion Hus as [|? ? (Hu & [lx Hx] & [ly Hy]) Hus']; subst. rewrite (bodies_cons _ _ _ _ Hx), length_app in *.
  assert (run_out c (u :: us) = (out_bom c ++ ly) ++ run_out (after_out c) us) as Ero.
  { unfold run_out. rewrite (bodies_cons _ _ _ _ Hy), after_out_bom, app_assoc. by destruct us. }
  rewrite Ero in *. rewrite (length_app (out_bom c ++ ly)) in *.
  assert (0 < length lx)%nat as Hlx by (pose proof (enc_nonempty _ _ _ Hu Hx); destruct lx; [done | simpl; lia]).
  rewrite loop_S, (step_char c u lx ly) by (done || lia).
  destruct (IH (after_out c) (o ++ out_bom c ++ ly) (n - length (out_bom c ++ ly)) f) as [c' E];
    [done | exact Hus' | lia | cbn [from after_out]; lia|].
  change (from (after_out c)) with (from c) in E. rewrite E. exists c'. rewrite <- !app_assoc. f_equal. f_equal. rewrite !length_app. lia.
Qed.

Definition fresh (x y : charset) (fl : Z) : cd := Cd x y fl false false false.

Lemma decode_bom c x r :
  (x = UTF16 ∨ x = UTF32) → from c = x → in_bom_done c = false → in_be c = false →
  decode c (bom x ++ r) = (set_in false c, DBom).
Proof.
  intros Hx Hf Hd Hb. unfold decode. rewrite Hf, Hd, Hb. destruct Hx as [-> | ->]; done.
Qed.

(** ** Properties *)


