(* ===== verification/Regcomp.v ===== *)
(** * Regular expressions: parsing and code generation (src/src/regex.c)

    A pattern is a list of bytes without the terminator. The parser is a
    function of the pattern and its own state in an error monad; parse trees
    are trees, where the source keeps an array of nodes that refer to earlier
    ones. Allocation succeeds: the REG_ESPACE results modelled are those of
    the limits on the size of the program and of the tree. *)
From S2P Require Import Prelude Lit Wctype.

Definition BAD : Z := 0x200000.
Definition MAX_INST : Z := 50000.
Definition RE_DUP_MAX : Z := 0x7fff.

Definition REG_EXTENDED : Z := 1.
Definition REG_ICASE : Z := 2.
Definition REG_NEWLINE : Z := 4.
Definition REG_NOSUB : Z := 8.
Definition REG_NOMATCH : Z := 1.
Definition REG_BADPAT : Z := 2.
Definition REG_ECOLLATE : Z := 3.
Definition REG_ECTYPE : Z := 4.
Definition REG_EESCAPE : Z := 5.
Definition REG_ESUBREG : Z := 6.
Definition REG_EBRACK : Z := 7.
Definition REG_EPAREN : Z := 8.
Definition REG_EBRACE : Z := 9.
Definition REG_BADBR : Z := 10.
Definition REG_ERANGE : Z := 11.
Definition REG_ESPACE : Z := 12.
Definition REG_BADRPT : Z := 13.

(** ** UTF-8 *)

Fixpoint dec_tail (s : list Z) (v : Z) : option Z :=
  match s with
  | [] => Some v
  | b :: s => if negb (Z.land b 0xc0 =? 0x80) then None else dec_tail s (Z.lor (Z.shiftl v 6) (Z.land b 0x3f))
  end.

(** The character at the start of a non-empty text, and its length; a byte
    that cannot be decoded is BAD + byte. *)
Definition dec (s : list Z) : Z * nat :=
  let b := nth 0 s 0 in
  if b <? 0x80 then (b, 1%nat) else
  let n := if 0xf0 <=? b then 4%nat else if 0xe0 <=? b then 3%nat else if 0xc2 <=? b then 2%nat else 0%nat in
  let bad := (BAD + b, 1%nat) in
  if (n =? 0)%nat || (0xf4 <? b) || (length s <? n)%nat then bad else
  match dec_tail (take (n - 1) (tail s)) (Z.land b (Z.shiftr 0x7f n)) with
  | None => bad
  | Some v =>
      if ((n =? 3)%nat && (v <? 0x800)) || ((n =? 4)%nat && ((v <? 0x10000) || (0x10ffff <? v))) || ((0xd800 <=? v) && (v <=? 0xdfff))
      then bad else (v, n)
  end.

(** ** Programs and parse trees *)

Inductive opcode := I_CHAR | I_ANY | I_SET | I_ASSERT | I_SPLIT | I_JMP | I_SAVE | I_MATCH | I_BREF | I_ENTER | I_CHECK.
Inductive akind := A_BOL | A_EOL | A_WORDB | A_NWORDB | A_WBEG | A_WEND | A_BUFBEG | A_BUFEND.

Definition akind_num (a : akind) : Z :=
  match a with A_BOL => 0 | A_EOL => 1 | A_WORDB => 2 | A_NWORDB => 3 | A_WBEG => 4 | A_WEND => 5 | A_BUFBEG => 6 | A_BUFEND => 7 end.

Record inst := Inst { op : opcode; ix : Z; iy : Z; iz : Z }.

#[export] Instance opcode_eq_dec : EqDecision opcode.
Proof. solve_decision. Defined.
#[export] Instance akind_eq_dec : EqDecision akind.
Proof. solve_decision. Defined.

(** A bracket expression: the bitmap of the first 256 characters as eight
    32-bit words, ranges of the others, and classes. *)
Record set := Set_ { neg : bool; bm : list Z; rs : list (Z * Z); cls : list Z }.
Definition empty_set : set := Set_ false (replicate 8 0) [] [].

Inductive node :=
| N_EMPTY | N_CHAR (c : Z) | N_ANY | N_SET (i : Z) | N_ASSERT (a : akind)
| N_CAT (a b : node) | N_ALT (a b : node) | N_REP (a : node) (mn mx : Z) | N_GROUP (a : node) (n : Z) | N_BREF (n : Z).

(** ** Sets *)

Definition set_bit (c : Z) (s : set) : set :=
  Set_ (neg s) (alter (λ w, Z.lor w (Z.shiftl 1 (Z.land c 31))) (Z.to_nat (Z.shiftr c 5)) (bm s)) (rs s) (cls s).

Definition set_add (s : set) (lo hi : Z) : set :=
  let last := Z.min hi 255 in
  let s := foldl (λ s c, set_bit c s) s (seqZ lo (last - lo + 1)) in
  let lo := Z.max lo (last + 1) in
  if hi <? lo then s else Set_ (neg s) (bm s) (rs s ++ [(lo, hi)]) (cls s).

Definition add_class (t : Z) (s : set) : set := Set_ (neg s) (bm s) (rs s) (cls s ++ [t]).
Definition set_neg (s : set) : set := Set_ true (bm s) (rs s) (cls s).

Definition in_set_raw (s : set) (c : Z) : bool :=
  ((c <? 256) && negb (Z.land (Z.shiftr (nth (Z.to_nat (Z.shiftr c 5)) (bm s) 0) (Z.land c 31)) 1 =? 0)) ||
  existsb (λ r : Z * Z, (r.1 <=? c) && (c <=? r.2)) (rs s) ||
  existsb (iswctype (u32 c)) (cls s).

(** ** The parser *)

(** The number of nodes made and the sets so far; [closed] has a bit for
    every complete group below 64. *)
Record parser := Ps { pos : nat; nn : Z; sets : list set; nsub : Z; closed : Z; depth : Z; backrefs : bool }.

(** A result, or an error code. [FUEL] stands for a recursion that is too
    deep for the fuel given. *)
Definition P (A : Type) : Type := parser → (A * parser) + Z.
Definition FUEL : Z := -1.

#[export] Instance P_ret : MRet P := λ A a ps, inl (a, ps).
#[export] Instance P_bind : MBind P := λ A B f m ps,
  match m ps with inl (a, ps) => f a ps | inr e => inr e end.
Definition fail {A} (e : Z) : P A := λ _, inr e.
Definition get : P parser := λ ps, inl (ps, ps).
Definition upd (f : parser → parser) : P unit := λ ps, inl (tt, f ps).

Definition set_pos (p : nat) (ps : parser) : parser := Ps p (nn ps) (sets ps) (nsub ps) (closed ps) (depth ps) (backrefs ps).
Definition set_sets (s : list set) (ps : parser) : parser := Ps (pos ps) (nn ps) s (nsub ps) (closed ps) (depth ps) (backrefs ps).
Definition set_depth (d : Z) (ps : parser) : parser := Ps (pos ps) (nn ps) (sets ps) (nsub ps) (closed ps) d (backrefs ps).
Definition skip (k : nat) : P unit := upd (λ ps, set_pos (pos ps + k) ps).

(** The node array doubles from 64 up to 2^20 entries. *)
Definition mknode (n : node) : P node := λ ps,
  if nn ps =? 2 ^ 20 then inr REG_ESPACE
  else inl (n, Ps (pos ps) (nn ps + 1) (sets ps) (nsub ps) (closed ps) (depth ps) (backrefs ps)).

(** The index of a new set. *)
Definition newset : P nat := λ ps, inl (length (sets ps), set_sets (sets ps ++ [empty_set]) ps).
Definition on_set (i : nat) (f : set → set) : P unit := upd (λ ps, set_sets (alter f i (sets ps)) ps).

Definition isdig (c : Z) : bool := (48 <=? c) && (c <=? 57).

Section Parser.
Context (s : list Z) (ere icase : bool).

Definition peek (off : nat) : P Z := λ ps, inl (if decide (pos ps + off < length s)%nat then nth (pos ps + off) s 0 else -1, ps).
Definition at_end : P bool := λ ps, inl (bool_decide (length s <= pos ps)%nat, ps).

Definition getc_pat : P Z := λ ps,
  let '(c, n) := dec (drop (pos ps) s) in inl (c, set_pos (pos ps + n) ps).

(** *** Bracket expressions *)

Definition bracket_char : P Z :=
  c0 ← peek 0; c1 ← peek 1;
  if (c0 =? 91) && ((c1 =? 46) || (c1 =? 61)) then
    _ ← skip 2; e ← at_end;
    if e : bool then fail REG_EBRACK else
    c ← getc_pat; d0 ← peek 0; d1 ← peek 1;
    if negb (d0 =? c1) || negb (d1 =? 93) then
      e ← at_end; fail (if e : bool then REG_EBRACK else REG_ECOLLATE)
    else _ ← skip 2; mret c
  else getc_pat.

(** The first position from [e] on where ":]" stands, if there is one. *)
Fixpoint class_end (fuel e : nat) : option nat :=
  match fuel with
  | O => None
  | S fuel =>
      if decide (e + 1 < length s)%nat then
        if (nth e s 0 =? 58) && (nth (e + 1) s 0 =? 93) then Some e else class_end fuel (e + 1)
      else None
  end.

(** [:name:] at the current position. *)
Definition bracket_class (idx : nat) : P unit := λ ps,
  let start := (pos ps + 2)%nat in
  match class_end (S (length s)) start with
  | None => inr REG_EBRACK
  | Some e =>
      if (16 <=? e - start)%nat then inr REG_ECTYPE else
      let name := take (e - start) (drop start s) in
      let t := wctype name in
      let st := nth idx (sets ps) empty_set in
      if (t =? 0) || (length (cls st) =? 16)%nat then inr REG_ECTYPE else
      let t := if icase && (bool_decide (name = lit "upper") || bool_decide (name = lit "lower")) then wctype (lit "alpha") else t in
      inl (tt, set_pos (e + 2) (set_sets (alter (add_class t) idx (sets ps)) ps))
  end.

(** The other cases of the letters of a range. *)
Definition add_cases (lo hi : Z) (st : set) : set :=
  foldl (λ st c,
    let l := towlower (u32 c) in let u := towupper (u32 c) in
    let st := if negb (l =? c) then set_add st l l else st in
    if negb (u =? c) then set_add st u u else st)
    st (seqZ lo (Z.min (hi - lo + 1) 0x3000)).

Definition bracket_range (idx : nat) : P unit :=
  lo ← bracket_char;
  c0 ← peek 0; c1 ← peek 1;
  hi ← (if (c0 =? 45) && negb (c1 =? 93) && negb (c1 =? -1) then
          _ ← skip 1; d0 ← peek 0; d1 ← peek 1;
          if (d0 =? 91) && (d1 =? 58) then fail REG_ERANGE else
          hi ← bracket_char;
          if (hi <? lo) || (BAD <=? lo) || (BAD <=? hi) then fail REG_ERANGE else mret hi
        else mret lo);
  _ ← on_set idx (λ st, set_add st lo hi);
  if icase then on_set idx (add_cases lo hi) else mret tt.

Fixpoint bracket_loop (fuel : nat) (idx : nat) (first : bool) : P unit :=
  match fuel with
  | O => fail FUEL
  | S fuel =>
      e ← at_end;
      if e : bool then fail REG_EBRACK else
      c0 ← peek 0; c1 ← peek 1;
      if (c0 =? 93) && negb first then skip 1
      else if (c0 =? 91) && (c1 =? 58) then _ ← bracket_class idx; bracket_loop fuel idx false
      else _ ← bracket_range idx; bracket_loop fuel idx false
  end.

Definition parse_bracket : P node :=
  idx ← newset;
  c0 ← peek 0;
  _ ← (if c0 =? 94 then _ ← on_set idx set_neg; skip 1 else mret tt);
  _ ← bracket_loop (S (length s)) idx true;
  mknode (N_SET (Z.of_nat idx)).

Definition class_set (name : list Z) (ng underscore : bool) : P node :=
  idx ← newset;
  _ ← on_set idx (λ st, add_class (wctype name) (if ng then set_neg st else st));
  _ ← (if underscore then on_set idx (λ st, set_add st 95 95) else mret tt);
  mknode (N_SET (Z.of_nat idx)).

(** *** Atoms, repetition, concatenation, alternatives *)

Definition at_alt : P bool :=
  c0 ← peek 0; c1 ← peek 1; mret (if ere then c0 =? 124 else (c0 =? 92) && (c1 =? 124)).

Definition at_close : P bool :=
  c0 ← peek 0; c1 ← peek 1; ps ← get;
  mret (if ere then (c0 =? 41) && (0 <? depth ps) else (c0 =? 92) && (c1 =? 41)).

(** Of a BRE: at the start of the expression, a group or an alternative. *)
Definition at_start (p : nat) : bool :=
  (p =? 0)%nat || ((2 <=? p)%nat && (nth (p - 2) s 0 =? 92) && ((nth (p - 1) s 0 =? 40) || (nth (p - 1) s 0 =? 124))).

(** After the opening parenthesis; [alt] is parse_alt, [close] the length of
    the closing one. *)
Definition parse_group (alt : P node) : P node :=
  ps ← get;
  let n := nsub ps + 1 in
  _ ← upd (λ ps, Ps (pos ps) (nn ps) (sets ps) n (closed ps) (depth ps + 1) (backrefs ps));
  e ← at_close;
  a ← (if e : bool then mknode N_EMPTY else alt);
  _ ← upd (λ ps, set_depth (depth ps - 1) ps);
  c0 ← peek 0; c1 ← peek 1;
  if negb (if ere then c0 =? 41 else (c0 =? 92) && (c1 =? 41)) then fail REG_EPAREN else
  _ ← skip (if ere then 1 else 2);
  _ ← upd (λ ps, if n <? 64 then Ps (pos ps) (nn ps) (sets ps) (nsub ps) (Z.lor (closed ps) (Z.shiftl 1 n)) (depth ps) (backrefs ps) else ps);
  mknode (N_GROUP a n).

Definition fold_char (c : Z) : Z := if icase then towlower (u32 c) else c.

(** At the byte after a backslash. *)
Definition parse_escape (alt : P node) : P node :=
  e ← peek 0;
  if negb ere && (e =? 40) then _ ← skip 1; parse_group alt
  else if negb ere && (e =? 41) then fail REG_EPAREN
  else if negb ere && (e =? 123) then fail REG_BADRPT
  else if (49 <=? e) && (e <=? 57) then
    let n := e - 48 in
    ps ← get;
    if (nsub ps <? n) || negb (Z.testbit (closed ps) n) then fail REG_ESUBREG else
    _ ← upd (λ ps, Ps (pos ps + 1) (nn ps) (sets ps) (nsub ps) (closed ps) (depth ps) true);
    mknode (N_BREF n)
  else if e =? 60 then _ ← skip 1; mknode (N_ASSERT A_WBEG)
  else if e =? 62 then _ ← skip 1; mknode (N_ASSERT A_WEND)
  else if e =? 98 then _ ← skip 1; mknode (N_ASSERT A_WORDB)
  else if e =? 66 then _ ← skip 1; mknode (N_ASSERT A_NWORDB)
  else if e =? 96 then _ ← skip 1; mknode (N_ASSERT A_BUFBEG)
  else if e =? 39 then _ ← skip 1; mknode (N_ASSERT A_BUFEND)
  else if e =? 119 then _ ← skip 1; class_set (lit "alnum") false true
  else if e =? 87 then _ ← skip 1; class_set (lit "alnum") true true
  else if e =? 115 then _ ← skip 1; class_set (lit "space") false false
  else if e =? 83 then _ ← skip 1; class_set (lit "space") true false
  else c ← getc_pat; mknode (N_CHAR (fold_char c)).

(** The end of parse_atom, common to both syntaxes. *)
Definition parse_plain (alt : P node) (c : Z) : P node :=
  if c =? 46 then _ ← skip 1; mknode N_ANY
  else if c =? 91 then _ ← skip 1; parse_bracket
  else if c =? 92 then
    ps ← get;
    if decide (length s <= pos ps + 1)%nat then fail REG_EESCAPE else
    _ ← skip 1; parse_escape alt
  else c ← getc_pat; mknode (N_CHAR (if c <? BAD then fold_char c else c)).

Definition parse_atom (alt : P node) : P node :=
  c ← peek 0; c1 ← peek 1; c2 ← peek 2; ps ← get;
  if ere then
    if c =? 40 then _ ← skip 1; parse_group alt
    else if (c =? 42) || (c =? 43) || (c =? 63) then fail REG_BADRPT
    else if (c =? 123) && isdig c1 then fail REG_BADRPT
    else if c =? 94 then _ ← skip 1; mknode (N_ASSERT A_BOL)
    else if c =? 36 then _ ← skip 1; mknode (N_ASSERT A_EOL)
    else parse_plain alt c
  else
    if (c =? 94) && at_start (pos ps) then _ ← skip 1; mknode (N_ASSERT A_BOL)
    else if (c =? 36) && (bool_decide (pos ps + 1 = length s) || ((c1 =? 92) && ((c2 =? 41) || (c2 =? 124)))) then _ ← skip 1; mknode (N_ASSERT A_EOL)
    else if c =? 42 then _ ← skip 1; mknode (N_CHAR 42)
    else parse_plain alt c.

(** while digit: m = m * 10 + digit, kept below RE_DUP_MAX + 2. *)
Fixpoint interval_num (fuel : nat) (m : Z) (d : nat) : P (Z * nat) :=
  match fuel with
  | O => mret (m, d)
  | S fuel =>
      c ← peek 0;
      if isdig c then
        let m := m * 10 + (c - 48) in
        _ ← skip 1; interval_num fuel (if RE_DUP_MAX <? m then RE_DUP_MAX + 1 else m) (S d)
      else mret (m, d)
  end.

Definition interval_error : P (Z * Z) := e ← at_end; fail (if e : bool then REG_EBRACE else REG_BADBR).

(** {m}, {m,}, {m,n} after the opening brace. *)
Definition parse_interval : P (Z * Z) :=
  '(m, digits) ← interval_num (length s) 0 0;
  c ← peek 0;
  if (digits =? 0)%nat && (negb ere || negb (c =? 44)) then interval_error else
  n ← (if c =? 44 then
         _ ← skip 1; c ← peek 0;
         if isdig c then '(n, _) ← interval_num (length s) 0 0; mret n else mret (-1)
       else mret m);
  c0 ← peek 0; c1 ← peek 1;
  if negb (if ere then c0 =? 125 else (c0 =? 92) && (c1 =? 125)) then interval_error else
  _ ← skip (if ere then 1 else 2);
  if (RE_DUP_MAX <? m) || (RE_DUP_MAX <? n) || ((0 <=? n) && (n <? m)) then fail REG_BADBR else mret (m, n).

(** The repetition operator at the current position, if there is one. *)
Definition repeat_op : P (option (Z * Z)) :=
  c ← peek 0; c1 ← peek 1;
  if c =? 42 then _ ← skip 1; mret (Some (0, -1))
  else if ere && ((c =? 43) || (c =? 63)) then _ ← skip 1; mret (Some (if c =? 43 then (1, -1) else (0, 1)))
  else if ere && (c =? 123) && (isdig c1 || (c1 =? 44)) then _ ← skip 1; r ← parse_interval; mret (Some r)
  else if negb ere && (c =? 92) && ((c1 =? 43) || (c1 =? 63)) then _ ← skip 2; mret (Some (if c1 =? 43 then (1, -1) else (0, 1)))
  else if negb ere && (c =? 92) && (c1 =? 123) then _ ← skip 2; r ← parse_interval; mret (Some r)
  else mret None.

Fixpoint repeat_loop (fuel : nat) (a : node) : P node :=
  match fuel with
  | O => fail FUEL
  | S fuel =>
      c ← peek 0; r ← repeat_op;
      match r with
      | None => mret a
      | Some (mn, mx) =>
          match a with
          | N_ASSERT k =>
              if negb ere && bool_decide (k = A_BOL) then
                if c =? 42 then l ← mknode (N_CHAR 42); mknode (N_CAT a l)
                else _ ← upd (λ ps, set_pos (pos ps - 2) ps); mret a
              else if ere then fail REG_BADRPT
              else a ← mknode (N_REP a mn mx); repeat_loop fuel a
          | _ => a ← mknode (N_REP a mn mx); repeat_loop fuel a
          end
      end
  end.

(** [seq] is what parse_cat has so far. *)
Definition cat (seq a : node) : P node :=
  match seq with N_EMPTY => mret a | _ => mknode (N_CAT seq a) end.

(** parse_alt, parse_cat and its loop, parse_repeat, on one fuel. *)
Fixpoint parse_alt (fuel : nat) : P node :=
  match fuel with
  | O => fail FUEL
  | S fuel => l ← parse_cat fuel; alt_loop fuel l
  end
with alt_loop (fuel : nat) (l : node) : P node :=
  match fuel with
  | O => fail FUEL
  | S fuel =>
      e ← at_alt;
      if e : bool then
        _ ← skip (if ere then 1 else 2); r ← parse_cat fuel; l ← mknode (N_ALT l r); alt_loop fuel l
      else mret l
  end
with parse_cat (fuel : nat) : P node :=
  match fuel with
  | O => fail FUEL
  | S fuel => seq ← mknode N_EMPTY; cat_loop fuel seq
  end
with cat_loop (fuel : nat) (seq : node) : P node :=
  match fuel with
  | O => fail FUEL
  | S fuel =>
      e ← at_end; a ← at_alt; c ← at_close;
      if (e : bool) || (a : bool) || (c : bool) then mret seq else
      a ← (a ← parse_atom (parse_alt fuel); repeat_loop (S (length s)) a);
      seq ← cat seq a; cat_loop fuel seq
  end.
End Parser.

(** ** Code generation *)

Fixpoint size_of (x : node) : Z :=
  let cap s := if MAX_INST <? s then MAX_INST + 1 else s in
  match x with
  | N_EMPTY => 0
  | N_CAT a b => cap (size_of a + size_of b)
  | N_ALT a b => cap (size_of a + size_of b + 2)
  | N_GROUP a _ => cap (size_of a + 2)
  | N_REP a b c =>
      let n := size_of a in
      cap (if c <? 0 then (if b =? 0 then n + 3 else b * n + 2) else b * n + (c - b) * (n + 1))
  | _ => 1
  end.

(** The code so far (p->n is its length) and p->nloops. *)
Record gst := Gst { code : list inst; nloops : Z }.

Definition len (g : gst) : Z := Z.of_nat (length (code g)).
Definition emit (o : opcode) (x y : Z) (g : gst) : gst := Gst (code g ++ [Inst o x y 0]) (nloops g).

(** p->code[i].x = v, and the same for y and z. *)
Definition patch (i : Z) (f : inst → inst) (g : gst) : gst := Gst (alter f (Z.to_nat i) (code g)) (nloops g).
Definition set_x (v : Z) (i : inst) : inst := Inst (op i) v (iy i) (iz i).
Definition set_y (v : Z) (i : inst) : inst := Inst (op i) (ix i) v (iz i).
Definition set_z (v : Z) (i : inst) : inst := Inst (op i) (ix i) (iy i) v.

(** for i: gen, [n] times. *)
Definition copies (gen : gst → gst) (n : Z) (g : gst) : gst := Nat.iter (Z.to_nat n) gen g.

(** The optional copies of {m,n}: the pending splits are chained through y. *)
Definition opt_copy (gen : gst → gst) (st : gst * Z) : gst * Z :=
  let '(g, chain) := st in
  let sp := len g in
  let g := emit I_SPLIT 0 chain g in
  let g := patch sp (set_x (len g)) g in
  (gen g, sp).

(** while (chain >= 0): every split of the chain goes to the end. The chain
    is as long as there were copies. *)
Fixpoint close_chain (fuel : nat) (chain : Z) (g : gst) : gst :=
  match fuel with
  | O => g
  | S fuel =>
      if chain <? 0 then g else
      let nx := iy (nth (Z.to_nat chain) (code g) (Inst I_MATCH 0 0 0)) in
      close_chain fuel nx (patch chain (set_y (len g)) g)
  end.

Fixpoint gen (x : node) (g : gst) : gst :=
  match x with
  | N_EMPTY => g
  | N_CHAR c => emit I_CHAR c 0 g
  | N_ANY => emit I_ANY 0 0 g
  | N_SET i => emit I_SET i 0 g
  | N_ASSERT a => emit I_ASSERT (akind_num a) 0 g
  | N_BREF n => emit I_BREF n 0 g
  | N_CAT a b => gen b (gen a g)
  | N_ALT a b =>
      let sp := len g in
      let g := emit I_SPLIT 0 0 g in
      let g := patch sp (set_x (len g)) g in
      let g := gen a g in
      let j := len g in
      let g := emit I_JMP 0 0 g in
      let g := patch sp (set_y (len g)) g in
      let g := gen b g in
      patch j (set_x (len g)) g
  | N_GROUP a n => emit I_SAVE (2 * n + 1) 0 (gen a (emit I_SAVE (2 * n) 0 g))
  | N_REP a b c =>
      if c <? 0 then
        let g := copies (gen a) (b - 1) g in
        let id := nloops g in
        let g := emit I_ENTER id 0 (Gst (code g) (nloops g + 1)) in
        let top := len g in
        let g := if b =? 0 then emit I_SPLIT 0 0 g else g in
        let body := len g in
        let g := if b =? 0 then patch top (set_x body) g else g in
        let g := gen a g in
        let chk := len g in
        let g := emit I_CHECK body 0 g in
        let g := patch chk (set_z id) g in
        let g := patch chk (set_y (len g)) g in
        if b =? 0 then patch top (set_y (len g)) g else g
      else
        let g := copies (gen a) b g in
        let '(g, chain) := Nat.iter (Z.to_nat (c - b)) (opt_copy (gen a)) (g, -1) in
        close_chain (Z.to_nat (c - b)) chain g
  end.

(** ** regcomp *)

Record prog := Prog { p_code : list inst; p_sets : list set; p_nsub : Z; p_nloops : Z; p_flags : Z; p_backrefs : bool }.

Definition has (flags f : Z) : bool := negb (Z.land flags f =? 0).

Definition parse_fuel (pat : list Z) : nat := (4 * (length pat + 1))%nat.

(** The tree and the state of the parser at the end. *)
Definition parse (pat : list Z) (flags : Z) : (node * parser) + Z :=
  match parse_alt pat (has flags REG_EXTENDED) (has flags REG_ICASE) (parse_fuel pat) (Ps 0 0 [] 0 0 0 false) with
  | inr e => inr e
  | inl (root, ps) => if decide (pos ps < length pat)%nat then inr REG_EPAREN else inl (root, ps)
  end.

Definition assemble (root : node) : gst :=
  emit I_MATCH 0 0 (emit I_SAVE 1 0 (gen root (emit I_SAVE 0 0 (Gst [] 0)))).

(** The program, or an error code. *)
Definition regcomp (pat : list Z) (flags : Z) : prog + Z :=
  match parse pat flags with
  | inr e => inr e
  | inl (root, ps) =>
      if MAX_INST <? size_of root + 3 then inr REG_ESPACE else
      let g := assemble root in
      inl (Prog (code g) (sets ps) (nsub ps) (nloops g) flags (backrefs ps))
  end.
