(* ===== verification/Regcode.v ===== *)
(** * Regular expressions: the code of a tree

    The code that gen emits, written without patching: [compile x p l] is the
    code of the tree [x] placed at address [p], whose loops are numbered from
    [l]. gen appends exactly this code, and its length is what size_of says
    as long as that is within the limit, so the buffer regcomp allocates is
    filled and never overrun. *)
From S2P Require Import Prelude Regcomp.

(** ** Code without patching *)

Fixpoint csize (x : node) : Z :=
  match x with
  | N_EMPTY => 0
  | N_CAT a b => csize a + csize b
  | N_ALT a b => csize a + csize b + 2
  | N_GROUP a _ => csize a + 2
  | N_REP a b c =>
      let n := csize a in
      if c <? 0 then (if b =? 0 then n + 3 else b * n + 2) else b * n + (c - b) * (n + 1)
  | _ => 1
  end.

Fixpoint loops_of (x : node) : Z :=
  match x with
  | N_CAT a b | N_ALT a b => loops_of a + loops_of b
  | N_GROUP a _ => loops_of a
  | N_REP a b c => if c <? 0 then (Z.max b 1) * loops_of a + 1 else Z.max b c * loops_of a
  | _ => 0
  end.

(** The intervals and group numbers the parser makes. *)
Fixpoint wf (x : node) : Prop :=
  match x with
  | N_CAT a b | N_ALT a b => wf a ∧ wf b
  | N_GROUP a n => wf a ∧ 1 <= n
  | N_REP a b c => wf a ∧ 0 <= b ∧ (c < 0 ∨ b <= c)
  | _ => True
  end.

Section Copies.
(** The code of a tree as a function of place and loop number, its size and
    the number of its loops. *)
Context (f : Z → Z → list inst) (sz nl : Z).

Fixpoint rep_code (k : nat) (p l : Z) : list inst :=
  match k with O => [] | S k => f p l ++ rep_code k (p + sz) (l + nl) end.

(** Optional copies that leave for [e]. *)
Fixpoint opt_code (k : nat) (p l e : Z) : list inst :=
  match k with O => [] | S k => Inst I_SPLIT (p + 1) e 0 :: f (p + 1) l ++ opt_code k (p + 1 + sz) (l + nl) e end.

(** The same while the exits are chained: each split points to the one
    before it. *)
Fixpoint chain_code (k : nat) (p l ch : Z) : list inst :=
  match k with O => [] | S k => Inst I_SPLIT (p + 1) ch 0 :: f (p + 1) l ++ chain_code k (p + 1 + sz) (l + nl) p end.
End Copies.

Fixpoint compile (x : node) (p l : Z) : list inst :=
  match x with
  | N_EMPTY => []
  | N_CHAR c => [Inst I_CHAR c 0 0]
  | N_ANY => [Inst I_ANY 0 0 0]
  | N_SET i => [Inst I_SET i 0 0]
  | N_ASSERT a => [Inst I_ASSERT (akind_num a) 0 0]
  | N_BREF n => [Inst I_BREF n 0 0]
  | N_CAT a b => compile a p l ++ compile b (p + csize a) (l + loops_of a)
  | N_ALT a b =>
      let q := p + 1 + csize a in
      Inst I_SPLIT (p + 1) (q + 1) 0 :: compile a (p + 1) l ++ Inst I_JMP (q + 1 + csize b) 0 0 :: compile b (q + 1) (l + loops_of a)
  | N_GROUP a n => Inst I_SAVE (2 * n) 0 0 :: compile a (p + 1) l ++ [Inst I_SAVE (2 * n + 1) 0 0]
  | N_REP a b c =>
      let sz := csize a in let nl := loops_of a in
      if c <? 0 then
        let k := Z.to_nat (b - 1) in
        let q := p + k * sz in let id := l + k * nl in
        let body := q + (if b =? 0 then 2 else 1) in
        rep_code (compile a) sz nl k p l ++
        Inst I_ENTER id 0 0 :: (if b =? 0 then [Inst I_SPLIT body (body + sz + 1) 0] else []) ++
        compile a body (id + 1) ++ [Inst I_CHECK body (body + sz + 1) id]
      else
        let k := Z.to_nat b in let m := Z.to_nat (c - b) in
        let q := p + k * sz in
        rep_code (compile a) sz nl k p l ++ opt_code (compile a) sz nl m q (l + k * nl) (q + m * (sz + 1))
  end.

(** ** Lengths *)

Lemma rep_code_length f sz nl k p l : (∀ p l, Z.of_nat (length (f p l)) = sz) → Z.of_nat (length (rep_code f sz nl k p l)) = k * sz.
Proof. intros Hf. revert p l. induction k as [|k IH]; intros p l; cbn [rep_code]; [done|]. rewrite length_app, Nat2Z.inj_add, Hf, IH. lia. Qed.

Lemma opt_code_length f sz nl k p l e : (∀ p l, Z.of_nat (length (f p l)) = sz) → Z.of_nat (length (opt_code f sz nl k p l e)) = k * (sz + 1).
Proof.
  intros Hf. revert p l. induction k as [|k IH]; intros p l; cbn [opt_code]; [done|]. cbn [length]. rewrite length_app, Nat2Z.inj_succ, Nat2Z.inj_add, Hf, IH. lia.
Qed.

Lemma chain_code_length f sz nl k p l ch : (∀ p l, Z.of_nat (length (f p l)) = sz) → Z.of_nat (length (chain_code f sz nl k p l ch)) = k * (sz + 1).
Proof.
  intros Hf. revert p l ch. induction k as [|k IH]; intros p l ch; cbn [chain_code]; [done|]. cbn [length]. rewrite length_app, Nat2Z.inj_succ, Nat2Z.inj_add, Hf, IH. lia.
Qed.

Lemma compile_length x p l : wf x → Z.of_nat (length (compile x p l)) = csize x.
Proof.
  revert p l. induction x as [| | | | |a IHa b IHb|a IHa b IHb|a IHa b c|a IHa n|]; intros p l Hw; cbn [compile csize wf] in *; try done.
  - destruct Hw. rewrite length_app, Nat2Z.inj_add, IHa, IHb by done. done.
  - destruct Hw as [Ha Hb]. cbn [length]. rewrite length_app. cbn [length].
    pose proof (IHa (p + 1) l Ha). pose proof (IHb (p + 1 + csize a + 1) (l + loops_of a) Hb). lia.
  - destruct Hw as (Hw & Hb & Hc). assert (∀ p l, Z.of_nat (length (compile a p l)) = csize a) as Hf by auto. cbv zeta. destruct (Z.ltb_spec c 0).
    + rewrite length_app. cbn [length]. rewrite !length_app. cbn [length].
      pose proof (rep_code_length (compile a) (csize a) (loops_of a) (Z.to_nat (b - 1)) p l Hf).
      match goal with |- context [length (compile a ?q ?m)] => pose proof (Hf q m) end.
      destruct (Z.eqb_spec b 0) as [->|]; cbn [length]; [change (Z.to_nat (0 - 1)) with 0%nat in *; lia|]. rewrite Z2Nat.id in * by lia. lia.
    + rewrite length_app.
      pose proof (rep_code_length (compile a) (csize a) (loops_of a) (Z.to_nat b) p l Hf).
      match goal with |- context [length (opt_code ?f ?z ?n ?k ?q ?m ?e)] => pose proof (opt_code_length f z n k q m e Hf) end.
      rewrite !Z2Nat.id in * by lia. lia.
  - destruct Hw as [Hw _]. cbn [length]. rewrite length_app. cbn [length]. pose proof (IHa (p + 1) l Hw). lia.
Qed.

Lemma csize_nonneg x : wf x → 0 <= csize x.
Proof. intros Hw. rewrite <- (compile_length x 0 0 Hw). lia. Qed.

(** Within the limit size_of is exact. *)
Lemma size_of_ok x : wf x → (size_of x = csize x ∨ size_of x = MAX_INST + 1 ∧ MAX_INST < csize x).
Proof.
  assert (∀ s t, 0 <= t → s = t ∨ MAX_INST < s ∧ MAX_INST < t →
    (if MAX_INST <? s then MAX_INST + 1 else s) = t ∨ (if MAX_INST <? s then MAX_INST + 1 else s) = MAX_INST + 1 ∧ MAX_INST < t) as Hcap.
  { intros s t Ht [->|[H1 H2]]; destruct (Z.ltb_spec MAX_INST t); try destruct (Z.ltb_spec MAX_INST s); auto; lia. }
  assert (0 < MAX_INST) as HM by done.
  induction x as [| | | | |a IHa b IHb|a IHa b IHb|a IHa b c|a IHa n|]; intros Hw; cbn [size_of csize wf] in *; try by left.
  - destruct Hw as [Ha Hb]. pose proof (csize_nonneg a Ha). pose proof (csize_nonneg b Hb). specialize (IHa Ha). specialize (IHb Hb). apply Hcap; lia.
  - destruct Hw as [Ha Hb]. pose proof (csize_nonneg a Ha). pose proof (csize_nonneg b Hb). specialize (IHa Ha). specialize (IHb Hb). apply Hcap; lia.
  - destruct Hw as (Ha & Hb & Hc). pose proof (csize_nonneg a Ha). specialize (IHa Ha). cbv zeta. destruct (Z.ltb_spec c 0); [|destruct Hc; [lia|]].
    + destruct (Z.eqb_spec b 0); apply Hcap; nia.
    + apply Hcap; [nia|]. destruct IHa as [->|[-> H']]; [by left|]. destruct (decide (c = 0)) as [->|]; [left; assert (b = 0) as -> by lia; lia|].
      right. split; [|nia]. destruct (decide (b = 0)) as [->|]; nia.
  - destruct Hw as [Hw _]. pose proof (csize_nonneg a Hw). specialize (IHa Hw). apply Hcap; lia.
Qed.

(** ** gen emits this code *)

Lemma patch_at C f i D l : patch (Z.of_nat (length C)) f (Gst (C ++ i :: D) l) = Gst (C ++ f i :: D) l.
Proof. unfold patch. cbn [code nloops]. rewrite Nat2Z.id. f_equal. induction C as [|c C IH]; cbn; [done | by f_equal]. Qed.

Lemma len_app C D l : len (Gst (C ++ D) l) = Z.of_nat (length C) + Z.of_nat (length D).
Proof. unfold len. cbn [code]. rewrite length_app. lia. Qed.

Section GenCopies.
Context (a : node) (Hlen : ∀ p l, Z.of_nat (length (compile a p l)) = csize a).
Context (Hgen : ∀ C l, gen a (Gst C l) = Gst (C ++ compile a (Z.of_nat (length C)) l) (l + loops_of a)).

Lemma copies_eq n C l :
  Nat.iter n (gen a) (Gst C l) =
  Gst (C ++ rep_code (compile a) (csize a) (loops_of a) n (Z.of_nat (length C)) l) (l + n * loops_of a).
Proof using Hlen Hgen.
  revert C l. induction n as [|n IH]; intros C l; [cbn; by rewrite app_nil_r, Z.add_0_r|].
  rewrite Nat.iter_succ_r, Hgen, IH. cbn [rep_code]. rewrite <- app_assoc, length_app, Nat2Z.inj_add, Hlen. f_equal. lia.
Qed.

(** The last split of a chain, -1 if there is none. *)
Fixpoint last_split (k : nat) (p ch : Z) : Z := match k with O => ch | S k => last_split k (p + 1 + csize a) p end.

Lemma opt_iter_eq k C l ch :
  Nat.iter k (opt_copy (gen a)) (Gst C l, ch) =
  (Gst (C ++ chain_code (compile a) (csize a) (loops_of a) k (Z.of_nat (length C)) l ch) (l + k * loops_of a),
   last_split k (Z.of_nat (length C)) ch).
Proof using Hlen Hgen.
  revert C l ch. induction k as [|k IH]; intros C l ch; [cbn; by rewrite app_nil_r, Z.add_0_r|].
  rewrite Nat.iter_succ_r. unfold opt_copy at 2. unfold emit. cbn [code nloops len]. change (len (Gst C l)) with (Z.of_nat (length C)).
  rewrite patch_at. rewrite Hgen, IH. cbn [chain_code last_split]. rewrite <- !app_assoc. cbn [app]. rewrite !length_app, len_app. cbn [length set_x op iy iz].
  assert (Z.of_nat (length C + 1) = length C + 1) as E1 by lia. rewrite E1.
  assert (Z.of_nat (length C + S (length (compile a (length C + 1) l))) = length C + 1 + csize a) as -> by (rewrite <- (Hlen (length C + 1) l); lia).
  f_equal. f_equal. lia.
Qed.

Lemma close_chain_eq k fuel C p l ch e N :
  p = Z.of_nat (length C) → 0 <= p → e = Z.of_nat (length C) + Z.of_nat (length (chain_code (compile a) (csize a) (loops_of a) k p l ch)) →
  close_chain (k + fuel) (last_split k p ch) (Gst (C ++ chain_code (compile a) (csize a) (loops_of a) k p l ch) N) =
  close_chain fuel ch (Gst (C ++ opt_code (compile a) (csize a) (loops_of a) k p l e) N).
Proof using Hlen.
  revert fuel C p l ch e. induction k as [|k IH]; intros fuel C p l ch e Hp Hp0 He; [done|]. cbn [chain_code last_split opt_code] in *.
  set (D := Inst I_SPLIT (p + 1) ch 0 :: compile a (p + 1) l).
  assert (length (C ++ D) = length C + 1 + csize a :> Z) as HD by (rewrite length_app; unfold D; cbn [length]; pose proof (Hlen (p + 1) l); lia).
  replace (C ++ Inst I_SPLIT (p + 1) ch 0 :: compile a (p + 1) l ++ chain_code (compile a) (csize a) (loops_of a) k (p + 1 + csize a) (l + loops_of a) p)
    with ((C ++ D) ++ chain_code (compile a) (csize a) (loops_of a) k (p + 1 + csize a) (l + loops_of a) p) by (unfold D; by rewrite <- app_assoc).
  cbn [length] in He. rewrite length_app in He. pose proof (Hlen (p + 1) l) as Hl1.
  replace (S k + fuel)%nat with (k + S fuel)%nat by lia.
  rewrite (IH (S fuel) (C ++ D) (p + 1 + csize a) (l + loops_of a) p e) by lia.
  cbn [close_chain]. destruct (Z.ltb_spec p 0); [lia|]. cbn [code].
  set (O := opt_code (compile a) (csize a) (loops_of a) k (p + 1 + csize a) (l + loops_of a) e). unfold D. rewrite <- app_assoc. cbn [app].
  assert (nth (Z.to_nat p) (C ++ Inst I_SPLIT (p + 1) ch 0 :: compile a (p + 1) l ++ O) (Inst I_MATCH 0 0 0) = Inst I_SPLIT (p + 1) ch 0) as ->.
  { subst p. rewrite Nat2Z.id. rewrite app_nth2 by lia. by rewrite Nat.sub_diag. }
  cbn [iy]. f_equal. rewrite Hp at 1. rewrite patch_at. unfold set_y. cbn [op ix iz]. do 3 f_equal.
  rewrite len_app. cbn [length]. rewrite length_app.
  pose proof (opt_code_length (compile a) (csize a) (loops_of a) k (p + 1 + csize a) (l + loops_of a) e Hlen) as H1. fold O in H1.
  pose proof (chain_code_length (compile a) (csize a) (loops_of a) k (p + 1 + csize a) (l + loops_of a) p Hlen). f_equal. lia.
Qed.
End GenCopies.

Definition gen_spec (a : node) : Prop :=
  ∀ C l, gen a (Gst C l) = Gst (C ++ compile a (Z.of_nat (length C)) l) (l + loops_of a).

Lemma gen_after a C D l p :
  gen_spec a → p = Z.of_nat (length C) + Z.of_nat (length D) →
  gen a (Gst (C ++ D) l) = Gst (C ++ D ++ compile a p l) (l + loops_of a).
Proof. intros Ha ->. rewrite Ha, <- app_assoc, length_app, Nat2Z.inj_add. done. Qed.

Lemma gen_alt a b C l :
  wf a → wf b → gen_spec a → gen_spec b →
  gen (N_ALT a b) (Gst C l) = Gst (C ++ compile (N_ALT a b) (Z.of_nat (length C)) l) (l + loops_of (N_ALT a b)).
Proof.
  intros Wa Wb Ha Hb. cbn [gen compile loops_of]. unfold emit. cbn [code nloops]. change (len (Gst C l)) with (Z.of_nat (length C)). rewrite patch_at.
  rewrite (gen_after a C _ l (length C + 1)) by (done || cbn; lia). pose proof (compile_length a (length C + 1) l Wa) as La.
  cbn [code nloops]. rewrite !len_app. cbn [length app set_x op iy iz]. set (ca := compile a (length C + 1) l) in *.
  set (S1 := Inst I_SPLIT _ 0 0). rewrite <- app_assoc. cbn [app]. rewrite patch_at. cbn [set_y op ix iz].
  set (S2 := Inst I_SPLIT (length C + 1) (length C + 1 + csize a + 1) 0).
  match goal with |- context [C ++ ?i :: ca ++ [Inst I_JMP 0 0 0]] => assert (i = S2) as -> end.
  { unfold S2, S1, set_y, set_x. cbn [op ix iy iz]. rewrite length_app. cbn [length]. f_equal; lia. }
  set (D := S2 :: ca ++ [Inst I_JMP 0 0 0]).
  rewrite (gen_after b C D _ (length C + 1 + csize a + 1)); [|done|unfold D; cbn [length]; rewrite length_app; cbn [length]; lia].
  pose proof (compile_length b (length C + 1 + csize a + 1) (l + loops_of a) Wb) as Lb. set (cb := compile b _ _) in *.
  replace (C ++ D ++ cb) with ((C ++ S2 :: ca) ++ Inst I_JMP 0 0 0 :: cb) by (unfold D; rewrite <- !app_assoc; cbn [app]; by rewrite <- app_assoc).
  replace (Z.of_nat (length C) + Z.of_nat (S (length ca))) with (Z.of_nat (length (C ++ S2 :: ca))) by (rewrite length_app; cbn [length]; lia).
  rewrite patch_at, len_app. unfold set_x. cbn [op iy iz]. rewrite <- app_assoc. cbn [app]. f_equal; [|lia]. do 4 f_equal. f_equal.
  rewrite length_app. cbn [length]. lia.
Qed.

Lemma gen_loop a b c C l :
  wf a → 0 <= b → c < 0 → gen_spec a →
  gen (N_REP a b c) (Gst C l) = Gst (C ++ compile (N_REP a b c) (Z.of_nat (length C)) l) (l + loops_of (N_REP a b c)).
Proof.
  intros Wa Hb Hc Ha. cbn [gen compile loops_of]. rewrite (proj2 (Z.ltb_lt c 0) Hc). cbv zeta. unfold copies.
  rewrite (copies_eq a (λ p l, compile_length a p l Wa) Ha). cbn [code nloops]. unfold emit. cbn [code nloops].
  pose proof (rep_code_length (compile a) (csize a) (loops_of a) (Z.to_nat (b - 1)) (length C) l (λ p l, compile_length a p l Wa)) as LR.
  set (k := Z.to_nat (b - 1)) in *. set (R := rep_code _ _ _ k _ l) in *. set (id := l + k * loops_of a).
  replace ((C ++ R) ++ [Inst I_ENTER id 0 0]) with (C ++ R ++ [Inst I_ENTER id 0 0]) by (by rewrite app_assoc).
  set (E := Inst I_ENTER id 0 0).
  destruct (Z.eqb_spec b 0) as [->|Hb0].
  - assert (k = 0%nat) as Hk by done. assert (R = []) as -> by (unfold R; by rewrite Hk). assert (id = l) as Hid by (unfold id; rewrite Hk; lia). cbn [app].
    rewrite Hk. cbn [Z.of_nat]. rewrite Z.mul_0_l, Z.add_0_r.
    replace (len (Gst (C ++ [E]) (id + 1))) with (Z.of_nat (length (C ++ [E]))) by done.
    replace ((C ++ [E]) ++ [Inst I_SPLIT 0 0 0]) with ((C ++ [E]) ++ Inst I_SPLIT 0 0 0 :: []) by done. rewrite patch_at. rewrite len_app. cbn [length].
    assert (length (C ++ [E]) = length C + 1 :> Z) as L1 by (rewrite length_app; cbn; lia). rewrite !L1.
    set (S1 := set_x _ _). replace ((C ++ [E]) ++ [S1]) with (C ++ [E; S1]) by (by rewrite <- app_assoc).
    rewrite (gen_after a C [E; S1] (id + 1) (length C + 2)) by (done || cbn; lia).
    pose proof (compile_length a (length C + 2) (id + 1) Wa) as La. set (ca := compile a (length C + 2) (id + 1)) in *. cbn [code nloops].
    assert (len (Gst (C ++ [E; S1] ++ ca) (id + 1 + loops_of a)) = Z.of_nat (length (C ++ [E; S1] ++ ca))) as -> by done.
    rewrite !patch_at. rewrite !len_app. cbn [length]. rewrite length_app. cbn [length app].
    set (K := set_y _ (set_z id _)). replace ((C ++ E :: S1 :: ca) ++ [K]) with ((C ++ [E]) ++ S1 :: ca ++ [K]) by (rewrite <- !app_assoc; done).
    rewrite <- L1. rewrite patch_at, <- app_assoc. cbn [app].
    unfold K, S1, set_x, set_y, set_z. cbn [op ix iy iz]. f_equal; [|lia]. do 2 f_equal. f_equal; [f_equal; lia|]. do 2 f_equal. f_equal; lia.
  - assert (length (R ++ [E]) = k * csize a + 1 :> Z) as L1 by (rewrite length_app; cbn; lia).
    rewrite (gen_after a C (R ++ [E]) (id + 1) (length C + k * csize a + 1)) by (done || lia).
    pose proof (compile_length a (length C + k * csize a + 1) (id + 1) Wa) as La. set (ca := compile a _ (id + 1)) in *. cbn [code nloops].
    assert (len (Gst (C ++ R ++ [E]) (id + 1)) = length C + k * csize a + 1) as -> by (rewrite len_app; lia). set (B := C ++ (R ++ [E]) ++ ca).
    assert (length B = length C + k * csize a + 1 + csize a :> Z) as LB by (unfold B; rewrite !length_app in *; lia).
    change (len (Gst B (id + 1 + loops_of a))) with (Z.of_nat (length B)). rewrite !patch_at, len_app, LB. cbn [length].
    unfold B. rewrite <- !app_assoc. cbn [app]. unfold set_y, set_z. cbn [op ix iy iz]. f_equal. unfold id, k. rewrite Z.max_l, Z2Nat.id by lia. lia.
Qed.

Lemma gen_eq x : wf x → gen_spec x.
Proof.
  induction x as [| | | | |a IHa b IHb|a IHa b IHb|a IHa b c|a IHa n|]; intros Hw C l; cbn [wf] in Hw;
    try (cbn [gen compile loops_of]; unfold emit; cbn [code nloops]; by rewrite ?app_nil_r, ?Z.add_0_r).
  - destruct Hw as [Ha Hb]. cbn [gen compile loops_of]. rewrite (IHa Ha), (IHb Hb). rewrite <- app_assoc, length_app, Nat2Z.inj_add, (compile_length a) by done. f_equal. lia.
  - destruct Hw as [Ha Hb]. by apply gen_alt; auto.
  - destruct Hw as (Ha & Hb & Hc). destruct (decide (c < 0)) as [Hn|Hn]; [by apply gen_loop; auto|].
    cbn [gen compile loops_of]. rewrite (proj2 (Z.ltb_ge c 0)) by lia. cbv zeta. unfold copies.
    assert (∀ p l, Z.of_nat (length (compile a p l)) = csize a) as Hlen by (intros; by apply compile_length).
    rewrite (copies_eq a Hlen (IHa Ha)), (opt_iter_eq a Hlen (IHa Ha)).
    set (k := Z.to_nat b). set (m := Z.to_nat (c - b)).
    pose proof (rep_code_length (compile a) (csize a) (loops_of a) k (length C) l Hlen) as LR. set (R := rep_code _ _ _ k _ l) in *.
    assert (length (C ++ R) = length C + k * csize a :> Z) as LA by (rewrite length_app; lia). rewrite LA.
    set (q := length C + k * csize a) in *.
    pose proof (close_chain_eq a Hlen m 0 (C ++ R) q (l + k * loops_of a) (-1) (q + m * (csize a + 1)) (l + k * loops_of a + m * loops_of a)) as E.
    rewrite Nat.add_0_r in E. rewrite E; [|by rewrite LA | lia | rewrite (chain_code_length _ _ _ _ _ _ _ Hlen); lia].
    cbn [close_chain]. rewrite <- app_assoc. f_equal. unfold k, m. rewrite !Z2Nat.id by lia. rewrite Z.max_r by lia. lia.
  - destruct Hw as [Hw _]. cbn [gen compile loops_of]. unfold emit. cbn [code nloops]. rewrite (gen_after a C _ l (length C + 1)) by (auto || cbn; lia). cbn [code nloops].
    rewrite <- !app_assoc. done.
Qed.

(** The program regcomp makes of a tree, and its size: the code buffer of
    size_of + 3 instructions is filled exactly. *)
Lemma assemble_eq x :
  wf x →
  code (assemble x) = Inst I_SAVE 0 0 0 :: compile x 1 0 ++ [Inst I_SAVE 1 0 0; Inst I_MATCH 0 0 0].
Proof.
  intros Hw. unfold assemble. change (emit I_SAVE 0 0 (Gst [] 0)) with (Gst [Inst I_SAVE 0 0 0] 0). rewrite (gen_eq x Hw).
  unfold emit. cbn [code]. cbn [app length Z.of_nat]. rewrite <- app_assoc. done.
Qed.

Lemma assemble_length x : wf x → size_of x + 3 <= MAX_INST → Z.of_nat (length (code (assemble x))) = size_of x + 3.
Proof.
  intros Hw Hs. rewrite assemble_eq by done. cbn [length]. rewrite length_app. cbn [length]. pose proof (compile_length x 1 0 Hw).
  destruct (size_of_ok x Hw); lia.
Qed.
