(* ===== verification/Regtype.v ===== *)
(** * Regular expressions: every pattern gives an error or a sound program

    The parser terminates, stays inside the pattern and makes trees whose
    sets, groups and back-references exist; the code of such a tree jumps,
    saves and counts inside the arrays that the matchers allocate for it. *)
From S2P Require Import Prelude Lit Wctype Regcomp Regcode.

(** ** Programs *)

(** The sets, groups and back-references of a tree exist: there are [ns]
    sets and [nsb] groups, and [br] tells whether back-references occur. *)
Fixpoint fits (ns nsb : Z) (br : bool) (x : node) : Prop :=
  match x with
  | N_SET i => 0 <= i < ns
  | N_CAT a b | N_ALT a b => fits ns nsb br a ∧ fits ns nsb br b
  | N_REP a _ _ => fits ns nsb br a
  | N_GROUP a n => fits ns nsb br a ∧ n <= nsb
  | N_BREF n => 1 <= n <= nsb ∧ br = true
  | _ => True
  end.

Lemma fits_mono ns nsb br ns' nsb' br' x : ns <= ns' → nsb <= nsb' → (br = true → br' = true) → fits ns nsb br x → fits ns' nsb' br' x.
Proof. intros H1 H2 H3. induction x; cbn; intros H; try done; try lia; try tauto; naive_solver lia. Qed.

Section Valid.
Context (ns nsb : Z) (br : bool).

(** Jumps stay between [lo] and [hi], loops are numbered from [l0] to [l1]. *)
Definition inst_valid (lo hi l0 l1 : Z) (i : inst) : Prop :=
  match op i with
  | I_SET => 0 <= ix i < ns
  | I_JMP => lo <= ix i <= hi
  | I_SPLIT => lo <= ix i <= hi ∧ lo <= iy i <= hi
  | I_CHECK => lo <= ix i <= hi ∧ lo <= iy i <= hi ∧ l0 <= iz i < l1
  | I_ENTER => l0 <= ix i < l1
  | I_SAVE => 2 <= ix i <= 2 * nsb + 1
  | I_BREF => 1 <= ix i <= nsb ∧ br = true
  | I_MATCH => False
  | _ => True
  end.

Lemma valid_mono lo hi l0 l1 lo' hi' l0' l1' D :
  lo' <= lo → hi <= hi' → l0' <= l0 → l1 <= l1' → Forall (inst_valid lo hi l0 l1) D → Forall (inst_valid lo' hi' l0' l1') D.
Proof. intros H1 H2 H3 H4 H. apply (Forall_impl _ _ _ H). intros i. unfold inst_valid. destruct (op i); (done || lia). Qed.

Lemma loops_nonneg x : wf x → 0 <= loops_of x.
Proof.
  induction x as [| | | | |a IHa b IHb|a IHa b IHb|a IHa b c|a IHa n|]; cbn [wf loops_of]; try lia; intros (? & ?); try (destruct (c <? 0)); naive_solver nia.
Qed.

Section Copies.
Context (f : Z → Z → list inst) (sz nl : Z) (Hsz : 0 <= sz) (Hnl : 0 <= nl) (Hf : ∀ p l, Forall (inst_valid p (p + sz) l (l + nl)) (f p l)).

Lemma rep_code_valid (k : nat) p l : Forall (inst_valid p (p + k * sz) l (l + k * nl)) (rep_code f sz nl k p l).
Proof using All.
  revert p l. induction k as [|k IH]; intros p l; cbn [rep_code]; [constructor|]. apply Forall_app. split.
  - refine (valid_mono _ _ _ _ _ _ _ _ _ _ _ _ _ (Hf p l)); nia.
  - refine (valid_mono _ _ _ _ _ _ _ _ _ _ _ _ _ (IH _ _)); lia.
Qed.

Lemma opt_code_valid (k : nat) p l e : e = p + k * (sz + 1) → Forall (inst_valid p e l (l + k * nl)) (opt_code f sz nl k p l e).
Proof using All.
  revert p l. induction k as [|k IH]; intros p l ->; cbn [opt_code]; [constructor|]. constructor; [|apply Forall_app; split].
  - cbn. nia.
  - refine (valid_mono _ _ _ _ _ _ _ _ _ _ _ _ _ (Hf _ l)); nia.
  - refine (valid_mono _ _ _ _ _ _ _ _ _ _ _ _ _ (IH (p + 1 + sz) (l + nl) ltac:(nia))); nia.
Qed.
End Copies.

Lemma compile_valid x p l : wf x → fits ns nsb br x → Forall (inst_valid p (p + csize x) l (l + loops_of x)) (compile x p l).
Proof.
  revert p l. induction x as [| | | | |a IHa b IHb|a IHa b IHb|a IHa b c|a IHa n|]; intros p l Hw Hp; cbn [compile csize loops_of wf fits] in *;
    try (by constructor); try (by rewrite Forall_singleton).
  - destruct Hw as [Wa Wb], Hp as [Pa Pb]. pose proof (csize_nonneg a Wa). pose proof (csize_nonneg b Wb). pose proof (loops_nonneg a Wa). pose proof (loops_nonneg b Wb).
    apply Forall_app. split.
    + refine (valid_mono _ _ _ _ _ _ _ _ _ _ _ _ _ (IHa p l Wa Pa)); lia.
    + refine (valid_mono _ _ _ _ _ _ _ _ _ _ _ _ _ (IHb _ _ Wb Pb)); lia.
  - destruct Hw as [Wa Wb], Hp as [Pa Pb]. pose proof (csize_nonneg a Wa). pose proof (csize_nonneg b Wb). pose proof (loops_nonneg a Wa). pose proof (loops_nonneg b Wb).
    constructor; [cbn; lia|]. apply Forall_app. split; [|constructor; [cbn; lia|]].
    + refine (valid_mono _ _ _ _ _ _ _ _ _ _ _ _ _ (IHa _ l Wa Pa)); lia.
    + refine (valid_mono _ _ _ _ _ _ _ _ _ _ _ _ _ (IHb _ _ Wb Pb)); lia.
  - destruct Hw as (Wa & Hb & Hc). pose proof (csize_nonneg a Wa) as Hs. pose proof (loops_nonneg a Wa) as Hn.
    assert (∀ p l, Forall (inst_valid p (p + csize a) l (l + loops_of a)) (compile a p l)) as Hf by auto.
    destruct (Z.ltb_spec c 0) as [Hneg|Hpos].
    + apply Forall_app. split; [refine (valid_mono _ _ _ _ _ _ _ _ _ _ _ _ _ (rep_code_valid _ _ _ Hs Hn Hf _ p l)); destruct (Z.eqb_spec b 0); nia|].
      constructor; [cbn; nia|]. apply Forall_app. split; [destruct (Z.eqb_spec b 0) as [->|]; repeat constructor; cbn; lia|].
      apply Forall_app. split; [|repeat constructor; cbn; destruct (Z.eqb_spec b 0) as [->|]; nia].
      refine (valid_mono _ _ _ _ _ _ _ _ _ _ _ _ _ (Hf _ _)); destruct (Z.eqb_spec b 0) as [->|]; nia.
    + destruct Hc as [?|Hc]; [lia|]. apply Forall_app. split.
      * refine (valid_mono _ _ _ _ _ _ _ _ _ _ _ _ _ (rep_code_valid _ _ _ Hs Hn Hf _ p l)); nia.
      * refine (valid_mono _ _ _ _ _ _ _ _ _ _ _ _ _ (opt_code_valid _ _ _ Hs Hn Hf _ _ _ _ eq_refl)); nia.
  - destruct Hw as [Wa Hn], Hp as [Pa Pn]. pose proof (csize_nonneg a Wa). constructor; [cbn; lia|]. apply Forall_app. split; [|repeat constructor; cbn; lia].
    refine (valid_mono _ _ _ _ _ _ _ _ _ _ _ _ _ (IHa _ l Wa Pa)); lia.
Qed.
End Valid.

(** ** The parser *)

(** Any of the error codes; not the one of an exhausted bound. *)
Definition is_err (e : Z) : Prop := 2 <= e <= 13.

Definition wpp {A} (m : P A) (ps : parser) (Q : A → parser → Prop) : Prop :=
  match m ps with inl (a, ps') => Q a ps' | inr e => is_err e end.

Lemma wpp_ret {A} (a : A) ps (Q : A → parser → Prop) : Q a ps → wpp (mret a) ps Q.
Proof. done. Qed.

Lemma wpp_bind {A B} (m : P A) (f : A → P B) ps Q : wpp m ps (λ a ps', wpp (f a) ps' Q) → wpp (m ≫= f) ps Q.
Proof. unfold wpp, mbind, P_bind. by destruct (m ps) as [[a ps']|e]. Qed.

Lemma wpp_mono {A} (m : P A) ps (Q R : A → parser → Prop) : wpp m ps Q → (∀ a ps', Q a ps' → R a ps') → wpp m ps R.
Proof. unfold wpp. destruct (m ps) as [[a ps']|e]; auto. Qed.

Lemma wpp_fail {A} e ps (Q : A → parser → Prop) : is_err e → wpp (fail e) ps Q.
Proof. done. Qed.

Lemma wpp_upd f ps (Q : unit → parser → Prop) : Q tt (f ps) → wpp (upd f) ps Q.
Proof. done. Qed.

Lemma wpp_get ps (Q : parser → parser → Prop) : Q ps ps → wpp get ps Q.
Proof. done. Qed.

Lemma wpp_if {A} (b : bool) (m n : P A) ps Q : (b = true → wpp m ps Q) → (b = false → wpp n ps Q) → wpp (if b then m else n) ps Q.
Proof. destruct b; auto. Qed.

Definition bump (ps : parser) : parser := Ps (pos ps) (nn ps + 1) (sets ps) (nsub ps) (closed ps) (depth ps) (backrefs ps).

Lemma wpp_mknode x ps Q : Q x (bump ps) → wpp (mknode x) ps Q.
Proof. unfold wpp, mknode. destruct (_ =? _); done. Qed.

(** The rules in order, with case distinctions on the conditions. *)
Ltac pstep :=
  lazymatch goal with
  | |- wpp (mret _) _ _ => apply wpp_ret
  | |- wpp (fail _) _ _ => apply wpp_fail; done
  | |- wpp (mbind _ _) _ _ => apply wpp_bind
  | |- wpp get _ _ => apply wpp_get
  | |- wpp (skip _) _ _ => apply wpp_upd
  | |- wpp (upd _) _ _ => apply wpp_upd
  | |- wpp (on_set _ _) _ _ => apply wpp_upd
  | |- wpp (mknode _) _ _ => apply wpp_mknode
  | |- wpp (if decide ?P then _ else _) _ _ => destruct (decide P)
  | |- wpp (if ?b then _ else _) _ _ => apply wpp_if; intros ?
  end.

Lemma dec_length s : (0 < length s)%nat → (1 <= (dec s).2 <= length s)%nat.
Proof.
  intros Hl. unfold dec. cbv zeta. destruct (nth 0 s 0 <? 128); [cbn; lia|].
  match goal with |- context [if ?b then 4%nat else ?m] => set (k := if b then 4%nat else m) end. destruct (Nat.eqb_spec k 0) as [|Hn]; cbn [orb]; [cbn; lia|]. destruct (_ <? nth 0 s 0); cbn [orb]; [cbn; lia|].
  destruct (Nat.ltb_spec (length s) k); cbn [orb]; [cbn; lia|]. destruct (dec_tail _ _); [|cbn; lia].
  match goal with |- context [if ?b then (_ + _, 1%nat) else _] => destruct b end; cbn; lia.
Qed.

Section Parsing.
Context (s : list Z) (ere icase : bool).

Abbreviation n := (length s).

Definition byte_at (k : nat) : Z := if decide (k < n)%nat then nth k s 0 else -1.

Lemma byte_at_in k c : byte_at k = c → c ≠ -1 → (k < n)%nat.
Proof. unfold byte_at. intros H Hc. destruct (decide (k < n)%nat); [done | congruence]. Qed.

Lemma wpp_peek off ps Q : Q (byte_at (pos ps + off)) ps → wpp (peek s off) ps Q.
Proof. done. Qed.

Lemma wpp_at_end ps Q : (bool_decide (n <= pos ps)%nat = true → Q true ps) → (bool_decide (n <= pos ps)%nat = false → Q false ps) → wpp (at_end s) ps Q.
Proof. unfold wpp, at_end. destruct (bool_decide _); auto. Qed.

(** Only the position and the sets have changed. *)
Definition moved (d : nat) (ps ps' : parser) : Prop :=
  ∃ p ss, (pos ps + d <= p <= n)%nat ∧ length ss = length (sets ps) ∧ ps' = set_pos p (set_sets ss ps).

Lemma pmoved_set_pos d p ps : (pos ps + d <= p <= n)%nat → moved d ps (set_pos p ps).
Proof. intros H. exists p, (sets ps). split_and!; (lia || done). Qed.

Lemma pmoved_refl ps : (pos ps <= n)%nat → moved 0 ps ps.
Proof. intros H. exists (pos ps), (sets ps). split_and!; [lia | lia | done | by destruct ps]. Qed.

Lemma pmoved_trans d e ps ps' ps'' : moved d ps ps' → moved e ps' ps'' → moved (d + e) ps ps''.
Proof. intros (p & ss & H1 & H2 & ->) (p' & ss' & H3 & H4 & ->). exists p', ss'. cbn in *. split_and!; [lia | lia | congruence | done]. Qed.

Lemma pmoved_le d e ps ps' : (e <= d)%nat → moved d ps ps' → moved e ps ps'.
Proof. intros He (p & ss & H1 & H2 & ->). exists p, ss. split_and!; [lia | lia | done | done]. Qed.

Lemma pmoved_on_set idx f ps : (pos ps <= n)%nat → moved 0 ps (set_sets (alter f idx (sets ps)) ps).
Proof. intros H. exists (pos ps), (alter f idx (sets ps)). split_and!; [lia | lia | by rewrite length_alter | by destruct ps]. Qed.

Lemma wpp_getc ps (Q : Z → parser → Prop) : (pos ps < n)%nat → (∀ c ps', moved 1 ps ps' → sets ps' = sets ps → Q c ps') → wpp (getc_pat s) ps Q.
Proof.
  intros Hp HQ. unfold wpp, getc_pat. pose proof (dec_length (drop (pos ps) s)) as H. rewrite length_drop in H. destruct (dec _) as [c k]. cbn in H.
  apply HQ; [|done]. apply pmoved_set_pos. lia.
Qed.

(** *** Bracket expressions *)

Lemma bracket_char_ok ps : (pos ps < n)%nat → wpp (bracket_char s) ps (λ _ ps', moved 1 ps ps').
Proof.
  intros Hp. unfold bracket_char. do 2 (apply wpp_bind, wpp_peek). pstep; [|by apply wpp_getc].
  apply andb_true_iff in H as [_ H]. assert (pos ps + 1 < n)%nat as H1 by (eapply byte_at_in; [done|]; intros E; by rewrite E in H).
  do 2 pstep. pstep. apply wpp_at_end; intros He; [by pstep|]. apply bool_decide_eq_false in He. pstep. apply wpp_getc; [lia|]. intros c ps' Hm _.
  do 2 (apply wpp_bind, wpp_peek). pstep; [pstep; apply wpp_at_end; intros _; by pstep|].
  apply orb_false_iff in H0 as [_ H0%negb_false_iff%Z.eqb_eq]. apply byte_at_in in H0; [|done]. do 3 pstep.
  replace 1%nat with (1 + 0)%nat by done. eapply pmoved_trans; [|apply pmoved_set_pos]; [|lia]. eapply pmoved_le; [|eapply (pmoved_trans 2 1); [apply pmoved_set_pos | exact Hm]]; [lia|]. cbn in He. lia.
Qed.

Lemma class_end_in fuel e e' : class_end s fuel e = Some e' → (e <= e')%nat ∧ (e' + 1 < n)%nat.
Proof.
  revert e. induction fuel as [|fuel IH]; intros e; cbn [class_end]; [done|]. destruct (decide _); [|done]. destruct (_ && _); [intros [= <-]; lia|].
  intros H%IH. lia.
Qed.

Lemma bracket_class_ok idx ps : wpp (bracket_class s icase idx) ps (λ _ ps', moved 1 ps ps').
Proof.
  unfold wpp, bracket_class. cbv zeta. destruct (class_end s _ _) as [e|] eqn:He; [|done]. apply class_end_in in He. destruct (16 <=? _)%nat; [done|].
  destruct (_ || _); [done|]. eexists (e + 2)%nat, _. split_and!; [lia | lia | |done]. by rewrite length_alter.
Qed.

Lemma bracket_range_ok idx ps : (pos ps < n)%nat → wpp (bracket_range s icase idx) ps (λ _ ps', moved 1 ps ps').
Proof.
  intros Hp. unfold bracket_range. pstep. eapply wpp_mono; [by apply bracket_char_ok|]. intros lo ps1 Hm1. do 2 (apply wpp_bind, wpp_peek). pstep.
  assert (∀ hi ps2, moved 1 ps ps2 →
    wpp (_ ← on_set idx (λ st, set_add st lo hi); if icase then on_set idx (add_cases lo hi) else mret tt) ps2 (λ _ ps', moved 1 ps ps')) as Hend.
  { intros hi ps2 Hm. assert (pos ps2 <= n)%nat as H2 by (destruct Hm as (? & ? & ? & ? & ->); cbn; lia). do 2 pstep.
    pose proof (pmoved_trans _ _ _ _ _ Hm (pmoved_on_set idx (λ st, set_add st lo hi) ps2 H2)) as Hm'. pstep; pstep; [|done].
    replace 1%nat with (1 + 0 + 0)%nat by done. eapply pmoved_trans; [done|]. by apply pmoved_on_set. }
  pstep; [|by pstep; apply Hend]. do 2 pstep. do 2 (apply wpp_bind, wpp_peek).
  apply andb_true_iff in H as [[H _]%andb_true_iff H1%negb_true_iff%Z.eqb_neq]. apply (byte_at_in _ _ eq_refl) in H1.
  pstep; [by pstep|]. pstep. eapply wpp_mono; [apply bracket_char_ok; cbn; lia|]. intros hi ps2 Hm2. pstep; [by pstep|]. pstep. apply Hend.
  eapply pmoved_le; [|eapply pmoved_trans; [exact Hm1|]; eapply (pmoved_trans 1 1); [apply pmoved_set_pos | exact Hm2]]; lia.
Qed.

Lemma bracket_loop_ok fuel idx first ps : (pos ps <= n)%nat → (n - pos ps < fuel)%nat → wpp (bracket_loop s icase fuel idx first) ps (λ _ ps', moved 0 ps ps').
Proof.
  revert first ps. induction fuel as [|fuel IH]; intros first ps Hp Hf; [lia|]. cbn [bracket_loop]. pstep. apply wpp_at_end; intros He; [by pstep|].
  apply bool_decide_eq_false in He. do 2 (apply wpp_bind, wpp_peek). pstep; [pstep; apply pmoved_set_pos; lia|].
  assert (∀ ps1, moved 1 ps ps1 → wpp (bracket_loop s icase fuel idx false) ps1 (λ _ ps', moved 0 ps ps')) as Hnext.
  { intros ps1 Hm. pose proof Hm as (p1 & ss & H1 & _ & ->). eapply wpp_mono; [apply IH; cbn; lia|]. intros [] ps2 Hm2. eapply pmoved_le; [|by eapply pmoved_trans]. lia. }
  pstep; pstep.
  - eapply wpp_mono; [apply bracket_class_ok|]. intros [] ps1 Hm. by apply Hnext.
  - eapply wpp_mono; [apply bracket_range_ok; lia|]. intros [] ps1 Hm. by apply Hnext.
Qed.

(** *** Trees *)

(** The state has grown, and at least [d] bytes are read. *)
Definition ext (d : nat) (ps ps' : parser) : Prop :=
  (pos ps + d <= pos ps' <= n)%nat ∧ (length (sets ps) <= length (sets ps'))%nat ∧ 0 <= nsub ps <= nsub ps' ∧ (backrefs ps = true → backrefs ps' = true).

Definition tree (ps : parser) (x : node) : Prop := wf x ∧ fits (Z.of_nat (length (sets ps))) (nsub ps) (backrefs ps) x.

Definition res (d : nat) (ps : parser) (x : node) (ps' : parser) : Prop := ext d ps ps' ∧ tree ps' x.

Lemma ext_refl ps : 0 <= nsub ps → (pos ps <= n)%nat → ext 0 ps ps.
Proof. intros Hn Hp. unfold ext. split_and!; (lia || done). Qed.

Lemma ext_trans d e ps ps' ps'' : ext d ps ps' → ext e ps' ps'' → ext (d + e) ps ps''.
Proof. intros (H1 & H2 & H3 & H4) (H5 & H6 & H7 & H8). split_and!; try lia. auto. Qed.

Lemma ext_le d e ps ps' : (e <= d)%nat → ext d ps ps' → ext e ps ps'.
Proof. intros He (H1 & H2 & H3 & H4). split_and!; (lia || done). Qed.

Lemma tree_ext d ps ps' x : ext d ps ps' → tree ps x → tree ps' x.
Proof. intros (_ & H2 & H3 & H4) [Hw Hf]. split; [done|]. eapply fits_mono; [| | |done]; [lia | lia | done]. Qed.

Lemma pmoved_ext d ps ps' : 0 <= nsub ps → moved d ps ps' → ext d ps ps'.
Proof. intros H (p & ss & H1 & H2 & ->). unfold ext. cbn. split_and!; (lia || done). Qed.

Lemma res_ext d e ps ps' x ps'' : ext d ps ps' → res e ps' x ps'' → res (d + e) ps x ps''.
Proof. intros H [H1 H2]. split; [by eapply ext_trans | done]. Qed.

Lemma res_le d e ps x ps' : (e <= d)%nat → res d ps x ps' → res e ps x ps'.
Proof. intros He [H1 H2]. split; [by eapply ext_le | done]. Qed.

(** A node that refers to no set, group or earlier node. *)
Definition leaf (x : node) : Prop := wf x ∧ ∀ ns nsb br, fits ns nsb br x.

Lemma leaf_ok d ps ps' x : leaf x → ext d ps ps' → wpp (mknode x) ps' (res d ps).
Proof. intros [Hw Hl] He. pstep. split; [done | by split]. Qed.

Lemma skip_leaf_ok k ps x : leaf x → 0 <= nsub ps → (pos ps + k <= n)%nat → wpp (_ ← skip k; mknode x) ps (res k ps).
Proof. intros Hl Hn Hk. do 2 pstep. apply leaf_ok; [done|]. apply pmoved_ext; [done|]. apply pmoved_set_pos. lia. Qed.

Lemma parse_bracket_ok ps : 0 <= nsub ps → (pos ps <= n)%nat → wpp (parse_bracket s icase) ps (res 0 ps).
Proof.
  intros Hn Hp. unfold parse_bracket, newset. pstep. unfold wpp at 1. pstep. apply wpp_peek. cbn [pos set_sets]. set (ps1 := set_sets _ ps).
  assert (length (sets ps1) = S (length (sets ps))) as Hl by (cbn; rewrite length_app; cbn; lia).
  assert (∀ ps2, moved 0 ps1 ps2 →
    wpp (_ ← bracket_loop s icase (S n) (length (sets ps)) true; mknode (N_SET (Z.of_nat (length (sets ps))))) ps2 (res 0 ps)) as Hloop.
  { intros ps2 Hm. pose proof Hm as (p & ss & Hp2 & _ & Hps2). pstep. eapply wpp_mono; [apply bracket_loop_ok; rewrite Hps2; cbn in *; lia|]. intros [] ps3 Hm3.
    pose proof (pmoved_trans _ _ _ _ _ Hm Hm3) as (p3 & ss3 & H3 & Hl3 & ->). pstep. unfold res, ext, tree. cbn in *. split_and!; try done; try lia. }
  pstep. pstep; [pstep; pstep; pstep; apply Hloop | pstep; apply Hloop].
  - apply Z.eqb_eq, byte_at_in in H; [|done]. eapply (pmoved_trans 0 0); [by apply pmoved_on_set|]. apply pmoved_set_pos. cbn in *. lia.
  - apply pmoved_refl. cbn. lia.
Qed.

Lemma class_set_ok name ng us ps : 0 <= nsub ps → (pos ps <= n)%nat → wpp (class_set name ng us) ps (res 0 ps).
Proof.
  intros Hn Hp. unfold class_set, newset. pstep. unfold wpp at 1. do 3 pstep.
  assert (∀ ps2, moved 0 (set_sets (sets ps ++ [empty_set]) ps) ps2 → wpp (mknode (N_SET (Z.of_nat (length (sets ps))))) ps2 (res 0 ps)) as Hend.
  { intros ps2 (p & ss & H1 & H2 & ->). pstep. cbn in *. rewrite length_app in H2. cbn in H2. unfold res, ext, tree. cbn. split_and!; try done; lia. }
  pstep; pstep; apply Hend; [|by apply pmoved_on_set]. eapply (pmoved_trans 0 0); by apply pmoved_on_set.
Qed.

(** *** Atoms *)

Section Atom.
Context (alt : P node) (p0 : nat).
Context (Halt : ∀ ps, 0 <= nsub ps → (p0 <= pos ps <= n)%nat → wpp alt ps (res 0 ps)).

Lemma parse_group_ok ps : 0 <= nsub ps → (p0 <= pos ps <= n)%nat → wpp (parse_group s ere alt) ps (res 0 ps).
Proof using Halt.
  intros Hn Hp. unfold parse_group. do 4 pstep. set (ps1 := Ps (pos ps) _ _ _ _ _ _). unfold at_close. pstep. do 2 (apply wpp_bind, wpp_peek). do 3 pstep.
  assert (∀ a ps2, res 0 ps1 a ps2 → wpp (_ ← upd (λ ps, set_depth (depth ps - 1) ps);
    c0 ← peek s 0; c1 ← peek s 1;
    if negb (if ere then c0 =? 41 else (c0 =? 92) && (c1 =? 41)) then fail REG_EPAREN else
    _ ← skip (if ere then 1 else 2);
    _ ← upd (λ ps', if nsub ps + 1 <? 64 then Ps (pos ps') (nn ps') (sets ps') (nsub ps') (Z.lor (closed ps') (Z.shiftl 1 (nsub ps + 1))) (depth ps') (backrefs ps') else ps');
    mknode (N_GROUP a (nsub ps + 1))) ps2 (res 0 ps)) as Hend.
  { intros a ps2 [(E1 & E2 & E3 & E4) [T1 T2]]. do 2 pstep. do 2 (apply wpp_bind, wpp_peek). pstep; [by pstep|]. apply negb_false_iff in H.
    assert (pos ps2 + (if ere then 1 else 2) <= n)%nat as Hlt.
    { destruct ere; [apply Z.eqb_eq, byte_at_in in H; [|done]; cbn in H; lia|]. apply andb_true_iff in H as [_ H%Z.eqb_eq%byte_at_in]; [|done]. cbn in H. lia. }
    do 5 pstep. unfold res, ext, tree. cbn in *. destruct (_ <? 64); cbn; (split_and!; try done; try lia). }
  pstep. pstep; [pstep|].
  - apply Hend. unfold res, ext, tree. cbn. split_and!; try done; lia.
  - eapply wpp_mono; [apply Halt; cbn; lia|]. intros a ps2 Hr. by apply Hend.
Qed.

Lemma getc_leaf_ok (f : Z → Z) ps : 0 <= nsub ps → (pos ps < n)%nat → wpp (c ← getc_pat s; mknode (N_CHAR (f c))) ps (res 1 ps).
Proof using Type.
  intros Hn Hp. pstep. apply wpp_getc; [done|]. intros c ps' Hm _. apply leaf_ok; [by split|]. by apply pmoved_ext.
Qed.

Lemma skip_then {A} k (m : P A) ps (Q : A → parser → Prop) : wpp m (set_pos (pos ps + k) ps) Q → wpp (_ ← skip k; m) ps Q.
Proof using Type. intros H. by do 2 pstep. Qed.

Lemma res_skip k d ps x ps' : 0 <= nsub ps → (pos ps + k <= n)%nat → res d (set_pos (pos ps + k) ps) x ps' → res (k + d) ps x ps'.
Proof using Type. intros Hn Hk. apply res_ext. apply pmoved_ext; [done|]. apply pmoved_set_pos. lia. Qed.

Lemma parse_escape_ok ps : 0 <= nsub ps → (p0 <= pos ps < n)%nat → wpp (parse_escape s ere icase alt) ps (res 0 ps).
Proof using Halt.
  intros Hn Hp. assert (∀ x, leaf x → wpp (_ ← skip 1; mknode x) ps (res 0 ps)) as Hleaf.
  { intros x Hx. eapply wpp_mono; [apply (skip_leaf_ok 1); [done | done | lia]|]. intros y ps'. apply res_le. lia. }
  assert (∀ nm ng us, wpp (_ ← skip 1; class_set nm ng us) ps (res 0 ps)) as Hset.
  { intros nm ng us. apply skip_then. eapply wpp_mono; [apply class_set_ok; cbn; lia|]. intros y ps' Hr. apply (res_le (1 + 0)); [lia|]. apply res_skip; [done | lia | done]. }
  unfold parse_escape. apply wpp_bind, wpp_peek.
  pstep; [apply skip_then; eapply wpp_mono; [apply parse_group_ok; cbn; lia|]; intros y ps' Hr; apply (res_le (1 + 0)); [lia|]; apply res_skip; [done | lia | done]|].
  do 2 (pstep; [by pstep|]). pstep.
  { do 2 pstep. pstep; [by pstep|]. do 3 pstep. apply orb_false_iff in H3 as [H3%Z.ltb_ge _]. apply andb_true_iff in H2 as [H2%Z.leb_le _].
    unfold res, ext, tree. cbn. split_and!; try done; lia. }
  do 6 (pstep; [apply Hleaf; by split|]). do 4 (pstep; [apply Hset|]).
  eapply wpp_mono; [apply (getc_leaf_ok (fold_char icase)); [done | lia]|]. intros y ps'. apply res_le. lia.
Qed.

Lemma parse_plain_ok c ps : 0 <= nsub ps → (p0 <= pos ps + 1)%nat → (pos ps < n)%nat → wpp (parse_plain s ere icase alt c) ps (res 1 ps).
Proof using Halt.
  intros Hn Hp Hlt. unfold parse_plain. pstep; [apply (skip_leaf_ok 1); [by split | done | lia]|].
  assert (∀ (m : P node) ps1, ps1 = set_pos (pos ps + 1) ps → wpp m ps1 (res 0 ps1) → wpp (_ ← skip 1; m) ps (res 1 ps)) as Hskip.
  { intros m ps1 -> Hm. apply skip_then. eapply wpp_mono; [exact Hm|]. intros y ps' Hr. apply (res_skip 1 0); [done | lia | done]. }
  pstep; [eapply Hskip; [done|]; apply parse_bracket_ok; cbn; lia|].
  pstep; [|apply (getc_leaf_ok (λ c, if c <? BAD then fold_char icase c else c)); done].
  do 2 pstep. pstep; [by pstep|]. eapply Hskip; [done|]. apply parse_escape_ok; cbn; lia.
Qed.

Lemma parse_atom_ok ps : 0 <= nsub ps → (p0 <= pos ps + 1)%nat → (pos ps < n)%nat → wpp (parse_atom s ere icase alt) ps (res 1 ps).
Proof using Halt.
  intros Hn Hp Hlt. assert (∀ x, leaf x → wpp (_ ← skip 1; mknode x) ps (res 1 ps)) as Hleaf by (intros x Hx; apply (skip_leaf_ok 1); [done | done | lia]).
  unfold parse_atom. do 3 (apply wpp_bind, wpp_peek). do 2 pstep. pstep.
  - pstep; [apply skip_then; eapply wpp_mono; [apply parse_group_ok; cbn; lia|]; intros y ps' Hr; apply (res_skip 1 0); [done | lia | done]|].
    do 2 (pstep; [by pstep|]). do 2 (pstep; [apply Hleaf; by split|]). by apply parse_plain_ok.
  - do 3 (pstep; [apply Hleaf; by split|]). by apply parse_plain_ok.
Qed.
End Atom.

(** *** Repetition *)

Lemma interval_num_ok fuel m d ps : 0 <= m → (pos ps <= n)%nat → wpp (interval_num s fuel m d) ps (λ r ps', 0 <= r.1 ∧ moved 0 ps ps').
Proof.
  revert m d ps. induction fuel as [|fuel IH]; intros m d ps Hm Hp; cbn [interval_num].
  { pstep. split; [done|]. by apply pmoved_refl. }
  apply wpp_bind, wpp_peek. pstep.
  - apply skip_then. unfold isdig in H. apply andb_true_iff in H as [H%Z.leb_le _]. assert (pos ps + 0 < n)%nat as Hlt by (eapply byte_at_in; [done|]; lia).
    eapply wpp_mono; [apply IH; [|cbn; lia]; unfold RE_DUP_MAX; destruct (_ <? _); lia|]. intros r ps' [Hr Hmv]. split; [done|].
    eapply pmoved_le; [|eapply pmoved_trans; [apply (pmoved_set_pos 1) | exact Hmv]]; lia.
  - pstep. split; [done|]. by apply pmoved_refl.
Qed.

Lemma interval_error_ok ps Q : wpp (interval_error s) ps Q.
Proof. unfold interval_error. pstep. apply wpp_at_end; intros _; by pstep. Qed.

Definition interval_res (d : nat) (ps : parser) (r : Z * Z) (ps' : parser) : Prop := 0 <= r.1 ∧ (r.2 < 0 ∨ r.1 <= r.2) ∧ moved d ps ps'.

Lemma parse_interval_ok ps : (pos ps <= n)%nat → wpp (parse_interval s ere) ps (interval_res 0 ps).
Proof.
  intros Hp. unfold parse_interval. pstep. eapply wpp_mono; [by apply interval_num_ok|]. intros [m d] ps1 [Hm Hm1]. cbn [fst] in Hm. apply wpp_bind, wpp_peek.
  pstep; [apply interval_error_ok|].
  assert (pos ps1 <= n)%nat as Hp1 by (destruct Hm1 as (? & ? & ? & ? & ->); cbn; lia).
  assert (∀ k ps2, moved 0 ps ps2 →
    wpp (c0 ← peek s 0; c1 ← peek s 1;
      if negb (if ere then c0 =? 125 else (c0 =? 92) && (c1 =? 125)) then interval_error s else
      _ ← skip (if ere then 1 else 2);
      if (RE_DUP_MAX <? m) || (RE_DUP_MAX <? k) || ((0 <=? k) && (k <? m)) then fail REG_BADBR else mret (m, k)) ps2 (interval_res 0 ps)) as Hend.
  { intros k ps2 Hm2. do 2 (apply wpp_bind, wpp_peek). pstep; [apply interval_error_ok|]. apply negb_false_iff in H0. apply skip_then. pstep; [by pstep|]. pstep.
    apply orb_false_iff in H1 as [_ H1]. split; [done|]. cbn [fst snd]. split.
    - destruct (Z.leb_spec 0 k); cbn [andb] in H1; zbool; lia.
    - eapply (pmoved_trans 0 0); [done|]. apply pmoved_set_pos. destruct ere; [apply Z.eqb_eq, byte_at_in in H0; [|done]; lia|].
      apply andb_true_iff in H0 as [_ H0%Z.eqb_eq%byte_at_in]; [|done]. lia. }
  pstep. pstep; [|pstep; by apply Hend].
  apply Z.eqb_eq, byte_at_in in H0; [|done]. apply skip_then. apply wpp_bind, wpp_peek.
  assert (moved 0 ps (set_pos (pos ps1 + 1) ps1)) as Hmv by (eapply (pmoved_trans 0 0); [done|]; apply pmoved_set_pos; lia).
  pstep; [|pstep; by apply Hend]. pstep. eapply wpp_mono; [apply interval_num_ok; [done | cbn; lia]|]. intros [k d'] ps2 [_ Hm2]. pstep. apply Hend. by eapply (pmoved_trans 0 0).
Qed.

(** The bytes that a repetition operator takes: two at least in a BRE, if it
    is not a star. *)
Lemma repeat_op_ok ps :
  (pos ps <= n)%nat →
  wpp (repeat_op s ere) ps (λ r ps', match r with
    | None => ps' = ps
    | Some r => interval_res 1 ps r ps' ∧ (ere = true ∨ byte_at (pos ps) = 42 ∨ moved 2 ps ps')
    end).
Proof.
  intros Hp. assert (∀ b : bool, let r := if b then (1, -1) else (0, 1) in 0 <= r.1 ∧ (r.2 < 0 ∨ r.1 <= r.2)) as Hpq by (intros []; cbn; lia).
  unfold repeat_op. do 2 (apply wpp_bind, wpp_peek). rewrite Nat.add_0_r.
  assert (∀ c k, byte_at k = c → c ≠ -1 → (k < n)%nat) as Hin by (intros c k; apply byte_at_in).
  assert (∀ k r, (1 <= k)%nat → (pos ps + k <= n)%nat → 0 <= r.1 ∧ (r.2 < 0 ∨ r.1 <= r.2) → interval_res 1 ps r (set_pos (pos ps + k) ps)) as Hop.
  { intros k r Hk Hkn [? ?]. split_and!; [done..|]. apply pmoved_set_pos. lia. }
  assert (∀ k, (1 <= k)%nat → (pos ps + k <= n)%nat → wpp (_ ← skip k; r ← parse_interval s ere; mret (Some r)) ps (λ r ps', match r with
    | None => ps' = ps | Some r => interval_res 1 ps r ps' ∧ moved k ps ps' end)) as Hint.
  { intros k Hk Hkn. apply skip_then. pstep. eapply wpp_mono; [apply parse_interval_ok; cbn; lia|]. intros r ps' (H1 & H2 & H3). pstep.
    assert (moved (k + 0) ps ps') as Hm by (apply (pmoved_trans k 0 _ _ _ (pmoved_set_pos k (pos ps + k) ps ltac:(lia)) H3)). rewrite Nat.add_0_r in Hm.
    split; [|done]. split_and!; [done..|]. by eapply pmoved_le. }
  pstep; [apply skip_then; apply Z.eqb_eq in H; pose proof (Hin _ _ H ltac:(done)); pstep; split; [apply Hop; cbn; lia | tauto]|].
  pstep.
  { apply andb_true_iff in H0 as [He H0]. assert (pos ps < n)%nat by (eapply Hin; [done|]; intros E; rewrite E in H0; done). apply skip_then. pstep. split; [|tauto].
    apply Hop; [lia | lia | apply Hpq]. }
  pstep.
  { apply andb_true_iff in H1 as [[He H1%Z.eqb_eq]%andb_true_iff _]. pose proof (Hin _ _ H1 ltac:(done)). eapply wpp_mono; [apply (Hint 1%nat); lia|].
    intros [r|] ps'; [|done]. intros [? ?]. split; [done | tauto]. }
  pstep.
  { apply andb_true_iff in H2 as [_ H2]. assert (pos ps + 1 < n)%nat by (eapply Hin; [done|]; intros E; rewrite E in H2; done). apply skip_then. pstep. split.
    - apply Hop; [lia | lia | apply Hpq].
    - right. right. apply pmoved_set_pos. lia. }
  pstep; [|by pstep]. apply andb_true_iff in H3 as [_ H3%Z.eqb_eq]. pose proof (Hin _ _ H3 ltac:(done)). eapply wpp_mono; [apply (Hint 2%nat); lia|].
  intros [r|] ps'; [|done]. intros [? ?]. split; [done | tauto].
Qed.

Lemma repeat_loop_ok fuel a ps : 0 <= nsub ps → (pos ps <= n)%nat → (n - pos ps < fuel)%nat → tree ps a → wpp (repeat_loop s ere fuel a) ps (res 0 ps).
Proof.
  revert a ps. induction fuel as [|fuel IH]; intros a ps Hn Hp Hf Ht; [lia|]. cbn [repeat_loop]. apply wpp_bind, wpp_peek. rewrite Nat.add_0_r. pstep.
  eapply wpp_mono; [by apply repeat_op_ok|]. intros [[mn mx]|] ps1; [|intros ->; pstep; split; [by apply ext_refl | done]]. intros [(H1 & H2 & Hm) Hb]. cbn [fst snd] in *.
  pose proof (pmoved_ext 1 ps ps1 Hn Hm) as He. pose proof (tree_ext _ _ _ _ He Ht) as [Hw Hfit].
  assert (wpp (a ← mknode (N_REP a mn mx); repeat_loop s ere fuel a) ps1 (res 0 ps)) as Hrep.
  { do 2 pstep. destruct He as (E1 & E2 & E3 & E4). eapply wpp_mono; [apply IH; cbn; [lia | lia | lia | by split_and!]|]. intros y ps2 Hr.
    apply (res_le (1 + 0)); [lia|]. eapply res_ext; [|exact Hr]. unfold ext. cbn. split_and!; (lia || done). }
  destruct a as [| | | |k|? ?|? ?|? ? ?|? ?|]; try exact Hrep. pstep; [|pstep; [by pstep | exact Hrep]].
  apply andb_true_iff in H as [Hbre%negb_true_iff _]. pstep.
  - do 3 pstep. split; [|by split]. cbn. apply (ext_le 1); [lia | exact He].
  - do 2 pstep. pstep. apply Z.eqb_neq in H. destruct Hb as [?|[?|(p & ss & Hp2 & Hs2 & Hps)]]; [congruence | done|]. subst ps1. unfold res, ext, tree. cbn in *. split_and!; try done; try lia.
Qed.

(** What parse_cat appends. *)
Lemma cat_ok seq a ps : 0 <= nsub ps → (pos ps <= n)%nat → tree ps seq → tree ps a → wpp (cat seq a) ps (res 0 ps).
Proof.
  intros Hn Hp [H1 H2] [H3 H4]. assert (ext 0 ps ps ∧ ext 0 ps (bump ps)) as [He1 He2] by (unfold ext; cbn; split; split_and!; (lia || done)).
  unfold cat. destruct seq; pstep; (split; [done|]); (split; [done || by split | done || by split]).
Qed.

Lemma parse_ok fuel :
  (∀ ps, 0 <= nsub ps → (pos ps <= n)%nat → (4 * (n - pos ps) + 3 <= fuel)%nat → wpp (parse_alt s ere icase fuel) ps (res 0 ps)) ∧
  (∀ l ps, 0 <= nsub ps → (pos ps <= n)%nat → (4 * (n - pos ps) + 2 <= fuel)%nat → tree ps l → wpp (alt_loop s ere icase fuel l) ps (res 0 ps)) ∧
  (∀ ps, 0 <= nsub ps → (pos ps <= n)%nat → (4 * (n - pos ps) + 2 <= fuel)%nat → wpp (parse_cat s ere icase fuel) ps (res 0 ps)) ∧
  (∀ seq ps, 0 <= nsub ps → (pos ps <= n)%nat → (4 * (n - pos ps) + 1 <= fuel)%nat → tree ps seq → wpp (cat_loop s ere icase fuel seq) ps (res 0 ps)).
Proof.
  induction fuel as [|fuel (IHalt & IHal & IHcat & IHcl)]; [split_and!; intros; lia|].
  assert (∀ ps ps' d, 0 <= nsub ps → ext d ps ps' → 0 <= nsub ps' ∧ (pos ps + d <= pos ps' <= n)%nat) as Hst by (intros ps ps' d Hn (?&?&?&?); lia).
  split_and!.
  - intros ps Hn Hp Hf. cbn [parse_alt]. pstep. eapply wpp_mono; [apply IHcat; [done | done | lia]|]. intros l ps1 [He Ht].
    destruct (Hst _ _ _ Hn He) as [Hn1 Hp1]. eapply wpp_mono; [apply IHal; [done | lia | lia | done]|]. intros y ps2. by apply (res_ext 0 0).
  - intros l ps Hn Hp Hf Ht. cbn [alt_loop]. unfold at_alt. pstep. do 2 (apply wpp_bind, wpp_peek). pstep. pstep; [|pstep; split; [by apply ext_refl | done]].
    assert (pos ps + (if ere then 1 else 2) <= n)%nat as Hlt.
    { destruct ere; [apply Z.eqb_eq, byte_at_in in H; [|done]; lia|]. apply andb_true_iff in H as [_ H%Z.eqb_eq%byte_at_in]; [|done]. lia. }
    assert (1 <= if ere then 1 else 2)%nat as Hk by (destruct ere; lia). set (k := if ere then 1%nat else 2%nat) in *.
    apply skip_then. pose proof (pmoved_ext k ps _ Hn (pmoved_set_pos k (pos ps + k) ps ltac:(lia))) as He0. destruct (Hst _ _ _ Hn He0) as [Hn0 Hp0].
    pstep. eapply wpp_mono; [apply IHcat; [done | lia | lia]|]. intros r ps1 [He1 Ht1]. destruct (Hst _ _ _ Hn0 He1) as [Hn1 Hp1].
    pose proof (ext_trans _ _ _ _ _ He0 He1) as He. pose proof (tree_ext _ _ _ _ He Ht) as [Hw Hfit]. do 2 pstep.
    eapply wpp_mono; [apply IHal; cbn; [done | lia | lia|]|]; [by destruct Ht1; split; split|].
    intros y ps2 Hr. apply (res_le (k + 0 + 0)); [lia|]. eapply res_ext; [exact He | exact Hr].
  - intros ps Hn Hp Hf. cbn [parse_cat]. do 2 pstep. eapply wpp_mono; [apply IHcl; cbn; [done | done | lia | by split]|]. by intros y ps2.
  - intros seq ps Hn Hp Hf Ht. cbn [cat_loop]. pstep. assert (wpp (mret seq) ps (res 0 ps)) as Hret by (pstep; split; [by apply ext_refl | done]).
    apply wpp_at_end; intros He; unfold at_alt, at_close; (pstep; do 2 (apply wpp_bind, wpp_peek); do 2 pstep; do 2 (apply wpp_bind, wpp_peek); do 3 pstep);
      cbn [orb]; [exact Hret|]. apply bool_decide_eq_false in He. pstep; [exact Hret|]. do 2 pstep.
    eapply wpp_mono; [apply (parse_atom_ok (parse_alt s ere icase fuel) (pos ps + 1)); [|done | lia | lia]|]; [intros ps' ? ?; apply IHalt; [done | lia | lia]|].
    intros a ps1 [He1 Ht1]. destruct (Hst _ _ _ Hn He1) as [Hn1 Hp1]. eapply wpp_mono; [apply repeat_loop_ok; [done | lia | lia | done]|].
    intros b ps2 [He2 Ht2]. destruct (Hst _ _ _ Hn1 He2) as [Hn2 Hp2]. pose proof (ext_trans _ _ _ _ _ He1 He2) as He12. pose proof (tree_ext _ _ _ _ He12 Ht) as Htseq.
    pstep. eapply wpp_mono; [apply cat_ok; [done | lia | done | done]|]. intros c ps3 [He3 Ht3]. destruct (Hst _ _ _ Hn2 He3) as [Hn3 Hp3].
    eapply wpp_mono; [apply IHcl; [done | lia | lia | done]|]. intros y ps4 Hr. apply (res_le (1 + 0 + 0 + 0)); [lia|]. eapply res_ext; [|exact Hr]. by eapply ext_trans.
Qed.
End Parsing.

(** The tree of a pattern, or an error code. *)
Lemma parse_tree pat flags :
  match parse pat flags with
  | inl (x, ps) => tree ps x ∧ pos ps = length pat ∧ 0 <= nsub ps
  | inr e => is_err e
  end.
Proof.
  unfold parse. pose proof (proj1 (parse_ok pat (has flags REG_EXTENDED) (has flags REG_ICASE) (parse_fuel pat)) (Ps 0 0 [] 0 0 0 false)) as H.
  specialize (H ltac:(done) ltac:(cbn; lia) ltac:(unfold parse_fuel; cbn [pos]; lia)). unfold wpp in H.
  destruct (parse_alt _ _ _ _ _) as [[x ps]|e]; [|done]. destruct H as [(H1 & _ & H3 & _) Ht]. cbn in *. case_decide; [done|]. split_and!; [done | lia | lia].
Qed.

(** ** Compiled programs *)

(** Every index an instruction at [pc] uses exists: targets and the next
    instruction in the code, sets, capture slots, loop counters. *)
Definition inst_in (p : prog) (pc : nat) (i : inst) : Prop :=
  let target t := 0 <= t < Z.of_nat (length (p_code p)) in
  match op i with
  | I_MATCH => True
  | I_JMP => target (ix i)
  | I_SPLIT => target (ix i) ∧ target (iy i)
  | I_CHECK => target (ix i) ∧ target (iy i) ∧ 0 <= iz i < p_nloops p
  | I_ENTER => target (Z.of_nat pc + 1) ∧ 0 <= ix i < p_nloops p
  | I_SAVE => target (Z.of_nat pc + 1) ∧ 0 <= ix i < 2 * (p_nsub p + 1)
  | I_BREF => target (Z.of_nat pc + 1) ∧ 1 <= ix i <= p_nsub p ∧ p_backrefs p = true
  | I_SET => target (Z.of_nat pc + 1) ∧ 0 <= ix i < Z.of_nat (length (p_sets p))
  | I_CHAR | I_ANY | I_ASSERT => target (Z.of_nat pc + 1)
  end.

Definition prog_ok (p : prog) : Prop :=
  Z.of_nat (length (p_code p)) <= MAX_INST ∧ (0 < length (p_code p))%nat ∧ ∀ pc i, p_code p !! pc = Some i → inst_in p pc i.

Lemma assemble_loops x : wf x → nloops (assemble x) = loops_of x.
Proof. intros Hw. unfold assemble. change (emit I_SAVE 0 0 (Gst [] 0)) with (Gst [Inst I_SAVE 0 0 0] 0). by rewrite (gen_eq x Hw). Qed.

Lemma assemble_in x ss nsb fl br :
  wf x → fits (Z.of_nat (length ss)) nsb br x → 0 <= nsb →
  let p := Prog (code (assemble x)) ss nsb (nloops (assemble x)) fl br in ∀ pc i, p_code p !! pc = Some i → inst_in p pc i.
Proof.
  intros Hw Hf Hn p pc i. pose proof (compile_valid _ _ _ x 1 0 Hw Hf) as Hv. pose proof (compile_length x 1 0 Hw) as Hl. pose proof (csize_nonneg x Hw).
  assert (Z.of_nat (length (p_code p)) = csize x + 3) as Hlen.
  { unfold p. cbn [p_code]. rewrite assemble_eq by done. cbn [length]. rewrite length_app. cbn [length]. lia. }
  unfold inst_in. cbv zeta. rewrite Hlen. unfold p. cbn [p_code p_nloops p_nsub p_sets p_backrefs]. rewrite assemble_loops by done. rewrite assemble_eq by done.
  rewrite lookup_cons. destruct pc as [|pc]; [intros [= <-]; cbn; lia|]. rewrite lookup_app_Some. intros [Hi|[Hge Hi]].
  - apply lookup_lt_Some in Hi as Hlt. rewrite Forall_lookup in Hv. specialize (Hv pc i Hi). unfold inst_valid in Hv. destruct (op i); try done; try lia. split_and!; (lia || apply Hv).
  - destruct (pc - length (compile x 1 0))%nat as [|[|k]] eqn:Ek; cbn in Hi; [injection Hi as <-; cbn; lia | injection Hi as <-; done | done].
Qed.

(** C29: Every pattern, with any flags, compiles to a program or to one of
    the error codes of regex.h; the parser terminates. In a program all jump
    targets, sets, capture slots and loop counters exist, the parser has read
    the pattern to its end, and the code fills the buffer that was allocated
    for the size computed in advance exactly, within the limit. *)
Theorem regcomp_spec pat flags :
  match regcomp pat flags with
  | inl p => prog_ok p ∧ ∃ x ps, parse pat flags = inl (x, ps) ∧ pos ps = length pat ∧ Z.of_nat (length (p_code p)) = size_of x + 3
  | inr e => REG_BADPAT <= e <= REG_BADRPT
  end.
Proof.
  unfold regcomp. pose proof (parse_tree pat flags) as H. destruct (parse pat flags) as [[x ps]|e] eqn:E; [|done]. destruct H as ([Hw Hf] & Hp & Hn).
  destruct (Z.ltb_spec MAX_INST (size_of x + 3)) as [Hbig|Hfit]; [done|]. pose proof (assemble_length x Hw Hfit) as Hl. pose proof (csize_nonneg x Hw).
  split; [|by exists x, ps]. split_and!; cbn [p_code]; [lia | |by apply assemble_in]. rewrite assemble_eq by done. cbn. lia.
Qed.

(** An interval after the anchor of a basic expression: the two bytes that
    the parser gives back are the end of the interval and not the operator,
    so the pattern is read as the anchor, a brace and the rest. *)
Lemma caret_interval :
  match parse (lit "^\{2\}a") 0 with
  | inl (x, _) => x = N_CAT (N_CAT (N_ASSERT A_BOL) (N_CHAR 125)) (N_CHAR 97)
  | inr _ => False
  end.
Proof. vm_compute. reflexivity. Qed.
