(* ===== verification/Regexec.v ===== *)
(** * Regular expressions: matching (src/src/regex.c)

    The Pike machine and the backtracking search on compiled programs. The
    text is a list of bytes; [beg] and [end_] bound the part that is matched.
    Captures are lists of offsets, -1 where unset; the mark array of the
    Pike machine is a list indexed by pc. *)
From S2P Require Import Prelude Lit Wctype Regcomp.

Definition REG_NOTBOL : Z := 1.
Definition REG_NOTEOL : Z := 2.
Definition REG_STARTEND : Z := 4.
Definition BT_BUDGET : Z := 20000000.

Record vm := Vm {
  v_prog : prog; v_s : list Z; v_beg : nat; v_end : nat;
  v_eflags : Z; v_icase : bool; v_newline : bool; v_ncap : nat;
}.

(** ** Characters of the text *)

Definition is_word (c : Z) : bool := (0 <=? c) && (c <? BAD) && ((c =? 95) || iswalnum (u32 c)).

Definition char_at (v : vm) (pos : nat) : Z * nat :=
  if (v_end v <=? pos)%nat then (-1, 0%nat) else dec (take (v_end v - pos) (drop pos (v_s v))).

(** while (q > beg && pos - q < 4 && continuation byte at q) q--; *)
Fixpoint back (v : vm) (pos q : nat) (fuel : nat) : nat :=
  match fuel with
  | O => q
  | S fuel =>
      if (v_beg v <? q)%nat && (pos - q <? 4)%nat && (Z.land (nth q (v_s v) 0) 0xc0 =? 0x80) then back v pos (q - 1) fuel else q
  end.

Definition char_before (v : vm) (pos : nat) : Z :=
  if (pos <=? v_beg v)%nat then -1 else
  let q := back v pos (pos - 1) 4 in
  let '(c, n) := dec (take (pos - q) (drop q (v_s v))) in
  if (q + n =? pos)%nat then c else (dec (take 1 (drop (pos - 1) (v_s v)))).1.

Definition assert_ok (v : vm) (kind : Z) (pos : nat) (prev next : Z) : bool :=
  if kind =? akind_num A_BOL then ((pos =? v_beg v)%nat && negb (has (v_eflags v) REG_NOTBOL)) || (v_newline v && (prev =? 10))
  else if kind =? akind_num A_EOL then ((pos =? v_end v)%nat && negb (has (v_eflags v) REG_NOTEOL)) || (v_newline v && (next =? 10))
  else if kind =? akind_num A_WORDB then negb (eqb (is_word prev) (is_word next))
  else if kind =? akind_num A_NWORDB then eqb (is_word prev) (is_word next)
  else if kind =? akind_num A_WBEG then negb (is_word prev) && is_word next
  else if kind =? akind_num A_WEND then is_word prev && negb (is_word next)
  else if kind =? akind_num A_BUFBEG then (pos =? v_beg v)%nat
  else (pos =? v_end v)%nat.

Definition no_inst : inst := Inst I_MATCH 0 0 0.
Definition inst_at (v : vm) (pc : nat) : inst := nth pc (p_code (v_prog v)) no_inst.

Definition char_ok (v : vm) (i : inst) (c : Z) : bool :=
  if c <? 0 then false else
  match op i with
  | I_CHAR => (ix i =? c) || (v_icase v && (c <? BAD) && (ix i =? towlower (u32 c)))
  | I_ANY => (c <? BAD) && negb (v_newline v && (c =? 10))
  | _ =>
      let s := nth (Z.to_nat (ix i)) (p_sets (v_prog v)) empty_set in
      if BAD <=? c then false else
      if neg s && v_newline v && (c =? 10) then false else
      let r := in_set_raw s c in
      let r := if negb r && v_icase v then in_set_raw s (towlower (u32 c)) || in_set_raw s (towupper (u32 c)) else r in
      negb (eqb r (neg s))
  end.

(** ** The Pike machine *)

(** A frame of the stack of add_thread: a pc to visit, or a capture to put
    back. *)
Inductive frame := FPc (pc : nat) | FCap (slot : nat) (old : Z).

Definition thread : Type := nat * list Z.

(** The loop of add_thread. Every pop of an unmarked pc marks it, so twice
    the length of the code and one more pops are enough. *)
Fixpoint add_loop (v : vm) (gen : Z) (pos : nat) (prev next : Z) (fuel : nat)
    (st : list frame) (mark work : list Z) (l : list thread) : list Z * list thread :=
  match fuel, st with
  | S fuel, FCap slot old :: st => add_loop v gen pos prev next fuel st mark (<[slot := old]> work) l
  | S fuel, FPc pc :: st =>
      if nth pc mark 0 =? gen then add_loop v gen pos prev next fuel st mark work l else
      let mark := <[pc := gen]> mark in
      let i := inst_at v pc in
      let x := Z.to_nat (ix i) in
      let visit st work l := add_loop v gen pos prev next fuel st mark work l in
      match op i with
      | I_JMP => visit (FPc x :: st) work l
      | I_SPLIT | I_CHECK => visit (FPc x :: FPc (Z.to_nat (iy i)) :: st) work l
      | I_SAVE =>
          if (x <? v_ncap v)%nat
          then visit (FPc (S pc) :: FCap x (nth x work 0) :: st) (<[x := Z.of_nat pos]> work) l
          else visit (FPc (S pc) :: st) work l
      | I_ASSERT => visit (if assert_ok v (ix i) pos prev next then FPc (S pc) :: st else st) work l
      | I_ENTER => visit (FPc (S pc) :: st) work l
      | _ => visit st work (l ++ [(pc, work)])
      end
  | _, _ => (mark, l)
  end.

Definition add_thread (v : vm) (gen : Z) (mark : list Z) (l : list thread) (pc0 : nat) (caps : list Z) (pos : nat) (prev next : Z) :
    list Z * list thread :=
  add_loop v gen pos prev next (2 * length (p_code (v_prog v)) + 2) [FPc pc0] mark caps l.

(** What pike_run keeps while it advances over one character. *)
Record sweep := Sweep { s_mark : list Z; s_next : list thread; s_matched : bool; s_best : list Z }.

Definition cap (i : nat) (caps : list Z) : Z := nth i caps (-1).

(** The body of the loop over the current threads: [c] is the character at
    [pos], of length [clen], [nc] the one after it. *)
Definition run_thread (v : vm) (gen : Z) (c : Z) (clen npos : nat) (nc : Z) (w : sweep) (t : thread) : sweep :=
  let '(pc, tc) := t in
  let best := s_best w in
  if s_matched w && (cap 0 best <? cap 0 tc) then w else
  let i := inst_at v pc in
  match op i with
  | I_MATCH =>
      if negb (s_matched w) || (cap 0 tc <? cap 0 best) || ((cap 0 tc =? cap 0 best) && (cap 1 best <? cap 1 tc))
      then Sweep (s_mark w) (s_next w) true (take (v_ncap v) tc ++ drop (v_ncap v) best)
      else w
  | _ =>
      if negb (clen =? 0)%nat && char_ok v i c then
        let '(mark, nl) := add_thread v gen (s_mark w) (s_next w) (S pc) tc npos c nc in
        Sweep mark nl (s_matched w) best
      else w
  end.

Fixpoint pike_loop (v : vm) (seed : list Z) (fuel : nat) (pos : nat) (prev c : Z) (clen : nat)
    (gen : Z) (mark : list Z) (cl : list thread) (matched : bool) (best : list Z) : bool * list Z :=
  match fuel with
  | O => (matched, best)
  | S fuel =>
      let gen := u32 (gen + 1) in
      let mark := foldl (λ m (t : thread), <[t.1 := gen]> m) mark cl in
      let '(mark, cl) := if matched then (mark, cl) else add_thread v gen mark cl 0 seed pos prev c in
      if match cl with [] => matched | _ => false end then (matched, best) else
      let npos := (pos + clen)%nat in
      let '(nc, nlen) := if (clen =? 0)%nat then (-1, 0%nat) else char_at v npos in
      let gen := u32 (gen + 1) in
      let w := foldl (run_thread v gen c clen npos nc) (Sweep mark [] matched best) cl in
      if (clen =? 0)%nat then (s_matched w, s_best w) else
      pike_loop v seed fuel npos c nc (if nc <? 0 then 0%nat else nlen) gen (s_mark w) (s_next w) (s_matched w) (s_best w)
  end.

(** Whether there is a match, and the captures. *)
Definition pike_run (v : vm) (best : list Z) : bool * list Z :=
  let pos := v_beg v in
  let '(c, clen) := char_at v pos in
  pike_loop v (replicate (v_ncap v) (-1)) (S (S (v_end v - v_beg v))) pos (char_before v pos) c clen
    0 (replicate (length (p_code (v_prog v))) 0) [] false best.

(** ** Backtracking, for back-references *)

Inductive bframe := BBranch (pc : nat) (pos : nat) | BCap (slot : nat) (old : Z) | BLoop (id : nat) (old : Z).

Record bt := Bt { b_st : list bframe; b_cap : list Z; b_loops : list Z; b_steps : Z; b_found : bool; b_best : list Z }.

(** The comparison of I_BREF: the position after the repeated text. *)
Fixpoint bref_match (v : vm) (fuel : nat) (q e pos : nat) : option nat :=
  match fuel with
  | O => None
  | S fuel =>
      if (q <? e)%nat then
        let '(c1, l1) := dec (take (e - q) (drop q (v_s v))) in
        let '(c2, l2) := char_at v pos in
        if (c2 <? 0) || (negb (c1 =? c2) && negb (v_icase v && (c1 <? BAD) && (c2 <? BAD) && (towlower (u32 c1) =? towlower (u32 c2))))
        then None else bref_match v fuel (q + l1) e (pos + l2)
      else Some pos
  end.

(** One instruction at [pc] and [pos]: the next place of the same attempt,
    or None when the attempt ends, and the stack and the captures after. *)
Definition bt_step (v : vm) (pc pos : nat) (b : bt) : option (nat * nat) * bt :=
  let i := inst_at v pc in
  let x := Z.to_nat (ix i) in let y := Z.to_nat (iy i) in let z := Z.to_nat (iz i) in
  let push fs caps loops := Bt (fs ++ b_st b) caps loops (b_steps b) (b_found b) (b_best b) in
  match op i with
  | I_CHAR | I_ANY | I_SET =>
      let '(c, len) := char_at v pos in
      if char_ok v i c then (Some (S pc, pos + len)%nat, b) else (None, b)
  | I_ASSERT => if assert_ok v (ix i) pos (char_before v pos) (char_at v pos).1 then (Some (S pc, pos), b) else (None, b)
  | I_SPLIT => (Some (x, pos), push [BBranch y pos] (b_cap b) (b_loops b))
  | I_JMP => (Some (x, pos), b)
  | I_SAVE => (Some (S pc, pos), push [BCap x (cap x (b_cap b))] (<[x := Z.of_nat pos]> (b_cap b)) (b_loops b))
  | I_ENTER => (Some (S pc, pos), push [BLoop x (cap x (b_loops b))] (b_cap b) (<[x := Z.of_nat pos]> (b_loops b)))
  | I_CHECK =>
      if cap z (b_loops b) =? Z.of_nat pos then (Some (y, pos), b)
      else (Some (x, pos), push [BLoop z (cap z (b_loops b)); BBranch y pos] (b_cap b) (<[z := Z.of_nat pos]> (b_loops b)))
  | I_BREF =>
      let so := cap (2 * x) (b_cap b) in let eo := cap (2 * x + 1) (b_cap b) in
      if (so <? 0) || (eo <? 0) then (None, b) else
      match bref_match v (S (Z.to_nat eo - Z.to_nat so)) (Z.to_nat so) (Z.to_nat eo) pos with
      | Some pos => (Some (S pc, pos), b)
      | None => (None, b)
      end
  | I_MATCH =>
      (None, if negb (b_found b) || (cap 1 (b_best b) <? cap 1 (b_cap b))
             then Bt (b_st b) (b_cap b) (b_loops b) (b_steps b) true (b_cap b) else b)
  end.

(** The loop of one starting position: [at_] is the place of the current
    attempt. None: the budget is spent. *)
Fixpoint bt_loop (v : vm) (budget : Z) (fuel : nat) (at_ : option (nat * nat)) (b : bt) : option bt :=
  match fuel with
  | O => None
  | S fuel =>
      match at_ with
      | Some (pc, pos) =>
          let b := Bt (b_st b) (b_cap b) (b_loops b) (b_steps b + 1) (b_found b) (b_best b) in
          if (budget <? b_steps b) || (2 ^ 26 <=? length (b_st b) + 2) then None else
          let '(at_, b) := bt_step v pc pos b in bt_loop v budget fuel at_ b
      | None =>
          match b_st b with
          | [] => Some b
          | BBranch pc pos :: st => bt_loop v budget fuel (Some (pc, pos)) (Bt st (b_cap b) (b_loops b) (b_steps b) (b_found b) (b_best b))
          | BCap slot old :: st => bt_loop v budget fuel None (Bt st (<[slot := old]> (b_cap b)) (b_loops b) (b_steps b) (b_found b) (b_best b))
          | BLoop id old :: st => bt_loop v budget fuel None (Bt st (b_cap b) (<[id := old]> (b_loops b)) (b_steps b) (b_found b) (b_best b))
          end
      end
  end.

(** 0 with the captures, REG_NOMATCH or REG_ESPACE. *)
Fixpoint bt_starts (v : vm) (budget : Z) (fuel start : nat) (steps : Z) (best : list Z) : Z * list Z :=
  match fuel with
  | O => (REG_NOMATCH, best)
  | S fuel =>
      if (v_end v <? start)%nat then (REG_NOMATCH, best) else
      let ncap := (2 * (Z.to_nat (p_nsub (v_prog v)) + 1))%nat in
      let b := Bt [] (replicate ncap (-1)) (replicate (Z.to_nat (p_nloops (v_prog v))) (-1)) steps false best in
      match bt_loop v budget (Z.to_nat (4 * budget + 4)) (Some (0%nat, start)) b with
      | None => (REG_ESPACE, best)
      | Some b =>
          if b_found b then (0, b_best b)
          else if (start =? v_end v)%nat then (REG_NOMATCH, best)
          else bt_starts v budget fuel (start + (char_at v start).2) (b_steps b) (b_best b)
      end
  end.

Definition bt_run (v : vm) (budget : Z) (best : list Z) : Z * list Z :=
  bt_starts v budget (S (S (v_end v - v_beg v))) (v_beg v) 0 best.

(** ** regexec *)

(** The result and pm[0 .. nmatch - 1]; [pm0] is pm[0] on entry, read with
    REG_STARTEND. *)
Definition regexec_with (budget : Z) (p : prog) (str : list Z) (nmatch : nat) (pm0 : Z * Z) (eflags : Z) : Z * list (Z * Z) :=
  let '(bad, beg, end_) :=
    if has eflags REG_STARTEND then ((pm0.1 <? 0) || (pm0.2 <? pm0.1), Z.to_nat pm0.1, Z.to_nat pm0.2)
    else (false, 0%nat, length str) in
  if bad : bool then (REG_BADPAT, []) else
  let nmatch := if has (p_flags p) REG_NOSUB then 0%nat else nmatch in
  let ncap := (2 * (Z.to_nat (p_nsub p) + 1))%nat in
  let v := Vm p str beg end_ eflags (has (p_flags p) REG_ICASE) (has (p_flags p) REG_NEWLINE)
              (if p_backrefs p then ncap else if (nmatch =? 0)%nat then 2%nat else ncap) in
  let best := replicate ncap (-1) in
  let '(r, best) :=
    if p_backrefs p then bt_run v budget best
    else let '(m, best) := pike_run v best in (if m then 0 else REG_NOMATCH, best) in
  if r =? 0 then
    (0, (λ i, if (2 * i + 1 <? v_ncap v)%nat && (0 <=? cap (2 * i) best) && (0 <=? cap (2 * i + 1) best)
              then (cap (2 * i) best, cap (2 * i + 1) best) else (-1, -1)) <$> seq 0 nmatch)
  else (r, []).

Definition regexec : prog → list Z → nat → Z * Z → Z → Z * list (Z * Z) := regexec_with BT_BUDGET.

(** ** regerror *)

Definition msgs : list (list Z) :=
  [lit "Success"; lit "No match"; lit "Invalid regular expression"; lit "Invalid collation character"; lit "Invalid character class name";
   lit "Trailing backslash"; lit "Invalid back reference"; lit "Unmatched [, [^, [:, [., or [="; lit "Unmatched ( or \("; lit "Unmatched \{";
   lit "Invalid content of \{\}"; lit "Invalid range end"; lit "Memory exhausted"; lit "Invalid preceding regular expression"].

(** The size needed, and the bytes written to the buffer. *)
Definition regerror (e : Z) (size : nat) : Z * list Z :=
  let m := if (0 <=? e) && (e <? length msgs) then nth (Z.to_nat e) msgs [] else lit "Unknown error" in
  let n := S (length m) in
  (Z.of_nat n, if (size =? 0)%nat then [] else take (Nat.min n size - 1) m ++ [0]).
