(* ===== verification/Regmatch.v ===== *)
(** * Regular expressions: what a tree matches, and what its code does

    A place in the text is an offset and the character before it. [matches]
    says between which places a tree matches; [step] is one step of a program
    at a place. The code of a tree leads from its start to its end exactly
    between the places the tree matches. *)
From stdpp Require Import relations.
From S2P Require Import Prelude Wctype Regcomp Regcode Regexec.

Record place := Pl { at_pos : nat; prevc : Z }.

Definition inst_of (x : node) : inst :=
  match x with
  | N_CHAR c => Inst I_CHAR c 0 0
  | N_SET i => Inst I_SET i 0 0
  | _ => Inst I_ANY 0 0 0
  end.

(** No back-references. *)
Fixpoint plain (x : node) : bool :=
  match x with
  | N_CAT a b | N_ALT a b => plain a && plain b
  | N_GROUP a _ | N_REP a _ _ => plain a
  | N_BREF _ => false
  | _ => true
  end.

Section Matches.
Context (v : vm).

(** One character that the instruction accepts. *)
Definition consume (i : inst) (p q : place) : Prop :=
  ∃ c n, char_at v (at_pos p) = (c, n) ∧ n ≠ 0%nat ∧ char_ok v i c = true ∧ q = Pl (at_pos p + n) c.

Definition holds (k : Z) (p : place) : bool := assert_ok v k (at_pos p) (prevc p) (char_at v (at_pos p)).1.

Fixpoint matches (x : node) (p q : place) : Prop :=
  match x with
  | N_EMPTY => p = q
  | N_CHAR _ | N_ANY | N_SET _ => consume (inst_of x) p q
  | N_ASSERT a => p = q ∧ holds (akind_num a) p = true
  | N_CAT a b => ∃ m, matches a p m ∧ matches b m q
  | N_ALT a b => matches a p q ∨ matches b p q
  | N_GROUP a _ => matches a p q
  | N_REP a b c => ∃ k : nat, b <= k ∧ (c < 0 ∨ k <= c) ∧ nsteps (matches a) k p q
  | N_BREF _ => False
  end.

(** ** Steps of a program *)

(** Where the machine goes without reading a character. *)
Definition eps (pc : nat) (p : place) : list nat :=
  let i := inst_at v pc in
  match op i with
  | I_JMP => [Z.to_nat (ix i)]
  | I_SPLIT | I_CHECK => [Z.to_nat (ix i); Z.to_nat (iy i)]
  | I_SAVE | I_ENTER => [S pc]
  | I_ASSERT => if holds (ix i) p then [S pc] else []
  | _ => []
  end.

Definition reads (pc : nat) : bool := match op (inst_at v pc) with I_CHAR | I_ANY | I_SET => true | _ => false end.

Inductive step : nat * place → nat * place → Prop :=
| step_eps pc pc' p : pc' ∈ eps pc p → step (pc, p) (pc', p)
| step_read pc p q : reads pc = true → consume (inst_at v pc) p q → step (pc, p) (S pc, q).

(** The code [D] stands at address [p]. *)
Definition code_at (p : nat) (D : list inst) : Prop := ∀ i d, D !! i = Some d → p_code (v_prog v) !! (p + i)%nat = Some d.

Lemma code_at_app p D E : code_at p (D ++ E) ↔ code_at p D ∧ code_at (p + length D) E.
Proof.
  unfold code_at. split.
  - intros H. split; intros i d Hi.
    + apply H. by apply lookup_app_l_Some.
    + rewrite <- Nat.add_assoc. apply H. by rewrite lookup_app_r, Nat.add_comm, Nat.add_sub by lia.
  - intros [H1 H2] i d Hi. apply lookup_app_Some in Hi as [Hi|[Hl Hi]]; [auto|]. replace (p + i)%nat with (p + length D + (i - length D))%nat by lia. auto.
Qed.

Lemma code_at_cons p i D : code_at p (i :: D) ↔ inst_at v p = i ∧ (p < length (p_code (v_prog v)))%nat ∧ code_at (S p) D.
Proof.
  change (i :: D) with ([i] ++ D). rewrite code_at_app. cbn [length]. rewrite Nat.add_1_r. split.
  - intros [H1 H2]. specialize (H1 0%nat i eq_refl). rewrite Nat.add_0_r in H1. split; [|split; [by apply lookup_lt_Some in H1 | done]].
    unfold inst_at. by apply nth_lookup_Some.
  - intros (H1 & Hl & H2). split; [|done]. intros [|k] d; [|done]. cbn. intros [= <-]. rewrite Nat.add_0_r. unfold inst_at in H1.
    rewrite nth_lookup in H1. destruct (p_code (v_prog v) !! p) eqn:E; [by cbn in H1; subst|]. apply lookup_ge_None in E. lia.
Qed.

(** ** Code that does a relation

    [impl R p e]: the code from [p] to [e] leads from a place to the places
    [R] relates it to, and a run that leaves it goes through [e] at such a
    place. *)
Record impl (R : place → place → Prop) (p e : nat) : Prop := {
  im_le : (p <= e)%nat;
  im_leads : ∀ a b, R a b → rtc step (p, a) (e, b);
  im_exits : ∀ k a q b, nsteps step k (p, a) (q, b) → (q < p ∨ e <= q)%nat →
             ∃ j c, (j <= k)%nat ∧ R a c ∧ nsteps step (k - j) (e, c) (q, b);
}.

Lemma impl_ext R S p e : (∀ a b, R a b ↔ S a b) → impl R p e → impl S p e.
Proof.
  intros H [H1 H2 H3]. split; [done | intros a b HS; by apply H2, H|].
  intros k a q b Hk Hq. destruct (H3 k a q b Hk Hq) as (j & c & ? & ? & ?). exists j, c. split_and!; [done | by apply H | done].
Qed.

Lemma impl_nil p : impl eq p p.
Proof. split; [done | by intros a b ->|]. intros k a q b Hk _. exists 0%nat, a. rewrite Nat.sub_0_r. split_and!; [lia | done | done]. Qed.

Lemma impl_seq R S p m e : impl R p m → impl S m e → impl (λ a b, ∃ c, R a c ∧ S c b) p e.
Proof.
  intros [L1 A1 E1] [L2 A2 E2]. split; [lia | |].
  - intros a b (c & H1 & H2). etrans; [by apply A1 | by apply A2].
  - intros k a q b Hk Hq. destruct (E1 k a q b Hk ltac:(lia)) as (j & c & Hj & HR & Hk'). destruct (E2 _ c q b Hk' ltac:(lia)) as (i & d & Hi & HS & Hk'').
    exists (j + i)%nat, d. split_and!; [lia | by exists c |]. by replace (k - (j + i))%nat with (k - j - i)%nat by lia.
Qed.

Lemma step_eps_inv pc p s : step (pc, p) s → reads pc = false → ∃ pc', s = (pc', p) ∧ pc' ∈ eps pc p.
Proof. intros H. inv H; [by eexists | congruence]. Qed.

(** A run from an instruction to a place outside of it takes a step. *)
Lemma run_first k pc p q b e : nsteps step k (pc, p) (q, b) → (q < pc ∨ e <= q)%nat → (pc < e)%nat → ∃ s, step (pc, p) s ∧ nsteps step (k - 1) s (q, b) ∧ (1 <= k)%nat.
Proof. intros Hk Hq Hlt. inv Hk; [lia|]. eexists. split; [done|]. cbn. rewrite Nat.sub_0_r. split; [done | lia]. Qed.

(** Instructions that go on without reading. *)
Lemma impl_next p : (∀ a, eps p a = [S p]) → reads p = false → impl eq p (S p).
Proof.
  intros He Hr. split; [lia | |].
  - intros a b <-. apply rtc_once. constructor. rewrite He. by left.
  - intros k a q b Hk Hq. destruct (run_first _ _ _ _ _ _ Hk Hq ltac:(lia)) as (s & Hs & Hk' & H1).
    apply step_eps_inv in Hs as (pc & -> & Hpc); [|done]. rewrite He in Hpc. apply list_elem_of_singleton in Hpc as ->. by exists 1%nat, a.
Qed.

Lemma impl_read p : reads p = true → impl (consume (inst_at v p)) p (S p).
Proof.
  intros Hr. split; [lia | |].
  - intros a b H. apply rtc_once. by apply step_read.
  - intros k a q b Hk Hq. destruct (run_first _ _ _ _ _ _ Hk Hq ltac:(lia)) as (s & Hs & Hk' & H1). inv Hs.
    + exfalso. unfold eps, reads in *. destruct (op (inst_at v p)); try done; set_solver.
    + by exists 1%nat, q0.
Qed.

Lemma impl_assert p k : op (inst_at v p) = I_ASSERT → ix (inst_at v p) = k → impl (λ a b, a = b ∧ holds k a = true) p (S p).
Proof.
  intros Ho Hx. assert (∀ a, eps p a = if holds k a then [S p] else []) as He by (intros a; unfold eps; by rewrite Ho, Hx).
  assert (reads p = false) as Hr by (unfold reads; by rewrite Ho). split; [lia | |].
  - intros a b [<- H]. apply rtc_once. constructor. rewrite He, H. by left.
  - intros n a q b Hk Hq. destruct (run_first _ _ _ _ _ _ Hk Hq ltac:(lia)) as (s & Hs & Hk' & H1).
    apply step_eps_inv in Hs as (pc & -> & Hpc); [|done]. rewrite He in Hpc. destruct (holds k a) eqn:E; [|by apply elem_of_nil in Hpc].
    apply list_elem_of_singleton in Hpc as ->. by exists 1%nat, a.
Qed.

(** A branch: [x] and [y] are the targets. *)
Lemma impl_branch R T p x y e :
  (∀ a, eps p a = [x; y]) → reads p = false → (p < e)%nat →
  (∀ a b, R a b → rtc step (x, a) (e, b)) → (∀ a b, T a b → rtc step (y, a) (e, b)) →
  (∀ k a q b, nsteps step k (x, a) (q, b) → (q < p ∨ e <= q)%nat → ∃ j c, (j <= k)%nat ∧ R a c ∧ nsteps step (k - j) (e, c) (q, b)) →
  (∀ k a q b, nsteps step k (y, a) (q, b) → (q < p ∨ e <= q)%nat → ∃ j c, (j <= k)%nat ∧ T a c ∧ nsteps step (k - j) (e, c) (q, b)) →
  impl (λ a b, R a b ∨ T a b) p e.
Proof.
  intros He Hr Hle AR AS ER ES. split; [lia | |].
  - intros a b [H|H]; (eapply rtc_l; [constructor; rewrite He|]); [by left | by apply AR | by right; left | by apply AS].
  - intros k a q b Hk Hq. destruct (run_first _ _ _ _ _ _ Hk Hq Hle) as (s & Hs & Hk' & H1).
    apply step_eps_inv in Hs as (pc & -> & Hpc); [|done]. rewrite He in Hpc.
    apply elem_of_cons in Hpc as [->|Hpc]; [|apply list_elem_of_singleton in Hpc as ->].
    + destruct (ER _ _ _ _ Hk' Hq) as (j & c & Hj & HR & Hn). exists (S j), c. split_and!; [lia | by left|]. by replace (k - S j)%nat with (k - 1 - j)%nat by lia.
    + destruct (ES _ _ _ _ Hk' Hq) as (j & c & Hj & HR & Hn). exists (S j), c. split_and!; [lia | by right|]. by replace (k - S j)%nat with (k - 1 - j)%nat by lia.
Qed.

(** Alternatives: a split, the first part, a jump over the second one. *)
Lemma impl_alt R T p j e :
  (∀ a, eps p a = [S p; S j]) → reads p = false → (∀ a, eps j a = [e]) → reads j = false →
  impl R (S p) j → impl T (S j) e → impl (λ a b, R a b ∨ T a b) p e.
Proof.
  intros He Hr Hj Hrj [L1 A1 E1] [L2 A2 E2]. apply (impl_branch R T p (S p) (S j) e); try done; try lia.
  - intros a b H. etrans; [by apply A1|]. apply rtc_once. constructor. rewrite Hj. by left.
  - intros k a q b Hk Hq. destruct (E1 k a q b Hk ltac:(lia)) as (i & c & Hi & HR & Hk').
    destruct (run_first _ _ _ _ _ e Hk' ltac:(lia) ltac:(lia)) as (s & Hs & Hk'' & H1).
    apply step_eps_inv in Hs as (pc & -> & Hpc); [|done]. rewrite Hj in Hpc. apply list_elem_of_singleton in Hpc as ->.
    exists (S i), c. split_and!; [lia | done|]. by replace (k - S i)%nat with (k - i - 1)%nat by lia.
  - intros k a q b Hk Hq. apply (E2 k a q b Hk). lia.
Qed.

(** A loop closed by a check that goes back to the body. *)
Lemma impl_loop R s j :
  (∀ a, eps j a = [s; S j]) → reads j = false → impl R s j → impl (λ a b, ∃ k, nsteps R (S k) a b) s (S j).
Proof.
  intros He Hr [L A E]. split; [lia | |].
  - intros a b [k Hk]. revert a Hk. induction k as [|k IH]; intros a Hk.
    + inv Hk. match goal with H : nsteps _ 0 _ _ |- _ => inv H end. etrans; [by apply A|]. apply rtc_once. constructor. rewrite He. right. by left.
    + inv Hk. etrans; [by apply A|]. eapply rtc_l; [constructor; rewrite He; by left|]. by apply IH.
  - intros k. induction k as [k IH] using lt_wf_ind. intros a q b Hk Hq. destruct (E k a q b Hk ltac:(lia)) as (i & c & Hi & HR & Hk').
    destruct (run_first _ _ _ _ _ (S j) Hk' ltac:(lia) ltac:(lia)) as (t & Ht & Hk'' & H1).
    apply step_eps_inv in Ht as (pc & -> & Hpc); [|done]. rewrite He in Hpc. apply elem_of_cons in Hpc as [->|Hpc]; [|apply list_elem_of_singleton in Hpc as ->].
    + destruct (IH (k - i - 1)%nat ltac:(lia) c q b Hk'' Hq) as (i' & d & Hi' & [n Hn] & Hk3). exists (i + 1 + i')%nat, d. split_and!; [lia | |].
      * exists (S n). by eapply nsteps_l.
      * by replace (k - (i + 1 + i'))%nat with (k - i - 1 - i')%nat by lia.
    + exists (i + 1)%nat, c. split_and!; [lia | exists 0%nat; by apply nsteps_once|]. by replace (k - (i + 1))%nat with (k - i - 1)%nat by lia.
Qed.

(** A branch around code. *)
Lemma impl_opt R p e : (∀ a, eps p a = [S p; e]) → reads p = false → impl R (S p) e → impl (λ a b, R a b ∨ a = b) p e.
Proof.
  intros He Hr [L A E]. apply (impl_branch R eq p (S p) e e); try done; try lia.
  - by intros a b ->.
  - intros k a q b Hk Hq. apply (E k a q b Hk). lia.
  - intros k a q b Hk _. exists 0%nat, a. rewrite Nat.sub_0_r. split_and!; [lia | done | done].
Qed.

(** Copies one after the other, and copies that may be left out. *)
Lemma impl_copies R (f : Z → Z → list inst) (sz nl : Z) (k p : nat) (l : Z) :
  (∀ p l, Z.of_nat (length (f p l)) = sz) → (∀ (p : nat) l, code_at p (f (Z.of_nat p) l) → impl R p (p + Z.to_nat sz)) →
  code_at p (rep_code f sz nl k (Z.of_nat p) l) → impl (nsteps R k) p (p + k * Z.to_nat sz).
Proof.
  intros Hlen Hf. assert (0 <= sz) as Hsz by (rewrite <- (Hlen 0 0); lia). revert p l. induction k as [|k IH]; intros p l Hc.
  - rewrite Nat.mul_0_l, Nat.add_0_r. apply (impl_ext eq); [|apply impl_nil]. intros a b. split; [intros ->; constructor | by inversion 1].
  - cbn [rep_code] in Hc. apply code_at_app in Hc as [H1 H2]. pose proof (Hlen p l) as Hl.
    replace (p + length (f p l))%nat with (p + Z.to_nat sz)%nat in H2 by lia. replace (p + sz) with (Z.of_nat (p + Z.to_nat sz)) in H2 by lia.
    specialize (IH _ _ H2). specialize (Hf _ _ H1). replace (p + S k * Z.to_nat sz)%nat with (p + Z.to_nat sz + k * Z.to_nat sz)%nat by lia.
    refine (impl_ext _ _ _ _ _ (impl_seq _ _ _ _ _ Hf IH)). intros a b. split; [intros (c & ? & ?); by eapply nsteps_l | inversion 1; naive_solver].
Qed.

Lemma impl_opts R (f : Z → Z → list inst) (sz nl : Z) (k p : nat) (l : Z) :
  (∀ p l, Z.of_nat (length (f p l)) = sz) → (∀ (p : nat) l, code_at p (f (Z.of_nat p) l) → impl R p (p + Z.to_nat sz)) →
  code_at p (opt_code f sz nl k (Z.of_nat p) l (Z.of_nat (p + k * (Z.to_nat sz + 1)))) →
  impl (λ a b, ∃ j, (j <= k)%nat ∧ nsteps R j a b) p (p + k * (Z.to_nat sz + 1)).
Proof.
  intros Hlen Hf. assert (0 <= sz) as Hsz by (rewrite <- (Hlen 0 0); lia). revert p l. induction k as [|k IH]; intros p l Hc.
  - rewrite Nat.mul_0_l, Nat.add_0_r. apply (impl_ext eq); [|apply impl_nil]. intros a b.
    split; [intros ->; exists 0%nat; split; [done | constructor] | intros (j & Hj & Hn); assert (j = 0%nat) as -> by lia; by inversion Hn].
  - cbn [opt_code] in Hc. apply code_at_cons in Hc as (Hi & _ & Hc). apply code_at_app in Hc as [H1 H2].
    replace (p + 1) with (Z.of_nat (S p)) in H1, H2 by lia. pose proof (Hlen (S p) l) as Hl.
    replace (S p + length (f (S p) l))%nat with (S p + Z.to_nat sz)%nat in H2 by lia. replace (S p + sz) with (Z.of_nat (S p + Z.to_nat sz)) in H2 by lia.
    replace (p + S k * (Z.to_nat sz + 1))%nat with (S p + Z.to_nat sz + k * (Z.to_nat sz + 1))%nat in * by lia.
    specialize (IH _ _ H2). specialize (Hf _ _ H1). pose proof (impl_seq _ _ _ _ _ Hf IH) as Hs.
    apply (impl_opt _ p) in Hs.
    + refine (impl_ext _ _ _ _ _ Hs). intros a b. split.
      * intros [(c & Hc & j & Hj & Hn)|<-]; [exists (S j); split; [lia | by eapply nsteps_l] | exists 0%nat; split; [lia | constructor]].
      * intros (j & Hj & Hn). inv Hn; [by right | left]. eexists. split; [done|]. eexists. split; [|done]. lia.
    + intros a. unfold eps. rewrite Hi. cbn [op ix iy]. f_equal; [lia|]. f_equal. lia.
    + unfold reads. by rewrite Hi.
Qed.

(** ** The code of a tree does what the tree matches *)

Lemma impl_leaf x i p : inst_at v p = i → reads p = true → (∀ a b, matches x a b ↔ consume i a b) → impl (matches x) p (S p).
Proof. intros Hi Hr Hm. refine (impl_ext _ _ _ _ _ (impl_read p Hr)). intros a b. by rewrite Hi, Hm. Qed.

Lemma reps_at_least (R : place → place → Prop) (b : Z) (k : nat) a c :
  (k = Z.to_nat (b - 1))%nat → 1 <= b →
  (∃ m, nsteps R k a m ∧ ∃ n, nsteps R (S n) m c) ↔ ∃ j : nat, b <= j ∧ nsteps R j a c.
Proof.
  intros Hk Hb. split.
  - intros (m & H1 & n & H2). exists (k + S n)%nat. split; [lia | by eapply nsteps_trans].
  - intros (j & Hj & Hn). replace j with (k + S (j - k - 1))%nat in Hn by lia. apply nsteps_add_inv in Hn as (m & H1 & H2). eauto.
Qed.

(** The loop of an unbounded repetition, from its ENTER on. *)
Lemma impl_star R (f : Z → Z → list inst) sz (p : nat) id l :
  (∀ p l, Z.of_nat (length (f p l)) = sz) → (∀ (p : nat) l, code_at p (f (Z.of_nat p) l) → impl R p (p + Z.to_nat sz)) →
  code_at p (Inst I_ENTER id 0 0 :: [Inst I_SPLIT (p + 2) (p + 2 + sz + 1) 0] ++ f (p + 2) l ++ [Inst I_CHECK (p + 2) (p + 2 + sz + 1) id]) →
  impl (λ a b, ∃ k, nsteps R k a b) p (p + Z.to_nat (sz + 3)).
Proof.
  intros Hlen Hf Hc. assert (0 <= sz) as Hsz by (rewrite <- (Hlen 0 0); lia). apply code_at_cons in Hc as (H1 & _ & Hc). cbn [app] in Hc.
  apply code_at_cons in Hc as (H2 & _ & Hc). apply code_at_app in Hc as [H3 H4]. pose proof (Hlen (p + 2) l) as Hl. apply code_at_cons in H4 as (H4 & _ & _).
  set (j := (S (S p) + Z.to_nat sz)%nat). replace (S (S p) + length (f (p + 2)%Z l))%nat with j in H4 by (unfold j; lia).
  replace (p + 2) with (Z.of_nat (S (S p))) in H3 by lia. specialize (Hf _ _ H3). fold j in Hf.
  pose proof (impl_loop R (S (S p)) j) as HL. assert (impl eq p (S p)) as HE.
  { apply impl_next; [intros a; unfold eps; by rewrite H1 | unfold reads; by rewrite H1]. }
  assert (impl (λ a b, ∃ k, nsteps R (S k) a b) (S (S p)) (S j)) as HL'.
  { apply HL; [|unfold reads; by rewrite H4 | done]. intros a. unfold eps. rewrite H4. cbn [op ix iy]. f_equal; [lia|]. f_equal. unfold j. lia. }
  apply (impl_opt _ (S p)) in HL'; [|intros a; unfold eps; rewrite H2; cbn [op ix iy]; f_equal; [lia|]; f_equal; unfold j; lia | unfold reads; by rewrite H2].
  replace (p + Z.to_nat (sz + 3))%nat with (S j) by (unfold j; lia). refine (impl_ext _ _ _ _ _ (impl_seq _ _ _ _ _ HE HL')).
  intros a b. split.
  - intros (c & -> & [[k Hk]|<-]); [by exists (S k) | exists 0%nat; constructor].
  - intros [k Hk]. exists a. split; [done|]. destruct k; [right; by inversion Hk | left; by exists k].
Qed.

Lemma impl_plus R (f : Z → Z → list inst) sz (p : nat) id l :
  (∀ p l, Z.of_nat (length (f p l)) = sz) → (∀ (p : nat) l, code_at p (f (Z.of_nat p) l) → impl R p (p + Z.to_nat sz)) →
  code_at p (Inst I_ENTER id 0 0 :: f (p + 1) l ++ [Inst I_CHECK (p + 1) (p + 1 + sz + 1) id]) →
  impl (λ a b, ∃ k, nsteps R (S k) a b) p (p + Z.to_nat (sz + 2)).
Proof.
  intros Hlen Hf Hc. assert (0 <= sz) as Hsz by (rewrite <- (Hlen 0 0); lia). apply code_at_cons in Hc as (H1 & _ & Hc).
  apply code_at_app in Hc as [H3 H4]. pose proof (Hlen (p + 1) l) as Hl. apply code_at_cons in H4 as (H4 & _ & _).
  set (j := (S p + Z.to_nat sz)%nat). replace (S p + length (f (p + 1)%Z l))%nat with j in H4 by (unfold j; lia).
  replace (p + 1) with (Z.of_nat (S p)) in H3 by lia. specialize (Hf _ _ H3). fold j in Hf.
  assert (impl eq p (S p)) as HE by (apply impl_next; [intros a; unfold eps; by rewrite H1 | unfold reads; by rewrite H1]).
  assert (impl (λ a b, ∃ k, nsteps R (S k) a b) (S p) (S j)) as HL'.
  { apply impl_loop; [|unfold reads; by rewrite H4 | done]. intros a. unfold eps. rewrite H4. cbn [op ix iy]. f_equal; [lia|]. f_equal. unfold j. lia. }
  replace (p + Z.to_nat (sz + 2))%nat with (S j) by (unfold j; lia). refine (impl_ext _ _ _ _ _ (impl_seq _ _ _ _ _ HE HL')).
  intros a b. split; [intros (c & -> & H); done | intros H; by exists a].
Qed.

Lemma impl_rep a b c :
  wf a → 0 <= b → (c < 0 ∨ b <= c) → (∀ (p : nat) l, code_at p (compile a (Z.of_nat p) l) → impl (matches a) p (p + Z.to_nat (csize a))) →
  ∀ (p : nat) l, code_at p (compile (N_REP a b c) (Z.of_nat p) l) → impl (matches (N_REP a b c)) p (p + Z.to_nat (csize (N_REP a b c))).
Proof.
  intros Wa Hb Hc IH p l Hcode. pose proof (csize_nonneg a Wa) as Hn. assert (∀ p l, Z.of_nat (length (compile a p l)) = csize a) as Hlen by (intros; by apply compile_length).
  cbn [compile csize] in *. cbv zeta in *. destruct (Z.ltb_spec c 0) as [Hneg|Hpos].
  - destruct (Z.eqb_spec b 0) as [->|Hb0].
    + change (Z.to_nat (0 - 1)) with 0%nat in Hcode. cbn [rep_code app Z.of_nat] in Hcode. rewrite !Z.mul_0_l, !Z.add_0_r in Hcode.
      refine (impl_ext _ _ _ _ _ (impl_star _ _ _ _ _ _ Hlen IH Hcode)). intros x y. cbn [matches]. split; [intros [k Hk]; exists k; split_and!; [lia | by left | done] | intros (k & _ & _ & Hk); by exists k].
    + apply code_at_app in Hcode as [H1 H2]. set (k := Z.to_nat (b - 1)) in *. pose proof (rep_code_length (compile a) (csize a) (loops_of a) k p l Hlen) as LR.
      set (q := (p + k * Z.to_nat (csize a))%nat). replace (p + length (rep_code (compile a) (csize a) (loops_of a) k p l))%nat with q in H2 by (unfold q; lia).
      replace (p + k * csize a + 1) with (q + 1) in H2 by (unfold q; lia). cbn [app] in H2.
      pose proof (impl_copies _ _ _ _ _ _ _ Hlen IH H1) as I1. fold q in I1. pose proof (impl_plus _ _ _ _ _ _ Hlen IH H2) as I2.
      replace (p + Z.to_nat (b * csize a + 2))%nat with (q + Z.to_nat (csize a + 2))%nat by (unfold q, k; nia).
      refine (impl_ext _ _ _ _ _ (impl_seq _ _ _ _ _ I1 I2)). intros x y. cbn [matches]. rewrite (reps_at_least _ b) by (done || lia).
      split; [intros (j & Hj & Hs); exists j; split_and!; [lia | by left | done] | intros (j & Hj & _ & Hs); by exists j].
  - destruct Hc as [?|Hbc]; [lia|]. apply code_at_app in Hcode as [H1 H2]. set (k := Z.to_nat b) in *. set (m := Z.to_nat (c - b)) in *.
    pose proof (rep_code_length (compile a) (csize a) (loops_of a) k p l Hlen) as LR.
    set (q := (p + k * Z.to_nat (csize a))%nat). replace (p + length (rep_code (compile a) (csize a) (loops_of a) k p l))%nat with q in H2 by (unfold q; lia).
    replace (p + k * csize a) with (Z.of_nat q) in H2 by (unfold q; lia).
    replace (Z.of_nat q + m * (csize a + 1)) with (Z.of_nat (q + m * (Z.to_nat (csize a) + 1))) in H2 by lia.
    pose proof (impl_copies _ _ _ _ _ _ _ Hlen IH H1) as I1. fold q in I1. pose proof (impl_opts _ _ _ _ _ _ _ Hlen IH H2) as I2.
    replace (p + Z.to_nat (b * csize a + (c - b) * (csize a + 1)))%nat with (q + m * (Z.to_nat (csize a) + 1))%nat by (unfold q, k, m; nia).
    refine (impl_ext _ _ _ _ _ (impl_seq _ _ _ _ _ I1 I2)). intros x y. cbn [matches]. split.
    + intros (z & Hk & j & Hj & Hs). exists (k + j)%nat. split_and!; [lia | right; lia | by eapply nsteps_trans].
    + intros (j & Hj & [?|Hj'] & Hs); [lia|]. replace j with (k + (j - k))%nat in Hs by lia. apply nsteps_add_inv in Hs as (z & Hz & Hs).
      exists z. split; [done|]. exists (j - k)%nat. split; [lia | done].
Qed.

Lemma compile_impl x : wf x → plain x = true → ∀ (p : nat) l, code_at p (compile x (Z.of_nat p) l) → impl (matches x) p (p + Z.to_nat (csize x)).
Proof.
  induction x as [| | | | |a IHa b IHb|a IHa b IHb|a IHa b c|a IHa n|]; intros Hw Hp p l Hc; cbn [wf plain csize] in *; try done.
  - rewrite Nat.add_0_r. apply impl_nil.
  - apply code_at_cons in Hc as (Hi & _ & _). rewrite Nat.add_1_r. apply (impl_leaf _ _ _ Hi); [unfold reads; by rewrite Hi | done].
  - apply code_at_cons in Hc as (Hi & _ & _). rewrite Nat.add_1_r. apply (impl_leaf _ _ _ Hi); [unfold reads; by rewrite Hi | done].
  - apply code_at_cons in Hc as (Hi & _ & _). rewrite Nat.add_1_r. apply (impl_leaf _ _ _ Hi); [unfold reads; by rewrite Hi | done].
  - apply code_at_cons in Hc as (Hi & _ & _). rewrite Nat.add_1_r. apply impl_assert; by rewrite Hi.
  - destruct Hw as [Wa Wb]. apply andb_true_iff in Hp as [Pa Pb]. cbn [compile] in Hc. apply code_at_app in Hc as [H1 H2].
    pose proof (csize_nonneg a Wa). pose proof (csize_nonneg b Wb). pose proof (compile_length a p l Wa).
    replace (p + csize a) with (Z.of_nat (p + length (compile a p l))) in H2 by lia. specialize (IHa Wa Pa _ _ H1). specialize (IHb Wb Pb _ _ H2).
    replace (p + length (compile a p l))%nat with (p + Z.to_nat (csize a))%nat in IHb by lia.
    replace (p + Z.to_nat (csize a + csize b))%nat with (p + Z.to_nat (csize a) + Z.to_nat (csize b))%nat by lia. by apply (impl_seq _ _ _ _ _ IHa IHb).
  - destruct Hw as [Wa Wb]. apply andb_true_iff in Hp as [Pa Pb]. cbn [compile] in Hc. apply code_at_cons in Hc as (Hi & _ & Hc).
    pose proof (csize_nonneg a Wa). pose proof (csize_nonneg b Wb). pose proof (compile_length a (p + 1) l Wa) as La.
    apply code_at_app in Hc as [H1 Hc]. apply code_at_cons in Hc as (Hj & _ & H2).
    set (j := (S p + Z.to_nat (csize a))%nat). replace (S p + length (compile a (p + 1) l))%nat with j in * by (unfold j; lia).
    replace (p + 1) with (Z.of_nat (S p)) in H1 by lia. replace (p + 1 + csize a + 1) with (Z.of_nat (S j)) in H2 by (unfold j; lia).
    specialize (IHa Wa Pa _ _ H1). specialize (IHb Wb Pb _ _ H2).
    replace (p + Z.to_nat (csize a + csize b + 2))%nat with (S j + Z.to_nat (csize b))%nat by (unfold j; lia).
    apply (impl_alt _ _ p j); try done.
    + intros q. unfold eps. rewrite Hi. cbn [op ix iy]. f_equal; [lia|]. f_equal. unfold j. lia.
    + unfold reads. by rewrite Hi.
    + intros q. unfold eps. rewrite Hj. cbn [op ix]. f_equal. unfold j. lia.
    + unfold reads. by rewrite Hj.
  - destruct Hw as (Wa & Hb & Hcb). by apply (impl_rep a b c Wa Hb Hcb (IHa Wa Hp) p l).
  - destruct Hw as [Hw _]. cbn [compile] in Hc. apply code_at_cons in Hc as (H1 & _ & Hc). apply code_at_app in Hc as [H2 H3]. apply code_at_cons in H3 as (H3 & _ & _).
    pose proof (csize_nonneg a Hw). pose proof (compile_length a (p + 1) l Hw) as Hl. replace (p + 1) with (Z.of_nat (S p)) in H2, H3, Hl by lia.
    set (j := (S p + Z.to_nat (csize a))%nat). replace (S p + length (compile a (S p) l))%nat with j in H3 by (unfold j; lia).
    specialize (IHa Hw Hp _ _ H2). fold j in IHa. replace (p + Z.to_nat (csize a + 2))%nat with (S j) by (unfold j; lia).
    assert (∀ q n, inst_at v q = Inst I_SAVE n 0 0 → impl eq q (S q)) as Hs.
    { intros q m Hq. apply impl_next; [intros x; unfold eps; by rewrite Hq | unfold reads; by rewrite Hq]. }
    refine (impl_ext _ _ _ _ _ (impl_seq _ _ _ _ _ (Hs _ _ H1) (impl_seq _ _ _ _ _ IHa (Hs _ _ H3)))).
    intros x y. cbn [matches]. split; [intros (? & -> & ? & ? & ->); done | intros Hm; exists x; split; [done|]; by exists y].
Qed.
End Matches.
