(* ===== verification/Regpike.v ===== *)
(** * Regular expressions: the Pike machine finds the leftmost longest match

    The program of a tree without back-references, run by pike_run: the
    closure that add_thread computes, the sweep over one character and the
    loop over the text. *)
From stdpp Require Import relations sorting.
From S2P Require Import Prelude Lit Wctype Regcomp Regcode Regtype Regexec Regmatch.

(** ** The shape of the code *)

(** Jumps stay between [lo] and [hi], groups save from slot 2 on, and the
    code of a tree without back-references has no other end. *)
Definition inst_ok (lo hi : Z) (i : inst) : Prop :=
  match op i with
  | I_JMP => lo <= ix i <= hi
  | I_SPLIT | I_CHECK => lo <= ix i <= hi ∧ lo <= iy i <= hi
  | I_SAVE => 2 <= ix i
  | I_MATCH | I_BREF => False
  | _ => True
  end.

Lemma valid_ok ns nsb lo hi l0 l1 i : inst_valid ns nsb false lo hi l0 l1 i → inst_ok lo hi i.
Proof. unfold inst_valid, inst_ok. destruct (op i); try lia; try done. Qed.

Lemma fits_plain ns nsb x : fits ns nsb false x → plain x = true.
Proof. induction x; cbn; try done; try (by intros [_ ?]); intros H; try (apply andb_true_iff); naive_solver. Qed.

(** ** The text *)

Lemma dec_tail_nonneg s a c : 0 <= a → dec_tail s a = Some c → 0 <= c.
Proof.
  revert a. induction s as [|b s IH]; intros a Ha; cbn [dec_tail]; [by intros [= <-]|]. destruct (negb _); [done|]. apply IH.
  apply Z.lor_nonneg. split; [by apply Z.shiftl_nonneg | apply Z.land_nonneg; by right].
Qed.

Lemma dec_nonneg s : Forall is_byte s → 0 <= (dec s).1 ∧ (dec s).2 ≠ 0%nat.
Proof.
  intros Hs. assert (0 <= nth 0 s 0) as Hb by (destruct Hs as [|b s [? ?]]; cbn; lia). unfold dec. cbv zeta. unfold BAD.
  destruct (nth 0 s 0 <? 128); [done|].
  destruct (_ || _ || _) eqn:E; [cbn; lia|]. destruct (dec_tail _ _) as [c|] eqn:Ec; [|cbn; lia].
  apply dec_tail_nonneg in Ec; [|apply Z.land_nonneg; by left]. match goal with |- context [if ?b then (_ + _, 1%nat) else _] => destruct b end; [cbn; lia|]. cbn [fst snd]. split; [done|].
  intros H. rewrite H in E. done.
Qed.

Section Text.
Context (v : vm) (Hbytes : Forall is_byte (v_s v)).

(** A character can be read exactly before the end. *)
Lemma char_at_cases pos :
  (v_end v <= pos)%nat ∧ char_at v pos = (-1, 0%nat) ∨ (pos < v_end v)%nat ∧ ∃ c n, char_at v pos = (c, n) ∧ 0 <= c ∧ n ≠ 0%nat.
Proof using Hbytes.
  unfold char_at. destruct (Nat.leb_spec (v_end v) pos); [by left|]. right. split; [done|].
  destruct (dec_nonneg (take (v_end v - pos) (drop pos (v_s v)))) as [H1 H2]; [by apply Forall_take, Forall_drop|].
  destruct (dec _) as [c n]. by exists c, n.
Qed.

(** The places of the text, from the start on. *)
Definition adv (p q : place) : Prop := ∃ c n, char_at v (at_pos p) = (c, n) ∧ n ≠ 0%nat ∧ q = Pl (at_pos p + n) c.
Definition start : place := Pl (v_beg v) (-1).
Definition reach : place → Prop := rtc adv start.

Lemma adv_lt p q : adv p q → (at_pos p < at_pos q)%nat.
Proof. intros (c & n & _ & Hn & ->). cbn. lia. Qed.

Lemma adv_det p q r : adv p q → adv p r → q = r.
Proof. intros (c & n & H1 & _ & ->) (c' & n' & H2 & _ & ->). congruence. Qed.

Lemma advs_le p q : rtc adv p q → (at_pos p <= at_pos q)%nat.
Proof. induction 1 as [|p q r H _ IH]; [done|]. apply adv_lt in H. lia. Qed.

Lemma advs_eq p q : rtc adv p q → at_pos p = at_pos q → p = q.
Proof. intros H He. inv H; [done|]. match goal with H1 : adv _ _, H2 : rtc _ _ _ |- _ => apply adv_lt in H1; apply advs_le in H2 end. lia. Qed.

Lemma advs_lin p q r : rtc adv p q → rtc adv p r → rtc adv q r ∨ rtc adv r q.
Proof.
  intros H. revert r. induction H as [p|p m q H Hq IH]; intros r Hr; [by left|]. inv Hr; [right; by eapply rtc_l|].
  match goal with H1 : adv p ?y |- _ => assert (y = m) as -> by by eapply adv_det end. auto.
Qed.

Lemma reach_run p q : reach p → rtc adv p q → reach q.
Proof. unfold reach. intros. by etrans. Qed.

Lemma reach_le p q : reach p → reach q → (at_pos p <= at_pos q)%nat → rtc adv p q.
Proof.
  intros Hp Hq Hle. destruct (advs_lin _ _ _ Hp Hq) as [H|H]; [done|]. pose proof (advs_le _ _ H). rewrite (advs_eq _ _ H) by lia. done.
Qed.

Lemma reach_inj p q : reach p → reach q → at_pos p = at_pos q → p = q.
Proof. intros Hp Hq He. apply advs_eq; [|done]. apply reach_le; [done | done | lia]. Qed.

(** Nothing lies between a place and the next one. *)
Lemma reach_next p q r : reach p → adv p q → reach r → (at_pos r < at_pos q)%nat → (at_pos r <= at_pos p)%nat.
Proof.
  intros Hp Ha Hr Hlt. destruct (decide (at_pos r <= at_pos p)%nat) as [|Hn]; [done|]. assert (rtc adv p r) as H by (apply reach_le; [done | done | lia]).
  inv H; [lia|]. match goal with H1 : adv p ?y, H2 : rtc _ _ _ |- _ => assert (y = q) as -> by (by eapply adv_det); apply advs_le in H2 end. lia.
Qed.

Lemma reach_pred p q r : reach p → reach q → adv p r → adv q r → p = q.
Proof.
  intros Hp Hq H1 H2. apply reach_inj; [done | done|]. pose proof (adv_lt _ _ H1). pose proof (adv_lt _ _ H2).
  pose proof (reach_next p r q Hp H1 Hq ltac:(done)). pose proof (reach_next q r p Hq H2 Hp ltac:(done)). lia.
Qed.

(** ** Runs of a program over the places *)

Lemma consume_adv i p q : consume v i p q → adv p q.
Proof. intros (c & n & H & Hn & _ & ->). by exists c, n. Qed.

Lemma run_places s t : rtc (step v) s t → rtc adv s.2 t.2.
Proof.
  induction 1 as [|s m t H _ IH]; [done|]. inv H; cbn [snd] in *; [done|]. eapply rtc_l; [|done]. by eapply consume_adv.
Qed.

(** Steps that stay at a place. *)
Definition estep (p : place) (pc pc' : nat) : Prop := pc' ∈ eps v pc p.

Lemma esteps_run p pc pc' : rtc (estep p) pc pc' → rtc (step v) (pc, p) (pc', p).
Proof. induction 1 as [|pc m pc' H _ IH]; [done|]. eapply rtc_l; [|done]. by constructor. Qed.

Lemma run_stays s t : rtc (step v) s t → at_pos s.2 = at_pos t.2 → s.2 = t.2 ∧ rtc (estep s.2) s.1 t.1.
Proof.
  induction 1 as [|s m t H Hr IH]; [done|]. intros He. apply run_places in Hr. inv H; cbn [fst snd] in *.
  - destruct IH as [-> IH]; [done|]. split; [done|]. by eapply rtc_l.
  - match goal with H : consume _ _ _ _ |- _ => apply consume_adv, adv_lt in H end. apply advs_le in Hr. lia.
Qed.

(** A run that arrives at the place after [p] reads a character there. *)
Lemma run_cross pc0 a pc p q :
  reach a → reach p → adv p q → rtc (step v) (pc0, a) (pc, q) → (at_pos a < at_pos q)%nat →
  ∃ r, reads v r = true ∧ rtc (step v) (pc0, a) (r, p) ∧ consume v (inst_at v r) p q ∧ rtc (estep q) (S r) pc.
Proof.
  intros Ha Hp Hpq Hr Hlt. 
  refine (rtc_ind_r (λ t, ∀ pc, t = (pc, q) → ∃ r, reads v r = true ∧ rtc (step v) (pc0, a) (r, p) ∧ consume v (inst_at v r) p q ∧ rtc (estep q) (S r) pc)
            _ _ _ _ Hr pc eq_refl); clear pc Hr.
  - intros pc [= <- <-]. lia.
  - intros m t Hr H IH pc ->. inv H.
    + destruct (IH _ eq_refl) as (r & ? & ? & ? & ?). exists r. split_and!; [done..|]. by eapply rtc_r.
    + pose proof (run_places _ _ Hr) as Hpl. cbn [snd] in Hpl.
      match goal with H : consume v _ ?b q |- _ => pose proof (reach_run _ _ Ha Hpl) as Hb; pose proof (reach_pred b p q Hb Hp (consume_adv _ _ _ H) Hpq) end.
      subst. eexists. split_and!; done.
Qed.
End Text.

(** ** The closure computed by add_thread *)

(** The program of a tree: a save, the code of the tree, a save and the end
    at [M]. *)
Record shape (v : vm) (M : nat) : Prop := {
  sh_len : length (p_code (v_prog v)) = S M;
  sh_two : (2 <= M)%nat;
  sh_first : inst_at v 0 = Inst I_SAVE 0 0 0;
  sh_mid : ∀ pc, (0 < pc < M - 1)%nat → inst_ok 1 (Z.of_nat (M - 1)) (inst_at v pc);
  sh_last : inst_at v (M - 1) = Inst I_SAVE 1 0 0;
  sh_match : inst_at v M = Inst I_MATCH 0 0 0;
}.

Section Closure.
Context (v : vm) (M : nat) (Hsh : shape v M).

Definition listed (pc : nat) : Prop := reads v pc = true ∨ pc = M.

Lemma pc_cases pc : (pc <= M)%nat → pc = 0%nat ∨ (0 < pc < M - 1)%nat ∨ pc = (M - 1)%nat ∨ pc = M.
Proof. lia. Qed.

Lemma eps_target pc p pc' : (pc <= M)%nat → pc' ∈ eps v pc p → (0 < pc' <= M)%nat ∧ (pc' = M → pc = (M - 1)%nat).
Proof using Hsh.
  destruct Hsh as [_ H2 Hf Hm Hl He]. intros Hpc. unfold eps. destruct (pc_cases pc Hpc) as [->|[Hr|[->| ->]]].
  - rewrite Hf. cbn. rewrite list_elem_of_singleton. lia.
  - specialize (Hm pc Hr). unfold inst_ok in Hm. destruct (op (inst_at v pc)); cbn; try (by rewrite elem_of_nil); try done;
      try destruct (holds v _ p); rewrite ?elem_of_nil, ?elem_of_cons, ?elem_of_nil; try done; lia.
  - rewrite Hl. cbn. rewrite list_elem_of_singleton. lia.
  - rewrite He. cbn. by rewrite elem_of_nil.
Qed.

Lemma reads_range pc : (pc <= M)%nat → reads v pc = true → (0 < pc < M - 1)%nat.
Proof using Hsh.
  destruct Hsh as [_ H2 Hf _ Hl He]. intros Hpc. unfold reads. destruct (pc_cases pc Hpc) as [->|[Hr|[->| ->]]]; [by rewrite Hf | done | by rewrite Hl | by rewrite He].
Qed.

Lemma save_slot pc : (pc <= M)%nat → op (inst_at v pc) = I_SAVE →
  pc = 0%nat ∧ ix (inst_at v pc) = 0 ∨ pc = (M - 1)%nat ∧ ix (inst_at v pc) = 1 ∨ pc ≠ (M - 1)%nat ∧ pc ≠ 0%nat ∧ 2 <= ix (inst_at v pc).
Proof using Hsh.
  destruct Hsh as [_ H2 Hf Hm Hl He]. intros Hpc Ho. destruct (pc_cases pc Hpc) as [->|[Hr|[->| ->]]].
  - left. by rewrite Hf.
  - right. right. specialize (Hm pc Hr). unfold inst_ok in Hm. rewrite Ho in Hm. lia.
  - right. left. by rewrite Hl.
  - by rewrite He in Ho.
Qed.

Lemma listed_nonzero pc : listed pc → pc ≠ 0%nat.
Proof using Hsh. destruct Hsh as [_ H2 Hf _ _ _]. intros [Hr| ->]; [|lia]. intros ->. unfold reads in Hr. by rewrite Hf in Hr. Qed.

(** A reading instruction or the end, and nothing else, goes on the list. *)
Lemma listed_op pc : (pc <= M)%nat → match op (inst_at v pc) with I_CHAR | I_ANY | I_SET | I_MATCH | I_BREF => listed pc | _ => ¬ listed pc end.
Proof using Hsh.
  destruct Hsh as [_ H2 Hf Hm Hl He]. intros Hpc. unfold listed, reads. destruct (pc_cases pc Hpc) as [->|[Hr|[->| ->]]].
  - rewrite Hf. cbn. intros [|]; [done | lia].
  - specialize (Hm pc Hr). unfold inst_ok in Hm. destruct (op (inst_at v pc)); try (by left); try done; intros [|]; (done || lia).
  - rewrite Hl. cbn. intros [|]; [done | lia].
  - rewrite He. by right.
Qed.

Context (Hcap : (2 <= v_ncap v)%nat) (gen : Z) (Hgen : gen ≠ 0) (p : place) (pc0 : nat) (s0 : Z) (Hpc0 : (pc0 < M)%nat) (Hs0 : pc0 = 0%nat → s0 = Z.of_nat (at_pos p)).
Context (l0 : list thread).

Definition marked (mark : list Z) (pc : nat) : Prop := nth pc mark 0 = gen.

(** The captures a pc is visited with. *)
Definition ok_pc (pc : nat) (work : list Z) : Prop :=
  (pc <= M)%nat ∧ rtc (estep v p) pc0 pc ∧ length work = v_ncap v ∧ (pc ≠ 0%nat → cap 0 work = s0) ∧ (pc = M → cap 1 work = Z.of_nat (at_pos p)).

Fixpoint ok_st (st : list frame) (work : list Z) : Prop :=
  match st with
  | [] => True
  | FPc pc :: st => ok_pc pc work ∧ ok_st st work
  | FCap slot old :: st => ok_st st (<[slot := old]> work)
  end.

Definition fresh (t : thread) : Prop := listed t.1 ∧ ok_pc t.1 t.2.

Record dinv (st : list frame) (mark work : list Z) (l : list thread) : Prop := {
  di_len : length mark = S M;
  di_st : ok_st st work;
  di_start : marked mark pc0 ∨ FPc pc0 ∈ st;
  di_listed : ∀ pc, marked mark pc → listed pc → pc ∈ l.*1;
  di_closed : ∀ pc pc', marked mark pc → pc' ∈ eps v pc p → marked mark pc' ∨ FPc pc' ∈ st;
  di_marks : Forall (λ t : thread, marked mark t.1) l;
  di_nodup : NoDup l.*1;
  di_new : ∃ new, l = l0 ++ new ∧ Forall fresh new;
}.

Lemma marked_insert mark pc q : (pc < length mark)%nat → marked (<[pc := gen]> mark) q ↔ q = pc ∨ marked mark q.
Proof using Hgen.
  intros Hl. unfold marked. rewrite !nth_lookup. destruct (decide (q = pc)) as [->|Hn].
  - rewrite list_lookup_insert_eq by done. cbn. tauto.
  - rewrite list_lookup_insert_ne by done. naive_solver.
Qed.

(** The turns that are left: every pop of an unmarked pc marks it. *)
Definition unmarked (mark : list Z) : nat := length (filter (λ m, m ≠ gen) mark).

Lemma unmarked_insert mark pc : (pc < length mark)%nat → ¬ marked mark pc → unmarked mark = S (unmarked (<[pc := gen]> mark)).
Proof using All.
  intros Hl Hm. unfold unmarked, marked in *. destruct (lookup_lt_is_Some_2 mark pc Hl) as [m Hm']. rewrite nth_lookup, Hm' in Hm. cbn in Hm.
  rewrite <- (take_drop_middle mark pc m Hm') at 1. rewrite insert_take_drop by done. rewrite !filter_app, !filter_cons. cbn [filter].
  rewrite decide_True by done. rewrite decide_False by (intros H; by apply H). rewrite !length_app. cbn [length]. lia.
Qed.

Lemma unmarked_le mark : (unmarked mark <= length mark)%nat.
Proof. apply length_filter. Qed.

(** Popping a capture, or a pc that is marked. *)
Lemma dinv_cap slot old st mark work l : dinv (FCap slot old :: st) mark work l → dinv st mark (<[slot := old]> work) l.
Proof using All.
  intros [H1 H2 H3 H4 H5 H6 H7 H8]. split; try done.
  - destruct H3 as [H3|H3]; [by left|]. apply elem_of_cons in H3 as [[=]|H3]. by right.
  - intros pc pc' Hm He. destruct (H5 pc pc' Hm He) as [?|H]; [by left|]. apply elem_of_cons in H as [[=]|H]. by right.
Qed.

Lemma dinv_marked pc st mark work l : marked mark pc → dinv (FPc pc :: st) mark work l → dinv st mark work l.
Proof using All.
  intros Hpc [H1 [_ H2] H3 H4 H5 H6 H7 H8]. split; try done.
  - destruct H3 as [H3|H3]; [by left|]. apply elem_of_cons in H3 as [[= ->]|H3]; [by left | by right].
  - intros q q' Hm He. destruct (H5 q q' Hm He) as [?|H]; [by left|]. apply elem_of_cons in H as [[= ->]|H]; [by left | by right].
Qed.

(** Popping an unmarked pc: [fs] is what is pushed, [new] what is listed. *)
Lemma dinv_visit pc fs new work' st mark work l :
  ¬ marked mark pc → dinv (FPc pc :: st) mark work l → ok_st (fs ++ st) work' →
  (∀ pc', pc' ∈ eps v pc p → FPc pc' ∈ fs) →
  (¬ listed pc ∧ new = [] ∨ listed pc ∧ new = [(pc, work)]) →
  dinv (fs ++ st) (<[pc := gen]> mark) work' (l ++ new).
Proof using All.
  intros Hpc [H1 [Hok H2] H3 H4 H5 H6 H7 (l' & -> & H8)] Hst Hfs Hnew. assert (pc < length mark)%nat as Hlt by (destruct Hok; lia).
  assert (∀ q, q ∈ l0.*1 ++ l'.*1 → marked mark q) as Hin.
  { intros q Hq. rewrite <- fmap_app in Hq. apply list_elem_of_fmap in Hq as (t & -> & Ht). rewrite Forall_forall in H6. by apply H6. }
  split; try done.
  - by rewrite length_insert.
  - rewrite marked_insert by done. destruct H3 as [H3|H3]; [by left; right|]. apply elem_of_cons in H3 as [[= ->]|H3]; [by left; left|]. right. apply elem_of_app. by right.
  - intros q. rewrite marked_insert, fmap_app, elem_of_app by done. intros [->|Hm] Hl; [|left; by apply H4].
    right. destruct Hnew as [[? _]|[_ ->]]; [done|]. by left.
  - intros q q'. rewrite !marked_insert, elem_of_app by done. intros [->|Hm] He; [right; left; by apply Hfs|].
    destruct (H5 q q' Hm He) as [?|H]; [tauto|]. apply elem_of_cons in H as [[= ->]|H]; tauto.
  - apply Forall_app. split; [apply (Forall_impl _ _ _ H6); intros t Ht; rewrite marked_insert by done; by right|].
    destruct Hnew as [[_ ->]|[_ ->]]; repeat constructor. cbn. rewrite marked_insert by done. by left.
  - rewrite fmap_app. apply NoDup_app. split_and!; [done | |destruct Hnew as [[_ ->]|[_ ->]]; [constructor | apply NoDup_singleton]].
    intros q Hq. destruct Hnew as [[_ ->]|[_ ->]]; [apply not_elem_of_nil|]. cbn. rewrite list_elem_of_singleton. intros ->. apply Hpc, Hin. by rewrite <- fmap_app.
  - exists (l' ++ new). rewrite app_assoc. split; [done|]. apply Forall_app. split; [done|].
    destruct Hnew as [[_ ->]|[Hl ->]]; [constructor|]. apply Forall_singleton. by split.
Qed.

(** The captures of the successors of a pc that saves nothing. *)
Lemma ok_pc_next pc pc' work : ok_pc pc work → op (inst_at v pc) ≠ I_SAVE → pc' ∈ eps v pc p → ok_pc pc' work.
Proof using All.
  intros (H1 & H2 & H3 & H4 & H5) Ho He. destruct (eps_target pc p pc' H1 He) as [Hr HM]. destruct Hsh as [_ H2M Hf _ Hl _]. split_and!.
  - lia.
  - by eapply rtc_r.
  - done.
  - intros _. apply H4. intros ->. by rewrite Hf in Ho.
  - intros ->. rewrite HM in Ho by done. by rewrite Hl in Ho.
Qed.

Lemma esteps_range pc : rtc (estep v p) pc0 pc → (pc <= M)%nat ∧ (pc = 0%nat → pc0 = 0%nat).
Proof using All.
  intros H. pattern pc. refine (rtc_ind_r _ pc0 _ _ pc H); [lia|]. intros q r _ Hs [Hq _]. destruct (eps_target q p r Hq Hs). lia.
Qed.

Lemma cap_insert (i j : nat) (c : Z) work : (j < length work)%nat → cap i (<[j := c]> work) = if decide (i = j) then c else cap i work.
Proof using Type.
  intros Hj. unfold cap. rewrite !nth_lookup. destruct (decide (i = j)) as [->|Hn]; [by rewrite list_lookup_insert_eq | by rewrite list_lookup_insert_ne].
Qed.

Lemma ok_pc_save pc work :
  ok_pc pc work → op (inst_at v pc) = I_SAVE → let x := Z.to_nat (ix (inst_at v pc)) in
  ok_pc (S pc) (if (x <? v_ncap v)%nat then <[x := Z.of_nat (at_pos p)]> work else work).
Proof using All.
  intros (H1 & H2 & H3 & H4 & H5) Ho x. assert (S pc ∈ eps v pc p) as He by (unfold eps; rewrite Ho; by left).
  destruct (eps_target pc p (S pc) H1 He) as [Hr HM]. pose proof (save_slot pc H1 Ho) as Hsl.
  pose proof (proj2 (esteps_range pc H2)) as Hz. pose proof (sh_two _ _ Hsh) as H2M.
  split_and!; [lia | by eapply rtc_r | destruct (_ <? _)%nat; by rewrite ?length_insert | |].
  - intros _. destruct (Nat.ltb_spec x (v_ncap v)) as [Hx|Hx]; [rewrite cap_insert by lia; destruct (decide (0%nat = x)) as [Hx0|Hx0]|].
    + symmetry. apply Hs0, Hz. unfold x in *. lia.
    + apply H4. unfold x in *. lia.
    + apply H4. unfold x in *. lia.
  - intros HS. assert (x = 1%nat) as Hx by (unfold x in *; lia). destruct (Nat.ltb_spec x (v_ncap v)); [|lia].
    rewrite cap_insert by lia. by rewrite decide_True.
Qed.

Lemma add_loop_inv fuel st mark work l :
  dinv st mark work l → (length st + 2 * unmarked mark <= fuel)%nat →
  ∃ mark' work' l', add_loop v gen (at_pos p) (prevc p) (char_at v (at_pos p)).1 fuel st mark work l = (mark', l') ∧ dinv [] mark' work' l'.
Proof using All.
  revert st mark work l. induction fuel as [|fuel IH]; intros st mark work l HI Hf.
  - destruct st; [|cbn in Hf; lia]. by exists mark, work, l.
  - cbn [add_loop]. destruct st as [|[pc|slot old] st]; [by exists mark, work, l| |].
    2: { apply IH; [by apply dinv_cap | cbn [length] in Hf; lia]. }
    destruct (Z.eqb_spec (nth pc mark 0) gen) as [Hm|Hm]; [apply IH; [by apply (dinv_marked pc) | cbn [length] in Hf; lia]|].
    pose proof (di_st _ _ _ _ HI) as [Hok Hst]. pose proof (di_len _ _ _ _ HI) as Hlen. pose proof (proj1 Hok) as HpcM.
    assert (unmarked mark = S (unmarked (<[pc := gen]> mark))) as Hu by (apply unmarked_insert; [lia | done]). cbn [length] in Hf.
    pose proof (listed_op pc HpcM) as Hl. pose proof (ok_pc_next pc) as Hnext. pose proof (ok_pc_save pc work Hok) as Hsave.
    pose proof (λ fs new w', dinv_visit pc fs new w' st mark work l Hm HI) as Hv.
    assert (op (inst_at v pc) ≠ I_SAVE → ¬ listed pc → dinv ((FPc <$> eps v pc p) ++ st) (<[pc := gen]> mark) work l) as Hpush.
    { intros Ho Hnl. rewrite <- (app_nil_r l). apply Hv; [|intros q Hq; by apply list_elem_of_fmap_2 | by left]. clear Hv.
      assert (∀ q, q ∈ eps v pc p → ok_pc q work) as Hq by eauto. clear Hnext. induction (eps v pc p) as [|q qs IHq]; [done|].
      split; [apply Hq; by left | apply IHq; intros q' Hq'; apply Hq; by right]. }
    unfold eps in Hpush, Hv. unfold holds in *. revert Hl Hv Hpush Hsave. destruct (op (inst_at v pc)) eqn:Ho; intros Hl Hv Hpush Hsave.
    all: try (specialize (Hv [] [(pc, work)] work Hst); cbn [app] in Hv; apply IH; [apply Hv; [by intros ? ?%elem_of_nil | by right] | lia]).
    all: try (apply IH; [by apply Hpush | cbn [length]; lia]).
    + apply IH; [|destruct (assert_ok _ _ _ _ _); cbn [length]; lia]. specialize (Hpush ltac:(done) Hl). by destruct (assert_ok _ _ _ _ _).
    + specialize (Hsave eq_refl). cbv zeta in Hsave. destruct (Nat.ltb_spec (Z.to_nat (ix (inst_at v pc))) (v_ncap v)) as [Hx|Hx]; (apply IH; [|cbn [length]; lia]).
      * set (x := Z.to_nat (ix (inst_at v pc))) in *. specialize (Hv [FPc (S pc); FCap x (nth x work 0)] [] (<[x := Z.of_nat (at_pos p)]> work)).
        rewrite app_nil_r in Hv. apply Hv; [|intros q ->%list_elem_of_singleton; by left | by left]. cbn [app ok_st]. split; [done|].
        destruct Hok as (_ & _ & Hlw & _). rewrite list_insert_insert_eq. rewrite list_insert_id; [done|]. rewrite nth_lookup.
        destruct (lookup_lt_is_Some_2 work x ltac:(lia)) as [c ->]. done.
      * specialize (Hv [FPc (S pc)] [] work). rewrite app_nil_r in Hv. apply Hv; [|intros q ->%list_elem_of_singleton; by left | by left]. by split.
Qed.

(** Marks and list agree: what is marked has been followed to the end. *)
Record table (mark : list Z) (l : list thread) : Prop := {
  tb_len : length mark = S M;
  tb_listed : ∀ pc, marked mark pc → listed pc → pc ∈ l.*1;
  tb_closed : ∀ pc pc', marked mark pc → pc' ∈ eps v pc p → marked mark pc';
  tb_marks : Forall (λ t : thread, marked mark t.1) l;
  tb_nodup : NoDup l.*1;
}.

Lemma add_thread_ok mark caps :
  table mark l0 → length caps = v_ncap v → (pc0 ≠ 0%nat → cap 0 caps = s0) →
  ∃ mark' new, add_thread v gen mark l0 pc0 caps (at_pos p) (prevc p) (char_at v (at_pos p)).1 = (mark', l0 ++ new) ∧ table mark' (l0 ++ new) ∧
    Forall fresh new ∧ ∀ pc, rtc (estep v p) pc0 pc → listed pc → pc ∈ (l0 ++ new).*1.
Proof using All.
  intros [T1 T2 T3 T4 T5] Hlen Hc0. unfold add_thread. rewrite (sh_len _ _ Hsh).
  destruct (add_loop_inv (2 * S M + 2) [FPc pc0] mark caps l0) as (mark' & work' & l' & -> & [H1 _ H3 H4 H5 H6 H7 (new & -> & H8)]).
  - split; try done.
    + split; [|done]. split_and!; [lia | done | done | done | lia].
    + right. by left.
    + intros pc pc' Hm He. left. eauto.
    + exists []. by rewrite app_nil_r.
  - pose proof (unmarked_le mark). cbn [length]. lia.
  - exists mark', new. split; [done|]. destruct H3 as [H3|H3]; [|by apply elem_of_nil in H3].
    assert (∀ pc pc', marked mark' pc → pc' ∈ eps v pc p → marked mark' pc') as Hcl.
    { intros pc pc' Hm He. destruct (H5 pc pc' Hm He) as [?|H]; [done | by apply elem_of_nil in H]. }
    split_and!; [by split | done|]. intros pc Hr. apply H4. clear -Hr H3 Hcl. induction Hr; eauto.
Qed.
End Closure.

(** ** The sweep over the threads at one place *)

Definition le0 (t u : thread) : Prop := cap 0 t.2 <= cap 0 u.2.

Lemma same_sorted s (l : list thread) : (∀ t, t ∈ l → cap 0 t.2 = s) → StronglySorted le0 l.
Proof.
  induction l as [|u l IH]; intros H; constructor; [apply IH; intros; apply H; by right|].
  apply Forall_forall. intros t Ht. unfold le0. rewrite (H u), (H t); [done | by right | by left].
Qed.

(** [s, e) is not better than the match found so far. *)
Definition beaten (m : bool) (best : list Z) (s e : Z) : Prop := m = true ∧ (cap 0 best < s ∨ cap 0 best = s ∧ e <= cap 1 best).
Definition later (m : bool) (best : list Z) (s : Z) : Prop := m = true ∧ cap 0 best < s.

Lemma later_beaten m best s e : later m best s → beaten m best s e.
Proof. intros [H1 H2]. split; [done | by left]. Qed.

Lemma beaten_trans m best m' best' s e :
  beaten m' best' (cap 0 best) (cap 1 best) → beaten m best s e → beaten m' best' s e.
Proof. intros [H1 H2] [H3 H4]. split; [done|]. lia. Qed.

Lemma later_trans m best m' best' s : beaten m' best' (cap 0 best) (cap 1 best) → later m best s → later m' best' s.
Proof. intros [H1 H2] [H3 H4]. split; [done|]. lia. Qed.

Section Sweep.
Context (v : vm) (M : nat) (Hsh : shape v M) (Hcap : (2 <= v_ncap v)%nat).

(** A thread stands for a run from a place of the text. *)
Definition sound (p : place) (t : thread) : Prop :=
  listed v M t.1 ∧ (t.1 <= M)%nat ∧ length t.2 = v_ncap v ∧ (t.1 = M → cap 1 t.2 = Z.of_nat (at_pos p)) ∧
  ∃ a, reach v a ∧ cap 0 t.2 = Z.of_nat (at_pos a) ∧ rtc (step v) (0%nat, a) (t.1, p).

Definition sound_best (p : place) (m : bool) (best : list Z) : Prop :=
  m = true → ∃ a b, reach v a ∧ rtc (step v) (0%nat, a) (M, b) ∧ cap 0 best = Z.of_nat (at_pos a) ∧ cap 1 best = Z.of_nat (at_pos b) ∧ (at_pos b <= at_pos p)%nat.

Context (gen : Z) (Hgen : gen ≠ 0) (p q : place) (c : Z) (clen : nat) (nc : Z).
Context (Hc : char_at v (at_pos p) = (c, clen)) (Hq : clen ≠ 0%nat → q = Pl (at_pos p + clen) c ∧ nc = (char_at v (at_pos q)).1).
Context (m0 : bool) (best0 : list Z).

Record sinv (D : list thread) (w : sweep) : Prop := {
  si_table : table v M gen q (s_mark w) (s_next w);
  si_sound : Forall (sound q) (s_next w);
  si_sorted : StronglySorted le0 (s_next w);
  si_below : ∀ t, t ∈ s_next w → ∃ u, u ∈ D ∧ cap 0 t.2 = cap 0 u.2;
  si_read : ∀ t, t ∈ D → reads v t.1 = true → consume v (inst_at v t.1) p q →
            later (s_matched w) (s_best w) (cap 0 t.2) ∨
            ∀ pc, rtc (estep v q) (S t.1) pc → listed v M pc → ∃ u, u ∈ s_next w ∧ u.1 = pc ∧ le0 u t;
  si_match : ∀ t, t ∈ D → t.1 = M → beaten (s_matched w) (s_best w) (cap 0 t.2) (cap 1 t.2);
  si_best : sound_best p (s_matched w) (s_best w);
  si_mono : m0 = true → beaten (s_matched w) (s_best w) (cap 0 best0) (cap 1 best0);
}.

(** A thread that changes nothing. *)
Lemma sinv_skip D w t :
  sinv D w → (reads v t.1 = true → consume v (inst_at v t.1) p q → later (s_matched w) (s_best w) (cap 0 t.2)) →
  (t.1 = M → beaten (s_matched w) (s_best w) (cap 0 t.2) (cap 1 t.2)) → sinv (D ++ [t]) w.
Proof using All.
  intros [H1 H2 H3 H4 H5 H6 H7 H8] Hr Hm. split; try done.
  - intros u Hu. destruct (H4 u Hu) as (x & Hx & He). exists x. split; [|done]. apply elem_of_app. by left.
  - intros u [Hu| ->%list_elem_of_singleton]%elem_of_app; [by apply H5|]. auto.
  - intros u [Hu| ->%list_elem_of_singleton]%elem_of_app; [by apply H6|]. auto.
Qed.

(** A thread at the end of the program. *)
Lemma sinv_match D w t :
  sinv D w → sound p t → t.1 = M → ¬ later (s_matched w) (s_best w) (cap 0 t.2) →
  sinv (D ++ [t])
    (if negb (s_matched w) || (cap 0 t.2 <? cap 0 (s_best w)) || ((cap 0 t.2 =? cap 0 (s_best w)) && (cap 1 (s_best w) <? cap 1 t.2))
     then Sweep (s_mark w) (s_next w) true (take (v_ncap v) t.2 ++ drop (v_ncap v) (s_best w)) else w).
Proof using All.
  intros HI Hs HM Hnl. destruct Hs as (_ & _ & Hlen & Hc1 & a & Ha & Hc0 & Hrun). specialize (Hc1 HM).
  assert (∀ i : nat, (i < 2)%nat → cap i (take (v_ncap v) t.2 ++ drop (v_ncap v) (s_best w)) = cap i t.2) as Hcaps.
  { intros i Hi. unfold cap. rewrite app_nth1 by (rewrite length_take; lia). by rewrite take_ge by lia. }
  destruct (_ || _) eqn:E.
  - destruct HI as [H1 H2 H3 H4 H5 H6 H7 H8]. set (best' := take _ _ ++ _) in *.
    assert (s_matched w = true → beaten true best' (cap 0 (s_best w)) (cap 1 (s_best w))) as Hmono.
    { intros Hm. split; [done|]. rewrite !Hcaps by lia. rewrite Hm in E. cbn [negb orb] in E. unfold later in Hnl. zbool.
      rewrite orb_true_iff, andb_true_iff, !Z.ltb_lt, Z.eqb_eq in E. lia. }
    assert (∀ s e, beaten (s_matched w) (s_best w) s e → beaten true best' s e) as Hb.
    { intros s e Hbt. eapply beaten_trans; [|done]. apply Hmono. by destruct Hbt. }
    assert (∀ s, later (s_matched w) (s_best w) s → later true best' s) as Hl.
    { intros s Hbt. eapply later_trans; [|done]. apply Hmono. by destruct Hbt. }
    split; cbn [s_mark s_next s_matched s_best]; try done.
    + intros u Hu. destruct (H4 u Hu) as (x & Hx & He). exists x. split; [|done]. apply elem_of_app. by left.
    + intros u [Hu| ->%list_elem_of_singleton]%elem_of_app Hr Hcs; [destruct (H5 u Hu Hr Hcs); [left; auto | by right]|].
      exfalso. rewrite HM in Hr. unfold reads in Hr. by rewrite (sh_match _ _ Hsh) in Hr.
    + intros u [Hu| ->%list_elem_of_singleton]%elem_of_app Hu1; [by apply Hb, H6|]. split; [done|]. rewrite !Hcaps by lia. lia.
    + intros _. exists a, p. rewrite !Hcaps by lia. rewrite HM in Hrun. by split_and!.
    + intros Hm0. by apply Hb, H8.
  - apply sinv_skip; [done | |].
    + intros Hr. rewrite HM in Hr. unfold reads in Hr. by rewrite (sh_match _ _ Hsh) in Hr.
    + intros _. apply orb_false_iff in E as [[E1 E2]%orb_false_iff E3]. apply negb_false_iff in E1. split; [done|]. unfold later in Hnl.
      apply andb_false_iff in E3. rewrite Z.ltb_ge, Z.eqb_neq in *. destruct (decide (cap 0 (s_best w) < cap 0 t.2)); [tauto|]. lia.
Qed.

Lemma consume_iff i : consume v i p q ↔ clen ≠ 0%nat ∧ char_ok v i c = true.
Proof using Hc Hq.
  unfold consume. split.
  - intros (c' & n & H & Hn & Ho & _). rewrite Hc in H. by injection H as <- <-.
  - intros [Hn Ho]. exists c, clen. split_and!; [done..|]. by apply Hq.
Qed.

(** A thread that reads the character. *)
Lemma sinv_add D w t :
  sinv D w → sound p t → reads v t.1 = true → clen ≠ 0%nat → char_ok v (inst_at v t.1) c = true → (∀ u, u ∈ D → le0 u t) →
  ∃ mark nl, add_thread v gen (s_mark w) (s_next w) (S t.1) t.2 (at_pos p + clen) c nc = (mark, nl) ∧
    sinv (D ++ [t]) (Sweep mark nl (s_matched w) (s_best w)).
Proof using All.
  intros [H1 H2 H3 H4 H5 H6 H7 H8] (_ & HtM & Hlen & _ & a & Ha & Hc0 & Hrun) Hr Hn Ho Hle.
  destruct (Hq Hn) as [Eq Enc]. pose proof (reads_range v M Hsh t.1 HtM Hr) as Hrange.
  assert (consume v (inst_at v t.1) p q) as Hcs by (by apply consume_iff).
  destruct (add_thread_ok v M Hsh Hcap gen Hgen q (S t.1) (cap 0 t.2) ltac:(lia) ltac:(done) (s_next w) (s_mark w) t.2 H1 Hlen ltac:(done))
    as (mark & new & Hadd & Ht & Hf & Hall).
  exists mark, (s_next w ++ new). split.
  { rewrite <- Hadd. rewrite Enc. by rewrite Eq. }
  assert (∀ u, u ∈ new → sound q u ∧ cap 0 u.2 = cap 0 t.2) as Hnew.
  { intros u Hu. rewrite Forall_forall in Hf. destruct (Hf u Hu) as [Hl (Hu1 & Hu2 & Hu3 & Hu4 & Hu5)].
    pose proof (listed_nonzero v M Hsh _ Hl) as Hu0.
    specialize (Hu4 Hu0). split; [|done]. split_and!; [done..|]. exists a. split_and!; [done | by rewrite Hu4|].
    etrans; [done|]. eapply rtc_l; [by apply step_read|]. by apply esteps_run. }
  split; cbn [s_mark s_next s_matched s_best]; try done.
  - apply Forall_app. split; [done|]. apply Forall_forall. intros u Hu. by apply Hnew.
  - apply StronglySorted_app_2; [|done|].
    + intros u u' Hu Hu'. unfold le0. destruct (H4 u Hu) as (x & Hx & ->). rewrite (proj2 (Hnew u' Hu')). by apply Hle.
    + apply (same_sorted (cap 0 t.2)). intros u Hu. by apply Hnew.
  - intros u [Hu|Hu]%elem_of_app.
    + destruct (H4 u Hu) as (x & Hx & He). exists x. split; [|done]. apply elem_of_app. by left.
    + exists t. split; [apply elem_of_app; right; by left|]. by apply Hnew.
  - intros u [Hu| ->%list_elem_of_singleton]%elem_of_app Hru Hcu.
    + destruct (H5 u Hu Hru Hcu) as [?|Hx]; [by left | right]. intros pc Hpc Hl. destruct (Hx pc Hpc Hl) as (x & ? & ? & ?). exists x. split; [apply elem_of_app; by left | done].
    + right. intros pc Hpc Hl. specialize (Hall pc Hpc Hl). apply list_elem_of_fmap in Hall as (u & -> & Hu). exists u. split_and!; [done | done|].
      unfold le0. apply elem_of_app in Hu as [Hu|Hu]; [destruct (H4 u Hu) as (x & Hx & ->); by apply Hle | by rewrite (proj2 (Hnew u Hu))].
  - intros u [Hu| ->%list_elem_of_singleton]%elem_of_app Hu1; [by apply H6|]. lia.
Qed.

Lemma run_thread_ok D w t :
  sinv D w → sound p t → (∀ u, u ∈ D → le0 u t) → sinv (D ++ [t]) (run_thread v gen c clen (at_pos p + clen) nc w t).
Proof using All.
  intros HI Hs Hle. destruct t as [pc tc]. unfold run_thread. cbv zeta.
  destruct (s_matched w && (cap 0 (s_best w) <? cap 0 tc)) eqn:E.
  { apply andb_true_iff in E as [E1 E2%Z.ltb_lt]. apply sinv_skip; [done | by split|]. intros _. apply later_beaten. by split. }
  assert (¬ later (s_matched w) (s_best w) (cap 0 tc)) as Hnl.
  { intros [H1 H2]. rewrite H1 in E. cbn in E. apply Z.ltb_ge in E. lia. }
  pose proof Hs as ([Hr|HM] & HtM & _); cbn [fst snd] in *.
  - assert (∀ A (a b : A), match op (inst_at v pc) with I_MATCH => a | _ => b end = b) as Hop by (intros; unfold reads in Hr; by destruct (op _)).
    rewrite Hop. destruct (Nat.eqb_spec clen 0) as [Hz|Hz]; cbn [negb andb]; [|destruct (char_ok v (inst_at v pc) c) eqn:Ho].
    + apply sinv_skip; [done | |]; cbn [fst]; [intros _ [? _]%consume_iff; done|]. intros ->. unfold reads in Hr. by rewrite (sh_match _ _ Hsh) in Hr.
    + destruct (sinv_add D w (pc, tc) HI Hs Hr Hz Ho Hle) as (mark & nl & Hadd & Hi). cbn [fst snd] in Hadd. by rewrite Hadd.
    + apply sinv_skip; [done | |]; cbn [fst]; [intros _ [_ H]%consume_iff; congruence|]. intros ->. unfold reads in Hr. by rewrite (sh_match _ _ Hsh) in Hr.
  - rewrite HM, (sh_match _ _ Hsh). cbn [op]. subst pc. by apply (sinv_match D w (M, tc)).
Qed.

Lemma sweep_ok cl w :
  sinv [] w → Forall (sound p) cl → StronglySorted le0 cl → sinv cl (foldl (run_thread v gen c clen (at_pos p + clen) nc) w cl).
Proof using All.
  intros HI Hs Hsort. change cl with ([] ++ cl) at 1. assert (∀ u t, u ∈ @nil thread → t ∈ cl → le0 u t) as Hle by (intros u t Hu; by apply elem_of_nil in Hu).
  revert HI Hle. generalize (@nil thread) as D. revert w. induction cl as [|t cl IH]; intros w D HI Hle; [by rewrite app_nil_r|].
  cbn [foldl]. apply Forall_cons in Hs as [Ht Hs]. inv Hsort.
  change (t :: cl) with ([t] ++ cl). rewrite app_assoc. apply IH; [done | done | |].
  - apply run_thread_ok; [done | done|]. intros u Hu. apply Hle; [done | by left].
  - intros u t' [Hu| ->%list_elem_of_singleton]%elem_of_app Ht'; [apply Hle; [done | by right]|].
    match goal with H : Forall (le0 t) cl |- _ => rewrite Forall_forall in H; by apply H end.
Qed.
End Sweep.

(** ** Generations *)

Definition upto (g : Z) (mark : list Z) : Prop := Forall (λ m, m <= g) mark.

Lemma upto_insert g g' mark pc : upto g mark → g' <= g → upto g (<[pc := g']> mark).
Proof. intros H Hg. by apply Forall_insert. Qed.

Lemma add_loop_upto v gen pos prev next fuel st mark work l : upto gen mark → upto gen (add_loop v gen pos prev next fuel st mark work l).1.
Proof.
  revert st mark work l. induction fuel as [|fuel IH]; intros st mark work l H; [done|]. cbn [add_loop].
  destruct st as [|[pc|slot old] st]; [done| |by apply IH]. destruct (_ =? _); [by apply IH|].
  assert (upto gen (<[pc := gen]> mark)) as H' by (by apply upto_insert).
  destruct (op _); try (by apply IH). destruct (_ <? _)%nat; by apply IH.
Qed.

Lemma sweep_upto v gen c clen npos nc w cl : upto gen (s_mark w) → upto gen (s_mark (foldl (run_thread v gen c clen npos nc) w cl)).
Proof.
  revert w. induction cl as [|[pc tc] cl IH]; intros w H; [done|]. cbn [foldl]. apply IH. unfold run_thread. cbv zeta.
  destruct (_ && _); [done|]. pose proof (add_loop_upto v gen npos c nc (2 * length (p_code (v_prog v)) + 2) [FPc (S pc)] (s_mark w) tc (s_next w) H) as Ha.
  unfold add_thread. destruct (add_loop _ _ _ _ _ _ _ _ _ _) as [mark nl]. cbn [fst] in Ha.
  destruct (op _); try (destruct (negb _ && _); done). destruct (_ || _); done.
Qed.

Lemma remark_length gen (mark : list Z) (cl : list thread) : length (foldl (λ m (t : thread), <[t.1 := gen]> m) mark cl) = length mark.
Proof. revert mark. induction cl as [|t cl IH]; intros m; [done|]. cbn. by rewrite IH, length_insert. Qed.

Lemma remark_marked gen (mark : list Z) (cl : list thread) pc :
  gen ≠ 0 → upto (gen - 1) mark → Forall (λ t, (t.1 < length mark)%nat) cl →
  marked gen (foldl (λ m (t : thread), <[t.1 := gen]> m) mark cl) pc ↔ pc ∈ cl.*1.
Proof.
  intros Hg Hu Hlt. induction cl as [|t cl IH] using rev_ind.
  - cbn. split; [|by intros ?%elem_of_nil]. unfold marked. rewrite nth_lookup. destruct (mark !! pc) as [m|] eqn:E; cbn; [|done].
    unfold upto in Hu. rewrite Forall_lookup in Hu. specialize (Hu pc m E). lia.
  - apply Forall_app in Hlt as [H1 H2]. rewrite Forall_singleton in H2. rewrite foldl_app. cbn [foldl]. rewrite marked_insert by (try done; rewrite remark_length; done).
    rewrite (IH H1), fmap_app, elem_of_app. cbn. rewrite list_elem_of_singleton. tauto.
Qed.

Lemma remark_upto gen (mark : list Z) (cl : list thread) : upto gen mark → upto gen (foldl (λ m (t : thread), <[t.1 := gen]> m) mark cl).
Proof. revert mark. induction cl as [|t cl IH]; intros m H; [done|]. cbn. apply IH. by apply upto_insert. Qed.

(** ** The loop over the text *)

Section Run.
Context (v : vm) (M : nat) (Hsh : shape v M) (Hcap : (2 <= v_ncap v)%nat) (Hbytes : Forall is_byte (v_s v)).

(** The threads at [p] cover every run from a place that satisfies [P]. *)
Definition covers (P : nat → Prop) (p : place) (cl : list thread) (m : bool) (best : list Z) : Prop :=
  ∀ a pc, reach v a → P (at_pos a) → rtc (step v) (0%nat, a) (pc, p) → listed v M pc →
  later m best (Z.of_nat (at_pos a)) ∨ ∃ t, t ∈ cl ∧ t.1 = pc ∧ cap 0 t.2 <= Z.of_nat (at_pos a).

(** Every match that ends where [P] holds is beaten. *)
Definition done_to (P : nat → Prop) (m : bool) (best : list Z) : Prop :=
  ∀ a b, reach v a → rtc (step v) (0%nat, a) (M, b) → P (at_pos b) → beaten m best (Z.of_nat (at_pos a)) (Z.of_nat (at_pos b)).

Definition before (p : place) (m : bool) (best : list Z) : Prop :=
  m = true → ∃ a b, reach v a ∧ rtc (step v) (0%nat, a) (M, b) ∧ cap 0 best = Z.of_nat (at_pos a) ∧ cap 1 best = Z.of_nat (at_pos b) ∧ (at_pos b < at_pos p)%nat.

Record linv (p : place) (gen : Z) (mark : list Z) (cl : list thread) (m : bool) (best : list Z) : Prop := {
  li_reach : reach v p;
  li_upto : upto gen mark;
  li_len : length mark = S M;
  li_sound : Forall (sound v M p) cl;
  li_sorted : StronglySorted le0 cl;
  li_nodup : NoDup cl.*1;
  li_covers : covers (λ x, x < at_pos p)%nat p cl m best;
  li_done : done_to (λ x, x < at_pos p)%nat m best;
  li_best : before p m best;
}.

Lemma sound_le p t : sound v M p t → cap 0 t.2 <= Z.of_nat (at_pos p).
Proof using All. intros (_ & _ & _ & _ & a & _ & -> & Hr). apply run_places, advs_le in Hr. cbn in Hr. lia. Qed.

(** A match that was found earlier starts before this place. *)
Lemma before_later p m best : before p m best → m = true → cap 0 best < Z.of_nat (at_pos p).
Proof using All. intros Hb Hm. destruct (Hb Hm) as (a & b & _ & Hr & -> & _ & Hlt). apply run_places, advs_le in Hr. cbn in Hr. lia. Qed.

Lemma seed_table p gen mark cl :
  gen ≠ 0 → upto (gen - 1) mark → length mark = S M → Forall (sound v M p) cl → NoDup cl.*1 →
  table v M gen p (foldl (λ m (t : thread), <[t.1 := gen]> m) mark cl) cl.
Proof using All.
  intros Hg Hu Hl Hs Hn. assert (Forall (λ t : thread, (t.1 < length mark)%nat) cl) as Hlt.
  { apply (Forall_impl _ _ _ Hs). intros t (_ & ? & _). lia. }
  pose proof (λ pc, remark_marked gen mark cl pc Hg Hu Hlt) as Hm. split.
  - by rewrite remark_length.
  - intros pc Hpc _. by apply Hm.
  - intros pc pc' Hpc He. apply Hm, list_elem_of_fmap in Hpc as (t & -> & Ht). rewrite Forall_forall in Hs. destruct (Hs t Ht) as (Hlist & HtM & _).
    unfold eps in He. destruct Hlist as [Hr|HM]; [unfold reads in Hr; destruct (op _); try done; by apply elem_of_nil in He|].
    rewrite HM, (sh_match _ _ Hsh) in He. by apply elem_of_nil in He.
  - apply Forall_forall. intros t Ht. apply Hm. by apply list_elem_of_fmap_2.
  - done.
Qed.

(** The start of a turn: a new thread at the start of the program, unless
    there is a match. *)
Lemma seed_ok p gen mark cl m best :
  linv p (gen - 1) mark cl m best → gen ≠ 0 →
  ∃ mark1 cl1,
    (let mark := foldl (λ m (t : thread), <[t.1 := gen]> m) mark cl in
     if m then (mark, cl) else add_thread v gen mark cl 0 (replicate (v_ncap v) (-1)) (at_pos p) (prevc p) (char_at v (at_pos p)).1) = (mark1, cl1) ∧
    upto gen mark1 ∧ length mark1 = S M ∧ Forall (sound v M p) cl1 ∧ StronglySorted le0 cl1 ∧ covers (λ x, x <= at_pos p)%nat p cl1 m best.
Proof using All.
  intros [L1 L2 L3 L4 L5 L6 L7 L8 L9] Hg. cbv zeta. pose proof (seed_table p gen mark cl Hg L2 L3 L4 L6) as HT.
  assert (upto gen (foldl (λ m (t : thread), <[t.1 := gen]> m) mark cl)) as Hup.
  { apply remark_upto. apply (Forall_impl _ _ _ L2). lia. }
  set (mark' := foldl _ mark cl) in *. destruct m.
  - exists mark', cl. split_and!; try done; [by apply tb_len in HT|]. intros a pc Ha Hle Hr Hl.
    destruct (decide (at_pos a = at_pos p)) as [He|He]; [|apply L7; [done | lia | done | done]].
    left. split; [done|]. rewrite He. by apply (before_later p true best).
  - destruct (add_thread_ok v M Hsh Hcap gen Hg p 0%nat (Z.of_nat (at_pos p)) ltac:(pose proof (sh_two _ _ Hsh); lia) ltac:(done) cl mark' (replicate (v_ncap v) (-1)) HT
                ltac:(by rewrite length_replicate) ltac:(done)) as (mark1 & new & Hadd & HT1 & Hf & Hall).
    exists mark1, (cl ++ new). rewrite Hadd. rewrite Forall_forall in Hf.
    assert (∀ u, u ∈ new → sound v M p u ∧ cap 0 u.2 = Z.of_nat (at_pos p)) as Hnew.
    { intros u Hu. destruct (Hf u Hu) as [Hl (Hu1 & Hu2 & Hu3 & Hu4 & Hu5)].
      pose proof (listed_nonzero v M Hsh _ Hl) as Hu0.
      specialize (Hu4 Hu0). split; [|done]. split_and!; [done..|]. exists p. split_and!; [done | done|]. by apply esteps_run. }
    split_and!; [done | | by apply tb_len in HT1 | | |].
    + pose proof (add_loop_upto v gen (at_pos p) (prevc p) (char_at v (at_pos p)).1 (2 * length (p_code (v_prog v)) + 2) [FPc 0] mark' (replicate (v_ncap v) (-1)) cl Hup) as Hu.
      unfold add_thread in Hadd. by rewrite Hadd in Hu.
    + apply Forall_app. split; [done|]. apply Forall_forall. intros u Hu. by apply Hnew.
    + apply StronglySorted_app_2; [|done|].
      * intros u u' Hu Hu'. unfold le0. rewrite (proj2 (Hnew u' Hu')). rewrite Forall_forall in L4. by apply sound_le, L4.
      * apply (same_sorted (Z.of_nat (at_pos p))). intros u Hu. by apply Hnew.
    + intros a pc Ha Hle Hr Hl. destruct (decide (at_pos a = at_pos p)) as [He|He].
      * right. assert (a = p) as -> by (by eapply reach_inj). apply run_stays in Hr as [_ Hr]; [|done]. cbn in Hr.
        specialize (Hall pc Hr Hl). apply list_elem_of_fmap in Hall as (u & -> & Hu). exists u. split_and!; [done | done|].
        apply elem_of_app in Hu as [Hu|Hu]; [rewrite Forall_forall in L4; by apply sound_le, L4 | by rewrite (proj2 (Hnew u Hu))].
      * destruct (L7 a pc Ha ltac:(cbv beta; lia) Hr Hl) as [[? _]|(t & Ht & ? & ?)]; [done|]. right. exists t. split_and!; [apply elem_of_app; by left | done | done].
Qed.

(** What the sweep at [p] leaves. *)
Lemma turn_done p q gen D w c clen nc m best :
  sinv v M gen p q m best D w → covers (λ x, x <= at_pos p)%nat p D m best → Forall (sound v M p) D →
  done_to (λ x, x < at_pos p)%nat m best → reach v p → char_at v (at_pos p) = (c, clen) → (clen ≠ 0%nat → q = Pl (at_pos p + clen) c ∧ nc = (char_at v (at_pos q)).1) →
  done_to (λ x, x <= at_pos p)%nat (s_matched w) (s_best w).
Proof using All.
  intros HI Hcov Hs Hd Hp Hc Hq a b Ha Hr Hb. cbv beta in Hb.
  assert (∀ s e, beaten m best s e → beaten (s_matched w) (s_best w) s e) as Hmono.
  { intros s e Hbt. eapply beaten_trans; [|done]. apply (si_mono _ _ _ _ _ _ _ _ _ HI). by destruct Hbt. }
  pose proof (run_places _ _ _ Hr) as Hpl. cbn [snd] in Hpl.
  destruct (decide (at_pos b = at_pos p)) as [He|He]; [|apply Hmono, Hd; [done | done | lia]].
  assert (b = p) as -> by (eapply reach_inj; [by eapply reach_run | done | done]). apply advs_le in Hpl.
  destruct (Hcov a M Ha Hpl Hr ltac:(by right)) as [Hl|(t & Ht & HtM & Hle)]; [by apply Hmono, later_beaten|].
  destruct (si_match _ _ _ _ _ _ _ _ _ HI t Ht HtM) as [H1 H2]. split; [done|]. rewrite Forall_forall in Hs. destruct (Hs t Ht) as (_ & _ & _ & Hc1 & _).
  rewrite (Hc1 HtM) in H2. lia.
Qed.

Lemma turn_covers p q gen D w m best :
  sinv v M gen p q m best D w → covers (λ x, x <= at_pos p)%nat p D m best → reach v p → adv v p q →
  covers (λ x, x < at_pos q)%nat q (s_next w) (s_matched w) (s_best w).
Proof using All.
  intros HI Hcov Hp Hpq a pc Ha Hlt Hr Hl. cbv beta in Hlt. destruct (run_cross v _ _ _ _ _ Ha Hp Hpq Hr Hlt) as (r & Hrd & Hr1 & Hcs & He).
  assert (∀ s, later m best s → later (s_matched w) (s_best w) s) as Hmono.
  { intros s Hbt. eapply later_trans; [|done]. apply (si_mono _ _ _ _ _ _ _ _ _ HI). by destruct Hbt. }
  destruct (Hcov a r Ha (reach_next v _ _ _ Hp Hpq Ha Hlt) Hr1 ltac:(by left)) as [Hla|(t & Ht & <- & Hle)]; [left; by apply Hmono|].
  destruct (si_read _ _ _ _ _ _ _ _ _ HI t Ht Hrd Hcs) as [[H1 H2]|Hall]; [left; split; [done | lia]|]. right.
  destruct (Hall pc He Hl) as (u & Hu & Hu1 & Hu0). exists u. split_and!; [done | done|]. unfold le0 in Hu0. lia.
Qed.

(** A run over [p] is there at a reading instruction or at the end. *)
Lemma run_through pc0 a p b :
  reach v a → reach v p → (at_pos a <= at_pos p <= at_pos b)%nat → rtc (step v) (pc0, a) (M, b) → ∃ pc, listed v M pc ∧ rtc (step v) (pc0, a) (pc, p).
Proof using All.
  intros Ha Hp Hle Hr. remember (pc0, a) as s eqn:Es. remember (M, b) as t eqn:Et. revert pc0 a Es Ha Hle. induction Hr as [s|s m t H Hr IH]; intros pc0 a Es Ha Hle.
  - rewrite Es in Et. injection Et as -> ->. assert (b = p) as -> by (eapply reach_inj; [done | done | lia]). exists M. split; [by right | by rewrite Es].
  - subst s. inv H.
    + destruct (IH eq_refl _ _ eq_refl Ha Hle) as (pc & Hl & Hpc). exists pc. split; [done|]. eapply rtc_l; [by apply step_eps | done].
    + match goal with H : consume v _ a ?a' |- _ => rename a' into a1; rename H into Hcs end. pose proof (consume_adv _ _ _ _ Hcs) as Had.
      destruct (decide (at_pos a = at_pos p)) as [He|He].
      * assert (a = p) as -> by (by eapply reach_inj). exists pc0. split; [by left | done].
      * assert (at_pos a1 <= at_pos p)%nat as Hle1.
        { destruct (decide (at_pos a1 <= at_pos p)%nat); [done|]. pose proof (reach_next v a a1 p Ha Had Hp ltac:(lia)). lia. }
        destruct (IH eq_refl _ _ eq_refl (reach_run v _ _ Ha (rtc_once _ _ Had)) ltac:(lia)) as (pc & Hl & Hpc). exists pc. split; [done|]. eapply rtc_l; [by apply step_read | done].
Qed.

(** No thread is left: no better match can be found. *)
Lemma no_thread_done p best :
  reach v p → before p true best → covers (λ x, x <= at_pos p)%nat p [] true best → done_to (λ x, x < at_pos p)%nat true best → done_to (λ _, True) true best.
Proof using All.
  intros Hp Hb Hcov Hd a b Ha Hr _. destruct (decide (at_pos b < at_pos p)%nat) as [Hlt|Hge]; [by apply Hd|].
  destruct (decide (at_pos a <= at_pos p)%nat) as [Hle|Hgt].
  - destruct (run_through 0 a p b Ha Hp ltac:(lia) Hr) as (pc & Hl & Hpc). destruct (Hcov a pc Ha Hle Hpc Hl) as [Hla|(t & Ht & _)]; [by apply later_beaten | by apply elem_of_nil in Ht].
  - split; [done|]. left. pose proof (before_later p true best Hb eq_refl). lia.
Qed.

(** The result of pike_run. *)
Definition leftmost_longest (m : bool) (best : list Z) : Prop :=
  (m = true → ∃ a b, reach v a ∧ rtc (step v) (0%nat, a) (M, b) ∧ cap 0 best = Z.of_nat (at_pos a) ∧ cap 1 best = Z.of_nat (at_pos b)) ∧
  done_to (λ _, True) m best.

Lemma at_end_reach p b : reach v p → (char_at v (at_pos p)).2 = 0%nat → reach v b → (at_pos b <= at_pos p)%nat.
Proof using All.
  intros Hp Hn Hb. destruct (decide (at_pos b <= at_pos p)%nat) as [|Hgt]; [done|]. assert (rtc (adv v) p b) as H by (apply reach_le; [done | done | lia]).
  inv H; [lia|]. match goal with H : adv v p _ |- _ => destruct H as (c & n & Hca & Hnz & _) end. rewrite Hca in Hn. done.
Qed.

Lemma pike_loop_ok fuel p gen mark cl m best c clen :
  linv p gen mark cl m best → char_at v (at_pos p) = (c, clen) → 0 <= gen → (v_end v - at_pos p < fuel)%nat → gen + 2 * Z.of_nat fuel < 2 ^ 32 →
  let '(m', best') := pike_loop v (replicate (v_ncap v) (-1)) fuel (at_pos p) (prevc p) c clen gen mark cl m best in leftmost_longest m' best'.
Proof using All.
  revert p gen mark cl m best c clen. induction fuel as [|fuel IH]; intros p gen mark cl m best c clen HI Hc Hg Hf Hw; [lia|]. cbn [pike_loop].
  rewrite (uwrap_small 32 (gen + 1)) by lia. pose proof (seed_ok p (gen + 1) mark cl m best) as Hseed. rewrite Z.add_simpl_r in Hseed.
  destruct (Hseed HI ltac:(lia)) as (mark1 & cl1 & Heq & Hup & Hlen & Hs & Hsort & Hcov). clear Hseed. cbv zeta in Heq. rewrite Hc in Heq. cbn [fst] in Heq. rewrite Heq. clear Heq.
  destruct HI as [L1 _ _ _ _ _ _ L8 L9]. destruct (match cl1 with [] => m | _ :: _ => false end) eqn:Ebrk.
  { destruct cl1; [|done]. subst m. split; [|by apply (no_thread_done p)]. intros _. destruct (L9 eq_refl) as (a & b & ? & ? & ? & ? & _). by exists a, b. }
  clear Ebrk. rewrite (uwrap_small 32 (gen + 1 + 1)) by lia.
  assert (∀ q, table v M (gen + 1 + 1) q mark1 []) as HT.
  { intros q. assert (∀ pc, ¬ marked (gen + 1 + 1) mark1 pc) as Hno.
    { intros pc. unfold marked. rewrite nth_lookup. destruct (mark1 !! pc) as [x|] eqn:E; cbn; [|lia]. unfold upto in Hup. rewrite Forall_lookup in Hup. specialize (Hup pc x E). lia. }
    split; try done; [intros pc ? _; by destruct (Hno pc) | intros pc ? ? _; by destruct (Hno pc) | constructor]. }
  assert (∀ q, sinv v M (gen + 1 + 1) p q m best [] (Sweep mark1 [] m best)) as Hinit.
  { intros q. split; cbn [s_mark s_next s_matched s_best]; try done; try (by intros ? ?%elem_of_nil); [constructor | |].
    - intros Hm. destruct (L9 Hm) as (a & b & ? & ? & ? & ? & ?). exists a, b. split_and!; [done.. | lia].
    - intros Hm. split; [done | right; lia]. }
  destruct (Nat.eqb_spec clen 0) as [Hz|Hz].
  - pose proof (sweep_ok v M Hsh Hcap (gen + 1 + 1) ltac:(lia) p p c clen (-1) Hc ltac:(done) m best cl1 _ (Hinit p) Hs Hsort) as HS.
    split.
    + intros Hm. destruct (si_best _ _ _ _ _ _ _ _ _ HS Hm) as (a & b & ? & ? & ? & ? & _). by exists a, b.
    + intros a b Ha Hr _. refine (turn_done p p _ cl1 _ c clen (-1) m best HS Hcov Hs L8 L1 Hc ltac:(done) a b Ha Hr _). apply at_end_reach; [done | by rewrite Hc|].
      apply run_places in Hr. by eapply reach_run.
  - set (q := Pl (at_pos p + clen) c). destruct (char_at v (at_pos p + clen)) as [nc nlen] eqn:Hnc.
    assert (clen ≠ 0%nat → q = Pl (at_pos p + clen) c ∧ nc = (char_at v (at_pos q)).1) as Hq by (intros _; cbn; by rewrite Hnc).
    pose proof (sweep_ok v M Hsh Hcap (gen + 1 + 1) ltac:(lia) p q c clen nc Hc Hq m best cl1 _ (Hinit q) Hs Hsort) as HS.
    pose proof (sweep_upto v (gen + 1 + 1) c clen (at_pos p + clen) nc (Sweep mark1 [] m best) cl1) as Hup2. set (w := foldl _ _ cl1) in *.
    assert (adv v p q) as Hadv by (by exists c, clen). assert (reach v q) as Hrq by (by eapply reach_run, rtc_once).
    destruct (char_at_cases v Hbytes (at_pos p)) as [[_ H]|[Hlt _]]; [congruence|].
    replace (if nc <? 0 then 0%nat else nlen) with nlen.
    2: { destruct (char_at_cases v Hbytes (at_pos p + clen)) as [[_ H]|[_ (c' & n' & H & H1 & H2)]]; rewrite Hnc in H; injection H as -> ->; [done|]. by rewrite (proj2 (Z.ltb_ge _ _)). }
    apply (IH q (gen + 1 + 1)); [|done | lia | unfold q; cbn [at_pos]; lia | lia]. split; try done.
    + apply Hup2. apply (Forall_impl _ _ _ Hup). lia.
    + by apply tb_len with (1 := si_table _ _ _ _ _ _ _ _ _ HS).
    + by apply (si_sound _ _ _ _ _ _ _ _ _ HS).
    + by apply (si_sorted _ _ _ _ _ _ _ _ _ HS).
    + by apply tb_nodup with (1 := si_table _ _ _ _ _ _ _ _ _ HS).
    + by apply (turn_covers p q _ cl1 w m best HS).
    + intros a b Ha Hr Hb. refine (turn_done p q _ cl1 w c clen nc m best HS Hcov Hs L8 L1 Hc Hq a b Ha Hr _). apply (reach_next v p q b L1 Hadv); [|done]. apply run_places in Hr. by eapply reach_run.
    + intros Hm. destruct (si_best _ _ _ _ _ _ _ _ _ HS Hm) as (a & b & ? & ? & ? & ? & ?). exists a, b. split_and!; [done.. |]. apply adv_lt in Hadv. lia.
Qed.
End Run.

(** ** The program of a tree *)

Section Tree.
Context (v : vm) (x : node) (ns nsb : Z) (Hw : wf x) (Hfit : fits ns nsb false x) (Hcode : p_code (v_prog v) = code (assemble x)).

Definition last_pc : nat := (Z.to_nat (csize x) + 2)%nat.

Lemma code_whole : code_at v 0 (Inst I_SAVE 0 0 0 :: compile x 1 0 ++ [Inst I_SAVE 1 0 0; Inst I_MATCH 0 0 0]).
Proof using Hw Hcode. intros i d Hi. by rewrite Hcode, assemble_eq. Qed.

Lemma code_parts :
  inst_at v 0 = Inst I_SAVE 0 0 0 ∧ code_at v 1 (compile x 1 0) ∧ inst_at v (last_pc - 1) = Inst I_SAVE 1 0 0 ∧ inst_at v last_pc = Inst I_MATCH 0 0 0.
Proof using Hw Hcode.
  pose proof code_whole as H. apply code_at_cons in H as (H1 & _ & H). apply code_at_app in H as [H2 H]. pose proof (compile_length x 1 0 Hw) as Hl. pose proof (csize_nonneg x Hw).
  unfold last_pc. replace (1 + length (compile x 1 0))%nat with (Z.to_nat (csize x) + 2 - 1)%nat in H by lia. apply code_at_cons in H as (H3 & _ & H). apply code_at_cons in H as (H4 & _ & _).
  by replace (S (Z.to_nat (csize x) + 2 - 1))%nat with (Z.to_nat (csize x) + 2)%nat in H4 by lia.
Qed.

Lemma tree_shape : shape v last_pc.
Proof using All.
  destruct code_parts as (H1 & H2 & H3 & H4). pose proof (compile_length x 1 0 Hw) as Hl. pose proof (csize_nonneg x Hw). split; try done.
  - rewrite Hcode, assemble_eq by done. unfold last_pc. cbn [length]. rewrite length_app. cbn [length]. lia.
  - unfold last_pc. lia.
  - intros pc Hpc. unfold last_pc in *. destruct (lookup_lt_is_Some_2 (compile x 1 0) (pc - 1)) as [i Hi]; [lia|]. specialize (H2 _ _ Hi).
    replace (1 + (pc - 1))%nat with pc in H2 by lia. assert (inst_at v pc = i) as -> by (by apply nth_lookup_Some).
    pose proof (compile_valid ns nsb false x 1 0 Hw Hfit) as Hv. rewrite Forall_lookup in Hv. specialize (Hv _ _ Hi). apply valid_ok in Hv.
    by replace (Z.of_nat (Z.to_nat (csize x) + 2 - 1)) with (1 + csize x) by lia.
Qed.

(** Runs of the whole program are the matches of the tree. *)
Lemma run_matches a b : rtc (step v) (0%nat, a) (last_pc, b) ↔ matches v x a b.
Proof using All.
  destruct code_parts as (H1 & H2 & H3 & H4). pose proof (csize_nonneg x Hw). pose proof (compile_impl v x Hw (fits_plain _ _ _ Hfit) 1 0 H2) as [_ HA HE].
  set (e := (1 + Z.to_nat (csize x))%nat) in *. replace (last_pc - 1)%nat with e in H3 by (unfold e, last_pc; lia). assert (last_pc = S e) as HM by (unfold e, last_pc; lia).
  assert (∀ q m, inst_at v q = Inst I_SAVE m 0 0 → ∀ p t, step v (q, p) t ↔ t = (S q, p)) as Hsave.
  { intros q m Hq p t. split; [intros Ht; inv Ht; unfold eps, reads in *; rewrite Hq in *; [set_solver | done] | intros ->; constructor; unfold eps; rewrite Hq; by left]. }
  assert (∀ p t, ¬ step v (last_pc, p) t) as Hend.
  { intros p t Ht. inv Ht; unfold eps, reads in *; rewrite H4 in *; [set_solver | done]. }
  split.
  - intros Hr. apply rtc_nsteps in Hr as [k Hk]. inv Hk; [unfold last_pc in *; lia|].
    match goal with H : step v (0%nat, a) _ |- _ => apply (Hsave _ _ H1) in H; subst end.
    match goal with H : nsteps (step v) ?j _ _ |- _ => destruct (HE j a last_pc b H ltac:(lia)) as (i & c & _ & Hm & Hk) end.
    inv Hk; [lia|]. match goal with H : step v (e, c) _ |- _ => apply (Hsave _ _ H3) in H; subst end. rewrite <- HM in *.
    match goal with H : nsteps (step v) _ (last_pc, c) (last_pc, b) |- _ => inv H; [done|] end. exfalso. by eapply Hend.
  - intros Hm. eapply rtc_l; [by apply (Hsave _ _ H1)|]. etrans; [by apply HA|]. rewrite HM. apply rtc_once. by apply (Hsave _ _ H3).
Qed.

Lemma pike_ok best :
  (2 <= v_ncap v)%nat → Forall is_byte (v_s v) → Z.of_nat (v_end v) < 2 ^ 31 - 2 →
  let '(m, best') := pike_run v best in leftmost_longest v last_pc m best'.
Proof using All.
  intros Hcap Hb Hlen. unfold pike_run. cbv zeta. destruct (char_at v (v_beg v)) as [c clen] eqn:Hc.
  assert (char_before v (v_beg v) = -1) as -> by (unfold char_before; by rewrite Nat.leb_refl).
  change (v_beg v) with (at_pos (start v)) at 2. change (-1) with (prevc (start v)) at 2.
  apply (pike_loop_ok v last_pc tree_shape Hcap Hb); [|done | done | cbn [at_pos start]; lia | lia].
  assert (∀ a, reach v a → (v_beg v <= at_pos a)%nat) as Hge by (intros a Ha; by apply advs_le in Ha).
  split; try done.
  - unfold reach. done.
  - apply Forall_replicate. lia.
  - rewrite length_replicate. apply (sh_len _ _ tree_shape).
  - constructor.
  - constructor.
  - intros a pc Ha Hlt. specialize (Hge a Ha). cbn in Hlt. lia.
  - intros a b Ha Hr Hlt. apply run_places in Hr. specialize (Hge b (reach_run _ _ _ Ha Hr)). cbn in Hlt. lia.
Qed.

(** The match between [a] and [b] is the leftmost one, and the longest of
    those. *)
Definition best_match (a b : place) : Prop :=
  reach v a ∧ matches v x a b ∧
  ∀ a' b', reach v a' → matches v x a' b' → (at_pos a <= at_pos a')%nat ∧ (at_pos a' = at_pos a → (at_pos b' <= at_pos b)%nat).

Lemma pike_best best :
  (2 <= v_ncap v)%nat → Forall is_byte (v_s v) → Z.of_nat (v_end v) < 2 ^ 31 - 2 →
  let '(m, best') := pike_run v best in
  if m then ∃ a b, best_match a b ∧ cap 0 best' = Z.of_nat (at_pos a) ∧ cap 1 best' = Z.of_nat (at_pos b)
  else ∀ a b, reach v a → ¬ matches v x a b.
Proof using All.
  intros H1 H2 H3. pose proof (pike_ok best H1 H2 H3) as H. destruct (pike_run v best) as [m best']. destruct H as [Hs Hd]. destruct m.
  - destruct (Hs eq_refl) as (a & b & Ha & Hr & Hc0 & Hc1). exists a, b. split; [|done]. split_and!; [done | by apply run_matches|].
    intros a' b' Ha' Hm. apply run_matches in Hm. destruct (Hd a' b' Ha' Hm I) as [_ Hb]. lia.
  - intros a b Ha Hm. apply run_matches in Hm. by destruct (Hd a b Ha Hm I).
Qed.
End Tree.

(** ** regexec *)

(** The machine that regexec sets up. *)
Definition machine (p : prog) (str : list Z) (nmatch : nat) (pm0 : Z * Z) (eflags : Z) : vm :=
  let se := has eflags REG_STARTEND in
  let ncap := (2 * (Z.to_nat (p_nsub p) + 1))%nat in
  Vm p str (if se then Z.to_nat pm0.1 else 0%nat) (if se then Z.to_nat pm0.2 else length str) eflags (has (p_flags p) REG_ICASE) (has (p_flags p) REG_NEWLINE)
    (if p_backrefs p then ncap else if ((if has (p_flags p) REG_NOSUB then 0 else nmatch) =? 0)%nat then 2%nat else ncap).

Lemma regexec_eq p str nmatch pm0 eflags :
  p_backrefs p = false → (has eflags REG_STARTEND = true → 0 <= pm0.1 <= pm0.2) →
  regexec p str nmatch pm0 eflags =
  let v := machine p str nmatch pm0 eflags in
  let '(m, best) := pike_run v (replicate (2 * (Z.to_nat (p_nsub p) + 1)) (-1)) in
  if m then (0, (λ i, if (2 * i + 1 <? v_ncap v)%nat && (0 <=? cap (2 * i) best) && (0 <=? cap (2 * i + 1) best)
                      then (cap (2 * i) best, cap (2 * i + 1) best) else (-1, -1)) <$> seq 0 (if has (p_flags p) REG_NOSUB then 0%nat else nmatch))
  else (REG_NOMATCH, []).
Proof.
  intros Hbr Hse. unfold regexec, regexec_with, machine. rewrite Hbr. destruct (has eflags REG_STARTEND).
  - specialize (Hse eq_refl). rewrite (proj2 (Z.ltb_ge _ _)) by lia. rewrite (proj2 (Z.ltb_ge pm0.2 pm0.1)) by lia. cbn [orb].
    destruct (pike_run _ _) as [[] best]; done.
  - destruct (pike_run _ _) as [[] best]; done.
Qed.

(** C18: For every pattern without back-references, every flag and every
    text, regexec finds a match exactly when the tree of the pattern matches
    somewhere in the text, and then reports the leftmost match and the
    longest of those that start there. With REG_STARTEND only the given range
    of the text is searched. *)
Theorem regexec_spec pat flags p x ps str nmatch pm0 eflags :
  regcomp pat flags = inl p → parse pat flags = inl (x, ps) → p_backrefs p = false →
  Forall is_byte str → Z.of_nat (length str) < 2 ^ 31 - 2 → (has eflags REG_STARTEND = true → 0 <= pm0.1 <= pm0.2 ∧ pm0.2 <= Z.of_nat (length str)) →
  let v := machine p str nmatch pm0 eflags in
  let n := if has (p_flags p) REG_NOSUB then 0%nat else nmatch in
  (regexec p str nmatch pm0 eflags = (REG_NOMATCH, []) ∧ ∀ a b, reach v a → ¬ matches v x a b) ∨
  (∃ a b pm, regexec p str nmatch pm0 eflags = (0, pm) ∧ best_match v x a b ∧ length pm = n ∧
     ((0 < n)%nat → pm !! 0%nat = Some (Z.of_nat (at_pos a), Z.of_nat (at_pos b)))).
Proof.
  intros Hrc Hparse Hbr Hb Hlen Hse v n. unfold regcomp in Hrc. pose proof (parse_tree pat flags) as Ht. rewrite Hparse in Hrc, Ht.
  destruct Ht as ([Hw Hf] & _ & Hn). destruct (_ <? _); [done|]. injection Hrc as <-. cbn [p_backrefs] in Hbr. rewrite Hbr in Hf.
  set (p := Prog _ _ _ _ _ _) in *. assert (p_backrefs p = false) as Hbr' by done.
  assert (2 <= v_ncap v)%nat as Hcap by (unfold v, machine; cbn [v_ncap]; rewrite Hbr'; destruct (_ =? 0)%nat; lia).
  assert (Z.of_nat (v_end v) < 2 ^ 31 - 2) as Hend by (unfold v, machine; cbn [v_end]; destruct (has eflags REG_STARTEND); [specialize (Hse eq_refl)|]; lia).
  rewrite regexec_eq; [|done | intros E; specialize (Hse E); lia]. fold v. cbv zeta.
  pose proof (pike_best v x _ _ Hw Hf eq_refl (replicate (2 * (Z.to_nat (p_nsub p) + 1)) (-1)) Hcap Hb Hend) as Hp.
  destruct (pike_run v _) as [[] best]; [right | by left]. destruct Hp as (a & b & Hm & H0 & H1). eexists a, b, _. split; [done|]. split_and!; [done | by rewrite length_fmap, length_seq|].
  intros Hpos. fold n. destruct n as [|k]; [lia|]. cbn [seq fmap list_fmap lookup]. rewrite (proj2 (Nat.ltb_lt _ _)) by lia. cbn [Nat.mul Nat.add].
  rewrite H0, H1. by rewrite !(proj2 (Z.leb_le _ _)) by lia.
Qed.

(** A bracket expression repeated, in the middle of a text. *)
Definition demo_pat : list Z := lit "a[bc]*".
Definition demo_tree : node := N_CAT (N_CHAR 97) (N_REP (N_SET 0) 0 (-1)).
Definition demo_prog : prog := match regcomp demo_pat REG_EXTENDED with inl p => p | inr _ => Prog [] [] 0 0 0 false end.
Definition demo_text : list Z := lit "xabcbab".

Lemma regexec_spec_witness :
  ∃ a b, regexec demo_prog demo_text 1 (0, 0) 0 = (0, [(1, 5)]) ∧ best_match (machine demo_prog demo_text 1 (0, 0) 0) demo_tree a b ∧ at_pos a = 1%nat ∧ at_pos b = 5%nat.
Proof.
  destruct (regexec_spec demo_pat REG_EXTENDED demo_prog demo_tree
    (match parse demo_pat REG_EXTENDED with inl (_, ps) => ps | inr _ => Ps 0 0 [] 0 0 0 false end) demo_text 1 (0, 0) 0)
    as [[H _]|(a & b & pm & H & Hm & Hl & Hpm)].
  - vm_compute. reflexivity.
  - vm_compute. reflexivity.
  - vm_compute. reflexivity.
  - apply (bool_decide_eq_true_1 _). vm_compute. reflexivity.
  - vm_compute. reflexivity.
  - intros H. exfalso. vm_compute in H. discriminate H.
  - exfalso. vm_compute in H. discriminate H.
  - exists a, b. assert (regexec demo_prog demo_text 1 (0, 0) 0 = (0, [(1, 5)])) as Hr by (vm_compute; reflexivity).
    split; [exact Hr|]. split; [exact Hm|]. rewrite H in Hr. injection Hr as ->. specialize (Hpm (Nat.lt_0_succ 0)). cbn in Hpm. injection Hpm as Ha Hb. split; lia.
Defined.
