(* ===== verification/Fpround.v ===== *)
(** * Floating-point formats and rounding to nearest (src/src/strtod.c)

    A finite non-negative number of a format is m * 2^e with m below 2^p and e
    at least emin. [nearest] says which number a fraction n/d has to be
    rounded to; distances are multiplied by d * 2^-emin, so that everything
    stays in the integers. The exponent is not bounded above: as in IEEE 754
    a result overflows when the rounded number does. *)
From S2P Require Import Prelude.

Abbreviation u128 := (uwrap 128).

Record ffmt := Ffmt { fp : Z; emin : Z; emax : Z; dmax : Z; dmin : Z }.

Definition F_FLT : ffmt := Ffmt 24 (-149) 104 40 (-47).
Definition F_DBL : ffmt := Ffmt 53 (-1074) 971 310 (-325).
Definition F_LDBL : ffmt := Ffmt 64 (-16445) 16320 4934 (-4953).

#[export] Instance ffmt_eq_dec : EqDecision ffmt.
Proof. solve_decision. Defined.

(** ** Nearest numbers *)

Definition canon (F : ffmt) (m e : Z) : Prop :=
  0 <= m < 2 ^ fp F ∧ emin F <= e ∧ (2 ^ (fp F - 1) <= m ∨ e = emin F).

Definition dist (F : ffmt) (n d m e : Z) : Z := Z.abs (n * 2 ^ (- emin F) - d * (m * 2 ^ (e - emin F))).

Definition nearest (F : ffmt) (n d m e : Z) : Prop :=
  canon F m e ∧
  ∀ m' e', 0 <= m' < 2 ^ fp F → emin F <= e' →
    dist F n d m e <= dist F n d m' e' ∧
    (dist F n d m e = dist F n d m' e' → m' * 2 ^ (e' - emin F) = m * 2 ^ (e - emin F) ∨ Z.even m = true).

(** The fraction lies between the points half way to the neighbours of
    m * 2^e: the next number below is closer at the start of a binade. *)
Record between (F : ffmt) (n d m e : Z) : Prop := {
  bw_low : let N := n * 2 ^ (- emin F) in let D := d * 2 ^ (e - emin F) in
           (2 * m - 1) * D <= 2 * N ∧ ((2 * m - 1) * D = 2 * N → Z.even m = true);
  bw_high : let N := n * 2 ^ (- emin F) in let D := d * 2 ^ (e - emin F) in
            2 * N <= (2 * m + 1) * D ∧ (2 * N = (2 * m + 1) * D → Z.even m = true);
  bw_start : let N := n * 2 ^ (- emin F) in let D := d * 2 ^ (e - emin F) in
             m = 2 ^ (fp F - 1) → emin F < e → (4 * m - 1) * D <= 4 * N;
}.

Section Nearest.
Context (F : ffmt) (Hp : 2 <= fp F) (Hemin : emin F <= 0).

Lemma pow_pred : 2 ^ fp F = 2 * 2 ^ (fp F - 1) ∧ 2 <= 2 ^ (fp F - 1) ∧ Z.even (2 ^ (fp F - 1)) = true.
Proof using Hp.
  split_and!.
  - rewrite <- Z.pow_succ_r by lia. f_equal. lia.
  - change 2 with (2 ^ 1) at 1. apply Z.pow_le_mono_r; lia.
  - replace (fp F - 1) with (Z.succ (fp F - 2)) by lia. rewrite Z.pow_succ_r by lia. by rewrite Z.even_mul.
Qed.

Lemma between_nearest n d m e : 0 < d → canon F m e → between F n d m e → nearest F n d m e.
Proof using Hp Hemin.
  intros Hd Hc [[L1 L2] [U1 U2] S1]. split; [done|]. intros m' e' Hm' He'. destruct Hc as (Hm & He & Hn). unfold dist. destruct pow_pred as (P1 & P2 & P3).
  set (N := n * 2 ^ (- emin F)) in *. set (W := 2 ^ (e - emin F)) in *. assert (0 < W) as HW by (apply Z.pow_pos_nonneg; lia).
  set (D := d * W) in *. assert (0 < D) as HD by (unfold D; nia). replace (d * (m * W)) with (m * D) by (unfold D; ring).
  destruct (decide (e <= e')) as [Hle|Hlt].
  - assert (2 ^ (e' - emin F) = 2 ^ (e' - e) * W) as -> by (unfold W; rewrite <- Z.pow_add_r by lia; f_equal; lia).
    set (j := m' * 2 ^ (e' - e)). replace (d * (m' * (2 ^ (e' - e) * W))) with (j * D) by (unfold j, D; ring). replace (m' * (2 ^ (e' - e) * W)) with (j * W) by (unfold j; ring).
    destruct (Z.lt_trichotomy j m) as [Hj|[->|Hj]]; [| split; [lia | by left]|].
    + assert (j * D <= (m - 1) * D) by nia. split; [lia|]. intros Ht. right. apply L2. lia.
    + assert ((m + 1) * D <= j * D) by nia. split; [lia|]. intros Ht. right. apply U2. lia.
  - assert (emin F < e) as Hne by lia. destruct Hn as [Hn|?]; [|lia]. set (D' := d * 2 ^ (e' - emin F)). replace (d * (m' * 2 ^ (e' - emin F))) with (m' * D') by (unfold D'; ring).
    assert (0 < D') as HD' by (unfold D'; assert (0 < 2 ^ (e' - emin F)) by (apply Z.pow_pos_nonneg; lia); nia).
    assert (2 * D' <= D) as H2.
    { unfold D, D', W. replace (e - emin F) with (Z.succ (e' - emin F) + (e - e' - 1)) by lia. rewrite Z.pow_add_r, Z.pow_succ_r by lia.
      assert (1 <= 2 ^ (e - e' - 1)) by (apply (Z.pow_le_mono_r 2 0); lia). assert (0 < 2 ^ (e' - emin F)) by (apply Z.pow_pos_nonneg; lia). nia. }
    assert (m' * D' <= (2 ^ fp F - 1) * D') as Hv by nia. rewrite P1 in Hv.
    destruct (decide (m = 2 ^ (fp F - 1))) as [Hmp|Hmp].
    + specialize (S1 Hmp Hne). rewrite <- Hmp in *. assert (2 * (m' * D') <= (2 * m - 1) * D) by nia. split; [lia|]. intros _. by right.
    + set (P := 2 ^ (fp F - 1)) in *. assert (m' * D' < (m - 1) * D) by nia. split; lia.
Qed.

(** ** Rounding half to even *)

(** [k] + [r]/[D] rounded. *)
Definition rne (k r D : Z) : Z := if (D <? 2 * r) || ((2 * r =? D) && Z.odd k) then k + 1 else k.

Lemma rne_spec k r D : 0 <= r < D → let m := rne k r D in
  (m = k ∧ 2 * r <= D ∨ m = k + 1 ∧ D <= 2 * r) ∧ (2 * r = D → Z.even m = true).
Proof using Type.
  intros Hr. unfold rne. destruct (Z.ltb_spec D (2 * r)); cbn [orb]; [split; [right; lia | lia]|].
  destruct (Z.eqb_spec (2 * r) D); cbn [andb]; [|split; [left; lia | done]].
  rewrite <- Z.negb_even. destruct (Z.even k) eqn:E; cbn [negb]; (split; [lia|]); [done|]. intros _. by rewrite Z.even_add, E.
Qed.

(** A mantissa of p + 1 bits is the first of the next binade. *)
Definition carry (F : ffmt) (m e : Z) : Z * Z := if m =? 2 ^ fp F then (2 ^ (fp F - 1), e + 1) else (m, e).

Lemma rne_between n d e k r m1 e1 :
  0 < d → emin F <= e → n * 2 ^ (- emin F) = k * (d * 2 ^ (e - emin F)) + r → 0 <= r < d * 2 ^ (e - emin F) →
  0 <= k < 2 ^ fp F → (2 ^ (fp F - 1) <= k ∨ e = emin F) →
  carry F (rne k r (d * 2 ^ (e - emin F))) e = (m1, e1) → canon F m1 e1 ∧ between F n d m1 e1.
Proof using Hp Hemin.
  intros Hd He HN Hr Hk Hcan. set (D := d * 2 ^ (e - emin F)) in *. destruct (rne_spec k r D Hr) as [Hm Ht]. set (m := rne k r D) in *. destruct pow_pred as (P1 & P2 & P3).
  unfold carry. destruct (Z.eqb_spec m (2 ^ fp F)) as [Hc|Hc]; intros [= <- <-].
  - assert (m = k + 1 ∧ D <= 2 * r) as [Hk1 Hr2] by lia. split; [unfold canon; lia|].
    assert (d * 2 ^ (e + 1 - emin F) = 2 * D) as HD by (unfold D; replace (e + 1 - emin F) with (Z.succ (e - emin F)) by lia; rewrite Z.pow_succ_r by lia; ring).
    split; cbv zeta; rewrite HD, HN; set (P := 2 ^ (fp F - 1)) in *; assert (k = 2 * P - 1) as -> by lia; [split; [nia | done] | split; [nia | done] | intros _ _; nia].
  - split; [unfold canon; lia|]. split; cbv zeta; fold D; rewrite HN.
    + split; [nia|]. intros E. apply Ht. destruct Hm as [[-> ?]|[-> ?]]; nia.
    + split; [nia|]. intros E. apply Ht. destruct Hm as [[-> ?]|[-> ?]]; nia.
    + intros Hs Hlt. destruct Hcan as [Hcan|?]; [|lia]. destruct Hm as [[-> ?]|[-> ?]]; nia.
Qed.

(** ** The operations of the machine

    The exact result, rounded: the conversions, products and quotients of
    the language, for non-negative operands. *)

Inductive fl := Fin (m e : Z) | Inf.

Definition flog2 (n d : Z) : Z :=
  let l := Z.log2 n - Z.log2 d in
  if n * 2 ^ Z.max (- l) 0 <? d * 2 ^ Z.max l 0 then l - 1 else l.

Definition bounded (e m : Z) : fl := if emax F <? e then Inf else Fin m e.

Definition fround (n d : Z) : fl :=
  if n =? 0 then Fin 0 (emin F) else
  let e := Z.max (emin F) (flog2 n d - fp F + 1) in
  let N := n * 2 ^ Z.max (- e) 0 in
  let D := d * 2 ^ Z.max e 0 in
  let '(m, e) := carry F (rne (N / D) (N mod D) D) e in
  bounded e m.

Lemma flog2_spec n d K :
  0 < n → 0 < d → 0 <= K →
  (0 <= flog2 n d + K → d * 2 ^ (flog2 n d + K) <= n * 2 ^ K < d * 2 ^ (flog2 n d + K + 1)) ∧ (flog2 n d + K < 0 → n * 2 ^ K < d).
Proof using All.
  intros Hn Hd HK. destruct (Z.log2_spec n Hn) as [N1 N2]. destruct (Z.log2_spec d Hd) as [D1 D2]. pose proof (Z.log2_nonneg n). pose proof (Z.log2_nonneg d).
  set (a := Z.log2 n) in *. set (b := Z.log2 d) in *. unfold flog2. fold a b. set (l := a - b).
  assert (∀ i, 0 <= i → 0 < 2 ^ i) as Hpos by (intros; by apply Z.pow_pos_nonneg).
  assert (∀ i j, 0 <= i → 0 <= j → 2 ^ (i + j) = 2 ^ i * 2 ^ j) as Hadd by (intros; by apply Z.pow_add_r).
  assert (d * 2 ^ Z.max l 0 < 2 * (n * 2 ^ Z.max (- l) 0)) as Hlo.
  { assert (2 ^ Z.succ b * 2 ^ Z.max l 0 = 2 * (2 ^ a * 2 ^ Z.max (- l) 0)) as E.
    { rewrite <- !Hadd by lia. rewrite <- Z.pow_succ_r by lia. f_equal. lia. }
    pose proof (Hpos (Z.max l 0) ltac:(lia)). pose proof (Hpos (Z.max (- l) 0) ltac:(lia)). nia. }
  assert (n * 2 ^ Z.max (- l) 0 < 2 * (d * 2 ^ Z.max l 0)) as Hhi.
  { assert (2 ^ Z.succ a * 2 ^ Z.max (- l) 0 = 2 * (2 ^ b * 2 ^ Z.max l 0)) as E.
    { rewrite <- !Hadd by lia. rewrite <- Z.pow_succ_r by lia. f_equal. lia. }
    pose proof (Hpos (Z.max l 0) ltac:(lia)). pose proof (Hpos (Z.max (- l) 0) ltac:(lia)). nia. }
  set (f := if _ <? _ then _ else _).
  assert (∃ g h, 0 <= g ∧ 0 <= h ∧ g - h = f ∧ d * 2 ^ g <= n * 2 ^ h < d * 2 ^ (g + 1)) as (g & h & Hg & Hh & Hgh & Hb).
  { unfold f. set (g := Z.max l 0) in *. set (h := Z.max (- l) 0) in *. destruct (Z.ltb_spec (n * 2 ^ h) (d * 2 ^ g)).
    - exists g, (h + 1). rewrite (Hadd h 1), (Hadd g 1) by lia. change (2 ^ 1) with 2. split_and!; lia.
    - exists g, h. rewrite (Hadd g 1) by lia. change (2 ^ 1) with 2. split_and!; lia. }
  clearbody f. subst f. pose proof (Hpos h Hh). pose proof (Hpos g Hg). split.
  - intros Hf. assert (2 ^ (g - h + K) * 2 ^ h = 2 ^ g * 2 ^ K) as E by (rewrite <- !Hadd by lia; f_equal; lia).
    rewrite (Hadd (g - h + K) 1), (Hadd g 1) in * by lia. change (2 ^ 1) with 2 in *. pose proof (Hpos K HK). set (T := 2 ^ h) in *. set (G := 2 ^ g) in *. set (X := 2 ^ (g - h + K)) in *. set (Y := 2 ^ K) in *.
    split; [apply (Z.mul_le_mono_pos_r _ _ T); [done|] | apply (Z.mul_lt_mono_pos_r T); [done|]].
    + replace (d * X * T) with (d * (X * T)) by ring. rewrite E. replace (n * Y * T) with (n * T * Y) by ring. rewrite Z.mul_assoc. apply Z.mul_le_mono_nonneg_r; lia.
    + replace (d * (X * 2) * T) with (d * (X * T) * 2) by ring. rewrite E. replace (n * Y * T) with (n * T * Y) by ring.
      replace (d * (G * Y) * 2) with (d * (G * 2) * Y) by ring. apply Z.mul_lt_mono_pos_r; lia.
  - intros Hf. assert (2 ^ h = 2 ^ (h - K - g - 1) * (2 ^ (g + 1) * 2 ^ K)) as E by (rewrite <- !Hadd by lia; f_equal; lia).
    pose proof (Hpos K HK). pose proof (Hpos (h - K - g - 1) ltac:(lia)). pose proof (Hpos (g + 1) ltac:(lia)). destruct Hb as [_ Hb]. rewrite E in Hb.
    set (X := 2 ^ (h - K - g - 1)) in *. set (Y := 2 ^ K) in *. set (G := 2 ^ (g + 1)) in *. apply (Z.mul_lt_mono_pos_r (X * G)); [nia|].
    replace (n * Y * (X * G)) with (n * (X * (G * Y))) by ring. enough (d * G <= d * (X * G)) by lia. apply Z.mul_le_mono_nonneg_l; [lia|]. nia.
Qed.

(** Both sides of a fraction may be scaled. *)
Lemma rne_scale N D C : 0 < C → 0 < D → rne (N * C / (D * C)) ((N * C) mod (D * C)) (D * C) = rne (N / D) (N mod D) D.
Proof using Type.
  intros HC HD. rewrite Z.div_mul_cancel_r, Z.mul_mod_distr_r by lia. unfold rne. set (k := N / D). set (r := N mod D).
  assert ((D * C <? 2 * (r * C)) = (D <? 2 * r)) as -> by (apply eq_true_iff_eq; rewrite !Z.ltb_lt; nia).
  assert ((2 * (r * C) =? D * C) = (2 * r =? D)) as -> by (apply eq_true_iff_eq; rewrite !Z.eqb_eq; nia). done.
Qed.

Lemma fround_ok n d : 0 < n → 0 < d → ∃ m e, canon F m e ∧ between F n d m e ∧ fround n d = bounded e m.
Proof using Hp Hemin.
  intros Hn Hd. unfold fround. destruct (Z.eqb_spec n 0); [lia|]. cbv zeta. set (e := Z.max (emin F) _).
  set (C := 2 ^ (- emin F - Z.max (- e) 0)). assert (0 < C) as HC by (apply Z.pow_pos_nonneg; lia). rewrite <- (rne_scale (n * 2 ^ Z.max (- e) 0) (d * 2 ^ Z.max e 0) C) by first [done | apply Z.mul_pos_pos; [done | apply Z.pow_pos_nonneg; lia]].
  assert (n * 2 ^ Z.max (- e) 0 * C = n * 2 ^ (- emin F)) as -> by (unfold C; rewrite <- Z.mul_assoc, <- Z.pow_add_r by lia; do 2 f_equal; lia).
  assert (d * 2 ^ Z.max e 0 * C = d * 2 ^ (e - emin F)) as -> by (unfold C; rewrite <- Z.mul_assoc, <- Z.pow_add_r by lia; do 2 f_equal; lia).
  set (N := n * _). set (D := d * _).
  assert (0 < D) as HD by (unfold D; assert (0 < 2 ^ (e - emin F)) by (apply Z.pow_pos_nonneg; lia); nia).
  assert (0 <= N) as HN by (unfold N; assert (0 < 2 ^ (- emin F)) by (apply Z.pow_pos_nonneg; lia); nia).
  destruct (carry F _ e) as [m1 e1] eqn:Ec. exists m1, e1.
  assert (∀ a b, 0 <= a → 0 <= b → 2 ^ (a + b) = 2 ^ a * 2 ^ b) as Hadd by (intros; by apply Z.pow_add_r).
  destruct (flog2_spec n d (- emin F) Hn Hd ltac:(lia)) as [F1 F2]. fold N in F1, F2. set (f := flog2 n d) in *.
  assert (0 < 2 ^ fp F) as Hpp by (apply Z.pow_pos_nonneg; lia).
  assert (N < 2 ^ fp F * D) as Hlt.
  { destruct (decide (0 <= f + - emin F)) as [Hf|Hf].
    - destruct (F1 Hf) as [_ F1']. enough (d * 2 ^ (f + - emin F + 1) <= 2 ^ fp F * D) by lia. unfold D.
      replace (2 ^ fp F * (d * 2 ^ (e - emin F))) with (d * (2 ^ fp F * 2 ^ (e - emin F))) by ring. rewrite <- Hadd by lia.
      apply Z.mul_le_mono_nonneg_l; [lia|]. apply Z.pow_le_mono_r; lia.
    - specialize (F2 ltac:(lia)). assert (d <= D) by (unfold D; assert (1 <= 2 ^ (e - emin F)) by (apply (Z.pow_le_mono_r 2 0); lia); nia). nia. }
  enough (canon F m1 e1 ∧ between F n d m1 e1) by tauto. refine (rne_between n d e (N / D) (N mod D) m1 e1 Hd ltac:(lia) _ _ _ _ Ec).
  - fold N D. rewrite (Z.mul_comm (N / D)). apply Z.div_mod. lia.
  - apply Z.mod_pos_bound. lia.
  - split; [apply Z.div_pos; lia | apply Z.div_lt_upper_bound; lia].
  - destruct (decide (e = emin F)) as [|He]; [by right | left]. apply Z.div_le_lower_bound; [lia|]. destruct (F1 ltac:(lia)) as [F1' _]. fold N. etrans; [|exact F1'].
    unfold D. replace (d * 2 ^ (e - emin F) * 2 ^ (fp F - 1)) with (d * (2 ^ (e - emin F) * 2 ^ (fp F - 1))) by ring. rewrite <- Hadd by lia.
    apply Z.mul_le_mono_nonneg_l; [lia|]. apply Z.pow_le_mono_r; lia.
Qed.
End Nearest.

(** ** The long double format of the machine *)

(** The 64-bit significand and the sign and exponent of an x87 number. *)
Record ld := Ld { ld_m : Z; ld_se : Z }.

Inductive num := Num (neg : bool) (x : fl) | NaN (neg : bool).

Definition decode (l : ld) : num :=
  let neg := Z.testbit (ld_se l) 15 in
  let f := Z.land (ld_se l) 0x7fff in
  if f =? 0x7fff then (if ld_m l =? 2 ^ 63 then Num neg Inf else NaN neg)
  else Num neg (Fin (ld_m l) (Z.max f 1 - 16383 - 63)).

(** __builtin_clzll *)
Definition clzll (x : Z) : Z := 63 - Z.log2 x.

Definition sign_bit (neg : bool) : Z := if neg then 0x8000 else 0.

Definition make_ld (M E : Z) (neg : bool) : ld :=
  let u :=
    if negb (M =? 0) then
      let s := clzll M in
      let field := E - s + 63 + 16383 in
      if 1 <=? field then Ld (u64 (Z.shiftl M s)) (uwrap 16 field) else Ld M 0
    else Ld 0 0 in
  Ld (ld_m u) (Z.lor (ld_se u) (sign_bit neg)).

Definition make_inf (neg : bool) : ld := Ld (2 ^ 63) (Z.lor 0x7fff (sign_bit neg)).
Definition make_nan (neg : bool) : ld := Ld (Z.shiftl 3 62) (Z.lor 0x7fff (sign_bit neg)).

(** ** round_to *)

(** The mantissa and the exponent, and whether a bit was lost: Q * 2^E and,
    if [sticky], something below its last bit. *)
Definition round_bits (Q E : Z) (sticky : bool) (F : ffmt) : Z * Z * bool :=
  let bl := 128 - (if negb (Z.shiftr Q 64 =? 0) then clzll (Z.shiftr Q 64) else 64 + clzll (u64 Q)) in
  let drop := bl - fp F in
  let drop := if E + drop <? emin F then emin F - E else drop in
  if 0 <? drop then
    let k := if 128 <=? drop then 0 else Z.shiftr Q drop in
    let rem := if 128 <=? drop then Q else Z.land Q (Z.shiftl 1 drop - 1) in
    let some := negb (rem =? 0) || sticky in
    let up := some && (drop <=? 128) &&
      (let half := Z.shiftl 1 (drop - 1) in (half <? rem) || ((rem =? half) && (sticky || negb (Z.land k 1 =? 0)))) in
    let k := u128 (k + Z.b2z up) in
    let '(k, E) := if negb (Z.shiftr k (fp F) =? 0) then (Z.shiftr k 1, E + drop + 1) else (k, E + drop) in
    (u64 k, E, some)
  else (u64 (u128 (Z.shiftl Q (- drop))), E + drop, sticky).

(** The result, and whether errno is set to ERANGE. *)
Definition round_to (Q E : Z) (sticky : bool) (F : ffmt) (neg : bool) : ld * bool :=
  if Q =? 0 then (make_ld 0 0 neg, false) else
  let '(keep, E, inexact) := round_bits Q E sticky F in
  if negb (keep =? 0) && (emax F <? E) then (make_inf neg, true)
  else (make_ld keep E neg, inexact && (Z.shiftr keep (fp F - 1) =? 0)).

(** *** Facts on bits *)

Lemma clz_bits Q : 0 < Q < 2 ^ 128 → 128 - (if negb (Z.shiftr Q 64 =? 0) then clzll (Z.shiftr Q 64) else 64 + clzll (u64 Q)) = Z.log2 Q + 1.
Proof.
  intros HQ. unfold clzll. destruct (Z.eqb_spec (Z.shiftr Q 64) 0) as [Hz|Hz]; cbn [negb].
  - rewrite Z.shiftr_div_pow2 in Hz by lia. assert (Q < 2 ^ 64) by (pose proof (Z.mod_pos_bound Q (2 ^ 64) ltac:(lia)); pose proof (Z.div_mod Q (2 ^ 64)); lia).
    rewrite uwrap_small by lia. lia.
  - rewrite Z.log2_shiftr by lia. assert (64 <= Z.log2 Q); [|lia]. rewrite Z.shiftr_div_pow2 in Hz by lia. apply Z.log2_le_pow2; [lia|].
    destruct (decide (2 ^ 64 <= Q)); [done|]. rewrite Z.div_small in Hz by lia. done.
Qed.

Section Round.
Context (F : ffmt) (Hp : 2 <= fp F <= 64) (Hemin : emin F <= 0).

(** The decision of round_to to round up. *)
Lemma up_rne Q dr den r sticky C k rem :
  0 < Q < 2 ^ 128 → 0 < dr → 0 < den → 0 <= r < den → (sticky = true ↔ 0 < r) → 0 < C → k = Q / 2 ^ dr → rem = Q mod 2 ^ dr →
  k + Z.b2z ((negb (rem =? 0) || sticky) && (dr <=? 128) &&
    ((Z.shiftl 1 (dr - 1) <? rem) || ((rem =? Z.shiftl 1 (dr - 1)) && (sticky || negb (Z.land k 1 =? 0))))) =
  rne k (C * (rem * den + r)) (C * (den * 2 ^ dr)).
Proof using Type.
  intros HQ Hdr Hden Hr Hst HC Hk Hrem. rewrite Z.shiftl_1_l. unfold rne. assert (2 ^ dr = 2 * 2 ^ (dr - 1)) as E2 by (rewrite <- Z.pow_succ_r by lia; f_equal; lia).
  assert (0 < 2 ^ (dr - 1)) as Hh by (apply Z.pow_pos_nonneg; lia). set (h := 2 ^ (dr - 1)) in *.
  assert (negb (Z.land k 1 =? 0) = Z.odd k) as ->. { change 1 with (Z.ones 1). rewrite Z.land_ones by lia. change (2 ^ 1) with 2. rewrite Zmod_odd. by destruct (Z.odd k). }
  pose proof (Z.mod_pos_bound Q (2 ^ dr) ltac:(lia)) as Hm. rewrite <- Hrem, E2 in Hm. rewrite E2.
  assert (128 < dr → rem < h) as Hbig.
  { intros Hd. assert (2 ^ 128 <= h) by (apply Z.pow_le_mono_r; lia). rewrite Z.mod_small in Hrem by lia. lia. }
  destruct (Z.lt_trichotomy rem h) as [Hlt|[Heq|Hgt]].
  - rewrite (proj2 (Z.ltb_ge h rem)), (proj2 (Z.eqb_neq rem h)) by lia. cbn [orb andb]. rewrite andb_false_r. cbn [Z.b2z].
    assert (2 * (rem * den + r) < den * (2 * h)) by nia. rewrite (proj2 (Z.ltb_ge _ _)), (proj2 (Z.eqb_neq _ _)) by nia. cbn. lia.
  - rewrite (proj2 (Z.ltb_ge h rem)), (proj2 (Z.eqb_eq rem h)) by lia. cbn [orb andb]. rewrite (proj2 (Z.eqb_neq rem 0)) by lia. cbn [negb orb andb].
    rewrite (proj2 (Z.leb_le dr 128)) by lia. cbn [andb]. destruct sticky; cbn [orb].
    + assert (0 < r) by (by apply Hst). rewrite (proj2 (Z.ltb_lt _ _)) by nia. done.
    + assert (r = 0) as -> by (destruct (decide (0 < r)) as [Hr0|]; [by apply Hst in Hr0 | lia]). rewrite (proj2 (Z.ltb_ge _ _)), (proj2 (Z.eqb_eq _ _)) by (subst rem; nia).
      cbn [orb andb]. destruct (Z.odd k); cbn [Z.b2z]; lia.
  - rewrite (proj2 (Z.ltb_lt h rem)) by lia. rewrite (proj2 (Z.eqb_neq rem 0)) by lia. cbn [negb orb andb]. rewrite (proj2 (Z.leb_le dr 128)) by lia. cbn [andb Z.b2z].
    rewrite (proj2 (Z.ltb_lt _ _)) by nia. done.
Qed.

Lemma round_bits_ok Q E sticky den r n d :
  0 < Q < 2 ^ 128 → 0 < den → 0 <= r < den → (sticky = true ↔ 0 < r) → (sticky = true → 2 ^ fp F <= Q) →
  n = (Q * den + r) * 2 ^ Z.max E 0 → d = den * 2 ^ Z.max (- E) 0 →
  let '(m, e, inexact) := round_bits Q E sticky F in
  canon F m e ∧ between F n d m e ∧ (inexact = true ↔ n * 2 ^ (- emin F) ≠ m * (d * 2 ^ (e - emin F))).
Proof using Hp Hemin.
  intros HQ Hden Hr Hst Hbig -> ->. unfold round_bits. rewrite (clz_bits Q HQ). cbv zeta. destruct (Z.log2_spec Q ltac:(lia)) as [B1 B2]. pose proof (Z.log2_nonneg Q).
  set (bl := Z.log2 Q + 1) in *. replace (Z.succ (Z.log2 Q)) with bl in B2 by (unfold bl; lia). replace (Z.log2 Q) with (bl - 1) in B1 by (unfold bl; lia).
  assert (∀ a b, 0 <= a → 0 <= b → 2 ^ (a + b) = 2 ^ a * 2 ^ b) as Hadd by (intros; by apply Z.pow_add_r).
  assert (∀ a, 0 <= a → 0 < 2 ^ a) as Hpos by (intros; by apply Z.pow_pos_nonneg).
  set (dr := if E + (bl - fp F) <? emin F then emin F - E else bl - fp F).
  assert (bl - fp F <= dr ∧ emin F <= E + dr ∧ (dr = bl - fp F ∨ E + dr = emin F)) as (Hd1 & Hd2 & Hd3) by (unfold dr; destruct (Z.ltb_spec (E + (bl - fp F)) (emin F)); lia).
  clearbody dr. set (C := 2 ^ (Z.max E 0 - emin F)). assert (0 < C) as HC by (apply Hpos; lia).
  assert ((Q * den + r) * 2 ^ Z.max E 0 * 2 ^ (- emin F) = C * (Q * den + r)) as EN.
  { unfold C. replace (Z.max E 0 - emin F) with (Z.max E 0 + - emin F) by lia. rewrite Hadd by lia. ring. }
  assert (∀ i, 0 <= i → i = dr ∨ i = dr + 1 → den * 2 ^ Z.max (- E) 0 * 2 ^ (E + i - emin F) = C * (den * 2 ^ i)) as ED.
  { intros i Hi Hie. unfold C. replace (den * 2 ^ Z.max (- E) 0 * 2 ^ (E + i - emin F)) with (den * (2 ^ Z.max (- E) 0 * 2 ^ (E + i - emin F))) by ring.
    replace (2 ^ (Z.max E 0 - emin F) * (den * 2 ^ i)) with (den * (2 ^ (Z.max E 0 - emin F) * 2 ^ i)) by ring. rewrite <- !Hadd by lia. do 2 f_equal. lia. }
  assert (0 < 2 ^ fp F <= 2 ^ 64) as Hp64 by (split; [apply Hpos; lia | apply Z.pow_le_mono_r; lia]).
  destruct (Z.ltb_spec 0 dr) as [Hdr|Hdr].
  - set (k := if 128 <=? dr then 0 else Z.shiftr Q dr). set (rem := if 128 <=? dr then Q else Z.land Q (Z.shiftl 1 dr - 1)).
    pose proof (Hpos dr ltac:(lia)) as Hdp.
    assert (k = Q / 2 ^ dr ∧ rem = Q mod 2 ^ dr) as [Hk Hrem].
    { unfold k, rem. destruct (Z.leb_spec 128 dr).
      - assert (2 ^ 128 <= 2 ^ dr) by (apply Z.pow_le_mono_r; lia). rewrite Z.div_small, Z.mod_small by lia. done.
      - rewrite Z.shiftr_div_pow2, Z.shiftl_1_l by lia. split; [done|]. rewrite <- Z.land_ones by lia. by rewrite Z.ones_equiv, <- Z.sub_1_r. }
    clearbody k rem. pose proof (Z.mod_pos_bound Q (2 ^ dr) Hdp) as Hrr. rewrite <- Hrem in Hrr. pose proof (Z.div_mod Q (2 ^ dr) ltac:(lia)) as HQd. rewrite <- Hk, <- Hrem in HQd.
    rewrite (up_rne Q dr den r sticky C k rem HQ Hdr Hden Hr Hst HC Hk Hrem). set (R := C * (rem * den + r)). set (D := C * (den * 2 ^ dr)).
    assert (0 <= R < D) as HR by (unfold R, D; split; [nia|]; apply Z.mul_lt_mono_pos_l; nia).
    assert (0 <= k) as Hk0 by (rewrite Hk; apply Z.div_pos; lia).
    assert (k < 2 ^ fp F) as Hkp.
    { rewrite Hk. apply Z.div_lt_upper_bound; [lia|]. eapply Z.lt_le_trans; [exact B2|]. rewrite <- Hadd by lia. apply Z.pow_le_mono_r; lia. }
    assert (2 ^ (fp F - 1) <= k ∨ E + dr = emin F) as Hcan.
    { destruct Hd3 as [Hd3|]; [left | by right]. rewrite Hk. apply Z.div_le_lower_bound; [lia|]. rewrite <- Hadd by lia. etrans; [|exact B1]. apply Z.pow_le_mono_r; lia. }
    assert (C * (Q * den + r) = k * D + R) as HND by (unfold D, R; rewrite HQd; ring).
    destruct (rne_spec k R D HR) as [Hm _]. set (m := rne k R D) in *. assert (u128 m = m) as -> by (apply uwrap_small; lia).
    destruct (carry F m (E + dr)) as [m1 e1] eqn:Ec.
    assert (canon F m1 e1 ∧ between F ((Q * den + r) * 2 ^ Z.max E 0) (den * 2 ^ Z.max (- E) 0) m1 e1) as [HA HB].
    { refine (rne_between F ltac:(lia) Hemin _ _ (E + dr) k R m1 e1 _ Hd2 _ _ _ Hcan _); rewrite ?EN, ?(ED dr) by lia; try done. apply Z.mul_pos_pos; [done|]. apply Hpos. lia. }
    assert ((if negb (Z.shiftr m (fp F) =? 0) then (Z.shiftr m 1, E + dr + 1) else (m, E + dr)) = (m1, e1)) as ->.
    { rewrite <- Ec. unfold carry. rewrite Z.shiftr_div_pow2 by lia. destruct (Z.eqb_spec m (2 ^ fp F)) as [Hmp|Hmp].
      - rewrite Hmp at 1. rewrite Z.div_same by lia. cbn [negb Z.eqb]. rewrite Z.shiftr_div_pow2, Hmp by lia. f_equal.
        replace (fp F) with (fp F - 1 + 1) at 1 by lia. rewrite Hadd by lia. apply Z.div_mul. lia.
      - rewrite Z.div_small by lia. done. }
    rewrite (uwrap_small 64 m1) by (destruct HA; lia). split_and!; [done | done|].
    assert (m1 * (den * 2 ^ Z.max (- E) 0 * 2 ^ (e1 - emin F)) = m * D) as ->.
    { revert Ec. unfold carry. destruct (Z.eqb_spec m (2 ^ fp F)) as [Hmp|Hmp]; intros [= <- <-]; [|by rewrite (ED dr) by lia].
      replace (E + dr + 1) with (E + (dr + 1)) by lia. rewrite (ED (dr + 1)) by lia. rewrite Hmp. unfold D. replace (fp F) with (fp F - 1 + 1) at 2 by lia. rewrite !Hadd by lia. ring. }
    rewrite EN, HND. assert (negb (rem =? 0) || sticky = true ↔ R ≠ 0) as ->.
    { rewrite orb_true_iff, negb_true_iff, Z.eqb_neq, Hst. unfold R. clear -Hrr Hden Hr HC. split.
      - intros H. assert (0 < rem * den + r) by (destruct H; nia). nia.
      - intros H. destruct (decide (rem = 0)) as [->|]; [right | by left]. destruct (decide (r = 0)) as [->|]; [lia | lia]. }
    clear -Hm HR. destruct Hm as [[-> ?]|[-> ?]]; nia.
  - assert (sticky = false) as ->.
    { destruct sticky; [|done]. specialize (Hbig eq_refl). exfalso. assert (fp F < bl); [|lia]. apply (Z.pow_lt_mono_r_iff 2); lia. }
    assert (r = 0) as -> by (destruct (decide (0 < r)) as [Hr0|]; [by apply Hst in Hr0 | lia]). rewrite Z.shiftl_mul_pow2 by lia.
    pose proof (Hpos (- dr) ltac:(lia)) as Hdp. set (k := Q * 2 ^ (- dr)).
    assert (k < 2 ^ fp F) as Hkp.
    { unfold k. eapply Z.lt_le_trans; [apply Z.mul_lt_mono_pos_r; [done | exact B2]|]. rewrite <- Hadd by lia. apply Z.pow_le_mono_r; lia. }
    assert (2 ^ (fp F - 1) <= k ∨ E + dr = emin F) as Hcan.
    { destruct Hd3 as [Hd3|]; [left | by right]. unfold k. etrans; [|apply Z.mul_le_mono_nonneg_r; [lia | exact B1]]. rewrite <- Hadd by lia. apply Z.pow_le_mono_r; lia. }
    rewrite (uwrap_small 128 k), (uwrap_small 64 k) by lia.
    assert ((Q * den + 0) * 2 ^ Z.max E 0 * 2 ^ (- emin F) = k * (den * 2 ^ Z.max (- E) 0 * 2 ^ (E + dr - emin F))) as HN.
    { unfold k. replace (Q * 2 ^ (- dr) * (den * 2 ^ Z.max (- E) 0 * 2 ^ (E + dr - emin F))) with (Q * den * (2 ^ (- dr) * 2 ^ Z.max (- E) 0 * 2 ^ (E + dr - emin F))) by ring.
      rewrite Z.add_0_r, <- !Hadd by lia. rewrite <- Z.mul_assoc, <- Hadd by lia. do 2 f_equal. lia. }
    pose proof (Hpos (Z.max (- E) 0) ltac:(lia)). pose proof (Hpos (E + dr - emin F) ltac:(lia)).
    enough (canon F k (E + dr) ∧ between F ((Q * den + 0) * 2 ^ Z.max E 0) (den * 2 ^ Z.max (- E) 0) k (E + dr)) by (rewrite HN; split_and!; tauto || done).
    assert (0 < den * 2 ^ Z.max (- E) 0) as HD1 by (apply Z.mul_pos_pos; lia). assert (0 < den * 2 ^ Z.max (- E) 0 * 2 ^ (E + dr - emin F)) as HD2 by (apply Z.mul_pos_pos; lia).
    assert (0 <= k) as Hk0 by (apply Z.mul_nonneg_nonneg; lia).
    refine (rne_between F ltac:(lia) Hemin _ _ (E + dr) k 0 k (E + dr) HD1 Hd2 _ _ (conj Hk0 Hkp) Hcan _).
    + rewrite HN. lia.
    + lia.
    + unfold rne, carry. rewrite (proj2 (Z.ltb_ge _ _)), (proj2 (Z.eqb_neq (2 * 0) _)) by lia. cbn [orb andb]. by rewrite (proj2 (Z.eqb_neq _ _)) by lia.
Qed.
End Round.

(** ** Exact results *)

Definition conv (F : ffmt) (x : fl) : fl :=
  match x with Fin m e => fround F (m * 2 ^ Z.max e 0) (2 ^ Z.max (- e) 0) | Inf => Inf end.

Definition conv_num (F : ffmt) (x : num) : num := match x with Num neg x => Num neg (conv F x) | NaN neg => NaN neg end.

Lemma pow2_pos a : 0 <= a → 0 < 2 ^ a.
Proof. intros. by apply Z.pow_pos_nonneg. Qed.

Lemma pow2_add a b : 0 <= a → 0 <= b → 2 ^ (a + b) = 2 ^ a * 2 ^ b.
Proof. intros. by apply Z.pow_add_r. Qed.

Section Exact.
Context (F : ffmt) (Hp : 2 <= fp F) (Hemin : emin F <= 0).

Lemma canon_unique m e m' e' : canon F m e → canon F m' e' → m * 2 ^ (e - emin F) = m' * 2 ^ (e' - emin F) → m = m' ∧ e = e'.
Proof using All.
  assert (∀ m e m' e', canon F m e → canon F m' e' → e <= e' → m * 2 ^ (e - emin F) = m' * 2 ^ (e' - emin F) → m = m' ∧ e = e') as H.
  { clear m e m' e'. intros m e m' e' (Hm & He & Hc) (Hm' & He' & Hc') Hle Heq. replace (e' - emin F) with (e - emin F + (e' - e)) in Heq by lia. rewrite pow2_add in Heq by lia.
    pose proof (pow2_pos (e - emin F) ltac:(lia)). assert (m = m' * 2 ^ (e' - e)) as -> by nia. destruct (decide (e = e')) as [->|Hne].
    - rewrite Z.sub_diag. change (2 ^ 0) with 1. lia.
    - exfalso. destruct Hc' as [Hc'|?]; [|lia]. replace (e' - e) with (1 + (e' - e - 1)) in Hm by lia. rewrite pow2_add in Hm by lia. change (2 ^ 1) with 2 in Hm.
      pose proof (pow2_pos (e' - e - 1) ltac:(lia)). destruct (pow_pred F Hp) as (P1 & _ & _). nia. }
  intros H1 H2 Heq. destruct (decide (e <= e')); [by apply H|]. destruct (H m' e' m e); [done | done | lia | done | by subst].
Qed.

(** A fraction that is a number of the format is rounded to itself. *)
Lemma fround_exact n d m e : 0 < n → 0 < d → canon F m e → n * 2 ^ (- emin F) = d * (m * 2 ^ (e - emin F)) → fround F n d = bounded F e m.
Proof using All.
  intros Hn Hd Hc Heq. destruct (fround_ok F Hp Hemin n d Hn Hd) as (m1 & e1 & Hc1 & Hb & ->).
  destruct (between_nearest F Hp Hemin n d m1 e1 Hd Hc1 Hb) as [_ Hnear]. destruct Hc as (Hm & He & Hcan). destruct (Hnear m e Hm He) as [Hdist _].
  unfold dist in Hdist. rewrite Heq in Hdist. rewrite Z.sub_diag in Hdist. cbn [Z.abs] in Hdist.
  assert (d * (m * 2 ^ (e - emin F)) = d * (m1 * 2 ^ (e1 - emin F))) as E by lia. apply Z.mul_reg_l in E; [|lia].
  destruct (canon_unique m e m1 e1) as [-> ->]; [by split | done | done | done].
Qed.
End Exact.

(** The same value with another exponent. *)
Lemma value_cross L K m e m' e' :
  0 <= K → 0 <= e + K → 0 <= e + L → 0 <= e' + L → 0 <= L → m' * 2 ^ (e' + L) = m * 2 ^ (e + L) →
  m' * 2 ^ Z.max e' 0 * 2 ^ K = 2 ^ Z.max (- e') 0 * (m * 2 ^ (e + K)).
Proof.
  intros HK HeK HeL He'L HL Heq. apply (Z.mul_reg_r _ _ (2 ^ L)); [pose proof (pow2_pos L HL); lia|].
  transitivity (m' * 2 ^ (e' + L) * 2 ^ (Z.max (- e') 0 + K)).
  - replace (m' * 2 ^ Z.max e' 0 * 2 ^ K * 2 ^ L) with (m' * (2 ^ Z.max e' 0 * 2 ^ K * 2 ^ L)) by ring. rewrite <- !pow2_add by lia. rewrite <- Z.mul_assoc, <- pow2_add by lia. do 2 f_equal. lia.
  - rewrite Heq. replace (2 ^ Z.max (- e') 0 * (m * 2 ^ (e + K)) * 2 ^ L) with (m * (2 ^ Z.max (- e') 0 * 2 ^ (e + K) * 2 ^ L)) by ring.
    rewrite <- !pow2_add by lia. rewrite <- Z.mul_assoc, <- pow2_add by lia. do 2 f_equal. lia.
Qed.

(** *** make_ld *)

Lemma sign_split neg f : 0 <= f < 0x7fff → Z.testbit (Z.lor f (sign_bit neg)) 15 = neg ∧ Z.land (Z.lor f (sign_bit neg)) 0x7fff = f.
Proof.
  intros Hf. assert (Z.testbit f 15 = false) as Ht by (apply (range_bits 15); lia). split.
  - rewrite Z.lor_spec, Ht. by destruct neg.
  - change 0x7fff with (Z.ones 15). rewrite Z.land_ones by lia. rewrite <- (Z.mod_small f (2 ^ 15)) at 2 by lia. rewrite <- !Z.land_ones by lia.
    rewrite Z.land_lor_distr_l. replace (Z.land (sign_bit neg) (Z.ones 15)) with 0 by (by destruct neg). by rewrite Z.lor_0_r.
Qed.

Lemma decode_make_ld M E neg :
  0 <= M < 2 ^ 64 → -16445 <= E → (0 < M → E + Z.log2 M <= 16383 ∧ (-16382 <= E + Z.log2 M ∨ E = -16445)) →
  ∃ m e, decode (make_ld M E neg) = Num neg (Fin m e) ∧ canon F_LDBL m e ∧ m * 2 ^ (e + 16445) = M * 2 ^ (E + 16445).
Proof.
  intros HM HE Hr. unfold make_ld, decode. cbv zeta. cbn [ld_m ld_se].
  pose proof (sign_split neg) as Hse.
  destruct (Z.eqb_spec M 0) as [->|Hz]; cbn [negb].
  - cbn [ld_m ld_se]. destruct (Hse 0 ltac:(lia)) as [-> ->]. exists 0, (-16445). split; [done|]. split; [|done]. unfold canon. cbn. lia.
  - destruct (Hr ltac:(lia)) as [R1 R2]. destruct (Z.log2_spec M ltac:(lia)) as [B1 B2]. pose proof (Z.log2_nonneg M). assert (Z.log2 M < 64) as B3 by (apply Z.log2_lt_pow2; lia).
    unfold clzll. set (l := Z.log2 M) in *. replace (E - (63 - l) + 63 + 16383) with (E + l + 16383) by lia. destruct (Z.leb_spec 1 (E + l + 16383)) as [Hf|Hf]; cbn [ld_m ld_se].
    + rewrite (uwrap_small 16) by lia. assert (Z.shiftl M (63 - l) = M * 2 ^ (63 - l)) as Esh by (apply Z.shiftl_mul_pow2; lia). rewrite Esh.
      assert (2 ^ 63 <= M * 2 ^ (63 - l) < 2 ^ 64) as Hrange.
      { replace (2 ^ 63) with (2 ^ l * 2 ^ (63 - l)) by (rewrite <- pow2_add by lia; f_equal; lia). replace (2 ^ 64) with (2 ^ Z.succ l * 2 ^ (63 - l)) by (rewrite <- pow2_add by lia; f_equal; lia).
        pose proof (pow2_pos (63 - l) ltac:(lia)). nia. }
      rewrite (uwrap_small 64) by lia. destruct (decide (E + l + 16383 < 0x7fff)) as [Hlt|Hge]; [|lia]. destruct (Hse (E + l + 16383) ltac:(lia)) as [-> ->].
      rewrite (proj2 (Z.eqb_neq _ _)) by lia. rewrite Z.max_l by lia. eexists _, _. split; [done|]. split; [unfold canon; cbn [fp emin F_LDBL]; lia|].
      rewrite <- Z.mul_assoc, <- pow2_add by lia. do 2 f_equal. lia.
    + destruct R2 as [?| ->]; [lia|]. destruct (Hse 0 ltac:(lia)) as [-> ->]. exists M, (-16445). split; [done|]. split; [|done]. unfold canon. cbn [fp emin F_LDBL]. lia.
Qed.

Lemma decode_inf neg : decode (make_inf neg) = Num neg Inf.
Proof. by destruct neg. Qed.

Lemma decode_nan neg : decode (make_nan neg) = NaN neg.
Proof. by destruct neg. Qed.

(** ** Correct results *)

Definition std (F : ffmt) : Prop := F = F_FLT ∨ F = F_DBL ∨ F = F_LDBL.

Lemma std_bounds F : std F → 2 <= fp F <= 64 ∧ -16445 <= emin F <= 0 ∧ emax F + fp F - 1 <= 16383 ∧ emin F <= emax F ∧ (emin F = -16445 → fp F = 64) ∧ (emin F ≠ -16445 → -1074 <= emin F).
Proof. intros [-> |[-> | ->]]; cbn; lia. Qed.

(** The result [r] for the fraction n/d: its nearest number, infinity if that
    is out of range; ERANGE is reported for overflow and for a subnormal or
    zero result that is not exact. *)
Definition correct (F : ffmt) (n d : Z) (neg : bool) (r : num) (erange : bool) : Prop :=
  ∃ m e, nearest F n d m e ∧ r = Num neg (bounded F e m) ∧
    (erange = true ↔ emax F < e ∨ (m < 2 ^ (fp F - 1) ∧ n * 2 ^ (- emin F) ≠ m * (d * 2 ^ (e - emin F)))).

(** A mantissa and an exponent that fit are stored and converted exactly. *)
Lemma ld_value F m e neg : std F → canon F m e → e <= emax F →
  ∃ m' e', decode (make_ld m e neg) = Num neg (Fin m' e') ∧ canon F_LDBL m' e' ∧ m' * 2 ^ (e' + 16445) = m * 2 ^ (e + 16445) ∧ conv F (Fin m' e') = Fin m e.
Proof.
  intros HF Hc He. destruct (std_bounds F HF) as (Hp & Hemin & Hmax & _ & Hl & Hs). pose proof Hc as (Hm & Hlo & Hcan).
  assert (2 ^ fp F <= 2 ^ 64) as H64 by (apply Z.pow_le_mono_r; lia).
  assert (0 < m → 0 <= Z.log2 m < fp F) as Hlog by (intros H; split; [apply Z.log2_nonneg | apply Z.log2_lt_pow2; lia]).
  destruct (decode_make_ld m e neg) as (m' & e' & -> & Hc' & Heq); [lia | lia | |].
  - intros H. specialize (Hlog H). split; [lia|]. destruct (decide (emin F = -16445)) as [Hem|Hem]; [|left; specialize (Hs Hem); lia].
    specialize (Hl Hem). destruct Hcan as [Hcan|Hcan]; [|right; lia]. left. assert (fp F - 1 <= Z.log2 m) by (apply Z.log2_le_pow2; lia). lia.
  - exists m', e'. split_and!; [done | done | done|]. cbn [conv]. destruct Hc' as (Hm' & He' & _). cbn [emin F_LDBL fp] in *. pose proof (pow2_pos (e + 16445) ltac:(lia)). pose proof (pow2_pos (e' + 16445) ltac:(lia)).
    pose proof (pow2_pos (Z.max e' 0) ltac:(lia)). pose proof (pow2_pos (Z.max (- e') 0) ltac:(lia)).
    destruct (decide (m = 0)) as [->|Hm0].
    + assert (m' = 0) as -> by nia. rewrite Z.mul_0_l. unfold fround. cbn [Z.eqb]. f_equal. pose proof (pow2_pos (fp F - 1) ltac:(lia)). lia.
    + rewrite (fround_exact F ltac:(lia) ltac:(lia) _ _ m e); [|nia | done | done|].
      * unfold bounded. by rewrite (proj2 (Z.ltb_ge _ _)).
      * replace (e - emin F) with (e + - emin F) by lia. apply (value_cross 16445); lia.
Qed.

Lemma make_ld_exact F m e neg : std F → canon F m e → e <= emax F → conv_num F (decode (make_ld m e neg)) = Num neg (Fin m e).
Proof. intros HF Hc He. destruct (ld_value F m e neg HF Hc He) as (m' & e' & -> & _ & _ & H). cbn [conv_num]. by rewrite H. Qed.

Lemma round_to_ok F Q E sticky neg den r n d :
  std F → 0 < Q < 2 ^ 128 → 0 < den → 0 <= r < den → (sticky = true ↔ 0 < r) → (sticky = true → 2 ^ fp F <= Q) →
  n = (Q * den + r) * 2 ^ Z.max E 0 → d = den * 2 ^ Z.max (- E) 0 →
  let '(l, er) := round_to Q E sticky F neg in
  ∃ m e, canon F m e ∧ between F n d m e ∧ conv_num F (decode l) = Num neg (bounded F e m) ∧
    (er = true ↔ emax F < e ∨ (m < 2 ^ (fp F - 1) ∧ n * 2 ^ (- emin F) ≠ m * (d * 2 ^ (e - emin F)))).
Proof.
  intros HF HQ Hden Hr Hst Hbig Hn Hd. destruct (std_bounds F HF) as (Hp & Hemin & Hmax & Hmm & _ & _). unfold round_to. destruct (Z.eqb_spec Q 0); [lia|].
  pose proof (round_bits_ok F Hp ltac:(lia) Q E sticky den r n d HQ Hden Hr Hst Hbig Hn Hd) as H. destruct (round_bits Q E sticky F) as [[m e] inexact].
  destruct H as (Hc & Hb & Hi). pose proof Hc as (Hm & He & Hcan). pose proof (pow2_pos (fp F - 1) ltac:(lia)) as Hpp.
  destruct (Z.eqb_spec m 0) as [Hm0|Hm0], (Z.ltb_spec (emax F) e) as [Hov|Hov]; cbn [negb andb].
  - exfalso. lia.
  - exists m, e. split_and!; [done | done | |].
    + rewrite make_ld_exact by done. unfold bounded. by rewrite (proj2 (Z.ltb_ge _ _)).
    + rewrite andb_true_iff, Hi, Z.eqb_eq, Hm0, Z.shiftr_0_l. split; [intros [? _]; right; split; [lia | done] | intros [?|[_ ?]]; [lia | done]].
  - exists m, e. split_and!; [done | done | |].
    + rewrite decode_inf. cbn. unfold bounded. by rewrite (proj2 (Z.ltb_lt _ _)).
    + split; [by left | done].
  - exists m, e. split_and!; [done | done | |].
    + rewrite make_ld_exact by done. unfold bounded. by rewrite (proj2 (Z.ltb_ge _ _)).
    + rewrite andb_true_iff, Hi, Z.eqb_eq, Z.shiftr_div_pow2 by lia. rewrite Z.div_small_iff by lia. split; [intros [? ?]; right; split; [lia | done] | intros [?|[? ?]]; [lia | split; [done | lia]]].
Qed.

Lemma correct_intro F n d neg r er m e :
  std F → 0 < d → canon F m e → between F n d m e → r = Num neg (bounded F e m) →
  (er = true ↔ emax F < e ∨ (m < 2 ^ (fp F - 1) ∧ n * 2 ^ (- emin F) ≠ m * (d * 2 ^ (e - emin F)))) → correct F n d neg r er.
Proof. intros HF Hd Hc Hb Hr He. destruct (std_bounds F HF) as (Hp & Hemin & _). exists m, e. split_and!; [apply between_nearest; try done; lia | done | done]. Qed.

(** ** Fractions with no rounding boundary between them *)

(** [a]/[g] and [b]/[g] have no point half way between two numbers strictly
    between them. *)
Definition clear (F : ffmt) (a b g : Z) : Prop :=
  ∀ c t, 0 <= c < 2 ^ (fp F + 2) → emin F - 1 <= t → ¬ (a * 2 ^ (1 - emin F) < g * (c * 2 ^ (t + 1 - emin F)) ∧ g * (c * 2 ^ (t + 1 - emin F)) < b * 2 ^ (1 - emin F)).

Lemma clear_between F a b g n d n' d' m e :
  std F → 0 < g → 0 < d → 0 < d' → 0 < n' → clear F a b g → canon F m e → between F n d m e →
  a * d < n * g → n * g < b * d → a * d' < n' * g → n' * g < b * d' → between F n' d' m e.
Proof.
  intros HF Hg Hd Hd' Hn' Hcl (Hm & He & Hcan) [[L1 _] [U1 _] S1] A1 B1 A2 B2. destruct (std_bounds F HF) as (Hp & Hemin & _).
  set (K := 2 ^ (- emin F)) in *. assert (0 < K) as HK by (apply pow2_pos; lia). assert (2 ^ (1 - emin F) = 2 * K) as EK.
  { unfold K. replace (1 - emin F) with (1 + - emin F) by lia. rewrite pow2_add by lia. done. }
  set (W := 2 ^ (e - emin F)) in *. assert (0 < W) as HW by (apply pow2_pos; lia).
  assert (2 ^ (fp F + 2) = 4 * 2 ^ fp F) as E4 by (rewrite pow2_add by lia; change (2 ^ 2) with 4; lia).
  (* a boundary z / (2K) is on the same side of both fractions *)
  assert (∀ c t z, 0 <= c < 2 ^ (fp F + 2) → emin F - 1 <= t → z = c * 2 ^ (t + 1 - emin F) → ¬ (2 * K * n <= d * z ∧ d' * z <= 2 * K * n') ∧ ¬ (d * z <= 2 * K * n ∧ 2 * K * n' <= d' * z)) as Hside.
  { intros c t z Hcr Ht ->. specialize (Hcl c t Hcr Ht). rewrite EK in Hcl. set (z := c * 2 ^ (t + 1 - emin F)) in *. split; intros [Z1 Z2]; apply Hcl; split.
    - apply (Z.mul_lt_mono_pos_l d); [done|]. nia.
    - apply (Z.mul_lt_mono_pos_l d'); [done|]. nia.
    - apply (Z.mul_lt_mono_pos_l d'); [done|]. nia.
    - apply (Z.mul_lt_mono_pos_l d); [done|]. nia. }
  assert ((2 * m + 1) * (d' * W) > 2 * (n' * K)) as HU.
  { destruct (Hside (2 * m + 1) (e - 1) ((2 * m + 1) * W)) as [H1 _]; [lia | lia | unfold W; do 2 f_equal; lia|]. nia. }
  assert ((2 * m - 1) * (d' * W) < 2 * (n' * K)) as HL.
  { destruct (decide (m = 0)) as [->|Hm0]; [nia|]. destruct (Hside (2 * m - 1) (e - 1) ((2 * m - 1) * W)) as [_ H1]; [lia | lia | unfold W; do 2 f_equal; lia|]. nia. }
  split; cbv zeta; fold K W; [split; lia | split; lia|]. intros Hst Hlt.
  specialize (S1 Hst Hlt). fold K W in S1. assert (W = 2 * 2 ^ (e - 1 - emin F)) as EW by (unfold W; rewrite <- Z.pow_succ_r by lia; f_equal; lia).
  destruct (Hside (4 * m - 1) (e - 2) ((4 * m - 1) * 2 ^ (e - 1 - emin F))) as [_ H1]; [lia | lia | do 2 f_equal; lia|]. nia.
Qed.

(** ** Rounding twice *)

Section Twice.
Context (F : ffmt) (HF : std F) (Hp64 : fp F < 64).
Context (n d M X : Z) (Hn : 0 < n) (Hd : 0 < d) (HM : 2 ^ 63 <= M < 2 ^ 64) (HX : -1137 <= X) (Hnear : nearest F_LDBL n d M X).

(** The exponent of the smallest long double, as a name: it keeps powers of
    two from being computed. *)
Context (L : Z) (HL : emin F_LDBL = - L) (HLv : 16445 <= L <= 16445).

(** The point c * 2^t as a number of the long double format. *)
Lemma side c t :
  0 <= c < 2 ^ 64 → -1076 <= t →
  (M * 2 ^ (X + L) < c * 2 ^ (t + L) → n * 2 ^ L < d * (c * 2 ^ (t + L))) ∧ (c * 2 ^ (t + L) < M * 2 ^ (X + L) → d * (c * 2 ^ (t + L)) < n * 2 ^ L).
Proof using All.
  intros Hc Ht. destruct Hnear as [_ Hn']. specialize (Hn' c t). unfold dist in Hn'. rewrite HL in Hn'. rewrite !Z.sub_opp_r, Z.opp_involutive in Hn'.
  destruct (Hn' Hc ltac:(lia)) as [H _]. clear Hn'.
  set (r := M * 2 ^ (X + L)) in *. set (z := c * 2 ^ (t + L)) in *. set (N := n * 2 ^ L) in *. split; intros Hlt; assert (d * r < d * z ∨ d * z < d * r) by nia; nia.
Qed.

(** Unless the low bits of M are one half, M * 2^X is no boundary. *)
Lemma not_tie c t :
  M mod 2 ^ (64 - fp F) ≠ 2 ^ (63 - fp F) → 2 ^ fp F <= c < 2 ^ (fp F + 1) → Z.odd c = true → -1076 <= t → M * 2 ^ (X + L) ≠ c * 2 ^ (t + L).
Proof using All.
  intros Hlow Hc Hodd Ht Heq. destruct (std_bounds F HF) as (Hp & _). apply Hlow. set (k := 63 - fp F) in *. assert (0 < 2 ^ k) as Hk by (apply pow2_pos; lia).
  assert (2 <= fp F_LDBL ∧ emin F_LDBL <= 0) as [Hl1 Hl2] by (rewrite HL; cbn [fp F_LDBL]; lia). destruct (canon_unique F_LDBL Hl1 Hl2 M X (c * 2 ^ k) (t - k)) as [-> _].
  - destruct Hnear as [? _]. done.
  - assert (2 ^ 63 <= c * 2 ^ k < 2 ^ 64).
    { replace (2 ^ 63) with (2 ^ fp F * 2 ^ k) by (rewrite <- pow2_add by lia; f_equal; lia). replace (2 ^ 64) with (2 ^ (fp F + 1) * 2 ^ k) by (rewrite <- pow2_add by lia; f_equal; lia). nia. }
    unfold canon. rewrite HL. cbn [fp F_LDBL]. lia.
  - rewrite HL, !Z.sub_opp_r. rewrite Heq. rewrite <- Z.mul_assoc, <- pow2_add by lia. do 2 f_equal. lia.
  - replace (2 ^ (64 - fp F)) with (2 * 2 ^ k) by (rewrite <- Z.pow_succ_r by lia; f_equal; lia). rewrite Z.mul_mod_distr_r by lia.
    rewrite Zmod_odd, Hodd. lia.
Qed.

Lemma double_round m e :
  M mod 2 ^ (64 - fp F) ≠ 2 ^ (63 - fp F) → emin F + fp F - 1 <= X + 63 → canon F m e → between F (M * 2 ^ Z.max X 0) (2 ^ Z.max (- X) 0) m e → between F n d m e.
Proof using All.
  intros Hlow Hnorm (Hm & He & Hcan) [[L1 _] [U1 _] S1]. destruct (std_bounds F HF) as (Hp & Hemin & _ & _ & Hl & Hs). cbv zeta in *.
  assert (-1074 <= emin F) as Hem by (apply Hs; lia). destruct (pow_pred F ltac:(lia)) as (P1 & P2 & _). set (P := 2 ^ (fp F - 1)) in *.
  assert (2 ^ (fp F + 1) = 4 * P) as E4 by (unfold P; change 4 with (2 ^ 2); rewrite <- pow2_add by lia; f_equal; lia).
  set (g := Z.max (- X) 0) in *. replace (Z.max X 0) with (X + g) in * by lia. pose proof (pow2_pos g ltac:(lia)) as Hg.
  (* scaling from the format to the long double format *)
  assert (∀ c, 2 * (M * 2 ^ (X + g) * 2 ^ (- emin F)) * 2 ^ (L - 1 + emin F) = 2 ^ g * (M * 2 ^ (X + L)) ∧ c * (2 ^ g * 2 ^ (e - emin F)) * 2 ^ (L - 1 + emin F) = 2 ^ g * (c * 2 ^ (e - 1 + L))) as Hscale.
  { intros c. split.
    - replace (2 * (M * 2 ^ (X + g) * 2 ^ (- emin F)) * 2 ^ (L - 1 + emin F)) with (M * (2 ^ 1 * 2 ^ (X + g) * 2 ^ (- emin F) * 2 ^ (L - 1 + emin F))) by (change (2 ^ 1) with 2; ring).
      replace (2 ^ g * (M * 2 ^ (X + L))) with (M * (2 ^ g * 2 ^ (X + L))) by ring. rewrite <- !pow2_add by lia. do 2 f_equal. lia.
    - replace (c * (2 ^ g * 2 ^ (e - emin F)) * 2 ^ (L - 1 + emin F)) with (c * (2 ^ g * 2 ^ (e - emin F) * 2 ^ (L - 1 + emin F))) by ring.
      replace (2 ^ g * (c * 2 ^ (e - 1 + L))) with (c * (2 ^ g * 2 ^ (e - 1 + L))) by ring. rewrite <- !pow2_add by lia. do 2 f_equal. lia. }
  pose proof (pow2_pos (L - 1 + emin F) ltac:(lia)) as HT. set (T := 2 ^ (L - 1 + emin F)) in *.
  assert (∀ c, 2 * (n * 2 ^ (- emin F)) * T = n * 2 ^ L ∧ c * (d * 2 ^ (e - emin F)) * T = d * (c * 2 ^ (e - 1 + L))) as Hscale'.
  { intros c. unfold T. split.
    - replace (2 * (n * 2 ^ (- emin F)) * 2 ^ (L - 1 + emin F)) with (n * (2 ^ 1 * 2 ^ (- emin F) * 2 ^ (L - 1 + emin F))) by (change (2 ^ 1) with 2; ring). rewrite <- !pow2_add by lia. do 2 f_equal. lia.
    - replace (c * (d * 2 ^ (e - emin F)) * 2 ^ (L - 1 + emin F)) with (d * (c * (2 ^ (e - emin F) * 2 ^ (L - 1 + emin F)))) by ring. rewrite <- !pow2_add by lia. do 3 f_equal. lia. }
  set (r := M * 2 ^ (X + L)) in *. set (V := 2 ^ (e - 1 + L)) in *. assert (0 < V) as HV by (apply pow2_pos; clear -He Hem HLv; lia).
  assert (r <= (2 * m + 1) * V) as U2. { destruct (Hscale (2 * m + 1)) as [E1 E2]. apply (Z.mul_le_mono_pos_l _ _ (2 ^ g)); [done|]. rewrite <- E1, <- E2. apply Z.mul_le_mono_nonneg_r; [lia | exact U1]. }
  assert ((2 * m - 1) * V <= r) as L2. { destruct (Hscale (2 * m - 1)) as [E1 E2]. apply (Z.mul_le_mono_pos_l _ _ (2 ^ g)); [done|]. rewrite <- E1, <- E2. apply Z.mul_le_mono_nonneg_r; [lia | exact L1]. }
  assert (2 * 2 ^ (fp F - 1) * 2 ^ (emin F - 1 + L) <= r) as Hr.
  { unfold r. etrans; [|apply Z.mul_le_mono_nonneg_r; [apply Z.lt_le_incl, pow2_pos; clear -HX HLv; lia | apply HM]]. change 2 with (2 ^ 1) at 1. clear -Hp Hem HLv HX Hnorm. rewrite <- !pow2_add by lia. apply Z.pow_le_mono_r; lia. }
  fold P in Hr.
  (* strictly *)
  assert (r < (2 * m + 1) * V) as U3.
  { destruct (decide (P <= m)) as [HPm|HPm].
    - pose proof (not_tie (2 * m + 1) (e - 1) Hlow) as Hnt. fold r V in Hnt. enough (r ≠ (2 * m + 1) * V) as Hnq by (clear -U2 Hnq; lia). apply Hnt; [|by rewrite Z.odd_add, Z.odd_mul | clear -Hem He; lia].
      rewrite E4. clear -HPm Hm P1. lia.
    - destruct Hcan as [?|Hee]; [lia|]. rewrite <- Hee in Hr. fold V in Hr. clear -Hr HPm HV U2. nia. }
  assert ((2 * m - 1) * V < r) as L3.
  { destruct (decide (P < m)) as [HPm|HPm].
    - pose proof (not_tie (2 * m - 1) (e - 1) Hlow) as Hnt. fold r V in Hnt. enough (r ≠ (2 * m - 1) * V) as Hnq by (clear -L2 Hnq; lia). apply Hnt; [|by rewrite Z.odd_sub, Z.odd_mul | clear -Hem He; lia].
      rewrite E4. clear -HPm Hm P1. lia.
    - destruct (decide (e = emin F)) as [Hee|Hne]; [rewrite <- Hee in Hr; fold V in Hr; clear -Hr HPm HV; nia|]. destruct Hcan as [Hcan|?]; [|done].
      assert (m = P) as HmP by (clear -Hcan HPm; lia). specialize (S1 HmP ltac:(clear -He Hne; lia)).
      destruct (Hscale (4 * m - 1)) as [E1 E2]. assert ((4 * m - 1) * V <= 2 * r) as Hs2; [|clear -Hs2 HV; lia].
      apply (Z.mul_le_mono_pos_l _ _ (2 ^ g)); [done|]. replace (2 ^ g * (2 * r)) with (2 * (2 ^ g * r)) by ring. rewrite <- E1, <- E2.
      rewrite (Z.mul_assoc 2 _ T). apply Z.mul_le_mono_nonneg_r; [lia|]. clear -S1. lia. }
  assert (4 * P <= 2 ^ 64) as HP64 by (rewrite <- E4; apply Z.pow_le_mono_r; clear -Hp64; lia).
  assert (0 <= 2 * m + 1 < 2 ^ 64 ∧ -1076 <= e - 1) as [Hm64 He1] by (clear -HP64 Hm P1 He Hem; lia).
  assert (2 * (n * 2 ^ (- emin F)) < (2 * m + 1) * (d * 2 ^ (e - emin F))) as U4.
  { destruct (side (2 * m + 1) (e - 1) Hm64 He1) as [H _]. fold r V in H. specialize (H U3). destruct (Hscale' (2 * m + 1)) as [E1 E2]. rewrite <- E1, <- E2 in H. by apply Z.mul_lt_mono_pos_r in H. }
  assert ((2 * m - 1) * (d * 2 ^ (e - emin F)) < 2 * (n * 2 ^ (- emin F))) as L4.
  { pose proof (pow2_pos (e - emin F) ltac:(clear -He; lia)) as W1. pose proof (pow2_pos (- emin F) ltac:(clear -Hemin; lia)) as W2.
    destruct (decide (m = 0)) as [Hm0|Hm0]; [rewrite Hm0; clear -W1 W2 Hn Hd; nia|]. assert (0 <= 2 * m - 1 < 2 ^ 64) as Hm65 by (clear -Hm64 Hm0 Hm; lia).
    destruct (side (2 * m - 1) (e - 1) Hm65 He1) as [_ H]. fold r V in H. specialize (H L3). destruct (Hscale' (2 * m - 1)) as [E1 E2]. rewrite <- E1, <- E2 in H. by apply Z.mul_lt_mono_pos_r in H. }
  split; cbv zeta.
  { split; [clear -L4; lia | intros E; clear -L4 E; lia]. }
  { split; [clear -U4; lia | intros E; clear -U4 E; lia]. }
  intros HmP Hlt. specialize (S1 HmP Hlt). assert (2 * 2 ^ (e - 2 + L) = V) as EV by (unfold V; rewrite <- Z.pow_succ_r by lia; f_equal; lia). set (V2 := 2 ^ (e - 2 + L)) in *.
  assert ((4 * m - 1) * V2 < r) as S2.
  { assert ((4 * m - 1) * V2 <= r) as S2.
    { destruct (Hscale (4 * m - 1)) as [E1 E2]. enough ((4 * m - 1) * V <= 2 * r) as Hen by (clear -Hen EV; lia). apply (Z.mul_le_mono_pos_l _ _ (2 ^ g)); [done|].
      replace (2 ^ g * (2 * r)) with (2 * (2 ^ g * r)) by ring. rewrite <- E1, <- E2. rewrite (Z.mul_assoc 2 _ T). apply Z.mul_le_mono_nonneg_r; [lia|]. clear -S1. lia. }
    pose proof (not_tie (4 * m - 1) (e - 2) Hlow) as Hnt. fold r V2 in Hnt. enough (r ≠ (4 * m - 1) * V2) as Hnq by (clear -S2 Hnq; lia). apply Hnt; [|by rewrite Z.odd_sub, Z.odd_mul | clear -Hem He Hlt; lia].
    rewrite E4. clear -HmP P2 P1. lia. }
  assert (0 <= 4 * m - 1 < 2 ^ 64 ∧ -1076 <= e - 2) as [H4 He2] by (clear -HP64 HmP P2 Hem Hlt; lia).
  destruct (side (4 * m - 1) (e - 2) H4 He2) as [_ H]. fold r V2 in H. specialize (H S2). destruct (Hscale' (4 * m - 1)) as [E1 E2].
  assert ((4 * m - 1) * (d * 2 ^ (e - emin F)) * T < 2 * (2 * (n * 2 ^ (- emin F))) * T) as H5; [|apply Z.mul_lt_mono_pos_r in H5; [clear -H5; lia | done]].
  rewrite E2. fold V. rewrite <- EV. replace (2 * (2 * (n * 2 ^ (- emin F))) * T) with (2 * (2 * (n * 2 ^ (- emin F)) * T)) by ring. rewrite E1. clear -H. lia.
Qed.
End Twice.
