(* ===== verification/Bigint.v ===== *)
(** * Big integers of strtod (src/src/strtod.c)

    A struct big is the list of its n limbs of 32 bits, the least significant
    one first. An operation that would write past the BL limbs of the array
    traps. *)
From S2P Require Import Prelude Fpround.

Definition BL : nat := 720.

Definition grow (b : list Z) : res (list Z) := if (length b <=? BL)%nat then Ok b else Trap Segv.

Definition big_small (v : Z) : list Z := if v =? 0 then [] else [v].

(** The loop of big_muladd: the limbs and the carry out. *)
Fixpoint muladd_loop (b : list Z) (m c : Z) : list Z * Z :=
  match b with
  | [] => ([], c)
  | x :: b =>
      let t := u64 (x * m + c) in
      let '(b, c) := muladd_loop b m (Z.shiftr t 32) in (u32 t :: b, c)
  end.

Definition big_muladd (b : list Z) (m a : Z) : res (list Z) :=
  let '(b, c) := muladd_loop b m a in
  if c =? 0 then Ok b else grow (b ++ [u32 c]).

Fixpoint mul_e9 (k : nat) (b : list Z) : res (list Z) :=
  match k with O => Ok b | S k => b ← big_muladd b 1000000000 0; mul_e9 k b end.

Definition p10 : list Z := [1; 10; 100; 1000; 10000; 100000; 1000000; 10000000; 100000000].

Definition big_mulpow10 (b : list Z) (k : Z) : res (list Z) :=
  b ← mul_e9 (Z.to_nat (k / 9)) b;
  if k mod 9 =? 0 then Ok b else big_muladd b (nth (Z.to_nat (k mod 9)) p10 0) 0.

Fixpoint shl_loop (b : list Z) (s c : Z) : list Z * Z :=
  match b with
  | [] => ([], c)
  | t :: b => let '(b, c') := shl_loop b s (Z.shiftr t (32 - s)) in (Z.lor (u32 (Z.shiftl t s)) c :: b, c')
  end.

Definition big_shl (b : list Z) (k : Z) : res (list Z) :=
  if (length b =? 0)%nat || (k =? 0) then Ok b else
  let w := k / 32 in let s := k mod 32 in
  let b := if negb (s =? 0) then (let '(b, c) := shl_loop b s 0 in if c =? 0 then b else b ++ [c]) else b in
  grow (replicate (Z.to_nat w) 0 ++ b).

(** __builtin_clz *)
Definition clz (x : Z) : Z := 31 - Z.log2 x.

Definition big_bits (b : list Z) : Z :=
  if (length b =? 0)%nat then 0 else 32 * (Z.of_nat (length b) - 1) + 32 - clz (nth (length b - 1) b 0).

(** From the top limb down. *)
Fixpoint cmp_loop (a b : list Z) : Z :=
  match a, b with
  | x :: a, y :: b => if negb (x =? y) then (if x <? y then -1 else 1) else cmp_loop a b
  | _, _ => 0
  end.

Definition big_cmp (a b : list Z) : Z :=
  if negb (length a =? length b)%nat then (if (length a <? length b)%nat then -1 else 1) else cmp_loop (reverse a) (reverse b).

(** while (n && !d[n - 1]) n--; *)
Fixpoint trim (b : list Z) : list Z :=
  match b with
  | [] => []
  | x :: b => match trim b with [] => if x =? 0 then [] else [x] | b => x :: b end
  end.

Fixpoint sub_loop (a b : list Z) (c : Z) : list Z :=
  match a with
  | [] => []
  | x :: a =>
      let t := x - match b with [] => 0 | y :: _ => y end + c in
      u32 t :: sub_loop a (tail b) (Z.shiftr t 32)
  end.

Definition big_sub (a b : list Z) : list Z := trim (sub_loop a b 0).

(** The loop of big_top; [nb] is the number of bits. *)
Fixpoint top_loop (fuel : nat) (b : list Z) (want nb bit r : Z) : Z :=
  match fuel with
  | O => r
  | S fuel =>
      if (0 <=? bit) && (nb - want <=? bit) then
        let limb := bit / 32 in let lo := limb * 32 in
        let take := bit - lo + 1 in
        let need := want - (nb - 1 - bit) in
        let v := nth (Z.to_nat limb) b 0 in
        let '(v, take) := if need <? take then (Z.shiftr v (take - need), need) else (v, take) in
        let r := u128 (Z.lor (Z.shiftl r take) (Z.land v (if take =? 32 then 0xffffffff else Z.shiftl 1 take - 1))) in
        top_loop fuel b want nb (bit - take) r
      else r
  end.

(** The bits and the shift. *)
Definition big_top (b : list Z) (want : Z) : Z * Z :=
  let nb := big_bits b in
  let r := top_loop (S (length b)) b want nb (nb - 1) 0 in
  (if nb <? want then u128 (Z.shiftl r (want - nb)) else r, nb - want).

(** for (; m; m >>= 32) md[mn++] = (uint32_t)m; *)
Fixpoint limbs128 (fuel : nat) (m : Z) : list Z :=
  match fuel with
  | O => []
  | S fuel => if m =? 0 then [] else u32 m :: limbs128 fuel (Z.shiftr m 32)
  end.

(** The inner loop for one limb of the factor, and the carry at its end. *)
Fixpoint mul_row (a : list Z) (m : Z) (r : list Z) (c : Z) : list Z :=
  match a, r with
  | x :: a, y :: r => let t := u64 (x * m + y + c) in u32 t :: mul_row a m r (Z.shiftr t 32)
  | [], _ :: r => u32 c :: r
  | _, [] => []
  end.

(** Row j works on the limbs from j on. *)
Fixpoint mul_rows (a md r : list Z) : list Z :=
  match md with
  | [] => r
  | m :: md => match mul_row a m r 0 with y :: r => y :: mul_rows a md r | [] => [] end
  end.

Definition big_mul128 (a : list Z) (m : Z) : res (list Z) :=
  let md := limbs128 4 m in
  r ← grow (replicate (length a + length md) 0);
  Ok (trim (mul_rows a md r)).

(** ** Values *)

Fixpoint val (b : list Z) : Z := match b with [] => 0 | x :: b => x + 2 ^ 32 * val b end.

Definition limb (x : Z) : Prop := 0 <= x < 2 ^ 32.

(** No leading zero limbs. *)
Definition norm (b : list Z) : Prop := Forall limb b ∧ (b = [] ∨ 2 ^ (32 * (Z.of_nat (length b) - 1)) <= val b).

Lemma val_range b : Forall limb b → 0 <= val b < 2 ^ (32 * Z.of_nat (length b)).
Proof.
  induction 1 as [|x b Hx Hb IH]; cbn [val length]; [done|]. replace (32 * Z.of_nat (S (length b))) with (32 + 32 * Z.of_nat (length b)) by lia.
  rewrite pow2_add by lia. unfold limb in Hx. nia.
Qed.

Lemma val_app a b : val (a ++ b) = val a + 2 ^ (32 * Z.of_nat (length a)) * val b.
Proof.
  induction a as [|x a IH]; cbn [app val length]; [lia|]. rewrite IH. replace (32 * Z.of_nat (S (length a))) with (32 + 32 * Z.of_nat (length a)) by lia. rewrite pow2_add by lia. ring.
Qed.

Lemma val_zeros k : val (replicate k 0) = 0.
Proof. induction k as [|k IH]; cbn [replicate val]; lia. Qed.

Lemma norm_pos b : norm b → b ≠ [] → 0 < val b.
Proof. intros [_ [?|H]] Hb; [done|]. destruct b; [done|]. pose proof (pow2_pos (32 * (Z.of_nat (length (z :: b)) - 1)) ltac:(cbn [length]; lia)). lia. Qed.

Lemma norm_zero b : norm b → val b = 0 → b = [].
Proof. intros Hn Hv. destruct b as [|x b]; [done|]. pose proof (norm_pos _ Hn ltac:(done)). lia. Qed.

Lemma norm_nil : norm [].
Proof. split; [constructor | by left]. Qed.

(** A number below 2^(32 k) has at most k limbs. *)
Lemma norm_length b k : norm b → val b < 2 ^ (32 * Z.of_nat k) → (length b <= k)%nat.
Proof.
  intros [_ [->|H]] Hlt; [cbn; lia|]. destruct (decide (length b <= k)%nat) as [|Hn]; [done|]. exfalso.
  assert (2 ^ (32 * Z.of_nat k) <= 2 ^ (32 * (Z.of_nat (length b) - 1))) by (apply Z.pow_le_mono_r; lia). lia.
Qed.

Lemma shr32 t : Z.shiftr t 32 = t / 2 ^ 32.
Proof. apply Z.shiftr_div_pow2. lia. Qed.

Lemma split32 t : t = u32 t + 2 ^ 32 * (t / 2 ^ 32).
Proof. unfold uwrap. pose proof (Z.div_mod t (2 ^ 32)). lia. Qed.

Lemma u32_limb t : limb (u32 t).
Proof. unfold limb. pose proof (uwrap_range 32 t). lia. Qed.

(** ** Products and sums *)

Lemma grow_ok b : norm b → val b < 2 ^ (32 * Z.of_nat BL) → grow b = Ok b.
Proof. intros Hn Hlt. unfold grow. by rewrite (proj2 (Nat.leb_le _ _) (norm_length _ _ Hn Hlt)). Qed.

(** One limb more on top. *)
Lemma norm_snoc b c : Forall limb b → limb c → c ≠ 0 → norm (b ++ [c]) ∧ val (b ++ [c]) = val b + 2 ^ (32 * Z.of_nat (length b)) * c.
Proof.
  intros Hb Hc Hz. rewrite val_app. cbn [val]. rewrite Z.mul_0_r, Z.add_0_r. split; [|done]. split; [by apply Forall_app; split; [|constructor]|]. right.
  rewrite val_app, length_app. cbn [val length]. replace (Z.of_nat (length b + 1) - 1) with (Z.of_nat (length b)) by lia.
  pose proof (val_range b Hb). pose proof (pow2_pos (32 * Z.of_nat (length b)) ltac:(lia)). unfold limb in Hc. nia.
Qed.

Lemma muladd_loop_ok m b : 0 <= m < 2 ^ 32 → Forall limb b → ∀ c, limb c →
  let '(b', c') := muladd_loop b m c in
  Forall limb b' ∧ length b' = length b ∧ limb c' ∧ val b' + 2 ^ (32 * Z.of_nat (length b)) * c' = val b * m + c.
Proof.
  intros Hm. induction 1 as [|x b Hx Hb IH]; intros c Hc; cbn [muladd_loop].
  - split_and!; [constructor | done | done | cbn; lia].
  - unfold limb in Hx, Hc. assert (0 <= x * m + c < 2 ^ 64) as Ht by nia. rewrite (uwrap_small 64) by done. set (t := x * m + c) in *. rewrite shr32.
    assert (limb (t / 2 ^ 32)) as Hq by (split; [apply Z.div_pos; lia | apply Z.div_lt_upper_bound; lia]). specialize (IH _ Hq).
    destruct (muladd_loop b m (t / 2 ^ 32)) as [b' c']. destruct IH as (H1 & H2 & H3 & H4). split_and!; [constructor; [apply u32_limb | done] | cbn [length]; lia | done|].
    cbn [val length]. pose proof (split32 t). replace (32 * Z.of_nat (S (length b))) with (32 + 32 * Z.of_nat (length b)) by lia. rewrite pow2_add by lia.
    unfold t in *. nia.
Qed.

Lemma big_muladd_ok b m a :
  norm b → 1 <= m < 2 ^ 32 → limb a → val b * m + a < 2 ^ (32 * Z.of_nat BL) →
  wp (big_muladd b m a) (λ r, norm r ∧ val r = val b * m + a).
Proof.
  intros Hn Hm Ha Hcap. unfold big_muladd. pose proof (muladd_loop_ok m b ltac:(lia) (proj1 Hn) a Ha) as H. destruct (muladd_loop b m a) as [b' c]. destruct H as (H1 & H2 & H3 & H4).
  pose proof (val_range b (proj1 Hn)). unfold limb in H3, Ha. destruct (Z.eqb_spec c 0) as [->|Hc].
  - apply wp_ok. split; [|lia]. split; [done|]. destruct b' as [|y b']; [by left | right]. rewrite H2. destruct Hn as [_ [->|Hn]]; [done|]. nia.
  - rewrite (uwrap_small 32) by lia. destruct (norm_snoc b' c H1 H3 Hc) as [N1 N2]. rewrite grow_ok; [|done | rewrite N2, H2; lia]. apply wp_ok. split; [done|]. rewrite N2, H2. lia.
Qed.

Lemma mul_e9_ok k b : norm b → val b * 10 ^ (9 * Z.of_nat k) < 2 ^ (32 * Z.of_nat BL) → wp (mul_e9 k b) (λ r, norm r ∧ val r = val b * 10 ^ (9 * Z.of_nat k)).
Proof.
  revert b. induction k as [|k IH]; intros b Hn Hcap; cbn [mul_e9].
  - apply wp_ok. split; [done|]. rewrite Z.mul_0_r, Z.pow_0_r. lia.
  - replace (9 * Z.of_nat (S k)) with (9 + 9 * Z.of_nat k) in * by lia. rewrite Z.pow_add_r in * by lia. change (10 ^ 9) with 1000000000 in *.
    pose proof (val_range b (proj1 Hn)). assert (1 <= 10 ^ (9 * Z.of_nat k)) by (pose proof (Z.pow_pos_nonneg 10 (9 * Z.of_nat k)); lia).
    apply wp_bind. eapply wp_mono; [apply big_muladd_ok; [done | lia | unfold limb; lia | nia]|]. intros r [Hr Hv]. rewrite Z.add_0_r in Hv.
    eapply wp_mono; [apply IH; [done | rewrite Hv; lia]|]. intros r' [Hr' Hv']. split; [done|]. rewrite Hv', Hv. lia.
Qed.

Lemma p10_nth i : 0 <= i < 9 → nth (Z.to_nat i) p10 0 = 10 ^ i.
Proof.
  intros Hi. assert (∀ n, (n < 9)%nat → nth n p10 0 = 10 ^ Z.of_nat n) as H; [|rewrite H by lia; f_equal; lia].
  intros n Hn. do 9 (destruct n as [|n]; [done|]). lia.
Qed.

Lemma big_mulpow10_ok b k : norm b → 0 <= k → val b * 10 ^ k < 2 ^ (32 * Z.of_nat BL) → wp (big_mulpow10 b k) (λ r, norm r ∧ val r = val b * 10 ^ k).
Proof.
  intros Hn Hk Hcap. unfold big_mulpow10. pose proof (Z.div_mod k 9 ltac:(lia)) as Hdm. pose proof (Z.mod_pos_bound k 9 ltac:(lia)) as Hmb. assert (0 <= k / 9) by (apply Z.div_pos; lia).
  set (i := k mod 9) in *. set (j := k / 9) in *. assert (10 ^ k = 10 ^ (9 * j) * 10 ^ i) as E by (rewrite <- Z.pow_add_r by lia; f_equal; lia). rewrite E in *.
  pose proof (val_range b (proj1 Hn)). pose proof (Z.pow_pos_nonneg 10 i ltac:(lia) ltac:(lia)). pose proof (Z.pow_pos_nonneg 10 (9 * j) ltac:(lia) ltac:(lia)).
  apply wp_bind. eapply wp_mono; [apply mul_e9_ok; [done | rewrite Z2Nat.id by lia; nia]|]. rewrite Z2Nat.id by lia. intros r [Hr Hv]. destruct (Z.eqb_spec i 0) as [Hi|Hi].
  - apply wp_ok. split; [done|]. rewrite Hv, Hi, Z.pow_0_r. lia.
  - rewrite p10_nth by lia. assert (10 ^ i <= 10 ^ 8) by (apply Z.pow_le_mono_r; lia). change (10 ^ 8) with 100000000 in *.
    eapply wp_mono; [apply big_muladd_ok; [done | lia | unfold limb; lia | rewrite Hv; lia]|]. intros r' [Hr' Hv']. split; [done|]. rewrite Hv', Hv. lia.
Qed.

(** ** Shifts *)

Lemma shl_loop_ok s b : 0 < s < 32 → Forall limb b → ∀ c, 0 <= c < 2 ^ s →
  let '(b', c') := shl_loop b s c in
  Forall limb b' ∧ length b' = length b ∧ 0 <= c' < 2 ^ s ∧ val b' + 2 ^ (32 * Z.of_nat (length b)) * c' = val b * 2 ^ s + c.
Proof.
  intros Hs. induction 1 as [|t b Ht Hb IH]; intros c Hc; cbn [shl_loop].
  - split_and!; [constructor | done | lia | lia | cbn; lia].
  - unfold limb in Ht. pose proof (pow2_pos s ltac:(lia)) as Hsp. pose proof (pow2_pos (32 - s) ltac:(lia)) as Htp.
    assert (2 ^ 32 = 2 ^ (32 - s) * 2 ^ s) as E32 by (rewrite <- pow2_add by lia; f_equal; lia).
    rewrite Z.shiftr_div_pow2, Z.shiftl_mul_pow2 by lia. assert (0 <= t / 2 ^ (32 - s) < 2 ^ s) as Hq by (split; [apply Z.div_pos; lia | apply Z.div_lt_upper_bound; lia]).
    specialize (IH _ Hq). destruct (shl_loop b s (t / 2 ^ (32 - s))) as [b' c']. destruct IH as (H1 & H2 & H3 & H4).
    assert (u32 (t * 2 ^ s) = t mod 2 ^ (32 - s) * 2 ^ s) as -> by (unfold uwrap; rewrite E32; apply Z.mul_mod_distr_r; lia). rewrite lor_add by lia.
    pose proof (Z.mod_pos_bound t (2 ^ (32 - s)) Htp). pose proof (Z.div_mod t (2 ^ (32 - s)) ltac:(lia)). split_and!; [constructor; [unfold limb; nia | done] | cbn [length]; lia | lia | lia|].
    cbn [val length]. replace (32 * Z.of_nat (S (length b))) with (32 + 32 * Z.of_nat (length b)) by lia. rewrite pow2_add by lia.
    replace (t mod 2 ^ (32 - s) * 2 ^ s + c + 2 ^ 32 * val b' + 2 ^ 32 * 2 ^ (32 * Z.of_nat (length b)) * c') with (t mod 2 ^ (32 - s) * 2 ^ s + c + 2 ^ 32 * (val b' + 2 ^ (32 * Z.of_nat (length b)) * c')) by ring.
    rewrite H4, E32. nia.
Qed.

Lemma norm_zeros w b : norm b → b ≠ [] → norm (replicate w 0 ++ b) ∧ val (replicate w 0 ++ b) = 2 ^ (32 * Z.of_nat w) * val b.
Proof.
  intros [Hb [?|Hn]] Hne; [done|]. rewrite val_app, val_zeros, length_replicate. cbn [Z.add]. split; [|done]. split.
  - apply Forall_app. split; [|done]. apply Forall_replicate. unfold limb. lia.
  - right. rewrite val_app, val_zeros, length_app, length_replicate. cbn [Z.add]. destruct b as [|x b]; [done|].
    replace (32 * (Z.of_nat (w + length (x :: b)) - 1)) with (32 * Z.of_nat w + 32 * (Z.of_nat (length (x :: b)) - 1)) by lia.
    rewrite pow2_add by (cbn [length]; lia). apply Z.mul_le_mono_nonneg_l; [|done]. apply Z.lt_le_incl, pow2_pos. lia.
Qed.

Lemma big_shl_ok b k : norm b → 0 <= k → val b * 2 ^ k < 2 ^ (32 * Z.of_nat BL) → wp (big_shl b k) (λ r, norm r ∧ val r = val b * 2 ^ k).
Proof.
  intros Hn Hk Hcap. unfold big_shl. destruct (Nat.eqb_spec (length b) 0) as [Hb|Hb]; cbn [orb].
  { apply wp_ok. destruct b; [|done]. split; [done | cbn; lia]. }
  destruct (Z.eqb_spec k 0) as [->|Hk0]; [apply wp_ok; split; [done | rewrite Z.pow_0_r; lia]|]. cbv zeta.
  pose proof (Z.div_mod k 32 ltac:(lia)) as Hdm. pose proof (Z.mod_pos_bound k 32 ltac:(lia)) as Hmb. assert (0 <= k / 32) as Hw by (apply Z.div_pos; lia).
  set (s := k mod 32) in *. set (w := k / 32) in *. set (b1 := if negb (s =? 0) then _ else b).
  assert (norm b1 ∧ b1 ≠ [] ∧ val b1 = val b * 2 ^ s) as (N1 & N2 & N3).
  { unfold b1. clear b1 Hcap. destruct (Z.eqb_spec s 0) as [->|Hs]; cbn [negb]; [split_and!; [done | by destruct b | rewrite Z.pow_0_r; lia]|].
    pose proof (pow2_pos s ltac:(lia)) as Hsp. assert (2 ^ s <= 2 ^ 32) by (apply Z.pow_le_mono_r; lia).
    pose proof (shl_loop_ok s b ltac:(lia) (proj1 Hn) 0 ltac:(lia)) as Hlo. destruct (shl_loop b s 0) as [b' c]. destruct Hlo as (H1 & H2 & H3 & H4). destruct (Z.eqb_spec c 0) as [Hc|Hc]; [rewrite Hc in *|].
    - split_and!; [|destruct b'; [cbn in H2; lia | done] | lia]. split; [done|]. right. destruct Hn as [_ [->|Hn]]; [done|]. rewrite H2. nia.
    - destruct (norm_snoc b' c H1 ltac:(unfold limb; lia) Hc) as [M1 M2]. split_and!; [done | by destruct b' | rewrite M2, H2; lia]. }
  destruct (norm_zeros (Z.to_nat w) b1 N1 N2) as [M1 M2]. rewrite Z2Nat.id in M2 by lia.
  assert (val (replicate (Z.to_nat w) 0 ++ b1) = val b * 2 ^ k) as E. { rewrite M2, N3. replace (2 ^ k) with (2 ^ (32 * w) * 2 ^ s) by (rewrite <- pow2_add by lia; f_equal; lia). ring. }
  rewrite grow_ok by (rewrite ?E; done). apply wp_ok. done.
Qed.

(** ** The number of bits *)

Lemma norm_inv b : norm b → b ≠ [] → ∃ b0 x, b = b0 ++ [x] ∧ Forall limb b0 ∧ 0 < x < 2 ^ 32.
Proof.
  intros Hn Hne. destruct b as [|y b _] using rev_ind; [done|]. exists b, y. pose proof (proj1 Hn) as Hf. apply Forall_app in Hf as [H1 H2]. apply Forall_inv in H2. unfold limb in H2.
  split_and!; [done | done | | lia]. destruct Hn as [_ [?|Hn]]; [done|]. rewrite val_app, length_app in Hn. cbn [val length] in Hn.
  replace (Z.of_nat (length b + 1) - 1) with (Z.of_nat (length b)) in Hn by lia. pose proof (val_range b H1). nia.
Qed.

Lemma big_bits_ok b : norm b → b ≠ [] → 2 ^ (big_bits b - 1) <= val b < 2 ^ big_bits b ∧ 0 < big_bits b <= 32 * Z.of_nat (length b).
Proof.
  intros Hn Hne. destruct (norm_inv b Hn Hne) as (b0 & x & -> & H0 & Hx). unfold big_bits. rewrite length_app. cbn [length]. rewrite Nat.add_1_r. cbn [Nat.eqb]. rewrite Nat.sub_succ, Nat.sub_0_r.
  rewrite app_nth2, Nat.sub_diag by lia. cbn [nth]. unfold clz. pose proof (val_range b0 H0). rewrite val_app. cbn [val]. destruct (Z.log2_spec x ltac:(lia)) as [B1 B2]. pose proof (Z.log2_nonneg x).
  assert (Z.log2 x < 32) by (apply Z.log2_lt_pow2; lia). set (n := Z.of_nat (length b0)) in *. replace (32 * (Z.of_nat (S (length b0)) - 1) + 32 - (31 - Z.log2 x)) with (32 * n + Z.succ (Z.log2 x)) by lia.
  replace (32 * n + Z.succ (Z.log2 x) - 1) with (32 * n + Z.log2 x) by lia. rewrite !pow2_add by lia. pose proof (pow2_pos (32 * n) ltac:(lia)). split; [nia | lia].
Qed.

Lemma big_bits_log b : norm b → b ≠ [] → big_bits b = Z.log2 (val b) + 1.
Proof. intros Hn Hne. destruct (big_bits_ok b Hn Hne) as [H1 H2]. rewrite (Z.log2_unique (val b) (big_bits b - 1)); [lia | lia|]. replace (Z.succ (big_bits b - 1)) with (big_bits b) by lia. done. Qed.

(** ** Comparison *)

Lemma cmp_loop_ok a b : length a = length b → Forall limb a → Forall limb b → 0 <= cmp_loop a b ↔ val (reverse b) <= val (reverse a).
Proof.
  revert b. induction a as [|x a IH]; intros [|y b] Hl Ha Hb; try done. apply Forall_cons in Ha as [Hx Ha], Hb as [Hy Hb]. cbn [cmp_loop]. rewrite !reverse_cons, !val_app, !length_reverse. cbn [val length] in *.
  injection Hl as Hl. rewrite <- Hl. pose proof (val_range (reverse a) ltac:(by apply Forall_reverse)). pose proof (val_range (reverse b) ltac:(by apply Forall_reverse)). rewrite length_reverse in *. rewrite <- Hl in *.
  set (P := 2 ^ (32 * Z.of_nat (length a))) in *. unfold limb in Hx, Hy. destruct (Z.eqb_spec x y) as [->|Hne]; cbn [negb]; [rewrite IH by done; lia|].
  destruct (Z.ltb_spec x y) as [Hlt|Hlt]; [split; [lia | nia] | split; [nia | lia]].
Qed.

Lemma big_cmp_ok a b : norm a → norm b → 0 <= big_cmp a b ↔ val b <= val a.
Proof.
  intros Ha Hb. unfold big_cmp. destruct (Nat.eqb_spec (length a) (length b)) as [Hl|Hl]; cbn [negb].
  { rewrite cmp_loop_ok; rewrite ?length_reverse, ?Forall_reverse, ?reverse_involutive; [done | done | apply Ha | apply Hb]. }
  pose proof (val_range a (proj1 Ha)). pose proof (val_range b (proj1 Hb)).
  destruct (Nat.ltb_spec (length a) (length b)) as [Hlt|Hge]; [split; [lia|] | split; [|lia]].
  - intros Hle. pose proof (norm_length b (length a) Hb ltac:(lia)). lia.
  - intros _. destruct (decide (val b <= val a)); [done|]. pose proof (norm_length a (length b) Ha ltac:(lia)). lia.
Qed.

(** ** Differences *)

Lemma trim_ok b : Forall limb b → norm (trim b) ∧ val (trim b) = val b.
Proof.
  induction 1 as [|x b Hx Hb [IH1 IH2]]; cbn [trim]; [split; [apply norm_nil | done]|]. unfold limb in Hx. destruct (trim b) as [|y t] eqn:Et.
  - cbn [val] in *. rewrite <- IH2. destruct (Z.eqb_spec x 0) as [->|Hx0]; cbn [val]; [split; [apply norm_nil | done]|]. split; [|done].
    split; [by constructor|]. right. cbn. lia.
  - cbn [val]. cbn [val] in IH2. rewrite <- IH2. split; [|done]. destruct IH1 as [H1 [?|H2]]; [done|]. split; [by constructor|]. right. cbn [val length] in *.
    replace (32 * (Z.of_nat (S (S (length t))) - 1)) with (32 + 32 * (Z.of_nat (S (length t)) - 1)) by lia. rewrite pow2_add by lia. lia.
Qed.

Lemma sub_loop_ok a : Forall limb a → ∀ b c, Forall limb b → (length b <= length a)%nat → -1 <= c <= 0 →
  Forall limb (sub_loop a b c) ∧ length (sub_loop a b c) = length a ∧
  ∃ c', -1 <= c' <= 0 ∧ val (sub_loop a b c) + 2 ^ (32 * Z.of_nat (length a)) * c' = val a - val b + c.
Proof.
  induction 1 as [|x a Hx Ha IH]; intros b c Hb Hl Hc; cbn [sub_loop].
  - destruct b; [|cbn in Hl; lia]. split_and!; [constructor | done|]. exists c. cbn. lia.
  - set (y := match b with [] => 0 | y :: _ => y end). assert (limb y ∧ Forall limb (tail b) ∧ val b = y + 2 ^ 32 * val (tail b) ∧ (length (tail b) <= length a)%nat) as (Hy & Hb' & Hv & Hl').
    { unfold y. destruct b as [|z b]; cbn [tail val]; [unfold limb; split_and!; [lia | lia | constructor | lia | cbn; lia]|]. apply Forall_cons in Hb as [? ?]. cbn [length] in Hl. split_and!; [done | done | done | lia]. }
    rewrite shr32. set (t := x - y + c). unfold limb in Hx, Hy. pose proof (split32 t) as Hsp. assert (-1 <= t / 2 ^ 32 <= 0) as Hq.
    { split; [apply Z.div_le_lower_bound; unfold t; lia|]. assert (t / 2 ^ 32 < 1); [|lia]. apply Z.div_lt_upper_bound; unfold t; lia. }
    destruct (IH (tail b) _ Hb' Hl' Hq) as (H1 & H2 & c' & Hc' & H4). split_and!; [constructor; [apply u32_limb | done] | cbn [length]; lia|]. exists c'. split; [done|].
    cbn [val length]. replace (32 * Z.of_nat (S (length a))) with (32 + 32 * Z.of_nat (length a)) by lia. rewrite pow2_add by lia. rewrite Hv.
    replace (u32 t + 2 ^ 32 * val (sub_loop a (tail b) (t / 2 ^ 32)) + 2 ^ 32 * 2 ^ (32 * Z.of_nat (length a)) * c') with (u32 t + 2 ^ 32 * (val (sub_loop a (tail b) (t / 2 ^ 32)) + 2 ^ (32 * Z.of_nat (length a)) * c')) by ring.
    rewrite H4. unfold t in *. lia.
Qed.

Lemma big_sub_ok a b : norm a → norm b → val b <= val a → norm (big_sub a b) ∧ val (big_sub a b) = val a - val b.
Proof.
  intros Ha Hb Hle. unfold big_sub. pose proof (val_range a (proj1 Ha)) as Hr. pose proof (norm_length b (length a) Hb ltac:(lia)) as Hl.
  destruct (sub_loop_ok a (proj1 Ha) b 0 (proj1 Hb) Hl ltac:(lia)) as (H1 & H2 & c' & Hc & H4). destruct (trim_ok _ H1) as [T1 T2]. split; [done|]. rewrite T2.
  pose proof (val_range _ H1) as Hr'. rewrite H2 in Hr'. pose proof (val_range b (proj1 Hb)). assert (c' = 0) as -> by nia. lia.
Qed.

(** ** The leading bits *)

Lemma nth_val b i : Forall limb b → nth i b 0 = val b / 2 ^ (32 * Z.of_nat i) mod 2 ^ 32.
Proof.
  intros Hb. revert i. induction Hb as [|x b Hx Hb IH]; intros [|i]; cbn [nth val].
  - done.
  - by rewrite Z.div_0_l by (apply Z.pow_nonzero; lia).
  - rewrite Z.mul_0_r, Z.pow_0_r, Z.div_1_r. rewrite Z.mul_comm, Z.mod_add, Z.mod_small by (unfold limb in Hx; lia). done.
  - rewrite IH. replace (32 * Z.of_nat (S i)) with (32 + 32 * Z.of_nat i) by lia. rewrite pow2_add by lia. unfold limb in Hx.
    rewrite <- Z.div_div by (try apply Z.pow_nonzero; try apply pow2_pos; lia). do 2 f_equal. rewrite Z.mul_comm, Z.div_add, Z.div_small by lia. done.
Qed.

Lemma mod_shift x a j c : 0 <= j → 0 <= c → j + c <= a → (x mod 2 ^ a) / 2 ^ j mod 2 ^ c = x / 2 ^ j mod 2 ^ c.
Proof.
  intros Hj Hc Ha. apply Z.bits_inj'. intros i Hi. destruct (decide (i < c)).
  - rewrite !Z.mod_pow2_bits_low, !Z.div_pow2_bits, Z.mod_pow2_bits_low by lia. done.
  - rewrite !Z.mod_pow2_bits_high by lia. done.
Qed.

(** From the bits down to [bit] + 1 to the next [k] bits. *)
Lemma next_bits v j k : 0 <= j → 0 <= k → v / 2 ^ (j + k) * 2 ^ k + (v / 2 ^ j) mod 2 ^ k = v / 2 ^ j.
Proof.
  intros Hj Hk. pose proof (pow2_pos j Hj). pose proof (pow2_pos k Hk). rewrite pow2_add, <- Z.div_div by lia. rewrite (Z.mul_comm _ (2 ^ k)). symmetry. apply Z.div_mod. lia.
Qed.

Lemma top_loop_ok b want nb :
  Forall limb b → 0 < want <= 128 → 0 <= val b < 2 ^ nb → 0 <= nb →
  ∀ fuel bit r, -1 <= bit < nb → nb - want - 1 <= bit → bit < 32 * Z.of_nat fuel ∨ bit < nb - want → r = val b / 2 ^ (bit + 1) →
  top_loop fuel b want nb bit r = val b / 2 ^ Z.max 0 (nb - want).
Proof.
  intros Hb Hw Hv Hnb. induction fuel as [|fuel IH]; intros bit r Hbit Hlow Hf ->; cbn [top_loop].
  - do 2 f_equal. lia.
  - destruct (Z.leb_spec 0 bit) as [H0|H0]; cbn [andb]; [|do 2 f_equal; lia]. destruct (Z.leb_spec (nb - want) bit) as [H1|H1]; [|do 2 f_equal; lia]. cbv zeta.
    pose proof (Z.div_mod bit 32 ltac:(lia)) as Hdm. pose proof (Z.mod_pos_bound bit 32 ltac:(lia)) as Hmb. assert (0 <= bit / 32) as Hl0 by (apply Z.div_pos; lia). set (l := bit / 32) in *.
    rewrite nth_val, Z2Nat.id by done.
    (* k bits, j bits above bit 0 *)
    set (take := bit - l * 32 + 1). set (need := want - (nb - 1 - bit)). set (vt := if need <? take then _ else _).
    assert (∃ k, 0 < k <= 32 ∧ k <= need ∧ k <= take ∧ (k = take ∨ k = need) ∧ snd vt = k ∧ (fst vt) mod 2 ^ k = val b / 2 ^ (bit + 1 - k) mod 2 ^ k) as (k & Hk & Hkn & Hkt & Hko & Hsnd & Hfst).
    { unfold vt. clear vt. destruct (Z.ltb_spec need take) as [Hnt|Hnt]; cbn [fst snd].
      - exists need. split_and!; try lia. rewrite Z.shiftr_div_pow2 by lia. rewrite mod_shift by lia. rewrite Z.div_div by (try apply Z.pow_nonzero; try apply pow2_pos; lia).
        rewrite <- pow2_add by lia. do 3 f_equal. lia.
      - exists take. split_and!; try lia. pose proof (mod_shift (val b / 2 ^ (32 * l)) 32 0 take ltac:(lia) ltac:(lia) ltac:(lia)) as Hms. rewrite Z.pow_0_r, !Z.div_1_r in Hms. rewrite Hms. do 3 f_equal. lia. }
    destruct vt as [v k']. cbn [fst snd] in *. subst k'.
    assert (Z.land v (if k =? 32 then 0xffffffff else Z.shiftl 1 k - 1) = v mod 2 ^ k) as ->.
    { destruct (Z.eqb_spec k 32) as [->|]; [apply (Z.land_ones v 32); lia|]. rewrite Z.shiftl_1_l. rewrite <- Z.land_ones by lia. by rewrite Z.ones_equiv, <- Z.sub_1_r. }
    rewrite Hfst, Z.shiftl_mul_pow2 by lia. pose proof (pow2_pos k ltac:(lia)) as Hkp. rewrite lor_add by (try apply Z.mod_pos_bound; lia).
    replace (bit + 1) with (bit + 1 - k + k) at 1 by lia. rewrite next_bits by lia.
    apply IH; [lia | lia | unfold take, need in *; lia|]. rewrite uwrap_small; [do 2 f_equal; lia|]. pose proof (pow2_pos (bit + 1 - k) ltac:(lia)). split; [apply Z.div_pos; lia|]. apply Z.div_lt_upper_bound; [lia|].
    eapply Z.lt_le_trans; [apply Hv|]. rewrite <- pow2_add by lia. apply Z.pow_le_mono_r; lia.
Qed.

Lemma big_top_ok b want : norm b → b ≠ [] → 0 < want <= 128 →
  big_top b want = (val b * 2 ^ Z.max 0 (want - big_bits b) / 2 ^ Z.max 0 (big_bits b - want), big_bits b - want).
Proof.
  intros Hn Hne Hw. unfold big_top. destruct (big_bits_ok b Hn Hne) as [H1 H2]. pose proof (val_range b (proj1 Hn)). set (nb := big_bits b) in *.
  assert (val b / 2 ^ (nb - 1 + 1) = 0) as H0 by (rewrite Z.sub_add; apply Z.div_small; lia).
  rewrite (top_loop_ok b want nb (proj1 Hn) Hw ltac:(lia) ltac:(lia)) by (try done; lia). f_equal. destruct (Z.ltb_spec nb want).
  - rewrite (Z.max_l 0 (nb - want)), (Z.max_r 0 (want - nb)), Z.pow_0_r, !Z.div_1_r by lia. rewrite Z.shiftl_mul_pow2 by lia. apply uwrap_small. pose proof (pow2_pos (want - nb) ltac:(lia)). split; [nia|].
    apply Z.lt_le_trans with (2 ^ nb * 2 ^ (want - nb)); [nia|]. rewrite <- pow2_add by lia. apply Z.pow_le_mono_r; lia.
  - rewrite (Z.max_l 0 (want - nb)) by lia. rewrite Z.pow_0_r, Z.mul_1_r. done.
Qed.

(** ** Products by 128 bits *)

Lemma limbs128_ok fuel m : 0 <= m < 2 ^ (32 * Z.of_nat fuel) → Forall limb (limbs128 fuel m) ∧ val (limbs128 fuel m) = m ∧ (length (limbs128 fuel m) <= fuel)%nat.
Proof.
  revert m. induction fuel as [|fuel IH]; intros m Hm; cbn [limbs128]; [cbn in Hm; split_and!; [constructor | cbn; lia | cbn; lia]|].
  destruct (Z.eqb_spec m 0) as [->|Hz]; [split_and!; [constructor | done | cbn; lia]|]. rewrite shr32. replace (32 * Z.of_nat (S fuel)) with (32 + 32 * Z.of_nat fuel) in Hm by lia. rewrite pow2_add in Hm by lia.
  destruct (IH (m / 2 ^ 32)) as (H1 & H2 & H3); [split; [apply Z.div_pos; lia | apply Z.div_lt_upper_bound; lia]|].
  split_and!; [constructor; [apply u32_limb | done] | cbn [val]; rewrite H2; symmetry; apply split32 | cbn [length]; lia].
Qed.

Lemma mul_row_ok m a : limb m → Forall limb a → ∀ r c rest, Forall limb r → length r = length a → limb c →
  ∃ r', mul_row a m (r ++ 0 :: rest) c = r' ++ rest ∧ Forall limb r' ∧ length r' = S (length a) ∧ val r' = val r + val a * m + c.
Proof.
  intros Hm. induction 1 as [|x a Hx Ha IH]; intros r c rest Hr Hl Hc.
  - destruct r; [|done]. exists [u32 c]. cbn [mul_row app]. split_and!; [done | constructor; [apply u32_limb | done] | done|]. cbn [val]. rewrite uwrap_small by done. lia.
  - destruct r as [|y r]; [done|]. apply Forall_cons in Hr as [Hy Hr]. injection Hl as Hl. cbn [mul_row app]. unfold limb in *. rewrite (uwrap_small 64) by nia. set (t := x * m + y + c). rewrite shr32.
    assert (0 <= t / 2 ^ 32 < 2 ^ 32) as Hq by (split; [apply Z.div_pos; unfold t; nia | apply Z.div_lt_upper_bound; unfold t; nia]).
    destruct (IH r (t / 2 ^ 32) rest Hr Hl Hq) as (r' & E & H1 & H2 & H3). exists (u32 t :: r'). rewrite E. split_and!; [done | constructor; [apply u32_limb | done] | cbn [length]; lia|].
    cbn [val]. rewrite H3. pose proof (split32 t). unfold t in *. nia.
Qed.

Lemma mul_rows_ok a md : Forall limb a → Forall limb md → ∀ r, Forall limb r → length r = length a →
  Forall limb (mul_rows a md (r ++ replicate (length md) 0)) ∧ val (mul_rows a md (r ++ replicate (length md) 0)) = val r + val a * val md.
Proof.
  intros Ha. induction 1 as [|m md Hm Hmd IH]; intros r Hr Hl; cbn [mul_rows length replicate].
  - rewrite app_nil_r. split; [done | cbn [val]; lia].
  - destruct (mul_row_ok m a Hm Ha r 0 (replicate (length md) 0) Hr Hl ltac:(unfold limb; lia)) as (r' & E & H1 & H2 & H3). rewrite E.
    destruct r' as [|y r']; [done|]. apply Forall_cons in H1 as [Hy H1]. injection H2 as H2. destruct (IH r' H1 H2) as [I1 I2]. cbn [app]. split; [by constructor|].
    cbn [val] in *. rewrite I2. lia.
Qed.

Lemma big_mul128_ok a m : norm a → 0 <= m < 2 ^ 128 → (length a <= BL - 4)%nat → wp (big_mul128 a m) (λ r, norm r ∧ val r = val a * m).
Proof.
  intros Ha Hm Hl. unfold big_mul128. destruct (limbs128_ok 4 m Hm) as (H1 & H2 & H3). unfold grow. rewrite length_replicate, (proj2 (Nat.leb_le _ _)) by (unfold BL in *; lia).
  apply wp_bind, wp_ok, wp_ok. rewrite replicate_add. destruct (mul_rows_ok a (limbs128 4 m) (proj1 Ha) H1 (replicate (length a) 0)) as [R1 R2].
  - apply Forall_replicate. unfold limb. lia.
  - apply length_replicate.
  - destruct (trim_ok _ R1) as [T1 T2]. split; [done|]. rewrite T2, R2, H2, val_zeros. lia.
Qed.
