(* ===== verification/Strtod.v ===== *)
(** * Floating-point parsing (src/src/strtod.c)

    A string is the list of its bytes before the terminator; a position in it
    is the rest of the string from there on. A char is signed. The results of
    parse are long doubles as the machine stores them, with whether errno was
    set to ERANGE. *)
From S2P Require Import Prelude Lit Ctype Fpround Bigint.

Definition MAX_DIGITS : nat := 800.

(** The operations of the machine on finite non-negative numbers, and the
    encoding of a long double. *)
Definition fmul (F : ffmt) (x y : fl) : fl :=
  match x, y with
  | Fin m e, Fin m' e' => fround F (m * m' * 2 ^ Z.max (e + e') 0) (2 ^ Z.max (- (e + e')) 0)
  | _, _ => Inf
  end.

Definition fdiv (F : ffmt) (x y : fl) : fl :=
  match x, y with
  | Fin m e, Fin m' e' => fround F (m * 2 ^ Z.max (e - e') 0) (m' * 2 ^ Z.max (- (e - e')) 0)
  | Fin _ _, Inf => Fin 0 (emin F)
  | Inf, _ => Inf
  end.

Definition encode (neg : bool) (x : fl) : ld :=
  match x with
  | Fin m e => Ld m (Z.lor (if m <? 2 ^ 63 then 0 else e + 63 + 16383) (sign_bit neg))
  | Inf => make_inf neg
  end.

(** ** decimal *)

(** The literals 1e0 .. 1e22 and 1e0L .. 1e27L. *)
Definition exact10 (k : Z) : fl := fround F_DBL (10 ^ k) 1.
Definition p10l (k : Z) : fl := fround F_LDBL (10 ^ k) 1.

(** The digits as a 64-bit integer. *)
Definition digits64 (ds : list Z) : Z := fold_left (λ v c, u64 (v * 10 + u64 (c - 48))) ds 0.

(** One chunk of nine digits: its value and the power of ten. *)
Definition chunk9 (ds : list Z) : Z * Z :=
  fold_left (λ cm c, (u32 (fst cm * 10 + u32 (c - 48)), u32 (snd cm * 10))) ds (0, 1).

Fixpoint big_digits (fuel : nat) (ds : list Z) (num : list Z) : res (list Z) :=
  match fuel, ds with
  | _, [] => Ok num
  | O, _ => Trap Fuel
  | S fuel, _ =>
      let '(chunk, mul) := chunk9 (take 9 ds) in
      num ← if (length num =? 0)%nat then Ok (big_small chunk) else big_muladd num mul chunk;
      big_digits fuel (drop 9 ds) num
  end.

(** while (big_cmp(&num, &den) >= 0): at most 24 turns. *)
Fixpoint correct_up (fuel : nat) (num den : list Z) (Q : Z) : res (list Z * Z) :=
  if 0 <=? big_cmp num den then
    match fuel with
    | O => Trap Fuel
    | S fuel => correct_up fuel (big_sub num den) den (u128 (Q + 1))
    end
  else Ok (num, Q).

(** The quotient of num and den and whether there is a remainder. *)
Definition quotient (num den : list Z) : res (Z * bool) :=
  let '(N, sn) := big_top num 128 in
  let '(D, sd) := big_top den 64 in
  let Q := N / u128 (D + 1) in
  let sh := sn - sd in
  let Q := if 0 <=? sh then u128 (Z.shiftl Q sh) else Z.shiftr Q (- sh) in
  t ← big_mul128 den Q;
  '(num, Q) ← correct_up 32 (big_sub num t) den Q;
  Ok (Q, negb (length num =? 0)%nat).

(** The exact path: the quotient, its exponent and whether there is a
    remainder. *)
Definition exact_path (ds : list Z) (q : Z) (F : ffmt) : res (Z * Z * bool) :=
  num ← big_digits MAX_DIGITS ds (big_small 0);
  let den := big_small 1 in
  num ← if 0 <=? q then big_mulpow10 num q else Ok num;
  den ← if 0 <=? q then Ok den else big_mulpow10 den (- q);
  let e := big_bits num - big_bits den - fp F - 2 in
  num ← if e <? 0 then big_shl num (- e) else Ok num;
  den ← if e <? 0 then Ok den else big_shl den e;
  '(Q, rem) ← quotient num den;
  Ok (Q, e, rem).

(** The middle path, unless it does not decide the result. *)
Definition middle_path (ds : list Z) (q : Z) (F : ffmt) (neg : bool) : option ld :=
  let r := fround F_LDBL (digits64 ds) 1 in
  let r := if q <? 0 then fdiv F_LDBL r (p10l (- q)) else fmul F_LDBL r (p10l q) in
  let u := encode false r in
  let drop := 64 - fp F in
  let low := Z.land (ld_m u) (Z.shiftl 1 drop - 1) in
  let X := Z.land (ld_se u) 0x7fff - 16383 in
  let maxX := emax F + fp F - 1 in
  let minX := emin F + fp F - 1 in
  if negb (low =? Z.shiftl 1 (drop - 1)) && (X <=? maxX) && (minX <=? X)
  then Some (encode neg (conv F_LDBL (if decide (F = F_DBL) then conv F_DBL r else conv F_FLT r)))
  else None.

Definition fast_path (ds : list Z) (q : Z) (neg : bool) : ld :=
  let d := fround F_DBL (digits64 ds) 1 in
  let r := if q <? 0 then fdiv F_DBL d (exact10 (- q)) else fmul F_DBL d (exact10 q) in
  encode neg (conv F_LDBL r).

Definition decimal (ds : list Z) (q : Z) (sticky : bool) (F : ffmt) (neg : bool) : res (ld * bool) :=
  let nd := Z.of_nat (length ds) in
  if nd =? 0 then Ok (make_ld 0 0 neg, false)
  else if dmax F <? q + nd then Ok (make_inf neg, true)
  else if q + nd <? dmin F then Ok (make_ld 0 0 neg, true)
  else if bool_decide (F = F_DBL) && (nd <=? 15) && negb sticky && (-22 <=? q) && (q <=? 22) then Ok (fast_path ds q neg, false)
  else
    match (if negb (bool_decide (F = F_LDBL)) && (nd <=? 19) && negb sticky && (-27 <=? q) && (q <=? 27)
           then middle_path ds q F neg else None) with
    | Some r => Ok (r, false)
    | None => '(Q, e, rem) ← exact_path ds q F; Ok (round_to Q e (sticky || rem) F neg)
    end.

(** ** The parser *)

(** The char at a position. *)
Definition ch (s : list Z) (i : nat) : Z := s8 (nth i s 0).

(** (unsigned)c - '0' < 10 *)
Definition dec (c : Z) : bool := u32 (u32 c - 48) <? 10.

Fixpoint ci_loop (s word : list Z) : bool :=
  match word with
  | [] => true
  | w :: word => if negb (Z.lor (ch s 0) 32 =? w) then false else ci_loop (tail s) word
  end.

Definition ci_prefix (s word : list Z) : nat := if ci_loop s word then length word else 0.

Fixpoint skip_while (f : Z → bool) (s : list Z) : list Z :=
  match s with [] => [] | c :: s' => if f c then skip_while f s' else s end.

(** An optional sign. *)
Definition sign (s : list Z) : bool * list Z :=
  if (ch s 0 =? 43) || (ch s 0 =? 45) then (ch s 0 =? 45, tail s) else (false, s).

Fixpoint exp_digits (s : list Z) (x : Z) : Z * list Z :=
  match s with
  | [] => (x, [])
  | c :: s' => if dec (s8 c) then exp_digits s' (if x <? 100000000 then x * 10 + (s8 c - 48) else x) else (x, s)
  end.

(** An exponent after the letter, if there is one. *)
Definition exponent (letter : Z) (s : list Z) : Z * list Z :=
  if Z.lor (ch s 0) 32 =? letter then
    let '(eneg, p) := sign (tail s) in
    if dec (ch p 0) then let '(x, p) := exp_digits p 0 in (if eneg then - x else x, p) else (0, s)
  else (0, s).

(** *** Hexadecimal *)

Record hst := Hst { h_Q : Z; h_bits : Z; h_sticky : bool; h_dot : bool; h_e : Z }.

(** The value of a hexadecimal digit. *)
Definition hex_val (c : Z) : option Z :=
  if dec c then Some (c - 48)
  else if u32 (u32 (Z.lor c 32) - 97) <? 6 then Some (Z.lor c 32 - 97 + 10)
  else None.

Definition hex_digit (st : hst) (d : Z) : hst :=
  let '(Hst Q bits sticky dot e) := st in
  if (Q =? 0) && (d =? 0) then Hst Q bits sticky dot (if dot then e - 4 else e)
  else if bits <? 124 then Hst (u128 (Z.lor (Z.shiftl Q 4) d)) (bits + 4) sticky dot (if dot then e - 4 else e)
  else Hst Q bits (sticky || negb (d =? 0)) dot (if dot then e else e + 4).

Fixpoint hex_loop (s : list Z) (st : hst) : list Z * hst :=
  match s with
  | [] => ([], st)
  | c :: s' =>
      if (s8 c =? 46) && negb (h_dot st) then hex_loop s' (Hst (h_Q st) (h_bits st) (h_sticky st) true (h_e st))
      else match hex_val (s8 c) with
           | Some d => hex_loop s' (hex_digit st d)
           | None => (s, st)
           end
  end.

Definition hex_result (Q e : Z) (sticky : bool) (F : ffmt) (neg : bool) : ld * bool :=
  if 100000 <? e then (if Q =? 0 then (make_ld 0 0 neg, false) else (make_inf neg, true))
  else if e <? -100000 then (make_ld 0 0 neg, negb (Q =? 0))
  else round_to Q e sticky F neg.

(** The result and the position after it. *)
Definition hexadecimal (s : list Z) (F : ffmt) (neg : bool) : ld * bool * list Z :=
  let '(s, st) := hex_loop (drop 2 s) (Hst 0 0 false false 0) in
  let '(x, s) := exponent 112 s in
  (hex_result (h_Q st) (h_e st + x) (h_sticky st) F neg, s).

(** *** Decimal *)

Record dst := Dst { d_digits : list Z; d_sticky : bool; d_dot : bool; d_any : bool; d_q : Z }.

Definition dec_digit (st : dst) (c : Z) : dst :=
  let '(Dst ds sticky dot any q) := st in
  if (c =? 48) && (length ds =? 0)%nat then Dst ds sticky dot true (if dot then q - 1 else q)
  else if (length ds <? MAX_DIGITS)%nat then Dst (ds ++ [c]) sticky dot true (if dot then q - 1 else q)
  else Dst ds (sticky || negb (c =? 48)) dot true (if dot then q else q + 1).

Fixpoint dec_loop (s : list Z) (st : dst) : list Z * dst :=
  match s with
  | [] => ([], st)
  | c :: s' =>
      if (s8 c =? 46) && negb (d_dot st) then dec_loop s' (Dst (d_digits st) (d_sticky st) true (d_any st) (d_q st))
      else if negb (dec (s8 c)) then (s, st)
      else dec_loop s' (dec_digit st (s8 c))
  end.

(** Drop trailing zeros; the digits are in reverse. *)
Fixpoint drop_zeros (ds : list Z) (q : Z) : list Z * Z :=
  match ds with c :: ds' => if c =? 48 then drop_zeros ds' (q + 1) else (ds, q) | [] => ([], q) end.

(** *** parse *)

Definition parse (s0 : list Z) (F : ffmt) : res (ld * bool * list Z) :=
  let s := skip_while isspace s0 in
  let '(neg, s) := sign s in
  let k := ci_prefix s (lit "inf") in
  if negb (k =? 0)%nat then
    let s := drop k s in
    Ok (make_inf neg, false, drop (ci_prefix s (lit "inity")) s)
  else
  let k := ci_prefix s (lit "nan") in
  if negb (k =? 0)%nat then
    let s := drop k s in
    let s :=
      if ch s 0 =? 40 then
        let p := skip_while (λ c, isalnum c || (s8 c =? 95)) (tail s) in
        if ch p 0 =? 41 then tail p else s
      else s in
    Ok (make_nan neg, false, s)
  else if (ch s 0 =? 48) && (Z.lor (ch s 1) 32 =? 120) && (isxdigit (nth 2 s 0) || ((ch s 2 =? 46) && isxdigit (nth 3 s 0)))
  then Ok (hexadecimal s F neg)
  else
  let '(s, st) := dec_loop s (Dst [] false false false 0) in
  if negb (d_any st) then Ok (Ld 0 0, false, s0)
  else
  let '(x, s) := exponent 101 s in
  let '(ds, q) := drop_zeros (reverse (d_digits st)) (d_q st + x) in
  '(r, er) ← decimal (reverse ds) q (d_sticky st) F neg;
  Ok (r, er, s).

(** The value returned, the number of bytes before *end, and whether errno is
    set to ERANGE. *)
Definition strto (F : ffmt) (s : list Z) : res (num * nat * bool) :=
  '(r, er, rest) ← parse s F; Ok (conv_num F (decode r), (length s - length rest)%nat, er).

Definition strtold (s : list Z) : res (num * nat * bool) := strto F_LDBL s.
Definition strtod (s : list Z) : res (num * nat * bool) := strto F_DBL s.
Definition strtof (s : list Z) : res (num * nat * bool) := strto F_FLT s.
Definition atof (s : list Z) : res (num * bool) := '(r, _, er) ← strtod s; Ok (r, er).

(** ** Digits *)

Definition digit (c : Z) : Prop := 48 <= c < 58.

(** *** The number written by digits of a base *)

Section Base.
Context (b : Z) (f : Z → Z) (Hb : 2 <= b).

Definition nval (ds : list Z) : Z := fold_left (λ v c, v * b + f c) ds 0.

Lemma nval_snoc ds c : nval (ds ++ [c]) = nval ds * b + f c.
Proof using Type. unfold nval. by rewrite fold_left_app. Qed.

Lemma nval_app x y : nval (x ++ y) = nval x * b ^ Z.of_nat (length y) + nval y.
Proof using Type.
  induction y as [|c y IH] using rev_ind; [rewrite app_nil_r; cbn; lia|]. rewrite app_assoc, !nval_snoc, IH, length_app. cbn [length].
  replace (Z.of_nat (length y + 1)) with (Z.succ (Z.of_nat (length y))) by lia. rewrite Z.pow_succ_r by lia. ring.
Qed.

Lemma nval_range ds : Forall (λ c, 0 <= f c < b) ds → 0 <= nval ds < b ^ Z.of_nat (length ds).
Proof using Hb.
  induction ds as [|c ds IH] using rev_ind; [cbn; lia|]. rewrite Forall_app, Forall_singleton. intros [Hd Hc]. specialize (IH Hd). rewrite nval_snoc, length_app. cbn [length].
  replace (Z.of_nat (length ds + 1)) with (Z.succ (Z.of_nat (length ds))) by lia. rewrite Z.pow_succ_r by lia. nia.
Qed.

Lemma nval_lead c ds : 0 < f c → Forall (λ c, 0 <= f c < b) ds → b ^ Z.of_nat (length ds) <= nval (c :: ds).
Proof using Hb. intros Hc Hd. change (c :: ds) with ([c] ++ ds). rewrite nval_app. pose proof (nval_range ds Hd). unfold nval at 1. cbn [fold_left]. nia. Qed.

(** It is positive if some digit is. *)
Lemma nval_sticky ds : Forall (λ c, 0 <= f c < b) ds → existsb (λ c, negb (f c =? 0)) ds = true ↔ 0 < nval ds.
Proof using Hb.
  induction ds as [|c ds IH] using rev_ind; [cbn; lia|]. rewrite Forall_app, Forall_singleton. intros [Hd Hc]. rewrite existsb_app, orb_true_iff, (IH Hd), nval_snoc. cbn [existsb]. rewrite orb_false_r.
  pose proof (nval_range ds Hd). destruct (Z.eqb_spec (f c) 0) as [E|E]; cbn [negb]; [split; [intros [?|?]; [nia | done] | intros ?; left; nia] | split; [intros _; nia | intros _; by right]].
Qed.
End Base.

(** The number written in decimal. *)
Definition dval : list Z → Z := nval 10 (λ c, c - 48).

Lemma digit_val ds : Forall digit ds → Forall (λ c, 0 <= c - 48 < 10) ds.
Proof. intros Hd. eapply Forall_impl; [exact Hd|]. unfold digit. intros c Hc. lia. Qed.

Lemma dval_snoc ds c : dval (ds ++ [c]) = dval ds * 10 + (c - 48).
Proof. exact (nval_snoc 10 _ ds c). Qed.

Lemma dval_app a b : dval (a ++ b) = dval a * 10 ^ Z.of_nat (length b) + dval b.
Proof. exact (nval_app 10 _ a b). Qed.

Lemma dval_range ds : Forall digit ds → 0 <= dval ds < 10 ^ Z.of_nat (length ds).
Proof. intros Hd. exact (nval_range 10 _ ltac:(lia) ds (digit_val ds Hd)). Qed.

Lemma dval_pos c ds : digit c → c ≠ 48 → Forall digit ds → 10 ^ Z.of_nat (length ds) <= dval (c :: ds).
Proof. intros Hc Hz Hd. refine (nval_lead 10 (λ c, c - 48) _ c ds _ (digit_val ds Hd)); unfold digit in Hc; lia. Qed.

Lemma digits64_ok ds : Forall digit ds → (length ds <= 19)%nat → digits64 ds = dval ds.
Proof.
  unfold digits64, dval, nval. induction ds as [|c ds IH] using rev_ind; [done|]. rewrite Forall_app, Forall_singleton, length_app. cbn [length]. intros [Hd Hc] Hl.
  rewrite !fold_left_app. cbn [fold_left]. rewrite IH by (done || lia). pose proof (dval_range ds Hd) as Hr. unfold dval, nval in Hr. unfold digit in Hc.
  assert (10 ^ Z.of_nat (length ds) <= 10 ^ 18) by (apply Z.pow_le_mono_r; lia). rewrite (uwrap_small 64 (c - 48)) by lia. apply uwrap_small. lia.
Qed.

Lemma chunk9_ok ds : Forall digit ds → (length ds <= 9)%nat → chunk9 ds = (dval ds, 10 ^ Z.of_nat (length ds)).
Proof.
  unfold chunk9, dval, nval. induction ds as [|c ds IH] using rev_ind; [done|]. rewrite Forall_app, Forall_singleton, length_app. cbn [length]. intros [Hd Hc] Hl.
  rewrite !fold_left_app. cbn [fold_left]. rewrite IH by (done || lia). cbn [fst snd]. pose proof (dval_range ds Hd) as Hr. unfold dval, nval in Hr. unfold digit in Hc.
  assert (10 ^ Z.of_nat (length ds) <= 10 ^ 8) by (apply Z.pow_le_mono_r; lia). rewrite (uwrap_small 32 (c - 48)), !uwrap_small by lia.
  f_equal. replace (Z.of_nat (length ds + 1)) with (Z.succ (Z.of_nat (length ds))) by lia. rewrite Z.pow_succ_r by lia. lia.
Qed.

Lemma big_digits_ok fuel : ∀ ds num, (length ds <= fuel)%nat → Forall digit ds → norm num →
  val num * 10 ^ Z.of_nat (length ds) + dval ds < 2 ^ (32 * Z.of_nat BL) →
  wp (big_digits fuel ds num) (λ r, norm r ∧ val r = val num * 10 ^ Z.of_nat (length ds) + dval ds).
Proof.
  induction fuel as [|fuel IH]; intros ds num Hf Hd Hn Hcap.
  { destruct ds; [|cbn in Hf; lia]. apply wp_ok. cbn. split; [done | lia]. }
  destruct ds as [|c ds0]; [apply wp_ok; cbn; split; [done | lia]|]. set (ds := c :: ds0) in *. cbn [big_digits]. fold ds.
  assert (Forall digit (take 9 ds) ∧ Forall digit (drop 9 ds)) as [Ht Hr] by (by rewrite <- Forall_app, take_drop).
  rewrite chunk9_ok by (try done; rewrite length_take; lia). pose proof (dval_range _ Ht) as HT. pose proof (dval_range _ Hr) as HR. rewrite length_take in *. set (j := Z.of_nat (9 `min` length ds)%nat) in *.
  assert (10 ^ 1 <= 10 ^ j <= 10 ^ 9) as Hj by (split; apply Z.pow_le_mono_r; unfold j, ds; cbn [length]; lia). change (10 ^ 1) with 10 in Hj. change (10 ^ 9) with 1000000000 in Hj.
  assert (dval ds = dval (take 9 ds) * 10 ^ Z.of_nat (length (drop 9 ds)) + dval (drop 9 ds)) as Ev by (rewrite <- dval_app, take_drop; done).
  assert (10 ^ Z.of_nat (length ds) = 10 ^ j * 10 ^ Z.of_nat (length (drop 9 ds))) as Ep by (rewrite <- Z.pow_add_r by lia; f_equal; rewrite length_drop; unfold j; lia).
  rewrite Ev, Ep in *. set (K := 10 ^ Z.of_nat (length (drop 9 ds))) in *. assert (1 <= K) by (unfold K; pose proof (Z.pow_pos_nonneg 10 (Z.of_nat (length (drop 9 ds)))); lia).
  set (C := 2 ^ (32 * Z.of_nat BL)) in *. pose proof (val_range num (proj1 Hn)) as Hv. apply wp_bind. eapply (wp_mono _ (λ r, norm r ∧ val r = val num * 10 ^ j + dval (take 9 ds))).
  - destruct (Nat.eqb_spec (length num) 0) as [Hz|Hz].
    + destruct num; [|done]. apply wp_ok. unfold big_small. destruct (Z.eqb_spec (dval (take 9 ds)) 0) as [E|E]; [split; [done | cbn [val]; lia]|]. split; [|cbn [val]; lia].
      apply (norm_snoc [] (dval (take 9 ds))); [done | unfold limb; lia | done].
    + apply big_muladd_ok; [done | lia | unfold limb; lia | fold C; nia].
  - intros r [Hnr Hvr]. eapply wp_mono; [apply IH; [rewrite length_drop; assert (0 < length ds)%nat by (unfold ds; cbn [length]; lia); lia | done | done | fold K; fold C; rewrite Hvr; lia]|].
    intros r' [Hnr' Hvr']. split; [done|]. fold K in Hvr'. rewrite Hvr', Hvr. ring.
Qed.

(** ** The quotient *)

Lemma correct_up_ok den : norm den → den ≠ [] → ∀ fuel num Q,
  norm num → val num < Z.of_nat fuel * val den → 0 <= Q → Q + Z.of_nat fuel < 2 ^ 128 →
  wp (correct_up fuel num den Q) (λ r, norm (fst r) ∧ val (fst r) < val den ∧ snd r * val den + val (fst r) = Q * val den + val num).
Proof.
  intros Hd Hne. pose proof (norm_pos den Hd Hne) as Hp. induction fuel as [|fuel IH]; intros num Q Hn Hlt HQ HQ2; cbn [correct_up].
  - pose proof (val_range num (proj1 Hn)). lia.
  - pose proof (big_cmp_ok num den Hn Hd) as Hc. destruct (Z.leb_spec 0 (big_cmp num den)) as [Hle|Hgt].
    + destruct (big_sub_ok num den Hn Hd (proj1 Hc Hle)) as [S1 S2]. rewrite uwrap_small by lia. eapply wp_mono; [apply IH; [done | rewrite S2; nia | lia | lia]|].
      intros [r Q'] (H1 & H2 & H3). cbn [fst snd] in *. split_and!; [done | done|]. rewrite H3, S2. ring.
    + apply wp_ok. cbn [fst snd]. split_and!; [done | | done]. destruct (decide (val num < val den)); [done|]. assert (0 <= big_cmp num den) by (apply Hc; lia). lia.
Qed.

(** The estimate is at most 24 too small. N and D are the leading bits of a
    and b. *)
Lemma estimate a b N D q1 s1 s2 t1 t2 sh :
  0 < a → 0 < b → 0 <= s1 → 0 <= s2 → 0 <= t1 → 0 <= t2 → sh = s2 - s1 - (t2 - t1) → sh <= 2 →
  N * 2 ^ s2 <= a * 2 ^ s1 < (N + 1) * 2 ^ s2 → D * 2 ^ t2 <= b * 2 ^ t1 < (D + 1) * 2 ^ t2 →
  N < 2 ^ 128 → 2 ^ 63 <= D → q1 = N / (D + 1) → 0 <= N →
  let Q := if 0 <=? sh then q1 * 2 ^ sh else q1 / 2 ^ (- sh) in
  0 <= Q < 2 ^ 67 ∧ Q * b <= a ∧ a < (Q + 25) * b.
Proof.
  intros Ha Hb Hs1 Hs2 Ht1 Ht2 Hsh Hsh2 HN HD HN128 HD63 Hq HN0. pose proof (Z.div_mod N (D + 1) ltac:(lia)) as Hdm. pose proof (Z.mod_pos_bound N (D + 1) ltac:(lia)) as Hmb. rewrite <- Hq in Hdm.
  assert (0 <= q1) as Hq0 by (rewrite Hq; apply Z.div_pos; lia). assert (q1 < 4 * D) as Hq4 by nia. assert (q1 < 2 ^ 65) as Hq65 by nia.
  pose proof (pow2_pos s1 Hs1) as P1. pose proof (pow2_pos s2 Hs2) as P2. pose proof (pow2_pos t1 Ht1) as P3. pose proof (pow2_pos t2 Ht2) as P4.
  destruct (Z.leb_spec 0 sh) as [Hp|Hp]; cbv zeta.
  - assert (2 ^ sh * (2 ^ t2 * 2 ^ s1) = 2 ^ s2 * 2 ^ t1) as E by (rewrite <- !pow2_add by lia; f_equal; lia). assert (1 <= 2 ^ sh <= 4) as P5 by (split; [apply (Z.pow_le_mono_r 2 0); lia | apply (Z.pow_le_mono_r 2 sh 2); lia]).
    set (H := 2 ^ sh) in *. clear Hsh Hsh2 Hp. split_and!; [nia | clear -Hq65 Hq0 P5; nia | |].
    + apply (Z.mul_le_mono_pos_r _ _ (2 ^ t1 * 2 ^ s1)); [nia|]. transitivity (q1 * (D + 1) * (2 ^ s2 * 2 ^ t1)).
      * rewrite <- E. replace (q1 * H * b * (2 ^ t1 * 2 ^ s1)) with (q1 * H * 2 ^ s1 * (b * 2 ^ t1)) by ring. replace (q1 * (D + 1) * (H * (2 ^ t2 * 2 ^ s1))) with (q1 * H * 2 ^ s1 * ((D + 1) * 2 ^ t2)) by ring.
        apply Z.mul_le_mono_nonneg_l; [nia | lia].
      * transitivity (N * 2 ^ s2 * 2 ^ t1); [replace (N * 2 ^ s2 * 2 ^ t1) with (N * (2 ^ s2 * 2 ^ t1)) by ring; apply Z.mul_le_mono_nonneg_r; [nia | lia]|]. replace (a * (2 ^ t1 * 2 ^ s1)) with (a * 2 ^ s1 * 2 ^ t1) by ring. apply Z.mul_le_mono_nonneg_r; lia.
    + apply (Z.mul_lt_mono_pos_r (2 ^ t1 * 2 ^ s1)); [nia|]. apply Z.lt_le_trans with ((N + 1) * (2 ^ s2 * 2 ^ t1)).
      * replace (a * (2 ^ t1 * 2 ^ s1)) with (a * 2 ^ s1 * 2 ^ t1) by ring. rewrite Z.mul_assoc. apply Z.mul_lt_mono_pos_r; lia.
      * rewrite <- E. transitivity ((q1 * H + 25) * D * (2 ^ t2 * 2 ^ s1)).
        -- rewrite Z.mul_assoc. apply Z.mul_le_mono_nonneg_r; [nia|]. transitivity ((q1 * D + 5 * D) * H); [apply Z.mul_le_mono_nonneg_r; lia|]. clear -P5 HD63. nia.
        -- replace ((q1 * H + 25) * b * (2 ^ t1 * 2 ^ s1)) with ((q1 * H + 25) * 2 ^ s1 * (b * 2 ^ t1)) by ring. replace ((q1 * H + 25) * D * (2 ^ t2 * 2 ^ s1)) with ((q1 * H + 25) * 2 ^ s1 * (D * 2 ^ t2)) by ring.
           apply Z.mul_le_mono_nonneg_l; [nia | lia].
  - assert (2 ^ t2 * 2 ^ s1 = 2 ^ (- sh) * (2 ^ s2 * 2 ^ t1)) as E by (rewrite <- !pow2_add by lia; f_equal; lia). pose proof (pow2_pos (- sh) ltac:(lia)) as P5. set (H := 2 ^ (- sh)) in *. clear Hsh Hsh2 Hp.
    pose proof (Z.div_mod q1 H ltac:(lia)) as Hdm'. pose proof (Z.mod_pos_bound q1 H ltac:(lia)) as Hmb'. assert (0 <= q1 / H) as HQ0 by (apply Z.div_pos; lia). set (Q := q1 / H) in *.
    split_and!; [lia | nia | |].
    + apply (Z.mul_le_mono_pos_r _ _ (2 ^ t1 * 2 ^ s1)); [nia|]. transitivity (Q * ((D + 1) * (2 ^ t2 * 2 ^ s1))).
      * replace (Q * b * (2 ^ t1 * 2 ^ s1)) with (Q * 2 ^ s1 * (b * 2 ^ t1)) by ring. replace (Q * ((D + 1) * (2 ^ t2 * 2 ^ s1))) with (Q * 2 ^ s1 * ((D + 1) * 2 ^ t2)) by ring.
        apply Z.mul_le_mono_nonneg_l; [nia | lia].
      * rewrite E. replace (Q * ((D + 1) * (H * (2 ^ s2 * 2 ^ t1)))) with (H * Q * (D + 1) * (2 ^ s2 * 2 ^ t1)) by ring.
        assert (H * Q * (D + 1) <= N) by (transitivity (q1 * (D + 1)); [apply Z.mul_le_mono_nonneg_r; lia | lia]).
        transitivity (N * (2 ^ s2 * 2 ^ t1)); [apply Z.mul_le_mono_nonneg_r; [apply Z.mul_nonneg_nonneg; lia | done]|]. replace (a * (2 ^ t1 * 2 ^ s1)) with (a * 2 ^ s1 * 2 ^ t1) by ring. rewrite Z.mul_assoc. apply Z.mul_le_mono_nonneg_r; lia.
    + apply (Z.mul_lt_mono_pos_r (2 ^ t1 * 2 ^ s1)); [nia|]. apply Z.lt_le_trans with ((N + 1) * (2 ^ s2 * 2 ^ t1)).
      * replace (a * (2 ^ t1 * 2 ^ s1)) with (a * 2 ^ s1 * 2 ^ t1) by ring. rewrite Z.mul_assoc. apply Z.mul_lt_mono_pos_r; lia.
      * transitivity ((Q + 25) * (D * (2 ^ t2 * 2 ^ s1))).
        -- rewrite E. replace ((Q + 25) * (D * (H * (2 ^ s2 * 2 ^ t1)))) with ((Q + 25) * D * H * (2 ^ s2 * 2 ^ t1)) by ring. apply Z.mul_le_mono_nonneg_r; [nia|].
           assert (Q + 1 <= 24 * D) by nia. assert (q1 + 1 <= (Q + 1) * H) as Hq1 by lia.
           assert (N + 1 <= (q1 + 1) * (D + 1)) by lia. assert ((q1 + 1) * (D + 1) <= (Q + 1) * H * (D + 1)) by (apply Z.mul_le_mono_nonneg_r; lia). assert ((Q + 1) * (D + 1) <= (Q + 25) * D) as HQD by lia.
           apply (Z.mul_le_mono_nonneg_r _ _ H) in HQD; lia.
        -- replace ((Q + 25) * b * (2 ^ t1 * 2 ^ s1)) with ((Q + 25) * 2 ^ s1 * (b * 2 ^ t1)) by ring. replace ((Q + 25) * (D * (2 ^ t2 * 2 ^ s1))) with ((Q + 25) * 2 ^ s1 * (D * 2 ^ t2)) by ring.
           apply Z.mul_le_mono_nonneg_l; [nia | lia].
Qed.

(** The leading [want] bits. *)
Lemma top_range b want : norm b → b ≠ [] → 0 < want <= 128 →
  let s1 := Z.max 0 (want - big_bits b) in let s2 := Z.max 0 (big_bits b - want) in let r := fst (big_top b want) in
  r * 2 ^ s2 <= val b * 2 ^ s1 < (r + 1) * 2 ^ s2 ∧ 2 ^ (want - 1) <= r < 2 ^ want ∧ snd (big_top b want) = s2 - s1.
Proof.
  intros Hn Hne Hw. cbv zeta. rewrite (big_top_ok b want Hn Hne Hw). cbn [fst snd]. destruct (big_bits_ok b Hn Hne) as [B1 B2]. set (nb := big_bits b) in *. set (s1 := Z.max 0 (want - nb)). set (s2 := Z.max 0 (nb - want)).
  pose proof (pow2_pos s1 ltac:(lia)) as P1. pose proof (pow2_pos s2 ltac:(lia)) as P2. pose proof (Z.div_mod (val b * 2 ^ s1) (2 ^ s2) ltac:(lia)) as Hd. pose proof (Z.mod_pos_bound (val b * 2 ^ s1) (2 ^ s2) P2) as Hm.
  set (r := val b * 2 ^ s1 / 2 ^ s2) in *. split; [lia|]. split; [|lia]. split.
  - apply Z.div_le_lower_bound; [done|]. transitivity (2 ^ (nb - 1) * 2 ^ s1); [rewrite <- !pow2_add by lia; apply Z.pow_le_mono_r; lia | apply Z.mul_le_mono_nonneg_r; lia].
  - apply Z.div_lt_upper_bound; [done|]. apply Z.lt_le_trans with (2 ^ nb * 2 ^ s1); [apply Z.mul_lt_mono_pos_r; lia | rewrite <- !pow2_add by lia; apply Z.pow_le_mono_r; lia].
Qed.

Lemma quotient_ok num den :
  norm num → norm den → num ≠ [] → den ≠ [] → big_bits num - big_bits den <= 66 → (length den <= BL - 4)%nat →
  wp (quotient num den) (λ r, fst r = val num / val den ∧ (snd r = true ↔ 0 < val num mod val den)).
Proof.
  intros Hn Hd Hnn Hdn Hb Hl. unfold quotient. pose proof (top_range num 128 Hn Hnn ltac:(lia)) as HN. pose proof (top_range den 64 Hd Hdn ltac:(lia)) as HD. cbv zeta in HN, HD.
  destruct (big_top num 128) as [N sn]. destruct (big_top den 64) as [D sd]. cbn [fst snd] in HN, HD. destruct HN as (N1 & N2 & ->), HD as (D1 & D2 & ->).
  set (s1 := Z.max 0 (128 - big_bits num)) in *. set (s2 := Z.max 0 (big_bits num - 128)) in *. set (t1 := Z.max 0 (64 - big_bits den)) in *. set (t2 := Z.max 0 (big_bits den - 64)) in *.
  rewrite (uwrap_small 128 (D + 1)) by lia. set (q1 := N / (D + 1)). set (sh := s2 - s1 - (t2 - t1)). pose proof (norm_pos num Hn Hnn) as Pn. pose proof (norm_pos den Hd Hdn) as Pd.
  destruct (estimate (val num) (val den) N D q1 s1 s2 t1 t2 sh Pn Pd) as (E1 & E2 & E3); [lia | lia | lia | lia | done | lia | done | done | lia | lia | done | lia|].
  assert ((if 0 <=? sh then u128 (Z.shiftl q1 sh) else Z.shiftr q1 (- sh)) = (if 0 <=? sh then q1 * 2 ^ sh else q1 / 2 ^ (- sh))) as ->.
  { destruct (Z.leb_spec 0 sh); [rewrite Z.shiftl_mul_pow2 by lia; apply uwrap_small; lia | apply Z.shiftr_div_pow2; lia]. }
  set (Q := if 0 <=? sh then q1 * 2 ^ sh else q1 / 2 ^ (- sh)) in *. clearbody Q. clear N1 N2 D1 D2. apply wp_bind. eapply wp_mono; [apply big_mul128_ok; [done | lia | done]|]. intros t [T1 T2].
  destruct (big_sub_ok num t Hn T1 ltac:(lia)) as [S1 S2]. apply wp_bind. eapply wp_mono; [apply correct_up_ok; [done | done | done | rewrite S2, T2; lia | lia | lia]|].
  intros [r Q'] (H1 & H2 & H3). cbn [fst snd] in *. apply wp_ok. cbn [fst snd]. pose proof (val_range r (proj1 H1)) as Hr. rewrite S2, T2 in H3.
  assert (Q' = val num / val den) as HQ' by (apply (Z.div_unique _ _ _ (val r)); lia). assert (val r = val num mod val den) as HR by (apply (Z.mod_unique _ _ Q'); lia). split; [done|]. rewrite <- HR.
  destruct r as [|x r]; [cbn; split; [done | lia]|]. pose proof (norm_pos (x :: r) H1 ltac:(done)). cbn [length Nat.eqb negb]. split; [lia | done].
Qed.

(** ** The exact path *)

(** 10^q if q is positive, else 1: the value 10^q is pw q / pw (- q). *)
Definition pw (q : Z) : Z := 10 ^ Z.max q 0.

Lemma pw_pos q : 0 < pw q.
Proof. apply Z.pow_pos_nonneg; lia. Qed.

(** The bits that the numbers of the exact path may have. *)
Definition max_bits : Z := 19400.

Lemma pow10_bits k : k <= 5753 → 10 ^ k < 2 ^ max_bits.
Proof.
  intros Hk. apply Z.le_lt_trans with (10 ^ (28 * 206)); [apply Z.pow_le_mono_r; lia|]. rewrite Z.pow_mul_r by lia.
  apply Z.le_lt_trans with ((2 ^ 94) ^ 206); [apply Z.pow_le_mono_l; lia|]. rewrite <- Z.pow_mul_r by lia. apply Z.pow_lt_mono_r; unfold max_bits; lia.
Qed.

Lemma max_bits_cap w : w <= 3000 → 2 ^ (max_bits + w) < 2 ^ (32 * Z.of_nat BL).
Proof. intros Hw. apply Z.pow_lt_mono_r; [lia | unfold BL; lia|]. unfold max_bits, BL. lia. Qed.

Lemma max_bits_cap' v w : v <= 2 ^ (max_bits + w) → w <= 3000 → v < 2 ^ (32 * Z.of_nat BL).
Proof. intros Hv Hw. pose proof (max_bits_cap w Hw). lia. Qed.

Lemma bits_le b k : norm b → b ≠ [] → val b < 2 ^ k → big_bits b <= k.
Proof.
  intros Hn Hne Hv. destruct (big_bits_ok b Hn Hne) as [B1 B2]. destruct (decide (big_bits b <= k)) as [|Hgt]; [done|]. exfalso.
  assert (2 ^ k <= 2 ^ (big_bits b - 1)) by (apply Z.pow_le_mono_r; lia). lia.
Qed.

(** The decimal digits of a number, with no leading zero. *)
Definition significand (ds : list Z) : Prop := Forall digit ds ∧ ds ≠ [] ∧ hd 0 ds ≠ 48 ∧ (length ds <= MAX_DIGITS)%nat.

Lemma significand_range ds : significand ds → 10 ^ (Z.of_nat (length ds) - 1) <= dval ds < 10 ^ Z.of_nat (length ds).
Proof.
  intros (Hd & Hne & Hz & _). split; [|by apply dval_range]. destruct ds as [|c ds]; [done|]. apply Forall_cons in Hd as [Hc Hd]. cbn [hd length] in *.
  replace (Z.of_nat (S (length ds)) - 1) with (Z.of_nat (length ds)) by lia. by apply dval_pos.
Qed.

(** Q * 2^e with the remainder r/b is the number, to the last bit. *)
Record quotient_of (F : ffmt) (ds : list Z) (q Q e : Z) (rem : bool) (b r : Z) : Prop := {
  qo_b : b = pw (- q) * 2 ^ Z.max e 0;
  qo_r : 0 <= r < b;
  qo_rem : rem = true ↔ 0 < r;
  qo_Q : 2 ^ (fp F + 1) <= Q < 2 ^ 67;
  qo_val : Q * b + r = dval ds * pw q * 2 ^ Z.max (- e) 0;
}.

Lemma ratio_range a b i j p : 2 ^ (i - 1) <= a < 2 ^ i → 2 ^ (j - 1) <= b < 2 ^ j → i - j = p + 2 → 0 <= p <= 64 → 1 <= j → 2 ^ (p + 1) <= a / b < 2 ^ 67.
Proof.
  intros HA HB Hij Hp Hj. pose proof (pow2_pos (j - 1) ltac:(lia)). split.
  - apply Z.div_le_lower_bound; [lia|]. transitivity (2 ^ j * 2 ^ (p + 1)); [apply Z.mul_le_mono_nonneg_r; [apply Z.lt_le_incl, pow2_pos; lia | lia]|].
    rewrite <- pow2_add by lia. etrans; [|apply HA]. apply Z.pow_le_mono_r; lia.
  - apply Z.div_lt_upper_bound; [lia|]. eapply Z.lt_le_trans; [apply HA|]. transitivity (2 ^ (j - 1) * 2 ^ 67); [rewrite <- pow2_add by lia; apply Z.pow_le_mono_r; lia | apply Z.mul_le_mono_nonneg_r; lia].
Qed.

Lemma exact_path_ok F ds q :
  std F → significand ds → dmin F <= q + Z.of_nat (length ds) <= dmax F →
  wp (exact_path ds q F) (λ x, let '(Q, e, rem) := x in ∃ b r, quotient_of F ds q Q e rem b r).
Proof.
  intros HF Hs Hq. destruct (significand_range ds Hs) as [V1 V2]. destruct Hs as (Hd & Hne & _ & Hlen). unfold MAX_DIGITS in *.
  assert (-4953 <= dmin F ∧ dmax F <= 4934 ∧ 24 <= fp F <= 64) as (R1 & R2 & R3) by (destruct HF as [-> |[-> | ->]]; cbn; lia).
  assert (0 < dval ds) as V0 by (pose proof (Z.pow_pos_nonneg 10 (Z.of_nat (length ds) - 1) ltac:(lia)); destruct ds; [done | cbn [length] in *; lia]).
  set (nd := Z.of_nat (length ds)) in *. assert (dval ds * pw q < 2 ^ max_bits) as C1.
  { apply Z.lt_trans with (10 ^ nd * pw q); [apply Z.mul_lt_mono_pos_r; [apply pw_pos | done]|]. unfold pw. rewrite <- Z.pow_add_r by lia. apply pow10_bits. lia. }
  assert (pw (- q) < 2 ^ max_bits) as C2 by (unfold pw; apply pow10_bits; lia).
  assert (∀ v w, v < 2 ^ max_bits → w <= 3000 → 0 <= w → v < 2 ^ (32 * Z.of_nat BL)) as Hcap.
  { intros v w Hv Hw Hw0. apply (max_bits_cap' v 0); [rewrite Z.add_0_r; lia | lia]. }
  unfold exact_path. apply wp_bind. eapply wp_mono; [apply big_digits_ok; [unfold MAX_DIGITS; lia | done | apply norm_nil |]|].
  { cbn [big_small val]. cbn [Z.eqb val]. rewrite Z.mul_0_l, Z.add_0_l. apply (Hcap _ 0); [|lia | lia]. pose proof (pw_pos q). nia. }
  cbn [big_small Z.eqb val]. rewrite Z.mul_0_l, Z.add_0_l. intros num0 [N1 N2]. cbv zeta.
  assert (norm (big_small 1) ∧ val (big_small 1) = 1) as [O1 O2] by (apply (norm_snoc [] 1); [done | unfold limb; lia | lia]).
  apply wp_bind. eapply (wp_mono _ (λ r, norm r ∧ val r = dval ds * pw q)).
  { unfold pw in *. destruct (Z.leb_spec 0 q).
    - rewrite Z.max_l in * by lia. eapply wp_mono; [apply big_mulpow10_ok; [done | lia | rewrite N2; apply (Hcap _ 0); [done | lia | lia]]|]. cbv beta. rewrite N2. done.
    - rewrite Z.max_r by lia. apply wp_ok. split; [done|]. rewrite Z.pow_0_r. lia. }
  clear num0 N1 N2. intros num1 [N1 N2]. apply wp_bind. eapply (wp_mono _ (λ r, norm r ∧ val r = pw (- q))).
  { unfold pw in *. destruct (Z.leb_spec 0 q).
    - rewrite Z.max_r by lia. apply wp_ok. done.
    - rewrite Z.max_l in * by lia. eapply wp_mono; [apply big_mulpow10_ok; [done | lia | rewrite O2, Z.mul_1_l; apply (Hcap _ 0); [done | lia | lia]]|]. cbv beta. rewrite O2, Z.mul_1_l. done. }
  clear O1 O2. intros den1 [D1 D2]. pose proof (pw_pos q) as Pq. pose proof (pw_pos (- q)) as Pq'. set (a := dval ds * pw q) in *. assert (0 < a) as Ha by (unfold a; nia).
  assert (num1 ≠ [] ∧ den1 ≠ []) as [Nn Dn] by (split; intros ->; cbn in N2, D2; lia).
  destruct (big_bits_ok num1 N1 Nn) as [BN1 BN2]. destruct (big_bits_ok den1 D1 Dn) as [BD1 BD2]. pose proof (bits_le num1 max_bits N1 Nn ltac:(lia)) as BN3. pose proof (bits_le den1 max_bits D1 Dn ltac:(lia)) as BD3.
  set (bn := big_bits num1) in *. set (bd := big_bits den1) in *. set (e := bn - bd - fp F - 2). rewrite N2 in BN1. rewrite D2 in BD1.
  apply wp_bind. eapply (wp_mono _ (λ r, norm r ∧ val r = a * 2 ^ Z.max (- e) 0)).
  { destruct (Z.ltb_spec e 0) as [He|He].
    - rewrite Z.max_l by lia. eapply wp_mono; [apply big_shl_ok; [done | lia |]|]; [|cbv beta; rewrite N2; done]. rewrite N2. apply (max_bits_cap' _ 66); [|lia].
      transitivity (2 ^ bn * 2 ^ (- e)); [apply Z.mul_le_mono_nonneg_r; [apply Z.lt_le_incl, pow2_pos; lia | lia]|]. rewrite <- pow2_add by lia. apply Z.pow_le_mono_r; lia.
    - rewrite Z.max_r by lia. apply wp_ok. split; [done|]. rewrite Z.pow_0_r. lia. }
  intros num [M1 M2]. apply wp_bind. eapply (wp_mono _ (λ r, norm r ∧ val r = pw (- q) * 2 ^ Z.max e 0)).
  { destruct (Z.ltb_spec e 0) as [He|He].
    - rewrite Z.max_r by lia. apply wp_ok. split; [done|]. rewrite Z.pow_0_r. lia.
    - rewrite Z.max_l by lia. eapply wp_mono; [apply big_shl_ok; [done | lia |]|]; [|cbv beta; rewrite D2; done]. rewrite D2. apply (max_bits_cap' _ 0); [|lia].
      transitivity (2 ^ bd * 2 ^ e); [apply Z.mul_le_mono_nonneg_r; [apply Z.lt_le_incl, pow2_pos; lia | lia]|]. rewrite <- pow2_add by lia. apply Z.pow_le_mono_r; lia. }
  intros den [E1 E2]. set (b := pw (- q) * 2 ^ Z.max e 0) in *. set (a' := a * 2 ^ Z.max (- e) 0) in *.
  pose proof (pow2_pos (Z.max e 0) ltac:(lia)) as Pe. pose proof (pow2_pos (Z.max (- e) 0) ltac:(lia)) as Pe'. assert (0 < b) as Hb by (by apply Z.mul_pos_pos). assert (0 < a') as Ha' by (by apply Z.mul_pos_pos).
  assert (num ≠ [] ∧ den ≠ []) as [Nn' Dn'] by (split; intros ->; cbn in M2, E2; lia).
  assert (2 ^ (bn + Z.max (- e) 0 - 1) <= a' < 2 ^ (bn + Z.max (- e) 0)) as RA.
  { unfold a'. replace (bn + Z.max (- e) 0 - 1) with (bn - 1 + Z.max (- e) 0) by lia. rewrite !pow2_add by lia. split; [apply Z.mul_le_mono_nonneg_r; lia | apply Z.mul_lt_mono_pos_r; lia]. }
  assert (2 ^ (bd + Z.max e 0 - 1) <= b < 2 ^ (bd + Z.max e 0)) as RB.
  { unfold b. replace (bd + Z.max e 0 - 1) with (bd - 1 + Z.max e 0) by lia. rewrite !pow2_add by lia. split; [apply Z.mul_le_mono_nonneg_r; lia | apply Z.mul_lt_mono_pos_r; lia]. }
  assert (big_bits num = bn + Z.max (- e) 0 ∧ big_bits den = bd + Z.max e 0) as [BN BD].
  { split; rewrite big_bits_log by done.
    - rewrite M2, (Z.log2_unique a' (bn + Z.max (- e) 0 - 1)); [lia | lia|]. by replace (Z.succ (bn + Z.max (- e) 0 - 1)) with (bn + Z.max (- e) 0) by lia.
    - rewrite E2, (Z.log2_unique b (bd + Z.max e 0 - 1)); [lia | lia|]. by replace (Z.succ (bd + Z.max e 0 - 1)) with (bd + Z.max e 0) by lia. }
  apply wp_bind. eapply wp_mono; [apply quotient_ok; [done | done | done | done | lia |]|].
  { apply (norm_length den _ E1). rewrite E2. eapply Z.lt_le_trans; [apply RB|]. apply Z.pow_le_mono_r; [lia|]. assert (bd + Z.max e 0 <= max_bits) as Hm by (unfold e; clear -BN3 BD3 R3; lia). clear -Hm. unfold BL, max_bits in *. lia. }
  intros [Q rem] [HQ Hrem]. cbn [fst snd] in *. apply wp_ok. exists b, (a' mod b). rewrite M2, E2 in *. pose proof (Z.div_mod a' b ltac:(lia)) as Hdm. pose proof (Z.mod_pos_bound a' b Hb) as Hmb. rewrite <- HQ in Hdm.
  split; [done | done | done | | rewrite (Z.mul_comm Q b), <- Hdm; reflexivity]. rewrite HQ. apply (ratio_range _ _ _ _ (fp F) RA RB); unfold e; clear -R3 BN2 BD2; lia.
Qed.

(** ** Numbers out of range *)

Lemma pw_shift a j : 0 <= j → pw (- a) * pw (a + j) = 10 ^ j * pw a * pw (- (a + j)).
Proof. intros Hj. unfold pw. rewrite <- !Z.pow_add_r by lia. f_equal. lia. Qed.

Lemma pw_below n d x y : 0 < d → y <= x → d * pw x <= n * pw (- x) → d * pw y <= n * pw (- y).
Proof.
  intros Hd Hyx H. pose proof (pw_pos x). pose proof (pw_pos y). pose proof (pw_pos (- x)). pose proof (pw_pos (- y)). pose proof (Z.pow_pos_nonneg 10 (x - y) ltac:(lia) ltac:(lia)).
  pose proof (pw_shift y (x - y) ltac:(lia)) as E. replace (y + (x - y)) with x in E by lia. apply (Z.mul_le_mono_pos_r _ _ (pw (- x))); [done|].
  apply (Z.mul_le_mono_nonneg_r _ _ (pw (- y))) in H; [|lia]. replace (d * pw x * pw (- y)) with (d * (pw (- y) * pw x)) in H by ring. rewrite E in H.
  assert (d * (pw y * pw (- x)) <= d * (10 ^ (x - y) * pw y * pw (- x))) by (apply Z.mul_le_mono_nonneg_l; [lia|]; nia). lia.
Qed.

Lemma pw_above n d x y : 0 < d → x <= y → n * pw (- x) < d * pw x → n * pw (- y) < d * pw y.
Proof. intros Hd Hyx H. destruct (decide (n * pw (- y) < d * pw y)) as [|Hn]; [done|]. pose proof (pw_below n d y x Hd Hyx). lia. Qed.

(** A number between D * 10^a and (D + 1) * 10^a, where D has L digits. *)
Lemma magnitude D a L n d :
  0 < d → 1 <= L → 10 ^ (L - 1) <= D < 10 ^ L → d * D * pw a <= n * pw (- a) < d * (D + 1) * pw a →
  d * pw (a + L - 1) <= n * pw (- (a + L - 1)) ∧ n * pw (- (a + L)) < d * pw (a + L).
Proof.
  intros Hd HL HD [H1 H2]. pose proof (pw_pos a) as Pa. pose proof (pw_pos (- a)) as Pa'. split.
  - pose proof (pw_shift a (L - 1) ltac:(lia)) as E. replace (a + (L - 1)) with (a + L - 1) in E by lia. pose proof (pw_pos (- (a + L - 1))) as Px. apply (Z.mul_le_mono_pos_r _ _ (pw (- a))); [done|].
    replace (d * pw (a + L - 1) * pw (- a)) with (d * (pw (- a) * pw (a + L - 1))) by ring. rewrite E.
    transitivity (d * D * pw a * pw (- (a + L - 1))); [|replace (n * pw (- (a + L - 1)) * pw (- a)) with (n * pw (- a) * pw (- (a + L - 1))) by ring; apply Z.mul_le_mono_nonneg_r; lia].
    replace (d * (10 ^ (L - 1) * pw a * pw (- (a + L - 1)))) with (10 ^ (L - 1) * (d * (pw a * pw (- (a + L - 1))))) by ring. replace (d * D * pw a * pw (- (a + L - 1))) with (D * (d * (pw a * pw (- (a + L - 1))))) by ring.
    apply Z.mul_le_mono_nonneg_r; [|lia]. apply Z.mul_nonneg_nonneg; [lia|]. apply Z.mul_nonneg_nonneg; lia.
  - pose proof (pw_shift a L ltac:(lia)) as E. pose proof (pw_pos (- (a + L))) as Px. apply (Z.mul_lt_mono_pos_r (pw (- a))); [done|].
    replace (d * pw (a + L) * pw (- a)) with (d * (pw (- a) * pw (a + L))) by ring. rewrite E.
    apply Z.lt_le_trans with (d * (D + 1) * pw a * pw (- (a + L))); [replace (n * pw (- (a + L)) * pw (- a)) with (n * pw (- a) * pw (- (a + L))) by ring; apply Z.mul_lt_mono_pos_r; lia|].
    replace (d * (10 ^ L * pw a * pw (- (a + L)))) with (10 ^ L * (d * (pw a * pw (- (a + L))))) by ring. replace (d * (D + 1) * pw a * pw (- (a + L))) with ((D + 1) * (d * (pw a * pw (- (a + L))))) by ring.
    apply Z.mul_le_mono_nonneg_r; [|lia]. apply Z.mul_nonneg_nonneg; [lia|]. apply Z.mul_nonneg_nonneg; lia.
Qed.

(** 2^93 is a little less than 10^28. *)
Lemma pow2_pow10 k r a b : 0 <= k → 0 <= r → 0 <= b → 2 ^ r <= 10 ^ b → a = 93 * k + r → 2 ^ a <= 10 ^ (28 * k + b).
Proof.
  intros Hk Hr Hb H ->. rewrite pow2_add, Z.pow_add_r, !Z.pow_mul_r by lia. apply Z.mul_le_mono_nonneg; [apply Z.pow_nonneg; lia | apply Z.pow_le_mono_l; lia | apply Z.pow_nonneg; lia | done].
Qed.

Lemma std_limits F : std F → 2 ^ (fp F + emax F) <= pw (dmax F) ∧ pw (- dmax F) = 1 ∧ 2 ^ (1 - emin F) <= pw (1 - dmin F) ∧ pw (dmin F - 1) = 1.
Proof.
  assert (∀ k r b a c, 0 <= k → 0 <= r → 0 <= b → 2 ^ r <= 10 ^ b → a = 93 * k + r → 28 * k + b <= c → 2 ^ a <= pw c) as H.
  { intros k r b a c Hk Hr Hb H1 H2 Hc. etrans; [apply (pow2_pow10 k r a b); done|]. apply Z.pow_le_mono_r; lia. }
  intros [-> |[-> | ->]]; cbn [fp emax emin dmax dmin F_FLT F_DBL F_LDBL].
  - split; [apply (H 1 35 11); lia|]. split; [done|]. split; [apply (H 1 57 18); lia | done].
  - split; [apply (H 11 1 1); lia|]. split; [done|]. split; [apply (H 11 52 16); lia | done].
  - split; [apply (H 176 16 5); lia|]. split; [done|]. split; [apply (H 176 78 24); lia | done].
Qed.

Lemma overflow_ok F n d : std F → 0 < n → 0 < d → d * 2 ^ (fp F + emax F) <= n → ∃ m e, canon F m e ∧ between F n d m e ∧ emax F < e.
Proof.
  intros HF Hn Hd Hov. assert (0 <= fp F + emax F) as Hpe by (clear -HF; destruct HF as [-> |[-> | ->]]; cbn; lia). destruct (std_bounds F HF) as (Hp & Hemin & _ & Hmm & _). destruct (fround_ok F ltac:(lia) ltac:(lia) n d Hn Hd) as (m & e & Hc & Hb & _). exists m, e. split_and!; [done | done|].
  destruct (decide (emax F < e)) as [|He]; [done|]. exfalso. destruct Hb as [_ [U _] _]. cbv zeta in U. destruct Hc as (Hm & Hlo & _).
  assert (2 ^ (e - emin F) <= 2 ^ (emax F - emin F)) as E1 by (apply Z.pow_le_mono_r; lia). pose proof (pow2_pos (e - emin F) ltac:(lia)) as P1. pose proof (pow2_pos (- emin F) ltac:(lia)) as P2. pose proof (pow2_pos (emax F - emin F) ltac:(lia)) as P3.
  assert (2 ^ (fp F + emax F) * 2 ^ (- emin F) = 2 ^ fp F * 2 ^ (emax F - emin F)) as E2.
  { rewrite <- !Z.pow_add_r by lia. f_equal. lia. }
  set (K := 2 ^ (- emin F)) in *. set (W := 2 ^ (e - emin F)) in *. set (V := 2 ^ (emax F - emin F)) in *. set (P := 2 ^ fp F) in *. set (T := 2 ^ (fp F + emax F)) in *. clearbody K W V P T. clear -Hov U Hm E1 P1 P2 P3 E2 Hd.
  apply (Z.mul_le_mono_nonneg_r _ _ K) in Hov; [|lia]. rewrite <- Z.mul_assoc, E2 in Hov.
  assert ((2 * m + 1) * (d * W) <= (2 * m + 1) * (d * V)) by (apply Z.mul_le_mono_nonneg_l; [lia|]; apply Z.mul_le_mono_nonneg_l; lia).
  assert ((2 * m + 1) * (d * V) < 2 * P * (d * V)); [apply Z.mul_lt_mono_pos_r; [apply Z.mul_pos_pos; lia | lia]|]. lia.
Qed.

Lemma underflow_ok F n d : std F → 0 < n → 0 < d → n * 2 ^ (1 - emin F) < d → canon F 0 (emin F) ∧ between F n d 0 (emin F).
Proof.
  intros HF Hn Hd Hun. destruct (std_bounds F HF) as (Hp & Hemin & _). destruct (fround_ok F ltac:(lia) ltac:(lia) n d Hn Hd) as (m & e & Hc & Hb & _).
  pose proof Hc as (Hm & Hlo & Hcan). pose proof (pow2_pos (fp F - 1) ltac:(lia)). enough (m = 0) as Hm0 by (subst m; destruct Hcan as [?| ->]; [lia | done]).
  destruct (decide (m = 0)) as [|Hm0]; [done|]. exfalso. destruct Hb as [[L _] _ _]. cbv zeta in L. assert (1 <= 2 ^ (e - emin F)) by (apply (Z.pow_le_mono_r 2 0); lia).
  replace (1 - emin F) with (1 + - emin F) in Hun by lia. rewrite pow2_add in Hun by lia. change (2 ^ 1) with 2 in Hun. clear -Hun L H0 Hm0 Hm Hd.
  assert (d <= d * 2 ^ (e - emin F)) by nia. assert (d * 2 ^ (e - emin F) <= (2 * m - 1) * (d * 2 ^ (e - emin F))) by nia. lia.
Qed.
