(* ===== verification/Strtodround.v ===== *)
(** * strtod rounds correctly: the conversion of decimal digits

    Every path of decimal returns the number nearest to the value of the
    digits, and reports a range error as it should, but for an overflow of
    strtof on the middle path. *)
From S2P Require Import Prelude Fpround Bigint Strtod.

(** The range error of C: overflow, or a subnormal or zero result that is
    not exact. *)
Definition range_error (F : ffmt) (n d m e : Z) : Prop :=
  emax F < e ∨ (m < 2 ^ (fp F - 1) ∧ n * 2 ^ (- emin F) ≠ m * (d * 2 ^ (e - emin F))).

(** [r] is the fraction n/d rounded. *)
Definition rounds (F : ffmt) (n d : Z) (neg : bool) (r : num) (er : bool) : Prop :=
  ∃ m e, canon F m e ∧ between F n d m e ∧ r = Num neg (bounded F e m) ∧ (er = true ↔ range_error F n d m e).

Lemma rounds_correct F n d neg r er : std F → 0 < d → rounds F n d neg r er → correct F n d neg r er.
Proof. intros HF Hd (m & e & Hc & Hb & Hr & He). by apply (correct_intro F n d neg r er m e). Qed.

(** ** Fractions of the same value *)

Section Scale.
Context (F : ffmt) (n d n' d' : Z) (Hd : 0 < d) (Hd' : 0 < d') (Heq : n * d' = n' * d).

Lemma scale_le x y : x * d <= y * n → x * d' <= y * n'.
Proof using All. intros H. apply (Z.mul_le_mono_pos_r _ _ d); [done|]. replace (y * n' * d) with (y * (n' * d)) by ring. rewrite <- Heq. apply (Z.mul_le_mono_nonneg_r _ _ d') in H; lia. Qed.

Lemma scale_ge x y : y * n <= x * d → y * n' <= x * d'.
Proof using All. intros H. apply (Z.mul_le_mono_pos_r _ _ d); [done|]. replace (y * n' * d) with (y * (n' * d)) by ring. rewrite <- Heq. apply (Z.mul_le_mono_nonneg_r _ _ d') in H; lia. Qed.

Lemma scale_eq x y : x * d = y * n ↔ x * d' = y * n'.
Proof using All.
  split; intros H.
  - apply (Z.mul_reg_r _ _ d); [lia|]. replace (y * n' * d) with (y * (n' * d)) by ring. rewrite <- Heq. replace (x * d' * d) with (x * d * d') by ring. rewrite H. ring.
  - apply (Z.mul_reg_r _ _ d'); [lia|]. replace (y * n * d') with (y * (n * d')) by ring. rewrite Heq. replace (x * d * d') with (x * d' * d) by ring. rewrite H. ring.
Qed.

Lemma between_scale m e : between F n d m e → between F n' d' m e.
Proof using All.
  intros [[L1 L2] [U1 U2] S1]. cbv zeta in *. set (K := 2 ^ (- emin F)) in *. set (W := 2 ^ (e - emin F)) in *.
  assert (∀ c z, c * (z * W) = c * W * z) as E1 by (intros; ring). assert (∀ c z, c * (z * K) = c * K * z) as E2 by (intros; ring).
  split; cbv zeta; fold K W; rewrite !E1, !E2 in *.
  - split; [by apply scale_le|]. intros H. apply L2. by apply scale_eq.
  - split; [by apply scale_ge|]. intros H. apply U2. symmetry. apply scale_eq. by symmetry.
  - intros Hm He. by apply scale_le, S1.
Qed.

Lemma range_error_scale m e : range_error F n d m e ↔ range_error F n' d' m e.
Proof using All.
  unfold range_error. set (K := 2 ^ (- emin F)). set (W := 2 ^ (e - emin F)). enough (n * K = m * (d * W) ↔ n' * K = m * (d' * W)) as E by (rewrite E; done).
  pose proof (scale_eq (m * W) K) as E. replace (m * (d * W)) with (m * W * d) by ring. replace (m * (d' * W)) with (m * W * d') by ring. rewrite (Z.mul_comm n), (Z.mul_comm n'). split; intros H; symmetry; apply E; by symmetry.
Qed.

Lemma rounds_scale neg r er : rounds F n d neg r er → rounds F n' d' neg r er.
Proof using All. intros (m & e & Hc & Hb & Hr & He). exists m, e. split_and!; [done | by apply between_scale | done|]. by rewrite <- range_error_scale. Qed.
End Scale.

(** ** Normal numbers and overflow, from the magnitude *)

Lemma between_normal F n d m e : std F → 0 < d → canon F m e → between F n d m e → d * 2 ^ (fp F - 1) <= n * 2 ^ (- emin F) → 2 ^ (fp F - 1) <= m.
Proof.
  intros HF Hd (Hm & He & Hcan) [_ [U _] _] Hbig. destruct Hcan as [|Hee]; [done|]. cbv zeta in U. rewrite Hee, Z.sub_diag, Z.pow_0_r, Z.mul_1_r in U.
  set (P := 2 ^ (fp F - 1)) in *. set (N := n * 2 ^ (- emin F)) in *. destruct (decide (P <= m)) as [|Hlt]; [done|]. exfalso. clear -U Hbig Hlt Hd. nia.
Qed.

Lemma between_finite F n d m e : std F → 0 < d → canon F m e → between F n d m e → n < d * 2 ^ (fp F - 1 + emax F) → e <= emax F.
Proof.
  intros HF Hd (Hm & He & Hcan) [[L _] _ _] Hlt. destruct (decide (e <= emax F)) as [|Hgt]; [done|]. exfalso. cbv zeta in L. assert (0 <= fp F - 1 + emax F) as Hpe by (clear -HF; destruct HF as [-> |[-> | ->]]; cbn; lia).
  destruct (std_bounds F HF) as (Hp & Hemin & _ & Hmm & _). destruct Hcan as [Hcan|?]; [|lia]. destruct (pow_pred F ltac:(lia)) as (_ & P2 & _).
  assert (2 * 2 ^ (emax F - emin F) <= 2 ^ (e - emin F)) as E1 by (rewrite <- Z.pow_succ_r by lia; apply Z.pow_le_mono_r; lia).
  assert (2 ^ (fp F - 1 + emax F) * 2 ^ (- emin F) = 2 ^ (fp F - 1) * 2 ^ (emax F - emin F)) as E2 by (rewrite <- !Z.pow_add_r by lia; f_equal; lia).
  pose proof (pow2_pos (- emin F) ltac:(lia)) as P1. pose proof (pow2_pos (emax F - emin F) ltac:(lia)) as P3.
  set (K := 2 ^ (- emin F)) in *. set (W := 2 ^ (e - emin F)) in *. set (V := 2 ^ (emax F - emin F)) in *. set (P := 2 ^ (fp F - 1)) in *. set (T := 2 ^ (fp F - 1 + emax F)) in *. clearbody K W V P T. clear -L Hcan P2 E1 E2 P1 P3 Hlt Hd.
  apply (Z.mul_lt_mono_pos_r K) in Hlt; [|done]. rewrite <- Z.mul_assoc, E2 in Hlt.
  assert (P * (d * (2 * V)) <= (2 * m - 1) * (d * W)); [|lia]. transitivity (P * (d * W)); [apply Z.mul_le_mono_nonneg_l; [lia|]; apply Z.mul_le_mono_nonneg_l; lia|]. apply Z.mul_le_mono_nonneg_r; [|lia]. apply Z.mul_nonneg_nonneg; lia.
Qed.

(** ** Operations on integers and powers of ten *)

(** x * 2^a = y * 2^b, with the common factor removed. *)
Lemma pow2_cross x y a b : 0 <= a → 0 <= b → x * 2 ^ a = y * 2 ^ b → x * 2 ^ Z.max (a - b) 0 = y * 2 ^ Z.max (b - a) 0.
Proof.
  intros Ha Hb H. destruct (decide (b <= a)) as [Hle|Hgt].
  - rewrite (Z.max_l (a - b)), (Z.max_r (b - a)) by lia. apply (Z.mul_reg_r _ _ (2 ^ b)); [pose proof (pow2_pos b Hb); lia|].
    rewrite <- Z.mul_assoc, <- pow2_add by lia. rewrite Z.pow_0_r, Z.mul_1_r. replace (a - b + b) with a by lia. done.
  - rewrite (Z.max_r (a - b)), (Z.max_l (b - a)) by lia. apply (Z.mul_reg_r _ _ (2 ^ a)); [pose proof (pow2_pos a Ha); lia|].
    rewrite Z.pow_0_r, Z.mul_1_r. rewrite <- (Z.mul_assoc y), <- pow2_add by lia. replace (b - a + a) with b by lia. done.
Qed.

(** [x] is exactly the integer [v]. *)
Definition is_int (F : ffmt) (x : fl) (v : Z) : Prop := ∃ m e, x = Fin m e ∧ 0 < m ∧ 0 <= e - emin F ∧ m * 2 ^ (e - emin F) = v * 2 ^ (- emin F).

Lemma int_exact F c j : std F → 0 < c < 2 ^ fp F → 0 <= j <= 30 → is_int F (fround F (c * 2 ^ j) 1) (c * 2 ^ j).
Proof.
  intros HF Hc Hj. assert (30 <= emax F) as Hpe by (clear -HF; destruct HF as [-> |[-> | ->]]; cbn; lia). destruct (std_bounds F HF) as (Hp & Hemin & _ & Hmm & _).
  pose proof (pow2_pos j ltac:(lia)) as Pj. assert (0 < c * 2 ^ j) as Hv by nia. destruct (fround_ok F ltac:(lia) ltac:(lia) (c * 2 ^ j) 1 Hv ltac:(lia)) as (m & e & Hcan & Hb & ->).
  destruct (between_nearest F ltac:(lia) ltac:(lia) _ 1 m e ltac:(lia) Hcan Hb) as [_ Hn]. destruct (Hn c j ltac:(lia) ltac:(lia)) as [Hdist _]. unfold dist in Hdist.
  assert (c * 2 ^ j * 2 ^ (- emin F) = c * 2 ^ (j - emin F)) as E by (rewrite <- Z.mul_assoc, <- pow2_add by lia; do 2 f_equal; lia).
  assert (m * 2 ^ (e - emin F) = c * 2 ^ j * 2 ^ (- emin F)) as Em by (clear -Hdist E; lia). destruct Hcan as (Hm & He & Hcan). pose proof (pow2_pos (e - emin F) ltac:(lia)) as Pe. pose proof (pow2_pos (- emin F) ltac:(lia)) as PK.
  assert (0 < m) as Hm0 by (clear -Em Hv Pe PK; nia).
  assert (e <= emax F) as Hfin.
  { destruct (decide (e <= emax F)) as [|Hgt]; [done|]. exfalso. destruct Hcan as [Hcan|?]; [|lia]. rewrite E in Em. destruct (pow_pred F ltac:(lia)) as (P1 & P2 & _).
    assert (2 * 2 ^ (j - emin F) <= 2 ^ (e - emin F)) by (rewrite <- Z.pow_succ_r by lia; apply Z.pow_le_mono_r; lia). pose proof (pow2_pos (j - emin F) ltac:(lia)).
    set (P := 2 ^ (fp F - 1)) in *. set (A := 2 ^ (j - emin F)) in *. set (B := 2 ^ (e - emin F)) in *. clear -Em Hcan H H0 Hc P1 P2. assert (P * (2 * A) <= m * B) by (transitivity (P * B); nia). nia. }
  exists m, e. unfold bounded. rewrite (proj2 (Z.ltb_ge _ _)) by done. split_and!; [done | done | lia | done].
Qed.

Lemma pow10_exact F k : std F → 0 <= k <= 27 → 5 ^ k < 2 ^ fp F → is_int F (fround F (10 ^ k) 1) (10 ^ k).
Proof. intros HF Hk H5. assert (10 ^ k = 5 ^ k * 2 ^ k) as -> by (rewrite <- Z.pow_mul_l; done). apply int_exact; [done | | lia]. pose proof (Z.pow_pos_nonneg 5 k). lia. Qed.

Lemma nat_exact F v : std F → 0 < v < 2 ^ fp F → is_int F (fround F v 1) v.
Proof. intros HF Hv. pose proof (int_exact F v 0 HF Hv ltac:(lia)) as H. by rewrite Z.pow_0_r, Z.mul_1_r in H. Qed.

(** One operation on exact operands. *)
Lemma fop_ok F x y v k q :
  std F → is_int F x v → 0 < v → is_int F y (10 ^ Z.abs q) → k = v * pw q →
  ∃ m e, canon F m e ∧ between F k (pw (- q)) m e ∧ (if q <? 0 then fdiv F x y else fmul F x y) = bounded F e m.
Proof.
  intros HF (m1 & e1 & -> & M1 & E1 & V1) Hv (m2 & e2 & -> & M2 & E2 & V2) ->. destruct (std_bounds F HF) as (Hp & Hemin & _). set (L := - emin F) in *.
  replace (e1 - emin F) with (e1 + L) in * by (unfold L; lia). replace (e2 - emin F) with (e2 + L) in * by (unfold L; lia).
  assert (0 <= L) as HL by (unfold L; lia). pose proof (pow2_pos L HL) as PL. unfold pw. destruct (Z.ltb_spec q 0) as [Hq|Hq]; cbn [fdiv fmul].
  - rewrite (Z.max_r q), (Z.max_l (- q)) by lia. rewrite Z.abs_neq in V2 by lia. rewrite Z.pow_0_r, Z.mul_1_r. set (T := 10 ^ (- q)) in *. assert (0 < T) as HT by (apply Z.pow_pos_nonneg; lia).
    pose proof (pow2_pos (Z.max (e1 - e2) 0) ltac:(lia)) as P1. pose proof (pow2_pos (Z.max (- (e1 - e2)) 0) ltac:(lia)) as P2.
    destruct (fround_ok F ltac:(lia) ltac:(lia) (m1 * 2 ^ Z.max (e1 - e2) 0) (m2 * 2 ^ Z.max (- (e1 - e2)) 0)) as (m & e & Hc & Hb & ->); [by apply Z.mul_pos_pos | by apply Z.mul_pos_pos|].
    exists m, e. split_and!; [done | | done]. refine (between_scale F _ _ _ _ _ _ _ m e Hb); [by apply Z.mul_pos_pos | done|].
    pose proof (pow2_cross (m1 * T) (v * m2) (e1 + L + L) (e2 + L + L)) as Hx. replace (e1 + L + L - (e2 + L + L)) with (e1 - e2) in Hx by lia. replace (e2 + L + L - (e1 + L + L)) with (- (e1 - e2)) in Hx by lia.
    rewrite (pow2_add (e1 + L)), (pow2_add (e2 + L)) in Hx by lia. specialize (Hx ltac:(lia) ltac:(lia)). transitivity (m1 * T * 2 ^ Z.max (e1 - e2) 0); [ring|]. rewrite Hx; [ring|].
    replace (m1 * T * (2 ^ (e1 + L) * 2 ^ L)) with (m1 * 2 ^ (e1 + L) * (T * 2 ^ L)) by ring. rewrite V1, <- V2. ring.
  - rewrite (Z.max_l q), (Z.max_r (- q)) by lia. rewrite Z.abs_eq in V2 by lia. rewrite Z.pow_0_r. set (T := 10 ^ q) in *. assert (0 < T) as HT by (apply Z.pow_pos_nonneg; lia).
    pose proof (pow2_pos (Z.max (e1 + e2) 0) ltac:(lia)) as P1. pose proof (pow2_pos (Z.max (- (e1 + e2)) 0) ltac:(lia)) as P2.
    destruct (fround_ok F ltac:(lia) ltac:(lia) (m1 * m2 * 2 ^ Z.max (e1 + e2) 0) (2 ^ Z.max (- (e1 + e2)) 0)) as (m & e & Hc & Hb & ->); [apply Z.mul_pos_pos; [by apply Z.mul_pos_pos | done] | done|].
    exists m, e. split_and!; [done | | done]. refine (between_scale F _ _ _ _ _ _ _ m e Hb); [done | lia|].
    pose proof (pow2_cross (m1 * m2) (v * T) (e1 + L + (e2 + L)) (L + L)) as Hx. replace (e1 + L + (e2 + L) - (L + L)) with (e1 + e2) in Hx by lia. replace (L + L - (e1 + L + (e2 + L))) with (- (e1 + e2)) in Hx by lia.
    rewrite (pow2_add (e1 + L)), (pow2_add L) in Hx by lia. rewrite Z.mul_1_r. apply Hx; [lia | lia|].
    replace (m1 * m2 * (2 ^ (e1 + L) * 2 ^ (e2 + L))) with (m1 * 2 ^ (e1 + L) * (m2 * 2 ^ (e2 + L))) by ring. rewrite V1, V2. ring.
Qed.

(** ** Storing a result *)

Lemma decode_encode m e neg : canon F_LDBL m e → e <= 16320 → decode (encode neg (Fin m e)) = Num neg (Fin m e).
Proof.
  intros (Hm & He & Hcan) Hmax. cbn [fp emin F_LDBL] in *. unfold decode, encode. cbn [ld_m ld_se]. destruct (Z.ltb_spec m (2 ^ 63)) as [Hlt|Hge].
  - destruct (sign_split neg 0 ltac:(lia)) as [-> ->]. cbn [Z.eqb]. do 2 f_equal. lia.
  - destruct (sign_split neg (e + 63 + 16383) ltac:(lia)) as [-> ->]. rewrite (proj2 (Z.eqb_neq _ _)) by lia. do 2 f_equal. lia.
Qed.

(** The conversion to long double is exact. *)
Lemma conv_ldbl F m e : std F → canon F m e → e <= emax F → 0 < m →
  ∃ m' e', conv F_LDBL (Fin m e) = Fin m' e' ∧ canon F_LDBL m' e' ∧ e' <= 16320 ∧ m' * 2 ^ (e' + 16445) = m * 2 ^ (e + 16445) ∧ conv F (Fin m' e') = Fin m e.
Proof.
  intros HF Hc He Hm. destruct (ld_value F m e false HF Hc He) as (m' & e' & _ & Hc' & Heq & Hback). destruct (std_bounds F HF) as (Hp & Hemin & Hmax & _).
  destruct Hc as (Hmr & Hlo & _). pose proof Hc' as (Hm' & He' & Hcan'). cbn [fp emin F_LDBL] in *. pose proof (pow2_pos (e + 16445) ltac:(lia)) as P1. pose proof (pow2_pos (e' + 16445) ltac:(lia)) as P2.
  assert (e' <= 16320) as Hle.
  { destruct (decide (e' <= 16320)) as [|Hgt]; [done|]. exfalso. destruct Hcan' as [Hcan'|?]; [|lia]. assert (m * 2 ^ (e + 16445) < 2 ^ fp F * 2 ^ (e + 16445)) as H1 by (apply Z.mul_lt_mono_pos_r; lia).
    assert (2 ^ (64 - 1) * 2 ^ (e' + 16445) <= m' * 2 ^ (e' + 16445)) as H2 by (apply Z.mul_le_mono_nonneg_r; lia). rewrite <- pow2_add in H1, H2 by lia.
    assert (2 ^ (fp F + (e + 16445)) <= 2 ^ (64 - 1 + (e' + 16445))) as H3 by (apply Z.pow_le_mono_r; lia). clear -H1 H2 H3 Heq. lia. }
  exists m', e'. split_and!; [|done | done | done | done]. cbn [conv]. rewrite (fround_exact F_LDBL ltac:(done) ltac:(done) _ _ m' e').
  - unfold bounded. by rewrite (proj2 (Z.ltb_ge _ _)).
  - apply Z.mul_pos_pos; [done | apply pow2_pos; lia].
  - apply pow2_pos. lia.
  - done.
  - replace (e' - emin F_LDBL) with (e' + 16445) by (cbn; lia). replace (- emin F_LDBL) with 16445 by done. apply (value_cross 16445); lia.
Qed.

Lemma encode_exact F m e neg : std F → canon F m e → e <= emax F → 0 < m → conv_num F (decode (encode neg (conv F_LDBL (Fin m e)))) = Num neg (Fin m e).
Proof.
  intros HF Hc He Hm. destruct (conv_ldbl F m e HF Hc He Hm) as (m' & e' & -> & Hc' & Hle & _ & Hback). rewrite decode_encode by done. cbn [conv_num]. by rewrite Hback.
Qed.

Lemma encode_inf F neg : conv_num F (decode (encode neg (conv F_LDBL Inf))) = Num neg Inf.
Proof. cbn [conv encode]. by rewrite decode_inf. Qed.

(** ** The fast path *)

(** What decimal has read: if [sticky], [k] zeros were dropped from the 800
    digits and there are more digits. n/d is the number. *)
Definition truth (ds : list Z) (q : Z) (sticky : bool) (n d : Z) : Prop :=
  0 < d ∧ if sticky then ∃ k, 0 <= k ∧ Z.of_nat (length ds) + k = Z.of_nat MAX_DIGITS ∧
    d * (dval ds * 10 ^ k) * pw (q - k) < n * pw (- (q - k)) ∧ n * pw (- (q - k)) < d * (dval ds * 10 ^ k + 1) * pw (q - k)
  else n * pw (- q) = d * (dval ds * pw q).

Section Short.
Context (ds : list Z) (q n d : Z) (Hs : significand ds) (Ht : truth ds q false n d).

Lemma short_scale F neg r er : rounds F (dval ds * pw q) (pw (- q)) neg r er → rounds F n d neg r er.
Proof using All. destruct Ht as [Hd Heq]. cbn in Heq. apply rounds_scale; [apply pw_pos | done | lia]. Qed.

(** The value is at least 10^-27 and below 2^200. *)
Lemma short_range : (length ds <= 19)%nat → -27 <= q <= 27 → 0 < dval ds < 10 ^ 19 ∧ 0 < pw (- q) <= 10 ^ 27 ∧ 0 < pw q <= 10 ^ 27.
Proof using All.
  intros Hl Hq. destruct (significand_range ds Hs) as [V1 V2]. destruct Hs as (_ & Hne & _). assert (0 < 10 ^ (Z.of_nat (length ds) - 1)) by (apply Z.pow_pos_nonneg; [lia | destruct ds; [done | cbn [length]; lia]]).
  assert (10 ^ Z.of_nat (length ds) <= 10 ^ 19) by (apply Z.pow_le_mono_r; lia). pose proof (pw_pos q). pose proof (pw_pos (- q)).
  assert (pw q <= 10 ^ 27) by (apply Z.pow_le_mono_r; lia). assert (pw (- q) <= 10 ^ 27) by (apply Z.pow_le_mono_r; lia). lia.
Qed.

Lemma fast_path_ok neg : (length ds <= 15)%nat → -22 <= q <= 22 → rounds F_DBL n d neg (conv_num F_DBL (decode (fast_path ds q neg))) false.
Proof using All.
  intros Hl Hq. destruct (short_range ltac:(lia) ltac:(lia)) as (V & P1 & P2). apply short_scale. unfold fast_path.
  assert (dval ds < 10 ^ 15) as V15. { destruct (significand_range ds Hs) as [_ V2]. eapply Z.lt_le_trans; [exact V2|]. apply Z.pow_le_mono_r; lia. }
  rewrite digits64_ok by (try lia; apply Hs). assert (std F_DBL) as HF by (right; by left).
  assert (5 ^ Z.abs q < 2 ^ fp F_DBL) as H5. { apply Z.le_lt_trans with (5 ^ 22); [apply Z.pow_le_mono_r; lia | done]. }
  destruct (fop_ok F_DBL (fround F_DBL (dval ds) 1) (exact10 (Z.abs q)) (dval ds) (dval ds * pw q) q HF) as (m & e & Hc & Hb & Hr); [apply nat_exact; [done | cbn [fp F_DBL]; lia] | lia | apply pow10_exact; [done | lia | done] | done|].
  exists m, e. assert (e <= emax F_DBL) as He.
  { apply (between_finite F_DBL (dval ds * pw q) (pw (- q)) m e); [done | lia | done | done|]. apply Z.lt_le_trans with (1 * 2 ^ 200); [clear -V P2; nia|]. apply Z.mul_le_mono_nonneg; [lia | lia | lia | apply Z.pow_le_mono_r; cbn; lia]. }
  assert (2 ^ (fp F_DBL - 1) <= m) as Hm.
  { apply (between_normal F_DBL (dval ds * pw q) (pw (- q)) m e); [done | lia | done | done|]. apply Z.le_trans with (1 * 2 ^ (- emin F_DBL)).
    - apply Z.le_trans with (10 ^ 27 * 2 ^ (fp F_DBL - 1)); [apply Z.mul_le_mono_nonneg_r; [done | lia]|]. apply Z.le_trans with (2 ^ 160); [apply Z.leb_le; vm_compute; reflexivity|]. rewrite Z.mul_1_l. apply Z.pow_le_mono_r; cbn [emin F_DBL]; lia.
    - apply Z.mul_le_mono_nonneg_r; [apply Z.lt_le_incl, pow2_pos; cbn; lia|]. clear -V P2. nia. }
  split_and!; [done | done | |].
  - assert ((if q <? 0 then fdiv F_DBL (fround F_DBL (dval ds) 1) (exact10 (- q)) else fmul F_DBL (fround F_DBL (dval ds) 1) (exact10 q)) = Fin m e) as ->.
    { transitivity (bounded F_DBL e m); [|unfold bounded; by rewrite (proj2 (Z.ltb_ge _ _))]. rewrite <- Hr. destruct (Z.ltb_spec q 0); [by rewrite Z.abs_neq by lia | by rewrite Z.abs_eq by lia]. }
    rewrite encode_exact by (try done; pose proof (pow2_pos (fp F_DBL - 1) ltac:(done)); lia). unfold bounded. by rewrite (proj2 (Z.ltb_ge _ _)).
  - split; [done|]. intros [?|[? _]]; lia.
Qed.

(** ** The middle path *)

(** The product or quotient in the long double format. *)
Lemma long_product : (length ds <= 19)%nat → -27 <= q <= 27 →
  ∃ M X, (let r := fround F_LDBL (digits64 ds) 1 in if q <? 0 then fdiv F_LDBL r (p10l (- q)) else fmul F_LDBL r (p10l q)) = Fin M X ∧
    2 ^ 63 <= M < 2 ^ 64 ∧ X <= 16320 ∧ nearest F_LDBL (dval ds * pw q) (pw (- q)) M X.
Proof using All.
  intros Hl Hq. destruct (short_range Hl Hq) as (V & P1 & P2). cbv zeta. rewrite digits64_ok by (try lia; apply Hs). assert (std F_LDBL) as HF by (right; by right).
  assert (5 ^ Z.abs q < 2 ^ fp F_LDBL) as H5. { apply Z.le_lt_trans with (5 ^ 27); [apply Z.pow_le_mono_r; lia | done]. }
  destruct (fop_ok F_LDBL (fround F_LDBL (dval ds) 1) (p10l (Z.abs q)) (dval ds) (dval ds * pw q) q HF) as (m & e & Hc & Hb & Hr); [apply nat_exact; [done | cbn [fp F_LDBL]; lia] | lia | apply pow10_exact; [done | lia | done] | done|].
  exists m, e. assert (e <= emax F_LDBL) as He.
  { apply (between_finite F_LDBL (dval ds * pw q) (pw (- q)) m e); [done | lia | done | done|]. apply Z.lt_le_trans with (1 * 2 ^ 200); [clear -V P2; nia|]. apply Z.mul_le_mono_nonneg; [lia | lia | lia | apply Z.pow_le_mono_r; cbn; lia]. }
  assert (2 ^ (fp F_LDBL - 1) <= m) as Hm.
  { apply (between_normal F_LDBL (dval ds * pw q) (pw (- q)) m e); [done | lia | done | done|]. apply Z.le_trans with (1 * 2 ^ (- emin F_LDBL)).
    - apply Z.le_trans with (10 ^ 27 * 2 ^ (fp F_LDBL - 1)); [apply Z.mul_le_mono_nonneg_r; [done | lia]|]. apply Z.le_trans with (2 ^ 160); [apply Z.leb_le; vm_compute; reflexivity|]. rewrite Z.mul_1_l. apply Z.pow_le_mono_r; cbn [emin F_LDBL]; lia.
    - apply Z.mul_le_mono_nonneg_r; [apply Z.lt_le_incl, pow2_pos; cbn; lia|]. clear -V P2. nia. }
  split_and!.
  - transitivity (bounded F_LDBL e m); [|unfold bounded; by rewrite (proj2 (Z.ltb_ge _ _))]. rewrite <- Hr. destruct (Z.ltb_spec q 0); [by rewrite Z.abs_neq by lia | by rewrite Z.abs_eq by lia].
  - exact Hm.
  - apply Hc.
  - exact He.
  - apply between_nearest; [done | done | lia | done | done].
Qed.

Lemma middle_path_ok F neg l :
  F = F_FLT ∨ F = F_DBL → (length ds <= 19)%nat → -27 <= q <= 27 → middle_path ds q F neg = Some l →
  rounds F n d neg (conv_num F (decode l)) false ∨ (F = F_FLT ∧ conv_num F (decode l) = Num neg Inf ∧ rounds F n d neg (conv_num F (decode l)) true).
Proof using All.
  intros HF Hl Hq Hmid. destruct (short_range Hl Hq) as (V & P1 & P2). destruct (long_product Hl Hq) as (M & X & Er & HM & HX & Hnear). cbv zeta in Er.
  assert (std F) as HFs by (destruct HF as [-> | ->]; [by left | by right; left]). assert (24 <= fp F <= 53 ∧ -1074 <= emin F ∧ emin F <= -149) as (Hp & He1 & He2) by (destruct HF as [-> | ->]; cbn; lia).
  unfold middle_path in Hmid. cbv zeta in Hmid. rewrite Er in Hmid. assert (-16445 <= X) as HXm by apply Hnear.
  assert (encode false (Fin M X) = Ld M (X + 63 + 16383)) as Eenc by (cbn [encode]; rewrite (proj2 (Z.ltb_ge M (2 ^ 63))) by lia; cbn [sign_bit]; by rewrite Z.lor_0_r). rewrite Eenc in Hmid. cbn [ld_m ld_se] in Hmid.
  assert (Z.land (X + 63 + 16383) 0x7fff = X + 63 + 16383) as El by (pose proof (sign_split false (X + 63 + 16383) ltac:(lia)) as [_ E]; cbn [sign_bit] in E; by rewrite Z.lor_0_r in E). rewrite El in Hmid.
  assert (Z.land M (Z.shiftl 1 (64 - fp F) - 1) = M mod 2 ^ (64 - fp F)) as Elow by (rewrite Z.shiftl_1_l, <- Z.land_ones by lia; by rewrite Z.ones_equiv, <- Z.sub_1_r). rewrite Elow in Hmid.
  rewrite Z.shiftl_1_l in Hmid. replace (64 - fp F - 1) with (63 - fp F) in Hmid by lia.
  destruct (Z.eqb_spec (M mod 2 ^ (64 - fp F)) (2 ^ (63 - fp F))) as [|Hlow]; [done|]. destruct (Z.leb_spec (X + 63 + 16383 - 16383) (emax F + fp F - 1)) as [HmX|]; [|done]. destruct (Z.leb_spec (emin F + fp F - 1) (X + 63 + 16383 - 16383)) as [HnX|]; [|done].
  cbn [negb andb] in Hmid. apply (inj Some) in Hmid as <-. replace (X + 63 + 16383 - 16383) with (X + 63) in * by lia.
  pose proof (pow2_pos (Z.max X 0) ltac:(lia)) as Q1. pose proof (pow2_pos (Z.max (- X) 0) ltac:(lia)) as Q2.
  destruct (fround_ok F ltac:(lia) ltac:(lia) (M * 2 ^ Z.max X 0) (2 ^ Z.max (- X) 0)) as (m & e & Hc & Hb & Hfr); [apply Z.mul_pos_pos; lia | done|].
  assert ((if decide (F = F_DBL) then conv F_DBL (Fin M X) else conv F_FLT (Fin M X)) = bounded F e m) as ->.
  { rewrite <- Hfr. destruct HF as [-> | ->]; done. }
  assert (between F (dval ds * pw q) (pw (- q)) m e) as Hbw.
  { apply (double_round F HFs ltac:(lia) (dval ds * pw q) (pw (- q)) M X ltac:(nia) ltac:(lia) HM ltac:(lia) Hnear 16445 eq_refl ltac:(lia) m e); [done | lia | done | done]. }
  assert (2 ^ (fp F - 1) <= m) as Hm.
  { apply (between_normal F _ _ m e HFs Q2 Hc Hb). rewrite <- pow2_add by lia. replace (M * 2 ^ Z.max X 0 * 2 ^ (- emin F)) with (M * (2 ^ Z.max X 0 * 2 ^ (- emin F))) by ring. rewrite <- pow2_add by lia.
    transitivity (2 ^ 63 * 2 ^ (Z.max X 0 + - emin F)); [rewrite <- pow2_add by lia; apply Z.pow_le_mono_r; lia | apply Z.mul_le_mono_nonneg_r; [apply Z.lt_le_incl, pow2_pos; lia | lia]]. }
  pose proof (pow2_pos (fp F - 1) ltac:(lia)). unfold bounded. destruct (Z.ltb_spec (emax F) e) as [Hov|Hfin].
  - right. rewrite encode_inf. assert (F = F_FLT) as ->.
    { destruct HF as [|EF]; [done|]. exfalso. subst F. enough (e <= emax F_DBL) by lia. apply (between_finite F_DBL (dval ds * pw q) (pw (- q)) m e); [done | lia | done | done|].
      apply Z.lt_le_trans with (1 * 2 ^ 200); [clear -V P2; nia|]. apply Z.mul_le_mono_nonneg; [lia | lia | lia | apply Z.pow_le_mono_r; cbn; lia]. }
    split_and!; [done | done|]. apply short_scale. exists m, e. split_and!; [done | done | unfold bounded; by rewrite (proj2 (Z.ltb_lt _ _)) |]. split; [by left | done].
  - left. rewrite encode_exact by (done || lia). apply short_scale. exists m, e. split_and!; [done | done | unfold bounded; by rewrite (proj2 (Z.ltb_ge _ _)) |]. split; [done|]. intros [?|[? _]]; lia.
Qed.
End Short.

(** ** The digits after the first 800 *)

(** No halfway point of float or double has 800 significant digits. *)
Lemma digits_clear F D h : F = F_FLT ∨ F = F_DBL → 10 ^ 799 <= D → 0 <= h → clear F D (D + 1) (10 ^ h).
Proof.
  intros HF HD Hh c t Hc Ht [A B]. assert (24 <= fp F <= 53 ∧ -1074 <= emin F ∧ emin F <= -149) as (Hp & He1 & He2) by (destruct HF as [-> | ->]; cbn; lia).
  assert (10 ^ h = 5 ^ h * 2 ^ h) as E10 by (rewrite <- Z.pow_mul_l; done). rewrite E10 in A, B. assert (0 < 5 ^ h) as P5 by (apply Z.pow_pos_nonneg; lia).
  replace (5 ^ h * 2 ^ h * (c * 2 ^ (t + 1 - emin F))) with (5 ^ h * c * (2 ^ h * 2 ^ (t + 1 - emin F))) in A, B by ring. rewrite <- pow2_add in A, B by lia. pose proof (pow2_pos (1 - emin F) ltac:(lia)) as PK.
  destruct (decide (0 <= t + h)) as [Hth|Hth].
  - replace (h + (t + 1 - emin F)) with (t + h + (1 - emin F)) in A, B by lia. rewrite pow2_add in A, B by lia. set (K := 2 ^ (1 - emin F)) in *. rewrite Z.mul_assoc in A, B.
    apply Z.mul_lt_mono_pos_r in A; [|done]. apply Z.mul_lt_mono_pos_r in B; [|done]. lia.
  - assert (2 ^ (h + (t + 1 - emin F)) <= 2 ^ (1 - emin F)) as E1 by (apply Z.pow_le_mono_r; lia). set (K := 2 ^ (1 - emin F)) in *. set (W := 2 ^ (h + (t + 1 - emin F))) in *.
    assert (5 ^ h * c <= 10 ^ 799) as E2.
    { transitivity (5 ^ (10 * 108) * 2 ^ 55).
      2: { rewrite Z.pow_mul_r by lia. transitivity ((10 ^ 7) ^ 108 * 10 ^ 17); [apply Z.mul_le_mono_nonneg; [apply Z.pow_nonneg; lia | apply Z.pow_le_mono_l; lia | lia | lia]|]. rewrite <- Z.pow_mul_r, <- Z.pow_add_r by lia. apply Z.pow_le_mono_r; lia. }
      apply Z.mul_le_mono_nonneg; [lia | apply Z.pow_le_mono_r; lia | lia|]. transitivity (2 ^ (fp F + 2)); [lia | apply Z.pow_le_mono_r; lia]. }
    assert (5 ^ h * c * W <= 10 ^ 799 * K) as E3 by (apply Z.mul_le_mono_nonneg; [apply Z.mul_nonneg_nonneg; lia | done | apply Z.lt_le_incl, pow2_pos; lia | done]).
    assert (10 ^ 799 * K <= D * K) as E4 by (apply Z.mul_le_mono_nonneg_r; [clear -PK; lia | exact HD]). clear -A E3 E4. lia.
Qed.

Lemma clear_inexact F a b g n d m e :
  std F → 0 < g → 0 < d → clear F a b g → canon F m e → a * d < n * g → n * g < b * d → n * 2 ^ (- emin F) ≠ m * (d * 2 ^ (e - emin F)).
Proof.
  intros HF Hg Hd Hcl (Hm & He & _) A B Heq. destruct (std_bounds F HF) as (Hp & Hemin & _). assert (2 ^ (fp F + 2) = 4 * 2 ^ fp F) as E4 by (rewrite pow2_add by lia; change (2 ^ 2) with 4; lia).
  apply (Hcl m e ltac:(lia) ltac:(lia)). replace (e + 1 - emin F) with (1 + (e - emin F)) by lia. replace (1 - emin F) with (1 + - emin F) by lia. rewrite !(pow2_add 1) by lia. change (2 ^ 1) with 2.
  pose proof (pow2_pos (- emin F) ltac:(lia)) as PK. set (K := 2 ^ (- emin F)) in *. set (W := 2 ^ (e - emin F)) in *. split; apply (Z.mul_lt_mono_pos_r d); try done.
  - replace (g * (m * (2 * W)) * d) with (2 * g * (m * (d * W))) by ring. rewrite <- Heq. replace (a * (2 * K) * d) with (a * d * (2 * K)) by ring. replace (2 * g * (n * K)) with (n * g * (2 * K)) by ring. apply Z.mul_lt_mono_pos_r; lia.
  - replace (g * (m * (2 * W)) * d) with (2 * g * (m * (d * W))) by ring. rewrite <- Heq. replace (b * (2 * K) * d) with (b * d * (2 * K)) by ring. replace (2 * g * (n * K)) with (n * g * (2 * K)) by ring. apply Z.mul_lt_mono_pos_r; lia.
Qed.

(** The same result for two fractions with no boundary between them. *)
Lemma rounds_clear F a b g n d n' d' neg r er :
  std F → 0 < g → 0 < d → 0 < d' → 0 < n' → clear F a b g → a * d < n * g → n * g < b * d → a * d' < n' * g → n' * g < b * d' →
  rounds F n d neg r er → rounds F n' d' neg r er.
Proof.
  intros HF Hg Hd Hd' Hn' Hcl A B A' B' (m & e & Hc & Hb & Hr & He). exists m, e. split_and!; [done | | done|].
  - by apply (clear_between F a b g n d n' d' m e).
  - rewrite He. unfold range_error. pose proof (clear_inexact F a b g n d m e HF Hg Hd Hcl Hc A B). pose proof (clear_inexact F a b g n' d' m e HF Hg Hd' Hcl Hc A' B'). tauto.
Qed.

(** ** The exact path *)

Section Exact.
Context (F : ffmt) (HF : std F) (ds : list Z) (q : Z) (Hs : significand ds) (Q e b r : Z) (rem : bool) (Hqo : quotient_of F ds q Q e rem b r).

Lemma rounds_round_to neg sticky den r' n d :
  0 < den → 0 <= r' < den → (sticky = true ↔ 0 < r') → n = (Q * den + r') * 2 ^ Z.max e 0 → d = den * 2 ^ Z.max (- e) 0 →
  rounds F n d neg (conv_num F (decode (fst (round_to Q e sticky F neg)))) (snd (round_to Q e sticky F neg)).
Proof using All.
  intros Hden Hr' Hst Hn Hd. destruct Hqo as [_ _ _ HQ _]. destruct (std_bounds F HF) as (Hp & _). pose proof (pow2_pos (fp F + 1) ltac:(lia)).
  assert (2 ^ fp F <= 2 ^ (fp F + 1)) by (apply Z.pow_le_mono_r; lia). assert (2 ^ 67 < 2 ^ 128) by done.
  pose proof (round_to_ok F Q e sticky neg den r' n d HF ltac:(lia) Hden Hr' Hst ltac:(lia) Hn Hd) as H'. destruct (round_to Q e sticky F neg) as [l er]. cbn [fst snd]. exact H'.
Qed.

Lemma exact_short_ok neg n d : truth ds q false n d → rounds F n d neg (conv_num F (decode (fst (round_to Q e rem F neg)))) (snd (round_to Q e rem F neg)).
Proof using All.
  intros [Hd Ht]. cbn in Ht. destruct Hqo as [Hb Hr Hrem _ Hval]. assert (0 < b) as Hb0 by lia.
  refine (rounds_scale F ((Q * b + r) * 2 ^ Z.max e 0) (b * 2 ^ Z.max (- e) 0) n d _ Hd _ neg _ _ (rounds_round_to neg rem b r _ _ Hb0 Hr Hrem eq_refl eq_refl)).
  - apply Z.mul_pos_pos; [done | apply pow2_pos; lia].
  - rewrite Hval, Hb. transitivity (d * (dval ds * pw q) * (2 ^ Z.max (- e) 0 * 2 ^ Z.max e 0)); [ring|]. rewrite <- Ht. ring.
Qed.

Lemma exact_long_ok neg n d : F = F_FLT ∨ F = F_DBL → q + Z.of_nat (length ds) <= dmax F → truth ds q true n d →
  rounds F n d neg (conv_num F (decode (fst (round_to Q e true F neg)))) (snd (round_to Q e true F neg)).
Proof using All.
  intros HF2 Hmax [Hd (k & Hk & Hlk & A & B)]. destruct (significand_range ds Hs) as [V1 _]. destruct Hqo as [Hb Hr Hrem _ Hval]. assert (0 < b) as Hb0 by lia. unfold MAX_DIGITS in Hlk.
  set (D := dval ds * 10 ^ k) in *. set (h := k - q). assert (0 <= h) as Hh by (unfold h; destruct HF2 as [EF | EF]; rewrite EF in Hmax; cbn in Hmax; lia).
  assert (pw (q - k) = 1 ∧ pw (- (q - k)) = 10 ^ h) as [E1 E2] by (unfold pw; rewrite Z.max_r, Z.max_l by lia; split; [done | f_equal; lia]). rewrite E1, E2 in A, B.
  assert (10 ^ 799 <= D) as HD.
  { unfold D. transitivity (10 ^ (Z.of_nat (length ds) - 1) * 10 ^ k); [|apply Z.mul_le_mono_nonneg_r; [apply Z.pow_nonneg; lia | done]]. rewrite <- Z.pow_add_r by first [lia | destruct Hs as (_ & Hne & _); destruct ds; [done | cbn [length]; lia]]. apply Z.pow_le_mono_r; lia. }
  assert (0 < 10 ^ h) as Pg by (apply Z.pow_pos_nonneg; lia). assert (0 < 10 ^ k) as Pk by (apply Z.pow_pos_nonneg; lia).
  assert (10 ^ k * pw (- q) = 10 ^ h * pw q) as E3 by (unfold pw; rewrite <- !Z.pow_add_r by lia; f_equal; lia).
  pose proof (pw_pos q) as Pq. pose proof (pow2_pos (Z.max e 0) ltac:(lia)) as Pe. pose proof (pow2_pos (Z.max (- e) 0) ltac:(lia)) as Pe'.
  set (T := 2 * 10 ^ k). set (n1 := (Q * (T * b) + (T * r + 1)) * 2 ^ Z.max e 0). set (d1 := T * b * 2 ^ Z.max (- e) 0).
  assert (0 < T) as HT by (unfold T; lia). assert (0 < d1) as Hd1 by (apply Z.mul_pos_pos; [by apply Z.mul_pos_pos | done]).
  assert (0 <= T * r + 1 < T * b) as Hr1 by (clear -HT Hr Pk; unfold T in *; nia).
  assert (n1 * 10 ^ h = D * d1 + 2 ^ Z.max e 0 * 10 ^ h) as En.
  { unfold n1, d1, D. rewrite Hb. replace (Q * (T * (pw (- q) * 2 ^ Z.max e 0)) + (T * r + 1)) with (T * (Q * (pw (- q) * 2 ^ Z.max e 0) + r) + 1) by ring. rewrite <- Hb, Hval, Hb.
    transitivity (T * dval ds * (10 ^ h * pw q) * (2 ^ Z.max (- e) 0 * 2 ^ Z.max e 0) + 2 ^ Z.max e 0 * 10 ^ h); [ring|]. rewrite <- E3. ring. }
  refine (rounds_clear F D (D + 1) (10 ^ h) n1 d1 n d neg _ _ HF Pg Hd1 Hd _ (digits_clear F D h HF2 HD Hh) _ _ _ _ (rounds_round_to neg true (T * b) (T * r + 1) n1 d1 _ Hr1 _ eq_refl eq_refl)).
  - assert (0 < n * 10 ^ h) as H0; [|clear -H0 Pg; nia]. eapply Z.le_lt_trans; [|exact A]. apply Z.mul_nonneg_nonneg; [|lia]. apply Z.mul_nonneg_nonneg; [lia|]. transitivity (10 ^ 799); [apply Z.pow_nonneg; lia | exact HD].
  - rewrite En. pose proof (Z.mul_pos_pos _ _ Pe Pg). clear -H. lia.
  - rewrite En. enough (2 ^ Z.max e 0 * 10 ^ h < d1) as Hlt by (clear -Hlt; lia). unfold d1, T. rewrite Hb.
    replace (2 * 10 ^ k * (pw (- q) * 2 ^ Z.max e 0) * 2 ^ Z.max (- e) 0) with (2 * (10 ^ k * pw (- q)) * 2 ^ Z.max e 0 * 2 ^ Z.max (- e) 0) by ring. rewrite E3.
    replace (2 * (10 ^ h * pw q) * 2 ^ Z.max e 0 * 2 ^ Z.max (- e) 0) with (2 * (pw q * 2 ^ Z.max (- e) 0) * (2 ^ Z.max e 0 * 10 ^ h)) by ring. pose proof (Z.mul_pos_pos _ _ Pe Pg). pose proof (Z.mul_pos_pos _ _ Pq Pe'). clear -H H0. nia.
  - rewrite (Z.mul_comm D d). replace (d * D) with (d * D * 1) by ring. exact A.
  - rewrite (Z.mul_comm (D + 1) d). replace (d * (D + 1)) with (d * (D + 1) * 1) by ring. exact B.
  - by apply Z.mul_pos_pos.
  - split; [intros _; lia | done].
Qed.
End Exact.

(** ** decimal *)

Theorem decimal_ok F ds q sticky neg n d :
  std F → significand ds → truth ds q sticky n d →
  wp (decimal ds q sticky F neg) (λ x, (sticky = true → F ≠ F_LDBL) → let r := conv_num F (decode (fst x)) in
    rounds F n d neg r (snd x) ∨ (F = F_FLT ∧ (length ds <= 19)%nat ∧ r = Num neg Inf ∧ snd x = false ∧ rounds F n d neg r true)).
Proof.
  intros HF Hs Ht. pose proof (significand_range ds Hs) as [V1 V2]. pose proof Hs as (Hdig & Hne & _ & Hlen). set (nd := Z.of_nat (length ds)) in *. assert (1 <= nd) as Hnd by (unfold nd; destruct ds; [done | cbn [length]; lia]).
  assert (0 < dval ds) as V0 by (pose proof (Z.pow_pos_nonneg 10 (nd - 1) ltac:(lia) ltac:(lia)); lia). pose proof Ht as [Hd Ht'].
  (* the magnitude *)
  assert (0 < n ∧ d * pw (q + nd - 1) <= n * pw (- (q + nd - 1)) ∧ n * pw (- (q + nd)) < d * pw (q + nd)) as (Hn & M1 & M2).
  { assert (d * pw (q + nd - 1) <= n * pw (- (q + nd - 1)) ∧ n * pw (- (q + nd)) < d * pw (q + nd)) as [M1 M2].
    { destruct sticky.
      - destruct Ht' as (k & Hk & Hlk & A & B). fold nd in Hlk. pose proof (magnitude (dval ds * 10 ^ k) (q - k) (nd + k) n d Hd ltac:(lia)) as Hm. replace (q - k + (nd + k)) with (q + nd) in Hm by lia. apply Hm; [|split; [by apply Z.lt_le_incl | done]].
        replace (nd + k - 1) with (nd - 1 + k) by lia. rewrite !Z.pow_add_r by lia. pose proof (Z.pow_pos_nonneg 10 k ltac:(lia) Hk) as P. split; [apply Z.mul_le_mono_nonneg_r; lia | apply Z.mul_lt_mono_pos_r; lia].
      - apply (magnitude (dval ds) q nd n d); [done | done | done|]. rewrite Ht'. pose proof (pw_pos q) as P. clear -P Hd. split; [lia|]. replace (d * (dval ds + 1) * pw q) with (d * (dval ds * pw q) + d * pw q) by ring. nia. }
    split_and!; [|done | done]. pose proof (pw_pos (q + nd - 1)) as P1. pose proof (pw_pos (- (q + nd - 1))) as P2. clear -M1 P1 P2 Hd. nia. }
  destruct (std_limits F HF) as (L1 & L2 & L3 & L4). destruct (std_bounds F HF) as (Hp & Hemin & _). unfold decimal. fold nd. destruct (Z.eqb_spec nd 0); [lia|].
  destruct (Z.ltb_spec (dmax F) (q + nd)) as [Hov|Hmax].
  { apply wp_ok. intros Hst. left. cbn [fst snd]. rewrite decode_inf. destruct (overflow_ok F n d HF Hn Hd) as (m & e & Hc & Hb & He).
    - pose proof (pw_below n d (q + nd - 1) (dmax F) Hd ltac:(lia) M1) as H. rewrite L2, Z.mul_1_r in H. etrans; [|exact H]. apply Z.mul_le_mono_nonneg_l; lia.
    - exists m, e. split_and!; [done | done | unfold bounded; by rewrite (proj2 (Z.ltb_lt _ _)) |]. split; [by left | done]. }
  destruct (Z.ltb_spec (q + nd) (dmin F)) as [Hun|Hmin].
  { apply wp_ok. intros Hst. left. cbn [fst snd]. assert (emin F <= emax F) as Hee by (clear -HF; destruct HF as [-> |[-> | ->]]; cbn; lia). destruct (underflow_ok F n d HF Hn Hd) as [Hc Hb].
    - pose proof (pw_above n d (q + nd) (dmin F - 1) Hd ltac:(lia) M2) as H. rewrite L4, Z.mul_1_r in H. replace (- (dmin F - 1)) with (1 - dmin F) in H by lia. eapply Z.le_lt_trans; [|exact H]. apply Z.mul_le_mono_nonneg_l; lia.
    - exists 0, (emin F). split_and!; [done | done | |].
      + change (make_ld 0 0 neg) with (make_ld 0 (emin F) neg). rewrite make_ld_exact by done. unfold bounded. by rewrite (proj2 (Z.ltb_ge _ _)).
      + split; [|done]. intros _. right. split; [apply pow2_pos; lia|]. rewrite Z.mul_0_l. pose proof (pow2_pos (- emin F) ltac:(lia)). clear -H Hn. nia. }
  destruct (bool_decide (F = F_DBL) && (nd <=? 15) && negb sticky && (-22 <=? q) && (q <=? 22)) eqn:Efast.
  { rewrite !andb_true_iff, bool_decide_eq_true, !Z.leb_le, negb_true_iff in Efast. destruct Efast as ((((-> & H15) & ->) & Hq1) & Hq2). apply wp_ok. intros Hst. left. cbn [fst snd]. apply fast_path_ok; [done | done | lia | lia]. }
  destruct (if negb (bool_decide (F = F_LDBL)) && _ && _ && _ && _ then _ else None) as [l|] eqn:Emid.
  { destruct (negb (bool_decide (F = F_LDBL)) && (nd <=? 19) && negb sticky && (-27 <=? q) && (q <=? 27)) eqn:Ec; [|done].
    rewrite !andb_true_iff, !negb_true_iff, bool_decide_eq_false, !Z.leb_le in Ec. destruct Ec as ((((HnL & H19) & ->) & Hq1) & Hq2). apply wp_ok. intros Hst. cbn [fst snd].
    destruct (middle_path_ok ds q n d Hs Ht F neg l) as [H|(-> & H1 & H2)]; [destruct HF as [?|[?|?]]; [by left | by right | done] | lia | lia | done | by left|]. right. split_and!; [done | lia | done | done | done]. }
  clear Efast Emid. apply wp_bind. eapply wp_mono; [apply exact_path_ok; [done | done | fold nd; lia]|]. intros [[Q e] rem] (b & r & Hqo). apply wp_ok. intros Hst. left. destruct sticky; cbn [orb].
  - apply (exact_long_ok F HF ds q Hs Q e b r rem Hqo neg n d); [destruct HF as [?|[?|?]]; [by left | by right | by destruct Hst] | fold nd; lia | done].
  - by apply (exact_short_ok F HF ds q Hs Q e b r rem Hqo neg n d).
Qed.
