(* ===== verification/Strtodspec.v ===== *)
(** * strtod: the subject sequence and its value

    [subject] says what a string denotes: the longest initial part that has
    the form of a number, with the exact value of all its digits and of its
    whole exponent. The parser of src/src/strtod.c keeps 800 digits (124 bits)
    and an exponent of at most ten digits, and returns the correctly rounded
    value all the same. *)
From S2P Require Import Prelude Lit Ctype Fpround Bigint Strtod Strtodround.

(** ** What a string denotes *)

Fixpoint span (f : Z → bool) (s : list Z) : list Z * list Z :=
  match s with c :: s' => if f c then (let '(a, r) := span f s' in (c :: a, r)) else ([], s) | [] => ([], []) end.

Definition is_dec (c : Z) : bool := (48 <=? c) && (c <? 58).

Definition hex_of (c : Z) : Z :=
  if is_dec c then c - 48
  else if (97 <=? c) && (c <? 103) then c - 87
  else if (65 <=? c) && (c <? 71) then c - 55
  else -1.

Definition is_hex (c : Z) : bool := 0 <=? hex_of c.

(** The number written in hexadecimal. *)
Definition hval : list Z → Z := nval 16 hex_of.

Definition opt_sign (s : list Z) : bool * list Z :=
  match s with c :: r => if c =? 43 then (false, r) else if c =? 45 then (true, r) else (false, s) | [] => (false, []) end.

(** Digits with an optional point: those before it, those after it. *)
Definition mantissa (f : Z → bool) (s : list Z) : list Z * list Z * list Z :=
  let '(ip, r) := span f s in
  match r with c :: r' => if c =? 46 then (let '(fr, r) := span f r' in (ip, fr, r)) else (ip, [], r) | [] => (ip, [], []) end.

Definition exp_part (letter : Z) (s : list Z) : Z * list Z :=
  match s with
  | c :: r =>
      if (c =? letter) || (c =? letter - 32) then
        let '(neg, r) := opt_sign r in
        let '(xs, r) := span is_dec r in
        match xs with [] => (0, s) | _ => (if neg then - dval xs else dval xs, r) end
      else (0, s)
  | [] => (0, [])
  end.

(** The word at the start of the string, in any case. *)
Fixpoint word_ci (w s : list Z) : option (list Z) :=
  match w, s with
  | [], _ => Some s
  | a :: w, c :: s => if (c =? a) || (c =? a - 32) then word_ci w s else None
  | _ :: _, [] => None
  end.

(** The number [digits] * 10^[q] or * 2^[q]. *)
Inductive denotes := DInf | DNan | DDec (ds : list Z) (q : Z) | DHex (ds : list Z) (q : Z).

Definition nan_chars (s : list Z) : list Z :=
  match s with
  | c :: r =>
      if c =? 40 then
        let '(_, r) := span (λ c, isalnum c || (c =? 95)) r in
        match r with c :: r => if c =? 41 then r else s | [] => s end
      else s
  | [] => s
  end.

Definition hex_subject (s : list Z) : option (denotes * list Z) :=
  match s with
  | c0 :: c1 :: r =>
      if (c0 =? 48) && ((c1 =? 120) || (c1 =? 88)) then
        let '(ip, fr, r) := mantissa is_hex r in
        match ip ++ fr with
        | [] => None
        | ds => let '(x, r) := exp_part 112 r in Some (DHex ds (x - 4 * Z.of_nat (length fr)), r)
        end
      else None
  | _ => None
  end.

Definition dec_subject (s : list Z) : option (denotes * list Z) :=
  let '(ip, fr, r) := mantissa is_dec s in
  match ip ++ fr with
  | [] => None
  | ds => let '(x, r) := exp_part 101 r in Some (DDec ds (x - Z.of_nat (length fr)), r)
  end.

(** The sign, the value and the rest of the string. *)
Definition subject (s : list Z) : option (bool * denotes * list Z) :=
  let '(_, s) := span isspace s in
  let '(neg, s) := opt_sign s in
  match word_ci (lit "inf") s with
  | Some r => Some (neg, DInf, match word_ci (lit "inity") r with Some r => r | None => r end)
  | None =>
      match word_ci (lit "nan") s with
      | Some r => Some (neg, DNan, nan_chars r)
      | None =>
          match hex_subject s with
          | Some (v, r) => Some (neg, v, r)
          | None => match dec_subject s with Some (v, r) => Some (neg, v, r) | None => None end
          end
      end
  end.

(** ** Bytes and chars *)

Lemma dec_byte c : is_byte c → dec (s8 c) = is_dec c.
Proof. intros Hc. apply eqb_prop. revert c Hc. apply (byte_forall (λ c, eqb (dec (s8 c)) (is_dec c))). vm_compute. reflexivity. Qed.

Lemma dec_char c : is_byte c → is_dec c = true → s8 c = c ∧ digit c.
Proof.
  unfold is_dec, digit. rewrite andb_true_iff, Z.leb_le, Z.ltb_lt. intros Hc Hd. split; [|lia]. apply swrap_small; lia.
Qed.

Lemma hex_byte c : is_byte c → hex_val (s8 c) = if is_hex c then Some (hex_of c) else None.
Proof.
  intros Hc. enough (bool_decide (hex_val (s8 c) = if is_hex c then Some (hex_of c) else None) = true) as H by (by apply bool_decide_eq_true in H).
  revert c Hc. apply (byte_forall (λ c, bool_decide (hex_val (s8 c) = if is_hex c then Some (hex_of c) else None))). vm_compute. reflexivity.
Qed.

(** A char equal to an ASCII character, also with the case bit. *)
Lemma char_eq a c : 0 <= a < 128 → is_byte c → (s8 c =? a) = (c =? a).
Proof. intros Ha Hc. unfold is_byte in Hc. unfold swrap. apply eq_true_iff_eq. rewrite !Z.eqb_eq. destruct (decide (c < 128)). 
  - rewrite Z.mod_small by lia. lia.
  - replace (c + 2 ^ (8 - 1)) with (c - 128 + 1 * 2 ^ 8) by lia. rewrite Z.mod_add, Z.mod_small by lia. lia.
Qed.

Lemma char_ci a c : In a (lit "infatynpxe") → is_byte c → (Z.lor (s8 c) 32 =? a) = (c =? a) || (c =? a - 32).
Proof.
  intros Ha Hc. apply eqb_prop. revert c Hc. enough (forallb (λ a, forallb (λ c, eqb (Z.lor (s8 c) 32 =? a) ((c =? a) || (c =? a - 32))) (Z.of_nat <$> seq 0 256)) (lit "infatynpxe") = true) as H.
  - rewrite forallb_forall in H. specialize (H a Ha). rewrite forallb_forall in H. intros c Hc. apply H. unfold is_byte in Hc. rewrite <- (Z2Nat.id c) by lia. apply in_map. apply in_seq. lia.
  - vm_compute. reflexivity.
Qed.

Definition bytes (s : list Z) : Prop := Forall is_byte s.

Lemma bytes_tail s : bytes s → bytes (tail s).
Proof. destruct 1; [constructor | done]. Qed.

Lemma bytes_nth s i : bytes s → is_byte (nth i s 0).
Proof. intros Hs. revert i. induction Hs as [|c s Hc Hs IH]; intros [|i]; cbn [nth]; try done; unfold is_byte; lia. Qed.

Lemma ch_eq a s i : 0 <= a < 128 → bytes s → (ch s i =? a) = (nth i s 0 =? a).
Proof. intros Ha Hs. apply char_eq; [done | by apply bytes_nth]. Qed.

(** ** The pieces of the parser *)

Lemma skip_while_ok f s : skip_while f s = snd (span f s).
Proof. induction s as [|c s IH]; [done|]. cbn [skip_while span]. rewrite IH. destruct (f c); [|done]. by destruct (span f s). Qed.

Lemma span_ok f s : let '(a, r) := span f s in s = a ++ r ∧ Forall (λ c, f c = true) a.
Proof. induction s as [|c s IH]; cbn [span]; [done|]. destruct (f c) eqn:E; [|done]. destruct (span f s) as [a r]. destruct IH as [-> H]. split; [done | by constructor]. Qed.

Lemma bytes_span f s : bytes s → bytes (fst (span f s)) ∧ bytes (snd (span f s)).
Proof. intros Hs. pose proof (span_ok f s) as H. destruct (span f s) as [a r]. destruct H as [-> _]. by apply Forall_app in Hs. Qed.

Lemma sign_ok s : bytes s → sign s = opt_sign s.
Proof.
  intros Hs. unfold sign. rewrite !ch_eq by (done || lia). destruct s as [|c s]; cbn [nth tail opt_sign]; [done|]. destruct (Z.eqb_spec c 43) as [->|]; [done|]. by destruct (Z.eqb_spec c 45).
Qed.

Lemma bytes_sign s : bytes s → bytes (snd (opt_sign s)).
Proof. destruct 1 as [|c s Hc Hs]; [constructor|]. cbn [opt_sign]. destruct (c =? 43); [done|]. destruct (c =? 45); [done | by constructor]. Qed.

Lemma ci_loop_ok w s : Forall (λ a, In a (lit "infatynpxe")) w → bytes s →
  if ci_loop s w then word_ci w s = Some (drop (length w) s) else word_ci w s = None.
Proof.
  intros Hw. revert s. induction Hw as [|a w Ha Hw IH]; intros s Hs; cbn [ci_loop word_ci length]; [by rewrite drop_0|].
  unfold ch. rewrite char_ci by (done || by apply bytes_nth). destruct s as [|c s]; cbn [nth tail drop].
  - assert ((0 =? a) || (0 =? a - 32) = false) as ->; [|done]. assert (forallb (λ a, negb ((0 =? a) || (0 =? a - 32))) (lit "infatynpxe") = true) as H by (vm_compute; reflexivity).
    rewrite forallb_forall in H. specialize (H a Ha). by apply negb_true_iff in H.
  - destruct ((c =? a) || (c =? a - 32)); cbn [negb]; [|done]. apply IH. by apply Forall_cons in Hs as [_ ?].
Qed.

Lemma ci_prefix_ok w s : w ≠ [] → Forall (λ a, In a (lit "infatynpxe")) w → bytes s →
  match word_ci w s with Some r => ci_prefix s w = length w ∧ r = drop (length w) s | None => ci_prefix s w = 0%nat end.
Proof. intros Hne Hw Hs. pose proof (ci_loop_ok w s Hw Hs) as H. unfold ci_prefix. destruct (ci_loop s w); rewrite H; done. Qed.

Lemma words_ok : Forall (λ a, In a (lit "infatynpxe")) (lit "inf") ∧ Forall (λ a, In a (lit "infatynpxe")) (lit "inity") ∧ Forall (λ a, In a (lit "infatynpxe")) (lit "nan").
Proof. split_and!; apply Forall_forall; intros a Ha; apply list_elem_of_In in Ha; vm_compute in Ha |- *; intuition. Qed.

(** *** The exponent *)

Lemma clamp_ok xs : Forall digit xs → ∀ x, 0 <= x →
  let y := fold_left (λ x c, if x <? 100000000 then x * 10 + (c - 48) else x) xs x in let z := fold_left (λ x c, x * 10 + (c - 48)) xs x in
  0 <= y ∧ (y = z ∨ (100000000 <= y ∧ 100000000 <= z)).
Proof.
  cbv zeta. induction 1 as [|c xs Hc Hxs IH]; intros x Hx; cbn [fold_left]; [split; [done | by left]|]. unfold digit in Hc. destruct (Z.ltb_spec x 100000000) as [Hlt|Hge]; [apply IH; lia|].
  assert (∀ xs x, Forall digit xs → 100000000 <= x → 100000000 <= fold_left (λ x c, x * 10 + (c - 48)) xs x ∧ 100000000 <= fold_left (λ x c, if x <? 100000000 then x * 10 + (c - 48) else x) xs x) as H.
  { clear. induction xs as [|c xs IH]; intros x Hd Hx; cbn [fold_left]; [done|]. apply Forall_cons in Hd as [Hc Hd]. unfold digit in Hc. rewrite (proj2 (Z.ltb_ge _ _)) by done. split; [apply (IH (x * 10 + (c - 48))); [done | lia] | by apply (IH x)]. }
  destruct (H xs x Hxs Hge) as [_ H1]. destruct (H xs (x * 10 + (c - 48)) Hxs ltac:(lia)) as [H2 _]. split; [lia | by right].
Qed.

Lemma exp_digits_ok s x : bytes s → exp_digits s x = (fold_left (λ x c, if x <? 100000000 then x * 10 + (c - 48) else x) (fst (span is_dec s)) x, snd (span is_dec s)).
Proof.
  intros Hs. revert x. induction Hs as [|c s Hc Hs IH]; intros x; cbn [exp_digits span]; [done|]. rewrite dec_byte by done. destruct (is_dec c) eqn:E; [|done]. rewrite IH. destruct (dec_char c Hc E) as [-> _]. by destruct (span is_dec s).
Qed.

Lemma digits_span s : bytes s → Forall digit (fst (span is_dec s)).
Proof.
  intros Hs. pose proof (bytes_span is_dec s Hs) as [H1 _]. pose proof (span_ok is_dec s) as H2. destruct (span is_dec s) as [a r]. destruct H2 as [_ H2]. cbn [fst] in *.
  apply Forall_forall. intros c Hc. unfold bytes in H1. rewrite Forall_forall in H1, H2. by apply dec_char; [apply H1 | apply H2].
Qed.

(** The exponent the code uses and the one written. *)
Definition clamped (x x' : Z) : Prop := x = x' ∨ (100000000 <= x ∧ 100000000 <= x') ∨ (x <= -100000000 ∧ x' <= -100000000).

Lemma exponent_ok letter s : In letter (lit "pe") → bytes s →
  snd (exponent letter s) = snd (exp_part letter s) ∧ clamped (fst (exponent letter s)) (fst (exp_part letter s)) ∧ bytes (snd (exp_part letter s)).
Proof.
  intros Hl Hs. assert (In letter (lit "infatynpxe")) as Hl' by (vm_compute in Hl |- *; intuition). unfold exponent, ch. rewrite char_ci by (done || by apply bytes_nth).
  destruct s as [|c s]; cbn [nth tail exp_part].
  { assert ((0 =? letter) || (0 =? letter - 32) = false) as -> by (vm_compute in Hl; destruct Hl as [<-|[<-|[]]]; done). split_and!; [done | by left | constructor]. }
  pose proof Hs as Hcs. apply Forall_cons in Hs as [Hc Hs]. destruct ((c =? letter) || (c =? letter - 32)); [|split_and!; [done | by left | done]].
  rewrite sign_ok by done. pose proof (bytes_sign s Hs) as Hp. destruct (opt_sign s) as [eneg p]. cbn [snd] in Hp. rewrite exp_digits_ok by done. pose proof (digits_span p Hp) as Hd. pose proof (bytes_span is_dec p Hp) as [_ Hr].
  destruct p as [|c' p]; [split_and!; [done | by left | done]|]. apply Forall_cons in Hp as [Hc' Hp]. cbn [nth]. rewrite dec_byte by done. cbn [span] in *. destruct (is_dec c'); [|split_and!; [done | by left | done]].
  destruct (span is_dec p) as [xs r]. cbn [fst snd] in *. split_and!; [done | | done]. pose proof (clamp_ok _ Hd 0 ltac:(lia)) as H. cbv zeta in H. fold (dval (c' :: xs)). change (dval (c' :: xs)) with (fold_left (λ x c, x * 10 + (c - 48)) (c' :: xs) 0).
  set (y := fold_left _ (c' :: xs) 0) in *. set (z := fold_left (λ x c, x * 10 + (c - 48)) (c' :: xs) 0) in *. clearbody y z. unfold clamped. destruct eneg; lia.
Qed.

(** *** The digits *)

(** A loop over digits with at most one point, and what it keeps: [Inv A k]
    after the digits [A], the last [k] of them after the point. *)
Section Mantissa.
Context {St : Type} (loop : list Z → St → list Z * St) (f : Z → bool) (dot : St → bool) (set_dot : St → St) (step : St → Z → St) (Inv : list Z → nat → St → Prop).
Context (Hnil : ∀ st, loop [] st = ([], st)) (Hf : f 46 = false).
Context (Hcons : ∀ c s st, is_byte c → loop (c :: s) st = if (c =? 46) && negb (dot st) then loop s (set_dot st) else if f c then loop s (step st c) else (c :: s, st)).
Context (Hstep : ∀ c A k st, is_byte c → f c = true → Inv A k st → Inv (A ++ [c]) (if dot st then S k else k) (step st c)).
Context (Hdot : ∀ c st, dot (step st c) = dot st) (Hset : ∀ A st, Inv A 0 st → Inv A 0 (set_dot st)) (Hset' : ∀ st, dot (set_dot st) = true).

Lemma fraction_loop s : bytes s → ∀ A k st, dot st = true → Inv A k st →
  ∃ st', loop s st = (snd (span f s), st') ∧ Inv (A ++ fst (span f s)) (k + length (fst (span f s))) st'.
Proof using All.
  induction 1 as [|c s Hc Hs IH]; intros A k st Hd Hi; cbn [span].
  - exists st. rewrite Hnil. cbn [fst snd length]. by rewrite app_nil_r, Nat.add_0_r.
  - rewrite Hcons by done. rewrite Hd. rewrite andb_false_r. destruct (f c) eqn:E.
    + destruct (IH (A ++ [c]) (S k) (step st c)) as (st' & E1 & E2); [by rewrite Hdot | pose proof (Hstep c A k st Hc E Hi) as H; by rewrite Hd in H |].
      exists st'. destruct (span f s) as [a r]. cbn [fst snd length] in *. rewrite E1. split; [done|]. rewrite <- app_assoc in E2. cbn [app] in E2. by rewrite Nat.add_succ_r.
    + exists st. cbn [fst snd length]. by rewrite app_nil_r, Nat.add_0_r.
Qed.

Lemma mantissa_loop s : bytes s → ∀ A st, dot st = false → Inv A 0 st →
  let '(ip, fr, r) := mantissa f s in ∃ st', loop s st = (r, st') ∧ Inv (A ++ ip ++ fr) (length fr) st'.
Proof using All.
  unfold mantissa. induction 1 as [|c s Hc Hs IH]; intros A st Hd Hi; cbn [span].
  - exists st. rewrite Hnil. cbn [app length]. by rewrite app_nil_r.
  - rewrite Hcons by done. rewrite Hd. cbn [negb]. rewrite andb_true_r. destruct (Z.eqb_spec c 46) as [->|Hne].
    + rewrite Hf. cbn [Z.eqb Pos.eqb]. destruct (fraction_loop s Hs A 0 (set_dot st)) as (st' & E1 & E2); [done | by apply Hset|]. destruct (span f s) as [fr r]. by exists st'.
    + destruct (f c) eqn:E.
      * specialize (IH (A ++ [c]) (step st c)). destruct (span f s) as [a r]. rewrite Hdot in IH. specialize (IH Hd). pose proof (Hstep c A 0 st Hc E Hi) as H. rewrite Hd in H. specialize (IH H).
        destruct r as [|c' r]; [destruct IH as (st' & E1 & E2); exists st'; rewrite <- app_assoc in E2; done|]. destruct (c' =? 46).
        -- destruct (span f r) as [fr r']. destruct IH as (st' & E1 & E2). exists st'. rewrite <- app_assoc in E2. done.
        -- destruct IH as (st' & E1 & E2). exists st'. rewrite <- app_assoc in E2. done.
      * rewrite (proj2 (Z.eqb_neq _ _)) by done. exists st. cbn [app length]. by rewrite app_nil_r.
Qed.
End Mantissa.

(** The digits from the first one that is not zero on. *)
Lemma skip_snoc z A c : skip_while z (A ++ [c]) = match skip_while z A with [] => if z c then [] else [c] | B => B ++ [c] end.
Proof. induction A as [|a A IH]; cbn [app skip_while]; [done|]. destruct (z a); [exact IH | done]. Qed.

Lemma skip_head z A : match skip_while z A with [] => True | c :: _ => z c = false end.
Proof. induction A as [|a A IH]; cbn [skip_while]; [done|]. destruct (z a) eqn:E; [exact IH | done]. Qed.

Lemma skip_suffix z A : ∃ Z0, A = Z0 ++ skip_while z A ∧ Forall (λ c, z c = true) Z0.
Proof. induction A as [|a A (Z0 & IH & HZ)]; cbn [skip_while]; [by exists []|]. destruct (z a) eqn:E; [|by exists []]. exists (a :: Z0). cbn [app]. rewrite <- IH. split; [done | by constructor]. Qed.

Definition is_zero (c : Z) : bool := c =? 48.

Definition dec_inv (A : list Z) (k : nat) (st : dst) : Prop :=
  let B := skip_while is_zero A in
  d_digits st = take MAX_DIGITS B ∧ d_sticky st = existsb (λ c, negb (c - 48 =? 0)) (drop MAX_DIGITS B) ∧
  d_any st = negb (length A =? 0)%nat ∧ d_q st = Z.of_nat (length (drop MAX_DIGITS B)) - Z.of_nat k.

Lemma dec_step c A k st : dec_inv A k st → dec_inv (A ++ [c]) (if d_dot st then S k else k) (dec_digit st c).
Proof.
  unfold dec_inv. destruct st as [ds sticky dt any q]. cbn [d_digits d_sticky d_dot d_any d_q]. intros (H1 & H2 & H3 & H4). rewrite skip_snoc. set (B := skip_while is_zero A) in *. unfold dec_digit.
  assert ((length (A ++ [c]) =? 0)%nat = false) as Hany by (rewrite length_app; cbn [length]; apply Nat.eqb_neq; lia).
  assert (0 < MAX_DIGITS)%nat as Hpos by (unfold MAX_DIGITS; lia). assert (length ds = (MAX_DIGITS `min` length B)%nat) as Hlen by (by rewrite H1, length_take).
  destruct (Nat.eqb_spec (length ds) 0) as [Hz|Hz].
  - assert (B = []) as -> by (destruct B; [done | cbn [length] in Hlen; lia]). rewrite take_nil, drop_nil in *. cbn [existsb length] in *. rewrite H1, H2. fold (is_zero c). destruct (is_zero c); cbn [andb d_digits d_sticky d_dot d_any d_q].
    + rewrite take_nil, drop_nil, Hany. cbn [existsb length]. split_and!; [done | done | done | destruct dt; lia].
    + cbn [length]. rewrite (proj2 (Nat.ltb_lt _ _)) by done. cbn [d_digits d_sticky d_dot d_any d_q app]. rewrite take_ge, drop_ge, Hany by (cbn [length]; lia). cbn [existsb length]. split_and!; [done | done | done | destruct dt; lia].
  - rewrite andb_false_r. assert (B ≠ []) as HB by (intros E; rewrite E in Hlen; cbn [length] in Hlen; lia). clearbody B. destruct B as [|b B']; [done|]. set (B := b :: B') in *.
    destruct (Nat.ltb_spec (length ds) MAX_DIGITS) as [Hlt|Hge]; cbn [d_digits d_sticky d_dot d_any d_q]; rewrite Hany.
    + rewrite take_ge in H1 by lia. rewrite drop_ge in H2, H4 by lia. rewrite take_ge, drop_ge by (rewrite length_app; cbn [length]; lia). cbn [existsb length] in *. split_and!; [by rewrite H1 | done | done | destruct dt; lia].
    + rewrite take_app_le, drop_app_le by lia. rewrite existsb_app, length_app. cbn [existsb length]. rewrite orb_false_r. split_and!; [done | | done | destruct dt; lia].
      rewrite H2. f_equal. f_equal. apply eq_true_iff_eq. rewrite !Z.eqb_eq. lia.
Qed.

(** What the loop has read, for the whole mantissa. *)
Lemma dec_loop_ok s : bytes s → let '(ip, fr, r) := mantissa is_dec s in ∃ st, dec_loop s (Dst [] false false false 0) = (r, st) ∧ dec_inv (ip ++ fr) (length fr) st.
Proof.
  intros Hs. refine (mantissa_loop dec_loop is_dec d_dot (λ st, Dst (d_digits st) (d_sticky st) true (d_any st) (d_q st)) (λ st c, dec_digit st (s8 c)) dec_inv _ _ _ _ _ _ _ s Hs [] (Dst [] false false false 0) eq_refl _); try done.
  - intros c r st Hc. cbn [dec_loop]. rewrite char_eq, dec_byte by (done || lia). by destruct (is_dec c).
  - intros c A k st Hc Hd Hi. destruct (dec_char c Hc Hd) as [-> _]. by apply dec_step.
  - intros c [ds sticky dt any q]. cbn [d_dot dec_digit]. by repeat case_match.
Qed.

(** ** Decimal numbers *)

Lemma dval_zeros j : dval (replicate j 48) = 0.
Proof. induction j as [|j IH]; [done|]. replace (S j) with (j + 1)%nat by lia. rewrite replicate_add, dval_app, IH. done. Qed.

Lemma drop_zeros_ok L q : ∃ j, L = replicate j 48 ++ fst (drop_zeros L q) ∧ snd (drop_zeros L q) = q + Z.of_nat j ∧ hd 0 (fst (drop_zeros L q)) ≠ 48.
Proof.
  revert q. induction L as [|c L IH]; intros q; cbn [drop_zeros]; [exists 0%nat; cbn; split_and!; [done | lia | lia]|]. destruct (Z.eqb_spec c 48) as [->|Hc].
  - destruct (IH (q + 1)) as (j & E1 & E2 & E3). exists (S j). cbn [replicate app]. rewrite <- E1. split_and!; [done | lia | done].
  - exists 0%nat. cbn [fst snd hd replicate app]. split_and!; [done | lia | done].
Qed.

(** An exponent far out of range may be replaced by another one. *)
Lemma decimal_clamp F ds q q' sticky neg : std F → (length ds <= MAX_DIGITS)%nat → q = q' ∨ (10000 <= q ∧ 10000 <= q') ∨ (q <= -10000 ∧ q' <= -10000) → decimal ds q sticky F neg = decimal ds q' sticky F neg.
Proof.
  intros HF Hl Hq. unfold MAX_DIGITS in Hl. assert (-4953 <= dmin F ∧ dmin F <= dmax F ∧ dmax F <= 4934) as (R1 & R2 & R3) by (destruct HF as [-> |[-> | ->]]; cbn; lia).
  destruct Hq as [->|[[H1 H2]|[H1 H2]]]; [done | |]; unfold decimal; set (nd := Z.of_nat (length ds)); (destruct (nd =? 0); [done|]).
  - rewrite !(proj2 (Z.ltb_lt (dmax F) _)) by lia. done.
  - rewrite !(proj2 (Z.ltb_ge (dmax F) _)), !(proj2 (Z.ltb_lt _ (dmin F))) by lia. done.
Qed.

Lemma rounds_zero F d neg : std F → 0 < d → rounds F 0 d neg (conv_num F (decode (make_ld 0 0 neg))) false.
Proof.
  intros HF Hd. assert (emin F <= emax F) as Hee by (clear -HF; destruct HF as [-> |[-> | ->]]; cbn; lia). destruct (std_bounds F HF) as (Hp & Hemin & _). pose proof (pow2_pos (fp F) ltac:(lia)). pose proof (pow2_pos (fp F - 1) ltac:(lia)).
  assert (canon F 0 (emin F)) as Hc by (unfold canon; lia). exists 0, (emin F). split_and!; [done | | |].
  - split; cbv zeta; rewrite Z.sub_diag, Z.pow_0_r; [split; [lia | done] | split; [lia | done] | lia].
  - change (make_ld 0 0 neg) with (make_ld 0 (emin F) neg). rewrite make_ld_exact by done. unfold bounded. by rewrite (proj2 (Z.ltb_ge _ _)).
  - split; [done|]. intros [?|[_ ?]]; [lia | done].
Qed.

(** The conclusion for a finite number n/d. *)
Definition rounded (F : ffmt) (n d : Z) (neg : bool) (r : num) (er : bool) : Prop :=
  rounds F n d neg r er ∨ (F = F_FLT ∧ r = Num neg Inf ∧ er = false ∧ rounds F n d neg r true).

Lemma dec_truth A k st E :
  Forall digit A → dec_inv A k st → let '(ds, q) := drop_zeros (reverse (d_digits st)) (d_q st + (E + Z.of_nat k)) in
  (length (reverse ds) <= MAX_DIGITS)%nat ∧ (ds = [] → dval A = 0) ∧ (ds ≠ [] → significand (reverse ds)) ∧ truth (reverse ds) q (d_sticky st) (dval A * pw E) (pw (- E)).
Proof.
  intros HA (I1 & I2 & _ & I4). set (B := skip_while is_zero A) in *. set (T := take MAX_DIGITS B) in *. set (R := drop MAX_DIGITS B) in *. destruct (skip_suffix is_zero A) as (Z0 & EA & HZ0). fold B in EA.
  pose proof (skip_head is_zero A) as Hhd. fold B in Hhd. assert (Forall digit B) as HB by (rewrite EA in HA; by apply Forall_app in HA as [_ ?]). assert (Forall digit T ∧ Forall digit R) as [HT HR] by (unfold T, R; by rewrite <- Forall_app, take_drop).
  assert (dval A = dval T * 10 ^ Z.of_nat (length R) + dval R) as EN.
  { rewrite EA, dval_app. assert (dval Z0 = 0) as ->; [|rewrite <- dval_app; unfold T, R; rewrite take_drop; lia]. assert (Z0 = replicate (length Z0) 48) as ->; [|apply dval_zeros].
    clear -HZ0. induction HZ0 as [|c Z0 Hc HZ0 IH]; [done|]. cbn [length replicate]. rewrite <- IH. unfold is_zero in Hc. apply Z.eqb_eq in Hc. by rewrite Hc. }
  rewrite I1, I4. set (l := Z.of_nat (length R)) in *. replace (l - Z.of_nat k + (E + Z.of_nat k)) with (E + l) by lia. destruct (drop_zeros_ok (reverse T) (E + l)) as (j & E1 & E2 & E3). destruct (drop_zeros (reverse T) (E + l)) as [D q]. cbn [fst snd] in *. subst q.
  assert (T = reverse D ++ replicate j 48) as ET by (rewrite <- (reverse_involutive T), E1, reverse_app, reverse_replicate; done).
  pose proof (length_take B MAX_DIGITS) as HlT. fold T in HlT. assert (length T = length D + j)%nat as HlD by (rewrite ET, length_app, length_reverse, length_replicate; done).
  assert (dval T = dval (reverse D) * 10 ^ Z.of_nat j) as EvT by (rewrite ET, dval_app, dval_zeros, length_replicate; lia).
  assert (ds_nil : D = [] → dval A = 0).
  { intros ->. assert (B = []) as EB.
    { destruct B as [|c B']; [done|]. exfalso. assert (take MAX_DIGITS (c :: B') = c :: take (MAX_DIGITS - 1) B') as Et by done. unfold T in ET. rewrite Et in ET. cbn [reverse app] in ET. destruct j; [done|]. cbn [replicate] in ET. injection ET as -> _. done. }
    rewrite EN. unfold T, R. rewrite EB. done. }
  split_and!; [rewrite length_reverse; lia | done | |].
  - intros HD. split_and!; [rewrite ET in HT; by apply Forall_app in HT as [? _] | intros E0; apply HD; rewrite <- (reverse_involutive D), E0; done | | rewrite length_reverse; lia].
    destruct (reverse D) as [|c D'] eqn:ED; [apply (f_equal reverse) in ED; rewrite reverse_involutive in ED; done|]. cbn [hd app] in *. destruct B as [|b B']; [done|]. assert (take MAX_DIGITS (b :: B') = b :: take (MAX_DIGITS - 1) B') as Et by done.
    unfold T in ET. rewrite Et in ET. injection ET as -> _. unfold is_zero in Hhd. by apply Z.eqb_neq in Hhd.
  - split; [apply pw_pos|]. pose proof (nval_sticky 10 (λ c, c - 48) ltac:(lia) R (digit_val R HR)) as Hst. cbv beta in Hst. rewrite <- I2 in Hst. change (nval 10 (λ c, c - 48) R) with (dval R) in Hst. pose proof (dval_range R HR) as HRr. fold l in HRr.
    pose proof (pw_pos E) as PE. destruct (d_sticky st).
    + destruct Hst as [Hst _]. specialize (Hst eq_refl). assert (length R ≠ 0%nat) as HlR by (destruct R; [cbn in Hst; lia | done]). pose proof (length_drop B MAX_DIGITS) as HlR'. fold R in HlR'. exists (Z.of_nat j).
      split_and!; [lia | rewrite length_reverse; lia | |]; rewrite <- EvT; replace (E + l + Z.of_nat j - Z.of_nat j) with (E + l) by lia; pose proof (pw_shift E l ltac:(lia)) as Es; pose proof (pw_pos (- (E + l))) as P1; rewrite EN.
      * replace (pw (- E) * dval T * pw (E + l)) with (dval T * (pw (- E) * pw (E + l))) by ring. rewrite Es. pose proof (Z.mul_pos_pos _ _ PE P1). replace ((dval T * 10 ^ l + dval R) * pw E * pw (- (E + l))) with ((dval T * 10 ^ l + dval R) * (pw E * pw (- (E + l)))) by ring.
        replace (dval T * (10 ^ l * pw E * pw (- (E + l)))) with (dval T * 10 ^ l * (pw E * pw (- (E + l)))) by ring. apply Z.mul_lt_mono_pos_r; lia.
      * replace (pw (- E) * (dval T + 1) * pw (E + l)) with ((dval T + 1) * (pw (- E) * pw (E + l))) by ring. rewrite Es. pose proof (Z.mul_pos_pos _ _ PE P1). replace ((dval T * 10 ^ l + dval R) * pw E * pw (- (E + l))) with ((dval T * 10 ^ l + dval R) * (pw E * pw (- (E + l)))) by ring.
        replace ((dval T + 1) * (10 ^ l * pw E * pw (- (E + l)))) with ((dval T + 1) * 10 ^ l * (pw E * pw (- (E + l)))) by ring. apply Z.mul_lt_mono_pos_r; lia.
    + assert (dval R = 0) as HR0 by (destruct (decide (0 < dval R)) as [H0|]; [by apply Hst in H0 | lia]). rewrite EN, HR0, Z.add_0_r, EvT. replace (E + l + Z.of_nat j) with (E + (Z.of_nat j + l)) by lia.
      pose proof (pw_shift E (Z.of_nat j + l) ltac:(lia)) as Es. replace (pw (- E) * (dval (reverse D) * pw (E + (Z.of_nat j + l)))) with (dval (reverse D) * (pw (- E) * pw (E + (Z.of_nat j + l)))) by ring. rewrite Es, Z.pow_add_r by lia. ring.
Qed.

(** A decimal mantissa and its exponent. *)
Lemma dec_result_ok F A k st x x' neg :
  std F → Forall digit A → dec_inv A k st → Z.of_nat (length A) <= 10000000 → (k <= length A)%nat → clamped x x' →
  let E := x' - Z.of_nat k in let '(ds, q) := drop_zeros (reverse (d_digits st)) (d_q st + x) in
  wp (decimal (reverse ds) q (d_sticky st) F neg) (λ y, (F = F_LDBL → (length (skip_while is_zero A) <= MAX_DIGITS)%nat) →
    rounded F (dval A * pw E) (pw (- E)) neg (conv_num F (decode (fst y))) (snd y)).
Proof.
  intros HF HA Hi HlA Hk Hx. cbv zeta. pose proof (dec_truth A k st (x' - Z.of_nat k) HA Hi) as Ht. replace (x' - Z.of_nat k + Z.of_nat k) with x' in Ht by lia. set (E := x' - Z.of_nat k) in *.
  destruct Hi as (I1 & I2 & _ & I4). destruct (skip_suffix is_zero A) as (Z0 & EA & _). set (B := skip_while is_zero A) in *. assert (length B <= length A)%nat as HlB by (rewrite EA, length_app; lia).
  pose proof (length_drop B MAX_DIGITS) as HlD. destruct (drop_zeros_ok (reverse (d_digits st)) (d_q st + x)) as (j & J1 & J2 & J3). destruct (drop_zeros_ok (reverse (d_digits st)) (d_q st + x')) as (j' & J1' & J2' & J3').
  assert (fst (drop_zeros (reverse (d_digits st)) (d_q st + x)) = fst (drop_zeros (reverse (d_digits st)) (d_q st + x'))) as Efst.
  { clear. generalize (reverse (d_digits st)) (d_q st + x) (d_q st + x'). induction l as [|c l IH]; intros q q'; [done|]. cbn [drop_zeros]. destruct (c =? 48); [apply IH | done]. }
  destruct (drop_zeros (reverse (d_digits st)) (d_q st + x)) as [ds q]. destruct (drop_zeros (reverse (d_digits st)) (d_q st + x')) as [ds' q']. cbn [fst snd] in *. subst ds'. destruct Ht as (L1 & L2 & L3 & L4).
  assert (length (reverse (d_digits st)) = j + length ds ∧ length (reverse (d_digits st)) = j' + length ds)%nat as [Hj Hj'] by (split; [rewrite J1 at 1 | rewrite J1' at 1]; by rewrite length_app, length_replicate).
  assert (length (reverse (d_digits st)) <= MAX_DIGITS)%nat as Hl8 by (rewrite length_reverse, I1, length_take; lia). unfold MAX_DIGITS in Hl8, HlD, I4.
  rewrite (decimal_clamp F (reverse ds) q q' (d_sticky st) neg HF L1) by (unfold clamped in Hx; lia).
  destruct (decide (ds = [])) as [->|Hne].
  - apply wp_ok. cbn [fst snd]. intros _. left. rewrite (L2 eq_refl), Z.mul_0_l. apply rounds_zero; [done | apply pw_pos].
  - eapply wp_mono; [apply (decimal_ok F (reverse ds) q' (d_sticky st) neg _ _ HF (L3 Hne) L4)|]. cbv beta zeta. intros [l er] H Hld. cbn [fst snd] in *. destruct H as [H|(H1 & _ & H3 & H4 & H5)]; [|by left | by right].
    intros Hst HF'. specialize (Hld HF'). rewrite drop_ge in I2 by done. cbn in I2. congruence.
Qed.

(** ** Hexadecimal numbers *)

Definition hzero (c : Z) : bool := hex_of c =? 0.

(** 31 digits are kept. *)
Definition HEX : nat := 31.

Definition hexd (c : Z) : Prop := 0 <= hex_of c < 16.

Lemma is_hex_ok c : is_hex c = true → hexd c.
Proof.
  unfold is_hex, hexd. rewrite Z.leb_le. intros H. split; [done|]. unfold hex_of, is_dec in *. destruct (Z.leb_spec 48 c), (Z.ltb_spec c 58); cbn [andb] in *; try lia;
    destruct (Z.leb_spec 97 c), (Z.ltb_spec c 103); cbn [andb] in *; try lia; destruct (Z.leb_spec 65 c), (Z.ltb_spec c 71); cbn [andb] in *; lia.
Qed.

Definition hex_inv (A : list Z) (k : nat) (st : hst) : Prop :=
  let B := skip_while hzero A in
  Forall hexd A ∧ h_Q st = hval (take HEX B) ∧ h_bits st = 4 * Z.of_nat (length (take HEX B)) ∧
  h_sticky st = existsb (λ c, negb (hex_of c =? 0)) (drop HEX B) ∧ h_e st = 4 * Z.of_nat (length (drop HEX B)) - 4 * Z.of_nat k.

Lemma skip_hexd A : Forall hexd A → Forall hexd (skip_while hzero A).
Proof. intros HA. destruct (skip_suffix hzero A) as (Z0 & E & _). rewrite E in HA. by apply Forall_app in HA as [_ ?]. Qed.

(** The kept digits begin with one that is not zero. *)
Lemma hex_lead A : Forall hexd A → let B := skip_while hzero A in B ≠ [] → 16 ^ (Z.of_nat (length (take HEX B)) - 1) <= hval (take HEX B) < 16 ^ Z.of_nat (length (take HEX B)).
Proof.
  intros HA B HB. pose proof (skip_hexd A HA) as Hh. pose proof (skip_head hzero A) as Hhd. fold B in Hh, Hhd. destruct B as [|c B']; [done|]. assert (take HEX (c :: B') = c :: take (HEX - 1) B') as -> by done.
  apply Forall_cons in Hh as [Hc Hh]. assert (Forall hexd (take (HEX - 1) B')) as Ht by (by apply Forall_take). split.
  - cbn [length]. replace (Z.of_nat (S (length (take (HEX - 1) B'))) - 1) with (Z.of_nat (length (take (HEX - 1) B'))) by lia. apply nval_lead; [lia | | done]. unfold hzero in Hhd. apply Z.eqb_neq in Hhd. unfold hexd in Hc. lia.
  - apply nval_range; [lia | by constructor].
Qed.

Lemma hex_step c A k st : is_hex c = true → hex_inv A k st → hex_inv (A ++ [c]) (if h_dot st then S k else k) (hex_digit st (hex_of c)).
Proof.
  intros Hc (HA & H1 & H2 & H3 & H4). pose proof (is_hex_ok c Hc) as Hd. split; [apply Forall_app; split; [done | by constructor]|]. cbv zeta. pose proof (hex_lead A HA) as Hlead. cbv zeta in Hlead. rewrite skip_snoc. set (B := skip_while hzero A) in *.
  destruct st as [Q bits sticky dt e]. cbn [h_Q h_bits h_sticky h_dot h_e] in *. unfold hex_digit. pose proof (length_take B HEX) as HlT. destruct (decide (B = [])) as [EB|EB].
  - rewrite EB in *. rewrite take_nil, drop_nil in *. cbn [length existsb hval nval fold_left] in *. change (hval []) with 0 in H1. subst Q bits sticky. change (4 * Z.of_nat 0) with 0. change (0 =? 0) with true. change (0 <? 124) with true. cbn [andb]. fold (hzero c). destruct (hzero c); cbn [h_Q h_bits h_sticky h_dot h_e].
    + rewrite take_nil, drop_nil. cbn [length existsb]. split_and!; [done | done | done | destruct dt; lia].
    + rewrite take_ge, drop_ge by (unfold HEX; cbn [length]; lia). cbn [length existsb]. split_and!; [|done | done | destruct dt; lia].
      unfold hexd in Hd. rewrite Z.shiftl_0_l, Z.lor_0_l, uwrap_small by lia. done.
  - destruct (Hlead EB) as [L1 L2]. clearbody B. destruct B as [|b B']; [done|]. set (B := b :: B') in *. assert (0 < length (take HEX B))%nat as Hpos by (rewrite HlT; unfold B, HEX; cbn [length]; lia).
    assert (0 < Q) as HQ by (rewrite H1; pose proof (Z.pow_pos_nonneg 16 (Z.of_nat (length (take HEX B)) - 1) ltac:(lia) ltac:(lia)); lia). rewrite (proj2 (Z.eqb_neq Q 0)) by lia. cbn [andb].
    destruct (Z.ltb_spec bits 124) as [Hlt|Hge]; cbn [h_Q h_bits h_sticky h_dot h_e].
    + assert (length B < HEX)%nat as HlB by (unfold HEX in *; lia). rewrite take_ge in H1, H2, L2 by lia. rewrite drop_ge in H3, H4 by lia. rewrite take_ge, drop_ge by (rewrite length_app; cbn [length]; lia). cbn [existsb length] in *.
      split_and!; [| rewrite length_app; cbn [length]; lia | done | destruct dt; lia]. rewrite H1. unfold hval at 2. rewrite nval_snoc. fold hval. rewrite Z.shiftl_mul_pow2 by lia. unfold hexd in Hd. rewrite lor_add by lia. change (2 ^ 4) with 16.
      apply uwrap_small. assert (16 ^ Z.of_nat (length B) <= 16 ^ 30) by (apply Z.pow_le_mono_r; unfold HEX in *; lia). assert (16 * 16 ^ 30 < 2 ^ 128) by done. lia.
    + assert (HEX <= length B)%nat as HlB by (unfold HEX in *; lia). rewrite take_app_le, drop_app_le by lia. rewrite existsb_app, length_app. cbn [existsb length]. rewrite orb_false_r, H3. split_and!; [done | done | done | destruct dt; lia].
Qed.

Lemma hex_loop_ok s : bytes s → let '(ip, fr, r) := mantissa is_hex s in ∃ st, hex_loop s (Hst 0 0 false false 0) = (r, st) ∧ hex_inv (ip ++ fr) (length fr) st.
Proof.
  intros Hs. refine (mantissa_loop hex_loop is_hex h_dot (λ st, Hst (h_Q st) (h_bits st) (h_sticky st) true (h_e st)) (λ st c, hex_digit st (hex_of c)) hex_inv _ _ _ _ _ _ _ s Hs [] (Hst 0 0 false false 0) eq_refl _); try done.
  - intros c r st Hc. cbn [hex_loop]. rewrite char_eq, hex_byte by (done || lia). by destruct (is_hex c).
  - intros c A k st Hc Hd Hi. by apply hex_step.
  - intros c [Q bits sticky dt e]. unfold hex_digit. by repeat case_match.
Qed.

(** 2^e as a fraction. *)
Definition p2 (e : Z) : Z := 2 ^ Z.max e 0.

Lemma p2_pos e : 0 < p2 e.
Proof. apply pow2_pos. lia. Qed.

Lemma p2_shift a j : 0 <= j → p2 (- a) * p2 (a + j) = 2 ^ j * p2 a * p2 (- (a + j)).
Proof. intros Hj. unfold p2. rewrite <- !pow2_add by lia. f_equal. lia. Qed.

Lemma hex_exact F Q e l R sticky neg :
  std F → 0 <= l → 0 <= Q < 2 ^ 124 → 0 <= R < 2 ^ l → (sticky = true ↔ 0 < R) → (sticky = true → 2 ^ 120 <= Q) → (Q = 0 → R = 0) →
  let E := e - l in let n := (Q * 2 ^ l + R) * p2 E in let y := hex_result Q e sticky F neg in
  rounds F n (p2 (- E)) neg (conv_num F (decode (fst y))) (snd y).
Proof.
  intros HF Hl HQ HR Hst Hbig HQ0. cbv zeta. set (E := e - l). pose proof (p2_pos E) as PE. pose proof (p2_pos (- E)) as PE'. pose proof (pow2_pos l Hl) as Pl.
  assert (0 <= fp F + emax F <= 16384 ∧ -16445 <= emin F <= 0 ∧ emin F <= emax F ∧ 2 <= fp F <= 64) as (B1 & B2 & B3 & B4) by (clear -HF; destruct HF as [-> |[-> | ->]]; cbn; lia).
  unfold hex_result. destruct (Z.eqb_spec Q 0) as [EQ|HQn].
  { rewrite (HQ0 EQ), EQ. cbn [negb Z.eqb Z.mul Z.add]. replace ((0 * 2 ^ l + 0) * p2 E) with 0 by ring. pose proof (rounds_zero F (p2 (- E)) neg HF PE') as H0.
    destruct (100000 <? e); [exact H0|]. destruct (e <? -100000); [exact H0|]. unfold round_to. cbn [Z.eqb]. exact H0. }
  cbn [negb]. set (n := (Q * 2 ^ l + R) * p2 E). assert (2 ^ l <= Q * 2 ^ l + R) as Hlow by (clear -HQ HQn HR Pl; nia). assert (0 < n) as Hn by (apply Z.mul_pos_pos; lia).
  destruct (Z.ltb_spec 100000 e) as [Hov|Hmax].
  - cbn [fst snd]. rewrite decode_inf. destruct (overflow_ok F n (p2 (- E)) HF Hn PE') as (m & e1 & Hc & Hb & He).
    + unfold n. transitivity (2 ^ l * p2 E); [|apply Z.mul_le_mono_nonneg_r; lia]. unfold p2. rewrite <- !pow2_add by lia. apply Z.pow_le_mono_r; unfold E; lia.
    + exists m, e1. split_and!; [done | done | unfold bounded; by rewrite (proj2 (Z.ltb_lt _ _)) |]. split; [by left | done].
  - destruct (Z.ltb_spec e (-100000)) as [Hun|Hmin].
    + cbn [fst snd]. destruct (underflow_ok F n (p2 (- E)) HF Hn PE') as [Hc Hb].
      * apply Z.lt_le_trans with (2 ^ 124 * 2 ^ l * p2 E * 2 ^ (1 - emin F)).
        -- apply Z.mul_lt_mono_pos_r; [apply pow2_pos; lia|]. apply Z.mul_lt_mono_pos_r; [done|]. clear -HQ HR Pl. nia.
        -- unfold p2. rewrite <- !pow2_add by lia. apply Z.pow_le_mono_r; unfold E; lia.
      * exists 0, (emin F). split_and!; [done | done | |].
        -- change (make_ld 0 0 neg) with (make_ld 0 (emin F) neg). rewrite make_ld_exact by done. unfold bounded. by rewrite (proj2 (Z.ltb_ge _ _)).
        -- split; [|done]. intros _. right. split; [apply pow2_pos; lia|]. rewrite Z.mul_0_l. pose proof (pow2_pos (- emin F) ltac:(lia)). clear -H Hn. nia.
    + assert (2 ^ fp F <= 2 ^ 120) as H120 by (apply Z.pow_le_mono_r; lia). assert (2 ^ 124 < 2 ^ 128) as H128 by done.
      pose proof (round_to_ok F Q e sticky neg (2 ^ l) R ((Q * 2 ^ l + R) * 2 ^ Z.max e 0) (2 ^ l * 2 ^ Z.max (- e) 0) HF ltac:(lia) Pl HR Hst ltac:(intros Hs; specialize (Hbig Hs); lia) eq_refl eq_refl) as H.
      destruct (round_to Q e sticky F neg) as [y er]. cbn [fst snd]. refine (rounds_scale F _ _ n (p2 (- E)) _ PE' _ neg _ er H).
      * apply Z.mul_pos_pos; [done | apply pow2_pos; lia].
      * unfold n. pose proof (p2_shift E l Hl) as Es. replace (E + l) with e in Es by (unfold E; lia). unfold p2 in *. transitivity ((Q * 2 ^ l + R) * (2 ^ Z.max (- E) 0 * 2 ^ Z.max e 0)); [ring|]. rewrite Es. ring.
Qed.

(** A hexadecimal mantissa and its exponent. *)
Lemma hex_result_ok F A k st x x' neg :
  std F → hex_inv A k st → Z.of_nat (length A) <= 10000000 → (k <= length A)%nat → clamped x x' →
  let E := x' - 4 * Z.of_nat k in let y := hex_result (h_Q st) (h_e st + x) (h_sticky st) F neg in
  rounds F (hval A * p2 E) (p2 (- E)) neg (conv_num F (decode (fst y))) (snd y).
Proof.
  intros HF (HA & I1 & _ & I3 & I4) HlA Hk Hx. cbv zeta. set (E := x' - 4 * Z.of_nat k). pose proof (hex_lead A HA) as Hlead. cbv zeta in Hlead. destruct (skip_suffix hzero A) as (Z0 & EA & HZ0). pose proof (skip_hexd A HA) as HB. set (B := skip_while hzero A) in *.
  assert (length B <= length A)%nat as HlB by (rewrite EA, length_app; lia). set (T := take HEX B) in *. set (R := drop HEX B) in *. assert (Forall hexd T ∧ Forall hexd R) as [HT HR] by (unfold T, R; by rewrite <- Forall_app, take_drop).
  pose proof (length_take B HEX) as HlT. pose proof (length_drop B HEX) as HlR. fold T in HlT. fold R in HlR. set (l := 4 * Z.of_nat (length R)) in *.
  assert (∀ i : nat, 16 ^ Z.of_nat i = 2 ^ (4 * Z.of_nat i)) as E16 by (intros i; rewrite Z.pow_mul_r by lia; done).
  assert (hval A = hval T * 2 ^ l + hval R) as EN.
  { rewrite EA. unfold hval. rewrite nval_app. fold hval. assert (hval Z0 = 0) as ->. { assert (existsb (λ c, negb (hex_of c =? 0)) Z0 = false) as Hz by (clear -HZ0; induction HZ0 as [|c Z0 Hc HZ0 IH]; [done|]; cbn [existsb]; unfold hzero in Hc; by rewrite Hc).
      assert (Forall hexd Z0) as HZ by (rewrite EA in HA; by apply Forall_app in HA as [? _]). pose proof (nval_sticky 16 hex_of ltac:(lia) Z0 HZ) as Hs. pose proof (nval_range 16 hex_of ltac:(lia) Z0 HZ) as Hr. rewrite Hz in Hs. unfold hval.
      destruct (decide (0 < nval 16 hex_of Z0)) as [H0|]; [by apply Hs in H0 | lia]. }
    unfold l. rewrite <- E16. unfold hval. rewrite <- nval_app. unfold T, R. rewrite take_drop. lia. }
  pose proof (nval_range 16 hex_of ltac:(lia) R HR) as HRr. pose proof (nval_sticky 16 hex_of ltac:(lia) R HR) as Hst. rewrite <- I3 in Hst. rewrite E16 in HRr. fold l in HRr. change (nval 16 hex_of R) with (hval R) in *.
  assert (0 <= hval T < 2 ^ 124) as HTr.
  { pose proof (nval_range 16 hex_of ltac:(lia) T HT) as Hr. change (nval 16 hex_of T) with (hval T) in Hr. rewrite E16 in Hr. assert (2 ^ (4 * Z.of_nat (length T)) <= 2 ^ 124) by (apply Z.pow_le_mono_r; unfold HEX in *; lia). lia. }
  (* the exponent that is written *)
  assert (hex_result (h_Q st) (h_e st + x) (h_sticky st) F neg = hex_result (h_Q st) (h_e st + x') (h_sticky st) F neg) as ->.
  { unfold clamped in Hx. destruct Hx as [->|Hx]; [done|]. unfold hex_result. destruct Hx as [[H1 H2]|[H1 H2]].
    - rewrite !(proj2 (Z.ltb_lt 100000 _)) by lia. done.
    - rewrite !(proj2 (Z.ltb_ge 100000 _)), !(proj2 (Z.ltb_lt _ (-100000))) by lia. done. }
  rewrite I1, EN. pose proof (hex_exact F (hval T) (h_e st + x') l (hval R) (h_sticky st) neg HF ltac:(lia) HTr HRr Hst) as H. cbv zeta in H. replace (h_e st + x' - l) with E in H by (unfold E; lia). apply H.
  - intros Hs. assert (0 < hval R) as H0 by (by apply Hst). assert (length R ≠ 0%nat) as HR0 by (destruct R; [cbn in H0; lia | done]). assert (B ≠ []) as HBn by (intros EB; rewrite EB in HlR; cbn [length] in HlR; lia).
    destruct (Hlead HBn) as [H1 _]. etrans; [|exact H1]. assert (length T = HEX) as -> by lia. done.
  - intros H0. destruct (decide (B = [])) as [EB|EB]; [unfold R; rewrite EB; done|]. destruct (Hlead EB) as [H1 _]. assert (0 < length T)%nat by (rewrite HlT; destruct B; [done | unfold HEX; cbn [length]; lia]).
    pose proof (Z.pow_pos_nonneg 16 (Z.of_nat (length T) - 1) ltac:(lia) ltac:(lia)). lia.
Qed.

(** ** The whole parser *)

Lemma isxdigit_byte c : is_byte c → isxdigit c = is_hex c.
Proof. intros Hc. apply eqb_prop. revert c Hc. apply (byte_forall (λ c, eqb (isxdigit c) (is_hex c))). vm_compute. reflexivity. Qed.

Lemma mantissa_head f c s : f 46 = false →
  let '(ip, fr, _) := mantissa f (c :: s) in match ip ++ fr with [] => false | _ => true end = f c || ((c =? 46) && f (nth 0 s 46)).
Proof.
  intros Hf. unfold mantissa. cbn [span]. destruct (f c) eqn:E.
  - destruct (span f s) as [a r]. destruct r as [|c' r]; [done|]. destruct (c' =? 46); [|done]. by destruct (span f r).
  - cbn [orb]. destruct (Z.eqb_spec c 46) as [->|]; [|done]. cbn [andb]. destruct s as [|c' s]; cbn [span nth]; [by rewrite Hf|]. destruct (f c') eqn:E'; [|done]. by destruct (span f s).
Qed.

Lemma hex_cond s : bytes s →
  (ch s 0 =? 48) && (Z.lor (ch s 1) 32 =? 120) && (isxdigit (nth 2 s 0) || ((ch s 2 =? 46) && isxdigit (nth 3 s 0))) = match hex_subject s with Some _ => true | None => false end.
Proof.
  intros Hs. assert (In 120 (lit "infatynpxe")) as Hx by (vm_compute; intuition). rewrite !isxdigit_byte, !ch_eq by (try apply bytes_nth; done || lia). unfold ch. rewrite char_ci by (done || by apply bytes_nth). change (120 - 32) with 88.
  destruct s as [|c0 [|c1 r]]; cbn [nth hex_subject]; [done | by rewrite andb_false_r|]. destruct ((c0 =? 48) && ((c1 =? 120) || (c1 =? 88))); cbn [andb]; [|done].
  destruct r as [|c r]; [done|]. pose proof (mantissa_head is_hex c r eq_refl) as H. destruct (mantissa is_hex (c :: r)) as [[ip fr] r'].
  transitivity (is_hex c || (c =? 46) && is_hex (nth 0 r 46)).
  - cbn [nth]. destruct r; done.
  - rewrite <- H. destruct (ip ++ fr); [done|]. by destruct (exp_part 112 r').
Qed.

(** The rest of the string is its end. *)
Lemma span_suffix f s : snd (span f s) `suffix_of` s.
Proof. pose proof (span_ok f s) as H. destruct (span f s) as [a r]. destruct H as [-> _]. by apply suffix_app_r. Qed.

Lemma sign_suffix s : snd (opt_sign s) `suffix_of` s.
Proof. destruct s as [|c s]; [done|]. cbn [opt_sign]. repeat case_match; cbn [snd]; try done; by apply suffix_cons_r. Qed.

Lemma word_suffix w s r : word_ci w s = Some r → r `suffix_of` s.
Proof. revert s. induction w as [|a w IH]; intros s H; cbn [word_ci] in H; [by injection H as ->|]. destruct s as [|c s]; [done|]. destruct ((c =? a) || (c =? a - 32)); [|done]. by apply suffix_cons_r, IH. Qed.

Lemma nan_suffix s : nan_chars s `suffix_of` s.
Proof.
  destruct s as [|c s]; [done|]. cbn [nan_chars]. destruct (c =? 40); [|done]. pose proof (span_suffix (λ c, isalnum c || (c =? 95)) s) as H. destruct (span _ s) as [a r]. cbn [snd] in H.
  destruct r as [|c' r]; [done|]. destruct (c' =? 41); [|done]. apply suffix_cons_r. etrans; [|exact H]. by apply suffix_cons_r.
Qed.

Lemma mantissa_suffix f s : snd (mantissa f s) `suffix_of` s.
Proof.
  unfold mantissa. pose proof (span_suffix f s) as H. destruct (span f s) as [a r]. cbn [snd] in H. destruct r as [|c r]; [done|]. destruct (c =? 46); [|done].
  pose proof (span_suffix f r) as H'. destruct (span f r) as [b r']. cbn [snd] in *. etrans; [exact H'|]. etrans; [|exact H]. by apply suffix_cons_r.
Qed.

Lemma exp_suffix l s : snd (exp_part l s) `suffix_of` s.
Proof.
  destruct s as [|c s]; [done|]. cbn [exp_part]. destruct ((c =? l) || (c =? l - 32)); [|done]. pose proof (sign_suffix s) as H. destruct (opt_sign s) as [ng r]. cbn [snd] in H. pose proof (span_suffix is_dec r) as H'. destruct (span is_dec r) as [xs r'].
  cbn [snd] in H'. destruct xs; [done|]. cbn [snd]. apply suffix_cons_r. by etrans.
Qed.

Lemma mantissa_parts f s : let '(ip, fr, r) := mantissa f s in (length (ip ++ fr) + length r <= length s)%nat ∧ Forall (λ c, f c = true) (ip ++ fr).
Proof.
  unfold mantissa. pose proof (span_ok f s) as H. destruct (span f s) as [a r]. destruct H as [-> Ha]. rewrite length_app. destruct r as [|c r]; [rewrite app_nil_r; cbn; split; [lia | done]|].
  destruct (c =? 46); [|rewrite app_nil_r; split; [lia | done]]. pose proof (span_ok f r) as H. destruct (span f r) as [b r']. destruct H as [-> Hb]. rewrite !length_app. cbn [length]. rewrite length_app. split; [lia | by apply Forall_app].
Qed.

Lemma bytes_suffix r s : r `suffix_of` s → bytes s → bytes r.
Proof. intros [p ->] H. by apply Forall_app in H as [_ ?]. Qed.

Lemma dec_digits s : bytes s → Forall (λ c, is_dec c = true) s → Forall digit s.
Proof. intros Hb Hd. apply Forall_forall. intros c Hc. unfold bytes in Hb. rewrite Forall_forall in Hb, Hd. by apply dec_char; [apply Hb | apply Hd]. Qed.

(** The result for a number n/d. An overflow of strtof may leave errno as it
    is. *)
Definition read_as (F : ffmt) (n d : Z) (neg : bool) (r : num) (er : bool) : Prop :=
  correct F n d neg r er ∨ (F = F_FLT ∧ r = Num neg Inf ∧ er = false ∧ correct F n d neg r true).

(** What strto returns for what a string denotes. *)
Definition result_ok (F : ffmt) (neg : bool) (v : denotes) (r : num) (er : bool) : Prop :=
  match v with
  | DInf => r = Num neg Inf ∧ er = false
  | DNan => r = NaN neg ∧ er = false
  | DDec ds q => (F = F_LDBL → (length (skip_while is_zero ds) <= MAX_DIGITS)%nat) → read_as F (dval ds * pw q) (pw (- q)) neg r er
  | DHex ds q => correct F (hval ds * p2 q) (p2 (- q)) neg r er
  end.

Lemma hexadecimal_ok F s neg v r :
  std F → bytes s → Z.of_nat (length s) <= 10000000 → hex_subject s = Some (v, r) →
  let '(l, er, r') := hexadecimal s F neg in r' = r ∧ r `suffix_of` s ∧ result_ok F neg v (conv_num F (decode l)) er.
Proof.
  intros HF Hs Hlen Hsub. destruct s as [|c0 [|c1 t]]; [done | done|]. cbn [hex_subject] in Hsub. destruct ((c0 =? 48) && ((c1 =? 120) || (c1 =? 88))); [|done]. unfold hexadecimal. change (drop 2 (c0 :: c1 :: t)) with t.
  assert (bytes t) as Ht by (by do 2 apply Forall_cons in Hs as [_ Hs]). pose proof (hex_loop_ok t Ht) as Hloop. pose proof (mantissa_suffix is_hex t) as Hsuf. pose proof (mantissa_parts is_hex t) as Hp. destruct (mantissa is_hex t) as [[ip fr] r1]. cbn [snd] in Hsuf.
  destruct Hloop as (st & -> & Hi). destruct Hp as [Hp1 Hp2]. pose proof (exponent_ok 112 r1 ltac:(vm_compute; intuition) (bytes_suffix _ _ Hsuf Ht)) as (X1 & X2 & X3). pose proof (exp_suffix 112 r1) as Hes.
  destruct (exponent 112 r1) as [x r2]. destruct (exp_part 112 r1) as [x' r2']. cbn [fst snd] in *. subst r2'. destruct (ip ++ fr) as [|c A] eqn:EA; [done|]. rewrite <- EA in *. injection Hsub as <- <-.
  cbn [length] in Hlen. assert (length fr <= length (ip ++ fr))%nat as Hfr by (rewrite length_app; lia). pose proof (hex_result_ok F (ip ++ fr) (length fr) st x x' neg HF Hi ltac:(lia) Hfr X2) as H. cbv zeta in H.
  destruct (hex_result (h_Q st) (h_e st + x) (h_sticky st) F neg) as [l er]. split_and!; [done | do 2 apply suffix_cons_r; by etrans |]. cbn [result_ok]. apply rounds_correct; [done | apply p2_pos | exact H].
Qed.

Lemma nan_ok s : bytes s → (if ch s 0 =? 40 then (let p := skip_while (λ c, isalnum c || (s8 c =? 95)) (tail s) in if ch p 0 =? 41 then tail p else s) else s) = nan_chars s.
Proof.
  intros Hs. rewrite ch_eq by (done || lia). destruct s as [|c s]; [done|]. cbn [nth tail nan_chars]. destruct (c =? 40); [|done]. apply Forall_cons in Hs as [_ Hs]. cbv zeta.
  assert (skip_while (λ c, isalnum c || (s8 c =? 95)) s = snd (span (λ c, isalnum c || (c =? 95)) s)) as ->.
  { rewrite skip_while_ok. f_equal. clear c. induction Hs as [|c s Hc Hs IH]; [done|]. cbn [span]. rewrite (char_eq 95) by (done || lia). by rewrite IH. }
  pose proof (bytes_span (λ c, isalnum c || (c =? 95)) s Hs) as [_ Hr]. destruct (span _ s) as [a r]. cbn [snd] in *. rewrite ch_eq by (done || lia). destruct r as [|c' r]; [done|]. cbn [nth tail]. done.
Qed.

(** The decimal case of the parser. *)
Lemma dec_parse_ok F s0 s neg :
  std F → bytes s → Z.of_nat (length s) <= 10000000 →
  wp (let '(s, st) := dec_loop s (Dst [] false false false 0) in
      if negb (d_any st) then Ok (Ld 0 0, false, s0) else
      let '(x, s) := exponent 101 s in
      let '(ds, q) := drop_zeros (reverse (d_digits st)) (d_q st + x) in
      '(r, er) ← decimal (reverse ds) q (d_sticky st) F neg; Ok (r, er, s))
    (λ y, let '(l, er, r') := y in
      match dec_subject s with
      | Some (v, r) => r' = r ∧ r `suffix_of` s ∧ result_ok F neg v (conv_num F (decode l)) er
      | None => l = Ld 0 0 ∧ er = false ∧ r' = s0
      end).
Proof.
  intros HF Hs Hlen. unfold dec_subject. pose proof (dec_loop_ok s Hs) as Hloop. pose proof (mantissa_suffix is_dec s) as Hsuf. pose proof (mantissa_parts is_dec s) as Hp.
  assert (bytes (fst (fst (mantissa is_dec s)) ++ snd (fst (mantissa is_dec s)))) as Hbd.
  { unfold mantissa. pose proof (bytes_span is_dec s Hs) as [B1 B2]. destruct (span is_dec s) as [a r]. cbn [fst snd] in *. destruct r as [|c r]; [by rewrite app_nil_r|]. apply Forall_cons in B2 as [_ B2].
    destruct (c =? 46); [|cbn [fst snd]; by rewrite app_nil_r]. pose proof (bytes_span is_dec r B2) as [B3 _]. destruct (span is_dec r) as [b r']. cbn [fst snd] in *. by apply Forall_app. }
  destruct (mantissa is_dec s) as [[ip fr] r1]. cbn [fst snd] in *. destruct Hloop as (st & -> & Hi). destruct Hp as [Hp1 Hp2]. pose proof Hi as (_ & _ & I3 & _). rewrite I3.
  destruct (ip ++ fr) as [|c A] eqn:EA; [apply wp_ok; done|]. rewrite <- EA in *. assert ((length (ip ++ fr) =? 0)%nat = false) as -> by (rewrite EA; done). cbn [negb].
  pose proof (exponent_ok 101 r1 ltac:(vm_compute; intuition) (bytes_suffix _ _ Hsuf Hs)) as (X1 & X2 & X3). pose proof (exp_suffix 101 r1) as Hes. destruct (exponent 101 r1) as [x r2]. destruct (exp_part 101 r1) as [x' r2']. cbn [fst snd] in *. subst r2'.
  assert (length fr <= length (ip ++ fr))%nat as Hfr by (rewrite length_app; lia). pose proof (dec_result_ok F (ip ++ fr) (length fr) st x x' neg HF (dec_digits _ Hbd Hp2) Hi ltac:(lia) Hfr X2) as H. cbv zeta in H.
  destruct (drop_zeros (reverse (d_digits st)) (d_q st + x)) as [ds q]. apply wp_bind. eapply wp_mono; [exact H|]. intros [l er] Hr. cbn [fst snd] in Hr. apply wp_ok. split_and!; [done | by etrans |].
  cbn [result_ok]. intros Hld. specialize (Hr Hld). pose proof (pw_pos (- (x' - Z.of_nat (length fr)))) as P. destruct Hr as [Hr|(H1 & H2 & H3 & H4)]; [left; by apply rounds_correct | right; split_and!; [done | done | done | by apply rounds_correct]].
Qed.

(** What strto returns. *)
Lemma strtod_read F s :
  std F → bytes s → Z.of_nat (length s) <= 10000000 →
  wp (strto F s) (λ y, let '(r, n, er) := y in
    match subject s with
    | Some (neg, v, rest) => drop n s = rest ∧ result_ok F neg v r er
    | None => r = Num false (Fin 0 (emin F)) ∧ n = 0%nat ∧ er = false
    end).
Proof.
  intros HF Hs Hlen.
  assert (∀ l er r' neg v rest, r' = rest → rest `suffix_of` s → result_ok F neg v (conv_num F (decode l)) er → drop (length s - length r') s = rest ∧ result_ok F neg v (conv_num F (decode l)) er) as Hend.
  { intros l er r' neg v rest -> [p ->] H. split; [|done]. rewrite length_app. replace (length p + length rest - length rest)%nat with (length p) by lia. apply drop_app_length. }
  unfold strto, parse, subject. rewrite skip_while_ok. pose proof (span_suffix isspace s) as S1. destruct (span isspace s) as [w s1]. cbn [snd] in *. pose proof (bytes_suffix _ _ S1 Hs) as Hs1.
  rewrite sign_ok by done. pose proof (sign_suffix s1) as S2. destruct (opt_sign s1) as [neg s2]. cbn [snd] in *. pose proof (bytes_suffix _ _ S2 Hs1) as Hs2. assert (s2 `suffix_of` s) as S3 by (by etrans).
  assert (Z.of_nat (length s2) <= 10000000) as Hl2 by (destruct S3 as [p E]; rewrite E, length_app in Hlen; lia).
  destruct words_ok as (W1 & W2 & W3). pose proof (ci_prefix_ok (lit "inf") s2 ltac:(done) W1 Hs2) as Hinf. destruct (word_ci (lit "inf") s2) as [ri|] eqn:Einf.
  { destruct Hinf as [-> ->]. change (length (lit "inf")) with 3%nat. cbn [Nat.eqb negb]. apply wp_bind, wp_ok, wp_ok. pose proof (word_suffix _ _ _ Einf) as S4. pose proof (bytes_suffix _ _ S4 Hs2) as Hs4.
    pose proof (ci_prefix_ok (lit "inity") (drop 3 s2) ltac:(done) W2 Hs4) as Hin. apply Hend; [| |cbn [result_ok]; by rewrite decode_inf].
    - destruct (word_ci (lit "inity") (drop 3 s2)); [destruct Hin as [-> ->]; done | rewrite Hin; by rewrite drop_0].
    - etrans; [|exact S3]. etrans; [|exact S4]. destruct (word_ci (lit "inity") (drop 3 s2)) eqn:Ein; [by apply (word_suffix _ _ _ Ein) | done]. }
  rewrite Hinf. cbn [Nat.eqb negb]. pose proof (ci_prefix_ok (lit "nan") s2 ltac:(done) W3 Hs2) as Hnan. destruct (word_ci (lit "nan") s2) as [rn|] eqn:Enan.
  { destruct Hnan as [-> ->]. change (length (lit "nan")) with 3%nat. cbn [Nat.eqb negb]. pose proof (word_suffix _ _ _ Enan) as S4. rewrite nan_ok by (by eapply bytes_suffix). apply wp_bind, wp_ok, wp_ok.
    apply Hend; [done | | cbn [result_ok]; by rewrite decode_nan]. etrans; [apply nan_suffix|]. by etrans. }
  rewrite Hnan. cbn [Nat.eqb negb]. rewrite hex_cond by done. destruct (hex_subject s2) as [[v r]|] eqn:Ehex.
  { apply wp_bind, wp_ok. pose proof (hexadecimal_ok F s2 neg v r HF Hs2 Hl2 Ehex) as H. destruct (hexadecimal s2 F neg) as [[l er] r']. destruct H as (-> & S4 & H). apply wp_ok. apply Hend; [done | by etrans | done]. }
  apply wp_bind. eapply wp_mono; [apply (dec_parse_ok F s s2 neg HF Hs2 Hl2)|]. intros [[l er] r'] H. apply wp_ok. destruct (dec_subject s2) as [[v r]|].
  - destruct H as (-> & S4 & H). apply Hend; [done | by etrans | done].
  - destruct H as (-> & -> & ->). rewrite Nat.sub_diag. split_and!; [|done | done]. unfold decode. cbn [ld_se ld_m]. cbn. unfold fround. done.
Qed.



(** The smallest double, a halfway case decided by its 17th digit, and a
    hexadecimal number. *)
Lemma strtod_examples :
  strtod (lit "4.9406564584124654e-324") = Ok (Num false (Fin 1 (-1074)), 23%nat, true) ∧
  strtod (lit "9007199254740993") = Ok (Num false (Fin (2 ^ 52) 1), 16%nat, false) ∧
  strtod (lit "0x1.8p3") = Ok (Num false (Fin (3 * 2 ^ 51) (-49)), 7%nat, false).
Proof. split_and!; vm_compute; reflexivity. Qed.

(** An overflow of strtof found on the middle path leaves errno as it was. *)
Lemma strtof_quiet_overflow : strtof (lit "3402823669209384634e20") = Ok (Num false Inf, 22%nat, false).
Proof. vm_compute. reflexivity. Qed.
