(* ===== verification/Stdio.v ===== *)
(** * Streams (src/src/stdio.c, src/src/stdio_io.c, src/src/stdio_impl.h)

    A FILE is a record; its flag word is one boolean per flag. The pointers
    into the buffer are represented by what they delimit: in write mode
    (wend set) the capacity wend - wbase and the bytes [wbase, wpos), in read
    mode (rpos set) the distance of rpos from buf - UNGET and the bytes
    [rpos, rend). What the stream is connected to, with the functions of the
    mangled pointers, is a device: a class, whose contract is the one that
    stdio_impl.h states in a comment. Streams are used under their lock, which
    serialises the callers. *)
From S2P Require Import Prelude.

Definition UNGET : nat := 8.
Definition BUFSIZ : nat := Z.to_nat 8192.
Definition EOF : Z := -1.
Definition EBADF : Z := 9.
Definition EINVAL : Z := 22.
Definition EOVERFLOW : Z := 75.

Record FILE (D : Type) := File {
  f_perm : bool; f_nord : bool; f_nowr : bool; f_eof : bool; f_err : bool; f_svb : bool; f_app : bool; f_ttychk : bool;
  f_r : option (nat * list Z);
  f_w : option (nat * list Z);
  f_bufsize : nat;
  f_fd : Z;
  f_lbf : Z;
  f_mode : Z;
  f_errno : Z;
  f_dev : D;
}.
Arguments File {D}.
Arguments f_perm {D} _.
Arguments f_nord {D} _.
Arguments f_nowr {D} _.
Arguments f_eof {D} _.
Arguments f_err {D} _.
Arguments f_svb {D} _.
Arguments f_app {D} _.
Arguments f_ttychk {D} _.
Arguments f_r {D} _.
Arguments f_w {D} _.
Arguments f_bufsize {D} _.
Arguments f_fd {D} _.
Arguments f_lbf {D} _.
Arguments f_mode {D} _.
Arguments f_errno {D} _.
Arguments f_dev {D} _.

Section Set_.
Context {D : Type}.
Implicit Types f : FILE D.

Definition set_eof b f := File (f_perm f) (f_nord f) (f_nowr f) b (f_err f) (f_svb f) (f_app f) (f_ttychk f) (f_r f) (f_w f) (f_bufsize f) (f_fd f) (f_lbf f) (f_mode f) (f_errno f) (f_dev f).
Definition set_err b f := File (f_perm f) (f_nord f) (f_nowr f) (f_eof f) b (f_svb f) (f_app f) (f_ttychk f) (f_r f) (f_w f) (f_bufsize f) (f_fd f) (f_lbf f) (f_mode f) (f_errno f) (f_dev f).
Definition set_ttychk b f := File (f_perm f) (f_nord f) (f_nowr f) (f_eof f) (f_err f) (f_svb f) (f_app f) b (f_r f) (f_w f) (f_bufsize f) (f_fd f) (f_lbf f) (f_mode f) (f_errno f) (f_dev f).
Definition set_svb b f := File (f_perm f) (f_nord f) (f_nowr f) (f_eof f) (f_err f) b (f_app f) (f_ttychk f) (f_r f) (f_w f) (f_bufsize f) (f_fd f) (f_lbf f) (f_mode f) (f_errno f) (f_dev f).
Definition set_r r f := File (f_perm f) (f_nord f) (f_nowr f) (f_eof f) (f_err f) (f_svb f) (f_app f) (f_ttychk f) r (f_w f) (f_bufsize f) (f_fd f) (f_lbf f) (f_mode f) (f_errno f) (f_dev f).
Definition set_w w f := File (f_perm f) (f_nord f) (f_nowr f) (f_eof f) (f_err f) (f_svb f) (f_app f) (f_ttychk f) (f_r f) w (f_bufsize f) (f_fd f) (f_lbf f) (f_mode f) (f_errno f) (f_dev f).
Definition set_bufsize n f := File (f_perm f) (f_nord f) (f_nowr f) (f_eof f) (f_err f) (f_svb f) (f_app f) (f_ttychk f) (f_r f) (f_w f) n (f_fd f) (f_lbf f) (f_mode f) (f_errno f) (f_dev f).
Definition set_lbf l f := File (f_perm f) (f_nord f) (f_nowr f) (f_eof f) (f_err f) (f_svb f) (f_app f) (f_ttychk f) (f_r f) (f_w f) (f_bufsize f) (f_fd f) l (f_mode f) (f_errno f) (f_dev f).
Definition set_mode m f := File (f_perm f) (f_nord f) (f_nowr f) (f_eof f) (f_err f) (f_svb f) (f_app f) (f_ttychk f) (f_r f) (f_w f) (f_bufsize f) (f_fd f) (f_lbf f) m (f_errno f) (f_dev f).
Definition set_errno e f := File (f_perm f) (f_nord f) (f_nowr f) (f_eof f) (f_err f) (f_svb f) (f_app f) (f_ttychk f) (f_r f) (f_w f) (f_bufsize f) (f_fd f) (f_lbf f) (f_mode f) e (f_dev f).
Definition set_dev (d : D) (f : FILE D) : FILE D := File (f_perm f) (f_nord f) (f_nowr f) (f_eof f) (f_err f) (f_svb f) (f_app f) (f_ttychk f) (f_r f) (f_w f) (f_bufsize f) (f_fd f) (f_lbf f) (f_mode f) (f_errno f) d.

(** The bytes [wbase, wpos) and [rpos, rend). *)
Definition pending f : list Z := match f_w f with Some (_, p) => p | None => [] end.
Definition unread f : list Z := match f_r f with Some (_, u) => u | None => [] end.

(** wpos = wbase = buf; wend = buf + buf_size; *)
Definition w_reset f : FILE D := set_w (Some (f_bufsize f, [])) f.

(** wpos = wbase = wend = 0; flags |= F_ERR; *)
Definition w_fail f : FILE D := set_err true (set_w None f).
End Set_.

(** The operations behind the function pointers: the write function takes the
    bytes of its argument and returns how many of them were written, the read
    function a count and returns bytes. *)
Class Device (D : Type) := {
  f_write : FILE D → list Z → FILE D * nat;
  f_read : FILE D → nat → FILE D * list Z;
  f_seek : FILE D → Z → Z → FILE D * Z;
  isatty : FILE D → bool;
}.

(** ** Modes *)

Section Modes.
Context {D : Type} `{!Device D}.
Implicit Types f : FILE D.

(** The result is whether EOF is returned. *)
Definition __toread f : FILE D * bool :=
  let f := if f_mode f =? 0 then set_mode (-1) f else f in
  let f := if negb (length (pending f) =? 0)%nat then fst (f_write f []) else f in
  let f := set_w None f in
  if f_nord f then (set_errno EBADF (set_err true f), true)
  else
    let f := match f_r f with None => set_r (Some (UNGET, [])) f | Some _ => f end in
    (f, f_eof f).

Definition __towrite f : FILE D * bool :=
  let f := if f_mode f =? 0 then set_mode (-1) f else f in
  if f_nowr f then (set_errno EBADF (set_err true f), true)
  else
    let f :=
      if f_ttychk f then
        let f := set_ttychk false f in
        if negb (f_svb f) && isatty f then set_lbf 10 f else f
      else f in
    (w_reset (set_r None f), false).

(** if (!f->wend && __towrite(f)) *)
Definition need_write f : FILE D * bool := match f_w f with None => __towrite f | Some _ => (f, false) end.

(** ** Output *)

Definition __overflow f (ch : Z) : FILE D * Z :=
  let c := u8 ch in
  let '(f, fail) := need_write f in
  if fail then (f, EOF)
  else
    match f_w f with
    | None => (f, EOF)
    | Some (cap, p) =>
        if negb (length p =? cap)%nat && negb (c =? f_lbf f) then (set_w (Some (cap, p ++ [c])) f, c)
        else
          let '(f, n) := f_write f [c] in
          if negb (n =? 1)%nat then (f, EOF) else (f, c)
    end.

(** putc_unlocked_ *)
Definition putc_unlocked (c : Z) f : FILE D * Z :=
  match f_w f with
  | Some (cap, p) => if negb (u8 c =? f_lbf f) && negb (length p =? cap)%nat then (set_w (Some (cap, p ++ [u8 c])) f, u8 c) else __overflow f (u8 c)
  | None => if negb (u8 c =? f_lbf f) && false then (f, u8 c) else __overflow f (u8 c)
  end.

(** The number of bytes up to and including the last newline. *)
Fixpoint last_newline (s : list Z) : nat :=
  match s with
  | [] => 0
  | c :: s => match last_newline s with O => if c =? 10 then 1 else 0 | S n => S (S n) end
  end.

Definition __fwritex (s : list Z) f : FILE D * nat :=
  let '(f, fail) := need_write f in
  if fail then (f, 0%nat)
  else
    match f_w f with
    | None => (f, 0%nat)
    | Some (cap, p) =>
        if (cap - length p <? length s)%nat then f_write f s
        else if 0 <=? f_lbf f then
          let i := last_newline s in
          if (i =? 0)%nat then (set_w (Some (cap, p ++ s)) f, length s)
          else
            let '(f, n) := f_write f (take i s) in
            if (n <? i)%nat then (f, n)
            else
              match f_w f with
              | None => (f, n)
              | Some (cap, p) => (set_w (Some (cap, p ++ drop i s)) f, length s)
              end
        else (set_w (Some (cap, p ++ s)) f, length s)
    end.

Definition __fflush_unlocked f : FILE D * Z :=
  let '(f, fail) :=
    if negb (length (pending f) =? 0)%nat then
      let '(f, _) := f_write f [] in (f, match f_w f with None => true | Some _ => false end)
    else (f, false) in
  if fail then (f, EOF)
  else
    let f := if negb (length (unread f) =? 0)%nat then fst (f_seek f (- Z.of_nat (length (unread f))) 1) else f in
    (set_r None (set_w None f), 0).

(** Flushing every stream: stdout, stderr and the list of open ones. *)
Definition flush_output f : FILE D * Z := if negb (length (pending f) =? 0)%nat then __fflush_unlocked f else (f, 0).

Fixpoint fflush_all (fs : list (FILE D)) : list (FILE D) * Z :=
  match fs with
  | [] => ([], 0)
  | f :: fs => let '(f, r) := flush_output f in let '(fs, r') := fflush_all fs in (f :: fs, Z.lor r r')
  end.

(** At exit the buffers are written and unread input is given back. *)
Definition exit_flush f : FILE D :=
  let f := if negb (length (pending f) =? 0)%nat then fst (f_write f []) else f in
  if negb (length (unread f) =? 0)%nat then fst (f_seek f (- Z.of_nat (length (unread f))) 1) else f.

Definition __stdio_exit (fs : list (FILE D)) : list (FILE D) := exit_flush <$> fs.

(** size * nmemb, unless it overflows. *)
Definition mul_ok (a b : Z) f : FILE D * option Z :=
  if 2 ^ 64 <=? a * b then (set_errno EOVERFLOW f, None) else (f, Some (a * b)).

(** [src] holds size * nmemb bytes. *)
Definition fwrite (src : list Z) (size nmemb : Z) f : FILE D * Z :=
  let '(f, l) := mul_ok size nmemb f in
  match l with
  | None => (f, 0)
  | Some l =>
      if l =? 0 then (f, 0)
      else
        let '(f, k) := __fwritex (take (Z.to_nat l) src) f in
        (f, if Z.of_nat k =? l then nmemb else Z.of_nat k / size)
  end.

Definition fputs (s : list Z) f : FILE D * Z :=
  let '(f, k) := __fwritex s f in (f, if (k =? length s)%nat then 0 else EOF).

Definition puts (s : list Z) f : FILE D * Z :=
  let '(f, k) := __fwritex s f in
  if negb (k =? length s)%nat then (f, -1)
  else let '(f, c) := putc_unlocked 10 f in (f, if c =? EOF then -1 else 0).

(** ** Input *)

Definition __uflow f : FILE D * Z :=
  let '(f, eof) := __toread f in
  if eof then (f, EOF)
  else
    let '(f, bs) := f_read f (if (f_bufsize f =? 0)%nat then 1 else f_bufsize f) in
    match bs with
    | [] => (f, EOF)
    | c :: bs => (set_r (Some (S UNGET, bs)) f, c)
    end.

(** Take [k] of the unread bytes. *)
Definition r_take (k : nat) f : FILE D :=
  match f_r f with Some (pos, u) => set_r (Some ((pos + k)%nat, drop k u)) f | None => f end.

Definition getc_unlocked f : FILE D * Z :=
  match unread f with c :: _ => (r_take 1 f, c) | [] => __uflow f end.

Definition ungetc (c : Z) f : FILE D * Z :=
  if c =? EOF then (f, EOF)
  else
    let f := match f_r f with None => fst (__toread f) | Some _ => f end in
    match f_r f with
    | Some (S pos, u) => (set_eof false (set_r (Some (pos, u8 c :: u)) f), u8 c)
    | _ => (f, EOF)
    end.

(** The loop of fread; [l] bytes are still wanted, [d] has been read. The
    turns are at most two for each byte. *)
Fixpoint fread_loop (fuel : nat) (l : nat) (d : list Z) f : res (FILE D * list Z) :=
  match l with
  | O => Ok (f, d)
  | _ =>
      match fuel with
      | O => Trap Fuel
      | S fuel =>
          match unread f with
          | _ :: _ as u =>
              let k := Nat.min (length u) l in
              fread_loop fuel (l - k) (d ++ take k u) (r_take k f)
          | [] =>
              let '(f, eof) := __toread f in
              if eof then Ok (f, d)
              else if (f_bufsize f <=? l)%nat then
                let '(f, bs) := f_read f l in
                if (length bs =? 0)%nat then Ok (f, d) else fread_loop fuel (l - length bs) (d ++ bs) f
              else
                let '(f, bs) := f_read f (f_bufsize f) in
                if (length bs =? 0)%nat then Ok (f, d) else fread_loop fuel l d (set_r (Some (UNGET, bs)) f)
          end
      end
  end.

Definition fread (size nmemb : Z) f : res (FILE D * list Z * Z) :=
  let '(f, len) := mul_ok size nmemb f in
  match len with
  | None => Ok (f, [], 0)
  | Some len =>
      if len =? 0 then Ok (f, [], 0)
      else
        '(f, d) ← fread_loop (2 * Z.to_nat len) (Z.to_nat len) [] f;
        Ok (f, d, Z.of_nat (length d) / size)
  end.

(** memchr in the unread bytes: the bytes up to and including the first
    [c], or all of them. *)
Fixpoint upto (c : Z) (u : list Z) : list Z * bool :=
  match u with
  | [] => ([], false)
  | x :: u => if x =? c then ([x], true) else (let '(a, b) := upto c u in (x :: a, b))
  end.

(** The loop of fgets: what was read, and whether the stream is in error. *)
Fixpoint fgets_loop (fuel : nat) (room : nat) (p : list Z) f : res (FILE D * list Z * bool) :=
  match room with
  | O => Ok (f, p, false)
  | _ =>
      match fuel with
      | O => Trap Fuel
      | S fuel =>
          match unread f with
          | _ :: _ as u =>
              let k := Nat.min (length (fst (upto 10 u))) room in
              let f := r_take k f in
              let p := p ++ take k u in
              if bool_decide (last p = Some 10) then Ok (f, p, false) else fgets_loop fuel (room - k) p f
          | [] =>
              let '(f, c) := __uflow f in
              if c =? EOF then Ok (f, p, f_err f)
              else if c =? 10 then Ok (f, p ++ [c], false)
              else fgets_loop fuel (room - 1) (p ++ [c]) f
          end
      end
  end.

(** The result is the string, or null. *)
Definition fgets (n : Z) f : res (FILE D * option (list Z)) :=
  if n <=? 0 then Ok (set_errno EINVAL f, None)
  else
    '(f, p, err) ← fgets_loop (2 * Z.to_nat n) (Z.to_nat (n - 1)) [] f;
    Ok (f, if (err : bool) || ((length p =? 0)%nat && (1 <? n)) then None else Some p).

Definition SSIZE_MAX : Z := 2 ^ 63 - 1.
Definition ENOMEM : Z := 12.

(** What getdelim keeps between calls: *line is null or has *size bytes. *)
Record lbuf := Lbuf { l_null : bool; l_size : Z }.

(** Make room for [i] + [k] + 2 bytes; [alloc] says whether realloc succeeds
    for a size. The result is the buffer or the error. *)
Definition line_room (alloc : Z → bool) (i k : Z) (b : lbuf) : lbuf + Z :=
  if (l_size b <? i + k + 2) || l_null b then
    let m := u64 (i + k + 2) in
    if (m <? i) || (SSIZE_MAX <? m) then inr EOVERFLOW
    else
      let m := if m <? SSIZE_MAX / 2 then m + (m / 2 + 64) else m in
      if alloc m then inl (Lbuf false m) else inr ENOMEM
  else inl b.

(** The loop of getdelim: [d] are the i bytes stored so far. The last result
    is None if the line is complete, else the error of the failed allocation
    (0 at the end of the file). A store outside the buffer traps. *)
Fixpoint getdelim_loop (fuel : nat) (alloc : Z → bool) (delim : Z) (d : list Z) (b : lbuf) f : res (FILE D * lbuf * list Z * option Z) :=
  match fuel with
  | O => Trap Fuel
  | S fuel =>
      let '(part, z) := upto (u8 delim) (unread f) in
      let i := Z.of_nat (length d) in let k := Z.of_nat (length part) in
      match line_room alloc i k b with
      | inr e => Ok (f, b, d, Some e)
      | inl b =>
          if l_size b <? i + k then Trap Segv
          else
            let d := d ++ part in
            let f := r_take (length part) f in
            if (z : bool) then (if l_size b <? i + k + 1 then Trap Segv else Ok (f, b, d, None))
            else
              let '(f, c) := __uflow f in
              if c =? EOF then (if (length d =? 0)%nat || f_err f then Ok (f, b, d, Some 0) else if l_size b <? i + k + 1 then Trap Segv else Ok (f, b, d, None))
              else if l_size b <? i + k + 1 then Trap Segv
              else if c =? delim then (if l_size b <? i + k + 2 then Trap Segv else Ok (f, b, d ++ [c], None))
              else getdelim_loop fuel alloc delim (d ++ [c]) b f
      end
  end.

(** [null_arg]: line or size is a null pointer. *)
Definition getdelim (fuel : nat) (alloc : Z → bool) (null_arg : bool) (b : lbuf) (delim : Z) f : res (FILE D * lbuf * list Z * Z) :=
  if null_arg then Ok (set_errno EINVAL f, b, [], -1)
  else
    let b := if l_null b then Lbuf true 0 else b in
    '(f, b, d, e) ← getdelim_loop fuel alloc delim [] b f;
    match e with
    | None => Ok (f, b, d, Z.of_nat (length d))
    | Some e => Ok (if e =? 0 then f else set_err true (set_errno e f), b, d, -1)
    end.

Definition __fgets_chk (slen n : Z) f : res (FILE D * option (list Z)) := if (0 <? n) && (slen <? n) then Trap Abrt else fgets n f.

Definition __fread_chk (plen size n : Z) f : res (FILE D * list Z * Z) :=
  if (2 ^ 64 <=? size * n) || (plen <? size * n) then Trap Abrt else fread size n f.

(** ** Positioning and buffering *)

Definition SEEK_SET : Z := 0.
Definition SEEK_CUR : Z := 1.
Definition SEEK_END : Z := 2.

Definition __fseeko_unlocked f (off whence : Z) : FILE D * Z :=
  if negb (whence =? SEEK_SET) && negb (whence =? SEEK_CUR) && negb (whence =? SEEK_END) then (set_errno EINVAL f, -1)
  else
    let off := if (whence =? SEEK_CUR) && bool_decide (is_Some (f_r f)) then off - Z.of_nat (length (unread f)) else off in
    let '(f, fail) :=
      if negb (length (pending f) =? 0)%nat then
        let '(f, _) := f_write f [] in (f, match f_w f with None => true | Some _ => false end)
      else (f, false) in
    if fail then (f, -1)
    else
      let f := set_w None f in
      let '(f, r) := f_seek f off whence in
      if r <? 0 then (f, -1) else (set_eof false (set_r None f), 0).

Definition __ftello_unlocked f : FILE D * Z :=
  let whence := if f_app f && negb (length (pending f) =? 0)%nat then SEEK_END else SEEK_CUR in
  let '(f, pos) := f_seek f 0 whence in
  if pos <? 0 then (f, pos)
  else
    (f, match f_r f with
        | Some _ => pos - Z.of_nat (length (unread f))
        | None => match f_w f with Some _ => pos + Z.of_nat (length (pending f)) | None => pos end
        end).

Definition rewind f : FILE D := set_err false (fst (__fseeko_unlocked f 0 SEEK_SET)).

(** [buf] is the size of the buffer given, if one is. *)
Definition setvbuf f (buf : option nat) (mode : Z) : FILE D * Z :=
  let f := set_lbf (-1) f in
  if mode =? 2 then (set_ttychk false (set_svb true (set_bufsize 0 f)), 0)
  else if (mode =? 1) || (mode =? 0) then
    let f := match buf with Some size => if (UNGET + 1 <=? size)%nat then set_bufsize (size - UNGET) f else f | None => f end in
    let f := if (mode =? 1) && negb (f_bufsize f =? 0)%nat then set_lbf 10 f else f in
    (set_ttychk false (set_svb true f), 0)
  else (set_errno EINVAL f, -1).

Definition setbuf f (buf : bool) : FILE D := fst (setvbuf f (if buf then Some BUFSIZ else None) (if buf then 0 else 2)).
Definition setlinebuf f : FILE D := fst (setvbuf f None 1).

Definition feof f : bool := f_eof f.
Definition ferror f : bool := f_err f.
Definition clearerr f : FILE D := set_err false (set_eof false f).
Definition fileno f : FILE D * Z := if f_fd f <? 0 then (set_errno EBADF f, -1) else (f, f_fd f).
Definition __fpending f : Z := match f_w f with Some (_, p) => Z.of_nat (length p) | None => 0 end.
Definition __freading f : bool := f_nowr f || bool_decide (is_Some (f_r f)).
Definition __fwriting f : bool := f_nord f || bool_decide (is_Some (f_w f)).
Definition __fpurge f : FILE D := set_r None (set_w None f).
End Modes.

(** A stream as memset and __file_init leave it. *)
Definition __file_init {D} (fd : Z) (nord nowr : bool) (size : nat) (d : D) : FILE D :=
  File false nord nowr false false false false false None None (size - UNGET) fd (-1) 0 0 d.

(** ** Files *)

(** The kernel: what read, writev and lseek do to a descriptor. *)
Class Kernel (K : Type) := {
  sys_read : K → Z → nat → K * (list Z + Z);
  sys_writev : K → Z → list Z → K * Z;
  sys_lseek : K → Z → Z → Z → K * Z;
  sys_isatty : K → Z → bool;
}.

Section Fd.
Context {K : Type} `{!Kernel K}.
Implicit Types f : FILE K.

(** A count of 0 is the end of the file, a negative one an error. *)
Definition __stdio_read f (len : nat) : FILE K * list Z :=
  let '(k, r) := sys_read (f_dev f) (f_fd f) len in
  let f := set_dev k f in
  match r with
  | inl (_ :: _ as bs) => (f, bs)
  | inl [] => (set_eof true f, [])
  | inr e => (set_errno e (set_err true f), [])
  end.

(** The loop of __stdio_write: [a] is what is left of the first vector while
    [two], [b] what is left of the argument. The result is None at the end;
    after an error it is how much is left of the argument, with the answer
    of the kernel. Each turn writes at least one byte. *)
Fixpoint writev_loop (fuel : nat) (k : K) (fd : Z) (two : bool) (a b : list Z) : K * option (bool * nat * Z) :=
  let rem := if two then a ++ b else b in
  if (length rem =? 0)%nat then (k, None)
  else
    match fuel with
    | O => (k, Some (two, length b, 0))
    | S fuel =>
        let '(k, r) := sys_writev k fd rem in
        if r <=? 0 then (k, Some (two, length b, r))
        else
          let r := Z.to_nat r in
          if two && (r <? length a)%nat then writev_loop fuel k fd true (drop r a) b
          else writev_loop fuel k fd false [] (drop (if two then r - length a else r) b)
    end.

Definition __stdio_write f (s : list Z) : FILE K * nat :=
  let p := pending f in
  let '(k, e) := writev_loop (length p + length s) (f_dev f) (f_fd f) (negb (length p =? 0)%nat) p s in
  let f := set_dev k f in
  match e with
  | None => (w_reset f, length s)
  | Some (two, rest, r) =>
      let f := w_fail f in
      (if r <? 0 then set_errno (- r) f else f, if two : bool then 0%nat else (length s - rest)%nat)
  end.

Definition __stdio_seek f (off whence : Z) : FILE K * Z :=
  let '(k, r) := sys_lseek (f_dev f) (f_fd f) off whence in
  (if r <? 0 then set_errno (- r) (set_dev k f) else set_dev k f, if r <? 0 then -1 else r).

#[export] Instance fd_device : Device K := {
  f_write := __stdio_write; f_read := __stdio_read; f_seek := __stdio_seek; isatty f := sys_isatty (f_dev f) (f_fd f)
}.
End Fd.

(** ** Strings (src/src/printf.c) *)

(** struct sn: the bytes stored, in order, and the room left. *)
Record sn := Sn { sn_s : list Z; sn_n : Z }.

Definition sn_append (c : sn) (s : list Z) : sn :=
  let k := if Z.of_nat (length s) <? sn_n c then Z.of_nat (length s) else sn_n c in
  Sn (sn_s c ++ take (Z.to_nat k) s) (sn_n c - k).

(** The excess is discarded but still counted. *)
Definition sn_write (f : FILE sn) (s : list Z) : FILE sn * nat :=
  let c := sn_append (f_dev f) (pending f) in
  let c := sn_append c s in
  (w_reset (set_dev c f), length s).

#[export] Instance sn_device : Device sn := {
  f_write := sn_write; f_read f _ := (set_errno EBADF (set_err true f), []); f_seek f _ _ := (set_errno EBADF f, -1); isatty _ := false
}.
