(* ===== verification/Stdioout.v ===== *)
(** * Output streams deliver what is written, in order

    [Sink] is the contract of a write function (the comment in
    src/src/stdio_impl.h). The output functions of src/src/stdio.c are
    verified against it: a stream is the list of the bytes written to it,
    those the device has and then those still buffered. Files and strings
    satisfy the contract. *)
From S2P Require Import Prelude Stdio.

(** [accepted fd d t]: the device was given the bytes [t] (by that descriptor). A write either takes
    the buffered bytes and the argument, or takes a part of them, sets F_ERR
    and leaves write mode; a reliable device never does that. *)
Class Sink (D : Type) `{!Device D} := {
  accepted : Z → D → list Z → Prop;
  reliable : Prop;
  write_contract : ∀ (f : FILE D) s t, accepted (f_fd f) (f_dev f) t →
    let '(f', n) := f_write f s in
    (n = length s ∧ f' = w_reset (set_dev (f_dev f') f) ∧ accepted (f_fd f) (f_dev f') (t ++ pending f ++ s)) ∨
    (¬ reliable ∧ n <= length s ∧ (s ≠ [] → n < length s) ∧ (∃ e, f' = set_errno e (w_fail (set_dev (f_dev f') f))) ∧
     ∃ j, accepted (f_fd f) (f_dev f') (t ++ take j (pending f ++ s)))%nat;
}.

Section Output.
Context {D : Type} `{!Device D} `{!Sink D}.
Implicit Types f : FILE D.

(** The bytes written so far are [t]. The capacity is that of the buffer (it
    is not changed by setvbuf in write mode). A line-buffered stream holds
    back no newline. No input is
    buffered, and the stream is open for writing. *)
Record holds f (t : list Z) : Prop := {
  h_trace : ∃ t0, accepted (f_fd f) (f_dev f) t0 ∧ t = t0 ++ pending f;
  h_cap : match f_w f with Some (cap, p) => cap = f_bufsize f ∧ (length p <= cap)%nat | None => True end;
  h_line : 0 <= f_lbf f → 10 ∉ pending f;
  h_read : unread f = [];
  h_lbf : f_lbf f = -1 ∨ f_lbf f = 10;
  h_wr : f_nowr f = false;
}.

(** After an error: the device has a part of what was written. *)
Definition failed f (t : list Z) : Prop := ¬ reliable ∧ (f_err f = true ∧ f_w f = None) ∧ ∃ t0, accepted (f_fd f) (f_dev f) t0 ∧ t0 `prefix_of` t.

Lemma take_prefix {A} j (l : list A) : take j l `prefix_of` l.
Proof. exists (drop j l). by rewrite take_drop. Qed.

(** A write to the device. *)
Lemma f_write_ok f s t : holds f t → let '(f', n) := f_write f s in
  (n = length s ∧ f' = w_reset (set_dev (f_dev f') f) ∧ holds f' (t ++ s)) ∨ ((n <= length s)%nat ∧ (s ≠ [] → (n < length s)%nat) ∧ f_w f' = None ∧ failed f' (t ++ s)).
Proof.
  intros [(t0 & Ha & ->) Hc Hl Hr Hb Hn]. pose proof (write_contract f s t0 Ha) as H. destruct (f_write f s) as [f' n]. destruct H as [(-> & E & H)|(H0 & H1 & H2 & (e & E) & j & H3)].
  - left. split_and!; [done | done|]. rewrite E. split.
    + exists (t0 ++ pending f ++ s). split; [done|]. cbn. by rewrite app_nil_r, app_assoc.
    + cbn. split; [done | lia].
    + intros _. cbn. apply not_elem_of_nil.
    + done.
    + done.
    + done.
  - right. split_and!; [done | done | by rewrite E|]. split; [done|]. split; [by rewrite E|]. exists (t0 ++ take j (pending f ++ s)). split; [by rewrite E; cbn|]. rewrite <- app_assoc. apply prefix_app, take_prefix.
Qed.

(** Entering write mode keeps the trace: there is nothing buffered then. *)
Lemma need_write_ok f t : holds f t → let '(f', b) := need_write f in
  b = false ∧ holds f' t ∧ (f_err f' = f_err f ∧ f_errno f' = f_errno f) ∧ is_Some (f_w f') ∧ f_bufsize f' = f_bufsize f.
Proof.
  intros H. unfold need_write. destruct (f_w f) as [[cap p]|] eqn:Ew; [split_and!; [done | done | done | done | by rewrite Ew | done]|].
  destruct H as [(t0 & Ha & Et) Hc Hl Hr Hb Hn]. unfold pending in Et, Hl. rewrite Ew in Et, Hl. rewrite app_nil_r in Et. subst t0. unfold __towrite. set (f1 := if f_mode f =? 0 then set_mode (-1) f else f).
  assert (f_fd f1 = f_fd f ∧ f_dev f1 = f_dev f ∧ f_err f1 = f_err f ∧ f_bufsize f1 = f_bufsize f ∧ f_nowr f1 = f_nowr f ∧ f_lbf f1 = f_lbf f ∧ f_errno f1 = f_errno f) as (D0 & D1 & D3 & D4 & D5 & D7 & D8) by (unfold f1; destruct (f_mode f =? 0); done).
  clearbody f1. rewrite D5, Hn. set (f2 := if f_ttychk f1 then _ else f1).
  assert (f_fd f2 = f_fd f ∧ f_dev f2 = f_dev f ∧ f_err f2 = f_err f ∧ f_bufsize f2 = f_bufsize f ∧ f_nowr f2 = f_nowr f ∧ (f_lbf f2 = -1 ∨ f_lbf f2 = 10) ∧ f_errno f2 = f_errno f) as (G0 & G1 & G2 & G3 & G4 & G5 & G6).
  { unfold f2. rewrite <- D7 in Hb. destruct (f_ttychk f1); [|split_and!; congruence]. destruct (negb (f_svb (set_ttychk false f1)) && isatty (set_ttychk false f1)); cbn; split_and!; try congruence; by right. }
  clearbody f2. split; [done|]. split; [|split_and!; done].
  split; cbn; rewrite ?G0, ?G1, ?G4; [exists t; by rewrite app_nil_r | split; [done | lia] | intros _; apply not_elem_of_nil | done | done | done].
Qed.

Lemma last_newline_ok s : (10 ∉ drop (last_newline s) s) ∧ (last_newline s <= length s)%nat.
Proof.
  induction s as [|c s [IH1 IH2]]; cbn [last_newline]; [split; [apply not_elem_of_nil | done]|]. destruct (last_newline s) as [|n] eqn:E.
  - rewrite drop_0 in IH1. destruct (Z.eqb_spec c 10) as [->|Hc]; cbn [drop length]; [rewrite drop_0; split; [done | lia]|]. split; [|lia]. rewrite not_elem_of_cons. split; [lia | done].
  - cbn [drop length]. split; [exact IH1 | lia].
Qed.

Lemma holds_append f t cap p s : holds f t → f_w f = Some (cap, p) → (length p + length s <= cap)%nat → (0 <= f_lbf f → 10 ∉ s) → holds (set_w (Some (cap, p ++ s)) f) (t ++ s).
Proof.
  intros [(t0 & Ha & ->) Hc Hl Hr Hb Hn] Ew Hlen Hs. unfold pending in *. rewrite Ew in *. split; cbn; [| | | done | done | done].
  - exists t0. split; [done|]. by rewrite app_assoc.
  - rewrite length_app. split; [by destruct Hc | lia].
  - intros Hlb. unfold pending. cbn. rewrite elem_of_app. intros [?|?]; [by apply Hl | by apply Hs].
Qed.

(** __fwritex takes all the bytes, or reports the error. *)
Lemma fwritex_ok f s t : holds f t → let '(f', n) := __fwritex s f in
  (n = length s ∧ holds f' (t ++ s) ∧ (f_err f' = f_err f ∧ f_errno f' = f_errno f) ∧ f_bufsize f' = f_bufsize f) ∨ ((n < length s)%nat ∧ failed f' (t ++ s)).
Proof.
  intros Hh. unfold __fwritex. pose proof (need_write_ok f t Hh) as Hn. destruct (need_write f) as [f1 b].
  destruct Hn as (-> & H1 & E1 & [[cap p] Ew] & E2). rewrite Ew. pose proof (h_cap _ _ H1) as Hcap. rewrite Ew in Hcap. destruct Hcap as [Hcs Hcap].
  destruct (Nat.ltb_spec (cap - length p) (length s)) as [Hbig|Hfit].
  { pose proof (f_write_ok f1 s t H1) as Hw. destruct (f_write f1 s) as [f2 n]. destruct Hw as [(-> & E & H2)|(H2 & H3 & H4 & H5)]; [left | right; split; [apply H3; destruct s; [cbn in Hbig; lia | done] | done]].
    rewrite E. cbn. split_and!; [done | rewrite <- E; done | by destruct E1 | by destruct E1 | done]. }
  destruct (Z.leb_spec 0 (f_lbf f1)) as [Hlb|Hlb].
  2: { left. split; [done|]. split; [apply holds_append; [done | done | lia | lia] | done]. }
  destruct (last_newline_ok s) as [N1 N2]. destruct (Nat.eqb_spec (last_newline s) 0) as [Hz|Hz].
  { rewrite Hz, drop_0 in N1. left. split; [done|]. split; [apply holds_append; [done | done | lia | done] | done]. }
  set (i := last_newline s) in *. pose proof (f_write_ok f1 (take i s) t H1) as Hw. destruct (f_write f1 (take i s)) as [f2 n]. assert (length (take i s) = i) as Hli by (rewrite length_take; lia). assert (take i s ≠ []) as Hne by (intros E; rewrite E in Hli; cbn in Hli; lia).
  destruct Hw as [(-> & E & H2)|(H2 & H3 & H4 & H5)].
  - rewrite Hli, Nat.ltb_irrefl. assert (f_w f2 = Some (f_bufsize f1, [])) as Ew2 by (rewrite E; done). rewrite Ew2. left. cbn [app].
    assert ((f_err f2 = f_err f ∧ f_errno f2 = f_errno f) ∧ f_bufsize f2 = f_bufsize f) as [E3 E4] by (rewrite E; done).
    split; [done|]. split; [|done]. rewrite <- (take_drop i s) at 2. rewrite app_assoc. apply (holds_append f2 _ _ []); [done | done | cbn; rewrite length_drop; lia | done].
  - specialize (H3 Hne). rewrite Hli in H3. rewrite (proj2 (Nat.ltb_lt _ _)) by done. right. split; [lia|]. destruct H5 as (H5' & H5 & t0 & H6 & H7). split; [done|]. split; [done|]. exists t0. split; [done|]. etrans; [exact H7|]. apply prefix_app, take_prefix.
Qed.

(** A character at a time. *)
Lemma overflow_char_ok f c t : holds f t → let '(f', r) := __overflow f c in
  (r = u8 c ∧ holds f' (t ++ [u8 c]) ∧ f_err f' = f_err f) ∨ (r = EOF ∧ failed f' (t ++ [u8 c])).
Proof.
  intros Hh. unfold __overflow. pose proof (need_write_ok f t Hh) as Hn. destruct (need_write f) as [f1 b].
  destruct Hn as (-> & H1 & E1 & [[cap p] Ew] & E2). rewrite Ew. pose proof (h_cap _ _ H1) as Hcap. rewrite Ew in Hcap. destruct Hcap as [Hcs Hcap].
  destruct (Nat.eqb_spec (length p) cap) as [Hfull|Hfull]; cbn [negb andb]; [|destruct (Z.eqb_spec (u8 c) (f_lbf f1)) as [Hlb|Hlb]; cbn [negb]].
  3: { left. split_and!; [done | | exact (proj1 E1)]. apply holds_append; [done | done | cbn; lia|]. intros Hl. destruct (h_lbf _ _ H1) as [E|E]; [lia|]. rewrite list_elem_of_singleton. lia. }
  all: pose proof (f_write_ok f1 [u8 c] t H1) as Hw; destruct (f_write f1 [u8 c]) as [f2 n]; destruct Hw as [(-> & E & H2)|(H2 & H3 & H4 & H5)]; cbn [length] in *.
  all: first [rewrite Nat.eqb_refl; cbn [negb]; left; split_and!; [done | done | rewrite E; exact (proj1 E1)]
    | specialize (H3 ltac:(done)); replace (n =? 1)%nat with false by (symmetry; apply Nat.eqb_neq; lia); cbn [negb]; by right].
Qed.

Lemma u8_idem c : u8 (u8 c) = u8 c.
Proof. unfold u8, uwrap. apply Z.mod_mod. lia. Qed.

Lemma putc_ok f c t : holds f t → let '(f', r) := putc_unlocked c f in
  (r = u8 c ∧ holds f' (t ++ [u8 c]) ∧ f_err f' = f_err f) ∨ (r = EOF ∧ failed f' (t ++ [u8 c])).
Proof.
  intros Hh. unfold putc_unlocked. pose proof (overflow_char_ok f (u8 c) t Hh) as Ho. rewrite !u8_idem in Ho. destruct (f_w f) as [[cap p]|] eqn:Ew; [|by rewrite andb_false_r].
  destruct (Z.eqb_spec (u8 c) (f_lbf f)) as [Hlb|Hlb]; cbn [negb andb]; [done|]. destruct (Nat.eqb_spec (length p) cap) as [Hfull|Hfull]; cbn [negb]; [done|].
  left. pose proof (h_cap _ _ Hh) as Hcap. rewrite Ew in Hcap. split_and!; [done | | done]. apply holds_append; [done | done | cbn; lia|]. intros Hl. destruct (h_lbf _ _ Hh) as [E|E]; [lia|]. rewrite list_elem_of_singleton. lia.
Qed.

(** After a successful flush the device has every byte. *)
Lemma fflush_ok f t : holds f t → let '(f', r) := __fflush_unlocked f in
  (r = 0 ∧ holds f' t ∧ f_err f' = f_err f ∧ pending f' = [] ∧ accepted (f_fd f') (f_dev f') t) ∨ (r = EOF ∧ failed f' t).
Proof.
  intros Hh. unfold __fflush_unlocked.
  assert (∀ f1, holds f1 t → f_err f1 = f_err f → pending f1 = [] →
    let f2 := if negb (length (unread f1) =? 0)%nat then fst (f_seek f1 (- Z.of_nat (length (unread f1))) 1) else f1 in
    let f' := set_r None (set_w None f2) in holds f' t ∧ f_err f' = f_err f ∧ pending f' = [] ∧ accepted (f_fd f') (f_dev f') t) as Hend.
  { intros f1 [(t0 & Ha & ->) H1 H2 H3 H4 H5] E1 E2. rewrite H3, E2, app_nil_r. cbn. split_and!; try done. split; cbn; [exists t0; by rewrite app_nil_r | done | intros _; apply not_elem_of_nil | done | done | done]. }
  destruct (pending f) as [|c p] eqn:Ep; cbn [length Nat.eqb negb]; [left; split; [done | by apply Hend]|].
  pose proof (f_write_ok f [] t Hh) as Hw. rewrite app_nil_r in Hw. destruct (f_write f []) as [f1 n]. destruct Hw as [(-> & E & H2)|(_ & _ & H4 & H5)].
  - assert (f_w f1 = Some (f_bufsize f, [])) as Ew by (by rewrite E). rewrite Ew. left. split; [done|]. apply Hend; [done | by rewrite E | by unfold pending; rewrite Ew].
  - rewrite H4. right. done.
Qed.

Lemma fflush_fd f t : holds f t → let '(f', _) := __fflush_unlocked f in f_fd f' = f_fd f ∧ f_perm f' = f_perm f.
Proof.
  intros Hh. unfold __fflush_unlocked. pose proof (h_read _ _ Hh) as Hr. destruct (pending f) as [|c p] eqn:Ep; cbn [length Nat.eqb negb]; [by rewrite Hr|].
  destruct (h_trace _ _ Hh) as (t0 & Ha & _). pose proof (write_contract f [] t0 Ha) as Hw. destruct (f_write f []) as [f1 n].
  assert (f_fd f1 = f_fd f ∧ f_perm f1 = f_perm f ∧ unread f1 = unread f) as (E1 & E2 & E3).
  { destruct Hw as [(_ & E & _)|(_ & _ & _ & (e & E) & _)]; rewrite E; done. }
  destruct (f_w f1); [|done]. rewrite E3, Hr. done.
Qed.
End Output.

(** ** Files *)

(** What the kernel promises of writev: it appends the first bytes, at least
    one and as many as it says, or writes nothing and answers an error. *)
Class KernelLaws (K : Type) `{!Kernel K} := {
  wrote : K → Z → list Z;
  writev_law : ∀ k fd bs, let '(k', r) := sys_writev k fd bs in
    if r <=? 0 then wrote k' fd = wrote k fd else r <= Z.of_nat (length bs) ∧ wrote k' fd = wrote k fd ++ take (Z.to_nat r) bs;
}.

Section Files.
Context {K : Type} `{!Kernel K} `{!KernelLaws K}.

Lemma writev_loop_ok fuel (k : K) fd (two : bool) a b : (length (if two then a ++ b else b) <= fuel)%nat →
  let rem := if two then a ++ b else b in
  let '(k', e) := writev_loop fuel k fd two a b in
  match e with
  | None => wrote k' fd = wrote k fd ++ rem
  | Some (two', rest, r) => (∃ j, wrote k' fd = wrote k fd ++ take j rem) ∧ r <= 0 ∧ (rest <= length b)%nat ∧ (two' = false → 0 < rest)%nat
  end.
Proof.
  revert k two a b. induction fuel as [|fuel IH]; intros k two a b Hf rem; cbn [writev_loop]; fold rem; destruct (Nat.eqb_spec (length rem) 0) as [Hz|Hz].
  1, 3: apply nil_length_inv in Hz; by rewrite Hz, app_nil_r.
  { unfold rem in Hz. lia. }
  pose proof (writev_law k fd rem) as Hl. destruct (sys_writev k fd rem) as [k1 n]. destruct (Z.leb_spec n 0) as [Hn|Hn].
  { split_and!; [exists 0%nat; by rewrite take_0, app_nil_r | done | done|]. intros ->. unfold rem in Hz. lia. }
  destruct Hl as [Hle Hw]. set (i := Z.to_nat n) in *.
  (* the rest is [drop i rem] *)
  assert (∀ two' a' b', (if two' : bool then a' ++ b' else b') = drop i rem → (length b' <= length b)%nat →
    let '(k', e) := writev_loop fuel k1 fd two' a' b' in
    match e with
    | None => wrote k' fd = wrote k fd ++ rem
    | Some (two', rest, r) => (∃ j, wrote k' fd = wrote k fd ++ take j rem) ∧ r <= 0 ∧ (rest <= length b)%nat ∧ (two' = false → 0 < rest)%nat
    end) as Hnext.
  { intros two' a' b' E Hb. specialize (IH k1 two' a' b'). rewrite E in IH. cbn zeta in IH. specialize (IH ltac:(rewrite length_drop; unfold rem in *; lia)).
    destruct (writev_loop fuel k1 fd two' a' b') as [k2 [[[two2 rest] r]|]].
    - destruct IH as ((j & IH) & H1 & H2 & H3). split_and!; [|done | lia | done]. exists (i + j)%nat. rewrite IH, Hw, <- app_assoc. f_equal. rewrite <- (take_drop i (take (i + j) rem)). rewrite take_take, take_drop_commute. f_equal. f_equal. lia.
    - rewrite IH, Hw, <- app_assoc. by rewrite take_drop. }
  destruct two; cbn [andb].
  - destruct (Nat.ltb_spec i (length a)) as [Hi|Hi]; [|apply (Hnext false); [unfold rem; rewrite drop_app_ge by lia; done | rewrite length_drop; lia]].
    apply (Hnext true); [unfold rem; by rewrite drop_app_le by lia | done].
  - apply (Hnext false); [done | rewrite length_drop; lia].
Qed.

#[export] Program Instance fd_sink : Sink K := {| accepted fd k t := wrote k fd = t; reliable := False |}.
Next Obligation.
  intros f s t Ha. cbn [f_write fd_device]. unfold __stdio_write. pose proof (writev_loop_ok (length (pending f) + length s) (f_dev f) (f_fd f) (negb (length (pending f) =? 0)%nat) (pending f) s) as H.
  assert ((if negb (length (pending f) =? 0)%nat then pending f ++ s else s) = pending f ++ s) as Erem by (by destruct (pending f)). rewrite Erem in H. cbn zeta in H. rewrite length_app in H. specialize (H (le_n _)).
  destruct (writev_loop _ _ _ _ _ _) as [k e]. rewrite Ha in H. destruct e as [[[two rest] r]|]; [right | left; done].
  destruct H as ((j & H1) & H2 & H3 & H4). assert (∀ e, f_dev (set_errno e (w_fail (set_dev k f))) = k) as Hd by done.
  split_and!; [tauto | destruct two; lia | intros Hs; destruct s; [done|]; cbn [length] in *; destruct two; [lia | specialize (H4 eq_refl); lia] | |].
  - destruct (r <? 0); [by exists (- r) | by exists (f_errno f)].
  - exists j. by destruct (r <? 0).
Qed.
End Files.

(** ** Strings *)

(** The string has the first bytes, as many as there is room for; a string
    never refuses. *)
#[export] Program Instance sn_sink (room : nat) : Sink sn :=
  {| accepted _ c t := sn_s c = take room t ∧ sn_n c = Z.of_nat (room - length t); reliable := True |}.
Next Obligation.
  intros room f s t [Ha1 Ha2]. cbn [f_write sn_device]. unfold sn_write. left. split; [done|]. split; [done|].
  assert (∀ c t u, sn_s c = take room t ∧ sn_n c = Z.of_nat (room - length t) → sn_s (sn_append c u) = take room (t ++ u) ∧ sn_n (sn_append c u) = Z.of_nat (room - length (t ++ u))) as Happ.
  { clear. intros c t u [H1 H2]. unfold sn_append. rewrite H1, H2, length_app. cbn [sn_s sn_n]. set (k := if _ <? _ then _ else _).
    assert (k = Z.of_nat (Nat.min (length u) (room - length t))) as -> by (unfold k; destruct (Z.ltb_spec (Z.of_nat (length u)) (Z.of_nat (room - length t))); lia). rewrite Nat2Z.id. split; [|lia].
    rewrite take_app. f_equal. destruct (decide (length u <= room - length t)%nat); [rewrite Nat.min_l by lia; rewrite !take_ge by lia; done | by rewrite Nat.min_r by lia]. }
  change (f_dev (w_reset (set_dev ?c ?f))) with c. rewrite app_assoc. by apply Happ, Happ.
Qed.

(** ** Programs that write *)

(** Calls of the output functions: the bytes a call means to write, and the
    call with whether its result says that it succeeded. *)
Inductive wop := Putc (c : Z) | Fwrite (src : list Z) (size nmemb : Z) | Fputs (s : list Z) | Puts (s : list Z) | Fflush.

Definition wop_ok (o : wop) : Prop :=
  match o with
  | Fwrite src size nmemb => 0 <= size ∧ 0 <= nmemb ∧ size * nmemb < 2 ^ 64 ∧ Z.of_nat (length src) = size * nmemb
  | _ => True
  end.

Definition wop_bytes (o : wop) : list Z :=
  match o with Putc c => [u8 c] | Fwrite src _ _ => src | Fputs s => s | Puts s => s ++ [10] | Fflush => [] end.

Section Run.
Context {D : Type} `{!Device D}.
Implicit Types f : FILE D.

Definition wcall (o : wop) f : FILE D * bool :=
  match o with
  | Putc c => let '(f, r) := putc_unlocked c f in (f, negb (r =? EOF))
  | Fwrite src size nmemb => let '(f, r) := fwrite src size nmemb f in (f, (size * nmemb =? 0) || (r =? nmemb))
  | Fputs s => let '(f, r) := fputs s f in (f, negb (r =? EOF))
  | Puts s => let '(f, r) := puts s f in (f, negb (r =? EOF))
  | Fflush => let '(f, r) := __fflush_unlocked f in (f, negb (r =? EOF))
  end.

(** The calls up to the first that fails. *)
Fixpoint wcalls (os : list wop) f : FILE D * bool :=
  match os with
  | [] => (f, true)
  | o :: os => let '(f, ok) := wcall o f in if ok then wcalls os f else (f, false)
  end.

Context `{!Sink D}.

Lemma failed_prefix f t t' : failed f t → t `prefix_of` t' → failed f t'.
Proof. intros (H & H' & t0 & H1 & H2) Hp. split; [done|]. split; [done|]. exists t0. split; [done|]. by etrans. Qed.

Lemma u8_not_eof c : (u8 c =? EOF) = false.
Proof. apply Z.eqb_neq. pose proof (Z.mod_pos_bound c (2 ^ 8) ltac:(lia)). unfold u8, uwrap, EOF. lia. Qed.

Lemma fwrite_ok f src size nmemb t : holds f t → 0 <= size → 0 <= nmemb → size * nmemb < 2 ^ 64 → Z.of_nat (length src) = size * nmemb →
  let '(f', r) := fwrite src size nmemb f in
  (size * nmemb = 0 ∨ r = nmemb) ∧ holds f' (t ++ src) ∨ size * nmemb ≠ 0 ∧ r < nmemb ∧ failed f' (t ++ src).
Proof.
  intros Hh H1 H2 H3 H4. unfold fwrite, mul_ok. replace (2 ^ 64 <=? size * nmemb) with false by (symmetry; apply Z.leb_gt; done). destruct (Z.eqb_spec (size * nmemb) 0) as [Hz|Hz].
  { assert (src = []) as -> by (apply nil_length_inv; lia). rewrite app_nil_r. left. split; [by left | done]. }
  rewrite take_ge by lia. pose proof (fwritex_ok f src t Hh) as Hw. destruct (__fwritex src f) as [f1 k]. destruct Hw as [(-> & Hh1 & _)|[Hk Hf]].
  - rewrite H4, Z.eqb_refl. left. split; [by right | done].
  - replace (Z.of_nat k =? size * nmemb) with false by (symmetry; apply Z.eqb_neq; lia). right. split_and!; [done | | done]. apply Z.div_lt_upper_bound; nia.
Qed.

Lemma puts_ok f s t : holds f t → let '(f', r) := puts s f in r = 0 ∧ holds f' (t ++ s ++ [10]) ∨ r = -1 ∧ failed f' (t ++ s ++ [10]).
Proof.
  intros Hh. unfold puts. pose proof (fwritex_ok f s t Hh) as Hw. destruct (__fwritex s f) as [f1 k]. destruct Hw as [(-> & Hh1 & _)|[Hk Hf]].
  - rewrite Nat.eqb_refl. cbn [negb]. pose proof (putc_ok f1 10 _ Hh1) as Hp. rewrite <- app_assoc in Hp. destruct (putc_unlocked 10 f1) as [f2 c]. destruct Hp as [(-> & Hh2 & _)|[-> Hf]].
    + rewrite u8_not_eof. by left.
    + by right.
  - replace (k =? length s)%nat with false by (symmetry; apply Nat.eqb_neq; lia). right. split; [done|]. eapply failed_prefix; [done|]. rewrite app_assoc. by apply prefix_app_r.
Qed.

Lemma wcall_ok o f t : holds f t → wop_ok o → let '(f', ok) := wcall o f in if ok then holds f' (t ++ wop_bytes o) else failed f' (t ++ wop_bytes o).
Proof.
  intros Hh Ho. destruct o as [c|src size nmemb|s|s|]; cbn [wcall wop_bytes].
  - pose proof (putc_ok f c t Hh) as Hp. destruct (putc_unlocked c f) as [f1 r]. destruct Hp as [(-> & Hp & _)|[-> Hp]]; [by rewrite u8_not_eof | done].
  - destruct Ho as (H1 & H2 & H3 & H4). pose proof (fwrite_ok f src size nmemb t Hh H1 H2 H3 H4) as Hp. destruct (fwrite src size nmemb f) as [f1 r]. destruct Hp as [[[E| ->] Hp]|(E & Hr & Hp)].
    + by rewrite E.
    + by rewrite Z.eqb_refl, orb_true_r.
    + rewrite (proj2 (Z.eqb_neq _ _) E), (proj2 (Z.eqb_neq _ _)) by lia. done.
  - pose proof (fwritex_ok f s t Hh) as Hw. unfold fputs. destruct (__fwritex s f) as [f1 k]. destruct Hw as [(-> & Hh1 & _)|[Hk Hf]]; [by rewrite Nat.eqb_refl|].
    replace (k =? length s)%nat with false by (symmetry; apply Nat.eqb_neq; lia). done.
  - pose proof (puts_ok f s t Hh) as Hp. destruct (puts s f) as [f1 r]. destruct Hp as [[-> Hp]|[-> Hp]]; done.
  - rewrite app_nil_r. pose proof (fflush_ok f t Hh) as Hp. destruct (__fflush_unlocked f) as [f1 r]. destruct Hp as [(-> & Hp & _)|[-> Hp]]; done.
Qed.

Lemma wcalls_ok os f t : holds f t → Forall wop_ok os → let '(f', ok) := wcalls os f in
  let t' := t ++ concat (wop_bytes <$> os) in if ok then holds f' t' else failed f' t'.
Proof.
  intros Hh Hos. revert f t Hh. induction Hos as [|o os Ho Hos IH]; intros f t Hh; cbn [wcalls fmap list_fmap concat]; [by rewrite app_nil_r|].
  pose proof (wcall_ok o f t Hh Ho) as Hc. destruct (wcall o f) as [f1 ok]. rewrite app_assoc. destruct ok; [by apply IH|]. eapply failed_prefix; [done|]. by apply prefix_app_r.
Qed.

(** A stream as fdopen leaves it holds nothing. *)
Lemma init_holds fd nord size (d : D) : accepted fd d [] → holds (__file_init fd nord false size d) [].
Proof. intros Ha. split; cbn; [by exists [] | done | intros _; apply not_elem_of_nil | done | by left | done]. Qed.
End Run.

(** C16: output through a buffer, for any kernel that keeps the promise of
    writev (short writes and errors included). After any calls of putc,
    fwrite, fputs, puts and fflush that report success, what the kernel has
    been given for the descriptor followed by what is still buffered is
    exactly what was written, in order; the buffer is not overrun; a
    line-buffered stream holds back no newline; and if fflush then succeeds
    the kernel has it all. If a call fails, the error indicator is set and
    the kernel has the beginning of what was written. *)
Theorem stdio_output {K} `{!Kernel K} `{!KernelLaws K} (f : FILE K) (os : list wop) (t : list Z) :
  holds f t → Forall wop_ok os →
  let all := t ++ concat (wop_bytes <$> os) in
  let file g := wrote (f_dev g) (f_fd g) in
  let '(f1, ok) := wcalls os f in
  if ok then
    file f1 ++ pending f1 = all ∧
    (f_w f1 ≠ None → length (pending f1) <= f_bufsize f1)%nat ∧
    (0 <= f_lbf f1 → 10 ∉ pending f1) ∧
    let '(f2, r) := __fflush_unlocked f1 in
    if r =? 0 then file f2 = all ∧ pending f2 = [] else r = EOF ∧ ferror f2 = true ∧ file f2 `prefix_of` all
  else ferror f1 = true ∧ file f1 `prefix_of` all.
Proof.
  intros Hh Hos all file. pose proof (wcalls_ok os f t Hh Hos) as H. destruct (wcalls os f) as [f1 ok]. cbn zeta in H. fold all in H. destruct ok; [|destruct H as (_ & [H1 _] & t0 & <- & H3); done].
  pose proof (fflush_ok f1 all H) as Hf. destruct H as [(t0 & <- & H1) H2 H3 _ _ _]. split_and!; [done | | done|].
  - unfold pending in *. destruct (f_w f1) as [[cap p]|]; [|done]. destruct H2 as [-> H2]. done.
  - destruct (__fflush_unlocked f1) as [f2 r]. destruct Hf as [(-> & _ & _ & Hp & Ha)|(-> & _ & [He _] & t1 & <- & Hp)]; done.
Qed.

(** A disk: the bytes of a file, and how many it may have; a call writes at
    most three bytes. *)
Record disk := Disk { d_file : list Z; d_room : nat }.

Definition disk_writev (k : disk) (_ : Z) (bs : list Z) : disk * Z :=
  let n := Nat.min 3 (Nat.min (length bs) (d_room k)) in
  if (n =? 0)%nat then (k, -28) else (Disk (d_file k ++ take n bs) (d_room k - n), Z.of_nat n).

#[export] Instance disk_kernel : Kernel disk := {
  sys_read k _ _ := (k, inl []); sys_writev := disk_writev; sys_lseek k _ _ _ := (k, -29); sys_isatty _ _ := false
}.

#[export] Program Instance disk_laws : KernelLaws disk := {| wrote k _ := d_file k |}.
Next Obligation.
  intros k fd bs. cbn. unfold disk_writev. destruct (Nat.eqb_spec (Nat.min 3 (Nat.min (length bs) (d_room k))) 0) as [E|E]; [done|].
  replace (_ <=? 0) with false by (symmetry; apply Z.leb_gt; lia). split; [lia|]. cbn [d_file]. by rewrite Nat2Z.id.
Qed.

Lemma stdio_output_witness :
  let f := set_lbf 10 (__file_init 1 true false (UNGET + 6) (Disk [] 40)) in
  let '(f1, ok) := wcalls [Fputs [97; 98; 10; 99]; Putc 100; Fwrite [1; 2; 3; 4; 5; 6] 2 3; Puts [101]; Putc 102] f in
  ok = true ∧ d_file (f_dev f1) ++ pending f1 = [97; 98; 10; 99; 100; 1; 2; 3; 4; 5; 6; 101; 10; 102] ∧ pending f1 = [102].
Proof.
  intros f.
  assert (holds f []) as Hh by (split; cbn; [by exists [] | done | intros _; apply not_elem_of_nil | done | by right | done]).
  pose proof (stdio_output f [Fputs [97; 98; 10; 99]; Putc 100; Fwrite [1; 2; 3; 4; 5; 6] 2 3; Puts [101]; Putc 102] [] Hh) as H.
  assert (Forall wop_ok [Fputs [97; 98; 10; 99]; Putc 100; Fwrite [1; 2; 3; 4; 5; 6] 2 3; Puts [101]; Putc 102]) as Hos by (repeat constructor; done).
  specialize (H Hos). destruct (wcalls _ f) as [f1 ok] eqn:E. assert (ok = true) as -> by (vm_compute in E; congruence). split; [done|]. destruct H as [H _]. split; [exact H|].
  vm_compute in E. assert (pending f1 = [102]) as -> by (by injection E as <-). done.
Defined.
