(* ===== verification/Stdioopen.v ===== *)
(** * Opening and closing streams (src/src/stdio.c)

    fopen, fdopen, freopen and fclose over a kernel that opens files. The
    open-file list is the list of the streams, held by the callers of
    [fflush_all] and [__stdio_exit]. A file name is a list of bytes; a null
    pointer is None. *)
From S2P Require Import Prelude Lit Stdio Stdioout.

Definition O_RDONLY : Z := 0.
Definition O_WRONLY : Z := 1.
Definition O_RDWR : Z := 2.
Definition O_CREAT : Z := 0x40.
Definition O_EXCL : Z := 0x80.
Definition O_TRUNC : Z := 0x200.
Definition O_APPEND : Z := 0x400.
Definition O_CLOEXEC : Z := 0x80000.
Definition EINTR : Z := 4.

(** System calls; a negative answer is an error. *)
Class Files (K : Type) := {
  sys_openat : K → list Z → Z → K * Z;
  sys_close : K → Z → K * Z;
  sys_dup3 : K → Z → Z → Z → K * Z;
  sys_getfl : K → Z → K * Z;
  sys_setfl : K → Z → Z → K * Z;
  sys_setfd : K → Z → Z → K * Z;
}.

(** strchr(mode, c) *)
Definition has (mode : list Z) (c : Z) : bool := existsb (Z.eqb c) mode.
Definition first_char (mode : list Z) : Z := match mode with c :: _ => c | [] => 0 end.

Definition __fmodeflags (mode : list Z) : Z :=
  let c := first_char mode in
  let flags := if has mode 43 then O_RDWR else if c =? 114 then O_RDONLY else O_WRONLY in
  let flags := if has mode 120 then Z.lor flags O_EXCL else flags in
  let flags := if has mode 101 then Z.lor flags O_CLOEXEC else flags in
  let flags := if negb (c =? 114) then Z.lor flags O_CREAT else flags in
  let flags := if c =? 119 then Z.lor flags O_TRUNC else flags in
  if c =? 97 then Z.lor flags O_APPEND else flags.

(** The search of the first character also finds the terminator of the
    constant. *)
Definition valid_mode (mode : option (list Z)) : bool :=
  match mode with
  | None => false
  | Some mode => has (lit "rwa" ++ [0]) (first_char mode)
  end.

(** The flag bits a mode gives a stream: not for reading, not for writing,
    append. *)
Definition mode_nord (mode : list Z) : bool := negb (has mode 43) && negb (first_char mode =? 114).
Definition mode_nowr (mode : list Z) : bool := negb (has mode 43) && (first_char mode =? 114).
Definition mode_app (mode : list Z) : bool := first_char mode =? 97.

Section Open.
Context {K : Type} `{!Kernel K} `{!Files K}.
Implicit Types f : FILE K.

(** [mem]: malloc succeeds. *)
Definition __fdopen_flags (mem : bool) (k : K) (fd : Z) (mode : list Z) : option (FILE K) :=
  if mem then
    Some (File false (mode_nord mode) (mode_nowr mode) false false false (mode_app mode) true None None BUFSIZ fd (-1) 0 0 k)
  else None.

(** The stream, or the kernel and errno. *)
Definition fdopen (mem : bool) (k : K) (fd : Z) (mode : option (list Z)) : FILE K + K * Z :=
  if negb (valid_mode mode) then inr (k, EINVAL)
  else
    let m := default [] mode in
    let '(k, fl) := sys_getfl k fd in
    if fl <? 0 then inr (k, - fl)
    else
      let k := if (first_char m =? 97) && (Z.land fl O_APPEND =? 0) then fst (sys_setfl k fd (Z.lor fl O_APPEND)) else k in
      let k := if has m 101 then fst (sys_setfd k fd 1) else k in
      match __fdopen_flags mem k fd m with Some f => inl f | None => inr (k, ENOMEM) end.

Definition fopen (mem : bool) (k : K) (path : list Z) (mode : option (list Z)) : FILE K + K * Z :=
  if negb (valid_mode mode) then inr (k, EINVAL)
  else
    let m := default [] mode in
    let '(k, fd) := sys_openat k path (__fmodeflags m) in
    if fd <? 0 then inr (k, - fd)
    else
      match __fdopen_flags mem k fd m with
      | Some f => inl f
      | None => inr (fst (sys_close k fd), ENOMEM)
      end.

(** close *)
Definition __stdio_close f : FILE K * Z :=
  let '(k, r) := sys_close (f_dev f) (f_fd f) in
  let r := if r =? - EINTR then 0 else r in
  if r <? 0 then (set_errno (- r) (set_dev k f), -1) else (set_dev k f, r).

(** flags |= F_NORD | F_NOWR | F_ERR; fd = -1; *)
Definition dead f : FILE K := File (f_perm f) true true (f_eof f) true (f_svb f) (f_app f) (f_ttychk f) (f_r f) (f_w f) (f_bufsize f) (-1) (f_lbf f) (f_mode f) (f_errno f) (f_dev f).

(** The stream is left only if it is one of the standard ones; the kernel and
    errno are those of the result otherwise. *)
Definition fclose f : FILE K * bool * Z :=
  let '(f, r) := __fflush_unlocked f in
  let '(f, r') := __stdio_close f in
  let r := Z.lor r r' in
  if f_perm f then (dead f, true, r) else (f, false, r).

(** flags &= F_PERM | F_SVB and the flags of the mode. *)
Definition set_mode_flags (mode : list Z) f : FILE K :=
  File (f_perm f) (mode_nord mode) (mode_nowr mode) false false (f_svb f) (mode_app mode) false None None (f_bufsize f) (f_fd f) (f_lbf f) 0 (f_errno f) (f_dev f).

(** The result says whether the stream is returned; otherwise it was closed. *)
Definition freopen (path mode : option (list Z)) f : FILE K * bool :=
  if negb (valid_mode mode) then (fst (fst (fclose (set_errno EINVAL f))), false)
  else
    let m := default [] mode in
    let '(f, _) := __fflush_unlocked f in
    let fl := __fmodeflags m in
    let '(f, ok) :=
      match path with
      | None =>
          let f := if negb (Z.land fl O_CLOEXEC =? 0) then set_dev (fst (sys_setfd (f_dev f) (f_fd f) 1)) f else f in
          let '(k, r) := sys_setfl (f_dev f) (f_fd f) (Z.ldiff fl (Z.lor (Z.lor O_CREAT O_EXCL) (Z.lor O_TRUNC O_CLOEXEC))) in
          if r <? 0 then (set_errno (- r) (set_dev k f), false) else (set_dev k f, true)
      | Some path =>
          let '(k, fd) := sys_openat (f_dev f) path fl in
          if fd <? 0 then (set_errno (- fd) (set_dev k f), false)
          else if fd =? f_fd f then (set_dev k f, true)
          else
            let '(k, r) := sys_dup3 k fd (f_fd f) (Z.land fl O_CLOEXEC) in
            let k := fst (sys_close k fd) in
            if r <? 0 then (set_errno (- r) (set_dev k f), false) else (set_dev k f, true)
      end in
    if ok : bool then (set_mode_flags m f, true) else (fst (fst (fclose f)), false).

(** Closing a stream that was written to delivers what is buffered. *)
Context `{!KernelLaws K}.

Lemma fclose_ok f t : (∀ k fd, wrote (fst (sys_close k fd)) fd = wrote k fd) → holds f t →
  let '(f', left_, r) := fclose f in
  left_ = f_perm f ∧ (r = 0 → wrote (f_dev f') (f_fd f) = t).
Proof.
  intros Hclose Hh. unfold fclose. pose proof (fflush_fd f t Hh) as Hfd. pose proof (fflush_ok f t Hh) as Hf. destruct (__fflush_unlocked f) as [f1 r]. destruct Hfd as [Hfd Hperm].
  unfold __stdio_close. pose proof (Hclose (f_dev f1) (f_fd f1)) as Hc. destruct (sys_close (f_dev f1) (f_fd f1)) as [k r']. cbn [fst] in Hc.
  set (q := if r' =? - EINTR then 0 else r'). destruct (Z.ltb_spec q 0) as [Hq|Hq]; cbn.
  - rewrite Hperm. destruct (f_perm f); (split; [done|]); intros E; exfalso; destruct Hf as [(-> & _)|[-> _]]; discriminate.
  - rewrite Hperm. destruct (f_perm f); (split; [done|]); intros E; (destruct Hf as [(-> & _ & _ & _ & Ha)|[-> _]]; [cbn; rewrite <- Hfd, Hc; exact Ha | exfalso; unfold EOF in E; rewrite Z.lor_m1_l in E; done]).
Qed.
End Open.

(** The open flags of the modes of ISO C. *)
Example modes :
  (λ m, __fmodeflags m) <$> [lit "r"; lit "w"; lit "a"; lit "r+"; lit "w+b"; lit "a+e"; lit "wx"] =
  [O_RDONLY; O_WRONLY + O_CREAT + O_TRUNC; O_WRONLY + O_CREAT + O_APPEND; O_RDWR; O_RDWR + O_CREAT + O_TRUNC; O_RDWR + O_CREAT + O_APPEND + O_CLOEXEC; O_WRONLY + O_CREAT + O_TRUNC + O_EXCL].
Proof. reflexivity. Qed.

(** An empty mode passes the check that is meant to reject what does not begin
    with r, w or a: it is taken as write-only. *)
Lemma empty_mode : valid_mode (Some []) = true ∧ __fmodeflags [] = O_WRONLY + O_CREAT.
Proof. split; reflexivity. Qed.
