(* ===== verification/Printf.v ===== *)
(** * Formatted output (src/src/vfprintf.c)

    A function that only writes pieces to the stream returns the list of the
    pieces. The arguments of a call are a list of typed values: va_arg of the
    wrong type or past the end is undefined. A string argument is the bytes
    before its terminator, or null. printf_core runs in a monad of its state
    that may stop with a return value. *)
From S2P Require Import Prelude Lit Fpround Strtod Stdio.

Definition NL_ARGMAX : Z := 9.
Definition INT_MAX : Z := 2 ^ 31 - 1.
Definition INT_MIN : Z := - 2 ^ 31.
Definition EILSEQ : Z := 84.

(** The flag word, one boolean per flag. *)
Record flags := Fl { fl_left : bool; fl_plus : bool; fl_space : bool; fl_alt : bool; fl_zero : bool; fl_upper : bool }.

Definition no_flags : flags := Fl false false false false false false.
Definition clear_zero (fl : flags) : flags := Fl (fl_left fl) (fl_plus fl) (fl_space fl) (fl_alt fl) false (fl_upper fl).
Definition with_left (fl : flags) : flags := Fl true (fl_plus fl) (fl_space fl) (fl_alt fl) (fl_zero fl) (fl_upper fl).
Definition with_upper (fl : flags) : flags := Fl (fl_left fl) (fl_plus fl) (fl_space fl) (fl_alt fl) (fl_zero fl) true.

(** ** Arguments *)

Inductive type := T_NONE | T_INT | T_UINT | T_LONG | T_ULONG | T_LLONG | T_ULLONG | T_SHORT | T_USHORT | T_CHAR | T_UCHAR
  | T_SIZE | T_IMAX | T_UMAX | T_PDIFF | T_PTR | T_DBL | T_LDBL.

#[export] Instance type_eq_dec : EqDecision type.
Proof. solve_decision. Defined.

(** What a caller passes: an integer, a double, a long double, or a pointer
    to bytes, to wide characters or to something else. *)
Inductive varg := VInt (z : Z) | VDbl (x : num) | VLdbl (l : ld) | VStr (s : option (list Z)) | VWcs (s : option (list Z)) | VPtr (p : Z).

(** union arg *)
Inductive arg := AI (i : Z) | AF (f : ld) | AP (p : varg).

Definition s16 (x : Z) : Z := swrap 16 x.

Definition encode_num (x : num) : ld := match x with Num neg x => encode neg x | NaN neg => make_nan neg end.

Definition pop_arg (t : type) (ap : list varg) : res (arg * list varg) :=
  match ap with
  | [] => Trap Ub
  | v :: ap =>
      match t, v with
      | T_INT, VInt z => Ok (AI (u64 (s32 z)), ap)
      | T_UINT, VInt z => Ok (AI (u32 z), ap)
      | T_LONG, VInt z | T_LLONG, VInt z | T_PDIFF, VInt z => Ok (AI (u64 (s64 z)), ap)
      | T_ULONG, VInt z | T_ULLONG, VInt z | T_SIZE, VInt z | T_IMAX, VInt z | T_UMAX, VInt z => Ok (AI (u64 z), ap)
      | T_SHORT, VInt z => Ok (AI (u64 (s16 z)), ap)
      | T_USHORT, VInt z => Ok (AI (u16 z), ap)
      | T_CHAR, VInt z => Ok (AI (u64 (s8 z)), ap)
      | T_UCHAR, VInt z => Ok (AI (u8 z), ap)
      | T_PTR, VStr _ | T_PTR, VWcs _ | T_PTR, VPtr _ => Ok (AP v, ap)
      | T_DBL, VDbl x => Ok (AF (encode_num (conv_num F_LDBL x)), ap)
      | T_LDBL, VLdbl l => Ok (AF l, ap)
      | _, _ => Trap Ub
      end
  end.

(** ** Output helpers *)

(** The pieces of [n] copies of a character, 64 at a time. *)
Fixpoint pad_loop (fuel : nat) (c : Z) (n : Z) : list (list Z) :=
  match fuel with
  | O => []
  | S fuel =>
      if n =? 0 then []
      else let k := if n <? 64 then n else 64 in replicate (Z.to_nat k) c :: pad_loop fuel c (n - k)
  end.

Definition pad (c : Z) (n : Z) : list (list Z) := pad_loop (Z.to_nat n) c n.

Definition fill_of (w len : Z) : Z := if len <? w then w - len else 0.

Definition emit_field (fl : flags) (w : Z) (pre : list Z) (zeros : Z) (body : list Z) : list (list Z) :=
  let len := Z.of_nat (length pre) + zeros + Z.of_nat (length body) in
  let fill := fill_of w len in
  (if negb (fl_left fl) && negb (fl_zero fl) then pad 32 fill else []) ++
  [pre] ++
  (if negb (fl_left fl) && fl_zero fl then pad 48 fill else []) ++
  pad 48 zeros ++
  [body] ++
  (if fl_left fl then pad 32 fill else []).

(** ** Integers *)

Definition xdigits (upper : bool) : list Z := if upper then lit "0123456789ABCDEF" else lit "0123456789abcdef".

(** Digits are stored from the end; 64 turns are enough. *)
Fixpoint fmt_u_loop (fuel : nat) (x base : Z) (upper : bool) (acc : list Z) : list Z :=
  let acc := nth (Z.to_nat (x mod base)) (xdigits upper) 0 :: acc in
  if x / base =? 0 then acc
  else match fuel with O => acc | S fuel => fmt_u_loop fuel (x / base) base upper acc end.

Definition fmt_u (x base : Z) (upper : bool) : list Z := fmt_u_loop 64 x base upper [].

(** ** Floating point *)

Definition LIMB : Z := 1000000000.
Definition MAX_LIMBS : nat := Z.to_nat 1841.

(** The limbs are the list, the least significant one first; n is its length. *)
Record dec := Dec { L : list Z; nd : Z; E0 : Z; E : Z; K : Z; r : Z; carry : bool }.

Definition p10 (k : Z) : Z := 10 ^ k.

Definition limbs_ok (l : list Z) : res (list Z) := if (length l <=? MAX_LIMBS)%nat then Ok l else Trap Segv.

Fixpoint big_mul_loop (l : list Z) (m c : Z) : list Z * Z :=
  match l with
  | [] => ([], c)
  | x :: l => let t := u64 (x * m + c) in let '(l, c) := big_mul_loop l m (t / LIMB) in (u32 (t mod LIMB) :: l, c)
  end.

(** while (carry) *)
Fixpoint push_carry (fuel : nat) (c : Z) : list Z :=
  match fuel with O => [] | S fuel => if c =? 0 then [] else u32 (c mod LIMB) :: push_carry fuel (c / LIMB) end.

Definition big_mul (l : list Z) (m : Z) : res (list Z) :=
  let '(l, c) := big_mul_loop l m 0 in limbs_ok (l ++ push_carry 3 c).

Fixpoint mul_times (k : nat) (l : list Z) (m : Z) : res (list Z) :=
  match k with O => Ok l | S k => l ← big_mul l m; mul_times k l m end.

(** __builtin_ctzll *)
Fixpoint ctz (fuel : nat) (m : Z) : Z := match fuel with O => 0 | S fuel => if Z.odd m then 0 else 1 + ctz fuel (m / 2) end.

Fixpoint top_digits (fuel : nat) (x top : Z) : Z :=
  match fuel with O => top | S fuel => if (top <? 10) && (p10 top <=? x) then top_digits fuel x (top + 1) else top end.

Definition dec_init (m e : Z) : res dec :=
  if m =? 0 then Ok (Dec [0] 1 1 1 INT_MAX (-1) false)
  else
    let tz := ctz 64 m in
    let m := Z.shiftr m tz in
    let e := e + tz in
    let l := u32 (m mod LIMB) :: push_carry 3 (m / LIMB) in
    '(l, dexp) ←
      (if 0 <=? e then
         l ← mul_times (Z.to_nat (e / 29)) l (2 ^ 29);
         l ← (if e mod 29 =? 0 then Ok l else big_mul l (2 ^ (e mod 29)));
         Ok (l, 0)
       else
         let k := - e in
         l ← mul_times (Z.to_nat (k / 13)) l 1220703125;
         l ← big_mul l (u32 (5 ^ (k mod 13)));
         Ok (l, - k));
    let nd := top_digits 9 (nth (length l - 1) l 0) 1 + 9 * (Z.of_nat (length l) - 1) in
    Ok (Dec l nd (nd + dexp) (nd + dexp) INT_MAX (-1) false).

Definition dig (d : dec) (i : Z) : Z :=
  if (i <? 0) || (nd d <=? i) then 0
  else let j := nd d - 1 - i in nth (Z.to_nat (j / 9)) (L d) 0 / p10 (j mod 9) mod 10.

(** Any digit that is not zero among [n] digits from index [k] on? *)
Fixpoint any_digit (n : nat) (d : dec) (k : Z) : bool :=
  match n with O => false | S n => if negb (dig d k =? 0) then true else any_digit n d (k + 1) end.

Definition sticky_after (d : dec) (i : Z) : bool := any_digit (Z.to_nat (nd d - (i + 1))) d (i + 1).

(** while (i >= 0 && dig(d, i) == 9) i--; *)
Fixpoint skip_nines (fuel : nat) (d : dec) (i : Z) : Z :=
  match fuel with O => i | S fuel => if (0 <=? i) && (dig d i =? 9) then skip_nines fuel d (i - 1) else i end.

Definition dec_round (d : dec) (k : Z) : dec :=
  let d := Dec (L d) (nd d) (E0 d) (E0 d) k (-1) false in
  if nd d <=? k then d
  else if k <? 0 then d
  else
    let h := dig d k in
    let up := (5 <? h) || ((h =? 5) && (sticky_after d k || ((0 <? k) && Z.odd (dig d (k - 1))))) in
    if negb up then d
    else
      let i := skip_nines (Z.to_nat k) d (k - 1) in
      if i <? 0 then Dec (L d) (nd d) (E0 d) (E d + 1) k (-1) true
      else Dec (L d) (nd d) (E0 d) (E d) k i false.

Definition rdig (d : dec) (i : Z) : Z :=
  if carry d then (if i =? 0 then 1 else 0)
  else if (i <? 0) || (K d <=? i) then 0
  else if (0 <=? r d) && (r d <=? i) then (if i =? r d then dig d i + 1 else 0)
  else dig d i.

(** Digits through a buffer of 128: the pieces it is flushed in. *)
Fixpoint chunks (fuel : nat) (l : list Z) : list (list Z) :=
  match fuel, l with
  | S fuel, _ :: _ => take 128 l :: chunks fuel (drop 128 l)
  | _, _ => []
  end.

Definition db_out (l : list Z) : list (list Z) := chunks (length l) l.

Record ldparts := Parts { p_m : Z; p_e : Z; p_neg : bool; p_inf : bool; p_nan : bool }.

Definition ld_split (y : ld) : ldparts :=
  let ex := Z.land (ld_se y) 0x7fff in
  let neg := negb (Z.shiftr (ld_se y) 15 =? 0) in
  let m := ld_m y in
  if ex =? 0x7fff then
    (if negb (u64 (Z.shiftl m 1) =? 0) then Parts m 0 neg false true else Parts m 0 neg true false)
  else if ex =? 0 then Parts m (1 - 16383 - 63) neg false false
  else Parts m (ex - 16383 - 63) neg false (Z.shiftr m 63 =? 0).

Definition exp_str (x letter min_digits : Z) : list Z :=
  let ds := fmt_u (Z.abs x) 10 false in
  letter :: (if x <? 0 then 45 else 43) :: replicate (Z.to_nat (min_digits - Z.of_nat (length ds))) 48 ++ ds.

(** A field of the given width around a prefix and pieces of length [len] in
    all (the prefix included); nothing if it does not fit. *)
Definition place (fl : flags) (w len room : Z) (pre : list Z) (pieces : list (list Z)) : Z * list (list Z) :=
  let fill := fill_of w len in
  (len + fill,
   if room <? len + fill then []
   else
     (if negb (fl_left fl || fl_zero fl) then pad 32 fill else []) ++ [pre] ++
     (if fl_zero fl && negb (fl_left fl) then pad 48 fill else []) ++ pieces ++
     (if fl_left fl then pad 32 fill else [])).

(** The leading digit, the 64 bits of the fraction and the exponent, rounded
    to [p] hexadecimal digits. *)
Definition hex_round (m e p : Z) : Z * Z * Z :=
  let '(m, X) := if m =? 0 then (m, 0) else let s := clzll m in (u64 (Z.shiftl m s), e + 63 - s) in
  let frac := u64 (Z.shiftl m 1) in
  let lead := if m =? 0 then 0 else 1 in
  if (0 <=? p) && (p <? 16) then
    let drop := 64 - 4 * p in
    let keep := if drop =? 64 then 0 else Z.shiftr frac drop in
    let rem := if drop =? 64 then frac else u64 (Z.shiftl frac (64 - drop)) in
    let half := 2 ^ 63 in
    let '(keep, lead) :=
      if (half <? rem) || ((rem =? half) && Z.odd (if p =? 0 then lead else keep)) then
        let keep := u64 (keep + 1) in
        if (p =? 0) || negb (Z.shiftr keep (4 * p) =? 0) then (0, lead + 1) else (keep, lead)
      else (keep, lead) in
    let '(lead, X) := if lead =? 2 then (1, X + 1) else (lead, X) in
    (lead, if drop =? 64 then 0 else u64 (Z.shiftl keep drop), X)
  else (lead, frac, X).

(** while (nd && !((frac >> (64 - 4 * nd)) & 15)) nd--; *)
Fixpoint hex_len (n : nat) (frac : Z) : Z :=
  match n with
  | O => 0
  | S n' => if Z.land (Z.shiftr frac (64 - 4 * Z.of_nat n)) 15 =? 0 then hex_len n' frac else Z.of_nat n
  end.

Definition fmt_hex (v : ldparts) (w p : Z) (fl : flags) (pre : list Z) (room : Z) : Z * list (list Z) :=
  let '(lead, frac, X) := hex_round (p_m v) (p_e v) p in
  let p := if p <? 0 then hex_len 16 frac else p in
  let xd := xdigits (fl_upper fl) in
  let ndig := if p <? 16 then p else 16 in
  let body := [nth (Z.to_nat lead) xd 0] ++ (if negb (p =? 0) || fl_alt fl then [46] else []) ++
    ((λ i, nth (Z.to_nat (Z.land (Z.shiftr frac (60 - 4 * Z.of_nat i)) 15)) xd 0) <$> seq 0 (Z.to_nat ndig)) in
  let es := exp_str (if p_m v =? 0 then 0 else X) (if fl_upper fl then 80 else 112) 1 in
  let pfx := pre ++ [48; if fl_upper fl then 88 else 120] in
  let trailing := p - ndig in
  let len := Z.of_nat (length pfx) + Z.of_nat (length body) + trailing + Z.of_nat (length es) in
  place fl w len room pfx ([body] ++ pad 48 trailing ++ [es]).

(** while (nfrac > 0 && rdig(&d, base + nfrac) == 0) nfrac--; *)
Fixpoint strip_zeros (n : nat) (d : dec) (base : Z) : Z :=
  match n with
  | O => 0
  | S n' => if rdig d (base + Z.of_nat n) =? 0 then strip_zeros n' d base else Z.of_nat n
  end.

(** The digits with the given indices, as characters. *)
Definition rdigits (d : dec) (from : Z) (n : Z) : list Z := (λ i, 48 + rdig d (from + Z.of_nat i)) <$> seq 0 (Z.to_nat n).

Definition sign_str (neg : bool) (fl : flags) : list Z := if neg then [45] else if fl_plus fl then [43] else if fl_space fl then [32] else [].

(** Style e: one digit, a point, p digits and the exponent. *)
Definition fmt_e (v : ldparts) (d : dec) (w p : Z) (fl : flags) (strip : bool) (pre : list Z) (room : Z) : Z * list (list Z) :=
  let d := dec_round d (s32 (p + 1)) in
  let X := if p_m v =? 0 then 0 else E d - 1 in
  let nfrac := if strip then strip_zeros (Z.to_nat p) d 0 else p in
  let es := exp_str X (if fl_upper fl then 69 else 101) 2 in
  let dot := negb (nfrac =? 0) || fl_alt fl in
  let len := Z.of_nat (length pre) + 1 + Z.b2z dot + nfrac + Z.of_nat (length es) in
  place fl w len room pre (db_out (rdigits d 0 1 ++ (if dot then [46] else []) ++ rdigits d 1 nfrac) ++ [es]).

(** Style f: the digits before the point and p digits after it. *)
Definition fmt_f (v : ldparts) (d : dec) (w p : Z) (fl : flags) (strip : bool) (pre : list Z) (room : Z) : Z * list (list Z) :=
  let d := if (p_m v =? 0) || (E0 d + p <? 0) then dec_round d (-1) else dec_round d (if INT_MAX <? E0 d + p then INT_MAX else E0 d + p) in
  let nint := if 0 <? E d then E d else 1 in
  let nfrac := if strip then strip_zeros (Z.to_nat p) d (E d - 1) else p in
  let dot := negb (nfrac =? 0) || fl_alt fl in
  let len := Z.of_nat (length pre) + nint + Z.b2z dot + nfrac in
  place fl w len room pre (db_out ((if 0 <? E d then rdigits d 0 (E d) else [48]) ++ (if dot then [46] else []) ++ rdigits d (E d) nfrac)).

(** The length of the field and the pieces. [t] is the lower-case letter. *)
Definition fmt_fp (y : ld) (w p : Z) (fl : flags) (t : Z) (room : Z) : res (Z * list (list Z)) :=
  let v := ld_split y in
  let pre := sign_str (p_neg v) fl in
  if p_inf v || p_nan v then
    let s := if p_nan v then (if fl_upper fl then lit "NAN" else lit "nan") else (if fl_upper fl then lit "INF" else lit "inf") in
    let n := if Z.of_nat (length pre) + 3 <? w then w else Z.of_nat (length pre) + 3 in
    Ok (n, if n <=? room then emit_field (clear_zero fl) w pre 0 s else [])
  else if t =? 97 then Ok (fmt_hex v w p fl pre room)
  else
    let p := if p <? 0 then 6 else p in
    d ← dec_init (p_m v) (p_e v);
    if t =? 103 then
      let P := if p =? 0 then 1 else p in
      let d := dec_round d P in
      let X := if p_m v =? 0 then 0 else E d - 1 in
      let strip := negb (fl_alt fl) in
      Ok (if (X <? P) && (-4 <=? X) then fmt_f v d w (P - 1 - X) fl strip pre room else fmt_e v d w (P - 1) fl strip pre room)
    else Ok (if t =? 101 then fmt_e v d w p fl false pre room else fmt_f v d w p fl false pre room).

(** ** Wide characters *)

(** The bytes, or None for -1. *)
Definition utf8 (c : Z) : option (list Z) :=
  if c <? 0x80 then Some [c]
  else if c <? 0x800 then Some [Z.lor 0xc0 (Z.shiftr c 6); Z.lor 0x80 (Z.land c 0x3f)]
  else if c <? 0x10000 then
    if u32 (c - 0xd800) <? 0x800 then None
    else Some [Z.lor 0xe0 (Z.shiftr c 12); Z.lor 0x80 (Z.land (Z.shiftr c 6) 0x3f); Z.lor 0x80 (Z.land c 0x3f)]
  else if c <? 0x110000 then
    Some [Z.lor 0xf0 (Z.shiftr c 18); Z.lor 0x80 (Z.land (Z.shiftr c 12) 0x3f); Z.lor 0x80 (Z.land (Z.shiftr c 6) 0x3f); Z.lor 0x80 (Z.land c 0x3f)]
  else None.

(** ** The format interpreter *)

(** The character at a position; the format is the rest of it from there. *)
Definition cur (s : list Z) : Z := match s with c :: _ => c | [] => 0 end.

Definition is_digit (c : Z) : bool := u32 (c - 48) <? 10.

Fixpoint getint_loop (s : list Z) (n : Z) : Z * list Z :=
  match s with
  | [] => (n, [])
  | c :: s' =>
      if is_digit c then
        let d := c - 48 in
        getint_loop s' (if (INT_MAX - d) / 10 <? n then -1 else if 0 <=? n then 10 * n + d else n)
      else (n, s)
  end.

Definition getint (s : list Z) : Z * list Z := getint_loop s 0.

Inductive lmod := L_NONE | L_HH | L_H | L_L | L_LL | L_J | L_Z | L_T | L_BIGL.

#[export] Instance lmod_eq_dec : EqDecision lmod.
Proof. solve_decision. Defined.

(** What stops printf_core: a return value, with errno if it was set. *)
Inductive quit := Return (v : Z) | Inval | Overflow | Ilseq.

Section Core.
Context {D : Type} `{!Device D}.

(** struct out, and the variables of printf_core. *)
Record out_ := Out { o_f : FILE D; o_err : bool }.

Record pst := Pst { p_o : out_; p_cnt : Z; p_l10n : Z; p_ap : list varg; p_types : list type }.

Definition out (o : out_) (s : list Z) : out_ :=
  if negb (o_err o) && negb (f_err (o_f o)) then
    let '(f, n) := __fwritex s (o_f o) in
    Out f (negb (n =? length s)%nat)
  else o.

Definition outs (o : out_) (pieces : list (list Z)) : out_ := fold_left out pieces o.

(** The monad: a state, traps, and the exits of printf_core. *)
Definition PM (A : Type) : Type := pst → res ((A + quit) * pst).

#[local] Instance pm_ret : MRet PM := λ A a s, Ok (inl a, s).
#[local] Instance pm_bind : MBind PM := λ A B f m s,
  match m s with
  | Ok (inl a, s) => f a s
  | Ok (inr q, s) => Ok (inr q, s)
  | Trap t => Trap t
  end.

Definition stop {A} (q : quit) : PM A := λ s, Ok (inr q, s).
Definition trap_ {A} (t : trap) : PM A := λ _, Trap t.
Definition get : PM pst := λ s, Ok (inl s, s).
Definition lift {A} (c : res A) : PM A := λ s, match c with Ok a => Ok (inl a, s) | Trap t => Trap t end.
Definition set_l10n (v : Z) : PM unit := λ s, Ok (inl (), Pst (p_o s) (p_cnt s) v (p_ap s) (p_types s)).
Definition set_type (i : Z) (t : type) : PM unit := λ s, Ok (inl (), Pst (p_o s) (p_cnt s) (p_l10n s) (p_ap s) (<[Z.to_nat i := t]> (p_types s))).
Definition pop (t : type) : PM arg := λ s,
  match pop_arg t (p_ap s) with Ok (a, ap) => Ok (inl a, Pst (p_o s) (p_cnt s) (p_l10n s) ap (p_types s)) | Trap t => Trap t end.
Definition emit (pieces : list (list Z)) : PM unit := λ s, Ok (inl (), Pst (outs (p_o s) pieces) (p_cnt s) (p_l10n s) (p_ap s) (p_types s)).
Definition FITS (n : Z) : PM unit := λ s, if INT_MAX - p_cnt s <? n then Ok (inr Overflow, s) else Ok (inl (), s).
Definition ADD (n : Z) : PM unit := λ s,
  if INT_MAX - p_cnt s <? n then Ok (inr Overflow, s) else Ok (inl (), Pst (p_o s) (p_cnt s + n) (p_l10n s) (p_ap s) (p_types s)).

(** [scan]: the pass with f == NULL, which only records types. *)
Context (scan : bool) (nl_arg : list arg) (strerror_ : list Z).

Definition int_of (a : arg) : Z := match a with AI i => i | _ => 0 end.

(** n$ after the current position: the number and the rest, if it is there. *)
Definition position (s : list Z) : option (Z * list Z) :=
  if is_digit (cur s) then
    let '(n, t) := getint s in
    if cur t =? 36 then Some (n, tail t) else None
  else None.

Fixpoint flags_loop (s : list Z) (fl : flags) : flags * list Z :=
  match s with
  | [] => (fl, [])
  | c :: s' =>
      let '(Fl l p sp a z u) := fl in
      if c =? 45 then flags_loop s' (Fl true p sp a z u)
      else if c =? 43 then flags_loop s' (Fl l true sp a z u)
      else if c =? 32 then flags_loop s' (Fl l p true a z u)
      else if c =? 35 then flags_loop s' (Fl l p sp true z u)
      else if c =? 48 then flags_loop s' (Fl l p sp a true u)
      else if c =? 39 then flags_loop s' fl
      else (fl, s)
  end.

(** A star: an int from the arguments, None if the scanning pass ends. [s] is
    behind the star. *)
Definition star (s : list Z) : PM (Z * list Z) :=
  st ← get;
  if is_digit (cur s) then
    let '(n, t) := getint s in
    if negb (cur t =? 36) || (n <=? 0) || (NL_ARGMAX <? n) || (p_l10n st <? 0) then stop Inval
    else
      set_l10n 1;;
      if scan then set_type n T_INT;; mret (0, tail t)
      else mret (s32 (int_of (nth (Z.to_nat n) nl_arg (AI 0))), tail t)
  else if 0 <? p_l10n st then stop Inval
  else
    set_l10n (-1);;
    if scan then stop (Return 0)
    else a ← pop T_INT; mret (s32 (int_of a), s).

Definition width (s : list Z) (fl : flags) : PM (Z * flags * list Z) :=
  if cur s =? 42 then
    '(w, s) ← star (tail s);
    if w <? 0 then (if w =? INT_MIN then stop Overflow else mret (- w, with_left fl, s)) else mret (w, fl, s)
  else
    let '(w, s) := getint s in
    if w <? 0 then stop Overflow else mret (w, fl, s).

Definition precision (s : list Z) : PM (Z * list Z) :=
  if cur s =? 46 then
    let s := tail s in
    if cur s =? 42 then
      '(p, s) ← star (tail s);
      let p := if scan then -1 else p in
      mret (if p <? 0 then -1 else p, s)
    else
      let '(p, s) := getint s in
      if p <? 0 then stop Overflow else mret (p, s)
  else mret (-1, s).

Definition length_mod (s : list Z) : lmod * list Z :=
  let c := cur s in
  if c =? 104 then (if cur (tail s) =? 104 then (L_HH, tail (tail s)) else (L_H, tail s))
  else if c =? 108 then (if cur (tail s) =? 108 then (L_LL, tail (tail s)) else (L_L, tail s))
  else if c =? 113 then (L_LL, tail s)
  else if c =? 106 then (L_J, tail s)
  else if c =? 122 then (L_Z, tail s)
  else if c =? 116 then (L_T, tail s)
  else if c =? 76 then (L_BIGL, tail s)
  else (L_NONE, s).

Definition one_of (c : Z) (set : list Z) : bool := existsb (Z.eqb c) set.

(** The type of the conversion [c]; None for a format that is not valid. *)
Definition conv_type (c : Z) (lm : lmod) : option type :=
  if one_of c (lit "di") then
    match lm with L_HH => Some T_CHAR | L_H => Some T_SHORT | L_L => Some T_LONG | L_LL => Some T_LLONG | L_J => Some T_IMAX | L_Z => Some T_SIZE | L_T => Some T_PDIFF | L_NONE => Some T_INT | L_BIGL => None end
  else if one_of c (lit "ouxX") then
    match lm with L_HH => Some T_UCHAR | L_H => Some T_USHORT | L_L => Some T_ULONG | L_LL => Some T_ULLONG | L_J => Some T_UMAX | L_Z => Some T_SIZE | L_T => Some T_PDIFF | L_NONE => Some T_UINT | L_BIGL => None end
  else if one_of c (lit "fFeEgGaA") then
    match lm with L_BIGL => Some T_LDBL | L_NONE | L_L => Some T_DBL | _ => None end
  else if c =? 99 then match lm with L_NONE => Some T_INT | L_L => Some T_UINT | _ => None end
  else if c =? 67 then match lm with L_NONE => Some T_UINT | _ => None end
  else if one_of c (lit "sSp") then
    match lm with L_NONE => Some T_PTR | L_L => if c =? 115 then Some T_PTR else None | _ => None end
  else if one_of c (lit "m%") then match lm with L_NONE => Some T_NONE | _ => None end
  else None.

(** The argument; None in the scanning pass. *)
Definition fetch (c : Z) (t : type) (argpos : Z) : PM (option arg) :=
  st ← get;
  if negb (one_of c (lit "m%")) then
    if 0 <? argpos then
      if p_l10n st <? 0 then stop Inval
      else
        set_l10n 1;;
        if scan then
          let old := nth (Z.to_nat argpos) (p_types st) T_NONE in
          if negb (bool_decide (old = T_NONE)) && negb (bool_decide (old = t)) then stop Inval
          else set_type argpos t;; mret None
        else mret (Some (nth (Z.to_nat argpos) nl_arg (AI 0)))
    else if 0 <? p_l10n st then stop Inval
    else
      set_l10n (-1);;
      if scan then stop (Return 0) else a ← pop t; mret (Some a)
  else if 0 <? argpos then stop Inval
  else mret (if scan then None else Some (AI 0)).

(** integer: *)
Definition integer (c : Z) (fl : flags) (w p : Z) (pre d : list Z) : PM unit :=
  let len := Z.of_nat (length d) in
  let fl := if (0 <=? p) && negb (c =? 111) then clear_zero fl else fl in
  let zeros := if (0 <? p) && (len <? p) then p - len else 0 in
  let total := Z.of_nat (length pre) + zeros + len in
  let n := if w <? total then total else w in
  FITS n;; emit (emit_field fl w pre zeros d);; ADD n.

(** A field of text. *)
Definition text (fl : flags) (w : Z) (d : list Z) : PM unit :=
  let len := Z.of_nat (length d) in
  let n := if len <? w then w else len in
  FITS n;; emit (emit_field (clear_zero fl) w [] 0 d);; ADD n.

(** The bytes of the whole characters of a wide string that fit in [p]. *)
Fixpoint wide_bytes (ws : list Z) (p bytes : Z) (acc : list (list Z)) : list (list Z) * Z + quit :=
  match ws with
  | [] => inl (acc, bytes)
  | q :: ws =>
      match utf8 (u32 q) with
      | None => inr Ilseq
      | Some mb =>
          let k := Z.of_nat (length mb) in
          if (0 <=? p) && (p <? bytes + k) then inl (acc, bytes)
          else if INT_MAX <? bytes + k then inr Overflow
          else wide_bytes ws p (bytes + k) (acc ++ [mb])
      end
  end.

Definition wide (fl : flags) (w p : Z) (ws : list Z) : PM unit :=
  match wide_bytes ws p 0 [] with
  | inr q => stop q
  | inl (mbs, bytes) =>
      let fill := fill_of w bytes in
      FITS (bytes + fill);;
      emit ((if fl_left fl then [] else pad 32 fill) ++ mbs ++ (if fl_left fl then pad 32 fill else []));;
      ADD (bytes + fill)
  end.

Definition digits (p x base : Z) (upper : bool) : list Z := if (p =? 0) && (x =? 0) then [] else fmt_u x base upper.

Definition conversion (c : Z) (lm : lmod) (fl : flags) (w p : Z) (a : arg) : PM unit :=
  let i := int_of a in
  if c =? 37 then emit [[37]];; ADD 1
  else if one_of c (lit "di") then
    let v := s64 i in
    let u := if v <? 0 then u64 (- v) else v in
    integer c fl w p (sign_str (v <? 0) fl) (digits p u 10 false)
  else if c =? 117 then integer c fl w p [] (digits p i 10 false)
  else if c =? 111 then
    let d := digits p i 8 false in
    let fl := if 0 <=? p then clear_zero fl else fl in
    let len := Z.of_nat (length d) in
    let p := if fl_alt fl && (((length d =? 0)%nat) || negb (cur d =? 48)) && (p <? len + 1) then len + 1 else p in
    integer c fl w p [] d
  else if (c =? 120) || (c =? 88) then
    integer c fl w p (if fl_alt fl && negb (i =? 0) then (if c =? 88 then lit "0X" else lit "0x") else []) (digits p i 16 (c =? 88))
  else if c =? 112 then
    match a with
    | AP (VStr None) | AP (VWcs None) => text fl w (lit "(nil)")
    | AP (VPtr q) => if q =? 0 then text fl w (lit "(nil)") else integer c fl w p (lit "0x") (fmt_u q 16 false)
    | _ => trap_ Ub
    end
  else if (c =? 99) && bool_decide (lm = L_NONE) then text fl w [u8 i]
  else if (c =? 99) || (c =? 67) then
    match (if i =? 0 then Some [0] else utf8 (u32 i)) with
    | None => stop Ilseq
    | Some mb => text fl w mb
    end
  else if c =? 109 then
    text fl w (if 0 <=? p then take (Z.to_nat p) strerror_ else strerror_)
  else if (c =? 115) && negb (bool_decide (lm = L_L)) then
    match a with
    | AP (VStr s) =>
        let d := default (if (0 <=? p) && (p <? 6) then [] else lit "(null)") s in
        text fl w (if 0 <=? p then take (Z.to_nat p) d else d)
    | _ => trap_ Ub
    end
  else if (c =? 115) || (c =? 83) then
    match a with
    | AP (VWcs s) => wide fl w p (default (lit "(null)") s)
    | _ => trap_ Ub
    end
  else
    match a with
    | AF y =>
        let fl := if (65 <=? c) && (c <=? 90) then with_upper fl else fl in
        st ← get;
        '(n, pieces) ← lift (fmt_fp y w p fl (Z.lor c 32) (INT_MAX - p_cnt st));
        emit pieces;; ADD n
    | _ => trap_ Ub
    end.

(** One conversion specification; [s] is behind the percent sign. *)
Definition directive (s : list Z) : PM (list Z) :=
  '(argpos, s) ←
    (match position s with
     | Some (n, s) => if (n <=? 0) || (NL_ARGMAX <? n) then stop Inval else mret (n, s)
     | None => mret (-1, s)
     end);
  let '(fl, s) := flags_loop s no_flags in
  '(w, fl, s) ← width s fl;
  '(p, s) ← precision s;
  let '(lm, s) := length_mod s in
  let c := cur s in
  let s := tail s in
  if c =? 110 then trap_ Abrt
  else
    match conv_type c lm with
    | None => stop Inval
    | Some t =>
        a ← fetch c t argpos;
        match a with
        | None => mret s
        | Some a => conversion c lm fl w p a;; mret s
        end
    end.

(** The text up to the next percent sign or the end. *)
Fixpoint literal (s : list Z) : list Z * list Z :=
  match s with
  | [] => ([], [])
  | c :: s' => if (c =? 0) || (c =? 37) then ([], s) else (let '(a, r) := literal s' in (c :: a, r))
  end.

Definition put (t : list Z) : PM unit :=
  let n := Z.of_nat (length t) in
  FITS n;; (if scan then mret () else emit [t]);; ADD n.

(** The loop; every turn consumes a part of the format. *)
Fixpoint core_loop (fuel : nat) (s : list Z) : PM unit :=
  match fuel with
  | O => trap_ Fuel
  | S fuel =>
      let '(a, s) := literal s in
      if (cur s =? 37) && (cur (tail s) =? 37) then put (a ++ [37]);; core_loop fuel (tail (tail s))
      else
        put a;;
        if cur s =? 0 then mret ()
        else s ← directive (tail s); core_loop fuel s
  end.

(** Fetch the positional arguments in order; then there may be no more. *)
Fixpoint fetch_all (ts : list type) (args : list arg) : PM (list arg) :=
  match ts with
  | t :: ts =>
      if bool_decide (t = T_NONE) then (if forallb (λ t, bool_decide (t = T_NONE)) ts then mret args else stop Inval)
      else a ← pop t; fetch_all ts (args ++ [a])
  | [] => mret args
  end.

(** The result is the positional arguments in the scanning pass (from index
    1 on), and the count in the other one. *)
Definition printf_core (fmt : list Z) : PM (list arg) :=
  core_loop (S (length fmt)) fmt;;
  st ← get;
  if scan then
    if p_l10n st <=? 0 then stop (Return 0)
    else args ← fetch_all (tail (p_types st)) []; mret (AI 0 :: args)
  else if o_err (p_o st) then stop (Return (-1))
  else stop (Return (p_cnt st)).
End Core.

(** ** The entry points (src/src/vfprintf.c and src/src/printf.c) *)

Section Entry.
Context {D : Type} `{!Device D}.

Definition start (f : FILE D) (ap : list varg) : pst := Pst (Out f false) 0 0 ap (replicate 10 T_NONE).

(** The return value of printf_core and errno, if it was set. *)
Definition quit_result (q : quit) : Z * option Z :=
  match q with Return v => (v, None) | Inval => (-1, Some EINVAL) | Overflow => (-1, Some EOVERFLOW) | Ilseq => (-1, Some EILSEQ) end.

Definition with_errno (e : option Z) (f : FILE D) : FILE D := match e with Some e => set_errno e f | None => f end.

(** The scanning pass: the positional arguments, or the error. The stream is
    not used. *)
Definition scan_pass (f : FILE D) (fmt : list Z) (ap : list varg) (strerror_ : list Z) : res (list arg + Z * option Z) :=
  '(x, _) ← printf_core true [] strerror_ fmt (start f ap);
  Ok (match x with
      | inl args => inl args
      | inr q => let '(v, e) := quit_result q in if v <? 0 then inr (v, e) else inl []
      end).

(** An unbuffered stream is given a temporary buffer of 256 bytes, which is
    written out at the end. *)
Definition buffer_ (saved : bool) (f : FILE D) : FILE D := if saved then set_w None (set_bufsize 256 f) else f.

Definition unbuffer (saved : bool) (f : FILE D) : FILE D :=
  if saved then set_w None (set_bufsize 0 (if negb (length (pending f) =? 0)%nat then fst (f_write f []) else f)) else f.

(** The printing pass. *)
Definition print_pass (f : FILE D) (nl_arg : list arg) (fmt : list Z) (ap : list varg) (strerror_ : list Z) : res (FILE D * Z) :=
  let olderr := f_err f in
  let f := set_err false f in
  let saved := (f_bufsize f =? 0)%nat in
  let f := buffer_ saved f in
  let '(f, fail) := need_write f in
  '(f, ret) ←
    (if fail then Ok (f, -1)
     else
       '(y, st) ← printf_core false nl_arg strerror_ fmt (start f ap);
       let f := o_f (p_o st) in
       match y with
       | inl _ => Ok (f, 0)
       | inr q => let '(v, e) := quit_result q in Ok (with_errno e f, v)
       end);
  let f := unbuffer saved f in
  let ret := if f_err f then -1 else ret in
  Ok (if olderr then set_err true f else f, ret).

Definition __vfprintf_unlocked (f : FILE D) (fmt : list Z) (ap : list varg) (strerror_ : list Z) : res (FILE D * Z) :=
  x ← scan_pass f fmt ap strerror_;
  match x with
  | inr (_, e) => Ok (with_errno e f, -1)
  | inl nl_arg => print_pass f nl_arg fmt ap strerror_
  end.
End Entry.

(** The bytes stored at s, with the terminator; nothing if n is 0. *)
Definition vsnprintf (n : Z) (fmt : list Z) (ap : list varg) (strerror_ : list Z) : res (list Z * Z) :=
  let c := if n =? 0 then Sn [] 0 else Sn [] (n - 1) in
  let f := __file_init (-1) true false (UNGET + 256) c in
  '(f, r) ← __vfprintf_unlocked f fmt ap strerror_;
  let '(f, _) := sn_write f [] in
  Ok (if n =? 0 then [] else sn_s (f_dev f) ++ [0], r).

Definition SIZE_MAX : Z := 2 ^ 64 - 1.

Definition vsprintf (fmt : list Z) (ap : list varg) (strerror_ : list Z) : res (list Z * Z) := vsnprintf SIZE_MAX fmt ap strerror_.

(** The string and its length, or None; [alloc] says whether malloc gives the
    size. *)
Definition vasprintf (alloc : Z → bool) (fmt : list Z) (ap : list varg) (strerror_ : list Z) : res (option (list Z) * Z) :=
  '(_, l) ← vsnprintf 0 fmt ap strerror_;
  if l <? 0 then Ok (None, -1)
  else if negb (alloc (l + 1)) then Ok (None, -1)
  else
    '(p, r) ← vsnprintf (l + 1) fmt ap strerror_;
    if negb (r =? l) then Ok (None, -1) else Ok (Some p, l).

(** The stream of vdprintf is unbuffered. *)
Definition vdprintf {K} `{!Kernel K} (fd : Z) (k : K) (fmt : list Z) (ap : list varg) (strerror_ : list Z) : res (FILE K * Z) :=
  __vfprintf_unlocked (__file_init fd true false UNGET k) fmt ap strerror_.

Definition __vsnprintf_chk (n slen : Z) (fmt : list Z) (ap : list varg) (strerror_ : list Z) : res (list Z * Z) :=
  if slen <? n then Trap Abrt else vsnprintf n fmt ap strerror_.

Definition __vsprintf_chk (slen : Z) (fmt : list Z) (ap : list varg) (strerror_ : list Z) : res (list Z * Z) :=
  if slen =? 0 then Trap Abrt
  else
    '(s, r) ← vsnprintf slen fmt ap strerror_;
    if (0 <=? r) && (slen <=? r) then Trap Abrt else Ok (s, r).
