(* ===== verification/Printfout.v ===== *)
(** * What printf writes does not depend on where it writes

    Two runs of the format interpreter of src/src/vfprintf.c over two devices
    that keep the contract [Sink] are compared: they write the same pieces,
    count the same bytes and stop at the same place; they differ only when a
    device reports an error. A tape, a device that takes everything, then
    defines the text of a format. *)
From S2P Require Import Prelude Lit Fpround Strtod Stdio Stdioout Printf.

(** ** The lengths of the pieces *)

Definition size (ps : list (list Z)) : Z := Z.of_nat (length (concat ps)).

Lemma size_nil : size [] = 0.
Proof. done. Qed.

Lemma size_cons p ps : size (p :: ps) = Z.of_nat (length p) + size ps.
Proof. unfold size. cbn [concat]. rewrite length_app. lia. Qed.

Lemma size_app ps qs : size (ps ++ qs) = size ps + size qs.
Proof. unfold size. rewrite concat_app, length_app. lia. Qed.

Lemma size_nonneg ps : 0 <= size ps.
Proof. unfold size. lia. Qed.

Create Rewrite HintDb sizes.
#[export] Hint Rewrite size_nil size_cons size_app @length_app @length_replicate @length_fmap @length_seq : sizes.

Lemma pad_loop_concat fuel c n : 0 <= n → (Z.to_nat n <= fuel)%nat → concat (pad_loop fuel c n) = replicate (Z.to_nat n) c.
Proof.
  revert n. induction fuel as [|fuel IH]; intros n Hn Hf; cbn [pad_loop]; [by replace (Z.to_nat n) with 0%nat by lia|].
  destruct (Z.eqb_spec n 0) as [->|Hz]; [done|]. cbn [concat]. set (k := if n <? 64 then n else 64).
  assert (0 < k <= n) as Hk by (unfold k; destruct (Z.ltb_spec n 64); lia). rewrite IH by lia. rewrite <- replicate_add. f_equal. lia.
Qed.

Lemma pad_concat c n : 0 <= n → concat (pad c n) = replicate (Z.to_nat n) c.
Proof. intros Hn. by apply pad_loop_concat. Qed.

Lemma pad_size c n : 0 <= n → size (pad c n) = n.
Proof. intros Hn. unfold size. rewrite pad_concat, length_replicate by done. lia. Qed.

Lemma fill_of_range w len : 0 <= fill_of w len ∧ len + fill_of w len = Z.max w len.
Proof. unfold fill_of. destruct (Z.ltb_spec len w); lia. Qed.

Lemma emit_field_size fl w pre zeros body : 0 <= zeros →
  size (emit_field fl w pre zeros body) = Z.max w (Z.of_nat (length pre) + zeros + Z.of_nat (length body)).
Proof.
  intros Hz. unfold emit_field. set (len := Z.of_nat (length pre) + zeros + Z.of_nat (length body)). destruct (fill_of_range w len) as [Hf <-].
  destruct (fl_left fl), (fl_zero fl); cbn [negb andb]; autorewrite with sizes; rewrite !pad_size by done; lia.
Qed.

Lemma place_size fl w len room pre ps : len = Z.of_nat (length pre) + size ps →
  let '(n, qs) := place fl w len room pre ps in n <= room → size qs = n.
Proof.
  intros ->. unfold place. set (len := Z.of_nat (length pre) + size ps). destruct (fill_of_range w len) as [Hf _]. intros Hr. rewrite (proj2 (Z.ltb_ge _ _)) by done.
  destruct (fl_left fl), (fl_zero fl); cbn [negb andb orb]; autorewrite with sizes; rewrite !pad_size by done; lia.
Qed.

Lemma chunks_concat fuel l : (length l <= fuel)%nat → concat (chunks fuel l) = l.
Proof.
  revert l. induction fuel as [|fuel IH]; intros [|c l] Hf; try done; [cbn in Hf; lia|]. cbn [chunks concat]. rewrite IH by (rewrite length_drop; cbn in *; lia). apply take_drop.
Qed.

Lemma db_out_size l : size (db_out l) = Z.of_nat (length l).
Proof. unfold size, db_out. by rewrite chunks_concat. Qed.

Lemma strip_zeros_range n d b : 0 <= strip_zeros n d b <= Z.of_nat n.
Proof. induction n as [|n IH]; cbn [strip_zeros]; [lia|]. destruct (rdig d (b + Z.of_nat (S n)) =? 0); lia. Qed.

Lemma hex_len_range n frac : 0 <= hex_len n frac <= Z.of_nat n.
Proof. induction n as [|n IH]; cbn [hex_len]; [lia|]. destruct (_ =? 0); lia. Qed.

Lemma rdigits_length d from n : length (rdigits d from n) = Z.to_nat n.
Proof. unfold rdigits. by autorewrite with sizes. Qed.

#[export] Hint Rewrite db_out_size rdigits_length : sizes.

Lemma dot_length (b : bool) : Z.of_nat (length (if b then [46] else [])) = Z.b2z b.
Proof. by destruct b. Qed.

Lemma fmt_hex_size v w p fl pre room : let '(n, ps) := fmt_hex v w p fl pre room in n <= room → size ps = n.
Proof.
  unfold fmt_hex. destruct (hex_round (p_m v) (p_e v) p) as [[lead frac] X]. set (q := if p <? 0 then hex_len 16 frac else p).
  assert (0 <= q) as Hq by (unfold q; pose proof (hex_len_range 16 frac); destruct (Z.ltb_spec p 0); lia). clearbody q. cbn zeta. set (k := if q <? 16 then q else 16). assert (0 <= k <= q) as Hk by (unfold k; destruct (Z.ltb_spec q 16); lia). clearbody k.
  apply place_size. autorewrite with sizes. rewrite pad_size by lia. lia.
Qed.

Lemma fmt_e_size v d w p fl strip pre room : 0 <= p → let '(n, ps) := fmt_e v d w p fl strip pre room in n <= room → size ps = n.
Proof.
  intros Hp. unfold fmt_e. set (d' := dec_round d _). set (k := if strip then _ else p). assert (0 <= k) as Hk by (unfold k; pose proof (strip_zeros_range (Z.to_nat p) d' 0); destruct strip; lia). clearbody k d'.
  apply place_size. rewrite size_app. autorewrite with sizes. cbn [length]. rewrite !Nat2Z.inj_add, dot_length. lia.
Qed.

Lemma fmt_f_size v d w p fl strip pre room : 0 <= p → let '(n, ps) := fmt_f v d w p fl strip pre room in n <= room → size ps = n.
Proof.
  intros Hp. unfold fmt_f. set (d' := if _ || _ then _ else _). set (k := if strip then _ else p). assert (0 <= k) as Hk by (unfold k; pose proof (strip_zeros_range (Z.to_nat p) d' (E d' - 1)); destruct strip; lia). clearbody k d'.
  apply place_size. autorewrite with sizes. rewrite !Nat2Z.inj_add, dot_length. destruct (Z.ltb_spec 0 (E d')); autorewrite with sizes; cbn [length]; lia.
Qed.

(** A floating-point field has the length that is returned, if it fits. *)
Lemma fmt_fp_size y w p fl t room n ps : fmt_fp y w p fl t room = Ok (n, ps) → n <= room → size ps = n.
Proof.
  unfold fmt_fp. destruct (p_inf (ld_split y) || p_nan (ld_split y)).
  { intros [= <- <-] Hr. rewrite (proj2 (Z.leb_le _ _)) by done. set (s := if p_nan _ then _ else _). assert (length s = 3%nat) as Hs by (unfold s; destruct (p_nan (ld_split y)), (fl_upper fl); done).
    rewrite emit_field_size by lia. rewrite Hs. destruct (Z.ltb_spec (Z.of_nat (length (sign_str (p_neg (ld_split y)) fl)) + 3) w); lia. }
  destruct (t =? 97).
  { intros [= E] Hr. pose proof (fmt_hex_size (ld_split y) w p fl (sign_str (p_neg (ld_split y)) fl) room) as H. rewrite E in H. by apply H. }
  set (q := if p <? 0 then 6 else p). assert (0 <= q) as Hq by (unfold q; destruct (Z.ltb_spec p 0); lia). clearbody q. destruct (dec_init _ _) as [d|]; [|discriminate]. cbn [mbind res_bind].
  assert (∀ x, (let '(n, ps) := x in n <= room → size ps = n) → Ok x = Ok (n, ps) → n <= room → size ps = n) as Hok by (by intros x H [= ->]).
  destruct (t =? 103); apply Hok.
  - set (P := if q =? 0 then 1 else q). assert (1 <= P) as HP by (unfold P; destruct (Z.eqb_spec q 0); lia). clearbody P. set (X := if p_m _ =? 0 then 0 else _). clearbody X.
    destruct (Z.ltb_spec X P), (Z.leb_spec (-4) X); cbn [andb]; first [apply fmt_f_size; lia | apply fmt_e_size; lia].
  - destruct (t =? 101); [by apply fmt_e_size | by apply fmt_f_size].
Qed.

(** ** Two runs of the interpreter *)

Arguments out_ : clear implicits.
Arguments pst : clear implicits.
Arguments PM : clear implicits.
#[local] Existing Instances pm_ret pm_bind.

Section Sim.
Context {D1 D2 : Type} `{!Device D1} `{!Device D2}.

(** What relates the two outputs when [c] bytes have been counted: it is kept
    by writing the same pieces, and in the scanning pass, which writes
    nothing, the count does not matter. *)
Context (scan : bool) (R : out_ D1 → out_ D2 → Z → Prop).
Context (Hemit : ∀ o1 o2 c ps, R o1 o2 c → R (outs o1 ps) (outs o2 ps) (c + size ps)).
Context (Hscan : scan = true → ∀ o1 o2 c c', R o1 o2 c → R o1 o2 c').

Record rel (s1 : pst D1) (s2 : pst D2) : Prop := {
  rel_out : R (p_o s1) (p_o s2) (p_cnt s1);
  rel_cnt : p_cnt s2 = p_cnt s1;
  rel_l10n : p_l10n s2 = p_l10n s1;
  rel_ap : p_ap s2 = p_ap s1;
  rel_types : p_types s2 = p_types s1;
  rel_range : 0 <= p_cnt s1 <= INT_MAX;
}.

(** Only the scanning pass returns from the middle, and then without error. *)
Definition is_error (q : quit) : bool := match q with Return _ => false | _ => true end.
Definition stops (q : quit) : Prop := is_error q = true ∨ (scan = true ∧ q = Return 0).

Definition simres {A} (r1 : res ((A + quit) * pst D1)) (r2 : res ((A + quit) * pst D2)) : Prop :=
  match r1, r2 with
  | Ok (inl a, s1), Ok (inl b, s2) => a = b ∧ rel s1 s2
  | Ok (inr q, s1), Ok (inr q', s2) => q = q' ∧ (∃ c, R (p_o s1) (p_o s2) c) ∧ stops q
  | Trap t, Trap t' => t = t'
  | _, _ => False
  end.

Definition sim {A} (m1 : PM D1 A) (m2 : PM D2 A) : Prop := ∀ s1 s2, rel s1 s2 → simres (m1 s1) (m2 s2).

Lemma sim_ret {A} (a : A) : sim (mret a) (mret a).
Proof. intros s1 s2 H. done. Qed.

Lemma sim_stop {A} q : stops q → sim (A := A) (stop q) (stop q).
Proof. intros Hq s1 s2 H. split; [done|]. split; [|done]. exists (p_cnt s1). by apply rel_out. Qed.

Lemma sim_error {A} q : is_error q = true → sim (A := A) (stop q) (stop q).
Proof. intros Hq. apply sim_stop. by left. Qed.

Lemma sim_trap {A} t : sim (A := A) (trap_ t) (trap_ t).
Proof. intros s1 s2 H. done. Qed.

Lemma sim_lift {A} (c : res A) : sim (lift c) (lift c).
Proof. intros s1 s2 H. unfold lift. by destruct c. Qed.

Lemma sim_bind_at {A B} m1 m2 (k1 : A → PM D1 B) (k2 : A → PM D2 B) s1 s2 :
  simres (m1 s1) (m2 s2) → (∀ a, sim (k1 a) (k2 a)) → simres ((m1 ≫= k1) s1) ((m2 ≫= k2) s2).
Proof.
  intros Hm Hk. unfold mbind, pm_bind. destruct (m1 s1) as [[[a|q] s1']|t], (m2 s2) as [[[b|q'] s2']|t']; cbn in Hm; try done. destruct Hm as [-> Hr]. by apply Hk.
Qed.

Lemma sim_bind {A B} m1 m2 (k1 : A → PM D1 B) (k2 : A → PM D2 B) : sim m1 m2 → (∀ a, sim (k1 a) (k2 a)) → sim (m1 ≫= k1) (m2 ≫= k2).
Proof. intros Hm Hk s1 s2 H. apply sim_bind_at; [by apply Hm | done]. Qed.

(** The continuation of a read of the state is run in that state. *)
Lemma sim_get {B} (k1 : pst D1 → PM D1 B) (k2 : pst D2 → PM D2 B) : (∀ s1 s2, rel s1 s2 → simres (k1 s1 s1) (k2 s2 s2)) → sim (get ≫= k1) (get ≫= k2).
Proof. intros Hk s1 s2 H. by apply Hk. Qed.

Lemma sim_set_l10n v : sim (set_l10n v) (set_l10n v).
Proof. intros s1 s2 []. split; [done|]. by split. Qed.

Lemma sim_set_type i t : sim (set_type i t) (set_type i t).
Proof. intros s1 s2 []. split; [done|]. split; cbn; congruence. Qed.

Lemma sim_pop t : sim (pop t) (pop t).
Proof. intros s1 s2 []. unfold pop. rewrite rel_ap0. destruct (pop_arg t (p_ap s1)) as [[a ap]|]; [|done]. split; [done|]. by split. Qed.

Lemma sim_FITS n : sim (FITS n) (FITS n).
Proof. intros s1 s2 H. unfold FITS. rewrite (rel_cnt _ _ H). destruct (_ <? n); [split; [done|]; split; [exists (p_cnt s1); by apply rel_out | by left] | done]. Qed.

(** Writing pieces and counting them. *)
Lemma sim_emit_at ps n s1 s2 : rel s1 s2 → (n <= INT_MAX - p_cnt s1 → size ps = n) → simres ((emit ps;; ADD n) s1) ((emit ps;; ADD n) s2).
Proof.
  intros [] Hn. unfold mbind, pm_bind, emit, ADD. cbn. rewrite rel_cnt0. apply (Hemit _ _ _ ps) in rel_out0.
  destruct (Z.ltb_spec (INT_MAX - p_cnt s1) n) as [Hlt|Hle]; [split; [done|]; split; [by eexists | by left]|]. specialize (Hn Hle) as <-. pose proof (size_nonneg ps). split; [done|]. split; cbn; [done | done | done | done | done | lia].
Qed.

Lemma sim_emit ps n : size ps = n → sim (emit ps;; ADD n) (emit ps;; ADD n).
Proof. intros Hn s1 s2 H. by apply sim_emit_at. Qed.

Context (nl_arg : list arg) (strerror_ : list Z).

(** A sequence of two and of the rest. *)
Lemma sim_emit_field n fl w pre zeros body : 0 <= zeros → n = Z.max w (Z.of_nat (length pre) + zeros + Z.of_nat (length body)) →
  sim (FITS n;; emit (emit_field fl w pre zeros body);; ADD n) (FITS n;; emit (emit_field fl w pre zeros body);; ADD n).
Proof. intros Hz ->. apply sim_bind; [apply sim_FITS | intros []]. apply sim_emit. by apply emit_field_size. Qed.

Lemma sim_integer c fl w p pre d : sim (integer c fl w p pre d) (integer c fl w p pre d).
Proof.
  unfold integer. set (zeros := if _ && _ then _ else 0). assert (0 <= zeros) as Hz by (unfold zeros; destruct (Z.ltb_spec (Z.of_nat (length d)) p); destruct (0 <? p); cbn [andb]; lia). clearbody zeros.
  apply sim_emit_field; [done|]. destruct (Z.ltb_spec w (Z.of_nat (length pre) + zeros + Z.of_nat (length d))); lia.
Qed.

Lemma sim_text fl w d : sim (text fl w d) (text fl w d).
Proof. unfold text. apply sim_emit_field; [done|]. cbn [length]. destruct (Z.ltb_spec (Z.of_nat (length d)) w); lia. Qed.

Lemma wide_bytes_size ws p b acc mbs n : wide_bytes ws p b acc = inl (mbs, n) → b = size acc → n = size mbs.
Proof.
  revert b acc. induction ws as [|q ws IH]; intros b acc; cbn [wide_bytes]; [by intros [= <- <-]|]. destruct (utf8 (u32 q)) as [mb|]; [|done].
  destruct (_ && _); [by intros [= <- <-]|]. destruct (_ <? _); [done|]. intros H Hb. eapply IH; [exact H|]. autorewrite with sizes. lia.
Qed.

Lemma wide_bytes_error ws p b acc q : wide_bytes ws p b acc = inr q → is_error q = true.
Proof.
  revert b acc. induction ws as [|x ws IH]; intros b acc; cbn [wide_bytes]; [done|]. destruct (utf8 (u32 x)) as [mb|]; [|by intros [= <-]].
  destruct (_ && _); [done|]. destruct (_ <? _); [by intros [= <-] | apply IH].
Qed.

Lemma sim_wide fl w p ws : sim (wide fl w p ws) (wide fl w p ws).
Proof.
  unfold wide. destruct (wide_bytes ws p 0 []) as [[mbs n]|q] eqn:E; [|apply sim_error; by apply wide_bytes_error in E]. apply wide_bytes_size in E; [|done]. subst n.
  apply sim_bind; [apply sim_FITS | intros []]. apply sim_emit. destruct (fill_of_range w (size mbs)) as [Hf _]. destruct (fl_left fl); autorewrite with sizes; rewrite pad_size by done; lia.
Qed.

Lemma sim_conversion c lm fl w p a : sim (conversion strerror_ c lm fl w p a) (conversion strerror_ c lm fl w p a).
Proof.
  unfold conversion. destruct (c =? 37); [by apply sim_emit|]. destruct (one_of c _); [apply sim_integer|]. destruct (c =? 117); [apply sim_integer|]. destruct (c =? 111); [apply sim_integer|].
  destruct (_ || _); [apply sim_integer|]. destruct (c =? 112).
  { destruct a as [|y|[ | | |[]|[]|q]]; try apply sim_trap; try apply sim_text. destruct (q =? 0); [apply sim_text | apply sim_integer]. }
  destruct (_ && _); [apply sim_text|]. destruct (_ || _).
  { destruct (if int_of a =? 0 then Some [0] else utf8 (u32 (int_of a))); [apply sim_text | by apply sim_error]. }
  destruct (c =? 109); [apply sim_text|]. destruct (_ && _).
  { destruct a as [|y|[]]; try apply sim_trap; apply sim_text. }
  destruct (_ || _).
  { destruct a as [|y|[]]; try apply sim_trap; apply sim_wide. }
  destruct a as [|y|]; try apply sim_trap. set (fl' := if (65 <=? c) && (c <=? 90) then with_upper fl else fl). apply sim_get. intros s1 s2 H. rewrite (rel_cnt _ _ H). unfold lift, mbind, pm_bind at 1 3.
  destruct (fmt_fp y w p fl' (Z.lor c 32) (INT_MAX - p_cnt s1)) as [[n ps]|t] eqn:E; [|done]. apply (sim_emit_at ps n s1 s2 H). by apply (fmt_fp_size _ _ _ _ _ _ _ _ E).
Qed.

Lemma sim_star s : sim (star scan nl_arg s) (star scan nl_arg s).
Proof.
  apply sim_get. intros s1 s2 H. rewrite (rel_l10n _ _ H). revert s1 s2 H. fold (sim (A := Z * list Z)). intros s1 s2 H.
  destruct (is_digit (cur s)).
  - destruct (getint s) as [n t]. destruct (_ || _); [by apply sim_error|]. apply sim_bind_at; [by apply sim_set_l10n|]. intros []. destruct scan eqn:Es; [|apply sim_ret]. apply sim_bind; [apply sim_set_type | intros []; apply sim_ret].
  - destruct (0 <? p_l10n s1); [by apply sim_error|]. apply sim_bind_at; [by apply sim_set_l10n|]. intros []. destruct scan eqn:Es; [apply sim_stop; by right|]. apply sim_bind; [apply sim_pop | intros a; apply sim_ret].
Qed.

Lemma sim_width s fl : sim (width scan nl_arg s fl) (width scan nl_arg s fl).
Proof.
  unfold width. destruct (cur s =? 42).
  - apply sim_bind; [apply sim_star | intros [w t]]. destruct (w <? 0); [|apply sim_ret]. destruct (w =? INT_MIN); [by apply sim_error | apply sim_ret].
  - destruct (getint s) as [w t]. destruct (w <? 0); [by apply sim_error | apply sim_ret].
Qed.

Lemma sim_precision s : sim (precision scan nl_arg s) (precision scan nl_arg s).
Proof.
  unfold precision. destruct (cur s =? 46); [|apply sim_ret]. destruct (cur (tail s) =? 42).
  - apply sim_bind; [apply sim_star | intros [p t]]. apply sim_ret.
  - destruct (getint (tail s)) as [p t]. destruct (p <? 0); [by apply sim_error | apply sim_ret].
Qed.

Lemma sim_fetch c t argpos : sim (fetch scan nl_arg c t argpos) (fetch scan nl_arg c t argpos).
Proof.
  apply sim_get. intros s1 s2 H. rewrite (rel_l10n _ _ H), (rel_types _ _ H). destruct (negb (one_of c _)).
  - destruct (0 <? argpos).
    + destruct (p_l10n s1 <? 0); [by apply sim_error|]. apply sim_bind_at; [by apply sim_set_l10n | intros []]. destruct scan eqn:Es; [|apply sim_ret]. cbn zeta. destruct (_ && _); [by apply sim_error|]. apply sim_bind; [apply sim_set_type | intros []; apply sim_ret].
    + destruct (0 <? p_l10n s1); [by apply sim_error|]. apply sim_bind_at; [by apply sim_set_l10n | intros []]. destruct scan eqn:Es; [apply sim_stop; by right|]. apply sim_bind; [apply sim_pop | intros a; apply sim_ret].
  - destruct (0 <? argpos); [by apply sim_error | by apply sim_ret].
Qed.

Lemma sim_directive s : sim (directive scan nl_arg strerror_ s) (directive scan nl_arg strerror_ s).
Proof.
  unfold directive. apply sim_bind; [|intros [argpos t]].
  { destruct (position s) as [[n t]|]; [|apply sim_ret]. destruct (_ || _); [by apply sim_error | apply sim_ret]. }
  destruct (flags_loop t no_flags) as [fl t1]. apply sim_bind; [apply sim_width | intros [[w fl'] t2]]. apply sim_bind; [apply sim_precision | intros [p t3]]. destruct (length_mod t3) as [lm t4].
  destruct (cur t4 =? 110); [apply sim_trap|]. destruct (conv_type (cur t4) lm) as [t5|]; [|by apply sim_error]. apply sim_bind; [apply sim_fetch | intros [a|]; [|apply sim_ret]]. apply sim_bind; [apply sim_conversion | intros []; apply sim_ret].
Qed.

Lemma sim_put t : sim (put scan t) (put scan t).
Proof.
  intros s1 s2 H. unfold put. set (n := Z.of_nat (length t)). destruct scan eqn:Es.
  - unfold mbind, pm_bind, FITS, ADD, mret, pm_ret. destruct H. rewrite rel_cnt0. destruct (Z.ltb_spec (INT_MAX - p_cnt s1) n) as [Hlt|Hle]; [split; [done | split; [by eexists | by left]]|]. rewrite rel_cnt0, (proj2 (Z.ltb_ge _ _)) by done.
    split; [done|]. split; cbn; [by eapply Hscan | done | done | done | done | lia].
  - apply (sim_bind _ _ _ _ (sim_FITS n)); [|done]. intros []. apply sim_emit. unfold n. autorewrite with sizes. lia.
Qed.

Lemma sim_core_loop fuel s : sim (core_loop scan nl_arg strerror_ fuel s) (core_loop scan nl_arg strerror_ fuel s).
Proof.
  revert s. induction fuel as [|fuel IH]; intros s; cbn [core_loop]; [apply sim_trap|]. destruct (literal s) as [a t]. destruct (_ && _); apply sim_bind; try apply sim_put; intros []; [apply IH|].
  destruct (cur t =? 0); [apply sim_ret|]. apply sim_bind; [apply sim_directive | apply IH].
Qed.

Lemma sim_fetch_all ts args : sim (fetch_all ts args) (fetch_all ts args).
Proof.
  revert args. induction ts as [|t ts IH]; intros args; cbn [fetch_all]; [apply sim_ret|]. destruct (bool_decide (t = T_NONE)).
  - destruct (forallb _ ts); [apply sim_ret | by apply sim_error].
  - apply sim_bind; [apply sim_pop | intros a; apply IH].
Qed.
End Sim.

(** ** The text of a format *)

(** A tape takes everything. *)
Record tape := Tape { tp : list Z }.

Definition tape_write (f : FILE tape) (s : list Z) : FILE tape * nat := (w_reset (set_dev (Tape (tp (f_dev f) ++ pending f ++ s)) f), length s).

#[export] Instance tape_device : Device tape := {
  f_write := tape_write; f_read f _ := (set_errno EBADF (set_err true f), []); f_seek f _ _ := (set_errno EBADF f, -1); isatty _ := false
}.

#[export] Program Instance tape_sink : Sink tape := {| accepted _ d t := tp d = t; reliable := True |}.
Next Obligation. intros f s t Ha. left. split; [done|]. split; [done|]. cbn. by rewrite Ha. Qed.

Definition tape_stream : FILE tape := __file_init (-1) true false (UNGET + 256) (Tape []).

(** The bytes a format and its arguments denote, with the result and errno (0
    if it is not set). *)
Definition printed (fmt : list Z) (ap : list varg) (strerror_ : list Z) : res (list Z * Z * Z) :=
  '(f, r) ← __vfprintf_unlocked tape_stream fmt ap strerror_;
  Ok (tp (f_dev f) ++ pending f, r, f_errno f).

Section Stands.
Context {D : Type} `{!Device D} `{!Sink D}.

(** The output holds [t], or the device has failed. *)
Definition stands (e : Z) (o : out_ D) (t : list Z) : Prop :=
  (o_err o = false ∧ f_err (o_f o) = false ∧ f_errno (o_f o) = e ∧ holds (o_f o) t) ∨ failed (o_f o) t.

Lemma out_stands e o s t : stands e o t → stands e (out o s) (t ++ s).
Proof.
  intros [(E1 & E2 & E3 & H)|H]; unfold out.
  - rewrite E1, E2. cbn [negb andb]. pose proof (fwritex_ok (o_f o) s t H) as Hw. destruct (__fwritex s (o_f o)) as [f n]. destruct Hw as [(-> & Hh & [Ea Eb] & _)|[Hn Hf]].
    + rewrite Nat.eqb_refl. left. cbn. split_and!; [done | congruence | congruence | done].
    + by right.
  - assert (f_err (o_f o) = true) as -> by apply H. rewrite andb_false_r. right. eapply failed_prefix; [done | by apply prefix_app_r].
Qed.

Lemma outs_stands e o ps t : stands e o t → stands e (outs o ps) (t ++ concat ps).
Proof.
  revert o t. induction ps as [|p ps IH]; intros o t H; cbn [concat]; [by rewrite app_nil_r|]. rewrite app_assoc. apply IH. by apply out_stands.
Qed.

Lemma holds_set_err f t b : holds f t → holds (set_err b f) t.
Proof. by intros []. Qed.

Lemma holds_errno f t e : holds f t → holds (with_errno e f) t.
Proof. destruct e; [|done]. by intros []. Qed.

Lemma failed_errno f t e : failed f t → failed (with_errno e f) t.
Proof. destruct e; [|done]. by intros (? & ? & ?). Qed.

Lemma stands_errno e o t en : stands e o t → stands (default e en) (Out (with_errno en (o_f o)) (o_err o)) t.
Proof. intros [(H1 & H2 & H3 & H4)|H]; [left; split_and!; [done | by destruct en | by destruct en | by apply holds_errno] | right; by apply failed_errno]. Qed.

(** An empty buffer can be replaced. *)
Lemma holds_rebuffer f t n : holds f t → pending f = [] → holds (set_w None (set_bufsize n f)) t.
Proof.
  intros [(t0 & Ha & ->) H1 H2 H3 H4 H5] Hp. rewrite Hp, app_nil_r. split; cbn; [exists t0; by rewrite app_nil_r | done | intros _; apply not_elem_of_nil | done | done | done].
Qed.

Lemma unbuffered_pending f t : holds f t → f_bufsize f = 0%nat → pending f = [].
Proof. intros H E. pose proof (h_cap _ _ H) as Hc. unfold pending. destruct (f_w f) as [[cap p]|]; [|done]. destruct Hc as [-> Hc]. apply nil_length_inv. lia. Qed.
End Stands.

Section Entry.
Context {D1 D2 : Type} `{!Device D1} `{!Device D2}.

(** The scanning pass does not use the stream; it fails with an error number. *)
Lemma scan_sim e fmt : sim true (λ (_ : out_ D1) (_ : out_ D2) _, True) (printf_core true [] e fmt) (printf_core true [] e fmt).
Proof.
  unfold printf_core. apply sim_bind; [apply sim_core_loop; done | intros []]. apply sim_get. intros s1 s2 Hr. rewrite (rel_l10n _ _ _ Hr), (rel_types _ _ _ Hr). destruct (_ <=? 0); [apply (sim_stop true); [by right | done]|].
  apply sim_bind_at; [by apply sim_fetch_all | intros args; apply sim_ret].
Qed.

Lemma scan_pass_eq (f1 : FILE D1) (f2 : FILE D2) fmt ap e : scan_pass f1 fmt ap e = scan_pass f2 fmt ap e ∧
  match scan_pass f1 fmt ap e with Ok (inr (v, en)) => ∃ e1, en = Some e1 ∧ e1 ≠ 0 | _ => True end.
Proof.
  pose proof (scan_sim e fmt (start f1 ap) (start f2 ap) ltac:(split; cbn; done)) as H. unfold scan_pass.
  destruct (printf_core true [] e fmt (start f1 ap)) as [[[a|q] s1]|t], (printf_core true [] e fmt (start f2 ap)) as [[[b|q'] s2]|t']; cbn in H |- *; try done.
  - by destruct H as [-> _].
  - destruct H as (-> & _ & H). split; [done|]. destruct H as [H|[_ ->]]; [|done]. destruct q'; cbn; [done | | |]; by eexists.
  - by subst t'.
Qed.
End Entry.

Section Entries.
Context {D : Type} `{!Device D} `{!Sink D}.
Implicit Types (f : FILE D) (g : FILE tape).

Lemma tape_stands e (o : out_ tape) t : stands e o t → o_err o = false ∧ f_err (o_f o) = false ∧ f_errno (o_f o) = e ∧ holds (o_f o) t.
Proof. intros [H|(H & _)]; [done|]. by destruct H. Qed.

(** The run on a stream against the run on a tape: the same text, and the same
    result unless the device failed; a count is the length of the text. *)
Lemma core_run f g t fmt ap e nl : holds f t → f_err f = false → holds g [] → f_err g = false →
  match printf_core false nl e fmt (start g ap) with
  | Trap x => printf_core false nl e fmt (start f ap) = Trap x
  | Ok (inl _, _) => False
  | Ok (inr q, s2) => ∃ q1 s1 T, printf_core false nl e fmt (start f ap) = Ok (inr q1, s1) ∧
      stands (f_errno f) (p_o s1) (t ++ T) ∧ stands (f_errno g) (p_o s2) T ∧
      (q1 = q ∨ failed (o_f (p_o s1)) (t ++ T)) ∧
      (is_error q = true ∨ q = Return (Z.of_nat (length T)) ∧ Z.of_nat (length T) <= INT_MAX)
  end.
Proof.
  intros Hf Ef Hg Eg.
  set (R := λ (o1 : out_ D) (o2 : out_ tape) (c : Z), ∃ T, stands (f_errno f) o1 (t ++ T) ∧ stands (f_errno g) o2 T ∧ c = Z.of_nat (length T)).
  assert (∀ o1 o2 c ps, R o1 o2 c → R (outs o1 ps) (outs o2 ps) (c + size ps)) as Hemit.
  { intros o1 o2 c ps (T & H1 & H2 & ->). exists (T ++ concat ps). rewrite app_assoc. split_and!; [by apply outs_stands | by apply outs_stands | unfold size; rewrite length_app; lia]. }
  assert (rel R (start f ap) (start g ap)) as Hs.
  { split; cbn; try done. exists []. rewrite app_nil_r. split_and!; [left; done | left; done | done]. }
  pose proof (sim_core_loop false R Hemit ltac:(done) nl e (S (length fmt)) fmt _ _ Hs) as H. unfold printf_core, mbind, pm_bind.
  destruct (core_loop false nl e (S (length fmt)) fmt (start f ap)) as [[[[]|q1] s1]|x1], (core_loop false nl e (S (length fmt)) fmt (start g ap)) as [[[[]|q2] s2]|x2]; cbn in H; try done.
  - destruct H as [_ [(T & H1 & H2 & Hc) Hcnt _ _ _ Hrange]]. destruct (tape_stands _ _ _ H2) as (Eo & _). cbn. rewrite Eo. cbn.
    exists (if o_err (p_o s1) then Return (-1) else Return (p_cnt s1)), s1, T. split; [by destruct (o_err (p_o s1))|]. split; [done|]. split; [done|]. split.
    + destruct H1 as [(E1 & _)|H1]; [left; by rewrite E1, Hcnt | by right].
    + right. rewrite Hcnt. split; [by rewrite Hc | lia].
  - destruct H as (-> & (c & T & H1 & H2 & _) & Hq). exists q2, s1, T. split_and!; [done | done | done | by left | left; destruct Hq as [Hq|[Hq _]]; done].
  - by subst x1.
Qed.

(** An unbuffered stream at the end. *)
Lemma unbuffer_ok saved f t e o : stands e (Out f o) t →
  let f' := unbuffer saved f in
  (holds f' t ∧ f_err f' = false ∧ f_errno f' = e ∧ (saved = true → pending f' = []) ∧ f_err f = false) ∨ failed f' t.
Proof.
  intros [(_ & E2 & E3 & H)|H]; cbn in *; unfold unbuffer; destruct saved.
  - destruct (pending f) as [|c p] eqn:Ep; cbn [length Nat.eqb negb].
    { left. split_and!; [by apply holds_rebuffer | done | done | done | done]. }
    pose proof (f_write_ok f [] t H) as Hw. rewrite app_nil_r in Hw. destruct (f_write f []) as [f1 n]. cbn [fst]. destruct Hw as [(_ & E & Hw)|(_ & _ & Hw & Hx)].
    + left. split_and!; [apply holds_rebuffer; [done | by rewrite E] | rewrite E; done | rewrite E; done | done | done].
    + right. destruct Hx as (Hx1 & [Hx2 _] & Hx3). split; [done|]. split; [done|]. done.
  - left. split_and!; done.
  - right. destruct H as (H1 & [H2 H3] & H4). unfold pending. rewrite H3. cbn. split; [done|]. split; [done|]. done.
  - by right.
Qed.

(** The printing pass on a stream and on a tape. *)
Lemma print_pass_ok f t nl fmt ap e : holds f t →
  match print_pass tape_stream nl fmt ap e with
  | Trap x => print_pass f nl fmt ap e = Trap x
  | Ok (g, r) => let T := tp (f_dev g) ++ pending g in
      ∃ f' r', print_pass f nl fmt ap e = Ok (f', r') ∧
      (r = -1 ∧ f_errno g ≠ 0 ∨ r = Z.of_nat (length T) ∧ r <= INT_MAX ∧ f_errno g = 0) ∧
      ((r' = r ∧ holds f' (t ++ T) ∧ f_err f' = f_err f ∧ f_errno f' = (if f_errno g =? 0 then f_errno f else f_errno g) ∧ (f_bufsize f = 0%nat → pending f' = [])) ∨
       (r' = -1 ∧ failed f' (t ++ T)))
  end.
Proof.
  intros Hh. unfold print_pass at 1. change (f_bufsize (set_err false tape_stream) =? 0)%nat with false. cbn [buffer_]. pose proof (need_write_ok (set_err false tape_stream) [] ltac:(by apply holds_set_err, init_holds)) as Hg.
  destruct (need_write (set_err false tape_stream)) as [g b]. destruct Hg as (-> & Hg & [Eg Eg'] & _).
  unfold print_pass. set (saved := (f_bufsize (set_err false f) =? 0)%nat). assert (holds (buffer_ saved (set_err false f)) t ∧ f_err (buffer_ saved (set_err false f)) = false ∧ f_errno (buffer_ saved (set_err false f)) = f_errno f) as (Hb & Eb & Eb').
  { unfold buffer_. destruct saved eqn:Es; [|split; [by apply holds_set_err | done]]. split; [|done]. apply holds_rebuffer; [by apply holds_set_err|]. eapply unbuffered_pending; [by apply (holds_set_err _ _ false)|]. by apply Nat.eqb_eq. }
  pose proof (need_write_ok _ _ Hb) as Hn. destruct (need_write (buffer_ saved (set_err false f))) as [f1 b]. destruct Hn as (-> & Hn & [En En'] & _).
  pose proof (core_run f1 g t fmt ap e nl Hn ltac:(congruence) Hg Eg) as H. destruct (printf_core false nl e fmt (start g ap)) as [[[?|q] s2]|x]; cbn [mbind res_bind] in *; [done | | by rewrite H].
  destruct H as (q1 & s1 & T & -> & H1 & H2 & Hq & Hr). destruct (quit_result q) as [v en] eqn:Eq. destruct (quit_result q1) as [v1 en1] eqn:Eq1. cbn [mbind res_bind unbuffer].
  apply (stands_errno _ _ _ en) in H2. apply tape_stands in H2 as (_ & G1 & G2 & [(t0 & Ga & GT) _ _ _ _ _]). cbn [o_f] in *. rewrite G1. set (g' := with_errno en (o_f (p_o s2))) in *. change (tp (f_dev g') = t0) in Ga.
  change (if f_err tape_stream then set_err true g' else g') with g'. rewrite Eq1. cbn [mbind res_bind]. rewrite Ga, <- GT, G2, Eg'. change (f_errno (set_err false tape_stream)) with 0.
  assert (v = -1 ∧ default 0 en ≠ 0 ∨ v = Z.of_nat (length T) ∧ v <= INT_MAX ∧ en = None) as Hv.
  { destruct Hr as [Hr|[-> Hr]]; [left | right; injection Eq as <- <-; done]. destruct q; cbn in Eq; [done | | |]; injection Eq as <- <-; done. }
  eexists _, _. split; [done|]. split; [destruct Hv as [?|(? & ? & ->)]; [by left | by right]|].
  pose proof (unbuffer_ok saved _ _ _ _ (stands_errno _ _ _ en1 H1)) as Hu. cbn zeta in Hu. set (f2 := unbuffer saved (with_errno en1 (o_f (p_o s1)))) in *.
  destruct Hu as [(U1 & U2 & U3 & U4 & U5)|Hu].
  - rewrite U2. left. assert (q1 = q) as ->. { destruct Hq as [Hq|Hq]; [done|]. exfalso. assert (f_err (o_f (p_o s1)) = true) as E by apply Hq. destruct en1; cbn in U5; congruence. }
    assert (v1 = v ∧ en1 = en) as [-> ->] by (split; congruence). split_and!; [done | | | |].
    + destruct (f_err f); [by apply holds_set_err | done].
    + by destruct (f_err f).
    + transitivity (f_errno f2); [by destruct (f_err f)|]. rewrite U3, En', Eb'. destruct en as [e1|]; cbn; [|done]. destruct Hv as [[_ He]|(_ & _ & He)]; cbn in He; [by rewrite (proj2 (Z.eqb_neq _ _) He) | done].
    + intros Hz. assert (pending f2 = []) as Hp by (apply U4; unfold saved; cbn; by rewrite Hz). by destruct (f_err f).
  - right. assert (f_err f2 = true) as -> by apply Hu. split; [done|]. destruct Hu as (? & [? ?] & ?). by destruct (f_err f).
Qed.

(** vfprintf on any stream, buffered or not: the text of the format is added
    to what was written, and the result is that of the text; or the device
    failed, and the result is -1. *)
Lemma vfprintf_ok f t fmt ap e : holds f t →
  match printed fmt ap e with
  | Trap x => __vfprintf_unlocked f fmt ap e = Trap x
  | Ok (T, r, en) => ∃ f' r', __vfprintf_unlocked f fmt ap e = Ok (f', r') ∧
      (r = -1 ∧ en ≠ 0 ∨ r = Z.of_nat (length T) ∧ r <= INT_MAX ∧ en = 0) ∧
      ((r' = r ∧ holds f' (t ++ T) ∧ f_err f' = f_err f ∧ f_errno f' = (if en =? 0 then f_errno f else en) ∧ (f_bufsize f = 0%nat → pending f' = [])) ∨
       (r' = -1 ∧ failed f' (t ++ T)))
  end.
Proof.
  intros Hh. unfold printed, __vfprintf_unlocked. destruct (scan_pass_eq f tape_stream fmt ap e) as [-> _]. destruct (scan_pass_eq tape_stream tape_stream fmt ap e) as [_ Hscan].
  destruct (scan_pass tape_stream fmt ap e) as [[nl|[v en]]|x]; cbn [mbind res_bind]; [| |done].
  - pose proof (print_pass_ok f t nl fmt ap e Hh) as H. by destruct (print_pass tape_stream nl fmt ap e) as [[g r]|x].
  - destruct Hscan as (e1 & -> & He1). exists (set_errno e1 f), (-1). cbn. split; [done|]. split; [by left|]. left. rewrite app_nil_r, (proj2 (Z.eqb_neq _ _) He1). split_and!; [done | by apply (holds_errno _ _ (Some e1)) | done | done | intros Hz; exact (unbuffered_pending f t Hh Hz)].
Qed.
End Entries.

(** ** Printing into strings *)

Lemma vsnprintf_ok n fmt ap e : 0 <= n →
  match printed fmt ap e with
  | Trap x => vsnprintf n fmt ap e = Trap x
  | Ok (T, r, _) => vsnprintf n fmt ap e = Ok (if n =? 0 then [] else take (Z.to_nat (n - 1)) T ++ [0], r) ∧ (r = -1 ∨ r = Z.of_nat (length T) ∧ r <= INT_MAX)
  end.
Proof.
  intros Hn. unfold vsnprintf. set (c := if n =? 0 then Sn [] 0 else Sn [] (n - 1)). set (room := Z.to_nat (n - 1)). set (f := __file_init (-1) true false (UNGET + 256) c).
  assert (@holds sn sn_device (sn_sink room) f []) as Hh.
  { apply init_holds. unfold c, room. destruct (Z.eqb_spec n 0); cbn; rewrite take_nil; split; (done || lia). }
  pose proof (@vfprintf_ok sn sn_device (sn_sink room) f [] fmt ap e Hh) as H. destruct (printed fmt ap e) as [[[T r] en]|x]; [|by rewrite H].
  destruct H as (f' & r' & -> & Hr & H). cbn [mbind res_bind]. split; [|destruct Hr as [[? _]|(? & ? & _)]; [by left | by right]].
  destruct H as [(-> & [(t0 & Ha & HT) _ _ _ _ _] & _)|[_ [Hx _]]]; [|by destruct Hx]. cbn [app] in HT.
  pose proof (@write_contract sn sn_device (sn_sink room) f' [] t0 Ha) as Hw. cbn [f_write sn_device] in Hw. destruct (sn_write f' []) as [f2 k]. destruct Hw as [(_ & _ & Hs & _)|[Hx _]]; [|by destruct Hx].
  rewrite app_nil_r, <- HT in Hs. by rewrite Hs.
Qed.

(** "%s-%05d|%%" *)
Definition demo_format : list Z := lit "%s-%05d|%%".

Lemma demo_text : printed demo_format [VStr (Some [97; 98]); VInt (-42)] [] = Ok (lit "ab--0042|%", 10, 0).
Proof. vm_compute. reflexivity. Qed.

(** C5: printing to files. For any kernel that keeps the promise of writev and
    any stream, fully buffered, line buffered or unbuffered: the text that is
    added to what was written is the same as that stored in strings; if the
    call returns the count, what the kernel has and then what is buffered is
    exactly that (for an unbuffered stream the kernel has it all, as after
    dprintf); otherwise the result is -1, with errno set for a format error
    and the error indicator set if the kernel failed. *)
Theorem vfprintf_spec {K} `{!Kernel K} `{!KernelLaws K} (f : FILE K) t fmt ap e : holds f t →
  match printed fmt ap e with
  | Trap x => __vfprintf_unlocked f fmt ap e = Trap x
  | Ok (text, r, en) => ∃ f' r', __vfprintf_unlocked f fmt ap e = Ok (f', r') ∧
      let file := wrote (f_dev f') (f_fd f') in
      (r = -1 ∧ en ≠ 0 ∨ r = Z.of_nat (length text) ∧ en = 0) ∧
      ((r' = r ∧ file ++ pending f' = t ++ text ∧ (f_bufsize f = 0%nat → pending f' = []) ∧
        (0 <= f_lbf f' → 10 ∉ pending f') ∧ f_err f' = f_err f ∧ f_errno f' = (if en =? 0 then f_errno f else en)) ∨
       (r' = -1 ∧ f_err f' = true ∧ file `prefix_of` t ++ text))
  end.
Proof.
  intros Hh. pose proof (vfprintf_ok f t fmt ap e Hh) as H. destruct (printed fmt ap e) as [[[T r] en]|x]; [|done]. destruct H as (f' & r' & H & Hr & Hf). exists f', r'. split; [done|]. split; [destruct Hr as [?|(? & ? & ?)]; [by left | by right]|].
  destruct Hf as [(-> & [(t0 & Ha & HT) _ Hl _ _ _] & E1 & E2 & E3)|(-> & _ & [E1 _] & t0 & Ha & HT)].
  - left. rewrite HT. cbn in Ha. rewrite Ha. done.
  - right. cbn in Ha. rewrite Ha. done.
Qed.

Lemma vfprintf_spec_witness :
  let f := __file_init 1 true false UNGET (Disk [1] 40) in
  ∃ f' r', __vfprintf_unlocked f demo_format [VStr (Some [97; 98]); VInt (-42)] [] = Ok (f', r') ∧ r' = 10 ∧ d_file (f_dev f') = [1] ++ lit "ab--0042|%".
Proof.
  intros f. assert (holds f [1]) as Hh by (split; cbn; [by exists [1] | done | intros _; apply not_elem_of_nil | done | by left | done]).
  pose proof (vfprintf_spec f [1] demo_format [VStr (Some [97; 98]); VInt (-42)] [] Hh) as H.
  rewrite demo_text in H. destruct H as (f' & r' & H1 & _ & H2). exists f', r'. split; [exact H1|]. destruct H2 as [(-> & H2 & H3 & _)|(-> & H3 & _)].
  - specialize (H3 eq_refl). rewrite H3, app_nil_r in H2. split; [reflexivity | exact H2].
  - exfalso. vm_compute in H1. injection H1. intros _ E. rewrite <- E in H3. discriminate H3.
Defined.
