(* ===== verification/Printfdec.v ===== *)
(** * The decimal expansion of a floating-point value (src/src/vfprintf.c)

    [dec_init] computes the exact digits of m * 2^e within its array, and
    [dec_round] rounds them to nearest, ties to even. *)
From S2P Require Import Prelude Lit Fpround Strtod Strtodround Strtodspec Stdio Printf.

(** ** Limbs *)

Fixpoint lval (l : list Z) : Z := match l with [] => 0 | x :: l => x + LIMB * lval l end.

Definition limbs (l : list Z) : Prop := Forall (λ x, 0 <= x < LIMB) l.

Lemma LIMB_pos : 0 < LIMB.
Proof. done. Qed.

Lemma LIMB_pow k : 0 <= k → 0 < LIMB ^ k ∧ LIMB ^ k = 10 ^ (9 * k).
Proof. intros Hk. split; [by apply Z.pow_pos_nonneg|]. change LIMB with (10 ^ 9). rewrite <- Z.pow_mul_r by lia. done. Qed.

Lemma lval_range l : limbs l → 0 <= lval l < LIMB ^ Z.of_nat (length l).
Proof.
  induction 1 as [|x l Hx Hl IH]; [done|]. cbn [lval length]. rewrite Nat2Z.inj_succ, Z.pow_succ_r by lia. pose proof LIMB_pos. nia.
Qed.

Lemma lval_app l k : lval (l ++ k) = lval l + LIMB ^ Z.of_nat (length l) * lval k.
Proof.
  induction l as [|x l IH]; cbn [app lval length]; [rewrite Z.pow_0_r; lia|]. rewrite IH, Nat2Z.inj_succ, Z.pow_succ_r by lia. ring.
Qed.

Lemma u32_limb_id x : 0 <= x < LIMB → u32 x = x.
Proof. intros H. apply uwrap_small; unfold LIMB in *; lia. Qed.

Lemma mod_limb x : 0 <= x mod LIMB < LIMB.
Proof. apply Z.mod_pos_bound. done. Qed.

Lemma big_mul_loop_ok l m c : limbs l → 0 <= m < 2 ^ 32 → 0 <= c <= m →
  let '(l', c') := big_mul_loop l m c in
  limbs l' ∧ length l' = length l ∧ 0 <= c' <= m ∧ lval l' + LIMB ^ Z.of_nat (length l) * c' = lval l * m + c.
Proof.
  intros Hl Hm. revert c. induction Hl as [|x l Hx Hl IH]; intros c Hc; cbn [big_mul_loop]; [split_and!; [by apply Forall_nil_2 | done | lia | lia | cbn; lia]|].
  assert (u64 (x * m + c) = x * m + c) as -> by (apply uwrap_small; unfold LIMB in *; nia). set (t := x * m + c).
  assert (0 <= t / LIMB <= m) as Ht. { unfold t. split; [apply Z.div_pos; [nia | done]|]. apply Z.div_le_upper_bound; [done|]. unfold LIMB in *. nia. }
  specialize (IH (t / LIMB) Ht). destruct (big_mul_loop l m (t / LIMB)) as [l' c']. destruct IH as (H1 & H2 & H3 & H4). pose proof (mod_limb t) as Hr. rewrite (u32_limb_id _ Hr).
  split_and!; [by apply Forall_cons_2 | cbn; lia | lia | lia|]. cbn [lval length]. rewrite Nat2Z.inj_succ, Z.pow_succ_r by lia.
  replace (t mod LIMB + LIMB * lval l' + LIMB * LIMB ^ Z.of_nat (length l) * c') with (t mod LIMB + LIMB * (lval l' + LIMB ^ Z.of_nat (length l) * c')) by ring. rewrite H4.
  pose proof (Z.div_mod t LIMB ltac:(done)). unfold t in *. nia.
Qed.

Lemma push_carry_ok n c : 0 <= c < LIMB ^ Z.of_nat n →
  limbs (push_carry n c) ∧ lval (push_carry n c) = c ∧ (c ≠ 0 → LIMB ^ (Z.of_nat (length (push_carry n c)) - 1) <= c) ∧ (c = 0 → push_carry n c = []).
Proof.
  revert c. induction n as [|n IH]; intros c Hc; cbn [push_carry]; [split_and!; [by apply Forall_nil_2 | cbn in *; lia | cbn in *; lia | done]|].
  destruct (Z.eqb_spec c 0) as [->|Hz]; [split_and!; [by apply Forall_nil_2 | done | done | done]|]. rewrite Nat2Z.inj_succ, Z.pow_succ_r in Hc by lia.
  assert (0 <= c / LIMB < LIMB ^ Z.of_nat n) as Hq by (split; [apply Z.div_pos; [lia | done] | apply Z.div_lt_upper_bound; [done | lia]]).
  destruct (IH _ Hq) as (H1 & H2 & H3 & H4). pose proof (mod_limb c) as Hr. rewrite (u32_limb_id _ Hr). pose proof (Z.div_mod c LIMB ltac:(done)) as Hdm. split_and!; [by apply Forall_cons_2 | cbn [lval]; lia | | done].
  intros _. cbn [length]. destruct (decide (c / LIMB = 0)) as [E|E]; [rewrite (H4 E); cbn; lia|]. specialize (H3 E). set (k := Z.of_nat (length (push_carry n (c / LIMB)))) in *.
  assert (1 <= k) as Hk. { unfold k. destruct (push_carry n (c / LIMB)) eqn:Ep; [cbn in H2; lia | cbn [length]; lia]. }
  replace (Z.of_nat (S (length (push_carry n (c / LIMB)))) - 1) with (Z.succ (k - 1)) by lia. rewrite Z.pow_succ_r by lia. pose proof LIMB_pos. nia.
Qed.

(** A list without leading zero limbs. *)
Definition lnorm (l : list Z) : Prop := limbs l ∧ l ≠ [] ∧ LIMB ^ (Z.of_nat (length l) - 1) <= lval l.

(** The size of the array bounds the values. *)
Definition lmax : Z := LIMB ^ 1800.

Lemma lnorm_fits l : lnorm l → lval l <= lmax → limbs_ok l = Ok l.
Proof.
  intros (_ & _ & H) Hm. unfold limbs_ok. rewrite (proj2 (Nat.leb_le _ _)); [done|]. apply Nat2Z.inj_le. change (Z.of_nat MAX_LIMBS) with 1841.
  destruct (decide (Z.of_nat (length l) <= 1841)) as [|Hn]; [done|]. exfalso. apply (Z.lt_irrefl lmax). apply Z.lt_le_trans with (LIMB ^ (Z.of_nat (length l) - 1)); [|by etrans].
  clear -Hn. unfold lmax. apply Z.pow_lt_mono_r; [done | lia | lia].
Qed.

Lemma big_mul_ok l m : lnorm l → 1 <= m < 2 ^ 32 → lval l * m <= lmax → wp (big_mul l m) (λ l', lnorm l' ∧ lval l' = lval l * m).
Proof.
  intros (H1 & H2 & H3) Hm Hmax. unfold big_mul. pose proof (big_mul_loop_ok l m 0 H1 ltac:(lia) ltac:(lia)) as H. destruct (big_mul_loop l m 0) as [l1 c]. destruct H as (L1 & L2 & L3 & L4). rewrite Z.add_0_r in L4.
  destruct (push_carry_ok 3 c) as (P1 & P2 & P3 & P4); [change (LIMB ^ Z.of_nat 3) with (10 ^ 27); lia|].
  assert (lval (l1 ++ push_carry 3 c) = lval l * m) as Hv by (rewrite lval_app, P2, L2; done).
  assert (lnorm (l1 ++ push_carry 3 c)) as Hn.
  { split; [by apply Forall_app|]. split; [destruct l, l1; cbn in *; (done || lia)|]. rewrite Hv, length_app, L2. destruct (decide (c = 0)) as [->|Hc]; [rewrite (P4 eq_refl); cbn [length]; rewrite Nat.add_0_r; pose proof (lval_range l H1); set (A := LIMB ^ _) in *; clearbody A; nia|].
    specialize (P3 Hc). set (k := Z.of_nat (length (push_carry 3 c))) in *. assert (1 <= k) as Hk. { unfold k. destruct (push_carry 3 c) eqn:Ep; [cbn in P2; lia | cbn [length]; lia]. }
    rewrite Nat2Z.inj_add. fold k. replace (Z.of_nat (length l) + k - 1) with (Z.of_nat (length l) + (k - 1)) by lia. rewrite Z.pow_add_r by lia. pose proof (lval_range l1 L1) as Hr. pose proof (LIMB_pow (Z.of_nat (length l)) ltac:(lia)) as [Hp _]. nia. }
  rewrite lnorm_fits by (done || lia). apply wp_ok. done.
Qed.

Lemma mul_times_ok k l m : lnorm l → 1 <= m < 2 ^ 32 → lval l * m ^ Z.of_nat k <= lmax → wp (mul_times k l m) (λ l', lnorm l' ∧ lval l' = lval l * m ^ Z.of_nat k).
Proof.
  revert l. induction k as [|k IH]; intros l Hl Hm Hmax; cbn [mul_times]; [apply wp_ok; split; [done | rewrite Z.pow_0_r; lia]|].
  rewrite Nat2Z.inj_succ, Z.pow_succ_r in * by lia. assert (0 < m ^ Z.of_nat k) as Hp by (apply Z.pow_pos_nonneg; lia). assert (0 <= lval l) as H0 by (destruct Hl as [Hl _]; apply lval_range in Hl; lia).
  apply wp_bind. eapply wp_mono; [apply big_mul_ok; [done | done | nia]|]. intros l' [Hl' Hv]. eapply wp_mono; [apply IH; [done | done | rewrite Hv; nia]|]. intros l2 [H2 H3]. split; [done|]. rewrite H3, Hv. ring.
Qed.

(** ** The digits of m * 2^e *)

Lemma ctz_ok n m : 0 < m < 2 ^ Z.of_nat n → let k := ctz n m in 0 <= k < Z.of_nat n ∧ m = 2 ^ k * (m / 2 ^ k) ∧ 0 < m / 2 ^ k.
Proof.
  revert m. induction n as [|n IH]; intros m Hm; [cbn in Hm; lia|]. cbn [ctz]. rewrite Nat2Z.inj_succ, Z.pow_succ_r in Hm by lia. destruct (Z.odd m) eqn:Ho; [rewrite Z.pow_0_r, Z.div_1_r; lia|].
  assert (m = 2 * (m / 2)) as E. { pose proof (Z.div_mod m 2 ltac:(lia)) as Hd. rewrite Zmod_odd, Ho in Hd. lia. }
  destruct (IH (m / 2)) as (H1 & H2 & H3); [split; [lia | apply Z.div_lt_upper_bound; lia]|]. set (k := ctz n (m / 2)) in *.
  replace (1 + k) with (Z.succ k) by lia. rewrite Z.pow_succ_r by lia. rewrite <- Z.div_div by (assert (0 < 2 ^ k) by (apply Z.pow_pos_nonneg; lia); lia). split_and!; [lia | lia | | done]. nia.
Qed.

Lemma top_digits_ok fuel x top : 1 <= top → 10 ^ (top - 1) <= x < 10 ^ 9 → 10 <= top + Z.of_nat fuel → let t := top_digits fuel x top in 1 <= t ∧ 10 ^ (t - 1) <= x < 10 ^ t.
Proof.
  revert top. induction fuel as [|fuel IH]; intros top H1 H2 H3; cbn [top_digits].
  - exfalso. assert (10 ^ 9 <= 10 ^ (top - 1)) by (apply Z.pow_le_mono_r; lia). lia.
  - unfold p10. destruct (Z.ltb_spec top 10) as [Ht|Ht]; cbn [andb]; [|exfalso; assert (10 ^ 9 <= 10 ^ (top - 1)) by (apply Z.pow_le_mono_r; lia); lia].
    destruct (Z.leb_spec (10 ^ top) x); [apply IH; [lia | replace (top + 1 - 1) with top by lia; lia | lia] | lia].
Qed.

(** The limbs of [d] are the number [N] of [nd] digits, with the point [q]
    places from its end. *)
Record expands (d : dec) (N q : Z) : Prop := {
  x_limbs : limbs (L d);
  x_val : lval (L d) = N;
  x_pos : 1 <= nd d;
  x_range : 10 ^ (nd d - 1) <= N < 10 ^ nd d;
  x_E0 : E0 d = nd d + q;
}.

Lemma expands_top l q k : lnorm l → let n := top_digits 9 (nth (length l - 1) l 0) 1 + 9 * (Z.of_nat (length l) - 1) in
  expands (Dec l n (n + q) (n + q) k (-1) false) (lval l) q.
Proof.
  intros (H1 & H2 & H3) n. destruct (exists_last H2) as (l' & x & E). assert (nth (length l - 1) l 0 = x) as Hx.
  { rewrite E, length_app. cbn [length]. rewrite app_nth2 by lia. by replace (length l' + 1 - 1 - length l')%nat with 0%nat by lia. }
  unfold n in *. rewrite Hx in *. clear Hx n. assert (Z.of_nat (length l) - 1 = Z.of_nat (length l')) as El by (rewrite E, length_app; cbn [length]; lia). rewrite El in *.
  assert (lval l = lval l' + LIMB ^ Z.of_nat (length l') * x) as Ev by (rewrite E, lval_app; cbn [lval]; lia). rewrite E in H1. apply Forall_app in H1 as [Hl' Hx]. apply Forall_cons in Hx as [Hx _]. pose proof (lval_range l' Hl') as Hr.
  destruct (LIMB_pow (Z.of_nat (length l')) ltac:(lia)) as [Hp Hp10]. assert (1 <= x) as Hx1 by nia. destruct (top_digits_ok 9 x 1) as (T1 & T2); [lia | unfold LIMB in *; lia | lia|]. set (t := top_digits 9 x 1) in *.
  split; cbn [L nd E0]; [rewrite E; apply Forall_app; split; [done | by apply Forall_singleton] | done | lia | | done].
  replace (t + 9 * Z.of_nat (length l') - 1) with ((t - 1) + 9 * Z.of_nat (length l')) by lia. rewrite !Z.pow_add_r, <- Hp10, Ev by lia. set (P := LIMB ^ Z.of_nat (length l')) in *. nia.
Qed.

Lemma five_bound k : 0 <= k <= 16445 → 2 ^ 64 * 5 ^ k <= lmax.
Proof.
  intros Hk. unfold lmax. change LIMB with (10 ^ 9). rewrite <- Z.pow_mul_r by lia. transitivity (10 ^ 20 * 10 ^ (7 * 1645)).
  - apply Z.mul_le_mono_nonneg; [lia | lia | apply Z.pow_nonneg; lia|]. transitivity (5 ^ (10 * 1645)); [apply Z.pow_le_mono_r; lia|]. rewrite !Z.pow_mul_r by lia. apply Z.pow_le_mono_l. lia.
  - rewrite <- Z.pow_add_r by lia. apply Z.pow_le_mono_r; lia.
Qed.

Lemma two_bound k : 0 <= k <= 16384 → 2 ^ k <= lmax.
Proof.
  intros Hk. unfold lmax. change LIMB with (10 ^ 9). rewrite <- Z.pow_mul_r by lia. transitivity (2 ^ (2 * 8192)); [apply Z.pow_le_mono_r; lia|]. rewrite Z.pow_mul_r by lia.
  transitivity (10 ^ 8192); [apply Z.pow_le_mono_l; lia | apply Z.pow_le_mono_r; lia].
Qed.

Lemma init_limbs m : 0 < m < 2 ^ 64 → let l := u32 (m mod LIMB) :: push_carry 3 (m / LIMB) in lnorm l ∧ lval l = m.
Proof.
  intros Hm l. pose proof (mod_limb m) as Hr. destruct (push_carry_ok 3 (m / LIMB)) as (P1 & P2 & P3 & P4); [split; [apply Z.div_pos; [lia | done] | apply Z.div_lt_upper_bound; [done|]; change (LIMB * LIMB ^ Z.of_nat 3) with (10 ^ 36); lia]|].
  pose proof (Z.div_mod m LIMB ltac:(done)) as Hdm. assert (lval l = m) as Hv by (unfold l; cbn [lval]; rewrite P2, u32_limb_id by done; lia). split; [|done]. split; [unfold l; rewrite u32_limb_id by done; by apply Forall_cons_2|]. split; [done|]. rewrite Hv. unfold l. cbn [length].
  destruct (decide (m / LIMB = 0)) as [E|E]; [rewrite (P4 E); cbn; lia|]. specialize (P3 E). set (k := Z.of_nat (length (push_carry 3 (m / LIMB)))) in *.
  assert (1 <= k) as Hk. { unfold k. destruct (push_carry 3 (m / LIMB)) eqn:Ep; [cbn in P2; lia | cbn [length]; lia]. }
  replace (Z.of_nat (S (length (push_carry 3 (m / LIMB)))) - 1) with (Z.succ (k - 1)) by lia. rewrite Z.pow_succ_r by lia. pose proof LIMB_pos. nia.
Qed.

(** dec_init does not leave its array and is exact: N * 10^q = m * 2^e. *)
Lemma dec_init_ok m e : 0 < m < 2 ^ 64 → -16445 <= e <= 16320 →
  wp (dec_init m e) (λ d, ∃ N q, expands d N q ∧ -16445 <= q <= 0 ∧ N * p2 (- e) = m * p2 e * 10 ^ (- q)).
Proof.
  intros Hm He. unfold dec_init. rewrite (proj2 (Z.eqb_neq m 0)) by lia. destruct (ctz_ok 64 m Hm) as (T1 & T2 & T3). set (tz := ctz 64 m) in *. rewrite Z.shiftr_div_pow2 by lia. set (m' := m / 2 ^ tz) in *.
  assert (0 < 2 ^ tz) as Hp by (apply Z.pow_pos_nonneg; lia). assert (m' <= m) as Hle by nia. destruct (init_limbs m' ltac:(lia)) as [Hl Hv]. set (l := u32 _ :: _) in *. clearbody l.
  destruct (Z.leb_spec 0 (e + tz)) as [He'|He']; cbn zeta.
  - assert (m' * 2 ^ (e + tz) <= lmax) as Hb.
    { transitivity (2 ^ 16384); [|apply two_bound; lia]. destruct (decide (0 <= e)) as [H0|H0].
      - rewrite Z.add_comm, Z.pow_add_r by lia. replace (m' * (2 ^ tz * 2 ^ e)) with (m * 2 ^ e) by (rewrite T2 at 1; ring). replace 16384 with (64 + 16320) by lia. rewrite Z.pow_add_r by lia. apply Z.mul_le_mono_nonneg; [lia | lia | apply Z.pow_nonneg; lia | apply Z.pow_le_mono_r; lia].
      - transitivity (2 ^ 64); [|apply Z.pow_le_mono_r; lia]. transitivity m; [|lia]. rewrite T2. rewrite Z.mul_comm. apply Z.mul_le_mono_nonneg_r; [lia | apply Z.pow_le_mono_r; lia]. }
    set (k := e + tz) in *. pose proof (Z.div_mod k 29 ltac:(lia)) as Hdm. pose proof (Z.mod_pos_bound k 29 ltac:(lia)) as Hmod. assert (0 <= k / 29) as Hd by (apply Z.div_pos; lia).
    assert (2 ^ k = (2 ^ 29) ^ (k / 29) * 2 ^ (k mod 29)) as Hk by (rewrite <- Z.pow_mul_r, <- Z.pow_add_r by lia; f_equal; lia).
    assert (1 <= 2 ^ (k mod 29) < 2 ^ 32) as Hs by (split; [change 1 with (2 ^ 0); apply Z.pow_le_mono_r; lia | apply Z.pow_lt_mono_r; lia]).
    rewrite Hk in Hb. set (A := (2 ^ 29) ^ (k / 29)) in *. set (B := 2 ^ (k mod 29)) in *. assert (0 < A) as HA by (apply Z.pow_pos_nonneg; lia).
    apply wp_bind. apply wp_bind. eapply wp_mono; [apply mul_times_ok; [done | lia | rewrite Z2Nat.id by done; fold A; rewrite Hv; nia]|]. rewrite Z2Nat.id by done. fold A. intros l1 [N1 V1]. rewrite Hv in V1.
    apply wp_bind. eapply (wp_mono _ (λ l2, lnorm l2 ∧ lval l2 = m' * A * B)).
    { destruct (Z.eqb_spec (k mod 29) 0) as [E|E]; [apply wp_ok; split; [done | unfold B; rewrite V1, E, Z.pow_0_r; ring]|]. rewrite <- V1. apply big_mul_ok; [done | done | rewrite V1; nia]. }
    intros l2 [N2 V2]. apply wp_ok. apply wp_ok. exists (lval l2), 0. split; [by apply expands_top|]. split; [lia|]. rewrite V2, Z.pow_0_r, Z.mul_1_r. replace (m' * A * B) with (m' * 2 ^ k) by (rewrite Hk; ring). unfold p2. rewrite T2 at 1.
    destruct (decide (0 <= e)) as [H0|H0].
    + rewrite (Z.max_r (- e)), (Z.max_l e), Z.pow_0_r by lia. unfold k. rewrite Z.pow_add_r by lia. ring.
    + rewrite (Z.max_l (- e)), (Z.max_r e), Z.pow_0_r by lia. rewrite <- Z.mul_assoc, <- Z.pow_add_r by lia. unfold k. replace (e + tz + - e) with tz by lia. ring.
  - set (k := - (e + tz)). pose proof (Z.div_mod k 13 ltac:(lia)) as Hdm. pose proof (Z.mod_pos_bound k 13 ltac:(lia)) as Hmod. assert (0 <= k / 13) as Hd by (apply Z.div_pos; lia).
    assert (5 ^ k = (5 ^ 13) ^ (k / 13) * 5 ^ (k mod 13)) as Hk by (rewrite <- Z.pow_mul_r, <- Z.pow_add_r by lia; f_equal; lia).
    assert (1 <= 5 ^ (k mod 13) < 2 ^ 32) as Hs. { split; [change 1 with (5 ^ 0); apply Z.pow_le_mono_r; lia|]. apply Z.le_lt_trans with (5 ^ 12); [apply Z.pow_le_mono_r; lia | lia]. }
    assert (m' * 5 ^ k <= lmax) as Hb. { transitivity (2 ^ 64 * 5 ^ k); [apply Z.mul_le_mono_nonneg_r; [apply Z.pow_nonneg; lia | lia] | apply five_bound; lia]. }
    assert (u32 (5 ^ (k mod 13)) = 5 ^ (k mod 13)) as -> by (apply uwrap_small; lia). change 1220703125 with (5 ^ 13).
    rewrite Hk in Hb. set (A := (5 ^ 13) ^ (k / 13)) in *. set (B := 5 ^ (k mod 13)) in *. assert (0 < A) as HA by (apply Z.pow_pos_nonneg; lia).
    apply wp_bind. apply wp_bind. eapply wp_mono; [apply mul_times_ok; [done | lia | rewrite Z2Nat.id by done; fold A; rewrite Hv; nia]|]. rewrite Z2Nat.id by done. fold A. intros l1 [N1 V1]. rewrite Hv in V1.
    apply wp_bind. eapply wp_mono; [apply big_mul_ok; [done | done | rewrite V1; nia]|]. intros l2 [N2 V2]. apply wp_ok. apply wp_ok. exists (lval l2), (- k). split; [by apply expands_top|]. split; [lia|].
    rewrite V2, V1. replace (m' * A * B) with (m' * 5 ^ k) by (rewrite Hk; ring). unfold p2. rewrite (Z.max_l (- e)), (Z.max_r e), Z.pow_0_r, Z.mul_1_r, Z.opp_involutive by lia. rewrite T2 at 1. change 10 with (2 * 5). rewrite Z.pow_mul_l.
    replace (- e) with (tz + k) by (unfold k; lia). rewrite Z.pow_add_r by lia. ring.
Qed.

(** ** Digits *)

Lemma nth_lval k l : limbs l → nth k l 0 = lval l / LIMB ^ Z.of_nat k mod LIMB.
Proof.
  intros Hl. revert k. induction Hl as [|x l Hx Hl IH]; intros k; [destruct k; cbn [nth lval]; rewrite Z.div_0_l; [done | apply Z.pow_nonzero; done + lia | done | apply Z.pow_nonzero; done + lia]|]. destruct k as [|k]; cbn [nth lval].
  - rewrite Z.pow_0_r, Z.div_1_r, (Z.mul_comm LIMB), Z.mod_add, Z.mod_small by done. done.
  - rewrite IH, Nat2Z.inj_succ, Z.pow_succ_r by lia. rewrite <- Z.div_div by (done || apply Z.pow_pos_nonneg; done || lia). do 2 f_equal. rewrite (Z.mul_comm LIMB), Z.div_add, Z.div_small by done. lia.
Qed.

(** The first [n] digits of a number of [k] digits. *)
Definition pre (N k n : Z) : Z := if k <=? n then N * 10 ^ (n - k) else N / 10 ^ (k - n).

Lemma pow10_pos k : 0 <= k → 0 < 10 ^ k.
Proof. intros Hk. apply Z.pow_pos_nonneg; lia. Qed.

Section Digits.
Context (d : dec) (N q : Z) (X : expands d N q).

Lemma dig_at i : 0 <= i < nd d → dig d i = N / 10 ^ (nd d - 1 - i) mod 10.
Proof using X.
  intros Hi. unfold dig. rewrite (proj2 (Z.ltb_ge i 0)), (proj2 (Z.leb_gt (nd d) i)) by lia. cbn [orb]. set (j := nd d - 1 - i). assert (0 <= j) as Hj by lia. rewrite nth_lval by apply X. rewrite (x_val _ _ _ X). unfold p10.
  pose proof (Z.div_mod j 9 ltac:(lia)) as Hdm. pose proof (Z.mod_pos_bound j 9 ltac:(lia)) as Hmod. assert (0 <= j / 9) as Hq by (apply Z.div_pos; lia). rewrite Z2Nat.id by done. set (a := j / 9) in *. set (b := j mod 9) in *.
  replace j with (9 * a + b) by lia. rewrite Z.pow_add_r, <- Z.div_div by (lia || apply Z.pow_nonzero; lia || apply Z.pow_pos_nonneg; lia). destruct (LIMB_pow a Hq) as [_ ->]. set (M := N / 10 ^ (9 * a)).
  change LIMB with (10 ^ 9). replace 9 with (b + (9 - b)) at 1 by lia. rewrite Z.pow_add_r by lia. rewrite Z.rem_mul_r by (first [apply Z.pow_nonzero; lia | apply Z.pow_pos_nonneg; lia]). rewrite (Z.mul_comm (10 ^ b)), Z.div_add by (apply Z.pow_nonzero; lia).
  rewrite Z.div_small by (apply Z.mod_pos_bound, Z.pow_pos_nonneg; lia). rewrite Z.add_0_l. replace (9 - b) with (Z.succ (8 - b)) by lia. rewrite Z.pow_succ_r by lia. rewrite Z.rem_mul_r by (lia || apply Z.pow_pos_nonneg; lia). rewrite (Z.mul_comm 10), Z.mod_add by lia. apply Z.mod_mod. lia.
Qed.

Lemma dig_range i : 0 <= dig d i <= 9.
Proof using X.
  destruct (decide (0 <= i < nd d)) as [Hi|Hi]; [rewrite dig_at by done; pose proof (Z.mod_pos_bound (N / 10 ^ (nd d - 1 - i)) 10 ltac:(lia)); lia|].
  unfold dig. destruct (Z.ltb_spec i 0), (Z.leb_spec (nd d) i); cbn [orb]; lia.
Qed.

Lemma pre_step i : 0 <= i → pre N (nd d) (i + 1) = 10 * pre N (nd d) i + dig d i.
Proof using X.
  intros Hi. unfold pre. destruct (Z.leb_spec (nd d) i) as [Hle|Hlt].
  - rewrite (proj2 (Z.leb_le _ _)) by lia. unfold dig. rewrite (proj2 (Z.leb_le (nd d) i)), orb_true_r by lia. replace (i + 1 - nd d) with (Z.succ (i - nd d)) by lia. rewrite Z.pow_succ_r by lia. ring.
  - rewrite dig_at by lia. set (j := nd d - 1 - i). assert (0 <= j) as Hj by lia. replace (nd d - i) with (Z.succ j) by lia. rewrite Z.pow_succ_r, (Z.mul_comm 10 (10 ^ j)), <- Z.div_div by (lia || apply pow10_pos; lia || apply Z.pow_nonzero; lia).
    assert ((if nd d <=? i + 1 then N * 10 ^ (i + 1 - nd d) else N / 10 ^ (nd d - (i + 1))) = N / 10 ^ j) as ->.
    { destruct (Z.leb_spec (nd d) (i + 1)); [|f_equal; f_equal; lia]. replace j with 0 by lia. replace (i + 1 - nd d) with 0 by lia. rewrite Z.pow_0_r, Z.div_1_r. lia. }
    pose proof (Z.div_mod (N / 10 ^ j) 10 ltac:(lia)). lia.
Qed.

Lemma pre_0 : pre N (nd d) 0 = 0.
Proof using X. destruct X. unfold pre. rewrite (proj2 (Z.leb_gt _ _)) by lia. rewrite Z.sub_0_r. apply Z.div_small. pose proof (pow10_pos (nd d - 1) ltac:(lia)). lia. Qed.

Lemma pre_range i : 0 <= i → 0 <= pre N (nd d) i < 10 ^ i.
Proof using X.
  intros Hi. pattern i. apply natlike_ind; [rewrite pre_0; cbn; lia | | done]. clear i Hi. intros i Hi IH. rewrite <- Z.add_1_r, pre_step, Z.pow_add_r by lia. pose proof (dig_range i). lia.
Qed.

Lemma any_digit_ok n k : k + Z.of_nat n = nd d → 0 <= k → any_digit n d k = negb (N mod 10 ^ Z.of_nat n =? 0).
Proof using X.
  revert k. induction n as [|n IH]; intros k Hk H0; cbn [any_digit]; [by rewrite Z.pow_0_r, Z.mod_1_r|]. rewrite IH by lia. rewrite dig_at by lia. replace (nd d - 1 - k) with (Z.of_nat n) by lia.
  rewrite Nat2Z.inj_succ, Z.pow_succ_r, (Z.mul_comm 10), Z.rem_mul_r by (lia || apply Z.pow_nonzero; lia). set (a := N / 10 ^ Z.of_nat n mod 10). pose proof (pow10_pos (Z.of_nat n) ltac:(lia)) as Hp. set (P := 10 ^ Z.of_nat n) in *. pose proof (Z.mod_pos_bound N P Hp) as Hb. pose proof (Z.mod_pos_bound (N / P) 10 ltac:(lia)) as Ha. fold a in Ha.
  destruct (Z.eqb_spec a 0) as [->|Hne]; cbn [negb]; [by rewrite Z.mul_0_r, Z.add_0_r|]. rewrite (proj2 (Z.eqb_neq _ _)) by nia. done.
Qed.

(** The digits behind a place compared with half a unit of it. *)
Lemma round_up_ok K : 0 <= K < nd d → let j := nd d - K in
  ((5 <? dig d K) || ((dig d K =? 5) && (sticky_after d K || ((0 <? K) && Z.odd (dig d (K - 1)))))) = (10 ^ j <? 2 * (N mod 10 ^ j)) || ((2 * (N mod 10 ^ j) =? 10 ^ j) && Z.odd (N / 10 ^ j)).
Proof using X.
  intros HK j. unfold sticky_after. rewrite any_digit_ok by lia. rewrite Z2Nat.id by lia.
  assert (((0 <? K) && Z.odd (dig d (K - 1))) = Z.odd (N / 10 ^ j)) as ->.
  { destruct (Z.ltb_spec 0 K) as [H0|H0]; cbn [andb].
    - rewrite dig_at by lia. replace (nd d - 1 - (K - 1)) with j by lia. rewrite !Z.odd_spec || idtac. pose proof (Z.div_mod (N / 10 ^ j) 10 ltac:(lia)) as H. rewrite H at 2. rewrite Z.odd_add, Z.odd_mul. cbn. by destruct (Z.odd _).
    - assert (N / 10 ^ j = 0) as ->; [|done]. apply Z.div_small. unfold j. replace (nd d - K) with (nd d) by lia. destruct X. pose proof (pow10_pos (nd d - 1) ltac:(lia)). lia. }
  rewrite dig_at by lia. set (i := nd d - 1 - K). replace (nd d - (K + 1)) with i by lia. replace j with (Z.succ i) by lia. rewrite Z.pow_succ_r by lia. rewrite (Z.mul_comm 10), Z.rem_mul_r by (first [apply Z.pow_nonzero; lia | lia]).
  pose proof (pow10_pos i ltac:(lia)) as Hp. set (P := 10 ^ i) in *. pose proof (Z.mod_pos_bound N P Hp) as Hb. pose proof (Z.mod_pos_bound (N / P) 10 ltac:(lia)) as Ha. set (h := N / P mod 10) in *. set (s := N mod P) in *.
  destruct (Z.ltb_spec 5 h) as [H5|H5]; cbn [orb]; [rewrite (proj2 (Z.ltb_lt _ _)) by nia; done|]. destruct (Z.eqb_spec h 5) as [E|E]; cbn [andb].
  - rewrite E. destruct (Z.eqb_spec s 0) as [Es|Es]; cbn [negb orb].
    + rewrite Es, (proj2 (Z.ltb_ge _ _)), (proj2 (Z.eqb_eq _ _)) by lia. done.
    + rewrite (proj2 (Z.ltb_lt _ _)) by lia. done.
  - rewrite (proj2 (Z.ltb_ge _ _)), (proj2 (Z.eqb_neq _ _)) by nia. done.
Qed.
End Digits.

(** ** Rounding *)

(** [N], of [k] digits, rounded to its first [K] digits (or extended with
    zeros). *)
Definition rnd (N k K : Z) : Z := if k <=? K then N * 10 ^ (K - k) else let j := k - K in rne (N / 10 ^ j) (N mod 10 ^ j) (10 ^ j).

Lemma rdigits_snoc d i n : 0 <= n → rdigits d i (n + 1) = rdigits d i n ++ [48 + rdig d (i + n)].
Proof. intros Hn. unfold rdigits. rewrite Z2Nat.inj_add by lia. change (Z.to_nat 1) with 1%nat. rewrite seq_app, fmap_app. cbn. by rewrite Z2Nat.id. Qed.

Lemma rdigits_nil d i n : n <= 0 → rdigits d i n = [].
Proof. intros Hn. unfold rdigits. by replace (Z.to_nat n) with 0%nat by lia. Qed.

Lemma rdigits_app d i n k : 0 <= n → 0 <= k → rdigits d i (n + k) = rdigits d i n ++ rdigits d (i + n) k.
Proof.
  intros Hn Hk. pattern k. apply natlike_ind; [by rewrite Z.add_0_r, (rdigits_nil _ _ 0), app_nil_r | | done]. clear k Hk. intros k Hk IH.
  rewrite <- Z.add_1_r, Z.add_assoc, !rdigits_snoc, IH, <- app_assoc by lia. by rewrite Z.add_assoc.
Qed.

Lemma skip_nines_ok d K n i : i < K → Z.of_nat n = i + 1 → (∀ t, i < t < K → dig d t = 9) →
  let r := skip_nines n d i in -1 <= r < K ∧ (∀ t, r < t < K → dig d t = 9) ∧ (0 <= r → dig d r ≠ 9).
Proof.
  revert i. induction n as [|n IH]; intros i Hi Hn Ht; cbn [skip_nines]; [split_and!; [lia | lia | done | lia]|]. rewrite (proj2 (Z.leb_le 0 i)) by lia. cbn [andb].
  destruct (Z.eqb_spec (dig d i) 9) as [E|E]; [|split_and!; [lia | lia | done | done]]. apply IH; [lia | lia|]. intros t Htt. destruct (decide (t = i)) as [->|]; [done|]. apply Ht. lia.
Qed.

Section Round.
Context (d : dec) (N q K : Z) (X : expands d N q) (HK : 0 <= K).

(** The prefix ends in nines from [r] on. *)
Lemma pre_nines r n : 0 <= r → 0 <= n → (∀ t, r <= t < r + n → dig d t = 9) → pre N (nd d) (r + n) + 1 = (pre N (nd d) r + 1) * 10 ^ n.
Proof using X.
  intros Hr Hn. pattern n. apply natlike_ind; [intros _; rewrite Z.add_0_r, Z.pow_0_r; lia | | done]. clear n Hn. intros n Hn IH Ht. rewrite <- Z.add_1_r, Z.add_assoc, (pre_step d N q X), Z.pow_add_r, (Ht (r + n)) by lia. specialize (IH ltac:(intros t Htt; apply Ht; lia)). nia.
Qed.

(** Digits that are copied. *)
Lemma dval_copied d' n : 0 <= n → (∀ i, 0 <= i < n → rdig d' i = dig d i) → dval (rdigits d' 0 n) = pre N (nd d) n.
Proof using X.
  intros Hn. pattern n. apply natlike_ind; [intros _; by rewrite (pre_0 d N q X)| | done]. clear n Hn. intros n Hn IH Hd. rewrite <- Z.add_1_r, rdigits_snoc, dval_snoc, IH, (pre_step d N q X), Z.add_0_l, Hd by (lia || intros; apply Hd; lia). lia.
Qed.

(** Digits that are zero. *)
Lemma dval_zeros_after d' k n : 0 <= k → k <= n → (∀ i, k <= i < n → rdig d' i = 0) → dval (rdigits d' 0 n) = dval (rdigits d' 0 k) * 10 ^ (n - k).
Proof using Type.
  intros Hk Hn Hz. replace n with (k + (n - k)) at 1 by lia. assert (0 <= n - k) as Hj by lia. assert (∀ i, k <= i < k + (n - k) → rdig d' i = 0) as Hz' by (intros; apply Hz; lia). clear Hz Hn. revert Hz'. set (j := n - k) in *. clearbody j. clear n. pattern j. apply natlike_ind; [intros _; rewrite Z.add_0_r, Z.pow_0_r; lia | | done].
  clear j Hj. intros j Hj IH Hz. rewrite <- Z.add_1_r, Z.add_assoc, rdigits_snoc, dval_snoc, Z.add_0_l, Hz, IH, Z.pow_add_r by (lia || intros; apply Hz; lia). lia.
Qed.

(** dec_round: the digits are those of the rounded number; if it has one more
    digit the exponent is increased. *)
Lemma dec_round_ok : let d' := dec_round d K in
  (∀ i, 0 <= rdig d' i <= 9) ∧
  ((carry d' = false ∧ E d' = E0 d ∧ rnd N (nd d) K < 10 ^ K ∧ ∀ n, K <= n → dval (rdigits d' 0 n) = rnd N (nd d) K * 10 ^ (n - K)) ∨
   (carry d' = true ∧ E d' = E0 d + 1 ∧ rnd N (nd d) K = 10 ^ K ∧ ∀ n, 1 <= n → dval (rdigits d' 0 n) = 10 ^ (n - 1))).
Proof using X HK.
  unfold dec_round. cbn [nd]. set (d0 := Dec (L d) (nd d) (E0 d) (E0 d) K (-1) false). assert (expands d0 N q) as X0 by (by destruct X). assert (∀ i, dig d0 i = dig d i) as Hdig by done.
  assert (∀ i, rdig d0 i = if (i <? 0) || (K <=? i) then 0 else dig d i) as Hd0 by done.
  assert (∀ i, 0 <= rdig d0 i <= 9) as Hr0. { intros i. rewrite Hd0. destruct (_ || _); [lia | apply (dig_range d N q X)]. }
  assert (pre N (nd d) K < 10 ^ K → rnd N (nd d) K = pre N (nd d) K → (∀ i, 0 <= rdig d0 i <= 9) ∧ ((carry d0 = false ∧ E d0 = E0 d ∧ rnd N (nd d) K < 10 ^ K ∧ ∀ n, K <= n → dval (rdigits d0 0 n) = rnd N (nd d) K * 10 ^ (n - K)) ∨ carry d0 = true ∧ E d0 = E0 d + 1 ∧ rnd N (nd d) K = 10 ^ K ∧ ∀ n, 1 <= n → dval (rdigits d0 0 n) = 10 ^ (n - 1))) as Hkeep.
  { intros Hlt Er. split; [done|]. left. rewrite Er. split_and!; [done | done | done|]. intros n Hn. rewrite (dval_zeros_after d0 K n) by (first [done | intros i Hi; rewrite Hd0; by rewrite (proj2 (Z.leb_le K i)), orb_true_r by lia]).
    f_equal. apply dval_copied; [done|]. intros i Hi. rewrite Hd0, (proj2 (Z.ltb_ge i 0)), (proj2 (Z.leb_gt K i)) by lia. done. }
  pose proof (pre_range d N q X K HK) as Hrange. unfold rnd in *. destruct (Z.leb_spec (nd d) K) as [Hn|Hn].
  { apply Hkeep; [lia|]. unfold pre. by rewrite (proj2 (Z.leb_le _ _)) by lia. }
  rewrite (proj2 (Z.ltb_ge K 0)) by lia. cbn zeta. set (j := nd d - K) in *. assert (pre N (nd d) K = N / 10 ^ j) as Hpre by (unfold pre; by rewrite (proj2 (Z.leb_gt _ _)) by lia).
  pose proof (round_up_ok d0 N q X0 K ltac:(cbn; lia)) as Hup. cbn zeta in Hup. cbn [nd d0] in Hup. fold j in Hup. rewrite Hup. unfold rne in *. destruct ((10 ^ j <? 2 * (N mod 10 ^ j)) || _); cbn [negb]; [|apply Hkeep; lia].
  destruct (skip_nines_ok d0 K (Z.to_nat K) (K - 1)) as (S1 & S2 & S3); [lia | lia | intros; lia|]. set (r0 := skip_nines (Z.to_nat K) d0 (K - 1)) in *. change (∀ t, r0 < t < K → dig d t = 9) in S2. change (0 <= r0 → dig d r0 ≠ 9) in S3. clear Hkeep Hup.
  destruct (Z.ltb_spec r0 0) as [Hneg|Hpos].
  - set (d1 := Dec _ _ _ _ _ _ _). assert (∀ i, rdig d1 i = if i =? 0 then 1 else 0) as Hd1 by done. split; [intros i; rewrite Hd1; destruct (i =? 0); lia|]. right. split_and!; [done | done | |].
    + rewrite <- Hpre. pose proof (pre_nines 0 K ltac:(lia) HK ltac:(intros t Ht; apply S2; lia)) as H. rewrite (pre_0 d N q X), Z.add_0_l in H. lia.
    + intros n Hn1. rewrite (dval_zeros_after d1 1 n) by (first [lia | intros i Hi; rewrite Hd1; by rewrite (proj2 (Z.eqb_neq i 0)) by lia]). change (dval (rdigits d1 0 1)) with 1. lia.
  - set (d1 := Dec _ _ _ _ _ _ _). assert (∀ i, dig d1 i = dig d i) as Hdig1 by done. assert (∀ i, rdig d1 i = if (i <? 0) || (K <=? i) then 0 else if r0 <=? i then (if i =? r0 then dig d i + 1 else 0) else dig d i) as Hd1.
    { intros i. change (rdig d1 i) with (if (i <? 0) || (K <=? i) then 0 else if (0 <=? r0) && (r0 <=? i) then (if i =? r0 then dig d i + 1 else 0) else dig d i). by rewrite (proj2 (Z.leb_le 0 r0)) by lia. }
    split. { intros i. rewrite Hd1. destruct (_ || _); [lia|]. destruct (_ <=? _); [|apply (dig_range d N q X)]. destruct (Z.eqb_spec i r0) as [->|]; [|lia]. pose proof (dig_range d N q X r0). specialize (S3 Hpos). lia. }
    left. assert (N / 10 ^ j + 1 = (pre N (nd d) (r0 + 1) + 1) * 10 ^ (K - (r0 + 1))) as Hval.
    { rewrite <- Hpre. replace K with (r0 + 1 + (K - (r0 + 1))) at 1 by lia. apply pre_nines; [lia | lia|]. intros t Ht. apply S2. lia. }
    split_and!; [done | done | |].
    + rewrite Hval. pose proof (pre_step d N q X r0 Hpos) as Hs. pose proof (dig_range d N q X r0). specialize (S3 Hpos). pose proof (pre_range d N q X r0 Hpos) as Hpr. replace (10 ^ K) with (10 ^ (r0 + 1) * 10 ^ (K - (r0 + 1))) by (rewrite <- Z.pow_add_r by lia; f_equal; lia).
      apply Z.mul_lt_mono_pos_r; [apply pow10_pos; lia|]. rewrite Z.pow_add_r, Z.pow_1_r by lia. lia.
    + intros n Hn1. rewrite (dval_zeros_after d1 (r0 + 1) n) by (first [lia | intros i Hi; rewrite Hd1; destruct (_ || _); [done|]; rewrite (proj2 (Z.leb_le r0 i)), (proj2 (Z.eqb_neq i r0)) by lia; done]).
      rewrite Hval, <- Z.mul_assoc, <- Z.pow_add_r by lia. f_equal; [|f_equal; lia]. rewrite rdigits_snoc, dval_snoc, (dval_copied d1 r0), (pre_step d N q X), Z.add_0_l, Hd1 by (try lia; intros i Hi; rewrite Hd1; rewrite (proj2 (Z.ltb_ge i 0)), (proj2 (Z.leb_gt K i)), (proj2 (Z.leb_gt r0 i)) by lia; done).
      rewrite (proj2 (Z.ltb_ge r0 0)), (proj2 (Z.leb_gt K r0)), (proj2 (Z.leb_le r0 r0)), Z.eqb_refl by lia. cbn [orb]. lia.
Qed.
End Round.

(** ** Half a unit in the last place *)

(** [Q] * 10^[x] is within half a unit of n/d, and even in the middle. *)
Definition near10 (Q x n d : Z) : Prop :=
  2 * Z.abs (Q * pw x * d - n * pw (- x)) <= pw x * d ∧ (2 * Z.abs (Q * pw x * d - n * pw (- x)) = pw x * d → Z.even Q = true).

Lemma rnd_near N k K : 0 <= N → near10 (rnd N k K) (k - K) N 1.
Proof.
  intros HN. unfold near10, rnd, pw. rewrite Z.mul_1_r. replace (- (k - K)) with (K - k) by lia. destruct (Z.leb_spec k K) as [Hk|Hk].
  - rewrite (Z.max_r (k - K)), (Z.max_l (K - k)), Z.pow_0_r by lia. rewrite !Z.mul_1_r, Z.sub_diag. cbn. lia.
  - rewrite (Z.max_l (k - K)), (Z.max_r (K - k)), Z.pow_0_r, !Z.mul_1_r by lia. pose proof (pow10_pos (k - K) ltac:(lia)) as Hp. set (P := 10 ^ (k - K)) in *. pose proof (Z.div_mod N P ltac:(lia)) as Hdm. pose proof (Z.mod_pos_bound N P Hp) as Hm.
    set (a := N / P) in *. set (b := N mod P) in *. clearbody a b P. unfold rne. destruct (Z.ltb_spec P (2 * b)) as [H1|H1]; cbn [orb].
    + replace ((a + 1) * P - N) with (P - b) by lia. rewrite Z.abs_eq by lia. split; lia.
    + destruct (Z.eqb_spec (2 * b) P) as [H2|H2]; cbn [andb]; [|replace (a * P - N) with (- b) by lia; split; lia]. destruct (Z.odd a) eqn:Ho.
      * replace ((a + 1) * P - N) with (P - b) by lia. rewrite Z.abs_eq by lia. split; [lia|]. intros _. rewrite Z.even_add, <- Z.negb_odd, Ho. done.
      * replace (a * P - N) with (- b) by lia. split; [lia|]. intros _. by rewrite <- Z.negb_odd, Ho.
Qed.

(** The same value as another fraction. *)
Lemma near10_scale Q a N n d j : 0 < d → 0 <= j → N * d = n * 10 ^ j → near10 Q a N 1 → near10 Q (a - j) n d.
Proof.
  intros Hd Hj Hv [H1 H2]. unfold near10 in *. rewrite !Z.mul_1_r in *. set (b := a - j). pose proof (pw_shift b j Hj) as E. replace (b + j) with a in E by (unfold b; lia).
  pose proof (pw_pos a) as Pa. pose proof (pw_pos (- a)) as Pa'. pose proof (pw_pos b) as Pb. pose proof (pw_pos (- b)) as Pb'. pose proof (pow10_pos j Hj) as Pj. set (A := pw a) in *. set (A' := pw (- a)) in *. set (B := pw b) in *. set (B' := pw (- b)) in *. set (J := 10 ^ j) in *.
  assert ((Q * B * d - n * B') * (J * A') = (Q * A - N * A') * (B' * d)) as Ht.
  { transitivity (Q * d * (J * B * A') - n * J * B' * A'); [ring|]. rewrite <- E, <- Hv. ring. }
  assert (0 < J * A') as HJ by nia. assert (0 < B' * d) as HB by nia. apply (f_equal Z.abs) in Ht. rewrite (Z.abs_mul _ (J * A')), (Z.abs_mul _ (B' * d)), (Z.abs_eq (J * A')), (Z.abs_eq (B' * d)) in Ht by lia.
  assert (A * (B' * d) = B * d * (J * A')) as Hu by (transitivity (B' * A * d); [ring | rewrite E; ring]).
  set (u := Z.abs (Q * B * d - n * B')) in *. set (v := Z.abs (Q * A - N * A')) in *. clearbody u v. split; [nia|]. intros He. apply H2. apply (Z.mul_reg_r _ _ (B' * d)); [lia|]. nia.
Qed.

Lemma near10_carry Q b n d : 0 < d → near10 (10 * Q) b n d → near10 Q (b + 1) n d.
Proof.
  intros Hd [H1 _]. unfold near10. pose proof (pw_shift b 1 ltac:(lia)) as E. rewrite Z.pow_1_r in E. pose proof (pw_pos b) as P1. pose proof (pw_pos (- b)) as P2. pose proof (pw_pos (b + 1)) as P3. pose proof (pw_pos (- (b + 1))) as P4.
  set (A := pw b) in *. set (A' := pw (- b)) in *. set (B := pw (b + 1)) in *. set (B' := pw (- (b + 1))) in *.
  assert ((Q * B * d - n * B') * A' = (10 * Q * A * d - n * A') * B') as Ht by (transitivity (Q * d * (A' * B) - n * B' * A'); [ring | rewrite E; ring]).
  apply (f_equal Z.abs) in Ht. rewrite (Z.abs_mul _ A'), (Z.abs_mul _ B'), (Z.abs_eq A'), (Z.abs_eq B') in Ht by lia. assert (B * d * A' = 10 * (A * d * B')) as Hu by (transitivity (A' * B * d); [ring | rewrite E; ring]).
  set (u := Z.abs (Q * B * d - n * B')) in *. set (v := Z.abs _) in Ht, H1. clearbody u v. assert (0 < A * d * B') as HP by nia. assert (2 * u < B * d) as Hlt; [|lia]. apply (Z.mul_lt_mono_pos_r A'); [lia|]. nia.
Qed.
