(* ===== verification/Printffloat.v ===== *)
(** * Floating-point conversions

    The text that %e and %f print denotes the decimal number nearest to the
    value, and strtod reads back what %e prints with 17 digits. *)
From S2P Require Import Prelude Lit Ctype Fpround Strtod Strtodround Strtodspec Stdio Stdioout Printf Printfout Printfdec.

(** ** Integers in text *)

Lemma xdigit_dec x : nth (Z.to_nat (x mod 10)) (xdigits false) 0 = 48 + x mod 10.
Proof.
  pose proof (Z.mod_pos_bound x 10 ltac:(lia)) as H. set (a := x mod 10) in *. clearbody a.
  assert (a = 0 ∨ a = 1 ∨ a = 2 ∨ a = 3 ∨ a = 4 ∨ a = 5 ∨ a = 6 ∨ a = 7 ∨ a = 8 ∨ a = 9) as Ha by lia. repeat destruct Ha as [->|Ha]; try reflexivity. subst a. reflexivity.
Qed.

Lemma fmt_u_loop_ok fuel x acc : 0 <= x < 10 ^ (Z.of_nat fuel + 1) →
  ∃ ds, fmt_u_loop fuel x 10 false acc = ds ++ acc ∧ Forall digit ds ∧ dval ds = x ∧ (1 <= length ds <= S fuel)%nat.
Proof.
  revert x acc. induction fuel as [|fuel IH]; intros x acc Hx; cbn [fmt_u_loop]; rewrite xdigit_dec; pose proof (Z.mod_pos_bound x 10 ltac:(lia)) as Hm; pose proof (Z.div_mod x 10 ltac:(lia)) as Hdm.
  - exists [48 + x mod 10]. split; [by destruct (x / 10 =? 0)|]. rewrite Z.add_0_l, Z.pow_1_r in Hx. rewrite Z.mod_small by done. split_and!; [apply Forall_singleton; unfold digit; lia | unfold dval, nval; cbn; lia | cbn; lia | cbn; lia].
  - destruct (Z.eqb_spec (x / 10) 0) as [E|E].
    + exists [48 + x mod 10]. split_and!; [done | apply Forall_singleton; unfold digit; lia | unfold dval, nval; cbn; lia | cbn; lia | cbn; lia].
    + destruct (IH (x / 10) (48 + x mod 10 :: acc)) as (ds & E1 & E2 & E3 & E4).
      { split; [apply Z.div_pos; lia|]. apply Z.div_lt_upper_bound; [lia|]. replace (Z.of_nat (S fuel) + 1) with (Z.succ (Z.of_nat fuel + 1)) in Hx by lia. rewrite Z.pow_succ_r in Hx by lia. lia. }
      exists (ds ++ [48 + x mod 10]). split_and!; [by rewrite E1, <- app_assoc | apply Forall_app; split; [done | apply Forall_singleton; unfold digit; lia] | rewrite dval_snoc, E3; lia | rewrite length_app; cbn; lia | rewrite length_app; cbn; lia].
Qed.

Lemma fmt_u_ok x : 0 <= x < 2 ^ 64 → Forall digit (fmt_u x 10 false) ∧ dval (fmt_u x 10 false) = x ∧ (1 <= length (fmt_u x 10 false) <= 65)%nat.
Proof.
  intros Hx. destruct (fmt_u_loop_ok 64 x []) as (ds & E1 & E2 & E3 & E4); [change (Z.of_nat 64 + 1) with 65; lia|]. unfold fmt_u. rewrite E1, app_nil_r. done.
Qed.

(** ** Reading back the pieces *)

Lemma is_dec_digit c : digit c → is_dec c = true.
Proof. unfold digit, is_dec. intros H. rewrite (proj2 (Z.leb_le _ _)), (proj2 (Z.ltb_lt _ _)) by lia. done. Qed.

Lemma span_digits ds r : Forall digit ds → match r with c :: _ => is_dec c = false | [] => True end → span is_dec (ds ++ r) = (ds, r).
Proof.
  intros Hd Hr. induction Hd as [|c ds Hc Hd IH]; cbn [app span].
  - destruct r as [|c r]; [done|]. cbn [span]. by rewrite Hr.
  - by rewrite (is_dec_digit c Hc), IH.
Qed.

Lemma exp_part_str x : -1000000 < x < 1000000 → exp_part 101 (exp_str x 101 2) = (x, []).
Proof.
  intros Hx. unfold exp_str. destruct (fmt_u_ok (Z.abs x) ltac:(lia)) as (H1 & H2 & H3). set (ds := fmt_u (Z.abs x) 10 false) in *. set (k := Z.to_nat (2 - Z.of_nat (length ds))). cbn [exp_part Z.eqb Pos.eqb orb].
  assert (Forall digit (replicate k 48 ++ ds)) as Hd by (apply Forall_app; split; [apply Forall_replicate; unfold digit; lia | done]).
  assert (dval (replicate k 48 ++ ds) = Z.abs x) as Hv by (rewrite dval_app, dval_zeros, H2; lia).
  assert (opt_sign ((if x <? 0 then 45 else 43) :: replicate k 48 ++ ds) = (x <? 0, replicate k 48 ++ ds)) as -> by (by destruct (x <? 0)).
  pose proof (span_digits (replicate k 48 ++ ds) [] Hd I) as Hs. rewrite app_nil_r in Hs. rewrite Hs. destruct (replicate k 48 ++ ds) as [|c l] eqn:E; [exfalso; apply (f_equal length) in E; rewrite length_app in E; cbn [length] in E; lia|].
  rewrite Hv. destruct (Z.ltb_spec x 0); f_equal; lia.
Qed.

(** A number with an optional point and fraction, and an exponent. *)
Definition number (sgn ip fr : list Z) (es : list Z) : list Z := sgn ++ ip ++ (if (length fr =? 0)%nat then [] else 46 :: fr) ++ es.

Lemma mantissa_number ip fr es : Forall digit ip → Forall digit fr → match es with c :: _ => is_dec c = false ∧ c ≠ 46 | [] => True end →
  mantissa is_dec (ip ++ (if (length fr =? 0)%nat then [] else 46 :: fr) ++ es) = (ip, fr, es).
Proof.
  intros Hi Hf He. unfold mantissa. destruct fr as [|c fr]; cbn [length Nat.eqb app].
  - rewrite span_digits; [|done | destruct es; [done | by destruct He]]. destruct es as [|c es]; [done|]. destruct He as [_ He]. by rewrite (proj2 (Z.eqb_neq _ _) He).
  - rewrite span_digits by done. change (46 =? 46) with true. cbn iota. change (c :: fr ++ es) with ((c :: fr) ++ es). rewrite span_digits; [done | done|]. destruct es; [done | by destruct He].
Qed.

Lemma digit_not_word c r : digit c → (word_ci (lit "inf") (c :: r) = None ∧ word_ci (lit "nan") (c :: r) = None) ∧ isspace c = false ∧ c ≠ 43 ∧ c ≠ 45.
Proof.
  unfold digit. intros Hc. change (lit "inf") with [105; 110; 102]. change (lit "nan") with [110; 97; 110]. cbn [word_ci]. change (105 - 32) with 73. change (110 - 32) with 78.
  rewrite (proj2 (Z.eqb_neq c 105)), (proj2 (Z.eqb_neq c 73)), (proj2 (Z.eqb_neq c 110)), (proj2 (Z.eqb_neq c 78)) by lia. cbn [orb]. split_and!; [done | done | | lia | lia].
  rewrite isspace_spec, (proj2 (Z.eqb_neq c 32)), (proj2 (Z.leb_le 9 c)), (proj2 (Z.ltb_ge c 14)) by lia. done.
Qed.

(** What strtod takes the text for. *)
Lemma subject_number (neg : bool) ip fr es x : Forall digit ip → ip ≠ [] → Forall digit fr → (es = [] ∧ x = 0 ∨ ∃ r, es = 101 :: r ∧ exp_part 101 es = (x, [])) →
  subject (number (if neg then [45] else []) ip fr es) = Some (neg, DDec (ip ++ fr) (x - Z.of_nat (length fr)), []).
Proof.
  intros Hi Hne Hf He. set (body := ip ++ (if (length fr =? 0)%nat then [] else 46 :: fr) ++ es).
  assert (match es with c :: _ => is_dec c = false ∧ c ≠ 46 | [] => True end) as Hes by (destruct He as [[-> _]|(r & -> & _)]; done).
  destruct ip as [|c ip]; [done|]. assert (digit c) as Hc by (by apply Forall_cons in Hi as [? _]). destruct (digit_not_word c (tail body) Hc) as ((W1 & W2) & Hsp & N1 & N2).
  assert (body = c :: tail body) as Eb by done. unfold subject, number. fold body.
  assert (span isspace ((if neg then [45] else []) ++ body) = ([], (if neg then [45] else []) ++ body)) as ->.
  { destruct neg; [done|]. rewrite Eb. cbn [app span]. by rewrite Hsp. }
  assert (opt_sign ((if neg then [45] else []) ++ body) = (neg, body)) as ->.
  { destruct neg; [done|]. rewrite Eb. cbn [app opt_sign]. by rewrite (proj2 (Z.eqb_neq _ _) N1), (proj2 (Z.eqb_neq _ _) N2). }
  rewrite Eb, W1, W2, <- Eb.
  assert (hex_subject body = None) as ->.
  { unfold hex_subject. rewrite Eb. destruct (tail body) as [|c1 r] eqn:Et; [done|]. assert ((c1 =? 120) || (c1 =? 88) = false) as ->; [|by rewrite andb_false_r].
    unfold body in Et. destruct ip as [|c2 ip]; [|assert (digit c2) as Hc2 by (apply Forall_cons in Hi as [_ Hi]; by apply Forall_cons in Hi as [? _]); cbn in Et; injection Et as <- _; unfold digit in Hc2; by rewrite (proj2 (Z.eqb_neq c2 120)), (proj2 (Z.eqb_neq c2 88)) by lia].
    cbn [app tail] in Et. destruct fr as [|c3 fr]; cbn [length Nat.eqb app] in Et; [|by injection Et as <- _]. destruct He as [[-> _]|(r' & -> & _)]; [done | by injection Et as <- _]. }
  unfold dec_subject, body. rewrite mantissa_number by done. cbn [app]. destruct He as [[-> ->]|(r & -> & ->)]; done.
Qed.

(** ** The text of %e *)

(** A decimal of p + 1 digits and an exponent for m * 2^e. *)
Definition scientific (ds : list Z) (x p m e : Z) : Prop :=
  Forall digit ds ∧ Z.of_nat (length ds) = p + 1 ∧ -100000 < x < 100000 ∧
  (if m =? 0 then dval ds = 0 ∧ x = 0 else 10 ^ p <= dval ds ∧ near10 (dval ds) (x - p) (m * p2 e) (p2 (- e))).

Lemma expands_exponent d N q m e : expands d N q → 0 <= m < 2 ^ 64 → -16445 <= e <= 16320 → -16445 <= q <= 0 → N * p2 (- e) = m * p2 e * 10 ^ (- q) → -20000 < E0 d < 90000.
Proof.
  intros [X1 X2 X3 X4 X5] Hm He Hq Hv. split; [lia|]. assert (N <= N * p2 (- e)) as H1 by (pose proof (p2_pos (- e)); pose proof (pow10_pos (nd d - 1) ltac:(lia)); nia).
  assert (m * p2 e * 10 ^ (- q) <= 10 ^ (20 + Z.max e 0 + - q)) as H2.
  { rewrite !Z.pow_add_r by lia. apply Z.mul_le_mono_nonneg; [pose proof (p2_pos e); nia | | apply Z.pow_nonneg; lia | lia]. apply Z.mul_le_mono_nonneg; [lia | lia | pose proof (p2_pos e); lia|]. apply Z.pow_le_mono_l. lia. }
  assert (10 ^ (nd d - 1) <= 10 ^ (20 + Z.max e 0 + - q)) as H3 by (clear -H1 H2 Hv X4; lia). apply Z.pow_le_mono_r_iff in H3; lia.
Qed.

Lemma rdigits_digits d i n : (∀ t, 0 <= rdig d t <= 9) → Forall digit (rdigits d i n).
Proof. intros H. unfold rdigits. apply Forall_fmap, Forall_forall. intros t _. cbn. unfold digit. specialize (H (i + Z.of_nat t)). lia. Qed.

(** The digits that %e takes from the expansion. *)
Lemma scientific_round m e p : 0 <= m < 2 ^ 64 → -16445 <= e <= 16320 → 0 <= p →
  wp (dec_init m e) (λ d, let d' := dec_round d (p + 1) in scientific (rdigits d' 0 (p + 1)) (if m =? 0 then 0 else E d' - 1) p m e).
Proof.
  intros Hm He Hp. unfold scientific. destruct (Z.eqb_spec m 0) as [->|Hz].
  - unfold dec_init. cbn [Z.eqb]. apply wp_ok. unfold dec_round. cbn [nd]. rewrite (proj2 (Z.leb_le 1 (p + 1))) by lia. set (d' := Dec _ _ _ _ _ _ _).
    assert (∀ i, rdig d' i = 0) as H0.
    { intros i. unfold rdig, d'. cbn [carry Printf.K r L nd]. destruct (_ || _); [done|]. cbn [Z.leb andb]. change (dig (Dec [0] 1 1 1 (p + 1) (-1) false) i = 0). unfold dig. cbn [nd L]. destruct ((i <? 0) || (1 <=? i)) eqn:E; [done|]. apply orb_false_iff in E as [E1 E2]. apply Z.ltb_ge in E1. apply Z.leb_gt in E2. by replace i with 0 by lia. }
    split; [apply rdigits_digits; intros t; rewrite H0; lia|]. split; [rewrite rdigits_length; lia|]. split; [lia|]. split; [|done].
    rewrite (dval_zeros_after d' 0) by (lia || intros; apply H0). done.
  - eapply wp_mono; [apply dec_init_ok; lia|]. intros d (N & q & X & Hq & Hv). set (d' := dec_round d (p + 1)). destruct (dec_round_ok d N q (p + 1) X ltac:(lia)) as (Hr & Hd). fold d' in Hr, Hd. pose proof (expands_exponent d N q m e X Hm He Hq Hv) as HE0.
    assert (0 <= N) as HN by (destruct X; pose proof (pow10_pos (nd d - 1) ltac:(lia)); lia). pose proof (near10_scale _ _ _ (m * p2 e) (p2 (- e)) (- q) (p2_pos _) ltac:(lia) Hv (rnd_near N (nd d) (p + 1) HN)) as Hnear.
    split; [by apply rdigits_digits|]. split; [rewrite rdigits_length; lia|]. rewrite (x_E0 _ _ _ X) in *. destruct Hd as [(_ & HE & Hlt & Hval)|(_ & HE & Hpow & Hval)]; rewrite HE.
    + split; [lia|]. rewrite Hval, Z.sub_diag, Z.pow_0_r, Z.mul_1_r by lia. replace (nd d + q - 1 - p) with (nd d - (p + 1) - - q) by lia. split; [|done].
      (* the first digit is not zero *)
      destruct X. unfold rnd in *. destruct (Z.leb_spec (nd d) (p + 1)) as [Hk|Hk].
      * replace p with (nd d - 1 + (p + 1 - nd d)) at 1 by lia. rewrite Z.pow_add_r by lia. apply Z.mul_le_mono_nonneg_r; [apply Z.pow_nonneg; lia | lia].
      * assert (10 ^ p <= N / 10 ^ (nd d - (p + 1))) as H1. { apply Z.div_le_lower_bound; [apply pow10_pos; lia|]. rewrite <- Z.pow_add_r by lia. replace (nd d - (p + 1) + p) with (nd d - 1) by lia. lia. }
        cbn zeta. unfold rne. destruct (_ || _); lia.
    + split; [lia|]. rewrite Hval by lia. replace (p + 1 - 1) with p by lia. split; [done|]. rewrite Hpow in Hnear. rewrite Z.pow_add_r, Z.pow_1_r, Z.mul_comm in Hnear by lia. apply near10_carry in Hnear; [|apply p2_pos]. replace (nd d + q + 1 - 1 - p) with (nd d - (p + 1) - - q + 1) by lia. done.
Qed.

Lemma place_plain len room sgn ps : 0 <= len <= room → concat (snd (place no_flags 0 len room sgn ps)) = sgn ++ concat ps.
Proof.
  intros Hl. unfold place. assert (fill_of 0 len = 0) as -> by (unfold fill_of; by rewrite (proj2 (Z.ltb_ge _ _)) by lia). rewrite Z.add_0_r. cbn [snd]. rewrite (proj2 (Z.ltb_ge _ _)) by lia. cbn. by rewrite app_nil_r.
Qed.

Lemma exp_str_length x : -1000000 < x < 1000000 → (4 <= length (exp_str x 101 2) <= 67)%nat.
Proof. intros Hx. unfold exp_str. destruct (fmt_u_ok (Z.abs x) ltac:(lia)) as (_ & _ & H). cbn [length]. rewrite length_app, length_replicate. lia. Qed.

(** %e prints the decimal nearest to the value. *)
Lemma fmt_fp_e l m e neg p room : ld_split l = Parts m e neg false false → 0 <= m < 2 ^ 64 → -16445 <= e <= 16320 → 0 <= p → p + 100 <= room <= INT_MAX →
  wp (fmt_fp l 0 p no_flags 101 room) (λ y, let '(n, ps) := y in
    n = size ps ∧ n <= room ∧ ∃ d0 fr x, scientific (d0 :: fr) x p m e ∧ concat ps = number (if neg then [45] else []) [d0] fr (exp_str x 101 2)).
Proof.
  intros Hl Hm He Hp Hroom. assert (∀ n ps, fmt_fp l 0 p no_flags 101 room = Ok (n, ps) → n <= room → n = size ps) as Hsize by (intros; symmetry; by eapply fmt_fp_size).
  unfold fmt_fp in *. rewrite Hl in *. cbn [p_inf p_nan p_m p_e p_neg orb] in *. change (101 =? 97) with false in *. change (101 =? 103) with false in *. change (101 =? 101) with true in *. cbn iota in *. rewrite (proj2 (Z.ltb_ge p 0)) in * by lia.
  destruct (scientific_round m e p Hm He Hp) as (d & Ed & Hs). rewrite Ed in *. cbn [mbind res_bind] in *. apply wp_ok. unfold fmt_e in *. assert (s32 (p + 1) = p + 1) as Es by (apply swrap_small; unfold INT_MAX in *; lia). rewrite Es in *. cbn zeta in Hs. set (d' := dec_round d (p + 1)) in *. cbn [p_m fl_upper fl_alt no_flags] in *. cbn iota in *.
  set (x := if m =? 0 then 0 else E d' - 1) in *. rewrite orb_false_r in *. set (dot := negb (p =? 0)) in *. assert (sign_str neg no_flags = if neg then [45] else []) as Hsg by (by destruct neg). rewrite Hsg in *. set (sgn := if neg then [45] else []) in *.
  pose proof (exp_str_length x ltac:(destruct Hs as (_ & _ & ? & _); lia)) as Hes. set (es := exp_str x 101 2) in *. set (len := Z.of_nat (length sgn) + 1 + Z.b2z dot + p + Z.of_nat (length es)) in *.
  assert (0 <= len <= room) as Hlen by (unfold len, sgn; destruct neg, dot; cbn [length Z.b2z]; lia). set (ps := db_out _ ++ [es]) in *. pose proof (place_plain len room sgn ps Hlen) as Hc.
  destruct (place no_flags 0 len room sgn ps) as [n qs] eqn:Ep. assert (n = len) as ->. { unfold place in Ep. injection Ep as <- _. unfold fill_of. rewrite (proj2 (Z.ltb_ge _ _)) by lia. lia. }
  split; [by apply Hsize; [|lia]|]. split; [lia|]. rewrite Z.add_comm in Hs. rewrite (rdigits_app d' 0 1 p) in Hs by lia. change (rdigits d' 0 1) with [48 + rdig d' (0 + 0)] in *. exists (48 + rdig d' (0 + 0)), (rdigits d' (0 + 1) p), x. split; [exact Hs|]. cbn [snd] in Hc. rewrite Hc. unfold number. f_equal. unfold ps, dot.
  rewrite concat_app. unfold db_out. rewrite chunks_concat by lia. cbn [concat app]. rewrite app_nil_r. rewrite rdigits_length. destruct (Z.eqb_spec p 0) as [->|Hp0]; cbn [negb].
  - done.
  - replace (Z.to_nat p =? 0)%nat with false by (symmetry; apply Nat.eqb_neq; lia). done.
Qed.

(** ** Reading back *)

(** A number of the format that is not [m] * 2^[e] is farther from it than its
    unit in the last place, or half of it below a power of two. *)
Lemma gap F m e m1 e1 : 2 <= fp F → canon F m e → 0 <= m1 < 2 ^ fp F → emin F <= e1 →
  let g := 2 ^ (e - emin F) in let v := m * g in let v1 := m1 * 2 ^ (e1 - emin F) in
  v1 ≠ v → g <= 2 * Z.abs (v1 - v) ∧ (m ≠ 2 ^ (fp F - 1) ∨ e = emin F → g <= Z.abs (v1 - v)).
Proof.
  intros Hp (Hm & He & Hc) Hm1 He1 g v v1 Hne. assert (0 < g) as Hg by (apply pow2_pos; lia). destruct (pow_pred F Hp) as (P1 & P2 & _).
  destruct (decide (e <= e1)) as [Hle|Hlt].
  - assert (v1 = m1 * 2 ^ (e1 - e) * g) as E1 by (unfold v1, g; rewrite <- Z.mul_assoc, <- pow2_add by lia; do 2 f_equal; lia). set (a := m1 * 2 ^ (e1 - e)) in *. assert (a ≠ m) as Ha by (intros ->; by rewrite E1 in Hne).
    assert (g <= Z.abs (v1 - v)) as H; [|split; [lia | done]]. rewrite E1. unfold v. replace (a * g - m * g) with ((a - m) * g) by ring. rewrite Z.abs_mul, (Z.abs_eq g) by lia. nia.
  - destruct Hc as [Hc|?]; [|lia]. set (h := 2 ^ (e1 - emin F)) in *. assert (0 < h) as Hh by (apply pow2_pos; lia).
    assert (2 * h <= g) as Hhg. { unfold h, g. rewrite <- Z.pow_succ_r by lia. apply Z.pow_le_mono_r; lia. }
    assert (2 * v1 <= (2 ^ fp F - 1) * g) as Hv1 by (unfold v1; fold h; nia). rewrite P1 in Hv1. set (B := 2 ^ (fp F - 1)) in *. unfold v. split; [rewrite Z.abs_neq by nia; nia|].
    intros [Hm'|?]; [|lia]. assert ((B + 1) * g <= m * g) by nia. rewrite Z.abs_neq by nia. nia.
Qed.

(** The number nearest to a decimal of enough digits that is within half a
    unit of m * 2^e is m * 2^e. *)
Lemma digits_enough F n d m e m1 e1 Q y p : std F → canon F m e → 0 < d → n * 2 ^ (- emin F) = d * (m * 2 ^ (e - emin F)) →
  0 <= p → 2 ^ fp F < 10 ^ p → 10 ^ p <= Q → near10 Q y n d → nearest F (Q * pw y) (pw (- y)) m1 e1 → m1 = m ∧ e1 = e.
Proof.
  intros HF Hc Hd Hv Hp HpF HQ [Hnear _] [Hc1 Hmin]. destruct (std_bounds F HF) as (Hfp & Hemin & _). pose proof Hc as (Hm & He & _). pose proof Hc1 as (Hm1 & He1 & _).
  destruct (Hmin m e Hm He) as [Hdist _]. clear Hmin. unfold dist in Hdist. pose proof (gap F m e m1 e1 ltac:(lia) Hc Hm1 He1) as Hgap. cbn zeta in Hgap. pose proof (pow2_pos (- emin F) ltac:(lia)) as HW. pose proof (pow2_pos (e - emin F) ltac:(lia)) as Hg. destruct (pow_pred F ltac:(lia)) as (P1 & P2 & _).
  pose proof (pw_pos y) as HA. pose proof (pw_pos (- y)) as HA'. set (W := 2 ^ (- emin F)) in *. set (g := 2 ^ (e - emin F)) in *. set (A := pw y) in *. set (A' := pw (- y)) in *. set (v1 := m1 * 2 ^ (e1 - emin F)) in *.
  assert (2 * Z.abs (Q * A * W - A' * (m * g)) <= A * W) as H0.
  { assert ((Q * A * d - n * A') * W = (Q * A * W - A' * (m * g)) * d) as E by (transitivity (Q * A * d * W - n * W * A'); [ring | rewrite Hv; ring]). apply (f_equal Z.abs) in E. rewrite (Z.abs_mul _ W), (Z.abs_mul _ d), (Z.abs_eq W), (Z.abs_eq d) in E by lia.
    apply (Z.mul_le_mono_pos_r _ _ d); [done|]. set (u := Z.abs (Q * A * W - A' * (m * g))) in *. set (w := Z.abs (Q * A * d - n * A')) in *. clearbody u w. nia. }
  assert (A' * Z.abs (v1 - m * g) <= A * W) as H1.
  { rewrite <- (Z.abs_eq A') at 1 by lia. rewrite <- Z.abs_mul. clear -Hdist H0. replace (A' * (v1 - m * g)) with (A' * v1 - A' * (m * g)) by ring. set (a := Q * A * W) in *. set (b := A' * v1) in *. set (c := A' * (m * g)) in *. clearbody a b c. lia. }
  assert ((2 * 10 ^ p - 1) * (A * W) <= 2 * (A' * (m * g))) as H2. { assert (10 ^ p * (A * W) <= Q * A * W) by nia. clear -H0 H. set (a := Q * A * W) in *. set (c := A' * (m * g)) in *. set (b := 10 ^ p) in *. clearbody a b c. lia. }
  destruct (decide (v1 = m * g)) as [E|Hne].
  - exact (canon_unique F ltac:(lia) ltac:(lia) m1 e1 m e Hc1 Hc E).
  - exfalso. destruct (Hgap Hne) as [G1 G2]. set (t := Z.abs (v1 - m * g)) in *. clearbody t. assert (0 < A * W) as HAW by (apply Z.mul_pos_pos; lia). set (U := A * W) in *. clearbody U. clear Hdist H0 Hnear Hv Hgap.
    destruct (decide (m = 2 ^ (fp F - 1) ∧ emin F < e)) as [[Em _]|Hn].
    + assert (A' * g <= 2 * U) as H3 by nia. assert (2 * (A' * (m * g)) <= 4 * m * U) as H4 by nia. rewrite <- Em in P1. set (b := 10 ^ p) in *. clearbody b. assert (4 * m + 1 <= 2 * b - 1) by lia. nia.
    + assert (m ≠ 2 ^ (fp F - 1) ∨ e = emin F) as Hcase by lia. specialize (G2 Hcase). assert (A' * g <= U) as H3 by (transitivity (A' * t); [apply Z.mul_le_mono_nonneg_l; lia | lia]). assert (2 * (A' * (m * g)) <= 2 * m * U) as H4 by nia. set (b := 10 ^ p) in *. clearbody b. nia.
Qed.

Lemma split_encode m e neg : canon F_LDBL m e → e <= 16320 → ld_split (encode neg (Fin m e)) = Parts m e neg false false.
Proof.
  intros (Hm & He & Hcan) Hmax. cbn [fp emin F_LDBL] in *. unfold ld_split, encode. cbn [ld_m ld_se].
  assert (∀ f, 0 <= f < 0x7fff → negb (Z.shiftr (Z.lor f (sign_bit neg)) 15 =? 0) = neg) as Hneg.
  { intros f Hf. rewrite Z.shiftr_lor. assert (Z.shiftr f 15 = 0) as -> by (rewrite Z.shiftr_div_pow2 by lia; apply Z.div_small; lia). by destruct neg. }
  destruct (Z.ltb_spec m (2 ^ 63)) as [Hlt|Hge].
  - destruct (sign_split neg 0 ltac:(lia)) as [_ ->]. rewrite Hneg by lia. cbn [Z.eqb]. f_equal. lia.
  - set (f := e + 63 + 16383) in *. destruct (sign_split neg f ltac:(lia)) as [_ ->]. rewrite Hneg by lia. rewrite (proj2 (Z.eqb_neq f 0x7fff)), (proj2 (Z.eqb_neq f 0)) by lia. f_equal; [unfold f; lia|]. apply Z.eqb_neq. rewrite Z.shiftr_div_pow2 by lia. pose proof (Z.div_le_lower_bound m (2 ^ 63) 1 ltac:(lia) ltac:(lia)). lia.
Qed.

(** ** The conversion specification %.*e *)

#[local] Existing Instances pm_ret pm_bind.

Section Run.
Context {D : Type} `{!Device D}.

Lemma bind_ok {A B} (m : PM D A) (k : A → PM D B) s s' a : m s = Ok (inl a, s') → (m ≫= k) s = k a s'.
Proof. intros H. unfold mbind, pm_bind. by rewrite H. Qed.

Lemma conversion_e str w fl p y (s : pst D) :
  conversion str 101 L_NONE fl w p (AF y) s =
  match fmt_fp y w p fl 101 (INT_MAX - p_cnt s) with
  | Ok (n, ps) => (emit ps;; ADD n) s
  | Trap t => Trap t
  end.
Proof.
  change (conversion str 101 L_NONE fl w p (AF y) s) with ((lift (fmt_fp y w p fl 101 (INT_MAX - p_cnt s)) ≫= λ '(n, ps), emit ps;; ADD n) s).
  unfold lift, mbind at 1, pm_bind at 1. by destruct (fmt_fp y w p fl 101 (INT_MAX - p_cnt s)) as [[n ps]|].
Qed.

Lemma star_value p : 0 <= p <= INT_MAX → (if s32 (u64 (s32 p)) <? 0 then -1 else s32 (u64 (s32 p))) = p.
Proof.
  unfold INT_MAX. intros Hp. assert (s32 p = p) as -> by (apply swrap_small; lia). rewrite (uwrap_small 64) by lia. rewrite swrap_small by lia. by rewrite (proj2 (Z.ltb_ge p 0)) by lia.
Qed.

Lemma directive_e (o : out_ D) c ts p x str : 0 <= p <= INT_MAX →
  directive false [] str [46; 42; 101] (Pst o c 0 [VInt p; VDbl x] ts) =
  match fmt_fp (encode_num (conv_num F_LDBL x)) 0 p no_flags 101 (INT_MAX - c) with
  | Ok (n, ps) => ((emit ps;; ADD n);; mret []) (Pst o c (-1) [] ts)
  | Trap t => Trap t
  end.
Proof.
  intros Hp. pose proof (star_value p Hp) as Ep. unfold directive. rewrite (bind_ok _ _ _ (Pst o c 0 [VInt p; VDbl x] ts) (-1, [46; 42; 101])) by reflexivity.
  change (flags_loop [46; 42; 101] no_flags) with (no_flags, [46; 42; 101]). cbn iota beta.
  rewrite (bind_ok (width _ _ _ _) _ _ (Pst o c 0 [VInt p; VDbl x] ts) (0, no_flags, [46; 42; 101])) by reflexivity. cbn iota beta.
  rewrite (bind_ok (precision _ _ _) _ _ (Pst o c (-1) [VDbl x] ts) (if s32 (u64 (s32 p)) <? 0 then -1 else s32 (u64 (s32 p)), [101])) by reflexivity. rewrite Ep. cbn iota beta.
  change (length_mod [101]) with (L_NONE, [101]). cbn iota beta. change (cur [101]) with 101. change (101 =? 110) with false. cbn iota. change (conv_type 101 L_NONE) with (Some T_DBL). cbn iota.
  rewrite (bind_ok (fetch _ _ _ _ _) _ _ (Pst o c (-1) [] ts) (Some (AF (encode_num (conv_num F_LDBL x))))) by reflexivity. cbn iota.
  unfold mbind at 1, pm_bind at 1. rewrite conversion_e. cbn [p_cnt]. by destruct (fmt_fp _ _ _ _ _ _) as [[n ps]|t].
Qed.
End Run.

(** The text of a number printed alone. *)
Lemma core_e (o : out_ tape) ap p x str n ps : ap = [VInt p; VDbl x] → 0 <= p <= INT_MAX → fmt_fp (encode_num (conv_num F_LDBL x)) 0 p no_flags 101 INT_MAX = Ok (n, ps) → 0 <= n <= INT_MAX →
  core_loop false [] str 5 (lit "%.*e") (Pst o 0 0 ap (replicate 10 T_NONE)) = Ok (inl (), Pst (outs (outs (outs o [[]]) ps) [[]]) n (-1) [] (replicate 10 T_NONE)).
Proof.
  intros -> Hp Hf Hn. set (ts := replicate 10 T_NONE).
  change (core_loop false [] str 5 (lit "%.*e")) with ((put false [] ≫= λ _, directive false [] str [46; 42; 101] ≫= core_loop false [] str 4) : PM tape ()).
  rewrite (bind_ok (put false []) _ _ (Pst (outs o [[]]) 0 0 [VInt p; VDbl x] ts) ()) by reflexivity.
  assert (directive false [] str [46; 42; 101] (Pst (outs o [[]]) 0 0 [VInt p; VDbl x] ts) = Ok (inl [], Pst (outs (outs o [[]]) ps) n (-1) [] ts)) as Hd.
  { rewrite directive_e, Z.sub_0_r, Hf by done. unfold mbind, pm_bind, emit, ADD. cbn [p_cnt p_o p_l10n p_ap p_types]. rewrite Z.sub_0_r, (proj2 (Z.ltb_ge _ _)) by lia. done. }
  rewrite (bind_ok _ _ _ _ _ Hd). change (core_loop false [] str 4 []) with ((put false [] ≫= λ _, mret ()) : PM tape ()). unfold put, mbind, pm_bind, FITS, emit, ADD. cbn [p_cnt p_o p_l10n p_ap p_types length Z.of_nat]. rewrite (proj2 (Z.ltb_ge _ _)) by lia. cbn [p_cnt p_o p_l10n p_ap p_types]. rewrite (proj2 (Z.ltb_ge _ _)) by lia. rewrite Z.add_0_r.
  done.
Qed.

Lemma printed_e p x str n ps : 0 <= p <= INT_MAX → fmt_fp (encode_num (conv_num F_LDBL x)) 0 p no_flags 101 INT_MAX = Ok (n, ps) → n = size ps → n <= INT_MAX →
  printed (lit "%.*e") [VInt p; VDbl x] str = Ok (concat ps, n, 0).
Proof.
  intros Hp Hf Hn Hmax. unfold printed, __vfprintf_unlocked. change (scan_pass tape_stream (lit "%.*e") [VInt p; VDbl x] str) with (Ok (A := list arg + Z * option Z) (inl [])). cbn [mbind res_bind]. unfold print_pass.
  change (f_bufsize (set_err false tape_stream) =? 0)%nat with false. cbn [buffer_ unbuffer]. change (need_write (set_err false tape_stream)) with (w_reset (set_mode (-1) tape_stream), false). cbn iota. set (g := w_reset (set_mode (-1) tape_stream)).
  set (o := Out g false). assert (stands 0 o []) as Ho.
  { left. split_and!; [done | done | done|]. split; cbn; [by exists [] | split; [done | lia] | intros _; apply not_elem_of_nil | done | by left | done]. }
  apply (outs_stands _ _ [[]]), (outs_stands _ _ ps), (outs_stands _ _ [[]]) in Ho. cbn [concat app] in Ho. rewrite !app_nil_r in Ho. apply tape_stands in Ho as (E1 & E2 & E3 & [(t0 & Ha & HT) _ _ _ _ _]).
  assert (printf_core false [] str (lit "%.*e") (start g [VInt p; VDbl x]) = Ok (inr (Return n), Pst (outs (outs (outs o [[]]) ps) [[]]) n (-1) [] (replicate 10 T_NONE))) as ->.
  { unfold printf_core. change (S (length (lit "%.*e"))) with 5%nat. rewrite (bind_ok _ _ _ _ _ (core_e o _ p x str n ps eq_refl Hp Hf ltac:(pose proof (size_nonneg ps); lia))). unfold mbind, pm_bind, get. cbn [p_o]. by rewrite E1. }
  cbn [mbind res_bind quit_result with_errno p_o]. rewrite E2. cbn [accepted tape_sink] in Ha. change (f_err tape_stream) with false. cbn iota. by rewrite E3, Ha, <- HT.
Qed.

(** ** Printing and reading a double *)

Lemma near10_frac Q x n d n' d' : 0 < d → 0 < d' → n * d' = n' * d → near10 Q x n d → near10 Q x n' d'.
Proof.
  intros Hd Hd' Hv [H1 H2]. unfold near10. pose proof (pw_pos x) as P1. pose proof (pw_pos (- x)) as P2. set (A := pw x) in *. set (A' := pw (- x)) in *.
  assert ((Q * A * d' - n' * A') * d = (Q * A * d - n * A') * d') as E by (transitivity (Q * A * d' * d - n' * d * A'); [ring | rewrite <- Hv; ring]). apply (f_equal Z.abs) in E. rewrite (Z.abs_mul _ d), (Z.abs_mul _ d'), (Z.abs_eq d), (Z.abs_eq d') in E by lia.
  set (u := Z.abs (Q * A * d' - n' * A')) in *. set (w := Z.abs (Q * A * d - n * A')) in *. clearbody u w. split; [nia|]. intros He. apply H2. apply (Z.mul_reg_r _ _ d'); [lia|]. nia.
Qed.

(** A double as the argument of printf: the long double has the same value. *)
Lemma double_arg m e neg : canon F_DBL m e → e <= emax F_DBL →
  ∃ m' e', ld_split (encode_num (conv_num F_LDBL (Num neg (Fin m e)))) = Parts m' e' neg false false ∧ 0 <= m' < 2 ^ 64 ∧ -16445 <= e' <= 16320 ∧ m' * 2 ^ (e' + 16445) = m * 2 ^ (e + 16445).
Proof.
  intros Hc He. destruct (decide (m = 0)) as [->|Hm].
  - assert (e = -1074) as -> by (destruct Hc as (_ & _ & [H|H]); [cbn in H; lia | done]). exists 0, (-16445). split; [by destruct neg|]. done.
  - destruct (conv_ldbl F_DBL m e) as (m' & e' & E1 & Hc' & Hle & E2 & _); [right; by left | done | done | destruct Hc; lia|]. exists m', e'. cbn [conv_num encode_num]. rewrite E1, split_encode by done. destruct Hc' as (H1 & H2 & _). cbn in H1, H2. split_and!; [done | lia | lia | lia | lia | done].
Qed.

Lemma value_p2 m e m' e' : -16445 <= e → -16445 <= e' → m' * 2 ^ (e' + 16445) = m * 2 ^ (e + 16445) → m' * p2 e' * p2 (- e) = m * p2 e * p2 (- e').
Proof.
  intros He He' Hv. pose proof (value_cross 16445 (Z.max (- e) 0) m e m' e' ltac:(lia) ltac:(lia) ltac:(lia) ltac:(lia) ltac:(lia) Hv) as H. unfold p2. rewrite H. replace (e + Z.max (- e) 0) with (Z.max e 0) by lia. ring.
Qed.

(** The decimal depends on the value only. *)
Lemma scientific_value ds x p m' e' m e : canon F_DBL m e → -16445 <= e' <= 16320 → m' * 2 ^ (e' + 16445) = m * 2 ^ (e + 16445) → scientific ds x p m' e' → scientific ds x p m e.
Proof.
  intros (Hm & Hlo & _) He' Hv (S1 & S2 & S3 & S4). cbn in Hlo. pose proof (value_p2 m e m' e' ltac:(lia) ltac:(lia) Hv) as Hp2. split_and!; [done | done | lia | lia|]. assert (m' = 0 ↔ m = 0) as Hz.
  { pose proof (pow2_pos (e + 16445) ltac:(lia)). pose proof (pow2_pos (e' + 16445) ltac:(lia)). nia. }
  destruct (Z.eqb_spec m' 0), (Z.eqb_spec m 0); try tauto. destruct S4 as [S4 S5]. split; [done|]. eapply near10_frac; [apply p2_pos | apply p2_pos | exact Hp2 | exact S5].
Qed.

Lemma number_bytes neg ip fr x : Forall digit ip → Forall digit fr → -1000000 < x < 1000000 → bytes (number (if neg : bool then [45] else []) ip fr (exp_str x 101 2)).
Proof.
  intros Hi Hf Hx. assert (∀ l, Forall digit l → bytes l) as Hd by (intros l Hl; eapply Forall_impl; [exact Hl|]; unfold digit, is_byte; lia). unfold number, bytes, exp_str. destruct (fmt_u_ok (Z.abs x) ltac:(lia)) as (H1 & _).
  apply Forall_app; split; [destruct neg; repeat constructor; unfold is_byte; lia|]. apply Forall_app; split; [by apply Hd|]. apply Forall_app; split; [destruct (length fr =? 0)%nat; [done|]; apply Forall_cons_2; [unfold is_byte; lia | by apply Hd]|].
  apply Forall_cons_2; [unfold is_byte; lia|]. apply Forall_cons_2; [destruct (x <? 0); unfold is_byte; lia|]. apply Forall_app; split; [apply Forall_replicate; unfold is_byte; lia | by apply Hd].
Qed.

(** strtod returns the number of which the decimal has enough digits. *)
Lemma strtod_back (neg : bool) m e p d0 fr x : canon F_DBL m e → e <= emax F_DBL → 16 <= p <= 1000000 → scientific (d0 :: fr) x p m e →
  let text := number (if neg then [45] else []) [d0] fr (exp_str x 101 2) in
  wp (strtod text) (λ y, let '(r, n, _) := y in r = Num neg (Fin m e) ∧ drop n text = []).
Proof.
  intros Hc He Hp (Hd & Hlen & Hx & Hs) text. assert (std F_DBL) as HF by (right; by left). apply Forall_cons in Hd as [Hd0 Hfr].
  assert (bytes text) as Hb by (apply number_bytes; [by apply Forall_singleton | done | lia]). pose proof (exp_str_length x ltac:(lia)) as Hes.
  assert (Z.of_nat (length text) <= 10000000) as Hlt. { unfold text, number. rewrite !length_app. cbn [length] in *. destruct neg, (length fr =? 0)%nat; cbn [length]; lia. }
  assert (subject text = Some (neg, DDec (d0 :: fr) (x - Z.of_nat (length fr)), [])) as Hsub.
  { apply subject_number; [by apply Forall_singleton | done | done|]. right. eexists. split; [unfold exp_str; reflexivity|]. apply exp_part_str. lia. }
  unfold strtod. pose proof (strtod_read F_DBL text HF Hb Hlt) as Hsp. rewrite Hsub in Hsp. eapply wp_mono; [exact Hsp|]. intros [[r n] er] [Hdrop Hres]. split; [|done]. cbn [result_ok] in Hres. specialize (Hres ltac:(done)).
  destruct Hres as [(m1 & e1 & Hn & -> & _)|(? & _)]; [|done]. cbn [length] in Hlen. replace (x - Z.of_nat (length fr)) with (x - p) in Hn by lia. assert (m1 = m ∧ e1 = e) as [-> ->]; [|unfold bounded; by rewrite (proj2 (Z.ltb_ge _ _)) by lia].
  destruct (Z.eqb_spec m 0) as [->|Hm].
  - destruct Hs as [Hs1 ->]. rewrite Hs1, Z.mul_0_l in Hn. destruct Hn as [Hc1 Hmin]. assert (e = -1074) as -> by (destruct Hc as (_ & _ & [H|H]); [cbn in H; lia | done]). destruct (Hmin 0 (-1074) ltac:(done) ltac:(done)) as [Hdist _]. unfold dist in Hdist. rewrite Z.mul_0_l in Hdist. cbn [emin F_DBL] in Hdist. rewrite !Z.mul_0_l, Z.mul_0_r, Z.sub_0_r in Hdist. cbn [Z.abs] in Hdist.
    pose proof (pw_pos (- (0 - p))) as P1. assert (-1074 <= e1) as Hlo1 by (destruct Hc1 as (_ & H & _); exact H). pose proof (pow2_pos (e1 - -1074) ltac:(lia)) as P2. destruct Hc1 as (H1 & H2 & H3). assert (m1 = 0) as -> by nia. split; [done|]. destruct H3 as [H3|H3]; [cbn in H3; lia | done].
  - destruct Hs as [HQ Hnear]. eapply (digits_enough F_DBL (m * p2 e) (p2 (- e)) m e m1 e1 (dval (d0 :: fr)) (x - p) p); try done; [apply p2_pos | | lia|].
    + unfold p2. cbn [emin F_DBL]. apply (value_cross 1074); destruct Hc as (_ & Hlo & _); cbn in Hlo; lia.
    + apply Z.lt_le_trans with (10 ^ 16); [done | apply Z.pow_le_mono_r; lia].
Qed.

(** C33: printing and reading back a double. For every finite double and
    every precision, %.*e prints a sign, one digit, the point and p digits and
    the exponent, which is the decimal of p + 1 digits nearest to the exact
    value (ties to even, the first digit not zero); with a precision of 16 or
    more strtod of the text is the same double again, the sign of zero
    included. *)
Theorem printf_strtod (neg : bool) m e p str : canon F_DBL m e → e <= emax F_DBL → 0 <= p <= 1000000 →
  ∃ d0 fr x, let text := number (if neg then [45] else []) [d0] fr (exp_str x 101 2) in
  printed (lit "%.*e") [VInt p; VDbl (Num neg (Fin m e))] str = Ok (text, Z.of_nat (length text), 0) ∧
  scientific (d0 :: fr) x p m e ∧
  (16 <= p → wp (strtod text) (λ y, let '(r, n, _) := y in r = Num neg (Fin m e) ∧ drop n text = [])).
Proof.
  intros Hc He Hp. destruct (double_arg m e neg Hc He) as (m' & e' & Hl & Hm' & He' & Hv). destruct (fmt_fp_e _ m' e' neg p INT_MAX Hl Hm' He' ltac:(lia) ltac:(unfold INT_MAX; lia)) as ([n ps] & Hf & Hn & Hle & d0 & fr & x & Hs & Ht).
  exists d0, fr, x. cbn zeta. rewrite <- Ht. split; [|].
  { rewrite (printed_e p _ str n ps ltac:(unfold INT_MAX; lia) Hf Hn Hle). by rewrite Hn. }
  pose proof (scientific_value _ x p m' e' m e Hc He' Hv Hs) as Hsm.
  split; [done|]. intros Hp16. rewrite Ht. apply (strtod_back neg m e p); [done | done | lia | done].
Qed.

(** One tenth, as the nearest double. *)
Lemma printf_strtod_witness : canon F_DBL 7205759403792794 (-56) ∧
  printed (lit "%.*e") [VInt 16; VDbl (Num false (Fin 7205759403792794 (-56)))] [] = Ok (lit "1.0000000000000001e-01", 22, 0) ∧
  wp (strtod (lit "1.0000000000000001e-01")) (λ y, let '(r, n, _) := y in r = Num false (Fin 7205759403792794 (-56)) ∧ drop n (lit "1.0000000000000001e-01") = []).
Proof.
  assert (canon F_DBL 7205759403792794 (-56)) as Hc by (split; [split; [discriminate | reflexivity]|]; split; [discriminate|]; left; discriminate). split; [exact Hc|].
  assert (printed (lit "%.*e") [VInt 16; VDbl (Num false (Fin 7205759403792794 (-56)))] [] = Ok (lit "1.0000000000000001e-01", 22, 0)) as E by (vm_compute; reflexivity). split; [exact E|].
  destruct (printf_strtod false 7205759403792794 (-56) 16 [] Hc ltac:(discriminate) ltac:(split; discriminate)) as (d0 & fr & x & H1 & _ & H3). rewrite E in H1. apply (f_equal (λ r, match r with Ok (t, _, _) => t | Trap _ => [] end)) in H1. cbn beta iota in H1. rewrite H1. apply H3. discriminate.
Defined.
