(* ===== verification/Printfeq.v ===== *)
(** * What printf makes of a simple format

    Equations for the interpreter of Printf.v on formats of literal text and
    specifications without position, flags and width: the text is the
    literals with the texts of the arguments between them. *)
From S2P Require Import Prelude Lit Fpround Strtod Stdio Stdioout Printf Printfout Printfdec Printffloat.

#[local] Existing Instances pm_ret pm_bind.

(** ** Simple specifications *)

Section Print.
Context {D : Type} `{!Device D} (str : list Z).

Lemma emit_plain ps n (o : out_ D) c l ap ts : n = size ps → 0 <= c → c + n <= INT_MAX →
  (FITS n;; emit ps;; ADD n) (Pst o c l ap ts) = Ok (inl (), Pst (outs o ps) (c + n) l ap ts).
Proof.
  intros -> Hc Hn. unfold mbind, pm_bind, FITS, emit, ADD. cbn [p_cnt p_o p_l10n p_ap p_types]. rewrite (proj2 (Z.ltb_ge _ _)) by lia. cbn [p_cnt p_o p_l10n p_ap p_types]. by rewrite (proj2 (Z.ltb_ge _ _)) by lia.
Qed.

Lemma field_plain (pre d : list Z) : concat (emit_field no_flags 0 pre 0 d) = pre ++ d.
Proof. unfold emit_field. cbn [no_flags fl_left fl_zero negb andb]. assert (fill_of 0 (Z.of_nat (length pre) + 0 + Z.of_nat (length d)) = 0) as -> by (unfold fill_of; by rewrite (proj2 (Z.ltb_ge _ _)) by lia). change (pad 32 0) with (@nil (list Z)). change (pad 48 0) with (@nil (list Z)). cbn. by rewrite app_nil_r. Qed.

Lemma field_plain_size (pre d : list Z) : size (emit_field no_flags 0 pre 0 d) = Z.of_nat (length pre) + Z.of_nat (length d).
Proof. unfold size. rewrite field_plain, length_app. lia. Qed.

(** The pieces of a field without width. *)
Definition gives (m : PM D ()) (ps : list (list Z)) : Prop := ∀ o c l ap ts, 0 <= c → c + size ps <= INT_MAX → m (Pst o c l ap ts) = Ok (inl (), Pst (outs o ps) (c + size ps) l ap ts).

Lemma integer_gives c pre d : gives (integer c no_flags 0 (-1) pre d) (emit_field no_flags 0 pre 0 d).
Proof.
  intros o cn l ap ts Hc Hn. rewrite field_plain_size in *. unfold integer. change (0 <=? -1) with false. change (0 <? -1) with false. cbn [andb]. rewrite Z.add_0_r.
  set (n := Z.of_nat (length pre) + Z.of_nat (length d)) in *. replace (if 0 <? n then n else 0) with n by (destruct (Z.ltb_spec 0 n); [done | unfold n in *; lia]). apply emit_plain; [by rewrite field_plain_size | done | done].
Qed.

Lemma text_gives d : gives (text no_flags 0 d) (emit_field no_flags 0 [] 0 d).
Proof.
  intros o cn l ap ts Hc Hn. rewrite field_plain_size in *. cbn [length Z.of_nat] in *. unfold text. rewrite (proj2 (Z.ltb_ge _ 0)) by lia. apply emit_plain; [by rewrite field_plain_size | done | done].
Qed.

(** A specification without position, flags and width. *)
Lemma directive_plain s s1 s' x lm t v a p (o : out_ D) c l ap ts : l = 0 ∨ l = -1 →
  position s = None → flags_loop s no_flags = (no_flags, s) → (cur s =? 42) = false → getint s = (0, s) → (∀ st : pst D, precision false [] s st = Ok (inl (p, s1), st)) →
  length_mod s1 = (lm, x :: s') → (x =? 110) = false → conv_type x lm = Some t → one_of x (lit "m%") = false → pop_arg t (v :: ap) = Ok (a, ap) →
  directive false [] str s (Pst o c l (v :: ap) ts) = (conversion str x lm no_flags 0 p a;; mret s') (Pst o c (-1) ap ts).
Proof.
  intros Hl H1 H2 H3 H4 H5 H6 H7 H8 H9 H10. unfold directive. rewrite H1. rewrite (bind_ok _ _ _ (Pst o c l (v :: ap) ts) (-1, s)) by reflexivity. cbn iota beta. rewrite H2. cbn iota.
  rewrite (bind_ok (width _ _ _ _) _ _ (Pst o c l (v :: ap) ts) (0, no_flags, s)) by (unfold width; rewrite H3, H4; reflexivity). cbn iota beta. rewrite (bind_ok _ _ _ _ _ (H5 _)). cbn iota beta. rewrite H6. cbn iota. change (cur (x :: s')) with x. rewrite H7, H8. cbn [tail].
  rewrite (bind_ok (fetch _ _ _ _ _) _ _ (Pst o c (-1) ap ts) (Some a)); [done|]. unfold fetch, mbind, pm_bind, get, pop, set_l10n. cbn [p_l10n p_ap p_o p_cnt p_types]. rewrite H9. cbn [negb]. change (0 <? -1) with false. cbn iota. replace (0 <? l) with false by (destruct Hl as [-> | ->]; done). cbn [p_l10n p_ap p_o p_cnt p_types]. by rewrite H10.
Qed.

Lemma gives_directive m (s' : list Z) ps (o : out_ D) c ap ts : gives m ps → 0 <= c → c + size ps <= INT_MAX → (m;; mret s') (Pst o c (-1) ap ts) = Ok (inl s', Pst (outs o ps) (c + size ps) (-1) ap ts).
Proof. intros Hg Hc Hn. rewrite (bind_ok _ _ _ _ _ (Hg o c (-1) ap ts Hc Hn)). done. Qed.

Lemma put_gives t : gives (put (D := D) false t) [t].
Proof.
  intros o c l ap ts Hc Hn. unfold put. cbn iota. assert (size [t] = Z.of_nat (length t)) as Es by (unfold size; cbn; by rewrite app_nil_r). rewrite Es in *. by apply emit_plain.
Qed.

Lemma outs_app (o : out_ D) ps qs : outs (outs o ps) qs = outs o (ps ++ qs).
Proof. unfold outs. by rewrite fold_left_app. Qed.


(** ** Whole formats *)

(** An argument in a format: the literal text in front of it, its
    specification, and what its text may be. [fa_size] bounds the text. *)
Record farg := Farg { fa_lit : list Z; fa_spec : list Z; fa_arg : varg; fa_size : Z; fa_text : list Z → Prop }.

Definition plain (t : list Z) : Prop := Forall (λ c, (c =? 0) || (c =? 37) = false) t.

(** The interpreter prints the argument, wherever it stands. *)
Record farg_ok (a : farg) : Prop := {
  fo_lit : plain (fa_lit a);
  fo_head : ∃ c s, fa_spec a = c :: s ∧ (c =? 37) = false;
  fo_size : 0 <= fa_size a;
  fo_run : ∀ rest (o : out_ D) c l ap ts, l = 0 ∨ l = -1 → 0 <= c → c + fa_size a + 200 <= INT_MAX →
    ∃ ps, directive false [] str (fa_spec a ++ rest) (Pst o c l (fa_arg a :: ap) ts) = Ok (inl rest, Pst (outs o ps) (c + size ps) (-1) ap ts) ∧ fa_text a (concat ps) ∧ size ps <= fa_size a;
  fo_scan : ∀ rest (o : out_ D) c ap ts, ∃ st, directive true [] str (fa_spec a ++ rest) (Pst o c 0 ap ts) = Ok (inr (Return 0), st);
}.

Fixpoint format_of (fs : list farg) (end_ : list Z) : list Z :=
  match fs with [] => end_ | a :: fs => fa_lit a ++ 37 :: fa_spec a ++ format_of fs end_ end.

Fixpoint text_with (fs : list farg) (tx : list (list Z)) (end_ : list Z) : list Z :=
  match fs, tx with a :: fs, t :: tx => fa_lit a ++ t ++ text_with fs tx end_ | _, _ => end_ end.

Definition format_size (fs : list farg) (end_ : list Z) : Z := foldr (λ a n, Z.of_nat (length (fa_lit a)) + fa_size a + n) (Z.of_nat (length end_)) fs.

Lemma literal_plain t s : plain t → (s = [] ∨ ∃ s', s = 37 :: s') → literal (t ++ s) = (t, s).
Proof using. intros Ht Hs. induction Ht as [|c t Hc _ IH]; cbn [app literal]; [by destruct Hs as [->|(s' & ->)]|]. by rewrite Hc, IH. Qed.

Lemma format_size_ge fs end_ : Forall farg_ok fs → 0 <= format_size fs end_.
Proof using. induction 1 as [|a fs Ha _ IH]; cbn [format_size foldr]; [lia|]. fold (format_size fs end_). pose proof (fo_size _ Ha). lia. Qed.

Lemma core_loop_format end_ : plain end_ → ∀ fs fuel (o : out_ D) c l ts, Forall farg_ok fs → (length fs < fuel)%nat → l = 0 ∨ l = -1 → 0 <= c → c + format_size fs end_ + 200 <= INT_MAX →
  ∃ ps tx l', core_loop false [] str fuel (format_of fs end_) (Pst o c l (fa_arg <$> fs) ts) = Ok (inl (), Pst (outs o ps) (c + size ps) l' [] ts) ∧ concat ps = text_with fs tx end_ ∧ Forall2 fa_text fs tx ∧ size ps <= format_size fs end_.
Proof using.
  intros Hend. induction fs as [|a fs IH]; intros fuel o c l ts Hok Hf Hl Hc Hn; (destruct fuel as [|fuel]; [cbn in Hf; lia|]); cbn [core_loop].
  - cbn [format_of]. pose proof (literal_plain end_ [] Hend (or_introl eq_refl)) as Hlit. rewrite app_nil_r in Hlit. rewrite Hlit. cbn [cur tail]. change ((0 =? 37) && (0 =? 37)) with false. cbn iota. assert (size [end_] = Z.of_nat (length end_)) as Es by (unfold size; cbn; by rewrite app_nil_r). unfold format_size in Hn. cbn [foldr] in Hn.
    exists [end_], [], l. rewrite (bind_ok _ _ _ _ _ (put_gives end_ o c l _ ts Hc ltac:(lia))). split; [done|]. split; [cbn; by rewrite app_nil_r|]. split; [done|]. rewrite Es. done.
  - apply Forall_cons in Hok as [Ha Hok]. cbn [format_of]. rewrite literal_plain by (apply Ha || (right; by eexists)). pose proof (format_size_ge fs end_ Hok) as Hge. pose proof (fo_size _ Ha) as Hsz. cbn [format_size foldr fmap list_fmap length] in *. fold (format_size fs end_) in Hn |- *.
    assert ((cur (fa_spec a ++ format_of fs end_) =? 37) = false) as Hcur by (destruct (fo_head _ Ha) as (c0 & s0 & -> & Hc0); exact Hc0). change (cur (37 :: ?l)) with 37. change (tail (37 :: ?l)) with l. rewrite Hcur. change (37 =? 37) with true. cbn [andb]. change (37 =? 0) with false. cbn iota.
    assert (size [fa_lit a] = Z.of_nat (length (fa_lit a))) as Es by (unfold size; cbn; by rewrite app_nil_r). rewrite (bind_ok _ _ _ _ _ (put_gives (fa_lit a) o c l _ ts Hc ltac:(lia))).
    destruct (fo_run _ Ha (format_of fs end_) (outs o [fa_lit a]) (c + size [fa_lit a]) l (fa_arg <$> fs) ts Hl ltac:(lia) ltac:(lia)) as (ps & Ed & Ht & Hps). rewrite (bind_ok _ _ _ _ _ Ed). pose proof (size_nonneg ps).
    destruct (IH fuel (outs (outs o [fa_lit a]) ps) (c + size [fa_lit a] + size ps) (-1) ts Hok ltac:(lia) ltac:(by right) ltac:(lia) ltac:(lia)) as (qs & tx & l' & Eq & Ec & Htx & Hqs).
    exists ([fa_lit a] ++ ps ++ qs), (concat ps :: tx), l'. rewrite Eq, !outs_app, !size_app, <- ?app_assoc, ?Z.add_assoc. split; [done|]. split; [rewrite !concat_app, Ec; cbn; by rewrite app_nil_r|]. split; [by constructor | lia].
Qed.

Lemma bind_stop {A B} (m : PM D A) (k : A → PM D B) s s' q : m s = Ok (inr q, s') → (m ≫= k) s = Ok (inr q, s').
Proof using. intros H. unfold mbind, pm_bind. by rewrite H. Qed.

Lemma put_scan t (o : out_ D) c l ap ts : 0 <= c → c + Z.of_nat (length t) <= INT_MAX → put true t (Pst o c l ap ts) = Ok (inl (), Pst o (c + Z.of_nat (length t)) l ap ts).
Proof using. intros Hc Hn. unfold put, mbind, pm_bind, FITS, ADD. cbn [p_cnt p_o p_l10n p_ap p_types]. rewrite (proj2 (Z.ltb_ge _ _)) by lia. cbn [mret pm_ret p_cnt]. by rewrite (proj2 (Z.ltb_ge _ _)) by lia. Qed.

(** The scanning pass leaves at the first conversion. *)
Lemma scan_format_of fs end_ (f : FILE D) ap : plain end_ → Forall farg_ok fs → format_size fs end_ + 200 <= INT_MAX → scan_pass f (format_of fs end_) ap str = Ok (inl []).
Proof using.
  intros Hend Hok Hn. assert (∃ st, printf_core true [] str (format_of fs end_) (start f ap) = Ok (inr (Return 0), st)) as [st E]; [|unfold scan_pass; by rewrite E].
  set (o := Out f false). set (ts := replicate 10 T_NONE). unfold printf_core, start. fold o ts. destruct fs as [|a fs].
  - assert (core_loop true [] str (S (length (format_of [] end_))) (format_of [] end_) (Pst o 0 0 ap ts) = Ok (inl (), Pst o (0 + Z.of_nat (length end_)) 0 ap ts)) as E; [|eexists; rewrite (bind_ok _ _ _ _ _ E); reflexivity]. cbn [core_loop format_of]. pose proof (literal_plain end_ [] Hend (or_introl eq_refl)) as Hlit. rewrite app_nil_r in Hlit. rewrite Hlit. cbn [cur tail]. change ((0 =? 37) && (0 =? 37)) with false. cbn iota. unfold format_size in Hn. cbn [foldr] in Hn. rewrite (bind_ok _ _ _ _ _ (put_scan end_ o 0 0 ap ts ltac:(lia) ltac:(lia))). reflexivity.
  - apply Forall_cons in Hok as [Ha Hok]. pose proof (format_size_ge fs end_ Hok) as Hge. pose proof (fo_size _ Ha) as Hsz. cbn [format_size foldr] in Hn. fold (format_size fs end_) in Hn.
    destruct (fo_scan _ Ha (format_of fs end_) o (0 + Z.of_nat (length (fa_lit a))) ap ts) as [st Ed]. exists st. apply bind_stop. cbn [core_loop format_of]. rewrite literal_plain by (apply Ha || (right; by eexists)).
    assert ((cur (fa_spec a ++ format_of fs end_) =? 37) = false) as Hcur by (destruct (fo_head _ Ha) as (c0 & s0 & -> & Hc0); exact Hc0). change (cur (37 :: ?l)) with 37. change (tail (37 :: ?l)) with l. rewrite Hcur. change (37 =? 37) with true. cbn [andb]. change (37 =? 0) with false. cbn iota.
    rewrite (bind_ok _ _ _ _ _ (put_scan (fa_lit a) o 0 0 ap ts ltac:(lia) ltac:(lia))). by apply bind_stop.
Qed.
End Print.

(** The text of the format. *)
Lemma printed_format str fs end_ : plain end_ → Forall (farg_ok (D := tape) str) fs → format_size fs end_ + 200 <= INT_MAX →
  ∃ tx, let text := text_with fs tx end_ in printed (format_of fs end_) (fa_arg <$> fs) str = Ok (text, Z.of_nat (length text), 0) ∧ Forall2 fa_text fs tx ∧ Z.of_nat (length text) <= format_size fs end_.
Proof.
  intros Hend Hok Hn. unfold printed, __vfprintf_unlocked. rewrite (scan_format_of str) by done. cbn [mbind res_bind]. unfold print_pass. change (f_bufsize (set_err false tape_stream) =? 0)%nat with false. cbn [buffer_ unbuffer]. change (need_write (set_err false tape_stream)) with (w_reset (set_mode (-1) tape_stream), false). cbn iota. set (g := w_reset (set_mode (-1) tape_stream)).
  set (o := Out g false). assert (stands 0 o []) as Ho.
  { left. split_and!; [done | done | done|]. split; cbn; [by exists [] | split; [done | lia] | intros _; apply not_elem_of_nil | done | by left | done]. }
  assert (length fs <= length (format_of fs end_))%nat as Hlen. { clear. induction fs as [|a fs IH]; [cbn; lia|]. cbn [format_of]. rewrite length_app. cbn [length]. rewrite length_app. lia. }
  destruct (core_loop_format str end_ Hend fs (S (length (format_of fs end_))) o 0 0 (replicate 10 T_NONE) Hok ltac:(lia) ltac:(by left) ltac:(lia) ltac:(lia)) as (ps & tx & l' & E & Ec & Ht & Hsz). exists tx. cbn zeta. set (text := text_with fs tx end_) in *. assert (size ps = Z.of_nat (length text)) as Es by (unfold size; by rewrite Ec). split; [|split; [done | lia]].
  apply (outs_stands _ _ ps) in Ho. cbn [app] in Ho. rewrite Ec in Ho. apply tape_stands in Ho as (E1 & E2 & E3 & [(t0 & Ha & HT) _ _ _ _ _]).
  assert (printf_core false [] str (format_of fs end_) (start g (fa_arg <$> fs)) = Ok (inr (Return (Z.of_nat (length text))), Pst (outs o ps) (Z.of_nat (length text)) l' [] (replicate 10 T_NONE))) as ->.
  { unfold printf_core. rewrite Es in E. unfold start. fold o. rewrite (bind_ok _ _ _ _ _ E). unfold mbind, pm_bind, get. cbn [p_o]. by rewrite E1. }
  cbn [mbind res_bind quit_result with_errno p_o]. rewrite E2. cbn [accepted tape_sink] in Ha. change (f_err tape_stream) with false. cbn iota. by rewrite E3, Ha, <- HT.
Qed.
