(* ===== verification/Printfsafe.v ===== *)
(** * printf terminates and stays inside its digit array

    Every run of the format interpreter of src/src/vfprintf.c ends with a
    result, unless the arguments do not fit the format or the format contains
    %n: the loop consumes the format, and the exact expansion of a
    floating-point value fits in the array. *)
From S2P Require Import Prelude Lit Fpround Strtod Strtodround Strtodspec Stdio Stdioout Printf Printfout Printfdec Printffloat.

#[local] Existing Instances pm_ret pm_bind.

(** ** Arguments *)

Definition ld_wf (l : ld) : Prop := 0 <= ld_m l < 2 ^ 64 ∧ 0 <= ld_se l < 2 ^ 16.

Definition num_ok (x : num) : Prop := match x with Num _ (Fin m e) => canon F_DBL m e ∧ e <= emax F_DBL | _ => True end.

Definition varg_ok (v : varg) : Prop := match v with VDbl x => num_ok x | VLdbl l => ld_wf l | _ => True end.

(** The value to format is in range, or not finite. *)
Definition arg_ok (a : arg) : Prop :=
  match a with
  | AF y => let v := ld_split y in p_inf v || p_nan v = true ∨ (0 <= p_m v < 2 ^ 64 ∧ -16445 <= p_e v <= 16320)
  | _ => True
  end.

Lemma ld_wf_ok l : ld_wf l → arg_ok (AF l).
Proof.
  intros [Hm Hs]. cbn. unfold ld_split. pose proof (Z.land_ones (ld_se l) 15 ltac:(lia)) as E. change (Z.ones 15) with 0x7fff in E. pose proof (Z.mod_pos_bound (ld_se l) (2 ^ 15) ltac:(lia)) as Hf. rewrite <- E in Hf. set (f := Z.land (ld_se l) 0x7fff) in *. clearbody f.
  destruct (Z.eqb_spec f 0x7fff) as [E1|E1]; [left; by destruct (negb _)|]. destruct (Z.eqb_spec f 0) as [E2|E2]; right; cbn [p_m p_e]; lia.
Qed.

Lemma num_arg_ok x : num_ok x → arg_ok (AF (encode_num (conv_num F_LDBL x))).
Proof.
  destruct x as [neg [m e|]|neg]; intros Hx.
  - destruct Hx as [Hc He]. destruct (double_arg m e neg Hc He) as (m' & e' & Hs & Hm & He' & _). cbn [arg_ok]. rewrite Hs. right. done.
  - left. by destruct neg.
  - left. by destruct neg.
Qed.

Lemma pop_arg_ok t ap : Forall varg_ok ap → match pop_arg t ap with Ok (a, ap') => arg_ok a ∧ Forall varg_ok ap' | Trap x => x = Ub end.
Proof.
  intros H. unfold pop_arg. destruct ap as [|v ap]; [done|]. apply Forall_cons in H as [Hv H]. destruct t, v; try done; (split; [|done]); [by apply num_arg_ok | by apply ld_wf_ok].
Qed.

(** ** The interpreter *)

Section Safe.
Context {D : Type} `{!Device D}.

(** [m] ends with a value that satisfies [Q], or stops; it traps only for a bad
    argument or %n. *)
Definition safe {A} (Q : A → Prop) (m : PM D A) : Prop := ∀ s, Forall varg_ok (p_ap s) →
  match m s with
  | Ok (inl a, s') => Q a ∧ Forall varg_ok (p_ap s')
  | Ok (inr _, _) => True
  | Trap t => t = Ub ∨ t = Abrt
  end.

Lemma safe_ret {A} (Q : A → Prop) a : Q a → safe Q (mret a).
Proof. intros H s Hs. done. Qed.

Lemma safe_stop {A} (Q : A → Prop) q : safe Q (stop q).
Proof. intros s Hs. done. Qed.

Lemma safe_trap {A} (Q : A → Prop) t : t = Ub ∨ t = Abrt → safe Q (trap_ t).
Proof. intros H s Hs. done. Qed.

Lemma safe_bind {A B} (P : A → Prop) (Q : B → Prop) m k : safe P m → (∀ a, P a → safe Q (k a)) → safe Q (m ≫= k).
Proof. intros Hm Hk s Hs. specialize (Hm s Hs). unfold mbind, pm_bind. destruct (m s) as [[[a|q] s']|t]; [|done | done]. destruct Hm as [Ha Hs']. by apply (Hk a Ha). Qed.

Lemma safe_seq {A B} (Q : B → Prop) (m : PM D A) k : safe (λ _, True) m → (∀ a, safe Q (k a)) → safe Q (m ≫= k).
Proof. intros Hm Hk. eapply safe_bind; [exact Hm | intros a _; apply Hk]. Qed.

Lemma safe_get {B} (Q : B → Prop) k : (∀ s, safe Q (k s)) → safe Q (get ≫= k).
Proof. intros Hk s Hs. by apply (Hk s s). Qed.

Lemma safe_upd (f : pst D → pst D) : (∀ s, p_ap (f s) = p_ap s) → safe (λ _, True) (λ s, Ok (inl (), f s)).
Proof. intros Hf s Hs. split; [done | by rewrite Hf]. Qed.

Lemma safe_pop t : safe arg_ok (pop (D := D) t).
Proof. intros s Hs. unfold pop. pose proof (pop_arg_ok t (p_ap s) Hs) as H. destruct (pop_arg t (p_ap s)) as [[a ap]|x]; [done | by left]. Qed.

Lemma safe_FITS n : safe (λ _, True) (FITS (D := D) n).
Proof. intros s Hs. unfold FITS. by destruct (_ <? n). Qed.

Lemma safe_ADD n : safe (λ _, True) (ADD (D := D) n).
Proof. intros s Hs. unfold ADD. by destruct (_ <? n). Qed.

Lemma safe_emit ps n : safe (λ _, True) (emit (D := D) ps;; ADD n).
Proof. apply safe_seq; [by apply safe_upd | intros _; apply safe_ADD]. Qed.

Lemma safe_field n ps : safe (λ _, True) (FITS (D := D) n;; emit ps;; ADD n).
Proof. apply safe_seq; [apply safe_FITS | intros _; apply safe_emit]. Qed.

Lemma fmt_fp_safe y w p fl t room : arg_ok (AF y) → ∃ r, fmt_fp y w p fl t room = Ok r.
Proof.
  intros Hy. unfold fmt_fp. destruct (p_inf (ld_split y) || p_nan (ld_split y)) eqn:E; [by eexists|]. destruct (t =? 97); [by eexists|]. cbn in Hy. rewrite E in Hy. destruct Hy as [|[Hm He]]; [done|].
  assert (∃ d, dec_init (p_m (ld_split y)) (p_e (ld_split y)) = Ok d) as (d & ->).
  { destruct (decide (p_m (ld_split y) = 0)) as [E0|E0]; [rewrite E0; by eexists|]. destruct (dec_init_ok (p_m (ld_split y)) (p_e (ld_split y)) ltac:(lia) He) as (d & Hd & _). by exists d. }
  cbn [mbind res_bind]. destruct (t =? 103); by eexists.
Qed.

Lemma safe_conversion str c lm fl w p a : arg_ok a → safe (λ _, True) (conversion (D := D) str c lm fl w p a).
Proof.
  intros Ha. assert (∀ fl w d, safe (λ _, True) (text (D := D) fl w d)) as Htext by (intros; apply safe_field). assert (∀ c fl w p pre d, safe (λ _, True) (integer (D := D) c fl w p pre d)) as Hint by (intros; apply safe_field).
  assert (∀ A (Q : A → Prop), safe Q (trap_ (D := D) Ub)) as Hub by (intros; apply safe_trap; by left).
  unfold conversion. destruct (c =? 37); [apply safe_emit|]. destruct (one_of c _); [apply Hint|]. destruct (c =? 117); [apply Hint|]. destruct (c =? 111); [apply Hint|]. destruct (_ || _); [apply Hint|]. destruct (c =? 112).
  { destruct a as [|y|[ | | |[]|[]|q]]; try apply Hub; try apply Htext. destruct (q =? 0); [apply Htext | apply Hint]. }
  destruct (_ && _); [apply Htext|]. destruct (_ || _); [destruct (if int_of a =? 0 then Some [0] else utf8 (u32 (int_of a))); [apply Htext | apply safe_stop]|].
  destruct (c =? 109); [apply Htext|]. destruct (_ && _); [destruct a as [|y|[]]; try apply Hub; apply Htext|]. destruct (_ || _).
  { destruct a as [|y|[]]; try apply Hub. unfold wide. destruct (wide_bytes _ _ _ _) as [[mbs n]|q]; [apply safe_field | apply safe_stop]. }
  destruct a as [|y|]; try apply Hub. set (fl' := if (65 <=? c) && (c <=? 90) then with_upper fl else fl). apply safe_get. intros s. destruct (fmt_fp_safe y w p fl' (Z.lor c 32) (INT_MAX - p_cnt s) Ha) as ([n ps] & E). rewrite E.
  eapply (safe_bind (λ _, True)); [by intros s' Hs'|]. intros [n' ps'] _. apply safe_emit.
Qed.

(** ** The format is consumed *)

Lemma getint_length s : (length (snd (getint s)) <= length s)%nat.
Proof. unfold getint. generalize 0 as n. induction s as [|c s IH]; intros n; cbn [getint_loop]; [done|]. destruct (is_digit c); [|done]. etrans; [apply IH | cbn; lia]. Qed.

Lemma tail_length {A} (s : list A) : (length (tail s) <= length s)%nat.
Proof. destruct s; cbn; lia. Qed.

Lemma flags_length s fl : (length (snd (flags_loop s fl)) <= length s)%nat.
Proof.
  revert fl. induction s as [|c s IH]; intros [l p sp a z u]; [done|]. cbn [flags_loop]. repeat case_match; try done; (etrans; [apply IH | cbn [length]; lia]).
Qed.

Lemma length_mod_length s : (length (snd (length_mod s)) <= length s)%nat.
Proof. unfold length_mod. pose proof (tail_length s). pose proof (tail_length (tail s)). repeat case_match; cbn [snd]; lia. Qed.

Lemma literal_length s : (length (snd (literal s)) <= length s)%nat.
Proof. induction s as [|c s IH]; cbn [literal]; [done|]. destruct (_ || _); [done|]. destruct (literal s) as [a r]. cbn in *. lia. Qed.

Context (scan : bool) (nl_arg : list arg) (str : list Z) (Hnl : Forall arg_ok nl_arg).

Lemma nl_nth n : arg_ok (nth n nl_arg (AI 0)).
Proof using Hnl. destruct (nth_in_or_default n nl_arg (AI 0)) as [Hin| ->]; [|done]. rewrite Forall_forall in Hnl. by apply Hnl, list_elem_of_In. Qed.

Lemma safe_star s : safe (λ y, (length (snd y) <= length s)%nat) (star (D := D) scan nl_arg s).
Proof using Type.
  apply safe_get. intros st. pose proof (getint_length s) as Hg. destruct (is_digit (cur s)).
  - destruct (getint s) as [n t]. cbn [snd] in Hg. pose proof (tail_length t). destruct (_ || _); [apply safe_stop|]. apply safe_seq; [by apply safe_upd|]. intros _. destruct scan; [|apply safe_ret; cbn; lia]. apply safe_seq; [by apply safe_upd|]. intros _. apply safe_ret. cbn. lia.
  - destruct (0 <? p_l10n st); [apply safe_stop|]. apply safe_seq; [by apply safe_upd|]. intros _. destruct scan; [apply safe_stop|]. eapply safe_bind; [apply safe_pop|]. intros a _. by apply safe_ret.
Qed.

Lemma safe_width s fl : safe (λ y, (length (snd y) <= length s)%nat) (width (D := D) scan nl_arg s fl).
Proof using Type.
  unfold width. pose proof (tail_length s). destruct (cur s =? 42).
  - eapply safe_bind; [apply safe_star|]. intros [w t] Ht. cbn [snd] in Ht. destruct (w <? 0); [|apply safe_ret; cbn; lia]. destruct (w =? INT_MIN); [apply safe_stop | apply safe_ret; cbn; lia].
  - pose proof (getint_length s) as Hg. destruct (getint s) as [w t]. destruct (w <? 0); [apply safe_stop | by apply safe_ret].
Qed.

Lemma safe_precision s : safe (λ y, (length (snd y) <= length s)%nat) (precision (D := D) scan nl_arg s).
Proof using Type.
  unfold precision. pose proof (tail_length s). pose proof (tail_length (tail s)). destruct (cur s =? 46); [|by apply safe_ret]. destruct (cur (tail s) =? 42).
  - eapply safe_bind; [apply safe_star|]. intros [p t] Ht. cbn [snd] in Ht. apply safe_ret. cbn. lia.
  - pose proof (getint_length (tail s)) as Hg. destruct (getint (tail s)) as [p t]. cbn [snd] in Hg. destruct (p <? 0); [apply safe_stop | apply safe_ret; cbn; lia].
Qed.

Lemma safe_fetch c t argpos : safe (λ y, match y with Some a => arg_ok a | None => True end) (fetch (D := D) scan nl_arg c t argpos).
Proof using Hnl.
  apply safe_get. intros s. destruct (negb (one_of c _)).
  - destruct (0 <? argpos).
    + destruct (p_l10n s <? 0); [apply safe_stop|]. apply safe_seq; [by apply safe_upd|]. intros _. destruct scan; [|apply safe_ret, nl_nth]. cbn zeta. destruct (_ && _); [apply safe_stop|]. apply safe_seq; [by apply safe_upd|]. intros _. by apply safe_ret.
    + destruct (0 <? p_l10n s); [apply safe_stop|]. apply safe_seq; [by apply safe_upd|]. intros _. destruct scan; [apply safe_stop|]. eapply safe_bind; [apply safe_pop|]. intros a Ha. by apply safe_ret.
  - destruct (0 <? argpos); [apply safe_stop|]. apply safe_ret. by destruct scan.
Qed.

Lemma safe_directive s : safe (λ s', (length s' <= length s)%nat) (directive (D := D) scan nl_arg str s).
Proof using Hnl.
  unfold directive. apply (safe_bind (λ y, (length (snd y) <= length s)%nat)).
  { unfold position. destruct (is_digit (cur s)); [|by apply safe_ret]. pose proof (getint_length s) as Hg. destruct (getint s) as [n t]. cbn [snd] in Hg. pose proof (tail_length t). destruct (cur t =? 36); [|by apply safe_ret]. destruct (_ || _); [apply safe_stop | apply safe_ret; cbn; lia]. }
  intros [argpos t] Ht. cbn [snd] in Ht. pose proof (flags_length t no_flags) as Hf. destruct (flags_loop t no_flags) as [fl t1]. cbn [snd] in Hf. eapply safe_bind; [apply safe_width|]. intros [[w fl'] t2] H2. cbn [snd] in H2. eapply safe_bind; [apply safe_precision|]. intros [p t3] H3. cbn [snd] in H3.
  pose proof (length_mod_length t3) as H4. destruct (length_mod t3) as [lm t4]. cbn [snd] in H4. pose proof (tail_length t4). destruct (cur t4 =? 110); [apply safe_trap; by right|]. destruct (conv_type (cur t4) lm) as [t5|]; [|apply safe_stop].
  eapply safe_bind; [apply safe_fetch|]. intros [a|] Ha; [|apply safe_ret; lia]. apply safe_seq; [by apply safe_conversion|]. intros _. apply safe_ret. lia.
Qed.

Lemma safe_put t : safe (λ _, True) (put (D := D) scan t).
Proof using Type.
  unfold put. apply safe_seq; [apply safe_FITS|]. intros _. destruct scan; [|apply safe_emit]. apply safe_seq; [by apply safe_ret | intros _; apply safe_ADD].
Qed.

Lemma safe_core_loop fuel s : (length s < fuel)%nat → safe (λ _, True) (core_loop (D := D) scan nl_arg str fuel s).
Proof using Hnl.
  revert s. induction fuel as [|fuel IH]; intros s Hf; [lia|]. cbn [core_loop]. pose proof (literal_length s) as Hl. destruct (literal s) as [a t]. cbn [snd] in Hl. destruct (_ && _) eqn:Ec.
  - apply safe_seq; [apply safe_put|]. intros _. apply IH. destruct t as [|c [|c' t]]; cbn in *; [done | lia | lia].
  - apply safe_seq; [apply safe_put|]. intros _. destruct (Z.eqb_spec (cur t) 0) as [|Hne]; [by apply safe_ret|]. destruct t as [|c t]; [done|]. eapply safe_bind; [apply safe_directive|]. intros s' Hs'. apply IH. cbn in *. lia.
Qed.

Lemma safe_fetch_all ts args : Forall arg_ok args → safe (Forall arg_ok) (fetch_all (D := D) ts args).
Proof using Type.
  revert args. induction ts as [|t ts IH]; intros args Hargs; cbn [fetch_all]; [by apply safe_ret|]. destruct (bool_decide (t = T_NONE)); [destruct (forallb _ ts); [by apply safe_ret | apply safe_stop]|].
  eapply safe_bind; [apply safe_pop|]. intros a Ha. apply IH. apply Forall_app. split; [done | by apply Forall_singleton].
Qed.

Lemma safe_core fmt : safe (Forall arg_ok) (printf_core (D := D) scan nl_arg str fmt).
Proof using Hnl.
  unfold printf_core. apply safe_seq; [apply safe_core_loop; lia|]. intros _. apply safe_get. intros s. destruct scan; [|destruct (o_err (p_o s)); apply safe_stop]. destruct (_ <=? 0); [apply safe_stop|].
  eapply safe_bind; [by apply safe_fetch_all|]. intros args Hargs. apply safe_ret. by apply Forall_cons_2.
Qed.
End Safe.

(** Printing ends with a result for every format and every list of arguments
    that are values of their types: it does not run out of turns and does not
    leave the array of digits. *)
Lemma printed_safe fmt ap str : Forall varg_ok ap → match printed fmt ap str with Ok _ => True | Trap t => t = Ub ∨ t = Abrt end.
Proof.
  intros Hap. unfold printed, __vfprintf_unlocked, scan_pass. pose proof (safe_core (D := tape) true [] str (Forall_nil_2 _) fmt (start tape_stream ap) Hap) as H1. destruct (printf_core true [] str fmt (start tape_stream ap)) as [[y st]|t]; [|done]. cbn [mbind res_bind].
  assert (∀ nl, Forall arg_ok nl → match '(f, r) ← print_pass tape_stream nl fmt ap str; Ok (tp (f_dev f) ++ pending f, r, f_errno f) with Ok _ => True | Trap t => t = Ub ∨ t = Abrt end) as Hp.
  { intros nl Hnl. unfold print_pass. cbn zeta. destruct (need_write _) as [g []]; [done|]. pose proof (safe_core (D := tape) false nl str Hnl fmt (start g ap) Hap) as H2. destruct (printf_core false nl str fmt (start g ap)) as [[z st2]|t]; [|done]. cbn [mbind res_bind]. destruct z as [|q]; [done|]. by destruct (quit_result q). }
  destruct y as [args|q]; [by apply Hp, H1|]. destruct (quit_result q) as [v en]. destruct (v <? 0); [done | by apply Hp].
Qed.

(** ** The entry points for strings *)

(** C7: printing into a buffer. Whatever the format and the arguments are, the
    text does not depend on the buffer: vsnprintf stores the longest beginning
    of it that fits in [n] bytes with a terminator, never more than [n] bytes,
    and nothing if [n] is 0; the result is the length of the whole text, or
    -1. vsprintf and vasprintf store the whole text. There is always a result,
    unless the format asks for an argument that is not there or is of another
    type, or contains %n. *)
Theorem vsnprintf_spec n fmt ap e alloc : 0 <= n → Forall varg_ok ap →
  match printed fmt ap e with
  | Trap x => vsnprintf n fmt ap e = Trap x ∧ (x = Ub ∨ x = Abrt)
  | Ok (text, r, _) =>
      let stored := if n =? 0 then [] else take (Z.to_nat (n - 1)) text ++ [0] in
      vsnprintf n fmt ap e = Ok (stored, r) ∧ Z.of_nat (length stored) <= n ∧
      (r = -1 ∨ r = Z.of_nat (length text) ∧ r <= INT_MAX) ∧
      (r <> -1 → vsprintf fmt ap e = Ok (text ++ [0], r)) ∧
      vasprintf alloc fmt ap e = Ok (if (0 <=? r) && alloc (r + 1) then (Some (text ++ [0]), r) else (None, -1))
  end.
Proof.
  intros Hn Hap. pose proof (printed_safe fmt ap e Hap) as Hsafe. pose proof (vsnprintf_ok n fmt ap e Hn) as H. pose proof (vsnprintf_ok SIZE_MAX fmt ap e ltac:(unfold SIZE_MAX; lia)) as Hmax. pose proof (vsnprintf_ok 0 fmt ap e ltac:(done)) as H0. unfold vsprintf, vasprintf.
  pose proof (λ r Hr, vsnprintf_ok (r + 1) fmt ap e Hr) as Hr. destruct (printed fmt ap e) as [[[T r] en]|x]; [|done]. destruct H as [H1 H2], Hmax as [Hmax _], H0 as [H0 _]. split_and!.
  - done.
  - destruct (Z.eqb_spec n 0); [cbn; lia|]. rewrite length_app, length_take. cbn [length]. lia.
  - done.
  - intros Hneg. destruct H2 as [?|[-> HT]]; [done|]. rewrite Hmax. rewrite take_ge by (unfold SIZE_MAX, INT_MAX in *; lia). done.
  - rewrite H0. cbn [mbind res_bind]. destruct H2 as [->|[E HT]]; [done|]. rewrite (proj2 (Z.leb_le 0 r)), (proj2 (Z.ltb_ge r 0)) by lia. cbn [andb]. destruct (alloc (r + 1)); cbn [negb]; [|done].
    destruct (Hr r ltac:(lia)) as [-> _]. cbn [mbind res_bind]. rewrite Z.eqb_refl. cbn [negb]. rewrite (proj2 (Z.eqb_neq (r + 1) 0)) by lia. rewrite take_ge by lia. done.
Qed.

Lemma vsnprintf_spec_witness : 0 <= 6 ∧ vsnprintf 6 demo_format [VStr (Some [97; 98]); VInt (-42)] [] = Ok (lit "ab--0" ++ [0], 10).
Proof.
  split; [done|]. pose proof (vsnprintf_spec 6 demo_format [VStr (Some [97; 98]); VInt (-42)] [] (λ _, true) ltac:(done) ltac:(repeat constructor)) as H.
  rewrite demo_text in H. destruct H as [H _]. exact H.
Defined.
