(* ===== verification/Scanf.v ===== *)
(** * Formatted input (src/src/vfscanf.c)

    The arguments of a call are pointers (0 is null); what is stored through
    them is the list of the stores, in order. The format is the bytes before
    its terminator and is read by index: reading behind the terminator is a
    trap. The functions run in a monad of the state of vfscanf that may leave
    for one of its labels. Loops over the input take fuel: a stream may go on
    for ever, a string does not. [alloc] says whether malloc gives a size. *)
From S2P Require Import Prelude CMem Lit Ctype Strtol Multibyte Fpround Strtod Stdio.

#[local] Abbreviation EOF := Stdio.EOF.
Definition SIZE_MAX : Z := 2 ^ 64 - 1.

(** ** The state *)

Inductive size := S_HH | S_H | S_INT | S_L | S_LL | S_BIGL.

#[export] Instance size_eq_dec : EqDecision size.
Proof. solve_decision. Defined.

(** What is stored: integers of a size, pointers, floating-point numbers,
    characters, or a pointer to an allocated array of characters. *)
Inductive sval :=
  | StInt (sz : size) (v : Z) | StPtr (v : Z) | StFlt (x : num) | StDbl (x : num) | StLdbl (x : num)
  | StBytes (l : list Z) | StWide (l : list Z) | StNew (wide : bool) (l : list Z).

(** The labels done, input_fail and inval. *)
Inductive label := Done | Input_fail | Inval.

Record sst (D : Type) := Sst { s_f : FILE D; s_cnt : Z; s_matches : Z; s_pos : Z; s_seq : list Z; s_out : list (Z * sval) }.
Arguments Sst {D}.
Arguments s_f {D} _.
Arguments s_cnt {D} _.
Arguments s_matches {D} _.
Arguments s_pos {D} _.
Arguments s_seq {D} _.
Arguments s_out {D} _.

Definition SM (D A : Type) : Type := sst D → res ((A + label) * sst D).

#[local] Instance sm_ret {D} : MRet (SM D) := λ A a s, Ok (inl a, s).
#[local] Instance sm_bind {D} : MBind (SM D) := λ A B k m s,
  match m s with
  | Ok (inl a, s) => k a s
  | Ok (inr l, s) => Ok (inr l, s)
  | Trap t => Trap t
  end.

(** ** The collection buffer *)

(** The string p, the capacity, oom. *)
Record cbuf := Cbuf { cb_s : list Z; cb_cap : Z; cb_oom : bool }.

Definition cb_init : cbuf := Cbuf [] 128 false.

(** The buffer in memory, terminated, for the number parsers. *)
Definition cb_mem (b : cbuf) : mem := write ∅ 4096 (cb_s b ++ replicate (Z.to_nat (cb_cap b) - length (cb_s b)) 0).

(** ** Character sets *)

Definition set_at (set : list bool) (c : Z) : bool := nth (Z.to_nat c) set false.

(** for (ch = a; ch <= b; ch++) set[ch] = v; *)
Definition set_range (set : list bool) (a b : Z) (v : bool) : list bool :=
  foldl (λ s ch, <[Z.to_nat ch := v]> s) set (seqZ a (b - a + 1)).

(** The set of %s. *)
Definition word_set : list bool := (λ ch, negb (isspace ch)) <$> seqZ 0 256.

(** ** Text destinations *)

(** struct sdest: the elements (n is their number), the capacity and the
    flags. Elements are kept also where there is no destination. *)
Record sdest := Sdest { d_l : list Z; d_cap : Z; d_wide : bool; d_alloc : bool; d_fail : bool; d_st : mbstate }.

Section Scan.
Context {D : Type} `{!Device D}.
Context (alloc : Z → bool).
Implicit Types st : sst D.

Definition stop {A} (l : label) : SM D A := λ st, Ok (inr l, st).
Definition trap_ {A} (t : trap) : SM D A := λ _, Trap t.
Definition lift {A} (c : res A) : SM D A := λ st, match c with Ok a => Ok (inl a, st) | Trap t => Trap t end.
Definition gets : SM D (sst D) := λ st, Ok (inl st, st).
Definition set_f (f : FILE D) st : sst D := Sst f (s_cnt st) (s_matches st) (s_pos st) (s_seq st) (s_out st).
Definition errno_is (e : Z) : SM D () := λ st, Ok (inl (), set_f (set_errno e (s_f st)) st).

Definition store (p : Z) (v : sval) : SM D () := λ st,
  Ok (inl (), if p =? 0 then st else Sst (s_f st) (s_cnt st) (s_matches st) (s_pos st) (s_seq st) (s_out st ++ [(p, v)])).

(** if (dest) matches++; *)
Definition matched (dest : Z) : SM D () := λ st,
  Ok (inl (), if dest =? 0 then st else Sst (s_f st) (s_cnt st) (s_matches st + 1) (s_pos st) (s_seq st) (s_out st)).

(** ** The input *)

Definition get : SM D Z := λ st,
  let '(f, c) := getc_unlocked (s_f st) in
  Ok (inl c, Sst f (if c =? EOF then s_cnt st else u64 (s_cnt st + 1)) (s_matches st) (s_pos st) (s_seq st) (s_out st)).

(** The byte is still in the buffer; the pointer moves back. *)
Definition back (c : Z) (f : FILE D) : FILE D :=
  match f_r f with Some (pos, u) => set_r (Some ((pos - 1)%nat, c :: u)) f | None => f end.

Definition unget (c : Z) : SM D () := λ st,
  Ok (inl (), if c =? EOF then st else Sst (back c (s_f st)) (u64 (s_cnt st - 1)) (s_matches st) (s_pos st) (s_seq st) (s_out st)).

(** c = w ? get(in) : EOF *)
Definition get_if (w : Z) : SM D Z := if w =? 0 then mret EOF else get.

(** while (isspace(c = get(&in))) ; *)
Fixpoint skip_space (fuel : nat) : SM D Z :=
  match fuel with
  | O => trap_ Fuel
  | S fuel => c ← get; if isspace c then skip_space fuel else mret c
  end.

(** ** Numbers *)

Definition cb_put (b : cbuf) (c : Z) : cbuf :=
  if cb_cap b <=? Z.of_nat (length (cb_s b)) + 1 then
    let nc := u64 (cb_cap b * 2) in
    if alloc nc then Cbuf (cb_s b ++ [u8 c]) nc (cb_oom b) else Cbuf (cb_s b) (cb_cap b) true
  else Cbuf (cb_s b ++ [u8 c]) (cb_cap b) (cb_oom b).

Definition is_dig (c : Z) : bool := u32 (u32 c - 48) <? 10.
Definition hexdig (c : Z) : bool := is_dig c || (u32 (u32 (Z.lor c 32) - 97) <? 6).
Definition is_sign (c : Z) : bool := (c =? 43) || (c =? 45).

(** The digits of scan_int: the buffer, whether there was a digit, and the
    character that ended them. *)
Fixpoint int_digits (fuel : nat) (base : Z) (b : cbuf) (w c : Z) (digits : bool) : SM D (cbuf * bool * Z) :=
  if w =? 0 then mret (b, digits, c)
  else
    match fuel with
    | O => trap_ Fuel
    | S fuel =>
        if base <=? Strtol.digit_val c then mret (b, digits, c)
        else c' ← get; int_digits fuel base (cb_put b c) (w - 1) c' true
    end.

(** A sign in front. *)
Definition sign_of (b : cbuf) (w : Z) : SM D (cbuf * Z * Z) :=
  c ← get;
  if is_sign c && negb (w =? 0) then c' ← get; mret (cb_put b c, w - 1, c') else mret (b, w, c).

(** A base prefix: inr for the return in the middle. *)
Definition int_prefix (b : cbuf) (w c base : Z) : SM D (cbuf * Z * Z * Z * bool + cbuf) :=
  if ((base =? 0) || (base =? 16)) && (c =? 48) && negb (w =? 0) then
    let b := cb_put b c in
    let w := w - 1 in
    c ← get;
    if (Z.lor c 32 =? 120) && negb (w =? 0) then
      let b := cb_put b c in
      let w := w - 1 in
      c ← get;
      if negb (negb (w =? 0) && hexdig c) then unget c;; mret (inr b)
      else mret (inl (b, w, c, 16, false))
    else mret (inl (b, w, c, if base =? 0 then 8 else base, true))
  else mret (inl (b, w, c, base, false)).

Definition scan_int (fuel : nat) (b : cbuf) (w base : Z) : SM D (cbuf * Z) :=
  '(b, w, c) ← sign_of b w;
  r ← int_prefix b w c base;
  match r with
  | inr b => mret (b, 16)
  | inl (b, w, c, base, digits) =>
      let base := if base =? 0 then 10 else base in
      '(b, digits, c) ← int_digits fuel base b w c digits;
      unget c;;
      mret (b, if (digits : bool) then base else -1)
  end.

(** The buffer, the width left and the result; [some] is i != 0. *)
Fixpoint match_word (b : cbuf) (w : Z) (word : list Z) (some : bool) : SM D (cbuf * Z * Z) :=
  match word with
  | [] => mret (b, w, 1)
  | x :: word =>
      c ← get_if w;
      if (c =? EOF) || negb (Z.lor c 32 =? x) then
        (if w =? 0 then mret () else unget c);; mret (b, w, if some then -1 else 0)
      else match_word (cb_put b c) (w - 1) word true
  end.

(** The characters after nan( *)
Fixpoint nan_chars (fuel : nat) (b : cbuf) (w : Z) : SM D cbuf :=
  match fuel with
  | O => trap_ Fuel
  | S fuel =>
      c ← get_if w;
      if c =? 41 then mret (cb_put b c)
      else if (c =? EOF) || negb (isalnum c || (c =? 95)) then unget c;; mret b
      else nan_chars fuel (cb_put b c) (w - 1)
  end.

(** inf or infinity; the i is in the buffer. The result is 0 or -1. *)
Definition scan_inf (b : cbuf) (w : Z) : SM D (cbuf * Z) :=
  '(b, w, r) ← match_word b w (lit "nf") false;
  if negb (r =? 1) then mret (b, -1)
  else
    c ← get_if w;
    if negb (Z.lor c 32 =? 105) then (if w =? 0 then mret () else unget c);; mret (b, 0)
    else
      '(b, w, r) ← match_word (cb_put b c) (w - 1) (lit "nity") false;
      mret (b, if r =? 1 then 0 else -1).

Definition scan_nan (fuel : nat) (b : cbuf) (w : Z) : SM D (cbuf * Z) :=
  '(b, w, r) ← match_word b w (lit "an") false;
  if negb (r =? 1) then mret (b, -1)
  else
    c ← get_if w;
    if negb (c =? 40) then (if w =? 0 then mret () else unget c);; mret (b, 0)
    else b ← nan_chars fuel (cb_put b c) (w - 1); mret (b, 0).

(** The mantissa after its prefix. *)
Fixpoint mant_digits (fuel : nat) (hex : bool) (b : cbuf) (w c : Z) (dot digits : bool) : SM D (cbuf * Z * Z * bool) :=
  if w =? 0 then mret (b, w, c, digits)
  else
    match fuel with
    | O => trap_ Fuel
    | S fuel =>
        if (c =? 46) && negb dot then c' ← get; mant_digits fuel hex (cb_put b c) (w - 1) c' true digits
        else if (if hex then hexdig c else is_dig c) then c' ← get; mant_digits fuel hex (cb_put b c) (w - 1) c' dot true
        else mret (b, w, c, digits)
    end.

Fixpoint exp_digits (fuel : nat) (b : cbuf) (w c : Z) : SM D (cbuf * Z) :=
  if negb (w =? 0) && is_dig c then
    match fuel with
    | O => trap_ Fuel
    | S fuel => c' ← get; exp_digits fuel (cb_put b c) (w - 1) c'
    end
  else mret (b, c).

(** The exponent; its letter is [c]. *)
Definition scan_exp (fuel : nat) (b : cbuf) (w c : Z) : SM D cbuf :=
  let b := cb_put b c in
  let w := w - 1 in
  c ← get_if w;
  '(b, w, c) ← (if is_sign c && negb (w =? 0) then c' ← get_if (w - 1); mret (cb_put b c, w - 1, c') else mret (b, w, c));
  '(b, c) ← exp_digits fuel b w c;
  unget c;; mret b.

(** A leading 0 or 0x: hex and digits. *)
Definition float_prefix (b : cbuf) (w c : Z) : SM D (cbuf * Z * Z * bool * bool) :=
  if (c =? 48) && negb (w =? 0) then
    let b := cb_put b c in
    let w := w - 1 in
    c ← get;
    if (Z.lor c 32 =? 120) && negb (w =? 0) then c' ← get; mret (cb_put b c, w - 1, c', true, false)
    else mret (b, w, c, false, true)
  else mret (b, w, c, false, false).

Definition scan_float (fuel : nat) (b : cbuf) (w : Z) : SM D (cbuf * Z) :=
  '(b, w, c) ← sign_of b w;
  if negb (w =? 0) && (Z.lor c 32 =? 105) then scan_inf (cb_put b c) (w - 1)
  else if negb (w =? 0) && (Z.lor c 32 =? 110) then scan_nan fuel (cb_put b c) (w - 1)
  else
    '(b, w, c, hex, digits) ← float_prefix b w c;
    '(b, w, c, digits) ← mant_digits fuel hex b w c false digits;
    if negb digits then unget c;; mret (b, if hex && (w =? 0) then 0 else -1)
    else if negb (w =? 0) && (Z.lor c 32 =? (if (hex : bool) then 112 else 101)) then b ← scan_exp fuel b w c; mret (b, 0)
    else unget c;; mret (b, 0).

(** ** Text *)

Definition sd_put (d : sdest) (c : Z) : sdest :=
  if d_fail d then d
  else
    let grow := d_alloc d && (d_cap d <=? Z.of_nat (length (d_l d)) + 1) in
    let nc := if d_cap d =? 0 then 32 else u64 (d_cap d * 2) in
    if grow && negb (alloc (nc * (if d_wide d then 4 else 1))) then Sdest (d_l d) (d_cap d) (d_wide d) (d_alloc d) true (d_st d)
    else Sdest (d_l d ++ [if d_wide d then c else u8 c]) (if grow then nc else d_cap d) (d_wide d) (d_alloc d) false (d_st d).

(** One byte: None for -1. *)
Definition sd_byte (d : sdest) (c errno : Z) : res (option sdest) :=
  if negb (d_wide d) then Ok (Some (sd_put d c))
  else
    '(r, wc, ms, _) ← mbrtowc (write ∅ 4096 [u8 c; 0; 0; 0; 0; 0; 0; 0]) 4096 1 (d_st d) errno;
    let d := Sdest (d_l d) (d_cap d) (d_wide d) (d_alloc d) (d_fail d) ms in
    if r =? ILSEQ then Ok None
    else if negb (r =? INCOMPLETE) then Ok (Some (sd_put d (default 0 wc)))
    else Ok (Some d).

Definition init (d : sdest) : bool := mbsinit (Some (d_st d)).

(** The loop over the field: the destination, the count, the last character;
    None for the jump to fail_alloc after a bad byte. *)
Fixpoint field (fuel : nat) (is_c : bool) (set : list bool) (width got : Z) (d : sdest) (c : Z) : SM D (sdest * option (Z * Z)) :=
  if got <? width then
    match fuel with
    | O => trap_ Fuel
    | S fuel =>
        c ← get;
        if c =? EOF then mret (d, Some (got, c))
        else if negb is_c && negb (set_at set c) then unget c;; mret (d, Some (got, c))
        else
          st ← gets;
          r ← lift (sd_byte d c (f_errno (s_f st)));
          match r with
          | None => errno_is Multibyte.EILSEQ;; mret (d, None)
          | Some d => field fuel is_c set width (if init d then got + 1 else got) d c
          end
    end
  else mret (d, Some (got, c)).

(** What the elements become in the destination. *)
Definition deliver (dest : Z) (d : sdest) : SM D () :=
  if d_alloc d then mret () else store dest (if d_wide d then StWide (d_l d) else StBytes (d_l d)).

(** fail_alloc and input_fail_alloc *)
Definition fail_alloc {A} (dest : Z) (d : sdest) (l : label) : SM D A := deliver dest d;; stop l.

(** A text conversion after its set is known. *)
Definition text_conv (fuel : nat) (is_c wide al : bool) (set : list bool) (width dest : Z) : SM D () :=
  let d := Sdest [] 0 wide (al && negb (dest =? 0)) false st0 in
  '(d, r) ← field fuel is_c set width 0 d 0;
  match r with
  | None => fail_alloc dest d Done
  | Some (got, c) =>
      if (got =? 0) && negb (init d) then fail_alloc dest d Done
      else if got =? 0 then fail_alloc dest d (if c =? EOF then Input_fail else Done)
      else if negb (init d) then fail_alloc dest d Done
      else
        let d := if is_c then d else sd_put d 0 in
        if d_fail d then errno_is ENOMEM;; fail_alloc dest d Done
        else
          (if d_alloc d then store dest (StNew wide (d_l d)) else deliver dest d);;
          matched dest
  end.

Definition store_int (dest : Z) (sz : size) (v : Z) : SM D () :=
  store dest (StInt sz (match sz with S_HH => s8 v | S_H => swrap 16 v | S_INT => s32 v | S_L | S_LL | S_BIGL => s64 v end)).

(** strtoimax or strtoumax of the buffer. *)
Definition int_value (signed : bool) (b : cbuf) (base : Z) : SM D Z :=
  st ← gets;
  '(v, _, e) ← lift ((if signed then strtoimax else strtoumax) (cb_mem b) 4096 base (f_errno (s_f st)));
  errno_is e;; mret (u64 v).

Definition int_conv (fuel : nat) (t : Z) (sz : size) (width dest : Z) : SM D () :=
  let base := if (t =? 100) || (t =? 117) then 10 else if t =? 111 then 8 else if t =? 105 then 0 else 16 in
  '(b, base) ← scan_int fuel cb_init width base;
  if (base <? 0) || cb_oom b then stop Done
  else
    v ← int_value ((t =? 100) || (t =? 105)) b base;
    if t =? 112 then store dest (StPtr v) else store_int dest sz v.

(** ERANGE where the parser reports it. *)
Definition float_errno (er : bool) : SM D () := if er then errno_is ERANGE else mret ().

Definition float_conv (fuel : nat) (sz : size) (width dest : Z) : SM D () :=
  '(b, r) ← scan_float fuel cb_init width;
  if (r <? 0) || cb_oom b then stop Done
  else if dest =? 0 then mret ()
  else
    match sz with
    | S_BIGL => '(x, _, er) ← lift (strtold (cb_s b)); float_errno er;; store dest (StLdbl x)
    | S_L => '(x, _, er) ← lift (strtod (cb_s b)); float_errno er;; store dest (StDbl x)
    | _ => '(x, _, er) ← lift (strtof (cb_s b)); float_errno er;; store dest (StFlt x)
    end.
End Scan.

(** ** The format *)

Section Core.
Context {D : Type} `{!Device D}.
Context (alloc : Z → bool) (fuel : nat) (fmt ap : list Z).

(** The byte at an index of the format; the terminator is at its end. *)
Definition fmt_at (i : nat) : res Z := if (i <=? length fmt)%nat then Ok (nth i fmt 0) else Trap Segv.
Definition at_ (i : nat) : SM D Z := lift (fmt_at i).

(** The digits of a number in the format: the value and the index behind. *)
Fixpoint digits_while (n : nat) (step : Z → Z → option Z) (v : Z) (i : nat) : SM D (Z * nat) :=
  match n with
  | O => trap_ Fuel
  | S n =>
      c ← at_ i;
      if is_dig c then match step v (c - 48) with Some v => digits_while n step v (S i) | None => mret (v, i) end
      else mret (v, i)
  end.

Definition pos_step (v d : Z) : option Z := if v <? 10000 then Some (v * 10 + d) else None.
Definition width_step (v d : Z) : option Z := Some (if (SIZE_MAX - d) / 10 <? v then SIZE_MAX else v * 10 + d).

Definition set_pos (p : Z) : SM D () := λ st, Ok (inl (), Sst (s_f st) (s_cnt st) (s_matches st) p (s_seq st) (s_out st)).

Definition va_arg : SM D Z := λ st,
  match s_seq st with p :: l => Ok (inl p, Sst (s_f st) (s_cnt st) (s_matches st) (s_pos st) l (s_out st)) | [] => Trap Ub end.

(** arg_n; n is not 0. *)
Definition arg_n (n : Z) : SM D Z := match ap !! (Z.to_nat n - 1)%nat with Some p => mret p | None => trap_ Ub end.

(** %n$: the destination and the index behind. *)
Definition position (suppress : bool) (i : nat) : SM D (Z * nat) :=
  c ← at_ i;
  if negb suppress && is_dig c then
    '(n, q) ← digits_while (S (S (length fmt))) pos_step 0 i;
    c ← at_ q;
    if c =? 36 then
      st ← gets;
      if (n =? 0) || (s_pos st <? 0) then stop Inval
      else set_pos 1;; p ← arg_n n; mret (p, S q)
    else mret (0, i)
  else mret (0, i).

Definition length_mod (i : nat) : SM D (size * nat) :=
  c ← at_ i;
  if c =? 104 then (c' ← at_ (S i); mret (if c' =? 104 then (S_HH, S (S i)) else (S_H, S i)))
  else if c =? 108 then (c' ← at_ (S i); mret (if c' =? 108 then (S_LL, S (S i)) else (S_L, S i)))
  else if c =? 113 then mret (S_LL, S i)
  else if c =? 76 then mret (S_BIGL, S i)
  else if (c =? 106) || (c =? 122) || (c =? 116) then mret (S_L, S i)
  else mret (S_INT, i).

(** The members of a bracket expression, up to its end. *)
Fixpoint set_members (n : nat) (v : bool) (set : list bool) (i : nat) : SM D (list bool * nat) :=
  match n with
  | O => trap_ Fuel
  | S n =>
      c ← at_ i;
      if c =? 93 then mret (set, i)
      else if c =? 0 then stop Inval
      else
        range ← (if c =? 45 then
                   next ← at_ (S i);
                   prev ← at_ (i - 1);
                   mret (if negb (next =? 93) && negb (prev =? 91) && negb (prev =? 94) then Some (prev, next) else None)
                 else mret None);
        match range with
        | Some (a, b) => set_members n v (<[Z.to_nat b := v]> (set_range set a b v)) (S (S i))
        | None => set_members n v (<[Z.to_nat c := v]> set) (S i)
        end
  end.

(** [i] is behind the bracket. *)
Definition bracket (i : nat) : SM D (list bool * nat) :=
  c ← at_ i;
  let invert := c =? 94 in
  let i := if invert then S i else i in
  let set := replicate 256 invert in
  c ← at_ i;
  let '(set, i) := if c =? 93 then (<[93%nat := negb invert]> set, S i) else (set, i) in
  set_members (S (S (length fmt))) (negb invert) set i.

(** The loop that skips white space before a conversion. *)
Definition lead_space (t : Z) : SM D () :=
  if (t =? 91) || (t =? 99) || (t =? 110) || (t =? 67) then mret ()
  else c ← skip_space fuel; unget c;; (if c =? EOF then stop Input_fail else mret ()).

Definition one_of (c : Z) (set : list Z) : bool := existsb (Z.eqb c) set.

(** A conversion specification: [i] is behind the percent sign; the result is
    the index of its last character. *)
Definition directive (i : nat) : SM D nat :=
  c ← at_ i;
  let suppress := c =? 42 in
  let i := if suppress then S i else i in
  '(dest, i) ← position suppress i;
  '(width, j) ← digits_while (S (S (length fmt))) width_step 0 i;
  let have_width := negb (j =? i)%nat in
  if have_width && (width =? 0) then stop Inval
  else
    c ← at_ j;
    let al := c =? 109 in
    '(sz, i) ← length_mod (if al then S j else j);
    t ← at_ i;
    if t =? 0 then stop Inval
    else
      dest ←
        (if negb suppress && (dest =? 0) && negb (t =? 37) then
           st ← gets;
           if 0 <? s_pos st then stop Inval else set_pos (-1);; va_arg
         else mret dest);
      if al && negb (one_of t (lit "sc[")) then stop Inval
      else
        let dest := if suppress then 0 else dest in
        lead_space t;;
        if t =? 110 then st ← gets; store_int dest sz (s_cnt st);; mret i
        else if one_of t (lit "cCsS[") then
          let wide := bool_decide (sz = S_L) || (t =? 67) || (t =? 83) in
          let is_c := (t =? 99) || (t =? 67) in
          '(set, i) ← (if t =? 91 then bracket (S i) else mret (word_set, i));
          text_conv alloc fuel is_c wide al set (if have_width then width else if is_c then 1 else SIZE_MAX) dest;;
          mret i
        else
          let width := if have_width then width else SIZE_MAX in
          (if one_of t (lit "diuoxXp") then int_conv alloc fuel t sz width dest
           else if one_of t (lit "aAeEfFgG") then float_conv alloc fuel sz width dest
           else stop Inval);;
          matched dest;;
          mret i.

(** while (isspace(p[1])) p++; *)
Fixpoint skip_fmt (n : nat) (i : nat) : SM D nat :=
  match n with
  | O => trap_ Fuel
  | S n => c ← at_ (S i); if isspace c then skip_fmt n (S i) else mret i
  end.

(** A literal character, or %%: [c] is what was read. *)
Definition literal (ch c : Z) : SM D () :=
  if negb (c =? ch) then unget c;; stop (if c =? EOF then Input_fail else Done) else mret ().

(** One turn of the loop; the result is the index before the increment. *)
Definition turn (i : nat) (ch : Z) : SM D nat :=
  if isspace ch then i ← skip_fmt (S (length fmt)) i; c ← skip_space fuel; unget c;; mret i
  else
    next ← at_ (S i);
    if negb (ch =? 37) then c ← get; literal ch c;; mret i
    else if next =? 37 then c ← skip_space fuel; literal 37 c;; mret (S i)
    else directive (S i).

Fixpoint core_loop (n : nat) (i : nat) : SM D () :=
  match n with
  | O => trap_ Fuel
  | S n =>
      ch ← at_ i;
      if ch =? 0 then mret ()
      else i ← turn i ch; core_loop n (S i)
  end.
End Core.

(** ** The entry points *)

(** The stream, the result and the stores. *)
Definition vfscanf {D} `{!Device D} (alloc : Z → bool) (fuel : nat) (f : FILE D) (fmt ap : list Z) : res (FILE D * Z * list (Z * sval)) :=
  let f := match f_r f with None => fst (__toread f) | Some _ => f end in
  match f_r f with
  | None => Ok (f, EOF, [])
  | Some _ =>
      '(r, st) ← core_loop alloc fuel fmt ap (S (length fmt)) 0 (Sst f 0 0 0 ap []);
      let m := s_matches st in
      Ok (match r with
          | inl _ | inr Done => (s_f st, m, s_out st)
          | inr Input_fail => (s_f st, if m =? 0 then EOF else m, s_out st)
          | inr Inval => (set_errno Stdio.EINVAL (s_f st), if m =? 0 then EOF else m, s_out st)
          end)
  end.

(** The variable arguments are the list of pointers; vscanf and scanf are given
    stdin. *)
Definition fscanf {D} `{!Device D} (alloc : Z → bool) (fuel : nat) (f : FILE D) (fmt args : list Z) := vfscanf alloc fuel f fmt args.
Definition vscanf {D} `{!Device D} (alloc : Z → bool) (fuel : nat) (stdin : FILE D) (fmt ap : list Z) := vfscanf alloc fuel stdin fmt ap.
Definition scanf {D} `{!Device D} (alloc : Z → bool) (fuel : nat) (stdin : FILE D) (fmt args : list Z) := vfscanf alloc fuel stdin fmt args.

(** A string as the buffer of a stream; reading more is the end. The stream is
    not written and not positioned. *)
Record str := Str { }.

Definition str_read (f : FILE str) (len : nat) : FILE str * list Z := (set_eof true f, []).

#[export] Instance str_device : Device str := {
  f_write f _ := (set_errno EBADF (w_fail f), 0%nat); f_read := str_read; f_seek f _ _ := (set_errno EBADF f, -1); isatty _ := false
}.

Definition vsscanf (alloc : Z → bool) (s fmt ap : list Z) : res (FILE str * Z * list (Z * sval)) :=
  let f := __file_init (-1) false true UNGET (Str) in
  vfscanf alloc (S (S (length s))) (set_bufsize 0 (set_r (Some (UNGET, s)) f)) fmt ap.

Definition sscanf (alloc : Z → bool) (s fmt args : list Z) : res (FILE str * Z * list (Z * sval)) := vsscanf alloc s fmt args.
