(* ===== verification/Scanfspec.v ===== *)
(** * scanf reads what printf prints

    The functions of Scanf.v on a string, as a calculus over what is left of
    the input; then the composition with formatted output (Printfout.v), the
    integer parser (Strtol.v) and the floating-point parser (Strtodspec.v). *)
From S2P Require Import Prelude CMem Lit Ctype StrFns Strtol Fpround Strtod Strtodspec Stdio Printf Printfout Printfdec Printffloat Scanf.

#[local] Existing Instances Scanf.sm_ret Scanf.sm_bind.
#[local] Abbreviation EOF := Stdio.EOF.

(** ** The input that is left *)

(** A stream that reads a string, with [u] to come. *)
Definition reads (f : FILE str) (u : list Z) : Prop := (∃ pos, f_r f = Some (pos, u)) ∧ f_nord f = false ∧ f_w f = None.

Lemma uflow_end f : reads f [] → ∃ f', __uflow f = (f', EOF) ∧ reads f' [] ∧ f_errno f' = f_errno f.
Proof.
  intros ((pos & Hr) & Hn & Hw). unfold __uflow, __toread. set (f1 := if f_mode f =? 0 then set_mode (-1) f else f).
  assert (f_r f1 = Some (pos, []) ∧ f_nord f1 = false ∧ f_w f1 = None ∧ f_errno f1 = f_errno f) as (R & N & W & E) by (unfold f1; by destruct (f_mode f =? 0)).
  clearbody f1. unfold pending. rewrite W. cbn [length Nat.eqb negb]. cbn [set_w f_nord f_r f_eof]. rewrite N. cbn [f_r set_w]. rewrite R. cbn [f_eof set_w].
  destruct (f_eof f1).
  - eexists. split; [done|]. split; [|done]. split; [by eexists | done].
  - cbn [f_read str_device str_read]. eexists. split; [done|]. split; [|done]. split; [by eexists | done].
Qed.

Lemma getc_end f : reads f [] → ∃ f', getc_unlocked f = (f', EOF) ∧ reads f' [] ∧ f_errno f' = f_errno f.
Proof. intros H. unfold getc_unlocked, unread. destruct H as ((pos & Hr) & H). rewrite Hr. apply uflow_end. by split; [exists pos|]. Qed.

Lemma getc_next f c u : reads f (c :: u) → ∃ f', getc_unlocked f = (f', c) ∧ reads f' u ∧ f_errno f' = f_errno f.
Proof.
  intros ((pos & Hr) & Hn & Hw). unfold getc_unlocked, unread, r_take. rewrite Hr. eexists. split; [done|]. split; [|done]. split; [by eexists | done].
Qed.

Lemma back_reads f c u : reads f u → reads (back c f) (c :: u).
Proof. intros ((pos & Hr) & Hn & Hw). unfold back. rewrite Hr. split; [by eexists | done]. Qed.

(** What the state of vfscanf stands for: the input left (of [total] bytes),
    the counters, the arguments left and the stores. *)
Record view := V { v_u : list Z; v_m : Z; v_pos : Z; v_seq : list Z; v_out : list (Z * sval) }.

Section Calculus.
Context (total : Z) (Htotal : 0 <= total < 2 ^ 64).

Record shows (st : sst str) (v : view) : Prop := {
  sh_u : reads (s_f st) (v_u v);
  sh_cnt : s_cnt st = total - Z.of_nat (length (v_u v)) ∧ Z.of_nat (length (v_u v)) <= total;
  sh_m : s_matches st = v_m v;
  sh_pos : s_pos st = v_pos v;
  sh_seq : s_seq st = v_seq v;
  sh_out : s_out st = v_out v;
}.

(** [m] returns, with a result and a view that satisfy [Q]. *)
Definition runs {A} (m : SM str A) (v : view) (Q : A + label → view → Prop) : Prop :=
  ∀ st, shows st v → ∃ x st' v', m st = Ok (x, st') ∧ shows st' v' ∧ Q x v'.

Lemma runs_ret {A} (a : A) v Q : Q (inl a) v → runs (mret a) v Q.
Proof using. intros HQ st Hs. by exists (inl a), st, v. Qed.

Lemma runs_stop {A} l v (Q : A + label → view → Prop) : Q (inr l) v → runs (stop l) v Q.
Proof using. intros HQ st Hs. by exists (inr l), st, v. Qed.

Lemma runs_bind {A B} (m : SM str A) (k : A → SM str B) v Q :
  runs m v (λ x v', match x with inl a => runs (k a) v' Q | inr l => Q (inr l) v' end) → runs (m ≫= k) v Q.
Proof using.
  intros Hm st Hs. destruct (Hm st Hs) as ([a|l] & st' & v' & E & Hs' & Hk).
  - destruct (Hk st' Hs') as (x & st2 & v2 & E2 & H2). exists x, st2, v2. unfold mbind, sm_bind. by rewrite E.
  - exists (inr l), st', v'. unfold mbind, sm_bind. by rewrite E.
Qed.

Lemma runs_lift {A} (c : res A) (a : A) v Q : c = Ok a → Q (inl a) v → runs (lift c) v Q.
Proof using. intros -> HQ st Hs. by exists (inl a), st, v. Qed.

Lemma runs_mono {A} (m : SM str A) v (P Q : A + label → view → Prop) : runs m v P → (∀ x v', P x v' → Q x v') → runs m v Q.
Proof using. intros Hm HPQ st Hs. destruct (Hm st Hs) as (x & st' & v' & E & H1 & H2). exists x, st', v'. auto. Qed.

Lemma runs_eq {A} (m m' : SM str A) v Q : (∀ st, m st = m' st) → runs m' v Q → runs m v Q.
Proof using. intros E H st Hs. rewrite E. by apply H. Qed.

Definition with_u (u : list Z) (v : view) : view := V u (v_m v) (v_pos v) (v_seq v) (v_out v).

Lemma runs_get_next c u v Q : v_u v = c :: u → 0 <= c → Q (inl c) (with_u u v) → runs get v Q.
Proof using Htotal.
  intros Hu Hc HQ st [Hr [Hcnt Hle] H1 H2 H3 H4]. rewrite Hu in *. destruct (getc_next _ _ _ Hr) as (f' & E & Hr' & _). unfold get. rewrite E. eexists _, _, (with_u u v). split; [done|]. split; [|done].
  unfold EOF, Stdio.EOF. rewrite (proj2 (Z.eqb_neq c (-1))) by lia. cbn [length] in *. split; cbn; try done. rewrite uwrap_small by lia. lia.
Qed.

Lemma runs_get_end v Q : v_u v = [] → Q (inl EOF) v → runs get v Q.
Proof using.
  intros Hu HQ st [Hr Hcnt H1 H2 H3 H4]. rewrite Hu in *. destruct (getc_end _ Hr) as (f' & E & Hr' & _). unfold get. rewrite E. eexists _, _, v. split; [done|]. split; [|done]. split; cbn; rewrite ?Hu; done.
Qed.

Lemma runs_unget c u v Q : v_u v = u → 0 <= c → Z.of_nat (length u) < total → Q (inl ()) (with_u (c :: u) v) → runs (unget c) v Q.
Proof using Htotal.
  intros Hu Hc Hlt HQ st [Hr [Hcnt Hle] H1 H2 H3 H4]. rewrite Hu in *. unfold unget. eexists _, _, (with_u (c :: u) v). split; [done|]. split; [|done].
  unfold EOF, Stdio.EOF. rewrite (proj2 (Z.eqb_neq c (-1))) by lia. split; cbn [s_f s_cnt s_matches s_pos s_seq s_out with_u v_u v_m v_pos v_seq v_out length]; try done; [by apply back_reads|]. rewrite uwrap_small by lia. lia.
Qed.

Lemma runs_unget_end v Q : Q (inl ()) v → runs (unget EOF) v Q.
Proof using. intros HQ st Hs. by exists (inl ()), st, v. Qed.

Lemma runs_store p x v Q : p ≠ 0 → Q (inl ()) (V (v_u v) (v_m v) (v_pos v) (v_seq v) (v_out v ++ [(p, x)])) → runs (store p x) v Q.
Proof using.
  intros Hp HQ st [Hr Hcnt H1 H2 H3 H4]. unfold store. eexists _, _, _. split; [done|]. split; [|exact HQ]. rewrite (proj2 (Z.eqb_neq _ _)) by done. split; cbn; try done. by rewrite H4.
Qed.

Lemma runs_matched p v Q : p ≠ 0 → Q (inl ()) (V (v_u v) (v_m v + 1) (v_pos v) (v_seq v) (v_out v)) → runs (matched p) v Q.
Proof using.
  intros Hp HQ st [Hr Hcnt H1 H2 H3 H4]. unfold matched. eexists _, _, _. split; [done|]. split; [|exact HQ]. rewrite (proj2 (Z.eqb_neq _ _)) by done. split; cbn; try done. by rewrite H1.
Qed.

Lemma runs_set_pos p v Q : Q (inl ()) (V (v_u v) (v_m v) p (v_seq v) (v_out v)) → runs (set_pos p) v Q.
Proof using. intros HQ st [Hr Hcnt H1 H2 H3 H4]. unfold set_pos. eexists _, _, _. split; [done|]. split; [|exact HQ]. by split. Qed.

Lemma runs_va_arg p l v Q : v_seq v = p :: l → Q (inl p) (V (v_u v) (v_m v) (v_pos v) l (v_out v)) → runs va_arg v Q.
Proof using. intros E HQ st [Hr Hcnt H1 H2 H3 H4]. unfold va_arg. rewrite H3, E. eexists _, _, _. split; [done|]. split; [|exact HQ]. by split. Qed.

Lemma runs_errno e v Q : Q (inl ()) v → runs (errno_is e) v Q.
Proof using. intros HQ st [Hr Hcnt H1 H2 H3 H4]. unfold errno_is. eexists _, _, _. split; [done|]. split; [|exact HQ]. by split. Qed.

Lemma runs_gets {B} (k : sst str → SM str B) v Q : (∀ st, shows st v → runs (k st) v Q) → runs (gets ≫= k) v Q.
Proof using. intros Hk st Hs. destruct (Hk st Hs st Hs) as (x & st' & v' & E & H). exists x, st', v'. split; [exact E | done]. Qed.

Lemma runs_bound {A} (m : SM str A) v Q : (Z.of_nat (length (v_u v)) <= total → runs m v Q) → runs m v Q.
Proof using. intros H st Hs. pose proof (proj2 (sh_cnt _ _ Hs)) as Hb. by apply H. Qed.
End Calculus.

#[local] Arguments mbind : simpl never.

(** Steps through the binds; the bound functions are applied. *)
Ltac rbind := apply runs_bind; cbv beta.

(** ** Numbers *)

(** A collection buffer that has not grown. *)
Definition small (s : list Z) : cbuf := Cbuf s 128 false.

Lemma cb_put_small alloc s c : (length s < 126)%nat → is_byte c → cb_put alloc (small s) c = small (s ++ [c]).
Proof. intros Hs Hc. unfold cb_put, small. cbn [cb_cap cb_s cb_oom]. rewrite (proj2 (Z.leb_gt 128 _)) by lia. by rewrite u8_id. Qed.

Section Numbers.
Context (total : Z) (Htotal : 0 <= total < 2 ^ 64) (alloc : Z → bool).
#[local] Abbreviation runs := (runs total).

(** The next character of a text of bytes. *)
Lemma runs_next t c u0 v Q : v_u v = t → t = c :: u0 → is_byte c → Q (inl c) (with_u u0 v) → runs get v Q.
Proof using Htotal. intros Hv Ht Hc. apply runs_get_next; [done | by rewrite Hv|]. unfold is_byte in Hc. lia. Qed.

Lemma runs_int_digits base x u : is_byte x → base <= Strtol.digit_val x → ∀ ds fuel s w c u0 dg v,
  Forall (λ c, is_byte c ∧ Strtol.digit_val c < base) ds → ds ++ x :: u = c :: u0 → v_u v = u0 → (length ds < fuel)%nat → Z.of_nat (length ds) < w → (length s + length ds <= 126)%nat →
  runs (int_digits alloc fuel base (small s) w c dg) v (λ r v', r = inl (small (s ++ ds), dg || negb (length ds =? 0)%nat, x) ∧ v' = with_u u v).
Proof using Htotal.
  intros Hx Hbx. induction ds as [|d ds IH]; intros fuel s w c u0 dg v Hds Ht Hu Hf Hw Hs; (destruct fuel as [|fuel]; [cbn in Hf; lia|]); cbn [int_digits]; rewrite (proj2 (Z.eqb_neq w 0)) by (cbn in Hw; lia).
  - cbn in Ht. injection Ht as <- <-. rewrite (proj2 (Z.leb_le _ _)) by done. apply runs_ret. rewrite app_nil_r, orb_false_r. split; [done|]. rewrite <- Hu. by destruct v.
  - cbn in Ht. injection Ht as <- <-. apply Forall_cons in Hds as [[Hd Hdb] Hds]. rewrite (proj2 (Z.leb_gt _ _)) by done. rbind.
    assert (∃ c' u1, ds ++ x :: u = c' :: u1 ∧ is_byte c') as (c' & u1 & E & Hc') by (destruct ds as [|d' ds]; [by exists x, u | exists d', (ds ++ x :: u); split; [done|]; by apply Forall_cons in Hds as [[? _] _]]).
    eapply runs_next; [exact Hu | exact E | done|]. cbn [length] in *. rewrite cb_put_small by (done || lia). eapply runs_mono; [apply (IH fuel _ (w - 1) c' u1); [done | done | done | lia | lia | rewrite length_app; cbn; lia]|].
    cbn beta. intros r v' [-> ->]. rewrite <- app_assoc. cbn [app orb negb Nat.eqb]. split; [by rewrite orb_true_r|done].
Qed.

(** An optional sign and the character after it. *)
Lemma runs_sign neg s w c u0 v : is_byte c → is_sign c = false → 0 < w → (length s < 126)%nat → v_u v = (if neg : bool then [45] else []) ++ c :: u0 →
  runs (sign_of alloc (small s) w) v (λ r v', r = inl (small (s ++ if neg then [45] else []), w - Z.b2z neg, c) ∧ v' = with_u u0 v).
Proof using Htotal.
  intros Hc Hcs Hw Hs Hu. unfold sign_of. rbind. destruct neg; cbn [app] in Hu.
  - eapply runs_next; [exact Hu | done | done|]. change (is_sign 45) with true. rewrite (proj2 (Z.eqb_neq w 0)) by lia. cbn [negb andb]. rbind. eapply runs_next; [done | done | done|]. rewrite cb_put_small by done. by apply runs_ret.
  - eapply runs_next; [exact Hu | done | done|]. rewrite Hcs. cbn [andb]. apply runs_ret. cbn [Z.b2z]. by rewrite app_nil_r, Z.sub_0_r.
Qed.

Lemma hex_not_x c : is_byte c → Strtol.digit_val c < 16 → (Z.lor c 32 =? 120) = false.
Proof using.
  intros Hc Hd. pose proof (byte_forall (λ c, (16 <=? Strtol.digit_val c) || negb (Z.lor c 32 =? 120)) ltac:(vm_compute; reflexivity) c Hc) as H. cbn beta in H. rewrite (proj2 (Z.leb_gt _ _)) in H by done. by destruct (Z.lor c 32 =? 120).
Qed.

(** A leading zero of a number without a prefix. *)
Lemma runs_int_prefix base x u ds s w c u0 v : base = 8 ∨ base = 10 ∨ base = 16 → is_byte x → (Z.lor x 32 =? 120) = false →
  Forall (λ c, is_byte c ∧ Strtol.digit_val c < base) ds → ds ++ x :: u = c :: u0 → ds ≠ [] → v_u v = u0 → 0 < w → (length s < 126)%nat →
  runs (int_prefix alloc (small s) w c base) v (λ r v', ∃ k c' u1, (k <= length ds)%nat ∧ drop k ds ++ x :: u = c' :: u1 ∧ r = inl (inl (small (s ++ take k ds), w - Z.of_nat k, c', base, negb (k =? 0)%nat)) ∧ v' = with_u u1 v).
Proof using Htotal.
  intros Hb Hx Hxx Hds Ht Hne Hu Hw Hs. unfold int_prefix. replace (base =? 0) with false by (destruct Hb as [-> | [-> | ->]]; done). cbn [orb].
  destruct ((base =? 16) && (c =? 48) && negb (w =? 0)) eqn:E.
  - apply andb_true_iff in E as [[E1 E2]%andb_true_iff _]. apply Z.eqb_eq in E1, E2. destruct ds as [|d ds]; [done|]. cbn in Ht. injection Ht as <- <-. apply Forall_cons in Hds as [[Hd _] Hds]. rbind.
    assert (∃ c' u1, ds ++ x :: u = c' :: u1 ∧ is_byte c' ∧ (Z.lor c' 32 =? 120) = false) as (c' & u1 & E & Hc' & Hcx).
    { destruct ds as [|d' ds]; [by exists x, u|]. exists d', (ds ++ x :: u). split; [done|]. apply Forall_cons in Hds as [[? ?] _]. split; [done|]. apply hex_not_x; [done | lia]. }
    eapply runs_next; [exact Hu | exact E | done|]. rewrite Hcx. cbn [andb]. apply runs_ret. exists 1%nat, c', u1. rewrite cb_put_small by done. cbn [drop take length negb Nat.eqb]. split; [lia|]. by rewrite drop_0, take_0.
  - apply runs_ret. exists 0%nat, c, u0. rewrite drop_0, take_0, app_nil_r, Z.sub_0_r. split; [lia|]. split; [done|]. split; [done|]. rewrite <- Hu. by destruct v.
Qed.

Lemma runs_scan_int base neg x u ds fuel w v : base = 8 ∨ base = 10 ∨ base = 16 → is_byte x → (Z.lor x 32 =? 120) = false → 36 <= Strtol.digit_val x →
  Forall (λ c, is_byte c ∧ Strtol.digit_val c < base) ds → ds ≠ [] → (length ds < fuel)%nat → 200 < w → (length ds <= 100)%nat → v_u v = (if neg : bool then [45] else []) ++ ds ++ x :: u →
  runs (scan_int alloc fuel cb_init w base) v (λ r v', r = inl (small ((if neg then [45] else []) ++ ds), base) ∧ v' = with_u (x :: u) v).
Proof using Htotal.
  intros Hb Hx Hxx Hxd Hds Hne Hf Hw Hlen Hu. apply runs_bound. intros Hbound. unfold scan_int. rbind. destruct ds as [|d ds0] eqn:Eds; [done|]. rewrite <- Eds in *. assert (ds ++ x :: u = d :: ds0 ++ x :: u) as Et by (by rewrite Eds).
  assert (is_byte d ∧ is_sign d = false) as [Hd Hdsg].
  { rewrite Eds in Hds. apply Forall_cons in Hds as [[H1 H2] _]. split; [done|]. pose proof (byte_forall (λ c, (16 <=? Strtol.digit_val c) || negb (is_sign c)) ltac:(vm_compute; reflexivity) d H1) as H. cbn beta in H. rewrite (proj2 (Z.leb_gt _ _)) in H by lia. by destruct (is_sign d). }
  rewrite Et in Hu. change cb_init with (small []). eapply runs_mono; [eapply (runs_sign neg [] w d (ds0 ++ x :: u)); [done | done | lia | cbn; lia | exact Hu]|]. cbn beta. intros r v1 [-> ->]. rbind. cbn iota.
  set (sg := if neg then [45] else []) in *. assert (length sg <= 1)%nat as Hsg by (unfold sg; destruct neg; cbn; lia). assert (0 <= Z.b2z neg <= 1) as Hn by (destruct neg; cbn; lia).
  eapply runs_mono; [eapply (runs_int_prefix base x u ds ([] ++ sg) (w - Z.b2z neg) d); [done | done | done | done | exact Et | by rewrite Eds | done | lia | cbn; lia]|]. cbn beta.
  intros r v2 (k & c' & u1 & Hk & Ek & -> & ->). cbn iota. replace (base =? 0) with false by (destruct Hb as [-> | [-> | ->]]; done). rbind.
  eapply runs_mono; [eapply (runs_int_digits base x u Hx ltac:(destruct Hb as [-> | [-> | ->]]; lia) (drop k ds)); [by apply Forall_drop | exact Ek | done | rewrite length_drop; lia | rewrite length_drop; lia | rewrite length_drop, length_app, length_take; cbn; lia]|]. cbn beta.
  intros r v3 [-> ->]. cbn iota. rbind. eapply (runs_unget total Htotal x u); [done | unfold is_byte in Hx; lia | |].
  { rewrite Hu, length_app in Hbound. cbn [length] in Hbound. rewrite length_app in Hbound. cbn [length] in Hbound. lia. }
  apply runs_ret. rewrite <- app_assoc, take_drop, length_drop. split; [|by destruct v].
  replace (negb (k =? 0)%nat || negb (length ds - k =? 0)%nat) with true; [done|]. rewrite Eds. cbn [length]. destruct k; done.
Qed.
End Numbers.

(** ** The digits of an integer *)

Definition bdigit (base c : Z) : Prop := is_byte c ∧ 0 < c ∧ Strtol.digit_val c < base ∧ isspace c = false.

Lemma xdigit_val base x : base = 8 ∨ base = 10 ∨ base = 16 → let c := nth (Z.to_nat (x mod base)) (xdigits false) 0 in bdigit base c ∧ Strtol.digit_val c = x mod base.
Proof.
  intros Hb. assert (2 <= base <= 16) as Hb' by lia. pose proof (Z.mod_pos_bound x base ltac:(lia)) as H. set (a := x mod base) in *. clearbody a. cbn zeta.
  assert (∀ a, 0 <= a < 16 → let c := nth (Z.to_nat a) (xdigits false) 0 in (is_byte c ∧ 0 < c) ∧ Strtol.digit_val c = a ∧ isspace c = false) as Hall.
  { clear. intros a Ha c. assert (forallb (λ a, let c := nth (Z.to_nat a) (xdigits false) 0 in (0 <? c) && (c <? 256) && (Strtol.digit_val c =? a) && negb (isspace c)) (seqZ 0 16) = true) as H by (vm_compute; reflexivity).
    rewrite forallb_forall in H. specialize (H a). rewrite <- list_elem_of_In, elem_of_seqZ in H. specialize (H ltac:(lia)). cbn zeta in H. fold c in H. clearbody c. unfold is_byte. repeat (apply andb_true_iff in H as [H ?]). destruct (isspace c); [done|]. split_and!; (lia || done). }
  destruct (Hall a ltac:(lia)) as ((H1 & H2) & H3 & H4). split; [|done]. split_and!; [done | done | lia | done].
Qed.

Lemma fmt_u_loop_base base fuel x acc : base = 8 ∨ base = 10 ∨ base = 16 → 0 <= x < base ^ (Z.of_nat fuel + 1) →
  ∃ ds, fmt_u_loop fuel x base false acc = ds ++ acc ∧ Forall (bdigit base) ds ∧ digits_value base ds = x ∧ (1 <= length ds <= S fuel)%nat.
Proof.
  intros Hb. assert (2 <= base) as Hb2 by lia. revert x acc. induction fuel as [|fuel IH]; intros x acc Hx; cbn [fmt_u_loop]; destruct (xdigit_val base x Hb) as [X1 X2]; cbn zeta in X1, X2; set (c := nth _ _ _) in *; pose proof (Z.mod_pos_bound x base ltac:(lia)) as Hm; pose proof (Z.div_mod x base ltac:(lia)) as Hdm.
  - exists [c]. split; [by destruct (x / base =? 0)|]. rewrite Z.add_0_l, Z.pow_1_r in Hx. rewrite Z.mod_small in X2 by done. split_and!; [by apply Forall_singleton | by unfold digits_value; cbn [foldl]; rewrite X2 | cbn; lia | cbn; lia].
  - destruct (Z.eqb_spec (x / base) 0) as [E|E].
    + exists [c]. split_and!; [done | by apply Forall_singleton | unfold digits_value; cbn [foldl]; rewrite X2; lia | cbn; lia | cbn; lia].
    + destruct (IH (x / base) (c :: acc)) as (ds & E1 & E2 & E3 & E4).
      { split; [apply Z.div_pos; lia|]. apply Z.div_lt_upper_bound; [lia|]. replace (Z.of_nat (S fuel) + 1) with (Z.succ (Z.of_nat fuel + 1)) in Hx by lia. rewrite Z.pow_succ_r in Hx by lia. lia. }
      exists (ds ++ [c]). split_and!; [by rewrite E1, <- app_assoc | apply Forall_app; split; [done | by apply Forall_singleton] | rewrite digits_value_snoc, E3, X2; lia | rewrite length_app; cbn; lia | rewrite length_app; cbn; lia].
Qed.

Lemma fmt_u_base base x : base = 8 ∨ base = 10 ∨ base = 16 → 0 <= x < 2 ^ 64 →
  let ds := fmt_u x base false in Forall (bdigit base) ds ∧ digits_value base ds = x ∧ (1 <= length ds <= 65)%nat.
Proof.
  intros Hb Hx. destruct (fmt_u_loop_base base 64 x [] Hb) as (ds & E1 & E2 & E3 & E4).
  { split; [lia|]. apply Z.lt_le_trans with (2 ^ 64); [lia|]. change (Z.of_nat 64 + 1) with 65. destruct Hb as [-> | [-> | ->]]; vm_compute; discriminate. }
  cbn zeta. unfold fmt_u. by rewrite E1, app_nil_r.
Qed.

(** The buffer holds a string for strtol. *)
Lemma cb_mem_ok s : (length s < 128)%nat → Forall (λ b, 0 < b < 256) s → mem_ok (cb_mem (small s)) ∧ cstr (cb_mem (small s)) 4096 s.
Proof.
  intros Hl Hs. unfold cb_mem, small. cbn [cb_s cb_cap]. set (t := s ++ _). assert (length t = 128%nat) as Ht by (unfold t; rewrite length_app, length_replicate; lia). split.
  - apply mem_ok_block; [lia | done | rewrite Ht; lia | by rewrite Ht|]. apply forallb_forall. intros b Hb%list_elem_of_In. unfold t in Hb. apply elem_of_app in Hb as [Hb|Hb]; [rewrite Forall_forall in Hs; specialize (Hs b Hb); lia|]. apply elem_of_replicate in Hb as [-> _]. done.
  - split; [|done]. intros i x Hi. apply (bytes_write ∅ 4096 t). unfold t. replace (Z.to_nat 128 - length s)%nat with (S (127 - length s)) by lia. cbn [replicate]. rewrite (cons_middle 0), app_assoc. by apply lookup_app_l_Some.
Qed.

(** The number in the buffer. *)
Lemma read_number_digits base neg ds : base = 8 ∨ base = 10 ∨ base = 16 → Forall (bdigit base) ds → ds ≠ [] →
  read_number base ((if neg : bool then [45] else []) ++ ds) = Some (neg, digits_value base ds, length ((if neg then [45] else []) ++ ds)).
Proof.
  intros Hb Hds Hne. destruct ds as [|d ds0] eqn:Eds; [done|]. rewrite <- Eds in *. assert (bdigit base d) as (D1 & D2 & D3 & D4) by (rewrite Eds in Hds; by apply Forall_cons in Hds as [? _]).
  assert (d ≠ 43 ∧ d ≠ 45) as [Dp Dm] by (split; intros ->; [change (Strtol.digit_val 43) with 99 in D3 | change (Strtol.digit_val 45) with 99 in D3]; lia).
  set (sg := if neg then [45] else []). assert (span_len isspace (sg ++ ds) = 0%nat) as Ews by (rewrite Eds; unfold sg; destruct neg; cbn [app span_len]; [done | by rewrite D4]).
  assert (sget (sg ++ ds) 0 = if neg then 45 else d) as Ec by (rewrite Eds; unfold sg; by destruct neg). unfold read_number. rewrite Ews, Ec.
  replace (if ((if neg then 45 else d) =? 43) || ((if neg then 45 else d) =? 45) then 1%nat else 0%nat) with (length sg) by (unfold sg; destruct neg; [done|]; rewrite (proj2 (Z.eqb_neq d 43)), (proj2 (Z.eqb_neq d 45)) by lia; done).
  rewrite Nat.add_0_l, drop_app_length. assert (base_prefix base ds = (base, 0%nat)) as Ep.
  { unfold base_prefix. assert ((Z.lor (sget ds 1) 32 =? 120) = false) as Ex.
    { rewrite Eds. destruct ds0 as [|e ds1]; [done|]. change (sget (d :: e :: ds1) 1) with e. rewrite Eds in Hds. apply Forall_cons in Hds as [_ [(E1 & _ & E3 & _) _]%Forall_cons]. apply hex_not_x; [exact E1 | lia]. }
    rewrite Ex, andb_false_r. cbn [andb]. destruct Hb as [-> | [-> | ->]]; done. }
  rewrite Ep. cbn iota zeta. rewrite Nat.add_0_r, drop_app_length. assert (ndigits base ds = length ds) as En.
  { apply span_len_at; [done | | by left]. rewrite firstn_all. eapply Forall_impl; [exact Hds|]. intros c (_ & _ & H & _). cbn beta. lia. }
  rewrite En, firstn_all, length_app. rewrite decide_False by (rewrite Eds; cbn; lia). f_equal. f_equal. f_equal. destruct neg; [done|]. by apply Z.eqb_neq.
Qed.

Lemma s64_u64 x : s64 (u64 x) = s64 x.
Proof. unfold swrap, uwrap. by rewrite Z.add_mod_idemp_l by lia. Qed.

Lemma strtoimax_strtol m s base e : strtoimax m s base e = strtol m s base e.
Proof. reflexivity. Qed.

Lemma strtoumax_strtoul m s base e : strtoumax m s base e = strtoul m s base e.
Proof. reflexivity. Qed.

Section Conversions.
Context (total : Z) (Htotal : 0 <= total < 2 ^ 64) (alloc : Z → bool) (fuel : nat).
#[local] Abbreviation runs := (runs total).

(** After a conversion: what is left, and one more store. *)
Definition stored (u : list Z) (dest : Z) (x : sval) (v : view) : view := V u (v_m v) (v_pos v) (v_seq v) (v_out v ++ [(dest, x)]).

Lemma runs_int_value signed neg ds base v : base = 8 ∨ base = 10 ∨ base = 16 → Forall (bdigit base) ds → ds ≠ [] → (length ds <= 100)%nat →
  (if signed : bool then - 2 ^ 63 <= signed_value neg (digits_value base ds) < 2 ^ 63 else neg = false ∧ digits_value base ds < 2 ^ 64) →
  runs (int_value signed (small ((if neg : bool then [45] else []) ++ ds)) base) v (λ r v', r = inl (u64 (signed_value neg (digits_value base ds))) ∧ v' = v).
Proof using.
  intros Hb Hds Hne Hlen Hv. set (sg := if neg then [45] else []). assert (Forall (λ b, 0 < b < 256) (sg ++ ds)) as Hby.
  { apply Forall_app; split; [unfold sg; destruct neg; repeat constructor; lia|]. eapply Forall_impl; [exact Hds|]. intros c ([_ H] & H0 & _). cbn beta. lia. }
  destruct (cb_mem_ok (sg ++ ds)) as [Hm Hc]; [rewrite length_app; unfold sg; destruct neg; cbn; lia | done|].
  pose proof (read_number_digits base neg ds Hb Hds Hne) as Hr. fold sg in Hr. unfold int_value. apply runs_gets. intros st _. rbind.
  assert (∃ p e, (if signed then strtoimax else strtoumax) (cb_mem (small (sg ++ ds))) 4096 base (f_errno (s_f st)) = Ok (if signed then signed_value neg (digits_value base ds) else u64 (signed_value neg (digits_value base ds)), p, e)) as (p & e & E).
  { destruct signed.
    - rewrite strtoimax_strtol, (strtol_ok _ _ _ _ _ Hm Hc) by lia. rewrite Hr. cbn zeta. unfold saturate, LONG_MIN, LONG_MAX. rewrite Z.min_r, Z.max_r by lia. eexists _, _. reflexivity.
    - rewrite strtoumax_strtoul, (strtoul_ok _ _ _ _ _ Hm Hc) by lia. rewrite Hr. unfold ULONG_MAX. rewrite decide_True by lia. eexists _, _. reflexivity. }
  eapply runs_lift; [exact E|]. cbn iota. rbind. apply runs_errno. apply runs_ret. split; [|done]. destruct signed; [done|]. f_equal. unfold uwrap. by rewrite Z.mod_mod by lia.
Qed.

Definition base_of (t : Z) : Z := if (t =? 100) || (t =? 117) then 10 else if t =? 111 then 8 else 16.

Lemma runs_int_conv t neg ds u w dest v : t ∈ [100; 117; 111; 120] → Forall (bdigit (base_of t)) ds → ds ≠ [] → (length ds <= 100)%nat → (length ds < fuel)%nat → 200 < w → dest ≠ 0 →
  (if t =? 100 then - 2 ^ 63 <= signed_value neg (digits_value (base_of t) ds) < 2 ^ 63 else neg = false ∧ digits_value (base_of t) ds < 2 ^ 64) →
  v_u v = (if neg : bool then [45] else []) ++ ds ++ 32 :: u →
  runs (int_conv alloc fuel t S_L w dest) v (λ r v', r = inl () ∧ v' = stored (32 :: u) dest (StInt S_L (s64 (signed_value neg (digits_value (base_of t) ds)))) v).
Proof using Htotal.
  intros Ht Hds Hne Hlen Hf Hw Hdest Hv Hu. unfold int_conv. assert (base_of t = 8 ∨ base_of t = 10 ∨ base_of t = 16) as Hb by (unfold base_of; destruct ((t =? 100) || (t =? 117)); [lia|]; destruct (t =? 111); lia).
  replace (if (t =? 100) || (t =? 117) then 10 else if t =? 111 then 8 else if t =? 105 then 0 else 16) with (base_of t) by (repeat (apply elem_of_cons in Ht as [->|Ht]; [done|]); by apply not_elem_of_nil in Ht).
  rbind. eapply runs_mono; [eapply (runs_scan_int total Htotal alloc (base_of t) neg 32 u ds); [done | done | done | by vm_compute | eapply Forall_impl; [exact Hds|]; by intros c (? & _ & ? & _) | done | done | done | done | exact Hu]|].
  cbn beta. intros r v1 [-> ->]. cbn iota. rewrite (proj2 (Z.ltb_ge _ _)) by lia. cbn [orb small cb_oom]. rbind.
  replace ((t =? 100) || (t =? 105)) with (t =? 100) by (repeat (apply elem_of_cons in Ht as [->|Ht]; [done|]); by apply not_elem_of_nil in Ht).
  eapply runs_mono; [eapply (runs_int_value (t =? 100) neg ds); done|]. cbn beta. intros r v2 [-> ->]. cbn iota. replace (t =? 112) with false by (repeat (apply elem_of_cons in Ht as [->|Ht]; [done|]); by apply not_elem_of_nil in Ht).
  unfold store_int. apply runs_store; [done|]. split; [done|]. by rewrite s64_u64.
Qed.
End Conversions.

(** ** Floating-point numbers *)

(** The characters of a mantissa: digits and at most one point. *)
Fixpoint mantissa_chars (dot : bool) (ms : list Z) : Prop :=
  match ms with
  | [] => True
  | c :: ms => digit c ∧ mantissa_chars dot ms ∨ c = 46 ∧ dot = false ∧ mantissa_chars true ms
  end.

Lemma mantissa_digits ms : Forall digit ms → ∀ dot, mantissa_chars dot ms.
Proof. induction 1 as [|c ms Hc _ IH]; intros dot; cbn; [done | by left]. Qed.

Lemma mantissa_byte c ms dot : mantissa_chars dot (c :: ms) → is_byte c.
Proof. cbn. unfold digit, is_byte. intros [[? _]|[-> _]]; lia. Qed.

Lemma scan_dig_digit c : digit c → is_dig c = true.
Proof. unfold digit, is_dig. intros Hc. rewrite (uwrap_small 32 c), uwrap_small by lia. lia. Qed.

Lemma digit_plain c : digit c → is_byte c ∧ is_sign c = false ∧ (Z.lor c 32 =? 105) = false ∧ (Z.lor c 32 =? 110) = false ∧ c ≠ 46 ∧ isspace c = false.
Proof.
  intros Hc. assert (is_byte c) as Hb by (unfold digit, is_byte in *; lia). pose proof (byte_forall (λ c, ((c <? 48) || (57 <? c)) || (negb (is_sign c) && negb (Z.lor c 32 =? 105) && negb (Z.lor c 32 =? 110) && negb (c =? 46) && negb (isspace c))) ltac:(vm_compute; reflexivity) c Hb) as H. cbn beta in H. unfold digit in Hc.
  rewrite (proj2 (Z.ltb_ge c 48)), (proj2 (Z.ltb_ge 57 c)) in H by lia. cbn [orb] in H. repeat (apply andb_true_iff in H as [H ?]). destruct (is_sign c), (Z.lor c 32 =? 105), (Z.lor c 32 =? 110), (isspace c); try done. split; [done|]. split_and!; (done || lia).
Qed.

Section Floats.
Context (total : Z) (Htotal : 0 <= total < 2 ^ 64) (alloc : Z → bool).
#[local] Abbreviation runs := (runs total).

Lemma runs_mant x u : is_byte x → x ≠ 46 → is_dig x = false → ∀ ms fuel s w c u0 dot dg v,
  mantissa_chars dot ms → ms ++ x :: u = c :: u0 → v_u v = u0 → (length ms < fuel)%nat → Z.of_nat (length ms) < w → (length s + length ms <= 126)%nat →
  runs (mant_digits alloc fuel false (small s) w c dot dg) v (λ r v', r = inl (small (s ++ ms), w - Z.of_nat (length ms), x, dg || existsb is_dig ms) ∧ v' = with_u u v).
Proof using Htotal.
  intros Hx Hx1 Hx2. induction ms as [|d ms IH]; intros fuel s w c u0 dot dg v Hms Ht Hu Hf Hw Hs; (destruct fuel as [|fuel]; [cbn in Hf; lia|]); cbn [mant_digits]; rewrite (proj2 (Z.eqb_neq w 0)) by (cbn in Hw; lia).
  - cbn in Ht. injection Ht as <- <-. rewrite (proj2 (Z.eqb_neq x 46)), Hx2 by done. cbn [andb]. apply runs_ret. rewrite app_nil_r. cbn [existsb length Z.of_nat]. rewrite orb_false_r, Z.sub_0_r. split; [done|]. rewrite <- Hu. by destruct v.
  - cbn in Ht. injection Ht as <- <-. pose proof (mantissa_byte _ _ _ Hms) as Hd. cbn [length] in *.
    assert (∀ dot', mantissa_chars dot' ms → ∃ c' u1, ms ++ x :: u = c' :: u1 ∧ is_byte c') as Hnext.
    { intros dot' Hm. destruct ms as [|d' ms]; [by exists x, u | exists d', (ms ++ x :: u); split; [done|]; by eapply mantissa_byte]. }
    assert (∀ dot' dg', mantissa_chars dot' ms → dg' = dg || is_dig d → runs (c' ← get; mant_digits alloc fuel false (cb_put alloc (small s) d) (w - 1) c' dot' dg') v (λ r v', r = inl (small (s ++ d :: ms), w - Z.of_nat (S (length ms)), x, dg || existsb is_dig (d :: ms)) ∧ v' = with_u u v)) as Hgo.
    { intros dot' dg' Hm ->. destruct (Hnext _ Hm) as (c' & u1 & E & Hc'). rbind. eapply (runs_next total Htotal); [exact Hu | exact E | done|]. rewrite cb_put_small by (done || lia).
      eapply runs_mono; [apply (IH fuel _ (w - 1) c' u1); [done | done | done | lia | lia | rewrite length_app; cbn; lia]|]. cbn beta. intros r v' [-> ->]. rewrite <- app_assoc. cbn [app existsb]. rewrite orb_assoc. split; [|done]. by replace (w - 1 - Z.of_nat (length ms)) with (w - Z.of_nat (S (length ms))) by lia. }
    destruct Hms as [[Hd1 Hm]|(-> & -> & Hm)].
    + destruct (digit_plain d Hd1) as (_ & _ & _ & _ & Hn & _). rewrite (proj2 (Z.eqb_neq d 46)), (scan_dig_digit d Hd1) by done. cbn [andb]. apply Hgo; [done|]. by rewrite (scan_dig_digit d Hd1), orb_true_r.
    + cbn [Z.eqb negb andb]. apply Hgo; [done|]. change (is_dig 46) with false. by rewrite orb_false_r.
Qed.

Lemma runs_exp_digits x u : is_byte x → is_dig x = false → ∀ ds fuel s w c u0 v,
  Forall digit ds → ds ++ x :: u = c :: u0 → v_u v = u0 → (length ds < fuel)%nat → Z.of_nat (length ds) < w → (length s + length ds <= 126)%nat →
  runs (exp_digits alloc fuel (small s) w c) v (λ r v', r = inl (small (s ++ ds), x) ∧ v' = with_u u v).
Proof using Htotal.
  intros Hx Hx2. induction ds as [|d ds IH]; intros fuel s w c u0 v Hds Ht Hu Hf Hw Hs; (destruct fuel as [|fuel]; [cbn in Hf; lia|]); cbn [exp_digits]; rewrite (proj2 (Z.eqb_neq w 0)) by (cbn in Hw; lia); cbn [negb andb].
  - cbn in Ht. injection Ht as <- <-. rewrite Hx2. apply runs_ret. rewrite app_nil_r. split; [done|]. rewrite <- Hu. by destruct v.
  - cbn in Ht. injection Ht as <- <-. apply Forall_cons in Hds as [Hd Hds]. rewrite (scan_dig_digit d Hd). cbn [length] in *. rbind.
    assert (∃ c' u1, ds ++ x :: u = c' :: u1 ∧ is_byte c') as (c' & u1 & E & Hc').
    { destruct ds as [|d' ds]; [by exists x, u | exists d', (ds ++ x :: u); split; [done|]; apply Forall_cons in Hds as [H _]; by apply digit_plain]. }
    eapply (runs_next total Htotal); [exact Hu | exact E | done|]. rewrite cb_put_small by (lia || by apply digit_plain).
    eapply runs_mono; [apply (IH fuel _ (w - 1) c' u1); [done | done | done | lia | lia | rewrite length_app; cbn; lia]|]. cbn beta. intros r v' [-> ->]. by rewrite <- app_assoc.
Qed.

Lemma runs_scan_exp es sg ds fuel s w u v : es = 101 :: sg :: ds → sg = 43 ∨ sg = 45 → Forall digit ds → ds ≠ [] → (length ds < fuel)%nat → Z.of_nat (length ds) + 3 < w → (length s + length ds + 2 <= 126)%nat → Z.of_nat (length u) < total →
  v_u v = sg :: ds ++ 32 :: u →
  runs (scan_exp alloc fuel (small s) w 101) v (λ r v', r = inl (small (s ++ es)) ∧ v' = with_u (32 :: u) v).
Proof using Htotal.
  intros -> Hsg Hds Hne Hf Hw Hs Hb Hu. unfold scan_exp. rewrite cb_put_small by (done || lia). rbind. unfold get_if at 1. rewrite (proj2 (Z.eqb_neq (w - 1) 0)) by lia.
  assert (is_byte sg ∧ is_sign sg = true) as [Hsb Hss] by (by destruct Hsg as [-> | ->]). eapply (runs_next total Htotal); [exact Hu | done | done|]. rbind. rewrite Hss. cbn [negb andb]. rbind. unfold get_if. rewrite (proj2 (Z.eqb_neq (w - 1 - 1) 0)) by lia.
  destruct ds as [|d ds0] eqn:Eds; [done|]. rewrite <- Eds in *. assert (is_byte d) as Hd by (rewrite Eds in Hds; apply Forall_cons in Hds as [H _]; by apply digit_plain).
  eapply (runs_next total Htotal _ d (ds0 ++ 32 :: u)); [done | by rewrite Eds | done|]. rewrite cb_put_small by (done || rewrite length_app; cbn; lia). apply runs_ret. cbn iota. rbind.
  eapply runs_mono; [eapply (runs_exp_digits 32 u ltac:(done) ltac:(done) ds); [done | by rewrite Eds | done | lia | lia | rewrite !length_app; cbn; lia]|]. cbn beta. intros r v1 [-> ->]. cbn iota. rbind.
  eapply (runs_unget total Htotal 32 u); [done | lia | done|]. apply runs_ret. rewrite <- !app_assoc. done.
Qed.

(** A leading zero. *)
Lemma runs_float_prefix x u ms s w c u0 v : mantissa_chars false ms → ms ++ x :: u = c :: u0 → ms ≠ [] → is_byte x → (Z.lor x 32 =? 120) = false → v_u v = u0 → 0 < w → (length s < 126)%nat →
  runs (float_prefix alloc (small s) w c) v (λ r v', ∃ k c' u1, (k <= length ms)%nat ∧ drop k ms ++ x :: u = c' :: u1 ∧ mantissa_chars false (drop k ms) ∧ r = inl (small (s ++ take k ms), w - Z.of_nat k, c', false, negb (k =? 0)%nat) ∧ v' = with_u u1 v).
Proof using Htotal.
  intros Hms Ht Hne Hx Hxx Hu Hw Hs. unfold float_prefix. rewrite (proj2 (Z.eqb_neq w 0)) by lia. cbn [negb]. rewrite andb_true_r. destruct (Z.eqb_spec c 48) as [->|Hc].
  - destruct ms as [|d ms]; [done|]. cbn in Ht. injection Ht as -> <-. assert (mantissa_chars false ms) as Hm by (destruct Hms as [[_ H]|(H & _)]; [done | lia]). rbind.
    assert (∃ c' u1, ms ++ x :: u = c' :: u1 ∧ is_byte c' ∧ (Z.lor c' 32 =? 120) = false) as (c' & u1 & E & Hc' & Hcx).
    { destruct ms as [|d' ms]; [by exists x, u|]. exists d', (ms ++ x :: u). split; [done|]. split; [by eapply mantissa_byte|]. destruct Hm as [[Hd' _]|(-> & _)]; [|done]. apply hex_not_x; [by apply digit_plain|]. unfold Strtol.digit_val. rewrite (scan_dig_digit d' Hd' : (u32 (u32 d' - 48) <? 10) = true). unfold digit in Hd'. lia. }
    eapply (runs_next total Htotal); [exact Hu | exact E | done|]. rewrite Hcx. cbn [andb]. apply runs_ret. exists 1%nat, c', u1. rewrite cb_put_small by done. cbn [drop take length negb Nat.eqb]. rewrite drop_0, take_0. split_and!; (lia || done).
  - cbn [andb]. apply runs_ret. exists 0%nat, c, u0. rewrite drop_0, take_0, app_nil_r, Z.sub_0_r. split_and!; [lia | done | done | done|]. rewrite <- Hu. by destruct v.
Qed.

(** A number as %e prints it. *)
Lemma runs_scan_float neg d0 fr sg ds u fuel w v : digit d0 → Forall digit fr → sg = 43 ∨ sg = 45 → Forall digit ds → ds ≠ [] → (length fr + length ds <= 100)%nat → (length fr + length ds + 3 < fuel)%nat → 200 < w →
  let text := number (if neg : bool then [45] else []) [d0] fr (101 :: sg :: ds) in
  v_u v = text ++ 32 :: u →
  runs (scan_float alloc fuel cb_init w) v (λ r v', r = inl (small text, 0) ∧ v' = with_u (32 :: u) v).
Proof using Htotal.
  intros Hd0 Hfr Hsg Hds Hne Hlen Hf Hw text Hu. apply runs_bound. intros Hbound. set (ms := d0 :: if (length fr =? 0)%nat then [] else 46 :: fr). set (sn := if neg then [45] else []) in *.
  assert (text = sn ++ ms ++ 101 :: sg :: ds) as Et by (unfold text, number, ms; by destruct (length fr =? 0)%nat). rewrite Et in *. clear Et text.
  assert (length sn <= 1)%nat as Hsn by (unfold sn; destruct neg; cbn; lia). assert (0 <= Z.b2z neg <= 1) as Hn by (destruct neg; cbn; lia). assert (length ms <= length fr + 2)%nat as Hml by (unfold ms; destruct (length fr =? 0)%nat; cbn; lia).
  assert (mantissa_chars false ms) as Hms. { unfold ms. left. split; [done|]. destruct (length fr =? 0)%nat; cbn; [done|]. right. split; [done|]. split; [done|]. by apply mantissa_digits. }
  assert (ms ≠ []) as Hmn by done. assert (existsb is_dig ms = true) as Hdig by (unfold ms; cbn [existsb]; by rewrite scan_dig_digit). destruct (digit_plain d0 Hd0) as (P1 & P2 & P3 & P4 & _).
  rewrite <- !app_assoc in Hu. cbn [app] in Hu. set (u2 := sg :: ds ++ 32 :: u) in *. unfold scan_float. rbind. change cb_init with (small []).
  eapply runs_mono; [eapply (runs_sign total Htotal alloc neg [] w d0 ((if (length fr =? 0)%nat then [] else 46 :: fr) ++ 101 :: u2)); [done | done | lia | cbn; lia | rewrite Hu; by unfold ms; cbn [app]]|]. cbn beta. fold sn. intros r v1 [-> ->]. cbn iota. rewrite P3, P4, !andb_false_r. rbind.
  assert (ms ++ 101 :: u2 = d0 :: (if (length fr =? 0)%nat then [] else 46 :: fr) ++ 101 :: u2) as Em by done. clearbody ms sn.
  eapply runs_mono; [eapply (runs_float_prefix 101 u2 ms); [done | exact Em | done | done | done | done | lia | cbn; lia]|]. cbn beta. intros r v2 (k & c' & u1 & Hk & Ek & Hmk & -> & ->). cbn iota. rbind.
  eapply runs_mono; [eapply (runs_mant 101 u2 ltac:(done) ltac:(done) ltac:(done) (drop k ms)); [exact Hmk | exact Ek | done | rewrite length_drop; lia | rewrite length_drop; lia | rewrite length_drop, !length_app, length_take; cbn; lia]|]. cbn beta. intros r v3 [-> ->]. cbn iota.
  replace (negb (k =? 0)%nat || existsb is_dig (drop k ms)) with true by (symmetry; destruct k; [rewrite drop_0; by rewrite Hdig | done]). cbn [negb]. rewrite length_drop, (proj2 (Z.eqb_neq (w - Z.b2z neg - Z.of_nat k - Z.of_nat (length ms - k)) 0)) by lia. cbn [negb andb Z.lor Pos.lor Z.eqb]. change (Z.lor 101 32 =? 101) with true. cbn iota. rbind.
  eapply runs_mono; [eapply (runs_scan_exp _ sg ds fuel _ _ u); [reflexivity | done | done | done | lia | lia | rewrite !length_app, length_take, length_drop; cbn; lia | | done]|].
  { rewrite Hu in Hbound. unfold u2 in Hbound. rewrite !length_app in Hbound. cbn [length] in Hbound. rewrite !length_app in Hbound. cbn [length] in Hbound. lia. }
  cbn beta. intros r v4 [-> ->]. cbn iota. apply runs_ret. cbn [app]. rewrite <- !app_assoc. rewrite (app_assoc (take k ms)), take_drop. split; [done|]. by destruct v.
Qed.
End Floats.

(** ** Words *)

Lemma word_set_at c : is_byte c → set_at word_set c = negb (isspace c).
Proof.
  intros Hc. pose proof (byte_forall (λ c, Bool.eqb (set_at word_set c) (negb (isspace c))) ltac:(vm_compute; reflexivity) c Hc) as H. by apply Bool.eqb_prop in H.
Qed.

(** Characters of a word. *)
Definition word_char (c : Z) : Prop := 0 < c < 256 ∧ isspace c = false.

Definition narrow (l : list Z) : sdest := Sdest l 0 false false false Multibyte.st0.

Section Text.
Context (total : Z) (Htotal : 0 <= total < 2 ^ 64) (alloc : Z → bool).
#[local] Abbreviation runs := (runs total).

Lemma sd_put_narrow l c : sd_put alloc (narrow l) c = narrow (l ++ [u8 c]).
Proof using. reflexivity. Qed.

Lemma runs_field ws u : ∀ fuel got l c v, Forall word_char ws → (length ws < fuel)%nat → 0 <= got → got + Z.of_nat (length ws) < SIZE_MAX → Z.of_nat (length u) < total →
  v_u v = ws ++ 32 :: u →
  runs (field alloc fuel false word_set SIZE_MAX got (narrow l) c) v (λ r v', r = inl (narrow (l ++ ws), Some (got + Z.of_nat (length ws), 32)) ∧ v' = with_u (32 :: u) v).
Proof using Htotal.
  induction ws as [|x ws IH]; intros fuel got l c v Hws Hf Hg Hw Hb Hu; (destruct fuel as [|fuel]; [cbn in Hf; lia|]); cbn [field]; rewrite (proj2 (Z.ltb_lt got SIZE_MAX)) by (cbn in Hw; lia); rbind; cbn [app] in Hu.
  - eapply (runs_next total Htotal); [exact Hu | done | done|]. change (32 =? EOF) with false. change (set_at word_set 32) with false. cbn [negb andb]. rbind. eapply (runs_unget total Htotal 32 u); [done | lia | done|]. apply runs_ret. rewrite app_nil_r. cbn [length Z.of_nat]. rewrite Z.add_0_r. done.
  - apply Forall_cons in Hws as [[Hx Hxs] Hws]. assert (is_byte x) as Hxb by (unfold is_byte; lia). cbn [length] in *. eapply (runs_next total Htotal); [exact Hu | done | done|]. rewrite word_set_at, Hxs by done. unfold EOF, Stdio.EOF. rewrite (proj2 (Z.eqb_neq x (-1))) by lia. cbn [negb andb].
    apply runs_gets. intros st _. rbind. eapply runs_lift; [reflexivity|]. rewrite sd_put_narrow, u8_id by done. change (init (narrow (l ++ [x]))) with true. cbn iota.
    eapply runs_mono; [apply (IH fuel (got + 1)); [done | lia | lia | lia | done | done]|]. cbn beta. intros r v' [-> ->]. rewrite <- app_assoc. cbn [app]. split; [|done]. by replace (got + 1 + Z.of_nat (length ws)) with (got + Z.of_nat (S (length ws))) by lia.
Qed.

Lemma runs_text_conv ws u fuel dest v : Forall word_char ws → ws ≠ [] → (length ws < fuel)%nat → Z.of_nat (length ws) < SIZE_MAX → dest ≠ 0 → v_u v = ws ++ 32 :: u →
  runs (text_conv alloc fuel false false false word_set SIZE_MAX dest) v (λ r v', r = inl () ∧ v' = V (32 :: u) (v_m v + 1) (v_pos v) (v_seq v) (v_out v ++ [(dest, StBytes (ws ++ [0]))])).
Proof using Htotal.
  intros Hws Hne Hf Hlen Hd Hu. apply runs_bound. intros Hb. unfold text_conv. rbind. cbn [andb]. eapply runs_mono; [apply (runs_field ws u fuel 0 []); [done | done | lia | lia | rewrite Hu, length_app in Hb; cbn [length] in Hb; lia | done]|]. cbn beta. intros r v1 [-> ->]. cbn iota.
  assert (0 + Z.of_nat (length ws) ≠ 0) as Hz by (destruct ws; [done | cbn; lia]). change (init (narrow ([] ++ ws))) with true. rewrite (proj2 (Z.eqb_neq _ _)) by done. cbn [andb negb app]. rewrite sd_put_narrow. cbn [narrow d_fail d_alloc]. rbind. unfold deliver. cbn [narrow d_alloc d_wide d_l]. apply runs_store; [done|]. by apply runs_matched.
Qed.
End Text.

(** ** Conversion specifications *)

(** The format has the bytes [l] at [i]. *)
Definition spec_at (fmt : list Z) (i : nat) (l : list Z) : Prop := ∀ k c, l !! k = Some c → fmt_at fmt (k + i) = Ok c.

Lemma spec_at_app pre l suf : spec_at (pre ++ l ++ suf) (length pre) l.
Proof.
  intros k c Hk. pose proof (lookup_lt_Some _ _ _ Hk) as Hlt. unfold fmt_at. rewrite !length_app, (proj2 (Nat.leb_le _ _)) by lia. rewrite app_nth2 by lia. replace (k + length pre - length pre)%nat with k by lia. rewrite app_nth1 by lia. f_equal. apply nth_lookup_Some with (d := 0) in Hk. done.
Qed.

Section Directives.
Context (total : Z) (Htotal : 0 <= total < 2 ^ 64) (alloc : Z → bool) (fuel : nat) (fmt ap : list Z).
#[local] Abbreviation runs := (runs total).

Lemma runs_at i c v Q : fmt_at fmt i = Ok c → Q (inl c) v → runs (at_ fmt i) v Q.
Proof using. intros H. unfold at_. by apply runs_lift. Qed.

Lemma runs_no_digits n step x i c v (Q : Z * nat + label → view → Prop) : fmt_at fmt i = Ok c → is_dig c = false → Q (inl (x, i)) v → runs (digits_while fmt (S n) step x i) v Q.
Proof using. intros H Hd HQ. cbn [digits_while]. rbind. eapply runs_at; [exact H|]. rewrite Hd. by apply runs_ret. Qed.

Lemma runs_lead c u v (Q : unit + label → view → Prop) t : t ∉ [91; 99; 110; 67] → v_u v = c :: u → is_byte c → isspace c = false → (0 < fuel)%nat → Q (inl ()) v → runs (lead_space fuel t) v Q.
Proof using Htotal alloc.
  intros Ht Hu Hc Hs Hf HQ. apply runs_bound. intros Hb. unfold lead_space. rewrite !not_elem_of_cons in Ht. rewrite (proj2 (Z.eqb_neq t 91)), (proj2 (Z.eqb_neq t 99)), (proj2 (Z.eqb_neq t 110)), (proj2 (Z.eqb_neq t 67)) by tauto. cbn [orb]. rbind.
  destruct fuel as [|n]; [lia|]. cbn [skip_space]. rbind. eapply (runs_next total Htotal); [exact Hu | done | done|]. rewrite Hs. apply runs_ret. rbind. unfold is_byte in Hc.
  eapply (runs_unget total Htotal c u); [done | lia | rewrite Hu in Hb; cbn [length] in Hb; lia|]. unfold EOF, Stdio.EOF. rewrite (proj2 (Z.eqb_neq c (-1))) by lia. apply runs_ret. replace (with_u (c :: u) (with_u u v)) with v; [done|]. rewrite <- Hu. by destruct v.
Qed.

(** The conversions of %ld, %lu, %lo, %lx and %le. *)
Definition number_conv (t dest : Z) : SM str () := if one_of t (lit "diuoxXp") then int_conv alloc fuel t S_L SIZE_MAX dest else float_conv alloc fuel S_L SIZE_MAX dest.

Lemma runs_directive_l t i c u dest seq x u' v : t ∈ [100; 117; 111; 120; 101] → spec_at fmt i [108; t] → v_u v = c :: u → is_byte c → isspace c = false → (0 < fuel)%nat → v_pos v <= 0 → v_seq v = dest :: seq → dest ≠ 0 →
  (let v0 := V (v_u v) (v_m v) (-1) seq (v_out v) in runs (number_conv t dest) v0 (λ r v', r = inl () ∧ v' = stored u' dest x v0)) →
  runs (directive alloc fuel fmt ap i) v (λ r v', r = inl (S i) ∧ v' = V u' (v_m v + 1) (-1) seq (v_out v ++ [(dest, x)])).
Proof using Htotal.
  intros Ht Hsp Hu Hc Hs Hf Hpos Hseq Hd Hconv. pose proof (Hsp 0%nat 108 eq_refl) as A0. pose proof (Hsp 1%nat t eq_refl) as A1. cbn [Nat.add] in A0, A1.
  assert ((t =? 108) = false ∧ (t =? 0) = false ∧ (t =? 37) = false ∧ (t =? 110) = false ∧ one_of t (lit "cCsS[") = false ∧ (t ∉ [91; 99; 110; 67]) ∧ (one_of t (lit "diuoxXp") || one_of t (lit "aAeEfFgG")) = true) as (T1 & T2 & T3 & T4 & T5 & T6 & T7).
  { repeat (apply elem_of_cons in Ht as [->|Ht]; [split_and!; try done; rewrite !not_elem_of_cons; split_and!; try done; apply not_elem_of_nil|]). by apply not_elem_of_nil in Ht. }
  unfold directive. rbind. eapply runs_at; [exact A0|]. change (108 =? 42) with false. cbn iota. rbind. unfold position. rbind. eapply runs_at; [exact A0|]. change (is_dig 108) with false. cbn [negb andb]. apply runs_ret. rbind.
  eapply runs_no_digits; [exact A0 | done|]. cbn iota. rewrite Nat.eqb_refl. cbn [negb andb]. rbind. eapply runs_at; [exact A0|]. change (108 =? 109) with false. cbn iota. rbind. unfold length_mod. rbind. eapply runs_at; [exact A0|]. change (108 =? 104) with false. change (108 =? 108) with true. cbn iota. rbind. eapply runs_at; [exact A1|]. rewrite T1. apply runs_ret. cbn iota. rbind. eapply runs_at; [exact A1|]. rewrite T2. rbind. rewrite T3. cbn [negb andb Z.eqb].
  apply runs_gets. intros st Hst. rewrite (sh_pos _ _ _ Hst), (proj2 (Z.ltb_ge _ _)) by lia. rbind. apply runs_set_pos. eapply runs_va_arg; [exact Hseq|]. cbn [andb]. rbind. eapply (runs_lead c u); [exact T6 | done | done | done | done|]. rewrite T4, T5. rbind.
  eapply runs_mono.
  { eapply runs_eq; [|apply Hconv]. intros st'. unfold number_conv. destruct (one_of t (lit "diuoxXp")); [done|]. cbn [orb] in T7. by rewrite T7. }
  cbn beta. intros r v' [-> ->]. rbind. apply runs_matched; [done|]. by apply runs_ret.
Qed.

(** %s *)
Lemma runs_directive_s i ws u dest seq v : spec_at fmt i [115] → Forall word_char ws → ws ≠ [] → v_u v = ws ++ 32 :: u → (length ws < fuel)%nat → Z.of_nat (length ws) < SIZE_MAX → v_pos v <= 0 → v_seq v = dest :: seq → dest ≠ 0 →
  runs (directive alloc fuel fmt ap i) v (λ r v', r = inl i ∧ v' = V (32 :: u) (v_m v + 1) (-1) seq (v_out v ++ [(dest, StBytes (ws ++ [0]))])).
Proof using Htotal.
  intros Hsp Hws Hne Hu Hf Hlen Hpos Hseq Hd. pose proof (Hsp 0%nat 115 eq_refl) as A0. cbn [Nat.add] in A0.
  destruct ws as [|x ws0] eqn:Ews; [done|]. rewrite <- Ews in *. assert (word_char x) as [Hx Hxs] by (rewrite Ews in Hws; by apply Forall_cons in Hws as [? _]).
  unfold directive. rbind. eapply runs_at; [exact A0|]. change (115 =? 42) with false. cbn iota. rbind. unfold position. rbind. eapply runs_at; [exact A0|]. change (is_dig 115) with false. cbn [negb andb]. apply runs_ret. rbind.
  eapply runs_no_digits; [exact A0 | done|]. cbn iota. rewrite Nat.eqb_refl. cbn [negb andb]. rbind. eapply runs_at; [exact A0|]. change (115 =? 109) with false. cbn iota. rbind. unfold length_mod. rbind. eapply runs_at; [exact A0|]. cbn -[runs]. apply runs_ret. cbn iota. rbind. eapply runs_at; [exact A0|]. cbn -[runs text_conv lead_space directive va_arg].
  rbind. apply runs_gets. intros st Hst. rewrite (sh_pos _ _ _ Hst), (proj2 (Z.ltb_ge _ _)) by lia. rbind. apply runs_set_pos. eapply runs_va_arg; [exact Hseq|]. rbind. eapply (runs_lead x (ws0 ++ 32 :: u)); [rewrite !not_elem_of_cons; split_and!; (done || apply not_elem_of_nil) | cbn; by rewrite Hu, Ews | unfold is_byte; lia | done | lia|]. rbind. apply runs_ret. cbn iota. rbind.
  eapply runs_mono; [apply (runs_text_conv total Htotal alloc ws u fuel dest); done|]. cbn beta. intros r v' [-> ->]. by apply runs_ret.
Qed.
End Directives.

(** ** What is printed and read *)

(** A value with the conversion it is printed and read by: long integers in
    the three bases, words, and doubles (with 17 digits). *)
Inductive item := Signed (z : Z) | Unsigned (z : Z) | Octal (z : Z) | Hex (z : Z) | Word (w : list Z) | Real (neg : bool) (m e : Z).

Definition item_ok (i : item) : Prop :=
  match i with
  | Signed z => - 2 ^ 63 <= z < 2 ^ 63
  | Unsigned z | Octal z | Hex z => 0 <= z < 2 ^ 64
  | Word w => Forall word_char w ∧ w ≠ []
  | Real _ m e => canon F_DBL m e ∧ e <= emax F_DBL
  end.

Definition item_arg (i : item) : varg :=
  match i with Signed z | Unsigned z | Octal z | Hex z => VInt z | Word w => VStr (Some w) | Real neg m e => VDbl (Num neg (Fin m e)) end.

(** What scanf stores: an unsigned long has the bits of the long. *)
Definition item_value (i : item) : sval :=
  match i with
  | Signed z | Unsigned z | Octal z | Hex z => StInt S_L (s64 z)
  | Word w => StBytes (w ++ [0])
  | Real neg m e => StDbl (Num neg (Fin m e))
  end.

(** The specification for scanf, and for printf; a space follows each. *)
Definition scan_spec (i : item) : list Z :=
  match i with Signed _ => lit "ld" | Unsigned _ => lit "lu" | Octal _ => lit "lo" | Hex _ => lit "lx" | Word _ => lit "s" | Real _ _ _ => lit "le" end.
Definition print_spec (i : item) : list Z := match i with Real _ _ _ => lit ".16e" | _ => scan_spec i end.

Definition scan_format (its : list item) : list Z := concat ((λ i, 37 :: scan_spec i ++ [32]) <$> its).
Definition print_format (its : list item) : list Z := concat ((λ i, 37 :: print_spec i ++ [32]) <$> its).

(** No item is longer than this. *)
Definition item_size (i : item) : Z := match i with Word w => Z.of_nat (length w) | _ => 100 end.

(** The text of an item. *)
Definition text_of (i : item) (t : list Z) : Prop :=
  match i with
  | Signed z => t = (if z <? 0 then [45] else []) ++ fmt_u (Z.abs z) 10 false
  | Unsigned z => t = fmt_u z 10 false
  | Octal z => t = fmt_u z 8 false
  | Hex z => t = fmt_u z 16 false
  | Word w => t = w
  | Real neg m e => ∃ d0 fr x, scientific (d0 :: fr) x 16 m e ∧ t = number (if neg then [45] else []) [d0] fr (exp_str x 101 2)
  end.

(** The first character, which is not white space. *)
Lemma text_head i t : item_ok i → text_of i t → ∃ c t', t = c :: t' ∧ is_byte c ∧ isspace c = false.
Proof.
  assert (∀ base z, base = 8 ∨ base = 10 ∨ base = 16 → 0 <= z < 2 ^ 64 → ∃ c t', fmt_u z base false = c :: t' ∧ is_byte c ∧ isspace c = false) as Hn.
  { intros base z Hb Hz. destruct (fmt_u_base base z Hb Hz) as (Hd & _ & Hl). destruct (fmt_u z base false) as [|c t']; [cbn in Hl; lia|]. apply Forall_cons in Hd as [(H1 & _ & _ & H2) _]. by exists c, t'. }
  destruct i as [z|z|z|z|w|neg m e]; cbn [item_ok text_of]; intros Hi Ht; [| by subst t; apply Hn; auto | by subst t; apply Hn; auto | by subst t; apply Hn; auto | |].
  - destruct (z <? 0); [by subst t; eexists _, _|]. subst t. apply Hn; [auto | lia].
  - subst t. destruct Hi as [Hw Hne]. destruct w as [|c w]; [done|]. apply Forall_cons in Hw as [[H1 H2] _]. exists c, w. split; [done|]. split; [unfold is_byte; lia | done].
  - destruct Ht as (d0 & fr & x & (Hd & _) & ->). apply Forall_cons in Hd as [Hd _]. destruct (digit_plain d0 Hd) as (H1 & _ & _ & _ & _ & H2). destruct neg; cbn; eexists _, _; done.
Qed.

Section Items.
Context (total : Z) (Htotal : 0 <= total < 2 ^ 62) (alloc : Z → bool) (fuel : nat) (Hfuel : total < Z.of_nat fuel) (fmt ap : list Z).
#[local] Abbreviation runs := (runs total).

Lemma runs_real neg m e t u dest v : canon F_DBL m e → e <= emax F_DBL → text_of (Real neg m e) t → dest ≠ 0 → v_u v = t ++ 32 :: u →
  runs (float_conv alloc fuel S_L SIZE_MAX dest) v (λ r v', r = inl () ∧ v' = stored (32 :: u) dest (StDbl (Num neg (Fin m e))) v).
Proof using Htotal Hfuel.
  intros Hc He (d0 & fr & x & Hsc & ->) Hd Hu. apply runs_bound. intros Hb. unfold float_conv. rbind. pose proof Hsc as (Hdig & Hlen & Hx & _). cbn [length] in Hlen. apply Forall_cons in Hdig as [Hd0 Hfr].
  assert (∃ sg ds, exp_str x 101 2 = 101 :: sg :: ds ∧ (sg = 43 ∨ sg = 45) ∧ Forall digit ds ∧ ds ≠ [] ∧ (length ds <= 65)%nat) as (sg & ds & Ees & Hsg & Hds & Hne & Hdl).
  { destruct (fmt_u_ok (Z.abs x) ltac:(lia)) as (H1 & _ & H2). pose proof (exp_str_length x ltac:(lia)) as H3. unfold exp_str in *. eexists _, _. split; [reflexivity|]. split; [destruct (x <? 0); auto|]. split; [apply Forall_app; split; [apply Forall_replicate; unfold digit; lia | done]|]. cbn [length] in H3. split; [|lia]. intros Hz. rewrite Hz in H3. cbn in H3. lia. }
  rewrite Ees in *. eapply runs_mono; [apply (runs_scan_float total ltac:(lia) alloc neg d0 fr sg ds u fuel SIZE_MAX v Hd0 Hfr Hsg Hds Hne ltac:(lia)); [|by vm_compute | exact Hu]|].
  { rewrite Hu in Hb. unfold number in Hb. repeat (rewrite length_app in Hb; cbn [length] in Hb). destruct (length fr =? 0)%nat eqn:E; cbn [length] in Hb; [apply Nat.eqb_eq in E|]; lia. }
  cbn beta. intros r v1 [-> ->]. cbn iota. change (0 <? 0) with false. cbn [orb small cb_oom cb_s]. rewrite (proj2 (Z.eqb_neq _ _)) by done. rbind.
  pose proof (strtod_back neg m e 16 d0 fr x Hc He ltac:(lia) Hsc) as Hback. cbn zeta in Hback. rewrite Ees in Hback. destruct Hback as ([[y n] er] & Ey & -> & _). eapply runs_lift; [exact Ey|]. cbn iota. rbind. unfold float_errno. destruct er; [apply runs_errno | apply runs_ret]; by apply runs_store.
Qed.

(** A conversion specification reads its item. *)
Lemma runs_item i t pos u dest seq v : item_ok i → text_of i t → spec_at fmt pos (scan_spec i) → v_u v = t ++ 32 :: u → v_pos v <= 0 → v_seq v = dest :: seq → dest ≠ 0 →
  runs (directive alloc fuel fmt ap pos) v (λ r v', r = inl (pos + length (scan_spec i) - 1)%nat ∧ v' = V (32 :: u) (v_m v + 1) (-1) seq (v_out v ++ [(dest, item_value i)])).
Proof using Htotal Hfuel.
  intros Hi Ht Hsp Hu Hpos Hseq Hd. apply runs_bound. intros Hb. assert (0 <= total < 2 ^ 64) as Ht64 by lia. destruct (text_head i t Hi Ht) as (c & t' & Et & Hc & Hcs). assert (Z.of_nat (length t) < total) as Htl by (rewrite Hu, length_app in Hb; cbn [length] in Hb; lia).
  assert (∀ neg ds x, x ∈ [100; 117; 111; 120] → scan_spec i = [108; x] → t = (if neg : bool then [45] else []) ++ ds → Forall (bdigit (base_of x)) ds → (1 <= length ds <= 65)%nat →
    (if x =? 100 then - 2 ^ 63 <= signed_value neg (digits_value (base_of x) ds) < 2 ^ 63 else neg = false ∧ digits_value (base_of x) ds < 2 ^ 64) → item_value i = StInt S_L (s64 (signed_value neg (digits_value (base_of x) ds))) →
    runs (directive alloc fuel fmt ap pos) v (λ r v', r = inl (S pos) ∧ v' = V (32 :: u) (v_m v + 1) (-1) seq (v_out v ++ [(dest, item_value i)]))) as Hint.
  { intros neg ds x Hx Es -> Hds Hlen Hr Ev. rewrite Es in Hsp. rewrite length_app in Htl. eapply (runs_directive_l total Ht64 alloc fuel fmt ap x pos c (t' ++ 32 :: u)); [| done | by rewrite Hu, Et | done | done | lia | done | done | done|].
    { apply elem_of_cons in Hx as [->|Hx]; [set_solver|]. set_solver. }
    unfold number_conv. replace (one_of x (lit "diuoxXp")) with true by (repeat (apply elem_of_cons in Hx as [->|Hx]; [done|]); by apply not_elem_of_nil in Hx). rewrite Ev.
    apply runs_int_conv; [done | done | done | by destruct ds; [cbn in Hlen; lia|] | lia | lia | by vm_compute | done | done | by rewrite app_assoc]. }
  destruct i as [z|z|z|z|w|neg m e]; cbn [item_ok text_of scan_spec item_value] in *; change (length (lit "ld")) with 2%nat; change (length (lit "lu")) with 2%nat; change (length (lit "lo")) with 2%nat; change (length (lit "lx")) with 2%nat; change (length (lit "s")) with 1%nat; change (length (lit "le")) with 2%nat; rewrite ?(Nat.add_sub pos 1); try replace (pos + 2 - 1)%nat with (S pos) by lia.
  - destruct (fmt_u_base 10 (Z.abs z) ltac:(lia) ltac:(lia)) as (F1 & F2 & F3). assert (signed_value (z <? 0) (digits_value 10 (fmt_u (Z.abs z) 10 false)) = z) as Es by (rewrite F2; unfold signed_value; destruct (Z.ltb_spec z 0); lia).
    apply (Hint (z <? 0) (fmt_u (Z.abs z) 10 false) 100); [set_solver | done | done | done | done | change (base_of 100) with 10; rewrite Es; exact Hi | change (base_of 100) with 10; by rewrite Es].
  - destruct (fmt_u_base 10 z ltac:(lia) Hi) as (F1 & F2 & F3). apply (Hint false (fmt_u z 10 false) 117); [set_solver | done | done | done | done | change (base_of 117) with 10; rewrite F2; split; [done | lia] | change (base_of 117) with 10; by rewrite F2].
  - destruct (fmt_u_base 8 z ltac:(lia) Hi) as (F1 & F2 & F3). apply (Hint false (fmt_u z 8 false) 111); [set_solver | done | done | done | done | change (base_of 111) with 8; rewrite F2; split; [done | lia] | change (base_of 111) with 8; by rewrite F2].
  - destruct (fmt_u_base 16 z ltac:(lia) Hi) as (F1 & F2 & F3). apply (Hint false (fmt_u z 16 false) 120); [set_solver | done | done | done | done | change (base_of 120) with 16; rewrite F2; split; [done | lia] | change (base_of 120) with 16; by rewrite F2].
  - subst t. destruct Hi as [Hw Hne]. apply runs_directive_s; [lia | exact Hsp | done | done | done | lia | unfold SIZE_MAX; lia | done | done | done].
  - eapply (runs_directive_l total Ht64 alloc fuel fmt ap 101 pos c (t' ++ 32 :: u)); [set_solver | exact Hsp | by rewrite Hu, Et | done | done | lia | done | done | done|]. change (number_conv alloc fuel 101 dest) with (float_conv (D := str) alloc fuel S_L SIZE_MAX dest). eapply (runs_real neg m e t); [apply Hi | apply Hi | exact Ht | done | done].
Qed.
End Items.

(** The rest of the text after a space. *)
Definition texts (ts : list (list Z)) : list Z := concat ((λ t, t ++ [32]) <$> ts).

Lemma scan_format_cons i its : scan_format (i :: its) = (37 :: scan_spec i ++ [32]) ++ scan_format its.
Proof. reflexivity. Qed.

Lemma texts_cons t ts : texts (t :: ts) = t ++ 32 :: texts ts.
Proof. unfold texts. cbn [fmap list_fmap concat]. by rewrite <- app_assoc. Qed.

Lemma scan_spec_length i : (1 <= length (scan_spec i) <= 2)%nat ∧ Forall (λ c, 0 < c ∧ isspace c = false ∧ c ≠ 37) (scan_spec i).
Proof. destruct i; (split; [vm_compute; lia|]); unfold scan_spec, lit; cbn; repeat (apply Forall_cons_2; [by split_and!|]); apply Forall_nil_2. Qed.

Lemma next_format its : ∀ pre, ∃ x, fmt_at (pre ++ scan_format its) (length pre) = Ok x ∧ isspace x = false.
Proof.
  intros pre. destruct its as [|i its].
  - exists 0. split; [|done]. unfold fmt_at, scan_format. cbn. rewrite app_nil_r, Nat.leb_refl. by rewrite nth_overflow.
  - exists 37. split; [|done]. rewrite scan_format_cons. apply (spec_at_app pre (37 :: scan_spec i ++ [32]) (scan_format its) 0%nat 37 eq_refl).
Qed.

Section Loop.
Context (total : Z) (Htotal : 0 <= total < 2 ^ 62) (alloc : Z → bool) (fuel : nat) (Hfuel : total + 1 < Z.of_nat fuel) (ap : list Z).
#[local] Abbreviation runs := (runs total).

(** White space in the format eats the space. *)
Lemma runs_space fmt i x u v : fmt_at fmt (S i) = Ok x → isspace x = false → v_u v = 32 :: u → (∀ c u', u = c :: u' → is_byte c ∧ isspace c = false) →
  runs (turn alloc fuel fmt ap i 32) v (λ r v', r = inl i ∧ v' = with_u u v).
Proof using Htotal Hfuel.
  intros Hx Hxs Hu Hnext. assert (0 <= total < 2 ^ 64) as Ht by lia. apply runs_bound. intros Hb. unfold turn. change (isspace 32) with true. cbn iota. rbind. cbn [skip_fmt]. rbind. eapply runs_at; [exact Hx|]. rewrite Hxs. apply runs_ret. rbind.
  destruct fuel as [|n]; [lia|]. cbn [skip_space]. rbind. eapply (runs_next total Ht); [exact Hu | done | done|]. change (isspace 32) with true. cbn iota. destruct n as [|n]; [lia|]. cbn [skip_space]. rbind. destruct u as [|c u'].
  - apply runs_get_end; [done|]. change (isspace EOF) with false. cbn iota. apply runs_ret. rbind. apply runs_unget_end. by apply runs_ret.
  - destruct (Hnext c u' eq_refl) as [Hc Hcs]. eapply (runs_next total Ht); [done | done | done|]. rewrite Hcs. apply runs_ret. rbind. unfold is_byte in Hc. eapply (runs_unget total Ht c u'); [done | lia | rewrite Hu in Hb; cbn [length] in Hb; lia|]. apply runs_ret. done.
Qed.

Lemma runs_items its : ∀ ts pre n ptrs v, Forall item_ok its → Forall2 text_of its ts → (2 * length its < n)%nat → v_pos v <= 0 → v_seq v = ptrs → length ptrs = length its → Forall (λ p, p ≠ 0) ptrs → v_u v = texts ts →
  runs (core_loop alloc fuel (pre ++ scan_format its) ap n (length pre)) v (λ r v', r = inl () ∧ v_m v' = v_m v + Z.of_nat (length its) ∧ v_out v' = v_out v ++ zip ptrs (item_value <$> its) ∧ v_u v' = []).
Proof using Htotal Hfuel.
  induction its as [|i its IH]; intros ts pre n ptrs v Hok Hts Hn Hpos Hseq Hlen Hp Hu; (destruct n as [|n]; [lia|]); cbn [core_loop].
  - apply Forall2_nil_inv_l in Hts. subst ts. apply nil_length_inv in Hlen. subst ptrs. rbind. eapply runs_at. { unfold fmt_at, scan_format. cbn. rewrite app_nil_r, Nat.leb_refl. rewrite nth_overflow by lia. reflexivity. }
    cbn iota. rewrite Z.eqb_refl. apply runs_ret. rewrite Hlen. cbn. by rewrite app_nil_r, Z.add_0_r.
  - apply Forall2_cons_inv_l in Hts as (t & ts' & Ht & Hts & ->). destruct ptrs as [|p ptrs]; [done|]. apply Forall_cons in Hok as [Hi Hok]. apply Forall_cons in Hp as [Hp0 Hp]. cbn [length] in *. set (fmt := pre ++ scan_format (i :: its)). set (spec := 37 :: scan_spec i ++ [32]).
    destruct (scan_spec_length i) as [Hsl Hsf]. assert (spec_at fmt (length pre) spec) as Hsp by (unfold fmt; rewrite scan_format_cons; apply spec_at_app).
    assert (spec_at fmt (S (length pre)) (scan_spec i)) as Hsp1. { intros k c Hk. specialize (Hsp (S k) c). rewrite <- Nat.add_succ_comm. apply Hsp. unfold spec. cbn [lookup list_lookup]. by apply lookup_app_l_Some. }
    rewrite texts_cons in Hu. rbind. eapply runs_at; [apply (Hsp 0%nat 37 eq_refl)|]. change (37 =? 0) with false. cbn iota. rbind. unfold turn at 1. change (isspace 37) with false. cbn iota. rbind.
    destruct (lookup_lt_is_Some_2 (scan_spec i) 0 ltac:(lia)) as [c0 Ec0]. pose proof (Forall_lookup_1 _ _ _ _ Hsf Ec0) as (_ & _ & Hc0). eapply runs_at; [apply (Hsp1 0%nat c0 Ec0)|]. change (37 =? 37) with true. rewrite (proj2 (Z.eqb_neq c0 37)) by done. cbn [negb].
    eapply runs_mono; [eapply (runs_item total Htotal alloc fuel ltac:(lia) fmt ap i t (S (length pre)) (texts ts') p ptrs v); done|]. cbn beta. intros r v1 [-> ->]. destruct n as [|n]; [lia|]. cbn [core_loop]. rbind. replace (S (S (length pre) + length (scan_spec i) - 1)) with (S (length (scan_spec i)) + length pre)%nat by lia.
    eapply runs_at; [apply (Hsp (S (length (scan_spec i))) 32); change ((scan_spec i ++ [32]) !! length (scan_spec i) = Some 32); by apply list_lookup_middle|]. change (32 =? 0) with false. cbn iota. rbind.
    assert (fmt = (pre ++ spec) ++ scan_format its) as Ef by (unfold fmt; rewrite scan_format_cons; by rewrite <- app_assoc). assert (S (S (length (scan_spec i)) + length pre) = length (pre ++ spec)) as El by (rewrite length_app; unfold spec; cbn [length]; rewrite length_app; cbn [length]; lia).
    destruct (next_format its (pre ++ spec)) as (x & Hx & Hxs). rewrite <- Ef, <- El in Hx. eapply runs_mono; [eapply (runs_space fmt _ x (texts ts')); [exact Hx | exact Hxs | done|]|].
    { intros c u' E. destruct its as [|i' its]; [apply Forall2_nil_inv_l in Hts; by subst ts'|]. apply Forall2_cons_inv_l in Hts as (t2 & ts2 & Ht2 & _ & ->). apply Forall_cons in Hok as [Hi' _]. destruct (text_head i' t2 Hi' Ht2) as (c2 & t2' & -> & H1 & H2). rewrite texts_cons in E. cbn in E. injection E as <- _. done. }
    cbn beta. intros r v2 [-> ->]. rewrite El, Ef. eapply runs_mono; [eapply (IH ts' (pre ++ spec) n ptrs); [done | done | lia | cbn; lia | done | lia | done | done]|]. cbn beta. cbn [v_m v_out with_u]. intros r v3 (-> & -> & -> & ->). split; [done|]. split; [lia|]. split; [|done]. rewrite <- app_assoc. done.
Qed.
End Loop.
