(* ===== verification/Scanfback.v ===== *)
(** * Printing and scanning are inverse

    What printf makes of a list of items (Printfeq.v), and the theorem that
    sscanf with the same format stores them again. *)
From S2P Require Import Prelude CMem Lit Ctype Strtol Fpround Strtod Stdio Stdioout Scanf Printf Printfout Printfdec Printffloat Printfeq Scanfspec.

#[local] Existing Instances pm_ret pm_bind.

(** ** Printing an item *)

Section Print.
Context {D : Type} `{!Device D} (str : list Z).

(** An item is printed as its text. *)
Lemma print_item i rest (o : out_ D) c l ap ts : item_ok i → l = 0 ∨ l = -1 → 0 <= c → c + item_size i + 100 <= INT_MAX →
  ∃ ps, directive false [] str (print_spec i ++ rest) (Pst o c l (item_arg i :: ap) ts) = Ok (inl rest, Pst (outs o ps) (c + size ps) (-1) ap ts) ∧ text_of i (concat ps) ∧ size ps <= item_size i.
Proof.
  intros Hi Hl Hc Hn. destruct i as [z|z|z|z|w|neg m e]; cbn [item_ok item_arg item_size text_of] in *.
  - assert (s64 (u64 (s64 z)) = z) as Ez by (rewrite s64_u64; rewrite (swrap_small 64 z), swrap_small by (cbn; lia); done). set (d := digits (-1) (if z <? 0 then u64 (- z) else z) 10 false). set (sg := sign_str (z <? 0) no_flags).
    assert (d = fmt_u (Z.abs z) 10 false) as Ed. { unfold d, digits. change (-1 =? 0) with false. cbn [andb]. f_equal. destruct (Z.ltb_spec z 0); [rewrite uwrap_small by lia|]; lia. }
    destruct (fmt_u_base 10 (Z.abs z) ltac:(lia) ltac:(lia)) as (_ & _ & Hlen). assert (length sg <= 1)%nat by (unfold sg; destruct (z <? 0); cbn; lia). exists (emit_field no_flags 0 sg 0 d). split; [|rewrite field_plain, field_plain_size, Ed; split; [by unfold sg; destruct (z <? 0) | lia]].
    erewrite (directive_plain str _ _ rest 100 L_L T_LONG _ _ (-1)); [|done|reflexivity..]. apply gives_directive; [|done | rewrite field_plain_size, Ed; lia]. unfold conversion. cbn [int_of]. rewrite Ez. exact (integer_gives 100 sg d).
  - assert (u64 z = z) as Ez by (by rewrite uwrap_small). destruct (fmt_u_base 10 z ltac:(lia) Hi) as (_ & _ & Hlen). set (d := fmt_u z 10 false) in *. exists (emit_field no_flags 0 [] 0 d). split; [|rewrite field_plain, field_plain_size; split; [done | cbn [length Z.of_nat]; lia]].
    erewrite (directive_plain str _ _ rest 117 L_L T_ULONG _ _ (-1)); [|done|reflexivity..]. apply gives_directive; [|done | rewrite field_plain_size; cbn [length Z.of_nat]; lia]. unfold conversion. cbn [int_of]. rewrite Ez. exact (integer_gives 117 [] d).
  - assert (u64 z = z) as Ez by (by rewrite uwrap_small). destruct (fmt_u_base 8 z ltac:(lia) Hi) as (_ & _ & Hlen). set (d := fmt_u z 8 false) in *. exists (emit_field no_flags 0 [] 0 d). split; [|rewrite field_plain, field_plain_size; split; [done | cbn [length Z.of_nat]; lia]].
    erewrite (directive_plain str _ _ rest 111 L_L T_ULONG _ _ (-1)); [|done|reflexivity..]. apply gives_directive; [|done | rewrite field_plain_size; cbn [length Z.of_nat]; lia]. unfold conversion. cbn [int_of]. rewrite Ez. exact (integer_gives 111 [] d).
  - assert (u64 z = z) as Ez by (by rewrite uwrap_small). destruct (fmt_u_base 16 z ltac:(lia) Hi) as (_ & _ & Hlen). set (d := fmt_u z 16 false) in *. exists (emit_field no_flags 0 [] 0 d). split; [|rewrite field_plain, field_plain_size; split; [done | cbn [length Z.of_nat]; lia]].
    erewrite (directive_plain str _ _ rest 120 L_L T_ULONG _ _ (-1)); [|done|reflexivity..]. apply gives_directive; [|done | rewrite field_plain_size; cbn [length Z.of_nat]; lia]. unfold conversion. cbn [int_of]. rewrite Ez. exact (integer_gives 120 [] d).
  - exists (emit_field no_flags 0 [] 0 w). split; [|rewrite field_plain, field_plain_size; split; [done | cbn [length Z.of_nat]; lia]].
    erewrite (directive_plain str _ _ rest 115 L_NONE T_PTR _ _ (-1)); [|done|reflexivity..]. apply gives_directive; [|done | rewrite field_plain_size; cbn [length Z.of_nat]; lia]. exact (text_gives w).
  - destruct Hi as [Hcan He]. destruct (double_arg m e neg Hcan He) as (m' & e' & Hs & Hm' & He' & Hv). destruct (fmt_fp_e _ m' e' neg 16 (INT_MAX - c) Hs Hm' He' ltac:(lia) ltac:(lia)) as ([n ps] & Hf & Hn' & Hle & d0 & fr & x & Hsc & Ht).
    exists ps. assert (scientific (d0 :: fr) x 16 m e) as Hsm by (eapply scientific_value; done). split_and!; [|by exists d0, fr, x|].
    + erewrite (directive_plain str _ (101 :: rest) rest 101 L_NONE T_DBL _ _ 16); [|done|reflexivity..]. unfold mbind at 1, pm_bind at 1. rewrite conversion_e. cbn [p_cnt]. rewrite Hf. unfold mbind, pm_bind, emit, ADD. cbn [p_cnt p_o p_l10n p_ap p_types]. rewrite (proj2 (Z.ltb_ge _ _)) by lia. by rewrite Hn'.
    + unfold size. rewrite Ht. pose proof (exp_str_length x ltac:(destruct Hsm as (_ & _ & ? & _); lia)) as Hes. destruct Hsm as (_ & Hlen & _). unfold number. repeat (rewrite length_app; cbn [length]). cbn [length] in Hlen. destruct neg, (length fr =? 0)%nat; cbn [length]; lia.
Qed.

(** An item as an argument of a format; a space comes before all but the
    first. *)
Definition item_farg (first : bool) (i : item) : farg := Farg (if first then [] else [32]) (print_spec i) (item_arg i) (item_size i) (text_of i).

Lemma item_farg_ok first i : item_ok i → farg_ok (D := D) str (item_farg first i).
Proof.
  intros Hi. split; cbn [item_farg fa_lit fa_spec fa_arg fa_size fa_text].
  - destruct first; repeat constructor.
  - destruct i; eexists _, _; done.
  - destruct i; cbn; lia.
  - intros rest o c l ap ts Hl Hc Hn. apply print_item; (done || lia).
  - intros rest o c ap ts. exists (Pst o c (-1) ap ts). by destruct i.
Qed.
End Print.

Definition item_fargs (its : list item) : list farg := match its with [] => [] | i :: its => item_farg true i :: (item_farg false <$> its) end.
Definition item_end (its : list item) : list Z := match its with [] => [] | _ => [32] end.

Lemma print_format_cons i its : print_format (i :: its) = 37 :: print_spec i ++ 32 :: print_format its.
Proof. unfold print_format. cbn [fmap list_fmap concat]. rewrite <- app_comm_cons, <- app_assoc. done. Qed.

Lemma format_items its : format_of (item_fargs its) (item_end its) = print_format its ∧ ∀ tx, length tx = length its → text_with (item_fargs its) tx (item_end its) = texts tx.
Proof.
  assert (∀ its, format_of (item_farg false <$> its) [32] = 32 :: print_format its ∧ ∀ tx, length tx = length its → text_with (item_farg false <$> its) tx [32] = 32 :: texts tx) as H.
  { clear. induction its as [|i its [IH1 IH2]]; [split; [done|]; by intros [|]|]. cbn [fmap list_fmap format_of item_farg fa_lit fa_spec app]. rewrite IH1, print_format_cons. split; [done|]. intros [|t tx] Hl; [done|]. cbn [text_with fa_lit app]. rewrite IH2, texts_cons by (by injection Hl). done. }
  destruct its as [|i its]; [split; [done|]; by intros [|]|]. cbn [item_fargs item_end format_of item_farg fa_lit fa_spec app]. destruct (H its) as [H1 H2]. rewrite H1, print_format_cons. split; [done|]. intros [|t tx] Hl; [done|]. cbn [text_with fa_lit app]. rewrite H2, texts_cons by (by injection Hl). done.
Qed.

Definition items_size (its : list item) : Z := foldr (λ i n, item_size i + 1 + n) 200 its.

Lemma printed_items its str : Forall item_ok its → items_size its < INT_MAX →
  ∃ tx, printed (print_format its) (item_arg <$> its) str = Ok (texts tx, Z.of_nat (length (texts tx)), 0) ∧ Forall2 text_of its tx ∧ Z.of_nat (length (texts tx)) <= INT_MAX.
Proof.
  intros Hok Hn. assert (fa_arg <$> item_fargs its = item_arg <$> its ∧ ∀ tx, Forall2 fa_text (item_fargs its) tx ↔ Forall2 text_of its tx) as [Ea Et].
  { destruct its as [|i its]; [split; [done|]; intros tx; split; intros H%Forall2_nil_inv_l; subst tx; constructor|]. cbn [item_fargs fmap list_fmap]. rewrite <- list_fmap_compose. split; [done|]. intros [|t tx]; [split; intros H; inversion H|]. rewrite !Forall2_cons, Forall2_fmap_l. done. }
  assert (Forall (farg_ok (D := tape) str) (item_fargs its)) as Hf.
  { destruct its as [|i its]; [apply Forall_nil_2|]. apply Forall_cons in Hok as [Hi Hok]. apply Forall_cons_2; [by apply item_farg_ok|]. apply Forall_fmap. eapply Forall_impl; [exact Hok|]. intros j Hj. by apply item_farg_ok. }
  assert (format_size (item_fargs its) (item_end its) + 200 <= items_size its) as Hsz.
  { assert (∀ its, format_size (item_farg false <$> its) [32] + 199 <= items_size its) as H. { clear. induction its as [|i its IH]; [done|]. change (format_size (item_farg false <$> i :: its) [32]) with (1 + item_size i + format_size (item_farg false <$> its) [32]). change (items_size (i :: its)) with (item_size i + 1 + items_size its). lia. }
    destruct its as [|i its]; [done|]. specialize (H its). change (format_size (item_fargs (i :: its)) (item_end (i :: its))) with (0 + item_size i + format_size (item_farg false <$> its) [32]). change (items_size (i :: its)) with (item_size i + 1 + items_size its). lia. }
  assert (plain (item_end its)) as Hend by (destruct its; repeat constructor). destruct (printed_format str (item_fargs its) (item_end its) Hend Hf ltac:(lia)) as (tx & Hp & Ht & Hl). apply Et in Ht. destruct (format_items its) as [F1 F2]. rewrite F2 in Hp, Hl by (symmetry; by eapply Forall2_length). rewrite F1, Ea in Hp. exists tx. split; [exact Hp|]. split; [done | lia].
Qed.

(** C14: sscanf reads back what printf printed. For every list of long
    integers (decimal, octal, hexadecimal), words and finite doubles: printf
    with the formats %ld, %lu, %lo, %lx, %s and %.16e, separated by spaces,
    prints the items, and sscanf of that text with %ld, %lu, %lo, %lx, %s and
    %le stores every item through its pointer exactly, in order, and returns
    their number, whatever malloc does. *)
Theorem printf_sscanf its ptrs str alloc : Forall item_ok its → items_size its < INT_MAX → length ptrs = length its → Forall (λ p, p ≠ 0) ptrs →
  ∃ text f, printed (print_format its) (item_arg <$> its) str = Ok (text, Z.of_nat (length text), 0) ∧
    vsscanf alloc text (scan_format its) ptrs = Ok (f, Z.of_nat (length its), zip ptrs (item_value <$> its)).
Proof.
  intros Hok Hn Hlen Hp. destruct (printed_items its str Hok Hn) as (tx & Hpr & Ht & Hl). exists (texts tx). unfold vsscanf, vfscanf. cbn [f_r set_bufsize set_r]. set (f0 := set_bufsize 0 _).
  set (total := Z.of_nat (length (texts tx))) in *. unfold INT_MAX in Hl. assert (shows total (Sst f0 0 0 0 ptrs []) (V (texts tx) 0 0 ptrs [])) as Hs.
  { split; cbn; try done; [split; [by eexists | done] | unfold total; lia]. }
  assert (2 * length its < S (length (scan_format its)))%nat as Hf. { clear. induction its as [|i its IH]; [cbn; lia|]. rewrite scan_format_cons, length_app. cbn [length]. rewrite length_app. cbn [length]. destruct (scan_spec_length i). lia. }
  pose proof (runs_items total ltac:(unfold total in *; lia) alloc (S (S (length (texts tx)))) ltac:(unfold total; lia) ptrs its tx [] (S (length (scan_format its))) ptrs (V (texts tx) 0 0 ptrs []) Hok Ht Hf ltac:(cbn; lia) ltac:(done) Hlen Hp ltac:(done) _ Hs) as (x & st' & v' & E & Hs' & -> & Hm & Ho & _).
  cbn [app length v_m v_out] in *. rewrite E. cbn [mbind res_bind]. eexists. split; [exact Hpr|]. rewrite (sh_m _ _ _ Hs'), (sh_out _ _ _ Hs'), Hm, Ho. done.
Qed.

Definition demo_items : list item := [Signed (-42); Hex 255; Word (lit "hi"); Real false 7205759403792794 (-56)].

Lemma demo_items_text : printed (print_format demo_items) (item_arg <$> demo_items) [] = Ok (lit "-42 ff hi 1.0000000000000001e-01 ", 33, 0).
Proof. vm_compute. reflexivity. Qed.

Lemma printf_sscanf_witness :
  ∃ f, vsscanf (λ _, false) (lit "-42 ff hi 1.0000000000000001e-01 ") (lit "%ld %lx %s %le ") [8; 16; 24; 32] =
    Ok (f, 4, [(8, StInt S_L (-42)); (16, StInt S_L 255); (24, StBytes [104; 105; 0]); (32, StDbl (Num false (Fin 7205759403792794 (-56))))]).
Proof.
  assert (Forall item_ok demo_items) as Hok.
  { unfold demo_items. apply Forall_cons_2; [cbn; lia|]. apply Forall_cons_2; [cbn; lia|]. apply Forall_cons_2; [split; [|done]; repeat (apply Forall_cons_2; [done|]); apply Forall_nil_2|].
    apply Forall_cons_2; [|apply Forall_nil_2]. split; [|discriminate]. split; [split; [discriminate | reflexivity]|]. split; [discriminate|]. left. discriminate. }
  destruct (printf_sscanf demo_items [8; 16; 24; 32] [] (λ _, false) Hok ltac:(reflexivity) eq_refl ltac:(repeat (apply Forall_cons_2; [done|]); apply Forall_nil_2)) as (text & f & E & Hf).
  rewrite demo_items_text in E. injection E as <-. exists f. exact Hf.
Defined.
