(* ===== verification/Scanfsafe.v ===== *)
(** * sscanf terminates and stays inside its strings

    For every input and every format: no loop reaches its bound, nothing is
    read behind the terminator of the format, the collection buffer is a
    terminated string when the number parsers get it. Only an argument that
    is missing is undefined. *)
From S2P Require Import Prelude CMem Lit Ctype StrFns Strtol Multibyte Fpround Strtod Strtodspec Stdio Scanf Scanfspec.

#[local] Existing Instances Scanf.sm_ret Scanf.sm_bind.
#[local] Abbreviation EOF := Stdio.EOF.
#[local] Arguments mbind : simpl never.

(** Bytes of a string. *)
Definition good (u : list Z) : Prop := Forall (λ c, 0 < c < 256) u.

(** A collection buffer: a string with room for its terminator. *)
Definition cb_ok (b : cbuf) : Prop :=
  good (cb_s b) ∧ Z.of_nat (length (cb_s b)) < cb_cap b ∧ cb_cap b mod 8 = 0 ∧ (cb_cap b <= 128 ∨ cb_cap b <= 2 * Z.of_nat (length (cb_s b))).

(** One byte is read by mbrtowc. *)
Lemma mbrtowc_one c ms e : is_byte c → wp (mbrtowc (write ∅ 4096 [c; 0; 0; 0; 0; 0; 0; 0]) 4096 1 ms e) (λ _, True).
Proof.
  intros Hc. set (m := write ∅ 4096 _). assert (loadb m 4096 = Ok c) as Hl.
  { unfold loadb, m. pose proof (bytes_write ∅ 4096 [c; 0; 0; 0; 0; 0; 0; 0] 0%nat c eq_refl) as H. change (4096 + Z.of_nat 0) with 4096 in H. by rewrite H. }
  assert (∀ a need lead, wp (mb_tail m 4096 1 e a need lead 1) (λ _, True)) as Htail.
  { intros a need lead. unfold mb_tail. rewrite loop_S. destruct (need =? 0); [by apply wp_ok|]. change (1 =? 1) with true. by apply wp_ok. }
  assert (∀ a need lead, wp (mb_tail m 4096 1 e a need lead 0) (λ _, True)) as Htail0.
  { intros a need lead. unfold mb_tail. rewrite loop_S. destruct (need =? 0); [by apply wp_ok|]. change (0 =? 1) with false. cbn iota. change (4096 + 0) with 4096. rewrite Hl. unfold mbind at 1, res_bind at 1; cbv beta iota. destruct (if lead =? 0 then negb (Z.land c 192 =? 128) else negb (second_ok lead c)); [by apply wp_ok|]. rewrite loop_S. destruct (need - 1 =? 0); [by apply wp_ok|]. change (0 + 1 =? 1) with true. by apply wp_ok. }
  unfold mbrtowc. change (4096 =? 0) with false. change (1 =? 0) with false. cbn iota. destruct (Z.land (__n ms) 7 =? 0); [|apply Htail0]. rewrite Hl. unfold mbind at 1, res_bind at 1; cbv beta iota. destruct (c <? 128); [by apply wp_ok|]. repeat (destruct (_ && _); [apply Htail|]). by apply wp_ok.
Qed.

Lemma tot_sd_byte alloc d c e : 0 < c < 256 → wp (sd_byte alloc d c e) (λ _, True).
Proof.
  intros Hc. unfold sd_byte. destruct (negb (d_wide d)); [by apply wp_ok|]. rewrite u8_id by (unfold is_byte; lia). apply wp_bind. eapply wp_mono; [apply mbrtowc_one; unfold is_byte; lia|]. intros [[[r wc] ms] e'] _. destruct (r =? ILSEQ); [by apply wp_ok|]. destruct (negb _); by apply wp_ok.
Qed.

Section Safe.
Context (N : nat) (HN : Z.of_nat N <= 10000000) (alloc : Z → bool).

(** [m] returns, or traps for a missing argument. *)
Definition safe {A} (m : SM str A) (u : list Z) (Q : A → list Z → Prop) : Prop := ∀ st, reads (s_f st) u →
  match m st with
  | Ok (x, st') => ∃ u', reads (s_f st') u' ∧ match x with inl a => Q a u' | inr _ => True end
  | Trap t => t = Ub
  end.

Lemma tot_ret {A} (a : A) u (Q : A → list Z → Prop) : Q a u → safe (mret a) u Q.
Proof using. intros HQ st Hr. by exists u. Qed.

Lemma tot_stop {A} l u (Q : A → list Z → Prop) : safe (stop l) u Q.
Proof using. intros st Hr. by exists u. Qed.

Lemma tot_bind {A B} (m : SM str A) (k : A → SM str B) u Q : safe m u (λ a u', safe (k a) u' Q) → safe (m ≫= k) u Q.
Proof using.
  intros Hm st Hr. specialize (Hm st Hr). unfold mbind, sm_bind. destruct (m st) as [[[a|l] st']|t]; [|exact Hm|exact Hm]. destruct Hm as (u' & Hr' & Hk). by apply Hk.
Qed.

Lemma tot_mono {A} (m : SM str A) u (P Q : A → list Z → Prop) : safe m u P → (∀ a u', P a u' → Q a u') → safe m u Q.
Proof using.
  intros Hm HPQ st Hr. specialize (Hm st Hr). destruct (m st) as [[[a|l] st']|t]; [|exact Hm|exact Hm]. destruct Hm as (u' & Hr' & HP). exists u'. auto.
Qed.

Lemma tot_lift {A} (c : res A) u (Q : A → list Z → Prop) : wp c (λ a, Q a u) → safe (lift c) u Q.
Proof using. intros (a & -> & HQ) st Hr. by exists u. Qed.

Lemma tot_gets {B} (k : sst str → SM str B) u Q : (∀ st, safe (k st) u Q) → safe (gets ≫= k) u Q.
Proof using. intros Hk st Hr. exact (Hk st st Hr). Qed.

Lemma tot_store p x u (Q : unit → list Z → Prop) : Q () u → safe (store p x) u Q.
Proof using. intros HQ st Hr. exists u. split; [|done]. by destruct (p =? 0). Qed.

Lemma tot_matched p u (Q : unit → list Z → Prop) : Q () u → safe (matched p) u Q.
Proof using. intros HQ st Hr. exists u. split; [|done]. by destruct (p =? 0). Qed.

Lemma tot_errno e u (Q : unit → list Z → Prop) : Q () u → safe (errno_is e) u Q.
Proof using. intros HQ st Hr. exists u. by split. Qed.

Lemma tot_set_pos p u (Q : unit → list Z → Prop) : Q () u → safe (set_pos p) u Q.
Proof using. intros HQ st Hr. by exists u. Qed.

Lemma tot_va_arg u (Q : Z → list Z → Prop) : (∀ p, Q p u) → safe va_arg u Q.
Proof using. intros HQ st Hr. unfold va_arg. destruct (s_seq st); [done|]. exists u. by split. Qed.

Lemma tot_arg_n ap n u (Q : Z → list Z → Prop) : (∀ p, Q p u) → safe (arg_n ap n) u Q.
Proof using. intros HQ. unfold arg_n. destruct (ap !! _); [by apply tot_ret | by intros st Hr]. Qed.

(** ** The input and the buffer *)

(** Between two reads, and with a character in hand: what was collected and
    what is left is no longer than the input. *)
Definition rest (b : cbuf) (u : list Z) : Prop := good u ∧ cb_ok b ∧ (length (cb_s b) + length u <= N)%nat.
Definition ready (b : cbuf) (c : Z) (u : list Z) : Prop := good u ∧ cb_ok b ∧ (c = EOF ∧ (length (cb_s b) + length u <= N)%nat ∨ 0 < c < 256 ∧ (length (cb_s b) + length u < N)%nat).

(** The turns that are left. *)
Definition left_ (c : Z) (u : list Z) : nat := if c =? EOF then 0 else S (length u).

Lemma tot_get b u (Q : Z → list Z → Prop) : rest b u → (∀ c u', ready b c u' → (left_ c u' <= length u)%nat → (length u' <= length u)%nat → Q c u') → safe get u Q.
Proof using.
  intros (Hg & Hb & Hl) HQ st Hr. unfold get. destruct u as [|c u].
  - destruct (getc_end _ Hr) as (f' & -> & Hr' & _). exists []. split; [done|]. apply HQ; [|done | done]. split; [done|]. split; [done|]. by left.
  - destruct (getc_next _ _ _ Hr) as (f' & -> & Hr' & _). exists u. apply Forall_cons in Hg as [Hc Hg]. cbn [length] in *. split; [by destruct (c =? EOF)|]. apply HQ; [|unfold left_; destruct (c =? EOF); lia | lia]. split; [done|]. split; [done|]. right. split; [done | lia].
Qed.

Lemma tot_unget b c u (Q : unit → list Z → Prop) : ready b c u → (∀ u', rest b u' → (length u' <= S (length u))%nat → Q () u') → safe (unget c) u Q.
Proof using.
  intros (Hg & Hb & [[-> Hl]|[Hc Hl]]) HQ st Hr; unfold unget.
  - exists u. split; [done|]. apply HQ; [|lia]. split; [done|]. by split.
  - unfold EOF, Stdio.EOF. rewrite (proj2 (Z.eqb_neq c (-1))) by lia. exists (c :: u). split; [by apply back_reads|]. apply HQ; [|done]. split; [by apply Forall_cons_2|]. split; [done|]. cbn [length]. lia.
Qed.

Lemma tot_get_if w b u (Q : Z → list Z → Prop) : rest b u → (∀ c u', ready b c u' → (left_ c u' <= length u)%nat → Q c u') → safe (get_if w) u Q.
Proof using.
  intros H HQ. unfold get_if. destruct (w =? 0); [|by eapply tot_get; eauto]. apply tot_ret. destruct H as (H1 & H2 & H3). apply HQ; [|unfold left_; rewrite Z.eqb_refl; lia]. split; [done|]. split; [done|]. by left.
Qed.

Lemma ready_put b c u : ready b c u → c ≠ EOF → rest (cb_put alloc b c) u.
Proof using HN.
  intros (Hg & (B1 & B2 & B3 & B4) & [[-> _]|[Hc Hl]]) Hne; [done|]. split; [done|]. unfold cb_put. assert (u8 c = c) as Eu by (apply u8_id; unfold is_byte; lia). rewrite Eu.
  assert (good (cb_s b ++ [c])) as Hs by (apply Forall_app; split; [done | by apply Forall_singleton]). destruct (Z.leb_spec (cb_cap b) (Z.of_nat (length (cb_s b)) + 1)) as [Hfull|Hfit].
  - rewrite uwrap_small by lia. destruct (alloc (cb_cap b * 2)).
    + unfold cb_ok. cbn [cb_s cb_cap]. rewrite length_app. cbn [length]. split_and!; [done | lia | rewrite Z.mul_mod, B3 by lia; done | right; lia | lia].
    + unfold cb_ok. cbn [cb_s cb_cap]. split_and!; (done || lia).
  - unfold cb_ok. cbn [cb_s cb_cap]. rewrite length_app. cbn [length]. split_and!; (done || lia).
Qed.

Lemma rest_init u : good u → (length u <= N)%nat → rest cb_init u.
Proof using. intros Hg Hl. split; [done|]. split; [|cbn; lia]. split_and!; [apply Forall_nil_2 | done | done | by left]. Qed.

Lemma rest_forget b u : rest b u → rest cb_init u.
Proof using. intros (H1 & _ & H3). apply rest_init; [done | lia]. Qed.

Lemma ready_forget b c u : ready b c u → ready cb_init c u.
Proof using. intros (H1 & _ & H3). split; [done|]. split; [apply (rest_init [] ); [apply Forall_nil_2 | cbn; lia]|]. cbn [cb_init cb_s length]. destruct H3 as [[? ?]|[? ?]]; [left | right]; (split; [done | lia]). Qed.

Lemma rest_length b u : rest b u → (length u <= N)%nat.
Proof using. intros (_ & _ & H). lia. Qed.

(** Read a character, then a property of what follows. *)
Lemma tot_next {A} b u (k : Z → SM str A) Q : rest b u → (∀ c u', ready b c u' → (left_ c u' <= length u)%nat → safe (k c) u' Q) → safe (get ≫= k) u Q.
Proof using. intros H Hk. apply tot_bind. eapply tot_get; [exact H|]. auto. Qed.

Lemma tot_back {A} b c u (k : unit → SM str A) Q : ready b c u → (∀ u', rest b u' → safe (k ()) u' Q) → safe (unget c ≫= k) u Q.
Proof using. intros H Hk. apply tot_bind. eapply tot_unget; [exact H|]. auto. Qed.

Lemma tot_skip_space : ∀ fuel u b, rest b u → (length u < fuel)%nat → safe (skip_space fuel) u (λ c u', ready b c u').
Proof using.
  induction fuel as [|fuel IH]; intros u b Hr Hf; [lia|]. cbn [skip_space]. eapply tot_bind, tot_get; [exact Hr|]. intros c u' Hc Hl Hle. destruct (isspace c) eqn:Es; [|by apply tot_ret].
  destruct Hc as (Hg & Hb & [[-> H]|[Hc H]]); [done|]. apply IH; [split; [done|]; split; [done | lia]|]. unfold left_, EOF, Stdio.EOF in Hl. rewrite (proj2 (Z.eqb_neq c (-1))) in Hl by lia. lia.
Qed.

(** ** Numbers *)

Lemma tot_int_digits base : base <= 36 → ∀ fuel b w c u dg, ready b c u → (left_ c u < fuel)%nat → safe (int_digits alloc fuel base b w c dg) u (λ r u', let '(b', _, c') := r in ready b' c' u').
Proof using HN.
  intros Hb. induction fuel as [|fuel IH]; intros b w c u dg Hr Hf; [lia|]. cbn [int_digits]. destruct (w =? 0); [by apply tot_ret|]. destruct (Z.leb_spec base (Strtol.digit_val c)) as [Hd|Hd]; [by apply tot_ret|].
  assert (c ≠ EOF) as Hc by (intros ->; change (Strtol.digit_val EOF) with 99 in Hd; lia). eapply tot_bind, tot_get; [by apply ready_put|]. intros c' u' Hr' Hl _. apply IH; [done|]. unfold left_ in Hf. rewrite (proj2 (Z.eqb_neq _ _)) in Hf by done. lia.
Qed.

Lemma tot_sign b w u : rest b u → safe (sign_of alloc b w) u (λ r u', let '(b', _, c') := r in ready b' c' u').
Proof using HN.
  intros Hr. unfold sign_of. eapply tot_next; [exact Hr|]. intros c u' Hc _. destruct (is_sign c && negb (w =? 0)) eqn:E; [|by apply tot_ret]. eapply tot_next; [apply ready_put; [exact Hc|]; intros ->; done|]. intros c' u2 Hc' _. by apply tot_ret.
Qed.

Lemma tot_int_prefix b w c u base : base = 0 ∨ base = 8 ∨ base = 10 ∨ base = 16 → ready b c u →
  safe (int_prefix alloc b w c base) u (λ r u', match r with inr b' => rest b' u' | inl (b', _, c', base', _) => ready b' c' u' ∧ (base' = 0 ∨ base' = 8 ∨ base' = 10 ∨ base' = 16) end).
Proof using HN.
  intros Hb Hr. unfold int_prefix. destruct (_ && _) eqn:E; [|by apply tot_ret]. apply andb_true_iff in E as [[_ E]%andb_true_iff _]. apply Z.eqb_eq in E. eapply tot_next; [apply ready_put; [exact Hr|]; intros ->; done|]. intros c1 u1 Hc1 _. destruct ((Z.lor c1 32 =? 120) && _) eqn:E1.
  - apply andb_true_iff in E1 as [E1 _]. eapply tot_next; [apply ready_put; [exact Hc1|]; intros ->; done|]. intros c2 u2 Hc2 _. destruct (negb _); [|apply tot_ret; auto]. eapply tot_back; [exact Hc2|]. intros u3 H3. by apply tot_ret.
  - apply tot_ret. split; [done|]. destruct (base =? 0); auto.
Qed.

Lemma tot_scan_int fuel b w u base : base = 0 ∨ base = 8 ∨ base = 10 ∨ base = 16 → rest b u → (S N < fuel)%nat →
  safe (scan_int alloc fuel b w base) u (λ r u', let '(b', base') := r in rest b' u' ∧ (base' < 0 ∨ base' = 8 ∨ base' = 10 ∨ base' = 16)).
Proof using HN.
  intros Hb Hr Hf. unfold scan_int. eapply tot_bind, tot_mono; [by apply tot_sign|]. intros [[b1 w1] c1] u1 H1. eapply tot_bind, tot_mono; [by apply tot_int_prefix|]. intros [[[[[b2 w2] c2] base2] dg2]|b2] u2 H2; [|apply tot_ret; auto].
  destruct H2 as [H2 Hb2]. set (base3 := if base2 =? 0 then 10 else base2). assert (base3 = 8 ∨ base3 = 10 ∨ base3 = 16) as Hb3 by (unfold base3; destruct (Z.eqb_spec base2 0); lia).
  eapply tot_bind, tot_mono; [apply tot_int_digits; [lia | exact H2|]|].
  { unfold left_. destruct H2 as (_ & _ & H2). destruct (c2 =? EOF); [lia|]. destruct H2 as [[_ ?]|[_ ?]]; lia. }
  intros [[b3 dg3] c3] u3 H3. eapply tot_back; [exact H3|]. intros u4 H4. apply tot_ret. split; [done|]. destruct dg3; [auto | lia].
Qed.

Lemma tot_match_word word : Forall (λ x, 0 < x) word → ∀ b w some u, rest b u → safe (match_word alloc b w word some) u (λ r u', let '(b', _, _) := r in rest b' u').
Proof using HN.
  induction 1 as [|x word Hx _ IH]; intros b w some u Hr; cbn [match_word]; [by apply tot_ret|]. eapply tot_bind, tot_get_if; [exact Hr|]. intros c u' Hc _. destruct (_ || _) eqn:E.
  - destruct (w =? 0) eqn:Ew.
    + apply tot_bind, tot_ret. apply tot_ret. destruct Hc as (H1 & H2 & H3). split; [done|]. split; [done|]. destruct H3 as [[_ ?]|[_ ?]]; lia.
    + eapply tot_back; [exact Hc|]. intros u2 H2. by apply tot_ret.
  - apply IH. apply ready_put; [done|]. intros ->. done.
Qed.

Lemma tot_nan_chars : ∀ fuel b w u, rest b u → (length u < fuel)%nat → safe (nan_chars alloc fuel b w) u (λ b' u', rest b' u').
Proof using HN.
  induction fuel as [|fuel IH]; intros b w u Hr Hf; [lia|]. cbn [nan_chars]. eapply tot_bind, tot_get_if; [exact Hr|]. intros c u' Hc Hl. destruct (Z.eqb_spec c 41) as [->|H41].
  - apply tot_ret. by apply ready_put.
  - destruct (_ || _) eqn:E; [eapply tot_back; [exact Hc|]; intros u2 H2; by apply tot_ret|]. assert (c ≠ EOF) as Hne by (intros ->; done). apply IH; [by apply ready_put|]. unfold left_ in Hl. rewrite (proj2 (Z.eqb_neq _ _)) in Hl by done. lia.
Qed.

(** if (w) unget(in, c); *)
Lemma tot_maybe_back {A} (w : Z) b c u (k : SM str A) Q : ready b c u → (∀ u', rest b u' → safe k u' Q) → safe ((if w =? 0 then mret () else unget c);; k) u Q.
Proof using.
  intros Hc Hk. destruct (w =? 0); [|by eapply tot_back]. apply tot_bind, tot_ret, Hk. destruct Hc as (H1 & H2 & H3). split; [done|]. split; [done|]. destruct H3 as [[_ ?]|[_ ?]]; lia.
Qed.

Lemma tot_scan_inf b w u : rest b u → safe (scan_inf alloc b w) u (λ r u', rest (fst r) u').
Proof using HN.
  intros Hr. unfold scan_inf. eapply tot_bind, tot_mono; [apply tot_match_word; [|exact Hr]; repeat (apply Forall_cons_2; [done|]); apply Forall_nil_2|]. intros [[b1 w1] r1] u1 H1. destruct (negb (r1 =? 1)); [by apply tot_ret|].
  eapply tot_bind, tot_get_if; [exact H1|]. intros c u2 Hc _. destruct (negb (Z.lor c 32 =? 105)) eqn:E; [eapply tot_maybe_back; [exact Hc|]; intros u3 H3; by apply tot_ret|].
  eapply tot_bind, tot_mono; [apply tot_match_word; [|apply ready_put; [exact Hc | intros ->; done]]; repeat (apply Forall_cons_2; [done|]); apply Forall_nil_2|]. intros [[b2 w2] r2] u3 H3. by apply tot_ret.
Qed.

Lemma tot_scan_nan fuel b w u : rest b u → (S N < fuel)%nat → safe (scan_nan alloc fuel b w) u (λ r u', rest (fst r) u').
Proof using HN.
  intros Hr Hf. unfold scan_nan. eapply tot_bind, tot_mono; [apply tot_match_word; [|exact Hr]; repeat (apply Forall_cons_2; [done|]); apply Forall_nil_2|]. intros [[b1 w1] r1] u1 H1. destruct (negb (r1 =? 1)); [by apply tot_ret|].
  eapply tot_bind, tot_get_if; [exact H1|]. intros c u2 Hc _. destruct (Z.eqb_spec c 40) as [->|H40]; cbn [negb]; [|eapply tot_maybe_back; [exact Hc|]; intros u3 H3; by apply tot_ret].
  assert (rest (cb_put alloc b1 40) u2) as H2 by (by apply ready_put). eapply tot_bind, tot_mono; [apply tot_nan_chars; [exact H2 | pose proof (rest_length _ _ H2); lia]|]. intros b3 u3 H3. by apply tot_ret.
Qed.

Lemma tot_mant hex : ∀ fuel b w c u dot dg, ready b c u → (left_ c u < fuel)%nat → safe (mant_digits alloc fuel hex b w c dot dg) u (λ r u', let '(b', _, c', _) := r in ready b' c' u').
Proof using HN.
  induction fuel as [|fuel IH]; intros b w c u dot dg Hr Hf; [lia|]. cbn [mant_digits]. destruct (w =? 0); [by apply tot_ret|].
  assert (c ≠ EOF → ∀ dot' dg', safe (c' ← get; mant_digits alloc fuel hex (cb_put alloc b c) (w - 1) c' dot' dg') u (λ r u', let '(b', _, c', _) := r in ready b' c' u')) as Hgo.
  { intros Hc dot' dg'. eapply tot_bind, tot_get; [by apply ready_put|]. intros c' u' Hr' Hl _. apply IH; [done|]. unfold left_ in Hf. rewrite (proj2 (Z.eqb_neq _ _)) in Hf by done. lia. }
  destruct (Z.eqb_spec c 46) as [->|H46]; cbn [andb]; [destruct (negb dot); [by apply Hgo|]|]; (destruct (if hex then _ else _) eqn:E; [apply Hgo; first [done | intros ->; by destruct hex] | by apply tot_ret]).
Qed.

Lemma tot_exp_digits : ∀ fuel b w c u, ready b c u → (left_ c u < fuel)%nat → safe (exp_digits alloc fuel b w c) u (λ r u', let '(b', c') := r in ready b' c' u').
Proof using HN.
  induction fuel as [|fuel IH]; intros b w c u Hr Hf; [lia|]. cbn [exp_digits]. destruct (negb (w =? 0) && is_dig c) eqn:E; [|by apply tot_ret]. apply andb_true_iff in E as [_ E].
  assert (c ≠ EOF) as Hc by (intros ->; done). eapply tot_bind, tot_get; [by apply ready_put|]. intros c' u' Hr' Hl _. apply IH; [done|]. unfold left_ in Hf. rewrite (proj2 (Z.eqb_neq _ _)) in Hf by done. lia.
Qed.

Lemma ready_left b c u : ready b c u → (left_ c u <= N)%nat.
Proof using. intros (_ & _ & H). unfold left_. destruct (Z.eqb_spec c EOF) as [->|]; [lia|]. destruct H as [[? _]|[_ ?]]; [done | lia]. Qed.

Lemma tot_scan_exp fuel b w c u : ready b c u → c ≠ EOF → (S N < fuel)%nat → safe (scan_exp alloc fuel b w c) u (λ b' u', rest b' u').
Proof using HN.
  intros Hr Hc Hf. unfold scan_exp. eapply tot_bind, tot_get_if; [by apply ready_put|]. intros c1 u1 H1 _. apply tot_bind.
  eapply (tot_mono _ _ (λ r u', let '(b', _, c') := r in ready b' c' u')).
  { destruct (is_sign c1 && negb (w - 1 =? 0)) eqn:E; [|by apply tot_ret]. eapply tot_bind, tot_get_if; [apply ready_put; [exact H1 | intros ->; done]|]. intros c2 u2 H2 _. by apply tot_ret. }
  intros [[b2 w2] c2] u2 H2. eapply tot_bind, tot_mono; [apply tot_exp_digits; [exact H2|]; pose proof (ready_left _ _ _ H2); lia|]. intros [b3 c3] u3 H3. eapply tot_back; [exact H3|]. intros u4 H4. by apply tot_ret.
Qed.

Lemma tot_scan_float fuel b w u : rest b u → (S N < fuel)%nat → safe (scan_float alloc fuel b w) u (λ r u', rest (fst r) u').
Proof using HN.
  intros Hr Hf. unfold scan_float. eapply tot_bind, tot_mono; [by apply tot_sign|]. intros [[b1 w1] c1] u1 H1. destruct (_ && _) eqn:E; [apply andb_true_iff in E as [_ E]; apply tot_scan_inf, ready_put; [done | intros ->; done]|]. clear E.
  destruct (_ && _) eqn:E; [apply andb_true_iff in E as [_ E]; apply tot_scan_nan; [apply ready_put; [done | intros ->; done] | done]|]. clear E. apply tot_bind.
  eapply (tot_mono _ _ (λ r u', let '(b', _, c', _, _) := r in ready b' c' u')).
  { unfold float_prefix. destruct (_ && _) eqn:E; [|by apply tot_ret]. apply andb_true_iff in E as [E _]. apply Z.eqb_eq in E. eapply tot_next; [apply ready_put; [exact H1 | intros ->; done]|]. intros c2 u2 H2 _. destruct (_ && _) eqn:E2; [|by apply tot_ret]. apply andb_true_iff in E2 as [E2 _]. eapply tot_next; [apply ready_put; [exact H2 | intros ->; done]|]. intros c3 u3 H3 _. by apply tot_ret. }
  intros [[[[b2 w2] c2] hex] dg] u2 H2. eapply tot_bind, tot_mono; [apply tot_mant; [exact H2|]; pose proof (ready_left _ _ _ H2); lia|]. intros [[[b3 w3] c3] dg3] u3 H3. destruct (negb dg3); [eapply tot_back; [exact H3|]; intros u4 H4; by apply tot_ret|].
  destruct (_ && _) eqn:E; [|eapply tot_back; [exact H3|]; intros u4 H4; by apply tot_ret]. apply andb_true_iff in E as [_ E]. eapply tot_bind, tot_mono; [apply tot_scan_exp; [exact H3 | intros ->; by destruct hex | done]|]. intros b4 u4 H4. by apply tot_ret.
Qed.

(** ** Conversions *)

Lemma cb_mem_string b : cb_ok b → (length (cb_s b) <= N)%nat → mem_ok (cb_mem b) ∧ cstr (cb_mem b) 4096 (cb_s b).
Proof using HN.
  intros (B1 & B2 & B3 & B4) Hl. unfold cb_mem. set (k := (Z.to_nat (cb_cap b) - length (cb_s b))%nat). assert (length (cb_s b ++ replicate k 0) = Z.to_nat (cb_cap b)) as Ht by (rewrite length_app, length_replicate; unfold k; lia). split.
  - apply mem_ok_block; [lia | done | rewrite Ht; lia | rewrite Ht, Z2Nat.id by lia; done|]. apply forallb_forall. intros x Hx%list_elem_of_In. apply elem_of_app in Hx as [Hx|Hx]; [unfold good in B1; rewrite Forall_forall in B1; specialize (B1 x Hx); lia|]. apply elem_of_replicate in Hx as [-> _]. done.
  - split; [|done]. intros i x Hi. apply (bytes_write ∅ 4096 (cb_s b ++ replicate k 0)). assert (k = S (k - 1)) as -> by (unfold k; lia). cbn [replicate]. rewrite (cons_middle 0), app_assoc. by apply lookup_app_l_Some.
Qed.

Lemma tot_int_conv fuel t sz w dest u : rest cb_init u → (S N < fuel)%nat → safe (int_conv alloc fuel t sz w dest) u (λ _ u', rest cb_init u').
Proof using HN.
  intros Hr Hf. unfold int_conv. set (base := if (t =? 100) || (t =? 117) then 10 else if t =? 111 then 8 else if t =? 105 then 0 else 16). assert (base = 0 ∨ base = 8 ∨ base = 10 ∨ base = 16) as Hb by (unfold base; repeat case_match; auto).
  eapply tot_bind, tot_mono; [by apply tot_scan_int|]. intros [b base'] u1 [H1 Hb']. destruct (Z.ltb_spec base' 0) as [Hneg|Hpos]; [apply tot_stop|]. destruct (cb_oom b); [apply tot_stop|]. cbn [orb]. unfold int_value.
  apply tot_bind, tot_gets. intros st. apply tot_bind, tot_lift. destruct (cb_mem_string b) as [Hm Hs]; [by destruct H1 as (_ & ? & _) | destruct H1; lia|].
  assert (wp ((if (t =? 100) || (t =? 105) then strtoimax else strtoumax) (cb_mem b) 4096 base' (f_errno (s_f st))) (λ _, True)) as (r & Er & _).
  { destruct ((t =? 100) || (t =? 105)); cbn iota; [rewrite strtoimax_strtol, (strtol_ok _ _ _ _ _ Hm Hs) by lia | rewrite strtoumax_strtoul, (strtoul_ok _ _ _ _ _ Hm Hs) by lia]; by apply wp_ok. }
  exists r. split; [exact Er|]. destruct r as [[v p] e]. apply tot_bind, tot_errno, tot_ret. apply rest_forget in H1. destruct (t =? 112); by apply tot_store.
Qed.

Lemma strto_safe F b : std F → cb_ok b → (length (cb_s b) <= N)%nat → wp (strto F (cb_s b)) (λ _, True).
Proof using HN.
  intros HF (B1 & _) Hl. assert (Strtodspec.bytes (cb_s b)) as Hby by (eapply Forall_impl; [exact B1|]; unfold is_byte; lia). eapply wp_mono; [exact (strtod_read F (cb_s b) HF Hby ltac:(lia)) | done].
Qed.

Lemma tot_float_conv fuel sz w dest u : rest cb_init u → (S N < fuel)%nat → safe (float_conv alloc fuel sz w dest) u (λ _ u', rest cb_init u').
Proof using HN.
  intros Hr Hf. unfold float_conv. eapply tot_bind, tot_mono; [by apply tot_scan_float|]. intros [b r] u1 H1. cbn [fst] in H1. destruct (r <? 0); [apply tot_stop|]. destruct (cb_oom b); [apply tot_stop|]. cbn [orb]. assert (cb_ok b ∧ (length (cb_s b) <= N)%nat) as [Hb Hl] by (destruct H1 as (? & ? & ?); split; [done | lia]).
  apply rest_forget in H1. destruct (dest =? 0); [by apply tot_ret|].
  assert (∀ F (x : num → sval), std F → safe ('(y, _, er) ← lift (strto F (cb_s b)); float_errno er;; store dest (x y)) u1 (λ _ u', rest cb_init u')) as Hgo.
  { intros F x HF. apply tot_bind, tot_lift. eapply wp_mono; [by apply strto_safe|]. intros [[y n] er] _. apply tot_bind. unfold float_errno. destruct er; [apply tot_errno | apply tot_ret]; by apply tot_store. }
  destruct sz; apply Hgo; unfold std; auto.
Qed.

Lemma tot_field is_c set width : ∀ fuel got d c u, rest cb_init u → (length u < fuel)%nat → safe (field alloc fuel is_c set width got d c) u (λ _ u', rest cb_init u').
Proof using.
  induction fuel as [|fuel IH]; intros got d c u Hr Hf; [lia|]. cbn [field]. destruct (got <? width); [|by apply tot_ret]. eapply tot_bind, tot_get; [exact Hr|]. intros c' u' (Hg & Hb & Hc) Hl _. cbn [cb_init cb_s length] in Hc. unfold left_ in Hl. destruct (Z.eqb_spec c' EOF) as [->|Hne].
  - apply tot_ret. apply rest_init; [done|]. destruct Hc as [[_ ?]|[_ ?]]; lia.
  - destruct Hc as [[? _]|[Hc HcN]]; [done|]. assert (rest cb_init u') as Hr' by (apply rest_init; [done | lia]). destruct (negb is_c && negb (set_at set c')).
    + eapply (tot_back cb_init); [split; [done|]; split; [apply Hr'|]; right; split; [done | cbn; lia]|]. intros u2 H2. by apply tot_ret.
    + apply tot_gets. intros st. apply tot_bind, tot_lift. eapply wp_mono; [by apply tot_sd_byte|]. intros [d'|] _; [apply IH; [done | lia]|]. apply tot_bind, tot_errno. by apply tot_ret.
Qed.

Lemma tot_deliver dest d u (Q : unit → list Z → Prop) : Q () u → safe (deliver dest d) u Q.
Proof using. intros HQ. unfold deliver. destruct (d_alloc d); [by apply tot_ret | by apply tot_store]. Qed.

Lemma tot_fail_alloc {A} dest d l u (Q : A → list Z → Prop) : safe (fail_alloc dest d l) u Q.
Proof using. unfold fail_alloc. apply tot_bind, tot_deliver, tot_stop. Qed.

Lemma tot_text_conv fuel is_c wide al set width dest u : rest cb_init u → (S N < fuel)%nat → safe (text_conv alloc fuel is_c wide al set width dest) u (λ _ u', rest cb_init u').
Proof using.
  intros Hr Hf. unfold text_conv. eapply tot_bind, tot_mono; [apply tot_field; [exact Hr | pose proof (rest_length _ _ Hr); lia]|]. intros [d r] u1 H1. destruct r as [[got c]|]; [|apply tot_fail_alloc].
  destruct (_ && _); [apply tot_fail_alloc|]. destruct (got =? 0); [apply tot_fail_alloc|]. destruct (negb (init d)); [apply tot_fail_alloc|]. set (d' := if is_c then d else _). destruct (d_fail d'); [apply tot_bind, tot_errno, tot_fail_alloc|].
  apply tot_bind. destruct (d_alloc d'); [apply tot_store | apply tot_deliver]; by apply tot_matched.
Qed.
End Safe.

(** ** The format *)

Section Format.
Context (N : nat) (HN : Z.of_nat N <= 10000000) (alloc : Z → bool) (fuel : nat) (Hfuel : (S N < fuel)%nat).
Context (fmt ap : list Z) (Hfmt : good fmt) (Hlast : last fmt ≠ Some 45).
#[local] Abbreviation rest0 := (rest N cb_init).

(** What is at an index: the terminator or a byte. *)
Definition byte_at (i : nat) (c : Z) : Prop := c = 0 ∧ i = length fmt ∨ 0 < c < 256 ∧ (i < length fmt)%nat ∧ fmt !! i = Some c.

Lemma tot_at i u (Q : Z → list Z → Prop) : (i <= length fmt)%nat → (∀ c, byte_at i c → Q c u) → safe (at_ fmt i) u Q.
Proof using All.
  intros Hi HQ. unfold at_. apply tot_lift. unfold fmt_at. rewrite (proj2 (Nat.leb_le _ _)) by done. apply wp_ok, HQ. destruct (decide (i < length fmt)%nat) as [Hlt|Hge].
  - destruct (lookup_lt_is_Some_2 fmt i Hlt) as [c Hc]. right. rewrite (nth_lookup_Some _ _ 0 _ Hc). split; [exact (Forall_lookup_1 _ _ _ _ Hfmt Hc) | done].
  - left. rewrite nth_overflow by lia. split; [done | lia].
Qed.

Lemma byte_inside i c : byte_at i c → c ≠ 0 → (i < length fmt)%nat.
Proof using All. intros [[-> _]|(_ & H & _)]; done. Qed.

Lemma tot_digits step : ∀ n v i u, (i <= length fmt)%nat → (length fmt - i < n)%nat → rest0 u → safe (digits_while fmt n step v i) u (λ r u', (i <= r.2 <= length fmt)%nat ∧ rest0 u').
Proof using All.
  induction n as [|n IH]; intros v i u Hi Hn Hr; [lia|]. cbn [digits_while]. apply tot_bind, tot_at; [done|]. intros c Hc. destruct (is_dig c) eqn:E; [|apply tot_ret; cbn; split; [lia | done]]. assert (i < length fmt)%nat as Hlt by (eapply byte_inside; [exact Hc | by intros ->]).
  destruct (step v (c - 48)) as [v'|]; [|apply tot_ret; cbn; split; [lia | done]]. eapply tot_mono; [apply (IH v' (S i)); [lia | lia | done]|]. intros [v2 j] u' [H1 H2]. cbn in *. split; [lia | done].
Qed.

Lemma tot_position sup i u : (i <= length fmt)%nat → rest0 u → safe (position fmt ap sup i) u (λ r u', (i <= r.2 <= length fmt)%nat ∧ rest0 u').
Proof using All.
  intros Hi Hr. unfold position. apply tot_bind, tot_at; [done|]. intros c Hc. destruct (_ && _); [|apply tot_ret; cbn; split; [lia | done]].
  eapply tot_bind, tot_mono; [apply tot_digits; [done | lia | exact Hr]|]. intros [n q] u1 [H1 Hr1]. cbn [snd] in H1. apply tot_bind, tot_at; [lia|]. intros c2 Hc2. destruct (Z.eqb_spec c2 36) as [->|]; [|apply tot_ret; cbn; split; [lia | done]]. apply tot_gets. intros st. destruct (_ || _); [apply tot_stop|].
  apply tot_bind, tot_set_pos. apply tot_bind, tot_arg_n. intros p. apply tot_ret. cbn. pose proof (byte_inside _ _ Hc2 ltac:(done)). split; [lia | done].
Qed.

Lemma tot_length_mod i u : (i <= length fmt)%nat → rest0 u → safe (length_mod fmt i) u (λ r u', (i <= r.2 <= length fmt)%nat ∧ rest0 u').
Proof using All.
  intros Hi Hr. unfold length_mod. apply tot_bind, tot_at; [done|]. intros c Hc. pose proof (byte_inside i c Hc) as Hin.
  destruct (Z.eqb_spec c 104) as [->|_]; [specialize (Hin ltac:(done)); apply tot_bind, tot_at; [lia|]; intros c' Hc'; apply tot_ret; destruct (Z.eqb_spec c' 104) as [->|]; cbn; (split; [|done]); [pose proof (byte_inside _ _ Hc' ltac:(done))|]; lia|].
  destruct (Z.eqb_spec c 108) as [->|_]; [specialize (Hin ltac:(done)); apply tot_bind, tot_at; [lia|]; intros c' Hc'; apply tot_ret; destruct (Z.eqb_spec c' 108) as [->|]; cbn; (split; [|done]); [pose proof (byte_inside _ _ Hc' ltac:(done))|]; lia|].
  destruct (Z.eqb_spec c 113) as [->|_]; [specialize (Hin ltac:(done)); apply tot_ret; cbn; split; [lia | done]|]. destruct (Z.eqb_spec c 76) as [->|_]; [specialize (Hin ltac:(done)); apply tot_ret; cbn; split; [lia | done]|].
  destruct (_ || _) eqn:E; apply tot_ret; cbn; (split; [|done]); [|lia]. assert (c ≠ 0) as Hc0 by (intros ->; done). specialize (Hin Hc0). lia.
Qed.

(** A range at the end of the format would leave it. *)
Lemma tot_set_members v : ∀ n set i u, (i <= length fmt)%nat → (length fmt - i < n)%nat → rest0 u → safe (set_members fmt n v set i) u (λ r u', (i <= r.2 < length fmt)%nat ∧ rest0 u').
Proof using All.
  induction n as [|n IH]; intros set i u Hi Hn Hr; [lia|]. cbn [set_members]. apply tot_bind, tot_at; [done|]. intros c Hc. destruct (Z.eqb_spec c 93) as [->|_]; [apply tot_ret; cbn; pose proof (byte_inside _ _ Hc ltac:(done)); split; [lia | done]|]. destruct (Z.eqb_spec c 0) as [->|H0]; [apply tot_stop|]. pose proof (byte_inside _ _ Hc H0) as Hlt.
  apply tot_bind. eapply (tot_mono _ _ (λ r u', rest0 u' ∧ match r with Some _ => (S i < length fmt)%nat | None => True end)).
  { destruct (Z.eqb_spec c 45) as [->|]; [|by apply tot_ret]. apply tot_bind, tot_at; [lia|]. intros nx Hnx. apply tot_bind, tot_at; [lia|]. intros pv _. apply tot_ret. split; [done|]. destruct (_ && _); [|done]. apply (byte_inside _ nx); [done|]. intros ->. apply Hlast. destruct Hnx as [[_ E]|(? & _)]; [|lia].
    destruct Hc as [[? _]|(_ & _ & Hc)]; [done|]. rewrite last_lookup. by replace (Init.Nat.pred (length fmt)) with i by lia. }
  intros range u' [Hr' Hrange]. destruct range as [[a b]|]; (eapply tot_mono; [apply IH; [lia | lia | done]|]; intros [s j] u2 [H1 H2]; cbn in *; split; [lia | done]).
Qed.

Lemma tot_bracket i u : (i <= length fmt)%nat → rest0 u → safe (bracket fmt i) u (λ r u', (i <= r.2 < length fmt)%nat ∧ rest0 u').
Proof using All.
  intros Hi Hr. unfold bracket. apply tot_bind, tot_at; [done|]. intros c Hc. set (i1 := if c =? 94 then S i else i). assert (i <= i1 <= length fmt)%nat as H1. { unfold i1. destruct (Z.eqb_spec c 94) as [->|]; [pose proof (byte_inside _ _ Hc ltac:(done))|]; lia. }
  apply tot_bind, tot_at; [lia|]. intros c2 Hc2. destruct (Z.eqb_spec c2 93) as [->|].
  - pose proof (byte_inside _ _ Hc2 ltac:(done)). eapply tot_mono; [apply tot_set_members; [lia | lia | done]|]. intros [s j] u2 [? ?]. cbn in *. split; [lia | done].
  - eapply tot_mono; [apply tot_set_members; [lia | lia | done]|]. intros [s j] u2 [? ?]. cbn in *. split; [lia | done].
Qed.

Lemma tot_lead t u : rest0 u → safe (lead_space fuel t) u (λ _ u', rest0 u').
Proof using All.
  intros Hr. unfold lead_space. destruct (_ || _); [by apply tot_ret|]. eapply tot_bind, tot_mono; [apply tot_skip_space; [exact Hr | pose proof (rest_length _ _ _ Hr); lia]|]. intros c u1 H1. eapply tot_back; [exact H1|]. intros u2 H2. destruct (c =? EOF); [apply tot_stop | by apply tot_ret].
Qed.

Lemma tot_directive i u : (i <= length fmt)%nat → rest0 u → safe (directive alloc fuel fmt ap i) u (λ j u', (i <= j < length fmt)%nat ∧ rest0 u').
Proof using All.
  intros Hi Hr. unfold directive. apply tot_bind, tot_at; [done|]. intros c Hc. set (i1 := if c =? 42 then S i else i). assert (i <= i1 <= length fmt)%nat as H1. { unfold i1. destruct (Z.eqb_spec c 42) as [->|]; [pose proof (byte_inside _ _ Hc ltac:(done))|]; lia. }
  eapply tot_bind, tot_mono; [apply tot_position; [lia | exact Hr]|]. intros [dest i2] u2 [H2 R2]. cbn [snd] in H2. eapply tot_bind, tot_mono; [apply tot_digits; [lia | lia | exact R2]|]. intros [w j] u3 [H3 R3]. cbn [snd] in H3. destruct (_ && _); [apply tot_stop|].
  apply tot_bind, tot_at; [lia|]. intros c3 Hc3. set (i3 := if c3 =? 109 then S j else j). assert (j <= i3 <= length fmt)%nat as H4. { unfold i3. destruct (Z.eqb_spec c3 109) as [->|]; [pose proof (byte_inside _ _ Hc3 ltac:(done))|]; lia. }
  eapply tot_bind, tot_mono; [apply tot_length_mod; [lia | exact R3]|]. intros [sz i5] u5 [H5 R5]. cbn [snd] in H5. apply tot_bind, tot_at; [lia|]. intros t Ht. destruct (Z.eqb_spec t 0) as [->|Ht0]; [apply tot_stop|]. pose proof (byte_inside _ _ Ht Ht0) as Hlt.
  apply tot_bind. eapply (tot_mono _ _ (λ _ u', rest0 u')). { destruct (_ && _); [|by apply tot_ret]. apply tot_gets. intros st. destruct (0 <? s_pos st); [apply tot_stop|]. apply tot_bind, tot_set_pos. by apply tot_va_arg. }
  intros dest2 u6 R6. destruct (_ && _); [apply tot_stop|]. eapply tot_bind, tot_mono; [by apply tot_lead|]. intros [] u7 R7. destruct (t =? 110).
  { apply tot_gets. intros st. apply tot_bind. unfold store_int. apply tot_store. apply tot_ret. split; [lia | done]. }
  destruct (one_of t (lit "cCsS[")).
  - apply tot_bind. eapply (tot_mono _ _ (λ r u', (i5 <= r.2 < length fmt)%nat ∧ rest0 u')). { destruct (t =? 91); [eapply tot_mono; [apply tot_bracket; [lia | exact R7]|]; intros [s k] u8 [? ?]; cbn in *; split; [lia | done] | apply tot_ret; cbn; split; [lia | done]]. }
    intros [s k] u8 [H8 R8]. cbn [snd] in H8. eapply tot_bind, tot_mono; [by apply tot_text_conv|]. intros [] u9 R9. apply tot_ret. split; [lia | done].
  - apply tot_bind. eapply (tot_mono _ _ (λ _ u', rest0 u')). { destruct (one_of t (lit "diuoxXp")); [by apply tot_int_conv|]. destruct (one_of t (lit "aAeEfFgG")); [by apply tot_float_conv | apply tot_stop]. }
    intros [] u8 R8. apply tot_bind, tot_matched, tot_ret. split; [lia | done].
Qed.

Lemma tot_skip_fmt : ∀ n i u, (i < length fmt)%nat → (length fmt - i <= n)%nat → rest0 u → safe (skip_fmt fmt n i) u (λ j u', (i <= j < length fmt)%nat ∧ rest0 u').
Proof using All.
  induction n as [|n IH]; intros i u Hi Hn Hr; [lia|]. cbn [skip_fmt]. apply tot_bind, tot_at; [lia|]. intros c Hc. destruct (isspace c) eqn:E; [|apply tot_ret; split; [lia | done]]. assert (S i < length fmt)%nat as Hlt by (eapply byte_inside; [exact Hc | by intros ->]).
  eapply tot_mono; [apply (IH (S i)); [done | lia | done]|]. intros j u' [? ?]. split; [lia | done].
Qed.

Lemma tot_literal ch c b u (Q : unit → list Z → Prop) : ready N b c u → 0 < ch → (∀ u', rest N b u' → Q () u') → safe (literal ch c) u Q.
Proof using All.
  intros Hc Hch HQ. unfold literal. destruct (Z.eqb_spec c ch) as [->|]; cbn [negb].
  - apply tot_ret, HQ. destruct Hc as (H1 & H2 & H3). split; [done|]. split; [done|]. destruct H3 as [[_ ?]|[_ ?]]; lia.
  - eapply tot_back; [exact Hc|]. intros u' _. apply tot_stop.
Qed.

Lemma tot_turn i ch u : (i < length fmt)%nat → 0 < ch → rest0 u → safe (turn alloc fuel fmt ap i ch) u (λ j u', (i <= j < length fmt)%nat ∧ rest0 u').
Proof using All.
  intros Hi Hch Hr. unfold turn. destruct (isspace ch).
  - eapply tot_bind, tot_mono; [apply tot_skip_fmt; [done | lia | exact Hr]|]. intros j u1 [H1 R1]. eapply tot_bind, tot_mono; [apply tot_skip_space; [exact R1 | pose proof (rest_length _ _ _ R1); lia]|]. intros c u2 H2. eapply tot_back; [exact H2|]. intros u3 R3. apply tot_ret. split; [lia | done].
  - apply tot_bind, tot_at; [lia|]. intros nx Hnx. destruct (negb (ch =? 37)).
    + eapply tot_next; [exact Hr|]. intros c u1 H1 _. apply tot_bind. eapply tot_literal; [exact H1 | done|]. intros u2 R2. apply tot_ret. split; [lia | done].
    + destruct (Z.eqb_spec nx 37) as [->|].
      * pose proof (byte_inside _ _ Hnx ltac:(done)). eapply tot_bind, tot_mono; [apply tot_skip_space; [exact Hr | pose proof (rest_length _ _ _ Hr); lia]|]. intros c u1 H1. apply tot_bind. eapply tot_literal; [exact H1 | done|]. intros u2 R2. apply tot_ret. split; [lia | done].
      * eapply tot_mono; [apply tot_directive; [lia | done]|]. intros j u1 [? ?]. split; [lia | done].
Qed.

Lemma tot_core_loop : ∀ n i u, (i <= length fmt)%nat → (length fmt - i < n)%nat → rest0 u → safe (core_loop alloc fuel fmt ap n i) u (λ _ u', rest0 u').
Proof using All.
  induction n as [|n IH]; intros i u Hi Hn Hr; [lia|]. cbn [core_loop]. apply tot_bind, tot_at; [done|]. intros ch Hch. destruct (Z.eqb_spec ch 0) as [->|H0]; [by apply tot_ret|]. pose proof (byte_inside _ _ Hch H0) as Hlt. assert (0 < ch) as Hpos by (destruct Hch as [[? _]|(? & _)]; [done | lia]).
  eapply tot_bind, tot_mono; [by apply tot_turn|]. intros j u1 [H1 R1]. apply IH; [lia | lia | done].
Qed.
End Format.

(** ** The theorem *)



(** The minus sign at the end of an unterminated set: the next byte read is
    behind the terminator of the format. *)
Lemma scanset_past_end : vsscanf (λ _, true) (lit "b") (lit "%[a-") [8] = Trap Segv.
Proof. vm_compute. reflexivity. Qed.
