(* ===== verification/Inet.v ===== *)
(** * Internet addresses and their text (src/src/socket.c)

    A string is the bytes before its terminator; a position in it is the rest
    from there. Addresses are lists of bytes in network order. The texts of
    numbers come from the model of printf. The local buffer of inet_ntop is
    checked: a store past it is a trap. *)
From S2P Require Import Prelude Lit Strtol Fpround Strtod Stdio Stdioout Printf Printfout Printfdec Printffloat Printfeq Scanfspec.

Definition AF_INET : Z := 2.
Definition AF_INET6 : Z := 10.
Definition EAFNOSUPPORT : Z := 97.
Definition ENOSPC : Z := 28.
Definition INET6_ADDRSTRLEN : Z := 46.
Definition INET_ADDRSTRLEN : Z := 16.
Definition INADDR_NONE : Z := 0xffffffff.

(** ** Byte order *)

Definition htons (x : Z) : Z := Z.lor (Z.shiftl (Z.land x 0xff) 8) (Z.land (Z.shiftr x 8) 0xff).
Definition ntohs (x : Z) : Z := htons x.
Definition htonl (x : Z) : Z :=
  Z.lor (Z.lor (Z.shiftl (Z.land x 0xff) 24) (Z.shiftl (Z.land (Z.shiftr x 8) 0xff) 16))
        (Z.lor (Z.shiftl (Z.land (Z.shiftr x 16) 0xff) 8) (Z.land (Z.shiftr x 24) 0xff)).
Definition ntohl (x : Z) : Z := htonl x.

(** ** Text to binary *)

(** Up to [n] decimal digits: the value and the rest. *)
Fixpoint dec_part (n : nat) (v : Z) (s : list Z) : Z * list Z :=
  match n, s with
  | S n, c :: s' => if is_digit c then dec_part n (v * 10 + (c - 48)) s' else (v, s)
  | _, _ => (v, s)
  end.

(** The parts from [i] on; the bytes and the end, or None for 0. *)
Fixpoint pton4_loop (k : nat) (s : list Z) (out : list Z) : option (list Z * list Z) :=
  match k with
  | O => Some (out, s)
  | S k =>
      if negb (is_digit (cur s)) then None
      else if (cur s =? 48) && is_digit (cur (tail s)) then None
      else
        let '(v, s) := dec_part 3 0 s in
        if is_digit (cur s) || (255 <? v) then None
        else
          let out := out ++ [u8 v] in
          if (0 <? k)%nat then (if cur s =? 46 then pton4_loop k (tail s) out else None)
          else pton4_loop k s out
  end.

Definition pton4 (s : list Z) : option (list Z * list Z) := pton4_loop 4 s [].

Fixpoint skip_digits (s : list Z) : list Z := match s with c :: s' => if is_digit c then skip_digits s' else s | [] => [] end.

(** Up to [n] hexadecimal digits: the value, their number and the rest. *)
Fixpoint hex_part (n : nat) (v d : Z) (s : list Z) : Z * Z * list Z :=
  match n with
  | O => (v, d, s)
  | S n =>
      let c := cur s in
      if u32 (c - 48) <? 10 then hex_part n (v * 16 + c - 48) (d + 1) (tail s)
      else if u32 (Z.lor c 32 - 97) <? 6 then hex_part n (v * 16 + Z.lor c 32 - 97 + 10) (d + 1) (tail s)
      else (v, d, s)
  end.

(** The loop of pton6: the groups and the place of the gap, or None for 0.
    Every turn consumes a character. *)
Fixpoint pton6_loop (fuel : nat) (s : list Z) (gap : Z) (g : list Z) : res (option (list Z * Z)) :=
  if cur s =? 0 then Ok (Some (g, gap))
  else
    match fuel with
    | O => Trap Fuel
    | S fuel =>
        let n := Z.of_nat (length g) in
        if cur s =? 58 then
          if 0 <=? gap then Ok None
          else
            let s := tail s in
            if cur s =? 0 then Ok (Some (g, n)) else pton6_loop fuel s n g
        else if n =? 8 then Ok None
        else if cur (skip_digits s) =? 46 then
          if 6 <? n then Ok None
          else
            match pton4 s with
            | Some ([a; b; c; d], e) =>
                if negb (cur e =? 0) then Ok None
                else Ok (Some (g ++ [u16 (Z.lor (Z.shiftl a 8) b); u16 (Z.lor (Z.shiftl c 8) d)], gap))
            | _ => Ok None
            end
        else
          let '(v, d, s) := hex_part 5 0 0 s in
          if (d =? 0) || (4 <? d) then Ok None
          else
            let g := g ++ [u16 v] in
            if cur s =? 58 then
              let s := tail s in
              if cur s =? 0 then Ok None else pton6_loop fuel s gap g
            else if negb (cur s =? 0) then Ok None
            else pton6_loop fuel s gap g
    end.

(** The eight groups with zeros in the gap; [j] is the next of the groups. *)
Fixpoint expand (k : nat) (i : Z) (j : nat) (g : list Z) (gap fill : Z) : list Z :=
  match k with
  | O => []
  | S k =>
      if (0 <=? gap) && (gap <=? i) && (i <? gap + fill) then 0 :: expand k (i + 1) j g gap fill
      else nth j g 0 :: expand k (i + 1) (S j) g gap fill
  end.

Definition group_bytes (g : list Z) : list Z := concat ((λ v, [u8 (Z.shiftr v 8); u8 v]) <$> g).

Definition pton6 (s : list Z) : res (option (list Z)) :=
  if (cur s =? 58) && negb (cur (tail s) =? 58) then Ok None
  else
    let s := if cur s =? 58 then tail s else s in
    r ← pton6_loop (S (length s)) s (-1) [];
    Ok (match r with
        | None => None
        | Some (g, gap) =>
            let n := Z.of_nat (length g) in
            if (if gap <? 0 then negb (n =? 8) else n =? 8) then None
            else Some (group_bytes (expand 8 0 0 g gap (8 - n)))
        end).

(** The result, what is stored at dst, and errno if it is set. *)
Definition inet_pton (af : Z) (s : list Z) : res (Z * option (list Z) * option Z) :=
  if af =? AF_INET then
    Ok (match pton4 s with
        | Some (b, e) => if cur e =? 0 then (1, Some b, None) else (0, None, None)
        | None => (0, None, None)
        end)
  else if af =? AF_INET6 then
    r ← pton6 s; Ok (match r with Some b => (1, Some b, None) | None => (0, None, None) end)
  else Ok (-1, None, Some EAFNOSUPPORT).

(** The digits of a part of the legacy form; None for more than 32 bits. *)
Fixpoint aton_digits (s : list Z) (base v : Z) (any : bool) : option (Z * bool * list Z) :=
  match s with
  | [] => Some (v, any, [])
  | c :: s' =>
      let d := if u32 (c - 48) <? 10 then c - 48 else if u32 (Z.lor c 32 - 97) <? 6 then Z.lor c 32 - 97 + 10 else 99 in
      if base <=? d then Some (v, any, s)
      else
        let v := v * base + d in
        if 0xffffffff <? v then None else aton_digits s' base v true
  end.

Fixpoint aton_parts (k : nat) (s : list Z) (part : list Z) : option (list Z * list Z) :=
  match k with
  | O => Some (part, s)
  | S k =>
      if negb (is_digit (cur s)) then None
      else
        let '(base, s) :=
          if cur s =? 48 then (if Z.lor (cur (tail s)) 32 =? 120 then (16, tail (tail s)) else (8, s)) else (10, s) in
        match aton_digits s base 0 false with
        | None => None
        | Some (v, any, s) =>
            if negb any && negb (base =? 8) then None
            else
              let part := part ++ [v] in
              if negb (cur s =? 46) || (k =? 0)%nat then Some (part, s) else aton_parts k (tail s) part
        end
  end.

(** The address as a number in host order, or None for 0. *)
Definition inet_aton (s : list Z) : option Z :=
  match aton_parts 4 s [] with
  | None => None
  | Some (part, e) =>
      if negb (cur e =? 0) && negb (cur e =? 32) then None
      else
        match part with
        | [a] => Some a
        | [a; b] => if (255 <? a) || (0xffffff <? b) then None else Some (Z.lor (Z.shiftl a 24) b)
        | [a; b; c] => if (255 <? a) || (255 <? b) || (0xffff <? c) then None else Some (Z.lor (Z.lor (Z.shiftl a 24) (Z.shiftl b 16)) c)
        | [a; b; c; d] =>
            if (255 <? a) || (255 <? b) || (255 <? c) || (255 <? d) then None
            else Some (Z.lor (Z.lor (Z.lor (Z.shiftl a 24) (Z.shiftl b 16)) (Z.shiftl c 8)) d)
        | _ => None
        end
  end.

(** The value of s_addr. *)
Definition inet_addr (s : list Z) : Z := match inet_aton s with Some a => htonl (u32 a) | None => INADDR_NONE end.

(** ** Binary to text *)

(** A store of [t] at the end of [acc] in the buffer of inet_ntop. *)
Definition put_buf (acc t : list Z) : res (list Z) := if Z.of_nat (length acc + length t) <=? INET6_ADDRSTRLEN then Ok (acc ++ t) else Trap Segv.

Definition byte_of (a : list Z) (i : nat) : Z := nth i a 0.
Definition groups_of (a : list Z) : list Z := (λ i, u16 (Z.lor (Z.shiftl (byte_of a (2 * i)) 8) (byte_of a (2 * i + 1)))) <$> seq 0 8.

(** while (j < 8 && !g[j]) j++; *)
Fixpoint zero_run (k : nat) (g : list Z) (j : nat) : nat :=
  match k with O => j | S k => if (j <? 8)%nat && (nth j g 0 =? 0) then zero_run k g (S j) else j end.

(** The run of zeros to compress: best and blen. *)
Fixpoint best_run (k : nat) (g : list Z) (i : nat) (best blen : Z) : Z * Z :=
  match k with
  | O => (best, blen)
  | S k =>
      if (8 <=? i)%nat then (best, blen)
      else if negb (nth i g 0 =? 0) then best_run k g (S i) best blen
      else
        let j := zero_run 8 g i in
        if blen <? Z.of_nat (j - i) then best_run k g j (Z.of_nat i) (Z.of_nat (j - i)) else best_run k g j best blen
  end.

(** sprintf(p, "%x", v): the text; its terminator is overwritten. *)
Definition hex_text (v : Z) : res (list Z * Z) := vsprintf (lit "%x") [VInt v] [].

Fixpoint put_groups (k : nat) (g : list Z) (i : nat) (best blen : Z) (acc : list Z) : res (list Z) :=
  match k with
  | O => Ok acc
  | S k =>
      if (8 <=? i)%nat then Ok acc
      else if Z.of_nat i =? best then
        acc ← put_buf acc ([58] ++ if (i =? 0)%nat then [58] else []);
        put_groups k g (i + Z.to_nat blen) best blen acc
      else
        '(t, r) ← hex_text (nth i g 0);
        acc' ← put_buf acc t;
        let acc := take (length acc + Z.to_nat r) acc' in
        acc ← (if (i <? 7)%nat then put_buf acc [58] else Ok acc);
        put_groups k g (S i) best blen acc
  end.

(** The string in a buffer. *)
Fixpoint until_nul (l : list Z) : list Z := match l with [] => [] | c :: l => if c =? 0 then [] else c :: until_nul l end.

Definition mapped_form (g : list Z) : bool :=
  forallb (λ v, v =? 0) (take 5 g) && ((nth 5 g 0 =? 0xffff) || ((nth 5 g 0 =? 0) && negb (nth 6 g 0 =? 0))).

(** The buffer as it is filled, up to its terminator. *)
Definition ntop_text (af : Z) (a : list Z) : res (list Z) :=
  let b i := VInt (byte_of a i) in
  if af =? AF_INET then
    '(buf, _) ← vsnprintf INET6_ADDRSTRLEN (lit "%u.%u.%u.%u") [b 0%nat; b 1%nat; b 2%nat; b 3%nat] [];
    Ok (until_nul buf)
  else
    let g := groups_of a in
    if mapped_form g then
      '(buf, _) ← vsnprintf INET6_ADDRSTRLEN (lit "::%s%u.%u.%u.%u") [VStr (Some (if nth 5 g 0 =? 0 then [] else lit "ffff:")); b 12%nat; b 13%nat; b 14%nat; b 15%nat] [];
      Ok (until_nul buf)
    else
      let '(best, blen) := best_run 8 g 0 (-1) 1 in
      acc ← put_groups 8 g 0 best blen [];
      buf ← put_buf acc [0];
      Ok (until_nul buf).

(** The string stored at dst, or null and errno. *)
Definition inet_ntop (af : Z) (a : list Z) (len : Z) : res (option (list Z) * option Z) :=
  if negb (af =? AF_INET) && negb (af =? AF_INET6) then Ok (None, Some EAFNOSUPPORT)
  else
    t ← ntop_text af a;
    if len <=? Z.of_nat (length t) then Ok (None, Some ENOSPC) else Ok (Some t, None).

Definition inet_ntoa (a : list Z) : res (option (list Z)) := '(t, _) ← inet_ntop AF_INET a INET_ADDRSTRLEN; Ok t.

(** ** The texts of the numbers *)

Definition uint_farg (lit_ : list Z) (conv z : Z) : farg := Farg lit_ [conv] (VInt z) 70 (λ t, t = fmt_u z (if conv =? 117 then 10 else 16) false).

Lemma uint_farg_ok {D} `{!Device D} str lit_ conv z : plain lit_ → conv = 117 ∨ conv = 120 → 0 <= z < 2 ^ 32 → farg_ok (D := D) str (uint_farg lit_ conv z).
Proof.
  intros Hl Hc Hz. split; cbn [uint_farg fa_lit fa_spec fa_arg fa_size fa_text]; [done | | lia | |].
  - exists conv, []. split; [done|]. by destruct Hc as [-> | ->].
  - intros rest o c l ap ts Hl0 Hc0 Hn. assert (u32 z = z) as Ez by (by apply uwrap_small). set (base := if conv =? 117 then 10 else 16). assert (base = 8 ∨ base = 10 ∨ base = 16) as Hb by (unfold base; destruct (conv =? 117); auto). destruct (fmt_u_base base z Hb ltac:(lia)) as (_ & _ & Hlen). set (d := fmt_u z base false) in *.
    exists (emit_field no_flags 0 [] 0 d). split; [|rewrite field_plain, field_plain_size; split; [done | cbn [length Z.of_nat]; lia]].
    erewrite (directive_plain str _ (conv :: rest) rest conv L_NONE T_UINT _ (AI (u32 z)) (-1)); [| done | destruct Hc as [-> | ->]; reflexivity..]. rewrite Ez. apply gives_directive; [| done | rewrite field_plain_size; cbn [length Z.of_nat]; lia]. destruct Hc as [-> | ->]; [exact (integer_gives 117 [] d) | exact (integer_gives 120 [] d)].
  - intros rest o c ap ts. exists (Pst o c (-1) ap ts). by destruct Hc as [-> | ->].
Qed.

Definition str_farg (lit_ w : list Z) : farg := Farg lit_ [115] (VStr (Some w)) (Z.of_nat (length w)) (λ t, t = w).

Lemma str_farg_ok {D} `{!Device D} str lit_ w : plain lit_ → farg_ok (D := D) str (str_farg lit_ w).
Proof.
  intros Hl. split; cbn [str_farg fa_lit fa_spec fa_arg fa_size fa_text]; [done | | lia | |].
  - by exists 115, [].
  - intros rest o c l ap ts Hl0 Hc0 Hn. exists (emit_field no_flags 0 [] 0 w). split; [|rewrite field_plain, field_plain_size; split; [done | cbn [length Z.of_nat]; lia]].
    erewrite (directive_plain str _ (115 :: rest) rest 115 L_NONE T_PTR _ (AP (VStr (Some w))) (-1)); [|done|reflexivity..]. apply gives_directive; [| done | rewrite field_plain_size; cbn [length Z.of_nat]; lia]. exact (text_gives w).
  - intros rest o c ap ts. by exists (Pst o c (-1) ap ts).
Qed.

Definition dec (z : Z) : list Z := fmt_u z 10 false.
Definition hex (z : Z) : list Z := fmt_u z 16 false.

(** A format whose texts are known, in a buffer. *)
Lemma vsnprintf_format n fs end_ : plain end_ → Forall (farg_ok (D := tape) []) fs → format_size fs end_ + 200 <= INT_MAX → ∀ text, (∀ tx, Forall2 fa_text fs tx → text_with fs tx end_ = text) → Z.of_nat (length text) < n →
  vsnprintf n (format_of fs end_) (fa_arg <$> fs) [] = Ok (text ++ [0], Z.of_nat (length text)).
Proof.
  intros He Hf Hs text Ht Hn. destruct (printed_format [] fs end_ He Hf Hs) as (tx & Hp & Htx & _). cbn zeta in Hp. rewrite (Ht tx Htx) in Hp. pose proof (vsnprintf_ok n (format_of fs end_) (fa_arg <$> fs) [] ltac:(lia)) as H. rewrite Hp in H. destruct H as [-> _]. rewrite (proj2 (Z.eqb_neq n 0)) by lia. by rewrite take_ge by lia.
Qed.

(** How many digits a number has. *)
Lemma fmt_u_loop_len base x k fuel acc : 2 <= base → (1 <= k)%nat → 0 <= x < base ^ Z.of_nat k → (length (fmt_u_loop fuel x base false acc) <= k + length acc)%nat.
Proof.
  intros Hb. revert x k acc. induction fuel as [|fuel IH]; intros x k acc Hk Hx; cbn [fmt_u_loop].
  - destruct (x / base =? 0); cbn; lia.
  - destruct (Z.eqb_spec (x / base) 0) as [E|E]; [cbn; lia|]. destruct k as [|[|k]]; [lia | |].
    + exfalso. apply E. apply Z.div_small. rewrite Z.pow_1_r in Hx. lia.
    + etrans; [apply (IH _ (S k)); [lia|]|cbn; lia]. split; [apply Z.div_pos; lia|]. apply Z.div_lt_upper_bound; [lia|]. rewrite <- Z.pow_succ_r by lia. replace (Z.succ (Z.of_nat (S k))) with (Z.of_nat (S (S k))) by lia. lia.
Qed.

Lemma hex_len_ok v : 0 <= v < 2 ^ 16 → (1 <= length (hex v) <= 4)%nat ∧ Forall (bdigit 16) (hex v) ∧ digits_value 16 (hex v) = v.
Proof.
  intros Hv. destruct (fmt_u_base 16 v ltac:(auto) ltac:(lia)) as (H1 & H2 & H3). split; [|done]. split; [exact (proj1 H3)|]. pose proof (fmt_u_loop_len 16 v 4 64 [] ltac:(lia) ltac:(lia) ltac:(change (16 ^ Z.of_nat 4) with (2 ^ 16); lia)) as H. cbn [length] in H. exact H.
Qed.

Lemma dec_byte_ok v : 0 <= v < 256 → (1 <= length (dec v) <= 3)%nat ∧ Forall digit (dec v) ∧ dval (dec v) = v ∧ (cur (dec v) = 48 → length (dec v) = 1%nat).
Proof.
  intros Hv. destruct (fmt_u_ok v ltac:(lia)) as (H1 & H2 & H3). pose proof (fmt_u_loop_len 10 v 3 64 [] ltac:(lia) ltac:(lia) ltac:(change (10 ^ Z.of_nat 3) with 1000; lia)) as H. unfold dec, fmt_u in *. cbn [length] in H. split_and!; [lia | lia | done | done|].
  intros Hc. pose proof (byte_forall (λ b, negb (cur (fmt_u_loop 64 b 10 false []) =? 48) || (length (fmt_u_loop 64 b 10 false []) =? 1)%nat) ltac:(vm_compute; reflexivity) v ltac:(unfold is_byte; lia)) as Hb. cbn beta in Hb. rewrite Hc in Hb. cbn [Z.eqb negb orb] in Hb. by apply Nat.eqb_eq.
Qed.

(** ** Reading back *)

Lemma digit_is_digit c : digit c → is_digit c = true.
Proof. unfold digit, is_digit. intros Hc. rewrite uwrap_small by lia. lia. Qed.

Lemma dec_part_ok ds : ∀ n v rest, Forall digit ds → (length ds <= n)%nat → is_digit (cur rest) = false → dec_part n v (ds ++ rest) = (foldl (λ a c, a * 10 + (c - 48)) v ds, rest).
Proof.
  induction ds as [|d ds IH]; intros n v rest Hd Hn Hr; cbn [app foldl].
  - destruct n, rest; try done. cbn [dec_part cur] in *. by rewrite Hr.
  - apply Forall_cons in Hd as [Hd Hds]. destruct n as [|n]; [cbn in Hn; lia|]. cbn [dec_part]. rewrite digit_is_digit by done. apply IH; [done | cbn in Hn; lia | done].
Qed.

Lemma dval_foldl ds : dval ds = foldl (λ a c, a * 10 + (c - 48)) 0 ds.
Proof.
  induction ds as [|c ds IH] using rev_ind; [done|]. rewrite dval_snoc, foldl_app, IH. cbn. lia.
Qed.

(** One part of a dotted quad. *)
Lemma pton4_part k v rest out : 0 <= v < 256 → is_digit (cur rest) = false →
  pton4_loop (S k) (dec v ++ rest) out = if (0 <? k)%nat then (if cur rest =? 46 then pton4_loop k (tail rest) (out ++ [v]) else None) else pton4_loop k rest (out ++ [v]).
Proof.
  intros Hv Hr. destruct (dec_byte_ok v Hv) as (Hlen & Hd & Hval & Hz). cbn [pton4_loop]. assert (cur (dec v ++ rest) = cur (dec v)) as Ec by (destruct (dec v); [cbn in Hlen; lia | done]). rewrite Ec. assert (is_digit (cur (dec v)) = true) as E1 by (destruct (dec v); [cbn in Hlen; lia|]; apply Forall_cons in Hd as [Hd _]; by apply digit_is_digit). rewrite E1. cbn [negb].
  assert ((cur (dec v) =? 48) && is_digit (cur (tail (dec v ++ rest))) = false) as E2. { destruct (Z.eqb_spec (cur (dec v)) 48) as [E|]; [|done]. specialize (Hz E). destruct (dec v) as [|c [|]]; cbn in Hz; try lia. exact Hr. }
  rewrite E2, dec_part_ok by (done || lia). rewrite <- dval_foldl, Hval, Hr. cbn [orb]. rewrite (proj2 (Z.ltb_ge 255 v)) by lia. by rewrite u8_id by (unfold is_byte; lia).
Qed.

Definition dotted (a b c d : Z) : list Z := dec a ++ 46 :: dec b ++ 46 :: dec c ++ 46 :: dec d.

Lemma pton4_ok a b c d rest : 0 <= a < 256 → 0 <= b < 256 → 0 <= c < 256 → 0 <= d < 256 → is_digit (cur rest) = false → pton4 (dotted a b c d ++ rest) = Some ([a; b; c; d], rest).
Proof.
  intros Ha Hb Hc Hd Hr. unfold pton4, dotted. rewrite <- !app_assoc, <- !app_comm_cons, <- !app_assoc, <- !app_comm_cons, <- !app_assoc, <- !app_comm_cons. do 3 (rewrite pton4_part by done; cbn [Nat.ltb Nat.leb cur tail]; change (46 =? 46) with true; cbn iota). by rewrite pton4_part by done.
Qed.

Lemma hex_char c : bdigit 16 c → (u32 (c - 48) <? 10) = true ∧ Strtol.digit_val c = c - 48 ∨ (u32 (c - 48) <? 10) = false ∧ (u32 (Z.lor c 32 - 97) <? 6) = true ∧ Strtol.digit_val c = Z.lor c 32 - 97 + 10.
Proof.
  intros (Hb & _ & Hd & _). pose proof (byte_forall (λ c, (16 <=? Strtol.digit_val c) || ((u32 (c - 48) <? 10) && (Strtol.digit_val c =? c - 48)) || (negb (u32 (c - 48) <? 10) && (u32 (Z.lor c 32 - 97) <? 6) && (Strtol.digit_val c =? Z.lor c 32 - 97 + 10))) ltac:(vm_compute; reflexivity) c Hb) as H. cbn beta in H. rewrite (proj2 (Z.leb_gt 16 _)) in H by done. cbn [orb] in H.
  destruct (u32 (c - 48) <? 10), (u32 (Z.lor c 32 - 97) <? 6); cbn [negb andb orb] in H; try done; [left | left | right]; (split; [done|]); try (split; [done|]); lia.
Qed.

Definition not_hex (c : Z) : Prop := (u32 (c - 48) <? 10) = false ∧ (u32 (Z.lor c 32 - 97) <? 6) = false.

Lemma hex_part_ok hs : ∀ n v d rest, Forall (bdigit 16) hs → (length hs < n)%nat → not_hex (cur rest) → hex_part n v d (hs ++ rest) = (foldl (λ a c, a * 16 + Strtol.digit_val c) v hs, d + Z.of_nat (length hs), rest).
Proof.
  induction hs as [|h hs IH]; intros n v d rest Hh Hn [R1 R2]; (destruct n as [|n]; [cbn in Hn; lia|]); cbn [app foldl length hex_part].
  - rewrite R1, R2. by rewrite Z.add_0_r.
  - apply Forall_cons in Hh as [Hh Hhs]. cbn [cur tail]. cbn [length] in Hn. destruct (hex_char h Hh) as [[-> E]|(-> & -> & E)]; rewrite IH by (done || lia); rewrite E; f_equal; try f_equal; try lia; f_equal; lia.
Qed.

Lemma skip_digits_hex hs rest : Forall (bdigit 16) hs → cur rest ≠ 46 → is_digit (cur rest) = false → cur (skip_digits (hs ++ rest)) ≠ 46.
Proof.
  intros Hh Hr Hd. induction Hh as [|h hs Hh _ IH]; cbn [app skip_digits].
  - destruct rest as [|c rest]; [done|]. cbn [cur skip_digits] in *. by rewrite Hd.
  - destruct (is_digit h); [exact IH|]. cbn [cur]. intros ->. destruct Hh as (_ & _ & H & _). by vm_compute in H.
Qed.

(** The groups with colons between them. *)
Fixpoint join (gs : list Z) : list Z := match gs with [] => [] | [v] => hex v | v :: gs => hex v ++ 58 :: join gs end.

Definition group_ok (v : Z) : Prop := 0 <= v < 2 ^ 16.

(** A group of the loop. *)
Lemma pton6_group fuel v rest gap g : group_ok v → (length g < 8)%nat → cur rest = 0 ∨ cur rest = 58 →
  pton6_loop (S fuel) (hex v ++ rest) gap g = if cur rest =? 58 then (if cur (tail rest) =? 0 then Ok None else pton6_loop fuel (tail rest) gap (g ++ [v])) else pton6_loop fuel rest gap (g ++ [v]).
Proof.
  intros Hv Hg Hr. destruct (hex_len_ok v Hv) as (Hlen & Hh & Hval). cbn [pton6_loop]. destruct (hex v) as [|h hs] eqn:Eh; [cbn in Hlen; lia|]. rewrite <- Eh in *. assert (cur (hex v ++ rest) = h) as Ec by (by rewrite Eh). rewrite Ec.
  assert (bdigit 16 h) as Hb by (rewrite Eh in Hh; by apply Forall_cons in Hh as [? _]). assert (h ≠ 0 ∧ h ≠ 58) as [N0 N1] by (destruct Hb as (_ & ? & Hd & _); split; [lia|]; intros ->; by vm_compute in Hd).
  rewrite (proj2 (Z.eqb_neq h 0)), (proj2 (Z.eqb_neq h 58)), (proj2 (Z.eqb_neq (Z.of_nat (length g)) 8)) by lia.
  assert (not_hex (cur rest) ∧ cur rest ≠ 46 ∧ is_digit (cur rest) = false) as (R1 & R2 & R3) by (by destruct Hr as [-> | ->]). rewrite (proj2 (Z.eqb_neq _ 46)) by (by apply skip_digits_hex).
  rewrite hex_part_ok by (done || lia). unfold digits_value in Hval. rewrite Hval. rewrite (proj2 (Z.eqb_neq _ 0)), (proj2 (Z.ltb_ge 4 _)) by lia. cbn [orb]. rewrite (uwrap_small 16) by (unfold group_ok in Hv; lia).
  destruct Hr as [E|E]; rewrite E; [change (0 =? 58) with false; change (0 =? 0) with true | change (58 =? 58) with true]; done.
Qed.

(** Groups up to the end of the text, or up to the gap. *)
Lemma pton6_groups gs : ∀ fuel tl gap g, gs ≠ [] → Forall group_ok gs → (length g + length gs <= 8)%nat → tl = [] ∨ (∃ r, tl = 58 :: 58 :: r) → (length (join gs ++ tl) < fuel)%nat →
  ∃ fuel', (length (tail tl) < fuel')%nat ∧ pton6_loop fuel (join gs ++ tl) gap g = pton6_loop fuel' (tail tl) gap (g ++ gs).
Proof.
  induction gs as [|v gs IH]; intros fuel tl gap g Hne Hok Hlen Htl Hf; [done|]. apply Forall_cons in Hok as [Hv Hok]. cbn [length] in Hlen. destruct (hex_len_ok v Hv) as (Hl & _). destruct fuel as [|fuel]; [lia|]. destruct gs as [|w gs].
  - cbn [join] in *. rewrite length_app in Hf. exists fuel. split; [destruct tl; cbn [length tail] in *; lia|]. rewrite pton6_group by (done || lia || (destruct Htl as [->|(r & ->)]; auto)). destruct Htl as [->|(r & ->)]; reflexivity.
  - change (join (v :: w :: gs)) with (hex v ++ 58 :: join (w :: gs)) in *. rewrite <- app_assoc, <- app_comm_cons in *. rewrite pton6_group by (done || lia || auto). cbn [cur tail]. change (58 =? 58) with true. cbn iota.
    assert (cur (join (w :: gs) ++ tl) ≠ 0) as Hc. { assert (group_ok w) as Hw by (by apply Forall_cons in Hok as [? _]). destruct (hex_len_ok w Hw) as (Hlw & Hhw & _). destruct (hex w) as [|h hs] eqn:Eh; [cbn in Hlw; lia|]. apply Forall_cons in Hhw as [(_ & ? & _) _]. assert (cur (join (w :: gs) ++ tl) = h) as -> by (destruct gs; cbn [join]; rewrite Eh; done). lia. }
    rewrite (proj2 (Z.eqb_neq _ 0)) by done. destruct (IH fuel tl gap (g ++ [v])) as (fuel' & H1 & H2); [done | done | rewrite length_app; cbn [length] in *; lia | done | rewrite length_app in Hf; cbn [length] in Hf; lia|]. exists fuel'. split; [done|]. rewrite H2. by rewrite <- app_assoc.
Qed.

(** ** Writing the groups *)

Lemma hex_text_ok v : group_ok v → hex_text v = Ok (hex v ++ [0], Z.of_nat (length (hex v))).
Proof.
  intros Hv. destruct (hex_len_ok v Hv) as (Hl & _). unfold hex_text, vsprintf. apply (vsnprintf_format SIZE_MAX [uint_farg [] 120 v] []); [constructor | | vm_compute; discriminate | | unfold SIZE_MAX; lia].
  - apply Forall_cons_2; [|apply Forall_nil_2]. apply uint_farg_ok; [constructor | by right | unfold group_ok in Hv; lia].
  - intros tx Ht. apply Forall2_cons_inv_l in Ht as (t & tx' & -> & H%Forall2_nil_inv_l & ->). subst tx'. cbn [text_with uint_farg fa_lit app]. by rewrite app_nil_r.
Qed.

Lemma put_buf_ok acc t : Z.of_nat (length acc + length t) <= 46 → put_buf acc t = Ok (acc ++ t).
Proof. intros H. unfold put_buf, INET6_ADDRSTRLEN. by rewrite (proj2 (Z.leb_le _ _)) by done. Qed.

(** The groups with a colon behind each. *)
Definition colons (gs : list Z) : list Z := concat ((λ v, hex v ++ [58]) <$> gs).

Lemma colons_cons v gs : colons (v :: gs) = hex v ++ [58] ++ colons gs.
Proof. unfold colons. cbn [fmap list_fmap concat]. by rewrite <- app_assoc. Qed.

Lemma colons_join gs : gs ≠ [] → colons gs = join gs ++ [58].
Proof. induction gs as [|v gs IH]; [done|]. intros _. unfold colons in *. cbn [fmap list_fmap concat]. destruct gs as [|w gs]; [by rewrite app_nil_r|]. rewrite IH by done. change (join (v :: w :: gs)) with (hex v ++ 58 :: join (w :: gs)). by rewrite <- !app_assoc. Qed.

Section Groups.
Context (g : list Z) (Hg : Forall group_ok g) (Hlen : length g = 8%nat) (best blen : Z).

Lemma group_at i : (i < 8)%nat → group_ok (nth i g 0) ∧ drop i g = nth i g 0 :: drop (S i) g.
Proof using Hg Hlen.
  intros Hi. destruct (lookup_lt_is_Some_2 g i ltac:(lia)) as [v Hv]. rewrite (nth_lookup_Some _ _ 0 _ Hv). split; [exact (Forall_lookup_1 _ _ _ _ Hg Hv)|]. by apply drop_S.
Qed.

(** One turn that prints a group. *)
Lemma put_group k i acc : (i < 8)%nat → Z.of_nat i ≠ best → (length acc <= 5 * i)%nat →
  put_groups (S k) g i best blen acc = put_groups k g (S i) best blen (acc ++ hex (nth i g 0) ++ if (i <? 7)%nat then [58] else []) ∧ (length (acc ++ hex (nth i g 0%Z) ++ if (i <? 7)%nat then [58%Z] else []) <= 5 * S i)%nat.
Proof using Hg Hlen.
  intros Hi Hb Ha. destruct (group_at i Hi) as [Hv _]. destruct (hex_len_ok _ Hv) as (Hl & _). cbn [put_groups]. replace (8 <=? i)%nat with false by (symmetry; apply Nat.leb_gt; lia). rewrite (proj2 (Z.eqb_neq _ best)) by done. rewrite hex_text_ok by done. cbn [mbind res_bind]. rewrite put_buf_ok by (rewrite length_app; cbn [length]; lia). cbn [mbind res_bind]. rewrite Nat2Z.id.
  set (h := hex (nth i g 0)) in *. assert (take (length acc + length h) (acc ++ h ++ [0]) = acc ++ h) as Et by (rewrite app_assoc, <- length_app; apply take_app_length). rewrite Et. split; [|rewrite !length_app; destruct (i <? 7)%nat; cbn [length]; lia].
  destruct (i <? 7)%nat; cbn [mbind res_bind]; [|by rewrite app_nil_r]. rewrite put_buf_ok by (rewrite length_app; cbn [length]; lia). cbn [mbind res_bind]. by rewrite <- app_assoc.
Qed.

(** The groups before the gap. *)
Lemma put_before n : ∀ k i acc, (i + n <= 7)%nat → (∀ j, i <= j < i + n → Z.of_nat j ≠ best)%nat → (length acc <= 5 * i)%nat →
  put_groups (n + k) g i best blen acc = put_groups k g (i + n) best blen (acc ++ colons (take n (drop i g))) ∧ (length (acc ++ colons (take n (drop i g))) <= 5 * (i + n))%nat.
Proof using Hg Hlen.
  induction n as [|n IH]; intros k i acc Hi Hb Ha; [rewrite take_0; cbn; rewrite app_nil_r, Nat.add_0_r; split; [done | lia]|]. destruct (group_at i ltac:(lia)) as [_ Ed]. destruct (put_group (n + k) i acc ltac:(lia) (Hb i ltac:(lia)) Ha) as [E1 E2]. replace (i <? 7)%nat with true in E1, E2 by (symmetry; apply Nat.ltb_lt; lia).
  cbn [Nat.add]. rewrite E1. destruct (IH k (S i) (acc ++ hex (nth i g 0) ++ [58]) ltac:(lia) ltac:(intros; apply Hb; lia) E2) as [E3 E4]. rewrite E3. rewrite Ed. cbn [take]. rewrite colons_cons. replace (i + S n)%nat with (S i + n)%nat by lia. rewrite <- !app_assoc in *. by split.
Qed.

(** The groups up to the end. *)
Lemma put_rest n : ∀ k i acc, (i + n = 8)%nat → (n <= k)%nat → (∀ j, i <= j → Z.of_nat j ≠ best)%nat → (length acc <= 5 * i)%nat →
  put_groups k g i best blen acc = Ok (acc ++ join (drop i g)) ∧ (length (acc ++ join (drop i g)) <= 40)%nat.
Proof using Hg Hlen.
  induction n as [|n IH]; intros k i acc Hi Hk Hb Ha.
  - rewrite (drop_ge g i) by lia. cbn [join]. rewrite app_nil_r. split; [|lia]. destruct k; [done|]. cbn [put_groups]. by replace (8 <=? i)%nat with true by (symmetry; apply Nat.leb_le; lia).
  - destruct k as [|k]; [lia|]. destruct (group_at i ltac:(lia)) as [_ Ed]. destruct (put_group k i acc ltac:(lia) (Hb i ltac:(lia)) Ha) as [E1 E2]. rewrite E1. destruct (IH k (S i) _ ltac:(lia) ltac:(lia) ltac:(intros; apply Hb; lia) E2) as [E3 E4]. rewrite E3. rewrite Ed. destruct n as [|n].
    + rewrite (drop_ge g (S i)) in * by lia. replace (i <? 7)%nat with false in * by (symmetry; apply Nat.ltb_ge; lia). cbn [join] in *. rewrite !app_nil_r in *. by split.
    + replace (i <? 7)%nat with true in * by (symmetry; apply Nat.ltb_lt; lia). destruct (group_at (S i) ltac:(lia)) as [_ Ed2]. rewrite Ed2 in *. change (join (nth i g 0 :: nth (S i) g 0 :: drop (S (S i)) g)) with (hex (nth i g 0) ++ 58 :: join (nth (S i) g 0 :: drop (S (S i)) g)). rewrite <- !app_assoc in *. cbn [app] in *. by split.
Qed.
End Groups.

(** ** The run that is compressed *)

Definition pattern (g : list Z) : list Z := (λ v, if v =? 0 then 0 else 1) <$> g.

Lemma pattern_nth g i : (i < length g)%nat → (nth i (pattern g) 0 =? 0) = (nth i g 0 =? 0).
Proof.
  intros Hi. destruct (lookup_lt_is_Some_2 g i Hi) as [v Hv]. assert (pattern g !! i = Some (if v =? 0 then 0 else 1)) as Hp by (unfold pattern; by rewrite list_lookup_fmap, Hv). rewrite (nth_lookup_Some _ _ 0 _ Hv), (nth_lookup_Some _ _ 0 _ Hp). by destruct (v =? 0).
Qed.

Lemma zero_run_pattern g : length g = 8%nat → ∀ k j, zero_run k (pattern g) j = zero_run k g j.
Proof. intros Hl. induction k as [|k IH]; intros j; cbn [zero_run]; [done|]. destruct (Nat.ltb_spec j 8); cbn [andb]; [|done]. rewrite pattern_nth by lia. by rewrite IH. Qed.

Lemma best_run_pattern g : length g = 8%nat → ∀ k i b l, best_run k (pattern g) i b l = best_run k g i b l.
Proof.
  intros Hl. induction k as [|k IH]; intros i b l; cbn [best_run]; [done|]. destruct (Nat.leb_spec 8 i); [done|]. rewrite pattern_nth by lia. by rewrite zero_run_pattern, !IH.
Qed.

(** The groups from [i] on that are zero, [n] of them. *)
Definition zeros_at (g : list Z) (i n : nat) : bool := (i + n <=? 8)%nat && forallb (λ j, nth j g 0 =? 0) (seq i n).

(** The longest run of at least two zeros, the first of them. *)
Definition run_ok (g : list Z) (best blen : Z) : bool :=
  let b := Z.to_nat best in
  let l := Z.to_nat blen in
  if best <? 0 then forallb (λ i, negb (zeros_at g i 2)) (seq 0 8)
  else (2 <=? blen) && zeros_at g b l && forallb (λ i, negb (zeros_at g i (S l)) && ((b <=? i)%nat || negb (zeros_at g i l))) (seq 0 8).

Fixpoint patterns (n : nat) : list (list Z) := match n with O => [[]] | S n => (cons 0 <$> patterns n) ++ (cons 1 <$> patterns n) end.

Lemma patterns_all g : pattern g ∈ patterns (length g).
Proof. induction g as [|v g IH]; cbn [pattern fmap list_fmap length patterns]; [by apply list_elem_of_singleton|]. apply elem_of_app. destruct (v =? 0); [left | right]; apply list_elem_of_fmap; by exists (pattern g). Qed.

Lemma zeros_at_pattern g i n : length g = 8%nat → zeros_at (pattern g) i n = zeros_at g i n.
Proof.
  intros Hl. unfold zeros_at. destruct (Nat.leb_spec (i + n) 8) as [H|H]; [|done]. cbn [andb]. assert (∀ m j, (j + m <= 8)%nat → forallb (λ j, nth j (pattern g) 0 =? 0) (seq j m) = forallb (λ j, nth j g 0 =? 0) (seq j m)) as E; [|by apply E].
  induction m as [|m IH]; intros j Hj; [done|]. cbn [seq forallb]. rewrite pattern_nth by lia. by rewrite IH by lia.
Qed.

Lemma best_run_ok g : length g = 8%nat → let '(best, blen) := best_run 8 g 0 (-1) 1 in run_ok g best blen = true.
Proof.
  intros Hl. rewrite <- best_run_pattern by done. destruct (best_run 8 (pattern g) 0 (-1) 1) as [best blen] eqn:E. assert (run_ok (pattern g) best blen = run_ok g best blen) as <-.
  { unfold run_ok. cbn [seq forallb]. by rewrite !zeros_at_pattern by done. }
  assert (forallb (λ p, let '(best, blen) := best_run 8 p 0 (-1) 1 in run_ok p best blen) (patterns 8) = true) as Hall by (vm_compute; reflexivity). rewrite forallb_forall in Hall. pose proof (patterns_all g) as Hp. rewrite Hl in Hp. apply list_elem_of_In in Hp. specialize (Hall _ Hp). by rewrite E in Hall.
Qed.

(** ** Groups and bytes *)

Lemma pair_bytes a b : is_byte a → is_byte b → let v := u16 (Z.lor (Z.shiftl a 8) b) in group_ok v ∧ u8 (Z.shiftr v 8) = a ∧ u8 v = b.
Proof.
  unfold is_byte. intros Ha Hb. cbn zeta. assert (Z.lor (Z.shiftl a 8) b = a * 256 + b) as E by (rewrite Z.shiftl_mul_pow2 by lia; apply (lor_add a b 8); lia). rewrite E. unfold group_ok, uwrap. rewrite Z.shiftr_div_pow2 by lia. change (2 ^ 16) with 65536. change (2 ^ 8) with 256. rewrite (Z.mod_small _ 65536) by lia. split; [lia|]. split; zdiv.
Qed.

Lemma groups_bytes a : Forall is_byte a → length a = 16%nat → group_bytes (groups_of a) = a ∧ Forall group_ok (groups_of a) ∧ length (groups_of a) = 8%nat.
Proof.
  intros Hb Hl. do 16 (destruct a as [|? a]; [done|]). destruct a; [|done]. repeat (apply Forall_cons in Hb as [? Hb]). unfold groups_of, byte_of, group_bytes. cbn [seq fmap list_fmap Nat.mul Nat.add nth concat app].
  split; [|split; [|done]].
  - repeat match goal with |- context [u16 (Z.lor (Z.shiftl ?x 8) ?y)] => let H := fresh in pose proof (pair_bytes x y ltac:(assumption) ltac:(assumption)) as H; cbn zeta in H; destruct H as (_ & -> & ->) end. done.
  - repeat (apply Forall_cons_2; [apply pair_bytes; assumption|]). apply Forall_nil_2.
Qed.

Lemma expand_gap g gap : (length g <= 7)%nat → (gap <= length g)%nat → expand 8 0 0 g (Z.of_nat gap) (8 - Z.of_nat (length g)) = take gap g ++ replicate (8 - length g) 0 ++ drop gap g.
Proof.
  intros Hl Hg. assert (gap = 0 ∨ gap = 1 ∨ gap = 2 ∨ gap = 3 ∨ gap = 4 ∨ gap = 5 ∨ gap = 6 ∨ gap = 7)%nat as H by lia.
  do 8 (destruct g as [|? g]; [cbn [length] in *; repeat (destruct H as [->|H]; [try lia; reflexivity|]); subst gap; try lia; reflexivity|]). cbn in Hl. lia.
Qed.

Lemma expand_full g : length g = 8%nat → expand 8 0 0 g (-1) 0 = g.
Proof. intros Hl. do 8 (destruct g as [|? g]; [done|]). destruct g; [reflexivity | done]. Qed.

(** ** Reading the text of an address *)

Lemma join_head v gs : group_ok v → ∃ h t, join (v :: gs) = h :: t ∧ h ≠ 0 ∧ h ≠ 58.
Proof.
  intros Hv. destruct (hex_len_ok v Hv) as (Hl & Hh & _). destruct (hex v) as [|h hs] eqn:Eh; [cbn in Hl; lia|]. apply Forall_cons in Hh as [(_ & H0 & Hd & _) _]. exists h. destruct gs; cbn [join]; rewrite Eh; eexists; (split; [reflexivity|]); (split; [lia|]); intros ->; by vm_compute in Hd.
Qed.

Lemma pton6_nil fuel gap g : pton6_loop fuel [] gap g = Ok (Some (g, gap)).
Proof. by destruct fuel. Qed.

Lemma pton6_full g : Forall group_ok g → length g = 8%nat → pton6 (join g) = Ok (Some (group_bytes g)).
Proof.
  intros Hg Hl. destruct g as [|v g0] eqn:Eg; [done|]. rewrite <- Eg in *. assert (group_ok v) as Hv by (rewrite Eg in Hg; by apply Forall_cons in Hg as [? _]). destruct (join_head v g0 Hv) as (h & t & Ej & H0 & H1). rewrite <- Eg in Ej. assert (cur (join g) = h) as Ec by (by rewrite Ej). unfold pton6. rewrite Ec, (proj2 (Z.eqb_neq h 58)) by done. cbn [andb].
  destruct (pton6_groups g (S (length (join g))) [] (-1) []) as (fuel' & _ & E); [by rewrite Eg | done | cbn; lia | by left | rewrite app_nil_r; lia|]. rewrite app_nil_r in E. cbn [tail app] in E. rewrite E, pton6_nil. cbn [mbind res_bind]. rewrite Hl. change (-1 <? 0) with true. change (Z.of_nat 8 =? 8) with true. cbn [negb]. change (8 - Z.of_nat 8) with 0. by rewrite expand_full.
Qed.

(** Text with a gap. *)
Lemma pton6_gap_text pre post : Forall group_ok pre → Forall group_ok post → (length pre + length post <= 7)%nat →
  pton6 (join pre ++ [58; 58] ++ join post) = Ok (Some (group_bytes (pre ++ replicate (8 - (length pre + length post)) 0 ++ post))).
Proof.
  intros Hpre Hpost Hl. set (tx := join pre ++ [58; 58] ++ join post).
  (* the loop after the first colon of the gap *)
  assert (∀ fuel, (length (join post) + 1 < fuel)%nat → pton6_loop fuel (58 :: join post) (-1) pre = Ok (Some (pre ++ post, Z.of_nat (length pre)))) as Hgap.
  { intros fuel Hf. destruct fuel as [|fuel]; [lia|]. cbn [pton6_loop cur]. change (58 =? 0) with false. change (58 =? 58) with true. change (0 <=? -1) with false. cbn iota. cbn [tail]. destruct post as [|v post]; [cbn; by rewrite app_nil_r|].
    assert (group_ok v) as Hv by (by apply Forall_cons in Hpost as [? _]). destruct (join_head v post Hv) as (h & t & Ej & H0 & _). rewrite Ej at 1. cbn [cur]. rewrite (proj2 (Z.eqb_neq h 0)) by done.
    destruct (pton6_groups (v :: post) fuel [] (Z.of_nat (length pre)) pre) as (fuel' & _ & E); [done | done | cbn [length] in *; lia | by left | rewrite app_nil_r; lia|]. rewrite app_nil_r in E. rewrite E. cbn [tail]. apply pton6_nil. }
  assert (∃ s, (cur tx =? 58) && negb (cur (tail tx) =? 58) = false ∧ (if cur tx =? 58 then tail tx else tx) = s ∧ pton6_loop (S (length s)) s (-1) [] = Ok (Some (pre ++ post, Z.of_nat (length pre)))) as (s & E1 & E2 & E3).
  { destruct pre as [|v pre].
    - exists (58 :: join post). split; [done|]. split; [done|]. apply Hgap. cbn [length]. lia.
    - assert (group_ok v) as Hv by (by apply Forall_cons in Hpre as [? _]). destruct (join_head v pre Hv) as (h & t & Ej & _ & H1). exists tx. assert (cur tx = h) as Ec by (unfold tx; by rewrite Ej). rewrite Ec, (proj2 (Z.eqb_neq h 58)) by done. split; [done|]. split; [done|].
      destruct (pton6_groups (v :: pre) (S (length tx)) ([58; 58] ++ join post) (-1) []) as (fuel' & Hf' & E); [done | done | cbn [length] in *; lia | right; by eexists | unfold tx; lia|]. unfold tx at 2. rewrite E. cbn [app tail]. apply Hgap. cbn [app tail length] in Hf'. lia. }
  unfold pton6. rewrite E1, E2, E3. cbn [mbind res_bind]. rewrite length_app. rewrite (proj2 (Z.ltb_ge (Z.of_nat (length pre)) 0)) by lia. rewrite (proj2 (Z.eqb_neq _ 8)) by lia. rewrite <- length_app, expand_gap by (rewrite length_app; lia). rewrite take_app_length, drop_app_length, length_app. done.
Qed.

(** ** Addresses that end in a dotted quad *)

Lemma dotted_head a b c d : 0 <= a < 256 → ∃ h t, dotted a b c d = h :: t ∧ digit h.
Proof.
  intros Ha. destruct (dec_byte_ok a Ha) as (Hl & Hd & _). unfold dotted. destruct (dec a) as [|h t]; [cbn in Hl; lia|]. apply Forall_cons in Hd as [Hd _]. exists h. by eexists.
Qed.

Lemma skip_digits_dec ds rest : Forall digit ds → is_digit (cur rest) = false → skip_digits (ds ++ rest) = rest.
Proof.
  intros Hd Hr. induction Hd as [|c ds Hc _ IH]; cbn [app skip_digits]; [|by rewrite digit_is_digit]. destruct rest as [|c rest]; [done|]. cbn [skip_digits cur] in *. by rewrite Hr.
Qed.

Definition pair (a b : Z) : Z := u16 (Z.lor (Z.shiftl a 8) b).

Lemma pton6_dotted fuel a b c d gap g : 0 <= a < 256 → 0 <= b < 256 → 0 <= c < 256 → 0 <= d < 256 → (length g <= 6)%nat →
  pton6_loop (S fuel) (dotted a b c d) gap g = Ok (Some (g ++ [pair a b; pair c d], gap)).
Proof.
  intros Ha Hb Hc Hd Hg. destruct (dotted_head a b c d Ha) as (h & t & E & Hh). unfold digit in Hh. assert (cur (dotted a b c d) = h) as Ec by (by rewrite E). cbn [pton6_loop]. rewrite Ec, (proj2 (Z.eqb_neq h 0)), (proj2 (Z.eqb_neq h 58)), (proj2 (Z.eqb_neq (Z.of_nat (length g)) 8)) by lia.
  assert (cur (skip_digits (dotted a b c d)) = 46) as -> by (unfold dotted; rewrite skip_digits_dec; [done | apply (dec_byte_ok a Ha) | done]). change (46 =? 46) with true. rewrite (proj2 (Z.ltb_ge 6 _)) by lia. pose proof (pton4_ok a b c d [] Ha Hb Hc Hd eq_refl) as H4. rewrite app_nil_r in H4. by rewrite H4.
Qed.

Lemma pton6_gap fuel s g : pton6_loop (S fuel) (58 :: s) (-1) g = if cur s =? 0 then Ok (Some (g, Z.of_nat (length g))) else pton6_loop fuel s (Z.of_nat (length g)) g.
Proof. reflexivity. Qed.

(** The forms with an IPv4 address at the end. *)
Definition mapped_text (mapped : bool) (a b c d : Z) : list Z := lit "::" ++ (if mapped then lit "ffff:" else []) ++ dotted a b c d.

Lemma pton6_mapped mapped a b c d : 0 <= a < 256 → 0 <= b < 256 → 0 <= c < 256 → 0 <= d < 256 →
  pton6 (mapped_text mapped a b c d) = Ok (Some (group_bytes (replicate 5 0 ++ [if mapped then 65535 else 0; pair a b; pair c d]))).
Proof.
  intros Ha Hb Hc Hd. destruct (dotted_head a b c d Ha) as (h & t & E & Hh). unfold digit in Hh. unfold pton6, mapped_text. change (lit "::") with [58; 58]. cbn [app cur tail]. change ((58 =? 58) && negb (58 =? 58)) with false. change (58 =? 58) with true. cbn iota. set (s := (if mapped then lit "ffff:" else []) ++ dotted a b c d).
  assert (cur s ≠ 0 ∧ (2 <= length s)%nat) as [Hs Hls]. { unfold s. destruct mapped; [change (lit "ffff:") with [102; 102; 102; 102; 58]; cbn [app cur length]; split; lia|]. cbn [app]. split; [rewrite E; cbn [cur]; lia|]. unfold dotted. rewrite length_app. cbn [length]. rewrite length_app. pose proof (dec_byte_ok a Ha). pose proof (dec_byte_ok b Hb). lia. }
  assert (pton6_loop (S (length (58 :: s))) (58 :: s) (-1) [] = Ok (Some ((if mapped then [65535] else []) ++ [pair a b; pair c d], 0))) as ->.
  { change (length (58 :: s)) with (S (length s)). generalize dependent (length s). intros n Hls. rewrite pton6_gap, (proj2 (Z.eqb_neq _ 0)) by done. change (Z.of_nat (length (@nil Z))) with 0. destruct n as [|[|n]]; [lia | lia|]. unfold s. destruct mapped.
    - assert (lit "ffff:" = hex 65535 ++ [58]) as -> by (vm_compute; reflexivity). rewrite <- app_assoc. cbn [app]. rewrite pton6_group; [| unfold group_ok; lia | cbn [length]; lia | by right]. cbn [cur tail]. change (58 =? 58) with true. cbn iota. rewrite E at 1. cbn [cur]. rewrite (proj2 (Z.eqb_neq h 0)) by lia. by rewrite pton6_dotted by (cbn; lia).
    - cbn [app]. by rewrite pton6_dotted by (cbn; lia). }
  by destruct mapped.
Qed.

(** ** Strings in the buffer *)

Lemma until_nul_text t : Forall (λ c, c ≠ 0) t → until_nul (t ++ [0]) = t.
Proof. induction 1 as [|c t Hc _ IH]; [done|]. cbn [app until_nul]. by rewrite (proj2 (Z.eqb_neq c 0)), IH. Qed.

Lemma hex_nonzero v : group_ok v → Forall (λ c, c ≠ 0) (hex v).
Proof. intros Hv. destruct (hex_len_ok v Hv) as (_ & Hh & _). eapply Forall_impl; [exact Hh|]. intros c (_ & ? & _) ->. lia. Qed.

Lemma join_nonzero gs : Forall group_ok gs → Forall (λ c, c ≠ 0) (join gs).
Proof.
  induction 1 as [|v gs Hv Hgs IH]; [constructor|]. destruct gs as [|w gs]; [by apply hex_nonzero|]. change (join (v :: w :: gs)) with (hex v ++ 58 :: join (w :: gs)). apply Forall_app_2; [by apply hex_nonzero|]. by apply Forall_cons_2.
Qed.

Lemma dotted_ok a b c d : 0 <= a < 256 → 0 <= b < 256 → 0 <= c < 256 → 0 <= d < 256 → Forall (λ c, c ≠ 0) (dotted a b c d) ∧ (length (dotted a b c d) <= 15)%nat.
Proof.
  intros Ha Hb Hc Hd. assert (∀ z, 0 <= z < 256 → Forall (λ c, c ≠ 0) (dec z)) as Hz. { intros z Hz. destruct (dec_byte_ok z Hz) as (_ & H & _). eapply Forall_impl; [exact H|]. unfold digit. intros x Hx ->. lia. }
  destruct (dec_byte_ok a Ha) as ([_ La] & _), (dec_byte_ok b Hb) as ([_ Lb] & _), (dec_byte_ok c Hc) as ([_ Lc] & _), (dec_byte_ok d Hd) as ([_ Ld] & _). unfold dotted. split; [|rewrite length_app; cbn [length]; rewrite length_app; cbn [length]; rewrite length_app; cbn [length]; lia].
  repeat first [apply Forall_app_2; [by apply Hz|] | apply Forall_cons_2; [done|] | by apply Hz].
Qed.

Lemma uint_texts zs : ∀ tx, Forall2 fa_text zs tx → Forall (λ f, ∃ l z, f = uint_farg l 117 z) zs → ∀ end_, text_with zs tx end_ = foldr (λ f s, fa_lit f ++ (match fa_arg f with VInt z => dec z | _ => [] end) ++ s) end_ zs.
Proof.
  induction zs as [|f zs IH]; intros tx Ht Hz end_; [done|]. apply Forall2_cons_inv_l in Ht as (t & tx' & Hf & Ht & ->). apply Forall_cons in Hz as [(l & z & ->) Hz]. cbn [uint_farg fa_text] in Hf. rewrite Hf. cbn [text_with foldr uint_farg fa_lit fa_arg]. by rewrite (IH tx' Ht Hz).
Qed.

(** ** What inet_ntop writes *)

(** The text of groups with the run of zeros at [best] left out. *)
Definition gap_text (g : list Z) (best blen : Z) : list Z :=
  if best <? 0 then join g else join (take (Z.to_nat best) g) ++ lit "::" ++ join (drop (Z.to_nat best + Z.to_nat blen) g).

(** The form RFC 5952 prescribes. *)
Definition canonical (g t : list Z) : Prop := ∃ best blen, run_ok g best blen = true ∧ t = gap_text g best blen.

Lemma run_facts g best blen : 0 <= best → run_ok g best blen = true → 2 <= blen ∧ (Z.to_nat best + Z.to_nat blen <= 8)%nat ∧ (∀ j, Z.to_nat best <= j < Z.to_nat best + Z.to_nat blen → nth j g 0%Z = 0%Z)%nat.
Proof.
  intros Hb H. unfold run_ok in H. rewrite (proj2 (Z.ltb_ge best 0)) in H by done. apply andb_true_iff in H as [H _]. apply andb_true_iff in H as [H1 H2]. unfold zeros_at in H2. apply andb_true_iff in H2 as [H2 H3]. split_and!; [lia | by apply Nat.leb_le|]. intros j Hj. rewrite forallb_forall in H3. specialize (H3 j ltac:(apply in_seq; lia)). lia.
Qed.

(** The groups are those around the run and zeros for the run. *)
Lemma run_split g b l : length g = 8%nat → (b + l <= 8)%nat → (∀ j, b <= j < b + l → nth j g 0%Z = 0%Z)%nat → take b g ++ replicate l 0 ++ drop (b + l) g = g.
Proof.
  intros Hl Hbl Hz. assert (replicate l 0 = take l (drop b g)) as ->.
  { apply list_eq. intros i. destruct (decide (i < l)%nat) as [Hi|Hi].
    - rewrite lookup_replicate_2 by done. rewrite lookup_take_lt by done. rewrite lookup_drop. destruct (lookup_lt_is_Some_2 g (b + i) ltac:(lia)) as [v Hv]. rewrite Hv. f_equal. rewrite <- (Hz (b + i)%nat ltac:(lia)). by apply nth_lookup_Some.
    - rewrite (lookup_ge_None_2 (replicate _ _)) by (rewrite length_replicate; lia). by rewrite lookup_take_ge by lia. }
  rewrite <- drop_drop. rewrite take_drop. apply take_drop.
Qed.

Lemma put_groups_text g best blen : Forall group_ok g → length g = 8%nat → run_ok g best blen = true → put_groups 8 g 0 best blen [] = Ok (gap_text g best blen) ∧ (length (gap_text g best blen) <= 40)%nat.
Proof.
  intros Hg Hl Hr. unfold gap_text. destruct (Z.ltb_spec best 0) as [Hb|Hb].
  - exact (put_rest g Hg Hl best blen 8 8 0 [] eq_refl ltac:(lia) ltac:(lia) ltac:(cbn; lia)).
  - destruct (run_facts g best blen Hb Hr) as (H2 & H8 & _). set (b := Z.to_nat best) in *. set (l := Z.to_nat blen) in *. assert (Z.of_nat b = best) as Eb by lia. destruct (put_before g Hg Hl best blen b (8 - b) 0 [] ltac:(lia) ltac:(lia) ltac:(cbn; lia)) as [E1 L1]. replace (b + (8 - b))%nat with 8%nat in E1 by lia. rewrite E1. clear E1. cbn [app Nat.add] in *. rewrite drop_0 in *. replace (8 - b)%nat with (S (7 - b)) by lia. cbn [put_groups]. change ([58] ++ (if (b =? 0)%nat then [58] else [])) with (58 :: (if (b =? 0)%nat then [58] else [])). replace (8 <=? b)%nat with false by (symmetry; apply Nat.leb_gt; lia). rewrite (proj2 (Z.eqb_eq (Z.of_nat b) best)) by done.
    assert (colons (take b g) ++ 58 :: (if (b =? 0)%nat then [58] else []) = join (take b g) ++ lit "::") as Et. { destruct (Nat.eqb_spec b 0) as [->|Hn]; [done|]. rewrite colons_join by (intros E%(f_equal length); rewrite length_take in E; cbn in E; lia). by rewrite <- app_assoc. }
    assert (length (58%Z :: (if (b =? 0)%nat then [58%Z] else [])) <= 2)%nat as Hp by (destruct (b =? 0)%nat; cbn [length]; lia). rewrite put_buf_ok by lia. cbn [mbind res_bind]. fold l.
    destruct (put_rest g Hg Hl best blen (8 - (b + l)) (7 - b) (b + l) (colons (take b g) ++ 58 :: (if (b =? 0)%nat then [58] else [])) ltac:(lia) ltac:(lia) ltac:(lia) ltac:(rewrite length_app; lia)) as [E2 L2]. rewrite E2. rewrite Et in *. rewrite <- app_assoc in *. by split.
Qed.

Lemma gap_text_nonzero g best blen : Forall group_ok g → Forall (λ c, c ≠ 0) (gap_text g best blen).
Proof.
  intros Hg. unfold gap_text. destruct (best <? 0); [by apply join_nonzero|]. apply Forall_app_2; [apply join_nonzero; by apply Forall_take|]. change (lit "::") with [58; 58]. apply Forall_app_2; [repeat constructor; lia|]. apply join_nonzero. by apply Forall_drop.
Qed.

Lemma pton6_gap_groups g best blen : Forall group_ok g → length g = 8%nat → run_ok g best blen = true → pton6 (gap_text g best blen) = Ok (Some (group_bytes g)).
Proof.
  intros Hg Hl Hr. unfold gap_text. destruct (Z.ltb_spec best 0) as [Hb|Hb]; [by apply pton6_full|]. destruct (run_facts g best blen Hb Hr) as (H2 & H8 & Hz). change (lit "::") with [58; 58]. assert (length (take (Z.to_nat best) g) = Z.to_nat best) as L1 by (rewrite length_take; lia). assert (length (drop (Z.to_nat best + Z.to_nat blen) g) = 8 - (Z.to_nat best + Z.to_nat blen))%nat as L2 by (rewrite length_drop; lia).
  rewrite pton6_gap_text by (try (by apply Forall_take); try (by apply Forall_drop); lia). rewrite L1, L2. replace (8 - (Z.to_nat best + (8 - (Z.to_nat best + Z.to_nat blen))))%nat with (Z.to_nat blen) by lia. by rewrite run_split.
Qed.

(** ** The legacy form reads a dotted quad as well *)

Lemma fold_dec_ge ds : ∀ v, 0 <= v → Forall digit ds → v <= foldl (λ a c, a * 10 + (c - 48)) v ds.
Proof. induction ds as [|c ds IH]; intros v Hv Hd; [done|]. apply Forall_cons in Hd as [Hc Hd]. unfold digit in Hc. cbn [foldl]. specialize (IH (v * 10 + (c - 48)) ltac:(lia) Hd). lia. Qed.

Lemma aton_digits_end rest base v any : base <= 16 → rest = [] ∨ cur rest = 46 → aton_digits rest base v any = Some (v, any, rest).
Proof. intros Hb [->|Hr]; [done|]. destruct rest as [|c rest]; [done|]. cbn [cur] in Hr. subst c. cbn [aton_digits]. change (if u32 (46 - 48) <? 10 then _ else _) with 99. by rewrite (proj2 (Z.leb_le base 99)) by lia. Qed.

Lemma aton_digits_dec ds : ∀ v any rest, Forall digit ds → 0 <= v → foldl (λ a c, a * 10 + (c - 48)) v ds <= 0xffffffff → rest = [] ∨ cur rest = 46 →
  aton_digits (ds ++ rest) 10 v any = Some (foldl (λ a c, a * 10 + (c - 48)) v ds, any || (0 <? length ds)%nat, rest).
Proof.
  induction ds as [|c ds IH]; intros v any rest Hd Hv Hm Hr; cbn [app foldl length].
  - rewrite aton_digits_end by (done || lia). by rewrite orb_false_r.
  - apply Forall_cons in Hd as [Hc Hd]. pose proof (digit_is_digit c Hc) as Hi. unfold is_digit in Hi. unfold digit in Hc. cbn [foldl] in Hm. pose proof (fold_dec_ge ds (v * 10 + (c - 48)) ltac:(lia) Hd) as Hge. cbn [aton_digits]. rewrite Hi, (proj2 (Z.leb_gt 10 _)), (proj2 (Z.ltb_ge 0xffffffff _)) by lia. rewrite IH by (done || lia). by rewrite orb_true_r.
Qed.

Lemma aton_part k v rest part : 0 <= v < 256 → rest = [] ∨ cur rest = 46 →
  aton_parts (S k) (dec v ++ rest) part = if negb (cur rest =? 46) || (k =? 0)%nat then Some (part ++ [v], rest) else aton_parts k (tail rest) (part ++ [v]).
Proof.
  intros Hv Hr. destruct (dec_byte_ok v Hv) as (Hlen & Hd & Hval & Hz). assert (cur (dec v ++ rest) = cur (dec v)) as Ec by (destruct (dec v); [cbn in Hlen; lia | done]). assert (is_digit (cur (dec v)) = true) as E1 by (destruct (dec v); [cbn in Hlen; lia|]; apply Forall_cons in Hd as [Hd _]; by apply digit_is_digit).
  cbn [aton_parts]. rewrite Ec, E1. cbn [negb]. destruct (Z.eqb_spec (cur (dec v)) 48) as [E|E].
  - specialize (Hz E). destruct (dec v) as [|c [|]]; cbn in Hz; try lia. cbn [cur] in E. subst c. cbn [app tail]. assert ((Z.lor (cur rest) 32 =? 120) = false) as -> by (destruct Hr as [->|Hr]; [done | by rewrite Hr]). change (48 :: rest) with ([48] ++ rest). cbn [app aton_digits]. change (if u32 (48 - 48) <? 10 then _ else _) with 0. change (8 <=? 0) with false. change (4294967295 <? 0 * 8 + 0) with false. cbn iota. rewrite aton_digits_end by (done || lia). change (0 * 8 + 0) with 0. cbn [negb andb]. change (dval [48]) with 0 in Hval. by subst v.
  - rewrite aton_digits_dec; [| done | lia | rewrite <- dval_foldl, Hval; lia | done]. rewrite <- dval_foldl, Hval. by replace (0 <? length (dec v))%nat with true by (symmetry; apply Nat.ltb_lt; lia).
Qed.

Lemma aton_dotted a b c d : 0 <= a < 256 → 0 <= b < 256 → 0 <= c < 256 → 0 <= d < 256 → inet_aton (dotted a b c d) = Some (Z.lor (Z.lor (Z.lor (Z.shiftl a 24) (Z.shiftl b 16)) (Z.shiftl c 8)) d).
Proof.
  intros Ha Hb Hc Hd. unfold inet_aton, dotted. do 3 (rewrite aton_part by (done || by right); cbn [cur tail Nat.eqb]; change (46 =? 46) with true; cbn [negb orb]). pose proof (aton_part 0 d [] [a; b; c] Hd (or_introl eq_refl)) as H. rewrite app_nil_r in H. change (negb (cur [] =? 46) || (0 =? 0)%nat) with true in H. cbn [app] in *. rewrite H. change (negb (cur [] =? 0) && negb (cur [] =? 32)) with false. cbn iota. by rewrite !(proj2 (Z.ltb_ge 255 _)) by lia.
Qed.

(** An address in memory, as the number the machine loads. *)
Definition load32 (a : list Z) : Z := foldr (λ b n, b + 256 * n) 0 a.

Lemma htonl_bytes a b c d : 0 <= a < 256 → 0 <= b < 256 → 0 <= c < 256 → 0 <= d < 256 → htonl (u32 (Z.lor (Z.lor (Z.lor (Z.shiftl a 24) (Z.shiftl b 16)) (Z.shiftl c 8)) d)) = load32 [a; b; c; d].
Proof.
  intros Ha Hb Hc Hd. assert (Z.lor (Z.lor (Z.lor (Z.shiftl a 24) (Z.shiftl b 16)) (Z.shiftl c 8)) d = ((a * 256 + b) * 256 + c) * 256 + d) as ->.
  { replace (Z.shiftl a 24) with (Z.shiftl (Z.shiftl a 8) 16) by (by rewrite Z.shiftl_shiftl). rewrite <- Z.shiftl_lor. rewrite (Z.shiftl_mul_pow2 a 8), (lor_add a b 8) by lia. replace (Z.shiftl (a * 2 ^ 8 + b) 16) with (Z.shiftl (Z.shiftl (a * 2 ^ 8 + b) 8) 8) by (by rewrite Z.shiftl_shiftl). rewrite <- Z.shiftl_lor, (Z.shiftl_mul_pow2 (a * 2 ^ 8 + b) 8), (lor_add (a * 2 ^ 8 + b) c 8), Z.shiftl_mul_pow2, (lor_add _ d 8) by lia. lia. }
  set (x := ((a * 256 + b) * 256 + c) * 256 + d). assert (u32 x = x) as -> by (apply uwrap_small; unfold x; lia).
  assert (x mod 256 = d ∧ (x / 256) mod 256 = c ∧ (x / 65536) mod 256 = b ∧ (x / 16777216) mod 256 = a) as (E1 & E2 & E3 & E4) by (unfold x; split_and!; zdiv).
  unfold htonl. change 0xff with (Z.ones 8). rewrite !Z.land_ones, !Z.shiftr_div_pow2 by lia. change (2 ^ 24) with 16777216. change (2 ^ 16) with 65536. change (2 ^ 8) with 256. rewrite E1, E2, E3, E4. cbn [load32 foldr].
  replace (Z.shiftl d 24) with (Z.shiftl (Z.shiftl d 8) 16) by (by rewrite Z.shiftl_shiftl). rewrite <- Z.shiftl_lor, (Z.shiftl_mul_pow2 d 8), (Z.shiftl_mul_pow2 b 8), (lor_add d c 8), (lor_add b a 8) by lia. rewrite Z.shiftl_mul_pow2 by lia. rewrite (lor_add (d * 2 ^ 8 + c) (b * 2 ^ 8 + a) 16) by lia. lia.
Qed.

(** ** Addresses and their texts *)

(** The text an address should have. *)
Inductive address_text : Z → list Z → list Z → Prop :=
  | text4 a b c d : address_text AF_INET [a; b; c; d] (dotted a b c d)
  | text6_mapped x a b c d : address_text AF_INET6 (group_bytes (replicate 5 0 ++ [x]) ++ [a; b; c; d]) (mapped_text (negb (x =? 0)) a b c d)
  | text6 a t : mapped_form (groups_of a) = false → canonical (groups_of a) t → address_text AF_INET6 a t.

Definition address (af : Z) (a : list Z) : Prop := Forall is_byte a ∧ (af = AF_INET ∧ length a = 4%nat ∨ af = AF_INET6 ∧ length a = 16%nat).

Lemma uints_ok {D} `{!Device D} str ls : Forall (λ p, plain p.1 ∧ 0 <= p.2 < 256) ls → Forall (farg_ok (D := D) str) ((λ p, uint_farg p.1 117 p.2) <$> ls).
Proof. induction 1 as [|p ls [H1 H2] _ IH]; cbn [fmap list_fmap]; [apply Forall_nil_2|]. apply Forall_cons_2; [|done]. apply uint_farg_ok; [done | by left | lia]. Qed.

Lemma plain_dot : plain [46].
Proof. by repeat constructor. Qed.

(** The numbers of a dotted quad as arguments, after a literal. *)
Definition quad_fargs (l : list Z) (a b c d : Z) : list farg := (λ p, uint_farg p.1 117 p.2) <$> [(l, a); ([46], b); ([46], c); ([46], d)].

Lemma quad_ok l a b c d : plain l → 0 <= a < 256 → 0 <= b < 256 → 0 <= c < 256 → 0 <= d < 256 → Forall (farg_ok (D := tape) []) (quad_fargs l a b c d).
Proof. intros Hl Ha Hb Hc Hd. apply uints_ok. repeat (apply Forall_cons_2; [split; [first [exact Hl | exact plain_dot] | assumption]|]). apply Forall_nil_2. Qed.

Lemma quad_text l a b c d tx : Forall2 fa_text (quad_fargs l a b c d) tx → text_with (quad_fargs l a b c d) tx [] = l ++ dotted a b c d.
Proof.
  intros Ht. rewrite (uint_texts _ tx Ht) by (repeat (apply Forall_cons_2; [by eexists _, _|]); apply Forall_nil_2). unfold quad_fargs, dotted. cbn [fmap list_fmap foldr fst snd uint_farg fa_lit fa_arg app]. by rewrite app_nil_r.
Qed.

Lemma print_dotted a b c d : 0 <= a < 256 → 0 <= b < 256 → 0 <= c < 256 → 0 <= d < 256 → ntop_text AF_INET [a; b; c; d] = Ok (dotted a b c d).
Proof.
  intros Ha Hb Hc Hd. destruct (dotted_ok a b c d Ha Hb Hc Hd) as [Hn Hl]. unfold ntop_text. change (AF_INET =? AF_INET) with true. cbn [byte_of nth].
  pose proof (vsnprintf_format INET6_ADDRSTRLEN (quad_fargs [] a b c d) [] ltac:(constructor) (quad_ok [] a b c d ltac:(constructor) Ha Hb Hc Hd) ltac:(vm_compute; discriminate) (dotted a b c d) (quad_text [] a b c d) ltac:(unfold INET6_ADDRSTRLEN; lia)) as H.
  change (format_of (quad_fargs [] a b c d) []) with (lit "%u.%u.%u.%u") in H. cbn [quad_fargs fmap list_fmap fst snd uint_farg fa_arg] in H. rewrite H. cbn [mbind res_bind]. by rewrite until_nul_text.
Qed.

Lemma print_mapped (m : bool) a b c d : 0 <= a < 256 → 0 <= b < 256 → 0 <= c < 256 → 0 <= d < 256 →
  vsnprintf INET6_ADDRSTRLEN (lit "::%s%u.%u.%u.%u") [VStr (Some (if m then lit "ffff:" else [])); VInt a; VInt b; VInt c; VInt d] [] = Ok (mapped_text m a b c d ++ [0], Z.of_nat (length (mapped_text m a b c d))) ∧ Forall (λ c, c ≠ 0) (mapped_text m a b c d) ∧ (length (mapped_text m a b c d) <= 22)%nat.
Proof.
  intros Ha Hb Hc Hd. destruct (dotted_ok a b c d Ha Hb Hc Hd) as [Hn Hl]. set (w := if m then lit "ffff:" else []). assert (length w <= 5)%nat as Hw by (destruct m; vm_compute; lia). assert (length (mapped_text m a b c d) <= 22)%nat as Hm by (unfold mapped_text; rewrite !length_app; fold w; change (length (lit "::")) with 2%nat; lia). split; [|split; [|done]].
  - set (fs := str_farg (lit "::") w :: quad_fargs [] a b c d). assert (Forall (farg_ok (D := tape) []) fs) as Hf. { apply Forall_cons_2; [|apply quad_ok; first [assumption | constructor]]. apply str_farg_ok. by repeat constructor. }
    pose proof (vsnprintf_format INET6_ADDRSTRLEN fs [] ltac:(constructor) Hf ltac:(unfold fs, w; destruct m; vm_compute; discriminate) (mapped_text m a b c d)) as H. change (format_of fs []) with (lit "::%s%u.%u.%u.%u") in H. cbn [fs quad_fargs fmap list_fmap fst snd uint_farg str_farg fa_arg] in H. apply H; [|unfold INET6_ADDRSTRLEN; lia].
    intros tx Ht. apply Forall2_cons_inv_l in Ht as (t & tx' & E & Ht & ->). cbn [str_farg fa_text] in E. subst t. unfold fs. cbn [text_with str_farg fa_lit]. change (uint_farg [] 117 a :: _) with (quad_fargs [] a b c d) in *. by rewrite (quad_text [] a b c d tx' Ht).
  - unfold mapped_text. apply Forall_app_2; [by repeat constructor|]. apply Forall_app_2; [|done]. fold w. unfold w. destruct m; by repeat constructor.
Qed.

(** An IPv6 address of the mapped or compatible form. *)
Lemma ntop_mapped a : Forall is_byte a → length a = 16%nat → mapped_form (groups_of a) = true →
  ∃ t, ntop_text AF_INET6 a = Ok t ∧ address_text AF_INET6 a t ∧ (length t <= 22)%nat ∧ pton6 t = Ok (Some a).
Proof.
  intros Hb Hl Hm. destruct (groups_bytes a Hb Hl) as (Ea & _ & _). do 16 (destruct a as [|? a]; [done|]). destruct a; [|done]. change (groups_of _) with [pair z z0; pair z1 z2; pair z3 z4; pair z5 z6; pair z7 z8; pair z9 z10; pair z11 z12; pair z13 z14] in Ea, Hm. unfold ntop_text. change (AF_INET6 =? AF_INET) with false. change (groups_of _) with [pair z z0; pair z1 z2; pair z3 z4; pair z5 z6; pair z7 z8; pair z9 z10; pair z11 z12; pair z13 z14]. rewrite Hm.
  set (x := pair z9 z10) in *. unfold mapped_form in Hm. cbn [take forallb nth] in Hm. repeat (apply andb_true_iff in Hm as [?%Z.eqb_eq Hm] || (apply andb_true_iff in Hm as [Hz Hm]; repeat (apply andb_true_iff in Hz as [?%Z.eqb_eq Hz]))).
  assert (pair z z0 = 0 ∧ pair z1 z2 = 0 ∧ pair z3 z4 = 0 ∧ pair z5 z6 = 0 ∧ pair z7 z8 = 0) as (E0 & E1 & E2 & E3 & E4) by done. rewrite E0, E1, E2, E3, E4 in *. assert (x = 65535 ∨ x = 0) as Hx by lia. cbn [nth byte_of].
  repeat (apply Forall_cons in Hb as [? Hb]). unfold is_byte in *. destruct (print_mapped (negb (x =? 0)) z11 z12 z13 z14) as (Hp & Hn & Hlen); [lia..|]. exists (mapped_text (negb (x =? 0)) z11 z12 z13 z14).
  assert ((if negb (x =? 0) then lit "ffff:" else []) = (if x =? 0 then [] else lit "ffff:")) as Ef by (by destruct (x =? 0)). rewrite Ef in Hp. rewrite Hp. cbn [mbind res_bind]. rewrite until_nul_text by done. split; [done|].
  assert ((if negb (x =? 0) then 65535 else 0) = x) as Ex by (destruct Hx as [-> | ->]; done). assert (group_bytes [0; 0; 0; 0; 0; x; pair z11 z12; pair z13 z14] = group_bytes (replicate 5 0 ++ [x]) ++ [z11; z12; z13; z14]) as Et.
  { unfold group_bytes. cbn [replicate app fmap list_fmap concat]. destruct (pair_bytes z11 z12) as (_ & F1 & F2); [unfold is_byte; lia..|]. destruct (pair_bytes z13 z14) as (_ & F3 & F4); [unfold is_byte; lia..|]. unfold pair. by rewrite F1, F2, F3, F4. }
  rewrite <- Ea. split_and!; [rewrite Et; apply text6_mapped | done|]. rewrite pton6_mapped by lia. by rewrite Ex.
Qed.

(** Any other IPv6 address. *)
Lemma ntop_groups a : Forall is_byte a → length a = 16%nat → mapped_form (groups_of a) = false →
  ∃ t, ntop_text AF_INET6 a = Ok t ∧ address_text AF_INET6 a t ∧ (length t <= 40)%nat ∧ pton6 t = Ok (Some a).
Proof.
  intros Hb Hl Hm. destruct (groups_bytes a Hb Hl) as (Ea & Hg & Hlg). pose proof (best_run_ok (groups_of a) Hlg) as Hr. unfold ntop_text. change (AF_INET6 =? AF_INET) with false. cbn iota zeta. rewrite Hm. destruct (best_run 8 (groups_of a) 0 (-1) 1) as [best blen]. destruct (put_groups_text _ best blen Hg Hlg Hr) as [E L].
  exists (gap_text (groups_of a) best blen). rewrite E. cbn [mbind res_bind]. rewrite put_buf_ok by (cbn [length]; lia). cbn [mbind res_bind]. rewrite until_nul_text by (by apply gap_text_nonzero). split_and!; [done | apply text6; [done | by exists best, blen] | done|]. by rewrite pton6_gap_groups, Ea.
Qed.

(** An IPv4 address. *)
Lemma ntop_quad a b c d : 0 <= a < 256 → 0 <= b < 256 → 0 <= c < 256 → 0 <= d < 256 →
  ∃ t, ntop_text AF_INET [a; b; c; d] = Ok t ∧ address_text AF_INET [a; b; c; d] t ∧ (length t <= 15)%nat ∧ pton4 t = Some ([a; b; c; d], []) ∧ inet_addr t = load32 [a; b; c; d].
Proof.
  intros Ha Hb Hc Hd. exists (dotted a b c d). destruct (dotted_ok a b c d Ha Hb Hc Hd) as [_ Hl]. pose proof (pton4_ok a b c d [] Ha Hb Hc Hd eq_refl) as H4. rewrite app_nil_r in H4. split_and!; [by apply print_dotted | constructor | done | done|]. unfold inet_addr. rewrite aton_dotted by done. by apply htonl_bytes.
Qed.


